(* ===== verification/_CoqProject ===== *)
-Q . S2P
Prelude.v
Float64.v
Addressing.v
Fingerprint.v
Domain.v
QspnPath.v
QspnConfig.v
QspnValidate.v
QspnRevise.v
QspnState.v
QspnEnter.v
QspnUpdateMap.v
QspnExample.v
QspnStateProps.v
QspnMapProps.v
QspnConnectivity.v
QspnFlood.v
QspnNetProps.v
QspnActor.v
QspnActorSafety.v
QspnSystem.v
QspnBootstrap.v
QspnActorProps.v
QspnSystemProps.v
PeerTuple.v
PeerDht.v
Auth.v
PeerState.v
PeerStateProps.v
PeerRouting.v
PeerRoutingProps.v
PeerWire.v
PeerWireProps.v
HookDomain.v
HookSearch.v
HookSearchProps.v
HookArc.v
HookArcProps.v
HookSystem.v
Coordinator.v
CoordProps.v
CoordFlood.v
CoordWire.v
CoordWireProps.v
Andna.v
AndnaActor.v
AndnaProps.v
AndnaCaps.v
AndnaSelect.v
AndnaWire.v
Identities.v
IdentWire.v
IdentProps.v
IdentEvents.v
IdentMigration.v
Netlink.v
Neighbor.v
NeighborActor.v
NeighborCost.v
NeighborProps.v
NeighborSystem.v
NeighborHandshake.v
KernelLaws.v
NetlinkProps.v
KernelAddr.v
KernelRoutes.v
KernelRoutesProps.v
KernelForward.v
NodeView.v
NodeViewProps.v
NodeCodec.v
NodeArbiter.v
NodeArbiterProps.v
NodeRegistry.v
NodeRegistryProps.v
QspnWire.v
HookRouting.v
HookRoutingProps.v
HookWire.v
RpcTransport.v
