(* ===== verification/Prelude.v ===== *)
(** * netsukuku-rs: a verification development

    netsukuku-rs is a Rust implementation of the Netsukuku mesh protocol.  A
    network is a hierarchy of g-nodes: an address ([Naddr]) is one position per
    level, and a node knows, at each level, the g-nodes beside its own.  The
    routing protocol, QSPN v2, floods Extended Tracer Packets (ETPs): each node
    keeps a map from g-nodes to disjoint paths, merges what its neighbours tell,
    and forwards what changed.  On it stand the services that let nodes find each
    other, join and merge networks, and name themselves; below it the daemon keeps
    the kernel's routes.

    ** The parts and how they interact

    - [ntk-common] holds the types every crate shares: topology, addresses,
      coordinates of a g-node as seen from an address, link costs, fingerprints.
      [ntk-proto] converts them to and from protobuf messages and signs messages.
    - [ntk-neighborhood] finds the neighbours on each interface, agrees on an arc
      with each, pins the arc to the neighbour's key and measures its cost.
    - [ntk-identities] keeps the identities of a node and the arcs between them and
      those of the neighbours, through the migrations of either side.
    - [ntk-qspn] is the routing protocol of one identity.  An actor owns the state
      and handles one command at a time; commands come from the rest of the daemon,
      from incoming RPCs and from the tasks the actor spawned.
    - [ntk-peerservices] routes a request, hop by hop, to the participant of a
      service that is closest to a key.  [ntk-coordinator] is the service that hands
      out positions in a g-node and floods orders to its members; [ntk-andna] is the
      name service.  Both run over it.
    - [ntk-hooking] decides with each neighbour of another network which of the two
      enters the other, and searches a place with a chain of migrations.
    - [ntk-rpc] carries the calls of all of them over one connection per neighbour.
    - [ntk-netlink] is the kernel surface; [ntkd] composes everything: it installs
      addresses and routes, answers what the other crates ask of the map
      ([adapters.rs]), and elects who may enter.

    ** The files

    Shared types, codec and routing:
    - [Prelude]: results that keep [Ok], [Err] and panic apart, their monad,
      [for] loops ([foldM], [foldS]), slices and iterators, machine integers,
      the iteration order of hash maps; the tactics and the hint database [ntk].
    - [Float64]: the binary64 arithmetic of the path-overlap tolerance.
    - [Addressing], [Fingerprint]: [crates/ntk-common/src].  [Domain]:
      [crates/ntk-proto/src/domain.rs].  [Auth]: [auth.rs] and [envelope.rs] of
      [ntk-proto], [origin_auth.rs] of [ntk-peerservices].
    - [QspnPath], [QspnConfig], [QspnValidate], [QspnRevise], [QspnState],
      [QspnEnter], [QspnUpdateMap], [QspnConnectivity], [QspnFlood]: the files
      [path.rs], [events.rs], [snapshot.rs], [config.rs], [validate.rs],
      [revise.rs], [state.rs], [flood.rs] of [crates/ntk-qspn/src].
    - [QspnActor]: the handlers of [manager.rs], one definition each, in a monad
      of actor state, effects and panics.  [QspnActorSafety]: a
      weakest-precondition calculus for it.  [QspnSystem]: the actor with its
      pending tasks; [reachable] is what any interleaving can produce.
      [QspnBootstrap]: the bootstrap phase.  [QspnExample]: a concrete node.
    - [QspnStateProps], [QspnMapProps], [QspnNetProps], [QspnActorProps],
      [QspnSystemProps]: the theorems on the parts above.
    - [QspnWire]: [wire.rs] and [rpc.rs]: the messages as typed values and the
      dispatch of inbound calls to the actor.

    Services over peers:
    - [PeerTuple] ([tuple.rs], [hashnode.rs]), [PeerDht] (what the distance and the
      hops compute), [PeerState] ([service.rs], [participation.rs], [actor.rs]),
      [PeerRouting] ([routing.rs], [stub.rs]), [PeerWire] ([wire.rs], [handler.rs],
      [gossip.rs]), with [PeerStateProps], [PeerRoutingProps], [PeerWireProps].
    - [HookDomain] ([domain.rs], [view.rs], [merge.rs], [idgen.rs]), [HookSearch]
      ([search.rs]), [HookArc] ([arc.rs], [manager.rs]), with [HookSearchProps],
      [HookArcProps] and [HookSystem] (the actor, its mailbox and the handlers).
      [HookRouting] ([routing.rs]): the messages between g-nodes, with
      [HookRoutingProps] (one message carried through a network of nodes, and
      many at once); [HookWire] ([wire.rs], the calls of [rpc.rs] and of the stub).
    - [Coordinator] ([domain.rs], [actor.rs]), [CoordWire] ([wire.rs],
      [service.rs], [client.rs]), with [CoordProps], [CoordFlood] (a network of
      coordinators and the messages under way), [CoordWireProps].
    - [Andna] ([hostname.rs], [snsd.rs], [record.rs], [counter.rs]), [AndnaActor]
      ([actor.rs], [wire.rs], [service.rs], [substrate.rs]), with [AndnaProps],
      [AndnaCaps], [AndnaSelect], [AndnaWire].

    Links and identities:
    - [Identities] ([registry.rs], [actor.rs]), [IdentWire] ([wire.rs],
      [rpc_handler.rs], the spawned tasks), with [IdentProps], [IdentEvents],
      [IdentMigration].
    - [Neighbor] ([cost_model.rs], [timing.rs], [node_id.rs], [rtt.rs]),
      [NeighborActor] ([manager.rs], [handler.rs], [wire.rs]), with [NeighborCost],
      [NeighborProps], [NeighborSystem], [NeighborHandshake] (two nodes on a link).

    Kernel and daemon:
    - [Netlink]: [crates/ntk-netlink/src], the traits as a class, the table
      allocator, the kernel in memory, the sweep.  [KernelLaws]: the contract of
      the traits, discharged by the kernel in memory.  [NetlinkProps].
    - [KernelAddr] ([kernel/addressing.rs]), [KernelRoutes] ([kernel/routes.rs] of
      [crates/ntkd/src]), with [KernelRoutesProps] and [KernelForward].
    - [NodeView]: what the daemon tells its services of the network
      ([node/adapters.rs]), with [NodeViewProps].  [NodeCodec] ([node/codec.rs]) and
      [NodeArbiter]: the enter elections and the merge verdicts, with
      [NodeArbiterProps].  [NodeRegistry]: [node/registry.rs], [node/peers.rs] and
      the choice of a gateway, and [node/dispatch.rs], with [NodeRegistryProps].
    - [RpcTransport]: [client.rs] and [server.rs] of [crates/ntk-rpc/src], the two
      ends of a connection and both together.

    Names are the source's, prefixed where two crates use the same one.  A
    [&mut self] method takes the state and returns the state it leaves, also on an
    error.  A handler's outward actions are its list of effects, in order: events,
    published snapshots, replies, spawned tasks.

    ** What the theorems show

    - QSPN: in every reachable state no command that meets the conditions of its
      caller ([cmd_ok]) panics, the state invariant holds,
      the timers agree with the state, what is sent is accepted by the receivers,
      across the wire; no call of a neighbour panics the node.
      An update of the map never invents a path, removes what was withdrawn,
      announces every change and admits paths within a hard bound; a full ETP
      brings the map in line with its sender.
    - Shared types: the cost algebra, the divergence coordinate, agreement and order
      of fingerprints, the codec as a bijection with the messages it accepts; a
      signature binds every field and no sequence number is accepted twice.
    - Peer services: where the actors of the nodes know the network ([ready]), a
      request passed on by [forward_msg] reaches the participant closest to its key;
      no bytes of a peer break the actor's invariant; searches are bounded.
    - Hooking: one handler commits at a time; a slot that was granted is given back;
      the search ends and its chain of migrations moves every g-node to the
      address the next one leaves; of two networks exactly one enters; a step that
      is asked of another g-node is the local one of a member of it, answers never
      cross unless a packet id is drawn twice, and the wire changes nothing
      that is within its ranges.
    - Coordinator: no position or eldership is promised twice while it is booked,
      as long as the map offers real positions and no replica arrives; an
      order reaches exactly the members of a g-node; client and servant agree
      through the wire, and a client takes the answer of another kind for an error
      where it reads the answer.
    - ANDNA: a name belongs to the key that registered it until it expires; the
      stores stay within their caps; on a node that serves its own calls a
      registered name resolves to its records, by priority and with the weights as
      probabilities.
    - Identities: the invariant of the actor, the completeness of its event stream,
      what an aborted migration leaves, what two ends know of each other.
    - Neighbourhood: the kernel's neighbours, the announced arcs and the monitors are
      those of the arcs; a key stays pinned; one beacon establishes an arc on
      both sides; the smoothed cost follows the link.
    - Kernel: after an installation the table forwards every address by the
      divergence coordinate of its node; a teardown leaves nothing behind whatever
      failed before; identities do not touch each other's routes; a restart after
      a crash sweeps what was left and nothing else.
    - Daemon: the node count is the size of the network; a position that is handed
      out belongs to no member; a foreign position is one that was never confirmed;
      the eldership cache follows QSPN; one candidate per level enters, also
      across coordinators that hold the replicated record; a merge is decided once;
      links keep their ids and a gateway that failed is not proposed again; a call
      reaches the identity it names.
    - Transport: a response belongs to its call, however many share the connection.
    - Where the code does not do what it says, a theorem exhibits it (late replicas,
      stale handlers, lost dismissals, releases that go to the wrong coordinator,
      positions too high for the wire, handlers that panic, exhausted counters).

    ** Parameters, bounds and fuel

    - Hash maps: [HashOrder] is any order that lists each entry once.
    - The network: the answer to an outgoing call is an error or any message
      within the ranges of its Rust types ([message_typed], [payload_typed],
      [request_typed], [router_typed]); it may be malformed in every other way.
      What a search or a contact meets is given per attempt ([ContactWorld],
      [ForwardWorld], [SearchRouter]).
    - Between crates: [QspnView], [CoordinatorMap], [EnterHandlers] and
      [PeerService] are what one asks of another; [NodeView] builds the first two
      from the daemon, [NbEnv] is what the neighbourhood reads of its surroundings,
      [Gateways] what hooking relies on of the gateways QSPN finds,
      [Substrate] the peer services as ANDNA sees them.
    - Libraries: [Crypto] (Ed25519, BLAKE3: lengths and the sign/verify law, no
      strength), [ProstMessage] and [TomlDoc] (round-trip laws of the encodings),
      [Rng] (the range of a draw), [Netlink] with [KernelLaws] (what the kernel
      promises).  Each has an instance that the witnesses evaluate.
    - Random sources are the lists of the values they yield; clocks are inputs.
      A loop that draws until a value is free finds one in its list (a condition of
      [cmd_ok] for the arcs of QSPN).
    - [update_naddr], the closure given to [make_connectivity], yields
      well-formed addresses of the topology and moves the node to a position
      none of its paths crosses and that is virtual at the level it frees, which
      [debug_assert_eq!] checks ([rebase_ok]).
    - Integers are [Z] within the range of their type, or [nat] for lengths and
      levels; arithmetic that can overflow in Rust saturates, wraps, panics or is
      checked as the source says.
    - Fuel: [first_populated] has the levels left to scan; [try_forward] and the
      attempts of [contact_peer] the configured numbers, as the code; [forward_loop]
      any number of rounds, since the code's loop has no bound;
      [bfs_loop] has any amount, and one that is enough is proved to exist for every
      network ([migration_search_ends]); [flood_run] the total degree of the network,
      proved enough; [carry] any number of hops, and enough of them are proved to
      exist where gateways converge ([routed_search_exact]); the drawing of fresh
      ids the length of the list of draws; the folding of carries in the checksum two rounds, proved enough.

    ** What is not modelled

    The channels that carry events, snapshots and replies to their readers;
    logging and the texts of errors; cancellation of a whole actor; time as a
    driver (a pending timer may fire at any step); sockets, TLS and process
    start-up (the sockets and the framing of [ntk-rpc], [real.rs] of [ntk-netlink], the
    ICMP socket); the test
    doubles other than the kernel in memory; and of the daemon the lifecycle
    and supervision tasks, the RPC stubs, the status and command-line
    interfaces, the configuration file and the preflight checks: code that moves
    handles between the parts above and calls the operating system. *)
From Stdlib Require Import ZArith Lia.
From stdpp Require Export prelude gmap list sorting.

#[export] Set Warnings "-clear-no-such-hyp".

(** ** Outcomes of Rust functions

    A fallible Rust function either returns [Ok], returns [Err], or panics
    ([expect] on [None], [assert!], an index out of bounds, an arithmetic
    overflow).  The three are kept apart, so that "never panics" is a theorem
    and not a convention. *)
Inductive res (E A : Type) : Type :=
  | Ok (a : A)
  | Err (e : E)
  | Panic.
Arguments Ok {E A} a.
Arguments Err {E A} e.
Arguments Panic {E A}.

#[export] Instance res_ret {E} : MRet (res E) := λ A a, Ok a.
#[export] Instance res_bind {E} : MBind (res E) := λ A B f m,
  match m with
  | Ok a => f a
  | Err e => Err e
  | Panic => Panic
  end.
#[export] Instance res_fmap {E} : FMap (res E) := λ A B f m,
  match m with
  | Ok a => Ok (f a)
  | Err e => Err e
  | Panic => Panic
  end.

(** [Result::map_err], the conversion the [?] operator inserts. *)
Definition map_err {E E' A} (f : E → E') (m : res E A) : res E' A :=
  match m with
  | Ok a => Ok a
  | Err e => Err (f e)
  | Panic => Panic
  end.

(** [Option::ok_or] and [Option::expect]. *)
Definition ok_or {E A} (o : option A) (e : E) : res E A :=
  match o with Some a => Ok a | None => Err e end.
Definition expect {E A} (o : option A) : res E A :=
  match o with Some a => Ok a | None => Panic end.

(** [Result::expect]: an error becomes a panic. *)
Definition unwrap {E E' A} (m : res E A) : res E' A :=
  match m with Ok a => Ok a | _ => Panic end.

(** [Result::ok]: an error becomes [None]; a panic is not caught. *)
Definition res_ok {E E' A} (m : res E A) : res E' (option A) :=
  match m with
  | Ok a => Ok (Some a)
  | Err _ => Ok None
  | Panic => Panic
  end.

(** A [for] loop whose body can fail, with the loop's mutable variables as the
    accumulator. *)
Fixpoint foldM {E A B} (f : B → A → res E B) (b : B) (l : list A) : res E B :=
  match l with
  | [] => Ok b
  | a :: l' => b' ← f b a; foldM f b' l'
  end.

(** A [&mut self] method returns the state it leaves behind together with its
    result: an early return by [?] keeps the changes made before it. *)
Definition sbind {S E A B} (m : S * res E A) (f : S → A → S * res E B) : S * res E B :=
  match m with
  | (s, Ok a) => f s a
  | (s, Err e) => (s, Err e)
  | (s, Panic) => (s, Panic)
  end.
Notation "'do' ( s , x ) ← m ; k" := (sbind m (λ s x, k))
  (at level 100, s name, x name, m at level 95, k at level 200, right associativity).

(** A [for] loop over a mutable state and an accumulator. *)
Fixpoint foldS {S E A B} (f : S → B → A → S * res E B) (s : S) (b : B) (l : list A) : S * res E B :=
  match l with
  | [] => (s, Ok b)
  | a :: l' => do (s', b') ← f s b a; foldS f s' b' l'
  end.

(** [assert!] *)
Definition assert {E} (b : bool) : res E unit := if b then Ok tt else Panic.

(** [Iterator::filter_map] with a body that can panic. *)
Fixpoint filter_mapM {E A B} (f : A → res E (option B)) (l : list A) : res E (list B) :=
  match l with
  | [] => Ok []
  | a :: l' =>
      o ← f a;
      bs ← filter_mapM f l';
      Ok (match o with Some b => b :: bs | None => bs end)
  end.

Definition is_Ok {E A} (m : res E A) : Prop := ∃ a, m = Ok a.

(** ** Machine integers *)
Definition U32_MAX : Z := 2 ^ 32 - 1.
Definition U64_MAX : Z := 2 ^ 64 - 1.
Definition U128_MAX : Z := 2 ^ 128 - 1.
Definition is_u32 (z : Z) : Prop := (0 ≤ z ≤ U32_MAX)%Z.
Definition is_u64 (z : Z) : Prop := (0 ≤ z ≤ U64_MAX)%Z.
Definition is_u8 (z : Z) : Prop := (0 ≤ z < 256)%Z.

(** [u64::saturating_add] and [usize::saturating_mul] (64-bit targets). *)
Definition u64_saturating_add (a b : Z) : Z := Z.min (a + b) U64_MAX.
Definition usize_saturating_mul (a b : Z) : Z := Z.min (a * b) U64_MAX.
(** [u128::checked_mul]. *)
Definition u128_checked_mul (a b : Z) : option Z :=
  if (a * b <=? U128_MAX)%Z then Some (a * b)%Z else None.
(** [+] on [u64]: an overflow panics. *)
Definition u64_add {E} (a b : Z) : res E Z :=
  if (a + b <=? U64_MAX)%Z then Ok (a + b)%Z else Panic.

(** [+] on [u32]. *)
Definition u32_add {E} (a b : Z) : res E Z :=
  if (a + b <=? U32_MAX)%Z then Ok (a + b)%Z else Panic.

(** [*] and [+] on [u128]. *)
Definition u128_mul {E} (a b : Z) : res E Z :=
  if (a * b <=? U128_MAX)%Z then Ok (a * b)%Z else Panic.
Definition u128_add {E} (a b : Z) : res E Z :=
  if (a + b <=? U128_MAX)%Z then Ok (a + b)%Z else Panic.

(** ** Iteration order of the standard collections

    [HashMap] iterates in an unspecified order.  Every definition that walks a
    [HashMap] takes the order from this class, and every theorem holds for
    every instance of it: the order is any function that lists each entry
    exactly once.  [BTreeMap] iterates in ascending key order ([bt_iter]). *)
Class HashOrder := {
  hm_iter : ∀ {K : Type} `{Countable K} {V : Type}, gmap K V → list (K * V);
  hm_iter_perm : ∀ {K : Type} `{Countable K} {V : Type} (m : gmap K V),
    hm_iter m ≡ₚ map_to_list m
}.

(** The order the executable examples use. *)
#[refine] Definition map_order : HashOrder := {|
  hm_iter := λ K _ _ V m, map_to_list m;
|}.
Proof. done. Defined.

(** ** Slices and iterators *)

(** [slice::sort_by] / [sort_by_key]: stable.  An element is inserted in front
    of the elements already sorted that it does not exceed, and the elements are
    inserted from the last to the first, so equal elements keep their order. *)
Section StableSort.
Context {A : Type} (le : A → A → bool).

Fixpoint insert_by (x : A) (l : list A) : list A :=
  match l with
  | [] => [x]
  | y :: l' => if le x y then x :: y :: l' else y :: insert_by x l'
  end.

Definition sort_by (l : list A) : list A := foldr insert_by [] l.

(** [Iterator::min_by_key]: the first of the least elements. *)
Fixpoint min_by_from (best : A) (l : list A) : A :=
  match l with
  | [] => best
  | y :: l' => min_by_from (if le best y then best else y) l'
  end.

Definition min_by (l : list A) : option A :=
  match l with
  | [] => None
  | x :: l' => Some (min_by_from x l')
  end.
End StableSort.

(** [BTreeMap] iteration: ascending keys. *)
Definition bt_iter {V} (m : gmap Z V) : list (Z * V) :=
  sort_by (λ a b, (a.1 <=? b.1)%Z) (map_to_list m).

(** [Iterator::position] and [Iterator::enumerate]. *)
Fixpoint position {A} (f : A → bool) (l : list A) : option nat :=
  match l with
  | [] => None
  | x :: l' => if f x then Some 0 else S <$> position f l'
  end.

Definition enumerate {A} (l : list A) : list (nat * A) := zip (seq 0 (length l)) l.

(** [Iterator::any], [Iterator::all] and [Iterator::find]. *)
Definition any {A} (f : A → bool) (l : list A) : bool := existsb f l.
Definition all {A} (f : A → bool) (l : list A) : bool := forallb f l.
Definition find {A} (f : A → bool) (l : list A) : option A := List.find f l.
(** [Vec::contains]. *)
Definition contains `{EqDecision A} (x : A) (l : list A) : bool := bool_decide (x ∈ l).
(** [Vec::retain] and [Iterator::filter]. *)
Definition retain {A} (f : A → bool) (l : list A) : list A := List.filter f l.

(** ** Automation

    [ntk] holds the resolution lemmas of the development, and the rewriting
    base [ntk] the equations that evaluate iterator expressions. *)
Create HintDb ntk.
Create Rewrite HintDb ntk.

Lemma bind_Ok {E A B} (m : res E A) (f : A → res E B) b :
  (m ≫= f) = Ok b → ∃ a, m = Ok a ∧ f a = Ok b.
Proof. destruct m; cbn; naive_solver. Qed.

Lemma bind_Ok_intro {E A B} (m : res E A) (f : A → res E B) a b :
  m = Ok a → f a = Ok b → (m ≫= f) = Ok b.
Proof. by intros ->. Qed.

Lemma bind_is_Ok {E A B} (m : res E A) (f : A → res E B) :
  is_Ok m → (∀ a, m = Ok a → is_Ok (f a)) → is_Ok (m ≫= f).
Proof. intros [a ->] H. by apply H. Qed.

Lemma map_err_Ok {E E' A} (f : E → E') (m : res E A) a :
  map_err f m = Ok a ↔ m = Ok a.
Proof. destruct m; cbn; naive_solver. Qed.

Lemma map_err_is_Ok {E E' A} (f : E → E') (m : res E A) :
  is_Ok (map_err f m) ↔ is_Ok m.
Proof. unfold is_Ok. by setoid_rewrite map_err_Ok. Qed.

Lemma ok_or_Ok {E A} (o : option A) (e : E) a : ok_or o e = Ok a ↔ o = Some a.
Proof. destruct o; cbn; naive_solver. Qed.

Lemma expect_Ok {E A} (o : option A) a : (expect o : res E A) = Ok a ↔ o = Some a.
Proof. destruct o; cbn; naive_solver. Qed.

Lemma Ok_is_Ok {E A} (a : A) : is_Ok (Ok a : res E A).
Proof. by eexists. Qed.
#[export] Hint Resolve Ok_is_Ok : ntk.

(** Comparisons of the code stay folded under [cbn]. *)
#[global] Arguments Nat.ltb : simpl never.
#[global] Arguments Nat.leb : simpl never.
#[global] Arguments Nat.eqb : simpl never.
#[global] Arguments any : simpl never.
#[global] Arguments all : simpl never.
#[global] Arguments retain : simpl never.
#[global] Arguments find : simpl never.
#[global] Arguments contains : simpl never.

(** Inverts every equation [m = Ok _] built from binds, [map_err], [ok_or] and
    [expect]. *)
Ltac res_inv :=
  repeat match goal with
  | H : (_ ≫= _) = Ok _ |- _ => apply bind_Ok in H as (? & ? & H)
  | H : mbind _ _ = Ok _ |- _ => apply bind_Ok in H as (? & ? & H)
  | H : map_err _ _ = Ok _ |- _ => apply map_err_Ok in H
  | H : ok_or _ _ = Ok _ |- _ => apply ok_or_Ok in H
  | H : expect _ = Ok _ |- _ => apply expect_Ok in H
  | H : Ok _ = Ok _ |- _ => injection H as H; subst
  | H : Err _ = Ok _ |- _ => discriminate H
  | H : Panic = Ok _ |- _ => discriminate H
  end.

(** Case analysis on the scrutinee of a [match] or [if] in a hypothesis. *)
Ltac case_in H :=
  match type of H with
  | context [if ?b then _ else _] => destruct b eqn:?
  | context [match ?x with _ => _ end] => destruct x eqn:?
  end.

(** Boolean tests of the code, as propositions. *)
Ltac bool_to_prop :=
  rewrite ?andb_true_iff, ?orb_true_iff, ?andb_false_iff, ?orb_false_iff,
    ?negb_true_iff, ?negb_false_iff, ?bool_decide_eq_true, ?bool_decide_eq_false,
    ?Z.leb_le, ?Z.ltb_lt, ?Z.eqb_eq, ?Z.leb_gt, ?Z.ltb_ge, ?Z.eqb_neq,
    ?Nat.leb_le, ?Nat.ltb_lt, ?Nat.eqb_eq, ?Nat.leb_gt, ?Nat.ltb_ge, ?Nat.eqb_neq in *.

Section FoldM.
Context {E A B : Type} (f : B → A → res E B).

Lemma foldM_app b l1 l2 : foldM f b (l1 ++ l2) = (b' ← foldM f b l1; foldM f b' l2).
Proof. revert b. induction l1 as [|a l1 IH]; intros b; [done|]. cbn. destruct (f b a); cbn; [apply IH|done..]. Qed.

(** An invariant indexed by the elements already consumed. *)
Lemma foldM_inv (P : list A → B → Prop) b l b' :
  P [] b →
  (∀ pre a c c', pre ++ [a] `prefix_of` l → P pre c → f c a = Ok c' → P (pre ++ [a]) c') →
  foldM f b l = Ok b' → P l b'.
Proof.
  intros H0 Hs. revert b'. induction l as [|a l IH] using rev_ind; intros b' Hf.
  { by simplify_eq/=. }
  rewrite foldM_app in Hf. apply bind_Ok in Hf as (c & Hc & Hf). cbn in Hf. res_inv.
  eapply Hs; [done| |done]. apply IH; [|done].
  intros pre a' d d' Hp. apply Hs. by apply prefix_app_r.
Qed.

(** The body never fails under an invariant of the accumulator. *)
Lemma foldM_total (P : B → Prop) b l :
  P b → (∀ c a, a ∈ l → P c → ∃ c', f c a = Ok c' ∧ P c') → ∃ b', foldM f b l = Ok b' ∧ P b'.
Proof.
  revert b. induction l as [|a l IH]; intros b Hb Hs; cbn; [eauto|].
  destruct (Hs b a) as (c & -> & Hc); [by left|done|]. cbn. apply IH; [done|].
  intros ????. apply Hs; [by right|done].
Qed.

(** The same with the elements already consumed. *)
Lemma foldM_total_inv (P : list A → B → Prop) b l :
  P [] b →
  (∀ pre c a, pre ++ [a] `prefix_of` l → P pre c → ∃ c', f c a = Ok c' ∧ P (pre ++ [a]) c') →
  ∃ b', foldM f b l = Ok b' ∧ P l b'.
Proof.
  intros H0 Hs. induction l as [|a l IH] using rev_ind; cbn; [eauto|].
  destruct IH as (c & Hc & HP).
  { intros pre c a' Hp. apply Hs. by apply prefix_app_r. }
  destruct (Hs l c a) as (c' & Hc' & HP'); [done..|]. exists c'. split; [|done].
  rewrite foldM_app, Hc. cbn. by rewrite Hc'.
Qed.

Lemma foldM_preserves (P : B → Prop) b l b' :
  P b → (∀ c a c', a ∈ l → P c → f c a = Ok c' → P c') → foldM f b l = Ok b' → P b'.
Proof.
  revert b. induction l as [|a l IH]; intros b Hb Hs Hf; cbn in Hf; [by simplify_eq|].
  res_inv. eapply IH; [|intros ????; apply Hs; by right|done].
  by eapply Hs; [left| |].
Qed.
End FoldM.

Lemma mapM_is_Ok {E A B} (f : A → res E B) l :
  (∀ a, a ∈ l → is_Ok (f a)) → is_Ok (mapM f l).
Proof.
  induction l as [|a l IH]; intros H; cbn; [eauto with ntk|].
  destruct (H a) as [b ->]; [by left|]. cbn.
  destruct IH as [bs ->]; [intros; apply H; by right|]. cbn. eauto with ntk.
Qed.

Lemma mapM_Forall2 {E A B} (f : A → res E B) l l' :
  mapM f l = Ok l' → Forall2 (λ a b, f a = Ok b) l l'.
Proof.
  revert l'. induction l as [|a l IH]; intros l' H; cbn in H.
  { injection H as <-. constructor. }
  res_inv. unfold mret, res_ret in *. simplify_eq. constructor; auto.
Qed.

Lemma mapM_Forall {E A B} (f : A → res E B) (P : A → Prop) (Q : B → Prop) l l' :
  mapM f l = Ok l' → Forall P l → (∀ a b, P a → f a = Ok b → Q b) → Forall Q l'.
Proof.
  intros H%mapM_Forall2 HP HQ. induction H as [|a b l l' Hab _ IH]; [apply Forall_nil_2|]. apply Forall_cons in HP as [Ha Hl]. apply Forall_cons_2; [by eapply HQ|by apply IH].
Qed.

Lemma mapM_back {E A B} (f : B → res E A) (g : A → B) l : Forall (λ a, f (g a) = Ok a) l → mapM f (g <$> l) = Ok l.
Proof. induction 1 as [|a l Ha _ IH]; cbn; [done|]. rewrite Ha. cbn. by rewrite IH. Qed.

Lemma foldl_preserves {A B} (f : B → A → B) (P : B → Prop) b l :
  P b → (∀ c a, a ∈ l → P c → P (f c a)) → P (foldl f b l).
Proof.
  revert b. induction l as [|a l IH]; intros b Hb Hf; cbn; [done|].
  apply IH; [apply Hf; [by left|done]|]. intros; apply Hf; [by right|done].
Qed.

(** The induction principle of a [for] loop: an invariant over the elements
    already consumed. *)
Lemma foldl_inv {A B} (f : B → A → B) (P : list A → B → Prop) b l :
  P [] b → (∀ pre c a, pre ++ [a] `prefix_of` l → P pre c → P (pre ++ [a]) (f c a)) →
  P l (foldl f b l).
Proof.
  intros H0 Hs. induction l as [|a l IH] using rev_ind; cbn; [done|].
  rewrite foldl_app. cbn. apply Hs; [done|]. apply IH. intros pre c a' Hp. apply Hs.
  by apply prefix_app_r.
Qed.

Section FoldS.
Context {S E A B : Type} (f : S → B → A → S * res E B).

(** A state invariant that every iteration preserves, whatever its result. *)
Lemma foldS_preserves (P : S → Prop) s b l :
  P s → (∀ s b a, a ∈ l → P s → P (f s b a).1) → P (foldS f s b l).1.
Proof.
  revert s b. induction l as [|a l IH]; intros s b Hs Hf; cbn; [done|].
  specialize (Hf s b a) as Hfa. destruct (f s b a) as [s' [b'|e|]]; cbn in *;
    [apply IH; [apply Hfa; [by left|done]|intros; apply Hf; [by right|done]]|apply Hfa; [by left|done]..].
Qed.

(** No iteration fails under a state invariant. *)
Lemma foldS_total (P : S → B → Prop) s b l :
  P s b → (∀ s b a, a ∈ l → P s b → ∃ s' b', f s b a = (s', Ok b') ∧ P s' b') →
  ∃ s' b', foldS f s b l = (s', Ok b') ∧ P s' b'.
Proof.
  revert s b. induction l as [|a l IH]; intros s b Hs Hf; cbn; [eauto|].
  destruct (Hf s b a) as (s' & b' & -> & ?); [by left|done|]. cbn. apply IH; [done|].
  intros; apply Hf; [by right|done].
Qed.

Lemma foldS_app s b l1 l2 :
  foldS f s b (l1 ++ l2) = (do (s', b') ← foldS f s b l1; foldS f s' b' l2).
Proof.
  revert s b. induction l1 as [|a l1 IH]; intros s b; [done|]. cbn.
  destruct (f s b a) as [s' [b'|e|]]; cbn; [apply IH|done..].
Qed.

Lemma foldS_total_inv (P : list A → S → B → Prop) s b l :
  P [] s b →
  (∀ pre s b a, pre ++ [a] `prefix_of` l → P pre s b →
    ∃ s' b', f s b a = (s', Ok b') ∧ P (pre ++ [a]) s' b') →
  ∃ s' b', foldS f s b l = (s', Ok b') ∧ P l s' b'.
Proof.
  intros H0 Hs. induction l as [|a l IH] using rev_ind; cbn; [eauto|].
  destruct IH as (s1 & b1 & Hf & HP).
  { intros pre s2 b2 a' Hp. apply Hs. by apply prefix_app_r. }
  destruct (Hs l s1 b1 a) as (s' & b' & Hf' & HP'); [done..|]. exists s', b'. split; [|done].
  rewrite foldS_app, Hf. cbn. by rewrite Hf'.
Qed.
End FoldS.

(** ** Iterator lemmas *)
Lemma any_true {A} (f : A → bool) l : any f l = true ↔ ∃ x, x ∈ l ∧ f x = true.
Proof. unfold any. rewrite existsb_exists. by setoid_rewrite list_elem_of_In. Qed.

Lemma any_false {A} (f : A → bool) l : any f l = false ↔ ∀ x, x ∈ l → f x = false.
Proof.
  rewrite <-not_true_iff_false, any_true. split.
  - intros H x Hx. destruct (f x) eqn:?; [|done]. naive_solver.
  - intros H (x & Hx & Hf). apply H in Hx. congruence.
Qed.

Lemma any_app {A} (f : A → bool) l1 l2 : any f (l1 ++ l2) = any f l1 || any f l2.
Proof. apply existsb_app. Qed.
Lemma all_true {A} (f : A → bool) l : all f l = true ↔ ∀ x, x ∈ l → f x = true.
Proof. unfold all. rewrite forallb_forall. by setoid_rewrite list_elem_of_In. Qed.

Lemma elem_of_retain {A} (f : A → bool) l x : x ∈ retain f l ↔ x ∈ l ∧ f x = true.
Proof. unfold retain. by rewrite !list_elem_of_In, filter_In. Qed.

Lemma find_Some_iff {A} (f : A → bool) l x : find f l = Some x → x ∈ l ∧ f x = true.
Proof. intros H%find_some. by rewrite list_elem_of_In. Qed.

Lemma find_None_iff {A} (f : A → bool) l : find f l = None ↔ ∀ x, x ∈ l → f x = false.
Proof.
  split; [intros H x Hx; by eapply find_none; [|apply list_elem_of_In]|].
  induction l as [|y l IH]; intros H; unfold find in *; cbn [List.find]; [done|].
  rewrite (H y) by (by left). apply IH. intros; apply H; by right.
Qed.

Lemma contains_true `{EqDecision A} (x : A) l : contains x l = true ↔ x ∈ l.
Proof. unfold contains. apply bool_decide_eq_true. Qed.
Lemma contains_false `{EqDecision A} (x : A) l : contains x l = false ↔ x ∉ l.
Proof. unfold contains. apply bool_decide_eq_false. Qed.

Lemma position_Some {A} (f : A → bool) l i :
  position f l = Some i → ∃ x, l !! i = Some x ∧ f x = true ∧ (∀ j y, j < i → l !! j = Some y → f y = false).
Proof.
  revert i. induction l as [|x l IH]; intros i H; cbn in H; [done|].
  destruct (f x) eqn:Hf; simplify_eq.
  - exists x. split_and!; [done..|lia].
  - destruct (position f l) as [k|] eqn:Hp; simplify_eq/=.
    destruct (IH k) as (y & ? & ? & Hlt); [done|].
    exists y. split_and!; [done..|]. intros [|j] z ? ?; simplify_eq/=; [done|].
    eapply Hlt; [|done]. lia.
Qed.

Lemma position_None {A} (f : A → bool) l :
  position f l = None ↔ ∀ x, x ∈ l → f x = false.
Proof.
  induction l as [|x l IH]; cbn.
  - split; [|done]. intros _ x Hx. by apply elem_of_nil in Hx.
  - destruct (f x) eqn:Hf.
    + split; [done|]. intros H. specialize (H x). rewrite Hf in H. by ospecialize (H _); [left|].
    + rewrite fmap_None, IH. split; [intros H y [->|Hy]%elem_of_cons; auto|].
      intros H y Hy. apply H. by right.
Qed.

Lemma position_is_Some {A} (f : A → bool) l x : x ∈ l → f x = true → ∃ i, position f l = Some i.
Proof.
  intros Hx Hf. destruct (position f l) eqn:Hp; [eauto|].
  eapply position_None in Hp; [|done]. congruence.
Qed.

#[export] Hint Rewrite @elem_of_retain @any_true @any_false @all_true
  @contains_true @contains_false : ntk.

Section StableSortLemmas.
Context {A : Type} (le : A → A → bool).

Lemma insert_by_perm x l : insert_by le x l ≡ₚ x :: l.
Proof.
  induction l as [|y l IH]; cbn; [done|]. destruct (le x y); [done|].
  rewrite IH. by constructor.
Qed.

Lemma sort_by_perm l : sort_by le l ≡ₚ l.
Proof. induction l as [|x l IH]; cbn; [done|]. by rewrite insert_by_perm, IH. Qed.

Lemma elem_of_sort_by x l : x ∈ sort_by le l ↔ x ∈ l.
Proof. by rewrite sort_by_perm. Qed.

Lemma length_sort_by l : length (sort_by le l) = length l.
Proof. by rewrite sort_by_perm. Qed.

Hypothesis le_total : ∀ x y, le x y = false → le y x = true.
Hypothesis le_trans : ∀ x y z, le x y = true → le y z = true → le x z = true.

Lemma insert_by_sorted x l :
  StronglySorted (λ a b, le a b = true) l → StronglySorted (λ a b, le a b = true) (insert_by le x l).
Proof.
  induction 1 as [|y l Hs IH Hy]; cbn; [by repeat constructor|].
  destruct (le x y) eqn:Hxy.
  - constructor; [by constructor|]. constructor; [done|].
    eapply Forall_impl; [done|]. cbn. eauto.
  - constructor; [done|]. rewrite insert_by_perm. constructor; [by apply le_total|done].
Qed.

Lemma sort_by_sorted l : StronglySorted (λ a b, le a b = true) (sort_by le l).
Proof. induction l as [|x l IH]; cbn; [constructor|]. by apply insert_by_sorted. Qed.

Lemma min_by_from_spec b l :
  (min_by_from le b l = b ∨ min_by_from le b l ∈ l) ∧
  ∀ y, y = b ∨ y ∈ l → le (min_by_from le b l) y = true.
Proof.
  assert (Hrefl : ∀ x, le x x = true).
  { intros x. destruct (le x x) eqn:Hx; [done|]. by rewrite (le_total _ _ Hx) in Hx. }
  revert b. induction l as [|z l IH]; intros b; cbn.
  { split; [by left|]. intros y [->|Hy]; [done|]. by apply elem_of_nil in Hy. }
  destruct (IH (if le b z then b else z)) as [Hin Hmin]. split.
  - destruct Hin as [Heq|Hin]; [|right; by right].
    destruct (le b z); rewrite Heq; [by left|right; left].
  - intros y Hy. destruct (le b z) eqn:Hbz.
    + destruct Hy as [->|[->|Hy]%elem_of_cons]; [apply Hmin; by left| |apply Hmin; by right].
      eapply le_trans; [|done]. apply Hmin. by left.
    + destruct Hy as [->|[->|Hy]%elem_of_cons]; [|apply Hmin; by left|apply Hmin; by right].
      eapply le_trans; [|by apply le_total]. apply Hmin. by left.
Qed.

Lemma min_by_least l x y : min_by le l = Some x → y ∈ l → le x y = true.
Proof.
  destruct l as [|z l]; cbn; [done|]. intros [= <-] Hy.
  apply min_by_from_spec. by apply elem_of_cons in Hy.
Qed.
End StableSortLemmas.

Lemma min_by_from_elem_of {A} (le : A → A → bool) b l :
  min_by_from le b l = b ∨ min_by_from le b l ∈ l.
Proof.
  revert b. induction l as [|z l IH]; intros b; cbn; [by left|].
  destruct (IH (if le b z then b else z)) as [->|]; [|right; by right].
  destruct (le b z); [by left|right; left].
Qed.

Lemma min_by_elem_of {A} (le : A → A → bool) l x : min_by le l = Some x → x ∈ l.
Proof.
  destruct l as [|z l]; cbn; [done|]. intros [= <-].
  destruct (min_by_from_elem_of le z l) as [->|]; [by left|by right].
Qed.

Lemma min_by_is_Some {A} (le : A → A → bool) l : l ≠ [] → ∃ x, min_by le l = Some x.
Proof. destruct l; [done|]. cbn. eauto. Qed.

(** ** Map iteration *)
Lemma elem_of_hm_iter `{HashOrder, Countable K} {V} (m : gmap K V) k v :
  (k, v) ∈ hm_iter m ↔ m !! k = Some v.
Proof. by rewrite hm_iter_perm, elem_of_map_to_list. Qed.

Lemma elem_of_hm_values `{HashOrder, Countable K} {V} (m : gmap K V) v :
  v ∈ (hm_iter m).*2 ↔ ∃ k, m !! k = Some v.
Proof.
  rewrite list_elem_of_fmap. setoid_rewrite <-elem_of_hm_iter.
  split; [intros ([k v'] & -> & ?); eauto|intros (k & ?)]. by exists (k, v).
Qed.

Lemma hm_iter_NoDup_keys `{HashOrder, Countable K} {V} (m : gmap K V) :
  NoDup (hm_iter m).*1.
Proof. rewrite hm_iter_perm. apply NoDup_fst_map_to_list. Qed.

Lemma elem_of_bt_iter {V} (m : gmap Z V) k v : (k, v) ∈ bt_iter m ↔ m !! k = Some v.
Proof. unfold bt_iter. by rewrite elem_of_sort_by, elem_of_map_to_list. Qed.

#[export] Hint Rewrite @elem_of_hm_iter @elem_of_hm_values @elem_of_bt_iter
  @elem_of_sort_by : ntk.

Lemma lookup_enumerate {A} (l : list A) i j x : enumerate l !! i = Some (j, x) → j = i ∧ l !! i = Some x.
Proof.
  unfold enumerate. intros (k & y & E & Hk & Hy)%lookup_zip_with_Some. simplify_eq.
  by apply lookup_seq in Hk as [-> _].
Qed.

Lemma elem_of_enumerate {A} (l : list A) i x : (i, x) ∈ enumerate l ↔ l !! i = Some x.
Proof.
  unfold enumerate. rewrite list_elem_of_lookup. split.
  - intros (j & Hj). apply lookup_zip_Some in Hj as [Hi Hx].
    apply lookup_seq in Hi as [-> _]. done.
  - intros Hx. exists i. apply lookup_zip_Some. split; [|done].
    apply lookup_seq. split; [done|]. by eapply lookup_lt_Some.
Qed.

Lemma Forall_retain {A} (P : A → Prop) f l : Forall P l → Forall P (retain f l).
Proof. rewrite !Forall_forall. intros HP x [Hx _]%elem_of_retain. auto. Qed.

Lemma last_cons_ne {A} (x : A) l : l ≠ [] → last (x :: l) = last l.
Proof. by destruct l. Qed.

(** A map keyed by [u32] has at most [2^32] entries. *)
Lemma size_bounded_keys {V} (m : gmap Z V) n :
  (∀ k v, m !! k = Some v → 0 ≤ k < n)%Z → (Z.of_nat (size m) ≤ Z.max 0 n)%Z.
Proof.
  intros Hk. rewrite <-size_dom.
  assert (dom m ⊆ (list_to_set (seqZ 0 n) : gset Z)) as Hs.
  { intros k [v Hv]%elem_of_dom. rewrite elem_of_list_to_set, elem_of_seqZ.
    specialize (Hk k v Hv). lia. }
  apply subseteq_size in Hs. rewrite size_list_to_set in Hs by apply NoDup_seqZ.
  rewrite length_seqZ in Hs. lia.
Qed.

Lemma length_hm_iter `{HashOrder, Countable K} {V} (m : gmap K V) : length (hm_iter m) = size m.
Proof. rewrite hm_iter_perm. apply length_map_to_list. Qed.

Lemma elem_of_concat_fmap {A B} (f : A → list B) l x :
  x ∈ concat (f <$> l) ↔ ∃ a, a ∈ l ∧ x ∈ f a.
Proof.
  rewrite list_elem_of_In, in_concat. split.
  - intros (y & Hy & Hx). apply list_elem_of_In, list_elem_of_fmap in Hy as (a & -> & Ha).
    exists a. split; [done|]. by apply list_elem_of_In.
  - intros (a & Ha & Hx). exists (f a). rewrite <-!list_elem_of_In. split; [|done].
    apply list_elem_of_fmap. eauto.
Qed.
#[export] Hint Rewrite @elem_of_concat_fmap : ntk.

Lemma retain_sublist {A} (f : A → bool) l : retain f l `sublist_of` l.
Proof.
  unfold retain. induction l as [|x l IH]; cbn; [done|].
  destruct (f x); by constructor.
Qed.
#[export] Hint Resolve retain_sublist : ntk.

Lemma length_retain {A} (f : A → bool) l : length (retain f l) ≤ length l.
Proof. apply sublist_length, retain_sublist. Qed.

(** A filter that drops nothing. *)
Lemma retain_full {A} (f : A → bool) l : length l ≤ length (retain f l) → retain f l = l.
Proof.
  induction l as [|x l IH]; intros Hl; unfold retain in *; cbn in *; [done|].
  pose proof (length_retain f l) as Hr. unfold retain in Hr.
  destruct (f x); cbn in *; [|lia]. f_equal. apply IH. lia.
Qed.
