(* ===== verification/Float64.v ===== *)
(** * IEEE 754 binary64, as far as the sources use it

    [f64] values are the specification floats of the standard library at
    precision 53 and maximal exponent 1024: every operation is the correctly
    rounded one, computed on integers.  [NaN] compares false with everything,
    as [<] and [>] do in Rust. *)
From Stdlib Require Import SpecFloat.
From S2P Require Import Prelude.

Abbreviation f64 := spec_float.

Definition f64_prec : Z := 53.
Definition f64_emax : Z := 1024.

Definition f64_add : f64 → f64 → f64 := SFadd f64_prec f64_emax.
Definition f64_sub : f64 → f64 → f64 := SFsub f64_prec f64_emax.
Definition f64_mul : f64 → f64 → f64 := SFmul f64_prec f64_emax.
Definition f64_div : f64 → f64 → f64 := SFdiv f64_prec f64_emax.
Definition f64_sqrt : f64 → f64 := SFsqrt f64_prec f64_emax.
Definition f64_ltb : f64 → f64 → bool := SFltb.
Definition f64_gtb (x y : f64) : bool := SFltb y x.
Definition f64_leb : f64 → f64 → bool := SFleb.

(** [f64::from(u32)]: exact. *)
Definition f64_of_Z (z : Z) : f64 := binary_normalize f64_prec f64_emax z 0 false.

(** A decimal literal [n/d] with [n] and [d] below [2^53]: the division is
    correctly rounded, so this is the double nearest to the literal. *)
Definition f64_lit (n d : Z) : f64 := f64_div (f64_of_Z n) (f64_of_Z d).

Definition f64_zero : f64 := S754_zero false.

(** [f64::floor] and [f64::ceil]. *)
Definition f64_floor (x : f64) : f64 :=
  match x with
  | S754_finite s m e =>
      if (0 <=? e)%Z then x
      else f64_of_Z ((if s then Zneg m else Zpos m) / 2 ^ (- e))
  | _ => x
  end.

Definition f64_ceil (x : f64) : f64 :=
  match x with
  | S754_finite s m e =>
      if (0 <=? e)%Z then x
      else f64_of_Z (- (- (if s then Zneg m else Zpos m) / 2 ^ (- e)))
  | _ => x
  end.

(** Spot checks against values any binary64 implementation gives. *)
Example f64_tenth : f64_lit 1 10 = S754_finite false 7205759403792794 (-56).
Proof. reflexivity. Qed.

Example f64_floor_sqrt : f64_floor (f64_mul (f64_lit 15 10) (f64_sqrt (f64_of_Z 10))) = f64_of_Z 4.
Proof. reflexivity. Qed.

Example f64_ceil_half : f64_ceil (f64_mul (f64_lit 5 10) (f64_of_Z 3)) = f64_of_Z 2.
Proof. reflexivity. Qed.
