(* ===== verification/Addressing.v ===== *)
(** * Shared base types: topology, address, coordinate and cost

    Models [crates/ntk-common/src]: [error.rs] ([Error]), [topology.rs]
    ([Topology]), [hcoord.rs] ([HCoord]), [cost.rs] ([Cost]) and the arithmetic
    of [naddr.rs] ([Naddr]), without its textual form.

    A [u32] is a [Z], a level or a length ([usize]) a [nat].  The fields of
    [Topology] and [Naddr] are private in Rust, so that every value of the types
    was returned by a constructor: [topology_wf] and [naddr_wf] are what the
    constructors establish. *)
From stdpp Require Import strings.
From S2P Require Import Prelude.

(** ** Error type (error.rs) *)
Inductive Error :=
  | EmptyTopology
  | ZeroGsize (level : nat)
  | LevelCountMismatch (expected actual : nat)
  | PositionOutOfRange (level : nat) (pos gsize : Z)
  | LevelOutOfRange (level levels : nat)
  | TopologyMismatch
  | ParseNaddr (s : string)
  | FingerprintBaseLevel
  | FingerprintLevelMismatch (self_level other_level : nat)
  | IndistinguishableFingerprints
  | TopOfHierarchy
  | FingerprintSeedLength (level seed_len : nat).

#[export] Instance Error_eq_dec : EqDecision Error.
Proof. solve_decision. Defined.

(** ** Topology (topology.rs) *)
Record Topology := mkTopology { gsizes : list Z }.

#[export] Instance Topology_eq_dec : EqDecision Topology.
Proof. solve_decision. Defined.

(** [Topology::new] *)
Definition topology_new (gs : list Z) : res Error Topology :=
  match gs with
  | [] => Err EmptyTopology
  | _ =>
      match position (λ g, (g =? 0)%Z) gs with
      | Some level => Err (ZeroGsize level)
      | None => Ok (mkTopology gs)
      end
  end.

Definition topology_levels (t : Topology) : nat := length (gsizes t).
Definition topology_gsize (t : Topology) (level : nat) : option Z := gsizes t !! level.

(** [Topology::max_nodes]: [try_fold] with [u128::checked_mul]. *)
Definition max_nodes (t : Topology) : option Z :=
  foldl (λ acc g, acc ≫= λ a, u128_checked_mul a g) (Some 1%Z) (gsizes t).

(** ** HCoord (hcoord.rs) *)
Record HCoord := mkHCoord { hc_level : nat; hc_pos : Z }.

#[export] Instance HCoord_eq_dec : EqDecision HCoord.
Proof. solve_decision. Defined.
#[export] Instance HCoord_countable : Countable HCoord.
Proof.
  apply (inj_countable' (λ h, (hc_level h, hc_pos h)) (λ p, mkHCoord p.1 p.2)).
  by intros [].
Defined.

(** ** Cost (cost.rs) *)
Inductive Cost := Null | Finite (v : Z) | Dead.

#[export] Instance Cost_eq_dec : EqDecision Cost.
Proof. solve_decision. Defined.

(** The derived [Ord]: variants in declaration order, then the magnitude. *)
Definition cost_leb (a b : Cost) : bool :=
  match a, b with
  | Null, _ => true
  | _, Null => false
  | Finite x, Finite y => (x <=? y)%Z
  | Finite _, Dead => true
  | Dead, Finite _ => false
  | Dead, Dead => true
  end.
Definition cost_ltb (a b : Cost) : bool := negb (cost_leb b a).

Definition is_dead (c : Cost) : bool := match c with Dead => true | _ => false end.
Definition is_null (c : Cost) : bool := match c with Null => true | _ => false end.

(** [Cost::saturating_add] *)
Definition saturating_add (a b : Cost) : Cost :=
  match a, b with
  | Dead, _ | _, Dead => Dead
  | Null, x | x, Null => x
  | Finite x, Finite y => Finite (u64_saturating_add x y)
  end.

Definition cost_wf (c : Cost) : Prop :=
  match c with Finite v => is_u64 v | _ => True end.

(** ** Naddr (naddr.rs) *)
Record Naddr := mkNaddr { na_topology : Topology; na_pos : list Z }.

#[export] Instance Naddr_eq_dec : EqDecision Naddr.
Proof. solve_decision. Defined.

(** The scan of [Naddr::new]: the first position not below its level's size. *)
Fixpoint check_positions (level : nat) (pos gs : list Z) : res Error unit :=
  match pos, gs with
  | p :: pos', g :: gs' =>
      if (g <=? p)%Z then Err (PositionOutOfRange level p g)
      else check_positions (S level) pos' gs'
  | _, _ => Ok tt
  end.

Definition naddr_new (t : Topology) (pos : list Z) : res Error Naddr :=
  if negb (length pos =? topology_levels t)
  then Err (LevelCountMismatch (topology_levels t) (length pos))
  else _ ← check_positions 0 pos (gsizes t); Ok (mkNaddr t pos).

Definition new_allowing_virtual (t : Topology) (pos : list Z) : res Error Naddr :=
  if negb (length pos =? topology_levels t)
  then Err (LevelCountMismatch (topology_levels t) (length pos))
  else Ok (mkNaddr t pos).

Definition naddr_levels (a : Naddr) : nat := length (na_pos a).
Definition naddr_pos (a : Naddr) (level : nat) : option Z := na_pos a !! level.

Definition is_virtual_at (a : Naddr) (level : nat) : option bool :=
  p ← na_pos a !! level;
  gsize ← topology_gsize (na_topology a) level;
  Some (gsize <=? p)%Z.

Definition is_virtual (a : Naddr) : bool :=
  any (λ level, bool_decide (is_virtual_at a level = Some true)) (seq 0 (naddr_levels a)).

(** [from..=to] is [seq from (to + 1 - from)], empty when [from > to]. *)
Definition is_real_from_to (a : Naddr) (from to : nat) : res Error bool :=
  if naddr_levels a <=? to then Err (LevelOutOfRange to (naddr_levels a))
  else Ok (all (λ level, bool_decide (is_virtual_at a level = Some false))
             (seq from (S to - from))).

Definition is_inside (a : Naddr) (hc : HCoord) : res Error bool :=
  p ← ok_or (naddr_pos a (hc_level hc)) (LevelOutOfRange (hc_level hc) (naddr_levels a));
  Ok (p =? hc_pos hc)%Z.

(** The loop of [Naddr::hcoord], from level [n - 1] down to [0]. *)
Fixpoint hcoord_loop (mine dest : list Z) (n : nat) : res Error (option HCoord) :=
  match n with
  | 0 => Ok None
  | S level =>
      p ← expect (mine !! level);
      q ← expect (dest !! level);
      if (p =? q)%Z then hcoord_loop mine dest level
      else Ok (Some (mkHCoord level q))
  end.

Definition hcoord (self dest : Naddr) : res Error (option HCoord) :=
  if bool_decide (na_topology self = na_topology dest)
  then hcoord_loop (na_pos self) (na_pos dest) (length (na_pos self))
  else Err TopologyMismatch.

(** ** What the constructors establish *)
Definition topology_wf (t : Topology) : Prop :=
  gsizes t ≠ [] ∧ Forall (λ g, 0 < g ≤ U32_MAX)%Z (gsizes t).

Definition naddr_wf (a : Naddr) : Prop :=
  topology_wf (na_topology a) ∧
  length (na_pos a) = topology_levels (na_topology a) ∧
  Forall is_u32 (na_pos a).

(** Every position real. *)
Definition naddr_real (a : Naddr) : Prop :=
  Forall2 (λ p g, p < g)%Z (na_pos a) (gsizes (na_topology a)).

(** ** Lemmas *)
Lemma topology_new_Ok gs t :
  Forall is_u32 gs → topology_new gs = Ok t ↔ t = mkTopology gs ∧ topology_wf t.
Proof.
  intros Hu. unfold topology_new, topology_wf. destruct gs as [|g gs]; [naive_solver|].
  destruct (position _ _) as [l|] eqn:Hp.
  - apply position_Some in Hp as (x & Hx & ->%Z.eqb_eq & _). split; [done|].
    intros (-> & _ & Hf). rewrite Forall_lookup in Hf. apply Hf in Hx. lia.
  - rewrite position_None in Hp. split; [intros [= <-]|by intros [-> _]].
    split_and!; [done..|]. rewrite Forall_forall in *. intros x Hx.
    specialize (Hu x Hx). specialize (Hp x Hx). apply Z.eqb_neq in Hp.
    unfold is_u32 in Hu. cbn in Hx. lia.
Qed.

Lemma topology_levels_pos t : topology_wf t → 0 < topology_levels t.
Proof. intros [H _]. unfold topology_levels. destruct (gsizes t); cbn; [done|lia]. Qed.

Lemma gsize_is_Some t l : l < topology_levels t → ∃ g, topology_gsize t l = Some g.
Proof. intros H. by apply lookup_lt_is_Some in H. Qed.

(** *** Costs form an ordered commutative monoid with an absorbing top. *)
Lemma cost_leb_total a b : cost_leb a b = false → cost_leb b a = true.
Proof. destruct a, b; cbn; bool_to_prop; first [done|lia]. Qed.

Lemma cost_leb_trans a b c : cost_leb a b = true → cost_leb b c = true → cost_leb a c = true.
Proof. destruct a, b, c; cbn; bool_to_prop; first [done|lia]. Qed.

Lemma cost_leb_refl a : cost_leb a a = true.
Proof. destruct a; cbn; bool_to_prop; first [done|lia]. Qed.

Lemma cost_leb_antisymm a b : cost_leb a b = true → cost_leb b a = true → a = b.
Proof. destruct a, b; cbn; bool_to_prop; try done. intros. f_equal. lia. Qed.

Lemma saturating_add_comm a b : saturating_add a b = saturating_add b a.
Proof. destruct a, b; cbn; try done. unfold u64_saturating_add. by rewrite Z.add_comm. Qed.

Lemma saturating_add_assoc a b c : cost_wf a → cost_wf b → cost_wf c →
  saturating_add a (saturating_add b c) = saturating_add (saturating_add a b) c.
Proof.
  destruct a, b, c; cbn; try done. unfold is_u64, u64_saturating_add. intros. f_equal. lia.
Qed.

Lemma saturating_add_wf a b : cost_wf a → cost_wf b → cost_wf (saturating_add a b).
Proof. destruct a, b; cbn; try done. unfold is_u64, u64_saturating_add, U64_MAX. lia. Qed.

Lemma saturating_add_dead a b : saturating_add a b = Dead ↔ a = Dead ∨ b = Dead.
Proof. destruct a, b; cbn; naive_solver. Qed.

Lemma saturating_add_mono a b c :
  cost_leb a b = true → cost_wf a → cost_wf b → cost_wf c →
  cost_leb (saturating_add c a) (saturating_add c b) = true.
Proof.
  destruct a, b, c; cbn; bool_to_prop; try done;
    unfold is_u64, u64_saturating_add, U64_MAX; lia.
Qed.

(** *** Addresses *)
Lemma check_positions_Ok l pos gs :
  length pos = length gs →
  check_positions l pos gs = Ok tt ↔ Forall2 (λ p g, p < g)%Z pos gs.
Proof.
  revert l gs. induction pos as [|p pos IH]; intros l [|g gs] Hlen; simplify_eq/=; [done|].
  destruct (Z.leb_spec g p).
  - split; [done|]. intros H1. inversion H1; subst. lia.
  - rewrite IH by done. rewrite Forall2_cons. naive_solver lia.
Qed.

Lemma check_positions_Err l pos gs e :
  check_positions l pos gs = Err e →
  ∃ i p g, e = PositionOutOfRange (l + i) p g ∧ pos !! i = Some p ∧ gs !! i = Some g ∧
    (g ≤ p)%Z ∧ ∀ j q h, j < i → pos !! j = Some q → gs !! j = Some h → (q < h)%Z.
Proof.
  revert l gs. induction pos as [|p pos IH]; intros l [|g gs] H; simplify_eq/=.
  destruct (Z.leb_spec g p); simplify_eq.
  - exists 0, p, g. rewrite Nat.add_0_r. split_and!; [done..|lia].
  - apply IH in H as (i & p' & g' & -> & ? & ? & ? & Hj).
    exists (S i), p', g'. split_and!; [f_equal; lia|done..|].
    intros [|j] q h ???; simplify_eq/=; [done|]. eapply Hj; [|done..]. lia.
Qed.

Lemma check_positions_no_panic l pos gs : check_positions l pos gs ≠ Panic.
Proof.
  revert l gs. induction pos as [|p pos IH]; intros l [|g gs]; cbn; [done..|].
  destruct (_ <=? _)%Z; [done|apply IH].
Qed.

(** Two lists agree from [n] upwards. *)
Definition agree_above (xs ys : list Z) (n : nat) : Prop :=
  ∀ i, n ≤ i → xs !! i = ys !! i.

Lemma hcoord_loop_spec xs ys n :
  n ≤ length xs → n ≤ length ys → agree_above xs ys n →
  ∃ r, hcoord_loop xs ys n = Ok r ∧
    match r with
    | None => xs = ys
    | Some h => hc_level h < n ∧ ys !! hc_level h = Some (hc_pos h) ∧
        xs !! hc_level h ≠ Some (hc_pos h) ∧ agree_above xs ys (S (hc_level h))
    end.
Proof.
  induction n as [|n IH]; intros Hx Hy Ha; cbn.
  { exists None. split; [done|]. apply list_eq. intros i. apply Ha. lia. }
  destruct (lookup_lt_is_Some_2 xs n) as [p Hp]; [lia|].
  destruct (lookup_lt_is_Some_2 ys n) as [q Hq]; [lia|].
  rewrite Hp, Hq. cbn. destruct (Z.eqb_spec p q) as [->|Hne].
  - destruct IH as (r & Hr & Hspec); [lia..| |].
    { intros i Hi. destruct (decide (i = n)) as [->|]; [congruence|]. apply Ha. lia. }
    exists r. split; [done|]. destruct r; [|done]. naive_solver lia.
  - eexists. split; [done|]. cbn. rewrite Hp. split_and!; [lia|done| |done]. congruence.
Qed.

(** [hcoord] never panics on addresses of one topology, and it decides
    equality. *)
Lemma hcoord_cases a b :
  naddr_wf a → naddr_wf b → na_topology a = na_topology b →
  (a = b ∧ hcoord a b = Ok None) ∨
  ∃ h, hcoord a b = Ok (Some h) ∧ hc_level h < naddr_levels a ∧
    naddr_pos b (hc_level h) = Some (hc_pos h) ∧ naddr_pos a (hc_level h) ≠ Some (hc_pos h) ∧
    agree_above (na_pos a) (na_pos b) (S (hc_level h)).
Proof.
  intros (_ & Ha & _) (_ & Hb & _) Ht. unfold hcoord, naddr_levels, naddr_pos.
  rewrite bool_decide_true by done. rewrite Ht in Ha.
  destruct (hcoord_loop_spec (na_pos a) (na_pos b) (length (na_pos a))) as (r & -> & Hr);
    [lia|lia| |].
  { intros i Hi. rewrite !lookup_ge_None_2 by lia. done. }
  destruct r as [h|]; [right; eauto|left]. split; [|done].
  destruct a, b; cbn in *. congruence.
Qed.

Lemma hcoord_Some a b h :
  naddr_wf a → naddr_wf b → hcoord a b = Ok (Some h) →
  na_topology a = na_topology b ∧ hc_level h < topology_levels (na_topology a) ∧
  naddr_pos b (hc_level h) = Some (hc_pos h) ∧ naddr_pos a (hc_level h) ≠ Some (hc_pos h) ∧
  agree_above (na_pos a) (na_pos b) (S (hc_level h)).
Proof.
  intros Ha Hb H. assert (Ht : na_topology a = na_topology b).
  { unfold hcoord in H. case_bool_decide; [done|discriminate]. }
  destruct (hcoord_cases a b Ha Hb Ht) as [[_ H']|(h' & H' & Hl & ?)]; [congruence|].
  assert (h' = h) as -> by congruence. split; [done|]. split; [|done].
  destruct Ha as (_ & <- & _). done.
Qed.

Lemma hcoord_total a b :
  naddr_wf a → naddr_wf b → na_topology a = na_topology b → is_Ok (hcoord a b).
Proof. intros ? ? ?. destruct (hcoord_cases a b) as [[_ ->]|(? & -> & _)]; eauto with ntk. Qed.

Lemma hcoord_no_panic a b : naddr_wf a → naddr_wf b → hcoord a b ≠ Panic.
Proof.
  intros Ha Hb. destruct (decide (na_topology a = na_topology b)) as [E|E].
  - destruct (hcoord_total a b) as [o ->]; done.
  - unfold hcoord. by rewrite bool_decide_eq_false_2.
Qed.

Lemma hcoord_self_None a b :
  naddr_wf a → naddr_wf b → hcoord a b = Ok None → a = b.
Proof.
  intros Ha Hb H. assert (Ht : na_topology a = na_topology b).
  { unfold hcoord in H. case_bool_decide; [done|discriminate]. }
  destruct (hcoord_cases a b Ha Hb Ht) as [[-> _]|(? & H' & _)]; [done|congruence].
Qed.
#[export] Hint Resolve hcoord_total : ntk.

(** ** Properties *)

(** The example network: two levels of four. *)
Definition ex_topology : Topology := mkTopology [4; 4]%Z.
Definition ex_my : Naddr := mkNaddr ex_topology [1; 2]%Z.
Definition ex_peer : Naddr := mkNaddr ex_topology [3; 2]%Z.

Lemma ex_topology_wf : topology_wf ex_topology.
Proof. split; [done|]. repeat constructor; unfold U32_MAX; lia. Qed.

Lemma ex_naddr_wf p q : is_u32 p → is_u32 q → naddr_wf (mkNaddr ex_topology [p; q]).
Proof. intros ? ?. split; [apply ex_topology_wf|]. split; [done|]. constructor; [done|]. by constructor. Qed.

Lemma max_nodes_fold gs acc :
  Forall (λ g, 0 < g)%Z gs → (0 < acc)%Z →
  foldl (λ acc g, acc ≫= λ a, u128_checked_mul a g) (Some acc) gs =
    let total := foldl Z.mul acc gs in
    if (total <=? U128_MAX)%Z then Some total else
      if (acc <=? U128_MAX)%Z then None else
        match gs with [] => Some acc | _ => None end.
Proof.
  assert (∀ gs, foldl (λ acc g, acc ≫= λ a, u128_checked_mul a g) None gs = None) as Hnone
    by (intros gs'; by induction gs').
  assert (∀ gs acc, Forall (λ g, 0 < g)%Z gs → (0 < acc)%Z → (acc ≤ foldl Z.mul acc gs)%Z) as Hgrow.
  { induction gs0 as [|g gs0 IH]; intros a Hg Ha; cbn; [lia|]. apply Forall_cons in Hg as [? Hg].
    specialize (IH (a * g)%Z Hg). nia. }
  revert acc. induction gs as [|g gs IH]; intros acc Hg Ha; cbn.
  { destruct (_ <=? _)%Z; done. }
  apply Forall_cons in Hg as [Hg1 Hg]. specialize (Hgrow gs (acc * g)%Z Hg ltac:(nia)).
  unfold u128_checked_mul. destruct (Z.leb_spec (acc * g) U128_MAX).
  - rewrite IH by (done || nia). cbn. rewrite (proj2 (Z.leb_le (acc * g) U128_MAX)) by done.
    destruct (_ <=? _)%Z; [done|]. rewrite (proj2 (Z.leb_le acc U128_MAX)) by nia. done.
  - rewrite Hnone, (proj2 (Z.leb_gt _ _)) by lia. by destruct (_ <=? _)%Z.
Qed.

(** The capacity of a topology is the product of its level sizes, and
    [max_nodes] reports an overflow exactly when that product does not fit 128
    bits: no intermediate product overflows before the total does. *)
Theorem max_nodes_exact t :
  topology_wf t →
  max_nodes t = let total := foldl Z.mul 1%Z (gsizes t) in
                if (total <=? U128_MAX)%Z then Some total else None.
Proof.
  intros [_ Hg]. unfold max_nodes. rewrite max_nodes_fold; [|by eapply Forall_impl; [exact Hg|]; cbn; lia|lia].
  cbn. by destruct (_ <=? _)%Z.
Qed.

Lemma max_nodes_exact_witness : topology_wf ex_topology ∧ max_nodes ex_topology = Some 16%Z.
Proof. split; [apply ex_topology_wf|]. rewrite (max_nodes_exact ex_topology ex_topology_wf). reflexivity. Defined.

Lemma is_virtual_at_Some a l :
  naddr_wf a → l < naddr_levels a →
  ∃ p g, na_pos a !! l = Some p ∧ gsizes (na_topology a) !! l = Some g ∧ is_virtual_at a l = Some (g <=? p)%Z.
Proof.
  intros (_ & Hl & _) Hlt. unfold naddr_levels in Hlt. unfold is_virtual_at, topology_gsize, topology_levels in *.
  destruct (lookup_lt_is_Some_2 (na_pos a) l) as [p Hp]; [done|].
  destruct (lookup_lt_is_Some_2 (gsizes (na_topology a)) l) as [g Hg]; [lia|].
  exists p, g. rewrite Hp, Hg. done.
Qed.

Lemma naddr_real_not_virtual a : naddr_wf a → naddr_real a ↔ is_virtual a = false.
Proof.
  intros Ha. unfold is_virtual. rewrite any_false. pose proof Ha as (_ & Hl & _). split.
  - intros Hr l Hin%elem_of_seq. destruct (is_virtual_at_Some a l) as (p & g & Hp & Hg & ->); [done|lia|].
    eapply Forall2_lookup_lr in Hr; [|done..]. apply bool_decide_eq_false. intros [= E]. apply Z.leb_le in E. lia.
  - intros Hv. apply Forall2_same_length_lookup. split; [done|]. intros l p g Hp Hg.
    assert (l < naddr_levels a) as Hlt by (by eapply lookup_lt_Some).
    specialize (Hv l). rewrite elem_of_seq in Hv. specialize (Hv ltac:(lia)).
    destruct (is_virtual_at_Some a l) as (p' & g' & Hp' & Hg' & E); [done..|]. simplify_eq.
    rewrite E in Hv. apply bool_decide_eq_false in Hv. destruct (Z.leb_spec g p); [done|lia].
Qed.

(** C16: [Naddr::new] accepts exactly the position lists of the right length all
    of whose positions are real, [new_allowing_virtual] exactly those of the
    right length, and [is_virtual] tells the two apart. *)
Theorem naddr_constructors t pos :
  topology_wf t → Forall is_u32 pos →
  (naddr_new t pos = Ok (mkNaddr t pos) ↔
     new_allowing_virtual t pos = Ok (mkNaddr t pos) ∧ is_virtual (mkNaddr t pos) = false) ∧
  (new_allowing_virtual t pos = Ok (mkNaddr t pos) ↔ naddr_wf (mkNaddr t pos)) ∧
  (naddr_new t pos = Ok (mkNaddr t pos) ∨
     naddr_new t pos = Err (LevelCountMismatch (topology_levels t) (length pos)) ∨
     ∃ l p g, naddr_new t pos = Err (PositionOutOfRange l p g) ∧ pos !! l = Some p ∧
       topology_gsize t l = Some g ∧ (g ≤ p)%Z).
Proof.
  intros Ht Hp. unfold naddr_new, new_allowing_virtual.
  assert (naddr_wf (mkNaddr t pos) ↔ length pos = topology_levels t) as Hwf.
  { unfold naddr_wf. cbn. naive_solver. }
  destruct (Nat.eqb_spec (length pos) (topology_levels t)) as [Hl|Hl]; cbn [negb].
  - assert (naddr_wf (mkNaddr t pos)) as Hw by (by apply Hwf).
    rewrite <-(naddr_real_not_virtual _ Hw). unfold naddr_real. cbn.
    rewrite <-(check_positions_Ok 0 pos (gsizes t)) by done.
    pose proof (check_positions_no_panic 0 pos (gsizes t)) as Hnp.
    destruct (check_positions 0 pos (gsizes t)) as [[]|e|] eqn:E; cbn; [naive_solver| |done].
    apply check_positions_Err in E as (i & p & g & -> & ? & ? & ? & _). split_and!; [naive_solver..|].
    right. right. exists i, p, g. done.
  - rewrite Hwf. naive_solver.
Qed.

Lemma naddr_constructors_witness :
  topology_wf ex_topology ∧ Forall is_u32 [1; 2]%Z ∧
  naddr_new ex_topology [1; 2]%Z = Ok ex_my ∧
  naddr_new ex_topology [1; 9]%Z = Err (PositionOutOfRange 1 9 4).
Proof.
  assert (Forall is_u32 [1; 2]%Z) as Hu by (repeat constructor; unfold is_u32, U32_MAX; lia).
  split_and!; [apply ex_topology_wf|done| |reflexivity].
  apply (proj1 (naddr_constructors ex_topology [1; 2]%Z ex_topology_wf Hu)).
  split; reflexivity.
Defined.

(** [hcoord] of two addresses of one topology never fails; it is [None]
    exactly on equal addresses, otherwise the highest level where they differ
    with the other's position there, and both ends agree on that level. *)
Theorem hcoord_divergence a b :
  naddr_wf a → naddr_wf b → na_topology a = na_topology b →
  (hcoord a b = Ok None ↔ a = b) ∧
  (∀ h, hcoord a b = Ok (Some h) ↔
    naddr_pos b (hc_level h) = Some (hc_pos h) ∧ naddr_pos a (hc_level h) ≠ naddr_pos b (hc_level h) ∧
    ∀ l, hc_level h < l → naddr_pos a l = naddr_pos b l) ∧
  (∀ h, hcoord a b = Ok (Some h) → ∃ p, hcoord b a = Ok (Some (mkHCoord (hc_level h) p))).
Proof.
  intros Ha Hb Ht.
  assert (∀ a b, naddr_wf a → naddr_wf b → na_topology a = na_topology b → ∀ h, hcoord a b = Ok (Some h) ↔
    naddr_pos b (hc_level h) = Some (hc_pos h) ∧ naddr_pos a (hc_level h) ≠ naddr_pos b (hc_level h) ∧
    ∀ l, hc_level h < l → naddr_pos a l = naddr_pos b l) as Hiff.
  { clear. intros a b Ha Hb Ht h. destruct (hcoord_cases a b Ha Hb Ht) as [[-> Hn]|(h' & Hh & _ & Hp & Hq & Hab)].
    - split; [congruence|]. intros (_ & Hne & _). done.
    - split.
      + intros E. assert (h' = h) as -> by congruence. split_and!; [done|congruence|]. intros l Hl. by apply Hab.
      + intros (Hp' & Hne & Hab'). rewrite Hh. do 2 f_equal.
        assert (hc_level h' = hc_level h) as El.
        { destruct (Nat.lt_trichotomy (hc_level h') (hc_level h)) as [Hlt|[|Hlt]]; [|done|].
          - destruct Hne. by apply Hab.
          - destruct Hq. rewrite <-Hp. by apply Hab'. }
        destruct h, h'. cbn in *. congruence. }
  split_and!; [|by apply Hiff|].
  - split; [by apply hcoord_self_None|]. intros ->. destruct (hcoord_cases b b) as [[_ ?]|(h & _ & _ & Hp & Hq & _)]; done.
  - intros h (Hp & Hne & Hab)%Hiff; [|done..].
    destruct (naddr_pos a (hc_level h)) as [p|] eqn:Ep.
    + exists p. apply Hiff; [done..|]. cbn [hc_level hc_pos]. split_and!; [done|rewrite Ep; by apply not_eq_sym|]. intros l Hl. symmetry. by apply Hab.
    + apply lookup_ge_None in Ep. apply lookup_lt_Some in Hp.
      destruct Ha as (_ & La & _), Hb as (_ & Lb & _). rewrite Ht in La. lia.
Qed.

Lemma hcoord_divergence_witness :
  naddr_wf ex_my ∧ naddr_wf ex_peer ∧ na_topology ex_my = na_topology ex_peer ∧
  (∃ p, hcoord ex_peer ex_my = Ok (Some (mkHCoord 0 p))).
Proof.
  assert (naddr_wf ex_my) as Hm by (apply ex_naddr_wf; unfold is_u32, U32_MAX; lia).
  assert (naddr_wf ex_peer) as Hp by (apply ex_naddr_wf; unfold is_u32, U32_MAX; lia).
  split_and!; [done|done|done|].
  apply (hcoord_divergence ex_my ex_peer Hm Hp eq_refl) with (h := mkHCoord 0 3). reflexivity.
Defined.

(** Path costs form an ordered commutative monoid: [saturating_add] is
    associative and commutative with unit [Null] and absorbing [Dead], stays in
    range, and is monotone, so that ordering paths by total cost is stable under
    adding a common prefix. *)
Theorem cost_algebra a b c :
  cost_wf a → cost_wf b → cost_wf c →
  saturating_add a (saturating_add b c) = saturating_add (saturating_add a b) c ∧
  saturating_add a b = saturating_add b a ∧ saturating_add Null a = a ∧ saturating_add Dead a = Dead ∧
  cost_wf (saturating_add a b) ∧ cost_leb a (saturating_add a b) = true ∧
  (cost_leb a b = true → cost_leb (saturating_add c a) (saturating_add c b) = true).
Proof.
  intros Ha Hb Hc. split_and!; [by apply saturating_add_assoc|apply saturating_add_comm|by destruct a|done
    |by apply saturating_add_wf| |by intros; apply saturating_add_mono].
  destruct a, b; cbn in *; try done; apply Z.leb_le; unfold is_u64, u64_saturating_add in *; lia.
Qed.

Lemma cost_algebra_witness :
  saturating_add (Finite 3) (saturating_add (Finite U64_MAX) (Finite 1)) =
  saturating_add (saturating_add (Finite 3) (Finite U64_MAX)) (Finite 1).
Proof.
  apply (cost_algebra (Finite 3) (Finite U64_MAX) (Finite 1)); cbn; unfold is_u64, U64_MAX; lia.
Defined.

(** [is_inside] looks at one level only: an address is reported inside the
    g-node [3] of level 0 of its own level-1 g-node and of any other. *)
Example is_inside_ignores_upper_levels :
  is_inside (mkNaddr ex_topology [3; 2]%Z) (mkHCoord 0 3) = Ok true ∧
  is_inside (mkNaddr ex_topology [3; 1]%Z) (mkHCoord 0 3) = Ok true ∧
  hcoord (mkNaddr ex_topology [3; 2]%Z) (mkNaddr ex_topology [3; 1]%Z) = Ok (Some (mkHCoord 1 1)).
Proof. done. Qed.
