(* ===== verification/Fingerprint.v ===== *)
(** * Fingerprint: g-node identity and eldership

    Models [crates/ntk-common/src/fingerprint.rs].  A fingerprint carries the
    identity of the member that won every eldership race up to its level, the
    claim of its own level, the claims of the levels above, and the trail of
    winning claims.  [-1] is the claim of a virtual position. *)
From S2P Require Import Prelude Addressing.

Record Fingerprint (Id : Type) := mkFingerprint {
  fp_id : Id;
  fp_level : nat;
  fp_eldership : Z;
  fp_pending_elderships : list Z;
  fp_elderships_seed : list Z
}.
Arguments mkFingerprint {Id}.
Arguments fp_id {Id}.
Arguments fp_level {Id}.
Arguments fp_eldership {Id}.
Arguments fp_pending_elderships {Id}.
Arguments fp_elderships_seed {Id}.

#[export] Instance Fingerprint_eq_dec `{EqDecision Id} : EqDecision (Fingerprint Id).
Proof. solve_decision. Defined.

Record FingerprintParts (Id : Type) := mkFingerprintParts {
  pt_id : Id;
  pt_level : nat;
  pt_eldership : option Z;
  pt_pending_elderships : list Z;
  pt_elderships_seed : list (option Z)
}.
Arguments mkFingerprintParts {Id}.
Arguments pt_id {Id}.
Arguments pt_level {Id}.
Arguments pt_eldership {Id}.
Arguments pt_pending_elderships {Id}.
Arguments pt_elderships_seed {Id}.

Definition elder_claim_outranks (candidate current : Z) : bool :=
  if (candidate =? -1)%Z then false else (candidate <=? current)%Z.

(** [u32::try_from(raw).ok()] and [map_or(-1, i64::from)]. *)
Definition eldership_to_option (raw : Z) : option Z :=
  if (0 <=? raw)%Z && (raw <=? U32_MAX)%Z then Some raw else None.
Definition eldership_from_option (value : option Z) : Z := default (-1)%Z value.

Section Fingerprint.
Context {Id : Type} `{EqDecision Id}.
Implicit Types f g : Fingerprint Id.

Definition fp_new (id : Id) (eldership : Z) (pending_elderships : list Z) : Fingerprint Id :=
  mkFingerprint id 0 eldership pending_elderships [].

Definition identity_eq f g : bool :=
  (fp_level f =? fp_level g) && bool_decide (fp_id f = fp_id g).

(** The champion race of [construct]: the claim, identity and seed trail of the
    current champion. *)
Definition champion_step (c : Z * Id * list Z) f : Z * Id * list Z :=
  let '(claim, _, _) := c in
  if elder_claim_outranks (fp_eldership f) claim
  then (fp_eldership f, fp_id f, fp_elderships_seed f)
  else c.

Definition champion f (siblings : list (Fingerprint Id)) (is_null_eldership : bool)
    : Z * Id * list Z :=
  let my_claim := if is_null_eldership then (-1)%Z else fp_eldership f in
  foldl champion_step (my_claim, fp_id f, fp_elderships_seed f) siblings.

Definition construct f (siblings : list (Fingerprint Id)) (is_null_eldership : bool)
    : res Error (Fingerprint Id) :=
  match fp_pending_elderships f with
  | [] => Err TopOfHierarchy
  | next_eldership :: rest =>
      let '(champion_claim, champion_id, champion_seed) :=
        champion f siblings is_null_eldership in
      Ok (mkFingerprint champion_id (S (fp_level f)) next_eldership rest
            (champion_claim :: champion_seed))
  end.

(** The lexicographic scan of [elder_seed]. *)
Fixpoint elder_seed_loop (mine theirs : list Z) : res Error bool :=
  match mine, theirs with
  | m :: mine', t :: theirs' =>
      match (m ?= t)%Z with
      | Lt => Ok true
      | Gt => Ok false
      | Eq => elder_seed_loop mine' theirs'
      end
  | _, _ => Err IndistinguishableFingerprints
  end.

Definition elder_seed f g : res Error bool :=
  if fp_level f =? 0 then Err FingerprintBaseLevel
  else if negb (fp_level f =? fp_level g)
  then Err (FingerprintLevelMismatch (fp_level f) (fp_level g))
  else elder_seed_loop (fp_elderships_seed f) (fp_elderships_seed g).

Definition same_branch f g (self_nodes_inside other_nodes_inside : Z) : bool :=
  identity_eq f g ||
  ((1 <? self_nodes_inside)%Z && (1 <? other_nodes_inside)%Z &&
   match elder_seed f g with
   | Err IndistinguishableFingerprints => true
   | _ => false
   end).

Definition to_parts f : FingerprintParts Id :=
  mkFingerprintParts (fp_id f) (fp_level f) (eldership_to_option (fp_eldership f))
    (fp_pending_elderships f) (eldership_to_option <$> fp_elderships_seed f).

Definition from_parts (parts : FingerprintParts Id) : res Error (Fingerprint Id) :=
  if negb (length (pt_elderships_seed parts) =? pt_level parts)
  then Err (FingerprintSeedLength (pt_level parts) (length (pt_elderships_seed parts)))
  else Ok (mkFingerprint (pt_id parts) (pt_level parts)
             (eldership_from_option (pt_eldership parts))
             (pt_pending_elderships parts)
             (eldership_from_option <$> pt_elderships_seed parts)).

(** ** The type invariant

    A claim is a [u32] or the sentinel; one seed entry per aggregated level. *)
Definition claim_wf (z : Z) : Prop := z = (-1)%Z ∨ is_u32 z.

Definition fp_wf f : Prop :=
  length (fp_elderships_seed f) = fp_level f ∧ claim_wf (fp_eldership f) ∧
  Forall is_u32 (fp_pending_elderships f) ∧ Forall claim_wf (fp_elderships_seed f).

(** ** Lemmas *)
Lemma identity_eq_true f g :
  identity_eq f g = true ↔ fp_level f = fp_level g ∧ fp_id f = fp_id g.
Proof. unfold identity_eq. rewrite andb_true_iff, Nat.eqb_eq, bool_decide_eq_true. done. Qed.

Lemma identity_eq_refl f : identity_eq f f = true.
Proof. by apply identity_eq_true. Qed.

Lemma identity_eq_sym f g : identity_eq f g = identity_eq g f.
Proof. apply eq_true_iff_eq. rewrite !identity_eq_true. naive_solver. Qed.

Lemma identity_eq_trans f g h :
  identity_eq f g = true → identity_eq g h = true → identity_eq f h = true.
Proof. rewrite !identity_eq_true. naive_solver congruence. Qed.

Lemma same_branch_refl f n : same_branch f f n n = true.
Proof. unfold same_branch. by rewrite identity_eq_refl. Qed.

Lemma elder_seed_loop_cases xs ys :
  elder_seed_loop xs ys = Ok true ∨ elder_seed_loop xs ys = Ok false ∨
  elder_seed_loop xs ys = Err IndistinguishableFingerprints.
Proof.
  revert ys. induction xs as [|x xs IH]; intros [|y ys]; cbn; auto.
  destruct (x ?= y)%Z; auto.
Qed.

(** Between fingerprints of one level above zero, [elder_seed] either orders
    them or reports them indistinguishable: no other error is possible. *)
Lemma elder_seed_cases f g :
  0 < fp_level f → fp_level f = fp_level g →
  elder_seed f g = Ok true ∨ elder_seed f g = Ok false ∨
  elder_seed f g = Err IndistinguishableFingerprints.
Proof.
  intros Hl Heq. unfold elder_seed.
  rewrite (proj2 (Nat.eqb_neq _ _)) by lia. rewrite Heq, Nat.eqb_refl. cbn.
  apply elder_seed_loop_cases.
Qed.

Lemma elder_seed_no_panic f g : elder_seed f g ≠ Panic.
Proof.
  unfold elder_seed. repeat case_match; try done.
  destruct (elder_seed_loop_cases (fp_elderships_seed f) (fp_elderships_seed g))
    as [->|[->| ->]]; done.
Qed.

Lemma elder_seed_loop_asym xs ys :
  elder_seed_loop xs ys = Ok true ↔ elder_seed_loop ys xs = Ok false.
Proof.
  revert ys. induction xs as [|x xs IH]; intros [|y ys]; cbn; try done.
  rewrite (Z.compare_antisym x y). destruct (x ?= y)%Z; cbn; [apply IH|done..].
Qed.

Lemma elder_seed_loop_trans xs ys zs :
  elder_seed_loop xs ys = Ok true → elder_seed_loop ys zs = Ok true →
  elder_seed_loop xs zs = Ok true.
Proof.
  revert ys zs. induction xs as [|x xs IH]; intros [|y ys] [|z zs]; cbn; try done.
  destruct (Z.compare_spec x y), (Z.compare_spec y z), (Z.compare_spec x z);
    intros; subst; try done; try lia; eauto.
Qed.

Lemma elder_seed_loop_tie xs ys :
  length xs = length ys →
  elder_seed_loop xs ys = Err IndistinguishableFingerprints ↔ xs = ys.
Proof.
  revert ys. induction xs as [|x xs IH]; intros [|y ys] Hl; simplify_eq/=; [done|].
  destruct (Z.compare_spec x y); subst.
  - rewrite IH by done. naive_solver.
  - split; [done|]. intros [= -> ?]. lia.
  - split; [done|]. intros [= -> ?]. lia.
Qed.

(** The champion's claim: the least of the claims that count. *)
Lemma champion_cases claim (id : Id) seed l :
  foldl champion_step (claim, id, seed) l = (claim, id, seed) ∨
  ∃ f, f ∈ l ∧ fp_eldership f ≠ (-1)%Z ∧ (fp_eldership f ≤ claim)%Z ∧
    foldl champion_step (claim, id, seed) l = (fp_eldership f, fp_id f, fp_elderships_seed f).
Proof.
  revert claim id seed. induction l as [|f l IH]; intros claim id seed; cbn; [by left|].
  unfold elder_claim_outranks. destruct (Z.eqb_spec (fp_eldership f) (-1)).
  { destruct (IH claim id seed) as [?|(g & ? & ?)]; [by left|]. right. exists g.
    split; [by right|done]. }
  destruct (Z.leb_spec (fp_eldership f) claim).
  - right. destruct (IH (fp_eldership f) (fp_id f) (fp_elderships_seed f)) as [->|(g & ? & ? & ? & ->)].
    + exists f. split_and!; [by left|done..].
    + exists g. split_and!; [by right|done|lia|done].
  - destruct (IH claim id seed) as [?|(g & ? & ?)]; [by left|]. right. exists g.
    split; [by right|done].
Qed.

Lemma champion_claim_le claim (id : Id) seed l g :
  g ∈ l → fp_eldership g ≠ (-1)%Z →
  ((foldl champion_step (claim, id, seed) l).1.1 ≤ fp_eldership g)%Z.
Proof.
  assert (Hle : ∀ l claim (id : Id) seed, ((foldl champion_step (claim, id, seed) l).1.1 ≤ claim)%Z).
  { intros l' c i s. destruct (champion_cases c i s l') as [->|(f & _ & _ & ? & ->)]; cbn; lia. }
  revert claim id seed. induction l as [|f l IH]; intros claim id seed Hg Hn; [by apply elem_of_nil in Hg|].
  apply elem_of_cons in Hg as [->|Hg]; cbn.
  - unfold elder_claim_outranks. rewrite (proj2 (Z.eqb_neq _ _)) by done.
    destruct (Z.leb_spec (fp_eldership f) claim); [apply Hle|].
    specialize (Hle l claim id seed). lia.
  - destruct (elder_claim_outranks _ _); by apply IH.
Qed.

Lemma construct_Ok f siblings b g :
  construct f siblings b = Ok g →
  ∃ claim seed,
    champion f siblings b = (claim, fp_id g, seed) ∧
    fp_level g = S (fp_level f) ∧
    fp_pending_elderships f = fp_eldership g :: fp_pending_elderships g ∧
    fp_elderships_seed g = claim :: seed.
Proof.
  unfold construct. destruct (fp_pending_elderships f) as [|e rest]; [done|].
  destruct (champion f siblings b) as [[claim id] seed] eqn:Hc. intros [= <-]. by exists claim, seed.
Qed.

Lemma construct_is_Ok f siblings b :
  0 < length (fp_pending_elderships f) → is_Ok (construct f siblings b).
Proof.
  unfold construct. destruct (fp_pending_elderships f); cbn; [lia|].
  destruct (champion f siblings b) as [[??]?]. eauto with ntk.
Qed.

Lemma construct_no_panic f siblings b : construct f siblings b ≠ Panic.
Proof. unfold construct. repeat case_match; done. Qed.

Lemma construct_wf_lemma f siblings b g :
  fp_wf f → Forall fp_wf siblings → Forall (λ s, fp_level s = fp_level f) siblings →
  construct f siblings b = Ok g → fp_wf g.
Proof.
  intros (Hs & Hc & Hp & Hf) Hsib Hlev (claim & seed & Hch & Hl & Hpend & Hseed)%construct_Ok.
  assert (claim_wf claim ∧ length seed = fp_level f ∧ Forall claim_wf seed) as (? & ? & ?).
  { unfold champion in Hch. rewrite Forall_forall in Hsib, Hlev.
    destruct (champion_cases (if b then (-1)%Z else fp_eldership f) (fp_id f) (fp_elderships_seed f)
      siblings) as [Heq|(s & Hin & _ & _ & Heq)]; rewrite Heq in Hch; simplify_eq.
    - split_and!; [|done..]. destruct b; [by left|done].
    - destruct (Hsib s Hin) as (? & ? & _ & ?). rewrite <-(Hlev s Hin). done. }
  rewrite Hpend in Hp. apply Forall_cons in Hp as [? ?].
  unfold fp_wf. rewrite Hseed, Hl. cbn. split_and!; [lia|by right|done|by constructor].
Qed.

Lemma eldership_option_roundtrip z :
  claim_wf z → eldership_from_option (eldership_to_option z) = z.
Proof.
  intros [->|[H1 H2]]; [done|]. unfold eldership_to_option.
  rewrite (proj2 (Z.leb_le _ _) H1), (proj2 (Z.leb_le _ _) H2). done.
Qed.
End Fingerprint.

#[export] Hint Resolve identity_eq_refl same_branch_refl : ntk.

(** ** Properties *)
Section Properties.
Context {Id : Type} `{EqDecision Id}.
Implicit Types f g h : Fingerprint Id.

(** Aggregation.  [construct] of a well-formed fingerprint with well-formed
    siblings of its level fails exactly at the top of the hierarchy; otherwise
    it climbs one level, stays well formed (one seed entry per level), consumes
    exactly one pending claim, and records a winning claim that no real sibling
    undercuts and, unless this node's position is virtual, that its own claim
    does not undercut either; the recorded identity is a contender's. *)
Theorem construct_correct f siblings b :
  fp_wf f → Forall fp_wf siblings → Forall (λ s, fp_level s = fp_level f) siblings →
  (fp_pending_elderships f = [] ∧ construct f siblings b = Err TopOfHierarchy) ∨
  ∃ g claim seed,
    construct f siblings b = Ok g ∧ fp_wf g ∧ fp_level g = S (fp_level f) ∧
    fp_pending_elderships f = fp_eldership g :: fp_pending_elderships g ∧
    fp_elderships_seed g = claim :: seed ∧
    (fp_id g = fp_id f ∨ ∃ s, s ∈ siblings ∧ fp_id g = fp_id s ∧ fp_eldership s = claim) ∧
    (∀ s, s ∈ siblings → fp_eldership s ≠ (-1)%Z → (claim ≤ fp_eldership s)%Z) ∧
    (b = false → (claim ≤ fp_eldership f)%Z).
Proof.
  intros Hf Hs Hl. destruct (fp_pending_elderships f) as [|e rest] eqn:Hp.
  { left. split; [done|]. unfold construct. by rewrite Hp. }
  right. destruct (construct_is_Ok f siblings b) as [g Hg]; [rewrite Hp; cbn; lia|].
  destruct (construct_Ok _ _ _ _ Hg) as (claim & seed & Hch & Hlev & Hpend & Hseed).
  exists g, claim, seed. rewrite <-Hp. split_and!; [done|by eapply construct_wf_lemma|done..| | |].
  all: unfold champion in Hch.
  - destruct (champion_cases (if b then (-1)%Z else fp_eldership f) (fp_id f)
      (fp_elderships_seed f) siblings) as [Heq|(s & ? & _ & _ & Heq)]; rewrite Heq in Hch;
      simplify_eq; eauto 10.
  - intros s Hin Hne. pose proof (champion_claim_le (if b then (-1)%Z else fp_eldership f)
      (fp_id f) (fp_elderships_seed f) siblings s Hin Hne) as Hle. by rewrite Hch in Hle.
  - intros ->. destruct (champion_cases (fp_eldership f) (fp_id f) (fp_elderships_seed f) siblings)
      as [Heq|(s & _ & _ & ? & Heq)]; rewrite Heq in Hch; simplify_eq; lia.
Qed.

(** Eldership order.  Between well-formed fingerprints of one level above
    zero, [elder_seed] is a strict total order up to equal seed trails: it is
    asymmetric and transitive, it reports [IndistinguishableFingerprints]
    exactly on equal trails, and it returns no other error. *)
Theorem elder_seed_strict_order f g h :
  fp_wf f → fp_wf g → fp_wf h → 0 < fp_level f → fp_level f = fp_level g → fp_level g = fp_level h →
  (elder_seed f g = Ok true ↔ elder_seed g f = Ok false) ∧
  (elder_seed f g = Ok true → elder_seed g h = Ok true → elder_seed f h = Ok true) ∧
  (elder_seed f g = Err IndistinguishableFingerprints ↔
     fp_elderships_seed f = fp_elderships_seed g) ∧
  (elder_seed f g = Ok true ∨ elder_seed f g = Ok false ∨
     elder_seed f g = Err IndistinguishableFingerprints).
Proof.
  intros (Hf & _) (Hg & _) (Hh & _) Hl H1 H2.
  assert (Hun : ∀ a b : Fingerprint Id, 0 < fp_level a → fp_level a = fp_level b →
    elder_seed a b = elder_seed_loop (fp_elderships_seed a) (fp_elderships_seed b)).
  { intros a b Ha Hab. unfold elder_seed. rewrite (proj2 (Nat.eqb_neq _ _)) by lia.
    by rewrite Hab, Nat.eqb_refl. }
  split_and!.
  - rewrite !Hun by lia. apply elder_seed_loop_asym.
  - rewrite !Hun by lia. apply elder_seed_loop_trans.
  - rewrite Hun by lia. apply elder_seed_loop_tie. lia.
  - by apply elder_seed_cases.
Qed.

(** Decomposing a well-formed fingerprint into its wire parts and rebuilding
    it gives the same fingerprint, and every fingerprint that [from_parts]
    accepts from parts carrying [u32] claims is well formed. *)
Theorem parts_roundtrip f p :
  fp_wf f →
  Forall is_u32 (option_list (pt_eldership p)) → Forall is_u32 (pt_pending_elderships p) →
  Forall (λ o, Forall is_u32 (option_list o)) (pt_elderships_seed p) →
  from_parts (to_parts f) = Ok f ∧ (∀ g, from_parts p = Ok g → fp_wf g ∧ to_parts g = p).
Proof.
  intros (Hs & Hc & Hp & Hf) Ho Hpd Hsd. split.
  - unfold from_parts, to_parts. cbn. rewrite length_fmap, Hs, Nat.eqb_refl. cbn.
    rewrite eldership_option_roundtrip by done. rewrite <-list_fmap_compose.
    rewrite (Forall_fmap_ext_1 _ id) by
      (eapply Forall_impl; [exact Hf|]; intros; by apply eldership_option_roundtrip).
    rewrite list_fmap_id. by destruct f.
  - assert (Hok : ∀ o : option Z, Forall is_u32 (option_list o) →
      claim_wf (eldership_from_option o) ∧ eldership_to_option (eldership_from_option o) = o).
    { intros [z|] Hz; cbn in *; [|split; [by left|done]]. apply (proj1 (Forall_singleton is_u32 z)) in Hz.
      split; [right; exact Hz|]. unfold eldership_to_option. destruct Hz as [H1 H2].
      by rewrite (proj2 (Z.leb_le _ _) H1), (proj2 (Z.leb_le _ _) H2). }
    unfold from_parts. intros g. destruct (Nat.eqb_spec (length (pt_elderships_seed p)) (pt_level p));
      [|done]. intros [= <-]. unfold fp_wf, to_parts. cbn. rewrite length_fmap. split.
    + split_and!; [done|by apply Hok|done|]. apply Forall_fmap.
      eapply Forall_impl; [exact Hsd|]. intros o ?. by apply Hok.
    + destruct p as [i l el pe sd]. cbn in *. f_equal; [by apply Hok|].
      rewrite <-list_fmap_compose. rewrite (Forall_fmap_ext_1 _ id), list_fmap_id; [done|].
      eapply Forall_impl; [exact Hsd|]. intros o ?. by apply Hok.
Qed.

(** The race is won by a contender whose claim is least. *)
Lemma champion_least f siblings :
  Forall (λ s, fp_eldership s ≠ (-1)%Z) (f :: siblings) →
  ∃ m, m ∈ f :: siblings ∧ champion f siblings false = (fp_eldership m, fp_id m, fp_elderships_seed m) ∧
    ∀ s, s ∈ f :: siblings → (fp_eldership m ≤ fp_eldership s)%Z.
Proof.
  intros [Hf Hs]%Forall_cons. unfold champion. rewrite Forall_forall in Hs.
  pose proof (λ s Hin, champion_claim_le (fp_eldership f) (fp_id f) (fp_elderships_seed f) siblings s Hin (Hs s Hin)) as Hle.
  destruct (champion_cases (fp_eldership f) (fp_id f) (fp_elderships_seed f) siblings) as [Heq|(m & Hm & _ & Hmf & Heq)];
    rewrite Heq in Hle; cbn in Hle.
  - exists f. split_and!; [by left|done|]. intros s [->|Hin]%elem_of_cons; [lia|auto].
  - exists m. split_and!; [by right|done|]. intros s [->|Hin]%elem_of_cons; auto.
Qed.

(** C15: the members of one g-node agree on its fingerprint.  When the real
    claims of the members are pairwise distinct, any two members that aggregate
    the same set of members, each from its own point of view and in its own
    order, construct fingerprints with the same identity and the same seed
    trail. *)
Theorem members_agree members f sf g sg F G :
  NoDup (fp_eldership <$> members) → Forall (λ s, fp_eldership s ≠ (-1)%Z) members →
  f :: sf ≡ₚ members → g :: sg ≡ₚ members → fp_level f = fp_level g →
  construct f sf false = Ok F → construct g sg false = Ok G →
  identity_eq F G = true ∧ fp_elderships_seed F = fp_elderships_seed G.
Proof.
  intros Hnd Hreal Hf Hg Hl HF HG.
  destruct (champion_least f sf) as (m & Hm & Hcm & Hlm); [by rewrite Hf|].
  destruct (champion_least g sg) as (n & Hn & Hcn & Hln); [by rewrite Hg|].
  rewrite Hf in Hm. rewrite Hg in Hn.
  assert (m = n) as ->.
  { assert (fp_eldership m = fp_eldership n) as He.
    { apply Z.le_antisymm; [apply Hlm; by rewrite Hf|apply Hln; by rewrite Hg]. }
    apply list_elem_of_lookup in Hm as [i Hi]. apply list_elem_of_lookup in Hn as [j Hj].
    assert (i = j) as ->; [|congruence].
    apply (NoDup_lookup _ i j (fp_eldership m) Hnd); rewrite list_lookup_fmap; [by rewrite Hi|by rewrite Hj, He]. }
  destruct (construct_Ok _ _ _ _ HF) as (c1 & s1 & E1 & L1 & _ & S1).
  destruct (construct_Ok _ _ _ _ HG) as (c2 & s2 & E2 & L2 & _ & S2).
  rewrite Hcm in E1. rewrite Hcn in E2. simplify_eq. split; [|congruence].
  apply identity_eq_true. split; congruence.
Qed.
End Properties.

(** ** Witnesses *)
Definition ex_fp (id claim : Z) : Fingerprint (list Z) := fp_new [id] claim [5; 6]%Z.

Lemma ex_fp_wf id claim : is_u32 claim → fp_wf (ex_fp id claim).
Proof.
  intros Hc. split_and!; [done|by right| |constructor].
  constructor; [unfold is_u32, U32_MAX; lia|]. constructor; [unfold is_u32, U32_MAX; lia|constructor].
Qed.

Lemma construct_correct_witness :
  construct (ex_fp 1 7) [ex_fp 2 3] false = Ok (mkFingerprint [2]%Z 1 5 [6]%Z [3]%Z) ∧ 0 < 1.
Proof.
  assert (is_u32 7 ∧ is_u32 3) as [H7 H3] by (unfold is_u32, U32_MAX; lia).
  destruct (construct_correct (ex_fp 1 7) [ex_fp 2 3] false) as [[Hp _]|(g & c & sd & Hg & _ & _ & _ & _ & _ & Hle & _)];
    [by apply ex_fp_wf|constructor; [by apply ex_fp_wf|constructor]|by repeat constructor|discriminate Hp|].
  split; [reflexivity|lia].
Defined.

Definition ex_fp1 (id claim seed : Z) : Fingerprint (list Z) := mkFingerprint [id] 1 claim [6]%Z [seed].

Lemma ex_fp1_wf id claim seed : is_u32 claim → is_u32 seed → fp_wf (ex_fp1 id claim seed).
Proof.
  intros Hc Hs. split_and!; [done|by right| |].
  - constructor; [unfold is_u32, U32_MAX; lia|constructor].
  - constructor; [by right|constructor].
Qed.

Lemma elder_seed_strict_order_witness :
  elder_seed (ex_fp1 1 7 3) (ex_fp1 2 7 4) = Ok true ∧ elder_seed (ex_fp1 2 7 4) (ex_fp1 1 7 3) = Ok false.
Proof.
  assert (∀ z, (0 <= z < 10)%Z → is_u32 z) as Hu by (unfold is_u32, U32_MAX; lia).
  split; [reflexivity|].
  apply (elder_seed_strict_order (ex_fp1 1 7 3) (ex_fp1 2 7 4) (ex_fp1 3 7 5));
    try (apply ex_fp1_wf; apply Hu; lia); try reflexivity. cbn. lia.
Defined.

Lemma parts_roundtrip_witness :
  from_parts (to_parts (ex_fp1 1 7 3)) = Ok (ex_fp1 1 7 3).
Proof.
  assert (∀ z, (0 <= z < 10)%Z → is_u32 z) as Hu by (unfold is_u32, U32_MAX; lia).
  apply (parts_roundtrip (ex_fp1 1 7 3) (mkFingerprintParts [1]%Z 0 None [] []));
    [apply ex_fp1_wf; apply Hu; lia|constructor|constructor|constructor].
Defined.

Lemma members_agree_witness :
  identity_eq (mkFingerprint [2]%Z 1 5 [6]%Z [3]%Z) (mkFingerprint [2]%Z 1 5 [6]%Z [3]%Z) = true.
Proof.
  apply (members_agree [ex_fp 1 7; ex_fp 2 3] (ex_fp 1 7) [ex_fp 2 3] (ex_fp 2 3) [ex_fp 1 7]);
    try reflexivity.
  - apply NoDup_cons. split; [intros H%list_elem_of_singleton; discriminate|apply NoDup_singleton].
  - constructor; [discriminate|]. constructor; [discriminate|constructor].
  - apply Permutation_swap.
Defined.
