(* ===== verification/Domain.v ===== *)
(** * The shared domain wire codec

    Models [crates/ntk-proto/src/domain.rs]: the conversions between the
    validated types of [Addressing] and [Fingerprint] and the protobuf messages
    of [crates/ntk-proto/proto/domain.proto] (the records [Wire*]), and the
    [TypedValue] envelope.  The byte encoding of a message is [prost]'s, which is
    not part of the repository: it is the class [ProstMessage], whose law is
    that decoding inverts encoding. *)
From stdpp Require Import strings.
From S2P Require Import Prelude Addressing Fingerprint.

(** ** Messages (proto/domain.proto) *)
Record WireTopology := mkWireTopology { wt_gsizes : list Z }.
Record WireNaddr := mkWireNaddr { wn_topology : option WireTopology; wn_pos : list Z }.
Record WireHCoord := mkWireHCoord { wh_level : Z; wh_pos : Z }.
Inductive WireCostValue := WNull (b : bool) | WFinite (v : Z) | WDead (b : bool).
Record WireCost := mkWireCost { wc_value : option WireCostValue }.
Record WireOptionalEldership := mkWireOptionalEldership { wo_value : option Z }.
Record WireFingerprint := mkWireFingerprint {
  wf_id : list Z;
  wf_level : Z;
  wf_eldership : option Z;
  wf_pending_elderships : list Z;
  wf_elderships_seed : list WireOptionalEldership
}.
Record TypedValue := mkTypedValue { tv_type_tag : string; tv_payload : list Z }.

(** ** Decoding errors *)
Inductive DomainDecodeError :=
  | Invalid (e : Error)
  | MissingCostValue
  | MissingTopology
  | IntegerOutOfRange (v : Z)
  | TypeTagMismatch (expected actual : string)
  | PayloadDecode (msg : string)
  | MissingUnicastIdKind.

(** [usize::try_from(u64)] on a 64-bit target. *)
Definition usize_try_from (v : Z) : res DomainDecodeError nat :=
  if (v <=? U64_MAX)%Z then Ok (Z.to_nat v) else Err (IntegerOutOfRange v).

(** ** Conversions *)
Definition topology_to_wire (t : Topology) : WireTopology := mkWireTopology (gsizes t).
Definition topology_from_wire (w : WireTopology) : res DomainDecodeError Topology :=
  map_err Invalid (topology_new (wt_gsizes w)).

Definition naddr_to_wire (a : Naddr) : WireNaddr :=
  mkWireNaddr (Some (topology_to_wire (na_topology a))) (na_pos a).
Definition naddr_from_wire (w : WireNaddr) : res DomainDecodeError Naddr :=
  topology_wire ← ok_or (wn_topology w) MissingTopology;
  t ← topology_from_wire topology_wire;
  map_err Invalid (new_allowing_virtual t (wn_pos w)).

Definition hcoord_to_wire (h : HCoord) : WireHCoord :=
  mkWireHCoord (Z.of_nat (hc_level h)) (hc_pos h).
Definition hcoord_from_wire (w : WireHCoord) : res DomainDecodeError HCoord :=
  level ← usize_try_from (wh_level w);
  Ok (mkHCoord level (wh_pos w)).

Definition cost_to_wire (c : Cost) : WireCost :=
  mkWireCost (Some match c with
                   | Null => WNull true
                   | Finite v => WFinite v
                   | Dead => WDead true
                   end).
Definition cost_from_wire (w : WireCost) : res DomainDecodeError Cost :=
  match wc_value w with
  | Some (WNull _) => Ok Null
  | Some (WFinite v) => Ok (Finite v)
  | Some (WDead _) => Ok Dead
  | None => Err MissingCostValue
  end.

Definition fingerprint_to_wire (f : Fingerprint (list Z)) : WireFingerprint :=
  let parts := to_parts f in
  mkWireFingerprint (pt_id parts) (Z.of_nat (pt_level parts)) (pt_eldership parts)
    (pt_pending_elderships parts) (mkWireOptionalEldership <$> pt_elderships_seed parts).
Definition fingerprint_from_wire (w : WireFingerprint) : res DomainDecodeError (Fingerprint (list Z)) :=
  level ← usize_try_from (wf_level w);
  map_err Invalid (from_parts (mkFingerprintParts (wf_id w) level (wf_eldership w)
    (wf_pending_elderships w) (wo_value <$> wf_elderships_seed w))).

(** ** The typed envelope *)
Class ProstMessage (M : Type) := {
  encode_to_vec : M → list Z;
  prost_decode : list Z → res string M;
  prost_decode_encode : ∀ m, prost_decode (encode_to_vec m) = Ok m
}.

Definition typed_value `{ProstMessage M} (type_tag : string) (msg : M) : TypedValue :=
  mkTypedValue type_tag (encode_to_vec msg).

Definition from_typed_value `{ProstMessage M} (tv : TypedValue) (expected_tag : string)
    : res DomainDecodeError M :=
  if bool_decide (tv_type_tag tv = expected_tag)
  then map_err PayloadDecode (prost_decode (tv_payload tv))
  else Err (TypeTagMismatch expected_tag (tv_type_tag tv)).

(** [UnicastId] and its wire message. *)
Inductive UnicastId :=
  | WholeNode (id : TypedValue)
  | IdentityAware (id : TypedValue)
  | MainIdentity.

Inductive WireUnicastIdKind :=
  | KWholeNode (id : TypedValue)
  | KIdentityAware (id : TypedValue)
  | KMainIdentity.
Record WireUnicastId := mkWireUnicastId { wu_kind : option WireUnicastIdKind }.

Definition UNICAST_ID_TAG : string := "proto.UnicastId".

Section UnicastId.
Context `{ProstMessage WireUnicastId}.

Definition unicast_id_to_typed_value (u : UnicastId) : TypedValue :=
  typed_value UNICAST_ID_TAG (mkWireUnicastId (Some
    match u with
    | WholeNode id => KWholeNode id
    | IdentityAware id => KIdentityAware id
    | MainIdentity => KMainIdentity
    end)).

Definition unicast_id_from_typed_value (tv : TypedValue) : res DomainDecodeError UnicastId :=
  if bool_decide (tv_type_tag tv = "") then Ok MainIdentity
  else
    wire ← from_typed_value tv UNICAST_ID_TAG;
    match wu_kind wire with
    | Some (KWholeNode id) => Ok (WholeNode id)
    | Some (KIdentityAware id) => Ok (IdentityAware id)
    | Some KMainIdentity => Ok MainIdentity
    | None => Err MissingUnicastIdKind
    end.
End UnicastId.

(** ** Lemmas *)
Lemma usize_roundtrip n : (Z.of_nat n ≤ U64_MAX)%Z → usize_try_from (Z.of_nat n) = Ok n.
Proof. intros H. unfold usize_try_from. rewrite (proj2 (Z.leb_le _ _) H), Nat2Z.id. done. Qed.

Lemma topology_new_wf t : topology_wf t → topology_new (gsizes t) = Ok t.
Proof.
  intros Hw. destruct t as [gs]. apply topology_new_Ok; [|done].
  destruct Hw as [_ H]. eapply Forall_impl; [exact H|]. cbn. unfold is_u32. lia.
Qed.

Lemma naddr_wire_roundtrip a : naddr_wf a → naddr_from_wire (naddr_to_wire a) = Ok a.
Proof.
  intros (Ht & Hl & _). unfold naddr_from_wire, naddr_to_wire, topology_from_wire. cbn.
  rewrite topology_new_wf by done. cbn. unfold new_allowing_virtual.
  rewrite Hl, Nat.eqb_refl. by destruct a.
Qed.

Lemma hcoord_wire_roundtrip h :
  (Z.of_nat (hc_level h) ≤ U64_MAX)%Z → hcoord_from_wire (hcoord_to_wire h) = Ok h.
Proof. intros H. unfold hcoord_from_wire. cbn. rewrite usize_roundtrip by done. by destruct h. Qed.

Lemma cost_wire_roundtrip c : cost_from_wire (cost_to_wire c) = Ok c.
Proof. by destruct c. Qed.

Lemma fingerprint_wire_roundtrip f :
  fp_wf f → (Z.of_nat (fp_level f) ≤ U64_MAX)%Z →
  fingerprint_from_wire (fingerprint_to_wire f) = Ok f.
Proof.
  intros (Hs & Hc & _ & Hf) Hl. unfold fingerprint_from_wire. cbn.
  rewrite usize_roundtrip by done. cbn. rewrite <-list_fmap_compose.
  rewrite (list_fmap_ext _ id) by done. rewrite list_fmap_id.
  unfold from_parts. cbn. rewrite length_fmap, Hs, Nat.eqb_refl. cbn.
  rewrite eldership_option_roundtrip by done. rewrite <-list_fmap_compose.
  rewrite (Forall_fmap_ext_1 _ id) by
    (eapply Forall_impl; [exact Hf|]; intros; by apply eldership_option_roundtrip).
  rewrite list_fmap_id. by destruct f.
Qed.

Lemma from_typed_value_typed_value `{ProstMessage M} tag (m : M) :
  from_typed_value (typed_value tag m) tag = Ok m.
Proof.
  unfold from_typed_value. cbn. rewrite bool_decide_true by done. by rewrite prost_decode_encode.
Qed.

Lemma from_wire_topology_wf w t :
  Forall is_u32 (wt_gsizes w) → topology_from_wire w = Ok t → topology_wf t.
Proof. intros Hu H. apply map_err_Ok, topology_new_Ok in H; [|done]. by destruct H. Qed.

Lemma from_wire_naddr_wf w a :
  Forall is_u32 (wn_pos w) → Forall (λ t, Forall is_u32 (wt_gsizes t)) (option_list (wn_topology w)) →
  naddr_from_wire w = Ok a → naddr_wf a.
Proof.
  intros Hp Hg H. unfold naddr_from_wire in H. res_inv. destruct (wn_topology w); simplify_eq/=.
  apply (proj1 (Forall_singleton _ _)) in Hg.
  unfold new_allowing_virtual in *. case_match; simplify_eq.
  destruct (Nat.eqb_spec (length (wn_pos w)) (topology_levels x0)) as [Hl|]; [|done].
  split_and!; [by eapply from_wire_topology_wf|done..].
Qed.

Lemma eldership_raw_roundtrip o :
  (∀ z, o = Some z → is_u32 z) → eldership_to_option (eldership_from_option o) = o.
Proof.
  destruct o as [z|]; intros Hz; [|done]. destruct (Hz z eq_refl) as [H1 H2].
  unfold eldership_from_option, eldership_to_option. cbn.
  by rewrite (proj2 (Z.leb_le _ _) H1), (proj2 (Z.leb_le _ _) H2).
Qed.

Lemma eldership_from_option_wf o :
  (∀ z, o = Some z → is_u32 z) → claim_wf (eldership_from_option o).
Proof. destruct o as [z|]; intros Hz; [right; by apply Hz|by left]. Qed.

(** The ranges protobuf gives the fields of the messages. *)
Definition wire_naddr_typed (w : WireNaddr) : Prop :=
  Forall is_u32 (wn_pos w) ∧ Forall (λ t, Forall is_u32 (wt_gsizes t)) (option_list (wn_topology w)).

Definition wire_fingerprint_typed (w : WireFingerprint) : Prop :=
  is_u64 (wf_level w) ∧ (∀ z, wf_eldership w = Some z → is_u32 z) ∧
  Forall is_u32 (wf_pending_elderships w) ∧
  Forall (λ o, ∀ z, wo_value o = Some z → is_u32 z) (wf_elderships_seed w).

Lemma fingerprint_from_wire_spec w f :
  wire_fingerprint_typed w → fingerprint_from_wire w = Ok f →
  fp_wf f ∧ fingerprint_to_wire f = w.
Proof.
  destruct w as [i lv el pe sd]. intros ([Hl1 Hl2] & He & Hp & Hs) H. cbn in *.
  unfold fingerprint_from_wire, usize_try_from in H. cbn in H. rewrite (proj2 (Z.leb_le _ _) Hl2) in H.
  cbn in H. apply map_err_Ok in H. unfold from_parts in H. cbn in H.
  destruct (Nat.eqb_spec (length (wo_value <$> sd)) (Z.to_nat lv)) as [Hlen|]; [|done]. simplify_eq/=.
  split.
  - split_and!; cbn; [by rewrite length_fmap|by apply eldership_from_option_wf|done|].
    apply Forall_fmap, Forall_fmap. eapply Forall_impl; [exact Hs|]. intros o Ho. by apply eldership_from_option_wf.
  - unfold fingerprint_to_wire. cbn. rewrite Z2Nat.id by done. f_equal; [by apply eldership_raw_roundtrip|].
    rewrite <-!list_fmap_compose. rewrite (Forall_fmap_ext_1 _ id); [by rewrite list_fmap_id|].
    eapply Forall_impl; [exact Hs|]. intros [o] Ho. cbn in *. by rewrite eldership_raw_roundtrip.
Qed.

(** ** Properties *)

(** The address codec is exact.  Encoding and decoding a well-formed address
    (virtual positions included) gives it back, and whatever decodes is a
    well-formed address whose encoding is the message that was received. *)
Theorem naddr_wire_exact :
  (∀ a, naddr_wf a → naddr_from_wire (naddr_to_wire a) = Ok a) ∧
  (∀ w a, wire_naddr_typed w → naddr_from_wire w = Ok a → naddr_wf a ∧ naddr_to_wire a = w).
Proof.
  split; [apply naddr_wire_roundtrip|]. intros w a [Hp Hg] H.
  split; [by eapply from_wire_naddr_wf|]. destruct w as [tp pos].
  unfold naddr_from_wire, topology_from_wire, topology_new, new_allowing_virtual in H. cbn in H. res_inv.
  destruct tp as [[gs]|]; simplify_eq/=. repeat case_match; by simplify_eq/=.
Qed.

Lemma naddr_wire_exact_witness :
  naddr_from_wire (naddr_to_wire ex_peer) = Ok ex_peer ∧
  naddr_from_wire (mkWireNaddr None [1]%Z) = Err MissingTopology.
Proof.
  split; [|reflexivity]. apply (proj1 naddr_wire_exact).
  apply ex_naddr_wf; unfold is_u32, U32_MAX; lia.
Defined.

(** The fingerprint codec is exact.  A well-formed fingerprint survives the
    wire, and whatever decodes is well formed (one seed per aggregated level)
    and encodes back to the message that was received. *)
Theorem fingerprint_wire_exact :
  (∀ f, fp_wf f → (Z.of_nat (fp_level f) ≤ U64_MAX)%Z → fingerprint_from_wire (fingerprint_to_wire f) = Ok f) ∧
  (∀ w f, wire_fingerprint_typed w → fingerprint_from_wire w = Ok f → fp_wf f ∧ fingerprint_to_wire f = w).
Proof. split; [apply fingerprint_wire_roundtrip|apply fingerprint_from_wire_spec]. Qed.

Lemma fingerprint_wire_exact_witness :
  fingerprint_from_wire (fingerprint_to_wire (ex_fp1 2 5 0)) = Ok (ex_fp1 2 5 0) ∧
  fingerprint_from_wire (mkWireFingerprint [2]%Z 1 None [] []) = Err (Invalid (FingerprintSeedLength 1 0)).
Proof.
  split; [|reflexivity]. apply (proj1 fingerprint_wire_exact); [|unfold U64_MAX; cbn; lia].
  apply ex_fp1_wf; unfold is_u32, U32_MAX; lia.
Defined.

(** A unicast id survives the typed envelope, an envelope with any other
    non-empty tag is refused with both tags named, and the empty tag of an
    absent header means the main identity. *)
Theorem unicast_id_exact `{ProstMessage WireUnicastId} :
  (∀ u, unicast_id_from_typed_value (unicast_id_to_typed_value u) = Ok u) ∧
  (∀ tag payload, tag ≠ "" → tag ≠ UNICAST_ID_TAG →
    unicast_id_from_typed_value (mkTypedValue tag payload) = Err (TypeTagMismatch UNICAST_ID_TAG tag)) ∧
  (∀ payload, unicast_id_from_typed_value (mkTypedValue "" payload) = Ok MainIdentity).
Proof.
  split_and!.
  - intros u. unfold unicast_id_from_typed_value, unicast_id_to_typed_value.
    rewrite bool_decide_false by done. rewrite from_typed_value_typed_value. by destruct u.
  - intros tag payload Hne Hu. unfold unicast_id_from_typed_value, from_typed_value. cbn.
    by rewrite !bool_decide_false by done.
  - done.
Qed.

(** An injective encoding of the message, as [prost]'s is. *)
#[global] Instance TypedValue_eq_dec : EqDecision TypedValue.
Proof. solve_decision. Defined.
#[global] Instance TypedValue_countable : Countable TypedValue.
Proof.
  apply (inj_countable' (λ v, (tv_type_tag v, tv_payload v)) (λ p, mkTypedValue p.1 p.2)). by intros [].
Defined.

Definition kind_code (m : WireUnicastId) : option (TypedValue + (TypedValue + unit)) :=
  match wu_kind m with
  | None => None
  | Some (KWholeNode i) => Some (inl i)
  | Some (KIdentityAware i) => Some (inr (inl i))
  | Some KMainIdentity => Some (inr (inr tt))
  end.
Definition kind_of_code (c : option (TypedValue + (TypedValue + unit))) : WireUnicastId :=
  mkWireUnicastId match c with
  | None => None
  | Some (inl i) => Some (KWholeNode i)
  | Some (inr (inl i)) => Some (KIdentityAware i)
  | Some (inr (inr _)) => Some KMainIdentity
  end.

#[refine] Definition ex_prost : ProstMessage WireUnicastId := {|
  encode_to_vec m := [Zpos (encode (kind_code m))];
  prost_decode l :=
    match l with
    | [Zpos p] => match decode p with Some c => Ok (kind_of_code c) | None => Err "invalid" end
    | _ => Err "invalid"
    end
|}.
Proof. intros [[[]|]]; cbn; by rewrite decode_encode. Defined.

Lemma unicast_id_exact_witness :
  unicast_id_from_typed_value (H := ex_prost) (unicast_id_to_typed_value (H := ex_prost) MainIdentity) = Ok MainIdentity ∧
  unicast_id_from_typed_value (H := ex_prost) (mkTypedValue "x" []) = Err (TypeTagMismatch UNICAST_ID_TAG "x").
Proof.
  split; [apply (proj1 (unicast_id_exact (H := ex_prost)))|].
  by apply (proj1 (proj2 (unicast_id_exact (H := ex_prost)))).
Defined.
