(* ===== verification/QspnPath.v ===== *)
(** * QSPN paths, ETP messages and destinations

    Models [crates/ntk-qspn/src]: [path.rs] (paths, messages, destinations and
    their evaluation), [snapshot.rs], [events.rs] and [error.rs].  An [ArcId]
    (a [u32] newtype) is a [Z]; a [Vec<u8>] identity is a list of bytes. *)
From stdpp Require Import strings.
From S2P Require Import Prelude Addressing Fingerprint Domain.

Abbreviation ArcId := Z (only parsing).
Abbreviation Fp := (Fingerprint (list Z)) (only parsing).

(** ** Errors (error.rs) *)
Inductive QspnError :=
  | Acyclic
  | EtpFromSelf
  | MalformedEtp (msg : string)
  | InvalidConnectivity (msg : string)
  | BootstrapInProgress
  | NotAnArc
  | UnknownArc
  | Common (e : Error)
  | Domain (e : DomainDecodeError)
  | ActorGone.

(** ** Paths and messages (path.rs) *)
Record Hop := mkHop { hop_arc : ArcId; hop_coord : HCoord }.

Record EtpPath := mkEtpPath {
  ep_hops : list HCoord;
  ep_arcs : list ArcId;
  ep_cost : Cost;
  ep_fingerprint : Fp;
  ep_nodes_inside : Z;
  ep_ignore_outside : list bool
}.

Record EtpMessage := mkEtpMessage {
  em_node_address : Naddr;
  em_fingerprints : list Fp;
  em_nodes_inside : list Z;
  em_hops : list HCoord;
  em_paths : list EtpPath
}.

Record NodePath := mkNodePath {
  np_arc : ArcId;
  np_path : EtpPath;
  np_exposed : bool
}.

Record RoutePath := mkRoutePath {
  rp_arc : ArcId;
  rp_hops : list Hop;
  rp_cost : Cost;
  rp_nodes_inside : Z
}.

Record Destination := mkDestination {
  d_coord : HCoord;
  d_paths : list NodePath
}.

#[export] Instance Hop_eq_dec : EqDecision Hop.
Proof. solve_decision. Defined.
#[export] Instance EtpPath_eq_dec : EqDecision EtpPath.
Proof. solve_decision. Defined.
#[export] Instance NodePath_eq_dec : EqDecision NodePath.
Proof. solve_decision. Defined.
#[export] Instance RoutePath_eq_dec : EqDecision RoutePath.
Proof. solve_decision. Defined.

(** The [PartialEq] implementations, which compare fingerprints by identity. *)
Definition etp_path_eq (p q : EtpPath) : bool :=
  bool_decide (ep_hops p = ep_hops q) && bool_decide (ep_arcs p = ep_arcs q) &&
  bool_decide (ep_cost p = ep_cost q) && identity_eq (ep_fingerprint p) (ep_fingerprint q) &&
  (ep_nodes_inside p =? ep_nodes_inside q)%Z &&
  bool_decide (ep_ignore_outside p = ep_ignore_outside q).

(** [Vec<EtpPath> == Vec<EtpPath>]: same length and pairwise equal. *)
Fixpoint list_eqb {A} (eqb : A → A → bool) (xs ys : list A) : bool :=
  match xs, ys with
  | [], [] => true
  | x :: xs', y :: ys' => eqb x y && list_eqb eqb xs' ys'
  | _, _ => false
  end.

Definition etp_message_eq (m n : EtpMessage) : bool :=
  bool_decide (em_node_address m = em_node_address n) &&
  (length (em_fingerprints m) =? length (em_fingerprints n)) &&
  all (λ ab, identity_eq ab.1 ab.2) (zip (em_fingerprints m) (em_fingerprints n)) &&
  bool_decide (em_nodes_inside m = em_nodes_inside n) &&
  bool_decide (em_hops m = em_hops n) &&
  list_eqb etp_path_eq (em_paths m) (em_paths n).

Definition node_path_eq (p q : NodePath) : bool :=
  (np_arc p =? np_arc q)%Z && etp_path_eq (np_path p) (np_path q) &&
  Bool.eqb (np_exposed p) (np_exposed q).

Definition destination_eq (d e : Destination) : bool :=
  bool_decide (d_coord d = d_coord e) && list_eqb node_path_eq (d_paths d) (d_paths e).

(** [NodePath::new] *)
Definition node_path_new (arc : ArcId) (path : EtpPath) : NodePath :=
  mkNodePath arc path false.

Definition total_cost (np : NodePath) (arc_cost : Cost) : Cost :=
  saturating_add arc_cost (ep_cost (np_path np)).

(** [NodePath::hops_arcs_equal]: the identity of a path. *)
Definition hops_arcs_equal (np : NodePath) (other : EtpPath) : bool :=
  bool_decide (ep_hops (np_path np) = ep_hops other) &&
  bool_decide (ep_arcs (np_path np) = ep_arcs other).

Definition to_route_path (np : NodePath) (arc_cost : Cost) : RoutePath :=
  mkRoutePath (np_arc np)
    (zip_with (λ coord arc, mkHop arc coord) (ep_hops (np_path np)) (ep_arcs (np_path np)))
    (total_cost np arc_cost) (ep_nodes_inside (np_path np)).

Definition prepare_for_sending (np : NodePath) (arc_cost : Cost) : EtpPath :=
  let p := np_path np in
  mkEtpPath (ep_hops p) (ep_arcs p) (total_cost np arc_cost) (ep_fingerprint p)
    (ep_nodes_inside p) [].

(** [p.cost = c] on an owned path. *)
Definition with_cost (p : EtpPath) (c : Cost) : EtpPath :=
  mkEtpPath (ep_hops p) (ep_arcs p) c (ep_fingerprint p) (ep_nodes_inside p)
    (ep_ignore_outside p).

(** ** Evaluation of a destination (path.rs) *)
Definition np_fp (np : NodePath) : Fp := ep_fingerprint (np_path np).

Definition winning_step (winner : option Fp) (p : NodePath) : res Error (option Fp) :=
  let fp := np_fp p in
  match winner with
  | None => Ok (Some fp)
  | Some w =>
      if identity_eq fp w then Ok (Some w)
      else match elder_seed fp w with
           | Ok true => Ok (Some fp)
           | Ok false | Err IndistinguishableFingerprints => Ok (Some w)
           | Err e => Err e
           | Panic => Panic
           end
  end.

Definition winning_fingerprint (paths : list NodePath) : res Error (option Fp) :=
  foldM winning_step None paths.

(** Comparison of [min_by_key (|p| p.total_cost(arc_cost(p.arc)))]. *)
Definition np_leb (arc_cost : ArcId → Cost) (p q : NodePath) : bool :=
  cost_leb (total_cost p (arc_cost (np_arc p))) (total_cost q (arc_cost (np_arc q))).

Definition evaluate (d : Destination) (arc_cost : ArcId → Cost) : res Error (Fp * Z * nat) :=
  match d_paths d with
  | [] => Panic
  | _ =>
      if hc_level (d_coord d) =? 0 then
        b ← expect (min_by (λ a b, np_leb arc_cost a.2 b.2) (enumerate (d_paths d)));
        Ok (np_fp b.2, ep_nodes_inside (np_path b.2), b.1)
      else
        w ← winning_fingerprint (d_paths d);
        winner ← expect w;
        b ← expect (min_by (λ a b, np_leb arc_cost a.2 b.2)
              (retain (λ a, identity_eq (np_fp a.2) winner) (enumerate (d_paths d))));
        Ok (winner, ep_nodes_inside (np_path b.2), b.1)
  end.

(** ** Events and snapshots (events.rs, snapshot.rs) *)
Inductive QspnEvent :=
  | BootstrapComplete
  | PresenceNotified
  | ArcRemoved (arc : ArcId) (bad_link : bool)
  | DestinationAdded (d : HCoord)
  | DestinationRemoved (d : HCoord)
  | PathAdded (p : RoutePath)
  | PathChanged (p : RoutePath)
  | PathRemoved (p : RoutePath)
  | ChangedFingerprint (level : nat)
  | ChangedNodesInside (level : nat)
  | GnodeSplitted (arc : ArcId) (destination : HCoord) (fingerprint : Fp).

(** [QspnEvent]'s [PartialEq]: fingerprints by identity. *)
Definition qspn_event_eq (a b : QspnEvent) : bool :=
  match a, b with
  | BootstrapComplete, BootstrapComplete | PresenceNotified, PresenceNotified => true
  | ArcRemoved a1 b1, ArcRemoved a2 b2 => (a1 =? a2)%Z && Bool.eqb b1 b2
  | DestinationAdded a, DestinationAdded b
  | DestinationRemoved a, DestinationRemoved b => bool_decide (a = b)
  | PathAdded a, PathAdded b
  | PathChanged a, PathChanged b
  | PathRemoved a, PathRemoved b => bool_decide (a = b)
  | ChangedFingerprint a, ChangedFingerprint b
  | ChangedNodesInside a, ChangedNodesInside b => a =? b
  | GnodeSplitted a1 d1 f1, GnodeSplitted a2 d2 f2 =>
      (a1 =? a2)%Z && bool_decide (d1 = d2) && identity_eq f1 f2
  | _, _ => false
  end.

Record RouteEntry := mkRouteEntry { re_destination : HCoord; re_paths : list RoutePath }.
Record RouteSnapshot := mkRouteSnapshot { rs_levels : list (list RouteEntry) }.

(** ** Lemmas *)
Lemma hops_arcs_equal_true np p :
  hops_arcs_equal np p = true ↔ ep_hops (np_path np) = ep_hops p ∧ ep_arcs (np_path np) = ep_arcs p.
Proof. unfold hops_arcs_equal. by rewrite andb_true_iff, !bool_decide_eq_true. Qed.

Lemma hops_arcs_equal_refl np : hops_arcs_equal np (np_path np) = true.
Proof. by apply hops_arcs_equal_true. Qed.
#[export] Hint Resolve hops_arcs_equal_refl : ntk.

Lemma np_leb_total c p q : np_leb c p q = false → np_leb c q p = true.
Proof. apply cost_leb_total. Qed.
Lemma np_leb_trans c p q r : np_leb c p q = true → np_leb c q r = true → np_leb c p r = true.
Proof. apply cost_leb_trans. Qed.

(** All the fingerprints of a list of paths sit at one level above zero. *)
Definition fps_at (l : nat) (paths : list NodePath) : Prop :=
  Forall (λ p, fp_level (np_fp p) = l) paths.

Lemma winning_step_Ok l w p :
  0 < l → fp_level (np_fp p) = l → fp_level w = l →
  ∃ w', winning_step (Some w) p = Ok (Some w') ∧ (w' = w ∨ w' = np_fp p).
Proof.
  intros Hl Hp Hw. cbn. destruct (identity_eq _ _); [eauto|].
  destruct (elder_seed_cases (np_fp p) w) as [->|[->| ->]]; [lia|lia|eauto..].
Qed.

(** The winner of a non-empty set of paths of one level above zero exists and is
    the fingerprint of one of them. *)
Lemma winning_fingerprint_Ok l paths :
  0 < l → fps_at l paths → paths ≠ [] →
  ∃ p, p ∈ paths ∧ winning_fingerprint paths = Ok (Some (np_fp p)).
Proof.
  intros Hl Hf Hne. destruct paths as [|p0 paths]; [done|]. clear Hne.
  unfold winning_fingerprint. cbn [foldM winning_step mbind res_bind].
  apply Forall_cons in Hf as [Hp0 Hf].
  destruct (foldM_total winning_step
    (λ w, ∃ p, p ∈ p0 :: paths ∧ w = Some (np_fp p) ∧ fp_level (np_fp p) = l)
    (Some (np_fp p0)) paths) as (w & Hw & p & Hp & -> & _).
  - exists p0. split_and!; [by left|done..].
  - intros w a Ha (p & Hp & -> & Hpl). rewrite Forall_forall in Hf.
    destruct (winning_step_Ok l (np_fp p) a) as (w' & -> & Hw'); [done|by apply Hf|done|].
    eexists. split; [done|]. destruct Hw' as [->| ->]; [by exists p|].
    exists a. split_and!; [by right|done|by apply Hf].
  - exists p. auto.
Qed.

Definition paths_evaluable (d : Destination) : Prop :=
  d_paths d ≠ [] ∧ fps_at (hc_level (d_coord d)) (d_paths d).

Lemma evaluate_spec d c :
  paths_evaluable d →
  ∃ fp nn i p, evaluate d c = Ok (fp, nn, i) ∧ d_paths d !! i = Some p ∧
    nn = ep_nodes_inside (np_path p) ∧ identity_eq (np_fp p) fp = true ∧
    (∃ q, q ∈ d_paths d ∧ fp = np_fp q) ∧
    (hc_level (d_coord d) ≠ 0 → winning_fingerprint (d_paths d) = Ok (Some fp)) ∧
    (∀ q, q ∈ d_paths d → hc_level (d_coord d) = 0 ∨ identity_eq (np_fp q) fp = true →
      np_leb c p q = true).
Proof.
  intros [Hne Hf]. unfold evaluate. destruct (d_paths d) as [|p0 ps] eqn:Hps; [done|].
  rewrite <-Hps in *. clear Hne. set (le := λ a b : nat * NodePath, np_leb c a.2 b.2).
  assert (Htot : ∀ x y, le x y = false → le y x = true) by (intros; by apply np_leb_total).
  assert (Htr : ∀ x y z, le x y = true → le y z = true → le x z = true)
    by (intros; by eapply np_leb_trans).
  destruct (Nat.eqb_spec (hc_level (d_coord d)) 0) as [Hl|Hl].
  - destruct (min_by_is_Some le (enumerate (d_paths d))) as [[i p] Hm].
    { unfold enumerate. by rewrite Hps. }
    rewrite Hm. cbn. pose proof (min_by_elem_of _ _ _ Hm) as Hin%elem_of_enumerate.
    exists (np_fp p), (ep_nodes_inside (np_path p)), i, p. split_and!; auto with ntk; [|done|].
    { exists p. split; [by eapply list_elem_of_lookup_2|done]. }
    intros q [j Hq]%list_elem_of_lookup _.
    apply (min_by_least le Htot Htr _ _ (j, q) Hm). by apply elem_of_enumerate.
  - destruct (winning_fingerprint_Ok (hc_level (d_coord d)) (d_paths d)) as (w & Hw & Hwin);
      [lia|done|by rewrite Hps|].
    rewrite Hwin. cbn.
    destruct (min_by_is_Some le (retain (λ a, identity_eq (np_fp a.2) (np_fp w)) (enumerate (d_paths d))))
      as [[i p] Hm].
    { apply list_elem_of_lookup in Hw as [j Hj]. intros Hnil.
      assert (Hin : (j, w) ∈ retain (λ a : nat * NodePath, identity_eq (np_fp a.2) (np_fp w)) (enumerate (d_paths d))).
      { apply elem_of_retain. split; [by apply elem_of_enumerate|by apply identity_eq_refl]. }
      rewrite Hnil in Hin. by apply elem_of_nil in Hin. }
    rewrite Hm. cbn. pose proof (min_by_elem_of _ _ _ Hm) as [Hin Hid]%elem_of_retain.
    apply elem_of_enumerate in Hin.
    exists (np_fp w), (ep_nodes_inside (np_path p)), i, p. split_and!; auto; [by exists w|].
    intros q [j Hq]%list_elem_of_lookup [?|Hq']; [lia|].
    apply (min_by_least le Htot Htr _ _ (j, q) Hm). apply elem_of_retain.
    split; [by apply elem_of_enumerate|done].
Qed.

Lemma evaluate_is_Ok d c : paths_evaluable d → is_Ok (evaluate d c).
Proof. intros H. destruct (evaluate_spec d c H) as (? & ? & ? & ? & -> & _). eauto with ntk. Qed.
#[export] Hint Resolve evaluate_is_Ok : ntk.

(** No path's fingerprint outranks the winner, provided the reports of one
    identity agree on its seed trail. *)
Lemma elder_seed_above l (f g : Fp) :
  0 < l → fp_level f = l → fp_level g = l →
  elder_seed f g = elder_seed_loop (fp_elderships_seed f) (fp_elderships_seed g).
Proof.
  intros Hl Hf Hg. unfold elder_seed. rewrite Hf, Hg. rewrite (proj2 (Nat.eqb_neq _ _)) by lia.
  by rewrite Nat.eqb_refl.
Qed.

Definition coherent (paths : list NodePath) : Prop :=
  ∀ p q, p ∈ paths → q ∈ paths → identity_eq (np_fp p) (np_fp q) = true →
    fp_elderships_seed (np_fp p) = fp_elderships_seed (np_fp q).

Definition unbeaten (l : nat) (paths pre : list NodePath) (w : option Fp) : Prop :=
  match w with
  | None => pre = []
  | Some w => fp_level w = l ∧ (∃ p, p ∈ paths ∧ w = np_fp p) ∧
      ∀ q, q ∈ pre → elder_seed (np_fp q) w ≠ Ok true
  end.

Lemma winning_step_unbeaten l paths pre w p w' :
  0 < l → fps_at l paths → coherent paths → p ∈ paths → pre ⊆ paths →
  unbeaten l paths pre w → winning_step w p = Ok w' → unbeaten l paths (pre ++ [p]) w'.
Proof.
  intros Hl Hf Hc Hp Hpre Hu Hs. unfold fps_at in Hf. rewrite Forall_forall in Hf. pose proof (Hf p Hp) as Hpl.
  assert (∀ f : Fp, elder_seed_loop (fp_elderships_seed f) (fp_elderships_seed f) ≠ Ok true) as Hirr.
  { intros f Hff. by apply elder_seed_loop_asym in Hff as Hff'; congruence. }
  destruct w as [w|]; cbn in Hs.
  - destruct Hu as (Hw & Hex & Hnb). rewrite (elder_seed_above l) in Hs by done.
    assert (unbeaten l paths pre (Some w)) as Hold by done.
    assert (elder_seed_loop (fp_elderships_seed (np_fp p)) (fp_elderships_seed w) ≠ Ok true →
      unbeaten l paths (pre ++ [p]) (Some w)) as Hkeep.
    { intros Hne. split_and!; [done|done|]. intros q [Hq| ->%list_elem_of_singleton]%elem_of_app; [by apply Hnb|].
      by rewrite (elder_seed_above l). }
    destruct (identity_eq (np_fp p) w) eqn:Hid.
    + injection Hs as <-. apply Hkeep. destruct Hex as (p0 & Hp0 & ->). rewrite (Hc p p0) by done. apply Hirr.
    + destruct (elder_seed_loop_cases (fp_elderships_seed (np_fp p)) (fp_elderships_seed w)) as [E|[E|E]];
        rewrite E in Hs; injection Hs as <-; [|apply Hkeep; congruence..].
      split_and!; [done|eauto|]. intros q [Hq| ->%list_elem_of_singleton]%elem_of_app.
      * intros Hbeat. apply (Hnb q Hq). rewrite (elder_seed_above l) in * by (done || by apply Hf, Hpre).
        by eapply elder_seed_loop_trans.
      * rewrite (elder_seed_above l) by done. apply Hirr.
  - cbn in Hu. subst pre. injection Hs as <-. split_and!; [done|eauto|]. cbn.
    intros q ->%list_elem_of_singleton. rewrite (elder_seed_above l) by done. apply Hirr.
Qed.

Lemma winning_fingerprint_unbeaten l paths fp :
  0 < l → fps_at l paths → coherent paths → winning_fingerprint paths = Ok (Some fp) →
  ∀ q, q ∈ paths → elder_seed (np_fp q) fp ≠ Ok true.
Proof.
  intros Hl Hf Hc Hw.
  destruct (foldM_inv winning_step (unbeaten l paths) None paths (Some fp)) as (_ & _ & ?); [done| |done..].
  intros pre p w w' [rest Hpre]. assert (pre ⊆ paths ∧ p ∈ paths) as [? ?] by (rewrite Hpre; set_solver).
  by apply winning_step_unbeaten.
Qed.

(** ** Properties *)

(** Evaluation of a destination.  A destination with paths that report
    fingerprints of its level evaluates without panic; the elected path is one
    of its paths, carries the elected fingerprint and the reported node count,
    and no path that carries that fingerprint (no path at all, at level 0)
    is cheaper; above level 0, when the reports of one identity agree, no path
    reports an elder fingerprint. *)
Theorem evaluate_correct d c :
  paths_evaluable d →
  ∃ fp nn i p, evaluate d c = Ok (fp, nn, i) ∧ d_paths d !! i = Some p ∧
    nn = ep_nodes_inside (np_path p) ∧ identity_eq (np_fp p) fp = true ∧
    (∀ q, q ∈ d_paths d → hc_level (d_coord d) = 0 ∨ identity_eq (np_fp q) fp = true →
      cost_leb (total_cost p (c (np_arc p))) (total_cost q (c (np_arc q))) = true) ∧
    (0 < hc_level (d_coord d) → coherent (d_paths d) →
      ∀ q, q ∈ d_paths d → elder_seed (np_fp q) fp ≠ Ok true).
Proof.
  intros Hd. destruct (evaluate_spec d c Hd) as (fp & nn & i & p & He & Hp & Hn & Hid & _ & Hw & Hmin).
  exists fp, nn, i, p. split_and!; [done..|]. intros Hl Hc.
  apply (winning_fingerprint_unbeaten (hc_level (d_coord d))); [done|apply Hd|done|apply Hw; lia].
Qed.

Lemma evaluate_correct_witness :
  let np arc id seed c := node_path_new arc (mkEtpPath [mkHCoord 1 0] [arc] (Finite c) (ex_fp1 id 5 seed) 3 []) in
  let d := mkDestination (mkHCoord 1 0) [np 1 1 8 2; np 2 2 4 9; np 3 2 4 7]%Z in
  paths_evaluable d ∧ evaluate d (λ _, Null) = Ok (ex_fp1 2 5 4, 3%Z, 2) ∧
  elder_seed (ex_fp1 1 5 8) (ex_fp1 2 5 4) ≠ Ok true.
Proof.
  intros np d. assert (paths_evaluable d) as Hd by (split; [discriminate|repeat constructor]).
  split_and!; [exact Hd|reflexivity|].
  destruct (evaluate_correct d (λ _, Null) Hd) as (fp & nn & i & p & He & _ & _ & _ & _ & Hold).
  vm_compute in He. injection He as <- _ _.
  refine (Hold (Nat.lt_0_succ 0) _ (np 1 1 8 2)%Z _); [|by left].
  intros q1 q2 H1 H2. repeat (apply elem_of_cons in H1 as [->|H1]; [|]); [..|by apply elem_of_nil in H1];
    (repeat (apply elem_of_cons in H2 as [->|H2]; [|]); [..|by apply elem_of_nil in H2]); done.
Defined.
