(* ===== verification/QspnConfig.v ===== *)
(** * QSPN configuration and the overlap-tolerance ratio

    Models [crates/ntk-qspn/src/config.rs] (the thresholds and timers, with the
    reference deployment's defaults; a [Duration] is its number of
    milliseconds) and [mch_ratio.rs]. *)
From S2P Require Import Prelude Float64.

Record MchRatioTable := mkMchRatioTable {
  gateway_ratio : list f64;
  gateway_ratio_overflow : f64;
  size_ratio_bands : list (Z * f64);
  size_ratio_overflow : f64
}.

Definition mch_ratio_table_default : MchRatioTable := {|
  gateway_ratio := [f64_lit 45 100; f64_lit 35 100; f64_lit 27 100; f64_lit 20 100;
                    f64_lit 15 100; f64_lit 12 100; f64_lit 10 100];
  gateway_ratio_overflow := f64_lit 8 100;
  size_ratio_bands := [(10, f64_lit 1 1); (25, f64_lit 9 10); (75, f64_lit 8 10);
                       (250, f64_lit 6 10); (750, f64_lit 3 10); (3000, f64_lit 1 10)]%Z;
  size_ratio_overflow := f64_lit 1 10000
|}.

Record OverlapWeights := mkOverlapWeights {
  intermediate_coeff : f64;
  destination_coeff : f64;
  destination_offset : f64
}.

Definition overlap_weights_default : OverlapWeights := {|
  intermediate_coeff := f64_lit 15 10;
  destination_coeff := f64_lit 75 100;
  destination_offset := f64_lit 1 1
|}.

Record QspnConfig := mkQspnConfig {
  max_paths : Z;
  max_common_hops_ratio : f64;
  arc_timeout : Z;
  bootstrap_signal_delay : Z;
  bootstrap_fallback_max_wait : Z;
  presence_notified_delay : Z;
  periodic_full_etp_interval : Z;
  first_detection_split_delay : Z;
  publish_connectivity_delay : Z;
  prepare_destroy_wait : Z;
  caller_arc_poll_interval : Z;
  nodes_inside_tolerance : f64;
  overlap_weights : OverlapWeights;
  mch_ratio_table : MchRatioTable;
  arc_gather_debounce : Z
}.

Definition qspn_config_default : QspnConfig := {|
  max_paths := 5;
  max_common_hops_ratio := f64_lit 6 10;
  arc_timeout := 10000;
  bootstrap_signal_delay := 1;
  bootstrap_fallback_max_wait := 10000;
  presence_notified_delay := 1000;
  periodic_full_etp_interval := 600000;
  first_detection_split_delay := 500;
  publish_connectivity_delay := 50;
  prepare_destroy_wait := 10000;
  caller_arc_poll_interval := 10;
  nodes_inside_tolerance := f64_lit 10 100;
  overlap_weights := overlap_weights_default;
  mch_ratio_table := mch_ratio_table_default;
  arc_gather_debounce := 250
|}.

(** [mch_ratio]: [table.gateway_ratio] is a [[f64; 7]], so the index [numgw - 1]
    of the first arm is in range. *)
Definition mch_ratio (ratio : f64) (table : MchRatioTable) (size numgw : Z) : f64 :=
  let l :=
    if (1 <=? numgw)%Z && (numgw <=? 7)%Z
    then default (gateway_ratio_overflow table) (gateway_ratio table !! Z.to_nat (numgw - 1))
    else gateway_ratio_overflow table in
  let e := f64_mul ratio l in
  let g :=
    match find (λ band, (size <? band.1)%Z) (size_ratio_bands table) with
    | Some band => band.2
    | None => size_ratio_overflow table
    end in
  f64_add (f64_mul (f64_sub ratio e) g) e.

(** The tables' shape, which the Rust array types fix. *)
Definition mch_table_wf (t : MchRatioTable) : Prop :=
  length (gateway_ratio t) = 7 ∧ length (size_ratio_bands t) = 6.

(** ** Properties *)

(** The tolerance of the default configuration. *)
Definition tolerance (size numgw : Z) : f64 :=
  mch_ratio (max_common_hops_ratio qspn_config_default)
    (mch_ratio_table qspn_config_default) size numgw.

(** A representative of each size band, and of each gateway count, of the
    default tables. *)
Definition size_band (size : Z) : Z :=
  if (size <? 10)%Z then 0 else if (size <? 25)%Z then 10 else if (size <? 75)%Z then 25
  else if (size <? 250)%Z then 75 else if (size <? 750)%Z then 250
  else if (size <? 3000)%Z then 750 else 3000.
Definition gateway_band (numgw : Z) : Z := Z.min numgw 8.

Definition size_bands : list Z := [0; 10; 25; 75; 250; 750; 3000]%Z.
Definition gateway_bands : list Z := [1; 2; 3; 4; 5; 6; 7; 8]%Z.

Lemma tolerance_band size numgw :
  (1 ≤ numgw)%Z → tolerance size numgw = tolerance (size_band size) (gateway_band numgw).
Proof.
  intros Hn. unfold tolerance, mch_ratio, gateway_band, size_band.
  assert (∀ t : MchRatioTable,
    (if (1 <=? numgw)%Z && (numgw <=? 7)%Z
     then default (gateway_ratio_overflow t) (gateway_ratio t !! Z.to_nat (numgw - 1))
     else gateway_ratio_overflow t) =
    (if (1 <=? Z.min numgw 8)%Z && (Z.min numgw 8 <=? 7)%Z
     then default (gateway_ratio_overflow t) (gateway_ratio t !! Z.to_nat (Z.min numgw 8 - 1))
     else gateway_ratio_overflow t)) as ->.
  { intros t. destruct (Z.le_gt_cases numgw 7); [by rewrite Z.min_l by lia|].
    rewrite Z.min_r by lia. cbn. by rewrite (proj2 (Z.leb_gt numgw 7)), andb_false_r by lia. }
  unfold find. cbn [List.find size_ratio_bands mch_ratio_table qspn_config_default
    mch_ratio_table_default fst snd].
  repeat match goal with |- context [(size <? ?b)%Z] => destruct (size <? b)%Z end; done.
Qed.

Lemma tolerance_bands_antitone :
  all (λ p : (Z * Z) * (Z * Z), let '((s, s'), (n, n')) := p in
    negb ((s <=? s')%Z && (10 <=? s')%Z && (n <=? n')%Z)
    || SpecFloat.SFleb (tolerance s' n') (tolerance s n))
    (list_prod (list_prod size_bands size_bands) (list_prod gateway_bands gateway_bands)) = true.
Proof. vm_compute. reflexivity. Qed.

(** [0.6] and the double after it. *)
Definition base_ratio : f64 := max_common_hops_ratio qspn_config_default.
Definition base_ratio_succ : f64 := SpecFloat.SFsucc f64_prec f64_emax base_ratio.

Lemma tolerance_small_band :
  all (λ n, SpecFloat.SFleb base_ratio (tolerance 0 n) &&
            SpecFloat.SFleb (tolerance 0 n) base_ratio_succ) gateway_bands = true.
Proof. vm_compute. reflexivity. Qed.

Lemma size_band_spec size : (0 ≤ size)%Z → size_band size ∈ size_bands.
Proof. intros. unfold size_band, size_bands. repeat case_match; set_solver. Qed.

Lemma gateway_band_spec n : (1 ≤ n)%Z → gateway_band n ∈ gateway_bands.
Proof.
  intros Hn. unfold gateway_band, gateway_bands. destruct (Z.le_gt_cases 8 n).
  { rewrite Z.min_r by lia. set_solver. }
  assert (n = 1 ∨ n = 2 ∨ n = 3 ∨ n = 4 ∨ n = 5 ∨ n = 6 ∨ n = 7)%Z as Hc by lia.
  rewrite Z.min_l by lia. set_solver.
Qed.

(** Under the default configuration the admissible overlap, computed in
    binary64, never widens when a destination of at least ten nodes grows or
    gains gateways; below ten nodes it is the base ratio up to one unit in the
    last place, whatever the number of gateways. *)
Theorem tolerance_antitone s s' n n' :
  (0 ≤ s ≤ s')%Z → (1 ≤ n ≤ n')%Z →
  ((10 ≤ s')%Z → SpecFloat.SFleb (tolerance s' n') (tolerance s n) = true) ∧
  ((s < 10)%Z → SpecFloat.SFleb base_ratio (tolerance s n) = true ∧
                SpecFloat.SFleb (tolerance s n) base_ratio_succ = true).
Proof.
  intros Hs Hn. rewrite (tolerance_band s'), (tolerance_band s) by lia. split; intros Hb10.
  - pose proof (proj1 (all_true _ _) tolerance_bands_antitone
      ((size_band s, size_band s'), (gateway_band n, gateway_band n'))) as H.
    cbn beta iota in H. rewrite list_elem_of_In, !in_prod_iff, <-!list_elem_of_In in H.
    assert (size_band s <= size_band s')%Z as Hb.
    { unfold size_band. repeat case_match; bool_to_prop; lia. }
    assert (10 <= size_band s')%Z as Hb'.
    { unfold size_band. repeat case_match; bool_to_prop; lia. }
    assert (gateway_band n <= gateway_band n')%Z as Hg by (unfold gateway_band; lia).
    rewrite (proj2 (Z.leb_le _ _) Hb), (proj2 (Z.leb_le _ _) Hb'), (proj2 (Z.leb_le _ _) Hg) in H.
    apply H. split_and!; apply size_band_spec || apply gateway_band_spec; lia.
  - assert (size_band s = 0%Z) as ->
      by (unfold size_band; by rewrite (proj2 (Z.ltb_lt s 10)) by lia).
    apply andb_true_iff. apply (proj1 (all_true _ _) tolerance_small_band).
    apply gateway_band_spec. lia.
Qed.

Lemma tolerance_antitone_witness :
  SpecFloat.SFleb (tolerance 100 3) (tolerance 20 2) = true.
Proof. apply (proj1 (tolerance_antitone 20 100 2 3 ltac:(lia) ltac:(lia))). lia. Defined.
