(* ===== verification/QspnValidate.v ===== *)
(** * ETP shape validation

    Models [crates/ntk-qspn/src/validate.rs]: the checks every received ETP
    passes before it is revised.  The predicates [hops_valid], [path_valid] and
    [message_valid] say what the boolean checks decide. *)
From S2P Require Import Prelude Addressing Fingerprint QspnPath.

(** [check_hop_list], with [curlvl] the loop variable. *)
Fixpoint check_hop_list_from (curlvl : nat) (hops : list HCoord) (t : Topology) : res unit bool :=
  match hops with
  | [] => Ok true
  | c :: hops' =>
      if (hc_level c <? curlvl) || (topology_levels t <=? hc_level c) then Ok false
      else
        gsize ← expect (topology_gsize t (hc_level c));
        if (gsize <=? hc_pos c)%Z then Ok false
        else check_hop_list_from (hc_level c) hops' t
  end.

Definition check_hop_list (hops : list HCoord) (t : Topology) : res unit bool :=
  check_hop_list_from 0 hops t.

(** The body of the loop over [m.paths] in [check_any_message]. *)
Definition check_path (p : EtpPath) (t : Topology) : res unit bool :=
  let levels := topology_levels t in
  match last (ep_hops p) with
  | None => Ok false
  | Some last =>
      if negb (length (ep_ignore_outside p) =? levels) then Ok false
      else if levels <=? hc_level last then Ok false
      else if any negb (drop (S (hc_level last)) (ep_ignore_outside p)) then Ok false
      else if negb (fp_level (ep_fingerprint p) =? hc_level last) then Ok false
      else if negb (length (ep_hops p) =? length (ep_arcs p)) then Ok false
      else check_hop_list (ep_hops p) t
  end.

Fixpoint check_paths (ps : list EtpPath) (t : Topology) : res unit bool :=
  match ps with
  | [] => Ok true
  | p :: ps' => b ← check_path p t; if (b : bool) then check_paths ps' t else Ok false
  end.

Definition check_any_message (m : EtpMessage) (t : Topology) : res unit bool :=
  b ← check_hop_list (em_hops m) t;
  if negb b then Ok false
  else if negb (length (em_fingerprints m) =? S (topology_levels t))
    || any (λ lf, negb (fp_level lf.2 =? lf.1)) (enumerate (em_fingerprints m)) then Ok false
  else check_paths (em_paths m) t.

(** [(0..levels).all(|l| m.node_address.pos(l) == my_naddr.pos(l))] *)
Definition same_address (a my_naddr : Naddr) : bool :=
  all (λ l, bool_decide (naddr_pos a l = naddr_pos my_naddr l))
    (seq 0 (topology_levels (na_topology my_naddr))).

Definition check_incoming_message (m : EtpMessage) (my_naddr : Naddr) : res unit bool :=
  if negb (bool_decide (na_topology (em_node_address m) = na_topology my_naddr)) then Ok false
  else if same_address (em_node_address m) my_naddr then Ok false
  else check_any_message m (na_topology my_naddr).

Definition check_outgoing_message (m : EtpMessage) (my_naddr : Naddr) : res unit bool :=
  if negb (bool_decide (na_topology (em_node_address m) = na_topology my_naddr)) then Ok false
  else if negb (same_address (em_node_address m) my_naddr) then Ok false
  else check_any_message m (na_topology my_naddr).

(** ** What the checks decide *)

(** A hop list: levels ascend from [lo], every position is real. *)
Fixpoint hops_valid_from (t : Topology) (lo : nat) (hops : list HCoord) : Prop :=
  match hops with
  | [] => True
  | h :: hops' =>
      lo ≤ hc_level h ∧ hc_level h < topology_levels t ∧
      (∃ g, topology_gsize t (hc_level h) = Some g ∧ (hc_pos h < g)%Z) ∧
      hops_valid_from t (hc_level h) hops'
  end.
Definition hops_valid (t : Topology) (hops : list HCoord) : Prop := hops_valid_from t 0 hops.

Definition path_valid (t : Topology) (p : EtpPath) : Prop :=
  ∃ h, last (ep_hops p) = Some h ∧
    length (ep_ignore_outside p) = topology_levels t ∧
    hc_level h < topology_levels t ∧
    (∀ i b, hc_level h < i → ep_ignore_outside p !! i = Some b → b = true) ∧
    fp_level (ep_fingerprint p) = hc_level h ∧
    length (ep_hops p) = length (ep_arcs p) ∧
    hops_valid t (ep_hops p).

Definition message_valid (t : Topology) (m : EtpMessage) : Prop :=
  hops_valid t (em_hops m) ∧
  length (em_fingerprints m) = S (topology_levels t) ∧
  (∀ l fp, em_fingerprints m !! l = Some fp → fp_level fp = l) ∧
  Forall (path_valid t) (em_paths m).

(** ** Lemmas *)

(** A decision procedure that never panics: it returns a boolean, and that
    boolean is [true] exactly when the predicate holds. *)
Definition decides (m : res unit bool) (P : Prop) : Prop :=
  ∃ b, m = Ok b ∧ (b = true ↔ P).

Lemma decides_true m P : decides m P → m = Ok true ↔ P.
Proof. intros (b & -> & Hb). rewrite <-Hb. naive_solver. Qed.

Lemma decides_false P : ¬ P → decides (Ok false) P.
Proof. intros H. exists false. naive_solver. Qed.

Lemma check_hop_list_from_decides lo hops t :
  decides (check_hop_list_from lo hops t) (hops_valid_from t lo hops).
Proof.
  revert lo. induction hops as [|h hops IH]; intros lo; cbn; [by exists true|].
  destruct (Nat.ltb_spec (hc_level h) lo); cbn; [apply decides_false; lia|].
  destruct (Nat.leb_spec (topology_levels t) (hc_level h)); [apply decides_false; lia|].
  destruct (gsize_is_Some t (hc_level h)) as [g Hg]; [done|]. rewrite Hg. cbn.
  destruct (Z.leb_spec g (hc_pos h)).
  { apply decides_false. intros (_ & _ & (g' & ? & ?) & _). simplify_eq. lia. }
  destruct (IH (hc_level h)) as (b & -> & Hb). exists b. split; [done|].
  rewrite Hb. naive_solver.
Qed.

Lemma hops_valid_mono t lo lo' hops :
  lo' ≤ lo → hops_valid_from t lo hops → hops_valid_from t lo' hops.
Proof. destruct hops; cbn; [done|]. naive_solver lia. Qed.

Lemma hops_valid_level t lo hops h :
  hops_valid_from t lo hops → h ∈ hops → lo ≤ hc_level h ∧ hc_level h < topology_levels t.
Proof.
  revert lo. induction hops as [|h' hops IH]; intros lo Hv Hin; [by apply elem_of_nil in Hin|].
  destruct Hv as (? & ? & _ & Hv). apply elem_of_cons in Hin as [->|Hin]; [done|].
  destruct (IH _ Hv Hin). lia.
Qed.

Lemma any_negb_drop n l :
  any negb (drop n l) = false ↔ ∀ i b, n ≤ i → l !! i = Some b → b = true.
Proof.
  rewrite any_false. split.
  - intros H i b Hi Hb. apply negb_false_iff, H, list_elem_of_lookup. exists (i - n).
    rewrite lookup_drop. by replace (n + (i - n)) with i by lia.
  - intros H b [i Hi]%list_elem_of_lookup. rewrite lookup_drop in Hi.
    apply negb_false_iff. eapply H; [|done]. lia.
Qed.

Lemma check_path_decides p t : decides (check_path p t) (path_valid t p).
Proof.
  unfold check_path, path_valid. destruct (last (ep_hops p)) as [h|] eqn:Hl;
    [|apply decides_false; naive_solver].
  assert (∀ P : HCoord → Prop, (∃ h', Some h = Some h' ∧ P h') ↔ P h) as Hex by naive_solver.
  destruct (Nat.eqb_spec (length (ep_ignore_outside p)) (topology_levels t)); cbn;
    [|apply decides_false; naive_solver].
  destruct (Nat.leb_spec (topology_levels t) (hc_level h));
    [apply decides_false; naive_solver lia|].
  destruct (any _ _) eqn:Ha.
  { apply decides_false. rewrite Hex. intros (_ & _ & H' & _).
    apply not_false_iff_true in Ha. by apply Ha, any_negb_drop. }
  rewrite any_negb_drop in Ha.
  destruct (Nat.eqb_spec (fp_level (ep_fingerprint p)) (hc_level h)); cbn;
    [|apply decides_false; naive_solver].
  destruct (Nat.eqb_spec (length (ep_hops p)) (length (ep_arcs p))); cbn;
    [|apply decides_false; naive_solver].
  destruct (check_hop_list_from_decides 0 (ep_hops p) t) as (b & Hb & Hbv).
  exists b. split; [done|]. rewrite Hbv, Hex. unfold hops_valid. intuition.
Qed.

Lemma check_paths_decides ps t : decides (check_paths ps t) (Forall (path_valid t) ps).
Proof.
  induction ps as [|p ps IH]; cbn; [by exists true|].
  destruct (check_path_decides p t) as ([] & -> & Hb); cbn.
  - destruct IH as (b & -> & Hp). exists b. split; [done|]. rewrite Forall_cons. naive_solver.
  - apply decides_false. rewrite Forall_cons. naive_solver.
Qed.

Lemma check_fingerprints_false (fps : list Fp) :
  any (λ lf, negb (fp_level lf.2 =? lf.1)) (enumerate fps) = false ↔
  ∀ l fp, fps !! l = Some fp → fp_level fp = l.
Proof.
  rewrite any_false. split.
  - intros H l fp Hl. specialize (H (l, fp)). rewrite elem_of_enumerate in H.
    apply H, negb_false_iff in Hl. by apply Nat.eqb_eq.
  - intros H [l fp] Hin%elem_of_enumerate. apply negb_false_iff, Nat.eqb_eq. by apply H.
Qed.

Lemma check_any_message_decides m t : decides (check_any_message m t) (message_valid t m).
Proof.
  unfold check_any_message, message_valid.
  destruct (check_hop_list_from_decides 0 (em_hops m) t) as (b & Hb & Hv).
  unfold check_hop_list. rewrite Hb. cbn. destruct b; cbn;
    [|apply decides_false; unfold hops_valid; naive_solver].
  destruct (Nat.eqb_spec (length (em_fingerprints m)) (S (topology_levels t))); cbn;
    [|apply decides_false; naive_solver].
  destruct (any _ _) eqn:Ha.
  { apply decides_false. intros (_ & _ & Hf & _). apply not_false_iff_true in Ha.
    by apply Ha, check_fingerprints_false. }
  rewrite check_fingerprints_false in Ha.
  destruct (check_paths_decides (em_paths m) t) as (b & -> & Hp).
  exists b. split; [done|]. rewrite Hp. unfold hops_valid. intuition.
Qed.

Lemma same_address_true a b :
  naddr_wf a → naddr_wf b → na_topology a = na_topology b → same_address a b = true ↔ a = b.
Proof.
  intros (_ & Ha & _) (_ & Hb & _) Ht. unfold same_address. rewrite all_true. split.
  - intros H. assert (na_pos a = na_pos b) as Hp.
    { apply list_eq. intros i. destruct (decide (i < topology_levels (na_topology b))).
      - specialize (H i). rewrite bool_decide_eq_true in H. apply H. apply elem_of_seq. lia.
      - rewrite Ht in Ha. rewrite !lookup_ge_None_2 by lia. done. }
    destruct a, b; cbn in *. congruence.
  - intros -> l _. by apply bool_decide_eq_true.
Qed.

Lemma check_incoming_decides m my :
  naddr_wf (em_node_address m) → naddr_wf my →
  decides (check_incoming_message m my)
    (na_topology (em_node_address m) = na_topology my ∧ em_node_address m ≠ my ∧
     message_valid (na_topology my) m).
Proof.
  intros Hm Hmy. unfold check_incoming_message. case_bool_decide as Ht; cbn;
    [|apply decides_false; naive_solver].
  destruct (same_address _ _) eqn:Hs.
  { apply decides_false. apply same_address_true in Hs; naive_solver. }
  destruct (check_any_message_decides m (na_topology my)) as (b & -> & Hb).
  exists b. split; [done|]. rewrite Hb. split; [|naive_solver]. intros Hv. split_and!; [done| |done].
  intros Heq. apply not_true_iff_false in Hs. apply Hs. by apply same_address_true.
Qed.

Lemma check_outgoing_decides m my :
  naddr_wf (em_node_address m) → naddr_wf my →
  decides (check_outgoing_message m my)
    (em_node_address m = my ∧ message_valid (na_topology my) m).
Proof.
  intros Hm Hmy. unfold check_outgoing_message. case_bool_decide as Ht; cbn;
    [|apply decides_false; naive_solver].
  destruct (same_address _ _) eqn:Hs; cbn.
  - apply same_address_true in Hs as Heq; [|done..].
    destruct (check_any_message_decides m (na_topology my)) as (b & -> & Hb).
    exists b. split; [done|]. rewrite Hb. naive_solver.
  - apply decides_false. intros [Heq _]. apply not_true_iff_false in Hs. apply Hs.
    by apply same_address_true.
Qed.

(** ** Properties *)

(** The shape checks decide exactly the shape an ETP must have and never
    panic.  An incoming message passes when its sender shares the topology, is
    not this node, and the message is valid: hop lists ascend through existing
    levels with real positions, one fingerprint per level with its level, and
    every path ends at its fingerprint's level with one arc per hop and one flag
    per level.  An outgoing message passes when it is valid and names this
    node; no message passes both checks. *)
Theorem message_checks_exact m my :
  naddr_wf (em_node_address m) → naddr_wf my →
  decides (check_incoming_message m my)
    (na_topology (em_node_address m) = na_topology my ∧ em_node_address m ≠ my ∧
     message_valid (na_topology my) m) ∧
  decides (check_outgoing_message m my) (em_node_address m = my ∧ message_valid (na_topology my) m) ∧
  ¬ (check_incoming_message m my = Ok true ∧ check_outgoing_message m my = Ok true).
Proof.
  intros Hm Hmy. pose proof (check_incoming_decides m my Hm Hmy) as Hi.
  pose proof (check_outgoing_decides m my Hm Hmy) as Ho. split_and!; [done..|].
  intros [Ei Eo]. apply (decides_true _ _ Hi) in Ei as (_ & ? & _). by apply (decides_true _ _ Ho) in Eo as [? _].
Qed.

Lemma message_checks_exact_witness :
  let fp l := mkFingerprint [2]%Z l 5 [] (replicate l 0%Z) in
  let m := mkEtpMessage ex_peer [fp 0; fp 1; fp 2] [1; 1; 1]%Z [] [] in
  check_incoming_message m ex_my = Ok true ∧ message_valid ex_topology m.
Proof.
  intros fp m. split; [reflexivity|].
  assert (∀ p q, (0 ≤ p < 4)%Z → (0 ≤ q < 4)%Z → naddr_wf (mkNaddr ex_topology [p; q]))
    as Hw by (intros; apply ex_naddr_wf; unfold is_u32, U32_MAX; lia).
  destruct (message_checks_exact m ex_my) as [(b & Hb & Hv) _]; [apply Hw; lia..|].
  vm_compute in Hb. injection Hb as <-. by apply Hv.
Defined.
