(* ===== verification/QspnRevise.v ===== *)
(** * Revision of a received ETP

    Models [crates/ntk-qspn/src/revise.rs]: a message received on an arc is
    rewritten into this node's own coordinate frame.  The grouping rule drops
    the hops this node does not see, the acyclic rule drops what loops back
    through this node's g-nodes, and a full ETP's silence about a known path is
    turned into an explicit dead candidate. *)
From stdpp Require Import strings.
From S2P Require Import Prelude Addressing Fingerprint Domain QspnPath QspnValidate.

Record RevisedEtp := mkRevisedEtp { re_hops : list HCoord; re_npaths : list NodePath }.

(** The grouping loop on [m.hops]. *)
Fixpoint group_hops (lvl : nat) (hops : list HCoord) : list HCoord :=
  match hops with
  | h :: hops' => if hc_level h <? lvl then group_hops lvl hops' else hops
  | [] => []
  end.

(** The grouping loop on a path: [p.arcs.remove(0)] panics on an empty list. *)
Fixpoint group_path (lvl : nat) (hops : list HCoord) (arcs : list ArcId)
    : res QspnError (list HCoord * list ArcId) :=
  match hops with
  | h :: hops' =>
      if hc_level h <? lvl
      then match arcs with
           | [] => Panic
           | _ :: arcs' => group_path lvl hops' arcs'
           end
      else Ok (hops, arcs)
  | [] => Ok ([], arcs)
  end.

(** [hops.iter().any(|g| my_naddr.pos(g.level) == Some(g.pos))] *)
Definition loops_back (my_naddr : Naddr) (hops : list HCoord) : bool :=
  any (λ g, bool_decide (naddr_pos my_naddr (hc_level g) = Some (hc_pos g))) hops.

(** The coordinate the peer's former address occupied, when it is not [v]. *)
Definition old_coordinate (my_naddr : Naddr) (old_peer_naddr : option Naddr) (v : HCoord)
    : res QspnError (option HCoord) :=
  match old_peer_naddr with
  | None => Ok None
  | Some old =>
      c ← res_ok (hcoord my_naddr old);
      Ok (match c with
          | Some (Some old_v) => if bool_decide (old_v = v) then None else Some old_v
          | _ => None
          end)
  end.

(** The grouping step of one path: the sender and the arc are prepended. *)
Definition regroup (v : HCoord) (arc : ArcId) (p : EtpPath) : res QspnError EtpPath :=
  ha ← group_path (hc_level v) (ep_hops p) (ep_arcs p);
  Ok (mkEtpPath (v :: ha.1) (arc :: ha.2) (ep_cost p) (ep_fingerprint p)
        (ep_nodes_inside p) (ep_ignore_outside p)).

(** [!p.ignore_outside.get(v.level).copied().unwrap_or(false)] *)
Definition fact_valid_at (v : HCoord) (p : EtpPath) : bool :=
  negb (default false (ep_ignore_outside p !! hc_level v)).

(** The path straight to a coordinate, as the message's own fingerprint and
    node count describe it. *)
Definition direct_path (m : EtpMessage) (arc : ArcId) (levels : nat) (v : HCoord) (c : Cost)
    : res QspnError EtpPath :=
  fp ← expect (em_fingerprints m !! hc_level v);
  nn ← expect (em_nodes_inside m !! hc_level v);
  Ok (mkEtpPath [v] [arc] c fp nn (replicate levels false)).

(** Every path the message itself yields: what survives grouping, pruning and
    the acyclic rule, the zero-cost path to the sender and, when the sender
    moved, the withdrawal of its former coordinate. *)
Definition fresh_paths (my_naddr : Naddr) (m : EtpMessage) (arc : ArcId)
    (v : HCoord) (old_coord : option HCoord) : res QspnError (list EtpPath) :=
  let levels := topology_levels (na_topology my_naddr) in
  grouped ← mapM (regroup v arc) (retain (fact_valid_at v) (em_paths m));
  let acyclic := retain (λ p, negb (loops_back my_naddr (ep_hops p))) grouped in
  fp ← expect (em_fingerprints m !! hc_level v);
  if negb (fp_level fp =? hc_level v)
  then Err (MalformedEtp "sender fingerprint level must equal divergence level")
  else
    sender ← direct_path m arc levels v Null;
    match old_coord with
    | None => Ok (acyclic ++ [sender])
    | Some old_v =>
        dead ← direct_path m arc levels old_v Dead;
        Ok (acyclic ++ [sender; dead])
    end.

(** The implicit withdrawal of a full ETP. *)
Definition withdrawn (arc : ArcId) (existing : list NodePath) (fresh : list EtpPath)
    : list NodePath :=
  (λ np, node_path_new arc (with_cost (np_path np) Dead)) <$>
  retain (λ np, negb (any (λ p, hops_arcs_equal np p) fresh)) existing.

Definition revise_etp (my_naddr : Naddr) (m : EtpMessage) (arc : ArcId)
    (old_peer_naddr : option Naddr) (is_full : bool) (existing_paths_via_arc : list NodePath)
    : res QspnError RevisedEtp :=
  let levels := topology_levels (na_topology my_naddr) in
  if negb (length (em_fingerprints m) =? S levels) || negb (length (em_nodes_inside m) =? S levels)
  then Err (MalformedEtp "fingerprints/nodes_inside length must be levels + 1")
  else
    c ← map_err Common (hcoord my_naddr (em_node_address m));
    v ← ok_or c EtpFromSelf;
    old_coord ← old_coordinate my_naddr old_peer_naddr v;
    let hops := v :: group_hops (hc_level v) (em_hops m) in
    if loops_back my_naddr hops then Err Acyclic
    else
      fresh ← fresh_paths my_naddr m arc v old_coord;
      Ok (mkRevisedEtp hops
            ((if is_full then withdrawn arc existing_paths_via_arc fresh else [])
             ++ (node_path_new arc <$> fresh))).

(** ** Well-formed paths

    [hops_asc]: levels ascend from [lo] and exist.  [np_wf my]: what every path
    of the destination map satisfies, relative to the node's own address
    [my]. *)
Fixpoint hops_asc (t : Topology) (lo : nat) (hops : list HCoord) : Prop :=
  match hops with
  | [] => True
  | h :: hops' =>
      lo ≤ hc_level h ∧ hc_level h < topology_levels t ∧ hops_asc t (hc_level h) hops'
  end.

Definition loop_free (my : Naddr) (hops : list HCoord) : Prop :=
  ∀ g, g ∈ hops → naddr_pos my (hc_level g) ≠ Some (hc_pos g).

(** The ranges of the Rust types. *)
Definition path_typed (p : EtpPath) : Prop :=
  Forall (λ h, is_u32 (hc_pos h)) (ep_hops p) ∧ cost_wf (ep_cost p) ∧
  fp_wf (ep_fingerprint p) ∧ is_u32 (ep_nodes_inside p).

Definition message_typed (m : EtpMessage) : Prop :=
  naddr_wf (em_node_address m) ∧ Forall fp_wf (em_fingerprints m) ∧
  Forall is_u32 (em_nodes_inside m) ∧ Forall path_typed (em_paths m).

Record path_wf (my : Naddr) (d : HCoord) (p : EtpPath) : Prop := {
  pw_last : last (ep_hops p) = Some d;
  pw_arcs : length (ep_hops p) = length (ep_arcs p);
  pw_asc : hops_asc (na_topology my) 0 (ep_hops p);
  pw_level : fp_level (ep_fingerprint p) = hc_level d;
  pw_loop_free : loop_free my (ep_hops p);
  pw_typed : path_typed p
}.

(** A path bound to the arc of its first hop. *)
Definition np_wf (my : Naddr) (d : HCoord) (np : NodePath) : Prop :=
  path_wf my d (np_path np) ∧ head (ep_arcs (np_path np)) = Some (np_arc np).

(** ** Lemmas *)
Lemma hops_valid_asc t lo hops : hops_valid_from t lo hops → hops_asc t lo hops.
Proof. revert lo. induction hops; intros lo; cbn; [done|]. naive_solver. Qed.

Lemma hops_asc_mono t lo lo' hops : lo' ≤ lo → hops_asc t lo hops → hops_asc t lo' hops.
Proof. destruct hops; cbn; [done|]. naive_solver lia. Qed.

Lemma hops_asc_level t lo hops h :
  hops_asc t lo hops → h ∈ hops → lo ≤ hc_level h ∧ hc_level h < topology_levels t.
Proof.
  revert lo. induction hops as [|h' hops IH]; intros lo Hv Hin; [by apply elem_of_nil in Hin|].
  destruct Hv as (? & ? & Hv). apply elem_of_cons in Hin as [->|Hin]; [done|].
  destruct (IH _ Hv Hin). lia.
Qed.

Lemma loops_back_false my hops : loops_back my hops = false ↔ loop_free my hops.
Proof.
  unfold loops_back, loop_free. rewrite any_false. by setoid_rewrite bool_decide_eq_false.
Qed.

(** Grouping keeps a suffix whose levels start at [lvl], and the destination
    when its level reaches [lvl]. *)
Lemma group_path_spec t lo lvl hops arcs d :
  length hops = length arcs → hops_asc t lo hops → last hops = Some d → lvl ≤ hc_level d →
  ∃ hops' arcs', group_path lvl hops arcs = Ok (hops', arcs') ∧ hops' `suffix_of` hops ∧
    length hops' = length arcs' ∧ hops_asc t lvl hops' ∧ last hops' = Some d.
Proof.
  revert lo arcs. induction hops as [|h hops IH]; intros lo [|a arcs] Hlen Ha Hl Hd; simplify_eq/=.
  destruct Ha as (H1 & H2 & Ha). destruct (Nat.ltb_spec (hc_level h) lvl).
  - destruct hops as [|h' hops]; [simplify_eq/=; lia|].
    destruct (IH (hc_level h) arcs) as (hs & ars & Hg & Hs & ?); [done..|].
    exists hs, ars. rewrite Hg. split_and!; [done| |naive_solver..]. by apply suffix_cons_r.
  - exists (h :: hops), (a :: arcs). split_and!; [done..|cbn; lia| |done]. cbn. done.
Qed.

Lemma group_hops_suffix lvl hops : group_hops lvl hops `suffix_of` hops.
Proof.
  induction hops as [|h hops IH]; cbn; [done|]. destruct (_ <? _); [|done]. by apply suffix_cons_r.
Qed.

Lemma fact_valid_level t v p d :
  path_valid t p → last (ep_hops p) = Some d → hc_level v < topology_levels t →
  fact_valid_at v p = true → hc_level v ≤ hc_level d.
Proof.
  intros (h & Hl & Hlen & _ & Hig & _) Hd Hv Hf.
  assert (h = d) as -> by congruence.
  destruct (decide (hc_level v ≤ hc_level d)); [done|]. unfold fact_valid_at in Hf.
  destruct (lookup_lt_is_Some_2 (ep_ignore_outside p) (hc_level v)) as [b Hb]; [lia|].
  rewrite Hb in Hf. cbn in Hf. by rewrite (Hig (hc_level v) b) in Hf by (done || lia).
Qed.

(** Every path of a valid message that survives pruning and the acyclic rule is
    well formed in this node's frame, and keeps its destination. *)
Lemma regroup_spec my v arc p d :
  path_valid (na_topology my) p → path_typed p → last (ep_hops p) = Some d →
  hc_level v < topology_levels (na_topology my) → is_u32 (hc_pos v) →
  fact_valid_at v p = true →
  ∃ p', regroup v arc p = Ok p' ∧
    last (ep_hops p') = Some d ∧ length (ep_hops p') = length (ep_arcs p') ∧
    hops_asc (na_topology my) 0 (ep_hops p') ∧ fp_level (ep_fingerprint p') = hc_level d ∧
    path_typed p' ∧ head (ep_arcs p') = Some arc ∧ head (ep_hops p') = Some v.
Proof.
  intros Hv Ht Hd Hlv Hu Hf.
  assert (hc_level v ≤ hc_level d) as Hle by (by eapply fact_valid_level).
  destruct Hv as (h & Hl & Hlen & Hh & Hig & Hfp & Ha & Hhops).
  assert (h = d) as -> by congruence.
  destruct (group_path_spec (na_topology my) 0 (hc_level v) (ep_hops p) (ep_arcs p) d)
    as (hs & ars & Hg & Hsuf & Hla & Hasc & Hlast); [done|by apply hops_valid_asc|done..|].
  unfold regroup. rewrite Hg. cbn. eexists. split; [done|]. cbn.
  destruct Ht as (Hp & Hc & Hw & Hn). split_and!.
  - by destruct hs.
  - lia.
  - lia.
  - done.
  - done.
  - done.
  - split_and!; [|done..]. cbn. constructor; [done|].
    destruct Hsuf as [pre Hpre]. rewrite Hpre in Hp. by apply Forall_app in Hp as [_ ?].
  - done.
  - done.
Qed.

Lemma direct_path_spec my m arc v c :
  message_typed m → message_valid (na_topology my) m →
  length (em_nodes_inside m) = S (topology_levels (na_topology my)) →
  hc_level v < topology_levels (na_topology my) → is_u32 (hc_pos v) → cost_wf c →
  naddr_pos my (hc_level v) ≠ Some (hc_pos v) →
  ∃ p, direct_path m arc (topology_levels (na_topology my)) v c = Ok p ∧
    path_wf my v p ∧ head (ep_arcs p) = Some arc ∧ ep_hops p = [v] ∧ ep_arcs p = [arc] ∧ ep_cost p = c.
Proof.
  intros (_ & Hft & Hnt & _) (_ & Hfl & Hlev & _) Hnl Hv Hu Hc Hne. unfold direct_path.
  destruct (lookup_lt_is_Some_2 (em_fingerprints m) (hc_level v)) as [fp Hfp]; [lia|].
  destruct (lookup_lt_is_Some_2 (em_nodes_inside m) (hc_level v)) as [nn Hnn]; [lia|].
  rewrite Hfp, Hnn. cbn. eexists. split; [done|]. cbn. split_and!; [|done..].
  rewrite Forall_lookup in Hft. rewrite Forall_lookup in Hnt. constructor; cbn; [done|done|lia|by apply Hlev| |].
  - intros g ->%list_elem_of_singleton. done.
  - split_and!; cbn; [by constructor|done|by eapply Hft|by eapply Hnt].
Qed.

(** [fresh_paths] on a valid message never fails and yields well-formed
    candidates bound to the arc. *)
Lemma fresh_paths_spec my m arc v old :
  message_typed m → message_valid (na_topology my) m →
  length (em_nodes_inside m) = S (topology_levels (na_topology my)) →
  hc_level v < topology_levels (na_topology my) → is_u32 (hc_pos v) →
  naddr_pos my (hc_level v) ≠ Some (hc_pos v) →
  Forall (λ o, hc_level o < topology_levels (na_topology my) ∧ is_u32 (hc_pos o) ∧
    naddr_pos my (hc_level o) ≠ Some (hc_pos o)) (option_list old) →
  ∃ fresh, fresh_paths my m arc v old = Ok fresh ∧
    (∀ p, p ∈ fresh → head (ep_arcs p) = Some arc ∧ ∃ d, path_wf my d p) ∧
    (∃ p, p ∈ fresh ∧ ep_hops p = [v] ∧ ep_arcs p = [arc] ∧ ep_cost p = Null).
Proof.
  intros Ht Hm Hnl Hv Hu Hne Hold. unfold fresh_paths.
  assert (Hpv : ∀ p, p ∈ retain (fact_valid_at v) (em_paths m) →
    ∃ d, last (ep_hops p) = Some d ∧ path_valid (na_topology my) p ∧ path_typed p ∧
      fact_valid_at v p = true).
  { intros p [Hp Hf]%elem_of_retain. destruct Hm as (_ & _ & _ & Hmp), Ht as (_ & _ & _ & Htp).
    rewrite Forall_forall in Hmp. rewrite Forall_forall in Htp. pose proof (Hmp p Hp) as (h & Hh & _).
    exists h. auto. }
  destruct (mapM_is_Ok (regroup v arc) (retain (fact_valid_at v) (em_paths m))) as [grouped Hg].
  { intros p (d & ? & ? & ? & ?)%Hpv.
    destruct (regroup_spec my v arc p d) as (p' & -> & _); eauto with ntk. }
  rewrite Hg. cbn.
  assert (Hgr : ∀ p, p ∈ retain (λ p, negb (loops_back my (ep_hops p))) grouped →
    head (ep_arcs p) = Some arc ∧ ∃ d, path_wf my d p).
  { intros p [Hp Hlb]%elem_of_retain. apply negb_true_iff, loops_back_false in Hlb.
    apply mapM_Forall2 in Hg. apply list_elem_of_lookup in Hp as [i Hi].
    eapply Forall2_lookup_r in Hg as (q & Hq & Hr); [|done].
    apply list_elem_of_lookup_2, Hpv in Hq as (d & Hd & Hqv & Hqt & Hqf).
    destruct (regroup_spec my v arc q d) as (p' & Hr' & ? & ? & ? & ? & ? & ? & _); [done..|].
    assert (p' = p) as -> by congruence. split; [done|]. exists d. by constructor. }
  destruct Hm as (Hmh & Hfl & Hlev & Hmp) eqn:E; clear E.
  destruct (lookup_lt_is_Some_2 (em_fingerprints m) (hc_level v)) as [fp Hfp]; [lia|].
  rewrite Hfp. cbn. rewrite (Hlev _ _ Hfp), Nat.eqb_refl. cbn.
  destruct (direct_path_spec my m arc v Null) as (ps & Hps & Hpw & ? & Hh & Ha & Hc); [done..|].
  rewrite Hps. cbn. destruct old as [old_v|]; cbn in *.
  - apply (proj1 (Forall_singleton _ _)) in Hold as (? & ? & ?).
    destruct (direct_path_spec my m arc old_v Dead) as (pd & Hpd & ? & ? & _); [done..|].
    rewrite Hpd. cbn. eexists. split; [done|]. split.
    + intros p [Hp|Hp]%elem_of_app; [by apply Hgr|].
      apply elem_of_cons in Hp as [->| ->%list_elem_of_singleton]; eauto.
    + exists ps. split_and!; [set_solver|done..].
  - eexists. split; [done|]. split.
    + intros p [Hp| ->%list_elem_of_singleton]%elem_of_app; eauto.
    + exists ps. split_and!; [set_solver|done..].
Qed.

Lemma path_wf_with_cost my d p c : cost_wf c → path_wf my d p → path_wf my d (with_cost p c).
Proof.
  intros Hc [? ? ? ? ? (? & ? & ? & ?)]. by constructor; cbn; [..|split_and!].
Qed.

Lemma withdrawn_wf my d arc existing fresh np :
  (∀ e, e ∈ existing → np_wf my (d e) e ∧ np_arc e = arc) →
  np ∈ withdrawn arc existing fresh →
  ∃ e, e ∈ existing ∧ np_wf my (d e) np ∧ np_arc np = arc ∧
    ep_hops (np_path np) = ep_hops (np_path e) ∧ ep_arcs (np_path np) = ep_arcs (np_path e) ∧
    ep_cost (np_path np) = Dead.
Proof.
  intros He. unfold withdrawn. rewrite list_elem_of_fmap. intros (e & -> & [Hin _]%elem_of_retain).
  destruct (He e Hin) as [[Hw Hh] Ha]. exists e. split_and!; [done| |done..].
  split; cbn; [by apply path_wf_with_cost|by rewrite Hh, Ha].
Qed.

(** The divergence coordinate of an accepted sender. *)
Lemma sender_coordinate my m :
  naddr_wf my → message_typed m → na_topology (em_node_address m) = na_topology my →
  em_node_address m ≠ my →
  ∃ v, hcoord my (em_node_address m) = Ok (Some v) ∧
    hc_level v < topology_levels (na_topology my) ∧ is_u32 (hc_pos v) ∧
    naddr_pos my (hc_level v) ≠ Some (hc_pos v).
Proof.
  intros Hmy (Hn & _) Ht Hne.
  destruct (hcoord_cases my (em_node_address m)) as [[-> _]|(v & Hv & Hl & Hp & Hq & _)]; [done..|].
  exists v. split_and!; [done| | |done].
  - destruct Hmy as (_ & <- & _). done.
  - destruct Hn as (_ & _ & Hu). rewrite Forall_lookup in Hu. by eapply Hu.
Qed.

Lemma old_coordinate_spec my old v :
  naddr_wf my → Forall (λ a, naddr_wf a ∧ na_topology a = na_topology my) (option_list old) →
  ∃ c, old_coordinate my old v = Ok c ∧
    Forall (λ o, hc_level o < topology_levels (na_topology my) ∧ is_u32 (hc_pos o) ∧
      naddr_pos my (hc_level o) ≠ Some (hc_pos o)) (option_list c).
Proof.
  intros Hmy Ho. destruct old as [a|]; cbn; [|eauto].
  apply (proj1 (Forall_singleton _ _)) in Ho as [Ha Ht].
  destruct (hcoord_cases my a) as [[_ ->]|(h & -> & Hl & Hp & Hq & _)]; [done..|eauto|].
  cbn. eexists. split; [done|]. case_bool_decide; cbn; [done|].
  apply Forall_singleton. split_and!; [|by destruct Ha as (_ & _ & Hu); rewrite Forall_lookup in Hu; eapply Hu|done].
  destruct Hmy as (_ & <- & _). done.
Qed.

(** The outcome of [revise_etp] on a message that passed the incoming check: it
    never panics, the only errors are a wrong [nodes_inside] length and a
    message that looped back, and everything it yields is well formed. *)
Lemma revise_etp_spec my m arc old full existing (dest : NodePath → HCoord) :
  naddr_wf my → message_typed m → na_topology (em_node_address m) = na_topology my →
  em_node_address m ≠ my → message_valid (na_topology my) m →
  Forall (λ a, naddr_wf a ∧ na_topology a = na_topology my) (option_list old) →
  (∀ e, e ∈ existing → np_wf my (dest e) e ∧ np_arc e = arc) →
  (length (em_nodes_inside m) ≠ S (topology_levels (na_topology my)) ∧
     ∃ e, revise_etp my m arc old full existing = Err (MalformedEtp e)) ∨
  (revise_etp my m arc old full existing = Err Acyclic ∧
     ∃ v, hcoord my (em_node_address m) = Ok (Some v) ∧
       ¬ loop_free my (v :: group_hops (hc_level v) (em_hops m))) ∨
  ∃ r v fresh, revise_etp my m arc old full existing = Ok r ∧
    hcoord my (em_node_address m) = Ok (Some v) ∧
    re_hops r = v :: group_hops (hc_level v) (em_hops m) ∧ loop_free my (re_hops r) ∧
    re_npaths r = (if full then withdrawn arc existing fresh else []) ++ (node_path_new arc <$> fresh) ∧
    (∃ p, p ∈ fresh ∧ ep_hops p = [v] ∧ ep_arcs p = [arc] ∧ ep_cost p = Null) ∧
    ∀ np, np ∈ re_npaths r → np_arc np = arc ∧ ∃ d, np_wf my d np.
Proof.
  intros Hmy Ht Htop Hne Hm Hold Hex. unfold revise_etp.
  rewrite (proj2 (Nat.eqb_eq _ _) (proj1 (proj2 Hm))). cbn.
  destruct (Nat.eqb_spec (length (em_nodes_inside m)) (S (topology_levels (na_topology my))));
    cbn; [right|left; eauto].
  destruct (sender_coordinate my m) as (v & Hv & Hvl & Hvu & Hvn); [done..|]. rewrite Hv. cbn.
  destruct (old_coordinate_spec my old v) as (c & Hc & Hcs); [done..|]. rewrite Hc. cbn.
  destruct (loops_back my (v :: group_hops (hc_level v) (em_hops m))) eqn:Hlb.
  { left. split; [done|]. exists v. split; [done|]. by rewrite <-loops_back_false, Hlb. }
  right. apply loops_back_false in Hlb.
  destruct (fresh_paths_spec my m arc v c) as (fresh & Hf & Hfw & Hsender); [done..|].
  rewrite Hf. cbn. eexists _, v, fresh. split_and!; [done..|].
  cbn. intros np [Hw|Hn]%elem_of_app.
  - destruct full; [|by apply elem_of_nil in Hw].
    destruct (withdrawn_wf my dest arc existing fresh np) as (e0 & ? & ? & ? & _); eauto.
  - apply list_elem_of_fmap in Hn as (p & -> & Hp). destruct (Hfw p Hp) as (Hh & d & Hd).
    split; [done|]. exists d. by split.
Qed.

(** A full ETP leaves no known path of its arc without a verdict. *)
Lemma withdrawn_covers arc existing fresh e :
  e ∈ existing →
  ∃ np, np ∈ withdrawn arc existing fresh ++ (node_path_new arc <$> fresh) ∧
    hops_arcs_equal e (np_path np) = true ∧ (np_path np ∈ fresh ∨ ep_cost (np_path np) = Dead).
Proof.
  intros He. destruct (any (λ p, hops_arcs_equal e p) fresh) eqn:Ha.
  - apply any_true in Ha as (p & Hp & Heq). exists (node_path_new arc p). split_and!; [|done|by left].
    apply elem_of_app. right. by apply list_elem_of_fmap_2.
  - exists (node_path_new arc (with_cost (np_path e) Dead)). split_and!; [|by apply hops_arcs_equal_true|by right].
    apply elem_of_app. left. unfold withdrawn. apply list_elem_of_fmap. exists e. split; [done|].
    apply elem_of_retain. split; [done|]. by rewrite Ha.
Qed.

(** The hops of a revised message: the sender, then what grouping leaves. *)
Lemma revise_etp_hops my m arc old full existing r :
  revise_etp my m arc old full existing = Ok r →
  ∃ v, hcoord my (em_node_address m) = Ok (Some v) ∧
    re_hops r = v :: group_hops (hc_level v) (em_hops m).
Proof.
  unfold revise_etp. destruct (_ || _); [done|].
  destruct (hcoord my (em_node_address m)) as [[v|]| |]; cbn; try done.
  destruct (old_coordinate my old v); cbn; try done.
  destruct (loops_back _ _); [done|]. destruct (fresh_paths _ _ _ _ _); cbn; try done.
  intros [= <-]. by exists v.
Qed.

(** What the paths of a message become: [regroup] keeps everything of a path
    but its hops below the sender's level. *)
Lemma group_path_hops lvl hops arcs ha : group_path lvl hops arcs = Ok ha → ha.1 = group_hops lvl hops.
Proof.
  revert arcs. induction hops as [|h hops IH]; intros arcs; cbn; [by intros [= <-]|].
  destruct (_ <? _); [|by intros [= <-]]. destruct arcs; [done|apply IH].
Qed.

Lemma regroup_fields v arc p p' :
  regroup v arc p = Ok p' →
  ep_hops p' = v :: group_hops (hc_level v) (ep_hops p) ∧ ep_cost p' = ep_cost p ∧
  ep_fingerprint p' = ep_fingerprint p ∧ ep_nodes_inside p' = ep_nodes_inside p.
Proof.
  unfold regroup. destruct (group_path _ _ _) as [ha| |] eqn:Hg; cbn; [|done..].
  intros [= <-]. cbn. by rewrite (group_path_hops _ _ _ _ Hg).
Qed.

(** The paths a message yields, exactly. *)
Lemma fresh_paths_exact my m arc v old fresh p :
  fresh_paths my m arc v old = Ok fresh →
  p ∈ fresh ↔
    (∃ q, q ∈ em_paths m ∧ fact_valid_at v q = true ∧ regroup v arc q = Ok p ∧ loop_free my (ep_hops p)) ∨
    direct_path m arc (topology_levels (na_topology my)) v Null = Ok p ∨
    (∃ o, old = Some o ∧ direct_path m arc (topology_levels (na_topology my)) o Dead = Ok p).
Proof.
  unfold fresh_paths. intros Hf. destruct (mapM _ _) as [grouped| |] eqn:Hg; cbn in Hf; [|done..].
  assert (Hgr : p ∈ retain (λ p, negb (loops_back my (ep_hops p))) grouped ↔
    ∃ q, q ∈ em_paths m ∧ fact_valid_at v q = true ∧ regroup v arc q = Ok p ∧ loop_free my (ep_hops p)).
  { rewrite elem_of_retain, negb_true_iff, loops_back_false. apply mapM_Forall2 in Hg. split.
    - intros [[i Hi]%list_elem_of_lookup Hl]. eapply Forall2_lookup_r in Hg as (q & Hq & Hr); [|done].
      apply list_elem_of_lookup_2, elem_of_retain in Hq as [? ?]. eauto.
    - intros (q & Hin & Hv & Hr & Hl). split; [|done].
      assert (q ∈ retain (fact_valid_at v) (em_paths m)) as [i Hi]%list_elem_of_lookup by (by apply elem_of_retain).
      eapply Forall2_lookup_l in Hg as (p' & Hp & Hr'); [|done]. apply list_elem_of_lookup.
      assert (p' = p) as -> by congruence. eauto. }
  destruct (expect _) as [fp| |]; cbn in Hf; [|done..]. destruct (negb (fp_level fp =? _)); [done|].
  destruct (direct_path m arc _ v Null) as [ps| |]; cbn in Hf; [|done..].
  destruct old as [o|]; [destruct (direct_path m arc _ o Dead) as [pd| |] eqn:Hd; cbn in Hf; [|done..]|];
    injection Hf as <-; rewrite elem_of_app, Hgr, ?elem_of_cons, elem_of_nil.
  - split; [intros [?|[->|[->|[]]]]; eauto 6|]. intros [?|[[= ->]|(o' & [= <-] & Hd')]]; [tauto..|].
    rewrite Hd in Hd'. injection Hd' as ->. tauto.
  - split; [intros [?|[->|[]]]; eauto|]. intros [?|[[= ->]|(o & ? & _)]]; [tauto..|done].
Qed.

Lemma revise_etp_inv my m arc old full existing r :
  revise_etp my m arc old full existing = Ok r →
  ∃ v c fresh, hcoord my (em_node_address m) = Ok (Some v) ∧ old_coordinate my old v = Ok c ∧
    fresh_paths my m arc v c = Ok fresh ∧
    re_npaths r = (if full then withdrawn arc existing fresh else []) ++ (node_path_new arc <$> fresh).
Proof.
  unfold revise_etp. destruct (_ || _); [done|].
  destruct (hcoord my (em_node_address m)) as [[v|]| |]; cbn; try done.
  destruct (old_coordinate my old v) as [c| |] eqn:Hc; cbn; try done.
  destruct (loops_back _ _); [done|]. destruct (fresh_paths _ _ _ _ _) as [fresh| |] eqn:Hf; cbn; try done.
  intros [= <-]. by exists v, c, fresh.
Qed.

(** Which path a candidate stands for: one the message announces, rewritten into
    this node's frame; the sender's own; or a dead one. *)
Definition candidate_of (v : HCoord) (m : EtpMessage) (np : NodePath) : Prop :=
  ep_cost (np_path np) = Dead ∨
  (ep_hops (np_path np) = [v] ∧ ep_cost (np_path np) = Null) ∨
  ∃ q, q ∈ em_paths m ∧ fact_valid_at v q = true ∧
    ep_hops (np_path np) = v :: group_hops (hc_level v) (ep_hops q) ∧ ep_cost (np_path np) = ep_cost q.

Lemma direct_path_fields m arc levels v c p :
  direct_path m arc levels v c = Ok p → ep_hops p = [v] ∧ ep_cost p = c.
Proof.
  unfold direct_path. destruct (expect (em_fingerprints m !! _)); cbn; [|done..].
  destruct (expect _); cbn; [|done..]. by intros [= <-].
Qed.

Lemma candidates_from_message my m arc old full existing r v np :
  revise_etp my m arc old full existing = Ok r → hcoord my (em_node_address m) = Ok (Some v) →
  np ∈ re_npaths r → candidate_of v m np.
Proof.
  intros (v' & c & fresh & Hv' & _ & Hf & Hr)%revise_etp_inv Hv. assert (v' = v) as -> by congruence.
  rewrite Hr, elem_of_app. intros [Hw|(p & -> & Hp)%list_elem_of_fmap].
  - left. destruct full; [|by apply elem_of_nil in Hw]. by apply list_elem_of_fmap in Hw as (e & -> & _).
  - apply (fresh_paths_exact _ _ _ _ _ _ _ Hf) in Hp as [(q & Hq & Hfv & Hrg & _)|[Hd|(o & _ & Hd)]].
    + right; right. destruct (regroup_fields _ _ _ _ Hrg) as (? & ? & _). by exists q.
    + right; left. by apply direct_path_fields in Hd.
    + left. by apply direct_path_fields in Hd as [_ ?].
Qed.

Lemma announced_paths_kept my m arc old full existing r v q :
  revise_etp my m arc old full existing = Ok r → hcoord my (em_node_address m) = Ok (Some v) →
  message_valid (na_topology my) m → message_typed m →
  hc_level v < topology_levels (na_topology my) → is_u32 (hc_pos v) →
  q ∈ em_paths m → fact_valid_at v q = true →
  loop_free my (v :: group_hops (hc_level v) (ep_hops q)) →
  ∃ np, np ∈ re_npaths r ∧ ep_hops (np_path np) = v :: group_hops (hc_level v) (ep_hops q) ∧
    ep_cost (np_path np) = ep_cost q ∧ ep_fingerprint (np_path np) = ep_fingerprint q ∧
    ep_nodes_inside (np_path np) = ep_nodes_inside q.
Proof.
  intros (v' & c & fresh & Hv' & _ & Hf & Hr)%revise_etp_inv Hv Hm Ht Hlv Hu Hq Hfv Hlf.
  assert (v' = v) as -> by congruence. destruct Hm as (_ & _ & _ & Hmp), Ht as (_ & _ & _ & Htp).
  rewrite Forall_forall in Hmp. rewrite Forall_forall in Htp. destruct (Hmp q Hq) as (d & Hd & ?) eqn:E; clear E.
  destruct (regroup_spec my v arc q d) as (p & Hp & _); [by apply Hmp|by apply Htp|done..|].
  destruct (regroup_fields _ _ _ _ Hp) as (Hh & ? & ? & ?). exists (node_path_new arc p). split_and!; [|done..].
  rewrite Hr. apply elem_of_app. right. apply list_elem_of_fmap_2, (fresh_paths_exact _ _ _ _ _ _ _ Hf).
  left. exists q. rewrite Hh. done.
Qed.

(** ** Properties *)

(** C14: revision of a received ETP.  On a message that passed the incoming
    check, revision never panics, and what it does is decided exactly: a message
    without exactly one node count per level (and one for the node) is malformed;
    one whose hops, seen from here, cross one of this node's own g-nodes is
    refused as cyclic; every other is accepted.  Of an accepted message every
    candidate is bound to the receiving arc, well formed in this node's frame
    (loop free, levels ascending, fingerprint at the destination's level), and a
    withdrawal, the sender itself or a path of the message; every path of the
    message whose facts hold here and that does not loop back is a candidate,
    with its cost, fingerprint and node count; the sender is reachable at no cost
    through the arc; and after a full ETP every path known through the arc has a
    verdict. *)
Theorem revise_etp_correct my m arc old full existing (dest : NodePath → HCoord) :
  naddr_wf my → message_typed m → check_incoming_message m my = Ok true →
  Forall (λ a, naddr_wf a ∧ na_topology a = na_topology my) (option_list old) →
  (∀ e, e ∈ existing → np_wf my (dest e) e ∧ np_arc e = arc) →
  ∃ v, hcoord my (em_node_address m) = Ok (Some v) ∧
    let hops := v :: group_hops (hc_level v) (em_hops m) in
    let complete := length (em_nodes_inside m) = S (topology_levels (na_topology my)) in
    (¬ complete ∧ ∃ e, revise_etp my m arc old full existing = Err (MalformedEtp e)) ∨
    (complete ∧ ¬ loop_free my hops ∧ revise_etp my m arc old full existing = Err Acyclic) ∨
    (complete ∧ loop_free my hops ∧ ∃ r, revise_etp my m arc old full existing = Ok r ∧ re_hops r = hops ∧
       (∀ np, np ∈ re_npaths r → np_arc np = arc ∧ (∃ d, np_wf my d np) ∧ candidate_of v m np) ∧
       (∀ q, q ∈ em_paths m → fact_valid_at v q = true →
          loop_free my (v :: group_hops (hc_level v) (ep_hops q)) →
          ∃ np, np ∈ re_npaths r ∧ ep_hops (np_path np) = v :: group_hops (hc_level v) (ep_hops q) ∧
            ep_cost (np_path np) = ep_cost q ∧ ep_fingerprint (np_path np) = ep_fingerprint q ∧
            ep_nodes_inside (np_path np) = ep_nodes_inside q) ∧
       (∃ np, np ∈ re_npaths r ∧ ep_hops (np_path np) = [v] ∧ ep_arcs (np_path np) = [arc] ∧ ep_cost (np_path np) = Null) ∧
       (full = true → ∀ e, e ∈ existing →
          ∃ np, np ∈ re_npaths r ∧ hops_arcs_equal e (np_path np) = true)).
Proof.
  intros Hmy Ht Hc Hold Hex.
  apply (decides_true _ _ (check_incoming_decides m my (proj1 Ht) Hmy)) in Hc as (Htop & Hne & Hval).
  destruct (sender_coordinate my m Hmy Ht Htop Hne) as (v & Hv & Hvl & Hvu & _). exists v. split; [done|]. cbn zeta.
  destruct (decide (length (em_nodes_inside m) = S (topology_levels (na_topology my)))) as [Hlen|Hlen]; [right|left].
  2: { split; [done|]. unfold revise_etp. rewrite (proj2 (Nat.eqb_neq _ _) Hlen), orb_true_r. eauto. }
  destruct (revise_etp_spec my m arc old full existing dest) as [[? ?]|[(He & v' & Hv' & ?)|(r & v' & fresh & Hr & Hv' & Hh & Hlf & Hnp & Hs & Hw)]];
    [done..| |]; assert (v' = v) as -> by congruence; [by left|].
  right. rewrite Hh in Hlf. split_and!; [done..|]. exists r. split_and!; [done|done| | | |].
  - intros np Hin. destruct (Hw np Hin). split_and!; [done..|]. by eapply candidates_from_message.
  - intros q. by eapply announced_paths_kept.
  - destruct Hs as (p & Hp & ? & ? & ?). exists (node_path_new arc p). split_and!; [|done..].
    rewrite Hnp. apply elem_of_app. right. by apply list_elem_of_fmap_2.
  - intros -> e He. destruct (withdrawn_covers arc existing fresh e He) as (np & ? & ? & _).
    exists np. by rewrite Hnp.
Qed.
