(* ===== verification/QspnState.v ===== *)
(** * QSPN protocol state

    Models [crates/ntk-qspn/src/state.rs] up to [update_clusters]: the state one
    identity's actor owns, its constructors, its arc table, the removal of an
    arc, the exposed paths, the exported snapshot and the recomputation of this
    node's own fingerprints.  [update_map] is in [QspnUpdateMap], the
    connectivity lifecycle in [QspnConnectivity].

    [destinations] is a vector of hash maps, [arcs] an ordered map.  A [&mut
    self] method takes the state and returns the state it leaves behind. *)
From stdpp Require Import strings.
From S2P Require Import Prelude Addressing Fingerprint Domain QspnPath QspnConfig.
From S2P Require Import QspnRevise.

Record ArcEntry := mkArcEntry { ae_cost : Cost; ae_peer_naddr : option Naddr }.

Abbreviation FpKey := (nat * list Z)%type (only parsing).
Definition fp_key (fp : Fp) : FpKey := (fp_level fp, fp_id fp).

Inductive Bootstrap :=
  | Complete
  | InProgress (guest_gnode_level host_gnode_level : nat).

Record InternalArc := mkInternalArc {
  ia_previous_arc : ArcId;
  ia_new_arc : ArcId;
  ia_peer_naddr : Naddr;
  ia_cost : Cost
}.

Record QspnState := mkQspnState {
  st_my_naddr : Naddr;
  st_my_fingerprints : list Fp;
  st_my_nodes_inside : list Z;
  st_arcs : gmap Z ArcEntry;
  st_destinations : list (gmap Z Destination);
  st_config : QspnConfig;
  st_pending_gnode_split : gset (FpKey * FpKey);
  st_bootstrap : Bootstrap;
  st_connectivity_from_level : nat;
  st_connectivity_to_level : nat
}.

(** Field assignments. *)
Definition set_my_naddr (s : QspnState) (x : Naddr) : QspnState :=
  mkQspnState x (st_my_fingerprints s) (st_my_nodes_inside s) (st_arcs s)
    (st_destinations s) (st_config s) (st_pending_gnode_split s) (st_bootstrap s)
    (st_connectivity_from_level s) (st_connectivity_to_level s).
Definition set_clusters (s : QspnState) (fps : list Fp) (nns : list Z) : QspnState :=
  mkQspnState (st_my_naddr s) fps nns (st_arcs s)
    (st_destinations s) (st_config s) (st_pending_gnode_split s) (st_bootstrap s)
    (st_connectivity_from_level s) (st_connectivity_to_level s).
Definition set_arcs (s : QspnState) (x : gmap Z ArcEntry) : QspnState :=
  mkQspnState (st_my_naddr s) (st_my_fingerprints s) (st_my_nodes_inside s) x
    (st_destinations s) (st_config s) (st_pending_gnode_split s) (st_bootstrap s)
    (st_connectivity_from_level s) (st_connectivity_to_level s).
Definition set_destinations (s : QspnState) (x : list (gmap Z Destination)) : QspnState :=
  mkQspnState (st_my_naddr s) (st_my_fingerprints s) (st_my_nodes_inside s) (st_arcs s)
    x (st_config s) (st_pending_gnode_split s) (st_bootstrap s)
    (st_connectivity_from_level s) (st_connectivity_to_level s).
Definition set_pending (s : QspnState) (x : gset (FpKey * FpKey)) : QspnState :=
  mkQspnState (st_my_naddr s) (st_my_fingerprints s) (st_my_nodes_inside s) (st_arcs s)
    (st_destinations s) (st_config s) x (st_bootstrap s)
    (st_connectivity_from_level s) (st_connectivity_to_level s).
Definition set_bootstrap (s : QspnState) (x : Bootstrap) : QspnState :=
  mkQspnState (st_my_naddr s) (st_my_fingerprints s) (st_my_nodes_inside s) (st_arcs s)
    (st_destinations s) (st_config s) (st_pending_gnode_split s) x
    (st_connectivity_from_level s) (st_connectivity_to_level s).
Definition set_connectivity (s : QspnState) (from to : nat) : QspnState :=
  mkQspnState (st_my_naddr s) (st_my_fingerprints s) (st_my_nodes_inside s) (st_arcs s)
    (st_destinations s) (st_config s) (st_pending_gnode_split s) (st_bootstrap s) from to.

(** ** Accessors *)
Definition st_levels (s : QspnState) : nat := topology_levels (na_topology (st_my_naddr s)).

Definition is_bootstrap_complete (s : QspnState) : bool :=
  match st_bootstrap s with Complete => true | InProgress _ _ => false end.

Definition guest_gnode_level (s : QspnState) : nat :=
  match st_bootstrap s with Complete => st_levels s | InProgress g _ => g end.

Definition host_gnode_level (s : QspnState) : option nat :=
  match st_bootstrap s with Complete => None | InProgress _ h => Some h end.

Definition exit_bootstrap (s : QspnState) : QspnState := set_bootstrap s Complete.

Definition is_main_identity (s : QspnState) : bool := st_connectivity_from_level s =? 0.

Definition connectivity_range (s : QspnState) : nat * nat :=
  (st_connectivity_from_level s, st_connectivity_to_level s).

Definition fingerprint (s : QspnState) (level : nat) : option Fp := st_my_fingerprints s !! level.

Definition my_eldership (s : QspnState) (level : nat) : option (option Z) :=
  if guest_gnode_level s <? level then None
  else (λ fp, pt_eldership (to_parts fp)) <$> fingerprint s level.

Definition nodes_inside_at (s : QspnState) (level : nat) : option Z := st_my_nodes_inside s !! level.

(** [self.arcs.keys()], ascending. *)
Definition arc_ids (s : QspnState) : list ArcId := (bt_iter (st_arcs s)).*1.

Definition contains_arc (s : QspnState) (arc : ArcId) : bool := bool_decide (is_Some (st_arcs s !! arc)).

Definition destination (s : QspnState) (level : nat) (pos : Z) : option Destination :=
  m ← st_destinations s !! level; m !! pos.

Definition peer_naddr (s : QspnState) (arc : ArcId) : option Naddr :=
  e ← st_arcs s !! arc; ae_peer_naddr e.

Definition arc_cost_in (arcs : gmap Z ArcEntry) (arc : ArcId) : Cost :=
  match arcs !! arc with Some e => ae_cost e | None => Dead end.
Definition arc_cost (s : QspnState) (arc : ArcId) : Cost := arc_cost_in (st_arcs s) arc.

Definition eldership (s : QspnState) (level : nat) (pos : Z) : res QspnError (option (option Z)) :=
  if (level <? st_levels s) && (guest_gnode_level s <=? level) then Err BootstrapInProgress
  else match destination s level pos with
       | None => Ok None
       | Some dest =>
           r ← map_err Common (evaluate dest (arc_cost s));
           Ok (Some (pt_eldership (to_parts r.1.1)))
       end.

(** ** The arc table *)
Definition add_arc (s : QspnState) (id : ArcId) (cost : Cost) : QspnState :=
  set_arcs s (<[id := mkArcEntry cost None]> (st_arcs s)).

Definition set_arc_cost (s : QspnState) (arc : ArcId) (cost : Cost) : QspnState :=
  match st_arcs s !! arc with
  | Some e => set_arcs s (<[arc := mkArcEntry cost (ae_peer_naddr e)]> (st_arcs s))
  | None => s
  end.

Definition record_peer_naddr (s : QspnState) (arc : ArcId) (new : Naddr) : QspnState * option Naddr :=
  match st_arcs s !! arc with
  | Some e => (set_arcs s (<[arc := mkArcEntry (ae_cost e) (Some new)]> (st_arcs s)), ae_peer_naddr e)
  | None => (s, None)
  end.

(** ** Removal of an arc *)

(** One destination: the paths of the arc leave, the others stay in order. *)
Definition via_arc (arc : ArcId) (np : NodePath) : bool := (np_arc np =? arc)%Z.

Definition strip_dest (arc : ArcId) (d : Destination) : option Destination :=
  match retain (λ np, negb (via_arc arc np)) (d_paths d) with
  | [] => None
  | kept => Some (mkDestination (d_coord d) kept)
  end.

Section WithOrder.
Context `{HashOrder}.

(** [self.destinations[level].values()] *)
Definition values (m : gmap Z Destination) : list Destination := (hm_iter m).*2.

(** [paths_via_arc0]: every path whose first arc is [arc]. *)
Definition paths_via_arc0 (s : QspnState) (arc : ArcId) : list NodePath :=
  retain (λ np, bool_decide (head (ep_arcs (np_path np)) = Some arc))
    (concat ((λ m, concat (d_paths <$> values m)) <$> st_destinations s)).

Definition all_paths_at (s : QspnState) (level : nat) : list NodePath :=
  match st_destinations s !! level with
  | Some m => concat (d_paths <$> values m)
  | None => []
  end.

(** The body of [remove_arc]'s loop over the levels: the stripped map, the
    events in emission order and the dead paths to announce. *)
Definition removed_paths (arc : ArcId) (m : gmap Z Destination) : list NodePath :=
  concat ((λ d, retain (via_arc arc) (d_paths d)) <$> values m).

Definition strip_level_events (arc : ArcId) (m : gmap Z Destination) : list QspnEvent :=
  ((λ np, PathRemoved (to_route_path np Dead)) <$> removed_paths arc m) ++
  ((λ d, DestinationRemoved (d_coord d)) <$>
     retain (λ d, bool_decide (retain (λ np, negb (via_arc arc np)) (d_paths d) = [])) (values m)).

Definition strip_level_dead (arc : ArcId) (m : gmap Z Destination) : list EtpPath :=
  (λ np, with_cost (prepare_for_sending np Dead) Dead) <$> removed_paths arc m.

Record RemoveArcOutcome := mkRemoveArcOutcome {
  ra_events : list QspnEvent;
  ra_dead_paths : list EtpPath
}.

Definition remove_arc (s : QspnState) (removed_arc : ArcId) : QspnState * RemoveArcOutcome :=
  match st_arcs s !! removed_arc with
  | None => (s, mkRemoveArcOutcome [] [])
  | Some _ =>
      (set_destinations (set_arcs s (delete removed_arc (st_arcs s)))
         ((λ m : gmap Z Destination, omap (strip_dest removed_arc) m) <$> st_destinations s),
       mkRemoveArcOutcome
         (concat (strip_level_events removed_arc <$> st_destinations s))
         (concat (strip_level_dead removed_arc <$> st_destinations s)))
  end.

(** ** Neighbouring g-nodes *)

(** The scan [for idx in 1..hops.len()]: the first hop that enters level [i]
    from below. *)
Fixpoint first_entry (i : nat) (y_prev : HCoord) (hops : list HCoord) : option HCoord :=
  match hops with
  | [] => None
  | y :: hops' =>
      if (hc_level y =? i) && (hc_level y_prev <? i) then Some y else first_entry i y hops'
  end.

(** [np.path.hops[0]] panics on an empty path. *)
Definition gnode_entry (i : nat) (hops : list HCoord) : res QspnError (option HCoord) :=
  match hops with
  | [] => Panic
  | y :: hops' => if hc_level y =? i then Ok (Some y) else Ok (first_entry i y hops')
  end.

(** [if !y_set.contains(&y) { y_set.push(y) }] *)
Definition push_new (y_set : list HCoord) (y : HCoord) : list HCoord :=
  if contains y y_set then y_set else y_set ++ [y].

(** The entry hops at level [i] of a list of paths, without repetitions. *)
Definition entry_hops (i : nat) (paths : list NodePath) : res QspnError (list HCoord) :=
  foldM (λ y_set np,
    e ← gnode_entry i (ep_hops (np_path np));
    Ok (match e with Some y => push_new y_set y | None => y_set end)) [] paths.

(** All the paths at levels [i..levels], in map order. *)
Definition paths_from_level (s : QspnState) (i : nat) : list NodePath :=
  concat (all_paths_at s <$> seq i (st_levels s - i)).

Definition my_gnode_neighbors (s : QspnState) (i : nat) : res QspnError (list HCoord) :=
  entry_hops i (paths_from_level s i).

(** ** Exposed paths and the snapshot *)
Definition exposed_paths (s : QspnState) (d : HCoord) : res QspnError (list NodePath) :=
  match destination s (hc_level d) (hc_pos d) with
  | None => Ok []
  | Some dest =>
      match d_paths dest with
      | [] => Ok []
      | _ =>
          if hc_level d =? 0 then Ok (d_paths dest)
          else
            r ← map_err Common (evaluate dest (arc_cost s));
            let '(valid_fp, valid_fp_nodes_inside, _) := r in
            Ok (retain (λ p, same_branch (np_fp p) valid_fp (ep_nodes_inside (np_path p))
                               valid_fp_nodes_inside) (d_paths dest))
      end
  end.

Definition snapshot_entry (s : QspnState) (d : Destination) : res QspnError (option RouteEntry) :=
  exposed ← exposed_paths s (d_coord d);
  Ok (match exposed with
      | [] => None
      | _ =>
          Some (mkRouteEntry (d_coord d)
            (sort_by (λ a b, cost_leb (rp_cost a) (rp_cost b))
               ((λ np, to_route_path np (arc_cost s (np_arc np))) <$> exposed)))
      end).

Definition snapshot (s : QspnState) : res QspnError RouteSnapshot :=
  levels ← mapM (λ lm : nat * gmap Z Destination,
      if guest_gnode_level s <=? lm.1 then Ok []
      else filter_mapM (snapshot_entry s) (values lm.2)) (enumerate (st_destinations s));
  Ok (mkRouteSnapshot levels).

(** ** update_clusters *)

(** The fingerprints and the node count of the known destinations at
    [child_level]. *)
Definition cluster_step (s : QspnState) (child_level : nat) (acc : list Fp * Z) (d : Destination)
    : res QspnError (list Fp * Z) :=
  r ← map_err Common (evaluate d (arc_cost s));
  let '(fp, nn, _) := r in
  nn_tot ← u64_add acc.2 (if child_level =? 0 then 1%Z else nn);
  Ok (acc.1 ++ [fp], nn_tot).

Definition cluster_children (s : QspnState) (child_level : nat) : res QspnError (list Fp * Z) :=
  m ← expect (st_destinations s !! child_level);
  foldM (cluster_step s child_level) ([], 0%Z) (values m).

(** One iteration, for level [i >= 1]. *)
Definition cluster_level (s : QspnState) (i : nat) : res QspnError (QspnState * list QspnEvent) :=
  let child_level := i - 1 in
  fp_nn ← cluster_children s child_level;
  let is_null_eldership := default false (is_virtual_at (st_my_naddr s) child_level) in
  mine ← expect (st_my_fingerprints s !! child_level);
  new_fp ← map_err Common (construct mine fp_nn.1 is_null_eldership);
  old_fp ← expect (st_my_fingerprints s !! i);
  my_nn ← expect (st_my_nodes_inside s !! child_level);
  total ← u64_add my_nn fp_nn.2;
  let new_nn := Z.min total U32_MAX in
  old_nn ← expect (st_my_nodes_inside s !! i);
  Ok (set_clusters s (<[i := new_fp]> (st_my_fingerprints s)) (<[i := new_nn]> (st_my_nodes_inside s)),
      (if identity_eq new_fp old_fp then [] else [ChangedFingerprint i]) ++
      (if (new_nn =? old_nn)%Z then [] else [ChangedNodesInside i])).

Definition update_clusters (s : QspnState) : QspnState * res QspnError (list QspnEvent) :=
  foldS (λ s events i,
    match cluster_level s i with
    | Ok (s', evs) => (s', Ok (events ++ evs))
    | Err e => (s, Err e)
    | Panic => (s, Panic)
    end) s [] (seq 1 (st_levels s)).

(** ** Constructors *)
Fixpoint fingerprint_chain (fp : Fp) (n : nat) : res QspnError (list Fp) :=
  match n with
  | 0 => Ok [fp]
  | S n' =>
      match construct fp [] false with
      | Ok next => rest ← fingerprint_chain next n'; Ok (fp :: rest)
      | _ => Panic
      end
  end.

Definition initial_fingerprint_chain (my_fingerprint : Fp) (levels : nat)
    : res QspnError (list Fp * list Z) :=
  fps ← fingerprint_chain my_fingerprint levels;
  Ok (fps, replicate (S levels) 1%Z).

Definition state_new (my_naddr : Naddr) (my_fingerprint : Fp) (config : QspnConfig)
    : res QspnError QspnState :=
  let levels := topology_levels (na_topology my_naddr) in
  chain ← initial_fingerprint_chain my_fingerprint levels;
  Ok (mkQspnState my_naddr chain.1 chain.2 ∅ (replicate levels ∅) config ∅ Complete 0 0).

(** [path.arcs[0] = new_arc], for the paths whose arc survives. *)
Definition import_path (remap : gmap Z ArcId) (np : NodePath) : res QspnError (option NodePath) :=
  match remap !! np_arc np with
  | None => Ok None
  | Some new_arc =>
      let p := np_path np in
      match ep_arcs p with
      | [] => Panic
      | _ :: rest =>
          Ok (Some (mkNodePath new_arc
            (mkEtpPath (ep_hops p) (new_arc :: rest) (ep_cost p) (ep_fingerprint p)
               (ep_nodes_inside p) (ep_ignore_outside p)) (np_exposed np)))
      end
  end.

Definition import_level (remap : gmap Z ArcId) (m : gmap Z Destination)
    : res QspnError (gmap Z Destination) :=
  foldM (λ acc (pd : Z * Destination),
    paths ← filter_mapM (import_path remap) (d_paths pd.2);
    Ok (match paths with
        | [] => acc
        | _ => <[pd.1 := mkDestination (d_coord pd.2) paths]> acc
        end)) ∅ (hm_iter m).

Definition import_arcs (internal_arcs : list InternalArc) (external_arcs : list (ArcId * Cost))
    : gmap Z ArcEntry :=
  foldl (λ arcs e, <[e.1 := mkArcEntry e.2 None]> arcs)
    (foldl (λ arcs a, <[ia_new_arc a := mkArcEntry (ia_cost a) (Some (ia_peer_naddr a))]> arcs)
       ∅ internal_arcs) external_arcs.

Definition arc_remap (internal_arcs : list InternalArc) : gmap Z ArcId :=
  foldl (λ m a, <[ia_previous_arc a := ia_new_arc a]> m) ∅ internal_arcs.

Definition new_entering (my_naddr : Naddr) (my_fingerprint : Fp) (config : QspnConfig)
    (internal_arcs : list InternalArc) (external_arcs : list (ArcId * Cost))
    (guest_gnode_level host_gnode_level : nat) (connectivity : nat * nat)
    (previous_destinations : list (gmap Z Destination)) : res QspnError QspnState :=
  let levels := topology_levels (na_topology my_naddr) in
  if negb (host_gnode_level <=? levels) then Panic
  else if negb (guest_gnode_level <? host_gnode_level) then Panic
  else if negb (connectivity.1 <? S guest_gnode_level) then Panic
  else
    let connectivity_to_level := Nat.min connectivity.2 guest_gnode_level in
    imported ← mapM (import_level (arc_remap internal_arcs))
                 (take guest_gnode_level previous_destinations);
    chain ← initial_fingerprint_chain my_fingerprint levels;
    let state := mkQspnState my_naddr chain.1 chain.2
      (import_arcs internal_arcs external_arcs)
      (imported ++ replicate (levels - length imported) ∅) config ∅
      (InProgress guest_gnode_level host_gnode_level) connectivity.1 connectivity_to_level in
    match update_clusters state with
    | (s, Ok _) => Ok s
    | (_, Err e) => Err e
    | (_, Panic) => Panic
    end.
End WithOrder.

(** ** The state invariant *)

(** An admitted path: well formed for its destination, alive, and leaving by an
    arc this node has. *)
Definition admitted (my : Naddr) (arcs : gmap Z ArcEntry) (d : HCoord) (np : NodePath) : Prop :=
  np_wf my d np ∧ ep_cost (np_path np) ≠ Dead ∧ is_Some (arcs !! np_arc np).

Definition route_of (np : NodePath) : list HCoord * list ArcId :=
  (ep_hops (np_path np), ep_arcs (np_path np)).

(** The hard bound on the paths of one destination. *)
Definition path_bound (c : QspnConfig) : Z := usize_saturating_mul (max_paths c) 4.

Record paths_wf (my : Naddr) (arcs : gmap Z ArcEntry) (c : QspnConfig) (d : HCoord)
    (paths : list NodePath) : Prop := {
  ps_admitted : Forall (admitted my arcs d) paths;
  ps_routes : NoDup (route_of <$> paths);
  ps_bound : (Z.of_nat (length paths) ≤ path_bound c)%Z
}.

Record dest_wf (my : Naddr) (arcs : gmap Z ArcEntry) (c : QspnConfig) (l : nat) (pos : Z)
    (d : Destination) : Prop := {
  dw_coord : d_coord d = mkHCoord l pos;
  dw_pos : is_u32 pos;
  dw_nonempty : d_paths d ≠ [];
  dw_paths : paths_wf my arcs c (mkHCoord l pos) (d_paths d)
}.

Definition peer_wf (my : Naddr) (o : option Naddr) : Prop :=
  ∀ a, o = Some a → naddr_wf a ∧ na_topology a = na_topology my.

(** This node's own fingerprint chain: one well-formed fingerprint per level,
    with enough pending claims to climb to the top. *)
Definition chain_wf (levels : nat) (fps : list Fp) (nns : list Z) : Prop :=
  length fps = S levels ∧ length nns = S levels ∧ Forall is_u32 nns ∧
  ∀ l fp, fps !! l = Some fp → fp_wf fp ∧ fp_level fp = l ∧ levels ≤ l + length (fp_pending_elderships fp).

Record state_wf (s : QspnState) : Prop := {
  sw_naddr : naddr_wf (st_my_naddr s);
  sw_chain : chain_wf (st_levels s) (st_my_fingerprints s) (st_my_nodes_inside s);
  sw_arcs : ∀ a e, st_arcs s !! a = Some e → peer_wf (st_my_naddr s) (ae_peer_naddr e);
  sw_costs : ∀ a e, st_arcs s !! a = Some e → cost_wf (ae_cost e);
  sw_levels : length (st_destinations s) = st_levels s;
  sw_config : is_u64 (max_paths (st_config s));
  sw_dests : ∀ l m pos d, st_destinations s !! l = Some m → m !! pos = Some d →
    dest_wf (st_my_naddr s) (st_arcs s) (st_config s) l pos d
}.

(** ** Lemmas *)
Lemma max_paths_bound s : state_wf s → (max_paths (st_config s) ≤ path_bound (st_config s))%Z.
Proof.
  intros Hs. pose proof (sw_config s Hs) as [? ?]. unfold path_bound, usize_saturating_mul. lia.
Qed.

Lemma path_bound_nonneg s : state_wf s → (0 ≤ path_bound (st_config s))%Z.
Proof. intros Hs. pose proof (max_paths_bound s Hs). pose proof (sw_config s Hs) as [? ?]. lia. Qed.

Lemma arc_cost_wf s a : state_wf s → cost_wf (arc_cost s a).
Proof.
  intros Hs. unfold arc_cost, arc_cost_in. destruct (st_arcs s !! a) eqn:E; [|done]. by eapply sw_costs.
Qed.

Lemma admitted_fp_level my arcs d np : admitted my arcs d np → fp_level (np_fp np) = hc_level d.
Proof. intros [[[] _] _]. done. Qed.

Lemma paths_wf_fps_at my arcs c d paths :
  paths_wf my arcs c d paths → fps_at (hc_level d) paths.
Proof.
  intros [H _ _]. eapply Forall_impl; [exact H|]. intros np. apply admitted_fp_level.
Qed.

Lemma dest_wf_evaluable my arcs c l pos d : dest_wf my arcs c l pos d → paths_evaluable d.
Proof.
  intros [Hc _ Hn Hp]. split; [done|]. rewrite Hc. by eapply paths_wf_fps_at.
Qed.
#[export] Hint Resolve dest_wf_evaluable : ntk.

Section Lemmas.
Context `{HashOrder}.
Implicit Types s : QspnState.

Lemma destination_Some s l pos d :
  destination s l pos = Some d ↔ ∃ m, st_destinations s !! l = Some m ∧ m !! pos = Some d.
Proof. unfold destination. rewrite bind_Some. naive_solver. Qed.

Lemma destination_wf s l pos d :
  state_wf s → destination s l pos = Some d →
  dest_wf (st_my_naddr s) (st_arcs s) (st_config s) l pos d.
Proof. intros Hs (m & Hm & Hd)%destination_Some. by eapply sw_dests. Qed.

Lemma evaluate_dest_Ok s l m pos d :
  state_wf s → st_destinations s !! l = Some m → m !! pos = Some d →
  is_Ok (evaluate d (arc_cost s)).
Proof. intros Hs Hm Hd. apply evaluate_is_Ok. eapply dest_wf_evaluable. by eapply sw_dests. Qed.

Lemma elem_of_values (m : gmap Z Destination) d : d ∈ values m ↔ ∃ pos, m !! pos = Some d.
Proof. apply elem_of_hm_values. Qed.

Lemma elem_of_all_paths_at s l np :
  np ∈ all_paths_at s l ↔ ∃ m pos d, st_destinations s !! l = Some m ∧ m !! pos = Some d ∧ np ∈ d_paths d.
Proof.
  unfold all_paths_at. destruct (st_destinations s !! l) as [m|] eqn:Hm.
  - rewrite elem_of_concat_fmap. setoid_rewrite elem_of_values. split.
    + intros (d & (pos & Hd) & Hnp). eauto 10.
    + intros (m' & pos & d & [= <-] & Hd & Hnp). eauto.
  - split; [by intros ?%elem_of_nil|naive_solver].
Qed.

(** A path of the map, with its destination. *)
Definition in_map s (d : HCoord) (np : NodePath) : Prop :=
  ∃ dest, destination s (hc_level d) (hc_pos d) = Some dest ∧ np ∈ d_paths dest.

Lemma in_map_admitted s d np :
  state_wf s → in_map s d np → admitted (st_my_naddr s) (st_arcs s) d np.
Proof.
  intros Hs (dest & Hd & Hnp). eapply destination_wf in Hd as [_ _ _ [Hp _ _]]; [|done].
  rewrite Forall_forall in Hp. destruct d. by apply Hp.
Qed.

Lemma all_paths_at_in_map s l np : np ∈ all_paths_at s l ↔ ∃ pos, in_map s (mkHCoord l pos) np.
Proof.
  rewrite elem_of_all_paths_at. unfold in_map. cbn. setoid_rewrite destination_Some. naive_solver.
Qed.

Lemma paths_via_arc0_in_map s arc np :
  np ∈ paths_via_arc0 s arc ↔ head (ep_arcs (np_path np)) = Some arc ∧ ∃ d, in_map s d np.
Proof.
  unfold paths_via_arc0. rewrite elem_of_retain, elem_of_concat_fmap, bool_decide_eq_true.
  setoid_rewrite elem_of_concat_fmap. setoid_rewrite elem_of_values.
  unfold in_map. setoid_rewrite destination_Some. split.
  - intros [(m & [l Hm]%list_elem_of_lookup & d & (pos & Hd) & Hnp) Hh]. split; [done|].
    exists (mkHCoord l pos), d. eauto.
  - intros [Hh (d & dest & (m & Hm & Hd) & Hnp)]. split; [|done].
    exists m. split; [by eapply list_elem_of_lookup_2|]. eauto.
Qed.

(** *** The arc table *)
Lemma state_wf_set_arcs s arcs :
  state_wf s → dom (st_arcs s) ⊆ dom arcs →
  (∀ a e, arcs !! a = Some e → peer_wf (st_my_naddr s) (ae_peer_naddr e)) →
  (∀ a e, arcs !! a = Some e → cost_wf (ae_cost e)) →
  state_wf (set_arcs s arcs).
Proof.
  intros [Hn Hc Ha Hco Hl Hcf Hd] Hdom Hp Hp'. constructor; [done..|].
  intros l m pos d Hm Hpos. destruct (Hd l m pos d Hm Hpos) as [? ? ? [Hadm ? ?]].
  constructor; [done..|]. constructor; [|done..].
  eapply Forall_impl; [exact Hadm|]. intros np (? & ? & Hs). split_and!; [done..|].
  cbn. apply elem_of_dom. apply elem_of_dom in Hs. set_solver.
Qed.

Lemma add_arc_wf s id cost : state_wf s → cost_wf cost → state_wf (add_arc s id cost).
Proof.
  intros Hs Hc. apply state_wf_set_arcs; [done|set_solver|..];
    intros a e [[<- <-]|[? He]]%lookup_insert_Some; [by intros ?|by eapply sw_arcs|done|by eapply sw_costs].
Qed.

Lemma set_arc_cost_wf s arc cost : state_wf s → cost_wf cost → state_wf (set_arc_cost s arc cost).
Proof.
  intros Hs Hc. unfold set_arc_cost. destruct (st_arcs s !! arc) as [e|] eqn:He; [|done].
  apply state_wf_set_arcs; [done|set_solver|..]; intros a e' [[<- <-]|[? He']]%lookup_insert_Some;
    [exact (sw_arcs _ Hs _ _ He)|by eapply sw_arcs|done|by eapply sw_costs].
Qed.

Lemma record_peer_naddr_wf s arc new :
  state_wf s → naddr_wf new → na_topology new = na_topology (st_my_naddr s) →
  state_wf (record_peer_naddr s arc new).1 ∧
  peer_wf (st_my_naddr s) (record_peer_naddr s arc new).2.
Proof.
  intros Hs Hn Ht. unfold record_peer_naddr.
  destruct (st_arcs s !! arc) as [e|] eqn:He; [|done]. split; [|by eapply sw_arcs].
  apply state_wf_set_arcs; [done|set_solver|..]; intros a e' [[<- <-]|[? He']]%lookup_insert_Some;
    [by intros a' [= <-]|by eapply sw_arcs|exact (sw_costs _ Hs _ _ He)|by eapply sw_costs].
Qed.

(** *** Removal of an arc *)
Lemma strip_dest_Some arc d d' :
  strip_dest arc d = Some d' ↔
  d' = mkDestination (d_coord d) (retain (λ np, negb (via_arc arc np)) (d_paths d)) ∧ d_paths d' ≠ [].
Proof. unfold strip_dest. destruct (retain _ _) eqn:E; naive_solver. Qed.

Lemma remove_arc_arcs s arc : st_arcs (remove_arc s arc).1 = delete arc (st_arcs s).
Proof.
  unfold remove_arc. destruct (st_arcs s !! arc) eqn:E; cbn; [done|]. by rewrite delete_id.
Qed.

Lemma remove_arc_frame s arc :
  let s' := (remove_arc s arc).1 in
  st_my_naddr s' = st_my_naddr s ∧ st_my_fingerprints s' = st_my_fingerprints s ∧
  st_my_nodes_inside s' = st_my_nodes_inside s ∧ st_config s' = st_config s ∧
  st_pending_gnode_split s' = st_pending_gnode_split s ∧ st_bootstrap s' = st_bootstrap s ∧
  connectivity_range s' = connectivity_range s ∧
  length (st_destinations s') = length (st_destinations s).
Proof.
  unfold remove_arc. destruct (st_arcs s !! arc); cbn; [|done]. by rewrite length_fmap.
Qed.

Lemma remove_arc_destination s arc l pos :
  is_Some (st_arcs s !! arc) →
  destination (remove_arc s arc).1 l pos = destination s l pos ≫= strip_dest arc.
Proof.
  intros [e He]. unfold remove_arc. rewrite He. unfold destination. cbn.
  rewrite list_lookup_fmap. destruct (st_destinations s !! l) as [m|]; cbn; [|done].
  by rewrite lookup_omap.
Qed.

Lemma remove_arc_wf s arc : state_wf s → state_wf (remove_arc s arc).1.
Proof.
  intros Hs. destruct (remove_arc_frame s arc) as (En & Ef & Enn & Ec & _ & _ & _ & El).
  constructor.
  - rewrite En. apply Hs.
  - unfold st_levels. rewrite En, Ef, Enn. apply Hs.
  - intros a e. rewrite remove_arc_arcs, En. intros [_ He]%lookup_delete_Some. by eapply sw_arcs.
  - intros a e. rewrite remove_arc_arcs. intros [_ He]%lookup_delete_Some. by eapply sw_costs.
  - unfold st_levels. rewrite En, El. apply Hs.
  - rewrite Ec. apply Hs.
  - intros l m pos d Hm Hd. assert (Hdest : destination (remove_arc s arc).1 l pos = Some d)
      by (apply destination_Some; eauto).
    rewrite remove_arc_arcs, En, Ec. destruct (st_arcs s !! arc) as [e|] eqn:He.
    + rewrite remove_arc_destination in Hdest by eauto.
      apply bind_Some in Hdest as (d0 & Hd0 & [-> Hne]%strip_dest_Some).
      eapply destination_wf in Hd0 as [Hco Hpos _ [Hadm Hnd Hb]]; [|done].
      constructor; [done..|]. cbn. pose proof (retain_sublist (λ np, negb (via_arc arc np)) (d_paths d0)) as Hsub.
      constructor.
      * apply Forall_forall. intros np [Hin Hv]%elem_of_retain. rewrite Forall_forall in Hadm.
        destruct (Hadm np Hin) as (? & ? & ?). split_and!; [done..|].
        apply negb_true_iff, Z.eqb_neq in Hv. by rewrite lookup_delete_ne.
      * eapply sublist_NoDup; [exact Hnd|]. by apply fmap_sublist.
      * apply sublist_length in Hsub. lia.
    + rewrite delete_id by done. unfold remove_arc in Hdest. rewrite He in Hdest.
      by apply destination_wf in Hdest.
Qed.

(** After the removal exactly the paths that do not leave by the arc remain. *)
Lemma remove_arc_in_map s arc d np :
  is_Some (st_arcs s !! arc) →
  in_map (remove_arc s arc).1 d np ↔ in_map s d np ∧ np_arc np ≠ arc.
Proof.
  intros Ha. unfold in_map. setoid_rewrite remove_arc_destination; [|done].
  setoid_rewrite bind_Some. setoid_rewrite strip_dest_Some. split.
  - intros (dest & (d0 & Hd0 & -> & Hne) & [Hin Hv]%elem_of_retain).
    apply negb_true_iff, Z.eqb_neq in Hv. split; [exists d0; by rewrite <-destination_Some|done].
  - intros [(d0 & Hd0 & Hin) Hv]. eexists. split; [exists d0; split; [by apply destination_Some|split; [done|]]|].
    + cbn. intros Hnil. apply (not_elem_of_nil np). rewrite <-Hnil. apply elem_of_retain.
      split; [done|]. by apply negb_true_iff, Z.eqb_neq.
    + apply elem_of_retain. split; [done|]. by apply negb_true_iff, Z.eqb_neq.
Qed.

(** *** Scans of the map never panic *)
Lemma gnode_entry_Ok i hops : hops ≠ [] → is_Ok (gnode_entry i hops).
Proof. destruct hops as [|h hops]; [done|]. cbn. destruct (_ =? _); eauto with ntk. Qed.

Lemma np_wf_hops my d np : np_wf my d np → ep_hops (np_path np) ≠ [].
Proof. intros [[Hl] _] E. by rewrite E in Hl. Qed.

Lemma entry_hops_Ok i paths :
  (∀ np, np ∈ paths → ep_hops (np_path np) ≠ []) → is_Ok (entry_hops i paths).
Proof.
  intros Hp. unfold entry_hops, is_Ok.
  edestruct (foldM_total (E:=QspnError)
    (λ (y_set : list HCoord) (np : NodePath), e ← gnode_entry i (ep_hops (np_path np));
       Ok (match e with Some y => push_new y_set y | None => y_set end)) (λ _, True) [] paths)
    as (r & Hr & _); [done| |by exists r].
  intros c np Hnp _. destruct (gnode_entry_Ok i (ep_hops (np_path np))) as [e He]; [by apply Hp|].
  rewrite He. cbn. eauto.
Qed.

Lemma my_gnode_neighbors_Ok s i : state_wf s → is_Ok (my_gnode_neighbors s i).
Proof.
  intros Hs. apply entry_hops_Ok. intros np. unfold paths_from_level.
  rewrite elem_of_concat_fmap. intros (l & _ & (pos & Hin)%all_paths_at_in_map).
  eapply np_wf_hops. by apply in_map_admitted in Hin as [? _].
Qed.

Lemma exposed_paths_Ok s d : state_wf s → is_Ok (exposed_paths s d).
Proof.
  intros Hs. unfold exposed_paths. destruct (destination s _ _) as [dest|] eqn:Hd; [|eauto with ntk].
  destruct (d_paths dest) eqn:Hp; [eauto with ntk|]. rewrite <-Hp. destruct (_ =? 0); [eauto with ntk|].
  destruct (evaluate_is_Ok dest (arc_cost s)) as [[[fp nn] i] ->]; [|cbn; eauto with ntk].
  eapply dest_wf_evaluable. by eapply destination_wf.
Qed.

Lemma filter_mapM_is_Ok {E A B} (f : A → res E (option B)) l :
  (∀ a, a ∈ l → is_Ok (f a)) → is_Ok (filter_mapM f l).
Proof.
  induction l as [|a l IH]; intros Hf; cbn; [eauto with ntk|].
  destruct (Hf a) as [o ->]; [by left|]. cbn.
  destruct IH as [bs ->]; [intros; apply Hf; by right|]. cbn. eauto with ntk.
Qed.

Lemma snapshot_entry_Ok s d : state_wf s → is_Ok (snapshot_entry s d).
Proof.
  intros Hs. unfold snapshot_entry. destruct (exposed_paths_Ok s (d_coord d) Hs) as [e ->].
  cbn. eauto with ntk.
Qed.

Lemma snapshot_Ok s : state_wf s → is_Ok (snapshot s).
Proof.
  intros Hs. unfold snapshot. apply bind_is_Ok; [|eauto with ntk]. apply mapM_is_Ok.
  intros [l m] _. cbn. destruct (_ <=? _); [eauto with ntk|]. apply filter_mapM_is_Ok.
  intros d _. by apply snapshot_entry_Ok.
Qed.

(** *** update_clusters *)
Definition same_but_clusters (s s' : QspnState) : Prop :=
  s' = set_clusters s (st_my_fingerprints s') (st_my_nodes_inside s').

Lemma same_but_clusters_refl s : same_but_clusters s s.
Proof. by destruct s. Qed.

Lemma state_wf_set_clusters s fps nns :
  state_wf s → chain_wf (st_levels s) fps nns → state_wf (set_clusters s fps nns).
Proof. intros [] ?. by constructor. Qed.

Definition children_at (i : nat) (fps : list Fp) : Prop :=
  Forall fp_wf fps ∧ Forall (λ f, fp_level f = i) fps.

Lemma cluster_step_Ok s i m pos d acc :
  state_wf s → st_destinations s !! i = Some m → m !! pos = Some d →
  (0 ≤ acc.2)%Z → (acc.2 + U32_MAX ≤ U64_MAX)%Z →
  ∃ fp x, cluster_step s i acc d = Ok (acc.1 ++ [fp], (acc.2 + x)%Z) ∧
    (0 ≤ x ≤ U32_MAX)%Z ∧ fp_wf fp ∧ fp_level fp = i.
Proof.
  intros Hs Hm Hpos H0 Hb. pose proof (sw_dests s Hs i m pos d Hm Hpos) as Hdw.
  destruct (evaluate_spec d (arc_cost s)) as (fp & nn & k & p & Hev & Hk & -> & _ & (q & Hq & ->) & _);
    [eauto with ntk|].
  destruct Hdw as [Hco _ _ [Hadm _ _]]. rewrite Forall_forall in Hadm.
  destruct (Hadm q Hq) as ([[_ _ _ Hqi _ (_ & _ & Hqw & _)] _] & _).
  destruct (Hadm p) as ([[_ _ _ _ _ (_ & _ & _ & Hpn)] _] & _); [by eapply list_elem_of_lookup_2|].
  exists (np_fp q), (if i =? 0 then 1%Z else ep_nodes_inside (np_path p)).
  assert (0 ≤ (if (i =? 0)%nat then 1 else ep_nodes_inside (np_path p)) ≤ U32_MAX)%Z as Hx.
  { destruct (i =? 0); [unfold U32_MAX; lia|exact Hpn]. }
  split_and!; [|apply Hx..|done|done].
  unfold cluster_step. rewrite Hev. cbn [map_err mbind res_bind]. unfold u64_add.
  by rewrite (proj2 (Z.leb_le _ _)) by lia.
Qed.

Lemma cluster_steps_Ok s i m ds acc :
  state_wf s → st_destinations s !! i = Some m → (∀ d, d ∈ ds → ∃ pos, m !! pos = Some d) →
  children_at i acc.1 → (0 ≤ acc.2)%Z → (acc.2 + Z.of_nat (length ds) * U32_MAX ≤ U64_MAX)%Z →
  ∃ fps tot, foldM (cluster_step s i) acc ds = Ok (fps, tot) ∧
    (0 ≤ tot ≤ acc.2 + Z.of_nat (length ds) * U32_MAX)%Z ∧ children_at i fps.
Proof.
  intros Hs Hm. revert acc. induction ds as [|d ds IH]; intros acc Hds Hw H0 Hb.
  { exists acc.1, acc.2. destruct acc. cbn in *. split_and!; [done|lia|lia|done]. }
  destruct (Hds d) as [pos Hpos]; [by left|]. cbn [length] in Hb.
  destruct (cluster_step_Ok s i m pos d acc) as (fp & x & Hst & Hx & Hfw & Hfl); [done..|unfold U32_MAX in *; lia|].
  cbn [foldM]. rewrite Hst. cbn [mbind res_bind].
  destruct (IH (acc.1 ++ [fp], (acc.2 + x)%Z)) as (fps & tot & -> & ? & ?); cbn [fst snd].
  - intros d' Hd'. apply Hds. by right.
  - destruct Hw. split; apply Forall_app; by split; [|constructor].
  - lia.
  - lia.
  - exists fps, tot. cbn [length fst snd] in *. split_and!; [done|lia|lia|done].
Qed.

(** The sum over a level's destinations cannot overflow: there are at most
    [2^32] of them and each counts below [2^32]. *)
Lemma cluster_children_Ok s i m :
  state_wf s → st_destinations s !! i = Some m →
  ∃ fps tot, cluster_children s i = Ok (fps, tot) ∧
    (0 ≤ tot ≤ Z.of_nat (size m) * U32_MAX)%Z ∧ Forall fp_wf fps ∧ Forall (λ f, fp_level f = i) fps.
Proof.
  intros Hs Hm. unfold cluster_children. rewrite Hm. cbn.
  assert (Hsz : (Z.of_nat (size m) ≤ 2 ^ 32)%Z).
  { transitivity (Z.max 0 (2 ^ 32)); [|done]. apply size_bounded_keys. intros k d Hk.
    eapply sw_dests in Hk as [_ [? ?] _ _]; [|done..]. unfold U32_MAX in *. lia. }
  assert (length (values m) = size m) as Hlen by (unfold values; by rewrite length_fmap, length_hm_iter).
  destruct (cluster_steps_Ok s i m (values m) ([], 0%Z)) as (fps & tot & Hf & Ht & ?); [done..| | | | |].
  - intros d. apply elem_of_values.
  - split; constructor.
  - done.
  - rewrite Hlen. cbn. unfold U32_MAX, U64_MAX. lia.
  - rewrite Hlen in Ht. cbn [snd] in Ht. exists fps, tot. split; [done|]. split; [lia|done].
Qed.

Lemma chain_wf_insert levels fps nns i fp nn :
  chain_wf levels fps nns → fp_wf fp → fp_level fp = i →
  levels ≤ i + length (fp_pending_elderships fp) → is_u32 nn →
  chain_wf levels (<[i := fp]> fps) (<[i := nn]> nns).
Proof.
  intros (Hl & Hn & Hu & Hf) Hw Hi Hp Hnn. unfold chain_wf. rewrite !length_insert.
  split_and!; [done..| |].
  - apply Forall_lookup. intros j x Hj. rewrite Forall_lookup in Hu.
    apply list_lookup_insert_Some in Hj as [(_ & <- & _)|[_ Hj]]; [done|by eapply Hu].
  - intros l f Hlf. apply list_lookup_insert_Some in Hlf as [(-> & <- & _)|[_ Hlf]]; [done|].
    by apply Hf.
Qed.

Lemma cluster_level_Ok s i :
  state_wf s → 1 ≤ i ≤ st_levels s →
  ∃ s' evs, cluster_level s i = Ok (s', evs) ∧ state_wf s' ∧ same_but_clusters s s' ∧
    (∀ l, l ≠ i → st_my_fingerprints s' !! l = st_my_fingerprints s !! l).
Proof.
  intros Hs Hi. pose proof (sw_chain s Hs) as Hch. destruct Hch as (Hfl & Hnl & Hnu & Hfp) eqn:E; clear E.
  assert (is_Some (st_destinations s !! (i - 1))) as [m Hm].
  { apply lookup_lt_is_Some. rewrite (sw_levels s Hs). lia. }
  destruct (cluster_children_Ok s (i - 1) m) as (fps & tot & Hcc & Htot & Hfw & Hfl'); [done..|].
  destruct (lookup_lt_is_Some_2 (st_my_fingerprints s) (i - 1)) as [mine Hmine]; [lia|].
  destruct (lookup_lt_is_Some_2 (st_my_fingerprints s) i) as [old Hold]; [lia|].
  destruct (lookup_lt_is_Some_2 (st_my_nodes_inside s) (i - 1)) as [my_nn Hnn]; [lia|].
  destruct (lookup_lt_is_Some_2 (st_my_nodes_inside s) i) as [old_nn Honn]; [lia|].
  destruct (Hfp _ _ Hmine) as (Hmw & Hml & Hmp).
  destruct (construct_is_Ok mine fps (default false (is_virtual_at (st_my_naddr s) (i - 1))))
    as [new_fp Hnew]; [lia|].
  assert (is_u32 my_nn) as Hmu by (rewrite Forall_lookup in Hnu; by eapply Hnu).
  assert (Z.of_nat (size m) ≤ 2 ^ 32)%Z as Hsz.
  { transitivity (Z.max 0 (2 ^ 32)); [|done]. apply size_bounded_keys. intros k d Hk.
    eapply sw_dests in Hk as [_ [? ?] _ _]; [|done..]. unfold U32_MAX in *. lia. }
  assert (0 ≤ my_nn + tot ≤ U64_MAX)%Z as Hov.
  { unfold is_u32, U32_MAX, U64_MAX in *. nia. }
  unfold cluster_level. rewrite Hcc. cbn. rewrite Hmine. cbn. rewrite Hnew. cbn. rewrite Hold. cbn.
  rewrite Hnn. cbn. unfold u64_add. rewrite (proj2 (Z.leb_le _ _) (proj2 Hov)). cbn.
  rewrite Honn. cbn. eexists _, _. split; [done|].
  destruct (construct_Ok _ _ _ _ Hnew) as (claim & seed & _ & Hlv & Hpend & _).
  split_and!; [|done|].
  - apply state_wf_set_clusters; [done|]. apply chain_wf_insert; [done| | | |].
    + eapply construct_wf_lemma; [exact Hmw|exact Hfw| |exact Hnew].
      eapply Forall_impl; [exact Hfl'|]. cbn. congruence.
    + lia.
    + rewrite Hpend in Hmp. cbn in Hmp. lia.
    + unfold is_u32, U32_MAX in *. lia.
  - intros l Hl. cbn. by rewrite list_lookup_insert_ne.
Qed.

Lemma same_but_clusters_trans s1 s2 s3 :
  same_but_clusters s1 s2 → same_but_clusters s2 s3 → same_but_clusters s1 s3.
Proof. unfold same_but_clusters. intros -> ->. by destruct s1. Qed.

(** Recomputing the clusters of a well-formed state neither fails nor panics,
    and changes nothing but this node's own fingerprints and node counts. *)
Lemma update_clusters_Ok s :
  state_wf s →
  ∃ s' evs, update_clusters s = (s', Ok evs) ∧ state_wf s' ∧ same_but_clusters s s'.
Proof.
  intros Hs. unfold update_clusters.
  edestruct (foldS_total (λ (s : QspnState) (events : list QspnEvent) (i : nat),
    match cluster_level s i with
    | Ok (s', evs) => (s', Ok (events ++ evs))
    | Err e => (s, Err e)
    | Panic => (s, Panic)
    end) (λ s' _, state_wf s' ∧ same_but_clusters s s') s [] (seq 1 (st_levels s)))
    as (s' & evs & Hf & Hw & Hsb); [split; [done|apply same_but_clusters_refl]| |eauto].
  intros s1 b i Hi%elem_of_seq [Hw Hsb]. destruct (cluster_level_Ok s1 i) as (s2 & evs & -> & ? & ? & _).
  - done.
  - rewrite Hsb. cbn. unfold st_levels. cbn. fold (st_levels s). lia.
  - eexists _, _. split; [done|]. split; [done|]. by eapply same_but_clusters_trans.
Qed.

(** *** The constructor of a fresh network *)
Lemma fingerprint_chain_Ok fp n :
  fp_wf fp → n ≤ length (fp_pending_elderships fp) →
  ∃ fps, fingerprint_chain fp n = Ok fps ∧ length fps = S n ∧
    ∀ l f, fps !! l = Some f → fp_wf f ∧ fp_level f = fp_level fp + l ∧
      length (fp_pending_elderships fp) = l + length (fp_pending_elderships f).
Proof.
  revert fp. induction n as [|n IH]; intros fp Hw Hp; cbn.
  { exists [fp]. split_and!; [done..|]. intros [|l] f Hl; simplify_eq/=. split_and!; [done|lia..]. }
  destruct (construct_is_Ok fp [] false) as [next Hn]; [lia|]. rewrite Hn.
  destruct (construct_Ok _ _ _ _ Hn) as (claim & seed & _ & Hlv & Hpend & _).
  assert (length (fp_pending_elderships fp) = S (length (fp_pending_elderships next))) as Hlen
    by (by rewrite Hpend).
  destruct (IH next) as (fps & -> & Hfl & Hf); [|lia|].
  { by eapply construct_wf_lemma; [exact Hw|constructor|constructor|]. }
  cbn. eexists. split_and!; [done|by cbn; rewrite Hfl|].
  intros [|l] f Hl; simplify_eq/=; [split_and!; [done|lia..]|].
  destruct (Hf l f Hl) as (? & ? & ?). split_and!; [done|lia..].
Qed.

Lemma initial_chain_wf fp levels :
  fp_wf fp → fp_level fp = 0 → levels ≤ length (fp_pending_elderships fp) →
  ∃ fps nns, initial_fingerprint_chain fp levels = Ok (fps, nns) ∧ chain_wf levels fps nns.
Proof.
  intros Hw Hl Hp. unfold initial_fingerprint_chain.
  destruct (fingerprint_chain_Ok fp levels) as (fps & -> & Hfl & Hf); [done..|].
  cbn. eexists _, _. split; [done|]. split_and!; [done|cbn; by rewrite length_replicate| |].
  - constructor; [unfold is_u32, U32_MAX; lia|]. apply Forall_replicate. unfold is_u32, U32_MAX. lia.
  - intros l f Hlf. destruct (Hf l f Hlf) as (? & ? & ?). split_and!; [done|lia..].
Qed.

Lemma state_new_wf a fp c :
  naddr_wf a → fp_wf fp → fp_level fp = 0 → is_u64 (max_paths c) →
  topology_levels (na_topology a) ≤ length (fp_pending_elderships fp) →
  ∃ s, state_new a fp c = Ok s ∧ state_wf s ∧ st_my_naddr s = a ∧ st_config s = c ∧
    st_bootstrap s = Complete ∧ (∀ d np, ¬ in_map s d np).
Proof.
  intros Ha Hw Hl Hcf Hp. unfold state_new.
  destruct (initial_chain_wf fp (topology_levels (na_topology a))) as (fps & nns & -> & Hc); [done..|].
  cbn. eexists. split; [done|].
  assert (∀ l (m : gmap Z Destination), replicate (topology_levels (na_topology a)) ∅ !! l = Some m → m = ∅) as Hm.
  { intros l m Hlm. by apply lookup_replicate in Hlm as [-> _]. }
  split_and!; [constructor; cbn; [done..| |done|]|done..|].
  - unfold st_levels. cbn. by rewrite length_replicate.
  - intros l m pos d ->%Hm. by rewrite lookup_empty.
  - intros d np (dest & (m & Hdm & Hd)%destination_Some & _). cbn in Hdm. apply Hm in Hdm as ->.
    by rewrite lookup_empty in Hd.
Qed.

Lemma exit_bootstrap_wf s : state_wf s → state_wf (exit_bootstrap s).
Proof. intros []. by constructor. Qed.
End Lemmas.

#[export] Hint Resolve add_arc_wf set_arc_cost_wf remove_arc_wf exit_bootstrap_wf : ntk.
