(* ===== verification/QspnEnter.v ===== *)
(** * Entering a network

    The state [QspnState::new_entering] builds ([crates/ntk-qspn/src/state.rs])
    is well formed: the destinations below the guest level are imported from the
    previous identity with their first arc renamed. *)
From S2P Require Import Prelude Addressing Fingerprint QspnPath QspnConfig QspnRevise.
From S2P Require Import QspnState.

(** What an identity hands over to its successor. *)
Record importable (my : Naddr) (c : QspnConfig) (d : HCoord) (dest : Destination) : Prop := {
  im_coord : d_coord dest = d;
  im_pos : is_u32 (hc_pos d);
  im_paths : Forall (λ np, np_wf my d np ∧ ep_cost (np_path np) ≠ Dead) (d_paths dest);
  im_routes : NoDup (route_of <$> d_paths dest);
  im_bound : (Z.of_nat (length (d_paths dest)) ≤ path_bound c)%Z
}.

Record arcs_importable (my : Naddr) (internal_arcs : list InternalArc)
    (external_arcs : list (ArcId * Cost)) : Prop := {
  ai_previous : NoDup (ia_previous_arc <$> internal_arcs);
  ai_new : NoDup (ia_new_arc <$> internal_arcs);
  ai_internal : Forall (λ a, naddr_wf (ia_peer_naddr a) ∧
    na_topology (ia_peer_naddr a) = na_topology my ∧ cost_wf (ia_cost a)) internal_arcs;
  ai_external : Forall (λ e, cost_wf e.2) external_arcs
}.

(** ** The arc table *)
Lemma arc_remap_Some internal a b :
  NoDup (ia_previous_arc <$> internal) →
  arc_remap internal !! a = Some b ↔
  ∃ ia, ia ∈ internal ∧ ia_previous_arc ia = a ∧ ia_new_arc ia = b.
Proof.
  intros Hnd. unfold arc_remap.
  assert (∀ pre (m : gmap Z ArcId), NoDup (ia_previous_arc <$> pre) →
    (∀ ia, ia ∈ pre → m !! ia_previous_arc ia = None) →
    foldl (λ m a, <[ia_previous_arc a := ia_new_arc a]> m) m pre !! a = Some b ↔
    m !! a = Some b ∨ ∃ ia, ia ∈ pre ∧ ia_previous_arc ia = a ∧ ia_new_arc ia = b) as Hgen.
  { induction pre as [|x pre IH]; intros m Hn Hm; cbn.
    - split; [auto|]. intros [|(ia & ?%elem_of_nil & _)]; done.
    - apply NoDup_cons in Hn as [Hx Hn]. rewrite IH; [|done|].
      + rewrite lookup_insert_Some. setoid_rewrite elem_of_cons. split.
        * intros [[[<- <-]|[Hne Ha]]|(ia & ? & ?)]; [right; exists x; auto|auto|right; exists ia; auto].
        * intros [Ha|(ia & [->|?] & <- & <-)]; [left; right|auto|eauto].
          split; [|done]. intros <-. by rewrite (Hm x) in Ha by (by left).
      + intros ia Hia. rewrite lookup_insert_ne; [apply Hm; by right|].
        intros E. apply Hx. rewrite E. by apply list_elem_of_fmap_2. }
  rewrite Hgen; [|done|by intros; rewrite lookup_empty]. rewrite lookup_empty. naive_solver.
Qed.

Lemma arc_remap_inj internal a1 a2 b :
  NoDup (ia_previous_arc <$> internal) → NoDup (ia_new_arc <$> internal) →
  arc_remap internal !! a1 = Some b → arc_remap internal !! a2 = Some b → a1 = a2.
Proof.
  intros Hp Hn. rewrite !arc_remap_Some by done.
  intros (x & [i Hi]%list_elem_of_lookup & <- & Hx) (y & [j Hj]%list_elem_of_lookup & <- & Hy).
  assert (i = j) as ->; [|congruence].
  eapply (NoDup_lookup _ i j b Hn); rewrite list_lookup_fmap; [rewrite Hi|rewrite Hj]; cbn; congruence.
Qed.

(** Any table built by inserting well-formed entries. *)
Lemma foldl_insert_arcs {A} (key : A → ArcId) (entry : A → ArcEntry) (P : ArcEntry → Prop)
    (l : list A) (m : gmap Z ArcEntry) :
  (∀ a e, m !! a = Some e → P e) → Forall (λ x, P (entry x)) l →
  let m' := foldl (λ m x, <[key x := entry x]> m) m l in
  (∀ a e, m' !! a = Some e → P e) ∧ (∀ a, is_Some (m !! a) → is_Some (m' !! a)) ∧
  (∀ x, x ∈ l → is_Some (m' !! key x)).
Proof.
  intros Hm Hl. cbn. revert m Hm. induction Hl as [|x l Hx Hl IH]; intros m Hm; cbn.
  { split_and!; [done..|by intros x ?%elem_of_nil]. }
  destruct (IH (<[key x := entry x]> m)) as (H1 & H2 & H3).
  { intros a e [[<- <-]|[_ He]]%lookup_insert_Some; eauto. }
  split_and!; [done| |].
  - intros a Ha. apply H2. destruct (decide (a = key x)) as [->|]; [rewrite lookup_insert_eq; eauto|].
    by rewrite lookup_insert_ne.
  - intros y [->|Hy]%elem_of_cons; [apply H2; rewrite lookup_insert_eq; eauto|auto].
Qed.

Lemma import_arcs_wf my internal external :
  arcs_importable my internal external →
  (∀ a e, import_arcs internal external !! a = Some e →
    peer_wf my (ae_peer_naddr e) ∧ cost_wf (ae_cost e)) ∧
  (∀ ia, ia ∈ internal → is_Some (import_arcs internal external !! ia_new_arc ia)).
Proof.
  intros [_ _ Hint Hext]. unfold import_arcs.
  set (P := λ e, peer_wf my (ae_peer_naddr e) ∧ cost_wf (ae_cost e)).
  destruct (foldl_insert_arcs ia_new_arc (λ a, mkArcEntry (ia_cost a) (Some (ia_peer_naddr a))) P internal ∅)
    as (H1 & _ & H3).
  { intros a e. by rewrite lookup_empty. }
  { eapply Forall_impl; [exact Hint|]. intros a (? & ? & ?). split; cbn; [|done]. by intros x [= <-]. }
  match goal with |- context [foldl _ ?m external] => set (m0 := m) in * end.
  destruct (foldl_insert_arcs (λ e : ArcId * Cost, e.1) (λ e, mkArcEntry e.2 None) P external m0) as (H1' & H2' & _);
    [done| |].
  { eapply Forall_impl; [exact Hext|]. intros e ?. by split. }
  split; [done|]. intros ia Hia. by apply H2', H3.
Qed.

(** ** The paths *)
Section Importing.
Context `{HashOrder} (my : Naddr) (internal : list InternalArc).
Context (Hprev : NoDup (ia_previous_arc <$> internal)) (Hnew : NoDup (ia_new_arc <$> internal)).

(** [np'] is [np] with its first arc renamed. *)
Definition renamed (np np' : NodePath) : Prop :=
  arc_remap internal !! np_arc np = Some (np_arc np') ∧
  np_path np' = mkEtpPath (ep_hops (np_path np)) (np_arc np' :: tail (ep_arcs (np_path np)))
    (ep_cost (np_path np)) (ep_fingerprint (np_path np)) (ep_nodes_inside (np_path np))
    (ep_ignore_outside (np_path np)) ∧
  np_exposed np' = np_exposed np.

Lemma renamed_fun np np1 np2 : renamed np np1 → renamed np np2 → np1 = np2.
Proof.
  clear Hprev Hnew. intros (H1 & P1 & E1) (H2 & P2 & E2). destruct np1, np2. cbn in *. simplify_eq. congruence.
Qed.

Lemma import_path_spec d np :
  np_wf my d np →
  (import_path (arc_remap internal) np = Ok None ∧ arc_remap internal !! np_arc np = None) ∨
  (∃ np', import_path (arc_remap internal) np = Ok (Some np') ∧ renamed np np').
Proof.
  intros [[_ Hlen _ _ _ _] Hh]. unfold import_path, renamed.
  destruct (arc_remap internal !! np_arc np) as [b|]; [right|by left].
  destruct (ep_arcs (np_path np)) as [|a rest]; [done|]. eexists. split; [done|]. done.
Qed.

Lemma renamed_wf d np np' : np_wf my d np → renamed np np' → np_wf my d np'.
Proof.
  intros [[Hl Hlen Hasc Hlev Hfree Htyp] Hh] (Hr & Hp & _). split; rewrite Hp; cbn; [|done].
  constructor; cbn; try done. destruct (ep_arcs (np_path np)); [done|]. cbn in *. done.
Qed.

Lemma renamed_route_inj d np1 np2 np1' np2' :
  np_wf my d np1 → np_wf my d np2 → renamed np1 np1' → renamed np2 np2' →
  route_of np1' = route_of np2' → route_of np1 = route_of np2.
Proof.
  intros [_ Hh1] [_ Hh2] (Hr1 & Hp1 & _) (Hr2 & Hp2 & _). unfold route_of. rewrite Hp1, Hp2. cbn.
  intros [= Hhops Harc Htl]. rewrite Harc in Hr1.
  assert (np_arc np1 = np_arc np2) as Heq by (by eapply arc_remap_inj).
  rewrite Hhops. f_equal. destruct (ep_arcs (np_path np1)), (ep_arcs (np_path np2)); simplify_eq/=. congruence.
Qed.

Lemma import_paths_spec d paths :
  Forall (np_wf my d) paths → NoDup (route_of <$> paths) →
  ∃ paths', filter_mapM (import_path (arc_remap internal)) paths = Ok paths' ∧
    length paths' ≤ length paths ∧ NoDup (route_of <$> paths') ∧
    (∀ np', np' ∈ paths' → ∃ np, np ∈ paths ∧ renamed np np') ∧
    (∀ np, np ∈ paths → is_Some (arc_remap internal !! np_arc np) → ∃ np', np' ∈ paths' ∧ renamed np np').
Proof.
  intros Hw Hnd. induction Hw as [|np paths Hnp Hw IH]; cbn.
  { exists []. split_and!; [done..|constructor|by intros ? ?%elem_of_nil|by intros ? ?%elem_of_nil]. }
  cbn in Hnd. apply NoDup_cons in Hnd as [Hnot Hnd]. destruct IH as (paths' & -> & Hl & Hnd' & Hfrom & Hto); [done|].
  assert (∀ x, x ∈ paths' → ∃ y, y ∈ np :: paths ∧ renamed y x) as Hfrom'.
  { intros x Hx. destruct (Hfrom x Hx) as (y & ? & ?). exists y. split; [by right|done]. }
  destruct (import_path_spec d np Hnp) as [[-> Hno]|(np' & -> & Hr)]; cbn.
  - exists paths'. split_and!; [done|lia|done|done|]. intros x [->|Hx]%elem_of_cons Hsome; [|by apply Hto].
    rewrite Hno in Hsome. by apply is_Some_None in Hsome.
  - exists (np' :: paths'). split_and!; [done|cbn; lia| | |].
    + cbn. constructor; [|done]. intros (x & Hxr & Hx)%list_elem_of_fmap. destruct (Hfrom x Hx) as (y & Hy & Hyr).
      apply Hnot. apply list_elem_of_fmap. exists y. split; [|done].
      rewrite Forall_forall in Hw. by eapply renamed_route_inj; eauto.
    + intros x [->|Hx]%elem_of_cons; [exists np; split; [by left|done]|by apply Hfrom'].
    + intros x [->|Hx]%elem_of_cons Hsome; [exists np'; split; [by left|done]|].
      destruct (Hto x Hx Hsome) as (y & ? & ?). exists y. split; [by right|done].
Qed.

(** The imported level, position by position. *)
Definition import_dest (dest : Destination) : option Destination :=
  match filter_mapM (import_path (arc_remap internal)) (d_paths dest) with
  | Ok (np :: rest) => Some (mkDestination (d_coord dest) (np :: rest))
  | _ => None
  end.

Lemma import_level_lookup m :
  (∀ pos dest, m !! pos = Some dest → is_Ok (filter_mapM (import_path (arc_remap internal)) (d_paths dest))) →
  ∃ m', import_level (arc_remap internal) m = Ok m' ∧ ∀ pos, m' !! pos = m !! pos ≫= import_dest.
Proof.
  clear Hprev Hnew. intros Hok. unfold import_level. pose proof (hm_iter_NoDup_keys m) as Hnd.
  match goal with |- context [foldM ?f _ _] => destruct (foldM_total_inv f
    (λ pre acc, ∀ pos, (pos ∈ pre.*1 → acc !! pos = m !! pos ≫= import_dest) ∧ (pos ∉ pre.*1 → acc !! pos = None))
    ∅ (hm_iter m)) as (m' & Hf & Hm') end.
  - intros pos. split; [by intros ?%elem_of_nil|by rewrite lookup_empty].
  - intros pre acc [pos dest] [rest Hpre] Hacc. cbn.
    assert (m !! pos = Some dest) as Hd by (apply elem_of_hm_iter; rewrite Hpre; set_solver).
    assert (pos ∉ pre.*1) as Hfresh.
    { rewrite Hpre, !fmap_app in Hnd. apply NoDup_app in Hnd as (Hnd & _ & _).
      apply NoDup_app in Hnd as (_ & Hd' & _). cbn in Hd'. set_solver. }
    destruct (Hok pos dest Hd) as [paths Hp]. rewrite Hp. cbn. eexists. split; [done|]. intros q.
    rewrite fmap_app. cbn. rewrite elem_of_app, list_elem_of_singleton.
    destruct (decide (q = pos)) as [->|Hq].
    + split; [intros _|tauto]. rewrite Hd. cbn. unfold import_dest. rewrite Hp.
      destruct paths; [by apply Hacc|]. by rewrite lookup_insert_eq.
    + destruct (Hacc q) as [H1 H2]. split.
      * intros [Hin|?]; [|done]. destruct paths; [by apply H1|]. rewrite lookup_insert_ne by done. by apply H1.
      * intros Hno. destruct paths; [apply H2; tauto|]. rewrite lookup_insert_ne by done. apply H2; tauto.
  - exists m'. split; [done|]. intros pos. destruct (decide (pos ∈ (hm_iter m).*1)) as [Hin|Hin]; [by apply Hm'|].
    rewrite (proj2 (Hm' pos) Hin). destruct (m !! pos) eqn:Hd; [|done].
    exfalso. apply Hin, list_elem_of_fmap. eexists (_, _). split; [done|]. by apply elem_of_hm_iter.
Qed.

Lemma import_dest_wf c arcs l pos dest0 :
  importable my c (mkHCoord l pos) dest0 → (∀ ia, ia ∈ internal → is_Some (arcs !! ia_new_arc ia)) →
  is_Ok (filter_mapM (import_path (arc_remap internal)) (d_paths dest0)) ∧
  (∀ dest, import_dest dest0 = Some dest → dest_wf my arcs c l pos dest ∧
    ∀ np', np' ∈ d_paths dest → ∃ np, np ∈ d_paths dest0 ∧ renamed np np') ∧
  (∀ np, np ∈ d_paths dest0 → is_Some (arc_remap internal !! np_arc np) →
    ∃ dest np', import_dest dest0 = Some dest ∧ np' ∈ d_paths dest ∧ renamed np np').
Proof.
  intros [Hco Hpos Hp Hr Hb] Harcs. unfold import_dest.
  assert (Forall (np_wf my (mkHCoord l pos)) (d_paths dest0)) as Hpw
    by (eapply Forall_impl; [exact Hp|]; by intros ? []).
  destruct (import_paths_spec _ _ Hpw Hr) as (paths' & -> & Hl & Hnd & Hfrom & Hto). split_and!; [eauto with ntk|..].
  - intros dest Hd. destruct paths' as [|np0 rest]; [done|]. set (ps := np0 :: rest) in *. simplify_eq.
    split; [|done]. constructor; cbn; [done..|]. constructor; [|done|lia].
    apply Forall_forall. intros np' Hin'. destruct (Hfrom np' Hin') as (np & Hnp & Hren).
    rewrite Forall_forall in Hp. destruct (Hp np Hnp) as [Hwf Halive]. split_and!; [by eapply renamed_wf| |].
    + destruct Hren as (_ & -> & _). done.
    + destruct Hren as [(ia & Hia & _ & <-)%arc_remap_Some _]; [|done]. by apply Harcs.
  - intros np Hnp Hs. destruct (Hto np Hnp Hs) as (np' & Hin & Hren). destruct paths'; [by apply elem_of_nil in Hin|].
    eauto.
Qed.

(** All imported levels, padded with empty ones, position by position. *)
Lemma import_levels_spec guest previous n :
  (∀ l m pos dest, l < guest → previous !! l = Some m → m !! pos = Some dest →
    is_Ok (filter_mapM (import_path (arc_remap internal)) (d_paths dest))) →
  ∃ imported, mapM (import_level (arc_remap internal)) (take guest previous) = Ok imported ∧
    length imported ≤ guest ∧
    ∀ l pos, (m ← (imported ++ replicate n ∅) !! l; m !! pos) =
      if decide (l < guest) then (m ← previous !! l; dest ← m !! pos; import_dest dest) else None.
Proof.
  clear Hprev Hnew. intros Hok.
  assert (∀ l m, take guest previous !! l = Some m → ∃ m', import_level (arc_remap internal) m = Ok m' ∧
    ∀ pos, m' !! pos = m !! pos ≫= import_dest) as Hlev.
  { intros l m [Hl ?]%lookup_take_Some. apply import_level_lookup. eauto. }
  destruct (mapM_is_Ok (import_level (arc_remap internal)) (take guest previous)) as [imported Himp].
  { intros m [l Hl]%list_elem_of_lookup. destruct (Hlev l m Hl) as (m' & -> & _). eauto with ntk. }
  exists imported. split; [done|]. apply mapM_Forall2 in Himp.
  pose proof (Forall2_length _ _ _ Himp) as Hlen. rewrite length_take in Hlen. split; [lia|].
  intros l pos. destruct (take guest previous !! l) as [m|] eqn:Ht.
  - eapply Forall2_lookup_l in Himp as (m' & Hm' & Him); [|exact Ht].
    destruct (Hlev l m Ht) as (m2 & Hm2 & Hw2). assert (m2 = m') as -> by congruence.
    apply lookup_take_Some in Ht as [-> Hl]. rewrite decide_True by done.
    rewrite (lookup_app_l_Some _ _ _ _ Hm'). cbn. by rewrite Hw2.
  - apply lookup_ge_None in Ht. rewrite length_take in Ht. rewrite lookup_app_r by lia.
    transitivity (@None Destination).
    + destruct (replicate _ _ !! _) as [m|] eqn:Hr; [|done]. by apply lookup_replicate in Hr as [-> _].
    + destruct (decide (l < guest)); [|done]. by rewrite lookup_ge_None_2 by lia.
Qed.
End Importing.

(** ** The constructor *)
Lemma new_entering_wf `{HashOrder} my fp c internal external guest host conn previous :
  naddr_wf my → fp_wf fp → fp_level fp = 0 → is_u64 (max_paths c) →
  topology_levels (na_topology my) ≤ length (fp_pending_elderships fp) →
  host ≤ topology_levels (na_topology my) → guest < host → conn.1 ≤ guest →
  arcs_importable my internal external →
  (∀ l m pos dest, l < guest → previous !! l = Some m → m !! pos = Some dest →
    importable my c (mkHCoord l pos) dest) →
  ∃ s, new_entering my fp c internal external guest host conn previous = Ok s ∧ state_wf s ∧
    st_my_naddr s = my ∧ st_config s = c ∧ st_bootstrap s = InProgress guest host ∧
    st_arcs s = import_arcs internal external ∧ st_pending_gnode_split s = ∅ ∧
    (∀ l pos, destination s l pos =
      if decide (l < guest) then (m ← previous !! l; dest ← m !! pos; import_dest internal dest) else None).
Proof.
  intros Hmy Hfw Hfl Hcf Hfp Hhost Hguest Hconn Harcs Hprev. unfold new_entering.
  rewrite (proj2 (Nat.leb_le _ _) Hhost), (proj2 (Nat.ltb_lt _ _) Hguest), (proj2 (Nat.ltb_lt conn.1 (S guest))) by lia.
  cbn [negb]. destruct (import_arcs_wf my internal external Harcs) as [Hae Hai].
  pose proof Harcs as [Hp Hn _ _].
  assert (∀ l m pos dest, l < guest → previous !! l = Some m → m !! pos = Some dest →
    is_Ok (filter_mapM (import_path (arc_remap internal)) (d_paths dest)) ∧
    (∀ dest', import_dest internal dest = Some dest' → dest_wf my (import_arcs internal external) c l pos dest')) as Hdst.
  { intros l m pos dest Hl Hlm Hd.
    edestruct (import_dest_wf my internal Hp Hn c (import_arcs internal external) l pos dest) as (? & Hw & _); [by eapply Hprev|done|].
    split; [done|]. intros dest' Hd'. by destruct (Hw dest' Hd'). }
  destruct (import_levels_spec internal guest previous 0) as (imported & Himp & Hlen & _); [intros; by eapply Hdst|].
  destruct (import_levels_spec internal guest previous (topology_levels (na_topology my) - length imported))
    as (imported' & Himp' & _ & Hlook); [intros; by eapply Hdst|].
  assert (imported' = imported) as -> by congruence. rewrite Himp. cbn [mbind res_bind].
  destruct (initial_chain_wf fp (topology_levels (na_topology my))) as (fps & nns & -> & Hch); [done..|].
  cbn [mbind res_bind fst snd]. set (s0 := mkQspnState _ _ _ _ _ _ _ _ _ _).
  assert (state_wf s0) as Hs0.
  { constructor; cbn; [done|done|intros; by eapply Hae|intros; by eapply Hae| |done|].
    - unfold st_levels. cbn. rewrite length_app, length_replicate. lia.
    - intros l m' pos dest Hm' Hd. specialize (Hlook l pos). rewrite Hm' in Hlook. cbn in Hlook. rewrite Hd in Hlook.
      destruct (decide (l < guest)); [|done]. symmetry in Hlook.
      apply bind_Some in Hlook as (m & Hm & (dest0 & Hd0 & Hi)%bind_Some). by eapply Hdst. }
  destruct (update_clusters_Ok s0 Hs0) as (s & evs & -> & Hw & Hf). exists s. split; [done|].
  rewrite Hf. split; [by rewrite <-Hf|]. by split_and!.
Qed.
