(* ===== verification/QspnUpdateMap.v ===== *)
(** * update_map: merging revised paths into the destination map

    Models [QspnState::update_map] and [update_map_one_destination] of
    [crates/ntk-qspn/src/state.rs].  The per-destination pass is cut into the
    stages the source comments delimit: merge with the known paths, pruning of
    unknown intermediate hops, removal of repeated routes, disjoint-path
    admission, events and announcements, commit, and the fingerprint-split
    check. *)
From stdpp Require Import strings.
From S2P Require Import Prelude Float64 Addressing Fingerprint QspnPath QspnConfig.
From S2P Require Import QspnRevise QspnState.

Definition MANDATORY_PATH_FACTOR : Z := 4.

Record SplitSignal := mkSplitSignal {
  ss_destination : HCoord;
  ss_fp_eldest : Fp;
  ss_fp : Fp;
  ss_bp_eldest : NodePath;
  ss_bp : NodePath
}.

Record OneDestOutcome := mkOneDestOutcome {
  od_all_paths_set : list EtpPath;
  od_first_detection_split : bool;
  od_events : list QspnEvent;
  od_split_signals : list SplitSignal
}.

Record UpdateMapOutcome := mkUpdateMapOutcome {
  um_all_paths_set : list EtpPath;
  um_b_set : list HCoord;
  um_events : list QspnEvent;
  um_split_signals : list SplitSignal
}.

(** [important_variation] *)
Definition important_variation (old new : Cost) : bool := negb (bool_decide (old = new)).

(** ** Branches: fingerprints up to [same_branch] (the sets [f1] and [f2]) *)
Definition branch_step (acc : list (Fp * Z)) (np : NodePath) : list (Fp * Z) :=
  let fp := np_fp np in
  let ni := ep_nodes_inside (np_path np) in
  if any (λ e : Fp * Z, same_branch e.1 fp e.2 ni) acc then acc else acc ++ [(fp, ni)].

Definition branches (paths : list NodePath) : list (Fp * Z) := foldl branch_step [] paths.

(** ** Merge of the known paths with the candidates *)

(** The [nodes_inside] noise band: [ni1 * (1.0 + tol) < ni2 || ni1 * (1.0 - tol) > ni2]. *)
Definition ni_changed (tol : f64) (ni1 ni2 : Z) : bool :=
  f64_ltb (f64_mul (f64_of_Z ni1) (f64_add (f64_lit 1 1) tol)) (f64_of_Z ni2) ||
  f64_gtb (f64_mul (f64_of_Z ni1) (f64_sub (f64_lit 1 1) tol)) (f64_of_Z ni2).

Record MergeState := mkMergeState {
  ms_qd : list NodePath;
  ms_od : list NodePath;
  ms_vd : list NodePath
}.

Definition keep_known (a_changed : option ArcId) (p1 : NodePath) (qd : list NodePath) (ms : MergeState)
    : MergeState :=
  mkMergeState qd (ms_od ms ++ [p1])
    (if bool_decide (a_changed = Some (np_arc p1)) then ms_vd ms ++ [p1] else ms_vd ms).

Definition merge_step (tol : f64) (a_changed : option ArcId) (ms : MergeState) (p1 : NodePath)
    : MergeState :=
  match position (λ p_test, hops_arcs_equal p_test (np_path p1)) (ms_qd ms) with
  | None => keep_known a_changed p1 (ms_qd ms) ms
  | Some idx =>
      match ms_qd ms !! idx with
      | None => ms
      | Some p2 =>
          let qd := delete idx (ms_qd ms) in
          let fp_changed := negb (identity_eq (np_fp p1) (np_fp p2)) in
          let cost_variation := important_variation (ep_cost (np_path p1)) (ep_cost (np_path p2)) in
          if fp_changed || cost_variation
             || ni_changed tol (ep_nodes_inside (np_path p1)) (ep_nodes_inside (np_path p2))
          then mkMergeState qd (ms_od ms ++ [p2]) (ms_vd ms ++ [p2])
          else keep_known a_changed p1 qd ms
      end
  end.

Definition merge_known (tol : f64) (a_changed : option ArcId) (md_set qd_set : list NodePath)
    : list NodePath * list NodePath :=
  let ms := foldl (merge_step tol a_changed) (mkMergeState qd_set [] []) md_set in
  (ms_od ms ++ ms_qd ms, ms_vd ms).

(** ** Repeated routes *)
Definition route_key (np : NodePath) : list HCoord * list ArcId :=
  (ep_hops (np_path np), ep_arcs (np_path np)).

Fixpoint dedup_routes (seen : list (list HCoord * list ArcId)) (paths : list NodePath)
    : list NodePath :=
  match paths with
  | [] => []
  | np :: paths' =>
      if contains (route_key np) seen then dedup_routes seen paths'
      else np :: dedup_routes (seen ++ [route_key np]) paths'
  end.

Section WithOrder.
Context `{HashOrder}.

(** ** Pruning of the candidates through an unknown intermediate hop *)

(** The scan of [&hops[..hops.len() - 1]]: [true] when a hop is unknown; the
    sizes of the known ones are recorded. *)
Fixpoint scan_hops (s : QspnState) (sizes : gmap HCoord Z) (hops : list HCoord)
    : res QspnError (bool * gmap HCoord Z) :=
  match hops with
  | [] => Ok (false, sizes)
  | h :: hops' =>
      m ← expect (st_destinations s !! hc_level h);
      match m !! hc_pos h with
      | None => Ok (true, sizes)
      | Some dest =>
          r ← map_err Common (evaluate dest (arc_cost s));
          scan_hops s (<[h := r.1.2]> sizes) hops'
      end
  end.

Definition prune_step (s : QspnState) (acc : list NodePath * gmap HCoord Z) (np : NodePath)
    : res QspnError (list NodePath * gmap HCoord Z) :=
  let hops := ep_hops (np_path np) in
  r ← scan_hops s acc.2 (take (length hops - 1) hops);
  Ok (if (r.1 : bool) then acc.1 else acc.1 ++ [np], r.2).

Definition prune_unknown (s : QspnState) (od : list NodePath)
    : res QspnError (list NodePath * gmap HCoord Z) :=
  foldM (prune_step s) ([], ∅) od.

(** ** What admission has to cover *)

(** [vnd]: the coordinates of the direct peers. *)
Definition direct_neighbors (s : QspnState) : res QspnError (list HCoord) :=
  foldM (λ vnd (ie : Z * ArcEntry),
    match ae_peer_naddr ie.2 with
    | None => Ok vnd
    | Some peer =>
        c ← map_err Common (hcoord (st_my_naddr s) peer);
        Ok (match c with Some v => push_new vnd v | None => vnd end)
    end) [] (bt_iter (st_arcs s)).

(** The overlap tolerance for the destination: [avail_arcs] counts the distinct
    arcs of its exposed paths. *)
Definition push_new_arc (l : list ArcId) (a : ArcId) : list ArcId :=
  if contains a l then l else l ++ [a].

Definition admission_ratio (s : QspnState) (d : HCoord) : res QspnError f64 :=
  m ← expect (st_destinations s !! hc_level d);
  match m !! hc_pos d with
  | None => Ok (max_common_hops_ratio (st_config s))
  | Some dest_entry =>
      r ← map_err Common (evaluate dest_entry (arc_cost s));
      exposed ← exposed_paths s d;
      let avail_arcs := foldl (λ l p, push_new_arc l (np_arc p)) [] exposed in
      Ok (mch_ratio (max_common_hops_ratio (st_config s)) (mch_ratio_table (st_config s))
            r.1.2 (Z.of_nat (length avail_arcs)))
  end.

(** ** Disjoint-path admission *)

(** The weight of one intermediate g-node of [p2], and what [p1] shares of it. *)
Definition hop_overlap (w : OverlapWeights) (sizes : gmap HCoord Z) (p1 p2 : EtpPath)
    (acc : f64 * f64) (g2_i : nat) : res QspnError (f64 * f64) :=
  g2 ← expect (ep_hops p2 !! g2_i);
  arc_in_g2 ← expect (ep_arcs p2 !! g2_i);
  arc_out_g2 ← expect (ep_arcs p2 !! S g2_i);
  let nn := default 0%Z (sizes !! g2) in
  let n_nodes := f64_floor (f64_mul (intermediate_coeff w) (f64_sqrt (f64_of_Z nn))) in
  let half := f64_ceil (f64_mul (f64_lit 5 10) n_nodes) in
  let total_hops := f64_add acc.1 n_nodes in
  Ok (total_hops,
      if contains g2 (ep_hops p1) then
        if contains arc_in_g2 (ep_arcs p1) then
          if contains arc_out_g2 (ep_arcs p1) then f64_add acc.2 n_nodes else f64_add acc.2 half
        else if contains arc_out_g2 (ep_arcs p1) then f64_add acc.2 half
        else acc.2
      else acc.2).

(** The weight of the destination g-node itself. *)
Definition dest_overlap (s : QspnState) (d : HCoord) (p1 p2 : EtpPath) (acc : f64 * f64)
    : res QspnError (f64 * f64) :=
  if 0 <? hc_level d then
    m ← expect (st_destinations s !! hc_level d);
    match m !! hc_pos d with
    | None => Ok acc
    | Some dest_entry =>
        r ← map_err Common (evaluate dest_entry (arc_cost s));
        let w := overlap_weights (st_config s) in
        let n0 := f64_floor (f64_mul (destination_coeff w) (f64_sqrt (f64_of_Z r.1.2))) in
        let n_nodes := if f64_gtb n0 f64_zero then f64_sub n0 (destination_offset w) else n0 in
        if f64_gtb n_nodes f64_zero then
          arc_in_d ← match length (ep_hops p2) with 0 => Panic | S n => expect (ep_arcs p2 !! n) end;
          Ok (f64_add acc.1 n_nodes,
              if contains arc_in_d (ep_arcs p1) then f64_add acc.2 n_nodes else acc.2)
        else Ok acc
    end
  else Ok acc.

(** Whether [p1] overlaps an admitted path [p2] beyond the tolerance. *)
Definition overlaps (s : QspnState) (d : HCoord) (sizes : gmap HCoord Z) (mch : f64)
    (p1 p2 : EtpPath) : res QspnError bool :=
  a ← foldM (hop_overlap (overlap_weights (st_config s)) sizes p1 p2) (f64_zero, f64_zero)
        (seq 0 (length (ep_hops p2) - 1));
  b ← dest_overlap s d p1 p2 a;
  Ok (f64_gtb b.1 f64_zero && f64_gtb (f64_div b.2 b.1) mch).

(** [for p2 in &rd { ... insert = false; break }] *)
Fixpoint disjoint_from (s : QspnState) (d : HCoord) (sizes : gmap HCoord Z) (mch : f64)
    (p1 : EtpPath) (rd : list NodePath) : res QspnError bool :=
  match rd with
  | [] => Ok true
  | p2 :: rd' =>
      b ← overlaps s d sizes mch p1 (np_path p2);
      if (b : bool) then Ok false else disjoint_from s d sizes mch p1 rd'
  end.

(** The mutable variables of the admission loop. *)
Record AdmitState := mkAdmitState {
  am_fd : list Fp;
  am_vnd : list HCoord;
  am_z1d : list HCoord;
  am_rd : list NodePath
}.

(** The covering tests: is [p1] the first to carry its fingerprint, the first to
    avoid a direct neighbour, or the first to reach a sibling?  The covered
    elements leave their sets. *)
Definition cover (am : AdmitState) (p1 : NodePath) : bool * AdmitState :=
  let hops := ep_hops (np_path p1) in
  let new_fp := negb (any (λ f, identity_eq f (np_fp p1)) (am_fd am)) in
  let vnd' := retain (λ g, contains g hops) (am_vnd am) in
  let z1d' := retain (λ g, negb (contains g hops)) (am_z1d am) in
  (new_fp || (length vnd' <? length (am_vnd am)) || (length z1d' <? length (am_z1d am)),
   mkAdmitState (if new_fp then am_fd am ++ [np_fp p1] else am_fd am) vnd' z1d' (am_rd am)).

Definition admit_path (am : AdmitState) (p1 : NodePath) : AdmitState :=
  mkAdmitState (am_fd am) (am_vnd am) (am_z1d am) (am_rd am ++ [p1]).

Fixpoint admit_loop (s : QspnState) (d : HCoord) (sizes : gmap HCoord Z) (mch : f64)
    (am : AdmitState) (od : list NodePath) : res QspnError AdmitState :=
  match od with
  | [] => Ok am
  | p1 :: od' =>
      if is_dead (ep_cost (np_path p1)) then Ok am
      else
        let (mandatory, am') := cover am p1 in
        let n := Z.of_nat (length (am_rd am')) in
        let max := max_paths (st_config s) in
        if (mandatory : bool) then
          admit_loop s d sizes mch
            (if (n <? usize_saturating_mul max MANDATORY_PATH_FACTOR)%Z
             then admit_path am' p1 else am') od'
        else if (max <=? n)%Z then admit_loop s d sizes mch am' od'
        else
          insert ← disjoint_from s d sizes mch (np_path p1) (am_rd am');
          admit_loop s d sizes mch (if (insert : bool) then admit_path am' p1 else am') od'
  end.

Definition admit_paths (s : QspnState) (d : HCoord) (sizes : gmap HCoord Z) (mch : f64)
    (vnd z1d : list HCoord) (od : list NodePath) : res QspnError (list NodePath) :=
  am_rd <$> admit_loop s d sizes mch (mkAdmitState [] vnd z1d []) od.

(** ** The new path set of one destination

    Everything between the source's [qd_set] and the admitted [od_set], with the
    changed paths [vd_set].  Reads the state, changes nothing. *)
Definition select_paths (s : QspnState) (qd_set : list NodePath) (d : HCoord)
    (a_changed : option ArcId) (z_set : list (list HCoord)) (ac : ArcId → Cost)
    (md_set : list NodePath) : res QspnError (list NodePath * list NodePath) :=
  let (od0, vd_set) := merge_known (nodes_inside_tolerance (st_config s)) a_changed md_set qd_set in
  pruned ← prune_unknown s (sort_by (np_leb ac) od0);
  let od1 := dedup_routes [] pruned.1 in
  vnd ← direct_neighbors s;
  let z1d := concat (take (hc_level d) z_set) in
  mch ← admission_ratio s d;
  rd ← admit_paths s d pruned.2 mch vnd z1d od1;
  Ok (rd, vd_set).

(** ** Events and announcements *)

(** [NodePath.exposed = true] *)
Definition expose (np : NodePath) : NodePath := mkNodePath (np_arc np) (np_path np) true.

Definition route (ac : ArcId → Cost) (np : NodePath) : RoutePath := to_route_path np (ac (np_arc np)).
Definition sendable (ac : ArcId → Cost) (np : NodePath) : EtpPath :=
  prepare_for_sending np (ac (np_arc np)).

(** [p.fingerprint.same_branch(valid_fp_d.expect("d.level > 0"), ...)] *)
Definition in_valid_branch (valid : option (Fp * Z)) (np : NodePath) : res QspnError bool :=
  v ← expect valid;
  Ok (same_branch (np_fp np) v.1 (ep_nodes_inside (np_path np)) v.2).

Record EmitState := mkEmitState {
  es_od : list NodePath;
  es_sd : list QspnEvent;
  es_all : list EtpPath
}.

(** One iteration of the loop over the admitted paths that were not known. *)
Definition announce_new (d : HCoord) (ac : ArcId → Cost) (md_set : list NodePath)
    (valid : option (Fp * Z)) (es : EmitState) (p : NodePath) : res QspnError EmitState :=
  if any (λ m, hops_arcs_equal m (np_path p)) md_set
  then Ok (mkEmitState (es_od es ++ [p]) (es_sd es) (es_all es))
  else
    let all := es_all es ++ [sendable ac p] in
    if hc_level d =? 0
    then Ok (mkEmitState (es_od es ++ [p]) (es_sd es ++ [PathAdded (route ac p)]) all)
    else
      b ← in_valid_branch valid p;
      Ok (if (b : bool)
          then mkEmitState (es_od es ++ [expose p]) (es_sd es ++ [PathAdded (route ac p)]) all
          else mkEmitState (es_od es ++ [p]) (es_sd es) all).

(** One iteration of the loop over the previously known paths. *)
Definition announce_known (d : HCoord) (ac : ArcId → Cost) (vd_set : list NodePath)
    (valid : option (Fp * Z)) (es : EmitState) (p : NodePath) : res QspnError EmitState :=
  match position (λ o, hops_arcs_equal o (np_path p)) (es_od es) with
  | None =>
      let all := es_all es ++ [with_cost (sendable ac p) Dead] in
      Ok (mkEmitState (es_od es)
            (if (hc_level d =? 0) || np_exposed p
             then es_sd es ++ [PathRemoved (route ac p)] else es_sd es) all)
  | Some idx =>
      if negb (any (λ v, hops_arcs_equal v (np_path p)) vd_set) then Ok es
      else
        o ← expect (es_od es !! idx);
        let all := es_all es ++ [sendable ac o] in
        if hc_level d =? 0
        then Ok (mkEmitState (es_od es) (es_sd es ++ [PathChanged (route ac o)]) all)
        else
          b ← in_valid_branch valid p;
          Ok (if np_exposed p then
                if (b : bool)
                then mkEmitState (<[idx := expose o]> (es_od es))
                       (es_sd es ++ [PathChanged (route ac o)]) all
                else mkEmitState (es_od es) (es_sd es ++ [PathRemoved (route ac p)]) all
              else
                if (b : bool)
                then mkEmitState (<[idx := expose o]> (es_od es))
                       (es_sd es ++ [PathAdded (route ac o)]) all
                else mkEmitState (es_od es) (es_sd es) all)
  end.

(** The winner of the updated set with the node count its first carrier reports. *)
Definition valid_branch (d : HCoord) (od_set : list NodePath) : res QspnError (option (Fp * Z)) :=
  if 0 <? hc_level d then
    w ← map_err Common (winning_fingerprint od_set);
    Ok (match w with
        | None => None
        | Some fp =>
            Some (fp, default 0%Z ((λ o, ep_nodes_inside (np_path o)) <$>
                        find (λ o, identity_eq (np_fp o) fp) od_set))
        end)
  else Ok None.

Definition announce (d : HCoord) (ac : ArcId → Cost) (md_set rd vd_set : list NodePath)
    : res QspnError EmitState :=
  valid ← valid_branch d rd;
  es1 ← foldM (announce_new d ac md_set valid) (mkEmitState [] [] []) rd;
  es2 ← foldM (announce_known d ac vd_set valid) es1 md_set;
  let sd1 := match md_set, es_od es2 with
             | [], _ :: _ => DestinationAdded d :: es_sd es2
             | _, _ => es_sd es2
             end in
  let sd2 := match md_set, es_od es2 with
             | _ :: _, [] => sd1 ++ [DestinationRemoved d]
             | _, _ => sd1
             end in
  Ok (mkEmitState (es_od es2) sd2 (es_all es2)).

(** ** Commit *)
Definition commit (s : QspnState) (d : HCoord) (od_set : list NodePath) : QspnState :=
  set_destinations s
    (alter (λ m : gmap Z Destination, match od_set with
                | [] => delete (hc_pos d) m
                | _ => <[hc_pos d := mkDestination d od_set]> m
                end) (hc_level d) (st_destinations s)).

(** ** Fingerprint-split check *)
Definition eldest_step (w : Fp * Z) (e : Fp * Z) : res QspnError (Fp * Z) :=
  match elder_seed e.1 w.1 with
  | Ok true => Ok e
  | Ok false | Err IndistinguishableFingerprints => Ok w
  | Err err => Err (Common err)
  | Panic => Panic
  end.

Definition cheapest_with (ac : ArcId → Cost) (paths : list NodePath) (e : Fp * Z)
    : res QspnError NodePath :=
  expect (min_by (np_leb ac)
    (retain (λ np, same_branch (np_fp np) e.1 (ep_nodes_inside (np_path np)) e.2) paths)).

Definition split_check (s : QspnState) (d : HCoord) (ac : ArcId → Cost) (f1 : list (Fp * Z))
    : res QspnError (bool * list SplitSignal) :=
  if 0 <? hc_level d then
    match destination s (hc_level d) (hc_pos d) with
    | None => Ok (false, [])
    | Some dest_now =>
        match branches (d_paths dest_now) with
        | e0 :: e1 :: es =>
            let f2 := e0 :: e1 :: es in
            let first := any (λ e : Fp * Z,
              negb (any (λ f : Fp * Z, same_branch f.1 e.1 f.2 e.2) f1)) f2 in
            eldest ← foldM eldest_step e0 (e1 :: es);
            bp_eldest ← cheapest_with ac (d_paths dest_now) eldest;
            signals ← mapM (λ e : Fp * Z,
              bp ← cheapest_with ac (d_paths dest_now) e;
              Ok (mkSplitSignal d eldest.1 e.1 bp_eldest bp))
              (retain (λ e : Fp * Z, negb (same_branch e.1 eldest.1 e.2 eldest.2)) f2);
            Ok (first, signals)
        | _ => Ok (false, [])
        end
    end
  else Ok (false, []).

(** ** One destination, then all of them *)
Definition update_map_one_destination (s : QspnState) (qd_set : list NodePath) (d : HCoord)
    (a_changed : option ArcId) (z_set : list (list HCoord)) (ac : ArcId → Cost)
    : QspnState * res QspnError OneDestOutcome :=
  match st_destinations s !! hc_level d with
  | None => (s, Panic)
  | Some m =>
      let md_set := match m !! hc_pos d with Some dd => d_paths dd | None => [] end in
      let f1 := if 0 <? hc_level d then branches md_set else [] in
      do (s, sel) ← (s, select_paths s qd_set d a_changed z_set ac md_set);
      do (s, es) ← (s, announce d ac md_set sel.1 sel.2);
      do (s, split) ← (commit s d (es_od es), split_check (commit s d (es_od es)) d ac f1);
      (s, Ok (mkOneDestOutcome (es_all es) split.1 (es_sd es) split.2))
  end.

(** Grouping of the candidates by destination. *)
Definition group_step (q : gmap HCoord (list NodePath)) (np : NodePath)
    : res QspnError (gmap HCoord (list NodePath)) :=
  d ← expect (last (ep_hops (np_path np)));
  Ok (<[d := default [] (q !! d) ++ [np]]> q).

Definition group_by_dest (q_set : list NodePath) : res QspnError (gmap HCoord (list NodePath)) :=
  foldM group_step ∅ q_set.

(** Hop count at the destination's level of its cheapest candidate.  A group is
    never empty. *)
Definition hops_in_level (ac : ArcId → Cost) (q : gmap HCoord (list NodePath)) (d : HCoord) : nat :=
  match min_by (np_leb ac) (default [] (q !! d)) with
  | Some best => length (retain (λ h, hc_level h =? hc_level d) (ep_hops (np_path best)))
  | None => 0
  end.

Definition dest_leb (ac : ArcId → Cost) (q : gmap HCoord (list NodePath)) (d0 d1 : HCoord) : bool :=
  if hc_level d0 =? hc_level d1 then hops_in_level ac q d0 <=? hops_in_level ac q d1
  else hc_level d0 <=? hc_level d1.

Definition sorted_keys (ac : ArcId → Cost) (q : gmap HCoord (list NodePath)) : list HCoord :=
  sort_by (dest_leb ac q) (hm_iter q).*1.

Definition update_map_step (q : gmap HCoord (list NodePath)) (a_changed : option ArcId)
    (z_set : list (list HCoord)) (ac : ArcId → Cost)
    (s : QspnState) (out : UpdateMapOutcome) (d : HCoord) : QspnState * res QspnError UpdateMapOutcome :=
  do (s, o) ← update_map_one_destination s (default [] (q !! d)) d a_changed z_set ac;
  (s, Ok (mkUpdateMapOutcome
    (um_all_paths_set out ++ od_all_paths_set o)
    (if od_first_detection_split o then push_new (um_b_set out) d else um_b_set out)
    (um_events out ++ od_events o)
    (um_split_signals out ++ od_split_signals o))).

Definition update_map (s : QspnState) (q_set : list NodePath) (a_changed : option ArcId)
    : QspnState * res QspnError UpdateMapOutcome :=
  let ac := arc_cost s in
  do (s, z_set) ← (s, mapM (my_gnode_neighbors s) (seq 0 (st_levels s)));
  do (s, q) ← (s, group_by_dest q_set);
  foldS (update_map_step q a_changed z_set ac) s (mkUpdateMapOutcome [] [] [] []) (sorted_keys ac q).
End WithOrder.

(** ** Lemmas *)

(** *** Merge *)
Section Merge.
Context (tol : f64) (a_changed : option ArcId).
Implicit Types md qd : list NodePath.

Lemma route_key_eq np q :
  hops_arcs_equal np (np_path q) = true ↔ route_key np = route_key q.
Proof.
  rewrite hops_arcs_equal_true. unfold route_key. split; [by intros [-> ->]|intros Heq].
  by apply pair_eq in Heq.
Qed.

Lemma route_key_neq np q :
  hops_arcs_equal np (np_path q) = false ↔ route_key np ≠ route_key q.
Proof. rewrite <-not_true_iff_false, route_key_eq. done. Qed.

(** What one step keeps: each element of the three sets was there before, or is
    the known path itself, or was a candidate. *)
Lemma merge_step_elem ms p1 np :
  let ms' := merge_step tol a_changed ms p1 in
  (np ∈ ms_qd ms' → np ∈ ms_qd ms) ∧
  (np ∈ ms_od ms' → np ∈ ms_od ms ∨ np = p1 ∨ np ∈ ms_qd ms) ∧
  (np ∈ ms_vd ms' → np ∈ ms_vd ms ∨ np = p1 ∨ np ∈ ms_qd ms).
Proof.
  cbn. unfold merge_step. destruct (position _ _) as [i|] eqn:Hp.
  - destruct (ms_qd ms !! i) as [p2|] eqn:Hi; [|naive_solver].
    assert (p2 ∈ ms_qd ms) by (by eapply list_elem_of_lookup_2).
    assert (∀ x, x ∈ delete i (ms_qd ms) → x ∈ ms_qd ms) as Hdel.
    { intros x Hx. eapply elem_of_submseteq; [exact Hx|]. apply sublist_submseteq, sublist_delete. }
    destruct (_ || _); cbn; [|case_bool_decide; cbn]; set_solver.
  - unfold keep_known. cbn. case_bool_decide; set_solver.
Qed.

Lemma merge_known_elem md qd np :
  let (od, vd) := merge_known tol a_changed md qd in
  (np ∈ od → np ∈ md ∨ np ∈ qd) ∧ (np ∈ vd → np ∈ md ∨ np ∈ qd).
Proof.
  unfold merge_known. set (ms := foldl _ _ _).
  assert ((∀ x, x ∈ ms_qd ms → x ∈ qd) ∧ (∀ x, x ∈ ms_od ms → x ∈ md ∨ x ∈ qd) ∧
          (∀ x, x ∈ ms_vd ms → x ∈ md ∨ x ∈ qd)) as (Hq & Ho & Hv).
  { apply (foldl_preserves (merge_step tol a_changed) (λ ms,
      (∀ x, x ∈ ms_qd ms → x ∈ qd) ∧ (∀ x, x ∈ ms_od ms → x ∈ md ∨ x ∈ qd) ∧
      (∀ x, x ∈ ms_vd ms → x ∈ md ∨ x ∈ qd))); [set_solver|].
    intros c a Ha (? & ? & ?). pose proof (λ x, merge_step_elem c a x) as Hstep. cbn in Hstep.
    split_and!; intros x Hx; destruct (Hstep x) as (Hs1 & Hs2 & Hs3); naive_solver. }
  split; [|by apply Hv]. intros [?|?]%elem_of_app; auto.
Qed.

(** A route all of whose candidates are dead leaves only dead entries behind,
    when a candidate exists: the known live path of that route is replaced. *)
Definition all_dead (r : list HCoord * list ArcId) (l : list NodePath) : Prop :=
  ∀ q, q ∈ l → route_key q = r → ep_cost (np_path q) = Dead.

Lemma merge_step_dead r ms p1 :
  all_dead r (ms_qd ms) → all_dead r (ms_od ms) → ep_cost (np_path p1) ≠ Dead →
  (route_key p1 = r → ∃ q, q ∈ ms_qd ms ∧ route_key q = r) →
  let ms' := merge_step tol a_changed ms p1 in
  all_dead r (ms_qd ms') ∧ all_dead r (ms_od ms').
Proof.
  cbn. intros Hq Ho Hl Hex.
  assert (∀ qd, all_dead r qd → route_key p1 ≠ r →
    all_dead r (ms_qd (keep_known a_changed p1 qd ms)) ∧
    all_dead r (ms_od (keep_known a_changed p1 qd ms))) as Hkeep.
  { intros qd Hqd Hne. cbn. split; [done|].
    intros q [?| ->%list_elem_of_singleton]%elem_of_app Hr; [by apply Ho|done]. }
  unfold merge_step. destruct (position _ _) as [i|] eqn:Hp.
  - apply position_Some in Hp as (p2 & Hi & Heq & _). rewrite Hi. apply route_key_eq in Heq.
    assert (p2 ∈ ms_qd ms) as Hin by (by eapply list_elem_of_lookup_2).
    assert (all_dead r (delete i (ms_qd ms))) as Hdel.
    { intros x Hx. apply Hq. eapply elem_of_submseteq; [exact Hx|]. apply sublist_submseteq, sublist_delete. }
    destruct (decide (route_key p1 = r)) as [Hr|Hr].
    + assert (important_variation (ep_cost (np_path p1)) (ep_cost (np_path p2)) = true) as ->.
      { unfold important_variation. rewrite (Hq p2) by congruence. by apply negb_true_iff, bool_decide_eq_false. }
      rewrite orb_true_r. cbn. split; [done|].
      intros q [?| ->%list_elem_of_singleton]%elem_of_app Hr'; [by apply Ho|by apply Hq].
    + destruct (_ || _); [|by apply Hkeep]. cbn. split; [done|].
      intros q [?| ->%list_elem_of_singleton]%elem_of_app Hr'; [by apply Ho|by apply Hq].
  - apply Hkeep; [done|]. intros Hr. destruct (Hex Hr) as (q & Hqi & Hqr).
    eapply position_None in Hp; [|exact Hqi]. apply route_key_neq in Hp. congruence.
Qed.

Lemma merge_step_keeps_candidate ms p1 q :
  q ∈ ms_qd ms → route_key q ≠ route_key p1 → q ∈ ms_qd (merge_step tol a_changed ms p1).
Proof.
  intros Hin Hne. unfold merge_step. destruct (position _ _) as [i|] eqn:Hp; [|done].
  apply position_Some in Hp as (p2 & Hi & Heq & _). rewrite Hi. apply route_key_eq in Heq.
  assert (q ∈ delete i (ms_qd ms)) as Hd.
  { rewrite delete_take_drop. rewrite <-(take_drop_middle _ _ _ Hi) in Hin.
    apply elem_of_app in Hin as [?|[->|?]%elem_of_cons]; [set_solver|congruence|set_solver]. }
  by destruct (_ || _).
Qed.

Lemma merge_known_dead r md qd :
  (∀ p, p ∈ md → ep_cost (np_path p) ≠ Dead) → NoDup (route_key <$> md) →
  (∃ q, q ∈ qd ∧ route_key q = r) → all_dead r qd →
  all_dead r (merge_known tol a_changed md qd).1.
Proof.
  intros Hl Hnd Hex Hqd. unfold merge_known. set (ms := foldl _ _ _). cbn.
  assert (all_dead r (ms_qd ms) ∧ all_dead r (ms_od ms) ∧
    ((∀ p, p ∈ md → route_key p ≠ r) → ∃ q, q ∈ ms_qd ms ∧ route_key q = r)) as (Hq & Ho & _).
  { apply (foldl_inv (merge_step tol a_changed) (λ pre ms, all_dead r (ms_qd ms) ∧
      all_dead r (ms_od ms) ∧ ((∀ p, p ∈ pre → route_key p ≠ r) → ∃ q, q ∈ ms_qd ms ∧ route_key q = r))).
    { split_and!; [done| |done]. intros q ?%elem_of_nil. done. }
    intros pre c a [suf Hpre] (H1 & H2 & H3). subst md.
    rewrite !fmap_app in Hnd. cbn in Hnd. apply NoDup_app in Hnd as [Hnd _].
    apply NoDup_app in Hnd as (_ & Hnd & _).
    assert (route_key a = r → ∃ q, q ∈ ms_qd c ∧ route_key q = r) as Hcand.
    { intros Ha. apply H3. intros p Hp Hpr. apply (Hnd (route_key p)); [by apply list_elem_of_fmap_2|].
      rewrite Hpr, Ha. by left. }
    destruct (merge_step_dead r c a) as [? ?]; [done..|apply Hl, elem_of_app; left; apply elem_of_app; right; by left|done|].
    split_and!; [done..|]. intros Hne. destruct H3 as (q & Hqi & Hqr).
    { intros p Hp. apply Hne, elem_of_app. by left. }
    exists q. split; [|done]. apply merge_step_keeps_candidate; [done|]. rewrite Hqr.
    symmetry. apply Hne, elem_of_app. right. by left. }
  intros q [?|?]%elem_of_app; auto.
Qed.
End Merge.

(** *** Repeated routes *)
Lemma dedup_routes_sublist seen l : dedup_routes seen l `sublist_of` l.
Proof.
  revert seen. induction l as [|np l IH]; intros seen; cbn; [done|].
  destruct (contains _ _); by constructor.
Qed.

Lemma dedup_routes_NoDup seen l :
  NoDup (route_key <$> dedup_routes seen l) ∧
  ∀ np, np ∈ dedup_routes seen l → route_key np ∉ seen.
Proof.
  revert seen. induction l as [|np l IH]; intros seen; cbn.
  { split; [constructor|]. by intros np ?%elem_of_nil. }
  destruct (contains _ _) eqn:Hc; [by apply IH|]. apply contains_false in Hc.
  destruct (IH (seen ++ [route_key np])) as [Hnd Hs]. split.
  - cbn. constructor; [|done]. intros (np' & Heq & Hin)%list_elem_of_fmap.
    apply Hs in Hin. apply Hin, elem_of_app. right. by apply list_elem_of_singleton.
  - intros np' [->|Hin]%elem_of_cons; [done|]. apply Hs in Hin. by apply not_elem_of_app in Hin as [? _].
Qed.

(** Every route is still represented, by its first carrier. *)
Lemma dedup_routes_complete seen l np :
  np ∈ l → route_key np ∉ seen → ∃ np', np' ∈ dedup_routes seen l ∧ route_key np' = route_key np.
Proof.
  revert seen. induction l as [|x l IH]; intros seen Hin Hns; [by apply elem_of_nil in Hin|]. cbn.
  destruct (contains _ _) eqn:Hc.
  - apply contains_true in Hc. apply elem_of_cons in Hin as [->|Hin]; [done|]. by apply IH.
  - destruct (decide (route_key np = route_key x)) as [Heq|Hne].
    { exists x. split; [by left|done]. }
    apply elem_of_cons in Hin as [->|Hin]; [done|].
    destruct (IH (seen ++ [route_key x])) as (np' & ? & ?); [done| |].
    { apply not_elem_of_app. split; [done|]. by intros ?%list_elem_of_singleton. }
    exists np'. split; [by right|done].
Qed.

(** *** Stages that read the state never fail *)

(** A candidate for destination [d]: what [revise_etp] yields for an arc this
    node has. *)
Definition candidate (s : QspnState) (d : HCoord) (np : NodePath) : Prop :=
  np_wf (st_my_naddr s) d np ∧ is_Some (st_arcs s !! np_arc np).

Lemma candidate_admitted s d np :
  candidate s d np → ep_cost (np_path np) ≠ Dead → admitted (st_my_naddr s) (st_arcs s) d np.
Proof. intros [? ?] ?. done. Qed.

Lemma admitted_candidate s d np :
  admitted (st_my_naddr s) (st_arcs s) d np → candidate s d np.
Proof. by intros (? & ? & ?). Qed.

Lemma np_wf_level my d np : np_wf my d np → hc_level d < topology_levels (na_topology my).
Proof.
  intros [[Hl _ Ha _ _ _] _]. apply last_Some in Hl as [l' Hl].
  eapply hops_asc_level; [exact Ha|]. rewrite Hl. set_solver.
Qed.

Section Totality.
Context `{HashOrder} (s : QspnState) (Hs : state_wf s).

Lemma level_map l : l < st_levels s → ∃ m, st_destinations s !! l = Some m.
Proof. intros Hl. apply lookup_lt_is_Some_2. by rewrite (sw_levels s Hs). Qed.

Lemma scan_hops_Ok sizes hops :
  (∀ h, h ∈ hops → hc_level h < st_levels s) → is_Ok (scan_hops s sizes hops).
Proof.
  revert sizes. induction hops as [|h hops IH]; intros sizes Hl; cbn; [eauto with ntk|].
  destruct (level_map (hc_level h)) as [m Hm]; [apply Hl; by left|]. rewrite Hm. cbn.
  destruct (m !! hc_pos h) as [dest|] eqn:Hd; [|eauto with ntk].
  destruct (evaluate_dest_Ok s _ _ _ _ Hs Hm Hd) as [r ->]. cbn. apply IH. set_solver.
Qed.

Lemma prune_unknown_Ok d od :
  Forall (candidate s d) od →
  ∃ kept sizes, prune_unknown s od = Ok (kept, sizes) ∧ kept `sublist_of` od.
Proof.
  intros Hc. unfold prune_unknown. generalize (∅ : gmap HCoord Z) as sz.
  assert (∀ acc sz, ∃ kept sizes, foldM (prune_step s) (acc, sz) od = Ok (acc ++ kept, sizes) ∧
    kept `sublist_of` od) as Hgen; [|intros sz; apply (Hgen [])].
  induction Hc as [|np od [[[_ _ Ha _ _ _] _] _] Hod IH]; intros acc sz; cbn [foldM].
  { exists [], sz. by rewrite app_nil_r. }
  destruct (scan_hops_Ok sz (take (length (ep_hops (np_path np)) - 1) (ep_hops (np_path np)))) as [r Hr].
  { intros h Hh. eapply hops_asc_level; [exact Ha|]. apply elem_of_take in Hh as (i & Hi & _).
    by eapply list_elem_of_lookup_2. }
  assert (prune_step s (acc, sz) np = Ok (if (r.1 : bool) then acc else acc ++ [np], r.2)) as ->
    by (unfold prune_step; cbn [fst snd]; by rewrite Hr).
  cbn. destruct r.1.
  - destruct (IH acc r.2) as (kept & sizes & -> & ?). exists kept, sizes. split; [done|]. by constructor.
  - destruct (IH (acc ++ [np]) r.2) as (kept & sizes & -> & ?). exists (np :: kept), sizes.
    split; [by rewrite <-app_assoc|by constructor].
Qed.

Lemma direct_neighbors_Ok : is_Ok (direct_neighbors s).
Proof.
  unfold direct_neighbors, is_Ok.
  edestruct (foldM_total (E:=QspnError) (λ (vnd : list HCoord) (ie : Z * ArcEntry),
    match ae_peer_naddr ie.2 with
    | None => Ok vnd
    | Some peer =>
        c ← map_err Common (hcoord (st_my_naddr s) peer);
        Ok (match c with Some v => push_new vnd v | None => vnd end)
    end) (λ _, True) [] (bt_iter (st_arcs s))) as (r & Hr & _); [done| |by exists r].
  intros c [a e] Ha%elem_of_bt_iter _. cbn. destruct (ae_peer_naddr e) as [peer|] eqn:Hp; [|eauto].
  destruct (sw_arcs s Hs a e Ha peer Hp) as [Hw Ht].
  destruct (hcoord_total (st_my_naddr s) peer) as [h ->]; [apply Hs|done|done|]. cbn. eauto.
Qed.

Lemma admission_ratio_Ok d : hc_level d < st_levels s → is_Ok (admission_ratio s d).
Proof.
  intros Hl. unfold admission_ratio. destruct (level_map _ Hl) as [m Hm]. rewrite Hm. cbn.
  destruct (m !! hc_pos d) as [dest|] eqn:Hd; [|eauto with ntk].
  destruct (evaluate_dest_Ok s _ _ _ _ Hs Hm Hd) as [r ->]. cbn.
  destruct (exposed_paths_Ok s d Hs) as [e ->]. cbn. eauto with ntk.
Qed.

Lemma hop_overlap_Ok w sizes p1 p2 acc i :
  length (ep_hops p2) = length (ep_arcs p2) → S i < length (ep_hops p2) →
  is_Ok (hop_overlap w sizes p1 p2 acc i).
Proof.
  intros Hlen Hi. unfold hop_overlap.
  destruct (lookup_lt_is_Some_2 (ep_hops p2) i) as [h ->]; [lia|]. cbn.
  destruct (lookup_lt_is_Some_2 (ep_arcs p2) i) as [a1 ->]; [lia|]. cbn.
  destruct (lookup_lt_is_Some_2 (ep_arcs p2) (S i)) as [a2 ->]; [lia|]. cbn. eauto with ntk.
Qed.

Lemma dest_overlap_Ok d p1 p2 acc :
  hc_level d < st_levels s → ep_hops p2 ≠ [] → length (ep_hops p2) = length (ep_arcs p2) →
  is_Ok (dest_overlap s d p1 p2 acc).
Proof.
  intros Hl Hne Hlen. unfold dest_overlap. destruct (_ <? _); [|eauto with ntk].
  destruct (level_map _ Hl) as [m Hm]. rewrite Hm. cbn.
  destruct (m !! hc_pos d) as [dest|] eqn:Hd; [|eauto with ntk].
  destruct (evaluate_dest_Ok s _ _ _ _ Hs Hm Hd) as [r ->]. cbn -[f64_gtb f64_floor f64_sub].
  destruct (f64_gtb _ _); [|eauto with ntk].
  destruct (ep_hops p2) as [|h hops]; [done|]. cbn [length] in *.
  destruct (lookup_lt_is_Some_2 (ep_arcs p2) (length hops)) as [a ->]; [lia|cbn; eauto with ntk].
Qed.

Lemma overlaps_Ok d sizes mch p1 p2 :
  hc_level d < st_levels s → ep_hops p2 ≠ [] → length (ep_hops p2) = length (ep_arcs p2) →
  is_Ok (overlaps s d sizes mch p1 p2).
Proof.
  intros Hl Hne Hlen. unfold overlaps. apply bind_is_Ok.
  - edestruct (foldM_total (hop_overlap (overlap_weights (st_config s)) sizes p1 p2) (λ _, True)
      (f64_zero, f64_zero) (seq 0 (length (ep_hops p2) - 1))) as (r & Hr & _); [done| |by exists r].
    intros acc i Hi%elem_of_seq _.
    destruct (hop_overlap_Ok (overlap_weights (st_config s)) sizes p1 p2 acc i) as [r Hr]; [done|lia|eauto].
  - intros a _. apply bind_is_Ok; [by apply dest_overlap_Ok|eauto with ntk].
Qed.

Lemma disjoint_from_Ok d sizes mch p1 rd :
  hc_level d < st_levels s → Forall (candidate s d) rd → is_Ok (disjoint_from s d sizes mch p1 rd).
Proof.
  intros Hl Hc. induction Hc as [|p2 rd [Hp2 _] Hrd IH]; cbn; [eauto with ntk|].
  destruct (overlaps_Ok d sizes mch p1 (np_path p2)) as [b ->]; [done| |by destruct Hp2 as [[] _]|].
  { by eapply np_wf_hops. }
  cbn. destruct b; [eauto with ntk|done].
Qed.

(** *** Disjoint-path admission *)
Definition alive (np : NodePath) : Prop := ep_cost (np_path np) ≠ Dead.

Lemma is_dead_true c : is_dead c = true ↔ c = Dead.
Proof. destruct c; naive_solver. Qed.

Lemma cover_rd am p1 : am_rd (cover am p1).2 = am_rd am.
Proof. done. Qed.

(** One iteration of the loop, abstracted: the admitted set grows by the path or
    stays, and never passes the hard bound. *)
Lemma admit_loop_spec d sizes mch am od :
  hc_level d < st_levels s → Forall (candidate s d) od → Forall (candidate s d) (am_rd am) →
  (Z.of_nat (length (am_rd am)) ≤ path_bound (st_config s))%Z →
  ∃ am' add, admit_loop s d sizes mch am od = Ok am' ∧ am_rd am' = am_rd am ++ add ∧
    add `sublist_of` od ∧ Forall alive add ∧
    (Z.of_nat (length (am_rd am')) ≤ path_bound (st_config s))%Z.
Proof.
  intros Hl Hc. revert am. induction Hc as [|p1 od Hp1 Hod IH]; intros am Hrd Hb; cbn [admit_loop].
  { exists am, []. rewrite app_nil_r. split_and!; done. }
  destruct (is_dead _) eqn:Hdead.
  { exists am, []. rewrite app_nil_r. split_and!; [done..|by apply sublist_nil_l|done|done]. }
  assert (alive p1) as Halive by (intros E; by rewrite E in Hdead).
  destruct (cover am p1) as [mandatory am'] eqn:Hcov.
  assert (am_rd am' = am_rd am) as Hsame by (by rewrite <-(cover_rd am p1), Hcov).
  rewrite <-Hsame in Hrd, Hb. rewrite <-Hsame. clear am Hcov Hsame.
  assert (Hskip : ∃ am2 add, admit_loop s d sizes mch am' od = Ok am2 ∧ am_rd am2 = am_rd am' ++ add ∧
    add `sublist_of` (p1 :: od) ∧ Forall alive add ∧
    (Z.of_nat (length (am_rd am2)) ≤ path_bound (st_config s))%Z).
  { destruct (IH am') as (am2 & add & ? & ? & ? & ? & ?); [done..|]. exists am2, add.
    split_and!; [done..|by constructor|done|done]. }
  assert (Htake : (Z.of_nat (length (am_rd am')) < path_bound (st_config s))%Z →
    ∃ am2 add, admit_loop s d sizes mch (admit_path am' p1) od = Ok am2 ∧
      am_rd am2 = am_rd am' ++ add ∧ add `sublist_of` (p1 :: od) ∧ Forall alive add ∧
      (Z.of_nat (length (am_rd am2)) ≤ path_bound (st_config s))%Z).
  { intros Hlt. destruct (IH (admit_path am' p1)) as (am2 & add & ? & Heq & ? & ? & ?);
      [apply Forall_app; by split; [|constructor]|cbn; rewrite length_app; cbn; lia|].
    exists am2, (p1 :: add). cbn in Heq. rewrite Heq, <-app_assoc.
    split_and!; [done..|by constructor|by constructor|]. rewrite <-app_assoc in Heq. by rewrite <-Heq. }
  destruct mandatory.
  - destruct (Z.ltb_spec (Z.of_nat (length (am_rd am'))) (usize_saturating_mul (max_paths (st_config s)) MANDATORY_PATH_FACTOR));
      [by apply Htake|done].
  - destruct (Z.leb_spec (max_paths (st_config s)) (Z.of_nat (length (am_rd am')))); [done|].
    destruct (disjoint_from_Ok d sizes mch (np_path p1) (am_rd am')) as [b ->]; [done..|]. cbn.
    pose proof (max_paths_bound s Hs). destruct b; [apply Htake; lia|done].
Qed.

(** What the admission has to cover, and what it has seen.  [vnd] and [z1d] are
    the initial obligations; the loop state holds the ones still open. *)
Definition covered (vnd z1d : list HCoord) (am : AdmitState) : Prop :=
  (∀ f, f ∈ am_fd am → ∃ r, r ∈ am_rd am ∧ identity_eq f (np_fp r) = true) ∧
  (∀ g, g ∈ vnd → g ∈ am_vnd am ∨ ∃ r, r ∈ am_rd am ∧ g ∉ ep_hops (np_path r)) ∧
  (∀ g, g ∈ z1d → g ∈ am_z1d am ∨ ∃ r, r ∈ am_rd am ∧ g ∈ ep_hops (np_path r)).

Definition seen_path (am : AdmitState) (p : NodePath) : Prop :=
  (∃ f, f ∈ am_fd am ∧ identity_eq f (np_fp p) = true) ∧
  (∀ g, g ∈ am_vnd am → g ∈ ep_hops (np_path p)) ∧
  (∀ g, g ∈ am_z1d am → g ∉ ep_hops (np_path p)).

(** The paths in front of the first dead one: those the loop looks at. *)
Fixpoint live_prefix (od : list NodePath) : list NodePath :=
  match od with
  | [] => []
  | p :: od' => if is_dead (ep_cost (np_path p)) then [] else p :: live_prefix od'
  end.

Lemma cover_seen am p : seen_path (cover am p).2 p.
Proof.
  unfold cover, seen_path. cbn. split_and!.
  - destruct (any _ _) eqn:Ha; cbn; [by apply any_true in Ha|].
    exists (np_fp p). split; [set_solver|apply identity_eq_refl].
  - intros g [_ Hg]%elem_of_retain. by apply contains_true in Hg.
  - intros g [_ Hg]%elem_of_retain. by apply negb_true_iff, contains_false in Hg.
Qed.

Lemma cover_keeps_seen am p q : seen_path am q → seen_path (cover am p).2 q.
Proof.
  unfold cover, seen_path. cbn. intros ((f & Hf & Hq) & Hv & Hz). split_and!.
  - exists f. split; [|done]. destruct (negb _); set_solver.
  - intros g [Hg _]%elem_of_retain. auto.
  - intros g [Hg _]%elem_of_retain. auto.
Qed.

Lemma covered_optional vnd z1d am p :
  (cover am p).1 = false → covered vnd z1d am → covered vnd z1d (cover am p).2.
Proof.
  unfold cover. cbn. rewrite !orb_false_iff, !Nat.ltb_ge. intros [[Hf Hv] Hz] (? & ? & ?).
  unfold covered. cbn. rewrite Hf, !retain_full by done. done.
Qed.

Lemma covered_admit vnd z1d am p :
  covered vnd z1d am → covered vnd z1d (admit_path (cover am p).2 p).
Proof.
  unfold covered, cover. cbn. intros (Hf & Hv & Hz).
  assert (∀ P : NodePath → Prop, (∃ r, r ∈ am_rd am ∧ P r) → ∃ r, r ∈ am_rd am ++ [p] ∧ P r) as Hold
    by (intros P (r & ? & ?); exists r; set_solver).
  assert (∀ P : NodePath → Prop, P p → ∃ r, r ∈ am_rd am ++ [p] ∧ P r) as Hnew
    by (intros P ?; exists p; set_solver).
  split_and!.
  - intros f Hin. destruct (any _ _) eqn:Ha; cbn in Hin; [auto|].
    apply elem_of_app in Hin as [?| ->%list_elem_of_singleton]; [auto|]. apply Hnew, identity_eq_refl.
  - intros g Hg. destruct (Hv g Hg) as [?|?]; [|auto].
    destruct (decide (g ∈ ep_hops (np_path p))); [left|right; by apply Hnew].
    apply elem_of_retain. split; [done|]. by apply contains_true.
  - intros g Hg. destruct (Hz g Hg) as [?|?]; [|auto].
    destruct (decide (g ∈ ep_hops (np_path p))); [right; by apply Hnew|left].
    apply elem_of_retain. split; [done|]. by apply negb_true_iff, contains_false.
Qed.

Lemma admit_loop_grows d sizes mch am od am' :
  admit_loop s d sizes mch am od = Ok am' → length (am_rd am) ≤ length (am_rd am').
Proof.
  revert am. induction od as [|p1 od IH]; intros am Hadm; cbn [admit_loop] in Hadm; [by simplify_eq|].
  destruct (is_dead _); [by simplify_eq|].
  pose proof (cover_rd am p1) as Hsame. destruct (cover am p1) as [mandatory am1]. cbn in Hsame.
  assert (∀ am2, (am2 = am1 ∨ am2 = admit_path am1 p1) →
    admit_loop s d sizes mch am2 od = Ok am' → length (am_rd am) ≤ length (am_rd am')) as Hstep.
  { rewrite <-Hsame. intros am2 [->| ->] Hl%IH; cbn in Hl; [done|]. rewrite length_app in Hl. lia. }
  destruct mandatory; [|destruct (_ <=? _)%Z; [eauto|]; apply bind_Ok in Hadm as (b & _ & Hadm)];
    case_in Hadm; (eapply Hstep; [|exact Hadm]; auto).
Qed.

(** While the hard bound is not reached, every obligation that some live
    candidate can meet is met by an admitted path. *)
Lemma admit_loop_covers d sizes mch vnd z1d am od am' :
  hc_level d < st_levels s → Forall (candidate s d) od → Forall (candidate s d) (am_rd am) →
  admit_loop s d sizes mch am od = Ok am' →
  (Z.of_nat (length (am_rd am')) < path_bound (st_config s))%Z →
  covered vnd z1d am →
  covered vnd z1d am' ∧ Forall (seen_path am') (live_prefix od) ∧
  (∀ q, seen_path am q → seen_path am' q).
Proof.
  intros Hl Hc. revert am. induction Hc as [|p1 od Hp1 Hod IH]; intros am Hrd Hadm Hb Hcov.
  { simplify_eq/=. done. }
  cbn [admit_loop live_prefix] in *. destruct (is_dead _); [by simplify_eq|].
  pose proof (covered_optional vnd z1d am p1) as Hopt. pose proof (covered_admit vnd z1d am p1 Hcov) as Hadd.
  pose proof (cover_seen am p1) as Hseen. pose proof (cover_keeps_seen am p1) as Hkeep.
  destruct (cover am p1) as [mandatory am1] eqn:Hc1. cbn [fst snd] in *.
  assert (am_rd am1 = am_rd am) as Hsame by (by rewrite <-(cover_rd am p1), Hc1).
  assert (Hstep : ∀ am2, (am2 = am1 ∨ am2 = admit_path am1 p1) → covered vnd z1d am2 →
    admit_loop s d sizes mch am2 od = Ok am' →
    covered vnd z1d am' ∧ Forall (seen_path am') (p1 :: live_prefix od) ∧
    (∀ q, seen_path am q → seen_path am' q)).
  { intros am2 Ham2 Hcov2 Hl2. destruct (IH am2) as (? & ? & Hk); [|done..|].
    - destruct Ham2 as [->| ->]; cbn; rewrite ?Hsame; [done|]. apply Forall_app. by split; [|constructor].
    - assert (∀ q, seen_path am1 q → seen_path am' q) as Hk1.
      { intros q Hq. apply Hk. destruct Ham2 as [->| ->]; exact Hq. }
      split_and!; [done|constructor; auto|auto]. }
  destruct mandatory.
  - destruct (Z.ltb_spec (Z.of_nat (length (am_rd am1))) (usize_saturating_mul (max_paths (st_config s)) MANDATORY_PATH_FACTOR)) as [Hlt|Hge].
    + apply (Hstep (admit_path am1 p1)); auto.
    + apply admit_loop_grows in Hadm. unfold path_bound, MANDATORY_PATH_FACTOR in *. lia.
  - destruct (Z.leb_spec (max_paths (st_config s)) (Z.of_nat (length (am_rd am1)))); [apply (Hstep am1); auto|].
    apply bind_Ok in Hadm as (b & _ & Hadm). destruct b; [|apply (Hstep am1); auto].
    apply (Hstep (admit_path am1 p1)); auto.
Qed.

(** *** The new path set *)
Lemma paths_wf_alive my arcs c d paths np : paths_wf my arcs c d paths → np ∈ paths → alive np.
Proof. intros [Ha _ _] Hin. rewrite Forall_forall in Ha. by destruct (Ha np Hin) as (_ & ? & _). Qed.

Lemma select_paths_spec qd d a_changed z_set ac md :
  hc_level d < st_levels s → Forall (candidate s d) qd →
  paths_wf (st_my_naddr s) (st_arcs s) (st_config s) d md →
  ∃ rd vd, select_paths s qd d a_changed z_set ac md = Ok (rd, vd) ∧
    paths_wf (st_my_naddr s) (st_arcs s) (st_config s) d rd ∧
    (∀ np, np ∈ rd → np ∈ md ∨ np ∈ qd) ∧
    (∀ r, (∃ q, q ∈ qd ∧ route_key q = r) → all_dead r qd → ∀ np, np ∈ rd → route_key np ≠ r).
Proof.
  intros Hl Hq Hmd. unfold select_paths.
  set (tol := nodes_inside_tolerance (st_config s)).
  pose proof (λ np, merge_known_elem tol a_changed md qd np) as Hel.
  pose proof (λ r, merge_known_dead tol a_changed r md qd) as Hdead.
  destruct (merge_known tol a_changed md qd) as [od0 vd]. cbn [fst snd] in Hdead.
  assert (Forall (candidate s d) (sort_by (np_leb ac) od0)) as Hod.
  { apply Forall_forall. intros np Hin%elem_of_sort_by. rewrite Forall_forall in Hq.
    destruct Hmd as [Ha _ _]. rewrite Forall_forall in Ha.
    destruct (Hel np) as [[?|?]%(λ H, H Hin) _]; [by apply admitted_candidate, Ha|by apply Hq]. }
  destruct (prune_unknown_Ok d _ Hod) as (kept & sizes & -> & Hkept). cbn [mbind res_bind fst snd].
  destruct direct_neighbors_Ok as [vnd ->]. cbn [mbind res_bind].
  destruct (admission_ratio_Ok d Hl) as [mch ->]. cbn [mbind res_bind].
  pose proof (dedup_routes_sublist [] kept) as Hdd. destruct (dedup_routes_NoDup [] kept) as [Hnd _].
  assert (dedup_routes [] kept `sublist_of` sort_by (np_leb ac) od0) as Hsub by (by etrans).
  destruct (admit_loop_spec d sizes mch (mkAdmitState [] vnd (concat (take (hc_level d) z_set)) [])
    (dedup_routes [] kept)) as (am & add & Ham & Hrd & Hadd & Halive & Hb); [done| |constructor| |].
  { eapply Forall_forall. intros np Hin. rewrite Forall_forall in Hod. apply Hod. by eapply elem_of_sublist. }
  { cbn. apply path_bound_nonneg, Hs. }
  unfold admit_paths. rewrite Ham. cbn. cbn in Hrd. rewrite Hrd in *.
  assert (∀ np, np ∈ add → np ∈ sort_by (np_leb ac) od0) as Hin_od.
  { intros np Hin. eapply elem_of_sublist; [exact Hin|]. by etrans. }
  eexists add, vd. split_and!; [done| | |].
  - constructor; [|by eapply sublist_NoDup; [exact Hnd|apply fmap_sublist]|done].
    apply Forall_forall. intros np Hin. rewrite Forall_forall in Halive. rewrite Forall_forall in Hod.
    apply candidate_admitted; [auto|by apply Halive].
  - intros np Hin%Hin_od%elem_of_sort_by. destruct (Hel np) as [? _]. auto.
  - intros r Hex Hd np Hin Hr. rewrite Forall_forall in Halive. apply (Halive np Hin).
    eapply (Hdead r); [|by destruct Hmd|done|done| |done].
    + intros p Hp. by eapply paths_wf_alive.
    + by apply elem_of_sort_by with (le := np_leb ac), Hin_od.
Qed.
End Totality.

(** *** Announcements *)

(** A path without its exposure flag. *)
Definition core (np : NodePath) : ArcId * EtpPath := (np_arc np, np_path np).

Lemma core_expose np : core (expose np) = core np.
Proof. done. Qed.

Lemma core_insert_expose (l : list NodePath) i o :
  l !! i = Some o → core <$> <[i := expose o]> l = core <$> l.
Proof.
  intros Hi. rewrite list_fmap_insert, core_expose. apply list_insert_id.
  by rewrite list_lookup_fmap, Hi.
Qed.

Lemma core_elem (l l' : list NodePath) np :
  core <$> l = core <$> l' → np ∈ l → ∃ np', np' ∈ l' ∧ core np' = core np.
Proof.
  intros Heq Hin. apply (list_elem_of_fmap_2 core) in Hin. rewrite Heq in Hin.
  apply list_elem_of_fmap in Hin as (np' & ? & ?). eauto.
Qed.

Lemma core_admitted my arcs d np np' :
  core np' = core np → admitted my arcs d np → admitted my arcs d np'.
Proof. unfold admitted, np_wf. intros [= -> ->]. done. Qed.

Lemma core_route np np' : core np' = core np → route_key np' = route_key np.
Proof. unfold route_key. by intros [= _ ->]. Qed.

Lemma paths_wf_core my arcs c d (l l' : list NodePath) :
  core <$> l' = core <$> l → paths_wf my arcs c d l → paths_wf my arcs c d l'.
Proof.
  intros Heq [Ha Hnd Hb]. constructor.
  - apply Forall_forall. intros np Hin. destruct (core_elem _ _ _ Heq Hin) as (np' & Hin' & Hc).
    rewrite Forall_forall in Ha. by eapply core_admitted, Ha.
  - assert (∀ k : list NodePath, route_of <$> k = (λ c : ArcId * EtpPath, (ep_hops c.2, ep_arcs c.2)) <$> (core <$> k)) as Hr.
    { intros k. rewrite <-list_fmap_compose. done. }
    rewrite Hr, Heq, <-Hr. done.
  - apply (f_equal length) in Heq. rewrite !length_fmap in Heq. by rewrite Heq.
Qed.

Definition is_path_event (e : QspnEvent) : Prop :=
  match e with PathAdded _ | PathChanged _ | PathRemoved _ => True | _ => False end.

Section Announce.
Context (d : HCoord) (ac : ArcId → Cost) (md rd vd : list NodePath) (valid : option (Fp * Z)).

Definition withdrawal (np : NodePath) : EtpPath := with_cost (sendable ac np) Dead.

Lemma sendable_core np np' : core np' = core np → sendable ac np' = sendable ac np.
Proof. unfold sendable, prepare_for_sending, total_cost. by intros [= -> ->]. Qed.

(** After the loop over the admitted paths. *)
Record announced_new (pre : list NodePath) (es : EmitState) : Prop := {
  an_od : core <$> es_od es = core <$> pre;
  an_new : ∀ o, o ∈ pre → (∀ m, m ∈ md → route_key m ≠ route_key o) → sendable ac o ∈ es_all es;
  an_sound : ∀ e, e ∈ es_all es → ∃ o, o ∈ pre ∧ e = sendable ac o;
  an_events : Forall is_path_event (es_sd es)
}.

Lemma announce_new_spec pre es p :
  (0 < hc_level d → is_Some valid) → announced_new pre es →
  ∃ es', announce_new d ac md valid es p = Ok es' ∧ announced_new (pre ++ [p]) es'.
Proof.
  intros Hv [Hod Hnew Hs Hev]. unfold announce_new. destruct (any _ _) eqn:Ha.
  - eexists. split; [done|]. constructor; cbn.
    + by rewrite !fmap_app, Hod.
    + intros o [?| ->%list_elem_of_singleton]%elem_of_app Hm; [by apply Hnew|].
      apply any_true in Ha as (m & Hin & Heq%route_key_eq). by destruct (Hm m).
    + intros e He. destruct (Hs e He) as (o & ? & ->). exists o. set_solver.
    + done.
  - assert (∀ od sd, core <$> od = core <$> es_od es ++ [p] → Forall is_path_event sd →
      announced_new (pre ++ [p]) (mkEmitState od sd (es_all es ++ [sendable ac p]))) as Hmk.
    { intros od sd Hc Hsd. constructor; cbn; [by rewrite Hc, !fmap_app, Hod| | |done].
      - intros o [?| ->%list_elem_of_singleton]%elem_of_app Hm; apply elem_of_app; [left; by apply Hnew|].
        right. by left.
      - intros e [He| ->%list_elem_of_singleton]%elem_of_app; [|exists p; set_solver].
        destruct (Hs e He) as (o & ? & ->). exists o. set_solver. }
    assert (Forall is_path_event (es_sd es ++ [PathAdded (route ac p)])) as Hsd
      by (apply Forall_app; by repeat constructor).
    destruct (Nat.eqb_spec (hc_level d) 0) as [E0|E0]; [eexists; by split; [|apply Hmk]|].
    destruct Hv as [[f n] ->]; [lia|]. cbn.
    destruct (same_branch _ _ _ _); eexists; (split; [done|]); apply Hmk; try done.
    by rewrite !fmap_app.
Qed.

(** After the loop over the known paths. *)
Record announced_known (all0 : list EtpPath) (pre : list NodePath) (es : EmitState) : Prop := {
  ak_od : core <$> es_od es = core <$> rd;
  ak_keep : ∀ e, e ∈ all0 → e ∈ es_all es;
  ak_gone : ∀ p, p ∈ pre → (∀ o, o ∈ rd → route_key o ≠ route_key p) → withdrawal p ∈ es_all es;
  ak_sound : ∀ e, e ∈ es_all es → e ∈ all0 ∨
    (∃ p, p ∈ pre ∧ (∀ o, o ∈ rd → route_key o ≠ route_key p) ∧ e = withdrawal p) ∨
    (∃ o, o ∈ rd ∧ e = sendable ac o);
  ak_events : Forall is_path_event (es_sd es)
}.

Lemma announced_known_add all0 pre es p od sd extra :
  announced_known all0 pre es → core <$> od = core <$> es_od es →
  Forall is_path_event sd →
  (∀ e, e ∈ extra → ((∀ o, o ∈ rd → route_key o ≠ route_key p) ∧ e = withdrawal p) ∨
    (∃ o, o ∈ rd ∧ e = sendable ac o)) →
  ((∀ o, o ∈ rd → route_key o ≠ route_key p) → withdrawal p ∈ extra) →
  announced_known all0 (pre ++ [p]) (mkEmitState od sd (es_all es ++ extra)).
Proof.
  intros [Hod Hkeep Hgone Hs Hev] Hc Hsd Hex Hg. constructor; cbn.
  - congruence.
  - intros e He. apply elem_of_app. auto.
  - intros q [Hq| ->%list_elem_of_singleton]%elem_of_app Hr; apply elem_of_app; auto.
  - intros e [He|He]%elem_of_app.
    + destruct (Hs e He) as [?|[(q & ? & ?)|?]]; [auto| |auto]. right. left. exists q.
      split; [set_solver|done].
    + right. destruct (Hex e He) as [[? ->]|?]; [left|by right]. exists p. split; [set_solver|done].
  - done.
Qed.

Lemma announce_known_spec all0 pre es p :
  (rd ≠ [] → 0 < hc_level d → is_Some valid) → announced_known all0 pre es →
  ∃ es', announce_known d ac vd valid es p = Ok es' ∧ announced_known all0 (pre ++ [p]) es'.
Proof.
  intros Hv Hk. pose proof (ak_od _ _ _ Hk) as Hod. pose proof (ak_events _ _ _ Hk) as Hev.
  unfold announce_known. destruct (position _ _) as [i|] eqn:Hp.
  - apply position_Some in Hp as (o & Hi & Heq%route_key_eq & _).
    destruct (core_elem _ _ o Hod) as (o' & Ho' & Hco); [by eapply list_elem_of_lookup_2|].
    assert (∀ (P : Prop), (∀ o, o ∈ rd → route_key o ≠ route_key p) → P) as Hno.
    { intros P Hall. destruct (Hall o' Ho'). by rewrite (core_route _ _ Hco). }
    assert (rd ≠ []) as Hrd by (intros E; rewrite E in Ho'; by apply elem_of_nil in Ho').
    assert (∀ od sd, core <$> od = core <$> es_od es → Forall is_path_event sd →
      announced_known all0 (pre ++ [p]) (mkEmitState od sd (es_all es ++ [sendable ac o]))) as Hmk.
    { intros od sd Hc Hsd. eapply announced_known_add; [done..| |by apply Hno].
      intros e ->%list_elem_of_singleton. right. exists o'. split; [done|]. by apply sendable_core. }
    assert (∀ e, is_path_event e → Forall is_path_event (es_sd es ++ [e])) as Hsd
      by (intros; apply Forall_app; by repeat constructor).
    destruct (negb _).
    { exists es. split; [done|].
      pose proof (announced_known_add all0 pre es p (es_od es) (es_sd es) []) as Hadd.
      destruct es; cbn in *. rewrite app_nil_r in *. apply Hadd; [done..| |by apply Hno].
      by intros e ?%elem_of_nil. }
    rewrite Hi. cbn. destruct (Nat.eqb_spec (hc_level d) 0) as [E0|E0].
    { eexists. split; [done|]. apply Hmk; [done|]. by apply Hsd. }
    destruct Hv as [[f n] ->]; [done|lia|]. cbn.
    destruct (np_exposed p), (same_branch _ _ _ _); eexists; (split; [done|]); apply Hmk;
      auto using core_insert_expose; by apply Hsd.
  - eexists. split; [done|]. rewrite position_None in Hp.
    eapply announced_known_add; [done|done| | |].
    + destruct (_ || _); [|done]. apply Forall_app. by repeat constructor.
    + intros e ->%list_elem_of_singleton. left. split; [|done].
      intros o Ho Heq. destruct (core_elem rd (es_od es) o) as (o' & Ho' & Hc); [done..|].
      specialize (Hp o' Ho'). apply route_key_neq in Hp. apply Hp. by rewrite (core_route _ _ Hc).
    + intros _. by apply list_elem_of_singleton.
Qed.
End Announce.

Lemma valid_branch_Ok d rd :
  fps_at (hc_level d) rd →
  ∃ valid, valid_branch d rd = Ok valid ∧ (rd ≠ [] → 0 < hc_level d → is_Some valid).
Proof.
  intros Hf. unfold valid_branch. destruct (Nat.ltb_spec 0 (hc_level d)) as [Hl|Hl].
  - destruct (decide (rd = [])) as [->|Hne]; [by exists None|].
    destruct (winning_fingerprint_Ok (hc_level d) rd) as (p & _ & ->); [done..|]. cbn.
    eexists. split; [done|]. eauto.
  - exists None. split; [done|]. lia.
Qed.

Lemma path_event_not_dest d e : is_path_event e → e ≠ DestinationAdded d ∧ e ≠ DestinationRemoved d.
Proof. by destruct e. Qed.

(** What the announcements of one destination say about its change from the
    paths [md] to the paths [rd]. *)
Record announced (d : HCoord) (ac : ArcId → Cost) (md rd : list NodePath) (es : EmitState) : Prop := {
  ad_od : core <$> es_od es = core <$> rd;
  ad_new : ∀ o, o ∈ rd → (∀ m, m ∈ md → route_key m ≠ route_key o) → sendable ac o ∈ es_all es;
  ad_gone : ∀ p, p ∈ md → (∀ o, o ∈ rd → route_key o ≠ route_key p) → withdrawal ac p ∈ es_all es;
  ad_sound : ∀ e, e ∈ es_all es →
    (∃ p, p ∈ md ∧ (∀ o, o ∈ rd → route_key o ≠ route_key p) ∧ e = withdrawal ac p) ∨
    (∃ o, o ∈ rd ∧ e = sendable ac o);
  ad_events : ∀ e, e ∈ es_sd es → is_path_event e ∨
    (e = DestinationAdded d ∧ md = [] ∧ rd ≠ []) ∨ (e = DestinationRemoved d ∧ md ≠ [] ∧ rd = []);
  ad_added : md = [] → rd ≠ [] → DestinationAdded d ∈ es_sd es;
  ad_removed : md ≠ [] → rd = [] → DestinationRemoved d ∈ es_sd es
}.

Lemma core_nil (l l' : list NodePath) : core <$> l = core <$> l' → l = [] ↔ l' = [].
Proof. destruct l, l'; cbn; naive_solver. Qed.

Lemma announce_spec d ac md rd vd :
  fps_at (hc_level d) rd → ∃ es, announce d ac md rd vd = Ok es ∧ announced d ac md rd es.
Proof.
  intros Hf. unfold announce. destruct (valid_branch_Ok d rd Hf) as (valid & -> & Hv). cbn.
  destruct (foldM_total_inv (announce_new d ac md valid) (announced_new ac md) (mkEmitState [] [] []) rd)
    as (es1 & -> & [Hod Hnew Hs Hev]).
  { constructor; cbn; [done|by intros ? ?%elem_of_nil|by intros ? ?%elem_of_nil|done]. }
  { intros pre es p [suf Hsuf] Hes. apply announce_new_spec; [|done]. apply Hv. intros ->.
    by apply (f_equal length) in Hsuf; rewrite !length_app in Hsuf; cbn in Hsuf; lia. }
  cbn. destruct (foldM_total_inv (announce_known d ac vd valid) (announced_known ac rd (es_all es1)) es1 md)
    as (es2 & -> & [Hod2 Hkeep Hgone Hs2 Hev2]).
  { constructor; [done|auto|by intros ? ?%elem_of_nil|auto|done]. }
  { intros pre es p _ Hes. by apply announce_known_spec. }
  cbn. eexists. split; [done|]. pose proof (core_nil _ _ Hod2) as Hnil. rewrite Forall_forall in Hev2.
  constructor; cbn; [done|auto|auto| | | |].
  - intros e He. destruct (Hs2 e He) as [He'|?]; [|auto]. right. auto.
  - intros e He. destruct md as [|m md], (es_od es2) as [|o od]; [auto| | |auto].
    + apply elem_of_cons in He as [->|He]; [|auto]. right. left. split_and!; [done..|].
      intros E. by apply Hnil in E.
    + apply elem_of_app in He as [He| ->%list_elem_of_singleton]; [auto|]. right. right.
      split_and!; [done..|]. by apply Hnil.
  - intros -> Hrd. destruct (es_od es2); [by destruct Hrd; apply Hnil|by left].
  - intros Hmd Hrd. destruct md; [done|]. destruct (es_od es2); [|by apply Hnil in Hrd].
    apply elem_of_app. right. by left.
Qed.

(** *** Commit *)
Definition same_but_destinations (s s' : QspnState) : Prop :=
  s' = set_destinations s (st_destinations s').

Lemma same_but_destinations_trans s1 s2 s3 :
  same_but_destinations s1 s2 → same_but_destinations s2 s3 → same_but_destinations s1 s3.
Proof. unfold same_but_destinations. intros -> ->. by destruct s1. Qed.

Lemma commit_destination s d od l pos m :
  st_destinations s !! hc_level d = Some m →
  destination (commit s d od) l pos =
    if decide (mkHCoord l pos = d) then match od with [] => None | _ => Some (mkDestination d od) end
    else destination s l pos.
Proof.
  intros Hm. unfold destination, commit. cbn. destruct (decide (l = hc_level d)) as [->|Hne].
  - rewrite list_lookup_alter_eq, Hm. cbn. destruct (decide (pos = hc_pos d)) as [->|Hpos].
    + rewrite decide_True by (by destruct d). destruct od; cbn; [by rewrite lookup_delete_eq|by rewrite lookup_insert_eq].
    + rewrite decide_False by (destruct d; naive_solver).
      destruct od; cbn; [by rewrite lookup_delete_ne|by rewrite lookup_insert_ne].
  - rewrite list_lookup_alter_ne by done. rewrite decide_False by (destruct d; naive_solver). done.
Qed.

Lemma commit_wf s d od :
  state_wf s → hc_level d < st_levels s → is_u32 (hc_pos d) →
  paths_wf (st_my_naddr s) (st_arcs s) (st_config s) d od → state_wf (commit s d od).
Proof.
  intros Hs Hl Hpos Hod. destruct (level_map s Hs _ Hl) as [m Hm].
  constructor; [apply Hs|apply Hs|apply Hs|apply Hs| |apply Hs|].
  - unfold commit. cbn. rewrite length_alter. apply Hs.
  - intros l m' pos dest Hm' Hd. assert (destination (commit s d od) l pos = Some dest) as Hdest
      by (apply destination_Some; eauto).
    rewrite (commit_destination s d od l pos m Hm) in Hdest. case_decide as Heq.
    + destruct od as [|o od]; simplify_eq/=. by constructor.
    + by apply destination_wf in Hdest.
Qed.

(** *** Fingerprint splits *)
Lemma branches_elem paths e :
  e ∈ branches paths → ∃ np, np ∈ paths ∧ e = (np_fp np, ep_nodes_inside (np_path np)).
Proof.
  unfold branches. revert e.
  apply (foldl_preserves branch_step (λ acc, ∀ e, e ∈ acc → ∃ np, np ∈ paths ∧ e = (np_fp np, ep_nodes_inside (np_path np)))).
  { by intros e ?%elem_of_nil. }
  intros c np Hnp Hc e. unfold branch_step. destruct (any _ _); [auto|].
  intros [?| ->%list_elem_of_singleton]%elem_of_app; eauto.
Qed.

Lemma cheapest_with_Ok ac paths np :
  np ∈ paths → is_Ok (cheapest_with ac paths (np_fp np, ep_nodes_inside (np_path np))).
Proof.
  intros Hin. unfold cheapest_with. cbn. edestruct (min_by_is_Some (np_leb ac)) as [x ->]; [|cbn; eauto with ntk].
  intros Hnil. eapply not_elem_of_nil. rewrite <-Hnil. apply elem_of_retain. split; [exact Hin|].
  apply same_branch_refl.
Qed.

Lemma split_check_Ok s d ac f1 :
  state_wf s → is_Ok (split_check s d ac f1).
Proof.
  intros Hs. unfold split_check. destruct (Nat.ltb_spec 0 (hc_level d)) as [Hl|]; [|eauto with ntk].
  destruct (destination s _ _) as [dest|] eqn:Hd; [|eauto with ntk].
  eapply destination_wf in Hd as [_ _ _ Hp]; [|done]. apply paths_wf_fps_at in Hp.
  pose proof (λ e, branches_elem (d_paths dest) e) as Hb.
  destruct (branches (d_paths dest)) as [|e0 [|e1 es]]; [eauto with ntk..|]. set (f2 := e0 :: e1 :: es) in *.
  unfold fps_at in Hp. rewrite Forall_forall in Hp. cbn in Hp.
  destruct (foldM_total eldest_step (λ e, e ∈ f2) e0 (e1 :: es)) as (eldest & -> & He); [by left| |].
  { intros w e He Hw. destruct (Hb w Hw) as (npw & Hnw & ->).
    destruct (Hb e) as (npe & Hne & ->); [by right|]. unfold eldest_step. cbn.
    destruct (elder_seed_cases (np_fp npe) (np_fp npw)) as [->|[->| ->]];
      [rewrite !Hp by done; lia|rewrite !Hp by done; done|..]; eexists; (split; [done|]); [by right|done..]. }
  cbn [mbind res_bind]. destruct (Hb eldest He) as (npe & Hne & ->).
  destruct (cheapest_with_Ok ac _ _ Hne) as [bpe ->]. cbn [mbind res_bind].
  apply bind_is_Ok; [|eauto with ntk]. apply mapM_is_Ok. intros e [Hin _]%elem_of_retain.
  destruct (Hb e Hin) as (np & Hnp & ->). destruct (cheapest_with_Ok ac _ _ Hnp) as [bp ->].
  cbn. eauto with ntk.
Qed.

(** *** One destination *)
Definition for_dest (q_set : list NodePath) (d : HCoord) : list NodePath :=
  retain (λ np, bool_decide (last (ep_hops (np_path np)) = Some d)) q_set.

(** How the map entry of [d] may differ between [s] and [s'], given the
    candidates [qd], the announcements [all] and the events [evs]. *)
Record dest_updated (s s' : QspnState) (d : HCoord) (qd : list NodePath) (ac : ArcId → Cost)
    (all : list EtpPath) (evs : list QspnEvent) : Prop := {
  du_from : ∀ np, in_map s' d np → ∃ np0, core np0 = core np ∧ (in_map s d np0 ∨ np0 ∈ qd);
  du_dead : ∀ r, (∃ q, q ∈ qd ∧ route_key q = r) → all_dead r qd →
    ∀ np, in_map s' d np → route_key np ≠ r;
  du_new : ∀ np, in_map s' d np → (∀ m, in_map s d m → route_key m ≠ route_key np) →
    sendable ac np ∈ all;
  du_gone : ∀ np, in_map s d np → (∀ o, in_map s' d o → route_key o ≠ route_key np) →
    withdrawal ac np ∈ all;
  du_added : (∀ np, ¬ in_map s d np) → (∃ np, in_map s' d np) → DestinationAdded d ∈ evs;
  du_removed : (∃ np, in_map s d np) → (∀ np, ¬ in_map s' d np) → DestinationRemoved d ∈ evs
}.

(** An event about the presence of a destination is true of the change. *)
Definition dest_event_true (s s' : QspnState) (e : QspnEvent) : Prop :=
  match e with
  | DestinationAdded d => (∀ np, ¬ in_map s d np) ∧ (∃ np, in_map s' d np)
  | DestinationRemoved d => (∃ np, in_map s d np) ∧ (∀ np, ¬ in_map s' d np)
  | PathAdded _ | PathChanged _ | PathRemoved _ => True
  | _ => False
  end.

(** An announced path comes from a path this node has or just lost. *)
Definition announcement (s : QspnState) (ac : ArcId → Cost) (e : EtpPath) : Prop :=
  ∃ d np, admitted (st_my_naddr s) (st_arcs s) d np ∧ (e = sendable ac np ∨ e = withdrawal ac np).

Lemma np_wf_pos my d np : np_wf my d np → is_u32 (hc_pos d).
Proof.
  intros [[Hl _ _ _ _ (Hp & _)] _]. apply last_Some in Hl as [l' Hl]. rewrite Hl in Hp.
  apply Forall_app in Hp as [_ Hp]. by apply (proj1 (Forall_singleton _ _)) in Hp.
Qed.

Lemma in_map_paths s d np :
  in_map s d np ↔
  np ∈ match destination s (hc_level d) (hc_pos d) with Some dd => d_paths dd | None => [] end.
Proof.
  unfold in_map. destruct (destination _ _ _) as [dd|]; [naive_solver|].
  split; [naive_solver|by intros ?%elem_of_nil].
Qed.

Lemma list_empty_iff {A} (l : list A) : l = [] ↔ ∀ x, x ∉ l.
Proof.
  split; [by intros -> x ?%elem_of_nil|]. destruct l as [|x l]; [done|]. intros Hn. by destruct (Hn x); left.
Qed.

Lemma list_nonempty_iff {A} (l : list A) : l ≠ [] ↔ ∃ x, x ∈ l.
Proof.
  split; [destruct l as [|x l]; [done|]; exists x; by left|]. intros (x & Hx) ->. by apply elem_of_nil in Hx.
Qed.

(** The change an announced commit makes to the entry of [d]. *)
Section Committed.
Context (s : QspnState) (d : HCoord) (ac : ArcId → Cost) (md rd : list NodePath) (es : EmitState).
Context (Hl : is_Some (st_destinations s !! hc_level d)) (Hin_md : ∀ np, in_map s d np ↔ np ∈ md).
Context (Hann : announced d ac md rd es).
Let s' := commit s d (es_od es).

Lemma committed_in_map np : in_map s' d np ↔ np ∈ es_od es.
Proof using All.
  destruct Hl as [m Hm].
  rewrite in_map_paths. unfold s'. rewrite (commit_destination _ _ _ _ _ _ Hm), decide_True by (by destruct d).
  by destruct (es_od es).
Qed.

Lemma committed_updated qd :
  (∀ np, np ∈ rd → np ∈ md ∨ np ∈ qd) →
  (∀ r, (∃ q, q ∈ qd ∧ route_key q = r) → all_dead r qd → ∀ np, np ∈ rd → route_key np ≠ r) →
  dest_updated s s' d qd ac (es_all es) (es_sd es).
Proof using All.
  intros Hfrom Hdead. pose proof committed_in_map as Hin_od.
  destruct Hann as [Hod Hnew Hgone Hsound Hev Hadd Hrem]. constructor.
  - intros np Hin%Hin_od. destruct (core_elem _ _ _ Hod Hin) as (o & Ho & Hc). exists o.
    split; [done|]. rewrite Hin_md. auto.
  - intros r Hex Had np Hin%Hin_od. destruct (core_elem _ _ _ Hod Hin) as (o & Ho & Hc).
    rewrite <-(core_route _ _ Hc). eauto.
  - intros np Hin%Hin_od Hno. destruct (core_elem _ _ _ Hod Hin) as (o & Ho & Hc).
    rewrite <-(sendable_core _ _ _ Hc). apply Hnew; [done|]. intros m' Hm'. rewrite (core_route _ _ Hc).
    apply Hno. by apply Hin_md.
  - intros np Hin%Hin_md Hno. apply Hgone; [done|]. intros o Ho.
    destruct (core_elem rd (es_od es) o) as (o' & Ho' & Hc); [done..|]. rewrite <-(core_route _ _ Hc).
    apply Hno. by apply Hin_od.
  - intros Hn [np Hnp%Hin_od]. apply Hadd; [apply list_empty_iff; intros x Hx; by eapply Hn, Hin_md|].
    destruct (core_elem _ _ _ Hod Hnp) as (o & Ho & _). apply list_nonempty_iff. eauto.
  - intros [np Hnp%Hin_md] Hn. apply Hrem; [apply list_nonempty_iff; eauto|].
    apply (core_nil _ _ Hod), list_empty_iff. intros x Hx. by eapply Hn, Hin_od.
Qed.

Lemma committed_events e :
  e ∈ es_sd es → dest_event_true s s' e ∧
    (e = DestinationAdded d ∨ e = DestinationRemoved d ∨ is_path_event e).
Proof using All.
  intros He. pose proof committed_in_map as Hin_od. destruct Hann as [Hod _ _ _ Hev _ _].
  destruct (Hev e He) as [Hpe|[(-> & Hmn & Hrn)|(-> & Hmn & Hrn)]].
  - split; [by destruct e|auto].
  - split; [|auto]. cbn. split; [intros np; rewrite Hin_md, Hmn; apply not_elem_of_nil|].
    apply list_nonempty_iff in Hrn as [x Hx]. destruct (core_elem rd (es_od es) x) as (o & Ho & _); [done..|].
    exists o. by apply Hin_od.
  - split; [|auto]. cbn. split; [apply list_nonempty_iff in Hmn as [x Hx]; exists x; by apply Hin_md|].
    intros np. rewrite Hin_od. apply (core_nil _ _ Hod) in Hrn as ->. apply not_elem_of_nil.
Qed.
End Committed.

Section OneDestination.
Context `{HashOrder} (s : QspnState) (Hs : state_wf s).

Lemma update_map_one_destination_spec qd d a_changed z_set ac :
  Forall (candidate s d) qd → qd ≠ [] →
  ∃ s' o, update_map_one_destination s qd d a_changed z_set ac = (s', Ok o) ∧ state_wf s' ∧
    same_but_destinations s s' ∧
    (∀ l pos, mkHCoord l pos ≠ d → destination s' l pos = destination s l pos) ∧
    dest_updated s s' d qd ac (od_all_paths_set o) (od_events o) ∧
    (∀ e, e ∈ od_all_paths_set o → announcement s ac e) ∧
    (∀ e, e ∈ od_events o → dest_event_true s s' e ∧
      (e = DestinationAdded d ∨ e = DestinationRemoved d ∨ is_path_event e)).
Proof.
  intros Hq [q Hqd]%list_nonempty_iff. unfold update_map_one_destination.
  assert (candidate s d q) as [Hqw _] by (rewrite Forall_forall in Hq; auto).
  assert (hc_level d < st_levels s) as Hl by (by eapply np_wf_level).
  destruct (level_map s Hs _ Hl) as [m Hm]. rewrite Hm.
  set (md := match m !! hc_pos d with Some dd => d_paths dd | None => [] end).
  assert (∀ np, in_map s d np ↔ np ∈ md) as Hin_md.
  { intros np. rewrite in_map_paths. unfold destination. by rewrite Hm. }
  assert (paths_wf (st_my_naddr s) (st_arcs s) (st_config s) d md) as Hmd.
  { unfold md. destruct (m !! hc_pos d) as [dd|] eqn:Hd.
    - eapply sw_dests in Hd as [_ _ _ Hp]; [|done..]. by destruct d.
    - constructor; [done|constructor|]. by apply path_bound_nonneg. }
  destruct (select_paths_spec s Hs qd d a_changed z_set ac md Hl Hq Hmd)
    as (rd & vd & -> & Hrd & Hfrom & Hdead). cbn [sbind fst snd].
  destruct (announce_spec d ac md rd vd) as (es & -> & Hann); [by eapply paths_wf_fps_at|]. cbn [sbind].
  assert (state_wf (commit s d (es_od es))) as Hs'.
  { apply commit_wf; [done..|by eapply np_wf_pos|]. eapply paths_wf_core; [apply Hann|done]. }
  destruct (split_check_Ok (commit s d (es_od es)) d ac (if 0 <? hc_level d then branches md else [])) as [sp ->];
    [done|]. cbn [sbind].
  eexists _, _. split; [done|]. split_and!; [done|done| | |cbn|cbn].
  - intros l pos Hne. by rewrite (commit_destination _ _ _ _ _ _ Hm), decide_False.
  - eapply committed_updated; eauto.
  - intros e He. destruct Hmd as [Ha _ _], Hrd as [Hr _ _]. rewrite Forall_forall in Ha. rewrite Forall_forall in Hr.
    destruct (ad_sound _ _ _ _ _ Hann e He) as [(p & Hp & _ & ->)|(o & Ho & ->)]; [exists d, p|exists d, o]; auto.
  - intros e He. eapply committed_events; eauto.
Qed.
End OneDestination.

(** *** All the destinations *)
Lemma group_step_spec acc np pre d0 :
  last (ep_hops (np_path np)) = Some d0 →
  (∀ d, default [] (acc !! d) = for_dest pre d) →
  (∀ d l, acc !! d = Some l → l ≠ []) →
  ∃ acc', group_step acc np = Ok acc' ∧ (∀ d, default [] (acc' !! d) = for_dest (pre ++ [np]) d) ∧
    (∀ d l, acc' !! d = Some l → l ≠ []).
Proof.
  intros Hl Hacc Hne. unfold group_step. rewrite Hl. cbn. eexists. split; [done|]. split.
  - intros d. unfold for_dest, retain in *. rewrite List.filter_app. cbn. rewrite Hl.
    destruct (decide (d = d0)) as [->|Hd].
    + rewrite lookup_insert_eq, bool_decide_eq_true_2 by done. cbn. by rewrite Hacc.
    + rewrite lookup_insert_ne, bool_decide_eq_false_2, app_nil_r by congruence. apply Hacc.
  - intros d l. destruct (decide (d = d0)) as [->|Hd].
    + rewrite lookup_insert_eq. intros [= <-]. by destruct (default [] _).
    + rewrite lookup_insert_ne by done. apply Hne.
Qed.

Lemma group_by_dest_spec q_set :
  (∀ np, np ∈ q_set → ∃ d, last (ep_hops (np_path np)) = Some d) →
  ∃ q, group_by_dest q_set = Ok q ∧ (∀ d, default [] (q !! d) = for_dest q_set d) ∧
    (∀ d l, q !! d = Some l → l ≠ []).
Proof.
  intros Hl. unfold group_by_dest.
  apply (foldM_total_inv group_step (λ pre q, (∀ d, default [] (q !! d) = for_dest pre d) ∧
    (∀ d l, q !! d = Some l → l ≠ []))).
  { split; [by intros d; rewrite lookup_empty|]. intros d l. by rewrite lookup_empty. }
  intros pre q np [suf ->] [Hq Hne]. destruct (Hl np) as [d0 Hd0].
  { apply elem_of_app. left. apply elem_of_app. right. by left. }
  by eapply group_step_spec.
Qed.

Lemma in_map_destination s s' d np :
  destination s' (hc_level d) (hc_pos d) = destination s (hc_level d) (hc_pos d) →
  in_map s' d np ↔ in_map s d np.
Proof. intros Heq. unfold in_map. by rewrite Heq. Qed.

(** The relation only reads the entry of [d], and the outputs only have to
    contain what it asks for. *)
Lemma dest_updated_mono s0 s1 s0' s1' d qd ac all all' evs evs' :
  destination s0' (hc_level d) (hc_pos d) = destination s0 (hc_level d) (hc_pos d) →
  destination s1' (hc_level d) (hc_pos d) = destination s1 (hc_level d) (hc_pos d) →
  all ⊆ all' → evs ⊆ evs' →
  dest_updated s0 s1 d qd ac all evs → dest_updated s0' s1' d qd ac all' evs'.
Proof.
  intros H0 H1 Ha He. assert (∀ np, in_map s0' d np ↔ in_map s0 d np) as E0 by (by intros; apply in_map_destination).
  assert (∀ np, in_map s1' d np ↔ in_map s1 d np) as E1 by (by intros; apply in_map_destination).
  intros []. constructor; try setoid_rewrite E0; try setoid_rewrite E1; eauto.
Qed.

Lemma candidate_frame s s' d np : same_but_destinations s s' → candidate s' d np ↔ candidate s d np.
Proof. by intros ->. Qed.

Section UpdateMap.
Context `{HashOrder} (s : QspnState) (Hs : state_wf s).
Context (q_set : list NodePath) (Hq : ∀ np, np ∈ q_set → ∃ d, candidate s d np).

(** The state of the loop over the destinations, after those of [pre]. *)
Record updated_upto (pre : list HCoord) (s' : QspnState) (out : UpdateMapOutcome) : Prop := {
  uu_wf : state_wf s';
  uu_frame : same_but_destinations s s';
  uu_rest : ∀ d, d ∉ pre → destination s' (hc_level d) (hc_pos d) = destination s (hc_level d) (hc_pos d);
  uu_done : ∀ d, d ∈ pre →
    dest_updated s s' d (for_dest q_set d) (arc_cost s) (um_all_paths_set out) (um_events out);
  uu_announced : ∀ e, e ∈ um_all_paths_set out → announcement s (arc_cost s) e;
  uu_events : ∀ e, e ∈ um_events out → dest_event_true s s' e;
  uu_fresh : ∀ d, d ∉ pre → (DestinationAdded d ∉ um_events out) ∧ (DestinationRemoved d ∉ um_events out)
}.

Lemma for_dest_candidate d : Forall (candidate s d) (for_dest q_set d).
Proof using Hq.
  apply Forall_forall. intros np [Hin Hl]%elem_of_retain. rewrite bool_decide_eq_true in Hl.
  destruct (Hq np Hin) as (d' & Hc). pose proof Hc as [[[Hl' _ _ _ _ _] _] _]. by simplify_eq.
Qed.

Lemma dest_event_frame s1 s2 s1' s2' e :
  (∀ d, e = DestinationAdded d ∨ e = DestinationRemoved d →
    destination s1' (hc_level d) (hc_pos d) = destination s1 (hc_level d) (hc_pos d) ∧
    destination s2' (hc_level d) (hc_pos d) = destination s2 (hc_level d) (hc_pos d)) →
  dest_event_true s1 s2 e → dest_event_true s1' s2' e.
Proof.
  destruct e; cbn; try done; intros Hf; destruct (Hf d) as [E1 E2]; [by auto..| |by auto|];
    unfold in_map; by rewrite E1, E2.
Qed.

Lemma update_map_step_spec q a_changed z_set pre s1 out d :
  (∀ d, default [] (q !! d) = for_dest q_set d) → for_dest q_set d ≠ [] → d ∉ pre →
  updated_upto pre s1 out →
  ∃ s2 out', update_map_step q a_changed z_set (arc_cost s) s1 out d = (s2, Ok out') ∧
    updated_upto (pre ++ [d]) s2 out'.
Proof using All.
  intros Hg Hne Hd [Hw Hf Hrest Hdone Hann Hev Hfresh]. unfold update_map_step. rewrite Hg.
  destruct (update_map_one_destination_spec s1 Hw (for_dest q_set d) d a_changed z_set (arc_cost s))
    as (s2 & o & -> & Hw2 & Hf2 & Hother & Hupd & Hann2 & Hev2).
  { eapply Forall_impl; [apply for_dest_candidate|]. intros np. by apply candidate_frame. }
  { done. }
  assert (∀ d', d' ≠ d → destination s2 (hc_level d') (hc_pos d') = destination s1 (hc_level d') (hc_pos d')) as Hoth.
  { intros d' Hne'. apply Hother. by destruct d'. }
  cbn [sbind]. eexists _, _. split; [done|]. constructor; cbn.
  - done.
  - by eapply same_but_destinations_trans.
  - intros d' [Hd' Hn]%not_elem_of_app. rewrite Hoth, Hrest; [done..|]. intros ->. by apply Hn; left.
  - intros d' [Hd'| ->%list_elem_of_singleton]%elem_of_app.
    + eapply (dest_updated_mono s s1); [done|apply Hoth; by intros ->| | |by apply Hdone]; set_solver.
    + eapply (dest_updated_mono s1 s2); [symmetry; by apply Hrest|done| | |exact Hupd]; set_solver.
  - intros e [He|He]%elem_of_app; [auto|]. destruct (Hann2 e He) as (d' & np & Ha & ?). exists d', np.
    split; [|done]. by rewrite Hf in Ha.
  - intros e [He|He]%elem_of_app.
    + eapply dest_event_frame; [|by apply Hev]. intros d' Hd'. split; [done|]. apply Hoth. intros ->.
      destruct (Hfresh d Hd) as [? ?]. destruct Hd' as [->| ->]; done.
    + destruct (Hev2 e He) as [Ht Hshape]. eapply dest_event_frame; [|exact Ht].
      intros d' Hd'. split; [|done]. symmetry. apply Hrest. intros Hin.
      destruct Hd' as [->| ->]; destruct Hshape as [[= ->]|[[= ->]|[]]]; done.
  - intros d' [Hd' Hn]%not_elem_of_app. destruct (Hfresh d' Hd') as [H1 H2].
    assert (d' ≠ d) as Hdd by (intros ->; by apply Hn; left).
    rewrite !not_elem_of_app. split; (split; [done|]); intros He;
      destruct (Hev2 _ He) as [_ [[= ->]|[[= ->]|[]]]]; done.
Qed.

(** [update_map] on a well-formed state and well-formed candidates: it succeeds,
    keeps the invariant, changes nothing but the destination map, and the map
    changes as [dest_updated] says for every destination. *)
Lemma update_map_spec a_changed :
  ∃ s' out, update_map s q_set a_changed = (s', Ok out) ∧ state_wf s' ∧ same_but_destinations s s' ∧
    (∀ d, dest_updated s s' d (for_dest q_set d) (arc_cost s) (um_all_paths_set out) (um_events out)) ∧
    (∀ e, e ∈ um_all_paths_set out → announcement s (arc_cost s) e) ∧
    (∀ e, e ∈ um_events out → dest_event_true s s' e) ∧
    (∀ l pos, for_dest q_set (mkHCoord l pos) = [] → destination s' l pos = destination s l pos).
Proof using All.
  unfold update_map.
  destruct (mapM_is_Ok (my_gnode_neighbors s) (seq 0 (st_levels s))) as [z_set ->].
  { intros i _. by apply my_gnode_neighbors_Ok. }
  cbn [sbind]. destruct (group_by_dest_spec q_set) as (q & -> & Hg & Hgne).
  { intros np Hin. destruct (Hq np Hin) as (d & [[Hl _ _ _ _ _] _] & _). eauto. }
  cbn [sbind]. set (keys := sorted_keys (arc_cost s) q).
  assert (NoDup keys) as Hnd.
  { unfold keys, sorted_keys. rewrite sort_by_perm. apply hm_iter_NoDup_keys. }
  assert (∀ d, d ∈ keys ↔ is_Some (q !! d)) as Hkeys.
  { intros d. unfold keys, sorted_keys. rewrite elem_of_sort_by, list_elem_of_fmap. split.
    - intros ([k v] & -> & Hkv%elem_of_hm_iter). eauto.
    - intros [v Hv]. exists (d, v). by rewrite elem_of_hm_iter. }
  destruct (foldS_total_inv (update_map_step q a_changed z_set (arc_cost s)) updated_upto s
    (mkUpdateMapOutcome [] [] [] []) keys) as (s' & out & -> & [Hw Hf Hrest Hdone Hann Hev _]).
  { constructor; cbn; try done; [by destruct s|set_solver..]. }
  { intros pre s1 out d [suf Hsuf] Hup. rewrite Hsuf in Hnd. apply NoDup_app in Hnd as [Hnd _].
    apply NoDup_app in Hnd as (_ & Hnd & _). eapply update_map_step_spec; [done| |intros Hin; apply (Hnd d Hin); by left|done].
    rewrite <-Hg. destruct (proj1 (Hkeys d)) as [l Hl]; [rewrite Hsuf; set_solver|]. rewrite Hl. by eapply Hgne. }
  eexists _, _. split; [done|]. split_and!; [done..| |done|done|].
  2: { intros l pos Hnil. apply (Hrest (mkHCoord l pos)). intros [v Hv]%Hkeys.
       apply (Hgne _ _ Hv). by rewrite <-Hnil, <-Hg, Hv. }
  intros d. destruct (decide (d ∈ keys)) as [Hin|Hout]; [by apply Hdone|].
  assert (for_dest q_set d = []) as ->.
  { rewrite <-Hg. destruct (q !! d) eqn:E; [|done]. destruct Hout. apply Hkeys. eauto. }
  pose proof (λ np, in_map_destination s s' d np (Hrest d Hout)) as Heq.
  constructor; try (setoid_rewrite Heq); eauto; try done.
  - intros r (q0 & ?%elem_of_nil & _). done.
  - intros np Hn Hno. by destruct (Hno np).
  - intros np Hn Hno. by destruct (Hno np).
  - intros Hn [np Hnp]. by destruct (Hn np).
  - intros [np Hnp] Hn. by destruct (Hn np).
Qed.
End UpdateMap.
