(* ===== verification/QspnExample.v ===== *)
(** * A concrete node

    The node the witnesses of the theorems on QSPN run on: address [1.2] of a
    network of two levels of four, two arcs (7 to the neighbour [3.2], 8 to a
    neighbour that has not spoken yet) and the map it has after the first full
    ETP of arc 7, which tells of the neighbour and of the g-node [0] of
    level 1.  Every step is an operation of the model. *)
From stdpp Require Import strings.
From S2P Require Import Prelude Addressing Fingerprint Domain QspnPath QspnConfig.
From S2P Require Import QspnValidate QspnRevise QspnState QspnUpdateMap.

#[local] Existing Instance map_order.

Definition ex_chain (id : Z) : list Fp :=
  [ex_fp id 0; mkFingerprint [id] 1 5 [6]%Z [0]%Z; mkFingerprint [id] 2 6 []%Z [5; 0]%Z].

Definition ex_node : QspnState :=
  mkQspnState ex_my (ex_chain 1) [1; 1; 1]%Z ∅ [∅; ∅] qspn_config_default ∅ Complete 0 0.

(** Arc 7 knows its peer, arc 8 does not. *)
Definition ex_base : QspnState :=
  (record_peer_naddr (add_arc (add_arc ex_node 7 (Finite 10)) 8 (Finite 20)) 7 ex_peer).1.

Definition ex_v : HCoord := mkHCoord 0 3.
Definition ex_g : HCoord := mkHCoord 1 0.

(** What the neighbour tells of the g-node [0] of level 1, in its own frame. *)
Definition ex_to_gnode : EtpPath :=
  mkEtpPath [ex_g] [9]%Z (Finite 5) (ex_fp1 5 5 0) 3 [false; false].

Definition ex_etp : EtpMessage := mkEtpMessage ex_peer (ex_chain 2) [1; 1; 1]%Z [] [ex_to_gnode].

(** The paths that message yields at this node. *)
Definition ex_np_gnode : NodePath :=
  node_path_new 7 (mkEtpPath [ex_v; ex_g] [7; 9]%Z (Finite 5) (ex_fp1 5 5 0) 3 [false; false]).
Definition ex_np_peer : NodePath :=
  node_path_new 7 (mkEtpPath [ex_v] [7]%Z Null (ex_fp 2 0) 1 [false; false]).
Definition ex_cands : list NodePath := [ex_np_gnode; ex_np_peer].

Definition ex_state : QspnState := (update_map ex_base ex_cands None).1.

(** ** The example is well formed *)
Lemma ex_u32 z : (0 ≤ z < 1000)%Z → is_u32 z.
Proof. unfold is_u32, U32_MAX. lia. Qed.

Lemma ex_my_wf : naddr_wf ex_my.
Proof. by apply ex_naddr_wf; apply ex_u32. Qed.
Lemma ex_peer_wf : naddr_wf ex_peer.
Proof. by apply ex_naddr_wf; apply ex_u32. Qed.

Lemma ex_config_u64 : is_u64 (max_paths qspn_config_default).
Proof. unfold is_u64, U64_MAX. cbn. lia. Qed.

Lemma ex_node_new : state_new ex_my (ex_fp 1 0) qspn_config_default = Ok ex_node.
Proof. reflexivity. Qed.

Lemma ex_node_wf : state_wf ex_node.
Proof.
  destruct (state_new_wf ex_my (ex_fp 1 0) qspn_config_default) as (s & Hs & Hw & _).
  - apply ex_my_wf.
  - by apply ex_fp_wf, ex_u32.
  - done.
  - apply ex_config_u64.
  - cbn. lia.
  - rewrite ex_node_new in Hs. by simplify_eq.
Qed.

Lemma ex_base_wf : state_wf ex_base.
Proof.
  unfold ex_base. eapply record_peer_naddr_wf; [|apply ex_peer_wf|done].
  apply add_arc_wf; [apply add_arc_wf; [apply ex_node_wf|]|]; cbn; unfold is_u64, U64_MAX; lia.
Qed.

Lemma ex_etp_typed : message_typed ex_etp.
Proof.
  split_and!; [apply ex_peer_wf|..].
  - repeat apply Forall_cons_2; [..|constructor]; (split_and!; [done|right; by apply ex_u32|..]);
      repeat (apply Forall_cons_2; [first [by apply ex_u32|right; by apply ex_u32]|]); constructor.
  - repeat apply Forall_cons_2; [..|constructor]; by apply ex_u32.
  - apply Forall_singleton. split_and!; [|by cbn; unfold is_u64, U64_MAX; lia|by apply ex_fp1_wf; apply ex_u32|by apply ex_u32].
    apply Forall_singleton. by apply ex_u32.
Qed.

Lemma ex_etp_accepted : check_incoming_message ex_etp ex_my = Ok true.
Proof. reflexivity. Qed.

Lemma ex_etp_revised :
  revise_etp ex_my ex_etp 7 (Some ex_peer) true [] = Ok (mkRevisedEtp [ex_v] ex_cands).
Proof. reflexivity. Qed.

Lemma ex_loop_free : loop_free ex_my [ex_v; ex_g].
Proof. apply loops_back_false. reflexivity. Qed.

Lemma ex_cands_candidates np : np ∈ ex_cands → ∃ d, candidate ex_base d np.
Proof.
  intros Hin. apply elem_of_cons in Hin as [->| ->%list_elem_of_singleton].
  - exists ex_g. split; [|by eexists]. split; [|done]. constructor; [done|done|vm_compute; repeat split; lia|done|apply ex_loop_free|].
    split_and!; [|by cbn; unfold is_u64, U64_MAX; lia|by apply ex_fp1_wf; apply ex_u32|by apply ex_u32].
    repeat apply Forall_cons_2; [by apply ex_u32..|constructor].
  - exists ex_v. split; [|by eexists]. split; [|done]. constructor; [done|done|vm_compute; repeat split; lia|done| |].
    + intros g ->%list_elem_of_singleton. done.
    + split_and!; [|done|by apply ex_fp_wf, ex_u32|by apply ex_u32]. apply Forall_singleton. by apply ex_u32.
Qed.

Lemma ex_state_wf : state_wf ex_state.
Proof.
  destruct (update_map_spec ex_base ex_base_wf ex_cands ex_cands_candidates None) as (s' & out & Hu & Hw & _).
  unfold ex_state. by rewrite Hu.
Qed.

(** Its map. *)
Lemma ex_state_gnode :
  destination ex_state 1 0 = Some (mkDestination ex_g [mkNodePath 7 (np_path ex_np_gnode) true]).
Proof. vm_compute. reflexivity. Qed.
Lemma ex_state_peer :
  destination ex_state 0 3 = Some (mkDestination ex_v [ex_np_peer]).
Proof. vm_compute. reflexivity. Qed.

Lemma ex_in_map : in_map ex_state ex_g (mkNodePath 7 (np_path ex_np_gnode) true).
Proof. eexists. split; [apply ex_state_gnode|]. by left. Qed.

(** ** Witness of the theorem on revision *)
Lemma revise_etp_correct_witness :
  check_incoming_message ex_etp ex_my = Ok true ∧
  ∃ r, revise_etp ex_my ex_etp 7 (Some ex_peer) true ex_cands = Ok r ∧
    ∃ np, np ∈ re_npaths r ∧ hops_arcs_equal ex_np_gnode (np_path np) = true.
Proof.
  split; [apply ex_etp_accepted|].
  destruct (revise_etp_correct ex_my ex_etp 7 (Some ex_peer) true ex_cands
    (λ np, default ex_v (last (ep_hops (np_path np))))) as (v & Hv & [[Hl _]|[(_ & Hf & _)|(_ & _ & r & Hr & _ & _ & _ & _ & Hfull)]]).
  - apply ex_my_wf.
  - apply ex_etp_typed.
  - apply ex_etp_accepted.
  - apply Forall_singleton. split; [apply ex_peer_wf|reflexivity].
  - intros e He. destruct (ex_cands_candidates e He) as (d & Hd & _).
    rewrite (pw_last _ _ _ (proj1 Hd)). split; [exact Hd|].
    by apply elem_of_cons in He as [->| ->%list_elem_of_singleton].
  - exfalso. by apply Hl.
  - exfalso. vm_compute in Hv. injection Hv as <-. apply Hf. apply loops_back_false. reflexivity.
  - exists r. split; [exact Hr|]. apply Hfull; [reflexivity|by left].
Defined.
