(* ===== verification/QspnStateProps.v ===== *)
(** * Properties of the protocol state

    Theorems on the operations of [QspnState] and [QspnEnter]: the recomputation
    of this node's own fingerprints, the removal of an arc, the routes a
    snapshot exports, and the state an entering identity starts from. *)
From stdpp Require Import strings.
From S2P Require Import Prelude Addressing Fingerprint Domain QspnPath QspnConfig.
From S2P Require Import QspnRevise QspnState QspnEnter QspnUpdateMap QspnExample.

(** ** Clusters *)
Section Clusters.
Context `{HashOrder}.
Implicit Types s : QspnState.

(** Level [i] of the chain is what the level below and the destinations known
    there give. *)
Definition computed s (i : nat) : Prop :=
  ∃ children tot mine fp nn,
    cluster_children s (i - 1) = Ok (children, tot) ∧
    st_my_fingerprints s !! (i - 1) = Some mine ∧ st_my_nodes_inside s !! (i - 1) = Some nn ∧
    construct mine children (default false (is_virtual_at (st_my_naddr s) (i - 1))) = Ok fp ∧
    st_my_fingerprints s !! i = Some fp ∧
    (nn + tot ≤ U64_MAX)%Z ∧ st_my_nodes_inside s !! i = Some (Z.min (nn + tot) U32_MAX).

Lemma cluster_children_frame s s' i :
  same_but_clusters s s' → cluster_children s' i = cluster_children s i.
Proof. intros ->. done. Qed.

Lemma u64_add_Ok {E} a b z : (u64_add a b : res E Z) = Ok z → z = (a + b)%Z ∧ (a + b ≤ U64_MAX)%Z.
Proof. unfold u64_add. destruct (Z.leb_spec (a + b) U64_MAX); intros; by simplify_eq. Qed.

Lemma cluster_level_computed s i s' evs :
  state_wf s → 1 ≤ i ≤ st_levels s → cluster_level s i = Ok (s', evs) →
  computed s' i ∧ ∀ l, l ≠ i →
    st_my_fingerprints s' !! l = st_my_fingerprints s !! l ∧
    st_my_nodes_inside s' !! l = st_my_nodes_inside s !! l.
Proof.
  intros Hs Hi Hc. destruct (sw_chain s Hs) as (Hfl & Hnl & _).
  unfold cluster_level in Hc. res_inv. destruct x as [children tot]. cbn in *.
  apply u64_add_Ok in H5 as [-> Hov]. split.
  - eexists children, tot, _, _, _. cbn. split_and!; [exact H0| | |exact H2| |exact Hov|].
    + rewrite list_lookup_insert_ne by lia. exact H1.
    + rewrite list_lookup_insert_ne by lia. exact H4.
    + rewrite list_lookup_insert_eq; [done|lia].
    + rewrite list_lookup_insert_eq; [done|lia].
  - intros l Hl. cbn. by rewrite !list_lookup_insert_ne.
Qed.

Lemma computed_frame s s' i :
  same_but_clusters s s' →
  (∀ l, l ≤ i → st_my_fingerprints s' !! l = st_my_fingerprints s !! l ∧
    st_my_nodes_inside s' !! l = st_my_nodes_inside s !! l) →
  computed s i → computed s' i.
Proof.
  intros Hf He (ch & tot & mine & fp & nn & Hc & Hm & Hn & Hk & Hi & Ho & Hnn).
  destruct (He i) as [E1 E2]; [lia|]. destruct (He (i - 1)) as [E3 E4]; [lia|].
  exists ch, tot, mine, fp, nn. rewrite (cluster_children_frame s s') by done. rewrite E1, E2, E3, E4.
  split_and!; try done. by rewrite Hf.
Qed.

(** A level that is already what it should be stays, silently. *)
Lemma computed_stable s i :
  computed s i → cluster_level s i = Ok (s, []).
Proof.
  intros (ch & tot & mine & fp & nn & Hc & Hm & Hn & Hk & Hi & Ho & Hnn).
  unfold cluster_level. rewrite Hc. cbn. rewrite Hm. cbn. rewrite Hk. cbn. rewrite Hi. cbn. rewrite Hn. cbn.
  unfold u64_add. rewrite (proj2 (Z.leb_le _ _) Ho). cbn. rewrite Hnn. cbn.
  rewrite identity_eq_refl, Z.eqb_refl. rewrite !list_insert_id by done. by destruct s.
Qed.

Lemma update_clusters_computed s :
  state_wf s →
  ∃ s' evs, update_clusters s = (s', Ok evs) ∧ state_wf s' ∧ same_but_clusters s s' ∧
    (∀ i, 1 ≤ i ≤ st_levels s → computed s' i) ∧
    st_my_fingerprints s' !! 0 = st_my_fingerprints s !! 0 ∧
    st_my_nodes_inside s' !! 0 = st_my_nodes_inside s !! 0.
Proof.
  intros Hs. unfold update_clusters.
  match goal with |- context [foldS ?f _ _ _] => destruct (foldS_total_inv f
    (λ pre s' _, state_wf s' ∧ same_but_clusters s s' ∧ (∀ i, i ∈ pre → computed s' i) ∧
      st_my_fingerprints s' !! 0 = st_my_fingerprints s !! 0 ∧
      st_my_nodes_inside s' !! 0 = st_my_nodes_inside s !! 0) s [] (seq 1 (st_levels s)))
    as (s' & evs & Hf & Hw & Hsb & Hc & H0) end.
  - split_and!; [done|apply same_but_clusters_refl|set_solver|done|done].
  - intros pre s1 b i Hpre (Hw & Hsb & Hc & E0 & E1).
    assert (i ∈ seq 1 (st_levels s) ∧ ∀ j, j ∈ pre → j < i) as [Hi%elem_of_seq Hlt].
    { destruct Hpre as [rest Hseq]. rewrite Hseq. split; [set_solver|]. intros j [k Hk]%list_elem_of_lookup.
      pose proof (lookup_lt_Some _ _ _ Hk) as Hkl.
      assert (seq 1 (st_levels s) !! k = Some j) as Hj by (rewrite Hseq, lookup_app_l, lookup_app_l by (rewrite ?length_app; cbn; lia); done).
      assert (seq 1 (st_levels s) !! length pre = Some i) as Hi by (rewrite Hseq, lookup_app_l, list_lookup_middle by (rewrite ?length_app; cbn; lia); done).
      apply lookup_seq in Hj. apply lookup_seq in Hi. lia. }
    assert (st_levels s1 = st_levels s) as El by (by rewrite Hsb).
    destruct (cluster_level_Ok s1 i) as (s2 & evs & Hcl & Hw2 & Hsb2 & _); [done|lia|].
    destruct (cluster_level_computed s1 i s2 evs) as [Hci Hrest]; [done|lia|done|].
    rewrite Hcl. eexists _, _. split; [done|]. destruct (Hrest 0) as [-> ->]; [lia|].
    split_and!; [done|by eapply same_but_clusters_trans| |done|done].
    intros j [Hj| ->%list_elem_of_singleton]%elem_of_app; [|done].
    eapply computed_frame; [done| |by apply Hc]. intros l Hl. apply Hrest. specialize (Hlt j Hj). lia.
  - exists s', evs. split_and!; try done; try apply H0. intros i Hi. apply Hc, elem_of_seq. lia.
Qed.

Lemma update_clusters_stable s :
  (∀ i, 1 ≤ i ≤ st_levels s → computed s i) → update_clusters s = (s, Ok []).
Proof.
  intros Hc. unfold update_clusters.
  assert (∀ l, (∀ i, i ∈ l → computed s i) →
    foldS (λ s events i, match cluster_level s i with
      | Ok (s', evs) => (s', Ok (events ++ evs)) | Err e => (s, Err e) | Panic => (s, Panic) end)
      s [] l = (s, Ok [])) as Hl.
  { induction l as [|i l IH]; intros Hi; [done|]. cbn. rewrite computed_stable by (apply Hi; by left). cbn.
    apply IH. intros; apply Hi; by right. }
  apply Hl. intros i Hi%elem_of_seq. apply Hc. lia.
Qed.
End Clusters.

(** ** Removal of an arc *)
Section Removal.
Context `{HashOrder}.
Implicit Types s : QspnState.

Lemma elem_of_removed_paths s arc l m np :
  st_destinations s !! l = Some m →
  np ∈ removed_paths arc m ↔ np_arc np = arc ∧ ∃ pos, in_map s (mkHCoord l pos) np.
Proof.
  intros Hm. unfold removed_paths, in_map. rewrite elem_of_concat_fmap. cbn. split.
  - intros (d & [pos Hd]%elem_of_values & [Hin Hv]%elem_of_retain). apply Z.eqb_eq in Hv. split; [done|].
    exists pos, d. split; [|done]. apply destination_Some. eauto.
  - intros [Ha (pos & d & (m' & Hm' & Hd)%destination_Some & Hin)]. simplify_eq.
    exists d. split; [apply elem_of_values; eauto|]. apply elem_of_retain. split; [done|]. by apply Z.eqb_eq.
Qed.

Lemma remove_arc_dead_paths s arc p :
  is_Some (st_arcs s !! arc) →
  p ∈ ra_dead_paths (remove_arc s arc).2 ↔
  ∃ d np, in_map s d np ∧ np_arc np = arc ∧ p = with_cost (prepare_for_sending np Dead) Dead.
Proof.
  intros [e He]. unfold remove_arc. rewrite He. cbn. rewrite elem_of_concat_fmap. split.
  - intros (m & [l Hm]%list_elem_of_lookup & (np & -> & Hnp)%list_elem_of_fmap).
    apply (elem_of_removed_paths s arc l) in Hnp as (Ha & pos & Hin); [|done]. eauto.
  - intros ([l pos] & np & Hin & Ha & ->). pose proof Hin as (d & (m & Hm & _)%destination_Some & _).
    exists m. split; [by eapply list_elem_of_lookup_2|]. apply list_elem_of_fmap. exists np. split; [done|].
    apply (elem_of_removed_paths s arc l); [done|]. eauto.
Qed.

(** The events name a destination as removed exactly when it loses its last path. *)
Lemma remove_arc_destination_events s arc d :
  state_wf s → is_Some (st_arcs s !! arc) →
  DestinationRemoved d ∈ ra_events (remove_arc s arc).2 ↔
  (∃ np, in_map s d np) ∧ ∀ np, ¬ in_map (remove_arc s arc).1 d np.
Proof.
  intros Hs Harc. setoid_rewrite (remove_arc_in_map s arc d _ Harc). destruct Harc as [e He].
  unfold remove_arc. rewrite He. cbn. rewrite elem_of_concat_fmap. split.
  - intros (m & [l Hm]%list_elem_of_lookup & [(np & ? & _)%list_elem_of_fmap|Hin]%elem_of_app); [done|].
    apply list_elem_of_fmap in Hin as (dd & [= ->] & [[pos Hd]%elem_of_values Hnil]%elem_of_retain).
    apply bool_decide_eq_true in Hnil.
    pose proof (sw_dests s Hs l m pos dd Hm Hd) as [Hco _ Hne _]. rewrite Hco.
    assert (∀ np, in_map s (mkHCoord l pos) np ↔ np ∈ d_paths dd) as Hi.
    { intros np. unfold in_map, destination. cbn. rewrite Hm. cbn. rewrite Hd. naive_solver. }
    split.
    + destruct (d_paths dd) as [|np ps]; [done|]. exists np. apply Hi. by left.
    + intros np [Hnp Hno]. apply Hi in Hnp.
      assert (np ∈ retain (λ np, negb (via_arc arc np)) (d_paths dd)) as Hr; [|rewrite Hnil in Hr; by apply elem_of_nil in Hr].
      apply elem_of_retain. split; [done|]. unfold via_arc. by apply negb_true_iff, Z.eqb_neq.
  - destruct d as [l pos]. intros [(np & dd & (m & Hm & Hd)%destination_Some & Hnp) Hno]. cbn in *.
    exists m. split; [by eapply list_elem_of_lookup_2|]. apply elem_of_app. right. apply list_elem_of_fmap.
    exists dd. split; [by rewrite (dw_coord _ _ _ _ _ _ (sw_dests s Hs l m pos dd Hm Hd))|].
    apply elem_of_retain. split; [apply elem_of_values; eauto|]. apply bool_decide_eq_true, list_empty_iff.
    intros x [Hx Hv]%elem_of_retain. apply negb_true_iff, Z.eqb_neq in Hv. apply (Hno x). split; [|done].
    exists dd. split; [|done]. apply destination_Some. eauto.
Qed.
End Removal.

(** ** Exported routes *)
Section Exported.
Context `{HashOrder}.
Implicit Types s : QspnState.

Lemma exposed_paths_spec s l pos dest :
  state_wf s → destination s l pos = Some dest →
  ∃ exposed, exposed_paths s (mkHCoord l pos) = Ok exposed ∧ exposed ≠ [] ∧ exposed ⊆ d_paths dest.
Proof.
  intros Hs Hd. pose proof (destination_wf s l pos dest Hs Hd) as Hw. pose proof (dw_nonempty _ _ _ _ _ _ Hw) as Hne.
  unfold exposed_paths. cbn. rewrite Hd. destruct (d_paths dest) as [|np0 ps] eqn:Hps; [done|]. rewrite <-Hps in *.
  destruct (Nat.eqb_spec l 0); [by exists (d_paths dest)|].
  destruct (evaluate_spec dest (arc_cost s)) as (fp & nn & i & p & -> & Hp & -> & Hid & _); [by eapply dest_wf_evaluable|].
  cbn. eexists. split; [done|]. split; [|intros np [? _]%elem_of_retain; done].
  apply list_nonempty_iff. exists p. apply elem_of_retain. split; [by eapply list_elem_of_lookup_2|].
  unfold same_branch. by rewrite Hid.
Qed.

(** The route entry of a destination. *)
Definition entry_of s (d : HCoord) (re : RouteEntry) : Prop :=
  ∃ exposed, exposed_paths s d = Ok exposed ∧ re_destination re = d ∧
    re_paths re ≡ₚ (λ np, to_route_path np (arc_cost s (np_arc np))) <$> exposed ∧
    StronglySorted (λ a b, cost_leb (rp_cost a) (rp_cost b) = true) (re_paths re) ∧ re_paths re ≠ [].

Lemma snapshot_entry_spec s l pos dest :
  state_wf s → destination s l pos = Some dest →
  ∃ re, snapshot_entry s dest = Ok (Some re) ∧ entry_of s (mkHCoord l pos) re.
Proof.
  intros Hs Hd. destruct (exposed_paths_spec s l pos dest Hs Hd) as (ex & Hex & Hne & _).
  pose proof (dw_coord _ _ _ _ _ _ (destination_wf s l pos dest Hs Hd)) as Hco.
  unfold snapshot_entry. rewrite Hco, Hex. cbn [mbind res_bind]. destruct ex as [|np0 ps] eqn:E; [done|]. rewrite <-E in *.
  eexists. split; [done|]. exists ex. cbn. split_and!; [done|done|apply sort_by_perm|apply sort_by_sorted|].
  - intros a b Hab. by apply cost_leb_total.
  - intros a b c. apply cost_leb_trans.
  - rewrite E. intros Hnil. apply (f_equal length) in Hnil. by rewrite length_sort_by in Hnil.
Qed.

Lemma snapshot_level_spec s l m :
  state_wf s → st_destinations s !! l = Some m →
  ∃ es, filter_mapM (snapshot_entry s) (values m) = Ok es ∧
    re_destination <$> es = mkHCoord l <$> (hm_iter m).*1 ∧
    Forall (λ re, entry_of s (re_destination re) re) es.
Proof.
  intros Hs Hm.
  assert (∀ pos dest, (pos, dest) ∈ hm_iter m → ∃ re, snapshot_entry s dest = Ok (Some re) ∧ entry_of s (mkHCoord l pos) re) as He.
  { intros pos dest Hd%elem_of_hm_iter. apply snapshot_entry_spec; [done|]. apply destination_Some. eauto. }
  unfold values. induction (hm_iter m) as [|[pos dest] ps IH]; cbn; [by exists []|].
  destruct (He pos dest) as (re & -> & Hre); [by left|]. cbn.
  destruct IH as (es & -> & Hd & Hes); [intros; apply He; by right|]. exists (re :: es). split_and!; [done| |].
  - cbn. rewrite Hd. by destruct Hre as (_ & _ & -> & _).
  - constructor; [|done]. assert (re_destination re = mkHCoord l pos) as -> by (by destruct Hre as (_ & _ & -> & _)). done.
Qed.
End Exported.

(** ** Properties *)

(** Recomputation of the clusters.  On a well-formed state it neither fails
    nor panics and changes only this node's own chain: the entry of level 0
    stays, every level above is the aggregation of the level below with the
    destinations known there (saturating node count included), and a second run
    changes nothing and reports no event. *)
Theorem update_clusters_correct `{HashOrder} s :
  state_wf s →
  ∃ s' evs, update_clusters s = (s', Ok evs) ∧ state_wf s' ∧ same_but_clusters s s' ∧
    (∀ i, 1 ≤ i ≤ st_levels s → computed s' i) ∧
    st_my_fingerprints s' !! 0 = st_my_fingerprints s !! 0 ∧
    st_my_nodes_inside s' !! 0 = st_my_nodes_inside s !! 0 ∧
    update_clusters s' = (s', Ok []).
Proof.
  intros Hs. destruct (update_clusters_computed s Hs) as (s' & evs & Hu & Hw & Hf & Hc & H0 & H1).
  exists s', evs. split_and!; try done. apply update_clusters_stable. intros i Hi. apply Hc.
  by rewrite Hf in Hi.
Qed.

(** Removal of an arc.  The arc leaves the table, exactly its paths leave
    the map, the withdrawals to announce are exactly those paths with a dead
    cost, and a destination is reported removed exactly when it had paths and
    has none left. *)
Theorem remove_arc_exact `{HashOrder} s arc :
  state_wf s → is_Some (st_arcs s !! arc) →
  let (s', out) := remove_arc s arc in
  state_wf s' ∧ st_arcs s' = delete arc (st_arcs s) ∧
  (∀ d np, in_map s' d np ↔ in_map s d np ∧ np_arc np ≠ arc) ∧
  (∀ p, p ∈ ra_dead_paths out ↔
    ∃ d np, in_map s d np ∧ np_arc np = arc ∧ p = with_cost (prepare_for_sending np Dead) Dead) ∧
  (∀ d, DestinationRemoved d ∈ ra_events out ↔ (∃ np, in_map s d np) ∧ ∀ np, ¬ in_map s' d np).
Proof.
  intros Hs Ha. pose proof (remove_arc_wf s arc Hs). pose proof (remove_arc_arcs s arc).
  pose proof (λ d np, remove_arc_in_map s arc d np Ha). pose proof (λ p, remove_arc_dead_paths s arc p Ha).
  pose proof (λ d, remove_arc_destination_events s arc d Hs Ha).
  by destruct (remove_arc s arc).
Qed.

(** The exported snapshot.  On a well-formed state it is computed without
    error; the levels of the guest g-node and above are empty while the identity
    bootstraps, and below it the entries of a level are exactly one per known
    destination: never empty, sorted by cost, the exposed paths of the
    destination and nothing else. *)
Theorem snapshot_exact `{HashOrder} s :
  state_wf s →
  ∃ snap, snapshot s = Ok snap ∧ length (rs_levels snap) = st_levels s ∧
    ∀ l es, rs_levels snap !! l = Some es →
      (guest_gnode_level s ≤ l → es = []) ∧
      (l < guest_gnode_level s →
        NoDup (re_destination <$> es) ∧ Forall (λ re, entry_of s (re_destination re) re) es ∧
        ∀ d, d ∈ re_destination <$> es ↔ hc_level d = l ∧ is_Some (destination s l (hc_pos d))).
Proof.
  intros Hs. destruct (snapshot_Ok s Hs) as [snap Hsnap]. exists snap. split; [done|].
  unfold snapshot in Hsnap. apply bind_Ok in Hsnap as (lv & Hlv & [= <-]). cbn. apply mapM_Forall2 in Hlv.
  split.
  { apply Forall2_length in Hlv. unfold enumerate in Hlv. rewrite length_zip, length_seq in Hlv. rewrite (sw_levels s Hs) in Hlv. lia. }
  intros l es Hes. eapply Forall2_lookup_r in Hlv as ([l' m] & Hl & He); [|exact Hes].
  apply lookup_enumerate in Hl as [-> Hm]. cbn in He.
  destruct (Nat.leb_spec (guest_gnode_level s) l) as [Hg|Hg]; [split; [by simplify_eq|lia]|].
  split; [lia|intros _]. destruct (snapshot_level_spec s l m Hs Hm) as (es' & He' & Hd & Hall).
  assert (es' = es) as -> by congruence. rewrite Hd. split_and!; [|done|].
  - apply NoDup_fmap_2; [by intros ?? [= ->]|]. apply hm_iter_NoDup_keys.
  - intros [k pos]. rewrite list_elem_of_fmap. cbn. split.
    + intros (q & [= -> ->] & ([q' dest] & -> & Hin%elem_of_hm_iter)%list_elem_of_fmap). split; [done|].
      exists dest. apply destination_Some. eauto.
    + intros [-> [dest (m' & Hm' & Hq)%destination_Some]]. simplify_eq. exists pos. split; [done|].
      apply list_elem_of_fmap. exists (pos, dest). split; [done|]. by apply elem_of_hm_iter.
Qed.

(** The state of an entering identity.  Building it panics exactly when the
    levels are inconsistent (guest below host within the topology, connectivity
    range starting at or below the guest level); otherwise it succeeds, the
    identity is bootstrapping between the two levels, its arcs are the internal
    arcs under their new ids and the external ones, and its map is exactly the
    previous identity's paths below the guest level that go through a surviving
    arc, with that arc renamed. *)
Theorem new_entering_correct `{HashOrder} my fp c internal external guest host conn previous :
  naddr_wf my → fp_wf fp → fp_level fp = 0 → is_u64 (max_paths c) →
  topology_levels (na_topology my) ≤ length (fp_pending_elderships fp) →
  arcs_importable my internal external →
  (∀ l m pos dest, l < guest → previous !! l = Some m → m !! pos = Some dest →
    importable my c (mkHCoord l pos) dest) →
  let r := new_entering my fp c internal external guest host conn previous in
  (¬ (guest < host ≤ topology_levels (na_topology my) ∧ conn.1 ≤ guest) ∧ r = Panic) ∨
  (guest < host ≤ topology_levels (na_topology my) ∧ conn.1 ≤ guest ∧
   ∃ s, r = Ok s ∧ state_wf s ∧ st_my_naddr s = my ∧ st_bootstrap s = InProgress guest host ∧
     st_arcs s = import_arcs internal external ∧
     ∀ d np', in_map s d np' ↔ hc_level d < guest ∧
       ∃ m dest np, previous !! hc_level d = Some m ∧ m !! hc_pos d = Some dest ∧
         np ∈ d_paths dest ∧ renamed internal np np').
Proof.
  intros Hmy Hfw Hfl Hcf Hfp Harcs Hprev. cbn zeta.
  destruct (decide (guest < host ≤ topology_levels (na_topology my) ∧ conn.1 ≤ guest)) as [[Hg Hcn]|Hbad].
  - right. destruct Hg as [Hg Hh]. split_and!; [done..|].
    destruct (new_entering_wf my fp c internal external guest host conn previous) as (s & Hs & Hw & En & _ & Eb & Ea & _ & Hd); [done..|].
    exists s. split_and!; [done..|]. intros [l pos] np'. unfold in_map. cbn. rewrite Hd.
    pose proof Harcs as [Hp Hn _ _]. pose proof (import_arcs_wf my internal external Harcs) as [_ Hai].
    destruct (decide (l < guest)) as [Hl|Hl]; [|naive_solver].
    pose proof (λ m dest Hm Hd0,
      import_dest_wf my internal Hp Hn c _ l pos dest (Hprev l m pos dest Hl Hm Hd0) Hai) as Himp.
    split.
    + intros (dest' & (m & Hm & (dest & Hdest & Hi)%bind_Some)%bind_Some & Hnp'). split; [done|].
      destruct (Himp m dest Hm Hdest) as (_ & Hsound & _). destruct (Hsound dest' Hi) as [_ Hfrom].
      destruct (Hfrom np' Hnp') as (np & ? & ?). by exists m, dest, np.
    + intros (_ & m & dest & np & Hm & Hdest & Hnp & Hren). destruct (Himp m dest Hm Hdest) as (_ & _ & Hcompl).
      destruct (Hcompl np Hnp) as (dest' & np2 & Hi & Hnp2 & Hren2); [destruct Hren as [-> _]; by eexists|].
      rewrite (renamed_fun internal np np' np2) by done. exists dest'. split; [|done]. rewrite Hm. cbn. rewrite Hdest. done.
  - left. split; [done|]. unfold new_entering.
    destruct (Nat.leb_spec host (topology_levels (na_topology my))); cbn [negb]; [|done].
    destruct (Nat.ltb_spec guest host); cbn [negb]; [|done].
    destruct (Nat.ltb_spec conn.1 (S guest)); cbn [negb]; [|done]. exfalso. apply Hbad. lia.
Qed.

(** ** Witnesses *)
#[local] Existing Instance map_order.

Lemma update_clusters_correct_witness :
  state_wf ex_state ∧ ∃ s' evs, update_clusters ex_state = (s', Ok evs) ∧ computed s' 2 ∧
    update_clusters s' = (s', Ok []).
Proof.
  split; [apply ex_state_wf|].
  destruct (update_clusters_correct ex_state ex_state_wf) as (s' & evs & Hu & _ & _ & Hc & _ & _ & Hi).
  exists s', evs. split_and!; [exact Hu|apply Hc; vm_compute; lia|exact Hi].
Defined.

Lemma remove_arc_exact_witness :
  is_Some (st_arcs ex_state !! 7%Z) ∧ DestinationRemoved ex_g ∈ ra_events (remove_arc ex_state 7).2.
Proof.
  assert (is_Some (st_arcs ex_state !! 7%Z)) as Ha by (vm_compute; by eexists).
  split; [exact Ha|]. pose proof (remove_arc_exact ex_state 7 ex_state_wf Ha) as Hr.
  destruct (remove_arc ex_state 7) as [s' out]. destruct Hr as (_ & _ & Hm & _ & Hd). cbn.
  apply Hd. split; [eexists; apply ex_in_map|]. intros np [Hin Hne]%Hm. apply Hne.
  destruct Hin as (dest & Hdest & Hnp). cbn in Hdest. rewrite ex_state_gnode in Hdest. injection Hdest as <-.
  by apply list_elem_of_singleton in Hnp as ->.
Defined.

Lemma snapshot_exact_witness :
  ∃ snap, snapshot ex_state = Ok snap ∧ ∃ es, rs_levels snap !! 1 = Some es ∧ ex_g ∈ re_destination <$> es.
Proof.
  destruct (snapshot_exact ex_state ex_state_wf) as (snap & Hs & Hlen & Hl). exists snap. split; [exact Hs|].
  destruct (lookup_lt_is_Some_2 (rs_levels snap) 1) as [es Hes]; [rewrite Hlen; vm_compute; lia|].
  exists es. split; [exact Hes|]. destruct (Hl 1 es Hes) as [_ Hd].
  apply Hd; [vm_compute; lia|]. split; [reflexivity|]. exists (mkDestination ex_g [mkNodePath 7 (np_path ex_np_gnode) true]). apply ex_state_gnode.
Defined.

(** Entering: the identity keeps its neighbour under the id 17. *)
Definition ex_internal : list InternalArc := [mkInternalArc 7 17 ex_peer (Finite 10)].
Definition ex_previous : list (gmap Z Destination) := [{[ 3%Z := mkDestination ex_v [ex_np_peer] ]}; ∅].

Lemma ex_arcs_importable : arcs_importable ex_my ex_internal [(18%Z, Finite 30)].
Proof.
  constructor; [apply NoDup_singleton..| |]; apply Forall_singleton.
  - split_and!; [apply ex_peer_wf|reflexivity|cbn; unfold is_u64, U64_MAX; lia].
  - cbn. unfold is_u64, U64_MAX. lia.
Qed.

Lemma ex_previous_importable l m pos dest :
  l < 1 → ex_previous !! l = Some m → m !! pos = Some dest →
  importable ex_my qspn_config_default (mkHCoord l pos) dest.
Proof.
  intros Hl Hm Hd. assert (l = 0) as -> by lia. injection Hm as <-. apply lookup_singleton_Some in Hd as [<- <-].
  constructor; [done|by apply ex_u32| |apply NoDup_singleton|cbn; unfold path_bound, usize_saturating_mul, U64_MAX; cbn; lia].
  apply Forall_singleton. split; [|done]. destruct (ex_cands_candidates ex_np_peer) as (d & Hd & _); [right; by left|].
  assert (d = ex_v) as ->; [|exact Hd]. destruct Hd as [[Hlast _ _ _ _ _] _]. by injection Hlast.
Qed.

Lemma new_entering_correct_witness :
  ∃ s, new_entering ex_my (ex_fp 1 0) qspn_config_default ex_internal [(18%Z, Finite 30)] 1 2 (0, 0) ex_previous = Ok s ∧
    in_map s ex_v (mkNodePath 17 (mkEtpPath [ex_v] [17]%Z Null (ex_fp 2 0) 1 [false; false]) false).
Proof.
  destruct (new_entering_correct ex_my (ex_fp 1 0) qspn_config_default ex_internal [(18%Z, Finite 30)] 1 2 (0, 0) ex_previous)
    as [[Hb _]|(_ & _ & s & Hs & _ & _ & _ & _ & Hm)].
  - apply ex_my_wf.
  - by apply ex_fp_wf, ex_u32.
  - reflexivity.
  - apply ex_config_u64.
  - cbn. lia.
  - apply ex_arcs_importable.
  - apply ex_previous_importable.
  - exfalso. apply Hb. vm_compute. lia.
  - exists s. split; [exact Hs|]. apply Hm. split; [cbn; lia|].
    exists {[ 3%Z := mkDestination ex_v [ex_np_peer] ]}, (mkDestination ex_v [ex_np_peer]), ex_np_peer.
    split_and!; [reflexivity|reflexivity|by left|]. split_and!; reflexivity.
Defined.
