(* ===== verification/QspnMapProps.v ===== *)
(** * Properties of the destination map

    Theorems on [QspnUpdateMap]: what one call of [update_map] does to the map,
    what it announces and reports, and what the admission of paths guarantees. *)
From stdpp Require Import strings.
From S2P Require Import Prelude Float64 Addressing Fingerprint Domain QspnPath.
From S2P Require Import QspnConfig QspnRevise QspnState QspnUpdateMap QspnExample.

(** ** Properties *)
Section Properties.
Context `{HashOrder}.
Implicit Types s : QspnState.

(** C12: an update of the map.  On a well-formed state and candidates that are
    well formed and bound to known arcs it neither fails nor panics, keeps the
    invariant (live loop-free paths through known arcs, one per route, at most
    four times [max_paths] per destination) and changes nothing but the map; a
    destination without candidate keeps its paths, and every path it leaves was
    there before or is a candidate. *)
Theorem update_map_correct s q_set a_changed :
  state_wf s → (∀ np, np ∈ q_set → ∃ d, candidate s d np) →
  ∃ s' out, update_map s q_set a_changed = (s', Ok out) ∧ state_wf s' ∧ same_but_destinations s s' ∧
    (∀ l pos, (∀ np, np ∈ q_set → last (ep_hops (np_path np)) ≠ Some (mkHCoord l pos)) →
      destination s' l pos = destination s l pos) ∧
    (∀ d np, in_map s' d np → ∃ np0, np_arc np0 = np_arc np ∧ np_path np0 = np_path np ∧
      (in_map s d np0 ∨ np0 ∈ q_set)).
Proof.
  intros Hs Hq. destruct (update_map_spec s Hs q_set Hq a_changed) as (s' & out & Hu & Hw & Hf & Hd & _ & _ & Hrest).
  exists s', out. split_and!; [done..| |].
  - intros l pos Hno. apply Hrest, list_empty_iff. intros np [Hin Hl]%elem_of_retain.
    apply bool_decide_eq_true in Hl. by apply (Hno np Hin).
  - intros d np Hin. destruct (du_from _ _ _ _ _ _ _ (Hd d) np Hin) as (np0 & [= E1 E2] & Hor).
    exists np0. split_and!; [done..|]. destruct Hor as [?|[? _]%elem_of_retain]; auto.
Qed.

(** A withdrawn route leaves the map.  When every candidate of a route is
    dead, no path of that route is left, whatever the map held. *)
Theorem update_map_withdraws s q_set a_changed q :
  state_wf s → (∀ np, np ∈ q_set → ∃ d, candidate s d np) →
  q ∈ q_set → (∀ np, np ∈ q_set → route_key np = route_key q → ep_cost (np_path np) = Dead) →
  ∀ d np, in_map (update_map s q_set a_changed).1 d np → route_key np ≠ route_key q.
Proof.
  intros Hs Hq Hin Hdead d np. destruct (update_map_spec s Hs q_set Hq a_changed) as (s' & out & -> & Hw & Hf & Hd & _).
  cbn. intros Hnp Hr. destruct (Hq q Hin) as (dq & [[Hlq _] _]). pose proof (pw_last _ _ _ Hlq) as Hl.
  assert (d = dq) as ->.
  { pose proof (in_map_admitted s' d np Hw Hnp) as ([[Hl' _ _ _ _ _] _] & _). injection Hr as Hh _. congruence. }
  revert Hr. apply (du_dead _ _ _ _ _ _ _ (Hd dq)); [|intros x [Hx _]%elem_of_retain; by apply Hdead|done].
  exists q. split; [|done]. apply elem_of_retain. split; [done|]. by apply bool_decide_eq_true.
Qed.

(** An update announces what it changes.  A path whose route is new to the
    map is in the set to send with its total cost, a route that left the map is
    in it with a dead cost, and everything in the set describes a well-formed
    path through a known arc, live or withdrawn. *)
Theorem update_map_announces s q_set a_changed s' out :
  state_wf s → (∀ np, np ∈ q_set → ∃ d, candidate s d np) →
  update_map s q_set a_changed = (s', Ok out) →
  (∀ d np, in_map s' d np → (∀ m, in_map s d m → route_key m ≠ route_key np) →
    prepare_for_sending np (arc_cost s (np_arc np)) ∈ um_all_paths_set out) ∧
  (∀ d np, in_map s d np → (∀ m, in_map s' d m → route_key m ≠ route_key np) →
    with_cost (prepare_for_sending np (arc_cost s (np_arc np))) Dead ∈ um_all_paths_set out) ∧
  (∀ e, e ∈ um_all_paths_set out → announcement s (arc_cost s) e).
Proof.
  intros Hs Hq Hu. destruct (update_map_spec s Hs q_set Hq a_changed) as (s2 & out2 & Hu2 & Hw & Hf & Hd & Ha & _).
  rewrite Hu in Hu2. injection Hu2 as <- <-. split_and!; [..|done]; intros d; apply (Hd d).
Qed.

(** The destination events are exact: a destination is reported added exactly
    when it had no path and has one, removed exactly when it had a path and has
    none. *)
Theorem update_map_events_exact s q_set a_changed s' out d :
  state_wf s → (∀ np, np ∈ q_set → ∃ d, candidate s d np) →
  update_map s q_set a_changed = (s', Ok out) →
  (DestinationAdded d ∈ um_events out ↔ (∀ np, ¬ in_map s d np) ∧ ∃ np, in_map s' d np) ∧
  (DestinationRemoved d ∈ um_events out ↔ (∃ np, in_map s d np) ∧ ∀ np, ¬ in_map s' d np).
Proof.
  intros Hs Hq Hu. destruct (update_map_spec s Hs q_set Hq a_changed) as (s2 & out2 & Hu2 & Hw & Hf & Hd & _ & He & _).
  rewrite Hu in Hu2. injection Hu2 as <- <-. destruct (Hd d) as [_ _ _ _ Hadd Hrem].
  split; (split; [apply He|intros [? ?]; auto]).
Qed.

(** The admission of paths.  It always succeeds, keeps the cost order, never
    admits a dead path nor more than four times [max_paths].  Below that bound,
    every fingerprint some candidate reports keeps a path that reports it, every
    neighbour some candidate avoids keeps a path that avoids it, and every
    sibling some candidate crosses keeps a path that crosses it. *)
Theorem admission_covers s d sizes mch vnd z1d od :
  state_wf s → hc_level d < st_levels s → Forall (candidate s d) od →
  ∃ rd, admit_paths s d sizes mch vnd z1d od = Ok rd ∧ rd `sublist_of` od ∧ Forall alive rd ∧
    (Z.of_nat (length rd) ≤ usize_saturating_mul (max_paths (st_config s)) MANDATORY_PATH_FACTOR)%Z ∧
    ((Z.of_nat (length rd) < usize_saturating_mul (max_paths (st_config s)) MANDATORY_PATH_FACTOR)%Z →
     ∀ p, p ∈ live_prefix od →
       (∃ r, r ∈ rd ∧ identity_eq (np_fp r) (np_fp p) = true) ∧
       (∀ g, g ∈ vnd → g ∉ ep_hops (np_path p) → ∃ r, r ∈ rd ∧ g ∉ ep_hops (np_path r)) ∧
       (∀ g, g ∈ z1d → g ∈ ep_hops (np_path p) → ∃ r, r ∈ rd ∧ g ∈ ep_hops (np_path r))).
Proof.
  intros Hs Hl Hod. set (am := mkAdmitState [] vnd z1d []).
  destruct (admit_loop_spec s Hs d sizes mch am od) as (am' & add & Hadm & Hrd & Hsub & Hal & Hb);
    [done..|by cbn; apply path_bound_nonneg|]. cbn in Hrd.
  exists add. unfold admit_paths. fold am. rewrite Hadm. cbn. rewrite Hrd in *. split_and!; [done..|].
  intros Hlt p Hp.
  destruct (admit_loop_covers s Hs d sizes mch vnd z1d am od am') as ((Hf & Hv & Hz) & Hseen & _); [done..|by rewrite Hrd| |].
  { split_and!; [by intros ? ?%elem_of_nil|by left|by left]. }
  rewrite Forall_forall in Hseen. destruct (Hseen p Hp) as ((f & Hin & Hid) & Hsv & Hsz). rewrite Hrd in *. split_and!.
  - destruct (Hf f Hin) as (r & Hr & Hfr). exists r. split; [done|].
    rewrite identity_eq_sym in Hfr. by eapply identity_eq_trans.
  - intros g Hg Hno. destruct (Hv g Hg) as [?|?]; [|done]. by destruct Hno; apply Hsv.
  - intros g Hg Hyes. destruct (Hz g Hg) as [?|?]; [|done]. by destruct (Hsz g).
Qed.
End Properties.

(** ** Witnesses *)
#[local] Existing Instance map_order.

(** The withdrawal of the path to the g-node. *)
Definition ex_withdrawal : NodePath := node_path_new 7 (with_cost (np_path ex_np_gnode) Dead).

Lemma ex_withdrawal_candidate np : np ∈ [ex_withdrawal] → ∃ d, candidate ex_state d np.
Proof.
  intros ->%list_elem_of_singleton. exists ex_g. split; [|vm_compute; by eexists].
  destruct (ex_cands_candidates ex_np_gnode) as (d & [[Hw Hh] _]); [by left|].
  assert (d = ex_g) as -> by (destruct Hw as [Hlast _ _ _ _ _]; by injection Hlast).
  split; [|done]. apply path_wf_with_cost; [done|]. exact Hw.
Qed.

Lemma update_map_correct_witness :
  ∃ s' out, update_map ex_base ex_cands None = (s', Ok out) ∧ state_wf s' ∧ destination s' 1 3 = destination ex_base 1 3.
Proof.
  destruct (update_map_correct ex_base ex_cands None ex_base_wf ex_cands_candidates) as (s' & out & Hu & Hw & _ & Hr & _).
  exists s', out. split_and!; [exact Hu|exact Hw|]. apply Hr. intros np Hin.
  by apply elem_of_cons in Hin as [->| ->%list_elem_of_singleton].
Defined.

Lemma update_map_withdraws_witness :
  (∃ np, in_map ex_state ex_g np) ∧ ∀ np, in_map (update_map ex_state [ex_withdrawal] None).1 ex_g np → route_key np ≠ route_key ex_withdrawal.
Proof.
  split; [eexists; apply ex_in_map|]. intros np.
  apply (update_map_withdraws ex_state [ex_withdrawal] None ex_withdrawal ex_state_wf ex_withdrawal_candidate); [by left|].
  by intros x ->%list_elem_of_singleton.
Defined.

Lemma update_map_announces_witness :
  ∃ s' out, update_map ex_base ex_cands None = (s', Ok out) ∧
    prepare_for_sending ex_np_gnode (Finite 10) ∈ um_all_paths_set out.
Proof.
  destruct (update_map ex_base ex_cands None) as [s' [out|e|]] eqn:Hu; [|vm_compute in Hu; discriminate Hu..].
  exists s', out. split; [reflexivity|].
  destruct (update_map_announces ex_base ex_cands None s' out ex_base_wf ex_cands_candidates Hu) as (Hnew & _ & _).
  assert (s' = ex_state) as -> by (unfold ex_state; rewrite Hu; reflexivity).
  apply (Hnew ex_g _ ex_in_map). intros m (dest & Hd & _). vm_compute in Hd. discriminate Hd.
Defined.

Lemma update_map_events_exact_witness :
  ∃ s' out, update_map ex_base ex_cands None = (s', Ok out) ∧ DestinationAdded ex_g ∈ um_events out.
Proof.
  destruct (update_map ex_base ex_cands None) as [s' [out|e|]] eqn:Hu; [|vm_compute in Hu; discriminate Hu..].
  exists s', out. split; [reflexivity|].
  assert (s' = ex_state) as -> by (unfold ex_state; rewrite Hu; reflexivity).
  apply (update_map_events_exact ex_base ex_cands None ex_state out ex_g ex_base_wf ex_cands_candidates Hu).
  split; [|eexists; apply ex_in_map]. intros np (dest & Hd & _). vm_compute in Hd. discriminate Hd.
Defined.

Lemma admission_covers_witness :
  ∃ rd, admit_paths ex_base ex_g ∅ f64_zero [ex_v] [] [ex_np_gnode] = Ok rd ∧
    ∃ r, r ∈ rd ∧ identity_eq (np_fp r) (np_fp ex_np_gnode) = true.
Proof.
  destruct (admission_covers ex_base ex_g ∅ f64_zero [ex_v] [] [ex_np_gnode]) as (rd & Hr & Hsub & _ & _ & Hc).
  - apply ex_base_wf.
  - vm_compute. lia.
  - apply Forall_singleton. destruct (ex_cands_candidates ex_np_gnode) as (d & Hd); [by left|].
    assert (d = ex_g) as -> by (destruct Hd as [[[Hlast _ _ _ _ _] _] _]; by injection Hlast). exact Hd.
  - exists rd. split; [exact Hr|]. apply sublist_length in Hsub. cbn in Hsub.
    apply Hc; [|by left].
    replace (usize_saturating_mul _ _) with 20%Z by reflexivity. lia.
Defined.
