(* ===== verification/QspnConnectivity.v ===== *)
(** * The lifecycle of an identity: splits, connectivity, exit

    Models the end of [crates/ntk-qspn/src/state.rs]: the pending-split gate and
    the post-debounce re-check, [make_connectivity], [exit_network] and
    [check_connectivity]. *)
From stdpp Require Import strings.
From S2P Require Import Prelude Addressing Fingerprint QspnPath QspnConfig QspnRevise.
From S2P Require Import QspnState.

(** ** Splits awaiting their debounce *)
Definition split_key (fp_eldest fp : Fp) : FpKey * FpKey := (fp_key fp_eldest, fp_key fp).

(** [HashSet::insert]: whether the pair was absent. *)
Definition begin_pending_split (s : QspnState) (fp_eldest fp : Fp) : QspnState * bool :=
  let k := split_key fp_eldest fp in
  (set_pending s ({[k]} ∪ st_pending_gnode_split s), negb (bool_decide (k ∈ st_pending_gnode_split s))).

Definition clear_pending_split (s : QspnState) (fp_eldest fp : Fp) : QspnState :=
  set_pending s (st_pending_gnode_split s ∖ {[split_key fp_eldest fp]}).

(** [dest.paths.iter().find(|np| np.path.fingerprint.identity_eq(fp))] *)
Definition carrier (dest : Destination) (fp : Fp) : option NodePath :=
  find (λ np, identity_eq (np_fp np) fp) (d_paths dest).

Definition healed (fp_now : option NodePath) (eldest_now : NodePath) : bool :=
  match fp_now with
  | Some now => same_branch (np_fp now) (np_fp eldest_now) (ep_nodes_inside (np_path now))
                  (ep_nodes_inside (np_path eldest_now))
  | None => false
  end.

(** The test of the loop over [self.arcs]. *)
Definition split_hit (s : QspnState) (d : HCoord) (dest : Destination) (fp : Fp)
    (ae : ArcId * ArcEntry) : bool :=
  match ae_peer_naddr ae.2 with
  | None => false
  | Some peer =>
      match hcoord (st_my_naddr s) peer with
      | Ok (Some v) =>
          bool_decide (v = d) &&
          match find (λ np, (np_arc np =? ae.1)%Z) (d_paths dest) with
          | Some np => identity_eq (np_fp np) fp
          | None => false
          end
      | _ => false
      end
  end.

Definition split_still_live (s : QspnState) (d : HCoord) (fp_eldest fp : Fp) : list ArcId :=
  match destination s (hc_level d) (hc_pos d) with
  | None => []
  | Some dest =>
      match carrier dest fp_eldest with
      | None => []
      | Some eldest_now =>
          if healed (carrier dest fp) eldest_now then []
          else (retain (split_hit s d dest fp) (bt_iter (st_arcs s))).*1
      end
  end.

(** ** Connectivity identities *)
Record MakeConnectivityOutcome := mkMakeConnectivityOutcome {
  mc_old_position : HCoord;
  mc_events : list QspnEvent
}.

(** [self.my_naddr.hcoord(peer).ok().flatten()?.level] of an arc entry. *)
Definition peer_level (my : Naddr) (e : ArcEntry) : option nat :=
  peer ← ae_peer_naddr e;
  match hcoord my peer with
  | Ok (Some h) => Some (hc_level h)
  | _ => None
  end.

(** The arcs whose peer's divergence level satisfies a test. *)
Definition arcs_at_level (s : QspnState) (test : nat → bool) : list ArcId :=
  (retain (λ ae : ArcId * ArcEntry,
     match peer_level (st_my_naddr s) ae.2 with Some l => test l | None => false end)
     (bt_iter (st_arcs s))).*1.

Definition update_peer (update_naddr : Naddr → Naddr) (arcs : gmap Z ArcEntry) (arc : ArcId)
    : gmap Z ArcEntry :=
  match arcs !! arc with
  | Some (mkArcEntry c (Some peer)) => <[arc := mkArcEntry c (Some (update_naddr peer))]> arcs
  | _ => arcs
  end.

Section WithOrder.
Context `{HashOrder}.

(** [make_connectivity].  Its [debug_assert_eq!] panics when the delegate has
    not left the old position virtual. *)
Definition make_connectivity (s : QspnState) (connectivity_from_level connectivity_to_level : nat)
    (update_naddr : Naddr → Naddr) : QspnState * res QspnError MakeConnectivityOutcome :=
  if connectivity_to_level <? connectivity_from_level
  then (s, Err (InvalidConnectivity "from level exceeds to level"))
  else if st_levels s <? connectivity_to_level
  then (s, Err (InvalidConnectivity "to level exceeds levels"))
  else if connectivity_from_level =? 0
  then (s, Err (InvalidConnectivity "from level must be > 0"))
  else
    let old_lvl := connectivity_from_level - 1 in
    match naddr_pos (st_my_naddr s) old_lvl with
    | None => (s, Panic)
    | Some old_pos =>
        if negb (bool_decide (is_virtual_at (st_my_naddr s) old_lvl = Some false))
        then (s, Err (InvalidConnectivity "position at from level - 1 is not currently real"))
        else
          let internal_arcs := arcs_at_level s (λ lvl, lvl <? old_lvl) in
          let s1 := set_my_naddr s (update_naddr (st_my_naddr s)) in
          let s2 := set_arcs s1 (foldl (update_peer update_naddr) (st_arcs s1) internal_arcs) in
          let s3 := set_connectivity s2 connectivity_from_level connectivity_to_level in
          if negb (bool_decide (is_virtual_at (st_my_naddr s3) old_lvl = Some true)) then (s3, Panic)
          else
            do (s4, events) ← update_clusters s3;
            (s4, Ok (mkMakeConnectivityOutcome (mkHCoord old_lvl old_pos) events))
    end.

(** ** Leaving a network *)
Definition strip_destinations_at_or_above (s : QspnState) (lvl : nat) : QspnState * list QspnEvent :=
  (set_destinations s (take lvl (st_destinations s) ++
     replicate (length (st_destinations s) - lvl) ∅),
   concat ((λ m : gmap Z Destination, concat ((λ d,
     ((λ np, PathRemoved (to_route_path np Dead)) <$> d_paths d) ++ [DestinationRemoved (d_coord d)])
     <$> values m)) <$> drop lvl (st_destinations s))).

Record ExitNetworkOutcome := mkExitNetworkOutcome {
  en_events : list QspnEvent;
  en_removed_arcs : list ArcId
}.

Definition remove_arcs (s : QspnState) (arcs : list ArcId) : QspnState * list QspnEvent :=
  foldl (λ acc arc,
    let (s', removal) := remove_arc acc.1 arc in
    (s', acc.2 ++ ra_events removal ++ [ArcRemoved arc false])) (s, []) arcs.

Definition exit_network (s : QspnState) (lvl : nat) : QspnState * res QspnError ExitNetworkOutcome :=
  let (s1, stripped) := strip_destinations_at_or_above s lvl in
  do (s2, clusters) ← update_clusters s1;
  let removed_arcs := arcs_at_level s2 (λ arc_lvl, lvl <=? arc_lvl) in
  let (s3, removals) := remove_arcs s2 removed_arcs in
  do (s4, clusters') ← update_clusters s3;
  (s4, Ok (mkExitNetworkOutcome (stripped ++ clusters ++ removals ++ clusters') removed_arcs)).

(** ** Retiring a connectivity identity *)

(** The [loop] that looks for the first level in [i..j] with a destination. *)
Fixpoint first_populated (s : QspnState) (fuel i : nat) : res QspnError (option nat) :=
  match fuel with
  | 0 => Ok None
  | S fuel' =>
      match st_destinations s !! i with
      | None => Panic
      | Some m => if bool_decide (m = ∅) then first_populated s fuel' (S i) else Ok (Some i)
      end
  end.

(** [(i..j).flat_map(|l| self.destinations[l].values())] *)
Definition level_destinations (s : QspnState) (i j : nat) : res QspnError (list Destination) :=
  ms ← mapM (λ l, values <$> (expect (st_destinations s !! l) : res QspnError _)) (seq i (j - i));
  Ok (concat ms).

Definition bridged (x : Destination) (y : HCoord) : bool :=
  bool_decide (d_coord x = y) || any (λ np, contains y (ep_hops (np_path np))) (d_paths x).

Definition connectivity_is_retirable (s : QspnState) : res QspnError bool :=
  let i0 := st_connectivity_from_level s - 1 in
  let j := st_connectivity_to_level s in
  first ← first_populated s (j - i0) i0;
  match first with
  | None => Ok true
  | Some i =>
      x_set ← level_destinations s i j;
      y_set ← entry_hops i (concat (d_paths <$> x_set));
      Ok (all (λ x, all (bridged x) y_set) x_set)
  end.

Definition check_connectivity (s : QspnState) : res QspnError bool :=
  if is_main_identity s
  then Err (InvalidConnectivity "main identity has no connectivity range")
  else if (st_connectivity_to_level s <? st_connectivity_from_level s)
    || (st_levels s <? st_connectivity_to_level s)
  then Err (InvalidConnectivity "connectivity range invalid")
  else connectivity_is_retirable s.
End WithOrder.

(** ** Lemmas *)
Section Lemmas.
Context `{HashOrder}.
Implicit Types s : QspnState.

Lemma state_wf_set_pending s x : state_wf s → state_wf (set_pending s x).
Proof. intros []. by constructor. Qed.

Lemma begin_pending_split_wf s f g : state_wf s → state_wf (begin_pending_split s f g).1.
Proof. apply state_wf_set_pending. Qed.

Lemma clear_pending_split_wf s f g : state_wf s → state_wf (clear_pending_split s f g).
Proof. apply state_wf_set_pending. Qed.

Lemma elem_of_arcs_at_level s test arc :
  arc ∈ arcs_at_level s test ↔
  ∃ e l, st_arcs s !! arc = Some e ∧ peer_level (st_my_naddr s) e = Some l ∧ test l = true.
Proof.
  unfold arcs_at_level. rewrite list_elem_of_fmap. split.
  - intros ([a e] & -> & [Hin Ht]%elem_of_retain). apply elem_of_bt_iter in Hin. cbn in *.
    destruct (peer_level _ _) eqn:?; [eauto|done].
  - intros (e & l & He & Hl & Ht). exists (arc, e). split; [done|]. apply elem_of_retain.
    rewrite elem_of_bt_iter. cbn. by rewrite Hl.
Qed.

(** *** make_connectivity *)

(** What [make_connectivity] needs of the delegate that rewrites addresses: it
    stays in the topology, the node's new address is not a g-node its own
    map crosses, and a real position at [from - 1] becomes a virtual one. *)
Record rebase_ok s (from : nat) (update_naddr : Naddr → Naddr) : Prop := {
  rb_wf : ∀ a, naddr_wf a → na_topology a = na_topology (st_my_naddr s) →
    naddr_wf (update_naddr a) ∧ na_topology (update_naddr a) = na_topology (st_my_naddr s);
  rb_free : ∀ d np, in_map s d np → loop_free (update_naddr (st_my_naddr s)) (ep_hops (np_path np));
  rb_virtual : 0 < from → is_virtual_at (st_my_naddr s) (from - 1) = Some false →
    is_virtual_at (update_naddr (st_my_naddr s)) (from - 1) = Some true
}.

Lemma np_wf_rebase my my' d np :
  na_topology my' = na_topology my → loop_free my' (ep_hops (np_path np)) →
  np_wf my d np → np_wf my' d np.
Proof. intros Ht Hf [[] ?]. split; [|done]. constructor; try done. by rewrite Ht. Qed.

Lemma update_peer_spec upd arcs arc a :
  update_peer upd arcs arc !! a =
    if decide (a = arc) then (λ e, mkArcEntry (ae_cost e) (upd <$> ae_peer_naddr e)) <$> arcs !! a
    else arcs !! a.
Proof.
  unfold update_peer. case_decide as Ha; [subst a|].
  - destruct (arcs !! arc) as [[c [peer|]]|] eqn:E; cbn; [by rewrite lookup_insert_eq|by rewrite E..].
  - destruct (arcs !! arc) as [[c [peer|]]|]; [by rewrite lookup_insert_ne|done..].
Qed.

Lemma update_peers_wf s from upd arcs0 :
  rebase_ok s from upd → state_wf s →
  let arcs := foldl (update_peer upd) (st_arcs s) arcs0 in
  dom arcs = dom (st_arcs s) ∧
  (∀ a e, arcs !! a = Some e → peer_wf (st_my_naddr s) (ae_peer_naddr e) ∧ cost_wf (ae_cost e)).
Proof.
  intros Hrb Hs. cbn. apply (foldl_preserves (update_peer upd) (λ arcs, dom arcs = dom (st_arcs s) ∧
    (∀ a e, arcs !! a = Some e → peer_wf (st_my_naddr s) (ae_peer_naddr e) ∧ cost_wf (ae_cost e)))).
  { split; [done|]. split; [by eapply sw_arcs|by eapply sw_costs]. }
  intros arcs arc _ [Hd Hp]. split.
  - rewrite <-Hd. apply set_eq. intros a. rewrite !elem_of_dom, update_peer_spec.
    case_decide; [|done]. by rewrite fmap_is_Some.
  - intros a e. rewrite update_peer_spec. case_decide; [|by apply Hp].
    intros (e0 & He0 & ->)%fmap_Some. cbn. destruct (Hp _ _ He0) as [Hp0 ?]. split; [|done].
    intros b (b0 & Hb0 & ->)%fmap_Some. destruct (Hp0 _ Hb0) as [? ?]. by apply Hrb.
Qed.

Lemma state_wf_rebase s my' arcs' f t :
  state_wf s → naddr_wf my' → na_topology my' = na_topology (st_my_naddr s) →
  dom arcs' = dom (st_arcs s) →
  (∀ a e, arcs' !! a = Some e → peer_wf (st_my_naddr s) (ae_peer_naddr e) ∧ cost_wf (ae_cost e)) →
  (∀ d np, in_map s d np → loop_free my' (ep_hops (np_path np))) →
  state_wf (set_connectivity (set_arcs (set_my_naddr s my') arcs') f t).
Proof.
  intros Hs Hw Ht Hdom Hp Hfree. constructor; cbn; unfold st_levels; cbn; rewrite ?Ht; try apply Hs; [done| | |].
  - intros a e He p Hpe. destruct (proj1 (Hp a e He) p Hpe). split; [done|]. congruence.
  - intros a e He. by destruct (Hp a e He).
  - intros l m pos dest Hm Hd. destruct (sw_dests s Hs l m pos dest Hm Hd) as [Hc Hpos Hne [Ha Hnd Hb]].
    constructor; [done..|]. constructor; [|done..]. apply Forall_forall. intros np Hnp.
    rewrite Forall_forall in Ha. destruct (Ha np Hnp) as (Hnw & ? & Harc). split_and!; [|done|].
    + eapply np_wf_rebase; [done| |done]. apply (Hfree (mkHCoord l pos)). exists dest. split; [|done].
      apply destination_Some. eauto.
    + apply elem_of_dom. rewrite Hdom. by apply elem_of_dom.
Qed.

(** The state as [make_connectivity] leaves it before the clusters are
    recomputed. *)
Definition rebased s upd from to : QspnState :=
  set_connectivity (set_arcs (set_my_naddr s (upd (st_my_naddr s)))
    (foldl (update_peer upd) (st_arcs s) (arcs_at_level s (λ lvl, lvl <? from - 1)))) from to.

Lemma rebased_wf s upd from to :
  state_wf s → rebase_ok s from upd → state_wf (rebased s upd from to).
Proof.
  intros Hs Hrb. destruct (update_peers_wf s from upd (arcs_at_level s (λ lvl, lvl <? from - 1)) Hrb Hs) as [Hd Hp].
  destruct (rb_wf _ _ _ Hrb (st_my_naddr s)) as [? ?]; [apply Hs|done|].
  apply state_wf_rebase; try done. apply Hrb.
Qed.

Lemma make_connectivity_spec s from to upd :
  state_wf s → rebase_ok s from upd →
  (∃ msg, make_connectivity s from to upd = (s, Err (InvalidConnectivity msg)) ∧
     (to < from ∨ st_levels s < to ∨ from = 0 ∨
      is_virtual_at (st_my_naddr s) (from - 1) ≠ Some false)) ∨
  (0 < from ≤ to ∧ to ≤ st_levels s ∧ is_virtual_at (st_my_naddr s) (from - 1) = Some false ∧
   ∃ s' pos evs, make_connectivity s from to upd =
       (s', Ok (mkMakeConnectivityOutcome (mkHCoord (from - 1) pos) evs)) ∧
     naddr_pos (st_my_naddr s) (from - 1) = Some pos ∧
     state_wf s' ∧ same_but_clusters (rebased s upd from to) s').
Proof.
  intros Hs Hrb. unfold make_connectivity.
  destruct (Nat.ltb_spec to from); [left; eauto|].
  destruct (Nat.ltb_spec (st_levels s) to); [left; eauto 6|].
  destruct (Nat.eqb_spec from 0); [left; eauto 6|].
  destruct (lookup_lt_is_Some_2 (na_pos (st_my_naddr s)) (from - 1)) as [pos Hpos].
  { destruct (sw_naddr s Hs) as (_ & -> & _). unfold st_levels in *. lia. }
  unfold naddr_pos. rewrite Hpos. case_bool_decide as Hv; cbn [negb]; [right|left; eauto 7].
  rewrite bool_decide_eq_true_2 by (apply (rb_virtual _ _ _ Hrb); [lia|done]). cbn [negb].
  destruct (update_clusters_Ok (rebased s upd from to)) as (s' & evs & Hu & Hw & Hf); [by apply rebased_wf|].
  split_and!; [lia..|done|]. exists s', pos, evs. change (update_clusters _) with (update_clusters (rebased s upd from to)). by rewrite Hu.
Qed.

(** *** exit_network *)
Lemma strip_wf s lvl : state_wf s → state_wf (strip_destinations_at_or_above s lvl).1.
Proof.
  intros Hs. constructor; cbn; try apply Hs.
  - rewrite length_app, length_take, length_replicate, (sw_levels s Hs). unfold st_levels. cbn. lia.
  - intros l m pos d [Hm|[_ Hm]]%lookup_app_Some Hd.
    + apply lookup_take_Some in Hm as [Hm _]. by eapply sw_dests.
    + apply lookup_replicate in Hm as [-> _]. by rewrite lookup_empty in Hd.
Qed.

Lemma strip_destination s lvl l pos :
  destination (strip_destinations_at_or_above s lvl).1 l pos =
    if l <? lvl then destination s l pos else None.
Proof.
  unfold destination. cbn. destruct (Nat.ltb_spec l lvl) as [Hl|Hl].
  - destruct (st_destinations s !! l) as [m|] eqn:E.
    + rewrite lookup_app_l by (apply lookup_lt_Some in E; rewrite length_take; lia).
      by rewrite lookup_take_lt, E.
    + apply lookup_ge_None in E. rewrite lookup_app_r by (rewrite length_take; lia).
      rewrite (lookup_ge_None_2 (replicate _ _)) by (rewrite length_replicate, length_take; lia). done.
  - destruct ((_ ++ _) !! l) as [m|] eqn:E; [|done]. apply lookup_app_Some in E as [E|[_ E]].
    + apply lookup_take_Some in E as [_ ?]. lia.
    + apply lookup_replicate in E as [-> _]. done.
Qed.

(** What a sequence of arc removals leaves. *)
Record arcs_removed s (gone : list ArcId) s' : Prop := {
  ar_wf : state_wf s';
  ar_naddr : st_my_naddr s' = st_my_naddr s;
  ar_arcs : ∀ a, st_arcs s' !! a = if decide (a ∈ gone) then None else st_arcs s !! a;
  ar_map : ∀ d np, in_map s' d np ↔ in_map s d np ∧ np_arc np ∉ gone;
  ar_kept : st_config s' = st_config s ∧ st_bootstrap s' = st_bootstrap s ∧
    connectivity_range s' = connectivity_range s
}.

Lemma remove_arc_absent s arc : st_arcs s !! arc = None → remove_arc s arc = (s, mkRemoveArcOutcome [] []).
Proof. intros E. unfold remove_arc. by rewrite E. Qed.

Lemma remove_arc_removed s arc : state_wf s → arcs_removed s [arc] (remove_arc s arc).1.
Proof.
  intros Hs. destruct (remove_arc_frame s arc) as (En & _ & _ & Ec & _ & Eb & Er & _).
  constructor; [by apply remove_arc_wf|done| | |done].
  - intros a. rewrite remove_arc_arcs. case_decide as Ha.
    + apply list_elem_of_singleton in Ha as ->. apply lookup_delete_eq.
    + apply lookup_delete_ne. intros ->. by destruct Ha; left.
  - intros d np. rewrite list_elem_of_singleton. destruct (st_arcs s !! arc) eqn:E.
    + by apply remove_arc_in_map.
    + rewrite remove_arc_absent by done. cbn. split; [|by intros []]. intros Hin. split; [done|].
      intros Heq. apply in_map_admitted in Hin as (_ & _ & [e He]); [|done]. congruence.
Qed.

Lemma arcs_removed_trans s g1 s1 g2 s2 :
  arcs_removed s g1 s1 → arcs_removed s1 g2 s2 → arcs_removed s (g1 ++ g2) s2.
Proof.
  intros [? ? Ha1 Hm1 (? & ? & ?)] [? ? Ha2 Hm2 (? & ? & ?)]. constructor; [done|congruence| | |].
  - intros a. rewrite Ha2, Ha1. repeat case_decide; set_solver.
  - intros d np. rewrite Hm2, Hm1, not_elem_of_app. naive_solver.
  - split_and!; congruence.
Qed.

Lemma arcs_removed_nil s : state_wf s → arcs_removed s [] s.
Proof. intros Hs. constructor; try done. intros d np. pose proof (not_elem_of_nil (np_arc np)). naive_solver. Qed.

Lemma remove_arcs_removed s arcs : state_wf s → arcs_removed s arcs (remove_arcs s arcs).1.
Proof.
  intros Hs. unfold remove_arcs.
  apply (foldl_inv (λ acc arc, let (s', removal) := remove_arc acc.1 arc in
    (s', acc.2 ++ ra_events removal ++ [ArcRemoved arc false]))
    (λ pre acc, arcs_removed s pre acc.1)); [by apply arcs_removed_nil|].
  intros pre [s1 evs] arc _ Hr. cbn in *. pose proof (remove_arc_removed s1 arc (ar_wf _ _ _ Hr)) as Hr'.
  destruct (remove_arc s1 arc) as [s2 removal]. cbn in *. by eapply arcs_removed_trans.
Qed.

Lemma same_but_clusters_fields s s' :
  same_but_clusters s s' →
  st_my_naddr s' = st_my_naddr s ∧ st_arcs s' = st_arcs s ∧ st_destinations s' = st_destinations s ∧
  st_config s' = st_config s ∧ st_bootstrap s' = st_bootstrap s ∧
  connectivity_range s' = connectivity_range s.
Proof. by intros ->. Qed.

Lemma in_map_same_destinations s s' d np :
  st_destinations s' = st_destinations s → in_map s' d np ↔ in_map s d np.
Proof. intros E. unfold in_map, destination. by rewrite E. Qed.

Lemma strip_in_map s lvl d np :
  in_map (strip_destinations_at_or_above s lvl).1 d np ↔ in_map s d np ∧ hc_level d < lvl.
Proof.
  unfold in_map. rewrite strip_destination.
  destruct (Nat.ltb_spec (hc_level d) lvl); naive_solver lia.
Qed.

Lemma exit_network_spec s lvl :
  state_wf s →
  ∃ s' out, exit_network s lvl = (s', Ok out) ∧ state_wf s' ∧ st_my_naddr s' = st_my_naddr s ∧
    st_config s' = st_config s ∧ st_bootstrap s' = st_bootstrap s ∧
    (∀ a, a ∈ en_removed_arcs out ↔
      ∃ e l, st_arcs s !! a = Some e ∧ peer_level (st_my_naddr s) e = Some l ∧ lvl ≤ l) ∧
    (∀ a, st_arcs s' !! a = if decide (a ∈ en_removed_arcs out) then None else st_arcs s !! a) ∧
    (∀ d np, in_map s' d np ↔
      in_map s d np ∧ hc_level d < lvl ∧ np_arc np ∉ en_removed_arcs out).
Proof.
  intros Hs. unfold exit_network.
  pose proof (strip_wf s lvl Hs) as Hw1. pose proof (strip_in_map s lvl) as Hm1.
  assert (strip_destinations_at_or_above s lvl =
    (set_destinations s (st_destinations (strip_destinations_at_or_above s lvl).1),
     (strip_destinations_at_or_above s lvl).2)) as Hstrip by done.
  rewrite Hstrip in Hw1. setoid_rewrite Hstrip in Hm1. rewrite Hstrip. clear Hstrip. cbn [fst] in *.
  set (s1 := set_destinations s _) in *.
  destruct (update_clusters_Ok s1 Hw1) as (s2 & evs & -> & Hw2 & Hf2). cbn [sbind].
  apply same_but_clusters_fields in Hf2 as (En2 & Ea2 & Ed2 & Ec2 & Eb2 & _).
  set (gone := arcs_at_level s2 _). pose proof (remove_arcs_removed s2 gone Hw2) as [Hw3 En3 Ha3 Hm3 (Ec3 & Eb3 & _)].
  destruct (remove_arcs s2 gone) as [s3 removals]. cbn [fst] in *.
  destruct (update_clusters_Ok s3 Hw3) as (s4 & evs' & -> & Hw4 & Hf4). cbn [sbind].
  apply same_but_clusters_fields in Hf4 as (En4 & Ea4 & Ed4 & Ec4 & Eb4 & _).
  eexists _, _. split; [done|]. cbn. split_and!; [done|by rewrite En4, En3, En2|by rewrite Ec4, Ec3, Ec2|by rewrite Eb4, Eb3, Eb2| | |].
  - intros a. unfold gone. rewrite elem_of_arcs_at_level, Ea2, En2. by setoid_rewrite Nat.leb_le.
  - intros a. by rewrite Ea4, Ha3, Ea2.
  - intros d np. rewrite (in_map_same_destinations s3 s4) by done.
    rewrite Hm3, (in_map_same_destinations s1 s2), Hm1 by done. naive_solver.
Qed.

(** *** check_connectivity *)
Definition populated s (l : nat) : Prop := ∃ pos dest, destination s l pos = Some dest.

Definition lowest_populated s (i j k : nat) : Prop :=
  i ≤ k < j ∧ populated s k ∧ ∀ l, i ≤ l < k → ¬ populated s l.

Lemma level_populated s l m : st_destinations s !! l = Some m → populated s l ↔ m ≠ ∅.
Proof.
  intros Hm. unfold populated, destination. rewrite Hm. cbn. split.
  - intros (pos & dest & Hd) ->. by rewrite lookup_empty in Hd.
  - intros Hne. by apply map_choose in Hne as (pos & dest & ?); eauto.
Qed.

Lemma first_populated_spec s fuel i :
  i + fuel ≤ length (st_destinations s) →
  (first_populated s fuel i = Ok None ∧ ∀ l, i ≤ l < i + fuel → ¬ populated s l) ∨
  (∃ k, first_populated s fuel i = Ok (Some k) ∧ lowest_populated s i (i + fuel) k).
Proof.
  revert i. induction fuel as [|fuel IH]; intros i Hl; cbn [first_populated].
  { left. split; [done|]. lia. }
  destruct (lookup_lt_is_Some_2 (st_destinations s) i) as [m Hm]; [lia|]. rewrite Hm.
  pose proof (level_populated s i m Hm) as Hp. case_bool_decide as He.
  - assert (∀ l, l = i → ¬ populated s l) as Hi by (intros ? ->; rewrite Hp; auto).
    destruct (IH (S i)) as [[-> Hn]|(k & -> & Hk & Hpk & Hlow)]; [lia|left|right].
    + split; [done|]. intros l Hli. destruct (decide (l = i)); [by apply Hi|apply Hn; lia].
    + exists k. split; [done|]. split_and!; [lia|lia|done|]. intros l Hli.
      destruct (decide (l = i)); [by apply Hi|apply Hlow; lia].
  - right. exists i. split; [done|]. split_and!; [lia|lia|by apply Hp|lia].
Qed.

Lemma level_destinations_spec s i j :
  j ≤ length (st_destinations s) →
  ∃ xs, level_destinations s i j = Ok xs ∧
    ∀ x, x ∈ xs ↔ ∃ l pos, i ≤ l < j ∧ destination s l pos = Some x.
Proof.
  intros Hj. unfold level_destinations.
  destruct (mapM_is_Ok (λ l, values <$> (expect (st_destinations s !! l) : res QspnError _)) (seq i (j - i)))
    as [ms Hms].
  { intros l Hl%elem_of_seq. destruct (lookup_lt_is_Some_2 (st_destinations s) l) as [m ->]; [lia|].
    cbn. eauto with ntk. }
  rewrite Hms. cbn. eexists. split; [done|]. intros x.
  apply mapM_Forall2 in Hms. rewrite <-(list_fmap_id ms), elem_of_concat_fmap. split.
  - intros (xs & [k Hk]%list_elem_of_lookup & Hx). unfold id in Hx.
    eapply Forall2_lookup_r in Hms as (l & Hl & Hv); [|exact Hk].
    apply lookup_seq in Hl as [-> Hlt]. destruct (st_destinations s !! (i + k)) as [m|] eqn:Hm; [|done].
    cbn in Hv. simplify_eq. apply elem_of_values in Hx as [pos Hpos].
    exists (i + k), pos. split; [lia|]. apply destination_Some. eauto.
  - intros (l & pos & Hl & (m & Hm & Hpos)%destination_Some).
    assert (seq i (j - i) !! (l - i) = Some l) as Hseq by (apply lookup_seq; lia).
    eapply Forall2_lookup_l in Hms as (xs & Hxs & Hv); [|exact Hseq]. rewrite Hm in Hv. cbn in Hv. simplify_eq.
    eexists. split; [by eapply list_elem_of_lookup_2|]. unfold id. apply elem_of_values. eauto.
Qed.

Lemma elem_of_push_new ys y z : z ∈ push_new ys y ↔ z ∈ ys ∨ z = y.
Proof.
  unfold push_new. destruct (contains y ys) eqn:E; [apply contains_true in E; naive_solver|].
  rewrite elem_of_app, list_elem_of_singleton. done.
Qed.

Lemma entry_hops_spec i paths :
  (∀ np, np ∈ paths → ep_hops (np_path np) ≠ []) →
  ∃ ys, entry_hops i paths = Ok ys ∧
    ∀ y, y ∈ ys ↔ ∃ np, np ∈ paths ∧ gnode_entry i (ep_hops (np_path np)) = Ok (Some y).
Proof.
  intros Hne. unfold entry_hops.
  apply (foldM_total_inv (E:=QspnError) (λ y_set np, e ← gnode_entry i (ep_hops (np_path np));
      Ok (match e with Some y => push_new y_set y | None => y_set end))
    (λ pre ys, ∀ y, y ∈ ys ↔ ∃ np, np ∈ pre ∧ gnode_entry i (ep_hops (np_path np)) = Ok (Some y))).
  { intros y. rewrite elem_of_nil. split; [done|]. by intros (np & ?%elem_of_nil & _). }
  intros pre ys np [suf ->] Hys.
  destruct (gnode_entry_Ok i (ep_hops (np_path np))) as [e He].
  { apply Hne, elem_of_app. left. apply elem_of_app. right. by left. }
  rewrite He. cbn. eexists. split; [done|]. intros y.
  transitivity (y ∈ ys ∨ e = Some y).
  { destruct e as [y'|]; [rewrite elem_of_push_new; naive_solver|naive_solver]. }
  rewrite Hys. setoid_rewrite elem_of_app. setoid_rewrite list_elem_of_singleton. split.
  - intros [(q & ? & ?)| ->]; [exists q; auto|exists np; auto].
  - intros (q & [?| ->] & Hq); [left; eauto|]. right. congruence.
Qed.

(** The identity may retire: from the lowest level of its range with a known
    g-node, every known g-node is reached through every entry. *)
Definition retirable s : Prop :=
  let j := st_connectivity_to_level s in
  ∀ k, lowest_populated s (st_connectivity_from_level s - 1) j k →
  ∀ l pos x, k ≤ l < j → destination s l pos = Some x →
  ∀ l' d' np y, k ≤ l' < j → hc_level d' = l' → in_map s d' np →
    gnode_entry k (ep_hops (np_path np)) = Ok (Some y) →
  d_coord x = y ∨ ∃ np', np' ∈ d_paths x ∧ y ∈ ep_hops (np_path np').

Lemma bridged_true x y :
  bridged x y = true ↔ d_coord x = y ∨ ∃ np, np ∈ d_paths x ∧ y ∈ ep_hops (np_path np).
Proof.
  unfold bridged. rewrite orb_true_iff, bool_decide_eq_true, any_true. by setoid_rewrite contains_true.
Qed.

Lemma connectivity_is_retirable_spec s :
  state_wf s → st_connectivity_from_level s - 1 ≤ st_connectivity_to_level s ≤ st_levels s →
  ∃ b, connectivity_is_retirable s = Ok b ∧ (b = true ↔ retirable s).
Proof.
  intros Hs Hr. unfold connectivity_is_retirable, retirable.
  set (i0 := st_connectivity_from_level s - 1) in *. set (j := st_connectivity_to_level s) in *.
  rewrite <-(sw_levels s Hs) in Hr.
  assert (i0 + (j - i0) = j) as Hij by lia.
  destruct (first_populated_spec s (j - i0) i0) as [[-> Hn]|(k & -> & Hk)]; [lia|cbn..].
  { exists true. split; [done|]. split; [|done]. intros _ k (Hkr & Hpk & _). destruct (Hn k); [lia|done]. }
  rewrite Hij in Hk. destruct (level_destinations_spec s k j) as (xs & -> & Hxs); [lia|]. cbn.
  assert (∀ np, np ∈ concat (d_paths <$> xs) ↔ ∃ d, k ≤ hc_level d < j ∧ in_map s d np) as Hnp.
  { intros np. rewrite elem_of_concat_fmap. setoid_rewrite Hxs. unfold in_map. split.
    - intros (x & (l & pos & ? & ?) & ?). exists (mkHCoord l pos). eauto.
    - intros (d & ? & x & ? & ?). eauto 6. }
  destruct (entry_hops_spec k (concat (d_paths <$> xs))) as (ys & -> & Hys).
  { intros np (d & _ & Hd%in_map_admitted)%Hnp; [|done]. destruct Hd as [? _]. by eapply np_wf_hops. }
  cbn. eexists. split; [done|]. rewrite all_true. setoid_rewrite all_true. setoid_rewrite bridged_true.
  setoid_rewrite Hxs. setoid_rewrite Hys. setoid_rewrite Hnp. split.
  - intros Hb k' Hk' l pos x Hl Hx l' d' np y Hl' <- Hin Hy.
    assert (k' = k) as ->.
    { destruct Hk as (? & Hp & Hlow), Hk' as (? & Hp' & Hlow').
      destruct (Nat.lt_trichotomy k' k) as [Hlt|[|Hlt]]; [|done|].
      - destruct (Hlow k'); [lia|done].
      - destruct (Hlow' k); [lia|done]. }
    apply Hb; eauto.
  - intros Hb x (l & pos & Hl & Hx) y (np & (d & Hd & Hin) & Hy). exact (Hb k Hk l pos x Hl Hx _ d np y Hd eq_refl Hin Hy).
Qed.
End Lemmas.
