(* ===== verification/QspnFlood.v ===== *)
(** * Construction of outgoing ETPs

    Models [crates/ntk-qspn/src/flood.rs]: the [ignore_outside] pruning flags of
    a path about to be sent, and the incremental and full messages. *)
From S2P Require Import Prelude Addressing Fingerprint QspnPath QspnConfig QspnValidate.
From S2P Require Import QspnRevise QspnState.

(** [for q in &d.paths]: the cheapest known path that ends with the arc
    [p.arcs[j]], the first one among equals. *)
Definition best_step (s : QspnState) (p : EtpPath) (j : nat) (best : option (NodePath * Cost))
    (q : NodePath) : res QspnError (option (NodePath * Cost)) :=
  a ← expect (ep_arcs p !! j);
  if bool_decide (last (ep_arcs (np_path q)) = Some a) then
    let cost := total_cost q (arc_cost s (np_arc q)) in
    Ok (match best with
        | None => Some (q, cost)
        | Some (b, best_cost) => if cost_ltb cost best_cost then Some (q, cost) else Some (b, best_cost)
        end)
  else Ok best.

(** [(0..j).all(|k| best.path.hops[k] == p.hops[k] && best.path.arcs[k] == p.arcs[k])] *)
Fixpoint same_prefix (b p : EtpPath) (ks : list nat) : res QspnError bool :=
  match ks with
  | [] => Ok true
  | k :: ks' =>
      bh ← expect (ep_hops b !! k);
      ph ← expect (ep_hops p !! k);
      if negb (bool_decide (bh = ph)) then Ok false
      else
        ba ← expect (ep_arcs b !! k);
        pa ← expect (ep_arcs p !! k);
        if negb (bool_decide (ba = pa)) then Ok false else same_prefix b p ks'
  end.

(** The flag of one level [i >= 1]. *)
Definition ignore_flag (s : QspnState) (p : EtpPath) (last_level i : nat) : res QspnError bool :=
  if last_level <? i then Ok true
  else
    j ← expect (position (λ h, i <=? hc_level h) (ep_hops p));
    hop ← expect (ep_hops p !! j);
    match destination s (hc_level hop) (hc_pos hop) with
    | None => Ok false
    | Some d =>
        best ← foldM (best_step s p j) None (d_paths d);
        match best with
        | None => Ok false
        | Some (b, _) =>
            if length (ep_hops (np_path b)) =? S j
            then same ← same_prefix (np_path b) p (seq 0 j); Ok (negb same)
            else Ok true
        end
    end.

Definition set_ignore_outside_for_sending (s : QspnState) (p : EtpPath) : res QspnError EtpPath :=
  last_hop ← expect (last (ep_hops p));
  flags ← mapM (ignore_flag s p (hc_level last_hop)) (seq 1 (st_levels s - 1));
  Ok (mkEtpPath (ep_hops p) (ep_arcs p) (ep_cost p) (ep_fingerprint p) (ep_nodes_inside p)
        (false :: flags)).

Definition prepare_new_etp (s : QspnState) (paths : list EtpPath) (etp_hops : list HCoord)
    : res QspnError EtpMessage :=
  fps ← mapM (λ l, expect (fingerprint s l)) (seq 0 (S (st_levels s)));
  nns ← mapM (λ l, expect (nodes_inside_at s l)) (seq 0 (S (st_levels s)));
  Ok (mkEtpMessage (st_my_naddr s) fps nns etp_hops paths).

(** [Actor::finalize_for_sending] *)
Definition finalize_for_sending (s : QspnState) (paths : list EtpPath) : res QspnError (list EtpPath) :=
  mapM (set_ignore_outside_for_sending s) paths.

Section WithOrder.
Context `{HashOrder}.

Definition prepare_full_etp (s : QspnState) : res QspnError EtpMessage :=
  paths ← mapM (λ np, set_ignore_outside_for_sending s (prepare_for_sending np (arc_cost s (np_arc np))))
            (concat (all_paths_at s <$> seq 0 (st_levels s)));
  prepare_new_etp s paths [].
End WithOrder.

(** ** Lemmas *)

(** The shape of a path in a topology: [path_wf] without the loop-freedom, which
    depends on the node. *)
Record path_shape (t : Topology) (d : HCoord) (p : EtpPath) : Prop := {
  sh_last : last (ep_hops p) = Some d;
  sh_arcs : length (ep_hops p) = length (ep_arcs p);
  sh_asc : hops_asc t 0 (ep_hops p);
  sh_level : fp_level (ep_fingerprint p) = hc_level d;
  sh_typed : path_typed p
}.

Lemma path_wf_shape my d p : path_wf my d p → path_shape (na_topology my) d p.
Proof. intros []. by constructor. Qed.

(** A path that can be sent: it reaches a destination of this topology. *)
Definition sendable_wf (t : Topology) (p : EtpPath) : Prop := ∃ d, path_shape t d p.

Lemma best_step_Ok s p j best q :
  j < length (ep_arcs p) → is_Ok (best_step s p j best q).
Proof.
  intros Hj. unfold best_step. destruct (lookup_lt_is_Some_2 (ep_arcs p) j) as [a ->]; [done|]. cbn.
  destruct (bool_decide _); eauto with ntk.
Qed.

(** [same_prefix] is equality of the first [n] hops and arcs. *)
Lemma same_prefix_spec b p i n :
  i + n ≤ length (ep_hops b) → i + n ≤ length (ep_arcs b) →
  i + n ≤ length (ep_hops p) → i + n ≤ length (ep_arcs p) →
  ∃ r, same_prefix b p (seq i n) = Ok r ∧
    (r = true ↔ ∀ k, i ≤ k < i + n → ep_hops b !! k = ep_hops p !! k ∧ ep_arcs b !! k = ep_arcs p !! k).
Proof.
  revert i. induction n as [|n IH]; intros i H1 H2 H3 H4; cbn.
  { exists true. split; [done|]. split; [lia|done]. }
  destruct (lookup_lt_is_Some_2 (ep_hops b) i) as [bh Hbh]; [lia|].
  destruct (lookup_lt_is_Some_2 (ep_hops p) i) as [ph Hph]; [lia|].
  destruct (lookup_lt_is_Some_2 (ep_arcs b) i) as [ba Hba]; [lia|].
  destruct (lookup_lt_is_Some_2 (ep_arcs p) i) as [pa Hpa]; [lia|].
  rewrite Hbh, Hph. cbn. case_bool_decide as Hh; cbn.
  2: { exists false. split; [done|]. split; [done|]. intros Hk. destruct (Hk i) as [? _]; [lia|]. congruence. }
  rewrite Hba, Hpa. cbn. case_bool_decide as Ha; cbn.
  2: { exists false. split; [done|]. split; [done|]. intros Hk. destruct (Hk i) as [_ ?]; [lia|]. congruence. }
  destruct (IH (S i)) as (r & -> & Hr); [lia..|]. exists r. split; [done|]. rewrite Hr. split.
  - intros Hk k Hki. destruct (decide (k = i)) as [->|]; [by rewrite Hbh, Hph, Hba, Hpa, Hh, Ha|apply Hk; lia].
  - intros Hk k Hki. apply Hk. lia.
Qed.

Lemma hops_asc_last t lo hops d h :
  hops_asc t lo hops → last hops = Some d → h ∈ hops → hc_level h ≤ hc_level d.
Proof.
  revert lo h. induction hops as [|h0 hops IH]; intros lo h Ha Hl Hin; [done|]. destruct Ha as (_ & _ & Ha).
  destruct hops as [|h1 hops].
  { apply list_elem_of_singleton in Hin as ->. by simplify_eq/=. }
  apply elem_of_cons in Hin as [->|Hin]; [|by eapply IH].
  pose proof Ha as (Hle & _). etrans; [exact Hle|]. eapply IH; [exact Ha|done|by left].
Qed.

(** The route this node prefers to a destination among those that end with the
    arc [a]. *)
Definition preferred (s : QspnState) (dest : Destination) (a : ArcId) : option NodePath :=
  min_by (np_leb (arc_cost s))
    (retain (λ q, bool_decide (last (ep_arcs (np_path q)) = Some a)) (d_paths dest)).

Lemma best_fold s p j a l :
  ep_arcs p !! j = Some a →
  foldM (best_step s p j) None l =
  Ok ((λ b, (b, total_cost b (arc_cost s (np_arc b)))) <$>
        min_by (np_leb (arc_cost s)) (retain (λ q, bool_decide (last (ep_arcs (np_path q)) = Some a)) l)).
Proof.
  intros Ha.
  assert (Hsome : ∀ l b, foldM (best_step s p j) (Some (b, total_cost b (arc_cost s (np_arc b)))) l =
    Ok (Some (let b' := min_by_from (np_leb (arc_cost s)) b
                (retain (λ q, bool_decide (last (ep_arcs (np_path q)) = Some a)) l) in
              (b', total_cost b' (arc_cost s (np_arc b')))))).
  { clear l. induction l as [|q l IH]; intros b; [done|]. cbn [foldM].
    unfold best_step at 2. rewrite Ha. cbn [expect mbind res_bind]. unfold retain in *. cbn [List.filter].
    destruct (bool_decide _); [|apply IH]. cbn [mbind res_bind min_by_from].
    change (cost_ltb _ _) with (negb (np_leb (arc_cost s) b q)). destruct (np_leb _ b q); apply IH. }
  induction l as [|q l IH]; [done|]. cbn [foldM]. unfold best_step at 2. rewrite Ha.
  cbn [expect mbind res_bind]. unfold retain in *. cbn [List.filter].
  destruct (bool_decide _); [|exact IH]. cbn [mbind res_bind]. by rewrite Hsome.
Qed.

(** [p] leaves level [i] towards outside at hop [j], through the arc [a]. *)
Definition exits_at (p : EtpPath) (i j : nat) (hop : HCoord) (a : ArcId) : Prop :=
  position (λ h, i <=? hc_level h) (ep_hops p) = Some j ∧ ep_hops p !! j = Some hop ∧ ep_arcs p !! j = Some a.

Lemma exits_at_exists t d p i :
  path_shape t d p → i ≤ hc_level d → ∃ j hop a, exits_at p i j hop a.
Proof.
  intros [Hl Ha _ _ _] Hi. destruct (position_is_Some (λ h, i <=? hc_level h) (ep_hops p) d) as [j Hj].
  { apply last_Some in Hl as [l' ->]. apply elem_of_app. right. by left. }
  { by apply Nat.leb_le. }
  destruct (position_Some _ _ _ Hj) as (hop & Hhop & _).
  destruct (lookup_lt_is_Some_2 (ep_arcs p) j) as [a Harc]; [|by exists j, hop, a].
  rewrite <-Ha. by eapply lookup_lt_Some.
Qed.

Lemma lookup_last_length {A} (l : list A) n x : length l = S n → last l = Some x → l !! n = Some x.
Proof. intros Hl. rewrite last_lookup, Hl. done. Qed.

(** The comparison of the code, as equality of routes. *)
Lemma same_route b p j hop a :
  length (ep_hops b) = length (ep_arcs b) → last (ep_hops b) = Some hop → last (ep_arcs b) = Some a →
  ep_hops p !! j = Some hop → ep_arcs p !! j = Some a →
  (length (ep_hops b) = S j ∧
   ∀ k, 0 ≤ k < j → ep_hops b !! k = ep_hops p !! k ∧ ep_arcs b !! k = ep_arcs p !! k) ↔
  (ep_hops b, ep_arcs b) = (take (S j) (ep_hops p), take (S j) (ep_arcs p)).
Proof.
  intros Hlen Hbh Hba Hph Hpa. split.
  - intros [Hl Hk]. f_equal; apply list_eq; intros k; (destruct (decide (k < S j)); [rewrite lookup_take_lt by done;
      destruct (decide (k = j)) as [->|]; [|apply Hk; lia]
      |rewrite lookup_take_ge by lia; apply lookup_ge_None_2; lia]).
    + rewrite Hph. by apply lookup_last_length.
    + rewrite Hpa. apply lookup_last_length; [lia|done].
  - intros [= Eh Ea]. apply lookup_lt_Some in Hph. rewrite Eh, length_take. split; [lia|].
    intros k Hk. rewrite Ea, !lookup_take_lt by lia. done.
Qed.

(** The flag of level [i] is set exactly when the destination lies below [i], or
    when this node prefers another route to the g-node where the path leaves
    level [i]. *)
Definition outranked (s : QspnState) (p : EtpPath) (i : nat) : Prop :=
  ∃ j hop a dest b, exits_at p i j hop a ∧ destination s (hc_level hop) (hc_pos hop) = Some dest ∧
    preferred s dest a = Some b ∧ route_of b ≠ (take (S j) (ep_hops p), take (S j) (ep_arcs p)).

Lemma outranked_at s p i j hop a :
  exits_at p i j hop a →
  outranked s p i ↔ ∃ dest b, destination s (hc_level hop) (hc_pos hop) = Some dest ∧
    preferred s dest a = Some b ∧ route_of b ≠ (take (S j) (ep_hops p), take (S j) (ep_arcs p)).
Proof.
  intros Hex. split; [|intros (dest & b & ?); by exists j, hop, a, dest, b].
  intros (j' & hop' & a' & dest & b & (Hp & Hh & Ha) & Hd). destruct Hex as (Hp0 & Hh0 & Ha0).
  rewrite Hp in Hp0. simplify_eq. eauto.
Qed.

Lemma ignore_flag_spec s t p d i :
  state_wf s → path_shape t d p →
  ∃ r, ignore_flag s p (hc_level d) i = Ok r ∧ (r = true ↔ hc_level d < i ∨ outranked s p i).
Proof.
  intros Hs Hp. unfold ignore_flag. destruct (Nat.ltb_spec (hc_level d) i); [exists true; naive_solver|].
  destruct (exits_at_exists _ _ _ i Hp) as (j & hop & a & Hex); [done|].
  pose proof Hex as (Hpos & Hhop & Harc). rewrite Hpos. cbn. rewrite Hhop. cbn.
  setoid_rewrite (outranked_at s p i j hop a Hex).
  destruct (destination s _ _) as [dest|] eqn:Hd; [|exists false; naive_solver lia].
  rewrite (best_fold s p j a) by done. fold (preferred s dest a). cbn.
  destruct (preferred s dest a) as [b|] eqn:Hb; cbn; [|exists false; naive_solver lia].
  assert (Hbin : b ∈ d_paths dest ∧ last (ep_arcs (np_path b)) = Some a).
  { apply min_by_elem_of, elem_of_retain in Hb as [? ?%bool_decide_eq_true]. done. }
  destruct Hbin as [Hbin Hba].
  assert (in_map s hop b) as (Hbw & _)%in_map_admitted by (by exists dest); [|done].
  destruct Hbw as [[Hbl Hblen _ _ _ _] _].
  pose proof (same_route (np_path b) p j hop a Hblen Hbl Hba Hhop Harc) as Hsame.
  assert ((hc_level d < i ∨ ∃ dest0 b0, Some dest = Some dest0 ∧ preferred s dest0 a = Some b0 ∧
    route_of b0 ≠ (take (S j) (ep_hops p), take (S j) (ep_arcs p))) ↔
    route_of b ≠ (take (S j) (ep_hops p), take (S j) (ep_arcs p))) as Hiff.
  { split; [|intros; right; eauto]. intros [?|(dest0 & b0 & [= <-] & Hb0 & Hne)]; [lia|]. congruence. }
  setoid_rewrite Hiff. unfold route_of in *. setoid_rewrite <-Hsame. clear Hiff Hsame.
  apply lookup_lt_Some in Hhop as Hlh. apply lookup_lt_Some in Harc as Hla.
  destruct (Nat.eqb_spec (length (ep_hops (np_path b))) (S j)) as [Hlen|Hlen]; [|exists true; naive_solver].
  destruct (same_prefix_spec (np_path b) p 0 j) as (r & -> & Hr); [lia..|]. cbn.
  eexists. split; [done|]. rewrite negb_true_iff, <-not_true_iff_false, Hr. naive_solver.
Qed.

(** Every coordinate is a real position. *)
Definition hops_real (t : Topology) (hops : list HCoord) : Prop :=
  ∀ h, h ∈ hops → ∃ g, topology_gsize t (hc_level h) = Some g ∧ (hc_pos h < g)%Z.

Lemma hops_asc_real_valid t lo hops :
  hops_asc t lo hops → hops_real t hops → hops_valid_from t lo hops.
Proof.
  revert lo. induction hops as [|h hops IH]; intros lo; cbn; [done|]. intros (? & ? & ?) Hr.
  split_and!; [done|done|apply Hr; by left|apply IH; [done|]]. intros x Hx. apply Hr. by right.
Qed.

(** The path with its flags computed. *)
Record flagged (s : QspnState) (p p' : EtpPath) : Prop := {
  fl_path : p' = mkEtpPath (ep_hops p) (ep_arcs p) (ep_cost p) (ep_fingerprint p)
                   (ep_nodes_inside p) (ep_ignore_outside p');
  fl_length : length (ep_ignore_outside p') = st_levels s;
  fl_zero : ep_ignore_outside p' !! 0 = Some false;
  fl_flag : ∀ d i b, last (ep_hops p) = Some d → 1 ≤ i → ep_ignore_outside p' !! i = Some b →
    b = true ↔ hc_level d < i ∨ outranked s p i
}.

Lemma set_ignore_outside_spec s t p :
  state_wf s → sendable_wf t p → ∃ p', set_ignore_outside_for_sending s p = Ok p' ∧ flagged s p p'.
Proof.
  intros Hs [d Hp]. pose proof Hp as [Hl _ _ _ _]. unfold set_ignore_outside_for_sending. rewrite Hl. cbn.
  destruct (mapM_is_Ok (ignore_flag s p (hc_level d)) (seq 1 (st_levels s - 1))) as [flags Hf].
  { intros i _. destruct (ignore_flag_spec s t p d i) as (r & -> & _); eauto with ntk. }
  rewrite Hf. cbn. eexists. split; [done|]. apply mapM_Forall2 in Hf.
  pose proof (topology_levels_pos _ (proj1 (sw_naddr s Hs))) as Hpos. fold (st_levels s) in Hpos.
  constructor; cbn; [done| |done|].
  - apply Forall2_length in Hf. rewrite length_seq in Hf. lia.
  - intros d' [|i] b Hd' Hi Hb; [lia|]. cbn in Hb. assert (d' = d) as -> by congruence.
    eapply Forall2_lookup_r in Hf as (i' & Hi' & Hfi); [|exact Hb].
    apply lookup_seq in Hi' as [-> Hlt]. destruct (ignore_flag_spec s t p d (1 + i)) as (r & Hr & Hspec); [done..|].
    assert (r = b) as <- by congruence. exact Hspec.
Qed.

Lemma flagged_shape s t d p p' : flagged s p p' → path_shape t d p → path_shape t d p'.
Proof. intros [-> _ _ _] []. by constructor. Qed.

Lemma flagged_valid s d p p' :
  flagged s p p' → path_shape (na_topology (st_my_naddr s)) d p → hops_real (na_topology (st_my_naddr s)) (ep_hops p) →
  path_valid (na_topology (st_my_naddr s)) p'.
Proof.
  intros [Heq Hlen _ Hflag] [Hl Ha Hasc Hf _] Hr. exists d. rewrite Heq. cbn. split_and!; [done..| | |done|done|].
  - apply last_Some in Hl as [l' Hl]. eapply hops_asc_level; [exact Hasc|]. rewrite Hl. apply elem_of_app.
    right. by left.
  - intros i b Hi Hb. apply (Hflag d i b); [done|lia|done|by left].
  - by apply hops_asc_real_valid.
Qed.

Lemma mapM_lookup_all {E A} (l : list A) :
  mapM (λ i, (expect (l !! i) : res E A)) (seq 0 (length l)) = Ok l.
Proof.
  assert (∀ l1 l2, mapM (λ i, (expect ((l1 ++ l2) !! i) : res E A)) (seq (length l1) (length l2)) = Ok l2) as Hgen.
  { intros l1 l2. revert l1. induction l2 as [|x l2 IH]; intros l1; [done|]. cbn.
    rewrite lookup_app_r, Nat.sub_diag by lia. cbn.
    specialize (IH (l1 ++ [x])). rewrite <-app_assoc, length_app, Nat.add_1_r in IH. cbn in IH. rewrite IH. done. }
  apply (Hgen []).
Qed.

Lemma prepare_new_etp_Ok s paths hops :
  state_wf s →
  prepare_new_etp s paths hops =
  Ok (mkEtpMessage (st_my_naddr s) (st_my_fingerprints s) (st_my_nodes_inside s) hops paths).
Proof.
  intros Hs. destruct (sw_chain s Hs) as (Hf & Hn & _). unfold prepare_new_etp, fingerprint, nodes_inside_at.
  rewrite <-Hf at 1. rewrite mapM_lookup_all. cbn [mbind res_bind]. rewrite <-Hn, mapM_lookup_all. done.
Qed.

Lemma finalize_for_sending_spec s t paths :
  state_wf s → Forall (sendable_wf t) paths →
  ∃ paths', finalize_for_sending s paths = Ok paths' ∧ Forall2 (flagged s) paths paths'.
Proof.
  intros Hs Hp. unfold finalize_for_sending. induction Hp as [|p paths Hpw Hp IH]; cbn; [by exists []|].
  destruct (set_ignore_outside_spec s t p Hs Hpw) as (p' & -> & Hfl). cbn. destruct IH as (ps & -> & Hps).
  cbn. eexists. split; [done|]. by constructor.
Qed.

(** The message this node sends about [paths]. *)
Definition outgoing (s : QspnState) (hops : list HCoord) (paths' : list EtpPath) : EtpMessage :=
  mkEtpMessage (st_my_naddr s) (st_my_fingerprints s) (st_my_nodes_inside s) hops paths'.

Lemma outgoing_valid s hops paths paths' :
  state_wf s → Forall (sendable_wf (na_topology (st_my_naddr s))) paths → Forall2 (flagged s) paths paths' →
  Forall (λ p, hops_real (na_topology (st_my_naddr s)) (ep_hops p)) paths →
  hops_valid (na_topology (st_my_naddr s)) hops →
  message_valid (na_topology (st_my_naddr s)) (outgoing s hops paths').
Proof.
  intros Hs Hp Hf Hr Hh. destruct (sw_chain s Hs) as (Hfl & _ & _ & Hlev). split_and!; [done|done| |].
  - intros l fp Hl. by destruct (Hlev l fp Hl) as (_ & ? & _).
  - cbn. apply Forall_lookup. intros i p' Hi. eapply Forall2_lookup_r in Hf as (p & Hpi & Hfl'); [|exact Hi].
    rewrite Forall_lookup in Hp. destruct (Hp i p Hpi) as [d Hd]. rewrite Forall_lookup in Hr.
    eapply flagged_valid; eauto.
Qed.

Section Full.
Context `{HashOrder}.

(** The paths of a full ETP before their flags. *)
Definition full_paths (s : QspnState) : list EtpPath :=
  (λ np, prepare_for_sending np (arc_cost s (np_arc np))) <$>
  concat (all_paths_at s <$> seq 0 (st_levels s)).

Lemma prepare_full_etp_unfold s :
  prepare_full_etp s = (paths ← finalize_for_sending s (full_paths s); prepare_new_etp s paths []).
Proof.
  unfold prepare_full_etp, finalize_for_sending, full_paths. f_equal.
  generalize (concat (all_paths_at s <$> seq 0 (st_levels s))) as l. induction l as [|np l IH]; [done|].
  cbn. by rewrite IH.
Qed.

Lemma sendable_admitted s d np c :
  admitted (st_my_naddr s) (st_arcs s) d np → cost_wf c →
  path_shape (na_topology (st_my_naddr s)) d (prepare_for_sending np c).
Proof.
  intros ([[? ? ? ? ? (? & ? & ? & ?)] _] & _) ?. constructor; try done.
  split_and!; try done. cbn. by apply saturating_add_wf.
Qed.

Lemma elem_of_full_paths s p :
  p ∈ full_paths s ↔ ∃ d np, hc_level d < st_levels s ∧ in_map s d np ∧
    p = prepare_for_sending np (arc_cost s (np_arc np)).
Proof.
  unfold full_paths. rewrite list_elem_of_fmap. setoid_rewrite elem_of_concat_fmap.
  setoid_rewrite elem_of_seq. setoid_rewrite all_paths_at_in_map. split.
  - intros (np & -> & l & ? & pos & ?). exists (mkHCoord l pos), np. split_and!; [cbn; lia|done..].
  - intros ([l pos] & np & ? & ? & ->). exists np. split; [done|]. exists l. cbn in *. split; [lia|eauto].
Qed.

Lemma full_paths_wf s : state_wf s → Forall (sendable_wf (na_topology (st_my_naddr s))) (full_paths s).
Proof.
  intros Hs. apply Forall_forall. intros p (d & np & _ & Hin & ->)%elem_of_full_paths. exists d.
  eapply sendable_admitted; [by apply in_map_admitted|by apply arc_cost_wf].
Qed.

Lemma prepare_full_etp_spec s :
  state_wf s →
  ∃ paths', prepare_full_etp s = Ok (outgoing s [] paths') ∧ Forall2 (flagged s) (full_paths s) paths'.
Proof.
  intros Hs. rewrite prepare_full_etp_unfold.
  destruct (finalize_for_sending_spec s _ _ Hs (full_paths_wf s Hs)) as (ps & -> & Hps). cbn [mbind res_bind].
  exists ps. split; [|done]. by rewrite prepare_new_etp_Ok.
Qed.
End Full.
