(* ===== verification/QspnNetProps.v ===== *)
(** * Properties of what a node sends and of its place in the network

    Theorems on [QspnFlood] (the flags and the paths of an outgoing ETP) and on
    [QspnConnectivity] (becoming a connectivity identity, leaving a network,
    retiring). *)
From stdpp Require Import strings.
From S2P Require Import Prelude Addressing Fingerprint Domain QspnPath QspnConfig.
From S2P Require Import QspnValidate QspnRevise QspnState QspnUpdateMap QspnConnectivity QspnFlood.
From S2P Require Import QspnExample.

(** ** The arcs [make_connectivity] rewrites *)
Lemma update_peers_lookup upd arcs l a :
  NoDup l →
  foldl (update_peer upd) arcs l !! a =
    if decide (a ∈ l) then (λ e, mkArcEntry (ae_cost e) (upd <$> ae_peer_naddr e)) <$> arcs !! a
    else arcs !! a.
Proof.
  intros Hnd. revert arcs. induction Hnd as [|b l Hb Hnd IH]; intros arcs; cbn; [done|].
  rewrite IH, update_peer_spec. destruct (decide (a = b)) as [->|Hne].
  - rewrite decide_False by done. by rewrite decide_True by (by left).
  - destruct (decide (a ∈ l)); [rewrite decide_True by (by right)|rewrite decide_False by (by intros [?|?]%elem_of_cons)]; done.
Qed.

Lemma arcs_at_level_NoDup s test : NoDup (arcs_at_level s test).
Proof.
  unfold arcs_at_level, retain, bt_iter.
  assert (∀ l : list (Z * ArcEntry), NoDup l.*1 → ∀ f, NoDup (List.filter f l).*1) as Hf.
  { intros l Hl f. induction l as [|x l IH]; cbn; [done|]. apply NoDup_cons in Hl as [Hx Hl].
    destruct (f x); [|by apply IH]. cbn. constructor; [|by apply IH]. intros (y & E & Hy)%list_elem_of_fmap.
    apply Hx. rewrite E. apply list_elem_of_fmap_2. apply list_elem_of_In, filter_In in Hy as [Hy _]. by apply list_elem_of_In. }
  apply Hf. rewrite sort_by_perm. apply NoDup_fst_map_to_list.
Qed.

(** ** Properties *)
Section Properties.
Context `{HashOrder}.
Implicit Types s : QspnState.

(** The flags of an outgoing path.  Preparing a well-formed path for sending
    succeeds and changes only its flags: one per level, the first clear, and
    the flag of level [i] set exactly when the destination lies below level [i]
    or this node prefers another path to the hop where the path leaves its
    g-node of level [i] by the same last arc. *)
Theorem ignore_flags_exact s p d :
  state_wf s → path_shape (na_topology (st_my_naddr s)) d p →
  ∃ flags,
    set_ignore_outside_for_sending s p =
      Ok (mkEtpPath (ep_hops p) (ep_arcs p) (ep_cost p) (ep_fingerprint p) (ep_nodes_inside p) flags) ∧
    length flags = st_levels s ∧ flags !! 0 = Some false ∧
    ∀ i b, 1 ≤ i → flags !! i = Some b → b = true ↔ hc_level d < i ∨ outranked s p i.
Proof.
  intros Hs Hp. destruct (set_ignore_outside_spec s (na_topology (st_my_naddr s)) p) as (p' & Hp' & [Hpath Hlen H0 Hf]); [done|by exists d|].
  exists (ep_ignore_outside p'). rewrite <-Hpath. split_and!; [done..|]. intros i b Hi Hb.
  apply Hf; [apply Hp|done..].
Qed.

(** A full ETP tells the whole map and nothing else.  It is built without
    error and carries this node's address, chain and node counts; a path is in
    it exactly when it is a path of the map with the cost of its arc added; and
    when the hops are real it passes the check of outgoing messages. *)
Theorem full_etp_exact s :
  state_wf s →
  ∃ m, prepare_full_etp s = Ok m ∧ em_node_address m = st_my_naddr s ∧
    em_fingerprints m = st_my_fingerprints s ∧ em_nodes_inside m = st_my_nodes_inside s ∧ em_hops m = [] ∧
    (∀ d np, in_map s d np → ∃ p, p ∈ em_paths m ∧ ep_hops p = ep_hops (np_path np) ∧
      ep_arcs p = ep_arcs (np_path np) ∧ ep_cost p = total_cost np (arc_cost s (np_arc np))) ∧
    (∀ p, p ∈ em_paths m → ∃ d np, in_map s d np ∧ ep_hops p = ep_hops (np_path np) ∧
      ep_arcs p = ep_arcs (np_path np) ∧ ep_cost p = total_cost np (arc_cost s (np_arc np))) ∧
    ((∀ p, p ∈ em_paths m → hops_real (na_topology (st_my_naddr s)) (ep_hops p)) →
      check_outgoing_message m (st_my_naddr s) = Ok true).
Proof.
  intros Hs. destruct (prepare_full_etp_spec s Hs) as (ps & Hf & Hfl). exists (outgoing s [] ps).
  split_and!; [done..| | |].
  - intros d np Hin. assert (prepare_for_sending np (arc_cost s (np_arc np)) ∈ full_paths s) as [i Hi]%list_elem_of_lookup.
    { apply elem_of_full_paths. exists d, np. split_and!; [|done..].
      destruct (in_map_admitted s d np Hs Hin) as [Hw _]. by eapply np_wf_level. }
    eapply Forall2_lookup_l in Hfl as (p & Hp & Hpp); [|exact Hi].
    exists p. split; [by eapply list_elem_of_lookup_2|]. by rewrite (fl_path _ _ _ Hpp).
  - intros p [i Hi]%list_elem_of_lookup. eapply Forall2_lookup_r in Hfl as (q & Hq & Hpp); [|exact Hi].
    apply list_elem_of_lookup_2, elem_of_full_paths in Hq as (d & np & _ & Hin & ->). exists d, np.
    by rewrite (fl_path _ _ _ Hpp).
  - intros Hreal. apply (decides_true _ _ (check_outgoing_decides (outgoing s [] ps) (st_my_naddr s) (sw_naddr s Hs) (sw_naddr s Hs))).
    split; [done|]. apply (outgoing_valid s [] (full_paths s)); [done|by apply full_paths_wf|done| |done].
    apply Forall_lookup. intros i p Hi. eapply Forall2_lookup_l in Hfl as (p' & Hp' & Hpp); [|exact Hi].
    pose proof (Hreal p' (list_elem_of_lookup_2 _ _ _ Hp')) as Hr. by rewrite (fl_path _ _ _ Hpp) in Hr.
Qed.

(** Becoming a connectivity identity.  The request is refused, and the state
    left alone, exactly when the range is empty, too high or starts at 0, or
    the position it frees is not real; otherwise the node and the peers of the
    arcs inside the migrating g-node move to their new addresses, no other arc
    and no path changes, the range is recorded, the clusters follow, and the
    position that was freed is returned. *)
Theorem make_connectivity_correct s from to upd :
  state_wf s → rebase_ok s from upd →
  (∃ msg, make_connectivity s from to upd = (s, Err (InvalidConnectivity msg)) ∧
     ¬ (0 < from ≤ to ∧ to ≤ st_levels s ∧ is_virtual_at (st_my_naddr s) (from - 1) = Some false)) ∨
  (0 < from ≤ to ∧ to ≤ st_levels s ∧ is_virtual_at (st_my_naddr s) (from - 1) = Some false ∧
   ∃ s' pos evs, make_connectivity s from to upd =
       (s', Ok (mkMakeConnectivityOutcome (mkHCoord (from - 1) pos) evs)) ∧
     naddr_pos (st_my_naddr s) (from - 1) = Some pos ∧ state_wf s' ∧
     st_my_naddr s' = upd (st_my_naddr s) ∧ connectivity_range s' = (from, to) ∧
     st_destinations s' = st_destinations s ∧
     ∀ a e, st_arcs s !! a = Some e →
       st_arcs s' !! a = Some
         match peer_level (st_my_naddr s) e with
         | Some l => if l <? from - 1 then mkArcEntry (ae_cost e) (upd <$> ae_peer_naddr e) else e
         | None => e
         end).
Proof.
  intros Hs Hrb. destruct (make_connectivity_spec s from to upd Hs Hrb) as [(msg & Hm & Hbad)|(? & ? & ? & s' & pos & evs & Hm & Hpos & Hw & Hf)].
  - left. exists msg. split; [done|]. intros (? & ? & ?). destruct Hbad as [?|[?|[?|?]]]; try lia; done.
  - right. split_and!; [lia..|done|]. exists s', pos, evs.
    apply same_but_clusters_fields in Hf as (En & Ea & Ed & _ & _ & Er). split_and!; try done.
    intros a e He. rewrite Ea. cbn. rewrite update_peers_lookup by apply arcs_at_level_NoDup. rewrite He.
    destruct (decide (a ∈ _)) as [(e' & l & He' & Hl & Ht)%elem_of_arcs_at_level|Hno].
    + assert (e' = e) as -> by congruence. rewrite Hl, Ht. done.
    + destruct (peer_level (st_my_naddr s) e) as [l|] eqn:Hl; [|done]. destruct (l <? from - 1) eqn:Ht; [|done].
      destruct Hno. apply elem_of_arcs_at_level. eauto.
Qed.

(** Leaving a network at a level.  It never fails; exactly the arcs whose
    peer is at or above the level go, and the map keeps exactly the paths to
    destinations below the level through an arc that stays. *)
Theorem exit_network_correct s lvl :
  state_wf s →
  ∃ s' out, exit_network s lvl = (s', Ok out) ∧ state_wf s' ∧ st_my_naddr s' = st_my_naddr s ∧
    (∀ a, a ∈ en_removed_arcs out ↔
      ∃ e l, st_arcs s !! a = Some e ∧ peer_level (st_my_naddr s) e = Some l ∧ lvl ≤ l) ∧
    (∀ a, st_arcs s' !! a = if decide (a ∈ en_removed_arcs out) then None else st_arcs s !! a) ∧
    (∀ d np, in_map s' d np ↔
      in_map s d np ∧ hc_level d < lvl ∧ np_arc np ∉ en_removed_arcs out).
Proof.
  intros Hs. destruct (exit_network_spec s lvl Hs) as (s' & out & He & Hw & En & _ & _ & Hr & Ha & Hm).
  by exists s', out.
Qed.

(** Retiring a connectivity identity.  The check never panics; it refuses a
    main identity and an invalid range, and otherwise answers yes exactly when
    every g-node known from the lowest populated level of the range is reached
    through every g-node by which the paths enter that level. *)
Theorem check_connectivity_exact s :
  state_wf s →
  (∃ msg, check_connectivity s = Err (InvalidConnectivity msg) ∧
     (st_connectivity_from_level s = 0 ∨ st_connectivity_to_level s < st_connectivity_from_level s ∨
      st_levels s < st_connectivity_to_level s)) ∨
  (0 < st_connectivity_from_level s ≤ st_connectivity_to_level s ∧ st_connectivity_to_level s ≤ st_levels s ∧
   ∃ b, check_connectivity s = Ok b ∧ (b = true ↔ retirable s)).
Proof.
  intros Hs. unfold check_connectivity, is_main_identity.
  destruct (Nat.eqb_spec (st_connectivity_from_level s) 0); [left; eauto|].
  destruct (Nat.ltb_spec (st_connectivity_to_level s) (st_connectivity_from_level s)); cbn; [left; eauto|].
  destruct (Nat.ltb_spec (st_levels s) (st_connectivity_to_level s)); cbn; [left; eauto 6|].
  right. split_and!; [lia..|]. apply connectivity_is_retirable_spec; [done|lia].
Qed.
End Properties.

(** ** Witnesses *)
#[local] Existing Instance map_order.

Lemma ex_in_map_inv d np : in_map ex_state d np → np_path np = np_path ex_np_gnode ∨ np_path np = np_path ex_np_peer.
Proof.
  destruct (update_map_spec ex_base ex_base_wf ex_cands ex_cands_candidates None) as (s' & out & Hu & _ & _ & Hd & _).
  assert (ex_state = s') as -> by (unfold ex_state; by rewrite Hu).
  intros (np0 & [= _ <-] & Hor)%(du_from _ _ _ _ _ _ _ (Hd d)). destruct Hor as [(dest & Hdest & _)|[Hin _]%elem_of_retain].
  - exfalso. apply destination_Some in Hdest as (m & Hm & Hp). destruct (hc_level d) as [|[|]]; vm_compute in Hm; try discriminate Hm;
      injection Hm as <-; discriminate Hp.
  - apply elem_of_cons in Hin as [->| ->%list_elem_of_singleton]; auto.
Qed.

Lemma ignore_flags_exact_witness :
  let p := prepare_for_sending ex_np_gnode (Finite 10) in
  ∃ flags, set_ignore_outside_for_sending ex_state p =
    Ok (mkEtpPath (ep_hops p) (ep_arcs p) (ep_cost p) (ep_fingerprint p) (ep_nodes_inside p) flags) ∧ length flags = 2.
Proof.
  intros p. destruct (ignore_flags_exact ex_state p ex_g) as (flags & Hf & Hlen & _).
  - apply ex_state_wf.
  - apply (sendable_admitted ex_state ex_g (mkNodePath 7 (np_path ex_np_gnode) true) (Finite 10));
      [apply in_map_admitted; [apply ex_state_wf|apply ex_in_map]|cbn; unfold is_u64, U64_MAX; lia].
  - exists flags. split; [exact Hf|exact Hlen].
Defined.

Lemma full_etp_exact_witness :
  ∃ m, prepare_full_etp ex_state = Ok m ∧ (∃ p, p ∈ em_paths m ∧ ep_hops p = [ex_v; ex_g] ∧ ep_cost p = Finite 15) ∧
    check_outgoing_message m ex_my = Ok true.
Proof.
  destruct (full_etp_exact ex_state ex_state_wf) as (m & Hm & _ & _ & _ & _ & Hall & Honly & Hcheck).
  exists m. split_and!; [exact Hm| |].
  - destruct (Hall _ _ ex_in_map) as (p & Hp & Hh & _ & Hc). exists p. split_and!; [exact Hp|exact Hh|exact Hc].
  - apply Hcheck. intros p Hp h Hh. destruct (Honly p Hp) as (d & np & Hin & Hhops & _). rewrite Hhops in Hh.
    exists 4%Z. destruct (ex_in_map_inv d np Hin) as [E|E]; rewrite E in Hh;
      repeat (apply elem_of_cons in Hh as [->|Hh]; [split; [reflexivity|cbn; lia]|]); by apply elem_of_nil in Hh.
Defined.

(** The delegate that moves a g-node of level 0 to the virtual position 9. *)
Definition ex_move (a : Naddr) : Naddr := mkNaddr (na_topology a) (<[0 := 9%Z]> (na_pos a)).

Lemma ex_move_ok : rebase_ok ex_state 1 ex_move.
Proof.
  constructor.
  - intros a (Ht & Hl & Hu) E. split; [|exact E]. split_and!; cbn; [done|by rewrite length_insert|].
    apply Forall_insert; [done|by apply ex_u32].
  - intros d np Hin g Hg. replace (st_my_naddr ex_state) with ex_my by reflexivity.
    destruct (ex_in_map_inv d np Hin) as [E|E]; rewrite E in Hg;
      repeat (apply elem_of_cons in Hg as [->|Hg]; [vm_compute; discriminate|]); by apply elem_of_nil in Hg.
  - intros _ _. reflexivity.
Qed.

Lemma make_connectivity_correct_witness :
  ∃ s' evs, make_connectivity ex_state 1 2 ex_move = (s', Ok (mkMakeConnectivityOutcome (mkHCoord 0 1) evs)) ∧
    st_my_naddr s' = ex_move ex_my ∧ connectivity_range s' = (1, 2).
Proof.
  destruct (make_connectivity_correct ex_state 1 2 ex_move ex_state_wf ex_move_ok)
    as [(msg & _ & Hb)|(_ & _ & _ & s' & pos & evs & Hm & Hp & _ & Hn & Hr & _)].
  - exfalso. apply Hb. vm_compute. split_and!; (lia || reflexivity).
  - exists s', evs. vm_compute in Hp. injection Hp as <-. split_and!; [exact Hm|exact Hn|exact Hr].
Defined.

Lemma exit_network_correct_witness :
  ∃ s' out, exit_network ex_state 0 = (s', Ok out) ∧ 7%Z ∈ en_removed_arcs out ∧ ∀ d np, ¬ in_map s' d np.
Proof.
  destruct (exit_network_correct ex_state 0 ex_state_wf) as (s' & out & He & _ & _ & Hr & _ & Hm).
  exists s', out. split_and!; [exact He| |].
  - apply Hr. exists (mkArcEntry (Finite 10) (Some ex_peer)), 0. split_and!; [reflexivity|reflexivity|lia].
  - intros d np (_ & Hl & _)%Hm. lia.
Defined.

Lemma ex_connectivity_wf : state_wf (set_connectivity ex_state 1 2).
Proof. destruct ex_state_wf. by constructor. Qed.

Lemma check_connectivity_exact_witness :
  check_connectivity (set_connectivity ex_state 1 2) = Ok true ∧ retirable (set_connectivity ex_state 1 2).
Proof.
  assert (check_connectivity (set_connectivity ex_state 1 2) = Ok true) as Hc by (vm_compute; reflexivity).
  split; [exact Hc|]. destruct (check_connectivity_exact _ ex_connectivity_wf) as [(msg & He & _)|(_ & _ & b & Hb & Hr)].
  - rewrite Hc in He. discriminate He.
  - apply Hr. rewrite Hc in Hb. by injection Hb.
Defined.
