(* ===== verification/QspnActor.v ===== *)
(** * The QSPN actor

    Models [Actor] of [crates/ntk-qspn/src/manager.rs]: one task owns the
    [QspnState] and handles the commands of its queue one at a time.  A handler
    never waits for the network: what it would do outside (events, snapshots,
    replies, spawned tasks) is its list of effects.  A spawned task later puts a
    command back on the queue; [QspnSystem] composes the two.

    What the actor is given is a parameter: the threshold calculator is a
    function, the arc-id source the list of the values it yields, and an
    [RpcError], which the handlers only log, is [None]. *)
From stdpp Require Import strings.
From S2P Require Import Prelude Addressing Fingerprint QspnPath QspnConfig QspnValidate.
From S2P Require Import QspnRevise QspnState QspnUpdateMap QspnConnectivity QspnFlood.

(** ** Commands, replies, tasks, effects *)
Abbreviation Fetched := (option EtpMessage) (only parsing).

Inductive Command :=
  | AddArc (cost : Cost) (draws : list ArcId)
  | ArcAddFetched (arc : ArcId) (result : Fetched)
  | ArcChanged (arc : ArcId) (cost : Cost)
  | RemoveArc (arc : ArcId)
  | GatherComplete (a_changed : option ArcId) (extra_dead_paths : list EtpPath)
      (results : list (ArcId * Fetched))
  | CurrentArcs
  | PeerNaddr (arc : ArcId)
  | MyEldership (level : nat)
  | Eldership (level : nat) (pos : Z)
  | FingerprintId (level : nat)
  | GetFullEtp (arc : ArcId) (requesting_address : Naddr)
  | SendEtp (arc : ArcId) (etp : EtpMessage) (is_full : bool)
  | GotPrepareDestroy
  | GotDestroy (arc : ArcId)
  | DestroyStub
  | ResendEtp (arc : ArcId) (etp : EtpMessage) (is_full : bool)
  | ResendFailed (arc : ArcId)
  | PeriodicFullEtp
  | FirstDetectionSplitFire (b_set : list HCoord)
  | SplitTimerFire (destination : HCoord) (fp_eldest fp : Fp)
  | BootstrapEtpFetched (arc : ArcId) (result : Fetched)
  | BootstrapTimeout
  | ExitBootstrapGathered (results : list (ArcId * Fetched))
  | IsBootstrapComplete
  | CurrentNaddr
  | MakeConnectivity (from to : nat) (update_naddr : Naddr → Naddr)
  | PublishConnectivity (old_position : HCoord)
  | ExitNetwork (level : nat)
  | CheckConnectivity
  | ArcGatherWindowElapsed.

(** A Rust [Result] that a handler passes on as a value. *)
Abbreviation Result A := (QspnError + A)%type (only parsing).

Inductive Answer :=
  | AnArc (id : ArcId)
  | ADone (r : Result unit)
  | AArcs (arcs : list ArcId)
  | APeer (a : option Naddr)
  | AMyEldership (e : option (option Z))
  | AEldership (r : Result (option (option Z)))
  | AFingerprintId (id : option (list Z))
  | AEtp (r : Result EtpMessage)
  | AStub (arcs : option (list ArcId))
  | ABool (b : bool)
  | ANaddr (a : Naddr)
  | ACheck (r : Result bool).

(** What [self.timers.spawn] runs: outbound calls and timers. *)
Inductive Task :=
  | TFetchNewArc (arc : ArcId)
  | TGather (arcs : list ArcId) (a_changed : option ArcId) (extra_dead_paths : list EtpPath)
  | TArcGatherWindow
  | TUnicast (arc : ArcId) (msg : EtpMessage) (is_full : bool)
  | TBroadcast (arcs : list ArcId) (msg : EtpMessage) (is_full : bool)
  | TResend (arc : ArcId) (msg : EtpMessage) (is_full : bool)
  | TBootstrapSignal
  | TPeriodic
  | TBootstrapFetch (arc : ArcId)
  | TBootstrapTimeout
  | TExitBootstrapGather (arcs : list ArcId)
  | TFirstDetectionSplit (b_set : list HCoord)
  | TSplit (destination : HCoord) (fp_eldest fp : Fp) (threshold : Z)
  | TPublishConnectivity (old_position : HCoord)
  | TPresenceNotified.

Inductive Effect :=
  | Emit (e : QspnEvent)
  | Publish (s : RouteSnapshot)
  | Reply (a : Answer)
  | Spawn (t : Task).

(** ** The actor and its monad *)
Record PendingArcGather := mkPendingArcGather { latest_arc : ArcId; trailing_owed : bool }.

Record Actor := mkActor { ac_state : QspnState; arc_gather_window : option PendingArcGather }.

Record Ingested := mkIngested {
  in_hops : list HCoord;
  in_all_paths_set : list EtpPath;
  in_changed_my_gnodes : bool
}.

(** A handler panics, or leaves an actor, effects and a value. *)
Definition M (A : Type) : Type := Actor → res unit (Actor * list Effect * A).

#[export] Instance M_ret : MRet M := λ A a ac, Ok (ac, [], a).
#[export] Instance M_bind : MBind M := λ A B f m ac,
  match m ac with
  | Ok (ac1, e1, a) =>
      match f a ac1 with
      | Ok (ac2, e2, b) => Ok (ac2, e1 ++ e2, b)
      | Err e => Err e
      | Panic => Panic
      end
  | Err e => Err e
  | Panic => Panic
  end.

Definition effect (e : Effect) : M unit := λ ac, Ok (ac, [e], tt).
Definition emit (e : QspnEvent) : M unit := effect (Emit e).
Definition emit_all (es : list QspnEvent) : M unit := λ ac, Ok (ac, Emit <$> es, tt).
Definition reply (a : Answer) : M unit := effect (Reply a).
Definition spawn (t : Task) : M unit := effect (Spawn t).

(** Reading the state, and running its methods on it. *)
Definition reads {A} (f : QspnState → A) : M A := λ ac, Ok (ac, [], f (ac_state ac)).
Definition modify {A} (f : QspnState → QspnState * A) : M A := λ ac,
  let (s', a) := f (ac_state ac) in Ok (mkActor s' (arc_gather_window ac), [], a).

(** A [Result] as a value: only a panic stops the handler. *)
Definition as_result {A} (r : res QspnError A) : M (Result A) := λ ac,
  match r with
  | Ok a => Ok (ac, [], inr a)
  | Err e => Ok (ac, [], inl e)
  | Panic => Panic
  end.
Definition run_state {A} (f : QspnState → QspnState * res QspnError A) : M (Result A) :=
  r ← modify f; as_result r.

(** A Rust function that returns no [Result]: it yields or panics. *)
Definition infallible {E A} (r : res E A) : M A := λ ac,
  match r with Ok a => Ok (ac, [], a) | _ => Panic end.

Definition get_window : M (option PendingArcGather) := λ ac, Ok (ac, [], arc_gather_window ac).
Definition set_window (w : option PendingArcGather) : M unit := λ ac,
  Ok (mkActor (ac_state ac) w, [], tt).

Definition when (b : bool) (m : M unit) : M unit := if b then m else mret tt.

(** A [for] loop with an accumulator. *)
Fixpoint for_each {A B} (f : B → A → M B) (b : B) (l : list A) : M B :=
  match l with
  | [] => mret b
  | a :: l' => b' ← f b a; for_each f b' l'
  end.

Definition non_empty {A} (l : list A) : bool := negb (length l =? 0).

(** ** Handlers *)
Section Handlers.
Context `{HashOrder}.
(** [ThresholdCalculator::calculate_threshold] *)
Context (calculate_threshold : RoutePath → RoutePath → Z).

Definition arc_count (s : QspnState) : nat := length (arc_ids s).

(** A failed snapshot is only logged. *)
Definition publish_snapshot : M unit :=
  r ← (s ← reads id; as_result (snapshot s));
  match r with
  | inr snap => effect (Publish snap)
  | inl _ => mret tt
  end.

Definition spawn_gather (a_changed : option ArcId) (extra_dead_paths : list EtpPath) : M unit :=
  arcs ← reads arc_ids;
  spawn (TGather arcs a_changed extra_dead_paths).

Definition request_arc_gather (arc : ArcId) : M unit :=
  w ← get_window;
  match w with
  | None =>
      _ ← spawn_gather (Some arc) [];
      _ ← set_window (Some (mkPendingArcGather arc false));
      spawn TArcGatherWindow
  | Some _ => set_window (Some (mkPendingArcGather arc true))
  end.

Definition handle_arc_gather_window_elapsed : M unit :=
  w ← get_window;
  _ ← set_window None;
  match w with
  | None => mret tt
  | Some pending =>
      when (trailing_owed pending)
        (_ ← spawn_gather (Some (latest_arc pending)) [];
         _ ← set_window (Some (mkPendingArcGather (latest_arc pending) false));
         spawn TArcGatherWindow)
  end.

Definition spawn_broadcast (arcs : list ArcId) (msg : EtpMessage) (is_full : bool) : M unit :=
  when (non_empty arcs) (spawn (TBroadcast arcs msg is_full)).

Definition spawn_broadcast_all (msg : EtpMessage) (is_full : bool) : M unit :=
  arcs ← reads arc_ids; spawn_broadcast arcs msg is_full.

Definition spawn_broadcast_all_but (msg : EtpMessage) (is_full : bool) (except : ArcId) : M unit :=
  arcs ← reads arc_ids; spawn_broadcast (retain (λ a, negb (a =? except)%Z) arcs) msg is_full.

Definition spawn_bootstrap_fetches (arcs : list ArcId) : M unit :=
  for_each (λ _ arc, spawn (TBootstrapFetch arc)) tt arcs.

Definition spawn_bootstrap_and_periodic : M unit := spawn TBootstrapSignal.

Definition spawn_bootstrap_entering (bootstrap_arcs : list ArcId) : M unit :=
  _ ← spawn_bootstrap_fetches bootstrap_arcs;
  spawn TBootstrapTimeout.

Definition spawn_exit_bootstrap_gather : M unit :=
  arcs ← reads arc_ids; spawn (TExitBootstrapGather arcs).

Definition spawn_first_detection_split (b_set : list HCoord) : M unit :=
  spawn (TFirstDetectionSplit b_set).

(** One signal: a pair that already awaits its timer is skipped. *)
Definition spawn_split_signal (sig : SplitSignal) : M unit :=
  fresh ← modify (λ s, begin_pending_split s (ss_fp_eldest sig) (ss_fp sig));
  when fresh
    (ac ← reads arc_cost;
     let threshold := calculate_threshold
       (to_route_path (ss_bp_eldest sig) (ac (np_arc (ss_bp_eldest sig))))
       (to_route_path (ss_bp sig) (ac (np_arc (ss_bp sig)))) in
     spawn (TSplit (ss_destination sig) (ss_fp_eldest sig) (ss_fp sig) threshold)).

Definition spawn_split_signals (signals : list SplitSignal) : M unit :=
  for_each (λ _ sig, spawn_split_signal sig) tt signals.

(** The tail of an update of the map: events, split timers, clusters.  Returns
    whether this node's own g-nodes changed. *)
Definition after_update_map (outcome : UpdateMapOutcome) : M bool :=
  _ ← emit_all (um_events outcome);
  _ ← when (non_empty (um_b_set outcome)) (spawn_first_detection_split (um_b_set outcome));
  _ ← spawn_split_signals (um_split_signals outcome);
  r ← run_state update_clusters;
  let cluster_events := match r with inr evs => evs | inl _ => [] end in
  _ ← emit_all cluster_events;
  mret (non_empty cluster_events).

(** [prepare_new_etp] on finalized paths. *)
Definition build_etp (paths : list EtpPath) (hops : list HCoord) : M EtpMessage :=
  s ← reads id;
  paths' ← infallible (finalize_for_sending s paths);
  infallible (prepare_new_etp s paths' hops).

Definition build_full_etp : M EtpMessage := s ← reads id; infallible (prepare_full_etp s).

Definition do_remove_arc (arc : ArcId) (bad_link : bool) : M unit :=
  removal ← modify (λ s, remove_arc s arc);
  _ ← emit_all (ra_events removal);
  _ ← emit (ArcRemoved arc bad_link);
  _ ← when (non_empty (ra_events removal)) publish_snapshot;
  when (non_empty (ra_dead_paths removal)) (spawn_gather None (ra_dead_paths removal)).

(** [arc_id_source.next()] until it yields an id no arc has.  [None]: every
    value of the list is taken, and the loop is still drawing. *)
Definition first_free (s : QspnState) (draws : list ArcId) : option ArcId :=
  find (λ a, negb (contains_arc s a)) draws.

(** A list of draws that ends before a free id is not a run of the handler to
    its end: it is no result, like a panic. *)
Definition handle_add_arc (cost : Cost) (draws : list ArcId) : M unit :=
  s ← reads id;
  arc ← infallible (expect (first_free s draws) : res unit ArcId);
  _ ← modify (λ s, (add_arc s arc cost, tt));
  _ ← reply (AnArc arc);
  complete ← reads is_bootstrap_complete;
  if (complete : bool) then spawn (TFetchNewArc arc) else spawn_bootstrap_fetches [arc].

Definition check_and_remove_on_junk (arc : ArcId) (etp : EtpMessage) : M bool :=
  s ← reads id;
  ok ← infallible (check_incoming_message etp (st_my_naddr s));
  if (ok : bool) then mret true
  else _ ← do_remove_arc arc false; mret false.

Definition ingest_checked_etp (arc : ArcId) (etp : EtpMessage) (is_full : bool) : M (option Ingested) :=
  old_peer ← modify (λ s, record_peer_naddr s arc (em_node_address etp));
  s ← reads id;
  let existing := if is_full then paths_via_arc0 s arc else [] in
  r ← as_result (revise_etp (st_my_naddr s) etp arc old_peer is_full existing);
  match r with
  | inl _ => mret None
  | inr revised =>
      o ← run_state (λ s, update_map s (re_npaths revised) None);
      match o with
      | inl _ => mret None
      | inr outcome =>
          changed ← after_update_map outcome;
          mret (Some (mkIngested (re_hops revised) (um_all_paths_set outcome) changed))
      end
  end.

Definition ingest_incoming_etp (arc : ArcId) (etp : EtpMessage) (is_full : bool) : M (option Ingested) :=
  ok ← check_and_remove_on_junk arc etp;
  if (ok : bool) then ingest_checked_etp arc etp is_full else mret None.

Definition ingest_changed (i : Ingested) : bool :=
  non_empty (in_all_paths_set i) || in_changed_my_gnodes i.

(** [if changed && self.state.arcs().count() > 1]: forward to the other arcs. *)
Definition forward_ingested (arc : ArcId) (i : Ingested) : M unit :=
  _ ← when (ingest_changed i) publish_snapshot;
  count ← reads arc_count;
  when (ingest_changed i && (1 <? count))
    (msg ← build_etp (in_all_paths_set i) (in_hops i);
     spawn_broadcast_all_but msg false arc).

Definition handle_arc_add_fetched (arc : ArcId) (result : Fetched) : M unit :=
  known ← reads (λ s, contains_arc s arc);
  if negb known then mret tt
  else
    match result with
    | None => do_remove_arc arc true
    | Some etp =>
        r ← ingest_incoming_etp arc etp true;
        match r with
        | None => mret tt
        | Some ingested =>
            _ ← forward_ingested arc ingested;
            full ← build_full_etp;
            spawn (TUnicast arc full true)
        end
    end.

Definition handle_arc_changed (arc : ArcId) (cost : Cost) : M unit :=
  known ← reads (λ s, contains_arc s arc);
  if negb known then reply (ADone (inl UnknownArc))
  else
    _ ← modify (λ s, (set_arc_cost s arc cost, tt));
    _ ← reply (ADone (inr tt));
    complete ← reads is_bootstrap_complete;
    when complete (request_arc_gather arc).

Definition handle_remove_arc (arc : ArcId) : M unit :=
  known ← reads (λ s, contains_arc s arc);
  if negb known then reply (ADone (inl UnknownArc))
  else
    complete ← reads is_bootstrap_complete;
    if negb complete then reply (ADone (inr tt))
    else
      removal ← modify (λ s, remove_arc s arc);
      _ ← emit_all (ra_events removal);
      _ ← when (non_empty (ra_events removal)) publish_snapshot;
      _ ← reply (ADone (inr tt));
      spawn_gather None (ra_dead_paths removal).

(** One gathered result: the candidates it adds to [q]. *)
Definition gather_result (q : list NodePath) (r : ArcId * Fetched) : M (list NodePath) :=
  let arc := r.1 in
  known ← reads (λ s, contains_arc s arc);
  if negb known then mret q
  else
    match r.2 with
    | None => _ ← do_remove_arc arc true; mret q
    | Some etp =>
        s ← reads id;
        ok ← infallible (check_incoming_message etp (st_my_naddr s));
        if negb ok then _ ← do_remove_arc arc false; mret q
        else
          old_peer ← modify (λ s, record_peer_naddr s arc (em_node_address etp));
          s ← reads id;
          rev ← as_result (revise_etp (st_my_naddr s) etp arc old_peer true (paths_via_arc0 s arc));
          mret (match rev with inr revised => q ++ re_npaths revised | inl _ => q end)
    end.

Definition handle_gather_complete (a_changed : option ArcId) (extra_dead_paths : list EtpPath)
    (results : list (ArcId * Fetched)) : M unit :=
  q ← for_each gather_result [] results;
  o ← run_state (λ s, update_map s q a_changed);
  match o with
  | inl _ => mret tt
  | inr outcome =>
      changed_my_gnodes ← after_update_map outcome;
      let all_paths_set := um_all_paths_set outcome ++ extra_dead_paths in
      let changed := non_empty all_paths_set || changed_my_gnodes in
      _ ← when changed publish_snapshot;
      count ← reads arc_count;
      when (changed && (0 <? count))
        (msg ← build_etp all_paths_set [];
         spawn_broadcast_all msg false)
  end.

(** Inbound [get_full_etp]: [&self], purely local. *)
Definition handle_inbound_get_full_etp (arc : ArcId) (requesting_address : Naddr)
    : M (Result EtpMessage) :=
  s ← reads id;
  if negb (is_bootstrap_complete s) then mret (inl BootstrapInProgress)
  else if negb (contains_arc s arc) then mret (inl NotAnArc)
  else
    c ← as_result (map_err Common (hcoord (st_my_naddr s) requesting_address));
    match c with
    | inl e => mret (inl e)
    | inr None => mret (inl EtpFromSelf)
    | inr (Some b) =>
        let nps := concat (all_paths_at s <$> seq (hc_level b) (st_levels s - hc_level b)) in
        let paths := (λ np, prepare_for_sending np (arc_cost s (np_arc np))) <$>
          retain (λ np, negb (contains b (ep_hops (np_path np)))) nps in
        msg ← build_etp paths [];
        mret (inr msg)
    end.

(** [exit_bootstrap_phase]'s transition. *)
Definition do_exit_bootstrap : M unit :=
  _ ← modify (λ s, (exit_bootstrap s, tt));
  _ ← publish_snapshot;
  _ ← emit BootstrapComplete;
  _ ← spawn TPeriodic;
  spawn_exit_bootstrap_gather.

(** [etp.paths.iter().any(|p| p.hops.last().is_some_and(|h| h.level == host_gnode_level - 1))]:
    the subtraction overflows on a host level of zero. *)
Fixpoint reaches_host (host_gnode_level : nat) (paths : list EtpPath) : res unit bool :=
  match paths with
  | [] => Ok false
  | p :: paths' =>
      match last (ep_hops p) with
      | None => reaches_host host_gnode_level paths'
      | Some h =>
          match host_gnode_level with
          | 0 => Panic
          | S l => if hc_level h =? l then Ok true else reaches_host host_gnode_level paths'
          end
      end
  end.

(** The bootstrap gate of [send_etp]: whether the ETP qualifies. *)
Definition bootstrap_gate (etp : EtpMessage) : M bool :=
  s ← reads id;
  host ← infallible (expect (host_gnode_level s) : res unit nat);
  c ← as_result (map_err Common (hcoord (st_my_naddr s) (em_node_address etp)));
  match c with
  | inr (Some sender) =>
      if guest_gnode_level s <=? hc_level sender then mret false
      else infallible (reaches_host host (em_paths etp))
  | _ => mret false
  end.

Definition handle_inbound_send_etp (arc : ArcId) (etp : EtpMessage) (is_full : bool) : M (Result unit) :=
  known ← reads (λ s, contains_arc s arc);
  if negb known then mret (inl NotAnArc)
  else
    ok ← check_and_remove_on_junk arc etp;
    if negb ok then mret (inr tt)
    else
      complete ← reads is_bootstrap_complete;
      if negb complete then
        qualifies ← bootstrap_gate etp;
        _ ← when qualifies (_ ← ingest_checked_etp arc etp is_full; do_exit_bootstrap);
        mret (inr tt)
      else
        r ← ingest_checked_etp arc etp is_full;
        match r with
        | None => mret (inr tt)
        | Some ingested => _ ← forward_ingested arc ingested; mret (inr tt)
        end.

(** A broadcast of the full ETP, when there is an arc to send it to. *)
Definition broadcast_full_etp : M unit :=
  count ← reads arc_count;
  when (0 <? count) (msg ← build_full_etp; spawn_broadcast_all msg true).

Definition handle_periodic_full_etp : M unit := broadcast_full_etp.

Definition handle_first_detection_split (b_set : list HCoord) : M unit :=
  s ← reads id;
  let paths := concat ((λ g, match destination s (hc_level g) (hc_pos g) with
      | Some d => (λ np, prepare_for_sending np (arc_cost s (np_arc np))) <$> d_paths d
      | None => []
      end) <$> b_set) in
  when (non_empty paths) (msg ← build_etp paths []; spawn_broadcast_all msg false).

Definition handle_split_timer_fire (d : HCoord) (fp_eldest fp : Fp) : M unit :=
  _ ← modify (λ s, (clear_pending_split s fp_eldest fp, tt));
  arcs ← reads (λ s, split_still_live s d fp_eldest fp);
  emit_all ((λ arc, GnodeSplitted arc d fp) <$> arcs).

Definition handle_bootstrap_etp_fetched (arc : ArcId) (result : Fetched) : M unit :=
  s ← reads id;
  if is_bootstrap_complete s || negb (contains_arc s arc) then mret tt
  else
    match result with
    | None => do_remove_arc arc true
    | Some etp =>
        c ← as_result (map_err Common (hcoord (st_my_naddr s) (em_node_address etp)));
        match c with
        | inr (Some sender) =>
            host ← infallible (expect (host_gnode_level s) : res unit nat);
            if (hc_level sender <? guest_gnode_level s) || (host <=? hc_level sender) then mret tt
            else _ ← ingest_incoming_etp arc etp true; do_exit_bootstrap
        | _ => mret tt
        end
    end.

Definition handle_bootstrap_timeout : M unit :=
  complete ← reads is_bootstrap_complete;
  when (negb complete) do_exit_bootstrap.

(** One re-fetched ETP of the exit wave: whether it changed anything. *)
Definition exit_bootstrap_result (changed : bool) (r : ArcId * Fetched) : M bool :=
  known ← reads (λ s, contains_arc s r.1);
  if negb known then mret changed
  else
    match r.2 with
    | Some etp =>
        i ← ingest_incoming_etp r.1 etp true;
        mret (match i with Some ingested => changed || ingest_changed ingested | None => changed end)
    | None => _ ← do_remove_arc r.1 true; mret changed
    end.

Definition handle_exit_bootstrap_gathered (results : list (ArcId * Fetched)) : M unit :=
  changed ← for_each exit_bootstrap_result false results;
  _ ← when changed publish_snapshot;
  _ ← broadcast_full_etp;
  spawn TPresenceNotified.

Definition handle_make_connectivity (from to : nat) (update_naddr : Naddr → Naddr) : M unit :=
  r ← run_state (λ s, make_connectivity s from to update_naddr);
  match r with
  | inl e => reply (ADone (inl e))
  | inr outcome =>
      _ ← emit_all (mc_events outcome);
      _ ← when (non_empty (mc_events outcome)) publish_snapshot;
      _ ← reply (ADone (inr tt));
      spawn (TPublishConnectivity (mc_old_position outcome))
  end.

Definition is_outer_arc (s : QspnState) (old_position : HCoord) (arc : ArcId) : bool :=
  match peer_naddr s arc with
  | None => false
  | Some peer =>
      match hcoord (st_my_naddr s) peer with
      | Ok (Some h) =>
          ((hc_level h =? hc_level old_position) && negb (hc_pos h =? hc_pos old_position)%Z)
          || (hc_level old_position <? hc_level h)
      | _ => false
      end
  end.

Definition outer_arcs_after_connectivity (s : QspnState) (old_position : HCoord) : list ArcId :=
  retain (is_outer_arc s old_position) (arc_ids s).

Definition handle_publish_connectivity (old_position : HCoord) : M unit :=
  outer_arcs ← reads (λ s, outer_arcs_after_connectivity s old_position);
  msg ← build_etp [] [old_position];
  spawn_broadcast outer_arcs msg false.

Definition handle_exit_network (level : nat) : M unit :=
  r ← run_state (λ s, exit_network s level);
  match r with
  | inl e => reply (ADone (inl e))
  | inr outcome =>
      _ ← emit_all (en_events outcome);
      _ ← when (non_empty (en_events outcome)) publish_snapshot;
      _ ← reply (ADone (inr tt));
      broadcast_full_etp
  end.

(** ** Dispatch *)
Definition handle (cmd : Command) : M unit :=
  match cmd with
  | AddArc cost draws => handle_add_arc cost draws
  | ArcAddFetched arc result => handle_arc_add_fetched arc result
  | ArcChanged arc cost => handle_arc_changed arc cost
  | RemoveArc arc => handle_remove_arc arc
  | GatherComplete a_changed extra results => handle_gather_complete a_changed extra results
  | CurrentArcs => arcs ← reads arc_ids; reply (AArcs arcs)
  | PeerNaddr arc => a ← reads (λ s, peer_naddr s arc); reply (APeer a)
  | MyEldership level => e ← reads (λ s, my_eldership s level); reply (AMyEldership e)
  | Eldership level pos =>
      r ← (s ← reads id; as_result (eldership s level pos)); reply (AEldership r)
  | FingerprintId level =>
      f ← reads (λ s, fingerprint s level); reply (AFingerprintId (fp_id <$> f))
  | GetFullEtp arc requesting => r ← handle_inbound_get_full_etp arc requesting; reply (AEtp r)
  | SendEtp arc etp is_full => r ← handle_inbound_send_etp arc etp is_full; reply (ADone r)
  | GotPrepareDestroy => reply (ADone (inr tt))
  | GotDestroy arc => _ ← do_remove_arc arc false; reply (ADone (inr tt))
  | DestroyStub =>
      arcs ← reads arc_ids;
      reply (AStub (if non_empty arcs then Some arcs else None))
  | ResendEtp arc etp is_full =>
      known ← reads (λ s, contains_arc s arc);
      when known (spawn (TResend arc etp is_full))
  | ResendFailed arc => do_remove_arc arc true
  | PeriodicFullEtp => handle_periodic_full_etp
  | BootstrapEtpFetched arc result => handle_bootstrap_etp_fetched arc result
  | BootstrapTimeout => handle_bootstrap_timeout
  | ExitBootstrapGathered results => handle_exit_bootstrap_gathered results
  | IsBootstrapComplete => b ← reads is_bootstrap_complete; reply (ABool b)
  | CurrentNaddr => a ← reads st_my_naddr; reply (ANaddr a)
  | MakeConnectivity from to update_naddr => handle_make_connectivity from to update_naddr
  | PublishConnectivity old_position => handle_publish_connectivity old_position
  | ExitNetwork level => handle_exit_network level
  | CheckConnectivity => r ← (s ← reads id; as_result (check_connectivity s)); reply (ACheck r)
  | FirstDetectionSplitFire b_set => handle_first_detection_split b_set
  | SplitTimerFire d fp_eldest fp => handle_split_timer_fire d fp_eldest fp
  | ArcGatherWindowElapsed => handle_arc_gather_window_elapsed
  end.
End Handlers.
