(* ===== verification/QspnActorSafety.v ===== *)
(** * The actor never panics and keeps its invariant

    A weakest-precondition calculus for the actor's monad, and its use on every
    handler of [QspnActor]: from a well-formed state, on a well-typed command,
    each handler returns, leaves a well-formed state, and spawns only
    well-formed tasks. *)
From S2P Require Import Prelude Addressing Fingerprint QspnPath QspnConfig QspnValidate.
From S2P Require Import QspnRevise QspnState QspnUpdateMap QspnConnectivity QspnFlood QspnActor.

(** The bootstrap range [spawn_entering] starts from. *)
Definition bootstrap_wf (s : QspnState) : Prop :=
  match st_bootstrap s with Complete => True | InProgress g h => g < h ∧ h ≤ st_levels s end.

Section Safety.
Context (t : Topology).

Record Inv (ac : Actor) : Prop := {
  inv_wf : state_wf (ac_state ac);
  inv_topology : na_topology (st_my_naddr (ac_state ac)) = t;
  inv_bootstrap : bootstrap_wf (ac_state ac)
}.

(** A message another node can take: it is typed, and its check accepts it as
    soon as the coordinates it names are real. *)
Record msg_ok (m : EtpMessage) : Prop := {
  mo_typed : message_typed m;
  mo_topology : na_topology (em_node_address m) = t;
  mo_nodes_inside : length (em_nodes_inside m) = S (topology_levels t);
  mo_valid : hops_real t (em_hops m) → Forall (λ p, hops_real t (ep_hops p)) (em_paths m) →
    message_valid t m
}.

Definition task_wf (tk : Task) : Prop :=
  match tk with
  | TGather arcs _ extra => NoDup arcs ∧ Forall (sendable_wf t) extra
  | TExitBootstrapGather arcs => NoDup arcs
  | TUnicast _ msg _ | TBroadcast _ msg _ | TResend _ msg _ => msg_ok msg
  | TPublishConnectivity old_position => hc_level old_position < topology_levels t
  | _ => True
  end.

Definition eff_ok (e : Effect) : Prop :=
  match e with
  | Spawn tk => task_wf tk
  | Reply (AEtp (inr m)) => msg_ok m
  | _ => True
  end.

(** ** The calculus *)
Definition wp {A} (m : M A) (Q : A → Actor → Prop) (ac : Actor) : Prop :=
  ∃ ac' es a, m ac = Ok (ac', es, a) ∧ Forall eff_ok es ∧ Q a ac'.

Lemma wp_mono {A} (m : M A) (Q Q' : A → Actor → Prop) ac :
  wp m Q ac → (∀ a ac', Q a ac' → Q' a ac') → wp m Q' ac.
Proof. intros (ac' & es & a & ? & ? & ?) HQ. exists ac', es, a. auto. Qed.

Lemma wp_ret {A} (a : A) (Q : A → Actor → Prop) ac : Q a ac → wp (mret a) Q ac.
Proof. intros HQ. by exists ac, [], a. Qed.

Lemma wp_bind {A B} (m : M A) (f : A → M B) Q ac :
  wp m (λ a ac', wp (f a) Q ac') ac → wp (m ≫= f) Q ac.
Proof.
  intros (ac1 & e1 & a & Hm & He1 & ac2 & e2 & b & Hf & He2 & HQ). exists ac2, (e1 ++ e2), b.
  split_and!; [|by apply Forall_app|done]. unfold mbind, M_bind. by rewrite Hm, Hf.
Qed.

Lemma wp_effect e (Q : unit → Actor → Prop) ac : eff_ok e → Q tt ac → wp (effect e) Q ac.
Proof. intros He HQ. exists ac, [e], tt. split_and!; [done|by repeat constructor|done]. Qed.

Lemma wp_emit_all es (Q : unit → Actor → Prop) ac : Q tt ac → wp (emit_all es) Q ac.
Proof.
  intros HQ. eexists _, _, _. split_and!; [done| |done]. apply Forall_forall.
  by intros e (x & -> & _)%list_elem_of_fmap.
Qed.

Lemma wp_reads {A} (f : QspnState → A) (Q : A → Actor → Prop) ac :
  Q (f (ac_state ac)) ac → wp (reads f) Q ac.
Proof. intros HQ. by exists ac, [], (f (ac_state ac)). Qed.

Lemma wp_modify {A} (f : QspnState → QspnState * A) (Q : A → Actor → Prop) ac :
  Q (f (ac_state ac)).2 (mkActor (f (ac_state ac)).1 (arc_gather_window ac)) → wp (modify f) Q ac.
Proof.
  intros HQ. unfold wp, modify. destruct (f (ac_state ac)) as [s' a]. eexists _, [], a. auto.
Qed.

Lemma wp_as_result {A} (r : res QspnError A) (Q : QspnError + A → Actor → Prop) ac :
  (∀ a, r = Ok a → Q (inr a) ac) → (∀ e, r = Err e → Q (inl e) ac) → r ≠ Panic → wp (as_result r) Q ac.
Proof.
  intros Hok Herr Hp. unfold wp, as_result.
  destruct r as [a|e|]; [exists ac, [], (inr a); auto|exists ac, [], (inl e); auto|done].
Qed.

Lemma wp_infallible {E A} (r : res E A) a (Q : A → Actor → Prop) ac :
  r = Ok a → Q a ac → wp (infallible r) Q ac.
Proof. intros -> HQ. by exists ac, [], a. Qed.

Lemma wp_get_window (Q : option PendingArcGather → Actor → Prop) ac :
  Q (arc_gather_window ac) ac → wp get_window Q ac.
Proof. intros HQ. by exists ac, [], (arc_gather_window ac). Qed.

Lemma wp_set_window w (Q : unit → Actor → Prop) ac :
  Q tt (mkActor (ac_state ac) w) → wp (set_window w) Q ac.
Proof. intros HQ. by eexists _, [], tt. Qed.

Lemma wp_when (b : bool) (m : M unit) (Q : unit → Actor → Prop) ac :
  (b = true → wp m Q ac) → (b = false → Q tt ac) → wp (when b m) Q ac.
Proof. intros Ht Hf. destruct b; [by apply Ht|]. by apply wp_ret, Hf. Qed.

Lemma wp_run_state_ok {A} (f : QspnState → QspnState * res QspnError A) s' a (Q : QspnError + A → Actor → Prop) ac :
  f (ac_state ac) = (s', Ok a) → Q (inr a) (mkActor s' (arc_gather_window ac)) → wp (run_state f) Q ac.
Proof.
  intros Hf HQ. unfold run_state. apply wp_bind, wp_modify. rewrite Hf. cbn.
  apply wp_as_result; [by intros ? [= <-]|done|done].
Qed.

(** A loop with an invariant over the elements already consumed. *)
Lemma wp_for_each {A B} (f : B → A → M B) (P : list A → B → Actor → Prop) b l ac (Q : B → Actor → Prop) :
  P [] b ac →
  (∀ pre a b ac, pre ++ [a] `prefix_of` l → P pre b ac → wp (f b a) (λ b', P (pre ++ [a]) b') ac) →
  (∀ b ac, P l b ac → Q b ac) →
  wp (for_each f b l) Q ac.
Proof.
  intros H0 Hs HQ.
  assert (∀ suf pre b ac, l = pre ++ suf → P pre b ac → wp (for_each f b suf) Q ac) as Hgen;
    [|by apply (Hgen l [])].
  induction suf as [|a suf IH]; intros pre b0 ac0 Hl HP; cbn.
  { apply wp_ret, HQ. by rewrite Hl, app_nil_r. }
  apply wp_bind. eapply wp_mono; [apply (Hs pre); [|done]|].
  - exists suf. by rewrite <-app_assoc.
  - intros b' ac' HP'. apply (IH (pre ++ [a])); [by rewrite <-app_assoc|done].
Qed.
End Safety.

(** Steps through the primitives of a handler. *)
Ltac wp_step :=
  cbn beta;
  match goal with
  | |- wp _ (mret _) _ _ => apply wp_ret
  | |- wp _ (_ ≫= _) _ _ => apply wp_bind
  | |- wp _ (emit_all _) _ _ => apply wp_emit_all
  | |- wp _ (emit _) _ _ => apply wp_effect; [done|]
  | |- wp _ (reply _) _ _ => apply wp_effect; [done|]
  | |- wp _ (spawn _) _ _ => apply wp_effect; cbn
  | |- wp _ (effect _) _ _ => apply wp_effect; cbn
  | |- wp _ (reads _) _ _ => apply wp_reads
  | |- wp _ (modify _) _ _ => apply wp_modify
  | |- wp _ get_window _ _ => apply wp_get_window
  | |- wp _ (set_window _) _ _ => apply wp_set_window
  | |- wp _ (when _ _) _ _ => apply wp_when; [intros ?|intros ?]
  end.

(** ** Building blocks *)
Lemma arc_ids_NoDup s : NoDup (arc_ids s).
Proof. unfold arc_ids, bt_iter. rewrite sort_by_perm. apply NoDup_fst_map_to_list. Qed.

Lemma elem_of_arc_ids s a : a ∈ arc_ids s ↔ is_Some (st_arcs s !! a).
Proof.
  unfold arc_ids. rewrite list_elem_of_fmap. split.
  - intros ([k e] & -> & Hin%elem_of_bt_iter). eauto.
  - intros [e He]. exists (a, e). by rewrite elem_of_bt_iter.
Qed.

Lemma contains_arc_true s a : contains_arc s a = true ↔ is_Some (st_arcs s !! a).
Proof. apply bool_decide_eq_true. Qed.

Lemma contains_arc_negb_false s a : negb (contains_arc s a) = false → is_Some (st_arcs s !! a).
Proof. rewrite negb_false_iff. apply contains_arc_true. Qed.

Section Blocks.
Context `{HashOrder} (t : Topology).
Implicit Types ac : Actor.

(** Another state of the same node. *)
Lemma Inv_with ac s' w :
  Inv t ac → state_wf s' → na_topology (st_my_naddr s') = na_topology (st_my_naddr (ac_state ac)) →
  st_bootstrap s' = st_bootstrap (ac_state ac) ∨ st_bootstrap s' = Complete → Inv t (mkActor s' w).
Proof.
  intros [Hw Ht Hb] Hs' Htop Hboot. constructor; cbn; [done|congruence|].
  unfold bootstrap_wf, st_levels in *. destruct Hboot as [->| ->]; [by rewrite Htop|done].
Qed.

Lemma Inv_window ac w : Inv t ac → Inv t (mkActor (ac_state ac) w).
Proof. intros Hi. eapply Inv_with; eauto. apply Hi. Qed.

Lemma wp_publish_snapshot ac (Q : unit → Actor → Prop) :
  Inv t ac → Q tt ac → wp t publish_snapshot Q ac.
Proof.
  intros Hi HQ. unfold publish_snapshot. repeat wp_step.
  destruct (snapshot_Ok (ac_state ac) (inv_wf _ _ Hi)) as [snap Hs]. unfold id. rewrite Hs.
  apply wp_as_result; [intros ? [= <-]|done|done]. by apply wp_effect.
Qed.

Lemma wp_spawn_gather a_changed extra ac (Q : unit → Actor → Prop) :
  Forall (sendable_wf t) extra → Q tt ac → wp t (spawn_gather a_changed extra) Q ac.
Proof. intros He HQ. unfold spawn_gather. repeat wp_step; [|done]. split; [apply arc_ids_NoDup|done]. Qed.

Lemma wp_spawn_broadcast arcs msg full ac (Q : unit → Actor → Prop) :
  msg_ok t msg → Q tt ac → wp t (spawn_broadcast arcs msg full) Q ac.
Proof. intros Hm HQ. unfold spawn_broadcast. repeat wp_step; done. Qed.

Lemma wp_spawn_broadcast_all msg full ac (Q : unit → Actor → Prop) :
  msg_ok t msg → Q tt ac → wp t (spawn_broadcast_all msg full) Q ac.
Proof. intros Hm HQ. unfold spawn_broadcast_all. do 2 wp_step. by apply wp_spawn_broadcast. Qed.

Lemma wp_spawn_broadcast_all_but msg full a ac (Q : unit → Actor → Prop) :
  msg_ok t msg → Q tt ac → wp t (spawn_broadcast_all_but msg full a) Q ac.
Proof. intros Hm HQ. unfold spawn_broadcast_all_but. do 2 wp_step. by apply wp_spawn_broadcast. Qed.

(** What this node sends is what the others accept. *)
Lemma outgoing_ok s hops paths paths' :
  state_wf s → na_topology (st_my_naddr s) = t →
  Forall (sendable_wf t) paths → Forall2 (flagged s) paths paths' → hops_asc t 0 hops →
  msg_ok t (outgoing s hops paths').
Proof.
  intros Hs Ht Hp Hf Hh. destruct (sw_chain s Hs) as (Hfl & Hnl & Hnn & Hlev).
  constructor; cbn.
  - split_and!; cbn; [apply Hs| |done|].
    + apply Forall_lookup. intros l fp Hl. by destruct (Hlev l fp Hl).
    + apply Forall_lookup. intros i p' Hi. eapply Forall2_lookup_r in Hf as (p & Hpi & Hfl'); [|exact Hi].
      rewrite Forall_lookup in Hp. destruct (Hp i p Hpi) as [d Hd]. by eapply flagged_shape in Hd as [].
  - done.
  - rewrite Hnl. unfold st_levels. by rewrite Ht.
  - intros Hhr Hpr. rewrite <-Ht. apply (outgoing_valid s hops paths); rewrite ?Ht; try done.
    + apply Forall_lookup. intros i p Hi. eapply Forall2_lookup_l in Hf as (p' & Hi' & Hfl'); [|exact Hi].
      rewrite Forall_lookup in Hpr. specialize (Hpr i p' Hi'). by rewrite (fl_path _ _ _ Hfl') in Hpr.
    + by apply hops_asc_real_valid.
Qed.

Lemma wp_build_etp paths hops ac (Q : EtpMessage → Actor → Prop) :
  Inv t ac → Forall (sendable_wf t) paths → hops_asc t 0 hops →
  (∀ msg, msg_ok t msg → Q msg ac) → wp t (build_etp paths hops) Q ac.
Proof.
  intros [Hw Ht Hb] Hp Hh HQ. unfold build_etp. do 2 wp_step. unfold id.
  destruct (finalize_for_sending_spec (ac_state ac) t paths Hw Hp) as (ps & Hf & Hps).
  wp_step. eapply wp_infallible; [exact Hf|]. eapply wp_infallible; [by apply prepare_new_etp_Ok|].
  apply HQ. by eapply outgoing_ok.
Qed.

Lemma wp_build_full_etp ac (Q : EtpMessage → Actor → Prop) :
  Inv t ac → (∀ msg, msg_ok t msg → Q msg ac) → wp t build_full_etp Q ac.
Proof.
  intros [Hw Ht Hb] HQ. unfold build_full_etp. do 2 wp_step. unfold id.
  destruct (prepare_full_etp_spec (ac_state ac) Hw) as (ps & Hf & Hps).
  eapply wp_infallible; [exact Hf|]. apply HQ. eapply outgoing_ok; [done..| |done|done].
  rewrite <-Ht. by apply full_paths_wf.
Qed.

Lemma wp_broadcast_full_etp ac (Q : unit → Actor → Prop) :
  Inv t ac → Q tt ac → wp t broadcast_full_etp Q ac.
Proof.
  intros Hi HQ. unfold broadcast_full_etp. do 3 wp_step; [|done]. wp_step. apply wp_build_full_etp; [done|].
  intros msg Hm. by apply wp_spawn_broadcast_all.
Qed.

(** *** Removal of an arc *)
Lemma withdrawal_shape s d np c :
  admitted (st_my_naddr s) (st_arcs s) d np → cost_wf c →
  path_shape (na_topology (st_my_naddr s)) d (with_cost (prepare_for_sending np c) Dead).
Proof.
  intros Ha Hc. destruct (sendable_admitted s d np c Ha Hc) as [? ? ? ? (? & ? & ? & ?)]. by constructor.
Qed.

Lemma remove_arc_dead_sendable s arc :
  state_wf s → Forall (sendable_wf (na_topology (st_my_naddr s))) (ra_dead_paths (remove_arc s arc).2).
Proof.
  intros Hs. unfold remove_arc. destruct (st_arcs s !! arc); [|constructor]. cbn. apply Forall_forall.
  intros p. rewrite elem_of_concat_fmap. intros (m & [l Hm]%list_elem_of_lookup & Hin).
  unfold strip_level_dead in Hin. apply list_elem_of_fmap in Hin as (np & -> & Hnp).
  unfold removed_paths in Hnp. apply elem_of_concat_fmap in Hnp as (dest & [pos Hd]%elem_of_values & [Hnp _]%elem_of_retain).
  exists (mkHCoord l pos). apply withdrawal_shape; [|done]. apply in_map_admitted; [done|].
  exists dest. split; [|done]. apply destination_Some. eauto.
Qed.

Lemma Inv_remove_arc ac arc w : Inv t ac → Inv t (mkActor (remove_arc (ac_state ac) arc).1 w).
Proof.
  intros Hi. destruct (remove_arc_frame (ac_state ac) arc) as (En & _ & _ & _ & _ & Eb & _).
  eapply Inv_with; [exact Hi|apply remove_arc_wf, Hi|by rewrite En|by left].
Qed.

Lemma wp_do_remove_arc arc b ac (Q : unit → Actor → Prop) :
  Inv t ac → Q tt (mkActor (remove_arc (ac_state ac) arc).1 (arc_gather_window ac)) →
  wp t (do_remove_arc arc b) Q ac.
Proof.
  intros Hi HQ. unfold do_remove_arc. pose proof (Inv_remove_arc ac arc (arc_gather_window ac) Hi) as Hi'.
  pose proof (remove_arc_dead_sendable (ac_state ac) arc (inv_wf _ _ Hi)) as Hd. rewrite (inv_topology _ _ Hi) in Hd.
  repeat wp_step; try done; try by apply wp_spawn_gather.
  apply wp_publish_snapshot; [done|]. wp_step; [by apply wp_spawn_gather|done].
Qed.
End Blocks.

(** Also applies the blocks. *)
Ltac wp_go :=
  repeat first
    [ wp_step
    | apply wp_publish_snapshot; [assumption|]
    | apply wp_spawn_gather; [assumption || constructor|]
    | apply wp_spawn_broadcast_all; [assumption|]
    | apply wp_spawn_broadcast_all_but; [assumption|]
    | apply wp_spawn_broadcast; [assumption|]
    | apply wp_broadcast_full_etp; [assumption|]
    | apply wp_do_remove_arc; [assumption|] ].

(** ** Handlers *)
Section Handlers.
Context `{HashOrder} (calculate_threshold : RoutePath → RoutePath → Z) (t : Topology).
Implicit Types ac : Actor.

(** The parts of the state an update of the map leaves alone. *)
Definition same_node (s s' : QspnState) : Prop :=
  st_my_naddr s' = st_my_naddr s ∧ st_arcs s' = st_arcs s ∧ st_config s' = st_config s ∧
  st_bootstrap s' = st_bootstrap s.

Lemma wp_spawn_split_signals sigs ac (Q : unit → Actor → Prop) :
  Inv t ac →
  (∀ x, Q tt (mkActor (set_pending (ac_state ac) x) (arc_gather_window ac))) →
  wp t (spawn_split_signals calculate_threshold sigs) Q ac.
Proof.
  intros Hi HQ. unfold spawn_split_signals.
  apply (wp_for_each t _ (λ _ _ ac', ∃ x, ac' = mkActor (set_pending (ac_state ac) x) (arc_gather_window ac))).
  - exists (st_pending_gnode_split (ac_state ac)). by destruct ac as [[] ].
  - intros pre sig [] ac' _ [x ->]. unfold spawn_split_signal. repeat wp_step; [done|..];
      eexists; cbn; unfold begin_pending_split, set_pending; cbn; reflexivity.
  - intros [] ac' [x ->]. apply HQ.
Qed.

Lemma wp_after_update_map o ac (Q : bool → Actor → Prop) :
  Inv t ac →
  (∀ b s', state_wf s' → same_node (ac_state ac) s' → st_destinations s' = st_destinations (ac_state ac) →
    Q b (mkActor s' (arc_gather_window ac))) →
  wp t (after_update_map calculate_threshold o) Q ac.
Proof.
  intros Hi HQ. unfold after_update_map, spawn_first_detection_split.
  wp_go; [done|..]; (apply wp_spawn_split_signals; [done|]; intros x; wp_step;
    destruct (update_clusters_Ok (set_pending (ac_state ac) x)) as (s' & evs & Hu & Hw & Hf);
      [apply state_wf_set_pending, Hi|];
    eapply wp_run_state_ok; [exact Hu|]; cbn; repeat wp_step;
    apply same_but_clusters_fields in Hf as (? & ? & ? & ? & ? & _); by apply HQ).
Qed.

(** *** Ingesting a message *)
Lemma check_incoming_Ok m s :
  state_wf s → message_typed m →
  ∃ b, check_incoming_message m (st_my_naddr s) = Ok b ∧
    (b = true ↔ na_topology (em_node_address m) = na_topology (st_my_naddr s) ∧
       em_node_address m ≠ st_my_naddr s ∧ message_valid (na_topology (st_my_naddr s)) m).
Proof. intros Hs Hm. apply check_incoming_decides; [apply Hm|apply Hs]. Qed.

(** The paths of an arc, as [revise_etp] reads them. *)
Lemma paths_via_arc0_wf s arc :
  state_wf s → ∃ dest : NodePath → HCoord, ∀ e, e ∈ paths_via_arc0 s arc →
    np_wf (st_my_naddr s) (dest e) e ∧ np_arc e = arc ∧ in_map s (dest e) e.
Proof.
  intros Hs. exists (λ e, default (mkHCoord 0 0) (last (ep_hops (np_path e)))).
  intros e [Hh [d Hd]]%paths_via_arc0_in_map. pose proof Hd as ([Hw Hhd] & _)%in_map_admitted; [|done].
  rewrite (pw_last _ _ _ Hw). cbn. split_and!; [done|congruence|done].
Qed.

Lemma record_peer_frame s arc a :
  let s' := (record_peer_naddr s arc a).1 in
  st_my_naddr s' = st_my_naddr s ∧ st_destinations s' = st_destinations s ∧ st_config s' = st_config s ∧
  st_bootstrap s' = st_bootstrap s ∧ st_pending_gnode_split s' = st_pending_gnode_split s ∧
  (∀ b, is_Some (st_arcs s' !! b) ↔ is_Some (st_arcs s !! b)) ∧
  (∀ b, arc_cost s' b = arc_cost s b).
Proof.
  unfold record_peer_naddr. destruct (st_arcs s !! arc) as [e|] eqn:He; cbn; [|done].
  split_and!; try done; intros b; unfold arc_cost, arc_cost_in; cbn;
    destruct (decide (b = arc)) as [->|Hne]; rewrite ?lookup_insert_eq, ?lookup_insert_ne by done; rewrite ?He; done.
Qed.

Lemma Inv_record_peer ac arc a w :
  Inv t ac → naddr_wf a → na_topology a = t → Inv t (mkActor (record_peer_naddr (ac_state ac) arc a).1 w).
Proof.
  intros Hi Ha Ht. destruct (record_peer_frame (ac_state ac) arc a) as (En & _ & _ & Eb & _).
  eapply Inv_with; [exact Hi| |by rewrite En|by left].
  eapply record_peer_naddr_wf; [apply Hi|done|]. rewrite Ht. symmetry. apply Hi.
Qed.

(** A message that passed the incoming check. *)
Definition accepted (s : QspnState) (m : EtpMessage) : Prop :=
  message_typed m ∧ na_topology (em_node_address m) = na_topology (st_my_naddr s) ∧
  em_node_address m ≠ st_my_naddr s ∧ message_valid (na_topology (st_my_naddr s)) m.

Lemma group_hops_asc tp lo lvl hops : hops_asc tp lo hops → hops_asc tp lvl (group_hops lvl hops).
Proof.
  revert lo. induction hops as [|h hops IH]; intros lo; cbn; [done|]. intros (H1 & H2 & H3).
  destruct (Nat.ltb_spec (hc_level h) lvl); [by eapply IH|]. cbn. done.
Qed.

(** The state and the old peer [ingest_checked_etp] revises the message with. *)
Definition recorded (s : QspnState) (arc : ArcId) (m : EtpMessage) : QspnState :=
  (record_peer_naddr s arc (em_node_address m)).1.

Definition revision (s : QspnState) (arc : ArcId) (m : EtpMessage) (full : bool) : res QspnError RevisedEtp :=
  let s1 := recorded s arc m in
  revise_etp (st_my_naddr s1) m arc (record_peer_naddr s arc (em_node_address m)).2 full
    (if full then paths_via_arc0 s1 arc else []).

Lemma revision_spec s arc m full :
  state_wf s → is_Some (st_arcs s !! arc) → accepted s m →
  revision s arc m full ≠ Panic ∧
  ∀ r, revision s arc m full = Ok r →
    (∀ np, np ∈ re_npaths r → np_arc np = arc ∧ ∃ d, candidate (recorded s arc m) d np) ∧
    hops_asc (na_topology (st_my_naddr s)) 0 (re_hops r).
Proof.
  intros Hs Harc (Htyp & Htop & Hne & Hval). unfold revision.
  destruct (record_peer_naddr_wf s arc (em_node_address m) Hs (proj1 Htyp) Htop) as [Hw1 Hp].
  destruct (record_peer_frame s arc (em_node_address m)) as (En & _ & _ & _ & _ & Ea & _).
  fold (recorded s arc m) in *.
  destruct (paths_via_arc0_wf (recorded s arc m) arc Hw1) as [dest Hdest].
  destruct (revise_etp_spec (st_my_naddr (recorded s arc m)) m arc (record_peer_naddr s arc (em_node_address m)).2
    full (if full then paths_via_arc0 (recorded s arc m) arc else []) dest) as [(_ & e & ->)|[(-> & _)|(r & v & fresh & Hr & Hv & Hh & _ & _ & _ & Hnp)]].
  - apply Hw1.
  - done.
  - by rewrite En.
  - by rewrite En.
  - by rewrite En.
  - rewrite En. destruct (record_peer_naddr s arc (em_node_address m)).2 as [a|] eqn:E; cbn; [|done].
    apply Forall_singleton. by apply Hp.
  - intros e He. destruct full; [|by apply elem_of_nil in He]. destruct (Hdest e He) as (? & ? & _). done.
  - by split.
  - by split.
  - rewrite Hr. split; [done|]. intros r' [= <-]. split.
    + intros np Hin. destruct (Hnp np Hin) as (Ha & d & Hd). split; [done|]. exists d. split; [done|].
      rewrite Ha. by apply Ea.
    + rewrite Hh. rewrite En in Hv. cbn.
      destruct (sender_coordinate (st_my_naddr s) m (sw_naddr s Hs) Htyp Htop Hne) as (v' & Hv' & Hl & _).
      assert (v' = v) as <- by congruence. split_and!; [lia|done|]. eapply group_hops_asc, hops_valid_asc. apply Hval.
Qed.

(** The outcome of [ingest_checked_etp]. *)
Definition ingest_post (s : QspnState) (arc : ArcId) (m : EtpMessage) (full : bool)
    (o : option Ingested) (s' : QspnState) : Prop :=
  match o with
  | None => s' = recorded s arc m ∧ ∃ e, revision s arc m full = Err e
  | Some i => ∃ r s2 out, revision s arc m full = Ok r ∧
      update_map (recorded s arc m) (re_npaths r) None = (s2, Ok out) ∧
      same_node s2 s' ∧ st_destinations s' = st_destinations s2 ∧
      in_hops i = re_hops r ∧ in_all_paths_set i = um_all_paths_set out
  end.

Lemma announcement_sendable s (cost : ArcId → Cost) e :
  state_wf s → (∀ a, cost_wf (cost a)) → announcement s cost e → sendable_wf (na_topology (st_my_naddr s)) e.
Proof.
  intros Hs Hc (d & np & Ha & [->| ->]); exists d; [by apply sendable_admitted|by apply withdrawal_shape].
Qed.

Definition ingested_wf (i : Ingested) : Prop :=
  Forall (sendable_wf t) (in_all_paths_set i) ∧ hops_asc t 0 (in_hops i).

Lemma wp_ingest_checked_etp arc m full ac (Q : option Ingested → Actor → Prop) :
  Inv t ac → is_Some (st_arcs (ac_state ac) !! arc) → accepted (ac_state ac) m →
  (∀ o s', Inv t (mkActor s' (arc_gather_window ac)) → ingest_post (ac_state ac) arc m full o s' →
    (∀ i, o = Some i → ingested_wf i) → Q o (mkActor s' (arc_gather_window ac))) →
  wp t (ingest_checked_etp calculate_threshold arc m full) Q ac.
Proof.
  intros Hi Harc Hacc HQ. unfold ingest_checked_etp. repeat wp_step. unfold id. cbn [ac_state].
  destruct (revision_spec (ac_state ac) arc m full) as [Hnp Hrev]; [apply Hi|done|done|].
  assert (Inv t (mkActor (recorded (ac_state ac) arc m) (arc_gather_window ac))) as Hi1.
  { destruct Hacc as ((? & _) & ? & _). apply Inv_record_peer; [done..|]. rewrite <-(inv_topology _ _ Hi). done. }
  fold (recorded (ac_state ac) arc m). fold (revision (ac_state ac) arc m full).
  apply wp_as_result; [|intros e He; wp_step; apply HQ; [done|by split; eauto|done]|done].
  intros r Hr. destruct (Hrev r Hr) as [Hc Hh].
  destruct (update_map_spec (recorded (ac_state ac) arc m) (inv_wf _ _ Hi1) (re_npaths r)
    (λ np Hin, proj2 (Hc np Hin)) None) as (s2 & out & Hu & Hw2 & Hf2 & _ & Hann & _).
  wp_step. eapply wp_run_state_ok; [exact Hu|]. cbn. wp_step.
  assert (Inv t (mkActor s2 (arc_gather_window ac))) as Hi2
    by (eapply (Inv_with t _ _ _ Hi1); [done|by rewrite Hf2|left; by rewrite Hf2]).
  apply wp_after_update_map; [done|]. intros b s' Hw' Hsn Hd. wp_step. cbn in *.
  apply HQ.
  - destruct Hsn as (E1 & _ & _ & E4). eapply (Inv_with t _ _ _ Hi2); cbn; [done|by rewrite E1|by left].
  - exists r, s2, out. done.
  - intros i [= <-]. split; cbn; [|by rewrite <-(inv_topology _ _ Hi)]. apply Forall_forall. intros e He.
    rewrite <-(inv_topology _ _ Hi1). eapply announcement_sendable; [apply Hi1| |by apply Hann].
    intros a. apply arc_cost_wf, Hi1.
Qed.

Lemma wp_check_and_remove_on_junk arc m ac (Q : bool → Actor → Prop) :
  Inv t ac → message_typed m →
  (accepted (ac_state ac) m → Q true ac) →
  (¬ accepted (ac_state ac) m →
    Q false (mkActor (remove_arc (ac_state ac) arc).1 (arc_gather_window ac))) →
  wp t (check_and_remove_on_junk arc m) Q ac.
Proof.
  intros Hi Hm Hok Hjunk. unfold check_and_remove_on_junk. repeat wp_step. unfold id.
  destruct (check_incoming_Ok m (ac_state ac)) as (b & Hb & Hacc); [apply Hi|done|].
  eapply wp_infallible; [exact Hb|]. destruct b.
  - wp_step. apply Hok. split; [done|]. by apply Hacc.
  - wp_go. apply Hjunk. intros [_ Ha]. by apply Hacc in Ha.
Qed.

(** [ingest_incoming_etp]: a junk message costs the arc, a good one is ingested. *)
Lemma wp_ingest_incoming_etp arc m full ac (Q : option Ingested → Actor → Prop) :
  Inv t ac → is_Some (st_arcs (ac_state ac) !! arc) → message_typed m →
  (∀ o s', Inv t (mkActor s' (arc_gather_window ac)) → accepted (ac_state ac) m →
    ingest_post (ac_state ac) arc m full o s' →
    (∀ i, o = Some i → ingested_wf i) → Q o (mkActor s' (arc_gather_window ac))) →
  (¬ accepted (ac_state ac) m →
    Q None (mkActor (remove_arc (ac_state ac) arc).1 (arc_gather_window ac))) →
  wp t (ingest_incoming_etp calculate_threshold arc m full) Q ac.
Proof.
  intros Hi Harc Hm Hok Hjunk. unfold ingest_incoming_etp. wp_step.
  apply wp_check_and_remove_on_junk; [done|done| |].
  - intros Hacc. apply wp_ingest_checked_etp; [done..|]. intros o s' ? ? ?. by apply Hok.
  - intros Hn. wp_step. by apply Hjunk.
Qed.

Lemma wp_forward_ingested arc i ac (Q : unit → Actor → Prop) :
  Inv t ac → ingested_wf i → Q tt ac → wp t (forward_ingested arc i) Q ac.
Proof.
  intros Hi [Hp Hh] HQ. unfold forward_ingested.
  wp_go; try done; (apply wp_build_etp; [done..|]; intros msg Hmsg; by wp_go).
Qed.

Lemma wp_do_exit_bootstrap ac (Q : unit → Actor → Prop) :
  Inv t ac → Q tt (mkActor (exit_bootstrap (ac_state ac)) (arc_gather_window ac)) →
  wp t do_exit_bootstrap Q ac.
Proof.
  intros Hi HQ. unfold do_exit_bootstrap, spawn_exit_bootstrap_gather.
  assert (Inv t (mkActor (exit_bootstrap (ac_state ac)) (arc_gather_window ac))) as Hi'
    by (eapply Inv_with; [exact Hi|apply exit_bootstrap_wf, Hi|done|by right]).
  wp_go; [done|apply arc_ids_NoDup|done].
Qed.

(** *** Well-typed commands *)
Definition typed_result (r : option EtpMessage) : Prop := ∀ m, r = Some m → message_typed m.

Definition cmd_ok (s : QspnState) (cmd : Command) : Prop :=
  match cmd with
  | AddArc cost draws => cost_wf cost ∧ is_Some (first_free s draws)
  | ArcChanged _ cost => cost_wf cost
  | ArcAddFetched _ r | BootstrapEtpFetched _ r => typed_result r
  | GatherComplete _ extra results =>
      NoDup results.*1 ∧ Forall (sendable_wf t) extra ∧ Forall typed_result results.*2
  | ExitBootstrapGathered results => Forall typed_result results.*2
  | GetFullEtp _ a => naddr_wf a
  | SendEtp _ m _ => message_typed m
  | ResendEtp _ m _ => msg_ok t m
  | MakeConnectivity from _ update_naddr => rebase_ok s from update_naddr
  | PublishConnectivity old_position => hc_level old_position < topology_levels t
  | _ => True
  end.

Lemma Inv_add_arc ac arc cost w : Inv t ac → cost_wf cost → Inv t (mkActor (add_arc (ac_state ac) arc cost) w).
Proof. intros Hi Hc. eapply Inv_with; [exact Hi|apply add_arc_wf; [apply Hi|done]|done|by left]. Qed.

Lemma Inv_set_arc_cost ac arc cost w : Inv t ac → cost_wf cost → Inv t (mkActor (set_arc_cost (ac_state ac) arc cost) w).
Proof.
  intros Hi Hc. eapply Inv_with; [exact Hi|apply set_arc_cost_wf; [apply Hi|done]|..];
    unfold set_arc_cost; destruct (_ !! _); [done..|by left|by left].
Qed.

Lemma safe_add_arc cost draws ac :
  Inv t ac → cost_wf cost → is_Some (first_free (ac_state ac) draws) →
  wp t (handle_add_arc cost draws) (λ _, Inv t) ac.
Proof.
  intros Hi Hc [arc Ha]. unfold handle_add_arc. repeat wp_step. unfold id. rewrite Ha.
  apply (wp_infallible _ _ arc); [done|].
  pose proof (Inv_add_arc ac arc cost (arc_gather_window ac) Hi Hc). repeat wp_step.
  destruct (is_bootstrap_complete _); [wp_go; done|]. unfold spawn_bootstrap_fetches. cbn. by wp_go.
Qed.

Lemma safe_arc_changed arc cost ac :
  Inv t ac → cost_wf cost → wp t (handle_arc_changed arc cost) (λ _, Inv t) ac.
Proof.
  intros Hi Hc. unfold handle_arc_changed, request_arc_gather. repeat wp_step.
  destruct (negb _); [by wp_go|].
  pose proof (Inv_set_arc_cost ac arc cost (arc_gather_window ac) Hi Hc) as Hi'.
  repeat wp_step; [|done]. destruct (arc_gather_window _); wp_go; try done; by apply (Inv_window t _ _ Hi').
Qed.

Lemma safe_window_elapsed ac : Inv t ac → wp t handle_arc_gather_window_elapsed (λ _, Inv t) ac.
Proof.
  intros Hi. unfold handle_arc_gather_window_elapsed. repeat wp_step.
  destruct (arc_gather_window ac); wp_go; try done; by apply (Inv_window t _ _ Hi).
Qed.

Lemma safe_remove_arc arc ac : Inv t ac → wp t (handle_remove_arc arc) (λ _, Inv t) ac.
Proof.
  intros Hi. unfold handle_remove_arc. repeat wp_step. destruct (negb _); [by wp_go|]. repeat wp_step.
  destruct (negb _); [by wp_go|].
  pose proof (Inv_remove_arc t ac arc (arc_gather_window ac) Hi) as Hi'.
  pose proof (remove_arc_dead_sendable (ac_state ac) arc (inv_wf _ _ Hi)) as Hd. rewrite (inv_topology _ _ Hi) in Hd.
  by wp_go.
Qed.

Lemma safe_arc_add_fetched arc r ac :
  Inv t ac → typed_result r → wp t (handle_arc_add_fetched calculate_threshold arc r) (λ _, Inv t) ac.
Proof.
  intros Hi Hr. unfold handle_arc_add_fetched. repeat wp_step. destruct (negb _) eqn:Hk; [by wp_go|].
  apply contains_arc_negb_false in Hk. destruct r as [m|]; [|wp_go; by apply Inv_remove_arc].
  wp_step. apply wp_ingest_incoming_etp; [done|done|by apply Hr| |].
  - intros o s' Hi' _ _ Hw. destruct o as [i|]; [|by wp_step]. wp_step.
    apply wp_forward_ingested; [done|by apply Hw|]. wp_step. apply wp_build_full_etp; [done|].
    intros msg Hmsg. by wp_go.
  - intros _. wp_step. by apply Inv_remove_arc.
Qed.

Lemma safe_send_etp arc m full ac :
  Inv t ac → message_typed m →
  wp t (handle_inbound_send_etp calculate_threshold arc m full) (λ _, Inv t) ac.
Proof.
  intros Hi Hm. unfold handle_inbound_send_etp. repeat wp_step. destruct (negb _) eqn:Hk; [by wp_go|].
  apply contains_arc_negb_false in Hk. wp_step. apply wp_check_and_remove_on_junk; [done|done| |].
  2: { intros _. cbn. wp_step. by apply Inv_remove_arc. }
  intros Hacc. cbn [negb]. repeat wp_step. destruct (negb (is_bootstrap_complete _)) eqn:Hb.
  - unfold bootstrap_gate. repeat wp_step. unfold id.
    unfold is_bootstrap_complete, host_gnode_level in *. pose proof (inv_bootstrap _ _ Hi) as Hbw. unfold bootstrap_wf in Hbw.
    destruct (st_bootstrap (ac_state ac)) as [|g h]; [done|]. eapply wp_infallible; [done|]. wp_step.
    destruct Hacc as (Htyp & Htop & Hne & Hval) eqn:E. clear E.
    destruct (sender_coordinate (st_my_naddr (ac_state ac)) m) as (v & Hv & _); [apply Hi|done..|]. rewrite Hv.
    apply wp_as_result; [cbn; intros ? [= <-]|done|done].
    assert (∀ b : bool, wp t (when b (_ ← ingest_checked_etp calculate_threshold arc m full; do_exit_bootstrap))
      (λ _ ac', wp t (mret (inr tt : QspnError + unit)) (λ _, Inv t) ac') ac) as Hwhen.
    { intros b. repeat wp_step; [|done]. apply wp_ingest_checked_etp; [done|done|done|]. intros o s' Hi' _ _.
      apply wp_do_exit_bootstrap; [done|]. wp_step.
      eapply Inv_with; [exact Hi'|apply exit_bootstrap_wf, Hi'|done|by right]. }
    destruct (_ <=? _); [do 2 wp_step; apply (Hwhen false)|].
    assert (∃ b, reaches_host h (em_paths m) = Ok b) as [b Hrh].
    { clear -Hbw. induction (em_paths m) as [|p ps IH]; cbn; [eauto|]. destruct (last _); [|done].
      destruct h; [lia|]. destruct (_ =? _); eauto. }
    eapply wp_infallible; [exact Hrh|]. wp_step. apply Hwhen.
  - wp_step. apply wp_ingest_checked_etp; [done|done|done|]. intros o s' Hi' _ Hw.
    destruct o as [i|]; [|by wp_step]. wp_step. apply wp_forward_ingested; [done|by apply Hw|]. by wp_step.
Qed.

(** *** The gathered batch *)

(** The loop invariant: the candidates collected so far are bound to arcs
    already processed, which later iterations do not touch. *)
Record gathered (ac0 : Actor) (pre : list (ArcId * option EtpMessage)) (q : list NodePath) (ac : Actor) : Prop := {
  ga_inv : Inv t ac;
  ga_window : arc_gather_window ac = arc_gather_window ac0;
  ga_cands : ∀ np, np ∈ q → np_arc np ∈ pre.*1 ∧ ∃ d, candidate (ac_state ac) d np
}.

Lemma candidate_remove_arc s arc d np :
  np_arc np ≠ arc → candidate s d np → candidate (remove_arc s arc).1 d np.
Proof.
  intros Hne [Hw Ha]. destruct (remove_arc_frame s arc) as (En & _). split; [by rewrite En|].
  rewrite remove_arc_arcs. by rewrite lookup_delete_ne by done.
Qed.

Lemma gathered_grow ac0 pre q ac ac' r :
  gathered ac0 pre q ac → Inv t ac' → arc_gather_window ac' = arc_gather_window ac →
  (∀ d np, np_arc np ∈ pre.*1 → candidate (ac_state ac) d np → candidate (ac_state ac') d np) →
  gathered ac0 (pre ++ [r]) q ac'.
Proof.
  intros [_ Hw Hc] Hi' Hw' Hk. constructor; [done|congruence|]. intros np Hin.
  destruct (Hc np Hin) as (Ha & d & Hd). split; [rewrite fmap_app; apply elem_of_app; by left|]. eauto.
Qed.

Lemma wp_gather_result ac0 pre q r ac :
  gathered ac0 pre q ac → r.1 ∉ pre.*1 → typed_result r.2 →
  wp t (gather_result q r) (λ q', gathered ac0 (pre ++ [r]) q') ac.
Proof.
  intros Hg Hfresh Htyp. pose proof (ga_inv _ _ _ _ Hg) as Hi. destruct r as [arc res]. cbn in *.
  unfold gather_result. cbn [fst snd]. repeat wp_step.
  destruct (negb _) eqn:Hk; [wp_step; by eapply gathered_grow|]. apply contains_arc_negb_false in Hk.
  assert (gathered ac0 (pre ++ [(arc, res)]) q (mkActor (remove_arc (ac_state ac) arc).1 (arc_gather_window ac))) as Hrem.
  { eapply gathered_grow; [done|by apply Inv_remove_arc|done|]. intros d np Hnp Hc. cbn.
    apply candidate_remove_arc; [|done]. intros E. by rewrite E in Hnp. }
  destruct res as [m|]; [|wp_go; done]. repeat wp_step. unfold id.
  destruct (check_incoming_Ok m (ac_state ac)) as (b & Hb & Hacc); [apply Hi|by apply Htyp|].
  eapply wp_infallible; [exact Hb|]. destruct b; cbn [negb]; [|wp_go; done].
  assert (accepted (ac_state ac) m) as Ha by (split; [by apply Htyp|by apply Hacc]).
  destruct (revision_spec (ac_state ac) arc m true) as [Hnp Hrev]; [apply Hi|done|done|].
  assert (gathered ac0 (pre ++ [(arc, Some m)]) q (mkActor (recorded (ac_state ac) arc m) (arc_gather_window ac))) as Hrec.
  { destruct (record_peer_frame (ac_state ac) arc (em_node_address m)) as (En & _ & _ & _ & _ & Ea & _).
    eapply gathered_grow; [done| |done|].
    - destruct Ha as ((? & _) & ? & _). apply Inv_record_peer; [done..|]. rewrite <-(inv_topology _ _ Hi). done.
    - intros d np _ [Hw Hs]. unfold recorded. cbn. split; cbn; [by rewrite En|by apply Ea]. }
  repeat wp_step. fold (recorded (ac_state ac) arc m). fold (revision (ac_state ac) arc m true).
  apply wp_as_result; [|by intros e He; wp_step|done]. intros rv Hrv. wp_step.
  destruct (Hrev rv Hrv) as [Hc _]. constructor; [apply Hrec..|].
  intros np [Hin|Hin]%elem_of_app; [by apply (ga_cands _ _ _ _ Hrec)|]. destruct (Hc np Hin) as (Harc & d & Hd).
  split; [|eauto]. rewrite fmap_app. apply elem_of_app. right. rewrite Harc. by left.
Qed.

Lemma wp_gather results ac (Q : list NodePath → Actor → Prop) :
  Inv t ac → NoDup results.*1 → Forall typed_result results.*2 →
  (∀ q ac', gathered ac results q ac' → Q q ac') → wp t (for_each gather_result [] results) Q ac.
Proof.
  intros Hi Hnd Htyp HQ. apply (wp_for_each t _ (gathered ac)).
  - constructor; [done|done|]. by intros np ?%elem_of_nil.
  - intros pre r q ac' [suf ->] Hg. rewrite !fmap_app in Hnd. apply NoDup_app in Hnd as [Hnd _].
    apply NoDup_app in Hnd as (_ & Hnd & _). apply wp_gather_result; [done| |].
    + intros Hin. apply (Hnd _ Hin). by left.
    + rewrite !fmap_app, !Forall_app in Htyp. destruct Htyp as [[_ Htyp] _]. by apply (proj1 (Forall_singleton _ _)) in Htyp.
  - auto.
Qed.

Lemma safe_gather_complete a_changed extra results ac :
  Inv t ac → NoDup results.*1 → Forall (sendable_wf t) extra → Forall typed_result results.*2 →
  wp t (handle_gather_complete calculate_threshold a_changed extra results) (λ _, Inv t) ac.
Proof.
  intros Hi Hnd Hex Htyp. unfold handle_gather_complete. wp_step. apply wp_gather; [done..|].
  intros q ac1 [Hi1 _ Hc]. wp_step.
  destruct (update_map_spec (ac_state ac1) (inv_wf _ _ Hi1) q (λ np Hin, proj2 (Hc np Hin)) a_changed)
    as (s2 & out & Hu & Hw2 & Hf2 & _ & Hann & _).
  eapply wp_run_state_ok; [exact Hu|]. cbn. wp_step.
  assert (Inv t (mkActor s2 (arc_gather_window ac1))) as Hi2
    by (eapply (Inv_with t _ _ _ Hi1); [done|by rewrite Hf2|left; by rewrite Hf2]).
  apply wp_after_update_map; [done|]. intros b s' Hw' (E1 & _ & _ & E4) Hd. cbn in *.
  assert (Inv t (mkActor s' (arc_gather_window ac1))) as Hi3
    by (eapply (Inv_with t _ _ _ Hi2); [done|by rewrite E1|by left]).
  assert (Forall (sendable_wf t) (um_all_paths_set out ++ extra)) as Hsend.
  { apply Forall_app. split; [|done]. apply Forall_forall. intros e He. rewrite <-(inv_topology _ _ Hi1).
    eapply announcement_sendable; [apply Hi1| |by apply Hann]. intros a. apply arc_cost_wf, Hi1. }
  wp_go; try done; (apply wp_build_etp; [done..|]; intros msg Hmsg; by wp_go).
Qed.

(** *** The other handlers *)
Lemma safe_get_full_etp arc a ac (Q : QspnError + EtpMessage → Actor → Prop) :
  Inv t ac → naddr_wf a →
  (∀ r, (∀ m, r = inr m → msg_ok t m) → Q r ac) →
  wp t (handle_inbound_get_full_etp arc a) Q ac.
Proof.
  intros Hi Ha HQ. unfold handle_inbound_get_full_etp. repeat wp_step. unfold id.
  destruct (negb _); [wp_step; by apply HQ|]. destruct (negb _); [wp_step; by apply HQ|]. wp_step.
  assert (map_err Common (hcoord (st_my_naddr (ac_state ac)) a) ≠ Panic) as Hnp.
  { pose proof (hcoord_no_panic (st_my_naddr (ac_state ac)) a (sw_naddr _ (inv_wf _ _ Hi)) Ha) as Hn.
    by destruct (hcoord _ a). }
  apply wp_as_result; [|intros e _; wp_step; by apply HQ|done].
  intros [b|] _; [|wp_step; by apply HQ]. wp_step. apply wp_build_etp; [done| |done|].
  - apply Forall_forall. intros p (np & -> & [Hin _]%elem_of_retain)%list_elem_of_fmap.
    apply elem_of_concat_fmap in Hin as (l & _ & [pos Hin]%all_paths_at_in_map). exists (mkHCoord l pos).
    rewrite <-(inv_topology _ _ Hi). eapply sendable_admitted; [by apply in_map_admitted; [apply Hi|]|].
    apply arc_cost_wf, Hi.
  - intros msg Hmsg. wp_step. apply HQ. by intros m [= <-].
Qed.

Lemma safe_first_detection b_set ac :
  Inv t ac → wp t (handle_first_detection_split b_set) (λ _, Inv t) ac.
Proof.
  intros Hi. unfold handle_first_detection_split. repeat wp_step; [|done]. unfold id in *.
  apply wp_build_etp; [done| |done|intros msg Hmsg; by wp_go].
  apply Forall_forall. intros p (g & _ & Hp)%elem_of_concat_fmap.
  destruct (destination _ _ _) as [d|] eqn:Hd; [|by apply elem_of_nil in Hp].
  apply list_elem_of_fmap in Hp as (np & -> & Hnp). exists g. rewrite <-(inv_topology _ _ Hi).
  eapply sendable_admitted; [apply in_map_admitted; [apply Hi|by exists d]|apply arc_cost_wf, Hi].
Qed.

Lemma safe_bootstrap_etp_fetched arc r ac :
  Inv t ac → typed_result r → wp t (handle_bootstrap_etp_fetched calculate_threshold arc r) (λ _, Inv t) ac.
Proof.
  intros Hi Hr. unfold handle_bootstrap_etp_fetched. repeat wp_step. unfold id.
  destruct (_ || _) eqn:Hk; [by wp_step|]. apply orb_false_iff in Hk as [Hb Hk%contains_arc_negb_false].
  destruct r as [m|]; [|wp_go; by apply Inv_remove_arc]. wp_step.
  pose proof (hcoord_no_panic (st_my_naddr (ac_state ac)) (em_node_address m)
    (sw_naddr _ (inv_wf _ _ Hi)) (proj1 (Hr m eq_refl))) as Hn.
  apply wp_as_result; [|intros e _; by wp_step|by destruct (hcoord _ _)].
  intros [v|] _; [|by wp_step]. wp_step.
  unfold is_bootstrap_complete, host_gnode_level in *. destruct (st_bootstrap (ac_state ac)); [done|].
  eapply wp_infallible; [done|]. destruct (_ || _); [by wp_step|]. wp_step.
  apply wp_ingest_incoming_etp; [done|done|by apply Hr| |].
  - intros o s' Hi' _ _ _. apply wp_do_exit_bootstrap; [done|].
    eapply Inv_with; [exact Hi'|apply exit_bootstrap_wf, Hi'|done|by right].
  - intros _. pose proof (Inv_remove_arc t ac arc (arc_gather_window ac) Hi) as Hi'.
    apply wp_do_exit_bootstrap; [done|]. eapply Inv_with; [exact Hi'|apply exit_bootstrap_wf, Hi'|done|by right].
Qed.

Lemma safe_exit_bootstrap_gathered results ac :
  Inv t ac → Forall typed_result results.*2 →
  wp t (handle_exit_bootstrap_gathered calculate_threshold results) (λ _, Inv t) ac.
Proof.
  intros Hi Htyp. unfold handle_exit_bootstrap_gathered. wp_step.
  apply (wp_for_each t _ (λ _ _ ac', Inv t ac')); [done| |].
  - intros pre [arc r] b ac' [suf ->] Hi'. unfold exit_bootstrap_result. cbn. repeat wp_step.
    destruct (negb _) eqn:Hk; [by wp_step|]. apply contains_arc_negb_false in Hk.
    rewrite !fmap_app, !Forall_app in Htyp. destruct Htyp as [[_ Hr] _]. apply (proj1 (Forall_singleton _ _)) in Hr.
    destruct r as [m|]; [|wp_go; by apply Inv_remove_arc]. wp_step.
    apply wp_ingest_incoming_etp; [done|done|by apply Hr|intros o s' ? _ _ _; by wp_step|].
    intros _. wp_step. by apply Inv_remove_arc.
  - intros b ac' Hi'. wp_go; done.
Qed.

Lemma safe_make_connectivity from to upd ac :
  Inv t ac → rebase_ok (ac_state ac) from upd → wp t (handle_make_connectivity from to upd) (λ _, Inv t) ac.
Proof.
  intros Hi Hrb. unfold handle_make_connectivity. wp_step.
  destruct (make_connectivity_spec (ac_state ac) from to upd (inv_wf _ _ Hi) Hrb)
    as [(msg & Hm & _)|(Hf & Hto & _ & s' & pos & evs & Hm & _ & Hw & Hsc)].
  - unfold run_state. do 2 wp_step. rewrite Hm. cbn. apply wp_as_result; [done| |done].
    intros e [= <-]. wp_go. by apply (Inv_window t ac).
  - eapply wp_run_state_ok; [exact Hm|]. cbn.
    apply same_but_clusters_fields in Hsc as (En & _ & _ & _ & Eb & _). cbn in *.
    destruct (rb_wf _ _ _ Hrb (st_my_naddr (ac_state ac))) as [_ Ht]; [apply Hi|done|].
    assert (Inv t (mkActor s' (arc_gather_window ac))) as Hi'
      by (eapply Inv_with; [exact Hi|done|by rewrite En|by left]).
    assert (from - 1 < topology_levels t) as Hlv.
    { rewrite <-(inv_topology _ _ Hi). fold (st_levels (ac_state ac)). lia. }
    wp_go; done.
Qed.

Lemma safe_publish_connectivity old ac :
  Inv t ac → hc_level old < topology_levels t → wp t (handle_publish_connectivity old) (λ _, Inv t) ac.
Proof.
  intros Hi Hl. unfold handle_publish_connectivity. repeat wp_step. apply wp_build_etp; [done|constructor| |].
  - cbn. split_and!; [lia|done|done].
  - intros msg Hmsg. by wp_go.
Qed.

Lemma safe_exit_network lvl ac : Inv t ac → wp t (handle_exit_network lvl) (λ _, Inv t) ac.
Proof.
  intros Hi. unfold handle_exit_network. wp_step.
  destruct (exit_network_spec (ac_state ac) lvl (inv_wf _ _ Hi)) as (s' & out & Hx & Hw & En & _ & Eb & _).
  eapply wp_run_state_ok; [exact Hx|]. cbn.
  assert (Inv t (mkActor s' (arc_gather_window ac))) as Hi'
    by (eapply Inv_with; [exact Hi|done|by rewrite En|by left]).
  wp_go; done.
Qed.

Lemma eldership_no_panic s l pos : state_wf s → eldership s l pos ≠ Panic.
Proof.
  intros Hs. unfold eldership. destruct (_ && _); [done|].
  destruct (destination s l pos) as [d|] eqn:Hd; [|done]. eapply destination_wf in Hd; [|done].
  destruct (evaluate_is_Ok d (arc_cost s)) as [r ->]; [eauto with ntk|]. done.
Qed.

Lemma check_connectivity_no_panic s : state_wf s → check_connectivity s ≠ Panic.
Proof.
  intros Hs. unfold check_connectivity, is_main_identity. destruct (_ =? _) eqn:E; [done|].
  destruct (_ || _) eqn:Eb; [done|]. bool_to_prop.
  destruct (connectivity_is_retirable_spec s Hs) as (b & -> & _); [lia|done].
Qed.

Lemma safe_split_timer_fire d f g ac :
  Inv t ac → wp t (handle_split_timer_fire d f g) (λ _, Inv t) ac.
Proof.
  intros Hi. unfold handle_split_timer_fire. wp_go.
  eapply Inv_with; [exact Hi|apply clear_pending_split_wf, Hi|done|by left].
Qed.

(** ** The dispatcher *)
Lemma handle_safe cmd ac :
  Inv t ac → cmd_ok (ac_state ac) cmd → wp t (handle calculate_threshold cmd) (λ _, Inv t) ac.
Proof.
  intros Hi Hc. destruct cmd; cbn [handle cmd_ok] in *.
  all: try by wp_go.
  - destruct Hc. by apply safe_add_arc.
  - by apply safe_arc_add_fetched.
  - by apply safe_arc_changed.
  - by apply safe_remove_arc.
  - destruct Hc as (? & ? & ?). by apply safe_gather_complete.
  - repeat wp_step. apply wp_as_result; [..|by apply eldership_no_panic, Hi]; intros; by wp_go.
  - wp_step. apply safe_get_full_etp; [done..|]. intros r Hr. apply wp_effect; [|done]. destruct r; cbn; auto.
  - wp_step. eapply wp_mono; [by apply safe_send_etp|]. intros; by wp_go.
  - wp_go. by apply Inv_remove_arc.
  - wp_go. by apply Inv_remove_arc.
  - by apply safe_first_detection.
  - by apply safe_split_timer_fire.
  - by apply safe_bootstrap_etp_fetched.
  - unfold handle_bootstrap_timeout. repeat wp_step; [|done]. apply wp_do_exit_bootstrap; [done|].
    eapply Inv_with; [exact Hi|apply exit_bootstrap_wf, Hi|done|by right].
  - by apply safe_exit_bootstrap_gathered.
  - by apply safe_make_connectivity.
  - by apply safe_publish_connectivity.
  - by apply safe_exit_network.
  - repeat wp_step. apply wp_as_result; [..|by apply check_connectivity_no_panic, Hi]; intros; by wp_go.
  - by apply safe_window_elapsed.
Qed.
End Handlers.
