(* ===== verification/QspnSystem.v ===== *)
(** * The actor with its background tasks

    Composes [QspnActor] with the tasks it spawns ([JoinSet] timers and outbound
    calls of [crates/ntk-qspn/src/manager.rs]): a system state is the actor and
    its pending tasks; a step is a call of a [QspnHandle] method, or a pending
    task putting its command on the queue, handled to the end.  The reachable
    systems satisfy [sys_wf]. *)
From S2P Require Import Prelude Addressing Fingerprint QspnPath QspnConfig QspnValidate.
From S2P Require Import QspnRevise QspnState QspnEnter QspnUpdateMap QspnConnectivity QspnFlood.
From S2P Require Import QspnActor QspnActorSafety.

(** ** Bookkeeping of the spawned tasks *)
Definition spawned (es : list Effect) : list Task :=
  omap (λ e, match e with Spawn t => Some t | _ => None end) es.

Definition is_window (t : Task) : bool := match t with TArcGatherWindow => true | _ => false end.
Definition windows (ts : list Task) : nat := length (retain is_window ts).
Definition open_window (ac : Actor) : nat := match arc_gather_window ac with Some _ => 1 | None => 0 end.

Definition split_keys (ts : list Task) : list (FpKey * FpKey) :=
  omap (λ t, match t with TSplit _ f g _ => Some (split_key f g) | _ => None end) ts.

Lemma windows_nil : windows [] = 0.
Proof. done. Qed.

Lemma spawned_app es1 es2 : spawned (es1 ++ es2) = spawned es1 ++ spawned es2.
Proof. apply omap_app. Qed.
Lemma windows_app ts1 ts2 : windows (ts1 ++ ts2) = windows ts1 + windows ts2.
Proof. unfold windows, retain. by rewrite List.filter_app, length_app. Qed.
Lemma split_keys_app ts1 ts2 : split_keys (ts1 ++ ts2) = split_keys ts1 ++ split_keys ts2.
Proof. apply omap_app. Qed.

(** What every command but the two timer ones does to the windows, the pending
    splits and the bootstrap phase. *)
Record accounts (ac : Actor) (es : list Effect) (ac' : Actor) : Prop := {
  at_windows : open_window ac' = open_window ac + windows (spawned es);
  at_splits : st_pending_gnode_split (ac_state ac') =
    list_to_set (split_keys (spawned es)) ∪ st_pending_gnode_split (ac_state ac);
  at_fresh : NoDup (split_keys (spawned es)) ∧
    ∀ k, k ∈ split_keys (spawned es) → k ∉ st_pending_gnode_split (ac_state ac);
  at_bootstrap : st_bootstrap (ac_state ac') = st_bootstrap (ac_state ac) ∨
    st_bootstrap (ac_state ac') = Complete
}.

Definition frames {A} (m : M A) : Prop :=
  ∀ ac ac' es a, m ac = Ok (ac', es, a) → accounts ac es ac'.

Lemma accounts_refl ac : accounts ac [] ac.
Proof. constructor; cbn; [rewrite windows_nil; lia|set_solver|split; [constructor|set_solver]|by left]. Qed.

Lemma accounts_trans ac1 es1 ac2 es2 ac3 :
  accounts ac1 es1 ac2 → accounts ac2 es2 ac3 → accounts ac1 (es1 ++ es2) ac3.
Proof.
  intros [W1 S1 [N1 F1] B1] [W2 S2 [N2 F2] B2]. constructor.
  - rewrite spawned_app, windows_app. lia.
  - rewrite spawned_app, split_keys_app, S2, S1. set_solver.
  - rewrite spawned_app, split_keys_app, NoDup_app. rewrite S1 in F2. split_and!; [done| |done|].
    + intros k Hk Hk2. apply (F2 k Hk2). set_solver.
    + intros k [Hk|Hk]%elem_of_app; [auto|]. apply F2 in Hk. set_solver.
  - destruct B2 as [->|]; auto.
Qed.

(** An effect that spawns neither a window nor a split timer. *)
Definition quiet (e : Effect) : Prop :=
  match e with Spawn TArcGatherWindow | Spawn (TSplit _ _ _ _) => False | _ => True end.

Definition quiet_change (s s' : QspnState) : Prop :=
  st_pending_gnode_split s' = st_pending_gnode_split s ∧
  (st_bootstrap s' = st_bootstrap s ∨ st_bootstrap s' = Complete).

Lemma frames_ret {A} (a : A) : frames (mret a).
Proof. intros ac ac' es x [= <- <- <-]. apply accounts_refl. Qed.

Lemma frames_bind {A B} (m : M A) (f : A → M B) : frames m → (∀ a, frames (f a)) → frames (m ≫= f).
Proof.
  intros Hm Hf ac ac' es b Hrun. unfold mbind, M_bind in Hrun.
  destruct (m ac) as [[[ac1 e1] a]| |] eqn:E1; [|done..].
  destruct (f a ac1) as [[[ac2 e2] b']| |] eqn:E2; [|done..]. simplify_eq.
  eapply accounts_trans; [by eapply Hm|by eapply Hf].
Qed.

Lemma frames_effect e : quiet e → frames (effect e).
Proof.
  intros Hq ac ac' es a [= <- <- <-].
  assert (windows (spawned [e]) = 0 ∧ split_keys (spawned [e]) = []) as [Ew Ek]
    by (destruct e as [| | |[]]; done).
  constructor; rewrite ?Ew, ?Ek; [lia|set_solver|split; [constructor|set_solver]|by left].
Qed.

Lemma frames_emit_all evs : frames (emit_all evs).
Proof.
  intros ac ac' es a [= <- <- <-]. assert (spawned (Emit <$> evs) = []) as E by (by induction evs).
  constructor; rewrite ?E; cbn; [rewrite windows_nil; lia|set_solver|split; [constructor|set_solver]|by left].
Qed.

Lemma frames_reads {A} (f : QspnState → A) : frames (reads f).
Proof. intros ac ac' es a [= <- <- <-]. apply accounts_refl. Qed.

Lemma frames_as_result {A} (r : res QspnError A) : frames (as_result r).
Proof. intros ac ac' es a Hr. destruct r; simplify_eq/=; apply accounts_refl. Qed.

Lemma frames_infallible {E A} (r : res E A) : frames (infallible r).
Proof. intros ac ac' es a Hr. destruct r; simplify_eq/=; apply accounts_refl. Qed.

Lemma frames_modify {A} (f : QspnState → QspnState * A) :
  (∀ s, quiet_change s (f s).1) → frames (modify f).
Proof.
  intros Hf ac ac' es a Hr. unfold modify in Hr. specialize (Hf (ac_state ac)).
  destruct (f (ac_state ac)) as [s' x]. simplify_eq/=. destruct Hf as [Hp Hb].
  constructor; cbn; [rewrite windows_nil; unfold open_window; cbn; lia|set_solver|split; [constructor|set_solver]|done].
Qed.

Lemma frames_run_state {A} (f : QspnState → QspnState * res QspnError A) :
  (∀ s, quiet_change s (f s).1) → frames (run_state f).
Proof. intros Hf. apply frames_bind; [by apply frames_modify|]. intros. apply frames_as_result. Qed.

Lemma frames_when b (m : M unit) : frames m → frames (when b m).
Proof. intros Hm. destruct b; [done|apply frames_ret]. Qed.

Lemma frames_for_each {A B} (f : B → A → M B) b l : (∀ b a, frames (f b a)) → frames (for_each f b l).
Proof.
  intros Hf. revert b. induction l as [|a l IH]; intros b; cbn; [apply frames_ret|]. by apply frames_bind.
Qed.

(** Structural steps; the leaves are [quiet] effects and [quiet_change]s. *)
Create HintDb frames.
#[export] Hint Resolve frames_ret frames_reads frames_as_result frames_infallible frames_emit_all : frames.

Ltac frame_step :=
  first
  [ solve [eauto 2 with frames]
  | match goal with
    | |- frames (_ ≫= _) => apply frames_bind; [|intros ?]
    | |- frames (effect _) => apply frames_effect; exact I
    | |- frames (emit _) => apply frames_effect; exact I
    | |- frames (reply _) => apply frames_effect; exact I
    | |- frames (spawn _) => apply frames_effect; exact I
    | |- frames (when _ _) => apply frames_when
    | |- frames (for_each _ _ _) => apply frames_for_each; intros ? ?
    | |- frames (modify _) => apply frames_modify; intros ?
    | |- frames (run_state _) => apply frames_run_state; intros ?
    | |- frames (match ?x with _ => _ end) => destruct x
    | |- frames (if ?x then _ else _) => destruct x
    | |- frames (let _ := _ in _) => cbv zeta
    end ].
Ltac frame_go := repeat frame_step.

(** ** The operations of the state *)
Section Quiet.
Context `{HashOrder}.

Definition untouched (s s' : QspnState) : Prop :=
  st_pending_gnode_split s' = st_pending_gnode_split s ∧ st_bootstrap s' = st_bootstrap s.

Lemma untouched_refl s : untouched s s.
Proof. done. Qed.
Lemma untouched_trans s1 s2 s3 : untouched s1 s2 → untouched s2 s3 → untouched s1 s3.
Proof. intros [] []. split; congruence. Qed.
Lemma untouched_quiet s s' : untouched s s' → quiet_change s s'.
Proof. intros []. split; auto. Qed.

Lemma untouched_remove_arc s arc : untouched s (remove_arc s arc).1.
Proof. by destruct (remove_arc_frame s arc) as (_ & _ & _ & _ & ? & ? & _). Qed.

Lemma untouched_record_peer s arc a : untouched s (record_peer_naddr s arc a).1.
Proof. by destruct (record_peer_frame s arc a) as (_ & _ & _ & ? & ? & _). Qed.

Lemma untouched_set_arc_cost s arc c : untouched s (set_arc_cost s arc c).
Proof. unfold set_arc_cost. by destruct (_ !! _). Qed.

Lemma untouched_cluster_level s i s' evs : cluster_level s i = Ok (s', evs) → untouched s s'.
Proof. unfold cluster_level. intros Hc. res_inv. done. Qed.

Lemma untouched_update_clusters s : untouched s (update_clusters s).1.
Proof.
  unfold update_clusters. apply foldS_preserves; [apply untouched_refl|]. intros s1 b i _ H1.
  destruct (cluster_level s1 i) as [[s' evs]| |] eqn:E; cbn; [|done..].
  eapply untouched_trans; [exact H1|]. by eapply untouched_cluster_level.
Qed.

Lemma untouched_one_destination s qd d a z c :
  untouched s (update_map_one_destination s qd d a z c).1.
Proof.
  unfold update_map_one_destination. destruct (_ !! _) as [m|]; [|done]. cbn [sbind].
  destruct (select_paths _ _ _ _ _ _ _); [|done..]. cbn [sbind].
  destruct (announce _ _ _ _ _) as [es| |]; [|done..]. cbn [sbind].
  by destruct (split_check _ _ _ _).
Qed.

Lemma untouched_update_map s q a : untouched s (update_map s q a).1.
Proof.
  unfold update_map. cbn [sbind]. destruct (mapM _ _) as [z_set| |]; [|done..]. cbn [sbind].
  destruct (group_by_dest q) as [g| |]; [|done..]. cbn [sbind].
  apply foldS_preserves; [apply untouched_refl|]. intros s1 b d _ H1. unfold update_map_step.
  pose proof (untouched_one_destination s1 (default [] (g !! d)) d a z_set (arc_cost s)) as H2.
  destruct (update_map_one_destination _ _ _ _ _ _) as [s2 [o| |]]; cbn in *; by eapply untouched_trans.
Qed.

Lemma untouched_make_connectivity s from to upd : untouched s (make_connectivity s from to upd).1.
Proof.
  unfold make_connectivity. destruct (_ <? _); [done|]. destruct (_ <? _); [done|]. destruct (_ =? _); [done|].
  destruct (naddr_pos _ _); [|done]. destruct (negb _); [done|]. destruct (negb _); [done|].
  match goal with |- context [update_clusters ?x] => pose proof (untouched_update_clusters x) as Hu end.
  destruct (update_clusters _) as [s' [evs| |]]; cbn in *; done.
Qed.

Lemma untouched_remove_arcs s arcs : untouched s (remove_arcs s arcs).1.
Proof.
  unfold remove_arcs. apply (foldl_preserves _ (λ acc, untouched s acc.1)); [done|].
  intros [s1 evs] arc _ H1. cbn in *. pose proof (untouched_remove_arc s1 arc) as H2.
  destruct (remove_arc s1 arc) as [s2 o]. by eapply untouched_trans.
Qed.

Lemma untouched_exit_network s lvl : untouched s (exit_network s lvl).1.
Proof.
  unfold exit_network. cbn.
  match goal with |- context [update_clusters ?x] => pose proof (untouched_update_clusters x) as H1 end.
  destruct (update_clusters _) as [s2 [evs| |]]; cbn in *; [|done..].
  pose proof (untouched_remove_arcs s2 (arcs_at_level s2 (λ arc_lvl, lvl <=? arc_lvl))) as H2.
  destruct (remove_arcs _ _) as [s3 rm]. pose proof (untouched_update_clusters s3) as H3.
  destruct (update_clusters s3) as [s4 [evs'| |]]; cbn in *;
    (eapply untouched_trans; [exact H1|]; by eapply untouched_trans).
Qed.
End Quiet.

#[export] Hint Resolve untouched_remove_arc untouched_record_peer untouched_set_arc_cost
  untouched_update_clusters untouched_update_map untouched_make_connectivity
  untouched_exit_network untouched_refl : ntk.

(** ** Every handler *)
Section FrameHandlers.
Context `{HashOrder} (calculate_threshold : RoutePath → RoutePath → Z).

Ltac leaf := apply untouched_quiet; cbn beta; first [solve [auto with ntk] | cbn; solve [auto with ntk | done]].
Ltac frames_solve := frame_go; try leaf; try done.

Lemma frames_publish_snapshot : frames publish_snapshot.
Proof. unfold publish_snapshot. frames_solve. Qed.
Hint Resolve frames_publish_snapshot : frames.

Lemma frames_spawn_gather a extra : frames (spawn_gather a extra).
Proof. unfold spawn_gather. frames_solve. Qed.
Hint Resolve frames_spawn_gather : frames.

Lemma frames_spawn_broadcast arcs msg full : frames (spawn_broadcast arcs msg full).
Proof. unfold spawn_broadcast. frames_solve. Qed.
Hint Resolve frames_spawn_broadcast : frames.

Lemma frames_spawn_broadcast_all msg full : frames (spawn_broadcast_all msg full).
Proof. unfold spawn_broadcast_all. frames_solve. Qed.
Hint Resolve frames_spawn_broadcast_all : frames.

Lemma frames_build_etp paths hops : frames (build_etp paths hops).
Proof. unfold build_etp. frames_solve. Qed.
Hint Resolve frames_build_etp : frames.

Lemma frames_broadcast_full_etp : frames broadcast_full_etp.
Proof. unfold broadcast_full_etp, build_full_etp. frames_solve. Qed.
Hint Resolve frames_broadcast_full_etp : frames.

Lemma frames_do_remove_arc arc b : frames (do_remove_arc arc b).
Proof. unfold do_remove_arc. frames_solve. Qed.
Hint Resolve frames_do_remove_arc : frames.

(** A split signal records its pair and spawns its timer together. *)
Lemma frames_spawn_split_signal sig : frames (spawn_split_signal calculate_threshold sig).
Proof.
  intros ac ac' es a Hr. unfold spawn_split_signal, mbind, M_bind, modify in Hr. cbn in Hr.
  set (k := split_key (ss_fp_eldest sig) (ss_fp sig)) in *. case_bool_decide as Hk; simplify_eq/=.
  - constructor; cbn; [rewrite windows_nil; unfold open_window; cbn; lia|set_solver
      |split; [constructor|set_solver]|by left].
  - constructor; cbn; [unfold open_window, windows, retain; cbn; lia|set_solver| |by left].
    split; [repeat constructor; set_solver|set_solver].
Qed.
Hint Resolve frames_spawn_split_signal : frames.

Lemma frames_after_update_map o : frames (after_update_map calculate_threshold o).
Proof. unfold after_update_map, spawn_split_signals, spawn_first_detection_split. frames_solve. Qed.
Hint Resolve frames_after_update_map : frames.

Lemma frames_check_junk arc m : frames (check_and_remove_on_junk arc m).
Proof. unfold check_and_remove_on_junk. frames_solve. Qed.
Hint Resolve frames_check_junk : frames.

Lemma frames_ingest_checked arc m full : frames (ingest_checked_etp calculate_threshold arc m full).
Proof. unfold ingest_checked_etp. frames_solve. Qed.
Hint Resolve frames_ingest_checked : frames.

Lemma frames_ingest arc m full : frames (ingest_incoming_etp calculate_threshold arc m full).
Proof. unfold ingest_incoming_etp. frames_solve. Qed.
Hint Resolve frames_ingest : frames.

Lemma frames_forward arc i : frames (forward_ingested arc i).
Proof. unfold forward_ingested, spawn_broadcast_all_but. frames_solve. Qed.
Hint Resolve frames_forward : frames.

Lemma frames_exit_bootstrap : frames do_exit_bootstrap.
Proof.
  unfold do_exit_bootstrap, spawn_exit_bootstrap_gather. frame_go. split; [done|by right].
Qed.
Hint Resolve frames_exit_bootstrap : frames.

Lemma frames_gather_result q r : frames (gather_result q r).
Proof. unfold gather_result. frames_solve. Qed.
Hint Resolve frames_gather_result : frames.

Lemma frames_exit_result b r : frames (exit_bootstrap_result calculate_threshold b r).
Proof. unfold exit_bootstrap_result. frames_solve. Qed.
Hint Resolve frames_exit_result : frames.

(** The window and its timer open together. *)
Lemma frames_request_arc_gather arc : frames (request_arc_gather arc).
Proof.
  intros ac ac' es a Hr. unfold request_arc_gather, mbind, M_bind, get_window, set_window, spawn_gather in Hr. cbn in Hr.
  destruct (arc_gather_window ac) eqn:Hw; simplify_eq/=;
    (constructor; cbn; [unfold open_window, windows, retain; rewrite ?Hw; cbn; lia|set_solver
      |split; [constructor|set_solver]|by left]).
Qed.
Hint Resolve frames_request_arc_gather : frames.

Definition is_timer_command (cmd : Command) : bool :=
  match cmd with ArcGatherWindowElapsed | SplitTimerFire _ _ _ => true | _ => false end.

Lemma handle_frames cmd : is_timer_command cmd = false → frames (handle calculate_threshold cmd).
Proof.
  destruct cmd; cbn [is_timer_command handle]; intros Ht; try done;
    unfold handle_add_arc, handle_arc_add_fetched, handle_arc_changed, handle_remove_arc,
      handle_gather_complete, handle_inbound_get_full_etp, handle_inbound_send_etp, bootstrap_gate,
      handle_periodic_full_etp, handle_bootstrap_etp_fetched, handle_bootstrap_timeout,
      handle_exit_bootstrap_gathered, handle_make_connectivity, handle_publish_connectivity,
      handle_exit_network, handle_first_detection_split, spawn_bootstrap_fetches, build_full_etp;
    frames_solve.
Qed.
End FrameHandlers.

(** ** The system *)
Record Sys := mkSys { sy_actor : Actor; sy_tasks : list Task }.

(** The commands the methods of [QspnHandle] send. *)
Definition is_api (cmd : Command) : bool :=
  match cmd with
  | AddArc _ _ | ArcChanged _ _ | RemoveArc _ | CurrentArcs | PeerNaddr _ | MyEldership _
  | Eldership _ _ | FingerprintId _ | GetFullEtp _ _ | SendEtp _ _ _ | GotPrepareDestroy
  | GotDestroy _ | DestroyStub | IsBootstrapComplete | CurrentNaddr | MakeConnectivity _ _ _
  | ExitNetwork _ | CheckConnectivity => true
  | _ => false
  end.

(** The command a task puts on the queue.  What comes from the network is any
    well-typed answer. *)
Inductive fires : Task → Command → Prop :=
  | fires_fetch arc r : typed_result r → fires (TFetchNewArc arc) (ArcAddFetched arc r)
  | fires_gather arcs a_changed extra rs :
      length rs = length arcs → Forall typed_result rs →
      fires (TGather arcs a_changed extra) (GatherComplete a_changed extra (zip arcs rs))
  | fires_window : fires TArcGatherWindow ArcGatherWindowElapsed
  | fires_missing arcs msg full arc :
      arc ∈ arcs → fires (TBroadcast arcs msg full) (ResendEtp arc msg full)
  | fires_resend arc msg full : fires (TResend arc msg full) (ResendFailed arc)
  | fires_periodic : fires TPeriodic PeriodicFullEtp
  | fires_bootstrap arc r : typed_result r → fires (TBootstrapFetch arc) (BootstrapEtpFetched arc r)
  | fires_timeout : fires TBootstrapTimeout BootstrapTimeout
  | fires_exit arcs rs :
      length rs = length arcs → Forall typed_result rs →
      fires (TExitBootstrapGather arcs) (ExitBootstrapGathered (zip arcs rs))
  | fires_detection b_set : fires (TFirstDetectionSplit b_set) (FirstDetectionSplitFire b_set)
  | fires_split d f g th : fires (TSplit d f g th) (SplitTimerFire d f g)
  | fires_publish old : fires (TPublishConnectivity old) (PublishConnectivity old).

(** The periodic loop goes on, and a broadcast can miss several arcs. *)
Definition recurs (tk : Task) : list Task :=
  match tk with TPeriodic | TBroadcast _ _ _ => [tk] | _ => [] end.

(** The outbound calls that can end without a command. *)
Definition ends_silently (tk : Task) : bool :=
  match tk with TUnicast _ _ _ | TBroadcast _ _ _ | TResend _ _ _ => true | _ => false end.

(** The tasks that emit an event themselves, and what they go on as: the signal
    of a created network goes on as the periodic loop. *)
Definition announces (tk : Task) : option (QspnEvent * list Task) :=
  match tk with
  | TBootstrapSignal => Some (BootstrapComplete, [TPeriodic])
  | TPresenceNotified => Some (PresenceNotified, [])
  | _ => None
  end.

Section System.
Context (calculate_threshold : RoutePath → RoutePath → Z) (t : Topology).

(** The iteration order of the hash maps may change from one command to the
    next. *)
Inductive sys_step : Sys → list Effect → Sys → Prop :=
  | step_api `{HashOrder} ac ts cmd ac' es :
      is_api cmd = true → cmd_ok t (ac_state ac) cmd →
      handle calculate_threshold cmd ac = Ok (ac', es, tt) →
      sys_step (mkSys ac ts) es (mkSys ac' (ts ++ spawned es))
  | step_task `{HashOrder} ac ts1 tk ts2 cmd ac' es :
      fires tk cmd → handle calculate_threshold cmd ac = Ok (ac', es, tt) →
      sys_step (mkSys ac (ts1 ++ tk :: ts2)) es (mkSys ac' (ts1 ++ recurs tk ++ ts2 ++ spawned es))
  | step_end ac ts1 tk ts2 :
      ends_silently tk = true → sys_step (mkSys ac (ts1 ++ tk :: ts2)) [] (mkSys ac (ts1 ++ ts2))
  | step_emit ac ts1 tk ts2 e next :
      announces tk = Some (e, next) →
      sys_step (mkSys ac (ts1 ++ tk :: ts2)) [Emit e] (mkSys ac (ts1 ++ next ++ ts2)).

(** [spawn] and [spawn_entering]. *)
Inductive sys_init : Sys → Prop :=
  | init_create my fp c s ac es :
      naddr_wf my → na_topology my = t → fp_wf fp → fp_level fp = 0 → is_u64 (max_paths c) →
      topology_levels t ≤ length (fp_pending_elderships fp) →
      state_new my fp c = Ok s →
      spawn_bootstrap_and_periodic (mkActor s None) = Ok (ac, es, tt) →
      sys_init (mkSys ac (spawned es))
  | init_enter `{HashOrder} my fp c internal external guest host conn previous s ac es :
      naddr_wf my → na_topology my = t → fp_wf fp → fp_level fp = 0 → is_u64 (max_paths c) →
      topology_levels t ≤ length (fp_pending_elderships fp) →
      host ≤ topology_levels t → guest < host → conn.1 ≤ guest →
      arcs_importable my internal external →
      (∀ l m pos dest, l < guest → previous !! l = Some m → m !! pos = Some dest →
        importable my c (mkHCoord l pos) dest) →
      new_entering my fp c internal external guest host conn previous = Ok s →
      spawn_bootstrap_entering external.*1 (mkActor s None) = Ok (ac, es, tt) →
      sys_init (mkSys ac (spawned es)).

Inductive reachable : Sys → Prop :=
  | reach_init sys : sys_init sys → reachable sys
  | reach_step sys es sys' : reachable sys → sys_step sys es sys' → reachable sys'.

(** ** The invariant *)
Record sys_wf (sys : Sys) : Prop := {
  yw_inv : Inv t (sy_actor sys);
  yw_tasks : Forall (task_wf t) (sy_tasks sys);
  yw_windows : windows (sy_tasks sys) = open_window (sy_actor sys);
  yw_split_nodup : NoDup (split_keys (sy_tasks sys));
  yw_splits : ∀ k, k ∈ split_keys (sy_tasks sys) ↔ k ∈ st_pending_gnode_split (ac_state (sy_actor sys))
}.

Lemma fires_cmd_ok s tk cmd : task_wf t tk → fires tk cmd → cmd_ok t s cmd.
Proof.
  intros Ht Hf. destruct Hf; cbn in *; try done.
  - destruct Ht as [? ?]. rewrite fst_zip, snd_zip by lia. done.
  - by rewrite snd_zip by lia.
Qed.

Lemma handle_outcome `{HashOrder} cmd ac ac' es :
  Inv t ac → cmd_ok t (ac_state ac) cmd → handle calculate_threshold cmd ac = Ok (ac', es, tt) →
  Inv t ac' ∧ Forall (task_wf t) (spawned es).
Proof.
  intros Hi Hc Hh. destruct (handle_safe calculate_threshold t cmd ac Hi Hc) as (ac2 & es2 & a & Hr & He & Hi2).
  assert (ac2 = ac' ∧ es2 = es) as [-> ->] by (rewrite Hh in Hr; by simplify_eq).
  split; [done|]. clear -He. induction He as [|e es He Hes IH]; cbn; [constructor|].
  destruct e; cbn in *; try done. by constructor.
Qed.

(** What stays of a well-formed system when the actor accounts for its effects. *)
Lemma accounts_wf ac ts es ac' :
  sys_wf (mkSys ac ts) → Inv t ac' → Forall (task_wf t) (spawned es) → accounts ac es ac' →
  sys_wf (mkSys ac' (ts ++ spawned es)).
Proof.
  intros [Hi Ht Hw Hn Hs] Hi' He [Aw As [An Af] _]. cbn in *. constructor; cbn; [done| | | |].
  - by apply Forall_app.
  - rewrite windows_app. lia.
  - rewrite split_keys_app. apply NoDup_app. split_and!; [done| |done].
    intros k Hk Hk2. apply (Af k Hk2). by apply Hs.
  - intros k. rewrite split_keys_app, As, elem_of_app, elem_of_union, elem_of_list_to_set, Hs. tauto.
Qed.

(** Tasks that are neither windows nor splits come and go freely. *)
Definition is_plain (tk : Task) : bool :=
  match tk with TArcGatherWindow | TSplit _ _ _ _ => false | _ => true end.

Lemma windows_plain ts1 tk ts2 : is_plain tk = true → windows (ts1 ++ tk :: ts2) = windows (ts1 ++ ts2).
Proof. intros Hp. rewrite !windows_app. f_equal. by destruct tk. Qed.

Lemma split_keys_plain ts1 tk ts2 : is_plain tk = true → split_keys (ts1 ++ tk :: ts2) = split_keys (ts1 ++ ts2).
Proof. intros Hp. rewrite !split_keys_app. f_equal. by destruct tk. Qed.

Lemma drop_plain_wf ac ts1 tk ts2 :
  is_plain tk = true → sys_wf (mkSys ac (ts1 ++ tk :: ts2)) → sys_wf (mkSys ac (ts1 ++ ts2)).
Proof.
  intros Hp [Hi Ht Hw Hn Hs]. cbn in *. rewrite windows_plain in Hw by done. rewrite split_keys_plain in Hn by done.
  constructor; cbn; try done.
  - apply Forall_app in Ht as [? ?%Forall_cons]. apply Forall_app. tauto.
  - intros k. by rewrite <-Hs, split_keys_plain.
Qed.

Lemma announces_wf ac ts1 tk ts2 e next :
  announces tk = Some (e, next) → sys_wf (mkSys ac (ts1 ++ tk :: ts2)) → sys_wf (mkSys ac (ts1 ++ next ++ ts2)).
Proof.
  intros Ha Hw. destruct tk; simplify_eq/=; (eapply drop_plain_wf in Hw; [|done]); [|done].
  destruct Hw as [Hi Ht Hw Hn Hs]. cbn in *. constructor; cbn; [done| | | |].
  - rewrite Forall_app in Ht. apply Forall_app. split; [tauto|]. constructor; [done|tauto].
  - by rewrite windows_plain.
  - by rewrite split_keys_plain.
  - intros k. by rewrite split_keys_plain.
Qed.

Lemma recurs_wf ac ts1 tk ts2 :
  is_plain tk = true → sys_wf (mkSys ac (ts1 ++ tk :: ts2)) → sys_wf (mkSys ac (ts1 ++ recurs tk ++ ts2)).
Proof.
  intros Hp Hw. destruct tk; cbn in *; try done; (eapply drop_plain_wf; [|exact Hw]; done).
Qed.

Lemma elapsed_effects `{HashOrder} ac ac' es :
  handle calculate_threshold ArcGatherWindowElapsed ac = Ok (ac', es, tt) →
  ac_state ac' = ac_state ac ∧ open_window ac' = windows (spawned es) ∧ split_keys (spawned es) = [].
Proof.
  cbn. unfold handle_arc_gather_window_elapsed, mbind, M_bind, get_window, set_window, spawn_gather. cbn.
  intros Hr. destruct (arc_gather_window ac) as [[latest [|]]|]; simplify_eq/=; done.
Qed.

Lemma split_fire_effects `{HashOrder} d f g ac ac' es :
  handle calculate_threshold (SplitTimerFire d f g) ac = Ok (ac', es, tt) →
  ac_state ac' = clear_pending_split (ac_state ac) f g ∧ arc_gather_window ac' = arc_gather_window ac ∧
  spawned es = [].
Proof.
  cbn. unfold handle_split_timer_fire, mbind, M_bind. cbn. intros Hr. simplify_eq/=. split_and!; [done..|].
  by generalize (split_still_live (clear_pending_split (ac_state ac) f g) d f g); intros l; induction l.
Qed.

Lemma fires_plain tk cmd : fires tk cmd → is_plain tk = true → is_timer_command cmd = false.
Proof. by destruct 1. Qed.

Lemma step_task_wf `{HashOrder} ac ts1 tk ts2 cmd ac' es :
  sys_wf (mkSys ac (ts1 ++ tk :: ts2)) → fires tk cmd →
  handle calculate_threshold cmd ac = Ok (ac', es, tt) →
  sys_wf (mkSys ac' (ts1 ++ recurs tk ++ ts2 ++ spawned es)).
Proof.
  intros Hw Hf Hh. pose proof Hw as [Hi Ht Hwin Hnd Hs]. cbn in *.
  apply Forall_app in Ht as [Ht1 [Htk Ht2]%Forall_cons].
  destruct (handle_outcome cmd ac ac' es) as [Hi' He]; [done|by eapply fires_cmd_ok|done|].
  destruct (is_plain tk) eqn:Hp.
  - rewrite !app_assoc. rewrite <-(app_assoc ts1). eapply accounts_wf; [by apply recurs_wf|done|done|].
    eapply handle_frames; [by eapply fires_plain|done].
  - rewrite windows_app in Hwin. rewrite split_keys_app in Hnd. setoid_rewrite split_keys_app in Hs.
    destruct Hf; try done; cbn in *.
    + apply elapsed_effects in Hh as (Es & Ew & Ek). constructor; cbn; [done|by rewrite !Forall_app| | |].
      * rewrite !windows_app, Ew. unfold windows, retain in Hwin |- *. cbn in Hwin.
        unfold open_window in Hwin. destruct (arc_gather_window ac); lia.
      * by rewrite !split_keys_app, Ek, app_nil_r.
      * intros k. rewrite !split_keys_app, Ek, app_nil_r, Es. apply Hs.
    + apply split_fire_effects in Hh as (Es & Ew & Ek). rewrite Ek, app_nil_r. constructor; cbn; [done|by rewrite Forall_app| | |].
      * rewrite windows_app. unfold open_window in *. by rewrite Ew.
      * rewrite split_keys_app. apply NoDup_app in Hnd as (? & ? & [? ?]%NoDup_cons). apply NoDup_app.
        split_and!; [done| |done]. intros k Hk Hk2. set_solver.
      * intros k. rewrite Es. cbn. rewrite elem_of_difference, elem_of_singleton, <-Hs, split_keys_app, !elem_of_app, elem_of_cons.
        apply NoDup_app in Hnd as (_ & Hd & [Hn _]%NoDup_cons). split.
        -- intros [Hk|Hk]; (split; [tauto|]); intros ->; [apply (Hd _ Hk); by left|done].
        -- tauto.
Qed.

Lemma sys_step_wf sys es sys' : sys_wf sys → sys_step sys es sys' → sys_wf sys'.
Proof.
  intros Hw Hstep. destruct Hstep as [O ac ts cmd ac' es Hapi Hok Hh|O ac ts1 tk ts2 cmd ac' es Hf Hh|ac ts1 tk ts2 He|ac ts1 tk ts2 e next Ha].
  - destruct (handle_outcome cmd ac ac' es) as [Hi' Het]; [apply Hw|done|done|].
    eapply accounts_wf; [done|done|done|]. eapply handle_frames; [|done]. by destruct cmd.
  - by eapply step_task_wf.
  - eapply drop_plain_wf; [|done]. by destruct tk.
  - by eapply announces_wf.
Qed.

(** What the two constructors leave pending. *)
Lemma spawn_bootstrap_and_periodic_run ac ac' es :
  spawn_bootstrap_and_periodic ac = Ok (ac', es, tt) → ac' = ac ∧ spawned es = [TBootstrapSignal].
Proof. by intros [= <- <-]. Qed.

Lemma spawn_bootstrap_entering_run arcs ac ac' es :
  spawn_bootstrap_entering arcs ac = Ok (ac', es, tt) →
  ac' = ac ∧ spawned es = (TBootstrapFetch <$> arcs) ++ [TBootstrapTimeout].
Proof.
  unfold spawn_bootstrap_entering, spawn_bootstrap_fetches. intros Hr.
  assert (∀ l, for_each (λ _ arc, spawn (TBootstrapFetch arc)) tt l ac = Ok (ac, (Spawn ∘ TBootstrapFetch) <$> l, tt)) as Hf.
  { induction l as [|a l IH]; [done|]. cbn. unfold mbind, M_bind. cbn. by rewrite IH. }
  unfold mbind, M_bind in Hr. rewrite Hf in Hr. cbn in Hr. injection Hr as <- <-. split; [done|].
  rewrite spawned_app. f_equal. clear. induction arcs as [|a l IH]; [done|]. unfold spawned in *. cbn. by rewrite IH.
Qed.

Lemma sys_init_wf sys : sys_init sys → sys_wf sys.
Proof.
  intros Hi. destruct Hi as [my fp c s ac es Hmy Ht Hfw Hfl Hc Hp Hnew Hsp|O my fp c int ext g h conn prev s ac es Hmy Ht Hfw Hfl Hc Hp Hh Hg Hcn Har Him Hnew Hsp].
  - apply spawn_bootstrap_and_periodic_run in Hsp as [-> ->]. rewrite <-Ht in Hp. destruct (state_new_wf my fp c) as (s' & Hs' & Hw & En & _ & Eb & _); [done..|].
    assert (s' = s) as -> by congruence.
    assert (st_pending_gnode_split s = ∅) as Ep.
    { clear -Hnew. unfold state_new in Hnew. res_inv. done. }
    constructor; cbn; [|by repeat constructor|done|constructor|intros k; rewrite Ep; set_solver].
    constructor; cbn; [done|by rewrite En|]. unfold bootstrap_wf. by rewrite Eb.
  - apply spawn_bootstrap_entering_run in Hsp as [-> ->]. rewrite <-Ht in Hp, Hh. destruct (new_entering_wf my fp c int ext g h conn prev) as (s' & Hs' & Hw & En & _ & Eb & _ & Ep & _); [done..|].
    assert (s' = s) as -> by congruence.
    assert (windows ((TBootstrapFetch <$> ext.*1) ++ [TBootstrapTimeout]) = 0 ∧
      split_keys ((TBootstrapFetch <$> ext.*1) ++ [TBootstrapTimeout]) = []) as [Ew Ek].
    { rewrite windows_app, split_keys_app. clear. induction ext as [|e ext IH]; [done|]. exact IH. }
    constructor; cbn [sy_actor sy_tasks ac_state]; [| |by rewrite Ew|by rewrite Ek; constructor|intros k; rewrite Ek, Ep; set_solver].
    + constructor; cbn; [done|by rewrite En|]. unfold bootstrap_wf, st_levels. by rewrite Eb, En.
    + apply Forall_app. split; [|by repeat constructor]. apply Forall_forall. by intros ? (? & -> & _)%list_elem_of_fmap.
Qed.

Lemma reachable_wf sys : reachable sys → sys_wf sys.
Proof. induction 1; [by apply sys_init_wf|by eapply sys_step_wf]. Qed.
End System.
