(* ===== verification/QspnBootstrap.v ===== *)
(** * The end of the bootstrap phase

    Which commands of the actor end the bootstrap phase, and what they leave: one
    [BootstrapComplete] and one periodic loop ([do_exit_bootstrap] of
    [crates/ntk-qspn/src/manager.rs]).  Every other effect is [calm].  The lemmas
    are lifted to the system of [QspnSystem], where the node that creates a
    network owes its announcement to a timer. *)
From stdpp Require Import strings.
From S2P Require Import Prelude Addressing Fingerprint QspnPath QspnConfig QspnValidate.
From S2P Require Import QspnRevise QspnState QspnEnter QspnUpdateMap QspnConnectivity QspnFlood.
From S2P Require Import QspnActor QspnActorSafety QspnSystem.

(** ** Ordinary events *)
Definition ordinary (e : QspnEvent) : Prop := match e with BootstrapComplete => False | _ => True end.

Section Events.
Context `{HashOrder}.

Lemma remove_arc_ordinary s arc : Forall ordinary (ra_events (remove_arc s arc).2).
Proof.
  unfold remove_arc. destruct (_ !! _); [|constructor]. cbn. apply Forall_forall.
  intros e (m & _ & He)%elem_of_concat_fmap. unfold strip_level_events in He.
  apply elem_of_app in He as [(np & -> & _)%list_elem_of_fmap|(d & -> & _)%list_elem_of_fmap]; done.
Qed.

Lemma update_clusters_ordinary s evs : (update_clusters s).2 = Ok evs → Forall ordinary evs.
Proof.
  unfold update_clusters. generalize (seq 1 (st_levels s)). intros l.
  assert (Forall ordinary []) as H0 by constructor. revert H0. generalize (@nil QspnEvent). revert s.
  induction l as [|i l IH]; intros s acc Hacc; cbn; [by intros [= <-]|].
  destruct (cluster_level s i) as [[s' evs']| |] eqn:E; cbn; [|done..]. apply IH, Forall_app. split; [done|].
  unfold cluster_level in E. res_inv. apply Forall_app. split; by case_match; repeat constructor.
Qed.

Lemma announce_new_ordinary d c md valid es p es' :
  Forall ordinary (es_sd es) → announce_new d c md valid es p = Ok es' → Forall ordinary (es_sd es').
Proof.
  intros Hs. unfold announce_new. destruct (any _ _); [by intros [= <-]|].
  destruct (_ =? _); [intros [= <-]; cbn; rewrite Forall_app; by repeat constructor|]. intros Hr. res_inv.
  destruct x; cbn; rewrite ?Forall_app; by repeat constructor.
Qed.

Lemma announce_known_ordinary d c vd valid es p es' :
  Forall ordinary (es_sd es) → announce_known d c vd valid es p = Ok es' → Forall ordinary (es_sd es').
Proof.
  intros Hs. unfold announce_known. destruct (position _ _) as [idx|].
  - destruct (negb _); [by intros [= <-]|]. intros Hr. res_inv.
    destruct (_ =? _); res_inv; repeat case_match; cbn; rewrite ?Forall_app; by repeat constructor.
  - intros [= <-]. cbn. destruct (_ || _); rewrite ?Forall_app; by repeat constructor.
Qed.

Lemma announce_ordinary d c md rd vd es : announce d c md rd vd = Ok es → Forall ordinary (es_sd es).
Proof.
  unfold announce. intros Hr. res_inv. cbn.
  match goal with H1 : foldM (announce_new _ _ _ _) _ _ = Ok ?es1, H2 : foldM (announce_known _ _ _ _) _ _ = Ok ?es2 |- _ =>
    assert (Forall ordinary (es_sd es1)) as Ho1;
      [eapply (foldM_preserves _ (λ x, Forall ordinary (es_sd x))); [| |exact H1];
        [constructor|intros ????; apply announce_new_ordinary]|];
    assert (Forall ordinary (es_sd es2)) as Ho2;
      [eapply (foldM_preserves _ (λ x, Forall ordinary (es_sd x))); [| |exact H2];
        [exact Ho1|intros ????; apply announce_known_ordinary]|] end.
  repeat case_match; rewrite ?Forall_app; by repeat constructor.
Qed.

Lemma one_destination_ordinary s qd d a z c o :
  (update_map_one_destination s qd d a z c).2 = Ok o → Forall ordinary (od_events o).
Proof.
  unfold update_map_one_destination. destruct (_ !! _) as [m|]; [|done]. cbn [sbind].
  destruct (select_paths _ _ _ _ _ _ _); [|done..]. cbn [sbind].
  destruct (announce _ _ _ _ _) as [es| |] eqn:E; [|done..]. cbn [sbind].
  destruct (split_check _ _ _ _); [|done..]. intros [= <-]. by eapply announce_ordinary.
Qed.

Lemma update_map_ordinary s q a o : (update_map s q a).2 = Ok o → Forall ordinary (um_events o).
Proof.
  unfold update_map. cbn [sbind]. destruct (mapM _ _) as [z_set| |]; [|done..]. cbn [sbind].
  destruct (group_by_dest q) as [g| |]; [|done..]. cbn [sbind]. generalize (arc_cost s). intros c.
  assert (Forall ordinary (um_events (mkUpdateMapOutcome [] [] [] []))) as H0 by constructor.
  revert H0. generalize (sorted_keys c g), (mkUpdateMapOutcome [] [] [] []). intros l. revert s.
  induction l as [|d l IH]; intros s out Hout; cbn; [by intros [= <-]|]. unfold update_map_step at 1.
  pose proof (one_destination_ordinary s (default [] (g !! d)) d a z_set c) as Ho.
  destruct (update_map_one_destination _ _ _ _ _ _) as [s' [o'| |]]; cbn; [|done..].
  apply IH. cbn. apply Forall_app. split; [done|]. by apply Ho.
Qed.

Lemma make_connectivity_ordinary s from to upd o :
  (make_connectivity s from to upd).2 = Ok o → Forall ordinary (mc_events o).
Proof.
  unfold make_connectivity. destruct (_ <? _); [done|]. destruct (_ <? _); [done|]. destruct (_ =? _); [done|].
  destruct (naddr_pos _ _); [|done]. destruct (negb _); [done|]. destruct (negb _); [done|].
  match goal with |- context [update_clusters ?x] => pose proof (update_clusters_ordinary x) as Hu end.
  destruct (update_clusters _) as [s' [evs| |]]; cbn in *; [|done..]. intros [= <-]. by apply Hu.
Qed.

Lemma remove_arcs_ordinary s arcs : Forall ordinary (remove_arcs s arcs).2.
Proof.
  unfold remove_arcs. apply (foldl_preserves _ (λ acc : QspnState * list QspnEvent, Forall ordinary acc.2)); [constructor|].
  intros [s1 evs] arc _ H1. cbn in *. pose proof (remove_arc_ordinary s1 arc) as H2.
  destruct (remove_arc s1 arc) as [s2 o]. cbn in *. rewrite !Forall_app. by repeat constructor.
Qed.

Lemma exit_network_ordinary s lvl o : (exit_network s lvl).2 = Ok o → Forall ordinary (en_events o).
Proof.
  unfold exit_network. cbn.
  match goal with |- context [update_clusters ?x] => pose proof (update_clusters_ordinary x) as H1 end.
  destruct (update_clusters _) as [s2 [evs| |]]; cbn in *; [|done..].
  pose proof (remove_arcs_ordinary s2 (arcs_at_level s2 (λ arc_lvl, lvl <=? arc_lvl))) as H2.
  destruct (remove_arcs _ _) as [s3 rm]. pose proof (update_clusters_ordinary s3) as H3.
  destruct (update_clusters s3) as [s4 [evs'| |]]; cbn in *; [|done..]. intros [= <-]. cbn.
  rewrite !Forall_app. split_and!; [|by apply H1|done|by apply H3].
  apply Forall_forall. intros e (m & _ & (d & _ & He)%elem_of_concat_fmap)%elem_of_concat_fmap.
  apply elem_of_app in He as [(np & -> & _)%list_elem_of_fmap| ->%list_elem_of_singleton]; done.
Qed.
End Events.

(** ** Calm computations

    They neither end the bootstrap phase nor announce its end, and start no
    periodic loop. *)
Definition calm (e : Effect) : Prop :=
  match e with Emit BootstrapComplete | Spawn TBootstrapSignal | Spawn TPeriodic => False | _ => True end.

Definition calmly {A} (m : M A) (Q : A → Prop) : Prop :=
  ∀ ac ac' es a, m ac = Ok (ac', es, a) →
    Forall calm es ∧ st_bootstrap (ac_state ac') = st_bootstrap (ac_state ac) ∧ Q a.

(** The postcondition of a fallible method of the state. *)
Definition on_ok {A} (Q : A → Prop) (r : Result A) : Prop :=
  match r with inl _ => True | inr a => Q a end.

Lemma calmly_any {A} (m : M A) Q : calmly m Q → calmly m (λ _, True).
Proof. intros Hm ac ac' es a Hr. by destruct (Hm _ _ _ _ Hr) as (? & ? & _). Qed.

Lemma calmly_ret {A} (a : A) : calmly (mret a) (λ _, True).
Proof. by intros ac ac' es x [= <- <- <-]. Qed.

Lemma calmly_bind {A B} (m : M A) (f : A → M B) Q R :
  calmly m Q → (∀ a, Q a → calmly (f a) R) → calmly (m ≫= f) R.
Proof.
  intros Hm Hf ac ac' es b Hrun. unfold mbind, M_bind in Hrun.
  destruct (m ac) as [[[ac1 e1] a]| |] eqn:E1; [|done..].
  destruct (f a ac1) as [[[ac2 e2] b']| |] eqn:E2; [|done..]. simplify_eq.
  apply Hm in E1 as (? & ? & Ha). apply Hf in E2 as (? & ? & ?); [|done].
  split_and!; [by apply Forall_app|congruence|done].
Qed.

Lemma calmly_effect e : calm e → calmly (effect e) (λ _, True).
Proof. intros He ac ac' es x [= <- <- <-]. by repeat constructor. Qed.

Lemma calmly_emit_all evs : Forall ordinary evs → calmly (emit_all evs) (λ _, True).
Proof.
  intros He ac ac' es x [= <- <- <-]. split_and!; [|done..]. apply Forall_fmap.
  eapply Forall_impl; [exact He|]. by intros [].
Qed.

Lemma calmly_reads {A} (f : QspnState → A) : calmly (reads f) (λ _, True).
Proof. by intros ac ac' es x [= <- <- <-]. Qed.

Lemma calmly_as_result {A} (r : res QspnError A) : calmly (as_result r) (λ _, True).
Proof. intros ac ac' es a Hr. by destruct r; simplify_eq/=. Qed.

Lemma calmly_infallible {E A} (r : res E A) : calmly (infallible r) (λ _, True).
Proof. intros ac ac' es a Hr. by destruct r; simplify_eq/=. Qed.

Lemma calmly_modify {A} (f : QspnState → QspnState * A) Q :
  (∀ s, st_bootstrap (f s).1 = st_bootstrap s ∧ Q (f s).2) → calmly (modify f) Q.
Proof.
  intros Hf ac ac' es a Hr. unfold modify in Hr. specialize (Hf (ac_state ac)).
  destruct (f (ac_state ac)) as [s' x]. simplify_eq/=. split_and!; [constructor|apply Hf..].
Qed.

Lemma calmly_run_state {A} (f : QspnState → QspnState * res QspnError A) Q :
  (∀ s, untouched s (f s).1) → (∀ s a, (f s).2 = Ok a → Q a) → calmly (run_state f) (on_ok Q).
Proof.
  intros Hf Hq. apply calmly_bind with (λ r, ∀ a, r = Ok a → Q a).
  - apply calmly_modify. intros s. split; [apply Hf|]. intros a. apply Hq.
  - intros r Hr ac ac' es a He. destruct r; simplify_eq/=; by eauto.
Qed.

Lemma calmly_when b (m : M unit) : calmly m (λ _, True) → calmly (when b m) (λ _, True).
Proof. intros Hm. destruct b; [done|apply calmly_ret]. Qed.

Lemma calmly_for_each {A B} (f : B → A → M B) b l :
  (∀ b a, calmly (f b a) (λ _, True)) → calmly (for_each f b l) (λ _, True).
Proof.
  intros Hf. revert b. induction l as [|a l IH]; intros b; cbn; [apply calmly_ret|].
  eapply calmly_bind; [apply Hf|by intros].
Qed.

Create HintDb calm.
#[export] Hint Resolve calmly_ret calmly_reads calmly_as_result calmly_infallible : calm.

Section CalmState.
Context `{HashOrder}.

Lemma calmly_remove_arc arc : calmly (modify (λ s, remove_arc s arc)) (λ o, Forall ordinary (ra_events o)).
Proof. apply calmly_modify. intros s. split; [apply untouched_remove_arc|apply remove_arc_ordinary]. Qed.

Lemma calmly_update_clusters : calmly (run_state update_clusters) (on_ok (Forall ordinary)).
Proof. apply calmly_run_state; [apply untouched_update_clusters|apply update_clusters_ordinary]. Qed.

Lemma calmly_update_map q a :
  calmly (run_state (λ s, update_map s q a)) (on_ok (λ o, Forall ordinary (um_events o))).
Proof. apply calmly_run_state; intros; [apply untouched_update_map|by eapply update_map_ordinary]. Qed.

Lemma calmly_make_connectivity from to upd :
  calmly (run_state (λ s, make_connectivity s from to upd)) (on_ok (λ o, Forall ordinary (mc_events o))).
Proof. apply calmly_run_state; intros; [apply untouched_make_connectivity|by eapply make_connectivity_ordinary]. Qed.

Lemma calmly_exit_network lvl :
  calmly (run_state (λ s, exit_network s lvl)) (on_ok (λ o, Forall ordinary (en_events o))).
Proof. apply calmly_run_state; intros; [apply untouched_exit_network|by eapply exit_network_ordinary]. Qed.
End CalmState.
#[export] Hint Resolve calmly_remove_arc calmly_update_clusters calmly_update_map calmly_make_connectivity
  calmly_exit_network : calm.

(** Structural steps, as for [frames]. *)
Ltac calm_step :=
  first
  [ solve [eauto 2 with calm]
  | match goal with
    | |- calmly (_ ≫= _) _ =>
        first [eapply calmly_bind; [solve [eauto 2 with calm]|intros ? ?]
              |apply (calmly_bind _ _ (λ _, True)); [|intros ? _]]
    | |- calmly (emit_all _) _ => apply calmly_emit_all; repeat case_match; first [assumption | by constructor]
    | |- calmly (effect _) _ => apply calmly_effect; exact I
    | |- calmly (emit _) _ => apply calmly_effect; exact I
    | |- calmly (reply _) _ => apply calmly_effect; exact I
    | |- calmly (spawn _) _ => apply calmly_effect; exact I
    | |- calmly (when _ _) _ => apply calmly_when
    | |- calmly (for_each _ _ _) _ => apply calmly_for_each; intros ? ?
    | |- calmly (match ?x with _ => _ end) _ => destruct x
    | |- calmly (if ?x then _ else _) _ => destruct x
    | |- calmly (let _ := _ in _) _ => cbv zeta
    end ].
Ltac calm_go := repeat (cbn [on_ok] in *; calm_step).

Section CalmHandlers.
Context `{HashOrder} (calculate_threshold : RoutePath → RoutePath → Z).

Lemma calmly_publish_snapshot : calmly publish_snapshot (λ _, True).
Proof. unfold publish_snapshot. calm_go. Qed.
Hint Resolve calmly_publish_snapshot : calm.

Lemma calmly_spawn_gather a extra : calmly (spawn_gather a extra) (λ _, True).
Proof. unfold spawn_gather. calm_go. Qed.
Hint Resolve calmly_spawn_gather : calm.

Lemma calmly_spawn_broadcast arcs msg full : calmly (spawn_broadcast arcs msg full) (λ _, True).
Proof. unfold spawn_broadcast. calm_go. Qed.
Hint Resolve calmly_spawn_broadcast : calm.

Lemma calmly_build_etp paths hops : calmly (build_etp paths hops) (λ _, True).
Proof. unfold build_etp. calm_go. Qed.
Hint Resolve calmly_build_etp : calm.

Lemma calmly_broadcast_full_etp : calmly broadcast_full_etp (λ _, True).
Proof. unfold broadcast_full_etp, build_full_etp, spawn_broadcast_all. calm_go. Qed.
Hint Resolve calmly_broadcast_full_etp : calm.

Lemma calmly_do_remove_arc arc b : calmly (do_remove_arc arc b) (λ _, True).
Proof. unfold do_remove_arc. calm_go. Qed.
Hint Resolve calmly_do_remove_arc : calm.

Lemma calmly_spawn_split_signal sig : calmly (spawn_split_signal calculate_threshold sig) (λ _, True).
Proof.
  unfold spawn_split_signal. eapply calmly_bind; [by apply (calmly_modify _ (λ _, True))|]. intros fresh _. calm_go.
Qed.
Hint Resolve calmly_spawn_split_signal : calm.

Lemma calmly_after_update_map o :
  Forall ordinary (um_events o) → calmly (after_update_map calculate_threshold o) (λ _, True).
Proof. intros Ho. unfold after_update_map, spawn_split_signals, spawn_first_detection_split. calm_go. Qed.
Hint Resolve calmly_after_update_map : calm.

Lemma calmly_check_junk arc m : calmly (check_and_remove_on_junk arc m) (λ _, True).
Proof. unfold check_and_remove_on_junk. calm_go. Qed.
Hint Resolve calmly_check_junk : calm.

Lemma calmly_record_peer arc a : calmly (modify (λ s, record_peer_naddr s arc a)) (λ _, True).
Proof. apply calmly_modify. intros s. split; [apply untouched_record_peer|done]. Qed.
Hint Resolve calmly_record_peer : calm.

Lemma calmly_ingest_checked arc m full :
  calmly (ingest_checked_etp calculate_threshold arc m full) (λ _, True).
Proof. unfold ingest_checked_etp. calm_go. Qed.
Hint Resolve calmly_ingest_checked : calm.

Lemma calmly_ingest arc m full : calmly (ingest_incoming_etp calculate_threshold arc m full) (λ _, True).
Proof. unfold ingest_incoming_etp. calm_go. Qed.
Hint Resolve calmly_ingest : calm.

Lemma calmly_forward arc i : calmly (forward_ingested arc i) (λ _, True).
Proof. unfold forward_ingested, spawn_broadcast_all_but. calm_go. Qed.
Hint Resolve calmly_forward : calm.

Lemma calmly_gather_result q r : calmly (gather_result q r) (λ _, True).
Proof. unfold gather_result. calm_go. Qed.
Hint Resolve calmly_gather_result : calm.

Lemma calmly_exit_result b r : calmly (exit_bootstrap_result calculate_threshold b r) (λ _, True).
Proof. unfold exit_bootstrap_result. calm_go. Qed.
Hint Resolve calmly_exit_result : calm.

(** The commands that can end the phase. *)
Definition may_exit (cmd : Command) : bool :=
  match cmd with SendEtp _ _ _ | BootstrapEtpFetched _ _ | BootstrapTimeout => true | _ => false end.

Lemma calmly_set_arc_cost arc c : calmly (modify (λ s, (set_arc_cost s arc c, tt))) (λ _, True).
Proof. apply calmly_modify. intros s. split; [apply untouched_set_arc_cost|done]. Qed.
Hint Resolve calmly_set_arc_cost : calm.

Lemma calmly_request_arc_gather arc : calmly (request_arc_gather arc) (λ _, True).
Proof.
  intros ac ac' es a Hr. unfold request_arc_gather, mbind, M_bind, get_window, set_window, spawn_gather in Hr.
  cbn in Hr. destruct (arc_gather_window ac); simplify_eq/=; by repeat constructor.
Qed.
Hint Resolve calmly_request_arc_gather : calm.

Lemma calmly_window_elapsed : calmly handle_arc_gather_window_elapsed (λ _, True).
Proof.
  intros ac ac' es a Hr. unfold handle_arc_gather_window_elapsed, mbind, M_bind, get_window, set_window, spawn_gather in Hr.
  cbn in Hr. destruct (arc_gather_window ac) as [[latest []]|]; simplify_eq/=; by repeat constructor.
Qed.
Hint Resolve calmly_window_elapsed : calm.

Lemma calmly_split_fire d f g : calmly (handle_split_timer_fire d f g) (λ _, True).
Proof.
  unfold handle_split_timer_fire. eapply calmly_bind; [by apply (calmly_modify _ (λ _, True))|]. intros _ _.
  eapply calmly_bind; [apply calmly_reads|]. intros arcs _. apply calmly_emit_all, Forall_fmap.
  by apply Forall_forall.
Qed.
Hint Resolve calmly_split_fire : calm.

Lemma calmly_add_arc cost draws : calmly (handle_add_arc cost draws) (λ _, True).
Proof.
  unfold handle_add_arc, spawn_bootstrap_fetches. do 2 (apply (calmly_bind _ _ (λ _, True)); [calm_go|intros ? _]).
  apply (calmly_bind _ _ (λ _, True)); [by apply calmly_modify|]. intros _ _. calm_go.
Qed.
Hint Resolve calmly_add_arc : calm.

Lemma calmly_handle cmd : may_exit cmd = false → calmly (handle calculate_threshold cmd) (λ _, True).
Proof.
  destruct cmd; cbn [may_exit handle]; intros Ht; try done;
    unfold handle_arc_add_fetched, handle_arc_changed, handle_remove_arc,
      handle_gather_complete, handle_inbound_get_full_etp, handle_periodic_full_etp,
      handle_exit_bootstrap_gathered, handle_make_connectivity, handle_publish_connectivity,
      handle_exit_network, handle_first_detection_split, build_full_etp, spawn_broadcast_all; calm_go.
Qed.
End CalmHandlers.

(** ** What a command does to the phase *)
Definition is_completion (e : Effect) : bool := match e with Emit BootstrapComplete => true | _ => false end.
Definition completions (es : list Effect) : nat := length (retain is_completion es).
Definition is_signal (tk : Task) : bool := match tk with TBootstrapSignal => true | _ => false end.
Definition signals (ts : list Task) : nat := length (retain is_signal ts).
Definition is_periodic (tk : Task) : bool := match tk with TPeriodic => true | _ => false end.
Definition periodic_loops (ts : list Task) : nat := length (retain is_periodic ts).

(** What a node still owes: the end of its phase, or the announcement of it. *)
Definition phase_owed (ac : Actor) : nat :=
  match st_bootstrap (ac_state ac) with Complete => 0 | InProgress _ _ => 1 end.

Record phase_step (ac : Actor) (es : list Effect) (ac' : Actor) : Prop := {
  ph_completions : completions es + phase_owed ac' = phase_owed ac;
  ph_loops : periodic_loops (spawned es) = completions es;
  ph_signals : signals (spawned es) = 0
}.

Lemma completions_app es1 es2 : completions (es1 ++ es2) = completions es1 + completions es2.
Proof. unfold completions, retain. by rewrite List.filter_app, length_app. Qed.
Lemma signals_app ts1 ts2 : signals (ts1 ++ ts2) = signals ts1 + signals ts2.
Proof. unfold signals, retain. by rewrite List.filter_app, length_app. Qed.
Lemma periodic_loops_app ts1 ts2 : periodic_loops (ts1 ++ ts2) = periodic_loops ts1 + periodic_loops ts2.
Proof. unfold periodic_loops, retain. by rewrite List.filter_app, length_app. Qed.

Lemma phase_step_calm ac es ac' :
  Forall calm es → st_bootstrap (ac_state ac') = st_bootstrap (ac_state ac) → phase_step ac es ac'.
Proof.
  intros Hc Hb. assert (completions es = 0 ∧ periodic_loops (spawned es) = 0 ∧ signals (spawned es) = 0) as (E1 & E2 & E3).
  { induction Hc as [|e es He Hes (IH1 & IH2 & IH3)]; [done|]. destruct e as [[]| | |[]]; done. }
  constructor; [|lia|done]. unfold phase_owed. rewrite Hb. lia.
Qed.

Lemma phase_step_trans ac1 es1 ac2 es2 ac3 :
  phase_step ac1 es1 ac2 → phase_step ac2 es2 ac3 → phase_step ac1 (es1 ++ es2) ac3.
Proof.
  intros [] []. constructor; rewrite ?spawned_app, ?completions_app, ?periodic_loops_app, ?signals_app; lia.
Qed.

Definition phased (ac : Actor) {A} (m : M A) : Prop :=
  ∀ ac' es a, m ac = Ok (ac', es, a) → phase_step ac es ac'.

Lemma phased_calm {A} ac (m : M A) Q : calmly m Q → phased ac m.
Proof. intros Hm ac' es a (? & ? & _)%Hm. by apply phase_step_calm. Qed.

(** Calm computations before and after keep a computation [phased]. *)
Lemma phased_bind_l {A B} ac (m : M A) (f : A → M B) Q :
  calmly m Q →
  (∀ a ac1, st_bootstrap (ac_state ac1) = st_bootstrap (ac_state ac) → phased ac1 (f a)) → phased ac (m ≫= f).
Proof.
  intros Hm Hf ac' es b Hrun. unfold mbind, M_bind in Hrun.
  destruct (m ac) as [[[ac1 e1] a]| |] eqn:E1; [|done..].
  destruct (f a ac1) as [[[ac2 e2] b']| |] eqn:E2; [|done..]. simplify_eq.
  apply Hm in E1 as (? & Hb & _). eapply phase_step_trans; [by apply phase_step_calm|]. by eapply Hf.
Qed.

Lemma phased_bind_r {A B} ac (m : M A) (f : A → M B) Q :
  phased ac m → (∀ a, calmly (f a) Q) → phased ac (m ≫= f).
Proof.
  intros Hm Hf ac' es b Hrun. unfold mbind, M_bind in Hrun.
  destruct (m ac) as [[[ac1 e1] a]| |] eqn:E1; [|done..].
  destruct (f a ac1) as [[[ac2 e2] b']| |] eqn:E2; [|done..]. simplify_eq.
  apply Hf in E2 as (? & ? & _). eapply phase_step_trans; [by eapply Hm|by apply phase_step_calm].
Qed.

Lemma phased_reads {A B} ac (g : QspnState → A) (f : A → M B) :
  phased ac (f (g (ac_state ac))) → phased ac (reads g ≫= f).
Proof.
  intros Hf ac' es b Hrun. unfold mbind, M_bind, reads in Hrun.
  destruct (f (g (ac_state ac)) ac) as [[[ac2 e2] b']| |] eqn:E2; [|done..]. simplify_eq. by eapply Hf.
Qed.

Lemma phased_ret {A} ac (a : A) : phased ac (mret a).
Proof. eapply phased_calm, calmly_ret. Qed.

Section Phase.
Context `{HashOrder} (calculate_threshold : RoutePath → RoutePath → Z).

Lemma phased_exit ac : is_bootstrap_complete (ac_state ac) = false → phased ac do_exit_bootstrap.
Proof.
  intros Hb ac' es a Hr. unfold do_exit_bootstrap in Hr. unfold mbind at 1, M_bind at 1, modify in Hr.
  set (ac1 := mkActor (exit_bootstrap (ac_state ac)) (arc_gather_window ac)) in Hr.
  match type of Hr with match ?m ac1 with _ => _ end = _ => destruct (m ac1) as [[[ac2 e2] x]| |] eqn:E; [|done..] end.
  simplify_eq/=. unfold mbind, M_bind in E. destruct (publish_snapshot ac1) as [[[ac3 e3] y]| |] eqn:E3; [|done..].
  apply (calmly_publish_snapshot) in E3 as (Hc & Hb3 & _). cbn in E. simplify_eq/=.
  assert (phase_owed ac = 1) as E1.
  { unfold phase_owed. unfold is_bootstrap_complete in Hb. by destruct (st_bootstrap _). }
  destruct (phase_step_calm ac1 e3 _ Hc Hb3) as [P1 P2 P3]. constructor;
    rewrite ?spawned_app, ?completions_app, ?periodic_loops_app, ?signals_app;
    unfold phase_owed in *; rewrite Hb3 in *;
    change (completions (_ :: _)) with 1; change (periodic_loops (spawned (_ :: _))) with 1;
    change (signals (spawned (_ :: _))) with 0; cbn in *; lia.
Qed.

Lemma is_complete_frame s s' :
  st_bootstrap s' = st_bootstrap s → is_bootstrap_complete s' = is_bootstrap_complete s.
Proof. unfold is_bootstrap_complete. by intros ->. Qed.

Lemma phased_inbound_send_etp ac arc m full : phased ac (handle_inbound_send_etp calculate_threshold arc m full).
Proof.
  unfold handle_inbound_send_etp. apply phased_reads. destruct (negb _); [apply phased_ret|].
  eapply phased_bind_l; [apply calmly_check_junk|]. intros ok ac1 _. destruct (negb ok); [apply phased_ret|].
  apply phased_reads. destruct (is_bootstrap_complete _) eqn:Hc; cbn [negb].
  - eapply phased_calm, (calmly_bind _ _ (λ _, True)); [apply calmly_ingest_checked|]. intros [i|] _; [|apply calmly_ret].
    apply (calmly_bind _ _ (λ _, True)); [apply calmly_forward|]. intros _ _. apply calmly_ret.
  - eapply (phased_bind_l _ _ _ (λ _, True)); [unfold bootstrap_gate; calm_go|]. intros q ac2 Hb.
    eapply phased_bind_r; [|intros _; apply calmly_ret]. destruct q; [|apply phased_ret]. cbn [when].
    eapply phased_bind_l; [apply calmly_ingest_checked|]. intros _ ac3 Hb3. apply phased_exit.
    by rewrite (is_complete_frame (ac_state ac1)) by congruence.
Qed.

Lemma phased_bootstrap_fetched ac arc r : phased ac (handle_bootstrap_etp_fetched calculate_threshold arc r).
Proof.
  unfold handle_bootstrap_etp_fetched. apply phased_reads. cbn [id].
  destruct (is_bootstrap_complete _) eqn:Hc; [apply phased_ret|]. cbn [orb]. destruct (negb _); [apply phased_ret|].
  destruct r as [m|]; [|eapply phased_calm, calmly_do_remove_arc].
  eapply phased_bind_l; [apply calmly_as_result|]. intros [e|[v|]] ac1 Hb1; [apply phased_ret| |apply phased_ret].
  eapply phased_bind_l; [apply calmly_infallible|]. intros host ac2 Hb2. destruct (_ || _); [apply phased_ret|].
  eapply phased_bind_l; [apply calmly_ingest|]. intros _ ac3 Hb3. apply phased_exit.
  by rewrite (is_complete_frame (ac_state ac)) by congruence.
Qed.

(** Every command of the actor. *)
Lemma handle_phase cmd ac ac' es :
  handle calculate_threshold cmd ac = Ok (ac', es, tt) → phase_step ac es ac'.
Proof.
  destruct (may_exit cmd) eqn:He; [|by apply (phased_calm ac _ _ (calmly_handle calculate_threshold cmd He))].
  assert (phased ac (handle calculate_threshold cmd)) as Hp; [|by apply Hp].
  destruct cmd; try discriminate He; cbn [handle].
  - eapply phased_bind_r; [apply phased_inbound_send_etp|]. intros x. by apply calmly_effect.
  - apply phased_bootstrap_fetched.
  - unfold handle_bootstrap_timeout. apply phased_reads. destruct (is_bootstrap_complete _) eqn:Hc; cbn [negb when];
      [apply phased_ret|by apply phased_exit].
Qed.
End Phase.

(** ** Runs of the system *)
Section Runs.
Context (calculate_threshold : RoutePath → RoutePath → Z) (t : Topology).

(** The steps from a system to another, with their effects in order. *)
Inductive run (sys0 : Sys) : list Effect → Sys → Prop :=
  | run_nil : run sys0 [] sys0
  | run_step es sys es' sys' :
      run sys0 es sys → sys_step calculate_threshold t sys es' sys' → run sys0 (es ++ es') sys'.

(** What the system still owes to the listeners of [BootstrapComplete]. *)
Definition owed (sys : Sys) : nat := phase_owed (sy_actor sys) + signals (sy_tasks sys).

Lemma run_reachable sys0 es sys : sys_init t sys0 → run sys0 es sys → reachable calculate_threshold t sys.
Proof. intros Hi. induction 1; [by constructor|by eapply reach_step]. Qed.

Lemma sys_step_phase sys es sys' :
  sys_step calculate_threshold t sys es sys' →
  completions es + owed sys' = owed sys ∧
  periodic_loops (sy_tasks sys') = periodic_loops (sy_tasks sys) + completions es.
Proof.
  intros Hs. destruct Hs as [O ac ts cmd ac' es Hapi Hok Hh|O ac ts1 tk ts2 cmd ac' es Hf Hh|ac ts1 tk ts2 He|ac ts1 tk ts2 e next Ha];
    unfold owed; cbn [sy_actor sy_tasks]; rewrite ?signals_app, ?periodic_loops_app.
  - apply handle_phase in Hh as []. lia.
  - apply handle_phase in Hh as []. replace (tk :: ts2) with ([tk] ++ ts2) by done.
    rewrite ?signals_app, ?periodic_loops_app.
    assert (signals (recurs tk) = signals [tk] ∧ periodic_loops (recurs tk) = periodic_loops [tk]) as [-> ->]
      by (by destruct Hf). lia.
  - replace (tk :: ts2) with ([tk] ++ ts2) by done. rewrite ?signals_app, ?periodic_loops_app.
    assert (signals [tk] = 0 ∧ periodic_loops [tk] = 0) as [-> ->] by (by destruct tk). change (completions []) with 0. lia.
  - replace (tk :: ts2) with ([tk] ++ ts2) by done. rewrite ?signals_app, ?periodic_loops_app.
    assert (completions [Emit e] + signals next = signals [tk] ∧
      periodic_loops next = periodic_loops [tk] + completions [Emit e]) as [<- ->] by (by destruct tk; simplify_eq/=). lia.
Qed.

Lemma sys_init_phase sys : sys_init t sys → owed sys = 1 ∧ periodic_loops (sy_tasks sys) = 0.
Proof.
  intros Hi. destruct Hi as [my fp c s ac es Hmy Ht Hfw Hfl Hc Hp Hnew Hsp|O my fp c int ext g h conn prev s ac es Hmy Ht Hfw Hfl Hc Hp Hh Hg Hcn Har Him Hnew Hsp].
  - apply spawn_bootstrap_and_periodic_run in Hsp as [-> ->]. rewrite <-Ht in Hp. destruct (state_new_wf my fp c) as (s' & Hs' & _ & _ & _ & Eb & _); [done..|].
    assert (s' = s) as -> by congruence. unfold owed, phase_owed. cbn. by rewrite Eb.
  - apply spawn_bootstrap_entering_run in Hsp as [-> ->]. rewrite <-Ht in Hp, Hh. destruct (new_entering_wf my fp c int ext g h conn prev) as (s' & Hs' & _ & _ & _ & Eb & _); [done..|].
    assert (s' = s) as -> by congruence. unfold owed, phase_owed. cbn. rewrite Eb, signals_app, periodic_loops_app.
    assert (signals (TBootstrapFetch <$> ext.*1) = 0 ∧ periodic_loops (TBootstrapFetch <$> ext.*1) = 0) as [-> ->]; [|done].
    clear. induction ext as [|e ext IH]; [done|exact IH].
Qed.

Lemma run_phase sys0 es sys :
  sys_init t sys0 → run sys0 es sys →
  completions es + owed sys = 1 ∧ periodic_loops (sy_tasks sys) = completions es.
Proof.
  intros Hi Hr. induction Hr as [|es sys es' sys' Hr (IH1 & IH2) Hs]; [by apply sys_init_phase in Hi as [-> ->]|].
  apply sys_step_phase in Hs as [H1 H2]. rewrite completions_app. lia.
Qed.
End Runs.
