(* ===== verification/QspnActorProps.v ===== *)
(** * Properties of the actor's handlers

    What the commands of the actor achieve end to end: a full ETP brings the map
    in line with what the neighbour tells, junk costs the arc, the bootstrap
    gate, the debounce of cost changes, the choice of arc ids, the answer to a
    request for the full ETP. *)
From stdpp Require Import strings.
From S2P Require Import Prelude Addressing Fingerprint QspnPath QspnConfig QspnValidate.
From S2P Require Import QspnRevise QspnState QspnUpdateMap QspnConnectivity QspnFlood QspnActor.
From S2P Require Import QspnActorSafety QspnSystem QspnExample.

(** ** Lemmas *)
Section Lemmas.
Context `{HashOrder} (calculate_threshold : RoutePath → RoutePath → Z) (t : Topology).
Implicit Types ac : Actor.

Lemma accepted_iff s m :
  state_wf s → message_typed m → accepted s m ↔ check_incoming_message m (st_my_naddr s) = Ok true.
Proof.
  intros Hs Hm. destruct (check_incoming_Ok m s Hs Hm) as (b & -> & Hb). unfold accepted.
  split; [intros [_ Ha]; f_equal; by apply Hb|]. intros [= ->]. split; [done|]. by apply Hb.
Qed.




(** *** Runs *)
Lemma bind_run {A B} (m : M A) (f : A → M B) ac ac1 e1 a ac2 e2 b :
  m ac = Ok (ac1, e1, a) → f a ac1 = Ok (ac2, e2, b) → (m ≫= f) ac = Ok (ac2, e1 ++ e2, b).
Proof. intros Hm Hf. unfold mbind, M_bind. by rewrite Hm, Hf. Qed.

Lemma publish_snapshot_run ac :
  state_wf (ac_state ac) → ∃ snap, publish_snapshot ac = Ok (ac, [Publish snap], tt).
Proof.
  intros Hs. destruct (snapshot_Ok (ac_state ac) Hs) as [snap Hsnap]. exists snap.
  unfold publish_snapshot, mbind, M_bind, reads, as_result, id. cbn. by rewrite Hsnap.
Qed.

Lemma when_publish_run (b : bool) ac :
  state_wf (ac_state ac) → ∃ es, when b publish_snapshot ac = Ok (ac, es, tt) ∧ spawned es = [].
Proof.
  intros Hs. destruct (publish_snapshot_run ac Hs) as [snap Hp]. destruct b; cbn; [|by eexists].
  eexists. split; [done|]. done.
Qed.

Lemma do_remove_arc_run arc b ac :
  state_wf (ac_state ac) →
  let s' := (remove_arc (ac_state ac) arc).1 in
  ∃ es, do_remove_arc arc b ac = Ok (mkActor s' (arc_gather_window ac), es, tt) ∧ Emit (ArcRemoved arc b) ∈ es ∧
    spawned es = match ra_dead_paths (remove_arc (ac_state ac) arc).2 with
                 | [] => [] | dead => [TGather (arc_ids s') None dead] end.
Proof.
  intros Hs s'. pose proof (remove_arc_wf (ac_state ac) arc Hs) as Hw.
  destruct (when_publish_run (non_empty (ra_events (remove_arc (ac_state ac) arc).2)) (mkActor s' (arc_gather_window ac)) Hw)
    as (es & Hpub & Hes).
  unfold do_remove_arc. eexists. split.
  { eapply bind_run; [unfold modify; by rewrite (surjective_pairing (remove_arc (ac_state ac) arc))|].
    eapply bind_run; [done|]. eapply bind_run; [done|]. eapply bind_run; [exact Hpub|].
    instantiate (1 := match ra_dead_paths (remove_arc (ac_state ac) arc).2 with
                 | [] => [] | dead => [Spawn (TGather (arc_ids s') None dead)] end).
    by destruct (ra_dead_paths _). }
  split; [set_solver|]. rewrite !spawned_app, Hes.
  assert (∀ l, spawned (Emit <$> l) = []) as -> by (induction l; done). cbn. by destruct (ra_dead_paths _).
Qed.

Lemma do_exit_bootstrap_run ac :
  state_wf (ac_state ac) →
  ∃ snap, do_exit_bootstrap ac = Ok (mkActor (exit_bootstrap (ac_state ac)) (arc_gather_window ac),
    [Publish snap; Emit BootstrapComplete; Spawn TPeriodic; Spawn (TExitBootstrapGather (arc_ids (ac_state ac)))], tt).
Proof.
  intros Hs. destruct (publish_snapshot_run (mkActor (exit_bootstrap (ac_state ac)) (arc_gather_window ac))
    (exit_bootstrap_wf _ Hs)) as [snap Hp]. exists snap.
  unfold do_exit_bootstrap, mbind, M_bind, modify. cbn. by rewrite Hp.
Qed.

(** *** The bootstrap gate *)
Definition qualifies (s : QspnState) (guest host : nat) (m : EtpMessage) : Prop :=
  (∃ v, hcoord (st_my_naddr s) (em_node_address m) = Ok (Some v) ∧ hc_level v < guest) ∧
  ∃ p h, p ∈ em_paths m ∧ last (ep_hops p) = Some h ∧ S (hc_level h) = host.

Lemma reaches_host_spec l paths :
  ∃ b, reaches_host (S l) paths = Ok b ∧
    (b = true ↔ ∃ p h, p ∈ paths ∧ last (ep_hops p) = Some h ∧ S (hc_level h) = S l).
Proof.
  induction paths as [|p ps (b & IH & Hb)]; cbn.
  { exists false. split; [done|]. split; [done|]. by intros (p & h & ?%elem_of_nil & _). }
  destruct (last (ep_hops p)) as [h|] eqn:Hl.
  - destruct (Nat.eqb_spec (hc_level h) l) as [E|E].
    + exists true. split; [done|]. split; [|done]. intros _. exists p, h. split_and!; [by left|done|lia].
    + exists b. split; [done|]. rewrite Hb. split.
      * intros (q & k & ? & ? & ?). exists q, k. split_and!; [by right|done..].
      * intros (q & k & [->|Hq]%elem_of_cons & Hk & Heq); [simplify_eq; lia|eauto].
  - exists b. split; [done|]. rewrite Hb. split.
    + intros (q & k & ? & ? & ?). exists q, k. split_and!; [by right|done..].
    + intros (q & k & [->|Hq]%elem_of_cons & Hk & Heq); [congruence|eauto].
Qed.

Lemma bootstrap_gate_run ac guest host m :
  state_wf (ac_state ac) → st_bootstrap (ac_state ac) = InProgress guest host → 0 < host → accepted (ac_state ac) m →
  ∃ b, bootstrap_gate m ac = Ok (ac, [], b) ∧ (b = true ↔ qualifies (ac_state ac) guest host m).
Proof.
  intros Hs Hb Hh (Htyp & Htop & Hne & _).
  destruct (sender_coordinate (st_my_naddr (ac_state ac)) m (sw_naddr _ Hs) Htyp Htop Hne) as (v & Hv & _).
  unfold bootstrap_gate, qualifies, mbind, M_bind, reads, as_result, infallible, id, host_gnode_level, guest_gnode_level.
  rewrite Hb. cbn. rewrite Hv. cbn. destruct host as [|l]; [lia|].
  destruct (Nat.leb_spec guest (hc_level v)) as [Hge|Hlt].
  - exists false. split; [done|]. split; [done|]. intros [(v' & ? & ?) _]. simplify_eq. lia.
  - destruct (reaches_host_spec l (em_paths m)) as (b & -> & Hr). exists b. split; [done|]. rewrite Hr. naive_solver.
Qed.

(** *** Cost changes *)
Definition trailing (rest : list (ArcId * Cost)) (ac : Actor) : list Task :=
  match last rest with
  | None => []
  | Some (a, _) => [TGather (arc_ids (ac_state ac)) (Some a) []; TArcGatherWindow]
  end.

Lemma contains_arc_set_cost s a b c : contains_arc s a = true → contains_arc (set_arc_cost s b c) a = true.
Proof.
  rewrite !contains_arc_true. unfold set_arc_cost. destruct (st_arcs s !! b) eqn:Hb; [|done]. cbn. intros [e He].
  destruct (decide (a = b)) as [->|]; [rewrite lookup_insert_eq|rewrite lookup_insert_ne by done]; by eexists.
Qed.

Lemma set_arc_cost_bootstrap s a c : is_bootstrap_complete (set_arc_cost s a c) = is_bootstrap_complete s.
Proof. unfold set_arc_cost. by destruct (_ !! _). Qed.

Lemma arc_changed_run a c ac :
  contains_arc (ac_state ac) a = true → is_bootstrap_complete (ac_state ac) = true →
  let s' := set_arc_cost (ac_state ac) a c in
  handle_arc_changed a c ac = match arc_gather_window ac with
    | None => Ok (mkActor s' (Some (mkPendingArcGather a false)),
        [Reply (ADone (inr tt)); Spawn (TGather (arc_ids s') (Some a) []); Spawn TArcGatherWindow], tt)
    | Some _ => Ok (mkActor s' (Some (mkPendingArcGather a true)), [Reply (ADone (inr tt))], tt)
    end.
Proof.
  intros Ha Hb s'. unfold handle_arc_changed, mbind, M_bind, reads. rewrite Ha. cbn.
  rewrite set_arc_cost_bootstrap, Hb. cbn. unfold request_arc_gather, mbind, M_bind, get_window. cbn.
  by destruct (arc_gather_window ac).
Qed.

(** Further changes while the window is open only mark it. *)
Lemma arc_changes_open rest ac p :
  arc_gather_window ac = Some p → is_bootstrap_complete (ac_state ac) = true →
  Forall (λ c, contains_arc (ac_state ac) c.1 = true) rest →
  ∃ ac' es, for_each (λ _ c, handle calculate_threshold (ArcChanged c.1 c.2)) tt rest ac = Ok (ac', es, tt) ∧
    spawned es = [] ∧ ac_state ac' = foldl (λ s c, set_arc_cost s c.1 c.2) (ac_state ac) rest ∧
    arc_gather_window ac' = match last rest with Some c => Some (mkPendingArcGather c.1 true) | None => Some p end.
Proof.
  revert ac p. induction rest as [|[a c] rest IH]; intros ac p Hw Hb Hk.
  { exists ac, []. done. }
  apply Forall_cons in Hk as [Ha Hk]. cbn in Ha. pose proof (arc_changed_run a c ac Ha Hb) as Hrun. rewrite Hw in Hrun.
  destruct (IH (mkActor (set_arc_cost (ac_state ac) a c) (Some (mkPendingArcGather a true))) (mkPendingArcGather a true))
    as (ac' & es & Hrest & Hsp & Hst & Hwin); [done|by cbn; rewrite set_arc_cost_bootstrap| |].
  { eapply Forall_impl; [exact Hk|]. intros x. apply contains_arc_set_cost. }
  eexists ac', _. split; [cbn [for_each]; eapply bind_run; [exact Hrun|exact Hrest]|]. split_and!; [by rewrite spawned_app, Hsp|done|].
  rewrite Hwin. destruct rest as [|x rest]; [done|]. rewrite last_cons_cons. by destruct (last (x :: rest)) eqn:E; [|apply last_None in E].
Qed.

(** *** Free arc ids *)
Lemma first_free_exists s draws :
  NoDup draws → size (st_arcs s) < length draws →
  ∃ arc, first_free s draws = Some arc ∧ arc ∈ draws ∧ st_arcs s !! arc = None.
Proof.
  intros Hnd Hlen. unfold first_free. destruct (find _ draws) as [arc|] eqn:Hf.
  - exists arc. apply find_Some_iff in Hf as [Hin Hno]. split_and!; [done..|].
    apply negb_true_iff in Hno. destruct (st_arcs s !! arc) eqn:E; [|done].
    assert (contains_arc s arc = true) by (apply contains_arc_true; by eexists). congruence.
  - exfalso. rewrite find_None_iff in Hf.
    assert (list_to_set draws ⊆ dom (st_arcs s)) as Hsub%subseteq_size.
    { intros a Ha%elem_of_list_to_set. apply Hf, negb_false_iff, contains_arc_true in Ha. by apply elem_of_dom. }
    rewrite size_list_to_set, size_dom in Hsub by done. lia.
Qed.

(** *** The answer to a request *)
Definition requested (s : QspnState) (b : HCoord) : list EtpPath :=
  (λ np, prepare_for_sending np (arc_cost s (np_arc np))) <$>
    retain (λ np, negb (contains b (ep_hops (np_path np))))
      (concat (all_paths_at s <$> seq (hc_level b) (st_levels s - hc_level b))).

Lemma elem_of_requested s b p :
  state_wf s →
  p ∈ requested s b ↔ ∃ d np, in_map s d np ∧ hc_level b ≤ hc_level d ∧ (b ∉ ep_hops (np_path np)) ∧
    p = prepare_for_sending np (arc_cost s (np_arc np)).
Proof.
  intros Hs. unfold requested. rewrite list_elem_of_fmap. setoid_rewrite elem_of_retain.
  setoid_rewrite elem_of_concat_fmap. setoid_rewrite elem_of_seq. setoid_rewrite negb_true_iff.
  setoid_rewrite contains_false. split.
  - intros (np & -> & (l & Hl & [pos Hin]%all_paths_at_in_map) & Hno). exists (mkHCoord l pos), np.
    split_and!; [done|cbn; lia|done..].
  - intros ([l pos] & np & Hin & Hle & Hno & ->). exists np. split_and!; [done| |done]. exists l.
    destruct (in_map_admitted s _ np Hs Hin) as [Hw _]. apply np_wf_level in Hw. cbn in *. unfold st_levels.
    split; [lia|]. apply all_paths_at_in_map. eauto.
Qed.

Lemma requested_wf s b : state_wf s → Forall (sendable_wf (na_topology (st_my_naddr s))) (requested s b).
Proof.
  intros Hs. apply Forall_forall. intros p (d & np & Hin & _ & _ & ->)%elem_of_requested; [|done].
  exists d. eapply sendable_admitted; [by apply in_map_admitted|by apply arc_cost_wf].
Qed.

Lemma get_full_etp_run ac arc a b :
  state_wf (ac_state ac) → is_bootstrap_complete (ac_state ac) = true → contains_arc (ac_state ac) arc = true →
  hcoord (st_my_naddr (ac_state ac)) a = Ok (Some b) →
  ∃ ps, handle_inbound_get_full_etp arc a ac = Ok (ac, [], inr (outgoing (ac_state ac) [] ps)) ∧
    Forall2 (flagged (ac_state ac)) (requested (ac_state ac) b) ps.
Proof.
  intros Hs Hb Hk Hc.
  destruct (finalize_for_sending_spec (ac_state ac) (na_topology (st_my_naddr (ac_state ac))) (requested (ac_state ac) b) Hs (requested_wf _ b Hs)) as (ps & Hf & Hfl).
  exists ps. split; [|done]. unfold handle_inbound_get_full_etp, build_etp, mbind, M_bind, reads, id, as_result, infallible.
  rewrite Hb, Hk. cbn [negb]. rewrite Hc. cbn [map_err]. fold (requested (ac_state ac) b). rewrite Hf.
  rewrite prepare_new_etp_Ok by done. done.
Qed.

(** A message of this node, with real hops, is accepted elsewhere. *)
Lemma msg_ok_accepted m other :
  msg_ok t m → naddr_wf other → na_topology other = t → other ≠ em_node_address m →
  hops_real t (em_hops m) → Forall (λ p, hops_real t (ep_hops p)) (em_paths m) →
  check_incoming_message m other = Ok true.
Proof.
  intros [Htyp Htop _ Hval] Ho Hto Hne Hh Hp.
  apply (decides_true _ _ (check_incoming_decides m other (proj1 Htyp) Ho)). rewrite Hto. auto.
Qed.
End Lemmas.

(** ** Properties *)
Section Properties.
Context `{HashOrder} (calculate_threshold : RoutePath → RoutePath → Z) (t : Topology).
Implicit Types ac : Actor.


(** Junk costs the arc.  A message that fails the incoming check is answered
    with success, its arc is removed and reported as removed without a bad link,
    nothing else of the state changes, and the paths that died are gathered
    again exactly when there are any. *)
Theorem junk_removes_the_arc ac arc m full :
  Inv t ac → is_Some (st_arcs (ac_state ac) !! arc) → message_typed m →
  check_incoming_message m (st_my_naddr (ac_state ac)) ≠ Ok true →
  let s' := (remove_arc (ac_state ac) arc).1 in
  ∃ es, handle calculate_threshold (SendEtp arc m full) ac =
      Ok (mkActor s' (arc_gather_window ac), es ++ [Reply (ADone (inr tt))], tt) ∧
    Emit (ArcRemoved arc false) ∈ es ∧
    spawned es = match ra_dead_paths (remove_arc (ac_state ac) arc).2 with
                 | [] => [] | dead => [TGather (arc_ids s') None dead] end.
Proof.
  intros Hi Harc Hm Hc s'. pose proof (inv_wf _ _ Hi) as Hs.
  destruct (check_incoming_Ok m (ac_state ac) Hs Hm) as (b & Hb & _).
  destruct b; [done|]. destruct (do_remove_arc_run arc false ac Hs) as (es & Hrun & Hin & Hsp).
  exists es. split; [|done]. cbn [handle]. eapply bind_run; [|done].
  unfold handle_inbound_send_etp, check_and_remove_on_junk, mbind, M_bind, reads, infallible, id.
  rewrite (proj2 (contains_arc_true _ _)) by done. cbn [negb]. rewrite Hb, Hrun. cbn. by rewrite !app_nil_r.
Qed.

(** The bootstrap gate.  While the identity bootstraps, a valid ETP that does
    not come from inside the guest g-node, or tells of nothing at the level of
    the host g-node, leaves the actor exactly as it was; one that does ends the
    bootstrap phase: the completion is reported, the periodic flood starts and
    the whole neighbourhood is gathered. *)
Theorem bootstrap_gate_exact ac guest host arc m full :
  Inv t ac → st_bootstrap (ac_state ac) = InProgress guest host → is_Some (st_arcs (ac_state ac) !! arc) →
  message_typed m → check_incoming_message m (st_my_naddr (ac_state ac)) = Ok true →
  (¬ qualifies (ac_state ac) guest host m ∧
     handle calculate_threshold (SendEtp arc m full) ac = Ok (ac, [Reply (ADone (inr tt))], tt)) ∨
  (qualifies (ac_state ac) guest host m ∧
     ∃ ac' es, handle calculate_threshold (SendEtp arc m full) ac = Ok (ac', es, tt) ∧ Inv t ac' ∧
       is_bootstrap_complete (ac_state ac') = true ∧ Emit BootstrapComplete ∈ es ∧ Spawn TPeriodic ∈ es ∧
       Spawn (TExitBootstrapGather (arc_ids (ac_state ac'))) ∈ es).
Proof.
  intros Hi Hb Harc Hm Hc. pose proof (inv_wf _ _ Hi) as Hs.
  assert (accepted (ac_state ac) m) as Hacc by (by apply accepted_iff).
  pose proof (inv_bootstrap _ _ Hi) as Hbw. unfold bootstrap_wf in Hbw. rewrite Hb in Hbw.
  destruct (bootstrap_gate_run ac guest host m Hs Hb) as (b & Hg & Hq); [lia|done|].
  assert (∀ ac' es, when b (_ ← ingest_checked_etp calculate_threshold arc m full; do_exit_bootstrap) ac = Ok (ac', es, tt) →
    handle calculate_threshold (SendEtp arc m full) ac = Ok (ac', es ++ [Reply (ADone (inr tt))], tt)) as Hrun.
  { intros ac' es Hw. cbn [handle]. eapply bind_run; [|done]. unfold handle_inbound_send_etp, check_and_remove_on_junk.
    unfold mbind, M_bind, reads, infallible, id in *. rewrite (proj2 (contains_arc_true _ _)) by done. cbn [negb].
    rewrite Hc. cbn. assert (is_bootstrap_complete (ac_state ac) = false) as -> by (unfold is_bootstrap_complete; by rewrite Hb).
    cbn. rewrite Hg, Hw. cbn. by rewrite ?app_nil_r. }
  destruct b; [right|left].
  - split; [by apply Hq|].
    destruct (wp_ingest_checked_etp calculate_threshold t arc m full ac (λ _, Inv t) Hi Harc Hacc) as (ac1 & es1 & o & Hi1 & _ & Hinv1); [done|].
    destruct (do_exit_bootstrap_run ac1 (inv_wf _ _ Hinv1)) as [snap He].
    eexists _, _. split; [apply Hrun; cbn [when]; eapply bind_run; [exact Hi1|exact He]|].
    split_and!; [|done|set_solver..].
    eapply Inv_with; [exact Hinv1|apply exit_bootstrap_wf, Hinv1|done|by right].
  - split; [by rewrite <-Hq|]. by apply (Hrun ac []).
Qed.

(** Cost changes are debounced.  From a closed window, any burst of cost
    changes of known arcs records every cost and starts one gather and one
    window; when the window elapses a second gather runs exactly when more than
    one change came, for the arc that changed last, and the window opens again. *)
Theorem arc_changes_debounced ac a0 c0 rest :
  arc_gather_window ac = None → is_bootstrap_complete (ac_state ac) = true →
  Forall (λ c, contains_arc (ac_state ac) c.1 = true) ((a0, c0) :: rest) →
  ∃ ac' es ac'' es'',
    for_each (λ _ c, handle calculate_threshold (ArcChanged c.1 c.2)) tt ((a0, c0) :: rest) ac = Ok (ac', es, tt) ∧
    ac_state ac' = foldl (λ s c, set_arc_cost s c.1 c.2) (ac_state ac) ((a0, c0) :: rest) ∧
    spawned es = [TGather (arc_ids (set_arc_cost (ac_state ac) a0 c0)) (Some a0) []; TArcGatherWindow] ∧
    handle calculate_threshold ArcGatherWindowElapsed ac' = Ok (ac'', es'', tt) ∧
    ac_state ac'' = ac_state ac' ∧ spawned es'' = trailing rest ac'.
Proof.
  intros Hw Hb Hk. apply Forall_cons in Hk as [Ha Hk]. cbn in Ha.
  pose proof (arc_changed_run a0 c0 ac Ha Hb) as Hrun. rewrite Hw in Hrun.
  destruct (arc_changes_open calculate_threshold rest (mkActor (set_arc_cost (ac_state ac) a0 c0) (Some (mkPendingArcGather a0 false))) (mkPendingArcGather a0 false))
    as (ac' & es & Hrest & Hsp & Hst & Hwin); [done|by cbn; rewrite set_arc_cost_bootstrap| |].
  { eapply Forall_impl; [exact Hk|]. intros x. apply contains_arc_set_cost. }
  assert (∃ ac'' es'', handle calculate_threshold ArcGatherWindowElapsed ac' = Ok (ac'', es'', tt) ∧
    ac_state ac'' = ac_state ac' ∧ spawned es'' = trailing rest ac') as (ac'' & es'' & He & Hs'' & Ht).
  { unfold trailing. cbn [handle]. unfold handle_arc_gather_window_elapsed, mbind, M_bind, get_window. cbn. rewrite Hwin.
    destruct (last rest) as [[a c]|]; cbn; by eexists _, _. }
  eexists ac', _, ac'', es''. split_and!; [cbn [for_each]; eapply bind_run; [exact Hrun|exact Hrest]|done| |done..].
  by rewrite spawned_app, Hsp.
Qed.

(** A new arc gets an id no arc has.  Once the id source has yielded more
    distinct values than there are arcs, the draw has ended; the arc enters the
    table with its cost and no known peer, its id is the answer, nothing else of
    the state changes, and the neighbour's full ETP is fetched, as an ordinary
    or as a bootstrap fetch. *)
Theorem add_arc_fresh ac cost draws :
  NoDup draws → size (st_arcs (ac_state ac)) < length draws →
  ∃ arc, arc ∈ draws ∧ st_arcs (ac_state ac) !! arc = None ∧
    handle calculate_threshold (AddArc cost draws) ac =
      Ok (mkActor (set_arcs (ac_state ac) (<[arc := mkArcEntry cost None]> (st_arcs (ac_state ac)))) (arc_gather_window ac),
          [Reply (AnArc arc);
           Spawn (if is_bootstrap_complete (ac_state ac) then TFetchNewArc arc else TBootstrapFetch arc)], tt).
Proof.
  intros Hnd Hlen. destruct (first_free_exists (ac_state ac) draws Hnd Hlen) as (arc & Hf & Hin & Hno).
  exists arc. split_and!; [done..|]. cbn [handle]. unfold handle_add_arc, mbind, M_bind, reads, id. rewrite Hf. cbn.
  unfold is_bootstrap_complete. cbn. by destruct (st_bootstrap (ac_state ac)).
Qed.

(** The answer to a request for the full ETP.  The actor does not change.  It
    is refused while bootstrapping and to a stranger; otherwise the answer holds
    exactly the paths of the map at or above the level where the requester
    diverges that do not cross the requester's g-node, with this node's cost
    added, and the answer passes the incoming check of the requester when its
    hops are real. *)
Theorem get_full_etp_exact ac arc a :
  Inv t ac → naddr_wf a → na_topology a = t → a ≠ st_my_naddr (ac_state ac) →
  let s := ac_state ac in
  ∃ r, handle calculate_threshold (GetFullEtp arc a) ac = Ok (ac, [Reply (AEtp r)], tt) ∧
    (is_bootstrap_complete s = false → r = inl BootstrapInProgress) ∧
    (is_bootstrap_complete s = true → contains_arc s arc = false → r = inl NotAnArc) ∧
    (is_bootstrap_complete s = true → contains_arc s arc = true →
      ∃ m b, r = inr m ∧ hcoord (st_my_naddr s) a = Ok (Some b) ∧
        (∀ hops arcs, (∃ p, p ∈ em_paths m ∧ ep_hops p = hops ∧ ep_arcs p = arcs) ↔
          (∃ d np, in_map s d np ∧ hc_level b ≤ hc_level d ∧ (b ∉ ep_hops (np_path np)) ∧
            ep_hops (np_path np) = hops ∧ ep_arcs (np_path np) = arcs)) ∧
        (Forall (λ p, hops_real t (ep_hops p)) (em_paths m) → check_incoming_message m a = Ok true)).
Proof.
  intros Hi Ha Hta Hne s. pose proof (inv_wf _ _ Hi) as Hs. fold s in Hs.
  assert (∀ r, handle_inbound_get_full_etp arc a ac = Ok (ac, [], r) →
    handle calculate_threshold (GetFullEtp arc a) ac = Ok (ac, [Reply (AEtp r)], tt)) as Hrun.
  { intros r Hr. cbn [handle]. by eapply (bind_run _ _ ac ac []). }
  destruct (is_bootstrap_complete s) eqn:Hb.
  2: { exists (inl BootstrapInProgress). split; [|done]. apply Hrun.
       unfold handle_inbound_get_full_etp, mbind, M_bind, reads, id. fold s. by rewrite Hb. }
  destruct (contains_arc s arc) eqn:Hk.
  2: { exists (inl NotAnArc). split; [|done]. apply Hrun.
       unfold handle_inbound_get_full_etp, mbind, M_bind, reads, id. fold s. by rewrite Hb, Hk. }
  destruct (hcoord_cases (st_my_naddr s) a) as [[Heq _]|(b & Hbc & _)];
    [apply Hs|done|rewrite Hta; exact (inv_topology _ _ Hi)|by destruct Hne|].
  destruct (get_full_etp_run ac arc a b Hs Hb Hk Hbc) as (ps & Hr & Hfl). fold s in Hr, Hfl.
  exists (inr (outgoing s [] ps)). split_and!; [by apply Hrun|done|done|intros _ _].
  exists (outgoing s [] ps), b. split_and!; [done..| |].
  - intros hops arcs. cbn. split.
    + intros (p & [i Hp]%list_elem_of_lookup & <- & <-). eapply Forall2_lookup_r in Hfl as (q & Hq & Hpq); [|exact Hp].
      rewrite (fl_path _ _ _ Hpq). cbn. apply list_elem_of_lookup_2, elem_of_requested in Hq as (d & np & ? & ? & ? & ->); [|done].
      by exists d, np.
    + intros (d & np & Hin & Hle & Hno & <- & <-).
      assert (prepare_for_sending np (arc_cost s (np_arc np)) ∈ requested s b) as [i Hq]%list_elem_of_lookup
        by (apply elem_of_requested; [done|]; eauto 6).
      eapply Forall2_lookup_l in Hfl as (p & Hp & Hpq); [|exact Hq]. exists p.
      split; [by eapply list_elem_of_lookup_2|]. by rewrite (fl_path _ _ _ Hpq).
  - intros Hreal. apply (msg_ok_accepted t); [|done..|by intros ? ?%elem_of_nil|done].
    eapply outgoing_ok; [done|apply Hi| |exact Hfl|done]. rewrite <-(inv_topology _ _ Hi). by apply requested_wf.
Qed.
End Properties.

(** ** Witnesses *)
#[local] Existing Instance map_order.

Definition ex_threshold : RoutePath → RoutePath → Z := λ _ _, 1000%Z.
Definition ex_actor : Actor := mkActor ex_state None.

Lemma ex_actor_inv : Inv ex_topology ex_actor.
Proof. constructor; [apply ex_state_wf|reflexivity|exact I]. Qed.


(** A message that claims this node's own address. *)
Definition ex_junk : EtpMessage := mkEtpMessage ex_my (ex_chain 2) [1; 1; 1]%Z [] [ex_to_gnode].

Lemma ex_junk_typed : message_typed ex_junk.
Proof. destruct ex_etp_typed as (_ & ? & ? & ?). split_and!; [apply ex_my_wf|done..]. Qed.

Lemma junk_removes_the_arc_witness :
  ∃ es, handle ex_threshold (SendEtp 7 ex_junk false) ex_actor =
      Ok (mkActor (remove_arc ex_state 7).1 None, es ++ [Reply (ADone (inr tt))], tt) ∧ Emit (ArcRemoved 7 false) ∈ es.
Proof.
  destruct (junk_removes_the_arc ex_threshold ex_topology ex_actor 7 ex_junk false) as (es & Hh & He & _).
  - apply ex_actor_inv.
  - vm_compute. by eexists.
  - apply ex_junk_typed.
  - vm_compute. discriminate.
  - exists es. split; [exact Hh|exact He].
Defined.

(** The same node while it enters a network. *)
Definition ex_entering : Actor := mkActor (set_bootstrap ex_state (InProgress 1 2)) None.

Lemma ex_entering_inv : Inv ex_topology ex_entering.
Proof.
  constructor; [|reflexivity|vm_compute; split; lia]. destruct ex_state_wf. by constructor.
Qed.

Lemma bootstrap_gate_exact_witness :
  qualifies (ac_state ex_entering) 1 2 ex_etp ∧
  ∃ ac' es, handle ex_threshold (SendEtp 7 ex_etp true) ex_entering = Ok (ac', es, tt) ∧
    is_bootstrap_complete (ac_state ac') = true ∧ Emit BootstrapComplete ∈ es.
Proof.
  assert (qualifies (ac_state ex_entering) 1 2 ex_etp) as Hq.
  { split; [exists ex_v; split; [reflexivity|cbn; lia]|]. exists ex_to_gnode, ex_g. split_and!; [by left|reflexivity|reflexivity]. }
  split; [exact Hq|].
  destruct (bootstrap_gate_exact ex_threshold ex_topology ex_entering 1 2 7 ex_etp true) as [[Hn _]|(_ & ac' & es & Hh & _ & Hb & He & _)].
  - apply ex_entering_inv.
  - reflexivity.
  - vm_compute. by eexists.
  - apply ex_etp_typed.
  - reflexivity.
  - by destruct Hn.
  - exists ac', es. split_and!; [exact Hh|exact Hb|exact He].
Defined.

Lemma arc_changes_debounced_witness :
  ∃ ac' es ac'' es'',
    for_each (λ _ c, handle ex_threshold (ArcChanged c.1 c.2)) tt [(7%Z, Finite 11); (8%Z, Finite 12)] ex_actor = Ok (ac', es, tt) ∧
    length (spawned es) = 2 ∧ handle ex_threshold ArcGatherWindowElapsed ac' = Ok (ac'', es'', tt) ∧ length (spawned es'') = 2.
Proof.
  destruct (arc_changes_debounced ex_threshold ex_actor 7 (Finite 11) [(8%Z, Finite 12)])
    as (ac' & es & ac'' & es'' & Hr & _ & Hs & He & _ & Hs'').
  - reflexivity.
  - reflexivity.
  - repeat constructor.
  - exists ac', es, ac'', es''. rewrite Hs, Hs''. split_and!; [exact Hr|reflexivity|exact He|reflexivity].
Defined.

Lemma add_arc_fresh_witness :
  ∃ arc ac' es, arc ∈ [7; 8; 9]%Z ∧ st_arcs ex_state !! arc = None ∧
    handle ex_threshold (AddArc (Finite 5) [7; 8; 9]%Z) ex_actor = Ok (ac', Reply (AnArc arc) :: es, tt).
Proof.
  destruct (add_arc_fresh ex_threshold ex_actor (Finite 5) [7; 8; 9]%Z) as (arc & Hin & Hno & Hh).
  - repeat (apply NoDup_cons; split; [intros Hx; repeat (apply elem_of_cons in Hx as [Hx|Hx]; [discriminate Hx|]); by apply elem_of_nil in Hx|]).
    constructor.
  - vm_compute. lia.
  - eexists arc, _, _. split_and!; [exact Hin|exact Hno|exact Hh].
Defined.

Lemma get_full_etp_exact_witness :
  ∃ m, handle ex_threshold (GetFullEtp 8 (mkNaddr ex_topology [1; 3]%Z)) ex_actor = Ok (ex_actor, [Reply (AEtp (inr m))], tt) ∧
    ∃ p, p ∈ em_paths m ∧ ep_hops p = [ex_v; ex_g].
Proof.
  destruct (get_full_etp_exact ex_threshold ex_topology ex_actor 8 (mkNaddr ex_topology [1; 3]%Z)) as (r & Hh & _ & _ & Hok).
  - apply ex_actor_inv.
  - apply ex_naddr_wf; by apply ex_u32.
  - reflexivity.
  - discriminate.
  - destruct Hok as (m & b & -> & Hb & Hp & _); [reflexivity|reflexivity|]. exists m. split; [exact Hh|].
    destruct (proj2 (Hp [ex_v; ex_g] [7; 9]%Z)) as (p & Hin & Hhops & _).
    + exists ex_g, (mkNodePath 7 (np_path ex_np_gnode) true). vm_compute in Hb. injection Hb as <-.
      split_and!; [apply ex_in_map|cbn; lia| |reflexivity|reflexivity].
      intros Hx. repeat (apply elem_of_cons in Hx as [Hx|Hx]; [discriminate Hx|]). by apply elem_of_nil in Hx.
    + exists p. split; [exact Hin|exact Hhops].
Defined.

(** ** A virtual neighbour

    The incoming check accepts a sender at a virtual address (position 9 of 4).
    Its coordinate then becomes a hop of the paths this node keeps and forwards,
    and the other neighbour's incoming check refuses the forwarded message. *)
Definition ex_virtual_etp : EtpMessage :=
  mkEtpMessage (mkNaddr ex_topology [9; 2]%Z) (ex_chain 3) [1; 1; 1]%Z [] [].

Example virtual_sender_forwarded :
  check_incoming_message ex_virtual_etp ex_my = Ok true ∧
  ∃ ac' es msg, handle ex_threshold (SendEtp 8 ex_virtual_etp true) ex_actor = Ok (ac', es, tt) ∧
    spawned es = [TBroadcast [7]%Z msg false] ∧ check_incoming_message msg ex_peer = Ok false.
Proof.
  split; [reflexivity|].
  destruct (handle ex_threshold (SendEtp 8 ex_virtual_etp true) ex_actor) as [[[ac' es] []]|e|] eqn:E;
    [|vm_compute in E; discriminate E..].
  vm_compute in E. injection E as _ <-. eexists _, _, _. split_and!; reflexivity.
Qed.

(** A virtual sender.  When the sender's coordinate, seen from here, is
    virtual and its message is not refused, every message that forwards the
    revised hops fails the incoming check of every node of the topology, so
    that the neighbours of this node drop their arc to it. *)
Theorem virtual_sender_refused my m arc old full existing r v g m' my' :
  revise_etp my m arc old full existing = Ok r →
  hcoord my (em_node_address m) = Ok (Some v) →
  topology_gsize (na_topology my) (hc_level v) = Some g → (g ≤ hc_pos v)%Z →
  naddr_wf (em_node_address m') → naddr_wf my' → na_topology my' = na_topology my →
  em_hops m' = re_hops r →
  check_incoming_message m' my' = Ok false.
Proof.
  intros Hr Hv Hg Hpos Hwf Hwf' Ht Hh. apply revise_etp_hops in Hr as (v' & Hv' & Hr).
  assert (v' = v) as -> by congruence.
  destruct (check_incoming_decides m' my' Hwf Hwf') as ([] & -> & Hb); [|done].
  destruct (proj1 Hb eq_refl) as (_ & _ & Hval & _). rewrite Hh, Hr, Ht in Hval.
  destruct Hval as (_ & _ & (g' & Hg' & Hlt) & _). assert (g' = g) as -> by congruence. lia.
Qed.

Lemma virtual_sender_refused_witness :
  ∃ r m', revise_etp ex_my ex_virtual_etp 8 None false [] = Ok r ∧
    em_hops m' = re_hops r ∧ check_incoming_message m' ex_peer = Ok false.
Proof.
  destruct (revise_etp ex_my ex_virtual_etp 8 None false []) as [r|e|] eqn:E;
    [|vm_compute in E; discriminate E..].
  exists r, (mkEtpMessage ex_my (ex_chain 1) [1; 1; 1]%Z (re_hops r) []). split_and!; [done..|].
  apply (virtual_sender_refused ex_my ex_virtual_etp 8 None false [] r (mkHCoord 0 9) 4).
  - exact E.
  - reflexivity.
  - reflexivity.
  - cbn. lia.
  - apply ex_my_wf.
  - apply ex_peer_wf.
  - reflexivity.
  - reflexivity.
Defined.

(** ** A wrong number of node counts

    The incoming check does not look at the node counts.  A message with a wrong
    number of them passes it, revision refuses the message as malformed, and the
    arc stays. *)
Definition ex_malformed_etp : EtpMessage := mkEtpMessage ex_peer (ex_chain 2) [1]%Z [] [].

Example malformed_counts_keep_the_arc :
  check_incoming_message ex_malformed_etp ex_my = Ok true ∧
  revision ex_state 7 ex_malformed_etp true =
    Err (MalformedEtp "fingerprints/nodes_inside length must be levels + 1") ∧
  ∃ ac', handle ex_threshold (SendEtp 7 ex_malformed_etp true) ex_actor =
      Ok (ac', [Reply (ADone (inr tt))], tt) ∧ contains_arc (ac_state ac') 7 = true.
Proof.
  split; [reflexivity|]. split; [vm_compute; reflexivity|].
  eexists. split; [vm_compute; reflexivity|reflexivity].
Qed.
