(* ===== verification/QspnSystemProps.v ===== *)
(** * Properties of the running system

    Theorems on every system state reachable from [spawn] or [spawn_entering]
    by any interleaving of [QspnHandle] calls, answers from the network and
    timers, for every iteration order of the hash maps. *)
From stdpp Require Import strings.
From S2P Require Import Prelude Addressing Fingerprint QspnPath QspnConfig QspnValidate.
From S2P Require Import QspnRevise QspnState QspnEnter QspnUpdateMap QspnConnectivity QspnFlood.
From S2P Require Import QspnActor QspnActorSafety QspnSystem QspnBootstrap QspnExample QspnActorProps.

(** ** The phase of the node *)
Lemma handle_bootstrap `{HashOrder} ct cmd ac ac' es :
  handle ct cmd ac = Ok (ac', es, tt) →
  st_bootstrap (ac_state ac') = st_bootstrap (ac_state ac) ∨ st_bootstrap (ac_state ac') = Complete.
Proof.
  intros Hh. destruct (is_timer_command cmd) eqn:Ht; [|by eapply handle_frames, at_bootstrap in Hh].
  left. destruct cmd; try discriminate Ht.
  - apply split_fire_effects in Hh as (-> & _). done.
  - apply elapsed_effects in Hh as (-> & _). done.
Qed.

Lemma run_bootstrap ct t sys0 es sys :
  run ct t sys0 es sys →
  st_bootstrap (ac_state (sy_actor sys)) = st_bootstrap (ac_state (sy_actor sys0)) ∨
  st_bootstrap (ac_state (sy_actor sys)) = Complete.
Proof.
  induction 1 as [|es sys es' sys' Hr IH Hs]; [by left|].
  assert (st_bootstrap (ac_state (sy_actor sys')) = st_bootstrap (ac_state (sy_actor sys)) ∨
    st_bootstrap (ac_state (sy_actor sys')) = Complete) as [->|]; [|done|by right].
  destruct Hs; cbn; [by eapply handle_bootstrap..|by left|by left].
Qed.

Lemma signals_none ts : signals ts = 0 ↔ TBootstrapSignal ∉ ts.
Proof.
  unfold signals. rewrite length_zero_iff_nil. split.
  - intros Hr Hin. assert (TBootstrapSignal ∈ retain is_signal ts) as Hx by (by apply elem_of_retain).
    rewrite Hr in Hx. by apply elem_of_nil in Hx.
  - intros Hn. destruct (retain is_signal ts) as [|tk l] eqn:E; [done|]. exfalso. apply Hn.
    assert (tk ∈ retain is_signal ts) as [Hin Hs]%elem_of_retain by (rewrite E; by left). by destruct tk.
Qed.

(** ** Properties *)
Section Properties.
Context (calculate_threshold : RoutePath → RoutePath → Z) (t : Topology).
Implicit Types sys : Sys.

(** C2: the invariant of every reachable system.  The state is well formed: the
    address, the chain of fingerprints with one entry per level, the arcs, and a
    map of live, loop-free paths through known arcs, one per route, within the
    bound; the node stays in its topology; the pending tasks carry well-formed
    messages. *)
Theorem reachable_invariant sys :
  reachable calculate_threshold t sys →
  state_wf (ac_state (sy_actor sys)) ∧ na_topology (st_my_naddr (ac_state (sy_actor sys))) = t ∧
  bootstrap_wf (ac_state (sy_actor sys)) ∧ Forall (task_wf t) (sy_tasks sys).
Proof. intros [[Hw Ht Hb] Hts _ _ _]%reachable_wf. done. Qed.

(** C1: the actor never panics.  In every reachable system, every command a
    pending task can put on the queue, whatever the network answers, and every
    command of a [QspnHandle] method whose arguments are well formed ([cmd_ok]:
    costs and addresses in range, draws that reach a free arc id, and a delegate
    of [make_connectivity] that yields well-formed addresses, leaves the freed
    position virtual and crosses no path) is handled to the end: no index out of
    range, no overflow, no failed assertion or expectation. *)
Theorem actor_never_panics `{HashOrder} sys cmd :
  reachable calculate_threshold t sys →
  (is_api cmd = true ∧ cmd_ok t (ac_state (sy_actor sys)) cmd) ∨ (∃ tk, tk ∈ sy_tasks sys ∧ fires tk cmd) →
  ∃ ac' es, handle calculate_threshold cmd (sy_actor sys) = Ok (ac', es, tt) ∧ Inv t ac'.
Proof.
  intros [Hi Hts _ _ _]%reachable_wf Hcmd.
  assert (cmd_ok t (ac_state (sy_actor sys)) cmd) as Hok.
  { destruct Hcmd as [[_ ?]|(tk & Hin & Hf)]; [done|]. eapply fires_cmd_ok; [|exact Hf].
    rewrite Forall_forall in Hts. by apply Hts. }
  destruct (handle_safe calculate_threshold t cmd (sy_actor sys) Hi Hok) as (ac' & es & [] & Hh & _ & Hi').
  eauto.
Qed.

(** What a node sends, its neighbours accept.  A message that waits to be
    sent, and whose hops are real positions, passes the incoming check of every
    other node of the topology. *)
Theorem sent_messages_accepted sys tk m other :
  reachable calculate_threshold t sys → tk ∈ sy_tasks sys →
  (∃ arcs full, tk = TBroadcast arcs m full) ∨ (∃ arc full, tk = TUnicast arc m full ∨ tk = TResend arc m full) →
  naddr_wf other → na_topology other = t → other ≠ em_node_address m →
  hops_real t (em_hops m) → Forall (λ p, hops_real t (ep_hops p)) (em_paths m) →
  check_incoming_message m other = Ok true.
Proof.
  intros [_ Hts _ _ _]%reachable_wf Hin Htk. rewrite Forall_forall in Hts. apply Hts in Hin.
  apply (msg_ok_accepted t). destruct Htk as [(? & ? & ->)|(? & ? & [->| ->])]; exact Hin.
Qed.

(** Timers and state agree.  In every reachable system the gather window is
    open exactly when one window timer is pending, and the pairs of fingerprints
    that await a split check are exactly those of the pending split timers, each
    with one timer. *)
Theorem timers_match_state sys :
  reachable calculate_threshold t sys →
  let ac := sy_actor sys in
  length (retain is_window (sy_tasks sys)) = match arc_gather_window ac with Some _ => 1 | None => 0 end ∧
  NoDup (split_keys (sy_tasks sys)) ∧
  ∀ k, k ∈ st_pending_gnode_split (ac_state ac) ↔
    ∃ d fp_eldest fp th, TSplit d fp_eldest fp th ∈ sy_tasks sys ∧ k = (fp_key fp_eldest, fp_key fp).
Proof.
  intros [_ _ Hw Hn Hs]%reachable_wf. split_and!; [exact Hw|done|]. intros k. rewrite <-Hs.
  unfold split_keys. rewrite list_elem_of_omap. split.
  - intros ([] & Hin & E); try discriminate E. injection E as <-. eauto 6.
  - intros (d & f & g & th & Hin & ->). eauto.
Qed.

(** The bootstrap phase ends once.  Along every run from [spawn] or
    [spawn_entering], [BootstrapComplete] is emitted at most once, and has been
    emitted exactly when the phase is over and no timer still owes it; there are
    as many periodic loops as announcements, so never two of them; and the phase
    is the initial one, with its levels, until it is over for good. *)
Theorem bootstrap_completes_once sys0 es sys :
  sys_init t sys0 → run calculate_threshold t sys0 es sys →
  let phase sys := st_bootstrap (ac_state (sy_actor sys)) in
  completions es ≤ 1 ∧
  (completions es = 1 ↔ phase sys = Complete ∧ TBootstrapSignal ∉ sy_tasks sys) ∧
  periodic_loops (sy_tasks sys) = completions es ∧
  (phase sys = phase sys0 ∨ phase sys = Complete).
Proof.
  intros Hi Hr. destruct (run_phase _ _ _ _ _ Hi Hr) as [Hc Hl]. cbn. split_and!; [lia| |done|by eapply run_bootstrap].
  rewrite <-signals_none. unfold owed, phase_owed in Hc.
  destruct (st_bootstrap _); (split; [intros; split; [done || lia|lia]|intros [? ?]; done || lia]).
Qed.
End Properties.

(** ** Witnesses

    A run: the node is created, gets an arc, and floods its full ETP. *)
#[local] Existing Instance map_order.

Definition ex_run (cmd : Command) (ac : Actor) : Actor * list Effect :=
  match handle ex_threshold cmd ac with Ok (ac', es, _) => (ac', es) | _ => (ac, []) end.

Definition ex_sys0 : Sys := mkSys (mkActor ex_node None) [TBootstrapSignal].
Definition ex_add : Command := AddArc (Finite 10) [7]%Z.
Definition ex_sys1 : Sys :=
  let r := ex_run ex_add (sy_actor ex_sys0) in mkSys r.1 (sy_tasks ex_sys0 ++ spawned r.2).
(** The signal of the created network has fired. *)
Definition ex_sys2 : Sys := mkSys (sy_actor ex_sys1) ([] ++ [TPeriodic] ++ [TFetchNewArc 7]).
Definition ex_sys3 : Sys :=
  let r := ex_run PeriodicFullEtp (sy_actor ex_sys1) in
  mkSys r.1 ([] ++ [TPeriodic] ++ [TFetchNewArc 7] ++ spawned r.2).

Lemma ex_sys0_init : sys_init ex_topology ex_sys0.
Proof.
  apply (init_create ex_topology ex_my (ex_fp 1 0) qspn_config_default ex_node _ [Spawn TBootstrapSignal]).
  - apply ex_my_wf.
  - reflexivity.
  - by apply ex_fp_wf, ex_u32.
  - reflexivity.
  - apply ex_config_u64.
  - vm_compute. lia.
  - apply ex_node_new.
  - reflexivity.
Qed.

Lemma ex_sys1_step : ∃ es, sys_step ex_threshold ex_topology ex_sys0 es ex_sys1.
Proof.
  eexists. eapply step_api with (cmd := ex_add); [reflexivity| |].
  - split; [split; vm_compute; discriminate|by exists 7%Z].
  - vm_compute. reflexivity.
Qed.

Lemma ex_run_signal : ∃ es, run ex_threshold ex_topology ex_sys0 es ex_sys2 ∧ completions es = 1.
Proof.
  destruct ex_sys1_step as [es1 H1]. exists (([] ++ es1) ++ [Emit BootstrapComplete]).
  assert (run ex_threshold ex_topology ex_sys0 (([] ++ es1) ++ [Emit BootstrapComplete]) ex_sys2) as Hr.
  { eapply run_step; [eapply run_step; [apply run_nil|exact H1]|].
    by apply (step_emit ex_threshold ex_topology (sy_actor ex_sys1) [] TBootstrapSignal [TFetchNewArc 7]). }
  split; [exact Hr|]. destruct (run_phase _ _ _ _ _ ex_sys0_init Hr) as [_ <-]. reflexivity.
Qed.

Lemma ex_sys3_reachable : reachable ex_threshold ex_topology ex_sys3.
Proof.
  destruct ex_run_signal as (es & Hr & _). eapply reach_step; [eapply run_reachable; [apply ex_sys0_init|exact Hr]|].
  apply (step_task ex_threshold ex_topology (sy_actor ex_sys1) [] TPeriodic [TFetchNewArc 7] PeriodicFullEtp
    (ex_run PeriodicFullEtp (sy_actor ex_sys1)).1 (ex_run PeriodicFullEtp (sy_actor ex_sys1)).2); [constructor|].
  vm_compute. reflexivity.
Qed.

Lemma reachable_invariant_witness : state_wf (ac_state (sy_actor ex_sys3)).
Proof. apply (reachable_invariant ex_threshold ex_topology ex_sys3), ex_sys3_reachable. Defined.

Lemma actor_never_panics_witness :
  ∃ ac' es, handle ex_threshold (ArcAddFetched 7 (Some ex_etp)) (sy_actor ex_sys3) = Ok (ac', es, tt) ∧ Inv ex_topology ac'.
Proof.
  apply (actor_never_panics ex_threshold ex_topology ex_sys3 (ArcAddFetched 7 (Some ex_etp)) ex_sys3_reachable).
  right. exists (TFetchNewArc 7). split; [right; by left|]. constructor. intros m E. injection E as <-. apply ex_etp_typed.
Defined.

Lemma sent_messages_accepted_witness :
  ∃ m, TBroadcast [7]%Z m true ∈ sy_tasks ex_sys3 ∧ check_incoming_message m ex_peer = Ok true.
Proof.
  assert (∃ m, sy_tasks ex_sys3 !! 2 = Some (TBroadcast [7]%Z m true) ∧ em_hops m = [] ∧ em_paths m = [] ∧ em_node_address m = ex_my)
    as (m & Hm & Hh & Hp & Ha) by (vm_compute; eexists; split_and!; reflexivity).
  exists m. apply list_elem_of_lookup_2 in Hm. split; [exact Hm|].
  apply (sent_messages_accepted ex_threshold ex_topology ex_sys3 (TBroadcast [7]%Z m true) m ex_peer ex_sys3_reachable Hm).
  - left. by exists [7]%Z, true.
  - apply ex_peer_wf.
  - reflexivity.
  - rewrite Ha. discriminate.
  - rewrite Hh. by intros h ?%elem_of_nil.
  - rewrite Hp. constructor.
Defined.

Lemma timers_match_state_witness : NoDup (split_keys (sy_tasks ex_sys3)).
Proof. apply (timers_match_state ex_threshold ex_topology ex_sys3), ex_sys3_reachable. Defined.

Lemma bootstrap_completes_once_witness :
  ∃ es, run ex_threshold ex_topology ex_sys0 es ex_sys2 ∧ completions es = 1 ∧ TBootstrapSignal ∉ sy_tasks ex_sys2.
Proof.
  destruct ex_run_signal as (es & Hr & Hc).
  destruct (bootstrap_completes_once ex_threshold ex_topology ex_sys0 es ex_sys2 ex_sys0_init Hr) as (_ & Hiff & _).
  exists es. split_and!; [exact Hr|exact Hc|]. apply Hiff. exact Hc.
Defined.
