(* ===== verification/PeerTuple.v ===== *)
(** * Peer services: tuples and the key-to-node mapping

    Models [crates/ntk-peerservices/src]: [error.rs], [tuple.rs] (positions of
    nodes and g-nodes inside a scope, their algebra, the distance and
    [approximate]) and [hashnode.rs].

    A [TupleNode] spans the levels [0..top]; a [TupleGNode] the levels
    [level..top].  Their fields are private in Rust: [tn_wf] and [gn_wf] are what
    the constructors establish. *)
From stdpp Require Import strings.
From S2P Require Import Prelude Addressing Fingerprint Domain.

(** ** Errors (error.rs) *)
Inductive PeerError :=
  | TopOutOfRange (top levels : nat)
  | TuplePositionOutOfRange (level : nat) (pos gsize : Z)
  | EmptyGNodeTuple
  | GNodeTupleTooLong (len top : nat)
  | ServiceIdOutOfRange (id : Z)
  | PeerLevelOutOfRange (level levels : nat)
  | InvalidParticipantSet
  | PeerMissingField (field : string)
  | PeerDomain (e : DomainDecodeError)
  | PeerTypeTagMismatch (expected actual : string)
  | PeerDecode.

(** ** Slices *)

(** [&l[a..b]] *)
Definition slice {E A} (l : list A) (a b : nat) : res E (list A) :=
  if (a <=? b) && (b <=? length l) then Ok (take (b - a) (drop a l)) else Panic.

(** ** Tuples *)
Record TupleNode := mkTupleNode { tn_topology : Topology; tn_pos : list Z }.
Record TupleGNode := mkTupleGNode { gn_topology : Topology; gn_top : nat; gn_pos : list Z }.

#[export] Instance TupleNode_eq_dec : EqDecision TupleNode.
Proof. solve_decision. Defined.
#[export] Instance TupleGNode_eq_dec : EqDecision TupleGNode.
Proof. solve_decision. Defined.

(** The range check of both constructors, from [level] upwards. *)
Fixpoint check_tuple (t : Topology) (level : nat) (pos : list Z) : res PeerError unit :=
  match pos with
  | [] => Ok tt
  | p :: pos' =>
      gsize ← expect (topology_gsize t level);
      if (gsize <=? p)%Z then Err (TuplePositionOutOfRange level p gsize)
      else check_tuple t (S level) pos'
  end.

Definition tuple_node_new (t : Topology) (pos : list Z) : res PeerError TupleNode :=
  if topology_levels t <? length pos then Err (TopOutOfRange (length pos) (topology_levels t))
  else _ ← check_tuple t 0 pos; Ok (mkTupleNode t pos).

Definition tn_top (x : TupleNode) : nat := length (tn_pos x).

Definition tuple_gnode_new (t : Topology) (top : nat) (pos : list Z) : res PeerError TupleGNode :=
  match pos with
  | [] => Err EmptyGNodeTuple
  | _ =>
      if topology_levels t <? top then Err (TopOutOfRange top (topology_levels t))
      else if top <? length pos then Err (GNodeTupleTooLong (length pos) top)
      else _ ← check_tuple t (top - length pos) pos; Ok (mkTupleGNode t top pos)
  end.

Definition gn_level (g : TupleGNode) : nat := gn_top g - length (gn_pos g).

(** [TupleGNode::hcoord] *)
Definition gn_hcoord {E} (g : TupleGNode) : res E HCoord :=
  p ← expect (gn_pos g !! 0); Ok (mkHCoord (gn_level g) p).

(** My own positions at the levels [a..b]. *)
Definition my_levels {E} (my_pos : list Z) (a b : nat) : res E (list Z) :=
  mapM (λ l, expect (my_pos !! l)) (seq a (b - a)).

Definition make_tuple_node {E} (t : Topology) (my_pos : list Z) (h : HCoord) (top : nat)
    : res E TupleNode :=
  _ ← assert (hc_level h <? top);
  above ← my_levels my_pos (S (hc_level h)) top;
  unwrap (tuple_node_new t (replicate (hc_level h) 0%Z ++ hc_pos h :: above)).

Definition make_tuple_gnode {E} (t : Topology) (my_pos : list Z) (h : HCoord) (top : nat)
    : res E TupleGNode :=
  _ ← assert (hc_level h <? top);
  above ← my_levels my_pos (S (hc_level h)) top;
  unwrap (tuple_gnode_new t top (hc_pos h :: above)).

Inductive GNodeRelation := Mine | Visible | Hidden.

#[export] Instance GNodeRelation_eq_dec : EqDecision GNodeRelation.
Proof. solve_decision. Defined.

(** The loop of [convert_tuple_gnode], from offset [n - 1] down to [0]. *)
Fixpoint convert_loop {E} (my_pos : list Z) (level : nat) (tuple : list Z) (n : nat)
    : res E (GNodeRelation * HCoord) :=
  match n with
  | 0 => p ← expect (tuple !! 0); Ok (Mine, mkHCoord level p)
  | S offset =>
      mine ← expect (my_pos !! (level + offset));
      p ← expect (tuple !! offset);
      if negb (mine =? p)%Z
      then Ok (if offset =? 0 then Visible else Hidden, mkHCoord (level + offset) p)
      else convert_loop my_pos level tuple offset
  end.

Definition convert_tuple_gnode {E} (my_pos : list Z) (t : TupleGNode) : res E (GNodeRelation * HCoord) :=
  convert_loop my_pos (gn_level t) (gn_pos t) (length (gn_pos t)).

Definition tuple_node_to_tuple_gnode {E} (x : TupleNode) : res E TupleGNode :=
  unwrap (tuple_gnode_new (tn_topology x) (tn_top x) (tn_pos x)).

Definition rebase_tuple_gnode {E} (my_pos : list Z) (t : TupleGNode) (new_top : nat) : res E TupleGNode :=
  _ ← assert (gn_top t <=? new_top);
  ext ← slice my_pos (gn_top t) new_top;
  unwrap (tuple_gnode_new (gn_topology t) new_top (gn_pos t ++ ext)).

Definition rebase_tuple_node {E} (my_pos : list Z) (x : TupleNode) (new_top : nat) : res E TupleNode :=
  _ ← assert (tn_top x <=? new_top);
  ext ← slice my_pos (tn_top x) new_top;
  unwrap (tuple_node_new (tn_topology x) (tn_pos x ++ ext)).

Definition tuple_gnode_containing (t : TupleGNode) (new_level : nat) : res PeerError TupleGNode :=
  _ ← assert (gn_level t <=? new_level);
  let remove := Nat.min (new_level - gn_level t) (length (gn_pos t)) in
  pos ← slice (gn_pos t) remove (length (gn_pos t));
  tuple_gnode_new (gn_topology t) (gn_top t) pos.

Definition visible_by_someone_inside_my_gnode {E} (my_pos : list Z) (t : TupleGNode) (lvl : nat)
    : res E bool :=
  let level := gn_level t in
  let l := if (lvl =? 0) || (lvl - 1 <=? level) then S level else lvl in
  if gn_top t <=? l then Ok true
  else
    pos ← slice (gn_pos t) (l - level) (length (gn_pos t));
    h ← unwrap (tuple_gnode_new (gn_topology t) (gn_top t) pos);
    r ← convert_tuple_gnode my_pos h;
    Ok (bool_decide (r.1 = Mine)).

(** [contains] *)
Definition gnode_contains {E} (container contained : TupleGNode) : res E bool :=
  _ ← assert (gn_top container =? gn_top contained);
  let c := gn_pos container in
  let d := gn_pos contained in
  if length c <=? length d
  then sfx ← slice d (length d - length c) (length d); Ok (bool_decide (c = sfx))
  else Ok false.

(** ** Distance *)

(** One level: from [x_macron] clockwise to [x]. *)
Definition level_dist (gsize xbarj xj : Z) : Z :=
  if (xbarj <=? xj)%Z then (xj - xbarj)%Z else (xj + gsize - xbarj)%Z.

(** The loop of [dist], from level [n - 1] down to [0]. *)
Fixpoint dist_loop {E} (t : Topology) (xbar x : list Z) (n : nat) (distance : Z) : res E Z :=
  match n with
  | 0 => Ok distance
  | S level =>
      gsize ← expect (topology_gsize t level);
      xj ← expect (x !! level);
      xbarj ← expect (xbar !! level);
      m ← u128_mul distance gsize;
      distance' ← u128_add m (level_dist gsize xbarj xj);
      dist_loop t xbar x level distance'
  end.

Definition dist {E} (t : Topology) (x_macron x : TupleNode) : res E Z :=
  _ ← assert (tn_top x_macron =? tn_top x);
  dist_loop t (tn_pos x_macron) (tn_pos x) (tn_top x) 0.

(** ** The closest known g-node *)

(** [if best.is_none_or(|(_, bd)| d < bd) { best = Some((h, d)) }] *)
Definition consider {E} (t : Topology) (my_pos : list Z) (x_macron : TupleNode)
    (best : option (HCoord * Z)) (h : HCoord) : res E (option (HCoord * Z)) :=
  tuple_x ← make_tuple_node t my_pos h (tn_top x_macron);
  d ← dist t x_macron tuple_x;
  Ok (match best with
      | Some (_, bd) => if (d <? bd)%Z then Some (h, d) else best
      | None => Some (h, d)
      end).

(** Myself, last. *)
Definition consider_me {E} (t : Topology) (my_pos : list Z) (x_macron : TupleNode)
    (exclude_list : list HCoord) (best : option (HCoord * Z)) (me : HCoord)
    : res E (option (HCoord * Z)) :=
  if contains me exclude_list then Ok best else consider t my_pos x_macron best me.

(** The coordinates of one level that are not mine. *)
Definition level_candidates {E} (t : Topology) (my_pos : list Z) (level : nat) : res E (list HCoord) :=
  gsize ← expect (topology_gsize t level);
  mine ← expect (my_pos !! level);
  Ok (mkHCoord level <$> retain (λ p, negb (p =? mine)%Z) (seqZ 0 gsize)).

Definition approximate {E} (t : Topology) (my_pos : list Z) (x_macron : option TupleNode)
    (exclude_list : list HCoord) (gnode_exists : HCoord → bool) : res E (option HCoord) :=
  let valid_levels := match x_macron with None => 0 | Some x => tn_top x end in
  my0 ← expect (my_pos !! 0);
  let me := mkHCoord 0 my0 in
  if valid_levels =? 0 then Ok (if contains me exclude_list then None else Some me)
  else
    x ← expect x_macron;
    others ← mapM (level_candidates t my_pos) (seq 0 valid_levels);
    let live := retain (λ h, negb (contains h exclude_list) && gnode_exists h) (concat others) in
    best ← foldM (consider t my_pos x) None live;
    best' ← consider_me t my_pos x exclude_list best me;
    Ok (option_map fst best').

(** ** Keys (hashnode.rs) *)
Fixpoint hash_digits (gs : list Z) (h : Z) : list Z :=
  match gs with
  | [] => []
  | g :: gs' => (h mod g)%Z :: hash_digits gs' (h / g)%Z
  end.

Definition hash_to_tuple {E} (t : Topology) (hash : Z) : res E TupleNode :=
  unwrap (tuple_node_new t (hash_digits (gsizes t) hash)).

(** ** Well-formed tuples *)

(** Positions that are real at the levels from [level] upwards. *)
Definition real_from (t : Topology) (level : nat) (pos : list Z) : Prop :=
  ∀ i p, pos !! i = Some p → ∃ g, topology_gsize t (level + i) = Some g ∧ (0 ≤ p < g)%Z.

Definition tn_wf (t : Topology) (x : TupleNode) : Prop :=
  tn_topology x = t ∧ tn_top x ≤ topology_levels t ∧ real_from t 0 (tn_pos x).

Definition gn_wf (t : Topology) (g : TupleGNode) : Prop :=
  gn_topology g = t ∧ gn_pos g ≠ [] ∧ length (gn_pos g) ≤ gn_top g ∧
  gn_top g ≤ topology_levels t ∧ real_from t (gn_level g) (gn_pos g).

(** A fully resolved address of the topology. *)
Definition address (t : Topology) (my_pos : list Z) : Prop :=
  length my_pos = topology_levels t ∧ real_from t 0 my_pos.

(** ** Lemmas *)

(** *** Lists *)
Lemma slice_Ok {E A} (l : list A) a b :
  a ≤ b → b ≤ length l → (slice l a b : res E _) = Ok (take (b - a) (drop a l)).
Proof. intros. unfold slice. by rewrite !(proj2 (Nat.leb_le _ _)) by done. Qed.

Lemma slice_to_end {E A} (l : list A) a :
  a ≤ length l → (slice l a (length l) : res E _) = Ok (drop a l).
Proof. intros. rewrite slice_Ok by lia. rewrite take_ge; [done|]. rewrite length_drop. lia. Qed.

Lemma my_levels_Ok {E} my_pos a b :
  b ≤ length my_pos → (my_levels my_pos a b : res E _) = Ok (take (b - a) (drop a my_pos)).
Proof.
  unfold my_levels. remember (b - a) as n eqn:Hn. revert a Hn. induction n as [|n IH]; intros a Hn Hb; [done|].
  cbn. destruct (lookup_lt_is_Some_2 my_pos a) as [p Hp]; [lia|]. rewrite Hp. cbn.
  rewrite IH by lia. cbn. by rewrite (drop_S _ _ _ Hp).
Qed.

(** *** Constructors *)
Lemma check_tuple_Ok t level pos :
  level + length pos ≤ topology_levels t →
  check_tuple t level pos = Ok tt ↔
    ∀ i p, pos !! i = Some p → ∃ g, topology_gsize t (level + i) = Some g ∧ (p < g)%Z.
Proof.
  revert level. induction pos as [|p pos IH]; intros level Hlen; cbn in *; [done|].
  destruct (gsize_is_Some t level) as [g Hg]; [lia|]. rewrite Hg. cbn. destruct (Z.leb_spec g p).
  - split; [done|]. intros Hf. destruct (Hf 0 p) as (g' & Hg' & ?); [done|]. rewrite Nat.add_0_r in Hg'.
    assert (g' = g) as -> by congruence. lia.
  - rewrite IH by lia. split.
    + intros Hf [|i] q Hq; cbn in Hq; simplify_eq; [exists g; by rewrite Nat.add_0_r|].
      replace (level + S i) with (S level + i) by lia. by apply Hf.
    + intros Hf i q Hq. destruct (Hf (S i) q Hq) as (g' & ? & ?). exists g'. by replace (S level + i) with (level + S i) by lia.
Qed.

Lemma check_tuple_no_panic t level pos : level + length pos ≤ topology_levels t → check_tuple t level pos ≠ Panic.
Proof.
  revert level. induction pos as [|p pos IH]; intros level Hlen; cbn in *; [done|].
  destruct (gsize_is_Some t level) as [g Hg]; [lia|]. rewrite Hg. cbn. destruct (_ <=? _)%Z; [done|].
  apply IH. lia.
Qed.

Lemma tuple_node_new_wf t pos :
  length pos ≤ topology_levels t → real_from t 0 pos → tuple_node_new t pos = Ok (mkTupleNode t pos).
Proof.
  intros Hl Hr. unfold tuple_node_new. rewrite (proj2 (Nat.ltb_ge _ _) Hl).
  rewrite (proj2 (check_tuple_Ok t 0 pos Hl)); [done|]. intros i p Hp. destruct (Hr i p Hp) as (g & ? & ?). naive_solver lia.
Qed.

Lemma tuple_gnode_new_wf t top pos :
  pos ≠ [] → length pos ≤ top → top ≤ topology_levels t → real_from t (top - length pos) pos →
  tuple_gnode_new t top pos = Ok (mkTupleGNode t top pos).
Proof.
  intros Hne Hl Ht Hr. unfold tuple_gnode_new. destruct pos as [|p0 pos0] eqn:Hpos; [done|]. rewrite <-Hpos in *.
  rewrite (proj2 (Nat.ltb_ge _ _) Ht), (proj2 (Nat.ltb_ge _ _) Hl).
  rewrite (proj2 (check_tuple_Ok t (top - length pos) pos ltac:(lia))); [done|].
  intros i p Hp. destruct (Hr i p Hp) as (g & ? & ?). naive_solver lia.
Qed.

(** *** Real positions *)
Lemma real_from_app t level l1 l2 :
  real_from t level l1 → real_from t (level + length l1) l2 → real_from t level (l1 ++ l2).
Proof.
  intros H1 H2 i p [Hi|[Hle Hi]]%lookup_app_Some; [by apply H1|].
  destruct (H2 _ _ Hi) as (g & Hg & ?). exists g. split; [|done]. rewrite <-Hg. f_equal. lia.
Qed.

Lemma real_from_drop t level l n : real_from t level l → real_from t (level + n) (drop n l).
Proof.
  intros H i p. rewrite lookup_drop. intros (g & Hg & ?)%H. exists g. split; [|done]. rewrite <-Hg. f_equal. lia.
Qed.

Lemma real_from_take t level l n : real_from t level l → real_from t level (take n l).
Proof. intros H i p [Hi _]%lookup_take_Some. by apply H. Qed.

Lemma real_from_zeros t n : topology_wf t → n ≤ topology_levels t → real_from t 0 (replicate n 0%Z).
Proof.
  intros [_ Hg] Hn i p [-> Hi]%lookup_replicate. destruct (gsize_is_Some t i) as [g Hgi]; [lia|].
  exists g. split; [done|]. rewrite Forall_lookup in Hg. specialize (Hg _ _ Hgi). cbn in Hg. lia.
Qed.

Lemma real_from_slice t my a b :
  address t my → real_from t a (take b (drop a my)).
Proof. intros [_ H]. apply real_from_take. by apply (real_from_drop t 0). Qed.

(** A coordinate that is real in the topology. *)
Definition coord_real (t : Topology) (h : HCoord) : Prop :=
  ∃ g, topology_gsize t (hc_level h) = Some g ∧ (0 ≤ hc_pos h < g)%Z.

Lemma coord_real_level t h : coord_real t h → hc_level h < topology_levels t.
Proof. intros (g & Hg & _). by eapply lookup_lt_Some. Qed.

(** The position list [make_tuple_node] builds. *)
Definition tuple_of (my_pos : list Z) (h : HCoord) (top : nat) : list Z :=
  replicate (hc_level h) 0%Z ++ hc_pos h :: take (top - S (hc_level h)) (drop (S (hc_level h)) my_pos).

Lemma make_tuple_node_Ok {E} t my_pos h top :
  topology_wf t → address t my_pos → coord_real t h → hc_level h < top → top ≤ topology_levels t →
  (make_tuple_node t my_pos h top : res E _) = Ok (mkTupleNode t (tuple_of my_pos h top)) ∧
  tn_wf t (mkTupleNode t (tuple_of my_pos h top)) ∧ length (tuple_of my_pos h top) = top.
Proof.
  intros Ht Ha (g & Hg & Hp) Hlt Htop. pose proof Ha as [Hlen _].
  assert (length (tuple_of my_pos h top) = top) as Hl.
  { unfold tuple_of. rewrite length_app, length_replicate. cbn. rewrite length_take, length_drop. lia. }
  assert (real_from t 0 (tuple_of my_pos h top)) as Hr.
  { apply real_from_app; [apply real_from_zeros; [done|lia]|]. rewrite length_replicate. cbn.
    intros [|i] p Hi; cbn in Hi; simplify_eq; [exists g; by rewrite Nat.add_0_r|].
    rewrite Nat.add_succ_r. by apply (real_from_slice t my_pos (S (hc_level h)) (top - S (hc_level h)) Ha). }
  unfold make_tuple_node. rewrite (proj2 (Nat.ltb_lt _ _) Hlt). cbn. rewrite my_levels_Ok by lia. cbn.
  fold (tuple_of my_pos h top). rewrite tuple_node_new_wf by (done || lia). split; [done|]. split; [|done].
  unfold tn_wf, tn_top. cbn. split_and!; [done|lia|done].
Qed.

Lemma lookup_tuple_of my_pos h top i :
  hc_level h < top → top ≤ length my_pos → i < top →
  tuple_of my_pos h top !! i =
    if decide (i < hc_level h) then Some 0%Z else if decide (i = hc_level h) then Some (hc_pos h) else my_pos !! i.
Proof.
  intros Hl Htop Hi. unfold tuple_of. destruct (decide (i < hc_level h)).
  { rewrite lookup_app_l by (by rewrite length_replicate). by apply lookup_replicate_2. }
  rewrite lookup_app_r, length_replicate by (rewrite length_replicate; lia). destruct (decide (i = hc_level h)) as [->|Hne].
  { by rewrite Nat.sub_diag. }
  rewrite lookup_cons_ne_0, lookup_take_lt, lookup_drop by lia. f_equal. lia.
Qed.

(** *** The distance *)

(** Level 0 least significant, each level weighted by the sizes below it. *)
Fixpoint mixed_radix (gs ds : list Z) : Z :=
  match gs, ds with
  | g :: gs', d :: ds' => d + g * mixed_radix gs' ds'
  | _, _ => 0
  end%Z.

Definition level_dists (gs xbar x : list Z) : list Z :=
  zip_with (λ g ab, level_dist g ab.1 ab.2) gs (zip xbar x).

Definition capacity (gs : list Z) : Z := foldr Z.mul 1%Z gs.

Lemma level_dist_range g a b : (0 ≤ a < g)%Z → (0 ≤ b < g)%Z → (0 ≤ level_dist g a b < g)%Z.
Proof. unfold level_dist. destruct (Z.leb_spec a b); lia. Qed.

Lemma level_dist_zero g a b : (0 ≤ a < g)%Z → (0 ≤ b < g)%Z → level_dist g a b = 0%Z ↔ a = b.
Proof. unfold level_dist. destruct (Z.leb_spec a b); lia. Qed.

Lemma level_dist_inj g a b c :
  (0 ≤ a < g)%Z → (0 ≤ b < g)%Z → (0 ≤ c < g)%Z → level_dist g a b = level_dist g a c → b = c.
Proof. unfold level_dist. destruct (Z.leb_spec a b), (Z.leb_spec a c); lia. Qed.

Lemma level_dist_triangle g a b c :
  (0 ≤ a < g)%Z → (0 ≤ b < g)%Z → (0 ≤ c < g)%Z →
  (level_dist g a c ≤ level_dist g a b + level_dist g b c)%Z.
Proof. unfold level_dist. destruct (Z.leb_spec a b), (Z.leb_spec a c), (Z.leb_spec b c); lia. Qed.

Lemma capacity_pos gs : Forall (λ g, 0 < g)%Z gs → (0 < capacity gs)%Z.
Proof. unfold capacity. induction 1; cbn; [done|]. by apply Z.mul_pos_pos. Qed.

(** Digits below their sizes. *)
Definition digits (gs ds : list Z) : Prop := Forall2 (λ d g, 0 ≤ d < g)%Z ds gs.

Lemma mixed_radix_range gs ds : digits gs ds → (0 ≤ mixed_radix gs ds < capacity gs)%Z.
Proof. unfold digits, capacity. induction 1 as [|d g ds gs Hd _ IH]; cbn; [lia|]. nia. Qed.

Lemma mixed_radix_zero gs ds : digits gs ds → mixed_radix gs ds = 0%Z ↔ Forall (λ d, d = 0%Z) ds.
Proof.
  unfold digits. induction 1 as [|d g ds gs Hd Hds IH]; cbn; [done|]. pose proof (mixed_radix_range gs ds Hds).
  rewrite Forall_cons, <-IH. split; [intros; split; nia|intros [-> ->]; lia].
Qed.

Lemma mixed_radix_inj gs ds es : digits gs ds → digits gs es → mixed_radix gs ds = mixed_radix gs es → ds = es.
Proof.
  intros Hd. revert es. unfold digits in *. induction Hd as [|d g ds gs Hd Hds IH]; intros es He Heq;
    inversion He as [|e g' es' gs' Hg He']; subst; [done|]. cbn in Heq.
  assert (mixed_radix gs ds = mixed_radix gs es') as Hr by nia. rewrite Hr in Heq. f_equal; [lia|by apply IH].
Qed.

(** The most significant difference decides. *)
Lemma mixed_radix_lex gs ds es l d e :
  digits gs ds → digits gs es → ds !! l = Some d → es !! l = Some e → (d < e)%Z →
  agree_above ds es (S l) → (mixed_radix gs ds < mixed_radix gs es)%Z.
Proof.
  intros Hd. revert es l. unfold digits in *. induction Hd as [|x g ds gs Hx Hds IH]; intros es l He Hl Hl' Hlt Ha; [done|].
  inversion He as [|y g' es' gs' Hy He']; subst. cbn. destruct l as [|l]; cbn in *.
  - simplify_eq. assert (ds = es') as ->; [|lia]. apply list_eq. intros i. apply (Ha (S i)). lia.
  - assert (mixed_radix gs ds < mixed_radix gs es')%Z; [|nia]. eapply IH; [done..|]. intros i Hi. apply (Ha (S i)). lia.
Qed.

Lemma level_dists_digits t n xbar x :
  n ≤ length xbar → n ≤ length x → n ≤ topology_levels t → real_from t 0 xbar → real_from t 0 x →
  digits (take n (gsizes t)) (level_dists (take n (gsizes t)) (take n xbar) (take n x)).
Proof.
  intros Hb Hx Hn Rb Rx. apply Forall2_same_length_lookup_2.
  { unfold level_dists. rewrite length_zip_with, length_zip_with, !length_take. unfold topology_levels in Hn. lia. }
  intros i d g Hd Hg. unfold level_dists in Hd. apply lookup_zip_with_Some in Hd as (g' & [a b] & -> & Hg' & Hab).
  apply lookup_zip_with_Some in Hab as (a' & b' & [= <- <-] & Ha & Hbb). cbn.
  apply lookup_take_Some in Ha as [Ha Hi], Hbb as [Hbb _]. assert (g' = g) as -> by congruence.
  apply lookup_take_Some in Hg as [Hg _].
  destruct (Rb _ _ Ha) as (g1 & Hg1 & ?), (Rx _ _ Hbb) as (g2 & Hg2 & ?). cbn in *.
  unfold topology_gsize in *. simplify_eq. by apply level_dist_range.
Qed.

Lemma mixed_radix_snoc gs ds g d :
  length gs = length ds → mixed_radix (gs ++ [g]) (ds ++ [d]) = (mixed_radix gs ds + capacity gs * d)%Z.
Proof.
  revert ds. induction gs as [|g0 gs IH]; intros [|d0 ds] Hl; simplify_eq/=; [lia|]. rewrite IH by done. lia.
Qed.

Lemma capacity_app gs gs' : capacity (gs ++ gs') = (capacity gs * capacity gs')%Z.
Proof. unfold capacity. induction gs as [|g0 gs IH]; cbn [foldr app]; [lia|]. rewrite IH. lia. Qed.

Lemma capacity_snoc gs g : capacity (gs ++ [g]) = (capacity gs * g)%Z.
Proof. rewrite capacity_app. unfold capacity. cbn [foldr]. lia. Qed.

(** The loop computes the mixed-radix value, or overflows [u128]. *)
Lemma dist_loop_spec {E} t xbar x n acc :
  topology_wf t → n ≤ length xbar → n ≤ length x → n ≤ topology_levels t → real_from t 0 xbar → real_from t 0 x →
  (0 ≤ acc ≤ U128_MAX)%Z →
  let gs := take n (gsizes t) in
  let r := (mixed_radix gs (level_dists gs (take n xbar) (take n x)) + capacity gs * acc)%Z in
  (dist_loop t xbar x n acc : res E Z) = if (r <=? U128_MAX)%Z then Ok r else Panic.
Proof.
  intros Ht Hb Hx Hn Rb Rx. revert acc. induction n as [|n IH]; intros acc Hacc; cbn zeta.
  { rewrite !take_0. change (capacity []) with 1%Z. cbn [mixed_radix level_dists zip_with dist_loop]. rewrite Z.mul_1_l, Z.add_0_l.
    by rewrite (proj2 (Z.leb_le _ _) (proj2 Hacc)). }
  destruct (gsize_is_Some t n) as [g Hg]; [lia|]. destruct (lookup_lt_is_Some_2 xbar n) as [a Ha]; [lia|].
  destruct (lookup_lt_is_Some_2 x n) as [b Hbn]; [lia|]. cbn [dist_loop]. rewrite Hg, Hbn, Ha. cbn [expect mbind res_bind].
  destruct (Rb _ _ Ha) as (g1 & Hg1 & ?), (Rx _ _ Hbn) as (g2 & Hg2 & ?). rewrite Nat.add_0_l in Hg1, Hg2.
  assert (g1 = g) as -> by congruence. assert (g2 = g) as -> by congruence.
  pose proof (level_dist_range g a b ltac:(lia) ltac:(lia)) as Hd.
  pose proof (level_dists_digits t n xbar x ltac:(lia) ltac:(lia) ltac:(lia) Rb Rx) as Hdig.
  pose proof (mixed_radix_range _ _ Hdig) as Hr. pose proof (Forall2_length _ _ _ Hdig) as Hl.
  rewrite (take_S_r _ _ _ Hg), (take_S_r _ _ _ Ha), (take_S_r _ _ _ Hbn). unfold level_dists in *.
  rewrite zip_with_app by (rewrite !length_take; unfold topology_levels in Hn; lia).
  rewrite (zip_with_app _ (take n (gsizes t))) by (rewrite length_zip_with, !length_take; unfold topology_levels in Hn; lia).
  cbn [zip_with fst snd]. rewrite mixed_radix_snoc, capacity_snoc by done.
  set (R := mixed_radix _ _) in *. set (C := capacity _) in *. unfold u128_mul, u128_add. cbn zeta in IH.
  assert (1 ≤ C)%Z by lia.
  destruct (Z.leb_spec (acc * g) U128_MAX) as [Hm|Hm]; cbn [mbind res_bind].
  2:{ rewrite (proj2 (Z.leb_gt _ _)); [done|]. nia. }
  destruct (Z.leb_spec (acc * g + level_dist g a b) U128_MAX) as [Hs|Hs]; cbn [mbind res_bind].
  2:{ rewrite (proj2 (Z.leb_gt _ _)); [done|]. nia. }
  rewrite IH by (try lia; nia). fold R C. replace (R + C * (acc * g + level_dist g a b))%Z
    with (R + C * level_dist g a b + C * g * acc)%Z by lia. done.
Qed.
