(* ===== verification/PeerDht.v ===== *)
(** * Peer services: the distance, the hash node and the election

    What [dist], [hash_to_tuple] and [approximate] of [ntk-peerservices] compute,
    and that the g-node elected is that of the one participant closest to the key.

    The abstract specification is [closest]: among the participants of the scope,
    the one whose address minimises the distance from the target.  No node knows
    the participants; each knows, for every g-node of its map, whether somebody
    inside participates ([knows]). *)
From S2P Require Import Prelude Addressing PeerTuple.

(** ** The distance *)

(** The value [dist] computes for tuples that span the levels below [n]. *)
Definition distance (t : Topology) (n : nat) (xbar x : list Z) : Z :=
  let gs := take n (gsizes t) in
  mixed_radix gs (level_dists gs (take n xbar) (take n x)).

Section Distance.
Context (t : Topology) (Ht : topology_wf t).

Lemma capacity_take n : (0 < capacity (take n (gsizes t)) ≤ capacity (gsizes t))%Z.
Proof.
  destruct Ht as [_ Hg]. assert (Forall (λ g, 0 < g)%Z (gsizes t)) as Hp by (eapply Forall_impl; [done|]; cbn; lia).
  split; [apply capacity_pos; by apply Forall_take|].
  rewrite <-(take_drop n (gsizes t)) at 2. rewrite capacity_app.
  pose proof (capacity_pos _ (Forall_take _ n _ Hp)). pose proof (capacity_pos _ (Forall_drop _ n _ Hp)). nia.
Qed.

Lemma distance_range n xbar x :
  n ≤ length xbar → n ≤ length x → n ≤ topology_levels t → real_from t 0 xbar → real_from t 0 x →
  (0 ≤ distance t n xbar x < capacity (take n (gsizes t)))%Z.
Proof. intros. by apply mixed_radix_range, level_dists_digits. Qed.

Lemma lookup_level_dists n xbar x l g a b :
  l < n → topology_gsize t l = Some g → xbar !! l = Some a → x !! l = Some b →
  level_dists (take n (gsizes t)) (take n xbar) (take n x) !! l = Some (level_dist g a b).
Proof.
  intros Hl Hg Ha Hb. unfold level_dists. apply lookup_zip_with_Some. exists g, (a, b). split; [done|].
  split; [by rewrite lookup_take_lt|]. apply lookup_zip_with_Some. exists a, b. by rewrite !lookup_take_lt.
Qed.

(** Two targets that agree above level [l] are ordered by their circular
    distances at [l]. *)
Lemma distance_lex n xbar x y l g a b c :
  n ≤ length xbar → n ≤ length x → n ≤ length y → n ≤ topology_levels t →
  real_from t 0 xbar → real_from t 0 x → real_from t 0 y →
  l < n → topology_gsize t l = Some g → xbar !! l = Some a → x !! l = Some b → y !! l = Some c →
  (∀ i, l < i < n → x !! i = y !! i) →
  (level_dist g a b < level_dist g a c)%Z → (distance t n xbar x < distance t n xbar y)%Z.
Proof.
  intros Hb Hx Hy Hn Rb Rx Ry Hl Hg Ha Hxl Hyl Heq Hlt.
  eapply (mixed_radix_lex _ _ _ l); [by apply level_dists_digits|by apply level_dists_digits| | |done|].
  1-2: by apply lookup_level_dists.
  intros i Hi. destruct (decide (i < n)) as [Hin|Hin].
  - destruct (gsize_is_Some t i) as [gi Hgi]; [lia|]. destruct (lookup_lt_is_Some_2 xbar i) as [ai Hai]; [lia|].
    destruct (lookup_lt_is_Some_2 y i) as [ci Hci]; [lia|]. assert (x !! i = Some ci) by (rewrite Heq by lia; done).
    by rewrite !(lookup_level_dists n _ _ i gi ai ci).
  - rewrite !lookup_ge_None_2; [done|..]; unfold level_dists; rewrite length_zip_with, length_zip_with, !length_take;
      unfold topology_levels in Hn; lia.
Qed.

(** Equal distances: the same positions below [n]. *)
Lemma distance_inj n xbar x y :
  n ≤ length xbar → n ≤ length x → n ≤ length y → n ≤ topology_levels t →
  real_from t 0 xbar → real_from t 0 x → real_from t 0 y →
  distance t n xbar x = distance t n xbar y → take n x = take n y.
Proof.
  intros Hb Hx Hy Hn Rb Rx Ry Heq. apply mixed_radix_inj in Heq; [|by apply level_dists_digits..].
  apply list_eq. intros i. destruct (decide (i < n)) as [Hi|Hi].
  2:{ rewrite !lookup_ge_None_2; [done|rewrite length_take; lia..]. }
  destruct (gsize_is_Some t i) as [g Hg]; [lia|]. destruct (lookup_lt_is_Some_2 xbar i) as [a Ha]; [lia|].
  destruct (lookup_lt_is_Some_2 x i) as [b Hbi]; [lia|]. destruct (lookup_lt_is_Some_2 y i) as [c Hc]; [lia|].
  pose proof (lookup_level_dists n xbar x i g a b Hi Hg Ha Hbi) as H1. rewrite Heq in H1.
  rewrite (lookup_level_dists n xbar y i g a c) in H1 by done. rewrite !lookup_take_lt, Hbi, Hc by done. f_equal.
  destruct (Rb _ _ Ha) as (g1 & Hg1 & ?), (Rx _ _ Hbi) as (g2 & Hg2 & ?), (Ry _ _ Hc) as (g3 & Hg3 & ?).
  rewrite Nat.add_0_l in *. assert (g1 = g) as -> by congruence. assert (g2 = g) as -> by congruence.
  assert (g3 = g) as -> by congruence. injection H1 as H1. symmetry. by eapply (level_dist_inj g a).
Qed.

Lemma distance_self n x : n ≤ length x → n ≤ topology_levels t → real_from t 0 x → distance t n x x = 0%Z.
Proof.
  intros Hx Hn Rx. apply mixed_radix_zero; [by apply level_dists_digits|]. apply Forall_lookup.
  intros i d (g & [p q] & -> & Hg & Hpq)%lookup_zip_with_Some.
  apply lookup_zip_with_Some in Hpq as (p' & q' & [= -> ->] & Hp & Hq). rewrite Hp in Hq. injection Hq as ->.
  cbn. unfold level_dist. rewrite Z.leb_refl. lia.
Qed.

Lemma distance_triangle n a b c :
  n ≤ length a → n ≤ length b → n ≤ length c → n ≤ topology_levels t →
  real_from t 0 a → real_from t 0 b → real_from t 0 c →
  (distance t n a c ≤ distance t n a b + distance t n b c)%Z.
Proof.
  intros Ha Hb Hc Hn Ra Rb Rc.
  assert (∀ gs xs ys zs, Forall (λ g, 0 < g ≤ U32_MAX)%Z gs → digits gs xs → digits gs ys → digits gs zs →
    (mixed_radix gs (level_dists gs xs zs) ≤
     mixed_radix gs (level_dists gs xs ys) + mixed_radix gs (level_dists gs ys zs))%Z) as Hgen.
  { unfold digits. intros gs. induction gs as [|g gs IH]; intros xs ys zs Hg H1 H2 H3.
    { by inversion H1; inversion H2; inversion H3. }
    inversion_clear Hg. destruct xs as [|x xs'], ys as [|y ys'], zs as [|z zs'];
      try by inversion H1. all: try by inversion H2. all: try by inversion H3.
    apply Forall2_cons in H1 as [? ?], H2 as [? ?], H3 as [? ?]. cbn.
    pose proof (level_dist_triangle g x y z ltac:(done) ltac:(done) ltac:(done)).
    specialize (IH xs' ys' zs' ltac:(done) ltac:(done) ltac:(done) ltac:(done)). unfold level_dists in IH. nia. }
  assert (∀ x, n ≤ length x → real_from t 0 x → Forall2 (λ x g, 0 ≤ x < g)%Z (take n x) (take n (gsizes t))) as Hd.
  { intros x Hx Rx. apply Forall2_same_length_lookup_2; [rewrite !length_take; unfold topology_levels in Hn; lia|].
    intros i p g [Hp Hi]%lookup_take_Some [Hg _]%lookup_take_Some. destruct (Rx _ _ Hp) as (g' & Hg' & ?).
    unfold topology_gsize in Hg'. rewrite Nat.add_0_l in Hg'. by simplify_eq. }
  apply Hgen; [|by apply Hd..]. apply Forall_take. by destruct Ht.
Qed.

Lemma distance_S n xbar x g a b :
  topology_gsize t n = Some g → xbar !! n = Some a → x !! n = Some b →
  distance t (S n) xbar x = (distance t n xbar x + capacity (take n (gsizes t)) * level_dist g a b)%Z.
Proof.
  intros Hg Ha Hb. unfold distance. rewrite (take_S_r _ _ _ Hg), (take_S_r _ _ _ Ha), (take_S_r _ _ _ Hb).
  apply lookup_lt_Some in Hg, Ha, Hb. unfold level_dists. rewrite zip_with_app by (rewrite !length_take; lia).
  rewrite (zip_with_app _ (take n (gsizes t))) by (rewrite length_zip_with, !length_take; lia).
  cbn [zip_with fst snd]. rewrite mixed_radix_snoc; [done|]. rewrite length_zip_with, length_zip_with, !length_take. lia.
Qed.

(** Levels on which two addresses agree do not change their order. *)
Lemma distance_scope j n xbar x y :
  j ≤ n → n ≤ topology_levels t → n ≤ length xbar → n ≤ length x → n ≤ length y →
  (∀ i, j ≤ i < n → x !! i = y !! i) →
  (distance t j xbar x < distance t j xbar y)%Z → (distance t n xbar x < distance t n xbar y)%Z.
Proof.
  intros Hjn. induction Hjn as [|n Hjn IH]; [done|]. intros Hn Hb Hx Hy Heq Hlt.
  destruct (gsize_is_Some t n) as [g Hg]; [lia|]. destruct (lookup_lt_is_Some_2 xbar n) as [a Ha]; [lia|].
  destruct (lookup_lt_is_Some_2 y n) as [b Hbn]; [lia|]. assert (x !! n = Some b) as Hxn by (rewrite Heq; [done|lia]).
  rewrite !(distance_S n xbar _ g a b) by done. assert (distance t n xbar x < distance t n xbar y)%Z; [|lia].
  apply IH; try lia. intros i Hi. apply Heq. lia.
Qed.

Context (Hcap : (capacity (gsizes t) ≤ U128_MAX + 1)%Z).

Lemma dist_Ok {E} (a b : TupleNode) :
  tn_wf t a → tn_wf t b → tn_top a = tn_top b →
  (dist t a b : res E Z) = Ok (distance t (tn_top b) (tn_pos a) (tn_pos b)).
Proof.
  intros (_ & Hla & Ra) (_ & Hlb & Rb) Htop. unfold dist. rewrite Htop, Nat.eqb_refl. cbn [assert mbind res_bind].
  unfold tn_top in *. rewrite dist_loop_spec by (done || lia || (unfold U128_MAX; lia)). cbn zeta.
  fold (distance t (length (tn_pos b)) (tn_pos a) (tn_pos b)). rewrite Z.mul_0_r, Z.add_0_r.
  pose proof (distance_range (length (tn_pos b)) (tn_pos a) (tn_pos b) ltac:(lia) ltac:(lia) ltac:(lia) Ra Rb) as Hr.
  pose proof (capacity_take (length (tn_pos b))) as Hc.
  destruct (Z.leb_spec (distance t (length (tn_pos b)) (tn_pos a) (tn_pos b)) U128_MAX); [done|lia].
Qed.
End Distance.

(** ** Keys *)
Section Keys.
Context (t : Topology) (Ht : topology_wf t).

Lemma hash_digits_spec gs h :
  Forall (λ g, 0 < g)%Z gs → (0 ≤ h)%Z →
  digits gs (hash_digits gs h) ∧ mixed_radix gs (hash_digits gs h) = (h mod capacity gs)%Z.
Proof.
  intros Hg. revert h. induction Hg as [|g gs Hg Hgs IH]; intros h Hh; cbn [hash_digits mixed_radix].
  { split; [constructor|]. change (capacity []) with 1%Z. by rewrite Z.mod_1_r. }
  destruct (IH (h / g)%Z) as [Hd Hr]; [by apply Z.div_pos|].
  split; [constructor; [by apply Z.mod_pos_bound|done]|].
  rewrite Hr. change (capacity (g :: gs)) with (g * capacity gs)%Z. pose proof (capacity_pos _ Hgs).
  by rewrite (Z.rem_mul_r h g (capacity gs)) by lia.
Qed.

Lemma topology_sizes_pos : Forall (λ g, 0 < g)%Z (gsizes t).
Proof. destruct Ht as [_ Hg]. eapply Forall_impl; [done|]. cbn. lia. Qed.

Lemma digits_real ds : digits (gsizes t) ds → real_from t 0 ds.
Proof. intros Hd i p Hp. destruct (Forall2_lookup_l _ _ _ _ _ Hd Hp) as (g & Hg & ?). by exists g. Qed.

Lemma real_digits ds : length ds = topology_levels t → real_from t 0 ds → digits (gsizes t) ds.
Proof.
  intros Hl Hr. apply Forall2_same_length_lookup_2; [done|]. intros i p g Hp Hg.
  destruct (Hr _ _ Hp) as (g' & Hg' & ?). unfold topology_gsize in Hg'. rewrite Nat.add_0_l in Hg'. by simplify_eq.
Qed.

Lemma hash_to_tuple_Ok {E} hash :
  (0 ≤ hash)%Z →
  (hash_to_tuple t hash : res E _) = Ok (mkTupleNode t (hash_digits (gsizes t) hash)) ∧
  tn_wf t (mkTupleNode t (hash_digits (gsizes t) hash)) ∧ length (hash_digits (gsizes t) hash) = topology_levels t.
Proof.
  intros Hh. destruct (hash_digits_spec (gsizes t) hash topology_sizes_pos Hh) as [Hd _].
  pose proof (Forall2_length _ _ _ Hd) as Hl. unfold hash_to_tuple, tn_wf, tn_top. cbn. unfold topology_levels.
  rewrite tuple_node_new_wf; [|unfold topology_levels; lia|by apply digits_real].
  split; [done|]. split; [|done]. split_and!; [done|lia|by apply digits_real].
Qed.
End Keys.

(** ** The candidates of [approximate] *)
Section Approximate.
Context (t : Topology) (Ht : topology_wf t) (Hcap : (capacity (gsizes t) ≤ U128_MAX + 1)%Z).
Context (my : list Z) (Hmy : address t my).
Context (k : nat) (xbar : list Z) (Hk : 0 < k) (Hkl : k ≤ topology_levels t) (Hxbar : length xbar = k) (Hxr : real_from t 0 xbar).
Context (excl : list HCoord) (ex : HCoord → bool).

(** A g-node other than mine that exists and is not excluded, or myself. *)
Definition candidate (h : HCoord) : Prop :=
  hc_level h < k ∧ coord_real t h ∧ (h ∉ excl) ∧
  ((my !! hc_level h ≠ Some (hc_pos h) ∧ ex h = true) ∨ (hc_level h = 0 ∧ my !! 0 = Some (hc_pos h))).

(** The distance of its representative tuple. *)
Definition key (h : HCoord) : Z := distance t k xbar (tuple_of my h k).

(** The running minimum. *)
Definition pick (best : option (HCoord * Z)) (h : HCoord) : option (HCoord * Z) :=
  match best with
  | Some (_, bd) => if (key h <? bd)%Z then Some (h, key h) else best
  | None => Some (h, key h)
  end.

Lemma pick_fold l best :
  match foldl pick best l with
  | Some (h, d) =>
      (best = Some (h, d) ∨ (h ∈ l ∧ d = key h)) ∧ (∀ h', h' ∈ l → (d ≤ key h')%Z) ∧
      (∀ h' d', best = Some (h', d') → (d ≤ d')%Z)
  | None => best = None ∧ l = []
  end.
Proof.
  revert best. induction l as [|h l IH]; intros best; cbn.
  { destruct best as [[h d]|]; [|done]. split; [by left|]. split; [by intros ? ?%not_elem_of_nil|]. intros ? ? [= -> ->]. lia. }
  specialize (IH (pick best h)). destruct (foldl pick (pick best h) l) as [[h' d']|].
  2:{ destruct IH as [Hb _]. exfalso. unfold pick in Hb. destruct best as [[? bd]|]; [|done]. by destruct (_ <? _)%Z. }
  destruct IH as (Hin & Hl & Hb). unfold pick in Hin, Hb. setoid_rewrite elem_of_cons.
  destruct best as [[hb bd]|]; [destruct (Z.ltb_spec (key h) bd) as [Hlt|Hge]|];
    (split; [|split; [intros x [->|Hx]; [|by apply Hl]|]]).
  all: try (intros ? ? [= <- <-]). all: try (intros ? ? ?; done).
  all: try (specialize (Hb _ _ eq_refl); lia). all: naive_solver.
Qed.

Lemma consider_Ok {E} best h :
  hc_level h < k → coord_real t h → (consider t my (mkTupleNode t xbar) best h : res E _) = Ok (pick best h).
Proof.
  intros Hl Hr. unfold consider. change (tn_top (mkTupleNode t xbar)) with (length xbar). rewrite Hxbar.
  destruct (make_tuple_node_Ok (E := E) t my h k Ht Hmy Hr Hl Hkl) as (Hm & Hw & Hlen). rewrite Hm. cbn [mbind res_bind].
  rewrite dist_Ok; [|done|done| |done|].
  - unfold tn_top, key, pick. cbn [tn_pos mbind res_bind]. by rewrite Hlen.
  - unfold tn_wf, tn_top. cbn. split_and!; [done|lia|done].
  - unfold tn_top. cbn. lia.
Qed.

Lemma consider_fold {E} l best :
  (∀ h, h ∈ l → hc_level h < k ∧ coord_real t h) →
  (foldM (consider t my (mkTupleNode t xbar)) best l : res E _) = Ok (foldl pick best l).
Proof.
  revert best. induction l as [|h l IH]; intros best Hl; [done|]. cbn.
  destruct (Hl h) as [? ?]; [by left|]. rewrite consider_Ok by done. cbn. apply IH. intros. apply Hl. by right.
Qed.

Lemma elem_of_level_candidates {E} level :
  level < topology_levels t →
  ∃ hs, (level_candidates t my level : res E _) = Ok hs ∧
    ∀ h, h ∈ hs ↔ hc_level h = level ∧ coord_real t h ∧ my !! level ≠ Some (hc_pos h).
Proof.
  intros Hl. destruct Hmy as [Hlen _]. destruct (gsize_is_Some t level Hl) as [g Hg].
  destruct (lookup_lt_is_Some_2 my level) as [m Hm]; [lia|]. unfold level_candidates. rewrite Hg, Hm. cbn.
  eexists. split; [done|]. intros h. rewrite list_elem_of_fmap. setoid_rewrite elem_of_retain. setoid_rewrite elem_of_seqZ.
  split.
  - intros (p & -> & [Hp Hne]). cbn [hc_level hc_pos]. split; [done|]. apply negb_true_iff, Z.eqb_neq in Hne.
    split; [exists g; cbn; split; [done|lia]|congruence].
  - intros (<- & (g' & Hg' & Hp) & Hne). assert (g' = g) as -> by congruence. exists (hc_pos h).
    split; [by destruct h|]. split; [lia|]. apply negb_true_iff, Z.eqb_neq. congruence.
Qed.

Lemma all_level_candidates {E} :
  ∃ others, (mapM (level_candidates t my) (seq 0 k) : res E _) = Ok others ∧
    ∀ h, h ∈ concat others ↔ hc_level h < k ∧ coord_real t h ∧ my !! hc_level h ≠ Some (hc_pos h).
Proof.
  destruct (mapM_is_Ok (E := E) (level_candidates t my) (seq 0 k)) as [others Ho].
  { intros l Hl%elem_of_seq. destruct (elem_of_level_candidates (E := E) l) as (hs & ? & _); [lia|by exists hs]. }
  exists others. split; [done|]. apply mapM_Forall2 in Ho. intros h. rewrite list_elem_of_In, in_concat.
  setoid_rewrite <-list_elem_of_In. split.
  - intros (hs & Hhs & Hin). apply list_elem_of_lookup in Hhs as [i Hi].
    destruct (Forall2_lookup_r _ _ _ _ _ Ho Hi) as (l & Hl & Hlc). apply lookup_seq in Hl as [-> Hl]. cbn in *.
    destruct (elem_of_level_candidates (E := E) i) as (hs' & Hhs' & Hiff); [lia|]. assert (hs' = hs) as -> by congruence.
    apply Hiff in Hin as (-> & ? & ?). done.
  - intros (Hl & Hr & Hne). destruct (Forall2_lookup_l _ _ _ (hc_level h) (hc_level h) Ho) as (hs & Hhs & Hlc).
    { apply lookup_seq. lia. }
    exists hs. split; [by eapply list_elem_of_lookup_2|].
    destruct (elem_of_level_candidates (E := E) (hc_level h)) as (hs' & Hhs' & Hiff); [lia|].
    assert (hs' = hs) as -> by congruence. by apply Hiff.
Qed.

(** [approximate] folds the running minimum over exactly the candidates. *)
Lemma approximate_fold {E} :
  ∃ cands, (∀ h, h ∈ cands ↔ candidate h) ∧
    (approximate t my (Some (mkTupleNode t xbar)) excl ex : res E _) = Ok (option_map fst (foldl pick None cands)).
Proof.
  destruct Hmy as [Hlen Hreal]. destruct (lookup_lt_is_Some_2 my 0) as [m0 Hm0]; [lia|].
  destruct (Hreal _ _ Hm0) as (g0 & Hg0 & Hr0).
  destruct (all_level_candidates (E := E)) as (others & Ho & Hiff).
  set (me := mkHCoord 0 m0). set (live := retain (λ h, negb (contains h excl) && ex h) (concat others)).
  assert (∀ h, h ∈ live ↔ hc_level h < k ∧ coord_real t h ∧ (h ∉ excl) ∧ my !! hc_level h ≠ Some (hc_pos h) ∧ ex h = true) as Hlive.
  { intros h. unfold live. rewrite elem_of_retain, Hiff, andb_true_iff, negb_true_iff, contains_false. tauto. }
  exists (live ++ if contains me excl then [] else [me]). split.
  - intros h. rewrite elem_of_app, Hlive. unfold candidate. destruct (contains me excl) eqn:Hme.
    + apply contains_true in Hme. rewrite elem_of_nil. split; [naive_solver|]. intros (? & ? & Hn & [?|[Hz Hp]]); [naive_solver|].
      exfalso. apply Hn. assert (h = me) as -> by (destruct h; cbn in *; unfold me; congruence). done.
    + apply contains_false in Hme. rewrite list_elem_of_singleton. split; [intros [?| ->]; [naive_solver|]|].
      * unfold me in *. cbn. split; [done|]. split; [by exists g0|]. split; [done|]. by right.
      * intros (? & ? & Hn & [?|[Hz Hp]]); [naive_solver|]. right. destruct h; cbn in *. unfold me. congruence.
  - unfold approximate. change (tn_top (mkTupleNode t xbar)) with (length xbar). rewrite Hxbar, Hm0. cbn [expect mbind res_bind].
    rewrite (proj2 (Nat.eqb_neq k 0)) by lia. rewrite Ho. cbn [mbind res_bind]. fold me live.
    rewrite consider_fold by (intros h Hh%Hlive; naive_solver). cbn [mbind res_bind]. unfold consider_me.
    rewrite foldl_app. destruct (contains me excl); cbn [mbind res_bind foldl]; [done|].
    rewrite consider_Ok; [done|unfold me; cbn; lia|by exists g0].
Qed.

(** *** Distinct candidates have distinct distances *)
Lemma candidate_differ h h' :
  candidate h → candidate h' → h ≠ h' →
  ∃ m, m < k ∧ hc_level h ≤ m ∧ hc_level h' ≤ m ∧
    tuple_of my h k !! m ≠ tuple_of my h' k !! m ∧ ∀ i, m < i < k → tuple_of my h k !! i = tuple_of my h' k !! i.
Proof.
  intros (Hl & _ & _ & Hc) (Hl' & _ & _ & Hc') Hne. destruct Hmy as [Hlen _].
  exists (hc_level h `max` hc_level h'). split; [lia|]. split; [lia|]. split; [lia|].
  rewrite !lookup_tuple_of by lia. split.
  - repeat case_decide; try lia.
    + intros [= Hp]. apply Hne. destruct h, h'. cbn in *. f_equal; [lia|done].
    + destruct Hc as [[Hm _]|[Hz _]]; [|lia]. replace (_ `max` _) with (hc_level h) by lia. by apply not_eq_sym.
    + destruct Hc' as [[Hm _]|[Hz _]]; [|lia]. by replace (_ `max` _) with (hc_level h') by lia.
  - intros i Hi. rewrite !lookup_tuple_of by lia. by rewrite !decide_False by lia.
Qed.

(** The representative tuple of a real coordinate. *)
Lemma tuple_of_wf h :
  hc_level h < k → coord_real t h → length (tuple_of my h k) = k ∧ real_from t 0 (tuple_of my h k).
Proof.
  intros Hl Hr. destruct (make_tuple_node_Ok (E := unit) t my h k Ht Hmy Hr Hl Hkl) as (_ & (_ & _ & ?) & ?). done.
Qed.

Lemma key_distinct h h' : candidate h → candidate h' → h ≠ h' → key h ≠ key h'.
Proof.
  intros Hc Hc' Hne Heq. destruct (candidate_differ h h' Hc Hc' Hne) as (m & Hm & _ & _ & Hdiff & _).
  destruct Hc as (Hl & Hr & _), Hc' as (Hl' & Hr' & _).
  destruct (tuple_of_wf h Hl Hr) as [Hlen Hreal], (tuple_of_wf h' Hl' Hr') as [Hlen' Hreal'].
  apply distance_inj in Heq; [|lia || done..]. apply Hdiff.
  rewrite <-(lookup_take_lt (tuple_of my h k) k), <-(lookup_take_lt (tuple_of my h' k) k) by done. by rewrite Heq.
Qed.

(** Candidates are ordered as the addresses they stand for. *)
Lemma key_order h h' x y :
  candidate h → candidate h' → h ≠ h' →
  k ≤ length x → k ≤ length y → real_from t 0 x → real_from t 0 y →
  (∀ i, hc_level h ≤ i < k → tuple_of my h k !! i = x !! i) →
  (∀ i, hc_level h' ≤ i < k → tuple_of my h' k !! i = y !! i) →
  (distance t k xbar x < distance t k xbar y)%Z → (key h < key h')%Z.
Proof.
  intros Hc Hc' Hne Hlx Hly Rx Ry Hx Hy Hlt.
  destruct (candidate_differ h h' Hc Hc' Hne) as (m & Hm & Hhm & Hhm' & Hdiff & Habove).
  destruct Hc as (Hl & Hr & _), Hc' as (Hl' & Hr' & _).
  destruct (tuple_of_wf h Hl Hr) as [Hlen Hreal], (tuple_of_wf h' Hl' Hr') as [Hlen' Hreal'].
  destruct (gsize_is_Some t m) as [g Hg]; [lia|]. destruct (lookup_lt_is_Some_2 xbar m) as [a Ha]; [lia|].
  destruct (lookup_lt_is_Some_2 x m) as [b Hb]; [lia|]. destruct (lookup_lt_is_Some_2 y m) as [c Hcm]; [lia|].
  assert (tuple_of my h k !! m = Some b) as HT by (rewrite Hx; [done|lia]).
  assert (tuple_of my h' k !! m = Some c) as HU by (rewrite Hy; [done|lia]).
  assert (∀ i, m < i < k → x !! i = y !! i) as Hxy by (intros i Hi; rewrite <-Hx, <-Hy by lia; apply Habove; lia).
  destruct (Z.lt_trichotomy (level_dist g a b) (level_dist g a c)) as [Hd|[Hd|Hd]].
  - eapply (distance_lex t k xbar _ _ m g a b c); try done; lia.
  - exfalso. apply Hdiff. rewrite HT, HU. f_equal. destruct (Hxr _ _ Ha) as (g1 & Hg1 & ?), (Rx _ _ Hb) as (g2 & Hg2 & ?).
    destruct (Ry _ _ Hcm) as (g3 & Hg3 & ?). rewrite Nat.add_0_l in *. assert (g1 = g) as -> by congruence.
    assert (g2 = g) as -> by congruence. assert (g3 = g) as -> by congruence. by eapply (level_dist_inj g a).
  - exfalso. assert (distance t k xbar y < distance t k xbar x)%Z; [|lia].
    eapply (distance_lex t k xbar _ _ m g a c b); try done; try lia. intros i Hi. symmetry. by apply Hxy.
Qed.

(** The first candidate at the least distance is the only one. *)
Lemma approximate_least {E} :
  ∃ o, (approximate t my (Some (mkTupleNode t xbar)) excl ex : res E _) = Ok o ∧
    match o with
    | Some h => candidate h ∧ ∀ h', candidate h' → h' ≠ h → (key h < key h')%Z
    | None => ∀ h, ¬ candidate h
    end.
Proof.
  destruct (approximate_fold (E := E)) as (cands & Hiff & ->). eexists. split; [done|].
  pose proof (pick_fold cands None) as Hp. destruct (foldl pick None cands) as [[h d]|]; cbn.
  - destruct Hp as ([?|[Hin ->]] & Hmin & _); [done|]. apply Hiff in Hin as Hc. split; [done|]. intros h' Hc' Hne.
    pose proof (Hmin h' (proj2 (Hiff h') Hc')). pose proof (key_distinct h h' Hc Hc' (not_eq_sym Hne)). lia.
  - destruct Hp as [_ ->]. intros h Hc%Hiff. by apply not_elem_of_nil in Hc.
Qed.
End Approximate.

(** ** The lookup *)

(** [y] is in the g-node [h] names in the map of [my]. *)
Definition represents (my : list Z) (h : HCoord) (y : list Z) : Prop :=
  y !! hc_level h = Some (hc_pos h) ∧ agree_above y my (S (hc_level h)).

(** The coordinate of [x] in the map of [my], among the levels below [k]; my own
    when [x] is me. *)
Fixpoint seen_from (my x : list Z) (k : nat) : HCoord :=
  match k with
  | 0 => mkHCoord 0 (default 0%Z (my !! 0))
  | S l => if decide (my !! l = x !! l) then seen_from my x l else mkHCoord l (default 0%Z (x !! l))
  end.

Lemma agree_above_drop xs ys n : agree_above xs ys n ↔ drop n xs = drop n ys.
Proof.
  split.
  - intros H. apply list_eq. intros i. rewrite !lookup_drop. apply H. lia.
  - intros H i Hi. replace i with (n + (i - n)) by lia. by rewrite <-!lookup_drop, H.
Qed.

#[export] Instance agree_above_dec xs ys n : Decision (agree_above xs ys n).
Proof. refine (cast_if (decide (drop n xs = drop n ys))); by rewrite agree_above_drop. Defined.

Lemma seen_from_spec my x k m0 :
  length x = length my → my !! 0 = Some m0 → k ≤ length my → agree_above x my k →
  (x = my ∧ seen_from my x k = mkHCoord 0 m0) ∨
  (hc_level (seen_from my x k) < k ∧ my !! hc_level (seen_from my x k) ≠ Some (hc_pos (seen_from my x k)) ∧
   represents my (seen_from my x k) x).
Proof.
  intros Hlen Hm0. induction k as [|l IH]; intros Hk Ha; cbn.
  { left. rewrite Hm0. split; [|done]. apply list_eq. intros i. apply Ha. lia. }
  destruct (decide (my !! l = x !! l)) as [Heq|Hne].
  - destruct IH as [?|(? & ? & ?)]; [lia| |by left|right; split; [lia|done]].
    intros i Hi. destruct (decide (i = l)) as [->|]; [done|apply Ha; lia].
  - right. destruct (lookup_lt_is_Some_2 x l) as [p Hp]; [lia|]. rewrite Hp in *. cbn [default hc_level hc_pos].
    split; [lia|]. split; [done|]. split; [done|]. exact Ha.
Qed.

Section Lookup.
Context (t : Topology) (Ht : topology_wf t) (Hcap : (capacity (gsizes t) ≤ U128_MAX + 1)%Z).
Context (target : list Z) (Htarget : address t target).
Context (P : list (list Z)) (HP : ∀ y, y ∈ P → address t y).

(** The participant of [my]'s g-node of level [k] closest to the target. *)
Definition closest (my : list Z) (k : nat) (x : list Z) : Prop :=
  x ∈ P ∧ agree_above x my k ∧
  ∀ y, y ∈ P → agree_above y my k → y ≠ x → (distance t k target x < distance t k target y)%Z.

(** What a node knows of the participants: which g-nodes of its map hold one. *)
Definition knows (my : list Z) (k : nat) (excl : list HCoord) (ex : HCoord → bool) : Prop :=
  (∀ h, coord_real t h → hc_level h < k → my !! hc_level h ≠ Some (hc_pos h) →
    (h ∉ excl) ∧ ex h = true ↔ ∃ y, y ∈ P ∧ represents my h y) ∧
  (∀ p, my !! 0 = Some p → (mkHCoord 0 p ∉ excl) ↔ my ∈ P).

(** The target, as a message scoped to the levels below [k] carries it. *)
Definition scoped (k : nat) : option TupleNode :=
  if k =? 0 then None else Some (mkTupleNode t (take k target)).

Lemma distance_take k x : distance t k (take k target) x = distance t k target x.
Proof. unfold distance. by rewrite take_take, Nat.min_id. Qed.

Lemma distance_agree my k x y :
  k ≤ topology_levels t → address t x → address t y → agree_above x my k → agree_above y my k →
  distance t k target x = distance t k target y → x = y.
Proof.
  destruct Htarget as [Hlt Rt]. intros Hk [Hx Rx] [Hy Ry] Ax Ay Heq. apply distance_inj in Heq; [|lia || done..].
  apply agree_above_drop in Ax, Ay. rewrite <-(take_drop k x), <-(take_drop k y). congruence.
Qed.

Lemma closest_unique my k x y : closest my k x → closest my k y → x = y.
Proof.
  intros (Px & Ax & Hx) (Py & Ay & Hy). destruct (decide (x = y)) as [|Hne]; [done|].
  specialize (Hx y Py Ay (not_eq_sym Hne)). specialize (Hy x Px Ax Hne). lia.
Qed.

Lemma closest_exists my k :
  k ≤ topology_levels t → (∃ y, y ∈ P ∧ agree_above y my k) → ∃ x, closest my k x.
Proof.
  intros Hk (y0 & Py0 & Ay0). set (f y := distance t k target y). set (le a b := (f a <=? f b)%Z).
  set (l := filter (λ y, agree_above y my k) P).
  destruct (min_by_is_Some le l) as [x Hx].
  { intros Hnil. assert (y0 ∈ l) as Hin by (by apply list_elem_of_filter). rewrite Hnil in Hin. by apply not_elem_of_nil in Hin. }
  pose proof (min_by_elem_of _ _ _ Hx) as Hin. apply list_elem_of_filter in Hin as [Ax Px]. exists x. split_and!; [done..|].
  intros y Py Ay Hne. assert (le x y = true) as Hle.
  { apply (min_by_least le) with l; [..|done|by apply list_elem_of_filter]; unfold le; intros; bool_to_prop; lia. }
  unfold le, f in Hle. apply Z.leb_le in Hle.
  destruct (Z.eq_dec (distance t k target x) (distance t k target y)) as [Heq|]; [|lia].
  exfalso. apply Hne. symmetry. eapply distance_agree; eauto.
Qed.

Section Node.
Context (my : list Z) (Hmy : address t my) (k : nat) (Hk : k ≤ topology_levels t).
Context (excl : list HCoord) (ex : HCoord → bool) (Hknows : knows my k excl ex).

Lemma represents_tuple_of h y i :
  represents my h y → hc_level h ≤ i < k → tuple_of my h k !! i = y !! i.
Proof.
  intros [Hp Ha] Hi. destruct Hmy as [Hlen _]. rewrite lookup_tuple_of by lia. repeat case_decide; [lia|by subst|].
  symmetry. apply Ha. lia.
Qed.

Lemma represents_scope h y : hc_level h < k → represents my h y → agree_above y my k.
Proof. intros Hl [_ Ha] i Hi. apply Ha. lia. Qed.

(** Every candidate stands for a participant of the scope. *)
Lemma candidate_participant h :
  0 < k → candidate t my k excl ex h → ∃ y, y ∈ P ∧ represents my h y ∧ agree_above y my k.
Proof.
  intros Hk0 (Hl & Hr & Hn & [[Hne He]|[Hz Hp]]); destruct Hknows as [Hg Hme].
  - destruct (proj1 (Hg h Hr Hl Hne) (conj Hn He)) as (y & Py & Ry). eauto using represents_scope.
  - exists my. destruct h as [l p]. cbn in *. subst l. split; [by apply (Hme p)|]. by split.
Qed.

(** The closest participant is seen through a candidate. *)
Lemma closest_candidate x :
  0 < k → closest my k x → candidate t my k excl ex (seen_from my x k) ∧ represents my (seen_from my x k) x.
Proof.
  intros Hk0 (Px & Ax & _). destruct Hmy as [Hlen Hreal]. destruct (HP x Px) as [Hxl Rx].
  destruct (lookup_lt_is_Some_2 my 0) as [m0 Hm0]; [lia|]. destruct Hknows as [Hg Hme].
  destruct (seen_from_spec my x k m0) as [[-> ->]|(Hl & Hne & Hrep)]; [lia|done|lia|done|..].
  - destruct (Hreal _ _ Hm0) as (g & ? & ?). split; [|by split]. split; [done|]. split; [by exists g|].
    split; [by apply (Hme m0)|]. by right.
  - destruct (Rx _ _ (proj1 Hrep)) as (g & ? & ?). split; [|done].
    assert (coord_real t (seen_from my x k)) as Hr by (by exists g).
    destruct (proj2 (Hg _ Hr Hl Hne)) as [? ?]; [by exists x|]. split; [done|]. split; [done|]. split; [done|]. by left.
Qed.

(** [approximate] names the g-node of the closest participant. *)
Lemma approximate_closest {E} :
  (∀ x, closest my k x → (approximate t my (scoped k) excl ex : res E _) = Ok (Some (seen_from my x k))) ∧
  ((∀ y, y ∈ P → ¬ agree_above y my k) → (approximate t my (scoped k) excl ex : res E _) = Ok None).
Proof.
  pose proof Hmy as [Hlen Hreal]. destruct (lookup_lt_is_Some_2 my 0) as [m0 Hm0]; [pose proof (topology_levels_pos t Ht); lia|].
  unfold scoped. destruct (Nat.eqb_spec k 0) as [Hz|Hnz].
  { unfold approximate. rewrite Hm0. cbn [expect mbind res_bind]. rewrite Nat.eqb_refl.
    destruct Hknows as [_ Hme]. specialize (Hme m0 Hm0). rewrite Hz. cbn. rewrite Hm0. cbn [default]. split.
    - intros x (Px & Ax & _). assert (x = my) as -> by (apply list_eq; intros i; apply Ax; lia).
      by rewrite (proj2 (contains_false _ _) (proj2 Hme Px)).
    - intros Hno. destruct (contains _ excl) eqn:Hc; [done|]. apply contains_false, Hme in Hc. by destruct (Hno my Hc). }
  destruct Htarget as [Hlt Rt]. assert (length (take k target) = k) as Hlk by (rewrite length_take; lia).
  destruct (approximate_least t Ht Hcap my Hmy k (take k target) ltac:(lia) Hk Hlk (real_from_take t 0 target k Rt) excl ex (E := E))
    as (o & -> & Ho). split.
  - intros x Hx. destruct (closest_candidate x ltac:(lia) Hx) as [Hcx Hrx]. destruct o as [h|]; [|by destruct (Ho _ Hcx)].
    destruct Ho as [Hc Hmin]. destruct (decide (seen_from my x k = h)) as [->|Hne]; [done|exfalso].
    destruct (candidate_participant h ltac:(lia) Hc) as (y & Py & Ry & Ay). destruct Hx as (Px & Ax & Hx).
    assert (y ≠ x) as Hyx.
    { intros ->. destruct (candidate_differ t my Hmy k _ ltac:(lia) Hk Hlk excl ex _ _ Hcx Hc Hne) as (m & Hm & H1 & H2 & Hd & _).
      apply Hd. by rewrite !(represents_tuple_of _ x). }
    specialize (Hmin _ Hcx Hne). specialize (Hx y Py Ay Hyx). rewrite <-!distance_take in Hx.
    destruct (HP x Px) as [? ?], (HP y Py) as [? ?].
    pose proof (key_order t Ht my Hmy k (take k target) ltac:(lia) Hk Hlk (real_from_take t 0 target k Rt) excl ex _ h x y Hcx Hc Hne
      ltac:(lia) ltac:(lia) ltac:(done) ltac:(done) (λ i, represents_tuple_of _ x i Hrx) (λ i, represents_tuple_of _ y i Ry) Hx). lia.
  - intros Hno. destruct o as [h|]; [|done]. destruct Ho as [Hc _].
    destruct (candidate_participant h ltac:(lia) Hc) as (y & Py & _ & Ay). by destruct (Hno y Py).
Qed.
End Node.

(** Narrowing the scope to a g-node that holds the closest participant keeps it
    the closest. *)
Lemma closest_narrow my k h y x :
  address t my → k ≤ topology_levels t → hc_level h < k → address t y →
  closest my k x → represents my h x → represents my h y → closest y (hc_level h) x.
Proof.
  intros [Hlm _] Hk Hl [Hly _] (Px & Ax & Hx) [Hxh Hxa] [Hyh Hya]. split; [done|].
  assert (∀ z, agree_above z y (hc_level h) → represents my h z) as Hin.
  { intros z Hz. split; [by rewrite Hz|]. intros i Hi. rewrite <-Hya by done. apply Hz. lia. }
  assert (agree_above x y (hc_level h)) as Hxy.
  { intros i Hi. destruct (decide (i = hc_level h)) as [->|]; [congruence|]. rewrite Hxa, Hya by lia. done. }
  split; [done|]. intros z Pz Az Hne. destruct (Hin z Az) as [Hzh Hza]. destruct (HP x Px) as [Hlx Rx], (HP z Pz) as [Hlz Rz].
  destruct Htarget as [Hlt Rt].
  specialize (Hx z Pz (λ i Hi, Hza i ltac:(lia)) Hne).
  destruct (Z.lt_trichotomy (distance t (hc_level h) target x) (distance t (hc_level h) target z)) as [?|[Heq|Hgt]]; [done|..].
  - exfalso. apply Hne. eapply (distance_agree y (hc_level h)); try done; lia.
  - exfalso. assert (distance t k target z < distance t k target x)%Z; [|lia].
    apply (distance_scope t (hc_level h)); try done; try lia. intros i Hi. by rewrite (Hxy i), (Az i) by lia.
Qed.

End Lookup.

(** An accurate view, computed from the participants. *)
Definition map_of (P : list (list Z)) (my : list Z) (h : HCoord) : bool :=
  any (λ y, bool_decide (y !! hc_level h = Some (hc_pos h)) && bool_decide (drop (S (hc_level h)) y = drop (S (hc_level h)) my)) P.
Definition excluded_of (P : list (list Z)) (my : list Z) : list HCoord :=
  if contains my P then [] else [mkHCoord 0 (default 0%Z (my !! 0))].

Lemma map_of_knows t P my k : topology_wf t → address t my → knows t P my k (excluded_of P my) (map_of P my).
Proof.
  intros Ht [Hlen _]. destruct (lookup_lt_is_Some_2 my 0) as [m0 Hm0]; [pose proof (topology_levels_pos t Ht); lia|]. split.
  - intros h _ _ Hne. unfold map_of. rewrite any_true. setoid_rewrite andb_true_iff. setoid_rewrite bool_decide_eq_true.
    setoid_rewrite <-agree_above_drop. unfold represents. split; [naive_solver|]. intros (y & Py & Ry). split; [|by exists y].
    unfold excluded_of. destruct (contains my P) eqn:Hc; [apply not_elem_of_nil|].
    intros ->%list_elem_of_singleton. cbn in Hne. rewrite Hm0 in Hne. done.
  - intros p Hp. unfold excluded_of. rewrite Hp. cbn. destruct (contains my P) eqn:Hc.
    + apply contains_true in Hc. split; [done|]. intros _. apply not_elem_of_nil.
    + apply contains_false in Hc. rewrite list_elem_of_singleton. tauto.
Qed.

(** ** Properties *)

(** [dist] never overflows when the node space fits [u128] and is a
    one-directional metric: it stays below the size of the space, is zero exactly
    on equal tuples, satisfies the triangle inequality, and tells any two targets
    apart. *)
Theorem dist_quasimetric (t : Topology) (a b c : TupleNode) :
  topology_wf t → (capacity (gsizes t) ≤ U128_MAX + 1)%Z →
  tn_wf t a → tn_wf t b → tn_wf t c → tn_top a = tn_top b → tn_top b = tn_top c →
  ∃ ab bc ac, (dist t a b : res PeerError Z) = Ok ab ∧ (dist t b c : res PeerError Z) = Ok bc ∧
    (dist t a c : res PeerError Z) = Ok ac ∧
    (0 ≤ ab < capacity (take (tn_top a) (gsizes t)))%Z ∧
    (ab = 0%Z ↔ a = b) ∧ (ac ≤ ab + bc)%Z ∧ (ab = ac → b = c).
Proof.
  intros Ht Hcap Ha Hb Hc Hab Hbc. rewrite !dist_Ok by (done || congruence).
  destruct Ha as (Hta & Hla & Ra), Hb as (Htb & Hlb & Rb), Hc as (Htc & Hlc & Rc).
  destruct a as [ta xa], b as [tb xb], c as [tc xc]. unfold tn_top in *. cbn in *. subst ta tb tc.
  assert (∀ l l' : list Z, length l = length l' → take (length l) l' = l') as Htake by (intros l l' ->; by rewrite firstn_all).
  do 3 eexists. split; [done|]. split; [done|]. split; [done|]. rewrite <-Hbc, <-Hab.
  split; [apply distance_range; done || lia|]. split; [|split].
  - rewrite <-(distance_self t (length xa) xa) at 1 by (done || lia). split; [|by intros [= ->]].
    intros Hz. apply distance_inj in Hz; [|done || lia..]. rewrite !Htake in Hz by congruence. by rewrite Hz.
  - by apply distance_triangle; try done; lia.
  - intros Heq. apply distance_inj in Heq; [|done || lia..]. rewrite !Htake in Heq by congruence. by rewrite Heq.
Qed.

(** A topology of two levels, and tuples of it. *)
Definition topo_dht : Topology := mkTopology [4; 4]%Z.
Definition node_dht (a b : Z) : TupleNode := mkTupleNode topo_dht [a; b].

Lemma topo_dht_wf : topology_wf topo_dht.
Proof. split; [done|]. repeat constructor; unfold U32_MAX; lia. Qed.

Lemma real_dht a b : (0 ≤ a < 4)%Z → (0 ≤ b < 4)%Z → real_from topo_dht 0 [a; b].
Proof. intros Ha Hb [|[|i]] p Hp; cbn in Hp; simplify_eq; exists 4%Z; (split; [done|lia]). Qed.

Lemma node_dht_wf a b : (0 ≤ a < 4)%Z → (0 ≤ b < 4)%Z → tn_wf topo_dht (node_dht a b).
Proof. intros Ha Hb. split; [done|]. split; [cbn; lia|]. by apply real_dht. Qed.

Lemma address_dht a b : (0 ≤ a < 4)%Z → (0 ≤ b < 4)%Z → address topo_dht [a; b].
Proof. intros Ha Hb. split; [done|]. by apply real_dht. Qed.

Lemma dist_quasimetric_witness :
  ∃ ab bc ac, (dist topo_dht (node_dht 1 1) (node_dht 0 1) : res PeerError Z) = Ok ab ∧
    (dist topo_dht (node_dht 0 1) (node_dht 3 2) : res PeerError Z) = Ok bc ∧
    (dist topo_dht (node_dht 1 1) (node_dht 3 2) : res PeerError Z) = Ok ac ∧
    (0 ≤ ab < capacity (take 2 (gsizes topo_dht)))%Z ∧
    (ab = 0%Z ↔ node_dht 1 1 = node_dht 0 1) ∧ (ac ≤ ab + bc)%Z ∧ (ab = ac → node_dht 0 1 = node_dht 3 2).
Proof.
  apply (dist_quasimetric topo_dht (node_dht 1 1) (node_dht 0 1) (node_dht 3 2)).
  - apply topo_dht_wf.
  - vm_compute. discriminate.
  - apply node_dht_wf; lia.
  - apply node_dht_wf; lia.
  - apply node_dht_wf; lia.
  - reflexivity.
  - reflexivity.
Defined.

(** A key's hash selects every tuple of the topology evenly: the tuple is
    the mixed-radix writing of the hash modulo the size of the node space, so
    reducing the hash first changes nothing, and each tuple is the image of
    exactly one reduced hash. *)
Theorem hash_to_tuple_uniform (t : Topology) (hash : Z) :
  topology_wf t → (0 ≤ hash)%Z →
  (hash_to_tuple t hash : res PeerError _) = hash_to_tuple t (hash mod capacity (gsizes t)) ∧
  (∃ x, (hash_to_tuple t hash : res PeerError _) = Ok x ∧ tn_wf t x ∧ tn_top x = topology_levels t ∧
    mixed_radix (gsizes t) (tn_pos x) = (hash mod capacity (gsizes t))%Z) ∧
  (∀ pos, address t pos →
    let h := mixed_radix (gsizes t) pos in
    (0 ≤ h < capacity (gsizes t))%Z ∧ (hash_to_tuple t h : res PeerError _) = Ok (mkTupleNode t pos)).
Proof.
  intros Ht Hh. pose proof (topology_sizes_pos t Ht) as Hp. pose proof (capacity_pos _ Hp) as Hc.
  destruct (hash_digits_spec (gsizes t) hash Hp Hh) as [Hd Hr].
  assert (∀ h ds, (0 ≤ h)%Z → digits (gsizes t) ds → mixed_radix (gsizes t) ds = (h mod capacity (gsizes t))%Z →
    hash_digits (gsizes t) h = ds) as Huniq.
  { intros h ds Hh0 Hds Hm. destruct (hash_digits_spec (gsizes t) h Hp Hh0) as [Hd' Hr'].
    eapply mixed_radix_inj; [done..|]. congruence. }
  destruct (hash_to_tuple_Ok t Ht (E := PeerError) hash Hh) as (Ho & Hw & Hl). split; [|split].
  - assert (0 ≤ hash mod capacity (gsizes t))%Z as Hm by (by apply Z.mod_pos_bound).
    destruct (hash_to_tuple_Ok t Ht (E := PeerError) _ Hm) as (Ho' & _). rewrite Ho, Ho'. do 2 f_equal. symmetry.
    apply Huniq; [done..|]. by rewrite Zmod_mod.
  - eexists. split; [done|]. split; [done|]. by split.
  - intros pos [Hlen Hreal] h. pose proof (real_digits t pos Hlen Hreal) as Hdp. pose proof (mixed_radix_range _ _ Hdp) as Hrange.
    split; [done|]. destruct (hash_to_tuple_Ok t Ht (E := PeerError) h) as (Ho' & _); [apply Hrange|]. rewrite Ho'. do 2 f_equal.
    apply Huniq; [apply Hrange|done|]. by rewrite Z.mod_small.
Qed.

Lemma hash_to_tuple_uniform_witness :
  (hash_to_tuple topo_dht 1234567 : res PeerError _) = hash_to_tuple topo_dht (1234567 mod capacity (gsizes topo_dht)) ∧
  (hash_to_tuple topo_dht 1234567 : res PeerError _) = Ok (node_dht 3 1).
Proof.
  split; [|reflexivity].
  apply (hash_to_tuple_uniform topo_dht 1234567); [apply topo_dht_wf|lia].
Defined.

(** C9: [approximate] implements the key-to-node mapping from local knowledge.
    A node that knows which g-nodes of its map hold participants elects exactly
    the g-node through which it sees the participant of its scope closest to the
    target — itself when it is that participant — and nothing when the scope
    holds no participant. *)
Theorem approximate_refines_closest (t : Topology) (target : list Z) (P : list (list Z)) (my : list Z) (k : nat)
    (excl : list HCoord) (ex : HCoord → bool) :
  topology_wf t → (capacity (gsizes t) ≤ U128_MAX + 1)%Z → address t target → (∀ y, y ∈ P → address t y) →
  address t my → k ≤ topology_levels t → knows t P my k excl ex →
  (∀ x, closest t target P my k x →
    (approximate t my (scoped t target k) excl ex : res PeerError _) = Ok (Some (seen_from my x k))) ∧
  ((∀ y, y ∈ P → ¬ agree_above y my k) → (approximate t my (scoped t target k) excl ex : res PeerError _) = Ok None) ∧
  ((∃ y, y ∈ P ∧ agree_above y my k) → ∃ x, closest t target P my k x).
Proof.
  intros Ht Hcap Htg HP Hmy Hk Hkn. destruct (approximate_closest t Ht Hcap target Htg P HP my Hmy k Hk excl ex Hkn (E := PeerError)).
  split; [done|]. split; [done|]. by apply closest_exists.
Qed.

(** Participants of the example network, and the target of the lookups. *)
Definition participants_dht : list (list Z) := [[1; 1]; [3; 1]; [2; 3]]%Z.
Definition target_dht : list Z := [2; 1]%Z.

Lemma participants_dht_ok y : y ∈ participants_dht → address topo_dht y.
Proof.
  unfold participants_dht. rewrite !elem_of_cons, elem_of_nil. intros [->|[->|[->|[]]]]; apply address_dht; lia.
Qed.

Lemma approximate_refines_closest_witness :
  (∀ x, closest topo_dht target_dht participants_dht [0; 0]%Z 2 x →
    (approximate topo_dht [0; 0]%Z (scoped topo_dht target_dht 2) (excluded_of participants_dht [0; 0]%Z)
      (map_of participants_dht [0; 0]%Z) : res PeerError _) = Ok (Some (seen_from [0; 0]%Z x 2))) ∧
  closest topo_dht target_dht participants_dht [0; 0]%Z 2 [3; 1]%Z ∧
  seen_from [0; 0]%Z [3; 1]%Z 2 = mkHCoord 1 1.
Proof.
  split; [|split; [|reflexivity]].
  - apply (approximate_refines_closest topo_dht target_dht participants_dht [0; 0]%Z 2
      (excluded_of participants_dht [0; 0]%Z) (map_of participants_dht [0; 0]%Z)).
    + apply topo_dht_wf.
    + vm_compute. discriminate.
    + apply address_dht; lia.
    + apply participants_dht_ok.
    + apply address_dht; lia.
    + reflexivity.
    + apply map_of_knows; [apply topo_dht_wf|apply address_dht; lia].
  - split; [unfold participants_dht; set_solver|]. split; [by intros [|[|i]] Hi; cbn; [lia|lia|]|].
    intros y Hy _ Hne. unfold participants_dht in Hy. rewrite !elem_of_cons, elem_of_nil in Hy.
    destruct Hy as [->|[->|[->|[]]]]; vm_compute; congruence.
Defined.
