(* ===== verification/Auth.v ===== *)
(** * Sender authentication and the protocol envelope

    Models [crates/ntk-proto/src/auth.rs] (the signing encoding, [sign], [verify]
    and the replay guard [SequenceGuard]), [origin_auth.rs] of
    [ntk-peerservices], whose payload it signs, and [envelope.rs].

    Ed25519 and BLAKE3 are libraries: the class [Crypto] gives their operations
    with the lengths and the sign/verify law they document.  Nothing is assumed
    of their strength: what a forger would have to break is part of the
    statements. *)
From stdpp Require Import strings.
From S2P Require Import Prelude Addressing Fingerprint Domain.

(** ** Byte encodings *)

(** [to_le_bytes] at a width of [n] bytes. *)
Fixpoint to_le_bytes (n : nat) (v : Z) : list Z :=
  match n with
  | 0 => []
  | S n' => (v mod 256)%Z :: to_le_bytes n' (v / 256)%Z
  end.

(** [str::as_bytes] *)
Definition as_bytes (s : string) : list Z := (λ a, Z.of_N (Ascii.N_of_ascii a)) <$> String.list_ascii_of_string s.

(** [(x.len() as u32).to_le_bytes()] *)
Definition len_prefix (n : nat) : list Z := to_le_bytes 4 (Z.of_nat n mod 2 ^ 32).

(** ** Cryptography *)
Class Crypto := {
  SigningKey : Type;
  VerifyingKey : Type;
  #[global] VerifyingKey_eq_dec :: EqDecision VerifyingKey;
  #[global] VerifyingKey_countable :: Countable VerifyingKey;
  verifying_key : SigningKey → VerifyingKey;
  vk_to_bytes : VerifyingKey → list Z;
  vk_from_bytes : list Z → option VerifyingKey;
  ed_sign : SigningKey → list Z → list Z;
  ed_verify : VerifyingKey → list Z → list Z → bool;
  blake3 : list Z → list Z;
  vk_to_bytes_length : ∀ k, length (vk_to_bytes k) = 32;
  vk_from_to_bytes : ∀ k, vk_from_bytes (vk_to_bytes k) = Some k;
  ed_sign_length : ∀ sk m, length (ed_sign sk m) = 64;
  ed_verify_sign : ∀ sk m, ed_verify (verifying_key sk) m (ed_sign sk m) = true;
  blake3_length : ∀ m, length (blake3 m) = 32
}.

(** ** Signing (auth.rs) *)
Record Auth := mkAuth { au_signer_key : list Z; au_sequence : Z; au_signature : list Z }.

#[export] Instance Auth_eq_dec : EqDecision Auth.
Proof. solve_decision. Defined.

Inductive AuthError :=
  | BadKeyLength (n : nat)
  | BadSignatureLength (n : nat)
  | MalformedKey
  | SignatureMismatch
  | Replayed (got last_seen : Z).

Definition DOMAIN_TAG : list Z := as_bytes "netsukuku-rs/v1/rpc-auth" ++ [0%Z].
Definition VERIFYING_KEY_LEN : nat := 32.
Definition SIGNATURE_LEN : nat := 64.
Definition DEFAULT_MAX_SIGNERS : nat := 4096.

(** What [digest] feeds the hasher. *)
Definition digest_input (method : string) (payload : list Z) : list Z :=
  len_prefix (length (as_bytes method)) ++ as_bytes method ++ len_prefix (length payload) ++ payload.

Section Signing.
Context `{Crypto}.

Definition digest (method : string) (payload : list Z) : list Z := blake3 (digest_input method payload).

Definition signing_bytes (method : string) (payload : list Z) (sequence : Z) : list Z :=
  DOMAIN_TAG ++ digest method payload ++ to_le_bytes 8 sequence.

Definition sign (signing_key : SigningKey) (sequence : Z) (method : string) (payload : list Z) : Auth :=
  mkAuth (vk_to_bytes (verifying_key signing_key)) sequence (ed_sign signing_key (signing_bytes method payload sequence)).

Definition verify (auth : Auth) (method : string) (payload : list Z) : res AuthError VerifyingKey :=
  if negb (length (au_signer_key auth) =? VERIFYING_KEY_LEN) then Err (BadKeyLength (length (au_signer_key auth)))
  else if negb (length (au_signature auth) =? SIGNATURE_LEN) then Err (BadSignatureLength (length (au_signature auth)))
  else
    signer_key ← ok_or (vk_from_bytes (au_signer_key auth)) MalformedKey;
    if ed_verify signer_key (signing_bytes method payload (au_sequence auth)) (au_signature auth)
    then Ok signer_key
    else Err SignatureMismatch.

(** ** The replay guard *)
Record SequenceGuard := mkSequenceGuard {
  sg_max_signers : nat;
  sg_clock : Z;
  sg_seen : gmap VerifyingKey (Z * Z)
}.

Definition sequence_guard_with_capacity (max_signers : nat) : SequenceGuard :=
  mkSequenceGuard (Nat.max max_signers 1) 0 ∅.
Definition sequence_guard_new : SequenceGuard := sequence_guard_with_capacity DEFAULT_MAX_SIGNERS.
Definition sequence_guard_len (g : SequenceGuard) : nat := size (sg_seen g).

(** The entry touched least recently, in the order the map iterates. *)
Definition oldest_signer `{HashOrder} (seen : gmap VerifyingKey (Z * Z)) : option VerifyingKey :=
  option_map fst (min_by (λ a b, (a.2.2 <=? b.2.2)%Z) (hm_iter seen)).

Definition observe `{HashOrder} (g : SequenceGuard) (signer : VerifyingKey) (sequence : Z)
    : SequenceGuard * res AuthError unit :=
  if (U64_MAX <=? sg_clock g)%Z then (g, Panic)
  else
    let clock := (sg_clock g + 1)%Z in
    match sg_seen g !! signer with
    | Some (last_seen, touched) =>
        if (sequence <=? last_seen)%Z
        then (mkSequenceGuard (sg_max_signers g) clock (sg_seen g), Err (Replayed sequence last_seen))
        else (mkSequenceGuard (sg_max_signers g) clock (<[signer := (sequence, clock)]> (sg_seen g)), Ok tt)
    | None =>
        let seen :=
          if sg_max_signers g <=? size (sg_seen g)
          then match oldest_signer (sg_seen g) with Some oldest => delete oldest (sg_seen g) | None => sg_seen g end
          else sg_seen g in
        (mkSequenceGuard (sg_max_signers g) clock (<[signer := (sequence, clock)]> seen), Ok tt)
    end.
End Signing.

(** ** Origin authentication (origin_auth.rs) *)
Definition ORIGIN_AUTH_METHOD : string := "ntk-peerservices/v1/origin-request".

Definition origin_signing_payload (client_tuple : list Z) (p_id : Z) (request : TypedValue) : list Z :=
  len_prefix (length client_tuple) ++ concat (to_le_bytes 4 <$> client_tuple) ++ to_le_bytes 2 p_id ++
  len_prefix (length (as_bytes (tv_type_tag request))) ++ as_bytes (tv_type_tag request) ++
  len_prefix (length (tv_payload request)) ++ tv_payload request.

Inductive OriginAuthError :=
  | OriginMissing
  | OriginAuth (e : AuthError)
  | OriginActorShutDown.

(** ** The envelope (envelope.rs) *)
Record ProtocolVersion := mkProtocolVersion { pv_major : Z; pv_minor : Z }.
Definition CURRENT : ProtocolVersion := mkProtocolVersion 1 0.
Record VersionMismatch := mkVersionMismatch { vm_ours : ProtocolVersion; vm_theirs : ProtocolVersion }.
Definition is_compatible_with (self other : ProtocolVersion) : bool := (pv_major self =? pv_major other)%Z.

(** The generated messages an envelope carries are arguments. *)
Section Envelope.
Context {CallerContext MethodCall ResponsePayload RemoteError : Type}.

Record Request := mkRequest {
  rq_correlation_id : Z; rq_caller : option CallerContext; rq_unicast_id : option TypedValue;
  rq_wait_reply : bool; rq_call : option MethodCall }.
Inductive Outcome := OutcomePayload (p : ResponsePayload) | OutcomeError (e : RemoteError).
Record Response := mkResponse { rs_correlation_id : Z; rs_outcome : option Outcome }.
Record BroadcastRequest := mkBroadcastRequest {
  bq_packet_id : Z; bq_caller : option CallerContext; bq_broadcast_id : option TypedValue;
  bq_send_ack : bool; bq_call : option MethodCall }.
Record BroadcastAck := mkBroadcastAck { ba_packet_id : Z; ba_src_nic : option TypedValue }.
Inductive Body :=
  | BRequest (r : Request)
  | BResponse (r : Response)
  | BBroadcastRequest (r : BroadcastRequest)
  | BBroadcastAck (r : BroadcastAck).
Record Envelope := mkEnvelope { ev_version : option ProtocolVersion; ev_body : option Body; ev_auth : option Auth }.

Definition with_body (version : ProtocolVersion) (body : Body) : Envelope := mkEnvelope (Some version) (Some body) None.
Definition envelope_request (version : ProtocolVersion) (correlation_id : Z) (caller : CallerContext)
    (unicast_id : TypedValue) (wait_reply : bool) (call : MethodCall) : Envelope :=
  with_body version (BRequest (mkRequest correlation_id (Some caller) (Some unicast_id) wait_reply (Some call))).
Definition envelope_response_ok (version : ProtocolVersion) (correlation_id : Z) (payload : ResponsePayload) : Envelope :=
  with_body version (BResponse (mkResponse correlation_id (Some (OutcomePayload payload)))).
Definition envelope_response_err (version : ProtocolVersion) (correlation_id : Z) (error : RemoteError) : Envelope :=
  with_body version (BResponse (mkResponse correlation_id (Some (OutcomeError error)))).
Definition envelope_broadcast_request (version : ProtocolVersion) (packet_id : Z) (caller : CallerContext)
    (broadcast_id : TypedValue) (send_ack : bool) (call : MethodCall) : Envelope :=
  with_body version (BBroadcastRequest (mkBroadcastRequest packet_id (Some caller) (Some broadcast_id) send_ack (Some call))).
Definition envelope_broadcast_ack (version : ProtocolVersion) (packet_id : Z) (src_nic : TypedValue) : Envelope :=
  with_body version (BBroadcastAck (mkBroadcastAck packet_id (Some src_nic))).
Definition as_request (e : Envelope) : option Request := match ev_body e with Some (BRequest r) => Some r | _ => None end.
Definition as_response (e : Envelope) : option Response := match ev_body e with Some (BResponse r) => Some r | _ => None end.
Definition as_broadcast_request (e : Envelope) : option BroadcastRequest :=
  match ev_body e with Some (BBroadcastRequest r) => Some r | _ => None end.
Definition as_broadcast_ack (e : Envelope) : option BroadcastAck :=
  match ev_body e with Some (BBroadcastAck r) => Some r | _ => None end.
Definition check_version (e : Envelope) : res VersionMismatch unit :=
  match ev_version e with
  | Some theirs => if negb (is_compatible_with CURRENT theirs) then Err (mkVersionMismatch CURRENT theirs) else Ok tt
  | None => Ok tt
  end.
Definition with_auth (e : Envelope) (auth : Auth) : Envelope := mkEnvelope (ev_version e) (ev_body e) (Some auth).
End Envelope.

(** ** Encodings are injective *)
Lemma to_le_bytes_length n v : length (to_le_bytes n v) = n.
Proof. revert v. induction n as [|n IH]; intros v; cbn; [done|]. by rewrite IH. Qed.

Lemma to_le_bytes_inj n v w :
  (0 ≤ v < 256 ^ Z.of_nat n)%Z → (0 ≤ w < 256 ^ Z.of_nat n)%Z → to_le_bytes n v = to_le_bytes n w → v = w.
Proof.
  revert v w. induction n as [|n IH]; intros v w Hv Hw Heq; [cbn in *; lia|].
  rewrite Nat2Z.inj_succ, Z.pow_succ_r in Hv, Hw by lia. cbn in Heq. injection Heq as Hm Hd.
  apply IH in Hd; [|split; [apply Z.div_pos|apply Z.div_lt_upper_bound]; lia..].
  rewrite (Z.div_mod v 256), (Z.div_mod w 256) by lia. congruence.
Qed.

Lemma len_prefix_inj n m : (Z.of_nat n < 2 ^ 32)%Z → (Z.of_nat m < 2 ^ 32)%Z → len_prefix n = len_prefix m → n = m.
Proof.
  intros Hn Hm Heq. unfold len_prefix in Heq. rewrite !Z.mod_small in Heq by lia.
  apply to_le_bytes_inj in Heq; [lia|cbn; lia..].
Qed.

(** A length prefix delimits the field that follows it. *)
Lemma framed_inj (x x' rest rest' : list Z) :
  (Z.of_nat (length x) < 2 ^ 32)%Z → (Z.of_nat (length x') < 2 ^ 32)%Z →
  len_prefix (length x) ++ x ++ rest = len_prefix (length x') ++ x' ++ rest' → x = x' ∧ rest = rest'.
Proof.
  intros Hx Hx' Heq. apply app_inj_1 in Heq as [Hp Hr]; [|unfold len_prefix; by rewrite !to_le_bytes_length].
  apply len_prefix_inj in Hp; [|done..]. by apply app_inj_1 in Hr.
Qed.

Lemma as_bytes_inj s s' : as_bytes s = as_bytes s' → s = s'.
Proof.
  unfold as_bytes. intros Heq.
  rewrite <-(String.string_of_list_ascii_of_string s), <-(String.string_of_list_ascii_of_string s'). f_equal.
  revert Heq. apply list_fmap_eq_inj. intros a b Hab. apply N2Z.inj in Hab.
  rewrite <-(Ascii.ascii_N_embedding a), <-(Ascii.ascii_N_embedding b). by rewrite Hab.
Qed.

Lemma le_words_inj n (l l' : list Z) :
  Forall (λ v, 0 ≤ v < 256 ^ Z.of_nat n)%Z l → Forall (λ v, 0 ≤ v < 256 ^ Z.of_nat n)%Z l' → length l = length l' →
  concat (to_le_bytes n <$> l) = concat (to_le_bytes n <$> l') → l = l'.
Proof.
  intros Hl. revert l'. induction Hl as [|v l Hv Hl IH]; intros [|w l'] Hl' Hlen Heq; simplify_eq/=; [done|].
  apply Forall_cons in Hl' as [Hw Hl']. apply app_inj_1 in Heq as [Hvw Hr]; [|by rewrite !to_le_bytes_length].
  f_equal; [by eapply to_le_bytes_inj|by apply IH].
Qed.

Lemma digest_input_inj m p m' p' :
  (Z.of_nat (length (as_bytes m)) < 2 ^ 32)%Z → (Z.of_nat (length (as_bytes m')) < 2 ^ 32)%Z →
  (Z.of_nat (length p) < 2 ^ 32)%Z → (Z.of_nat (length p') < 2 ^ 32)%Z →
  digest_input m p = digest_input m' p' → m = m' ∧ p = p'.
Proof.
  unfold digest_input. intros Hm Hm' Hp Hp' Heq. apply framed_inj in Heq as [Hb Hr]; [|done..].
  apply as_bytes_inj in Hb. split; [done|].
  by apply (framed_inj p p' [] []); [..|rewrite !app_nil_r].
Qed.

Section AuthProps.
Context `{Crypto}.

(** A guard as [observe] leaves it. *)
Definition guard_wf (g : SequenceGuard) : Prop :=
  1 ≤ sg_max_signers g ∧ size (sg_seen g) ≤ sg_max_signers g ∧ (0 ≤ sg_clock g)%Z ∧
  (∀ k s c, sg_seen g !! k = Some (s, c) → (c ≤ sg_clock g)%Z) ∧
  (∀ k k' s s' c, sg_seen g !! k = Some (s, c) → sg_seen g !! k' = Some (s', c) → k = k').

Lemma sequence_guard_wf n : guard_wf (sequence_guard_with_capacity n).
Proof.
  unfold guard_wf. cbn. rewrite map_size_empty. split; [lia|]. split; [lia|]. split; [lia|].
  split; [by intros k s c Hk; rewrite lookup_empty in Hk|]. by intros k k' s s' c Hk; rewrite lookup_empty in Hk.
Qed.

Context `{HashOrder}.

(** The least recently touched signer exists in a non-empty table, and it is
    older than every other one. *)
Lemma oldest_signer_spec seen :
  match oldest_signer seen with
  | Some k => ∃ s c, seen !! k = Some (s, c) ∧ ∀ k' s' c', seen !! k' = Some (s', c') → (c ≤ c')%Z
  | None => seen = ∅
  end.
Proof.
  unfold oldest_signer. destruct (min_by _ (hm_iter seen)) as [[k [s c]]|] eqn:Hm; cbn.
  - exists s, c. split; [by apply elem_of_hm_iter, (min_by_elem_of _ _ _ Hm)|]. intros k' s' c' Hk'.
    apply elem_of_hm_iter in Hk'.
    set (le := λ a b : VerifyingKey * (Z * Z), (a.2.2 <=? b.2.2)%Z) in Hm.
    assert (le (k, (s, c)) (k', (s', c')) = true) as Hle; [|by apply Z.leb_le in Hle].
    apply (min_by_least le) with (hm_iter seen); [..|done|done]; unfold le; intros; bool_to_prop; lia.
  - apply map_size_empty_inv. rewrite <-(length_hm_iter seen). destruct (hm_iter seen); done.
Qed.

Definition insert_touch (seen : gmap VerifyingKey (Z * Z)) (k : VerifyingKey) (s clock : Z) : gmap VerifyingKey (Z * Z) :=
  <[k := (s, clock)]> seen.

Lemma touch_wf n clock seen signer sequence :
  1 ≤ n → (0 ≤ clock)%Z → size (insert_touch seen signer sequence (clock + 1)) ≤ n →
  (∀ k s c, seen !! k = Some (s, c) → (c ≤ clock)%Z) →
  (∀ k k' s s' c, seen !! k = Some (s, c) → seen !! k' = Some (s', c) → k = k') →
  guard_wf (mkSequenceGuard n (clock + 1) (insert_touch seen signer sequence (clock + 1))).
Proof.
  intros Hn Hc Hsz Hle Hinj. unfold guard_wf, insert_touch in *. cbn. split; [done|]. split; [done|]. split; [lia|]. split.
  - intros k s c [[-> [= <- <-]]|[_ Hk]]%lookup_insert_Some; [lia|]. apply Hle in Hk. lia.
  - intros k k' s s' c [[<- [= <- <-]]|[Hne Hk]]%lookup_insert_Some [[<- [= <-]]|[Hne' Hk']]%lookup_insert_Some; [done|..].
    + apply Hle in Hk'. lia.
    + apply Hle in Hk. lia.
    + by eapply Hinj.
Qed.

(** One observation: the guard stays well formed; an entry other than the
    signer's disappears only when the table is full and the signer unknown, and
    then it is the one touched least recently. *)
Lemma observe_wf g signer sequence g' r :
  guard_wf g → (sg_clock g < U64_MAX)%Z → observe g signer sequence = (g', r) →
  guard_wf g' ∧ sg_max_signers g' = sg_max_signers g ∧ sg_clock g' = (sg_clock g + 1)%Z ∧ r ≠ Panic ∧
  (∀ k s c, k ≠ signer → sg_seen g !! k = Some (s, c) → sg_seen g' !! k = None →
    size (sg_seen g) = sg_max_signers g ∧ sg_seen g !! signer = None ∧
    ∀ k' s' c', sg_seen g !! k' = Some (s', c') → (c ≤ c')%Z).
Proof.
  intros (Hn & Hsz & Hc & Hle & Hinj) Hlt Hobs. unfold observe in Hobs. rewrite (proj2 (Z.leb_gt _ _) Hlt) in Hobs.
  destruct (sg_seen g !! signer) as [[last touched]|] eqn:Hs.
  - destruct (Z.leb_spec sequence last); injection Hobs as <- <-; cbn.
    + split; [|split_and!; [done..|naive_solver]]. unfold guard_wf. cbn. split_and!; [done|done|lia| |done].
      intros k s c Hk. apply Hle in Hk. lia.
    + split; [apply touch_wf; [done|done| |done|done]|split_and!; [done..|]].
      * unfold insert_touch. rewrite map_size_insert_Some by done. done.
      * intros k s c Hne Hk. by rewrite lookup_insert_ne, Hk by done.
  - injection Hobs as <- <-. cbn. destruct (Nat.leb_spec (sg_max_signers g) (size (sg_seen g))) as [Hfull|Hroom].
    + pose proof (oldest_signer_spec (sg_seen g)) as Ho. destruct (oldest_signer (sg_seen g)) as [k0|].
      2:{ rewrite Ho, map_size_empty in Hfull. lia. }
      destruct Ho as (s0 & c0 & Hk0 & Hmin). assert (k0 ≠ signer) by congruence. split.
      * apply touch_wf; [done|done| | |].
        -- unfold insert_touch. rewrite map_size_insert_None by (by rewrite lookup_delete_ne).
           rewrite map_size_delete, Hk0. cbn. lia.
        -- intros k s c [_ Hk]%lookup_delete_Some. by eapply Hle.
        -- intros k k' s s' c [_ Hk]%lookup_delete_Some [_ Hk']%lookup_delete_Some. by eapply Hinj.
      * split_and!; [done..|]. intros k s c Hne Hk Hgone. rewrite lookup_insert_ne in Hgone by done.
        apply lookup_delete_None in Hgone as [<-|Hgone]; [|congruence]. assert (c = c0) as -> by congruence. split_and!; [lia|done|done].
    + split; [apply touch_wf; [done|done| |done|done]|split_and!; [done..|]].
      * unfold insert_touch. rewrite map_size_insert_None by done. lia.
      * intros k s c Hne Hk. by rewrite lookup_insert_ne, Hk by done.
Qed.

(** *** Against the history of accepted messages *)

(** The policy: a message is accepted when its sequence exceeds every accepted
    one of the same signer. *)
Definition accepts (hist : list (VerifyingKey * Z)) (signer : VerifyingKey) (sequence : Z) : bool :=
  all (λ p, negb (bool_decide (p.1 = signer)) || (p.2 <? sequence)%Z) hist.

Fixpoint accept_all (hist : list (VerifyingKey * Z)) (l : list (VerifyingKey * Z)) : list bool :=
  match l with
  | [] => []
  | (k, s) :: l' => if accepts hist k s then true :: accept_all ((k, s) :: hist) l' else false :: accept_all hist l'
  end.

Fixpoint observe_all (g : SequenceGuard) (l : list (VerifyingKey * Z)) : list (res AuthError unit) :=
  match l with
  | [] => []
  | (k, s) :: l' => let r := observe g k s in r.2 :: observe_all r.1 l'
  end.

(** The table holds the highest accepted sequence of every signer met. *)
Definition tracks (g : SequenceGuard) (hist : list (VerifyingKey * Z)) : Prop :=
  ∀ k, match sg_seen g !! k with
       | Some (last, _) => (k, last) ∈ hist ∧ ∀ s, (k, s) ∈ hist → (s ≤ last)%Z
       | None => ∀ s, (k, s) ∉ hist
       end.

Lemma accepts_iff hist k s : accepts hist k s = true ↔ ∀ s', (k, s') ∈ hist → (s' < s)%Z.
Proof.
  unfold accepts. rewrite all_true. split.
  - intros Hall s' Hin. specialize (Hall _ Hin). cbn in Hall. rewrite bool_decide_true in Hall by done. cbn in Hall. by apply Z.ltb_lt.
  - intros Hall [k' s'] Hin. cbn. destruct (decide (k' = k)) as [->|Hne].
    + apply orb_true_iff. right. by apply Z.ltb_lt, Hall.
    + by rewrite bool_decide_false.
Qed.

Lemma tracks_insert g hist k s n c :
  tracks g hist → (∀ s', (k, s') ∈ hist → (s' < s)%Z) →
  tracks (mkSequenceGuard n c (<[k := (s, c)]> (sg_seen g))) ((k, s) :: hist).
Proof.
  intros Ht Hlt k'. cbn. destruct (decide (k' = k)) as [->|Hne].
  - rewrite lookup_insert_eq. split; [by left|]. intros s' [[= ->]|Hin]%elem_of_cons; [lia|]. apply Hlt in Hin. lia.
  - rewrite lookup_insert_ne by done. specialize (Ht k'). destruct (sg_seen g !! k') as [[last ?]|].
    + destruct Ht as [Hin Hmax]. split; [by right|]. intros s' [[= -> ->]|?]%elem_of_cons; [done|by apply Hmax].
    + intros s' [[= -> ->]|Hin]%elem_of_cons; [done|]. by apply (Ht s').
Qed.

(** Without eviction the guard decides exactly the policy. *)
Lemma observe_tracks g hist k s g' r :
  tracks g hist → (sg_clock g < U64_MAX)%Z → (sg_seen g !! k = None → size (sg_seen g) < sg_max_signers g) →
  observe g k s = (g', r) →
  if accepts hist k s then r = Ok tt ∧ tracks g' ((k, s) :: hist) ∧ dom (sg_seen g') = {[k]} ∪ dom (sg_seen g)
  else (∃ last, r = Err (Replayed s last)) ∧ tracks g' hist ∧ dom (sg_seen g') = dom (sg_seen g).
Proof.
  intros Ht Hlt Hroom Hobs. unfold observe in Hobs. rewrite (proj2 (Z.leb_gt _ _) Hlt) in Hobs.
  pose proof (Ht k) as Hk. destruct (sg_seen g !! k) as [[last touched]|] eqn:Hs.
  - destruct Hk as [Hin Hmax]. destruct (Z.leb_spec s last) as [Hle|Hgt]; injection Hobs as <- <-.
    + destruct (accepts hist k s) eqn:Ha; [exfalso; apply accepts_iff with (s' := last) in Ha; [lia|done]|].
      split; [by eexists|]. by split.
    + rewrite (proj2 (accepts_iff hist k s)) by (intros s' Hin'; apply Hmax in Hin'; lia).
      split; [done|]. split; [apply tracks_insert; [done|intros s' Hin'; apply Hmax in Hin'; lia]|]. cbn. by rewrite dom_insert_L.
  - injection Hobs as <- <-. rewrite (proj2 (Nat.leb_gt _ _) (Hroom eq_refl)).
    rewrite (proj2 (accepts_iff hist k s)) by (intros s' Hin'; by destruct (Hk s')).
    split; [done|]. split; [apply tracks_insert; [done|intros s' Hin'; by destruct (Hk s')]|]. cbn. by rewrite dom_insert_L.
Qed.

Definition is_accepted (r : res AuthError unit) : bool := match r with Ok _ => true | _ => false end.

Lemma observe_all_policy g hist l (signers : gset VerifyingKey) :
  guard_wf g → tracks g hist → (sg_clock g + Z.of_nat (length l) ≤ U64_MAX)%Z →
  dom (sg_seen g) ⊆ signers → (∀ k s, (k, s) ∈ l → k ∈ signers) → size signers ≤ sg_max_signers g →
  is_accepted <$> observe_all g l = accept_all hist l ∧ Forall (λ r, r ≠ Panic) (observe_all g l).
Proof.
  revert g hist. induction l as [|[k s] l IH]; intros g hist Hwf Ht Hclk Hdom Hsig Hsz; [done|]. cbn in Hclk |- *.
  destruct (observe g k s) as [g' r] eqn:Hobs. cbn.
  destruct (observe_wf g k s g' r Hwf ltac:(lia) Hobs) as (Hwf' & Hmax & Hclk' & Hnp & _).
  assert (k ∈ signers) as Hk by (by eapply Hsig; left).
  assert (sg_seen g !! k = None → size (sg_seen g) < sg_max_signers g) as Hroom.
  { intros Hnone. rewrite <-size_dom. eapply Nat.lt_le_trans; [|done]. apply subset_size. split; [done|].
    intros Hsub. apply not_elem_of_dom in Hnone. by apply Hnone, Hsub. }
  pose proof (observe_tracks g hist k s g' r Ht ltac:(lia) Hroom Hobs) as Hstep.
  destruct (accepts hist k s).
  - destruct Hstep as (-> & Ht' & Hd). destruct (IH g' ((k, s) :: hist) Hwf' Ht') as [Heq Hall].
    + lia.
    + rewrite Hd. set_solver.
    + intros k' s' Hin. eapply Hsig. by right.
    + by rewrite Hmax.
    + split; [by f_equal|by constructor].
  - destruct Hstep as ([last ->] & Ht' & Hd). destruct (IH g' hist Hwf' Ht') as [Heq Hall].
    + lia.
    + by rewrite Hd.
    + intros k' s' Hin. eapply Hsig. by right.
    + by rewrite Hmax.
    + split; [by f_equal|by constructor].
Qed.

(** *** Signatures *)
Lemma verify_Ok auth method payload k :
  verify auth method payload = Ok k ↔
    length (au_signer_key auth) = 32 ∧ length (au_signature auth) = 64 ∧ vk_from_bytes (au_signer_key auth) = Some k ∧
    ed_verify k (signing_bytes method payload (au_sequence auth)) (au_signature auth) = true.
Proof.
  unfold verify, VERIFYING_KEY_LEN, SIGNATURE_LEN. destruct (Nat.eqb_spec (length (au_signer_key auth)) 32); cbn [negb]; [|naive_solver].
  destruct (Nat.eqb_spec (length (au_signature auth)) 64); cbn [negb]; [|naive_solver].
  destruct (vk_from_bytes (au_signer_key auth)) as [k'|]; cbn [ok_or mbind res_bind]; [|naive_solver].
  destruct (ed_verify k' (signing_bytes method payload (au_sequence auth)) (au_signature auth)) eqn:Hv.
  - split; [intros Hk; by simplify_eq|]. by intros (_ & _ & [= ->] & _).
  - split; [done|]. intros (_ & _ & [= ->] & Hv'). congruence.
Qed.
End AuthProps.

(** ** Properties *)

(** C10: the replay guard implements the policy it documents.  From a fresh
    guard, as long as no more distinct signers appear than it may track, every
    message is accepted exactly when its sequence is greater than every sequence
    already accepted from that signer; nothing panics before [2^64]
    observations. *)
Theorem sequence_guard_refines_history `{Crypto, HashOrder} (n : nat) (l : list (VerifyingKey * Z)) (signers : gset VerifyingKey) :
  (Z.of_nat (length l) ≤ U64_MAX)%Z → (∀ k s, (k, s) ∈ l → k ∈ signers) → size signers ≤ Nat.max n 1 →
  is_accepted <$> observe_all (sequence_guard_with_capacity n) l = accept_all [] l ∧
  Forall (λ r, r ≠ Panic) (observe_all (sequence_guard_with_capacity n) l).
Proof.
  intros Hlen Hsig Hsz. eapply observe_all_policy; [apply sequence_guard_wf| |cbn; lia| |done|done].
  - intros k. cbn. rewrite lookup_empty. intros s. apply not_elem_of_nil.
  - cbn. set_solver.
Qed.

(** The replay guard never tracks more than its maximum of signers, and it
    forgets a signer only to admit a new one when full, choosing the one touched
    least recently. *)
Theorem sequence_guard_bounded `{Crypto, HashOrder} (g : SequenceGuard) (signer : VerifyingKey) (sequence : Z) :
  guard_wf g → (sg_clock g < U64_MAX)%Z →
  let g' := (observe g signer sequence).1 in
  guard_wf g' ∧ sequence_guard_len g' ≤ sg_max_signers g' ∧
  (∀ k s c, k ≠ signer → sg_seen g !! k = Some (s, c) → sg_seen g' !! k = None →
    sequence_guard_len g = sg_max_signers g ∧ sg_seen g !! signer = None ∧
    ∀ k' s' c', sg_seen g !! k' = Some (s', c') → (c ≤ c')%Z).
Proof.
  intros Hwf Hlt. cbn. destruct (observe g signer sequence) as [g' r] eqn:Hobs. cbn.
  destruct (observe_wf g signer sequence g' r Hwf Hlt Hobs) as (Hwf' & _ & _ & _ & Hev).
  split; [done|]. split; [apply Hwf'|done].
Qed.

(** C17: a signed message verifies, and a signature is bound to what it covers.
    What [sign] produces for a method, payload and sequence is accepted by
    [verify] with the signer's key.  And if one signature of one key is accepted
    for two messages, then the messages agree in method, payload and sequence,
    unless BLAKE3 collides on two different inputs or Ed25519 accepts one
    signature for two different byte strings. *)
Theorem signature_binds_message `{Crypto} :
  (∀ sk seq method payload, verify (sign sk seq method payload) method payload = Ok (verifying_key sk)) ∧
  (∀ a b m p m' p' k,
    au_signer_key a = au_signer_key b → au_signature a = au_signature b →
    (0 ≤ au_sequence a ≤ U64_MAX)%Z → (0 ≤ au_sequence b ≤ U64_MAX)%Z →
    (Z.of_nat (length (as_bytes m)) < 2 ^ 32)%Z → (Z.of_nat (length (as_bytes m')) < 2 ^ 32)%Z →
    (Z.of_nat (length p) < 2 ^ 32)%Z → (Z.of_nat (length p') < 2 ^ 32)%Z →
    verify a m p = Ok k → verify b m' p' = Ok k →
    (m = m' ∧ p = p' ∧ au_sequence a = au_sequence b) ∨
    (digest_input m p ≠ digest_input m' p' ∧ blake3 (digest_input m p) = blake3 (digest_input m' p')) ∨
    (∃ x y, x ≠ y ∧ ed_verify k x (au_signature a) = true ∧ ed_verify k y (au_signature a) = true)).
Proof.
  split.
  - intros. apply verify_Ok. cbn. by rewrite vk_to_bytes_length, ed_sign_length, vk_from_to_bytes, ed_verify_sign.
  - intros a b m p m' p' k Hk Hs Ha Hb Hm Hm' Hp Hp' (_ & _ & _ & Hva)%verify_Ok (_ & _ & _ & Hvb)%verify_Ok.
    destruct (decide (signing_bytes m p (au_sequence a) = signing_bytes m' p' (au_sequence b))) as [Heq|Hne].
    2:{ right. right. rewrite <-Hs in Hvb. eauto. }
    unfold signing_bytes, digest in Heq. apply app_inv_head in Heq.
    apply app_inj_1 in Heq as [Hd Hq]; [|by rewrite !blake3_length].
    apply to_le_bytes_inj in Hq; [|unfold U64_MAX in *; cbn; lia..].
    destruct (decide (digest_input m p = digest_input m' p')) as [Hi|]; [left|by right; left].
    apply digest_input_inj in Hi as [-> ->]; done.
Qed.

(** The bytes an origin signature covers determine the claimed address, the
    service and the request: no two different triples of valid sizes share
    them. *)
Theorem origin_payload_unambiguous (t t' : list Z) (p p' : Z) (r r' : TypedValue) :
  Forall is_u32 t → Forall is_u32 t' → (0 ≤ p < 2 ^ 16)%Z → (0 ≤ p' < 2 ^ 16)%Z →
  (Z.of_nat (length t) < 2 ^ 32)%Z → (Z.of_nat (length t') < 2 ^ 32)%Z →
  (Z.of_nat (length (as_bytes (tv_type_tag r))) < 2 ^ 32)%Z → (Z.of_nat (length (as_bytes (tv_type_tag r'))) < 2 ^ 32)%Z →
  (Z.of_nat (length (tv_payload r)) < 2 ^ 32)%Z → (Z.of_nat (length (tv_payload r')) < 2 ^ 32)%Z →
  origin_signing_payload t p r = origin_signing_payload t' p' r' → t = t' ∧ p = p' ∧ r = r'.
Proof.
  intros Ht Ht' Hp Hp' Hl Hl' Hg Hg' Hy Hy' Heq. unfold origin_signing_payload in Heq.
  apply app_inj_1 in Heq as [Hlen Heq]; [|unfold len_prefix; by rewrite !to_le_bytes_length].
  apply len_prefix_inj in Hlen; [|done..].
  assert (∀ l : list Z, length (concat (to_le_bytes 4 <$> l)) = 4 * length l) as Hcl.
  { induction l as [|v l IH]; [done|]. cbn [fmap list_fmap concat]. rewrite length_app, to_le_bytes_length, IH. cbn. lia. }
  apply app_inj_1 in Heq as [Hw Heq]; [|rewrite !Hcl; lia].
  apply le_words_inj in Hw; [|eapply Forall_impl; [done|]; unfold is_u32, U32_MAX; cbn; lia..|done].
  apply app_inj_1 in Heq as [Hpp Heq]; [|by rewrite !to_le_bytes_length].
  apply to_le_bytes_inj in Hpp; [|cbn; lia..]. apply framed_inj in Heq as [Htag Heq]; [|done..]. apply as_bytes_inj in Htag.
  destruct (framed_inj (tv_payload r) (tv_payload r') [] []) as [Hpay _]; [done|done|by rewrite !app_nil_r|].
  destruct r, r'. cbn in *. by subst.
Qed.

Lemma origin_payload_unambiguous_witness :
  [1; 2]%Z = [1; 2]%Z ∧ 7%Z = 7%Z ∧ mkTypedValue "x" [121]%Z = mkTypedValue "x" [121]%Z.
Proof.
  assert (Forall is_u32 [1; 2]%Z) as Hu by (apply Forall_cons; split; [|apply Forall_singleton]; unfold is_u32, U32_MAX; lia).
  apply (origin_payload_unambiguous [1; 2]%Z [1; 2]%Z 7 7 (mkTypedValue "x" [121]%Z) (mkTypedValue "x" [121]%Z) Hu Hu);
    first [lia | reflexivity].
Defined.

(** A toy signature scheme, for the examples: the signature of a key is the key
    repeated. *)
#[refine] Definition toy_crypto : Crypto := {|
  SigningKey := Z; VerifyingKey := Z;
  verifying_key := λ k, k;
  vk_to_bytes := λ k, k :: replicate 31 0%Z;
  vk_from_bytes := head;
  ed_sign := λ k _, replicate 64 k;
  ed_verify := λ k _ s, bool_decide (s = replicate 64 k);
  blake3 := λ _, replicate 32 0%Z
|}.
Proof.
  - intros k. reflexivity.
  - intros k. reflexivity.
  - intros k m. reflexivity.
  - intros k m. by apply bool_decide_true.
  - intros m. reflexivity.
Defined.

Lemma sequence_guard_refines_history_witness :
  is_accepted <$> observe_all (H := toy_crypto) (H0 := map_order) (sequence_guard_with_capacity (H := toy_crypto) 2)
    [(1, 5); (2, 3); (1, 5); (1, 6); (2, 2)]%Z = [true; true; false; true; false].
Proof.
  exact (proj1 (sequence_guard_refines_history (H := toy_crypto) (H0 := map_order) 2
    [(1, 5); (2, 3); (1, 5); (1, 6); (2, 2)]%Z {[1; 2]}%Z
    ltac:(vm_compute; discriminate) ltac:(set_solver) ltac:(vm_compute; lia))).
Defined.

Lemma sequence_guard_bounded_witness :
  let g := (observe (H := toy_crypto) (H0 := map_order) (sequence_guard_with_capacity (H := toy_crypto) 1) 1%Z 5).1 in
  let g' := (observe (H := toy_crypto) (H0 := map_order) g 2%Z 1).1 in
  sequence_guard_len (H := toy_crypto) g' ≤ sg_max_signers (H := toy_crypto) g'.
Proof.
  cbv zeta. destruct (observe_wf (H := toy_crypto) (H0 := map_order) (sequence_guard_with_capacity 1) 1%Z 5
    (observe (H0 := map_order) (sequence_guard_with_capacity (H := toy_crypto) 1) 1%Z 5).1
    (observe (H0 := map_order) (sequence_guard_with_capacity (H := toy_crypto) 1) 1%Z 5).2
    (sequence_guard_wf (H := toy_crypto) 1) ltac:(vm_compute; done) ltac:(reflexivity)) as [Hwf _].
  exact (proj1 (proj2 (sequence_guard_bounded (H := toy_crypto) (H0 := map_order) _ 2%Z 1 Hwf ltac:(vm_compute; reflexivity)))).
Defined.

Lemma signature_binds_message_witness :
  verify (H := toy_crypto) (sign (H := toy_crypto) 7%Z 1 "neighborhood.here_i_am" [1; 2]%Z) "neighborhood.here_i_am" [1; 2]%Z = Ok 7%Z ∧
  verify (H := toy_crypto) (sign (H := toy_crypto) 7%Z 1 "m" [1]%Z) "m" [1]%Z = Ok 7%Z.
Proof. split; apply (proj1 (signature_binds_message (H := toy_crypto))). Defined.
