(* ===== verification/PeerState.v ===== *)
(** * Peer services: participation and the actor's state

    Models [service.rs], [config.rs], [participation.rs] and the [State] of
    [actor.rs] of [crates/ntk-peerservices]: the registered services, the
    participation maps with their caps, the searches in flight, and [handle],
    one arm per command.

    A service is the trait [PeerService]; the key hasher of the message ids and
    the clock are arguments.  The unbounded channel of a search is the list of
    the events sent on it ([wa_sent]), the watch channel is the snapshot it
    holds and the broadcast channel the list of the events published. *)
From stdpp Require Import strings.
From S2P Require Import Prelude Addressing Fingerprint Domain PeerTuple Auth.

(** ** Services (service.rs) *)

(** [TryFrom<i32> for ServiceId]; the error carries the value cast to [u32]. *)
Definition service_id_try_from (value : Z) : res PeerError Z :=
  if (0 <=? value)%Z && (value <? 2 ^ 16)%Z then Ok value else Err (ServiceIdOutOfRange (value mod 2 ^ 32)).

Record Refusal := mkRefusal { rf_level : nat; rf_message : string }.

Inductive ExecError := Refuse (r : Refusal) | RedoFromStart.

#[export] Instance Refusal_eq_dec : EqDecision Refusal.
Proof. solve_decision. Defined.

(** The trait; [exec] runs elsewhere and its outcome reaches the routing code as
    an answer of the environment. *)
Class PeerService (Svc : Type) := {
  service_id : Svc → Z;
  is_optional : Svc → bool;
  requires_origin_auth : Svc → TypedValue → bool
}.

(** ** Configuration (config.rs); durations in milliseconds *)
Record PeerConfig := mkPeerConfig {
  pc_min_timeout : Z;
  pc_routing_timeout_small : Z;
  pc_routing_timeout_medium : Z;
  pc_routing_timeout_large : Z;
  pc_routing_timeout_medium_threshold : nat;
  pc_routing_timeout_large_threshold : nat;
  pc_participation_poll_interval : Z;
  pc_gateway_retry_backoff : Z;
  pc_max_relay_attempts : nat;
  pc_max_refuse_messages : nat;
  pc_default_replication_factor : Z;
  pc_participation_reannounce_interval : option Z;
  pc_max_contact_peer_hops : nat;
  pc_max_participants_per_service : nat;
  pc_max_services : nat;
  pc_replicate_deadline_multiplier : Z;
  pc_require_auth : bool
}.

Definition peer_config_default : PeerConfig :=
  mkPeerConfig 500 200 2000 20000 100 1000 10 20 16 10 31 None 64 8192 256 4 false.

Definition routing_timeout (c : PeerConfig) (nodes : nat) : Z :=
  let base :=
    if pc_routing_timeout_large_threshold c <? nodes then pc_routing_timeout_large c
    else if pc_routing_timeout_medium_threshold c <? nodes then pc_routing_timeout_medium c
    else pc_routing_timeout_small c in
  (base + pc_min_timeout c)%Z.

(** ** Participation maps (participation.rs) *)
Abbreviation ParticipantMap := (gset HCoord).

(** [BTreeSet<HCoord>] iterates by level, then position. *)
Definition hcoord_leb (a b : HCoord) : bool :=
  (hc_level a <? hc_level b) || ((hc_level a =? hc_level b) && (hc_pos a <=? hc_pos b)%Z).
Definition participants (m : ParticipantMap) : list HCoord := sort_by hcoord_leb (elements m).

Definition participant_map_is_valid (t : Topology) (m : ParticipantMap) : bool :=
  all (λ hc, match topology_gsize t (hc_level hc) with Some gsize => (hc_pos hc <? gsize)%Z | None => false end)
    (participants m).

Record ParticipantSet := mkParticipantSet {
  ps_retrieved_below_level : nat;
  ps_my_pos : list Z;
  ps_participant_set : gmap Z ParticipantMap
}.

Definition participant_set_is_valid (t : Topology) (s : ParticipantSet) : bool :=
  (ps_retrieved_below_level s <=? topology_levels t) && (length (ps_my_pos s) =? topology_levels t) &&
  all (λ lp, match topology_gsize t lp.1 with Some gsize => (lp.2 <? gsize)%Z | None => false end) (enumerate (ps_my_pos s)) &&
  all (λ km, participant_map_is_valid t km.2) (bt_iter (ps_participant_set s)).

(** [filter(..).collect()] on a map *)
Definition map_where (f : HCoord → bool) (m : ParticipantMap) : ParticipantMap :=
  list_to_set (retain f (participants m)).

Definition produce_below_level (participant_set : gmap Z ParticipantMap) (my_pos : list Z) (below_level : nat) : ParticipantSet :=
  mkParticipantSet below_level my_pos
    (omap (λ m, let filtered := map_where (λ hc, hc_level hc <? below_level) m in
      if bool_decide (filtered = ∅) then None else Some filtered) participant_set).

(** The highest level at which two addresses differ, [0] when none above does. *)
Fixpoint mdg_loop {E} (my_pos other : list Z) (mdg_lvl : nat) : res E nat :=
  match mdg_lvl with
  | 0 => Ok 0
  | S l =>
      a ← expect (my_pos !! mdg_lvl);
      b ← expect (other !! mdg_lvl);
      if (a =? b)%Z then mdg_loop my_pos other l else Ok mdg_lvl
  end.

Definition fold_to_my_granularity {E} (my_pos : list Z) (levels : nat) (incoming : ParticipantSet) : res E ParticipantSet :=
  _ ← assert (length my_pos =? levels);
  _ ← assert (length (ps_my_pos incoming) =? levels);
  _ ← assert (0 <? levels);
  mdg_lvl ← mdg_loop my_pos (ps_my_pos incoming) (levels - 1);
  mdg_pos ← expect (ps_my_pos incoming !! mdg_lvl);
  Ok (mkParticipantSet (ps_retrieved_below_level incoming) (ps_my_pos incoming)
    ((λ m : ParticipantMap,
      let kept := map_where (λ hc, mdg_lvl <=? hc_level hc) m in
      if any (λ hc, hc_level hc <? mdg_lvl) (participants m) then {[mkHCoord mdg_lvl mdg_pos]} ∪ kept else kept)
     <$> ps_participant_set incoming)).

Definition is_fresher (my_retrieved_below_level : nat) (incoming : ParticipantSet) : bool :=
  my_retrieved_below_level <? ps_retrieved_below_level incoming.

(** ** The actor's state (actor.rs) *)
Inductive RouteEvent :=
  | NextDestination (t : TupleGNode)
  | Failure (t : TupleGNode)
  | NonParticipant (t : TupleGNode)
  | MissingOptionalMaps
  | RespondantNode (n : TupleNode)
  | EvResponse (v : TypedValue)
  | EvRefuse (r : Refusal)
  | EvRedoFromStart.

Record WaitingAnswer := mkWaitingAnswer {
  wa_min_target : TupleGNode;
  wa_respondant_node : option TupleNode;
  wa_request : option TypedValue;
  wa_sent : list RouteEvent
}.

Definition respondant_matches (wa : WaitingAnswer) (respondant : TupleNode) : bool :=
  match wa_respondant_node wa with
  | Some r => bool_decide (tn_pos r = tn_pos respondant)
  | None => false
  end.

Definition is_deeper_or_equal (wa : WaitingAnswer) (tuple : TupleGNode) (strictly : bool) : bool :=
  if negb (gn_top (wa_min_target wa) =? gn_top tuple) then false
  else
    let old_k := gn_level (wa_min_target wa) in
    let new_k := gn_level tuple in
    if strictly then new_k <? old_k else new_k <=? old_k.

(** [tx.send] *)
Definition wa_send (wa : WaitingAnswer) (ev : RouteEvent) : WaitingAnswer :=
  mkWaitingAnswer (wa_min_target wa) (wa_respondant_node wa) (wa_request wa) (wa_sent wa ++ [ev]).

Definition RECENT_PUBLISHED_TTL : Z := 60000.
Definition RECENT_PUBLISHED_PRUNE_AT : nat := 4096.

Record Snapshot := mkSnapshot { sn_retrieved_below_level : nat; sn_participants : gmap Z ParticipantMap }.

Inductive Event :=
  | ParticipantAdded (p_id : Z) (at_ : HCoord)
  | ParticipantRemoved (p_id : Z) (at_ : HCoord).

Inductive GetRequestOutcome := UnknownMessage | InvalidRequest.

Definition all_gnodes_up_to_lvl {E} (t : Topology) (my_pos : list Z) (lvl : nat) : res E (list HCoord) :=
  others ← mapM (λ lp : nat * Z, gsize ← expect (topology_gsize t lp.1);
      Ok (mkHCoord lp.1 <$> retain (λ p, negb (lp.2 =? p)%Z) (seqZ 0 gsize)))
    (take lvl (enumerate my_pos));
  my0 ← expect (my_pos !! 0);
  Ok (concat others ++ [mkHCoord 0 my0]).

Section Actor.
Context {Svc : Type} `{PeerService Svc} `{Crypto} `{HashOrder}.

Record State := mkState {
  st_topology : Topology;
  st_my_pos : list Z;
  st_config : PeerConfig;
  st_services : gmap Z Svc;
  st_my_services : gset Z;
  st_participant_set : gmap Z ParticipantMap;
  st_capacity_warned : gset Z;
  st_retrieved_below_level : nat;
  st_recent_published : gmap (Z * HCoord) Z;
  st_waiting : gmap Z WaitingAnswer;
  st_next_msg_id : Z;
  st_snapshot : Snapshot;
  st_events : list Event;
  st_origin_replay : SequenceGuard
}.

(** [Manager::new] *)
Definition state_new (t : Topology) (my_pos : list Z) (config : PeerConfig) (retrieved_below_level : nat) : State :=
  mkState t my_pos config ∅ ∅ ∅ ∅ retrieved_below_level ∅ ∅ 0 (mkSnapshot 0 ∅) [] sequence_guard_new.

Inductive Cmd :=
  | Register (service : Svc)
  | LookupService (p_id : Z)
  | IsServiceOptional (p_id : Z)
  | NonParticipantGnodes (p_id : Z) (target_levels : nat)
  | GnodeParticipates (p_id : Z) (level : nat)
  | NextMsgId
  | RegisterWaiting (msg_id : Z) (min_target : TupleGNode) (request : option TypedValue)
  | UnregisterWaiting (msg_id : Z)
  | GetRequest (msg_id : Z) (respondant : TupleNode)
  | SetResponse (msg_id : Z) (response : TypedValue) (respondant : TupleNode)
  | SetRefuseMessage (msg_id : Z) (refusal : Refusal) (respondant : TupleNode)
  | SetRedoFromStart (msg_id : Z) (respondant : TupleNode)
  | SetNextDestination (msg_id : Z) (tuple : TupleGNode)
  | SetFailure (msg_id : Z) (tuple : TupleGNode)
  | SetNonParticipant (msg_id : Z) (tuple : TupleGNode)
  | SetMissingOptionalMaps (msg_id : Z)
  | ApplyParticipant (p_id : Z) (at_ : HCoord)
  | MyOptionalServices
  | AskParticipantMaps
  | ApplyParticipantSet (incoming : ParticipantSet)
  | ObserveOriginSequence (signer : VerifyingKey) (sequence : Z).

Inductive Reply :=
  | RNone
  | RService (s : option Svc)
  | RBool (b : bool)
  | RGnodes (l : list HCoord)
  | RMsgId (id : option Z)
  | RRequest (r : res GetRequestOutcome TypedValue)
  | RFact (h : option HCoord)
  | RServices (l : list Z)
  | RMaps (s : ParticipantSet)
  | RForward (s : option ParticipantSet)
  | RObserve (r : res AuthError unit).

(** *** Field updates *)
Definition upd_services (st : State) (s : gmap Z Svc) (m : gset Z) : State :=
  mkState (st_topology st) (st_my_pos st) (st_config st) s m (st_participant_set st) (st_capacity_warned st)
    (st_retrieved_below_level st) (st_recent_published st) (st_waiting st) (st_next_msg_id st) (st_snapshot st) (st_events st)
    (st_origin_replay st).
Definition upd_warned (st : State) (w : gset Z) : State :=
  mkState (st_topology st) (st_my_pos st) (st_config st) (st_services st) (st_my_services st) (st_participant_set st) w
    (st_retrieved_below_level st) (st_recent_published st) (st_waiting st) (st_next_msg_id st) (st_snapshot st) (st_events st)
    (st_origin_replay st).
Definition upd_participants (st : State) (p : gmap Z ParticipantMap) (sn : Snapshot) (evs : list Event) : State :=
  mkState (st_topology st) (st_my_pos st) (st_config st) (st_services st) (st_my_services st) p (st_capacity_warned st)
    (st_retrieved_below_level st) (st_recent_published st) (st_waiting st) (st_next_msg_id st) sn evs (st_origin_replay st).
Definition upd_retrieved (st : State) (r : nat) (sn : Snapshot) : State :=
  mkState (st_topology st) (st_my_pos st) (st_config st) (st_services st) (st_my_services st) (st_participant_set st)
    (st_capacity_warned st) r (st_recent_published st) (st_waiting st) (st_next_msg_id st) sn (st_events st) (st_origin_replay st).
Definition upd_recent (st : State) (r : gmap (Z * HCoord) Z) : State :=
  mkState (st_topology st) (st_my_pos st) (st_config st) (st_services st) (st_my_services st) (st_participant_set st)
    (st_capacity_warned st) (st_retrieved_below_level st) r (st_waiting st) (st_next_msg_id st) (st_snapshot st) (st_events st)
    (st_origin_replay st).
Definition upd_waiting (st : State) (w : gmap Z WaitingAnswer) : State :=
  mkState (st_topology st) (st_my_pos st) (st_config st) (st_services st) (st_my_services st) (st_participant_set st)
    (st_capacity_warned st) (st_retrieved_below_level st) (st_recent_published st) w (st_next_msg_id st) (st_snapshot st)
    (st_events st) (st_origin_replay st).
Definition upd_next_msg_id (st : State) (n : Z) : State :=
  mkState (st_topology st) (st_my_pos st) (st_config st) (st_services st) (st_my_services st) (st_participant_set st)
    (st_capacity_warned st) (st_retrieved_below_level st) (st_recent_published st) (st_waiting st) n (st_snapshot st)
    (st_events st) (st_origin_replay st).
Definition upd_replay (st : State) (g : SequenceGuard) : State :=
  mkState (st_topology st) (st_my_pos st) (st_config st) (st_services st) (st_my_services st) (st_participant_set st)
    (st_capacity_warned st) (st_retrieved_below_level st) (st_recent_published st) (st_waiting st) (st_next_msg_id st)
    (st_snapshot st) (st_events st) g.

(** [publish_snapshot] *)
Definition current_snapshot (st : State) : Snapshot := mkSnapshot (st_retrieved_below_level st) (st_participant_set st).

(** [is_none_or(|s| s.is_optional())] *)
Definition service_optional (st : State) (p_id : Z) : bool :=
  match st_services st !! p_id with Some s => is_optional s | None => true end.

Definition non_participant_gnodes {E} (st : State) (p_id : Z) (target_levels : nat) : res E (list HCoord) :=
  if negb (service_optional st p_id) then Ok []
  else
    let map := st_participant_set st !! p_id in
    let registered_locally := bool_decide (is_Some (st_services st !! p_id)) in
    my0 ← expect (st_my_pos st !! 0);
    let myself := mkHCoord 0 my0 in
    all ← all_gnodes_up_to_lvl (st_topology st) (st_my_pos st) target_levels;
    Ok (retain (λ lp, negb (registered_locally && bool_decide (lp = myself)))
      (retain (λ lp, match map with Some m => negb (bool_decide (lp ∈ m)) | None => true end) all)).

Definition gnode_participates (st : State) (p_id : Z) (level : nat) : bool :=
  if bool_decide (is_Some (st_services st !! p_id)) then true
  else
    match st_participant_set st !! p_id with
    | Some m => any (λ g, hc_level g <? level) (participants m)
    | None => false
    end.

(** [add_participant]: refuses myself, a new service beyond [max_services], and
    a new fact of a full map. *)
Definition add_participant (st : State) (p_id : Z) (h : HCoord) : State :=
  if bool_decide (st_my_pos st !! hc_level h = Some (hc_pos h)) then st
  else
    let known := bool_decide (is_Some (st_participant_set st !! p_id)) in
    if negb known && negb (bool_decide (is_Some (st_services st !! p_id))) &&
       (pc_max_services (st_config st) <=? size (st_participant_set st))
    then upd_warned st ({[p_id]} ∪ st_capacity_warned st)
    else
      let map := default ∅ (st_participant_set st !! p_id) in
      if negb (bool_decide (h ∈ map)) && (pc_max_participants_per_service (st_config st) <=? size map)
      then
        let st' := upd_participants st (<[p_id := map]> (st_participant_set st)) (st_snapshot st) (st_events st) in
        upd_warned st' ({[p_id]} ∪ st_capacity_warned st)
      else
        let participant_set := <[p_id := {[h]} ∪ map]> (st_participant_set st) in
        if bool_decide (h ∈ map)
        then upd_participants st participant_set (st_snapshot st) (st_events st)
        else
          let s := st_snapshot st in
          let sn := mkSnapshot (st_retrieved_below_level st)
            (<[p_id := {[h]} ∪ default ∅ (sn_participants s !! p_id)]> (sn_participants s)) in
          upd_participants st participant_set sn (st_events st ++ [ParticipantAdded p_id h]).

Definition produce_maps_copy {E} (st : State) : res E ParticipantSet :=
  my0 ← expect (st_my_pos st !! 0);
  let out := set_fold (λ p_id (out : gmap Z ParticipantMap), <[p_id := {[mkHCoord 0 my0]} ∪ default ∅ (out !! p_id)]> out)
    (st_participant_set st) (st_my_services st) in
  Ok (produce_below_level out (st_my_pos st) (st_retrieved_below_level st)).

(** [i32::wrapping_add(1)] *)
Definition i32_wrapping_succ (n : Z) : Z := ((n + 1 + 2 ^ 31) mod 2 ^ 32 - 2 ^ 31)%Z.

(** The loop that draws an id no search is using.  [hash_one] is the keyed hash
    of the counter, truncated to [i32]; [None] when the fuel ends first. *)
Fixpoint draw_msg_id (hash_one : Z → Z) (waiting : gmap Z WaitingAnswer) (next : Z) (fuel : nat) : Z * option Z :=
  match fuel with
  | 0 => (next, None)
  | S fuel' =>
      let next' := i32_wrapping_succ next in
      let candidate := hash_one next' in
      if bool_decide (is_Some (waiting !! candidate)) then draw_msg_id hash_one waiting next' fuel' else (next', Some candidate)
  end.

(** Sends an event to the search [msg_id] when its guard holds. *)
Definition notify (st : State) (msg_id : Z) (guard : WaitingAnswer → bool) (ev : RouteEvent) : State :=
  match st_waiting st !! msg_id with
  | Some wa => if guard wa then upd_waiting st (<[msg_id := wa_send wa ev]> (st_waiting st)) else st
  | None => st
  end.

Definition get_request (st : State) (msg_id : Z) (respondant : TupleNode) : State * Reply :=
  match st_waiting st !! msg_id with
  | None => (st, RRequest (Err UnknownMessage))
  | Some wa =>
      if negb (gn_top (wa_min_target wa) =? tn_top respondant) then (st, RRequest (Err InvalidRequest))
      else
        let wa' := mkWaitingAnswer (wa_min_target wa) (Some respondant) (wa_request wa) (wa_sent wa ++ [RespondantNode respondant]) in
        (upd_waiting st (<[msg_id := wa']> (st_waiting st)), RRequest (ok_or (wa_request wa) UnknownMessage))
  end.

Definition set_next_destination (st : State) (msg_id : Z) (tuple : TupleGNode) : State :=
  match st_waiting st !! msg_id with
  | Some wa =>
      if is_deeper_or_equal wa tuple true
      then upd_waiting st (<[msg_id := mkWaitingAnswer tuple (wa_respondant_node wa) (wa_request wa)
             (wa_sent wa ++ [NextDestination tuple])]> (st_waiting st))
      else st
  | None => st
  end.

(** [retain(|_, &mut until| now < until)], once the table is large. *)
Definition prune_recent (now : Z) (recent : gmap (Z * HCoord) Z) : gmap (Z * HCoord) Z :=
  if RECENT_PUBLISHED_PRUNE_AT <=? size recent then filter (λ kv, now < kv.2)%Z recent else recent.

Definition apply_participant (st : State) (now : Z) (p_id : Z) (at_ : HCoord) : State * Reply :=
  let suppressed := match st_recent_published st !! (p_id, at_) with Some until => (now <? until)%Z | None => false end in
  if suppressed then (st, RFact None)
  else
    let recent := <[(p_id, at_) := (now + RECENT_PUBLISHED_TTL)%Z]> (prune_recent now (st_recent_published st)) in
    (add_participant (upd_recent st recent) p_id at_, RFact (Some at_)).

Definition apply_participant_set {E} (st : State) (incoming : ParticipantSet) : State * res E Reply :=
  if negb (is_fresher (st_retrieved_below_level st) incoming) then (st, Ok (RForward None))
  else
    match (fold_to_my_granularity (st_my_pos st) (topology_levels (st_topology st)) incoming : res E _) with
    | Ok folded =>
        let merged := foldl (λ st' (km : Z * ParticipantMap), foldl (λ st'' hc,
            if (st_retrieved_below_level st'' <=? hc_level hc) && (hc_level hc <? ps_retrieved_below_level folded)
            then add_participant st'' km.1 hc else st'') st' (participants km.2))
          st (bt_iter (ps_participant_set folded)) in
        let st' := upd_retrieved merged (ps_retrieved_below_level folded)
          (mkSnapshot (ps_retrieved_below_level folded) (st_participant_set merged)) in
        (st', Ok (RForward (Some (produce_below_level (st_participant_set st') (st_my_pos st') (st_retrieved_below_level st')))))
    | Err e => (st, Err e)
    | Panic => (st, Panic)
    end.

(** [State::handle], at the instant [now]. *)
Definition handle (hash_one : Z → Z) (fuel : nat) (st : State) (now : Z) (cmd : Cmd) : State * res PeerError Reply :=
  match cmd with
  | Register service =>
      let p_id := service_id service in
      (upd_services st (<[p_id := service]> (st_services st))
        (if is_optional service then {[p_id]} ∪ st_my_services st else st_my_services st), Ok RNone)
  | LookupService p_id => (st, Ok (RService (st_services st !! p_id)))
  | IsServiceOptional p_id => (st, Ok (RBool (service_optional st p_id)))
  | NonParticipantGnodes p_id target_levels => (st, RGnodes <$> non_participant_gnodes st p_id target_levels)
  | GnodeParticipates p_id level => (st, Ok (RBool (gnode_participates st p_id level)))
  | NextMsgId =>
      let r := draw_msg_id hash_one (st_waiting st) (st_next_msg_id st) fuel in
      (upd_next_msg_id st r.1, Ok (RMsgId r.2))
  | RegisterWaiting msg_id min_target request =>
      (upd_waiting st (<[msg_id := mkWaitingAnswer min_target None request []]> (st_waiting st)), Ok RNone)
  | UnregisterWaiting msg_id => (upd_waiting st (delete msg_id (st_waiting st)), Ok RNone)
  | GetRequest msg_id respondant => let r := get_request st msg_id respondant in (r.1, Ok r.2)
  | SetResponse msg_id response respondant =>
      (notify st msg_id (λ wa, respondant_matches wa respondant) (EvResponse response), Ok RNone)
  | SetRefuseMessage msg_id refusal respondant =>
      (notify st msg_id (λ wa, respondant_matches wa respondant) (EvRefuse refusal), Ok RNone)
  | SetRedoFromStart msg_id respondant =>
      (notify st msg_id (λ wa, respondant_matches wa respondant) EvRedoFromStart, Ok RNone)
  | SetNextDestination msg_id tuple => (set_next_destination st msg_id tuple, Ok RNone)
  | SetFailure msg_id tuple => (notify st msg_id (λ wa, is_deeper_or_equal wa tuple false) (Failure tuple), Ok RNone)
  | SetNonParticipant msg_id tuple =>
      (notify st msg_id (λ wa, is_deeper_or_equal wa tuple false) (NonParticipant tuple), Ok RNone)
  | SetMissingOptionalMaps msg_id => (notify st msg_id (λ _, true) MissingOptionalMaps, Ok RNone)
  | ApplyParticipant p_id at_ => let r := apply_participant st now p_id at_ in (r.1, Ok r.2)
  | MyOptionalServices => (st, Ok (RServices (sort_by Z.leb (elements (st_my_services st)))))
  | AskParticipantMaps => (st, RMaps <$> produce_maps_copy st)
  | ApplyParticipantSet incoming => apply_participant_set st incoming
  | ObserveOriginSequence signer sequence =>
      let r := observe (st_origin_replay st) signer sequence in
      (upd_replay st r.1, match r.2 with Panic => Panic | x => Ok (RObserve x) end)
  end.
End Actor.
