(* ===== verification/PeerStateProps.v ===== *)
(** * Peer services: invariants of the actor's state

    The participation maps keep their caps, never record the node itself and
    never forget; the retrieved level only grows; the events of a search arrive
    in an order its waiter can rely on; and the exclusions the routing code reads
    are accurate whenever the maps are. *)
From stdpp Require Import strings.
From S2P Require Import Prelude Addressing Fingerprint Domain PeerTuple Auth.
From S2P Require Import PeerState PeerDht.

(** ** Participation maps *)
Lemma elem_of_participants m h : h ∈ participants m ↔ h ∈ m.
Proof. unfold participants. by rewrite elem_of_sort_by, elem_of_elements. Qed.

Lemma elem_of_map_where f m h : h ∈ map_where f m ↔ h ∈ m ∧ f h = true.
Proof. unfold map_where. by rewrite elem_of_list_to_set, elem_of_retain, elem_of_participants. Qed.

Lemma lookup_produce_below s my below p m :
  ps_participant_set (produce_below_level s my below) !! p = Some m ↔
  m ≠ ∅ ∧ ∃ m0, s !! p = Some m0 ∧ m = map_where (λ hc, hc_level hc <? below) m0.
Proof.
  unfold produce_below_level. cbn. rewrite lookup_omap. destruct (s !! p) as [m0|]; cbn; [|naive_solver].
  case_bool_decide; naive_solver.
Qed.

(** A coordinate the topology can represent. *)
Definition in_range (t : Topology) (h : HCoord) : Prop :=
  ∃ g, topology_gsize t (hc_level h) = Some g ∧ (hc_pos h < g)%Z.

Lemma participant_map_is_valid_iff t m : participant_map_is_valid t m = true ↔ ∀ h, h ∈ m → in_range t h.
Proof.
  unfold participant_map_is_valid, in_range. rewrite all_true. setoid_rewrite elem_of_participants. split; intros Hv h Hh; specialize (Hv h Hh).
  - destruct (topology_gsize t (hc_level h)); [|done]. eexists. split; [done|]. by apply Z.ltb_lt.
  - destruct Hv as (g & -> & ?). by apply Z.ltb_lt.
Qed.

Lemma participant_set_is_valid_iff t s : participant_set_is_valid t s = true ↔
  ps_retrieved_below_level s ≤ topology_levels t ∧ length (ps_my_pos s) = topology_levels t ∧
  (∀ l p, ps_my_pos s !! l = Some p → ∃ g, topology_gsize t l = Some g ∧ (p < g)%Z) ∧
  (∀ p m h, ps_participant_set s !! p = Some m → h ∈ m → in_range t h).
Proof.
  unfold participant_set_is_valid. rewrite !andb_true_iff, Nat.leb_le, Nat.eqb_eq, !all_true.
  split.
  - intros [[[H1 H2] H3] H4]. split; [done|]. split; [done|]. split.
    + intros l p Hl. specialize (H3 (l, p) (proj2 (elem_of_enumerate _ _ _) Hl)). cbn [fst snd] in H3.
      destruct (topology_gsize t l); [|done]. eexists. split; [done|]. by apply Z.ltb_lt.
    + intros p m h Hm Hh. specialize (H4 (p, m) (proj2 (elem_of_bt_iter _ _ _) Hm)). cbn in H4.
      rewrite participant_map_is_valid_iff in H4. by apply H4.
  - intros (H1 & H2 & H3 & H4). split; [split; [by split|]|].
    + intros [l p] Hl%elem_of_enumerate. cbn [fst snd]. destruct (H3 l p Hl) as (g & -> & ?). by apply Z.ltb_lt.
    + intros [p m] Hm%elem_of_bt_iter. cbn. rewrite participant_map_is_valid_iff. intros h Hh. by apply (H4 p m).
Qed.

(** The level the fold works at: the highest on which two addresses differ. *)
Lemma mdg_loop_spec {E} my other l :
  l < length my → l < length other →
  ∃ m, (mdg_loop my other l : res E nat) = Ok m ∧ m ≤ l ∧ (∀ i, m < i ≤ l → my !! i = other !! i) ∧
    (0 < m → my !! m ≠ other !! m).
Proof.
  induction l as [|l IH]; intros Hm Ho; cbn [mdg_loop].
  { exists 0. split; [done|]. split; [lia|]. split; [intros; lia|lia]. }
  destruct (lookup_lt_is_Some_2 my (S l) Hm) as [a Ha], (lookup_lt_is_Some_2 other (S l) Ho) as [b Hb].
  rewrite Ha, Hb. cbn [expect mbind res_bind]. destruct (Z.eqb_spec a b) as [->|Hne].
  - destruct IH as (m & Hm' & Hle & Heq & Hd); [lia..|]. exists m. split; [done|]. split; [lia|]. split; [|done].
    intros i Hi. destruct (decide (i = S l)) as [->|]; [congruence|apply Heq; lia].
  - exists (S l). split; [done|]. split; [lia|]. split; [intros; lia|]. intros _. congruence.
Qed.

Lemma fold_to_my_granularity_Ok {E} my levels incoming :
  length my = levels → length (ps_my_pos incoming) = levels → 0 < levels →
  ∃ m pos folded, (fold_to_my_granularity my levels incoming : res E _) = Ok folded ∧
    m < levels ∧ ps_my_pos incoming !! m = Some pos ∧ (∀ i, m < i < levels → my !! i = ps_my_pos incoming !! i) ∧
    (0 < m → my !! m ≠ Some pos) ∧
    ps_retrieved_below_level folded = ps_retrieved_below_level incoming ∧ ps_my_pos folded = ps_my_pos incoming ∧
    ∀ p, match ps_participant_set incoming !! p, ps_participant_set folded !! p with
         | Some a, Some b => ∀ h, h ∈ b ↔ (h ∈ a ∧ m ≤ hc_level h) ∨ (h = mkHCoord m pos ∧ ∃ h', h' ∈ a ∧ hc_level h' < m)
         | None, None => True
         | _, _ => False
         end.
Proof.
  intros Hl Hi Hpos. destruct (mdg_loop_spec (E := E) my (ps_my_pos incoming) (levels - 1)) as (m & Hm & Hle & Heq & Hd); [lia..|].
  destruct (lookup_lt_is_Some_2 (ps_my_pos incoming) m) as [pos Hp]; [lia|]. exists m, pos.
  unfold fold_to_my_granularity. rewrite Hl, Hi, Nat.eqb_refl, (proj2 (Nat.ltb_lt _ _) Hpos). cbn [assert mbind res_bind].
  rewrite Hm. cbn [mbind res_bind]. rewrite Hp. cbn [expect mbind res_bind]. eexists. split; [done|].
  split; [lia|]. split; [done|]. split; [intros i Hi'; apply Heq; lia|]. split; [by rewrite <-Hp|]. split; [done|]. split; [done|].
  intros p. cbn [ps_participant_set]. rewrite lookup_fmap. destruct (ps_participant_set incoming !! p) as [a|]; cbn; [|done].
  intros h. destruct (any (λ hc, hc_level hc <? m) (participants a)) eqn:Hany.
  - apply any_true in Hany as (h' & Hh'%elem_of_participants & Hlt%Nat.ltb_lt).
    rewrite elem_of_union, elem_of_singleton, elem_of_map_where, Nat.leb_le. naive_solver.
  - rewrite elem_of_map_where, Nat.leb_le. split; [naive_solver|]. intros [?|(-> & h' & Hh' & Hlt)]; [done|].
    rewrite any_false in Hany. specialize (Hany h' (proj2 (elem_of_participants _ _) Hh')). apply Nat.ltb_ge in Hany. lia.
Qed.

(** ** The events of a search *)
Definition is_respondant (ev : RouteEvent) : bool := match ev with RespondantNode _ => true | _ => false end.

(** An event a waiter of a search scoped to [top] can accept, once a respondant
    is known ([seen]) or not. *)
Definition ev_ok (t : Topology) (top : nat) (seen : bool) (ev : RouteEvent) : Prop :=
  match ev with
  | NextDestination g | Failure g | NonParticipant g => gn_wf t g ∧ gn_top g = top
  | RespondantNode n => tn_wf t n ∧ tn_top n = top
  | EvResponse _ | EvRefuse _ | EvRedoFromStart => seen = true
  | MissingOptionalMaps => True
  end.

Fixpoint events_ok (t : Topology) (top : nat) (seen : bool) (evs : list RouteEvent) : Prop :=
  match evs with
  | [] => True
  | ev :: evs' => ev_ok t top seen ev ∧ events_ok t top (seen || is_respondant ev) evs'
  end.

Lemma events_ok_snoc t top seen evs ev :
  events_ok t top seen (evs ++ [ev]) ↔ events_ok t top seen evs ∧ ev_ok t top (seen || any is_respondant evs) ev.
Proof.
  revert seen. induction evs as [|e evs IH]; intros seen; cbn.
  - unfold any. cbn. rewrite orb_false_r. tauto.
  - rewrite IH. unfold any. cbn. rewrite orb_assoc. tauto.
Qed.

Lemma events_ok_at t top seen pre ev post :
  events_ok t top seen (pre ++ ev :: post) → ev_ok t top (seen || any is_respondant pre) ev.
Proof.
  revert seen. induction pre as [|e pre IH]; intros seen; cbn; [intros [? _]; unfold any; cbn; by rewrite orb_false_r|].
  intros [_ Hr]. apply IH in Hr. unfold any in *. cbn. by rewrite orb_assoc.
Qed.

Definition wa_ok (t : Topology) (wa : WaitingAnswer) : Prop :=
  events_ok t (gn_top (wa_min_target wa)) false (wa_sent wa) ∧
  (is_Some (wa_respondant_node wa) → any is_respondant (wa_sent wa) = true).

Lemma respondant_matches_seen t wa n : wa_ok t wa → respondant_matches wa n = true → any is_respondant (wa_sent wa) = true.
Proof. intros [_ Hr] Hm. apply Hr. unfold respondant_matches in Hm. by destruct (wa_respondant_node wa). Qed.

Lemma wa_send_ok t wa ev :
  wa_ok t wa → ev_ok t (gn_top (wa_min_target wa)) (any is_respondant (wa_sent wa)) ev → wa_ok t (wa_send wa ev).
Proof.
  intros [He Hr] Hev. split; cbn; [by apply events_ok_snoc|]. intros Hs. by rewrite any_app, (Hr Hs).
Qed.

Lemma is_deeper_top wa g b : is_deeper_or_equal wa g b = true → gn_top g = gn_top (wa_min_target wa).
Proof. unfold is_deeper_or_equal. destruct (Nat.eqb_spec (gn_top (wa_min_target wa)) (gn_top g)); cbn; [done|]. by intros. Qed.

(** ** Participation facts *)

(** Maps only gain facts. *)
Definition grows (a b : gmap Z ParticipantMap) : Prop :=
  ∀ p m, a !! p = Some m → ∃ m', b !! p = Some m' ∧ m ⊆ m'.

#[export] Instance grows_preorder : PreOrder grows.
Proof.
  split.
  - intros a p m Hm. by exists m.
  - intros a b c Hab Hbc p m (m' & Hm' & ?)%Hab. destruct (Hbc p m' Hm') as (m'' & ? & ?). exists m''. split; [done|set_solver].
Qed.

Section Props.
Context {Svc : Type} `{PeerService Svc} `{Crypto} `{HashOrder}.
#[local] Abbreviation PState := (State (Svc := Svc)).

Record state_inv (st : PState) : Prop := {
  si_topology : topology_wf (st_topology st);
  si_address : address (st_topology st) (st_my_pos st);
  si_not_me : ∀ p m h, st_participant_set st !! p = Some m → h ∈ m → st_my_pos st !! hc_level h ≠ Some (hc_pos h);
  si_in_range : ∀ p m h, st_participant_set st !! p = Some m → h ∈ m → in_range (st_topology st) h;
  si_level : st_retrieved_below_level st ≤ topology_levels (st_topology st);
  si_map_cap : ∀ p m, st_participant_set st !! p = Some m → size m ≤ pc_max_participants_per_service (st_config st);
  si_services_cap : size (dom (st_participant_set st) ∖ dom (st_services st)) ≤ pc_max_services (st_config st);
  si_snapshot : ∀ p, default ∅ (sn_participants (st_snapshot st) !! p) = default ∅ (st_participant_set st !! p);
  si_my_services : st_my_services st ⊆ dom (st_services st);
  si_waiting : ∀ id wa, st_waiting st !! id = Some wa → wa_ok (st_topology st) wa
}.

(** Fields that stay the same. *)
Definition same_frame (a b : PState) : Prop :=
  st_topology b = st_topology a ∧ st_my_pos b = st_my_pos a ∧ st_config b = st_config a ∧
  st_services b = st_services a ∧ st_my_services b = st_my_services a ∧ st_waiting b = st_waiting a ∧
  st_retrieved_below_level b = st_retrieved_below_level a ∧ st_origin_replay b = st_origin_replay a.

Lemma same_frame_refl (a : PState) : same_frame a a.
Proof. done. Qed.

Lemma same_frame_trans a b c : same_frame a b → same_frame b c → same_frame a c.
Proof. unfold same_frame. naive_solver congruence. Qed.

(** Every branch of [add_participant]. *)
Lemma add_participant_cases (P : PState → Prop) st p h :
  (st_my_pos st !! hc_level h = Some (hc_pos h) → P st) →
  (∀ w, P (upd_warned st w)) →
  (∀ w, st_my_pos st !! hc_level h ≠ Some (hc_pos h) →
    (is_Some (st_participant_set st !! p) ∨ is_Some (st_services st !! p) ∨ size (st_participant_set st) < pc_max_services (st_config st)) →
    P (upd_warned (upd_participants st (<[p := default ∅ (st_participant_set st !! p)]> (st_participant_set st)) (st_snapshot st) (st_events st)) w)) →
  (st_my_pos st !! hc_level h ≠ Some (hc_pos h) →
    (is_Some (st_participant_set st !! p) ∨ is_Some (st_services st !! p) ∨ size (st_participant_set st) < pc_max_services (st_config st)) →
    h ∈ default ∅ (st_participant_set st !! p) →
    P (upd_participants st (<[p := {[h]} ∪ default ∅ (st_participant_set st !! p)]> (st_participant_set st)) (st_snapshot st) (st_events st))) →
  (∀ evs, st_my_pos st !! hc_level h ≠ Some (hc_pos h) →
    (is_Some (st_participant_set st !! p) ∨ is_Some (st_services st !! p) ∨ size (st_participant_set st) < pc_max_services (st_config st)) →
    h ∉ default ∅ (st_participant_set st !! p) →
    size (default ∅ (st_participant_set st !! p)) < pc_max_participants_per_service (st_config st) →
    P (upd_participants st (<[p := {[h]} ∪ default ∅ (st_participant_set st !! p)]> (st_participant_set st))
        (mkSnapshot (st_retrieved_below_level st)
          (<[p := {[h]} ∪ default ∅ (sn_participants (st_snapshot st) !! p)]> (sn_participants (st_snapshot st)))) evs)) →
  P (add_participant st p h).
Proof.
  intros Hme Hfull Hcap Hdup Hnew. unfold add_participant. case_bool_decide as Hm; [by apply Hme|].
  destruct (_ && _ && _) eqn:Hb; [apply Hfull|].
  assert (is_Some (st_participant_set st !! p) ∨ is_Some (st_services st !! p) ∨
    size (st_participant_set st) < pc_max_services (st_config st)) as Hroom.
  { rewrite !andb_false_iff, !negb_false_iff, !bool_decide_eq_true, Nat.leb_gt in Hb. tauto. }
  cbv zeta. set (m := default ∅ (st_participant_set st !! p)) in *. destruct (decide (h ∈ m)) as [Hin|Hin].
  - rewrite (bool_decide_true _ Hin). cbn [negb andb]. by apply Hdup.
  - rewrite (bool_decide_false _ Hin). cbn [negb andb].
    destruct (Nat.leb_spec (pc_max_participants_per_service (st_config st)) (size m)); [by apply Hcap|by apply Hnew].
Qed.

(** The facts [add_participant] leaves in the maps. *)
Lemma add_participant_facts (st : PState) p h :
  same_frame st (add_participant st p h) ∧ grows (st_participant_set st) (st_participant_set (add_participant st p h)) ∧
  (∀ q m x, st_participant_set (add_participant st p h) !! q = Some m → x ∈ m →
    (∃ m0, st_participant_set st !! q = Some m0 ∧ x ∈ m0) ∨ (q = p ∧ x = h ∧ st_my_pos st !! hc_level h ≠ Some (hc_pos h))).
Proof.
  assert (∀ m', grows (st_participant_set st) (<[p := m' ∪ default ∅ (st_participant_set st !! p)]> (st_participant_set st))) as Hg.
  { intros m' q m Hq. destruct (decide (q = p)) as [->|Hne].
    - rewrite lookup_insert_eq, Hq. cbn. eexists. split; [done|set_solver].
    - rewrite lookup_insert_ne by done. by exists m. }
  apply add_participant_cases.
  - intros _. split; [done|]. split; [done|]. naive_solver.
  - intros w. split; [done|]. split; [done|]. naive_solver.
  - intros w _ _. split; [done|]. split; [specialize (Hg ∅); by rewrite (left_id_L ∅ (∪)) in Hg|]. cbn.
    intros q m x [[<- <-]|[Hne Hq]]%lookup_insert_Some Hx; [|naive_solver]. left.
    destruct (st_participant_set st !! p) as [m0|]; cbn in Hx; [by exists m0|set_solver].
  - intros Hne _ _. split; [done|]. split; [apply Hg|]. cbn.
    intros q m x [[<- <-]|[Hq1 Hq]]%lookup_insert_Some Hx; [|naive_solver]. apply elem_of_union in Hx as [->%elem_of_singleton|Hx]; [by right|].
    left. destruct (st_participant_set st !! p) as [m0|]; cbn in Hx; [by exists m0|set_solver].
  - intros evs Hne _ _ _. split; [done|]. split; [apply Hg|]. cbn.
    intros q m x [[<- <-]|[Hq1 Hq]]%lookup_insert_Some Hx; [|naive_solver]. apply elem_of_union in Hx as [->%elem_of_singleton|Hx]; [by right|].
    left. destruct (st_participant_set st !! p) as [m0|]; cbn in Hx; [by exists m0|set_solver].
Qed.

Lemma insert_services_cap (ps : gmap Z ParticipantMap) (services : gmap Z Svc) p m n :
  size (dom ps ∖ dom services) ≤ n → (is_Some (ps !! p) ∨ is_Some (services !! p) ∨ size ps < n) →
  size (dom (<[p := m]> ps) ∖ dom services) ≤ n.
Proof.
  intros Hle Hroom. rewrite dom_insert_L. destruct (decide (p ∈ dom ps ∪ dom services)) as [Hin|Hin].
  - replace (({[p]} ∪ dom ps) ∖ dom services) with (dom ps ∖ dom services) by set_solver. done.
  - destruct Hroom as [Hp|[Hp|Hlt]]; [apply elem_of_dom in Hp; set_solver..|].
    assert (size (({[p]} ∪ dom ps) ∖ dom services) ≤ size ({[p]} ∪ dom ps)) as Hsub by (apply subseteq_size; set_solver).
    assert (size ({[p]} ∪ dom ps) = 1 + size ps) as Hsz; [|lia].
    rewrite size_union by set_solver. by rewrite size_singleton, size_dom.
Qed.

Lemma add_participant_inv (st : PState) p h :
  in_range (st_topology st) h → state_inv st → state_inv (add_participant st p h).
Proof.
  intros Hr Hinv. destruct (add_participant_facts st p h) as ((E1 & E2 & E3 & E4 & E5 & E6 & _) & _ & Hfacts).
  assert (∀ q m x, st_participant_set (add_participant st p h) !! q = Some m → x ∈ m →
    st_my_pos st !! hc_level x ≠ Some (hc_pos x)) as Hme.
  { intros q m x Hq Hx. destruct (Hfacts q m x Hq Hx) as [(m0 & Hm0 & Hx0)|(_ & -> & ?)]; [|done]. by eapply (si_not_me _ Hinv). }
  assert (∀ q m x, st_participant_set (add_participant st p h) !! q = Some m → x ∈ m → in_range (st_topology st) x) as Hrange.
  { intros q m x Hq Hx. destruct (Hfacts q m x Hq Hx) as [(m0 & Hm0 & Hx0)|(_ & -> & ?)]; [|done]. by eapply (si_in_range _ Hinv). }
  revert Hfacts E1 E2 E3 E4 E5 E6 Hme Hrange. destruct Hinv as [I1 I2 I3 IR IL I4 I5 I6 I7 I8].
  assert (∀ q, default ∅ (<[p := default ∅ (st_participant_set st !! p)]> (st_participant_set st) !! q) =
    default ∅ (st_participant_set st !! q)) as Hsame.
  { intros q. destruct (decide (q = p)) as [->|]; [by rewrite lookup_insert_eq|by rewrite lookup_insert_ne]. }
  apply add_participant_cases; [by constructor..| | |]; intros; constructor; cbn; try done.
  - intros q m [[<- <-]|[_ Hq]]%lookup_insert_Some; [|by eapply I4].
    destruct (st_participant_set st !! p) as [m0|] eqn:Hp; cbn; [by eapply I4|rewrite size_empty; lia].
  - by apply insert_services_cap.
  - intros q. by rewrite I6, Hsame.
  - intros q m [[<- <-]|[_ Hq]]%lookup_insert_Some; [|by eapply I4]. rewrite subseteq_union_1_L by set_solver.
    destruct (st_participant_set st !! p) as [m0|] eqn:Hp; cbn; [by eapply I4|rewrite size_empty; lia].
  - by apply insert_services_cap.
  - intros q. rewrite subseteq_union_1_L by set_solver. by rewrite I6, Hsame.
  - intros q m [[<- <-]|[_ Hq]]%lookup_insert_Some; [|by eapply I4]. rewrite size_union, size_singleton by set_solver. lia.
  - by apply insert_services_cap.
  - intros q. destruct (decide (q = p)) as [->|]; [by rewrite !lookup_insert_eq, I6|by rewrite !lookup_insert_ne].
Qed.

(** *** Merging a snapshot *)
Definition has_fact (st : PState) (p : Z) (h : HCoord) : Prop := ∃ m, st_participant_set st !! p = Some m ∧ h ∈ m.

Lemma has_fact_grows st st' p h : grows (st_participant_set st) (st_participant_set st') → has_fact st p h → has_fact st' p h.
Proof. intros Hg (m & Hm & Hh). destruct (Hg p m Hm) as (m' & ? & ?). exists m'. split; [done|set_solver]. Qed.

(** A fact about another g-node is recorded, or its service is marked as having
    reached a cap. *)
Lemma add_participant_records (st : PState) p h :
  st_capacity_warned st ⊆ st_capacity_warned (add_participant st p h) ∧
  (st_my_pos st !! hc_level h ≠ Some (hc_pos h) →
    has_fact (add_participant st p h) p h ∨ p ∈ st_capacity_warned (add_participant st p h)).
Proof.
  unfold add_participant. case_bool_decide; [done|]. destruct (_ && _ && _); cbn; [set_solver|].
  unfold has_fact. destruct (_ && _); cbn; [set_solver|]. case_bool_decide; cbn; (split; [done|]); intros _; left;
    eexists; (split; [apply lookup_insert_eq|set_solver]).
Qed.

(** One step of the merge loop. *)
Definition merge_fact (hi : nat) (st : PState) (ph : Z * HCoord) : PState :=
  if (st_retrieved_below_level st <=? hc_level ph.2) && (hc_level ph.2 <? hi) then add_participant st ph.1 ph.2 else st.

Lemma foldl_nested {A B S} (f : S → Z → A → S) (g : B → list A) (st : S) (l : list (Z * B)) :
  foldl (λ s km, foldl (λ s' a, f s' km.1 a) s (g km.2)) st l =
  foldl (λ s pa, f s pa.1 pa.2) st (concat ((λ km, pair km.1 <$> g km.2) <$> l)).
Proof.
  revert st. induction l as [|[k m] l IH]; intros st; [done|]. cbn [foldl fmap list_fmap concat fst snd]. rewrite foldl_app, <-IH. f_equal.
  generalize (g m). clear IH. intros ys. revert st. induction ys as [|y ys IH]; intros st; [done|]. cbn. apply IH.
Qed.

Lemma merge_facts hi (l : list (Z * HCoord)) (st : PState) :
  let st' := foldl (merge_fact hi) st l in
  same_frame st st' ∧ grows (st_participant_set st) (st_participant_set st') ∧
  st_capacity_warned st ⊆ st_capacity_warned st' ∧
  (Forall (λ ph, in_range (st_topology st) ph.2) l → state_inv st → state_inv st') ∧
  (∀ q x, has_fact st' q x → has_fact st q x ∨
    ((q, x) ∈ l ∧ st_retrieved_below_level st ≤ hc_level x < hi ∧ st_my_pos st !! hc_level x ≠ Some (hc_pos x))) ∧
  (∀ q x, (q, x) ∈ l → st_retrieved_below_level st ≤ hc_level x < hi → st_my_pos st !! hc_level x ≠ Some (hc_pos x) →
    has_fact st' q x ∨ q ∈ st_capacity_warned st').
Proof.
  revert st. induction l as [|[p h] l IH]; intros st; cbn zeta.
  { split; [done|]. split; [done|]. split; [done|]. split; [done|]. split; [naive_solver|]. intros q x Hin. by apply not_elem_of_nil in Hin. }
  cbn [foldl]. destruct (IH (merge_fact hi st (p, h))) as (Hf & Hg & Hw & Hi & Hup & Hlo). clear IH.
  assert (same_frame st (merge_fact hi st (p, h)) ∧ grows (st_participant_set st) (st_participant_set (merge_fact hi st (p, h))) ∧
    st_capacity_warned st ⊆ st_capacity_warned (merge_fact hi st (p, h)) ∧
    (in_range (st_topology st) h → state_inv st → state_inv (merge_fact hi st (p, h))) ∧
    (∀ q x, has_fact (merge_fact hi st (p, h)) q x → has_fact st q x ∨
      (q = p ∧ x = h ∧ st_retrieved_below_level st ≤ hc_level x < hi ∧ st_my_pos st !! hc_level x ≠ Some (hc_pos x))) ∧
    (st_retrieved_below_level st ≤ hc_level h < hi → st_my_pos st !! hc_level h ≠ Some (hc_pos h) →
      has_fact (merge_fact hi st (p, h)) p h ∨ p ∈ st_capacity_warned (merge_fact hi st (p, h)))) as (Hf1 & Hg1 & Hw1 & Hi1 & Hup1 & Hlo1).
  { unfold merge_fact. cbn [fst snd].
    destruct (Nat.leb_spec (st_retrieved_below_level st) (hc_level h)), (Nat.ltb_spec (hc_level h) hi); cbn [andb].
    2-4: by split; [done|]; split; [done|]; split; [done|]; split; [done|]; split; [naive_solver|]; intros; lia.
    destruct (add_participant_facts st p h) as (? & ? & Hu), (add_participant_records st p h) as [? ?].
    split; [done|]. split; [done|]. split; [done|]. split; [by apply add_participant_inv|]. split; [|naive_solver].
    intros q x (m & Hm & Hx). destruct (Hu q m x Hm Hx) as [?|(-> & -> & ?)]; [by left|]. by right. }
  destruct Hf1 as (E1 & E2 & E3 & E4 & E5 & E6 & E7 & E8). rewrite E7, E2, E1 in *.
  split; [eapply same_frame_trans; [|done]; done|]. split; [by etrans|]. split; [by etrans|].
  split; [intros [? ?]%Forall_cons; auto|]. split.
  - intros q x [Hq|(Hin & Hrest)]%Hup; [|right; split; [by right|done]].
    destruct (Hup1 q x Hq) as [?|(-> & -> & ?)]; [by left|]. right. split; [by left|done].
  - intros q x [[= -> ->]|Hin]%elem_of_cons Hlv Hne; [|by apply Hlo].
    destruct (Hlo1 Hlv Hne) as [?|?]; [left; by eapply has_fact_grows|right; by apply Hw].
Qed.

(** The facts of a snapshot, in the order the merge loop visits them. *)
Definition snapshot_facts (s : ParticipantSet) : list (Z * HCoord) :=
  concat ((λ km, pair km.1 <$> participants km.2) <$> bt_iter (ps_participant_set s)).

Lemma elem_of_snapshot_facts s p h : (p, h) ∈ snapshot_facts s ↔ ∃ m, ps_participant_set s !! p = Some m ∧ h ∈ m.
Proof.
  unfold snapshot_facts. rewrite elem_of_concat_fmap. split.
  - intros ([k m] & Hk%elem_of_bt_iter & Hin). apply list_elem_of_fmap in Hin as (x & [= -> ->] & Hx). cbn in Hx.
    exists m. by rewrite <-elem_of_participants.
  - intros (m & Hm & Hh). exists (p, m). rewrite elem_of_bt_iter. split; [done|]. apply list_elem_of_fmap. exists h.
    by rewrite elem_of_participants.
Qed.

Lemma apply_participant_set_eq {E} (st : PState) incoming folded :
  is_fresher (st_retrieved_below_level st) incoming = true →
  (fold_to_my_granularity (st_my_pos st) (topology_levels (st_topology st)) incoming : res E _) = Ok folded →
  let merged := foldl (merge_fact (ps_retrieved_below_level folded)) st (snapshot_facts folded) in
  (apply_participant_set st incoming : PState * res E _) =
  (upd_retrieved merged (ps_retrieved_below_level folded) (mkSnapshot (ps_retrieved_below_level folded) (st_participant_set merged)),
   Ok (RForward (Some (produce_below_level (st_participant_set merged) (st_my_pos merged) (ps_retrieved_below_level folded))))).
Proof.
  intros Hf Ho. cbv zeta. unfold apply_participant_set. rewrite Hf, Ho. cbn [negb]. unfold snapshot_facts.
  rewrite <-(foldl_nested (λ s p h, merge_fact (ps_retrieved_below_level folded) s (p, h)) participants st). done.
Qed.

(** *** Commands *)

(** What the decoding of a command guarantees. *)
Definition cmd_ok (t : Topology) (cmd : Cmd (Svc := Svc)) : Prop :=
  match cmd with
  | RegisterWaiting _ g _ | SetNextDestination _ g | SetFailure _ g | SetNonParticipant _ g => gn_wf t g
  | GetRequest _ n | SetResponse _ _ n | SetRefuseMessage _ _ n | SetRedoFromStart _ n => tn_wf t n
  | ApplyParticipant _ h => in_range t h
  | ApplyParticipantSet s => participant_set_is_valid t s = true
  | _ => True
  end.

(** Changing only the searches. *)
Lemma upd_waiting_inv (st : PState) w :
  state_inv st → (∀ id wa, w !! id = Some wa → wa_ok (st_topology st) wa) → state_inv (upd_waiting st w).
Proof. intros [] Hw. by constructor. Qed.

Lemma notify_inv (st : PState) id guard ev :
  state_inv st → (∀ wa, st_waiting st !! id = Some wa → guard wa = true →
    ev_ok (st_topology st) (gn_top (wa_min_target wa)) (any is_respondant (wa_sent wa)) ev) →
  state_inv (notify st id guard ev).
Proof.
  intros Hinv Hev. unfold notify. destruct (st_waiting st !! id) as [wa|] eqn:Hw; [|done]. destruct (guard wa) eqn:Hg; [|done].
  apply upd_waiting_inv; [done|]. intros id' wa' [[<- <-]|[_ Hw']]%lookup_insert_Some; [|by eapply (si_waiting _ Hinv)].
  apply wa_send_ok; [by eapply (si_waiting _ Hinv)|by apply Hev].
Qed.

Lemma get_request_inv (st : PState) id n : tn_wf (st_topology st) n → state_inv st → state_inv (get_request st id n).1.
Proof.
  intros Hn Hinv. unfold get_request. destruct (st_waiting st !! id) as [wa|] eqn:Hw; [|done].
  destruct (Nat.eqb_spec (gn_top (wa_min_target wa)) (tn_top n)) as [Heq|]; [|done].
  apply upd_waiting_inv; [done|]. intros id' wa' [[<- <-]|[_ Hw']]%lookup_insert_Some; [|by eapply (si_waiting _ Hinv)].
  pose proof (si_waiting _ Hinv _ _ Hw) as [He _]. split; cbn; [apply events_ok_snoc; split; [done|by split]|].
  intros _. rewrite any_app. apply orb_true_r.
Qed.

Lemma set_next_destination_inv (st : PState) id g :
  gn_wf (st_topology st) g → state_inv st → state_inv (set_next_destination st id g).
Proof.
  intros Hg Hinv. unfold set_next_destination. destruct (st_waiting st !! id) as [wa|] eqn:Hw; [|done].
  destruct (is_deeper_or_equal wa g true) eqn:Hd; [|done]. apply is_deeper_top in Hd as Htop.
  apply upd_waiting_inv; [done|]. intros id' wa' [[<- <-]|[_ Hw']]%lookup_insert_Some; [|by eapply (si_waiting _ Hinv)].
  pose proof (si_waiting _ Hinv _ _ Hw) as [He Hr]. split; cbn; [|intros Hs; by rewrite any_app, (Hr Hs)].
  rewrite Htop. apply events_ok_snoc. split; [done|]. by split.
Qed.

Lemma all_gnodes_Ok {E} t my lvl : topology_wf t → address t my → ∃ l, (all_gnodes_up_to_lvl t my lvl : res E _) = Ok l ∧
  ∀ h, h ∈ l ↔ (hc_level h < lvl ∧ coord_real t h ∧ my !! hc_level h ≠ Some (hc_pos h)) ∨ (hc_level h = 0 ∧ my !! 0 = Some (hc_pos h)).
Proof.
  intros Ht [Hlen Hreal]. destruct (lookup_lt_is_Some_2 my 0) as [m0 Hm0]; [pose proof (topology_levels_pos t Ht); lia|].
  unfold all_gnodes_up_to_lvl. set (f := λ lp : nat * Z, _).
  assert (∀ l p, my !! l = Some p → ∃ hs, f (l, p) = (Ok hs : res E _) ∧
    ∀ h, h ∈ hs ↔ hc_level h = l ∧ coord_real t h ∧ my !! hc_level h ≠ Some (hc_pos h)) as Hf.
  { intros l p Hp. destruct (gsize_is_Some t l) as [g Hg]; [apply lookup_lt_Some in Hp; lia|].
    unfold f. cbn [fst snd]. rewrite Hg. cbn [expect mbind res_bind]. eexists. split; [done|]. intros h. rewrite list_elem_of_fmap.
    setoid_rewrite elem_of_retain. setoid_rewrite elem_of_seqZ. split.
    - intros (q & -> & [Hq Hne]). cbn [hc_level hc_pos]. split; [done|]. apply negb_true_iff, Z.eqb_neq in Hne.
      split; [exists g; cbn; split; [done|lia]|congruence].
    - intros (<- & (g' & Hg' & Hr) & Hne). assert (g' = g) as -> by congruence. exists (hc_pos h). split; [by destruct h|].
      split; [lia|]. apply negb_true_iff, Z.eqb_neq. congruence. }
  destruct (mapM_is_Ok f (take lvl (enumerate my))) as [others Ho].
  { intros [l p] Hin. apply (list_elem_of_lookup_1) in Hin as [i Hi]. apply lookup_take_Some in Hi as [Hi _].
    apply lookup_enumerate in Hi as [-> Hi]. destruct (Hf i p Hi) as (hs & -> & _). by eexists. }
  rewrite Ho. cbn [mbind res_bind]. rewrite Hm0. cbn [expect mbind res_bind]. eexists. split; [done|].
  apply mapM_Forall2 in Ho. intros h. rewrite elem_of_app, list_elem_of_singleton, list_elem_of_In, in_concat.
  setoid_rewrite <-list_elem_of_In. f_equiv.
  - split.
    + intros (hs & Hhs & Hin). apply list_elem_of_lookup in Hhs as [i Hi].
      destruct (Forall2_lookup_r _ _ _ _ _ Ho Hi) as ([l p] & Hlp & Hlc). apply lookup_take_Some in Hlp as [Hlp Hlt].
      apply lookup_enumerate in Hlp as [-> Hp]. destruct (Hf i p Hp) as (hs' & Hhs' & Hiff). assert (hs' = hs) as -> by congruence.
      apply Hiff in Hin as (-> & ? & ?). done.
    + intros (Hl & Hr & Hne). pose proof (coord_real_level _ _ Hr). destruct (lookup_lt_is_Some_2 my (hc_level h)) as [p Hp]; [lia|].
      destruct (Forall2_lookup_l _ _ _ (hc_level h) (hc_level h, p) Ho) as (hs & Hhs & Hlc).
      { rewrite lookup_take_lt by done. apply lookup_zip_with_Some. exists (hc_level h), p. rewrite lookup_seq. split; [done|].
        split; [|done]. split; [done|]. by eapply lookup_lt_Some. }
      exists hs. split; [by eapply list_elem_of_lookup_2|]. destruct (Hf (hc_level h) p Hp) as (hs' & Hhs' & Hiff).
      assert (hs' = hs) as -> by congruence. by apply Hiff.
  - destruct h; cbn. naive_solver.
Qed.

(** The exclusions the routing code reads. *)
Lemma non_participant_gnodes_spec {E} (st : PState) p k :
  state_inv st → service_optional st p = true →
  ∃ l, (non_participant_gnodes st p k : res E _) = Ok l ∧
    (∀ h, coord_real (st_topology st) h → hc_level h < k → st_my_pos st !! hc_level h ≠ Some (hc_pos h) →
      (h ∉ l) ↔ has_fact st p h) ∧
    (∀ q, st_my_pos st !! 0 = Some q → (mkHCoord 0 q ∉ l) ↔ is_Some (st_services st !! p)).
Proof.
  intros Hinv Hopt. pose proof (si_topology _ Hinv) as Ht. pose proof (si_address _ Hinv) as Ha.
  destruct (lookup_lt_is_Some_2 (st_my_pos st) 0) as [m0 Hm0]; [pose proof (topology_levels_pos _ Ht); destruct Ha; lia|].
  destruct (all_gnodes_Ok (E := E) (st_topology st) (st_my_pos st) k Ht Ha) as (all & Hall & Hiff).
  unfold non_participant_gnodes. rewrite Hopt, Hm0, Hall. cbn [negb expect mbind res_bind]. eexists. split; [done|]. split.
  - intros h Hr Hk Hne. rewrite !elem_of_retain, Hiff. unfold has_fact.
    assert (h ≠ mkHCoord 0 m0) as Hnm by (intros ->; by apply Hne). rewrite (bool_decide_false (h = mkHCoord 0 m0) Hnm), andb_false_r.
    destruct (st_participant_set st !! p) as [m|]; cbn.
    + rewrite negb_true_iff, bool_decide_eq_false. destruct (decide (h ∈ m)); naive_solver.
    + naive_solver.
  - intros q [= <-]. rewrite !elem_of_retain, Hiff. rewrite (bool_decide_true (mkHCoord 0 m0 = _)) by done. rewrite andb_true_r.
    assert (match st_participant_set st !! p with Some m => negb (bool_decide (mkHCoord 0 m0 ∈ m)) | None => true end = true) as Hno.
    { destruct (st_participant_set st !! p) as [m|] eqn:Hp; [|done]. rewrite negb_true_iff, bool_decide_eq_false.
      intros Hin. by apply (si_not_me _ Hinv _ _ _ Hp Hin). }
    rewrite Hno, negb_true_iff, bool_decide_eq_false. cbn. destruct (st_services st !! p); naive_solver.
Qed.

Lemma apply_participant_inv (st : PState) now p h : in_range (st_topology st) h → state_inv st →
  state_inv (apply_participant st now p h).1 ∧
  grows (st_participant_set st) (st_participant_set (apply_participant st now p h).1) ∧
  same_frame st (apply_participant st now p h).1.
Proof.
  intros Hr Hinv. unfold apply_participant. destruct (match _ with Some _ => _ | None => _ end); [done|]. cbn.
  set (st' := upd_recent st _). assert (state_inv st') as Hinv' by (destruct Hinv; by constructor).
  split; [by apply add_participant_inv|]. destruct (add_participant_facts st' p h) as (Hf & Hg & _). done.
Qed.

Lemma apply_participant_set_inv (st : PState) incoming :
  participant_set_is_valid (st_topology st) incoming = true → state_inv st →
  let r := apply_participant_set (E := PeerError) st incoming in
  state_inv r.1 ∧ grows (st_participant_set st) (st_participant_set r.1) ∧
  st_retrieved_below_level r.1 = Nat.max (st_retrieved_below_level st) (ps_retrieved_below_level incoming) ∧
  st_topology r.1 = st_topology st ∧ st_my_pos r.1 = st_my_pos st ∧ st_config r.1 = st_config st ∧
  st_origin_replay r.1 = st_origin_replay st ∧ st_waiting r.1 = st_waiting st ∧ is_Ok r.2.
Proof.
  intros (Hlv & Hlen & Hpos & Hm)%participant_set_is_valid_iff Hinv. cbv zeta.
  pose proof (si_topology _ Hinv) as Ht. pose proof (si_address _ Hinv) as [Hl _].
  destruct (is_fresher (st_retrieved_below_level st) incoming) eqn:Hf.
  2:{ unfold apply_participant_set. rewrite Hf. cbn. apply Nat.ltb_ge in Hf. split; [done|]. split; [done|]. split; [lia|].
      do 5 (split; [done|]). eauto with ntk. }
  destruct (fold_to_my_granularity_Ok (E := PeerError) (st_my_pos st) (topology_levels (st_topology st)) incoming)
    as (m & pos & folded & Hfold & Hml & Hmp & _ & _ & Hret & _ & Hset); [done|done|by apply topology_levels_pos|].
  rewrite (apply_participant_set_eq st incoming folded Hf Hfold).
  destruct (merge_facts (ps_retrieved_below_level folded) (snapshot_facts folded) st) as ((E1 & E2 & E3 & E4 & E5 & E6 & E7 & E8) & Hg & _ & Hi & _).
  set (merged := foldl _ _ _) in *. cbn [fst snd]. apply Nat.ltb_lt in Hf.
  assert (state_inv merged) as Hinv'.
  { apply Hi; [|done]. apply Forall_forall. intros [p h] Hin%elem_of_snapshot_facts. cbn [snd]. destruct Hin as (b & Hb & Hh).
    specialize (Hset p). rewrite Hb in Hset. destruct (ps_participant_set incoming !! p) as [a|] eqn:Ha; [|done].
    apply Hset in Hh as [[Hh _]|[-> _]]; [by eapply Hm|]. destruct (Hpos m pos Hmp) as (g & ? & ?). by exists g. }
  split; [|split; [done|]; split; [cbn; rewrite Hret; lia|]; cbn; do 5 (split; [done|]); eauto with ntk].
  destruct Hinv'. constructor; cbn; try done. rewrite E1, Hret. done.
Qed.

(** A command's effect on the state: the invariant is kept, participation facts
    are only added, the retrieved level never falls, and nothing panics. *)
Definition ok_step (st : PState) (r : PState * res PeerError (Reply (Svc := Svc))) : Prop :=
  state_inv r.1 ∧ grows (st_participant_set st) (st_participant_set r.1) ∧
  st_retrieved_below_level st ≤ st_retrieved_below_level r.1 ∧ is_Ok r.2 ∧
  st_topology r.1 = st_topology st ∧ st_my_pos r.1 = st_my_pos st ∧ st_config r.1 = st_config st ∧
  guard_wf (st_origin_replay r.1) ∧ (sg_clock (st_origin_replay r.1) ≤ sg_clock (st_origin_replay st) + 1)%Z.

(** A command that leaves the participation data and the guard alone. *)
Definition same_facts (st st' : PState) : Prop :=
  st_participant_set st' = st_participant_set st ∧ st_retrieved_below_level st' = st_retrieved_below_level st ∧
  st_topology st' = st_topology st ∧ st_my_pos st' = st_my_pos st ∧ st_config st' = st_config st ∧
  st_origin_replay st' = st_origin_replay st.

Lemma ok_step_same st st' r :
  guard_wf (st_origin_replay st) → state_inv st' → same_facts st st' → is_Ok r → ok_step st (st', r).
Proof.
  intros Hg Hinv (E1 & E2 & E3 & E4 & E5 & E6) Hr. unfold ok_step. cbn. rewrite E1, E2, E3, E4, E5, E6.
  split; [done|]. split; [done|]. split; [done|]. do 5 (split; [done|]). lia.
Qed.

Lemma notify_same st id guard ev : same_facts st (notify st id guard ev).
Proof. unfold notify. destruct (st_waiting st !! id); [destruct (guard w)|]; done. Qed.

Lemma handle_ok_step hash_one fuel (st : PState) now cmd :
  state_inv st → cmd_ok (st_topology st) cmd → guard_wf (st_origin_replay st) → (sg_clock (st_origin_replay st) < U64_MAX)%Z →
  ok_step st (handle hash_one fuel st now cmd).
Proof.
  intros Hinv Hok Hg Hc.
  assert (∀ x, ok_step st (st, Ok x)) as Hread by (intros x; apply ok_step_same; [done|done|done|eauto with ntk]).
  assert (∀ id n ev, tn_wf (st_topology st) n → (∀ top, ev_ok (st_topology st) top true ev) →
    ok_step st (notify st id (λ wa, respondant_matches wa n) ev, Ok RNone)) as Hresp.
  { intros id n ev _ Hev. apply ok_step_same; [done| |apply notify_same|eauto with ntk]. apply notify_inv; [done|].
    intros wa Hw Hm. rewrite (respondant_matches_seen _ wa n (si_waiting _ Hinv _ _ Hw) Hm). apply Hev. }
  assert (∀ id g ev, (∀ top seen, gn_top g = top → ev_ok (st_topology st) top seen ev) →
    ok_step st (notify st id (λ wa, is_deeper_or_equal wa g false) ev, Ok RNone)) as Hdeep.
  { intros id g ev Hev. apply ok_step_same; [done| |apply notify_same|eauto with ntk]. apply notify_inv; [done|].
    intros wa Hw Hm. apply Hev. by eapply is_deeper_top. }
  destruct cmd as [s|p|p|p k|p l| |id g rq|id|id n|id v n|id rf n|id n|id g|id g|id g|id|p h| | |s|k q]; cbn in Hok |- *; try apply Hread.
  - apply ok_step_same; [done| |done|eauto with ntk]. destruct Hinv. constructor; cbn; try done.
    + etrans; [|done]. apply subseteq_size. rewrite dom_insert_L. set_solver.
    + rewrite dom_insert_L. destruct (is_optional s); set_solver.
  - apply ok_step_same; [done|done|done|]. unfold non_participant_gnodes. destruct (service_optional st p) eqn:Ho; [|cbn; eauto with ntk].
    destruct (non_participant_gnodes_spec (E := PeerError) st p k Hinv Ho) as (l & Hl & _). unfold non_participant_gnodes in Hl.
    rewrite Ho in Hl. rewrite Hl. cbn. eauto with ntk.
  - apply ok_step_same; [done| |done|eauto with ntk]. destruct Hinv. by constructor.
  - apply ok_step_same; [done| |done|eauto with ntk]. apply upd_waiting_inv; [done|].
    intros id' wa [[<- <-]|[_ Hw]]%lookup_insert_Some; [|by eapply (si_waiting _ Hinv)]. split; [done|]. by intros [? [=]].
  - apply ok_step_same; [done| |done|eauto with ntk]. apply upd_waiting_inv; [done|].
    intros id' wa [_ Hw]%lookup_delete_Some. by eapply (si_waiting _ Hinv).
  - apply ok_step_same; [done|by apply get_request_inv| |eauto with ntk]. unfold get_request.
    destruct (st_waiting st !! id); [|done]. by destruct (negb _).
  - by apply Hresp.
  - by apply Hresp.
  - by apply Hresp.
  - apply ok_step_same; [done|by apply set_next_destination_inv| |eauto with ntk]. unfold set_next_destination.
    destruct (st_waiting st !! id); [|done]. by destruct (is_deeper_or_equal _ _ _).
  - apply Hdeep. by intros top seen <-.
  - apply Hdeep. by intros top seen <-.
  - apply ok_step_same; [done| |apply notify_same|eauto with ntk]. by apply notify_inv.
  - destruct (apply_participant_inv st now p h Hok Hinv) as (Hi & Hgr & (E1 & E2 & E3 & E4 & E5 & E6 & E7 & E8)).
    unfold ok_step. cbn. rewrite E1, E2, E3, E7, E8. split; [done|]. split; [done|]. split; [done|]. split; [eauto with ntk|].
    do 4 (split; [done|]). lia.
  - apply ok_step_same; [done|done|done|]. unfold produce_maps_copy. pose proof (si_address _ Hinv) as [Hl _].
    destruct (lookup_lt_is_Some_2 (st_my_pos st) 0) as [m0 ->]; [pose proof (topology_levels_pos _ (si_topology _ Hinv)); lia|].
    cbn. eauto with ntk.
  - destruct (apply_participant_set_inv st s Hok Hinv) as (Hi & Hgr & Hr & E1 & E2 & E3 & E8 & _ & Hk).
    unfold ok_step. rewrite E1, E2, E3, E8, Hr. split; [done|]. split; [done|]. split; [lia|]. split; [done|]. do 4 (split; [done|]). lia.
  - destruct (observe (st_origin_replay st) k q) as [g' r] eqn:Ho. cbn.
    destruct (observe_wf _ k q g' r Hg Hc Ho) as (Hw & _ & Hclk & Hnp & _). unfold ok_step. cbn.
    split; [destruct Hinv; by constructor|]. split; [done|]. split; [done|]. split; [destruct r; [eauto with ntk..|done]|].
    do 4 (split; [done|]). lia.
Qed.

(** *** Runs *)

(** The commands of a run, each with the instant it is handled at. *)
Definition handle_all (hash_one : Z → Z) (fuel : nat) (st : PState) (l : list (Z * Cmd (Svc := Svc))) : PState :=
  foldl (λ s nc, (handle hash_one fuel s nc.1 nc.2).1) st l.

Lemma handle_all_inv hash_one fuel (st : PState) l :
  state_inv st → guard_wf (st_origin_replay st) → Forall (λ nc, cmd_ok (st_topology st) nc.2) l →
  (sg_clock (st_origin_replay st) + Z.of_nat (length l) ≤ U64_MAX)%Z →
  let st' := handle_all hash_one fuel st l in
  state_inv st' ∧ grows (st_participant_set st) (st_participant_set st') ∧
  st_retrieved_below_level st ≤ st_retrieved_below_level st' ∧ st_topology st' = st_topology st ∧
  guard_wf (st_origin_replay st') ∧ (sg_clock (st_origin_replay st') ≤ sg_clock (st_origin_replay st) + Z.of_nat (length l))%Z.
Proof.
  revert st. induction l as [|[now cmd] l IH]; intros st Hinv Hg Hok Hlen; cbv zeta.
  { cbn in *. split; [done|]. split; [done|]. do 3 (split; [done|]). lia. }
  apply Forall_cons in Hok as [Hc Hok]. cbn [length] in Hlen.
  destruct (handle_ok_step hash_one fuel st now cmd Hinv Hc Hg ltac:(lia)) as (Hi & Hgr & Hr & _ & E1 & _ & _ & Hg' & Hclk).
  unfold handle_all. cbn [foldl fst snd]. fold (handle_all hash_one fuel (handle hash_one fuel st now cmd).1 l).
  destruct (IH (handle hash_one fuel st now cmd).1 Hi Hg') as (Hi2 & Hgr2 & Hr2 & E2 & Hg2 & Hclk2); [by rewrite E1|lia|].
  cbn [length]. split; [done|]. split; [by etrans|]. split; [lia|]. split; [congruence|]. split; [done|lia].
Qed.

Lemma state_new_inv t my c lvl :
  topology_wf t → address t my → lvl ≤ topology_levels t → state_inv (state_new t my c lvl : PState).
Proof.
  intros Ht Ha Hl. constructor; cbn; try done; try (by intros *; rewrite lookup_empty).
  rewrite !dom_empty_L. replace (∅ ∖ ∅ : gset Z) with (∅ : gset Z) by set_solver. rewrite size_empty. lia.
Qed.

(** *** Message ids *)
Lemma draw_msg_id_fresh hash waiting n fuel n' id : draw_msg_id hash waiting n fuel = (n', Some id) → waiting !! id = None.
Proof.
  revert n. induction fuel as [|fuel IH]; intros n Hd; cbn in Hd; [done|]. case_bool_decide as Hb; [by eapply IH|].
  injection Hd as <- <-. by apply eq_None_not_Some.
Qed.

(** The counters the loop tries. *)
Fixpoint counters (n : Z) (fuel : nat) : list Z :=
  match fuel with 0 => [] | S fuel' => i32_wrapping_succ n :: counters (i32_wrapping_succ n) fuel' end.

Lemma draw_msg_id_stuck hash waiting n fuel n' :
  draw_msg_id hash waiting n fuel = (n', None) → ∀ c, c ∈ counters n fuel → is_Some (waiting !! hash c).
Proof.
  revert n. induction fuel as [|fuel IH]; intros n Hd c Hc; cbn in *; [by apply not_elem_of_nil in Hc|].
  case_bool_decide as Hb; [|done]. apply elem_of_cons in Hc as [->|Hc]; [done|by eapply IH].
Qed.

Lemma draw_msg_id_total hash waiting n fuel :
  NoDup (hash <$> counters n fuel) → size waiting < fuel → ∃ n' id, draw_msg_id hash waiting n fuel = (n', Some id) ∧ waiting !! id = None.
Proof.
  intros Hnd Hsz. destruct (draw_msg_id hash waiting n fuel) as [n' [id|]] eqn:Hd.
  { exists n', id. split; [done|]. by eapply draw_msg_id_fresh. }
  exfalso. pose proof (draw_msg_id_stuck _ _ _ _ _ Hd) as Hall.
  assert (length (hash <$> counters n fuel) = fuel) as Hl.
  { rewrite length_fmap. clear. revert n. induction fuel as [|f IH]; intros n; [done|]. cbn. by rewrite IH. }
  assert (list_to_set (hash <$> counters n fuel) ⊆ dom waiting) as Hsub.
  { intros x. rewrite elem_of_list_to_set, list_elem_of_fmap. intros (c & -> & Hc). by apply elem_of_dom, Hall. }
  apply subseteq_size in Hsub. rewrite size_list_to_set, size_dom in Hsub by done. lia.
Qed.
End Props.

(** ** Properties *)

(** A service of the examples: its id, mandatory or optional. *)
#[export] Instance pair_service : PeerService (Z * bool) := {|
  service_id := fst; is_optional := snd; requires_origin_auth := λ _ _, false |}.

(** Whatever commands a peer-services actor handles, their tuples and
    coordinates decoded against its topology, its participation data stays
    sound.  No map records the node itself or a coordinate outside the topology;
    no map exceeds its cap and no more services are tracked than the cap plus
    those registered here; the published snapshot agrees with the maps; facts
    are never forgotten and the retrieved level never falls. *)
Theorem actor_participation_invariant {Svc} `{PeerService Svc, Crypto, HashOrder} (hash_one : Z → Z) (fuel : nat)
    (t : Topology) (my : list Z) (c : PeerConfig) (lvl : nat) (l1 l2 : list (Z * Cmd (Svc := Svc))) :
  topology_wf t → address t my → lvl ≤ topology_levels t →
  Forall (λ nc, cmd_ok t nc.2) (l1 ++ l2) → (Z.of_nat (length (l1 ++ l2)) ≤ U64_MAX)%Z →
  let mid := handle_all hash_one fuel (state_new t my c lvl) l1 in
  let st := handle_all hash_one fuel mid l2 in
  state_inv st ∧ grows (st_participant_set mid) (st_participant_set st) ∧
  st_retrieved_below_level mid ≤ st_retrieved_below_level st.
Proof.
  intros Ht Ha Hl [Hok1 Hok2]%Forall_app Hlen. rewrite length_app, Nat2Z.inj_add in Hlen. cbv zeta.
  destruct (handle_all_inv hash_one fuel (state_new t my c lvl) l1) as (Hi & _ & _ & E & Hg & Hc);
    [by apply state_new_inv|apply sequence_guard_wf|done|cbn; lia|]. cbn in Hc.
  destruct (handle_all_inv hash_one fuel _ l2 Hi Hg) as (Hi2 & Hgr & Hr & _); [by rewrite E|lia|]. done.
Qed.

(** A network of the examples. *)
Definition topo_peer : Topology := mkTopology [4; 4]%Z.

Lemma topo_peer_wf : topology_wf topo_peer.
Proof. split; [done|]. repeat constructor; unfold U32_MAX; lia. Qed.

Lemma address_peer a b : (0 ≤ a < 4)%Z → (0 ≤ b < 4)%Z → address topo_peer [a; b].
Proof. intros Ha Hb. split; [done|]. intros [|[|i]] p Hp; cbn in Hp; simplify_eq; exists 4%Z; (split; [done|lia]). Qed.

Definition cmds_peer : list (Z * Cmd (Svc := Z * bool) (H0 := toy_crypto)) :=
  [(0%Z, Register (5%Z, true)); (1%Z, ApplyParticipant 5 (mkHCoord 0 3));
   (2%Z, ApplyParticipant 5 (mkHCoord 1 0))].

Lemma cmds_peer_ok : Forall (λ nc, cmd_ok topo_peer nc.2) cmds_peer.
Proof. repeat constructor; (exists 4%Z; split; [done|cbn; lia]). Qed.

Lemma actor_participation_invariant_witness :
  let st := handle_all (H0 := toy_crypto) (H1 := map_order) (λ n, n) 10
    (handle_all (H0 := toy_crypto) (H1 := map_order) (λ n, n) 10 (state_new topo_peer [1; 1]%Z peer_config_default 2) cmds_peer) [] in
  state_inv st ∧ size (st_participant_set st) = 1.
Proof.
  split; [|vm_compute; reflexivity].
  apply (actor_participation_invariant (H0 := toy_crypto) (H1 := map_order) (λ n, n) 10 topo_peer [1; 1]%Z peer_config_default 2 cmds_peer []).
  - apply topo_peer_wf.
  - apply address_peer; lia.
  - reflexivity.
  - rewrite app_nil_r. apply cmds_peer_ok.
  - vm_compute. discriminate.
Defined.

(** The events of a search reach its waiter in an order it can rely on.  In
    every state the actor reaches, an answer, a refusal or a request to restart
    was sent to a search only after the node that will answer it was announced,
    and every tuple sent is well formed and scoped as the search is; so the
    waiter's [expect] and its rebasing of the tuples cannot panic. *)
Theorem search_events_ordered {Svc} `{PeerService Svc, Crypto, HashOrder} (hash_one : Z → Z) (fuel : nat)
    (t : Topology) (my : list Z) (c : PeerConfig) (lvl : nat) (l : list (Z * Cmd (Svc := Svc))) (id : Z) (wa : WaitingAnswer) :
  topology_wf t → address t my → lvl ≤ topology_levels t → Forall (λ nc, cmd_ok t nc.2) l → (Z.of_nat (length l) ≤ U64_MAX)%Z →
  st_waiting (handle_all hash_one fuel (state_new t my c lvl) l) !! id = Some wa →
  ∀ pre ev post, wa_sent wa = pre ++ ev :: post →
    match ev with
    | EvResponse _ | EvRefuse _ | EvRedoFromStart => ∃ n, RespondantNode n ∈ pre
    | RespondantNode n => tn_wf t n ∧ tn_top n = gn_top (wa_min_target wa)
    | NextDestination g | Failure g | NonParticipant g => gn_wf t g ∧ gn_top g = gn_top (wa_min_target wa)
    | MissingOptionalMaps => True
    end.
Proof.
  intros Ht Ha Hl Hok Hlen Hw pre ev post Hsent.
  destruct (handle_all_inv hash_one fuel (state_new t my c lvl) l) as (Hi & _ & _ & E & _);
    [by apply state_new_inv|apply sequence_guard_wf|done|cbn; lia|].
  destruct (si_waiting _ Hi id wa Hw) as [He _]. rewrite E, Hsent in He. apply events_ok_at in He. cbn in He.
  assert (any is_respondant pre = true → ∃ n, RespondantNode n ∈ pre) as Hex.
  { intros (e & Hin & Hr)%any_true. destruct e; try done. eauto. }
  destruct ev; cbn in *; auto.
Qed.

Definition cmds_search : list (Z * Cmd (Svc := Z * bool) (H0 := toy_crypto)) :=
  [(0%Z, RegisterWaiting 9 (mkTupleGNode topo_peer 2 [1]%Z) None); (1%Z, SetResponse 9 (mkTypedValue "early" []) (mkTupleNode topo_peer [2; 1]%Z));
   (2%Z, GetRequest 9 (mkTupleNode topo_peer [2; 1]%Z)); (3%Z, SetResponse 9 (mkTypedValue "answer" []) (mkTupleNode topo_peer [2; 1]%Z))].

Lemma cmds_search_ok : Forall (λ nc, cmd_ok topo_peer nc.2) cmds_search.
Proof.
  assert (real_from topo_peer 0 [2; 1]%Z) as Hr by (apply address_peer; lia).
  repeat constructor; cbn; try lia; try done.
  intros [|i] p Hp; cbn in Hp; simplify_eq. exists 4%Z. split; [done|lia].
Qed.

Lemma search_events_ordered_witness :
  ∃ wa, st_waiting (handle_all (H0 := toy_crypto) (H1 := map_order) (λ n, n) 10 (state_new topo_peer [1; 1]%Z peer_config_default 2) cmds_search)
      !! 9%Z = Some wa ∧
    wa_sent wa = [RespondantNode (mkTupleNode topo_peer [2; 1]%Z); EvResponse (mkTypedValue "answer" [])] ∧
    ∃ n, RespondantNode n ∈ [RespondantNode (mkTupleNode topo_peer [2; 1]%Z)].
Proof.
  eexists. split; [vm_compute; reflexivity|]. split; [reflexivity|].
  apply (search_events_ordered (H0 := toy_crypto) (H1 := map_order) (λ n, n) 10 topo_peer [1; 1]%Z peer_config_default 2 cmds_search 9
    (mkWaitingAnswer (mkTupleGNode topo_peer 2 [1]%Z) (Some (mkTupleNode topo_peer [2; 1]%Z)) None
      [RespondantNode (mkTupleNode topo_peer [2; 1]%Z); EvResponse (mkTypedValue "answer" [])])) with
    (ev := EvResponse (mkTypedValue "answer" [])) (post := []).
  - apply topo_peer_wf.
  - apply address_peer; lia.
  - reflexivity.
  - apply cmds_search_ok.
  - vm_compute. discriminate.
  - vm_compute. reflexivity.
  - reflexivity.
Defined.

(** Merging a neighbour's fresher snapshot adds exactly what the neighbour
    knows at the levels this node lacked, seen from here.  A fact at or above
    the level where the two addresses part is taken as it is, deeper facts
    become the single fact that the neighbour's g-node participates, facts about
    this node's own g-nodes are dropped, and nothing else changes unless a cap
    marks the service; the retrieved level becomes the neighbour's. *)
Theorem participant_set_merge_exact {Svc} `{PeerService Svc, Crypto, HashOrder} (st : State (Svc := Svc)) (incoming : ParticipantSet) :
  state_inv st → participant_set_is_valid (st_topology st) incoming = true →
  st_retrieved_below_level st < ps_retrieved_below_level incoming →
  ∃ st' fwd m pos, (apply_participant_set st incoming : _ * res PeerError _) = (st', Ok (RForward (Some fwd))) ∧
    ps_my_pos incoming !! m = Some pos ∧ (∀ i, m < i → st_my_pos st !! i = ps_my_pos incoming !! i) ∧ (0 < m → st_my_pos st !! m ≠ Some pos) ∧
    st_retrieved_below_level st' = ps_retrieved_below_level incoming ∧
    ∀ q h,
      let known := ∃ a, ps_participant_set incoming !! q = Some a ∧
        ((h ∈ a ∧ m ≤ hc_level h) ∨ (h = mkHCoord m pos ∧ ∃ h', h' ∈ a ∧ hc_level h' < m)) in
      let news := known ∧ st_retrieved_below_level st ≤ hc_level h < ps_retrieved_below_level incoming ∧
        st_my_pos st !! hc_level h ≠ Some (hc_pos h) in
      (has_fact st' q h → has_fact st q h ∨ news) ∧
      (has_fact st q h ∨ news → has_fact st' q h ∨ q ∈ st_capacity_warned st').
Proof.
  intros Hinv Hv Hlt. pose proof Hv as (Hlv & Hlen & Hpos & _)%participant_set_is_valid_iff.
  pose proof (si_topology _ Hinv) as Ht. pose proof (si_address _ Hinv) as [Hl _].
  destruct (fold_to_my_granularity_Ok (E := PeerError) (st_my_pos st) (topology_levels (st_topology st)) incoming)
    as (m & pos & folded & Hfold & Hml & Hmp & Habove & Hdiff & Hret & _ & Hset); [done|done|by apply topology_levels_pos|].
  rewrite (apply_participant_set_eq st incoming folded (proj2 (Nat.ltb_lt _ _) Hlt) Hfold).
  destruct (merge_facts (ps_retrieved_below_level folded) (snapshot_facts folded) st) as (_ & Hg & _ & _ & Hup & Hlo).
  set (merged := foldl _ _ _) in *. do 4 eexists. split; [done|]. split; [done|]. split; [|split; [done|]].
  { intros i Hi. destruct (decide (i < topology_levels (st_topology st))); [by apply Habove|]. by rewrite !lookup_ge_None_2 by lia. }
  split; [done|]. intros q h. cbv zeta. unfold has_fact at 1 4. cbn [st_participant_set upd_retrieved st_capacity_warned].
  fold (has_fact merged q h). rewrite Hret in *.
  assert ((q, h) ∈ snapshot_facts folded ↔ ∃ a, ps_participant_set incoming !! q = Some a ∧
    ((h ∈ a ∧ m ≤ hc_level h) ∨ (h = mkHCoord m pos ∧ ∃ h', h' ∈ a ∧ hc_level h' < m))) as Hknown.
  { rewrite elem_of_snapshot_facts. specialize (Hset q).
    destruct (ps_participant_set incoming !! q) as [a|], (ps_participant_set folded !! q) as [b|]; naive_solver. }
  rewrite <-Hknown. split; [apply Hup|]. intros [Hf|(Hin & Hl' & Hne)]; [left; by eapply has_fact_grows|by apply Hlo].
Qed.

(** The actor of an example node, and what a neighbour tells it. *)
Definition st_peer : State (Svc := Z * bool) (H0 := toy_crypto) := state_new (H0 := toy_crypto) topo_peer [1; 1]%Z peer_config_default 0.
Definition incoming_peer : ParticipantSet := mkParticipantSet 2 [2; 3]%Z {[ 5%Z := {[mkHCoord 0 1; mkHCoord 1 0]} ]}.

Lemma participant_set_merge_exact_witness :
  (∃ st' fwd m pos, (apply_participant_set (H0 := toy_crypto) st_peer incoming_peer : _ * res PeerError _) = (st', Ok (RForward (Some fwd))) ∧
    ps_my_pos incoming_peer !! m = Some pos ∧ st_retrieved_below_level st' = 2) ∧
  st_participant_set (apply_participant_set (H0 := toy_crypto) (E := PeerError) st_peer incoming_peer).1 =
    {[ 5%Z := {[mkHCoord 1 3; mkHCoord 1 0]} ]}.
Proof.
  split; [|vm_compute; reflexivity].
  destruct (participant_set_merge_exact (H0 := toy_crypto) (H1 := map_order) st_peer incoming_peer) as (st' & fwd & m & pos & H1 & H2 & _ & _ & H3 & _).
  - apply state_new_inv; [apply topo_peer_wf|apply address_peer; lia|cbn; lia].
  - vm_compute. reflexivity.
  - cbn. lia.
  - exists st', fwd, m, pos. done.
Defined.

(** The maps of [st] tell exactly which g-nodes hold a participant of [p]. *)
Definition maps_accurate {Svc} `{Crypto} (st : State (Svc := Svc)) (P : list (list Z)) (p : Z) : Prop :=
  (∀ h, coord_real (st_topology st) h → st_my_pos st !! hc_level h ≠ Some (hc_pos h) →
    (∃ m, st_participant_set st !! p = Some m ∧ h ∈ m) ↔ ∃ y, y ∈ P ∧ represents (st_my_pos st) h y) ∧
  (is_Some (st_services st !! p) ↔ st_my_pos st ∈ P).

(** Actors with accurate maps of the example network. *)
Definition coords_peer : list HCoord := (mkHCoord 0 <$> [0; 1; 2; 3]%Z) ++ (mkHCoord 1 <$> [0; 1; 2; 3]%Z).
Definition map_peer (n : list Z) : ParticipantMap :=
  list_to_set (retain (λ h, negb (bool_decide (n !! hc_level h = Some (hc_pos h))) && map_of participants_dht n h) coords_peer).
Definition st_of (n : list Z) : State (Svc := Z * bool) (H0 := toy_crypto) :=
  upd_participants
    (upd_services (state_new (H0 := toy_crypto) topo_dht n peer_config_default 2)
      (if contains n participants_dht then {[ 5%Z := (5%Z, true) ]} else ∅) ∅)
    {[ 5%Z := map_peer n ]} (mkSnapshot 2 {[ 5%Z := map_peer n ]}) [].

Lemma elem_of_coords_peer h : h ∈ coords_peer ↔ coord_real topo_dht h.
Proof.
  unfold coords_peer. rewrite elem_of_app, !list_elem_of_fmap. setoid_rewrite elem_of_cons. setoid_rewrite elem_of_cons.
  setoid_rewrite elem_of_cons. setoid_rewrite elem_of_cons. setoid_rewrite elem_of_nil. split.
  - intros [(p & -> & Hp)|(p & -> & Hp)]; exists 4%Z; (split; [done|cbn; naive_solver lia]).
  - destruct h as [l p]. intros (g & Hg & Hp). cbn in *. destruct l as [|[|l]]; cbn in Hg; simplify_eq; [left|right]; exists p;
      (split; [done|lia]).
Qed.

Lemma elem_of_map_peer n h : h ∈ map_peer n ↔ coord_real topo_dht h ∧ n !! hc_level h ≠ Some (hc_pos h) ∧ map_of participants_dht n h = true.
Proof.
  unfold map_peer. rewrite elem_of_list_to_set, elem_of_retain, elem_of_coords_peer, andb_true_iff, negb_true_iff, bool_decide_eq_false. done.
Qed.

Lemma st_of_inv n : address topo_dht n → state_inv (st_of n).
Proof.
  intros Ha. constructor; cbn [st_of upd_participants upd_services st_topology st_my_pos st_config st_services st_my_services
    st_participant_set st_waiting st_snapshot st_retrieved_below_level state_new sn_participants].
  - apply topo_dht_wf.
  - done.
  - intros p m h [<- <-]%lookup_singleton_Some Hh%elem_of_map_peer. naive_solver.
  - intros p m h [<- <-]%lookup_singleton_Some Hh%elem_of_map_peer. destruct Hh as ((g & ? & ?) & _). exists g. split; [done|lia].
  - done.
  - intros p m [<- <-]%lookup_singleton_Some. unfold map_peer. etrans; [apply (subseteq_size _ (list_to_set coords_peer))|].
    + intros h. rewrite !elem_of_list_to_set, elem_of_retain. naive_solver.
    + apply Nat.leb_le. vm_compute. reflexivity.
  - etrans; [apply (subseteq_size _ {[5%Z]}); rewrite dom_singleton_L; set_solver|]. rewrite size_singleton. apply Nat.leb_le. reflexivity.
  - done.
  - set_solver.
  - intros id wa Hw. by rewrite lookup_empty in Hw.
Qed.

Lemma st_of_accurate n : address topo_dht n → maps_accurate (st_of n) participants_dht 5.
Proof.
  intros Ha. split; cbn [st_of upd_participants upd_services st_topology st_my_pos st_participant_set st_services].
  - intros h Hr Hne. destruct (map_of_knows topo_dht participants_dht n 2 topo_dht_wf Ha) as [Hg _].
    assert (map_of participants_dht n h = true ↔ ∃ y, y ∈ participants_dht ∧ represents n h y) as Hm.
    { unfold map_of. rewrite any_true. setoid_rewrite andb_true_iff. setoid_rewrite bool_decide_eq_true. by setoid_rewrite <-agree_above_drop. }
    rewrite <-Hm. split.
    + intros (m & [_ <-]%lookup_singleton_Some & Hh%elem_of_map_peer). naive_solver.
    + intros Hmo. exists (map_peer n). rewrite lookup_singleton_eq. split; [done|]. by apply elem_of_map_peer.
  - destruct (contains n participants_dht) eqn:Hc.
    + apply contains_true in Hc. rewrite lookup_singleton_eq. split; [done|]. by eexists.
    + apply contains_false in Hc. rewrite lookup_empty. split; [by intros [? ?]|done].
Qed.
