(* ===== verification/PeerRouting.v ===== *)
(** * Peer services: routing requests

    Models [routing.rs] and [stub.rs] of [crates/ntk-peerservices]: the client
    side [contact_peer] and [replicate], the server side [forward_msg], and the
    retry loop [try_forward] they share.

    What the rest of the daemon answers along the way — whether a g-node exists,
    the replies of the actor, the fate of each send, the events of a search — is
    an argument, given per attempt: [contact_peer] reads the answers of its
    [n]-th hop from [cw_attempt w n]; the events of a search depend on the target it
    was registered with.  A wait that ends without an event is the
    end of the attempt's list of events.  Every definition returns [Panic] where
    the Rust code would. *)
From stdpp Require Import strings.
From S2P Require Import Prelude Addressing Fingerprint Domain PeerTuple Auth.
From S2P Require Import PeerState.

(** ** Messages (stub.rs) *)
Record PeerMessageForwarder := mkForwarder {
  mf_inside_level : nat;
  mf_n : TupleNode;
  mf_x_macron : option TupleNode;
  mf_lvl : nat;
  mf_pos : Z;
  mf_p_id : Z;
  mf_msg_id : Z;
  mf_exclude_tuple_list : list TupleGNode;
  mf_non_participant_tuple_list : list TupleGNode;
  mf_auth : option Auth
}.

Inductive ContactPeerError := NoParticipants | Database (message : string) | TooManyHops (max : nat).

Definition format_refusals (refusals : list Refusal) : string :=
  foldl (λ out r, out +:+ rf_message r +:+ " - ") "" refusals.

Definition actor_shut_down : ContactPeerError := Database "peerservices actor is shutting down".

(** ** Sending *)

(** One round of [try_forward]. *)
Inductive Round := ShutDown | NoGateway | Accepted | Failed.

Fixpoint try_forward (rounds : nat → Round) (i attempts : nat) : bool :=
  match attempts with
  | 0 => false
  | S attempts' =>
      match rounds i with
      | ShutDown | NoGateway => false
      | Accepted => true
      | Failed => try_forward rounds (S i) attempts'
      end
  end.

(** ** Pieces shared by the client and the server *)

(** The target, cut to the levels below the elected g-node. *)
Definition narrow_target {E} (t : Topology) (x_macron : option TupleNode) (level : nat) : res E (option TupleNode) :=
  if 0 <? level then
    x ← expect x_macron;
    pos ← slice (tn_pos x) 0 level;
    n ← unwrap (tuple_node_new t pos);
    Ok (Some n)
  else Ok None.

(** The excluded tuples hidden inside the elected g-node, in its own scope. *)
Definition narrow_excluded {E} (t : Topology) (my_pos : list Z) (x : HCoord) (l : list TupleGNode) : res E (list TupleGNode) :=
  filter_mapM (λ g,
    r ← convert_tuple_gnode my_pos g;
    if bool_decide (r.1 = Hidden) && bool_decide (r.2 = x) then
      if hc_level x <? gn_level g then Panic
      else
        pos ← slice (gn_pos g) 0 (hc_level x - gn_level g);
        g' ← unwrap (tuple_gnode_new t (hc_level x) pos);
        Ok (Some g')
    else Ok None) l.

Definition narrow_non_participants {E} (my_pos : list Z) (x : HCoord) (l : list TupleGNode) : res E (list TupleGNode) :=
  filter_mapM (λ g,
    b ← visible_by_someone_inside_my_gnode my_pos g (S (hc_level x));
    Ok (if (b : bool) then Some g else None)) l.

(** [if let (Visible, ret) = convert_tuple_gnode(..) { exclude.push(ret) }] *)
Definition exclude_visible {E} (my_pos : list Z) (excl : list HCoord) (g : TupleGNode) : res E (list HCoord) :=
  r ← convert_tuple_gnode my_pos g;
  Ok (match r.1 with Visible => excl ++ [r.2] | _ => excl end).

(** ** The client (contact_peer) *)

(** The answers met during one attempt. *)
Record Attempt := mkAttempt {
  at_exists : HCoord → bool;
  at_exec : option (TypedValue + ExecError);
  at_msg_id : option Z;
  at_auth : option Auth;
  at_registered : bool;
  at_rounds : PeerMessageForwarder → nat → Round;
  at_events : TupleGNode → list RouteEvent
}.

Record ContactWorld := mkContactWorld {
  cw_non_participants : nat → option (list HCoord);
  cw_attempt : nat → Attempt
}.

(** The variables of ['attempt]. *)
Record Search := mkSearch {
  sr_refuse_messages : list Refusal;
  sr_exclude_gnode_list : list HCoord;
  sr_exclude_tuple_list : list TupleGNode;
  sr_non_participant_tuple_list : list TupleGNode
}.

Inductive Next := Answer (v : TypedValue) (respondant : TupleNode) | Continue (s : Search) | Restart.

Section Contact.
Context (t : Topology) (my_pos : list Z) (cfg : PeerConfig) (p_id : Z) (x_macron : option TupleNode).

Definition target_levels : nat := match x_macron with Some x => tn_top x | None => 0 end.

(** What ['restart] sets up. *)
Definition start_search (exclude_my_gnode : option nat) (seeds : list TupleGNode) (np : option (list HCoord))
    : res ContactPeerError Search :=
  l ← ok_or np actor_shut_down;
  mine ← match exclude_my_gnode with Some lvl => all_gnodes_up_to_lvl t my_pos lvl | None => Ok [] end;
  excl ← foldM (exclude_visible my_pos) (l ++ mine) seeds;
  Ok (mkSearch [] excl seeds []).

(** [refuse_messages.push]; the oldest goes once there are too many. *)
Definition push_refusal (l : list Refusal) (r : Refusal) : list Refusal :=
  let l' := l ++ [r] in
  if pc_max_refuse_messages cfg <? length l' then drop 1 l' else l'.

(** Excludes a g-node named by a reply. *)
Definition exclude_reply (s : Search) (g : TupleGNode) (non_participant : bool) : res ContactPeerError Search :=
  g' ← rebase_tuple_gnode my_pos g target_levels;
  excl ← exclude_visible my_pos (sr_exclude_gnode_list s) g';
  Ok (mkSearch (sr_refuse_messages s) excl (sr_exclude_tuple_list s ++ [g'])
    (if non_participant then sr_non_participant_tuple_list s ++ [g'] else sr_non_participant_tuple_list s)).

(** A remote refusal. *)
Definition exclude_refusal (s : Search) (respondant : TupleNode) (r : Refusal) : res ContactPeerError Search :=
  let refusals := push_refusal (sr_refuse_messages s) r in
  rg ← tuple_node_to_tuple_gnode respondant;
  o ← res_ok (tuple_gnode_containing rg (rf_level r));
  match o with
  | Some g =>
      c ← convert_tuple_gnode my_pos g;
      excl ← match c.1 with
             | Visible => Ok (sr_exclude_gnode_list s ++ [c.2])
             | Mine => l ← all_gnodes_up_to_lvl t my_pos (rf_level r); Ok (sr_exclude_gnode_list s ++ l)
             | Hidden => Ok (sr_exclude_gnode_list s)
             end;
      Ok (mkSearch refusals excl (sr_exclude_tuple_list s ++ [g]) (sr_non_participant_tuple_list s))
  | None =>
      l ← all_gnodes_up_to_lvl t my_pos (rf_level r);
      Ok (mkSearch refusals (sr_exclude_gnode_list s ++ l) (sr_exclude_tuple_list s) (sr_non_participant_tuple_list s))
  end.

(** The inner loop: events until the search ends, a new attempt or a restart. *)
Fixpoint event_loop (s : Search) (min_target : TupleGNode) (respondant : option TupleNode) (evs : list RouteEvent)
    : res ContactPeerError Next :=
  match evs with
  | [] => s' ← exclude_reply s min_target false; Ok (Continue s')
  | ev :: evs' =>
      match ev with
      | NextDestination g => event_loop s g respondant evs'
      | Failure g => s' ← exclude_reply s g false; Ok (Continue s')
      | NonParticipant g => s' ← exclude_reply s g true; Ok (Continue s')
      | MissingOptionalMaps => Ok Restart
      | RespondantNode n =>
          match respondant with
          | None => n' ← rebase_tuple_node my_pos n target_levels; event_loop s min_target (Some n') evs'
          | Some _ => event_loop s min_target respondant evs'
          end
      | EvResponse v => r ← expect respondant; Ok (Answer v r)
      | EvRefuse rf =>
          match respondant with
          | Some r => s' ← exclude_refusal s r rf; Ok (Continue s')
          | None => event_loop s min_target respondant evs'
          end
      | EvRedoFromStart =>
          match respondant with Some _ => Ok Restart | None => event_loop s min_target respondant evs' end
      end
  end.

(** The message sent towards the elected g-node. *)
Definition make_forwarder (s : Search) (x : HCoord) (msg_id : Z) (auth : option Auth) : res ContactPeerError PeerMessageForwarder :=
  my0 ← expect (my_pos !! 0);
  n ← make_tuple_node t my_pos (mkHCoord 0 my0) (S (hc_level x));
  xm ← narrow_target t x_macron (hc_level x);
  excl ← narrow_excluded t my_pos x (sr_exclude_tuple_list s);
  nonp ← narrow_non_participants my_pos x (sr_non_participant_tuple_list s);
  Ok (mkForwarder target_levels n xm (hc_level x) (hc_pos x) p_id msg_id excl nonp auth).

(** The request elected this node. *)
Definition serve_locally (s : Search) (my0 : Z) (outcome : option (TypedValue + ExecError)) : res ContactPeerError Next :=
  match outcome with
  | None =>
      Ok (Continue (mkSearch (sr_refuse_messages s) (sr_exclude_gnode_list s ++ [mkHCoord 0 my0])
        (sr_exclude_tuple_list s) (sr_non_participant_tuple_list s)))
  | Some (inl v) =>
      r ← (if target_levels =? 0 then unwrap (tuple_node_new t []) else make_tuple_node t my_pos (mkHCoord 0 my0) target_levels);
      Ok (Answer v r)
  | Some (inr RedoFromStart) => Ok Restart
  | Some (inr (Refuse rf)) =>
      l ← all_gnodes_up_to_lvl t my_pos (rf_level rf);
      Ok (Continue (mkSearch (push_refusal (sr_refuse_messages s) rf) (sr_exclude_gnode_list s ++ l)
        (sr_exclude_tuple_list s) (sr_non_participant_tuple_list s)))
  end.

(** One round of ['attempt]. *)
Definition attempt (s : Search) (a : Attempt) : res ContactPeerError Next :=
  o ← approximate t my_pos x_macron (sr_exclude_gnode_list s) (at_exists a);
  match o with
  | None => Err (match sr_refuse_messages s with [] => NoParticipants | l => Database (format_refusals l) end)
  | Some x =>
      my0 ← expect (my_pos !! 0);
      if (hc_level x =? 0) && (hc_pos x =? my0)%Z then serve_locally s my0 (at_exec a)
      else
        msg_id ← ok_or (at_msg_id a) actor_shut_down;
        mf ← make_forwarder s x msg_id (at_auth a);
        min_target ← make_tuple_gnode t my_pos x (S (hc_level x));
        if negb (at_registered a) then Err actor_shut_down
        else if negb (try_forward (at_rounds a mf) 0 (pc_max_relay_attempts cfg)) then Ok (Continue s)
        else event_loop s min_target None (at_events a min_target)
  end.

(** ['attempt] and ['restart], with the hops still allowed. *)
Fixpoint attempts (exclude_my_gnode : option nat) (seeds : list TupleGNode) (w : ContactWorld) (left hops : nat) (s : Search)
    : res ContactPeerError (TypedValue * TupleNode) :=
  match left with
  | 0 => Err (TooManyHops (pc_max_contact_peer_hops cfg))
  | S left' =>
      n ← attempt s (cw_attempt w hops);
      match n with
      | Answer v r => Ok (v, r)
      | Continue s' => attempts exclude_my_gnode seeds w left' (S hops) s'
      | Restart =>
          s' ← start_search exclude_my_gnode seeds (cw_non_participants w (S hops));
          attempts exclude_my_gnode seeds w left' (S hops) s'
      end
  end.

Definition contact_peer (exclude_my_gnode : option nat) (seeds : list TupleGNode) (w : ContactWorld)
    : res ContactPeerError (TypedValue * TupleNode) :=
  s ← start_search exclude_my_gnode seeds (cw_non_participants w 0);
  attempts exclude_my_gnode seeds w (pc_max_contact_peer_hops cfg) 0 s.
End Contact.

(** [replicate]: [w i] is the world the [i]-th call meets, [None] once the
    overall deadline has passed before it ends. *)
Fixpoint replicate_loop (t : Topology) (my_pos : list Z) (cfg : PeerConfig) (p_id : Z) (target : TupleNode)
    (w : nat → option ContactWorld) (i q : nat) (seeds : list TupleGNode) (replicas : list (TypedValue * TupleNode))
    : res ContactPeerError (list (TypedValue * TupleNode)) :=
  match q with
  | 0 => Ok replicas
  | S q' =>
      match w i with
      | None => Ok replicas
      | Some cw =>
          match contact_peer t my_pos cfg p_id (Some target) None seeds cw with
          | Ok (response, respondant) =>
              g ← tuple_node_to_tuple_gnode respondant;
              replicate_loop t my_pos cfg p_id target w (S i) q' (seeds ++ [g]) (replicas ++ [(response, respondant)])
          | Err _ => Ok replicas
          | Panic => Panic
          end
      end
  end.

Definition replicate_request (t : Topology) (my_pos : list Z) (cfg : PeerConfig) (p_id : Z) (target : TupleNode)
    (w : nat → option ContactWorld) (q : nat) : res ContactPeerError (list (TypedValue * TupleNode)) :=
  replicate_loop t my_pos cfg p_id target w 0 q [] [].

(** ** The server (forward_msg) *)

(** What a hop sends. *)
Inductive Action :=
  | SendForward (mf : PeerMessageForwarder) (towards : HCoord) (delivered : bool)
  | SendMissingOptionalMaps (msg_id : Z)
  | SendNonParticipant (msg_id : Z) (g : TupleGNode)
  | SendFailure (msg_id : Z) (g : TupleGNode)
  | SendNextDestination (msg_id : Z) (g : TupleGNode)
  | FetchRequest (msg_id : Z) (respondant : TupleNode)
  | SendResponse (msg_id : Z) (v : TypedValue) (respondant : TupleNode)
  | SendRefuse (msg_id : Z) (r : Refusal) (respondant : TupleNode)
  | SendRedoFromStart (msg_id : Z) (respondant : TupleNode).

(** The answers a hop meets; those of its loop by iteration.  [fw_dial] tells
    whether the originator can be reached. *)
Record ForwardWorld := mkForwardWorld {
  fw_optional : option bool;
  fw_below_level : nat;
  fw_participates : option bool;
  fw_non_participants : option (list HCoord);
  fw_dial : bool;
  fw_exists : nat → HCoord → bool;
  fw_rounds : nat → PeerMessageForwarder → nat → Round;
  fw_request : option TypedValue;
  fw_verify : TypedValue → option string;
  fw_exec : TypedValue → option (TypedValue + ExecError)
}.

Section Forward.
Context (t : Topology) (my_pos : list Z) (cfg : PeerConfig) (w : ForwardWorld) (mf : PeerMessageForwarder).

(** A message to the originator, when it can be reached. *)
Definition to_originator (a : Action) : list Action := if fw_dial w then [a] else [].

(** The g-node this message was sent to, in the originator's scope. *)
Definition reached_gnode {E} : res E TupleGNode :=
  make_tuple_gnode t my_pos (mkHCoord (mf_lvl mf) (mf_pos mf)) (tn_top (mf_n mf)).

(** The exclusions the hop starts from. *)
Definition forward_exclusions {E} (np : list HCoord) : res E (list HCoord) :=
  foldM (λ excl g,
    r ← convert_tuple_gnode my_pos g;
    match r.1 with
    | Mine => l ← all_gnodes_up_to_lvl t my_pos (hc_level r.2); Ok (excl ++ l)
    | Visible => Ok (excl ++ [r.2])
    | Hidden => Ok excl
    end) np (mf_exclude_tuple_list mf).

(** The message handed on towards [x]. *)
Definition next_forwarder {E} (x : HCoord) : res E PeerMessageForwarder :=
  xm ← narrow_target t (mf_x_macron mf) (hc_level x);
  excl ← narrow_excluded t my_pos x (mf_exclude_tuple_list mf);
  nonp ← narrow_non_participants my_pos x (mf_non_participant_tuple_list mf);
  Ok (mkForwarder (mf_inside_level mf) (mf_n mf) xm (hc_level x) (hc_pos x) (mf_p_id mf) (mf_msg_id mf) excl nonp (mf_auth mf)).

(** This node was elected: it fetches the request, checks its origin and runs it. *)
Definition serve_forwarded {E} (my0 : Z) : res E (list Action) :=
  if negb (fw_dial w) then Ok []
  else
    r ← make_tuple_node t my_pos (mkHCoord 0 my0) (tn_top (mf_n mf));
    let id := mf_msg_id mf in
    Ok (FetchRequest id r ::
      match fw_request w with
      | None => []
      | Some request =>
          match fw_verify w request with
          | Some err => [SendRefuse id (mkRefusal 0 ("origin authentication failed: " +:+ err)) r]
          | None =>
              match fw_exec w request with
              | None => []
              | Some (inl v) => [SendResponse id v r]
              | Some (inr RedoFromStart) => [SendRedoFromStart id r]
              | Some (inr (Refuse rf)) => [SendRefuse id rf r]
              end
          end
      end).

(** The loop; [None] when the fuel ends before the loop does. *)
Fixpoint forward_loop {E} (excl : list HCoord) (i fuel : nat) : res E (option (list Action)) :=
  match fuel with
  | 0 => Ok None
  | S fuel' =>
      o ← approximate t my_pos (mf_x_macron mf) excl (fw_exists w i);
      match o with
      | None =>
          if fw_dial w then g ← reached_gnode; Ok (Some [SendFailure (mf_msg_id mf) g]) else Ok (Some [])
      | Some x =>
          my0 ← expect (my_pos !! 0);
          if (hc_level x =? 0) && (hc_pos x =? my0)%Z then l ← serve_forwarded my0; Ok (Some l)
          else
            mf2 ← next_forwarder x;
            if try_forward (fw_rounds w i mf2) 0 (pc_max_relay_attempts cfg) then
              if fw_dial w then
                g ← make_tuple_gnode t my_pos x (tn_top (mf_n mf));
                Ok (Some [SendForward mf2 x true; SendNextDestination (mf_msg_id mf) g])
              else Ok (Some [SendForward mf2 x true])
            else
              rest ← forward_loop excl (S i) fuel';
              Ok (option_map (cons (SendForward mf2 x false)) rest)
      end
  end.

(** [forward_msg]; [relay] is the first branch. *)
Definition forward_msg {E} (fuel : nat) : res E (option (list Action)) :=
  mine ← expect (my_pos !! mf_lvl mf);
  if negb (mine =? mf_pos mf)%Z then
    let x := mkHCoord (mf_lvl mf) (mf_pos mf) in
    Ok (Some [SendForward mf x (try_forward (fw_rounds w 0 mf) 0 (pc_max_relay_attempts cfg))])
  else
    match fw_optional w with
    | None => Ok (Some [])
    | Some optional =>
        if optional && match mf_x_macron mf with Some xm => fw_below_level w <? tn_top xm | None => false end
        then Ok (Some (to_originator (SendMissingOptionalMaps (mf_msg_id mf))))
        else
          match (if optional then fw_participates w else Some true) with
          | None => Ok (Some [])
          | Some false =>
              if fw_dial w then g ← reached_gnode; Ok (Some [SendNonParticipant (mf_msg_id mf) g]) else Ok (Some [])
          | Some true =>
              match fw_non_participants w with
              | None => Ok (Some [])
              | Some np => excl ← forward_exclusions np; forward_loop excl 0 fuel
              end
          end
    end.
End Forward.
