(* ===== verification/PeerRoutingProps.v ===== *)
(** * Peer services: the routing code is safe and bounded

    [contact_peer] and [forward_msg] never panic on the inputs their callers
    give them, a search consults a bounded number of attempts, the messages
    honest nodes build stay within the form the decoder accepts, and a request
    that such nodes pass on, each with its own routes and maps, is carried to the
    closest participant.  The last part shows what the code does on the inputs
    outside those premises. *)
From stdpp Require Import strings.
From S2P Require Import Prelude Addressing Fingerprint Domain PeerTuple Auth.
From S2P Require Import PeerState PeerDht PeerStateProps PeerRouting.

(** ** The tuple algebra never panics on tuples of the topology *)
Section Tuples.
Context (t : Topology) (Ht : topology_wf t) (my : list Z) (Hmy : address t my).

Lemma convert_loop_spec {E} level tuple n :
  0 < length tuple → n ≤ length tuple → level + length tuple ≤ topology_levels t → real_from t level tuple →
  (∀ i, n ≤ i < length tuple → my !! (level + i) = tuple !! i) →
  ∃ rel h, (convert_loop my level tuple n : res E _) = Ok (rel, h) ∧ coord_real t h ∧
    match rel with
    | Mine => hc_level h = level ∧ ∀ i, i < length tuple → my !! (level + i) = tuple !! i
    | Visible => hc_level h = level ∧ tuple !! 0 = Some (hc_pos h) ∧ my !! level ≠ Some (hc_pos h) ∧
        ∀ i, 0 < i < length tuple → my !! (level + i) = tuple !! i
    | Hidden => ∃ o, 0 < o < length tuple ∧ hc_level h = level + o ∧ tuple !! o = Some (hc_pos h) ∧ my !! (level + o) ≠ Some (hc_pos h) ∧
        ∀ i, o < i < length tuple → my !! (level + i) = tuple !! i
    end.
Proof.
  intros Hpos Hn Htop Hr. induction n as [|o IH]; intros Hsame; cbn [convert_loop].
  - destruct (lookup_lt_is_Some_2 tuple 0 Hpos) as [p Hp]. rewrite Hp. cbn [expect mbind res_bind].
    destruct (Hr _ _ Hp) as (g & Hg & ?). rewrite Nat.add_0_r in Hg. exists Mine, (mkHCoord level p). split; [done|].
    split; [by exists g|]. cbn. split; [done|]. intros i Hi. apply Hsame. lia.
  - destruct (lookup_lt_is_Some_2 my (level + o)) as [m Hm]; [destruct Hmy; lia|].
    destruct (lookup_lt_is_Some_2 tuple o) as [p Hp]; [lia|]. rewrite Hm, Hp. cbn [expect mbind res_bind].
    destruct (Z.eqb_spec m p) as [->|Hne]; cbn [negb].
    + apply IH; [lia|]. intros i Hi. destruct (decide (i = o)) as [->|]; [congruence|apply Hsame; lia].
    + destruct (Hr _ _ Hp) as (g & Hg & ?). destruct (Nat.eqb_spec o 0) as [->|Ho].
      * exists Visible, (mkHCoord (level + 0) p). split; [done|]. split; [by exists g|]. cbn. rewrite Nat.add_0_r in *.
        split; [done|]. split; [done|]. split; [congruence|]. intros i Hi. apply Hsame. lia.
      * exists Hidden, (mkHCoord (level + o) p). split; [done|]. split; [by exists g|]. cbn. exists o. split; [lia|].
        split; [done|]. split; [done|]. split; [congruence|]. intros i Hi. apply Hsame. lia.
Qed.

(** [convert_tuple_gnode], fully: mine, a neighbour of mine at its own level, or
    hidden inside a g-node of a higher level. *)
Lemma convert_tuple_gnode_spec {E} g :
  gn_wf t g →
  ∃ rel h, (convert_tuple_gnode my g : res E _) = Ok (rel, h) ∧ coord_real t h ∧ gn_level g ≤ hc_level h < gn_top g ∧
    match rel with
    | Mine => hc_level h = gn_level g ∧ ∀ i, i < length (gn_pos g) → my !! (gn_level g + i) = gn_pos g !! i
    | Visible => hc_level h = gn_level g ∧ my !! hc_level h ≠ Some (hc_pos h)
    | Hidden => gn_level g < hc_level h ∧ my !! hc_level h ≠ Some (hc_pos h)
    end.
Proof.
  intros (_ & Hne & Hlen & Htop & Hr). assert (0 < length (gn_pos g)) as Hpos by (destruct (gn_pos g); [done|cbn; lia]).
  destruct (convert_loop_spec (E := E) (gn_level g) (gn_pos g) (length (gn_pos g))) as (rel & h & Hc & Hreal & Hm);
    [done|lia|unfold gn_level; lia|done|intros; lia|]. exists rel, h. split; [done|]. split; [done|].
  unfold gn_level in *. destruct rel; [| |destruct Hm as (o & ? & ? & ? & ? & ?)].
  - split; [lia|done].
  - destruct Hm as (? & ? & Hneq & ?). split; [lia|]. split; [done|]. congruence.
  - split; [lia|]. split; [lia|]. congruence.
Qed.

Lemma rebase_tuple_gnode_Ok {E} g top :
  gn_wf t g → gn_top g ≤ top → top ≤ topology_levels t →
  ∃ g', (rebase_tuple_gnode my g top : res E _) = Ok g' ∧ gn_wf t g' ∧ gn_top g' = top ∧ gn_level g' = gn_level g.
Proof.
  intros (Htg & Hne & Hlen & Htop & Hr) Hle Hl. destruct Hmy as [Hml Hmr]. unfold rebase_tuple_gnode.
  rewrite (proj2 (Nat.leb_le _ _) Hle). cbn [assert mbind res_bind]. rewrite slice_Ok by lia. cbn [mbind res_bind]. rewrite Htg.
  set (ext := take (top - gn_top g) (drop (gn_top g) my)).
  assert (length ext = top - gn_top g) as Hext by (unfold ext; rewrite length_take, length_drop; lia).
  assert (real_from t (top - length (gn_pos g ++ ext)) (gn_pos g ++ ext)) as Hre.
  { rewrite length_app, Hext. replace (top - (length (gn_pos g) + (top - gn_top g))) with (gn_level g) by (unfold gn_level; lia).
    apply real_from_app; [done|]. replace (gn_level g + length (gn_pos g)) with (gn_top g) by (unfold gn_level; lia).
    by apply real_from_slice. }
  assert (gn_pos g ++ ext ≠ []) as Hnn by (destruct (gn_pos g); done).
  assert (length (gn_pos g ++ ext) ≤ top) as Hll by (rewrite length_app, Hext; lia).
  rewrite tuple_gnode_new_wf by done. cbn [unwrap]. eexists. split; [done|]. split; [|split; [done|]].
  - unfold gn_wf, gn_level. cbn. done.
  - unfold gn_level. cbn. rewrite length_app, Hext. lia.
Qed.

Lemma rebase_tuple_node_Ok {E} n top :
  tn_wf t n → tn_top n ≤ top → top ≤ topology_levels t →
  ∃ n', (rebase_tuple_node my n top : res E _) = Ok n' ∧ tn_wf t n' ∧ tn_top n' = top.
Proof.
  intros (Htn & Hlen & Hr) Hle Hl. destruct Hmy as [Hml Hmr]. unfold rebase_tuple_node.
  rewrite (proj2 (Nat.leb_le _ _) Hle). cbn [assert mbind res_bind]. rewrite slice_Ok by lia. cbn [mbind res_bind]. rewrite Htn.
  set (ext := take (top - tn_top n) (drop (tn_top n) my)).
  assert (length (tn_pos n ++ ext) = top) as Hext by (unfold ext; rewrite length_app, length_take, length_drop; unfold tn_top in *; lia).
  assert (real_from t 0 (tn_pos n ++ ext)) as Hre by (apply real_from_app; [done|by apply real_from_slice]).
  rewrite tuple_node_new_wf by (done || lia). cbn [unwrap]. eexists. split; [done|]. unfold tn_wf, tn_top. cbn.
  split; [split; [done|]; split; [lia|done]|done].
Qed.

Lemma gnode_of_node_Ok {E} n :
  tn_wf t n → 0 < tn_top n →
  ∃ g, (tuple_node_to_tuple_gnode n : res E _) = Ok g ∧ gn_wf t g ∧ gn_top g = tn_top n ∧ gn_level g = 0 ∧ gn_pos g = tn_pos n.
Proof.
  intros (Htn & Hlen & Hr) Hpos. unfold tuple_node_to_tuple_gnode. rewrite Htn. unfold tn_top in *.
  assert (tn_pos n ≠ []) by (destruct (tn_pos n); [cbn in Hpos; lia|done]).
  rewrite tuple_gnode_new_wf; [|done|done|done|by rewrite Nat.sub_diag]. cbn. eexists. split; [done|].
  unfold gn_wf, gn_level. cbn. rewrite Nat.sub_diag. done.
Qed.

Lemma tuple_suffix_wf g k :
  gn_wf t g → k < length (gn_pos g) →
  tuple_gnode_new t (gn_top g) (drop k (gn_pos g)) = Ok (mkTupleGNode t (gn_top g) (drop k (gn_pos g))) ∧
  gn_wf t (mkTupleGNode t (gn_top g) (drop k (gn_pos g))).
Proof.
  intros (Htg & Hne & Hlen & Htop & Hr) Hk.
  assert (drop k (gn_pos g) ≠ []) as Hd by (intros Hd; apply (f_equal length) in Hd; rewrite length_drop in Hd; cbn in Hd; lia).
  assert (real_from t (gn_top g - length (drop k (gn_pos g))) (drop k (gn_pos g))) as Hr'.
  { rewrite length_drop. replace (gn_top g - (length (gn_pos g) - k)) with (gn_level g + k) by (unfold gn_level; lia). by apply real_from_drop. }
  assert (length (drop k (gn_pos g)) ≤ gn_top g) as Hl' by (rewrite length_drop; lia).
  split; [by apply tuple_gnode_new_wf|]. unfold gn_wf, gn_level. cbn. done.
Qed.

Lemma tuple_gnode_containing_Ok g lvl :
  gn_wf t g → gn_level g ≤ lvl →
  if lvl <? gn_top g then ∃ g', tuple_gnode_containing g lvl = Ok g' ∧ gn_wf t g' ∧ gn_top g' = gn_top g ∧ gn_level g' = lvl
  else tuple_gnode_containing g lvl = Err EmptyGNodeTuple.
Proof.
  intros Hg Hle. pose proof Hg as (Htg & Hne & Hlen & Htop & Hr). unfold tuple_gnode_containing.
  rewrite (proj2 (Nat.leb_le _ _) Hle). cbn [assert mbind res_bind]. rewrite slice_to_end by lia. cbn [mbind res_bind]. rewrite Htg.
  destruct (Nat.ltb_spec lvl (gn_top g)) as [Hlt|Hge].
  - rewrite Nat.min_l by (unfold gn_level in *; lia). destruct (tuple_suffix_wf g (lvl - gn_level g) Hg) as [-> Hw]; [unfold gn_level in *; lia|].
    eexists. split; [done|]. split; [done|]. split; [done|]. unfold gn_level in *. cbn. rewrite length_drop. lia.
  - rewrite Nat.min_r by (unfold gn_level in *; lia). by rewrite drop_all.
Qed.

Lemma visible_by_someone_Ok {E} g lvl :
  gn_wf t g → ∃ b, (visible_by_someone_inside_my_gnode my g lvl : res E bool) = Ok b.
Proof.
  intros Hg. pose proof Hg as (Htg & Hne & Hlen & Htop & Hr). unfold visible_by_someone_inside_my_gnode.
  set (l := if (lvl =? 0) || (lvl - 1 <=? gn_level g) then S (gn_level g) else lvl). assert (gn_level g < l) as Hl.
  { unfold l. destruct (Nat.eqb_spec lvl 0); cbn [orb]; [lia|]. destruct (Nat.leb_spec (lvl - 1) (gn_level g)); lia. }
  destruct (Nat.leb_spec (gn_top g) l) as [|Hlt]; [by eexists|].
  rewrite slice_to_end by (unfold gn_level in *; lia). cbn [mbind res_bind]. rewrite Htg.
  destruct (tuple_suffix_wf g (l - gn_level g) Hg) as [-> Hw]; [unfold gn_level in *; lia|]. cbn [unwrap mbind res_bind].
  destruct (convert_tuple_gnode_spec (E := E) _ Hw) as (rel & h & -> & _). cbn [mbind res_bind]. by eexists.
Qed.

Lemma make_tuple_gnode_Ok {E} h top :
  coord_real t h → hc_level h < top → top ≤ topology_levels t →
  ∃ g, (make_tuple_gnode t my h top : res E _) = Ok g ∧ gn_wf t g ∧ gn_top g = top ∧ gn_level g = hc_level h.
Proof.
  intros (gs & Hg & Hp) Hlt Htop. destruct Hmy as [Hml Hmr]. unfold make_tuple_gnode.
  rewrite (proj2 (Nat.ltb_lt _ _) Hlt). cbn [assert mbind res_bind]. rewrite my_levels_Ok by lia. cbn [mbind res_bind].
  set (above := take (top - S (hc_level h)) (drop (S (hc_level h)) my)).
  assert (length above = top - S (hc_level h)) as Hab by (unfold above; rewrite length_take, length_drop; lia).
  assert (real_from t (top - length (hc_pos h :: above)) (hc_pos h :: above)) as Hr.
  { cbn [length]. rewrite Hab. replace (top - S (top - S (hc_level h))) with (hc_level h) by lia.
    intros [|i] p Hi; cbn in Hi; [simplify_eq; exists gs; by rewrite Nat.add_0_r|]. rewrite Nat.add_succ_r. by apply (real_from_slice t my (S (hc_level h)) (top - S (hc_level h)) Hmy). }
  rewrite tuple_gnode_new_wf; [|done|cbn; lia|done|done]. cbn [unwrap]. eexists. split; [done|].
  unfold gn_wf, gn_level. cbn. rewrite Hab. split; [split; [done|]; split; [done|]; split; [lia|]; split; [done|]; cbn in Hr; by rewrite Hab in Hr|]. split; [done|lia].
Qed.
End Tuples.

(** ** Elections *)
Definition target_wf (t : Topology) (xm : option TupleNode) : Prop := match xm with Some x => tn_wf t x | None => True end.

Section Elections.
Context (t : Topology) (Ht : topology_wf t) (Hcap : (capacity (gsizes t) ≤ U128_MAX + 1)%Z).
Context (my : list Z) (Hmy : address t my).

Lemma target_levels_le xm : target_wf t xm → target_levels xm ≤ topology_levels t.
Proof. destruct xm as [x|]; cbn; [by intros (_ & ? & _)|lia]. Qed.

(** [approximate] never panics, and elects a coordinate of the scope that is
    not excluded: a g-node other than this node's, or this node. *)
Lemma approximate_elects {E} xm excl ex :
  target_wf t xm →
  ∃ o, (approximate t my xm excl ex : res E _) = Ok o ∧
    match o with
    | Some x => coord_real t x ∧ (x ∉ excl) ∧
        ((hc_level x < target_levels xm ∧ my !! hc_level x ≠ Some (hc_pos x)) ∨ (hc_level x = 0 ∧ my !! 0 = Some (hc_pos x)))
    | None => ∀ p, my !! 0 = Some p → mkHCoord 0 p ∈ excl
    end.
Proof.
  intros Hx. destruct Hmy as [Hlen Hreal]. destruct (lookup_lt_is_Some_2 my 0) as [m0 Hm0]; [pose proof (topology_levels_pos t Ht); lia|].
  destruct (Hreal _ _ Hm0) as (g0 & Hg0 & Hr0). destruct (decide (target_levels xm = 0)) as [Hz|Hnz].
  - unfold approximate. fold (target_levels xm). rewrite Hz, Hm0. cbn [expect mbind res_bind]. rewrite Nat.eqb_refl. eexists. split; [done|].
    destruct (contains _ excl) eqn:Hc.
    + apply contains_true in Hc. intros p Hp. congruence.
    + apply contains_false in Hc. split; [by exists g0|]. split; [done|]. by right.
  - destruct xm as [[tx px]|]; [|done]. destruct Hx as (Htx & Hl & Hr). cbn in Htx, Hnz. subst tx. unfold tn_top in Hnz. cbn in Hnz.
    destruct (approximate_least t Ht Hcap my Hmy (length px) px ltac:(lia) Hl eq_refl Hr excl ex (E := E)) as (o & Ho & Hs).
    exists o. split; [done|]. destruct o as [x|].
    + destruct Hs as [(Hlv & Hc & Hn & Hor) _]. split; [done|]. split; [done|]. destruct Hor as [[? _]|?]; [left; by split|by right].
    + intros p Hp. destruct (decide (mkHCoord 0 p ∈ excl)) as [|Hn]; [done|]. destruct (Hs (mkHCoord 0 p)). split; [cbn; lia|].
      split; [exists g0; assert (p = m0) as -> by congruence; done|]. split; [done|]. by right.
Qed.

(** The target, cut to an elected level. *)
Lemma narrow_target_Ok {E} xm l :
  target_wf t xm → l ≤ target_levels xm →
  ∃ xm', (narrow_target t xm l : res E _) = Ok xm' ∧ target_wf t xm' ∧ target_levels xm' = l ∧
    (0 < l → ∃ x, xm = Some x ∧ xm' = Some (mkTupleNode t (take l (tn_pos x)))).
Proof.
  intros Hx Hl. unfold narrow_target. destruct (Nat.ltb_spec 0 l) as [Hpos|Hz].
  2:{ exists None. split; [done|]. split; [done|]. cbn. split; [lia|lia]. }
  destruct xm as [x|]; [|cbn in Hl; lia]. destruct Hx as (Htx & Hlx & Hr). cbn in Hl. unfold tn_top in *. cbn [expect mbind res_bind].
  rewrite slice_Ok by lia. rewrite Nat.sub_0_r, drop_0. cbn [mbind res_bind].
  assert (length (take l (tn_pos x)) = l) as Hll by (rewrite length_take; lia).
  rewrite tuple_node_new_wf; [|lia|by apply real_from_take]. cbn [unwrap mbind res_bind]. eexists. split; [done|].
  split; [split; [done|]; split; [unfold tn_top; cbn; lia|by apply real_from_take]|]. split; [unfold tn_top; cbn; lia|].
  intros _. by exists x.
Qed.

Lemma filter_mapM_Ok {E A B} (f : A → res E (option B)) (P : A → Prop) (Q : B → Prop) l :
  Forall P l → (∀ a, P a → ∃ o, f a = Ok o ∧ ∀ b, o = Some b → Q b) → ∃ bs, filter_mapM f l = Ok bs ∧ Forall Q bs.
Proof.
  intros Hl Hf. induction Hl as [|a l Ha Hl IH]; cbn; [by exists []|]. destruct (Hf a Ha) as (o & -> & Ho). destruct IH as (bs & -> & Hbs).
  cbn. eexists. split; [done|]. destruct o; [constructor; [by apply Ho|done]|done].
Qed.

Lemma narrow_excluded_Ok {E} x l :
  coord_real t x → Forall (gn_wf t) l →
  ∃ l', (narrow_excluded t my x l : res E _) = Ok l' ∧ Forall (λ g, gn_wf t g ∧ gn_top g = hc_level x) l'.
Proof.
  intros Hx Hl. apply (filter_mapM_Ok _ (gn_wf t)); [done|]. intros g Hg. pose proof Hg as (Htg & Hne & Hlen & Htop & Hr).
  destruct (convert_tuple_gnode_spec t my Hmy (E := E) g Hg) as (rel & h & -> & Hreal & Hlv & Hrel). cbn [mbind res_bind fst snd].
  destruct (bool_decide (rel = Hidden) && bool_decide (h = x)) eqn:Hb; [|eexists; split; [done|by intros]].
  apply andb_true_iff in Hb as [->%bool_decide_eq_true ->%bool_decide_eq_true]. destruct Hrel as [Hlt _].
  rewrite (proj2 (Nat.ltb_ge _ _)) by lia. rewrite slice_Ok by (unfold gn_level in *; lia). rewrite Nat.sub_0_r, drop_0. cbn [mbind res_bind].
  set (pos := take _ _). assert (length pos = hc_level x - gn_level g) as Hlp by (unfold pos; rewrite length_take; unfold gn_level in *; lia).
  assert (pos ≠ []) as Hpn by (intros ->; cbn in Hlp; lia).
  assert (real_from t (hc_level x - length pos) pos) as Hrp.
  { rewrite Hlp. replace (hc_level x - (hc_level x - gn_level g)) with (gn_level g) by lia. by apply real_from_take. }
  rewrite tuple_gnode_new_wf; [|done|lia|pose proof (coord_real_level _ _ Hx); lia|done]. cbn [unwrap mbind res_bind].
  eexists. split; [done|]. intros b [= <-]. unfold gn_wf, gn_level. cbn. pose proof (coord_real_level _ _ Hx).
  split; [|done]. split; [done|]. split; [done|]. split; [lia|]. split; [lia|done].
Qed.

Lemma narrow_non_participants_Ok {E} x l :
  Forall (gn_wf t) l → ∃ l', (narrow_non_participants my x l : res E _) = Ok l' ∧ Forall (gn_wf t) l'.
Proof.
  intros Hl. apply (filter_mapM_Ok _ (gn_wf t)); [done|]. intros g Hg.
  destruct (visible_by_someone_Ok t my Hmy (E := E) g (S (hc_level x)) Hg) as [b ->]. cbn. eexists. split; [done|]. destruct b; naive_solver.
Qed.

Lemma exclude_visible_Ok {E} excl g : gn_wf t g → is_Ok (exclude_visible my excl g : res E _).
Proof.
  intros Hg. unfold exclude_visible. destruct (convert_tuple_gnode_spec t my Hmy (E := E) g Hg) as (rel & h & -> & _). cbn. eauto with ntk.
Qed.

(** *** Messages *)

(** The form of a message between honest nodes: the target spans exactly the
    levels below the g-node addressed, which lies in the originator's scope. *)
Definition forwarder_ok (mf : PeerMessageForwarder) : Prop :=
  tn_wf t (mf_n mf) ∧ mf_lvl mf < tn_top (mf_n mf) ∧ coord_real t (mkHCoord (mf_lvl mf) (mf_pos mf)) ∧
  target_wf t (mf_x_macron mf) ∧ target_levels (mf_x_macron mf) ≤ mf_lvl mf ∧
  Forall (gn_wf t) (mf_exclude_tuple_list mf) ∧ Forall (gn_wf t) (mf_non_participant_tuple_list mf).
End Elections.

(** ** The client *)
Section Client.
Context (t : Topology) (Ht : topology_wf t) (Hcap : (capacity (gsizes t) ≤ U128_MAX + 1)%Z).
Context (my : list Z) (Hmy : address t my) (cfg : PeerConfig) (p_id : Z) (xm : option TupleNode) (Hxm : target_wf t xm).

(** The variables of a search hold tuples of the topology and no more refusals
    than configured. *)
Definition search_ok (s : Search) : Prop :=
  Forall (gn_wf t) (sr_exclude_tuple_list s) ∧ Forall (gn_wf t) (sr_non_participant_tuple_list s) ∧
  length (sr_refuse_messages s) ≤ pc_max_refuse_messages cfg.

Lemma my_first : ∃ m0, my !! 0 = Some m0 ∧ coord_real t (mkHCoord 0 m0).
Proof.
  destruct Hmy as [Hlen Hreal]. destruct (lookup_lt_is_Some_2 my 0) as [m0 Hm0]; [pose proof (topology_levels_pos t Ht); lia|].
  exists m0. split; [done|]. destruct (Hreal _ _ Hm0) as (g & ? & ?). by exists g.
Qed.

Lemma push_refusal_length l r : length l ≤ pc_max_refuse_messages cfg → length (push_refusal cfg l r) ≤ pc_max_refuse_messages cfg.
Proof.
  intros Hl. unfold push_refusal. destruct (Nat.ltb_spec (pc_max_refuse_messages cfg) (length (l ++ [r]))) as [Hlt|Hle]; [|done].
  rewrite length_drop, length_app in *. cbn in *. lia.
Qed.

Lemma start_search_Ok em seeds np :
  Forall (gn_wf t) seeds →
  match start_search t my em seeds np with
  | Ok s => search_ok s
  | Err e => np = None ∧ e = actor_shut_down
  | Panic => False
  end.
Proof.
  intros Hs. unfold start_search. destruct np as [l|]; cbn [ok_or mbind res_bind]; [|done].
  assert (∃ mine, match em with Some lvl => all_gnodes_up_to_lvl t my lvl | None => Ok [] end = (Ok mine : res ContactPeerError _)) as [mine ->].
  { destruct em as [lvl|]; [|by eexists]. destruct (all_gnodes_Ok (E := ContactPeerError) t my lvl Ht Hmy) as (ms & ? & _). by exists ms. }
  cbn [mbind res_bind].
  destruct (foldM_total (exclude_visible (E := ContactPeerError) my) (λ _, True) (l ++ mine) seeds) as (excl & -> & _); [done| |].
  { intros c g Hg _. rewrite Forall_forall in Hs. destruct (exclude_visible_Ok t my Hmy (E := ContactPeerError) c g (Hs g Hg)) as [c' ->]. by exists c'. }
  cbn [mbind res_bind]. split; [done|]. split; [done|]. cbn. lia.
Qed.

Lemma exclude_reply_Ok s g b :
  search_ok s → gn_wf t g → gn_top g ≤ target_levels xm → ∃ s', exclude_reply my xm s g b = Ok s' ∧ search_ok s'.
Proof.
  intros (H1 & H2 & H3) Hg Hle. unfold exclude_reply.
  destruct (rebase_tuple_gnode_Ok t my Hmy (E := ContactPeerError) g (target_levels xm) Hg Hle) as (g' & -> & Hw & _); [by apply target_levels_le|].
  cbn [mbind res_bind]. destruct (exclude_visible_Ok t my Hmy (E := ContactPeerError) (sr_exclude_gnode_list s) g' Hw) as [excl ->].
  cbn [mbind res_bind]. eexists. split; [done|]. split; [by apply Forall_app; split; [|apply Forall_singleton]|]. split; [|done].
  destruct b; [by apply Forall_app; split; [|apply Forall_singleton]|done].
Qed.

Lemma exclude_refusal_Ok s n r :
  search_ok s → tn_wf t n → 0 < tn_top n → ∃ s', exclude_refusal t my cfg s n r = Ok s' ∧ search_ok s'.
Proof.
  intros (H1 & H2 & H3) Hn Hpos. unfold exclude_refusal.
  destruct (gnode_of_node_Ok t (E := ContactPeerError) n Hn Hpos) as (g & -> & Hg & _ & Hl0 & _). cbn [mbind res_bind].
  destruct (all_gnodes_Ok (E := ContactPeerError) t my (rf_level r) Ht Hmy) as (ms & Hms & _).
  pose proof (push_refusal_length _ r H3) as Hp.
  pose proof (tuple_gnode_containing_Ok t g (rf_level r) Hg ltac:(lia)) as Hc. destruct (rf_level r <? gn_top g).
  - destruct Hc as (g' & -> & Hg' & _). cbn [res_ok mbind res_bind].
    destruct (convert_tuple_gnode_spec t my Hmy (E := ContactPeerError) g' Hg') as (rel & h & -> & _). cbn [mbind res_bind fst snd].
    rewrite Hms. cbn [mbind res_bind]. destruct rel; cbn [mbind res_bind]; eexists; (split; [done|]);
      (split; [by apply Forall_app; split; [|apply Forall_singleton]|by split]).
  - rewrite Hc. cbn [res_ok mbind res_bind]. rewrite Hms. cbn [mbind res_bind]. eexists. split; [done|]. by split.
Qed.

(** What an attempt may lead to. *)
Definition next_ok (n : Next) : Prop :=
  match n with
  | Answer _ r => tn_wf t r ∧ tn_top r = target_levels xm
  | Continue s => search_ok s
  | Restart => True
  end.

Lemma event_loop_Ok s g resp evs :
  search_ok s → 0 < target_levels xm → gn_wf t g → gn_top g ≤ target_levels xm →
  (∀ r, resp = Some r → tn_wf t r ∧ tn_top r = target_levels xm) →
  events_ok t (gn_top g) (bool_decide (is_Some resp)) evs → ∃ n, event_loop t my cfg xm s g resp evs = Ok n ∧ next_ok n.
Proof.
  intros Hs Hpos. revert g resp. induction evs as [|ev evs IH]; intros g resp Hg Hle Hresp Hev; cbn [event_loop].
  { destruct (exclude_reply_Ok s g false Hs Hg Hle) as (s' & -> & Hs'). cbn. by eexists. }
  destruct Hev as [Hev Hevs]. destruct ev as [d|d|d| |n|v|rf| ]; cbn in Hev, Hevs.
  - destruct Hev as [Hd Hdt]. rewrite orb_false_r in Hevs. apply IH; [done|lia|done|by rewrite Hdt].
  - destruct Hev as [Hd Hdt]. destruct (exclude_reply_Ok s d false Hs Hd ltac:(lia)) as (s' & -> & Hs'). cbn. by eexists.
  - destruct Hev as [Hd Hdt]. destruct (exclude_reply_Ok s d true Hs Hd ltac:(lia)) as (s' & -> & Hs'). cbn. by eexists.
  - by eexists.
  - destruct resp as [r|]; [apply IH; [done|done|done|by rewrite orb_true_r in Hevs]|]. destruct Hev as [Hn Hnt].
    destruct (rebase_tuple_node_Ok t my Hmy (E := ContactPeerError) n (target_levels xm) Hn) as (n' & -> & Hn' & Ht'); [lia|by apply target_levels_le|].
    cbn [mbind res_bind]. apply IH; [done|done| |done]. intros r [= <-]. done.
  - apply bool_decide_eq_true in Hev as [r Hr]. rewrite Hr. cbn. eexists. split; [done|]. by apply Hresp.
  - apply bool_decide_eq_true in Hev as [r ->]. destruct (Hresp r eq_refl) as [Hrw Hrt].
    destruct (exclude_refusal_Ok s r rf Hs Hrw) as (s' & -> & Hs'); [lia|]. cbn. by eexists.
  - apply bool_decide_eq_true in Hev as [r ->]. by eexists.
Qed.

(** The message a search sends has the honest form. *)
Lemma make_forwarder_Ok s x msg_id auth :
  search_ok s → coord_real t x → hc_level x < target_levels xm →
  ∃ mf, make_forwarder t my p_id xm s x msg_id auth = Ok mf ∧ forwarder_ok t mf ∧
    mf_lvl mf = hc_level x ∧ mf_pos mf = hc_pos x ∧ tn_top (mf_n mf) = S (hc_level x) ∧
    target_levels (mf_x_macron mf) = hc_level x ∧ narrow_target (E := ContactPeerError) t xm (hc_level x) = Ok (mf_x_macron mf).
Proof.
  intros (H1 & H2 & _) Hx Hlt. pose proof (target_levels_le t xm Hxm) as Htl. destruct my_first as (m0 & Hm0 & Hr0).
  unfold make_forwarder. rewrite Hm0. cbn [expect mbind res_bind].
  destruct (make_tuple_node_Ok (E := ContactPeerError) t my (mkHCoord 0 m0) (S (hc_level x)) Ht Hmy Hr0) as (-> & Hnw & Hnl); [cbn; lia|lia|].
  cbn [mbind res_bind].
  destruct (narrow_target_Ok t (E := ContactPeerError) xm (hc_level x) Hxm ltac:(lia)) as (xm' & Hn & Hxw & Hxl & _). rewrite Hn. cbn [mbind res_bind].
  destruct (narrow_excluded_Ok t my Hmy (E := ContactPeerError) x _ Hx H1) as (l1 & -> & Hl1). cbn [mbind res_bind].
  destruct (narrow_non_participants_Ok t my Hmy (E := ContactPeerError) x _ H2) as (l2 & -> & Hl2). cbn [mbind res_bind].
  eexists. split; [done|]. unfold forwarder_ok, tn_top.
  cbn [mf_n mf_lvl mf_pos mf_x_macron mf_exclude_tuple_list mf_non_participant_tuple_list tn_pos]. rewrite Hnl, Hxl.
  split; [|split; [done|]; split; [done|]; split; [done|]; by split].
  split; [done|]. split; [lia|]. split; [by destruct x|]. split; [done|]. split; [done|]. split; [|done].
  eapply Forall_impl; [done|]. cbn. by intros g [? _].
Qed.

(** The events a search receives, whatever it was registered with. *)
Definition attempt_ok (a : Attempt) : Prop := ∀ g, gn_wf t g → events_ok t (gn_top g) false (at_events a g).

Lemma attempt_Ok s a :
  search_ok s → attempt_ok a →
  match attempt t my cfg p_id xm s a with
  | Ok n => next_ok n
  | Err _ => True
  | Panic => False
  end.
Proof.
  intros Hs Ha. unfold attempt.
  destruct (approximate_elects t Ht Hcap my Hmy (E := ContactPeerError) xm (sr_exclude_gnode_list s) (at_exists a) Hxm) as (o & -> & Ho).
  cbn [mbind res_bind]. destruct o as [x|]; [|done]. destruct Ho as (Hreal & _ & Hor). destruct my_first as (m0 & Hm0 & Hr0).
  rewrite Hm0 in *. cbn [expect mbind res_bind].
  destruct (Nat.eqb_spec (hc_level x) 0) as [Hz|Hnz], (Z.eqb_spec (hc_pos x) m0) as [Hp|Hp]; cbn [andb].
  { unfold serve_locally. destruct (at_exec a) as [[v|[rf|]]|]; [| |done|].
    - destruct (Nat.eqb_spec (target_levels xm) 0) as [Hz'|Hnz'].
      + cbn [unwrap tuple_node_new check_tuple length Nat.ltb mbind res_bind]. rewrite (tuple_node_new_wf t []); [|cbn; lia|by intros i p Hi].
        cbn [unwrap mbind res_bind]. split; [|cbn; lia]. split; [done|]. split; [cbn; lia|by intros i p Hi].
      + destruct (make_tuple_node_Ok (E := ContactPeerError) t my (mkHCoord 0 m0) (target_levels xm) Ht Hmy Hr0) as (-> & Hw & Hl);
          [cbn; lia|by apply target_levels_le|]. cbn. by split.
    - destruct (all_gnodes_Ok (E := ContactPeerError) t my (rf_level rf) Ht Hmy) as (ms & -> & _). cbn. destruct Hs as (? & ? & ?).
      split; [done|]. split; [done|]. by apply push_refusal_length.
    - by destruct Hs as (? & ? & ?). }
  all: assert (hc_level x < target_levels xm) as Hlt by (destruct Hor as [[? _]|[? [= ?]]]; [done|congruence]).
  all: destruct (at_msg_id a) as [id|]; cbn [ok_or mbind res_bind]; [|done].
  all: destruct (make_forwarder_Ok s x id (at_auth a) Hs Hreal Hlt) as (mf & -> & _); cbn [mbind res_bind].
  all: destruct (make_tuple_gnode_Ok t my Hmy (E := ContactPeerError) x (S (hc_level x)) Hreal) as (g & -> & Hg & Hgt & _);
    [lia|pose proof (coord_real_level _ _ Hreal); lia|]; cbn [mbind res_bind].
  all: destruct (at_registered a); cbn [negb]; [|done]; destruct (try_forward _ _ _); cbn [negb]; [|done].
  all: destruct (event_loop_Ok s g None (at_events a g) Hs ltac:(lia) Hg ltac:(lia) ltac:(done)) as (n & -> & Hn); [|done];
    rewrite bool_decide_false by (by intros [? ?]); by apply Ha.
Qed.

Lemma attempts_Ok em seeds w left hops s :
  Forall (gn_wf t) seeds → (∀ n, attempt_ok (cw_attempt w n)) → search_ok s →
  match attempts t my cfg p_id xm em seeds w left hops s with
  | Ok (_, r) => tn_wf t r ∧ tn_top r = target_levels xm
  | Err _ => True
  | Panic => False
  end.
Proof.
  intros Hseeds Hw. revert hops s. induction left as [|left IH]; intros hops s Hs; cbn [attempts]; [done|].
  pose proof (attempt_Ok s (cw_attempt w hops) Hs (Hw hops)) as Ha. destruct (attempt _ _ _ _ _ _ _) as [n|e|]; cbn [mbind res_bind]; [|done..].
  destruct n as [v r|s'|]; [done|by apply IH|].
  pose proof (start_search_Ok em seeds (cw_non_participants w (S hops)) Hseeds) as Hst.
  destruct (start_search _ _ _ _ _) as [s'|e|]; cbn [mbind res_bind]; [by apply IH|done..].
Qed.
End Client.

(** A search consults at most the configured number of attempts. *)
Lemma attempts_bound t my cfg p_id xm em seeds w w' left hops s :
  (∀ n, hops ≤ n < hops + left → cw_attempt w n = cw_attempt w' n) →
  (∀ n, hops < n ≤ hops + left → cw_non_participants w n = cw_non_participants w' n) →
  attempts t my cfg p_id xm em seeds w left hops s = attempts t my cfg p_id xm em seeds w' left hops s.
Proof.
  revert hops s. induction left as [|left IH]; intros hops s Ha Hn; [done|]. cbn [attempts]. rewrite Ha by lia.
  destruct (attempt _ _ _ _ _ _ _) as [n|e|]; cbn [mbind res_bind]; [|done..]. destruct n as [v r|s'|]; [done| |].
  - apply IH; intros; [apply Ha|apply Hn]; lia.
  - rewrite Hn by lia. destruct (start_search _ _ _ _ _); cbn [mbind res_bind]; [|done..]. apply IH; intros; [apply Ha|apply Hn]; lia.
Qed.

(** ** The server *)
Section Server.
Context (t : Topology) (Ht : topology_wf t) (Hcap : (capacity (gsizes t) ≤ U128_MAX + 1)%Z).
Context (my : list Z) (Hmy : address t my) (cfg : PeerConfig) (w : ForwardWorld) (mf : PeerMessageForwarder) (Hmf : forwarder_ok t mf).

(** The message handed on keeps the honest form and narrows the scope. *)
Lemma next_forwarder_Ok {E} x :
  coord_real t x → hc_level x < target_levels (mf_x_macron mf) →
  ∃ m, (next_forwarder t my mf x : res E _) = Ok m ∧ forwarder_ok t m ∧ mf_lvl m = hc_level x ∧ mf_pos m = hc_pos x ∧
    mf_n m = mf_n mf ∧ mf_msg_id m = mf_msg_id mf ∧ (narrow_target t (mf_x_macron mf) (hc_level x) : res E _) = Ok (mf_x_macron m).
Proof.
  intros Hx Hlt. destruct Hmf as (Hn & Hlv & _ & Hxw & Hxl & H1 & H2). unfold next_forwarder.
  destruct (narrow_target_Ok t (E := E) (mf_x_macron mf) (hc_level x) Hxw ltac:(lia)) as (xm' & -> & Hxw' & Hxl' & _). cbn [mbind res_bind].
  destruct (narrow_excluded_Ok t my Hmy (E := E) x _ Hx H1) as (l1 & -> & Hl1). cbn [mbind res_bind].
  destruct (narrow_non_participants_Ok t my Hmy (E := E) x _ H2) as (l2 & -> & Hl2). cbn [mbind res_bind].
  eexists. split; [done|]. unfold forwarder_ok. cbn [mf_n mf_lvl mf_pos mf_x_macron mf_exclude_tuple_list mf_non_participant_tuple_list mf_msg_id].
  rewrite Hxl'. split; [|done]. split; [done|]. split; [lia|]. split; [by destruct x|]. split; [done|]. split; [done|]. split; [|done].
  eapply Forall_impl; [done|]. cbn. by intros g [? _].
Qed.

Definition action_ok (a : Action) : Prop :=
  match a with
  | SendForward m x _ => forwarder_ok t m ∧ mf_lvl m = hc_level x ∧ mf_pos m = hc_pos x
  | SendNonParticipant _ g | SendFailure _ g | SendNextDestination _ g => gn_wf t g ∧ gn_top g = tn_top (mf_n mf)
  | FetchRequest _ r | SendResponse _ _ r | SendRefuse _ _ r | SendRedoFromStart _ r => tn_wf t r ∧ tn_top r = tn_top (mf_n mf)
  | SendMissingOptionalMaps _ => True
  end.

Lemma reached_gnode_Ok {E} : ∃ g, (reached_gnode t my mf : res E _) = Ok g ∧ gn_wf t g ∧ gn_top g = tn_top (mf_n mf).
Proof.
  destruct Hmf as ((_ & Hnl & _) & Hlv & Hreal & _).
  destruct (make_tuple_gnode_Ok t my Hmy (E := E) (mkHCoord (mf_lvl mf) (mf_pos mf)) (tn_top (mf_n mf)) Hreal Hlv Hnl) as (g & ? & ? & ? & _). eauto.
Qed.

Lemma serve_forwarded_Ok {E} m0 :
  my !! 0 = Some m0 → ∃ acts, (serve_forwarded t my w mf m0 : res E _) = Ok acts ∧ Forall action_ok acts.
Proof.
  intros Hm0. unfold serve_forwarded. destruct (fw_dial w); cbn [negb]; [|by eexists].
  destruct Hmf as ((_ & Hnl & _) & Hlv & _). destruct (my_first t Ht my Hmy) as (m0' & Hm0' & Hr0). assert (m0' = m0) as -> by congruence.
  destruct (make_tuple_node_Ok (E := E) t my (mkHCoord 0 m0) (tn_top (mf_n mf)) Ht Hmy Hr0) as (-> & Hw & Hl); [cbn; lia|done|].
  cbn [mbind res_bind]. eexists. split; [done|]. set (r := mkTupleNode _ _) in *.
  assert (tn_wf t r ∧ tn_top r = tn_top (mf_n mf)) as Hr by done. constructor; [done|].
  destruct (fw_request w) as [rq|]; [|done]. destruct (fw_verify w rq); [by apply Forall_singleton|].
  destruct (fw_exec w rq) as [[v|[rf|]]|]; [by apply Forall_singleton..|done].
Qed.

Lemma forward_loop_Ok {E} excl i fuel :
  ∃ o, (forward_loop t my cfg w mf excl i fuel : res E _) = Ok o ∧ ∀ acts, o = Some acts → Forall action_ok acts.
Proof.
  pose proof Hmf as ((_ & Hnl & _) & Hlv & _ & Hxw & Hxl & _). revert i. induction fuel as [|fuel IH]; intros i; cbn [forward_loop]; [by eexists|].
  destruct (approximate_elects t Ht Hcap my Hmy (E := E) (mf_x_macron mf) excl (fw_exists w i) Hxw) as (o & -> & Ho). cbn [mbind res_bind].
  destruct o as [x|].
  2:{ destruct (fw_dial w); [|eexists; split; [done|]; by intros acts [= <-]]. destruct (reached_gnode_Ok (E := E)) as (g & -> & Hg).
      cbn. eexists. split; [done|]. intros acts [= <-]. by apply Forall_singleton. }
  destruct Ho as (Hreal & _ & Hor). destruct (my_first t Ht my Hmy) as (m0 & Hm0 & _). rewrite Hm0 in *. cbn [expect mbind res_bind].
  destruct ((hc_level x =? 0) && (hc_pos x =? m0)%Z) eqn:Hme.
  { destruct (serve_forwarded_Ok (E := E) m0 Hm0) as (acts & -> & Hacts). cbn. eexists. split; [done|]. by intros ? [= <-]. }
  assert (hc_level x < target_levels (mf_x_macron mf)) as Hlt.
  { destruct Hor as [[? _]|[Hz [= Hp]]]; [done|]. rewrite Hz, Hp, Nat.eqb_refl, Z.eqb_refl in Hme. done. }
  destruct (next_forwarder_Ok (E := E) x Hreal Hlt) as (m & -> & Hm & Hml & Hmp & _). cbn [mbind res_bind].
  destruct (try_forward _ _ _).
  - destruct (fw_dial w).
    + destruct (make_tuple_gnode_Ok t my Hmy (E := E) x (tn_top (mf_n mf)) Hreal ltac:(lia) Hnl) as (g & -> & Hg & Hgt & _).
      cbn. eexists. split; [done|]. intros acts [= <-]. constructor; [done|]. by apply Forall_singleton.
    + eexists. split; [done|]. intros acts [= <-]. by apply Forall_singleton.
  - destruct (IH (S i)) as (rest & -> & Hrest). cbn. eexists. split; [done|]. intros acts Ha. destruct rest as [l|]; [|done].
    injection Ha as <-. constructor; [done|by apply Hrest].
Qed.

Lemma forward_exclusions_Ok {E} np : is_Ok (forward_exclusions t my mf np : res E _).
Proof.
  destruct Hmf as (_ & _ & _ & _ & _ & H1 & _). rewrite Forall_forall in H1.
  destruct (foldM_total (E := E) (λ (excl : list HCoord) g, r ← convert_tuple_gnode my g;
    match r.1 with
    | Mine => l ← all_gnodes_up_to_lvl t my (hc_level r.2); Ok (excl ++ l)
    | Visible => Ok (excl ++ [r.2])
    | Hidden => Ok excl
    end) (λ _, True) np (mf_exclude_tuple_list mf)) as (e & He & _); [done| |by exists e].
  intros c g Hg _. destruct (convert_tuple_gnode_spec t my Hmy (E := E) g (H1 g Hg)) as (rel & h & -> & _). cbn [mbind res_bind fst snd].
  destruct (all_gnodes_Ok (E := E) t my (hc_level h) Ht Hmy) as (ms & -> & _). cbn. destruct rel; eauto.
Qed.

Lemma forward_msg_Ok {E} fuel :
  ∃ o, (forward_msg t my cfg w mf fuel : res E _) = Ok o ∧ ∀ acts, o = Some acts → Forall action_ok acts.
Proof.
  pose proof Hmf as ((_ & Hnl & _) & Hlv & _ & _). unfold forward_msg.
  destruct (lookup_lt_is_Some_2 my (mf_lvl mf)) as [p Hp]; [destruct Hmy; lia|]. rewrite Hp. cbn [expect mbind res_bind].
  destruct (negb _); [eexists; split; [done|]; intros acts [= <-]; by apply Forall_singleton|].
  destruct (fw_optional w) as [opt|]; [|eexists; split; [done|]; by intros acts [= <-]].
  destruct (_ && _). { eexists. split; [done|]. intros acts [= <-]. unfold to_originator. destruct (fw_dial w); [by apply Forall_singleton|done]. }
  destruct (if opt then _ else _) as [[]|]; [| |eexists; split; [done|]; by intros acts [= <-]].
  - destruct (fw_non_participants w) as [np|]; [|eexists; split; [done|]; by intros acts [= <-]].
    destruct (forward_exclusions_Ok (E := E) np) as [excl ->]. cbn [mbind res_bind]. apply forward_loop_Ok.
  - destruct (fw_dial w); [|eexists; split; [done|]; by intros acts [= <-]]. destruct (reached_gnode_Ok (E := E)) as (g & -> & Hg).
    cbn. eexists. split; [done|]. intros acts [= <-]. by apply Forall_singleton.
Qed.
End Server.

(** ** Hops of the lookup *)
Lemma narrow_scoped {E} t target k l :
  address t target → l ≤ k → k ≤ topology_levels t → (narrow_target t (scoped t target k) l : res E _) = Ok (scoped t target l).
Proof.
  intros [Hlen Hr] Hl Hk. unfold narrow_target, scoped. destruct (Nat.ltb_spec 0 l) as [Hpos|Hz]; [|by replace l with 0 by lia].
  rewrite (proj2 (Nat.eqb_neq k 0)), (proj2 (Nat.eqb_neq l 0)) by lia. cbn [expect mbind res_bind tn_pos].
  rewrite slice_Ok by (rewrite ?length_take; lia). rewrite Nat.sub_0_r, drop_0, take_take, Nat.min_l by lia. cbn [mbind res_bind].
  rewrite tuple_node_new_wf; [done|rewrite length_take; lia|by apply real_from_take].
Qed.

(** ** A request carried through a network of actors *)

(** What a node answers to [forward_msg] besides its actor: its routing
    environment, and what becomes of the request it serves. *)
Record NodeEnv := mkNodeEnv {
  ne_exists : HCoord → bool;
  ne_dial : bool;
  ne_rounds : PeerMessageForwarder → nat → Round;
  ne_request : option TypedValue;
  ne_verify : TypedValue → option string;
  ne_exec : TypedValue → option (TypedValue + ExecError)
}.

Section Network.
Context {Svc : Type} `{PeerService Svc} `{Crypto}.

(** The answers of the actor that [forward_msg] asks for. *)
Definition world_of (st : State (Svc := Svc)) (env : NodeEnv) (mf : PeerMessageForwarder) : ForwardWorld :=
  mkForwardWorld (Some (service_optional st (mf_p_id mf))) (sn_retrieved_below_level (st_snapshot st))
    (Some (gnode_participates st (mf_p_id mf) (mf_lvl mf)))
    (match non_participant_gnodes st (mf_p_id mf) (mf_inside_level mf) : res PeerError _ with Ok l => Some l | _ => None end)
    (ne_dial env) (λ _, ne_exists env) (λ _, ne_rounds env) (ne_request env) (ne_verify env) (ne_exec env).

Context (t : Topology) (Ht : topology_wf t) (Hcap : (capacity (gsizes t) ≤ U128_MAX + 1)%Z).
Context (target : list Z) (Htarget : address t target) (p : Z).
(** The nodes of the network and those that serve [p]. *)
Context (nodes P : list (list Z)) (HPN : ∀ y, y ∈ P → y ∈ nodes).
Context (st : list Z → State (Svc := Svc)) (env : list Z → NodeEnv).
Context (cfg : PeerConfig) (Hcfg : 0 < pc_max_relay_attempts cfg).

(** The node knows the network: its actor is in order and either the service is
    optional, its participation maps are retrieved at every level and accurate, and
    its routes cover every g-node that holds a participant; or the service is not
    optional, it serves it, and its routes name exactly the g-nodes that hold a
    node.  Gateways accept messages and the originator can be reached. *)
Record ready (n : list Z) : Prop := mkReady {
  rd_inv : state_inv (st n);
  rd_topology : st_topology (st n) = t;
  rd_pos : st_my_pos (st n) = n;
  rd_knows :
    (service_optional (st n) p = true ∧ maps_accurate (st n) P p ∧
      sn_retrieved_below_level (st_snapshot (st n)) = topology_levels t ∧
      ∀ h y, y ∈ P → represents n h y → ne_exists (env n) h = true) ∨
    (service_optional (st n) p = false ∧ n ∈ P ∧
      ∀ h, coord_real t h → n !! hc_level h ≠ Some (hc_pos h) →
        ne_exists (env n) h = true ↔ ∃ y, y ∈ P ∧ represents n h y);
  rd_dial : ne_dial (env n) = true;
  rd_accepts : ∀ m, ne_rounds (env n) m 0 = Accepted
}.
Context (Hready : ∀ n, n ∈ nodes → ready n).

Lemma ready_address n : n ∈ nodes → address t n.
Proof. intros Hn. destruct (Hready n Hn) as [Hi E1 E2 _ _ _]. pose proof (si_address _ Hi). by rewrite E1, E2 in *. Qed.

Lemma participant_address y : y ∈ P → address t y.
Proof. intros Hy. by apply ready_address, HPN. Qed.

(** The exclusions a ready node reads at any scope that holds [k]. *)
Lemma ready_exclusions n k inside :
  n ∈ nodes → k ≤ inside →
  ∃ l, (non_participant_gnodes (st n) p inside : res PeerError _) = Ok l ∧ knows t P n k l (ne_exists (env n)).
Proof.
  intros Hn Hk. destruct (Hready n Hn) as [Hi E1 E2 [(Hopt & [Hacc Hme] & _ & Hex)|(Hopt & Hin & Hex)] _ _].
  - destruct (non_participant_gnodes_spec (E := PeerError) (st n) p inside Hi Hopt) as (l & Hl & Hg & Hl0). rewrite E1, E2 in *.
    exists l. split; [done|]. split.
    + intros h Hr Hlv Hnm. rewrite (Hg h Hr ltac:(lia) Hnm). unfold has_fact. rewrite (Hacc h Hr Hnm). split; [by intros [? _]|].
      intros (y & Py & Ry). split; [by exists y|by eapply Hex].
    + intros q Hq. by rewrite (Hl0 q Hq).
  - exists []. unfold non_participant_gnodes. rewrite Hopt. split; [done|]. split.
    + intros h Hr _ Hne. rewrite (Hex h Hr Hne). split; [by intros [_ ?]|]. intros. split; [apply not_elem_of_nil|done].
    + intros q _. split; [done|]. intros _. apply not_elem_of_nil.
Qed.

(** What a message towards [x] is when node [n] holds it: the target at the scope
    of the g-node it was sent to, which [n] is in and whose closest participant is
    [x]. *)
Record carried (msg_id : Z) (x n : list Z) (mf : PeerMessageForwarder) : Prop := mkCarried {
  ca_node : n ∈ nodes;
  ca_ok : forwarder_ok t mf;
  ca_at : n !! mf_lvl mf = Some (mf_pos mf);
  ca_target : mf_x_macron mf = scoped t target (mf_lvl mf);
  ca_service : mf_p_id mf = p;
  ca_msg_id : mf_msg_id mf = msg_id;
  ca_scope : mf_lvl mf ≤ mf_inside_level mf;
  ca_lists : mf_exclude_tuple_list mf = [] ∧ mf_non_participant_tuple_list mf = [];
  ca_closest : closest t target P n (mf_lvl mf) x
}.

(** A message handed on with success is received by some node of the g-node it
    is addressed to. *)
Inductive routed : list Z * PeerMessageForwarder → list Z * PeerMessageForwarder → Prop :=
  | routed_hop n mf fuel acts m h y :
      (forward_msg t n cfg (world_of (st n) (env n) mf) mf fuel : res PeerError _) = Ok (Some acts) →
      SendForward m h true ∈ acts → y ∈ nodes → represents n h y → routed (n, mf) (y, m).

Lemma closest_participates n k x :
  n ∈ nodes → k ≤ topology_levels t → closest t target P n k x → service_optional (st n) p = true →
  gnode_participates (st n) p k = true ∧ sn_retrieved_below_level (st_snapshot (st n)) = topology_levels t.
Proof.
  intros Hn Hk Hx Hopt. pose proof (ready_address n Hn) as Ha.
  destruct (Hready n Hn) as [Hi E1 E2 [(_ & [Hacc Hme] & Hsn & _)|(? & _)] _ _]; [|congruence]. split; [|done].
  destruct (participant_address x (proj1 Hx)) as [Hlx Rx]. pose proof Ha as [Hlen _].
  destruct (lookup_lt_is_Some_2 n 0) as [m0 Hm0]; [pose proof (topology_levels_pos t Ht); lia|].
  unfold gnode_participates. destruct (seen_from_spec n x k m0) as [[-> _]|(Hl & Hne & Hrep)]; [lia|done|lia|apply Hx|..].
  - rewrite bool_decide_true; [done|]. apply Hme. rewrite E2. apply Hx.
  - case_bool_decide; [done|]. destruct (Rx _ _ (proj1 Hrep)) as (g & ? & ?). rewrite E1, E2 in *.
    destruct (proj2 (Hacc (seen_from n x k) ltac:(by exists g) Hne)) as (m & -> & Hin); [exists x; split; [apply Hx|done]|].
    apply any_true. exists (seen_from n x k). by rewrite elem_of_participants, Nat.ltb_lt.
Qed.

(** The election at a node that holds the target at scope [k]. *)
Lemma ready_elects {E} n k x l :
  n ∈ nodes → k ≤ topology_levels t → knows t P n k l (ne_exists (env n)) → closest t target P n k x →
  ∃ h, (approximate t n (scoped t target k) l (ne_exists (env n)) : res E _) = Ok (Some h) ∧ coord_real t h ∧
    ((n = x ∧ hc_level h = 0 ∧ n !! 0 = Some (hc_pos h)) ∨
     (n ≠ x ∧ hc_level h < k ∧ n !! hc_level h ≠ Some (hc_pos h) ∧ represents n h x ∧
      ∀ y, y ∈ nodes → represents n h y → closest t target P y (hc_level h) x)).
Proof.
  intros Hn Hk Hkn Hx. pose proof (ready_address n Hn) as Ha. pose proof Ha as [Hlen Rn].
  destruct (approximate_closest t Ht Hcap target Htarget P participant_address n Ha k Hk _ _ Hkn (E := E)) as [Happ _].
  exists (seen_from n x k). split; [by apply Happ|]. destruct (participant_address x (proj1 Hx)) as [Hlx Rx].
  destruct (lookup_lt_is_Some_2 n 0) as [m0 Hm0]; [pose proof (topology_levels_pos t Ht); lia|].
  destruct (seen_from_spec n x k m0) as [[Heq Hseen]|(Hl & Hne & Hrep)]; [lia|done|lia|apply Hx|..].
  - rewrite Hseen. destruct (Rn _ _ Hm0) as (g & ? & ?). split; [by exists g|]. by left.
  - destruct (Rx _ _ (proj1 Hrep)) as (g & ? & ?). split; [by exists g|]. right. split_and!; try done.
    + intros ->. destruct Hrep as [Hp _]. done.
    + intros y Hy Hry. eapply (closest_narrow t target Htarget P participant_address n k); try done. by apply ready_address.
Qed.

(** One hop: the gates of [forward_msg] let the message through to its loop. *)
Lemma forward_msg_enters msg_id x n mf fuel :
  carried msg_id x n mf →
  ∃ l, knows t P n (mf_lvl mf) l (ne_exists (env n)) ∧
    (forward_msg t n cfg (world_of (st n) (env n) mf) mf fuel : res PeerError _) =
      forward_loop t n cfg (world_of (st n) (env n) mf) mf l 0 fuel.
Proof.
  intros [Hn Hok Hat Htg Hp _ Hsc [He _] Hx]. destruct (ready_exclusions n (mf_lvl mf) (mf_inside_level mf) Hn Hsc) as (l & Hl & Hkn).
  exists l. split; [done|]. unfold forward_msg. rewrite Hat. cbn [expect mbind res_bind]. rewrite Z.eqb_refl. cbn [negb].
  cbn [world_of fw_optional fw_below_level fw_participates fw_non_participants]. rewrite Hp, Hl.
  assert (mf_lvl mf ≤ topology_levels t) as Hle.
  { destruct Hok as (_ & _ & Hr & _). pose proof (coord_real_level _ _ Hr). cbn in *. lia. }
  assert (forward_exclusions t n mf l = (Ok l : res PeerError _)) as Hfe by (unfold forward_exclusions; by rewrite He).
  destruct (service_optional (st n) p) eqn:Hopt; cbn [andb]; [|by rewrite Hfe].
  destruct (closest_participates n (mf_lvl mf) x Hn Hle Hx Hopt) as [-> ->]. rewrite Hfe, Htg. unfold scoped.
  destruct (Nat.eqb_spec (mf_lvl mf) 0); cbn [mbind res_bind]; [done|]. unfold tn_top. cbn [tn_pos].
  rewrite (proj2 (Nat.ltb_ge _ _)); [done|]. rewrite length_take. lia.
Qed.

(** The message handed on to an elected g-node is carried by every node of it. *)
Lemma carried_next msg_id x n mf h :
  carried msg_id x n mf → coord_real t h → hc_level h < mf_lvl mf →
  ∃ m, (next_forwarder t n mf h : res PeerError _) = Ok m ∧ mf_lvl m = hc_level h ∧
    ∀ y, y ∈ nodes → represents n h y → closest t target P y (hc_level h) x → carried msg_id x y m.
Proof.
  intros [Hn Hok Hat Htg Hp Hid Hsc [He Hnp] Hx] Hh Hlt.
  pose proof Hok as (_ & _ & Hr & _). pose proof (coord_real_level _ _ Hr) as Hle. cbn [hc_level] in Hle.
  assert (target_levels (mf_x_macron mf) = mf_lvl mf) as Htl.
  { rewrite Htg. unfold scoped. destruct (Nat.eqb_spec (mf_lvl mf) 0); [by cbn|]. cbn. unfold tn_top. cbn.
    rewrite length_take. destruct Htarget. lia. }
  destruct (next_forwarder_Ok t n (ready_address n Hn) mf Hok (E := PeerError) h Hh ltac:(lia)) as (m & Hm & Hmok & Hml & Hmp & _ & Hmid & Hnar).
  exists m. split_and!; [done..|]. intros y Hy Hry Hcl. rewrite Htg, narrow_scoped in Hnar by (done || lia). injection Hnar as Hnar.
  unfold next_forwarder in Hm. rewrite He, Hnp in Hm. unfold narrow_excluded, narrow_non_participants in Hm.
  cbn [filter_mapM mbind res_bind] in Hm. destruct (narrow_target _ _ _); cbn [mbind res_bind] in Hm; [|done..].
  injection Hm as <-. cbn in *. constructor; cbn; try done; [apply Hry|lia].
Qed.

(** A node that is not the closest participant hands the message on, one scope
    deeper, to the g-node that holds it. *)
Lemma hop_forwards msg_id x n mf fuel :
  carried msg_id x n mf → n ≠ x →
  ∃ m h g, (forward_msg t n cfg (world_of (st n) (env n) mf) mf (S fuel) : res PeerError _) =
      Ok (Some [SendForward m h true; SendNextDestination msg_id g]) ∧
    mf_lvl m < mf_lvl mf ∧ represents n h x ∧ ∀ y, y ∈ nodes → represents n h y → carried msg_id x y m.
Proof.
  intros Hc Hne. destruct (forward_msg_enters msg_id x n mf (S fuel) Hc) as (l & Hkn & ->).
  pose proof (carried_next msg_id x n mf) as Hnext. pose proof Hc as [Hn Hok Hat Htg Hp Hid Hsc _ Hx].
  pose proof (ready_address n Hn) as Ha. destruct (Hready n Hn) as [_ _ _ _ Hdial Hacc].
  pose proof Hok as ((_ & Hnl & _) & Hlv & Hr & _). pose proof (coord_real_level _ _ Hr) as Hle. cbn [hc_level] in Hle.
  destruct (ready_elects (E := PeerError) n (mf_lvl mf) x l Hn ltac:(lia) Hkn Hx) as (h & Happ & Hh & [[? _]|(_ & Hlt & Hnh & Hrx & Hcl)]); [done|].
  cbn [forward_loop]. cbn [world_of fw_exists]. rewrite Htg, Happ. cbn [mbind res_bind].
  destruct (my_first t Ht n Ha) as (m0 & Hm0 & _). rewrite Hm0. cbn [expect mbind res_bind].
  replace ((hc_level h =? 0) && (hc_pos h =? m0)%Z) with false.
  2:{ symmetry. apply andb_false_iff. destruct (Nat.eqb_spec (hc_level h) 0) as [Hz|]; [right|by left]. apply Z.eqb_neq.
      intros Hq. apply Hnh. by rewrite Hz, Hm0, Hq. }
  destruct (Hnext h Hc Hh Hlt) as (m & -> & Hml & Hm). cbn [mbind res_bind].
  destruct (pc_max_relay_attempts cfg) as [|a]; [lia|]. cbn [try_forward world_of fw_rounds fw_dial]. rewrite Hacc, Hdial.
  destruct (make_tuple_gnode_Ok t n Ha (E := PeerError) h (tn_top (mf_n mf)) Hh ltac:(lia) Hnl) as (g & -> & _). cbn [mbind res_bind].
  rewrite Hid. exists m, h, g. split_and!; [done|lia|done|]. intros y Hy Hry. apply Hm; [done..|by apply Hcl].
Qed.

(** The closest participant fetches the request and answers it, and hands
    nothing on. *)
Lemma hop_serves msg_id x mf fuel :
  carried msg_id x x mf →
  ∃ r rest, (forward_msg t x cfg (world_of (st x) (env x) mf) mf (S fuel) : res PeerError _) =
      Ok (Some (FetchRequest msg_id r :: rest)) ∧ tn_pos r = take (tn_top (mf_n mf)) x ∧
    (∀ m h b, SendForward m h b ∉ rest) ∧
    ∀ rq v, ne_request (env x) = Some rq → ne_verify (env x) rq = None → ne_exec (env x) rq = Some (inl v) →
      rest = [SendResponse msg_id v r].
Proof.
  intros Hc. destruct (forward_msg_enters msg_id x x mf (S fuel) Hc) as (l & Hkn & ->).
  destruct Hc as [Hn Hok Hat Htg Hp Hid Hsc _ Hx]. pose proof (ready_address x Hn) as Ha. destruct (Hready x Hn) as [_ _ _ _ Hdial _].
  pose proof Hok as ((_ & Hnl & _) & Hlv & Hr & _). pose proof (coord_real_level _ _ Hr) as Hle. cbn [hc_level] in Hle.
  destruct (ready_elects (E := PeerError) x (mf_lvl mf) x l Hn ltac:(lia) Hkn Hx) as (h & Happ & Hh & [(_ & Hz & Hq)|[? _]]); [|done].
  cbn [forward_loop]. cbn [world_of fw_exists]. rewrite Htg, Happ. cbn [mbind res_bind]. rewrite Hq. cbn [expect mbind res_bind].
  rewrite Hz, Z.eqb_refl, Nat.eqb_refl. cbn [andb]. unfold serve_forwarded. cbn [world_of fw_dial]. rewrite Hdial. cbn [negb].
  assert (h = mkHCoord 0 (hc_pos h)) as Hh0 by (destruct h; cbn in *; congruence). rewrite Hh0 in Hh.
  destruct (make_tuple_node_Ok (E := PeerError) t x (mkHCoord 0 (hc_pos h)) (tn_top (mf_n mf)) Ht Ha Hh) as (-> & _ & _); [cbn; lia|done|].
  cbn [mbind res_bind]. rewrite Hid. eexists _, _. split; [done|]. split_and!.
  - cbn [tn_pos]. unfold tuple_of. cbn [replicate app hc_level hc_pos]. destruct x as [|q0 x']; [done|]. cbn in Hq. injection Hq as ->.
    destruct (tn_top (mf_n mf)); [lia|]. cbn. by rewrite drop_0, Nat.sub_0_r.
  - intros m h' b. destruct (fw_request _) as [rq|]; [|apply not_elem_of_nil]. destruct (fw_verify _ rq); [by intros ?%list_elem_of_singleton|].
    destruct (fw_exec _ rq) as [[v|[rf|]]|]; [by intros ?%list_elem_of_singleton..|apply not_elem_of_nil].
  - cbn [world_of fw_request fw_verify fw_exec]. intros rq v -> Hv He. by rewrite Hv, He.
Qed.

(** Every message of a route is carried, and the scope falls at every hop. *)
Lemma routed_carried msg_id x i n mf n' mf' :
  carried msg_id x n mf → nsteps routed i (n, mf) (n', mf') → carried msg_id x n' mf' ∧ i + mf_lvl mf' ≤ mf_lvl mf.
Proof.
  revert n mf. induction i as [|i IH]; intros n mf Hc Hs; inversion Hs as [|? ? [n1 mf1] ? Hh Hr]; subst; [done|].
  inversion Hh as [? ? fuel acts ? h ? Hf Hin Hy Hrep]; subst. destruct fuel as [|fuel].
  { destruct (forward_msg_enters msg_id x n mf 0 Hc) as (l & _ & E). rewrite E in Hf. done. }
  destruct (decide (n = x)) as [->|Hne].
  - destruct (hop_serves msg_id x mf fuel Hc) as (r & rest & E & _ & Hno & _). rewrite E in Hf. injection Hf as <-.
    apply elem_of_cons in Hin as [?|Hin]; [done|]. by apply Hno in Hin.
  - destruct (hop_forwards msg_id x n mf fuel Hc Hne) as (m & h' & g & E & Hlt & _ & Hm). rewrite E in Hf. injection Hf as <-.
    assert (mf1 = m ∧ h = h') as [-> ->] by (rewrite !elem_of_cons, elem_of_nil in Hin; naive_solver).
    destruct (IH n1 m (Hm n1 Hy Hrep) Hr). split; [done|lia].
Qed.

(** The first message of a search with no exclusions. *)
Lemma origin_sends my x msg_id auth :
  my ∈ nodes → closest t target P my (topology_levels t) x →
  ∃ np s h, (non_participant_gnodes (st my) p (topology_levels t) : res PeerError _) = Ok np ∧
    start_search t my None [] (Some np) = Ok s ∧
    (approximate t my (Some (mkTupleNode t target)) (sr_exclude_gnode_list s) (ne_exists (env my)) : res ContactPeerError _) = Ok (Some h) ∧
    ((my = x ∧ hc_level h = 0 ∧ my !! 0 = Some (hc_pos h)) ∨
     (my ≠ x ∧ hc_level h < topology_levels t ∧ my !! hc_level h ≠ Some (hc_pos h) ∧
      ∃ mf, make_forwarder t my p (Some (mkTupleNode t target)) s h msg_id auth = Ok mf ∧ mf_lvl mf = hc_level h ∧
        ∀ y, y ∈ nodes → represents my h y → carried msg_id x y mf)).
Proof.
  intros Hmy Hx. pose proof (ready_address my Hmy) as Ha. pose proof (topology_levels_pos t Ht) as Hpos.
  destruct (ready_exclusions my (topology_levels t) (topology_levels t) Hmy (le_n _)) as (np & Hnp & Hkn).
  assert (scoped t target (topology_levels t) = Some (mkTupleNode t target)) as Hsc.
  { unfold scoped. rewrite (proj2 (Nat.eqb_neq _ _)) by lia. by rewrite take_ge by (destruct Htarget; lia). }
  destruct (ready_elects (E := ContactPeerError) my (topology_levels t) x np Hmy (le_n _) Hkn Hx) as (h & Happ & Hh & Hor).
  exists np, (mkSearch [] np [] []), h. split; [done|]. unfold start_search. cbn [ok_or mbind res_bind foldM]. rewrite app_nil_r.
  split; [done|]. cbn [sr_exclude_gnode_list]. rewrite <-Hsc. split; [done|].
  destruct Hor as [?|(Hne & Hlt & Hnh & Hrx & Hcl)]; [by left|right]. split_and!; [done..|]. rewrite Hsc.
  assert (tn_wf t (mkTupleNode t target)) as Hw by (destruct Htarget; split; [done|]; split; [cbn; lia|done]).
  assert (target_levels (Some (mkTupleNode t target)) = topology_levels t) as Htl by (cbn; unfold tn_top; cbn; apply Htarget).
  destruct (make_forwarder_Ok t Ht my Ha cfg p (Some (mkTupleNode t target)) Hw (mkSearch [] np [] []) h msg_id auth)
    as (mf & Hmf & Hok & Hl & Hq & _ & _ & Hnar); [split; [constructor|split; [constructor|cbn; lia]]|done|by rewrite Htl|].
  exists mf. split_and!; [done..|]. rewrite <-Hsc, narrow_scoped in Hnar by (done || lia). injection Hnar as Hnar.
  unfold make_forwarder in Hmf. destruct (my_first t Ht my Ha) as (m0 & Hm0 & _). rewrite Hm0 in Hmf. cbn [expect mbind res_bind] in Hmf.
  destruct (make_tuple_node _ _ _ _) as [n0| |]; cbn [mbind res_bind] in Hmf; [|done..].
  destruct (narrow_target _ _ _) as [xm| |]; cbn [mbind res_bind] in Hmf; [|done..]. rewrite Htl in Hmf.
  unfold narrow_excluded, narrow_non_participants in Hmf. cbn in Hmf. injection Hmf as <-. cbn in *.
  intros y Hy Hry. constructor; cbn; try done; [apply Hry|lia|by apply Hcl].
Qed.
End Network.


(** ** Properties *)

(** A search never panics and is bounded.  For any target and seeds of the
    topology, whatever the rest of the daemon answers, [contact_peer] ends with
    a result or an error — never a panic, given the order of events the actor
    guarantees — the node it names as respondant is scoped as the target is, and
    the outcome depends on at most [max_contact_peer_hops] attempts, restarts
    included. *)
Theorem contact_peer_safe_bounded (t : Topology) (my : list Z) (cfg : PeerConfig) (p_id : Z) (xm : option TupleNode)
    (em : option nat) (seeds : list TupleGNode) (w : ContactWorld) :
  topology_wf t → (capacity (gsizes t) ≤ U128_MAX + 1)%Z → address t my → target_wf t xm → Forall (gn_wf t) seeds →
  (∀ n g, gn_wf t g → events_ok t (gn_top g) false (at_events (cw_attempt w n) g)) →
  match contact_peer t my cfg p_id xm em seeds w with
  | Ok (_, r) => tn_wf t r ∧ tn_top r = target_levels xm
  | Err _ => True
  | Panic => False
  end ∧
  ∀ w', (∀ n, n < pc_max_contact_peer_hops cfg → cw_attempt w n = cw_attempt w' n) →
    (∀ n, n ≤ pc_max_contact_peer_hops cfg → cw_non_participants w n = cw_non_participants w' n) →
    contact_peer t my cfg p_id xm em seeds w = contact_peer t my cfg p_id xm em seeds w'.
Proof.
  intros Ht Hcap Hmy Hxm Hseeds Hev. unfold contact_peer. split.
  - pose proof (start_search_Ok t Ht my Hmy cfg em seeds (cw_non_participants w 0) Hseeds) as Hs.
    destruct (start_search _ _ _ _ _) as [s|e|]; cbn [mbind res_bind]; [|done..]. by apply attempts_Ok.
  - intros w' Ha Hn. rewrite (Hn 0) by lia. destruct (start_search _ _ _ _ _) as [s|e|]; cbn [mbind res_bind]; [|done..].
    apply attempts_bound; intros; [apply Ha|apply Hn]; lia.
Qed.

(** An attempt of the examples, served by the node that is elected. *)
Definition attempt_self (v : TypedValue) : Attempt :=
  mkAttempt (λ _, false) (Some (inl v)) None None false (λ _ _, NoGateway) (λ _, []).
Definition world_self (v : TypedValue) : ContactWorld := mkContactWorld (λ _, Some []) (λ _, attempt_self v).

Lemma contact_peer_safe_bounded_witness :
  contact_peer topo_dht [1; 1]%Z peer_config_default 5 (Some (node_dht 2 1)) None [] (world_self (mkTypedValue "v" [])) =
    Ok (mkTypedValue "v" [], node_dht 1 1) ∧
  tn_wf topo_dht (node_dht 1 1) ∧ tn_top (node_dht 1 1) = 2.
Proof.
  split; [vm_compute; reflexivity|].
  apply (contact_peer_safe_bounded topo_dht [1; 1]%Z peer_config_default 5 (Some (node_dht 2 1)) None [] (world_self (mkTypedValue "v" []))).
  - apply topo_dht_wf.
  - vm_compute. discriminate.
  - apply address_dht; lia.
  - apply node_dht_wf; lia.
  - constructor.
  - intros n g _. exact I.
Defined.

(** A hop never panics on an honest message, and passes on honest messages.
    When the target of a forwarded message spans no more than the levels below
    the g-node it is addressed to, [forward_msg] does not panic whatever the
    daemon answers, every message it forwards has that form again, and every
    reply it sends is well formed and scoped to the originator's view. *)
Theorem forward_msg_safe (t : Topology) (my : list Z) (cfg : PeerConfig) (w : ForwardWorld) (mf : PeerMessageForwarder) (fuel : nat) :
  topology_wf t → (capacity (gsizes t) ≤ U128_MAX + 1)%Z → address t my → forwarder_ok t mf →
  ∃ o, (forward_msg t my cfg w mf fuel : res PeerError _) = Ok o ∧ ∀ acts, o = Some acts → Forall (action_ok t mf) acts.
Proof. intros. by apply forward_msg_Ok. Qed.

(** A message of the examples towards the g-node [(1, 1)]. *)
Definition message_dht : PeerMessageForwarder :=
  mkForwarder 2 (node_dht 0 0) (Some (mkTupleNode topo_dht [2]%Z)) 1 1 5 7 [] [] None.
Definition forward_world (served : bool) : ForwardWorld :=
  mkForwardWorld (Some true) 2 (Some true) (Some []) true (λ _ h, bool_decide (h = mkHCoord 0 3)) (λ _ _ _, Accepted)
    (Some (mkTypedValue "q" [])) (λ _, None) (λ _, if served then Some (inl (mkTypedValue "v" [])) else None).

Lemma message_dht_ok : forwarder_ok topo_dht message_dht.
Proof.
  split; [apply node_dht_wf; lia|]. split; [cbn; lia|]. split; [exists 4%Z; split; [done|cbn; lia]|]. split.
  - split; [done|]. split; [cbn; lia|]. intros [|i] p Hp; cbn in Hp; simplify_eq. exists 4%Z. split; [done|lia].
  - split; [cbn; lia|]. split; constructor.
Qed.

Lemma forward_msg_safe_witness :
  ∃ acts, (forward_msg topo_dht [1; 1]%Z peer_config_default (forward_world true) message_dht 5 : res PeerError _) = Ok (Some acts) ∧
    length acts = 2 ∧ Forall (action_ok topo_dht message_dht) acts.
Proof.
  destruct (forward_msg_safe topo_dht [1; 1]%Z peer_config_default (forward_world true) message_dht 5) as (o & Ho & Hacts).
  - apply topo_dht_wf.
  - vm_compute. discriminate.
  - apply address_dht; lia.
  - apply message_dht_ok.
  - vm_compute in Ho. injection Ho as <-. eexists. split; [vm_compute; reflexivity|]. split; [reflexivity|]. apply (Hacts _ eq_refl).
Defined.

(** C7: a request reaches the participant closest to its key.  In a network whose
    nodes all know it ([ready]: accurate participation maps retrieved at every level
    for an optional service, or a service that every node serves, exact routes, and
    gateways that accept messages) and whose address space fits [u128], the search
    of [contact_peer] from any node, nothing being excluded, elects the node itself
    exactly when it is the participant at the least distance from the key; otherwise
    the message it sends is handed on by [forward_msg] from node to node, whichever
    node of the elected g-node receives it, fewer times than there are levels: a node
    that is not the closest participant hands it on towards the closest one and tells
    the originator, and the closest participant fetches the request, names itself as
    respondant, and answers it when it can. *)
Theorem request_reaches_closest {Svc} `{PeerService Svc, Crypto} (t : Topology) (target : list Z) (p : Z)
    (nodes P : list (list Z)) (st : list Z → State (Svc := Svc)) (env : list Z → NodeEnv) (cfg : PeerConfig)
    (my : list Z) (msg_id : Z) (auth : option Auth) :
  topology_wf t → (capacity (gsizes t) ≤ U128_MAX + 1)%Z → address t target → (∀ y, y ∈ P → y ∈ nodes) → P ≠ [] →
  0 < pc_max_relay_attempts cfg → (∀ n, n ∈ nodes → ready t p P st env n) → my ∈ nodes →
  ∃ x, x ∈ P ∧ (∀ y, y ∈ P → y ≠ x → (distance t (topology_levels t) target x < distance t (topology_levels t) target y)%Z) ∧
    ∃ np s h, (non_participant_gnodes (st my) p (topology_levels t) : res PeerError _) = Ok np ∧
      start_search t my None [] (Some np) = Ok s ∧
      (approximate t my (Some (mkTupleNode t target)) (sr_exclude_gnode_list s) (ne_exists (env my)) : res ContactPeerError _) = Ok (Some h) ∧
      ((hc_level h = 0 ∧ my !! 0 = Some (hc_pos h)) ↔ my = x) ∧
      (my ≠ x → ∃ mf0, make_forwarder t my p (Some (mkTupleNode t target)) s h msg_id auth = Ok mf0 ∧
        ∀ y i n mf fuel, y ∈ nodes → represents my h y →
          nsteps (routed t nodes st env cfg) i (y, mf0) (n, mf) →
          i < topology_levels t ∧
          ((n = x ∧ ∃ r rest, (forward_msg t n cfg (world_of (st n) (env n) mf) mf (S fuel) : res PeerError _) =
                Ok (Some (FetchRequest msg_id r :: rest)) ∧ tn_pos r = take (tn_top (mf_n mf)) x ∧
              ∀ rq v, ne_request (env n) = Some rq → ne_verify (env n) rq = None → ne_exec (env n) rq = Some (inl v) →
                rest = [SendResponse msg_id v r]) ∨
           (n ≠ x ∧ ∃ m h' g, (forward_msg t n cfg (world_of (st n) (env n) mf) mf (S fuel) : res PeerError _) =
                Ok (Some [SendForward m h' true; SendNextDestination msg_id g]) ∧
              represents n h' x ∧ routed t nodes st env cfg (n, mf) (x, m)))).
Proof.
  intros Ht Hcap Htg HPN Hne Hcfg Hready Hmy.
  pose proof (ready_address t p nodes P st env Hready) as Haddr.
  assert (∀ y, y ∈ P → agree_above y my (topology_levels t)) as Hall.
  { intros y Hy i Hi. destruct (Haddr my Hmy) as [Hm _], (Haddr y (HPN y Hy)) as [Hl _]. by rewrite !lookup_ge_None_2 by lia. }
  destruct (closest_exists t target Htg P (participant_address t p nodes P HPN st env Hready) my (topology_levels t)) as [x Hx]; [done| |].
  { destruct P as [|y P']; [done|]. exists y. split; [by left|]. apply Hall. by left. }
  exists x. split; [apply Hx|]. split; [intros y Py; apply Hx; [done|by apply Hall]|].
  destruct (origin_sends t Ht Hcap target Htg p nodes P HPN st env cfg Hcfg Hready my x msg_id auth Hmy Hx)
    as (np & s & h & Hnp & Hs & Happ & Hor). exists np, s, h. split_and!; [done..| |].
  - destruct Hor as [(-> & ? & ?)|(Hd & _ & Hq & _)]; [done|]. split; [|done]. intros [Hz Hm]. by rewrite Hz in Hq.
  - intros Hd. destruct Hor as [[? _]|(_ & Hlt & _ & mf0 & Hmf & Hl & Hc)]; [done|]. exists mf0. split; [done|].
    intros y i n mf fuel Hy Hry Hn.
    destruct (routed_carried t Ht Hcap target Htg p nodes P HPN st env cfg Hcfg Hready msg_id x i y mf0 n mf (Hc y Hy Hry) Hn) as [Hcn Hle].
    split; [lia|]. destruct (decide (n = x)) as [->|Hnx]; [left|right]; split; try done.
    + destruct (hop_serves t Ht Hcap target Htg p nodes P HPN st env cfg Hcfg Hready msg_id x mf fuel Hcn) as (r & rest & ? & ? & _ & ?).
      by exists r, rest.
    + destruct (hop_forwards t Ht Hcap target Htg p nodes P HPN st env cfg Hcfg Hready msg_id x n mf fuel Hcn Hnx) as (m & h' & g & Hf & _ & Hr & _).
      exists m, h', g. split_and!; [done..|]. econstructor; [exact Hf|by left|by apply HPN, Hx|done].
Qed.

(** The network of the example: the participants and two more nodes. *)
Definition nodes_dht : list (list Z) := [0; 0]%Z :: [0; 1]%Z :: participants_dht.
Definition env_dht (n : list Z) : NodeEnv :=
  mkNodeEnv (map_of participants_dht n) true (λ _ _, Accepted) (Some (mkTypedValue "q" [])) (λ _, None)
    (λ _, Some (inl (mkTypedValue "v" []))).

Lemma nodes_dht_address n : n ∈ nodes_dht → address topo_dht n.
Proof.
  unfold nodes_dht. rewrite !elem_of_cons. intros [->|[->|Hn]]; [apply address_dht; lia..|by apply participants_dht_ok].
Qed.

Lemma nodes_dht_ready n : n ∈ nodes_dht → ready (H0 := toy_crypto) topo_dht 5 participants_dht st_of env_dht n.
Proof.
  intros Hn%nodes_dht_address. constructor; try done; [by apply st_of_inv|left].
  split; [unfold service_optional; cbn; by destruct (contains n participants_dht)|].
  split; [by apply st_of_accurate|]. split; [done|]. intros h y Py [Hy Hag]. unfold env_dht, map_of. cbn [ne_exists]. apply any_true.
  exists y. split; [done|]. apply andb_true_iff. rewrite !bool_decide_eq_true. split; [done|]. by apply agree_above_drop.
Qed.

Lemma request_reaches_closest_witness :
  ∃ x mf0, x ∈ participants_dht ∧
    ∀ i n mf, nsteps (routed (H0 := toy_crypto) topo_dht nodes_dht st_of env_dht peer_config_default) i ([0; 1]%Z, mf0) (n, mf) → i < 2.
Proof.
  destruct (request_reaches_closest (H0 := toy_crypto) topo_dht target_dht 5 nodes_dht participants_dht st_of env_dht peer_config_default [0; 0]%Z 7 None)
    as (x & Hx & _ & np & s & h & Hnp & Hs & Happ & _ & Hd).
  - apply topo_dht_wf.
  - vm_compute. discriminate.
  - apply address_dht; lia.
  - intros y Hy. by do 2 right.
  - discriminate.
  - vm_compute. lia.
  - apply nodes_dht_ready.
  - by left.
  - destruct Hd as (mf0 & _ & Hr). { intros <-. unfold participants_dht in Hx. rewrite !elem_of_cons, elem_of_nil in Hx. naive_solver. }
    exists x, mf0. split; [exact Hx|]. intros i n mf Hn.
    apply (Hr [0; 1]%Z i n mf 0 ltac:(right; by left)); [|exact Hn].
    vm_compute in Hnp. injection Hnp as <-. vm_compute in Hs. injection Hs as <-. vm_compute in Happ. injection Happ as <-.
    split; [reflexivity|]. intros [|[|j]] Hj; cbn in Hj; (lia || reflexivity).
Defined.

(** ** Behaviour outside the premises *)

Lemma try_forward_never rounds i n : (∀ j, rounds j ≠ Accepted) → try_forward rounds i n = false.
Proof.
  intros Hr. revert i. induction n as [|n IH]; intros i; [done|]. cbn. specialize (Hr i). destruct (rounds i); [done|done|done|apply IH].
Qed.

(** A hop whose elected g-node cannot be reached never gives up.  If the
    election keeps naming the same g-node and no gateway ever accepts the
    message, the loop of [forward_msg] is still running after any number of
    iterations: the bound on relay attempts limits one iteration, not the
    loop. *)
Theorem forward_never_gives_up (t : Topology) (my : list Z) (cfg : PeerConfig) (w : ForwardWorld) (mf : PeerMessageForwarder)
    (x : HCoord) (np excl : list HCoord) (ex : HCoord → bool) :
  topology_wf t → (capacity (gsizes t) ≤ U128_MAX + 1)%Z → address t my → forwarder_ok t mf →
  my !! mf_lvl mf = Some (mf_pos mf) → fw_optional w = Some false → fw_non_participants w = Some np →
  (forward_exclusions t my mf np : res PeerError _) = Ok excl →
  (∀ i, fw_exists w i = ex) → (approximate t my (mf_x_macron mf) excl ex : res PeerError _) = Ok (Some x) →
  my !! hc_level x ≠ Some (hc_pos x) → (∀ i m j, fw_rounds w i m j ≠ Accepted) →
  ∀ fuel, (forward_msg t my cfg w mf fuel : res PeerError _) = Ok None.
Proof.
  intros Ht Hcap Hmy Hmf Hat Hopt Hnp Hexcl Hex Happ Hne Hr fuel. unfold forward_msg. rewrite Hat. cbn [expect mbind res_bind].
  rewrite Z.eqb_refl, Hopt, Hnp. cbn [negb andb]. rewrite Hexcl. cbn [mbind res_bind]. generalize 0.
  destruct (my_first t Ht my Hmy) as (m0 & Hm0 & _). pose proof Hmf as (_ & _ & _ & Hxw & _).
  destruct (approximate_elects t Ht Hcap my Hmy (E := PeerError) (mf_x_macron mf) excl ex Hxw) as (o & Ho & Hs).
  rewrite Happ in Ho. injection Ho as <-. destruct Hs as (Hreal & _ & Hor).
  assert (hc_level x < target_levels (mf_x_macron mf)) as Hlt by (destruct Hor as [[? _]|[Hz ?]]; [done|rewrite Hz in Hne; done]).
  destruct (next_forwarder_Ok t my Hmy mf Hmf (E := PeerError) x Hreal Hlt) as (m & Hnext & _).
  induction fuel as [|fuel IH]; intros i; [done|]. cbn [forward_loop]. rewrite Hex, Happ. cbn [mbind res_bind]. rewrite Hm0. cbn [expect mbind res_bind].
  destruct (Nat.eqb_spec (hc_level x) 0) as [Hz|Hnz], (Z.eqb_spec (hc_pos x) m0) as [Hp|Hp]; cbn [andb].
  { exfalso. apply Hne. rewrite Hz, Hm0. congruence. }
  all: rewrite Hnext; cbn [mbind res_bind]; rewrite try_forward_never by (intros; apply Hr); rewrite IH; done.
Qed.

Definition forward_world_dead : ForwardWorld :=
  mkForwardWorld (Some false) 2 (Some true) (Some []) true (λ _ h, bool_decide (h = mkHCoord 0 3)) (λ _ _ _, NoGateway)
    (Some (mkTypedValue "q" [])) (λ _, None) (λ _, None).

Lemma forward_never_gives_up_witness :
  (forward_msg topo_dht [1; 1]%Z peer_config_default forward_world_dead message_dht 1000 : res PeerError _) = Ok None.
Proof.
  apply (forward_never_gives_up topo_dht [1; 1]%Z peer_config_default forward_world_dead message_dht (mkHCoord 0 3) [] []
    (λ h, bool_decide (h = mkHCoord 0 3))).
  - apply topo_dht_wf.
  - vm_compute. discriminate.
  - apply address_dht; lia.
  - apply message_dht_ok.
  - reflexivity.
  - reflexivity.
  - reflexivity.
  - vm_compute. reflexivity.
  - reflexivity.
  - vm_compute. reflexivity.
  - vm_compute. discriminate.
  - intros. discriminate.
Defined.

(** The replicas need not be distinct.  When the node that replicates is
    itself the closest participant, its own tuple is not among the exclusions of
    the next search, so every one of the [q] replicas it collects is itself. *)
Theorem replicate_repeats_self (q : nat) (v : TypedValue) :
  replicate_request topo_dht [1; 1]%Z peer_config_default 5 (node_dht 2 1) (λ _, Some (world_self v)) q =
  Ok (replicate q (v, node_dht 1 1)).
Proof.
  set (me := mkTupleGNode topo_dht 2 [1; 1]%Z).
  assert (∀ i, foldM (exclude_visible (E := ContactPeerError) [1; 1]%Z) [] (replicate i me) = Ok []) as Hseeds.
  { induction i as [|i IH]; [done|]. cbn [replicate foldM].
    replace (exclude_visible [1; 1]%Z [] me) with (Ok [] : res ContactPeerError (list HCoord)) by (vm_compute; reflexivity). exact IH. }
  assert (∀ i, contact_peer topo_dht [1; 1]%Z peer_config_default 5 (Some (node_dht 2 1)) None (replicate i me) (world_self v) =
    Ok (v, node_dht 1 1)) as Hcontact.
  { intros i. unfold contact_peer, start_search. cbn [world_self cw_non_participants ok_or mbind res_bind app]. rewrite Hseeds.
    vm_compute. reflexivity. }
  unfold replicate_request.
  assert (∀ q i j acc, replicate_loop topo_dht [1; 1]%Z peer_config_default 5 (node_dht 2 1) (λ _, Some (world_self v)) j q (replicate i me) acc =
    Ok (acc ++ replicate q (v, node_dht 1 1))) as Hgen; [|by apply (Hgen q 0 0 [])].
  clear q. induction q as [|q IH]; intros i j acc; cbn [replicate_loop]; [by rewrite app_nil_r|].
  rewrite Hcontact. replace (tuple_node_to_tuple_gnode (node_dht 1 1)) with (Ok me : res ContactPeerError _) by (vm_compute; reflexivity).
  cbn [mbind res_bind]. change [me] with (replicate 1 me). rewrite <-replicate_add, IH. by rewrite <-app_assoc.
Qed.

(** The respondant reported need not be the node that answered.  The actor
    remembers the latest node that fetched the request while the waiting search
    keeps the first, so an answer accepted from the second is returned under the
    first one's name. *)
Theorem respondant_can_differ (v : TypedValue) :
  let n1 := mkTupleNode topo_peer [2; 1]%Z in
  let n2 := mkTupleNode topo_peer [3; 1]%Z in
  let g := mkTupleGNode topo_peer 2 [1]%Z in
  let st := handle_all (H0 := toy_crypto) (H1 := map_order) (λ n, n) 10 (state_new topo_peer [0; 0]%Z peer_config_default 2)
    [(0, RegisterWaiting 9 g None); (1, GetRequest 9 n1); (2, GetRequest 9 n2); (3, SetResponse 9 v n2)]%Z in
  ∃ wa, st_waiting st !! 9%Z = Some wa ∧ wa_respondant_node wa = Some n2 ∧
    event_loop topo_peer [0; 0]%Z peer_config_default (Some (mkTupleNode topo_peer [2; 1]%Z)) (mkSearch [] [] [] []) g None (wa_sent wa) =
      Ok (Answer v n1).
Proof. eexists. split; [vm_compute; reflexivity|]. split; vm_compute; reflexivity. Qed.
