(* ===== verification/PeerWire.v ===== *)
(** * Peer services: the wire, the dispatcher and the gossip

    Models [wire.rs] (the conversions to and from protobuf messages and what a
    stub sends), [handler.rs] (the dispatch of the twelve remote methods),
    [gossip.rs] and the origin check [verify_origin] of [actor.rs], all of
    [crates/ntk-peerservices].

    The byte encoding of a message is the class [ProstMessage]; the error a
    caller receives is its domain, without the text. *)
From stdpp Require Import strings.
From S2P Require Import Prelude Addressing Fingerprint Domain PeerTuple Auth.
From S2P Require Import PeerState PeerRouting.

(** ** Messages (peerservices.proto) *)
Record WirePeerTupleNode := mkWireTN { wtn_pos : list Z }.
Record WirePeerTupleGNode := mkWireTG { wtg_pos : list Z; wtg_top : Z }.
Record WirePeerMessageForwarder := mkWireMF {
  wmf_inside_level : Z;
  wmf_n : option WirePeerTupleNode;
  wmf_x_macron : option WirePeerTupleNode;
  wmf_lvl : Z;
  wmf_pos : Z;
  wmf_p_id : Z;
  wmf_msg_id : Z;
  wmf_exclude_tuple_list : list WirePeerTupleGNode;
  wmf_non_participant_tuple_list : list WirePeerTupleGNode;
  wmf_auth : option Auth
}.
Record WirePeerParticipantMap := mkWirePM { wpm_participant_list : list WireHCoord }.
Record WirePeerParticipantSet := mkWirePS {
  wps_retrieved_below_level : Z;
  wps_my_pos : list Z;
  wps_participant_set : gmap Z WirePeerParticipantMap
}.

(** [usize as u32] *)
Definition as_u32 (n : nat) : Z := (Z.of_nat n mod 2 ^ 32)%Z.

(** ** Conversions (wire.rs) *)
Definition tuple_node_to_wire (x : TupleNode) : WirePeerTupleNode := mkWireTN (tn_pos x).
Definition tuple_node_from_wire (t : Topology) (w : WirePeerTupleNode) : res PeerError TupleNode := tuple_node_new t (wtn_pos w).
Definition tuple_gnode_to_wire (g : TupleGNode) : WirePeerTupleGNode := mkWireTG (gn_pos g) (as_u32 (gn_top g)).
Definition tuple_gnode_from_wire (t : Topology) (w : WirePeerTupleGNode) : res PeerError TupleGNode :=
  tuple_gnode_new t (Z.to_nat (wtg_top w)) (wtg_pos w).

Definition forwarder_to_wire (mf : PeerMessageForwarder) : WirePeerMessageForwarder :=
  mkWireMF (as_u32 (mf_inside_level mf)) (Some (tuple_node_to_wire (mf_n mf))) (option_map tuple_node_to_wire (mf_x_macron mf))
    (as_u32 (mf_lvl mf)) (mf_pos mf) (mf_p_id mf) (mf_msg_id mf) (tuple_gnode_to_wire <$> mf_exclude_tuple_list mf)
    (tuple_gnode_to_wire <$> mf_non_participant_tuple_list mf) (mf_auth mf).

Definition forwarder_from_wire (t : Topology) (w : WirePeerMessageForwarder) : res PeerError PeerMessageForwarder :=
  wn ← ok_or (wmf_n w) (PeerMissingField "n");
  n ← tuple_node_from_wire t wn;
  x_macron ← match wmf_x_macron w with Some xm => x ← tuple_node_from_wire t xm; Ok (Some x) | None => Ok None end;
  exclude_tuple_list ← mapM (tuple_gnode_from_wire t) (wmf_exclude_tuple_list w);
  non_participant_tuple_list ← mapM (tuple_gnode_from_wire t) (wmf_non_participant_tuple_list w);
  let lvl := Z.to_nat (wmf_lvl w) in
  gsize ← ok_or (topology_gsize t lvl) (PeerLevelOutOfRange lvl (topology_levels t));
  if tn_top n <=? lvl then Err (PeerLevelOutOfRange lvl (tn_top n))
  else if (gsize <=? wmf_pos w)%Z then Err (TuplePositionOutOfRange lvl (wmf_pos w) gsize)
  else
    p_id ← service_id_try_from (wmf_p_id w);
    Ok (mkForwarder (Z.to_nat (wmf_inside_level w)) n x_macron lvl (wmf_pos w) p_id (wmf_msg_id w)
      exclude_tuple_list non_participant_tuple_list (wmf_auth w)).

Definition participant_map_to_wire (m : ParticipantMap) : WirePeerParticipantMap := mkWirePM (hcoord_to_wire <$> participants m).
Definition participant_map_from_wire (w : WirePeerParticipantMap) : res PeerError ParticipantMap :=
  l ← mapM (λ h, map_err PeerDomain (hcoord_from_wire h)) (wpm_participant_list w);
  Ok (list_to_set l).
Definition participant_set_to_wire (s : ParticipantSet) : WirePeerParticipantSet :=
  mkWirePS (as_u32 (ps_retrieved_below_level s)) (ps_my_pos s) (participant_map_to_wire <$> ps_participant_set s).
Definition participant_set_from_wire `{HashOrder} (t : Topology) (w : WirePeerParticipantSet) : res PeerError ParticipantSet :=
  m ← foldM (λ (acc : gmap Z ParticipantMap) km,
      p_id ← service_id_try_from km.1; pm ← participant_map_from_wire km.2; Ok (<[p_id := pm]> acc)) ∅
    (hm_iter (wps_participant_set w));
  let set := mkParticipantSet (Z.to_nat (wps_retrieved_below_level w)) (wps_my_pos w) m in
  if negb (participant_set_is_valid t set) then Err InvalidParticipantSet else Ok set.

(** ** Packing *)
Definition TAG_TUPLE_NODE : string := "peerservices.PeerTupleNode".
Definition TAG_TUPLE_GNODE : string := "peerservices.PeerTupleGNode".
Definition TAG_FORWARDER : string := "peerservices.PeerMessageForwarder".
Definition TAG_PARTICIPANT_SET : string := "peerservices.PeerParticipantSet".

Section Packing.
Context `{ProstMessage WirePeerTupleNode, ProstMessage WirePeerTupleGNode}.
Context `{ProstMessage WirePeerMessageForwarder, ProstMessage WirePeerParticipantSet} `{HashOrder}.

Definition pack_tuple_node (x : TupleNode) : TypedValue := typed_value TAG_TUPLE_NODE (tuple_node_to_wire x).
Definition unpack_tuple_node (t : Topology) (tv : TypedValue) : res PeerError TupleNode :=
  w ← map_err PeerDomain (from_typed_value tv TAG_TUPLE_NODE);
  tuple_node_from_wire t w.
Definition pack_tuple_gnode (g : TupleGNode) : TypedValue := typed_value TAG_TUPLE_GNODE (tuple_gnode_to_wire g).
Definition unpack_tuple_gnode (t : Topology) (tv : TypedValue) : res PeerError TupleGNode :=
  w ← map_err PeerDomain (from_typed_value tv TAG_TUPLE_GNODE);
  tuple_gnode_from_wire t w.
Definition pack_forwarder (mf : PeerMessageForwarder) : TypedValue := typed_value TAG_FORWARDER (forwarder_to_wire mf).
Definition unpack_forwarder (t : Topology) (tv : TypedValue) : res PeerError PeerMessageForwarder :=
  w ← map_err PeerDomain (from_typed_value tv TAG_FORWARDER);
  forwarder_from_wire t w.
Definition pack_participant_set (s : ParticipantSet) : TypedValue := typed_value TAG_PARTICIPANT_SET (participant_set_to_wire s).
Definition unpack_participant_set (t : Topology) (tv : TypedValue) : res PeerError ParticipantSet :=
  w ← map_err PeerDomain (from_typed_value tv TAG_PARTICIPANT_SET);
  participant_set_from_wire t w.

(** ** Remote methods *)

(** The arms of [MethodCall] that concern peer services; every other arm. *)
Inductive PeersCall :=
  | PeersForwardPeerMessage (tv : TypedValue)
  | PeersGetRequest (msg_id : Z) (respondant : option TypedValue)
  | PeersSetResponse (msg_id : Z) (response : option TypedValue) (respondant : option TypedValue)
  | PeersSetRefuseMessage (msg_id : Z) (refuse_message : string) (e_lvl : Z) (respondant : option TypedValue)
  | PeersSetRedoFromStart (msg_id : Z) (respondant : option TypedValue)
  | PeersSetNextDestination (msg_id : Z) (tuple : option TypedValue)
  | PeersSetFailure (msg_id : Z) (tuple : option TypedValue)
  | PeersSetNonParticipant (msg_id : Z) (tuple : option TypedValue)
  | PeersSetMissingOptionalMaps (msg_id : Z)
  | PeersSetParticipant (p_id : Z) (tuple : option TypedValue)
  | PeersGiveParticipantMaps (tv : TypedValue)
  | PeersAskParticipantMaps
  | OtherCall.

Inductive ErrorDomain := EDeserialize | EUnspecified | EPeersUnknownMessage | EPeersInvalidRequest.

(** What a stub puts on the wire ([PeersStub for RpcPeersStub]). *)
Definition stub_forward_peer_message (mf : PeerMessageForwarder) : PeersCall := PeersForwardPeerMessage (pack_forwarder mf).
Definition stub_get_request (msg_id : Z) (r : TupleNode) : PeersCall := PeersGetRequest msg_id (Some (pack_tuple_node r)).
Definition stub_set_response (msg_id : Z) (v : TypedValue) (r : TupleNode) : PeersCall :=
  PeersSetResponse msg_id (Some v) (Some (pack_tuple_node r)).
(** [refusal.level as i32] *)
Definition stub_set_refuse_message (msg_id : Z) (rf : Refusal) (r : TupleNode) : PeersCall :=
  PeersSetRefuseMessage msg_id (rf_message rf) ((Z.of_nat (rf_level rf) + 2 ^ 31) mod 2 ^ 32 - 2 ^ 31)%Z (Some (pack_tuple_node r)).
Definition stub_set_redo_from_start (msg_id : Z) (r : TupleNode) : PeersCall := PeersSetRedoFromStart msg_id (Some (pack_tuple_node r)).
Definition stub_set_next_destination (msg_id : Z) (g : TupleGNode) : PeersCall := PeersSetNextDestination msg_id (Some (pack_tuple_gnode g)).
Definition stub_set_failure (msg_id : Z) (g : TupleGNode) : PeersCall := PeersSetFailure msg_id (Some (pack_tuple_gnode g)).
Definition stub_set_non_participant (msg_id : Z) (g : TupleGNode) : PeersCall := PeersSetNonParticipant msg_id (Some (pack_tuple_gnode g)).
Definition stub_set_missing_optional_maps (msg_id : Z) : PeersCall := PeersSetMissingOptionalMaps msg_id.
Definition stub_set_participant (p_id : Z) (g : TupleGNode) : PeersCall := PeersSetParticipant p_id (Some (pack_tuple_gnode g)).
Definition stub_give_participant_maps (s : ParticipantSet) : PeersCall := PeersGiveParticipantMaps (pack_participant_set s).
Definition stub_ask_participant_maps : PeersCall := PeersAskParticipantMaps.

(** ** The dispatcher (handler.rs) *)

(** The work a call starts: a command to the actor, or a task. *)
Inductive Work {Svc : Type} `{Crypto} :=
  | ActorCmd (c : Cmd (Svc := Svc))
  | SpawnForward (mf : PeerMessageForwarder)
  | SpawnSetParticipant (p_id : Z) (tuple : TupleGNode)
  | SpawnGiveParticipantMaps (maps : ParticipantSet)
  | Shed.

Definition require_tuple_node (t : Topology) (tv : option TypedValue) : res ErrorDomain TupleNode :=
  v ← ok_or tv EDeserialize;
  map_err (λ _, EDeserialize) (unpack_tuple_node t v).
Definition require_tuple_gnode (t : Topology) (tv : option TypedValue) : res ErrorDomain TupleGNode :=
  v ← ok_or tv EDeserialize;
  map_err (λ _, EDeserialize) (unpack_tuple_gnode t v).

(** [usize::try_from(i32)] *)
Definition i32_level (v : Z) : res ErrorDomain nat := if (v <? 0)%Z then Err EDeserialize else Ok (Z.to_nat v).

(** [PeersRpcHandler::handle]; [room] tells whether a task can still be spawned. *)
Definition dispatch {Svc} `{Crypto} (t : Topology) (room : bool) (call : option PeersCall) : res ErrorDomain (Work (Svc := Svc)) :=
  arm ← ok_or call EDeserialize;
  match arm with
  | PeersForwardPeerMessage tv =>
      mf ← map_err (λ _, EDeserialize) (unpack_forwarder t tv);
      if room then Ok (SpawnForward mf) else Err EUnspecified
  | PeersGetRequest msg_id r => r' ← require_tuple_node t r; Ok (ActorCmd (GetRequest msg_id r'))
  | PeersSetResponse msg_id v r =>
      v' ← ok_or v EDeserialize;
      r' ← require_tuple_node t r;
      Ok (ActorCmd (SetResponse msg_id v' r'))
  | PeersSetRefuseMessage msg_id message e_lvl r =>
      r' ← require_tuple_node t r;
      level ← i32_level e_lvl;
      if tn_top r' <=? level then Err EDeserialize
      else Ok (ActorCmd (SetRefuseMessage msg_id (mkRefusal level message) r'))
  | PeersSetRedoFromStart msg_id r => r' ← require_tuple_node t r; Ok (ActorCmd (SetRedoFromStart msg_id r'))
  | PeersSetNextDestination msg_id g => g' ← require_tuple_gnode t g; Ok (ActorCmd (SetNextDestination msg_id g'))
  | PeersSetFailure msg_id g => g' ← require_tuple_gnode t g; Ok (ActorCmd (SetFailure msg_id g'))
  | PeersSetNonParticipant msg_id g => g' ← require_tuple_gnode t g; Ok (ActorCmd (SetNonParticipant msg_id g'))
  | PeersSetMissingOptionalMaps msg_id => Ok (ActorCmd (SetMissingOptionalMaps msg_id))
  | PeersSetParticipant p_id g =>
      g' ← require_tuple_gnode t g;
      id ← map_err (λ _, EDeserialize) (service_id_try_from p_id);
      Ok (if room then SpawnSetParticipant id g' else Shed)
  | PeersGiveParticipantMaps tv =>
      maps ← map_err (λ _, EDeserialize) (unpack_participant_set t tv);
      Ok (if room then SpawnGiveParticipantMaps maps else Shed)
  | PeersAskParticipantMaps => Ok (ActorCmd AskParticipantMaps)
  | OtherCall => Err EDeserialize
  end.
End Packing.

(** ** Gossip (gossip.rs)

    Each function returns what it floods to every neighbour. *)
Section Gossip.
Context {Svc : Type} `{PeerService Svc} `{Crypto} `{HashOrder}.

(** This node, as a g-node of level 0 in the whole network. *)
Definition my_gnode {E} (st : State (Svc := Svc)) : res E TupleGNode :=
  my0 ← expect (st_my_pos st !! 0);
  make_tuple_gnode (st_topology st) (st_my_pos st) (mkHCoord 0 my0) (topology_levels (st_topology st)).

Definition register {E} (st : State (Svc := Svc)) (s : Svc) : State (Svc := Svc) * res E (option (Z * TupleGNode)) :=
  let st' := upd_services st (<[service_id s := s]> (st_services st))
    (if is_optional s then {[service_id s]} ∪ st_my_services st else st_my_services st) in
  (st', if is_optional s then g ← my_gnode st'; Ok (Some (service_id s, g)) else Ok None).

Definition reannounce_participation {E} (st : State (Svc := Svc)) : res E (list (Z * TupleGNode)) :=
  let services := sort_by Z.leb (elements (st_my_services st)) in
  match services with
  | [] => Ok []
  | _ => g ← my_gnode st; Ok ((λ p_id, (p_id, g)) <$> services)
  end.

Definition handle_set_participant {E} (st : State (Svc := Svc)) (now p_id : Z) (tuple : TupleGNode)
    : State (Svc := Svc) * res E (option (Z * TupleGNode)) :=
  match (convert_tuple_gnode (st_my_pos st) tuple : res E _) with
  | Ok (Mine, _) => (st, Ok None)
  | Ok (_, at_) =>
      let r := apply_participant st now p_id at_ in
      (r.1, match r.2 with
            | RFact (Some at') =>
                g ← make_tuple_gnode (st_topology st) (st_my_pos st) at' (topology_levels (st_topology st)); Ok (Some (p_id, g))
            | _ => Ok None
            end)
  | Err e => (st, Err e)
  | Panic => (st, Panic)
  end.

Definition handle_give_participant_maps {E} (st : State (Svc := Svc)) (maps : ParticipantSet)
    : State (Svc := Svc) * res E (option ParticipantSet) :=
  let r := apply_participant_set st maps in
  (r.1, x ← r.2; Ok (match x with RForward o => o | _ => None end)).

(** ** Origin checks (actor.rs) *)
Definition verify_origin (st : State (Svc := Svc)) (auth : option Auth) (client_tuple : list Z) (p_id : Z) (request : TypedValue)
    : State (Svc := Svc) * res OriginAuthError unit :=
  let demanded := pc_require_auth (st_config st) ||
    match st_services st !! p_id with Some s => requires_origin_auth s request | None => false end in
  if negb demanded then (st, Ok tt)
  else
    match auth with
    | None => (st, Err OriginMissing)
    | Some a =>
        match verify a ORIGIN_AUTH_METHOD (origin_signing_payload client_tuple p_id request) with
        | Ok signer =>
            let r := observe (st_origin_replay st) signer (au_sequence a) in
            (upd_replay st r.1, map_err OriginAuth r.2)
        | Err e => (st, Err (OriginAuth e))
        | Panic => (st, Panic)
        end
    end.

(** [allocate_sequence]: the next value of the shared counter, at wall-clock
    time [now_micros]. *)
Definition allocate_sequence (prev now_micros : Z) : Z := Z.max (u64_saturating_add prev 1) now_micros.

Definition sign_origin (key : option SigningKey) (sequence : Z) (client_tuple : list Z) (p_id : Z) (request : TypedValue) : option Auth :=
  option_map (λ k, sign k sequence ORIGIN_AUTH_METHOD (origin_signing_payload client_tuple p_id request)) key.
End Gossip.
