(* ===== verification/PeerWireProps.v ===== *)
(** * Peer services: what the wire guarantees

    The conversions round-trip; whatever bytes a peer sends, the commands they
    become satisfy the premises of the actor's invariant; gossip floods each fact
    once per suppression window; and an accepted origin is signed and fresh. *)
From stdpp Require Import strings.
From S2P Require Import Prelude Addressing Fingerprint Domain PeerTuple Auth.
From S2P Require Import PeerState PeerDht PeerStateProps PeerRouting PeerRoutingProps PeerWire.

(** ** Tuples *)
Lemma as_u32_id n : (Z.of_nat n < 2 ^ 32)%Z → as_u32 n = Z.of_nat n.
Proof. intros. unfold as_u32. apply Z.mod_small. lia. Qed.

Lemma tuple_node_roundtrip t x : tn_wf t x → tuple_node_from_wire t (tuple_node_to_wire x) = Ok x.
Proof. intros (Ht & Hl & Hr). destruct x as [tx px]. cbn in *. subst tx. by apply tuple_node_new_wf. Qed.

Lemma tuple_gnode_roundtrip t g :
  (Z.of_nat (topology_levels t) < 2 ^ 32)%Z → gn_wf t g → tuple_gnode_from_wire t (tuple_gnode_to_wire g) = Ok g.
Proof.
  intros Hlv (Ht & Hne & Hl & Htop & Hr). unfold tuple_gnode_from_wire, tuple_gnode_to_wire. cbn [wtg_top wtg_pos].
  rewrite as_u32_id by lia. rewrite Nat2Z.id. destruct g as [tg top pos]. cbn in *. subst tg. by apply tuple_gnode_new_wf.
Qed.

Lemma tuple_gnodes_roundtrip t l :
  (Z.of_nat (topology_levels t) < 2 ^ 32)%Z → Forall (gn_wf t) l → mapM (tuple_gnode_from_wire t) (tuple_gnode_to_wire <$> l) = Ok l.
Proof.
  intros Hlv. induction 1 as [|g l Hg Hl IH]; [done|]. cbn [fmap list_fmap mapM]. rewrite tuple_gnode_roundtrip by done.
  cbn [mbind res_bind]. rewrite IH. done.
Qed.

Lemma forwarder_roundtrip t mf :
  (Z.of_nat (topology_levels t) < 2 ^ 32)%Z → (Z.of_nat (mf_inside_level mf) < 2 ^ 32)%Z → (0 ≤ mf_p_id mf < 2 ^ 16)%Z →
  forwarder_ok t mf → forwarder_from_wire t (forwarder_to_wire mf) = Ok mf.
Proof.
  intros Hlv Hin Hp (Hn & Hlt & (g & Hg & Hr) & Hx & _ & H1 & H2). pose proof Hn as (_ & Hnl & _).
  unfold forwarder_from_wire, forwarder_to_wire. cbn [wmf_n wmf_x_macron wmf_exclude_tuple_list wmf_non_participant_tuple_list wmf_lvl
    wmf_pos wmf_p_id wmf_inside_level wmf_msg_id wmf_auth ok_or mbind res_bind].
  rewrite tuple_node_roundtrip by done. cbn [mbind res_bind].
  assert (match option_map tuple_node_to_wire (mf_x_macron mf) with Some xm => x ← tuple_node_from_wire t xm; Ok (Some x) | None => Ok None end =
    (Ok (mf_x_macron mf) : res PeerError _)) as ->.
  { destruct (mf_x_macron mf) as [x|]; [|done]. cbn [option_map]. by rewrite tuple_node_roundtrip. }
  cbn [mbind res_bind]. rewrite !tuple_gnodes_roundtrip by done. cbn [mbind res_bind]. rewrite !as_u32_id, !Nat2Z.id by lia.
  cbn [hc_level hc_pos] in Hg, Hr. rewrite Hg. cbn [ok_or mbind res_bind].
  rewrite (proj2 (Nat.leb_gt _ _) Hlt), (proj2 (Z.leb_gt _ _)) by lia. unfold service_id_try_from.
  rewrite (proj2 (Z.leb_le 0 _)), (proj2 (Z.ltb_lt _ _)) by lia. cbn. by destruct mf.
Qed.

(** ** Untrusted input *)

(** The integer types of the generated messages. *)
Definition wire_gnode_typed (w : WirePeerTupleGNode) : Prop := Forall is_u32 (wtg_pos w) ∧ is_u32 (wtg_top w).
Definition wire_forwarder_typed (w : WirePeerMessageForwarder) : Prop :=
  (∀ n, wmf_n w = Some n → Forall is_u32 (wtn_pos n)) ∧ (∀ x, wmf_x_macron w = Some x → Forall is_u32 (wtn_pos x)) ∧
  is_u32 (wmf_lvl w) ∧ is_u32 (wmf_pos w) ∧
  Forall wire_gnode_typed (wmf_exclude_tuple_list w) ∧ Forall wire_gnode_typed (wmf_non_participant_tuple_list w).

Lemma tuple_node_new_typed t pos x : Forall is_u32 pos → tuple_node_new t pos = Ok x → tn_wf t x ∧ tn_pos x = pos.
Proof.
  intros Hu. unfold tuple_node_new. destruct (Nat.ltb_spec (topology_levels t) (length pos)) as [|Hl]; [done|].
  intros ([] & Hc & Hx)%bind_Ok. injection Hx as <-. split; [|done]. split; [done|]. split; [done|]. cbn. intros i p Hp.
  destruct (proj1 (check_tuple_Ok t 0 pos Hl) Hc i p Hp) as (g & Hg & Hlt). exists g. split; [done|].
  rewrite Forall_lookup in Hu. destruct (Hu i p Hp). lia.
Qed.

Lemma tuple_gnode_new_typed t top pos g : Forall is_u32 pos → tuple_gnode_new t top pos = Ok g → gn_wf t g ∧ gn_top g = top.
Proof.
  intros Hu. unfold tuple_gnode_new. destruct pos as [|p0 pos0] eqn:Hpos; [done|]. rewrite <-Hpos in *.
  destruct (Nat.ltb_spec (topology_levels t) top) as [|Hl]; [done|]. destruct (Nat.ltb_spec top (length pos)) as [|Hlen]; [done|].
  intros ([] & Hc & Hx)%bind_Ok. injection Hx as <-. split; [|done]. unfold gn_wf, gn_level. cbn.
  split; [done|]. split; [by rewrite Hpos|]. split; [done|]. split; [done|]. intros i p Hp.
  destruct (proj1 (check_tuple_Ok t (top - length pos) pos ltac:(lia)) Hc i p Hp) as (gs & Hg & Hlt). exists gs. split; [done|].
  rewrite Forall_lookup in Hu. destruct (Hu i p Hp). lia.
Qed.

(** What the decoder of a forwarded message guarantees: the honest form, but for
    the scope of the target. *)
Definition forwarder_decoded (t : Topology) (mf : PeerMessageForwarder) : Prop :=
  tn_wf t (mf_n mf) ∧ mf_lvl mf < tn_top (mf_n mf) ∧ coord_real t (mkHCoord (mf_lvl mf) (mf_pos mf)) ∧
  target_wf t (mf_x_macron mf) ∧ Forall (gn_wf t) (mf_exclude_tuple_list mf) ∧ Forall (gn_wf t) (mf_non_participant_tuple_list mf) ∧
  (0 ≤ mf_p_id mf < 2 ^ 16)%Z.

Lemma gnodes_from_wire_typed t l l' :
  Forall wire_gnode_typed l → mapM (tuple_gnode_from_wire t) l = Ok l' → Forall (gn_wf t) l'.
Proof.
  intros Hl Hm. apply mapM_Forall2 in Hm. revert Hl. induction Hm as [|w g l l' Hw Hm IH]; intros Hl; [constructor|].
  apply Forall_cons in Hl as [[Hu _] Hl]. constructor; [by eapply tuple_gnode_new_typed|by apply IH].
Qed.

Lemma forwarder_from_wire_decoded t w mf : wire_forwarder_typed w → forwarder_from_wire t w = Ok mf → forwarder_decoded t mf.
Proof.
  intros (Hn & Hx & Hl & Hp & H1 & H2) Hd. unfold forwarder_from_wire in Hd. res_inv.
  match goal with Ha : wmf_n w = Some ?wn, Hb : tuple_node_from_wire t ?wn = Ok ?n |- _ =>
    destruct (tuple_node_new_typed t _ _ (Hn _ Ha) Hb) as [Hnw _]; rename n into nn end.
  destruct (tn_top nn <=? Z.to_nat (wmf_lvl w)) eqn:Hle; [done|]. destruct (_ <=? wmf_pos w)%Z eqn:Hpos; [done|]. res_inv.
  apply Nat.leb_gt in Hle. apply Z.leb_gt in Hpos. unfold forwarder_decoded. cbn. split; [done|]. split; [done|].
  split; [eexists; cbn; split; [done|unfold is_u32 in Hp; lia]|]. split; [|split; [eapply gnodes_from_wire_typed; [exact H1|eassumption]|]; split; [eapply gnodes_from_wire_typed; [exact H2|eassumption]|]].
  - destruct (wmf_x_macron w) as [xw|]; cbn in *; res_inv; [|done]. by eapply tuple_node_new_typed; [apply Hx|].
  - match goal with Ha : service_id_try_from _ = Ok ?p |- context [?p] => unfold service_id_try_from in Ha;
      destruct ((0 <=? wmf_p_id w)%Z && (wmf_p_id w <? 2 ^ 16)%Z) eqn:Hb; [|done]; injection Ha as <- end.
    apply andb_true_iff in Hb as [?%Z.leb_le ?%Z.ltb_lt]. lia.
Qed.

Section Dispatch.
Context `{ProstMessage WirePeerTupleNode, ProstMessage WirePeerTupleGNode}.
Context `{ProstMessage WirePeerMessageForwarder, ProstMessage WirePeerParticipantSet} `{HashOrder, Crypto} {Svc : Type}.

(** The messages a payload decodes to have fields of their declared types, as
    every message [prost] decodes does. *)
Definition payload_typed (tv : TypedValue) : Prop :=
  (∀ w : WirePeerTupleNode, prost_decode (tv_payload tv) = Ok w → Forall is_u32 (wtn_pos w)) ∧
  (∀ w : WirePeerTupleGNode, prost_decode (tv_payload tv) = Ok w → wire_gnode_typed w) ∧
  (∀ w : WirePeerMessageForwarder, prost_decode (tv_payload tv) = Ok w → wire_forwarder_typed w).

(** The payloads of a call. *)
Definition call_payloads (call : option PeersCall) : list TypedValue :=
  match call with
  | Some (PeersForwardPeerMessage tv) | Some (PeersGiveParticipantMaps tv) => [tv]
  | Some (PeersGetRequest _ r) | Some (PeersSetResponse _ _ r) | Some (PeersSetRefuseMessage _ _ _ r) | Some (PeersSetRedoFromStart _ r) => option_list r
  | Some (PeersSetNextDestination _ g) | Some (PeersSetFailure _ g) | Some (PeersSetNonParticipant _ g) | Some (PeersSetParticipant _ g) => option_list g
  | _ => []
  end.

Lemma from_typed_value_decode {M} `{ProstMessage M} tv tag (m : M) : from_typed_value tv tag = Ok m → prost_decode (tv_payload tv) = Ok m.
Proof. unfold from_typed_value. case_bool_decide; [|done]. by intros Hm%map_err_Ok. Qed.

Lemma require_tuple_node_wf t tv x : Forall payload_typed (option_list tv) → require_tuple_node t tv = Ok x → tn_wf t x.
Proof.
  unfold require_tuple_node, unpack_tuple_node. intros Ht Hx. res_inv. subst tv. apply (proj1 (Forall_singleton _ _)) in Ht as (Hn & _).
  eapply tuple_node_new_typed; [|eassumption]. eapply Hn, from_typed_value_decode. eassumption.
Qed.

Lemma require_tuple_gnode_wf t tv g : Forall payload_typed (option_list tv) → require_tuple_gnode t tv = Ok g → gn_wf t g.
Proof.
  unfold require_tuple_gnode, unpack_tuple_gnode. intros Ht Hx. res_inv. subst tv. apply (proj1 (Forall_singleton _ _)) in Ht as (_ & Hg & _).
  eapply tuple_gnode_new_typed; [|eassumption]. eapply Hg, from_typed_value_decode. eassumption.
Qed.

Lemma participant_set_from_wire_valid t w s : participant_set_from_wire t w = Ok s → participant_set_is_valid t s = true.
Proof. unfold participant_set_from_wire. intros Hx. res_inv. by case_in Hx; res_inv; apply negb_false_iff. Qed.

(** What may reach the actor and the tasks. *)
Definition work_ok (t : Topology) (w : Work (Svc := Svc)) : Prop :=
  match w with
  | ActorCmd c => cmd_ok t c
  | SpawnForward mf => forwarder_decoded t mf
  | SpawnSetParticipant p g => gn_wf t g ∧ (0 ≤ p < 2 ^ 16)%Z
  | SpawnGiveParticipantMaps s => participant_set_is_valid t s = true
  | Shed => True
  end.

Lemma dispatch_ok t room call w : Forall payload_typed (call_payloads call) → dispatch t room call = Ok w → work_ok t w.
Proof.
  intros Ht Hd. unfold dispatch in Hd. apply bind_Ok in Hd as (arm & Harm & Hd). apply ok_or_Ok in Harm as ->. cbn [call_payloads] in Ht.
  destruct arm as [tv|id r|id v r|id m l r|id r|id g|id g|id g|id|p g|tv| |]; res_inv; cbn; try done;
    try (by eapply require_tuple_node_wf); try (by eapply require_tuple_gnode_wf).
  - unfold unpack_forwarder in *. res_inv. destruct room; [|done]. injection Hd as <-. apply (proj1 (Forall_singleton _ _)) in Ht as (_ & _ & Hf).
    eapply forwarder_from_wire_decoded; [|eassumption]. eapply Hf, from_typed_value_decode. eassumption.
  - destruct (_ <=? _); [done|]. injection Hd as <-. by eapply require_tuple_node_wf.
  - destruct room; [|done]. split; [by eapply require_tuple_gnode_wf|].
    match goal with Ha : service_id_try_from _ = Ok _ |- _ => unfold service_id_try_from in Ha;
      destruct ((0 <=? p)%Z && (p <? 2 ^ 16)%Z) eqn:Hb; [|done]; injection Ha as <- end.
    apply andb_true_iff in Hb as [?%Z.leb_le ?%Z.ltb_lt]. lia.
  - destruct room; [|done]. unfold unpack_participant_set in *. res_inv. by eapply participant_set_from_wire_valid.
Qed.

(** A stub's call, dispatched by the peer of the same topology. *)
Lemma unpack_node_pack t x : tn_wf t x → require_tuple_node t (Some (pack_tuple_node x)) = Ok x.
Proof.
  intros Hx. unfold require_tuple_node, unpack_tuple_node, pack_tuple_node. cbn [ok_or mbind res_bind].
  rewrite from_typed_value_typed_value. cbn [map_err mbind res_bind]. by rewrite tuple_node_roundtrip.
Qed.

Lemma unpack_gnode_pack t g :
  (Z.of_nat (topology_levels t) < 2 ^ 32)%Z → gn_wf t g → require_tuple_gnode t (Some (pack_tuple_gnode g)) = Ok g.
Proof.
  intros Hl Hg. unfold require_tuple_gnode, unpack_tuple_gnode, pack_tuple_gnode. cbn [ok_or mbind res_bind].
  rewrite from_typed_value_typed_value. cbn [map_err mbind res_bind]. by rewrite tuple_gnode_roundtrip.
Qed.
End Dispatch.

(** ** Calls at the actor *)
Section Serve.
Context `{ProstMessage WirePeerTupleNode, ProstMessage WirePeerTupleGNode}.
Context `{ProstMessage WirePeerMessageForwarder, ProstMessage WirePeerParticipantSet} `{HashOrder, Crypto} {Svc : Type} `{PeerService Svc}.

Lemma handle_set_participant_inv (st : State (Svc := Svc)) now p g :
  state_inv st → gn_wf (st_topology st) g →
  let r := handle_set_participant (E := PeerError) st now p g in
  state_inv r.1 ∧ grows (st_participant_set st) (st_participant_set r.1) ∧ same_frame st r.1 ∧
  ∃ o, r.2 = Ok o ∧ ∀ q g', o = Some (q, g') → q = p ∧ gn_wf (st_topology st) g' ∧ gn_top g' = topology_levels (st_topology st).
Proof.
  intros Hinv Hg. cbv zeta. pose proof (si_address _ Hinv) as Ha. unfold handle_set_participant.
  destruct (convert_tuple_gnode_spec _ _ Ha (E := PeerError) g Hg) as (rel & h & -> & Hreal & _).
  assert (in_range (st_topology st) h) as Hr by (destruct Hreal as (gs & ? & ?); exists gs; split; [done|lia]).
  destruct (apply_participant_inv st now p h Hr Hinv) as (Hi & Hgr & Hf). pose proof (coord_real_level _ _ Hreal) as Hl.
  destruct (make_tuple_gnode_Ok _ _ Ha (E := PeerError) h (topology_levels (st_topology st)) Hreal Hl ltac:(done)) as (g' & Hg' & Hgw & Hgt & _).
  destruct rel.
  1:{ cbn. split; [done|]. split; [done|]. split; [done|]. eexists. split; [done|]. by intros. }
  all: cbn [fst snd]; split; [done|]; split; [done|]; split; [done|]; unfold apply_participant;
    destruct (match _ with Some _ => _ | None => _ end); cbn [snd]; [eexists; split; [done|by intros]|];
    rewrite Hg'; cbn; eexists; (split; [done|]); intros q g'' [= <- <-]; done.
Qed.

(** A call of a peer, carried out on the actor's state: the command it becomes,
    or the gossip task it starts. *)
Definition serve_call (hash_one : Z → Z) (fuel : nat) (st : State (Svc := Svc)) (now : Z) (room : bool) (call : option PeersCall)
    : State (Svc := Svc) :=
  match dispatch (Svc := Svc) (st_topology st) room call with
  | Ok (ActorCmd c) => (handle hash_one fuel st now c).1
  | Ok (SpawnSetParticipant p g) => (handle_set_participant (E := PeerError) st now p g).1
  | Ok (SpawnGiveParticipantMaps maps) => (handle_give_participant_maps (E := PeerError) st maps).1
  | _ => st
  end.
End Serve.

(** ** Properties *)

(** C13: no call of a peer can corrupt the actor.  Whatever bytes arrive, once
    dispatched and carried out the state keeps its invariant — maps within their
    caps, no coordinate outside the topology, searches with their events in
    order — and no participation fact is lost. *)
Theorem peer_calls_keep_invariant `{ProstMessage WirePeerTupleNode, ProstMessage WirePeerTupleGNode}
    `{ProstMessage WirePeerMessageForwarder, ProstMessage WirePeerParticipantSet} `{HashOrder, Crypto} {Svc : Type} `{PeerService Svc}
    (hash_one : Z → Z) (fuel : nat) (st : State (Svc := Svc)) (now : Z) (room : bool) (call : option PeersCall) :
  Forall payload_typed (call_payloads call) → state_inv st → guard_wf (st_origin_replay st) → (sg_clock (st_origin_replay st) < U64_MAX)%Z →
  state_inv (serve_call hash_one fuel st now room call) ∧
  grows (st_participant_set st) (st_participant_set (serve_call hash_one fuel st now room call)).
Proof.
  intros Ht Hinv Hg Hc. unfold serve_call. destruct (dispatch (st_topology st) room call) as [w|e|] eqn:Hd; [|done..].
  pose proof (dispatch_ok _ _ _ _ Ht Hd) as Hw. destruct w as [c|mf|p g|s|]; cbn in Hw; [| done | | |done].
  - destruct (handle_ok_step hash_one fuel st now c Hinv Hw Hg Hc) as (? & ? & _). done.
  - destruct (handle_set_participant_inv st now p g Hinv (proj1 Hw)) as (? & ? & _). done.
  - destruct (apply_participant_set_inv st s Hw Hinv) as (? & ? & _). done.
Qed.

(** A concrete encoding, for the examples: a tag, then the number of the message. *)
#[refine] Definition toy_prost (tag : Z) {M} `{Countable M} : ProstMessage M := {|
  encode_to_vec m := [tag; Zpos (encode m)];
  prost_decode l := match l with [t'; Zpos p] => if (t' =? tag)%Z then match decode p with Some m => Ok m | None => Err "number" end else Err "tag" | _ => Err "length" end
|}.
Proof. intros m. cbn. by rewrite Z.eqb_refl, decode_encode. Defined.

#[local] Instance WireHCoord_eq_dec : EqDecision WireHCoord.
Proof. solve_decision. Defined.
#[local] Instance WireHCoord_countable : Countable WireHCoord.
Proof. by apply (inj_countable' (λ w, (wh_level w, wh_pos w)) (λ p, mkWireHCoord p.1 p.2)); intros []. Defined.
#[local] Instance Auth_countable : Countable Auth.
Proof. by apply (inj_countable' (λ w, (au_signer_key w, au_sequence w, au_signature w)) (λ p, mkAuth p.1.1 p.1.2 p.2)); intros []. Defined.
#[local] Instance WireTN_eq_dec : EqDecision WirePeerTupleNode.
Proof. solve_decision. Defined.
#[local] Instance WireTN_countable : Countable WirePeerTupleNode.
Proof. by apply (inj_countable' wtn_pos mkWireTN); intros []. Defined.
#[local] Instance WireTG_eq_dec : EqDecision WirePeerTupleGNode.
Proof. solve_decision. Defined.
#[local] Instance WireTG_countable : Countable WirePeerTupleGNode.
Proof. by apply (inj_countable' (λ w, (wtg_pos w, wtg_top w)) (λ p, mkWireTG p.1 p.2)); intros []. Defined.
#[local] Instance WireMF_eq_dec : EqDecision WirePeerMessageForwarder.
Proof. solve_decision. Defined.
#[local] Instance WireMF_countable : Countable WirePeerMessageForwarder.
Proof.
  by apply (inj_countable' (λ w, (wmf_inside_level w, wmf_n w, wmf_x_macron w, wmf_lvl w, wmf_pos w,
      (wmf_p_id w, wmf_msg_id w, wmf_exclude_tuple_list w, wmf_non_participant_tuple_list w, wmf_auth w)))
    (λ '(a, b, c, d, e, (f, g, h, i, j)), mkWireMF a b c d e f g h i j)); intros [].
Defined.
#[local] Instance WirePM_eq_dec : EqDecision WirePeerParticipantMap.
Proof. solve_decision. Defined.
#[local] Instance WirePM_countable : Countable WirePeerParticipantMap.
Proof. by apply (inj_countable' wpm_participant_list mkWirePM); intros []. Defined.
#[local] Instance WirePS_eq_dec : EqDecision WirePeerParticipantSet.
Proof. solve_decision. Defined.
#[local] Instance WirePS_countable : Countable WirePeerParticipantSet.
Proof.
  by apply (inj_countable' (λ w, (wps_retrieved_below_level w, wps_my_pos w, wps_participant_set w)) (λ p, mkWirePS p.1.1 p.1.2 p.2)); intros [].
Defined.

(** A peer tells that node [2; 1] takes part in service 5. *)
Definition call_example : PeersCall :=
  PeersSetParticipant 5 (Some (pack_tuple_gnode (H0 := toy_prost 2) (mkTupleGNode topo_peer 2 [2; 1]%Z))).

Lemma peer_calls_keep_invariant_witness :
  let st' := serve_call (H := toy_prost 1) (H0 := toy_prost 2) (H1 := toy_prost 3) (H2 := toy_prost 4) (H3 := map_order) (H4 := toy_crypto)
    (λ n, n) 10 (state_new topo_peer [1; 1]%Z peer_config_default 2) 0 true (Some call_example) in
  bool_decide (st_participant_set st' = {[5%Z := {[mkHCoord 0 2]}]}) = true ∧ state_inv st'.
Proof.
  cbv zeta. split; [vm_compute; reflexivity|].
  apply (peer_calls_keep_invariant (H := toy_prost 1) (H0 := toy_prost 2) (H1 := toy_prost 3) (H2 := toy_prost 4) (H3 := map_order)
    (H4 := toy_crypto) (λ n, n) 10 (state_new topo_peer [1; 1]%Z peer_config_default 2) 0 true (Some call_example)).
  - constructor; [|constructor]. split; [|split]; intros w Hw; [discriminate Hw| |discriminate Hw].
    assert (w = mkWireTG [2; 1]%Z 2) as -> by (cbn in Hw; rewrite decode_encode in Hw; by injection Hw).
    unfold wire_gnode_typed, is_u32, U32_MAX. cbn. split; [|lia]. by repeat (apply Forall_cons_2; [lia|]).
  - apply state_new_inv; [apply topo_peer_wf|apply address_peer; lia|cbn; lia].
  - apply sequence_guard_wf.
  - vm_compute. reflexivity.
Defined.

(** A message between honest nodes survives the wire: encoding it and
    decoding it against the same topology gives it back, every field and tuple
    included. *)
Theorem forwarder_wire_roundtrip (t : Topology) (mf : PeerMessageForwarder) :
  (Z.of_nat (topology_levels t) < 2 ^ 32)%Z → (Z.of_nat (mf_inside_level mf) < 2 ^ 32)%Z → (0 ≤ mf_p_id mf < 2 ^ 16)%Z →
  forwarder_ok t mf → forwarder_from_wire t (forwarder_to_wire mf) = Ok mf.
Proof. apply forwarder_roundtrip. Qed.

Lemma forwarder_wire_roundtrip_witness : forwarder_from_wire topo_dht (forwarder_to_wire message_dht) = Ok message_dht.
Proof. apply (forwarder_wire_roundtrip topo_dht message_dht); [vm_compute; reflexivity|vm_compute; reflexivity|cbn; lia|apply message_dht_ok]. Defined.

(** A message the decoder accepts can still panic a hop.  The decoder
    bounds the level by the originator's scope but not the target by the level,
    so a crafted message whose target is wider than its originator's tuple makes
    [forward_msg] build a g-node above its scope. *)
Theorem decoded_forwarder_can_panic :
  ∃ w mf, forwarder_from_wire topo_dht w = Ok mf ∧ forwarder_decoded topo_dht mf ∧
    (forward_msg topo_dht [1; 1]%Z peer_config_default
      (mkForwardWorld (Some false) 2 (Some true) (Some []) true (λ _ h, bool_decide (h = mkHCoord 1 2)) (λ _ _ _, Accepted)
        None (λ _, None) (λ _, None)) mf 5 : res PeerError _) = Panic.
Proof.
  exists (mkWireMF 2 (Some (mkWireTN [0]%Z)) (Some (mkWireTN [2; 2]%Z)) 0 1 5 7 [] [] None).
  eexists. split; [vm_compute; reflexivity|]. split; [|vm_compute; reflexivity].
  unfold forwarder_decoded. cbn. split.
  { split; [done|]. split; [cbn; lia|]. intros [|i] p Hp; cbn in Hp; simplify_eq. exists 4%Z. split; [done|lia]. }
  split; [lia|]. split; [exists 4%Z; split; [done|cbn; lia]|]. split; [apply node_dht_wf; lia|]. split; [done|]. split; [done|lia].
Qed.

(** A request whose origin must be proved is executed only once, for what
    its originator signed.  If [verify_origin] accepts it where authentication
    is demanded, its signature verifies over exactly this address, service and
    request, and presenting the same proof again is refused as a replay. *)
Theorem origin_accepted_once `{HashOrder, Crypto} {Svc : Type} `{PeerService Svc} (st st' : State (Svc := Svc)) (auth : option Auth)
    (client_tuple : list Z) (p_id : Z) (request : TypedValue) :
  guard_wf (st_origin_replay st) → (sg_clock (st_origin_replay st) + 1 < U64_MAX)%Z →
  pc_require_auth (st_config st) = true →
  verify_origin st auth client_tuple p_id request = (st', Ok tt) →
  ∃ a signer, auth = Some a ∧ verify a ORIGIN_AUTH_METHOD (origin_signing_payload client_tuple p_id request) = Ok signer ∧
    (verify_origin st' auth client_tuple p_id request).2 = Err (OriginAuth (Replayed (au_sequence a) (au_sequence a))).
Proof.
  intros Hg Hc Hreq Hv. unfold verify_origin in *. rewrite Hreq in Hv. cbn [orb negb] in Hv. destruct auth as [a|]; [|done].
  destruct (verify a ORIGIN_AUTH_METHOD _) as [signer|e|] eqn:Hver; [|done..].
  destruct (observe (st_origin_replay st) signer (au_sequence a)) as [g r] eqn:Ho. cbn in Hv. injection Hv as <- Hr.
  exists a, signer. split; [done|]. split; [done|]. cbn [upd_replay st_config st_services st_origin_replay]. rewrite Hreq. cbn [orb negb].
  destruct (observe_wf _ _ _ _ _ Hg ltac:(lia) Ho) as (_ & _ & Hclk & _).
  assert (sg_seen g !! signer = Some (au_sequence a, sg_clock g)) as Hseen.
  { unfold observe in Ho. rewrite (proj2 (Z.leb_gt _ _)) in Ho by lia. destruct (sg_seen (st_origin_replay st) !! signer) as [[last ?]|].
    - destruct (_ <=? last)%Z; injection Ho as <- <-; [done|]. cbn. by rewrite lookup_insert_eq.
    - injection Ho as <- <-. cbn. by rewrite lookup_insert_eq. }
  unfold observe. rewrite (proj2 (Z.leb_gt _ _)), Hseen, Z.leb_refl by lia. done.
Qed.

(** A servant that demands authentication, and a signed request. *)
Definition st_auth : State (Svc := Z * bool) (H0 := toy_crypto) :=
  upd_replay (state_new (H0 := toy_crypto) topo_peer [1; 1]%Z
    (mkPeerConfig 500 200 2000 20000 100 1000 10 20 16 10 31 None 64 100 256 4 true) 2) (sequence_guard_with_capacity (H := toy_crypto) 4).
Definition auth_example : option Auth := sign_origin (H0 := toy_crypto) (Some 7%Z) 1 [2; 1]%Z 5 (mkTypedValue "q" []).

Lemma origin_accepted_once_witness :
  ∃ a signer, auth_example = Some a ∧
    verify (H := toy_crypto) a ORIGIN_AUTH_METHOD (origin_signing_payload [2; 1]%Z 5 (mkTypedValue "q" [])) = Ok signer ∧
    (verify_origin (H0 := toy_crypto) (H1 := map_order)
      (verify_origin (H0 := toy_crypto) (H1 := map_order) st_auth auth_example [2; 1]%Z 5 (mkTypedValue "q" [])).1
      auth_example [2; 1]%Z 5 (mkTypedValue "q" [])).2 = Err (OriginAuth (Replayed (au_sequence a) (au_sequence a))).
Proof.
  apply (origin_accepted_once (H := map_order) (H0 := toy_crypto) st_auth
    (verify_origin (H0 := toy_crypto) (H1 := map_order) st_auth auth_example [2; 1]%Z 5 (mkTypedValue "q" [])).1
    auth_example [2; 1]%Z 5 (mkTypedValue "q" [])).
  - apply (sequence_guard_wf (H := toy_crypto) 4).
  - vm_compute. reflexivity.
  - reflexivity.
  - vm_compute. reflexivity.
Defined.
