(* ===== verification/HookDomain.v ===== *)
(** * Hooking: tuples, network data, the merge heuristic, id generation

    Models [crates/ntk-hooking/src]: [domain.rs], [view.rs], [merge.rs],
    [idgen.rs] and the waits of [config.rs].

    A tuple lists positions from its innermost level to the root, so that a
    g-node contains another when its tuple is a suffix of the other's.  [QspnView]
    is the read-only interface a node's map gives to hooking: a record of its
    answers, read as one snapshot per operation. *)
From S2P Require Import Prelude Addressing.

(** ** The view (view.rs) *)
Record AdjacentGNode := mkAdjacent { ag_hc : HCoord; ag_border_real_pos : Z }.

Record QspnView := mkView {
  v_topology : Topology;
  v_network_id : Z;
  v_n_nodes : Z;
  v_my_pos : nat → Z;
  v_my_eldership : nat → Z;
  v_subnetlevel : nat;
  v_epsilon : nat → nat;
  v_eldership : nat → Z → Z;
  v_adjacent_to_my_gnode : nat → nat → list AdjacentGNode;
  v_is_bootstrapped : bool
}.

Definition v_levels (v : QspnView) : nat := topology_levels (v_topology v).

(** ** Tuples (domain.rs) *)

(** [TupleGNode] of the hooking crate. *)
Record HookTuple := mkTuple { ht_pos : list Z; ht_eldership : list Z }.

#[export] Instance HookTuple_eq_dec : EqDecision HookTuple.
Proof. solve_decision. Defined.

Definition tuple_default : HookTuple := mkTuple [] [].

(** [TupleGNode::level], with [saturating_sub]. *)
Definition tuple_level (t : HookTuple) (levels : nat) : nat := levels - length (ht_pos t).

(** [TupleGNode::contains]; the index is in range by the first test. *)
Definition tuple_contains (self outside : HookTuple) : bool :=
  if length (ht_pos self) <? length (ht_pos outside) then false
  else
    let d := length (ht_pos self) - length (ht_pos outside) in
    all (λ ip, bool_decide (ht_pos self !! (ip.1 + d) = Some ip.2)) (enumerate (ht_pos outside)).

Definition truncate_to_level (t : HookTuple) (target_level levels : nat) : option HookTuple :=
  if (levels <? target_level) || negb (length (ht_eldership t) =? length (ht_pos t)) then None
  else
    let posnum := levels - target_level in
    if length (ht_pos t) <? posnum then None
    else
      let todel := length (ht_pos t) - posnum in
      Some (mkTuple (drop todel (ht_pos t)) (drop todel (ht_eldership t))).

Definition positions_equal (a b : HookTuple) : bool := bool_decide (ht_pos a = ht_pos b).

Definition make_tuple_from_level (l : nat) (v : QspnView) : HookTuple :=
  let range := seq l (v_levels v - l) in
  mkTuple (v_my_pos v <$> range) (v_my_eldership v <$> range).

Definition make_tuple_from_hc (hc : HCoord) (v : QspnView) : HookTuple :=
  let range := seq (S (hc_level hc)) (v_levels v - S (hc_level hc)) in
  mkTuple (hc_pos hc :: (v_my_pos v <$> range))
    (v_eldership v (hc_level hc) (hc_pos hc) :: (v_my_eldership v <$> range)).

Definition i_am_inside (t : HookTuple) (v : QspnView) : bool := tuple_contains (make_tuple_from_level 0 v) t.

Definition tuple_has_virtual_pos (t : HookTuple) (v : QspnView) : bool :=
  if v_levels v <? length (ht_pos t) then true
  else
    let d := v_levels v - length (ht_pos t) in
    any (λ i, match ht_pos t !! (i - d) with
              | Some p => (default 0%Z (topology_gsize (v_topology v) i) <=? p)%Z
              | None => false
              end) (seq d (v_levels v - d)).

(** The loop of [tuple_to_hc], from level [i] and entry [j] down. *)
Fixpoint tuple_to_hc_loop (a : HookTuple) (v : QspnView) (i j : nat) : option HCoord :=
  match i, j with
  | S i', S j' =>
      match ht_pos a !! j' with
      | Some a_pos => if negb (v_my_pos v i' =? a_pos)%Z then Some (mkHCoord i' a_pos) else tuple_to_hc_loop a v i' j'
      | None => None
      end
  | _, _ => None
  end.

Definition tuple_to_hc (a : HookTuple) (v : QspnView) : option HCoord :=
  if (length (ht_pos a) =? 0) || (v_levels v <? length (ht_pos a)) then None
  else tuple_to_hc_loop a v (v_levels v) (length (ht_pos a)).

(** ** Messages *)
Record PathHop := mkPathHop { ph_visiting_gnode : HookTuple; ph_previous_migrating_gnode : option HookTuple }.
Record PairTupleGNodeInt := mkPair { pt_gnode : HookTuple; pt_border_real_pos : Z }.
Record NetworkData := mkNetworkData {
  nd_network_id : Z;
  nd_neighbor_n_nodes : Z;
  nd_neighbor_min_level : nat;
  nd_gsizes : list Z;
  nd_neighbor_pos : list Z
}.
Record EntryData := mkEntryData { ed_network_id : Z; ed_pos : list Z; ed_elderships : list Z }.
Record FinishEnterData := mkFinishEnter { fe_enter_id : Z; fe_entry_data : EntryData; fe_go_connectivity_position : Z }.
Record FinishMigrationData := mkFinishMigration {
  fm_migration_id : Z; fm_migration_data : EntryData; fm_go_connectivity_position : Z
}.
Record EvaluateEnterRequest := mkEvaluate {
  ee_network_id : Z;
  ee_neighbor_pos : list Z;
  ee_neighbor_min_lvl : nat;
  ee_min_lvl : nat;
  ee_evaluate_enter_id : Z
}.
Inductive MigOp := PrepareMigration | FinishMigration.
Record RequestPacket := mkRequestPacket {
  rp_pkt_id : Z;
  rp_dest : HookTuple;
  rp_src : HookTuple;
  rp_operation : MigOp;
  rp_migration_id : Z;
  rp_conn_gnode_pos : Z;
  rp_host_gnode : HookTuple;
  rp_real_new_pos : Z;
  rp_real_new_eldership : Z
}.
Record ResponsePacket := mkResponsePacket { rs_pkt_id : Z; rs_dest : HookTuple }.
Record SearchMigrationPathRequest := mkSearchRequest {
  sq_pkt_id : Z;
  sq_origin : HookTuple;
  sq_caller : HookTuple;
  sq_path_hops : list PathHop;
  sq_max_host_lvl : nat;
  sq_reserve_request_id : Z
}.
Record SearchMigrationPathErrorPkt := mkSearchError { sx_pkt_id : Z; sx_origin : HookTuple }.
Record SearchMigrationPathResponse := mkSearchResponse {
  sp_pkt_id : Z;
  sp_origin : HookTuple;
  sp_min_host_lvl : nat;
  sp_set_adjacent : list PairTupleGNodeInt;
  sp_final_host_lvl : nat;
  sp_real_new_pos : option Z;
  sp_real_new_eldership : option Z;
  sp_new_conn_vir_pos : option Z;
  sp_new_eldership : option Z
}.
Record ExploreGNodeRequest := mkExploreRequest {
  xq_pkt_id : Z; xq_origin : HookTuple; xq_path_hops : list PathHop; xq_requested_lvl : nat
}.
Record ExploreGNodeResponse := mkExploreResponse { xp_pkt_id : Z; xp_origin : HookTuple; xp_result : HookTuple }.
Record DeleteReservationRequest := mkDeleteReserve { dr_dest_gnode : HookTuple; dr_reserve_request_id : Z }.

(** ** The merge heuristic (merge.rs) *)
Inductive MergeDecision := Proceed | AskCoordinator | Wait.

#[export] Instance MergeDecision_eq_dec : EqDecision MergeDecision.
Proof. solve_decision. Defined.

Definition merge_direction (my_n_nodes neighbor_n_nodes : Z) : MergeDecision :=
  if (neighbor_n_nodes =? my_n_nodes)%Z then AskCoordinator
  else if (my_n_nodes <? neighbor_n_nodes)%Z then
    if (usize_saturating_mul my_n_nodes 10 <? neighbor_n_nodes)%Z then Proceed else AskCoordinator
  else if (usize_saturating_mul neighbor_n_nodes 10 <? my_n_nodes)%Z then Wait
  else AskCoordinator.

Definition merge_tiebreak (my_n_nodes neighbor_n_nodes my_network_id neighbor_network_id : Z) : bool :=
  if (my_n_nodes <? neighbor_n_nodes)%Z then true
  else (neighbor_n_nodes =? my_n_nodes)%Z && (my_network_id <? neighbor_network_id)%Z.

(** ** Id generation (idgen.rs) *)

(** [x << n] on [u64]. *)
Definition u64_shl (x n : Z) : Z := (Z.shiftl x n mod 2 ^ 64)%Z.

Definition xorshift_step (x : Z) : Z :=
  let x := Z.lxor x (u64_shl x 13) in
  let x := Z.lxor x (Z.shiftr x 7) in
  Z.lxor x (u64_shl x 17).

(** [next_i32] and its variants, on the value [next_u64] returned. *)
Definition next_i32 (r : Z) : Z := Z.shiftr r 33.
Definition next_i32_at_least (low r : Z) : Z := Z.max (next_i32 r) low.
Definition next_u32_at_least (low r : Z) : Z :=
  let span := (U32_MAX - low)%Z in
  (low + (Z.shiftr r 32) mod (Z.min (span + 1) U32_MAX))%Z.

(** ** Waits (config.rs), in nanoseconds *)
Definition millis (ms : Z) : Z := (ms * 1000000)%Z.

Definition default_global_timeout (size : Z) : Z :=
  millis (if (size <? 5)%Z then 1000 else if (size <? 15)%Z then 2000 else if (size <? 25)%Z then 3000
          else if (size <? 100)%Z then 5000 else 10000).

Record HookingConfig := mkHookingConfig {
  hk_not_bootstrapped_retry : Z;
  hk_merge_reject_wait : Z;
  hk_global_timeout : Z → Z;
  hk_ask_again_divisor : Z;
  hk_restart_multiplier : Z;
  hk_routing_response_timeout : Z
}.

Definition hooking_config_default : HookingConfig :=
  mkHookingConfig (millis 1000) (millis 600000) default_global_timeout 4 20 (millis 100000).

Definition ask_again_wait (c : HookingConfig) (n_nodes : Z) : Z := (hk_global_timeout c n_nodes / hk_ask_again_divisor c)%Z.
Definition restart_wait (c : HookingConfig) (n_nodes : Z) : Z := (hk_global_timeout c n_nodes * hk_restart_multiplier c)%Z.

(** ** The shared generator (idgen.rs)

    [next_u64] by any number of threads: each loads the state, then exchanges it
    for its successor until the exchange succeeds.  [compare_exchange_weak] may
    also fail when the state is the expected one. *)
Record Generator := mkGenerator { g_state : Z; g_loaded : gmap nat Z }.

Inductive gen_step : Generator → option Z → Generator → Prop :=
  | gen_load g i :
      g_loaded g !! i = None → gen_step g None (mkGenerator (g_state g) (<[i := g_state g]> (g_loaded g)))
  | gen_exchange g i x :
      g_loaded g !! i = Some x → x = g_state g →
      gen_step g (Some (xorshift_step x)) (mkGenerator (xorshift_step x) (delete i (g_loaded g)))
  | gen_retry g i x :
      g_loaded g !! i = Some x → gen_step g None (mkGenerator (g_state g) (<[i := g_state g]> (g_loaded g))).

(** A run, with the values it handed out. *)
Inductive gen_run : Generator → list Z → Generator → Prop :=
  | gen_run_nil g : gen_run g [] g
  | gen_run_step g o g' l g'' : gen_step g o g' → gen_run g' l g'' → gen_run g (option_list o ++ l) g''.

(** ** Lemmas on tuples *)
Lemma tuple_contains_suffix a b : tuple_contains a b = true ↔ ht_pos b `suffix_of` ht_pos a.
Proof.
  unfold tuple_contains. destruct (Nat.ltb_spec (length (ht_pos a)) (length (ht_pos b))) as [Hl|Hl].
  { split; [done|]. intros H%suffix_length. lia. }
  set (d := length (ht_pos a) - length (ht_pos b)). unfold all. rewrite forallb_forall. setoid_rewrite bool_decide_eq_true. split.
  - intros H. exists (take d (ht_pos a)). rewrite <-(take_drop d (ht_pos a)) at 1. f_equal. apply list_eq. intros i.
    rewrite lookup_drop. destruct (ht_pos b !! i) as [p|] eqn:Hp.
    + replace (d + i) with (i + d) by lia. by apply (H (i, p)), list_elem_of_In, elem_of_enumerate.
    + apply lookup_ge_None in Hp. apply lookup_ge_None. unfold d. lia.
  - intros [pre Hpre] [i p] Hin. cbn. apply list_elem_of_In, elem_of_enumerate in Hin.
    rewrite Hpre. assert (d = length pre) as -> by (unfold d; rewrite Hpre, length_app; lia).
    rewrite lookup_app_r by lia. by replace (i + length pre - length pre) with i by lia.
Qed.

(** This node's own positions, from level 0 to the root. *)
Definition my_positions (v : QspnView) : list Z := v_my_pos v <$> seq 0 (v_levels v).

Lemma i_am_inside_suffix t v : i_am_inside t v = true ↔ ht_pos t `suffix_of` my_positions v.
Proof. unfold i_am_inside. rewrite tuple_contains_suffix. cbn. by rewrite Nat.sub_0_r. Qed.

Lemma my_positions_lookup v i p : my_positions v !! i = Some p ↔ i < v_levels v ∧ p = v_my_pos v i.
Proof.
  unfold my_positions. rewrite list_lookup_fmap, fmap_Some. split.
  - intros (j & Hj%lookup_seq & ->). destruct Hj as [-> ?]. done.
  - intros [Hi ->]. exists i. split; [|done]. apply lookup_seq. done.
Qed.

Lemma length_my_positions v : length (my_positions v) = v_levels v.
Proof. unfold my_positions. by rewrite length_fmap, length_seq. Qed.

(** A tuple that fits the hierarchy is a suffix of the positions when it agrees
    with them entry by entry. *)
Lemma inside_pointwise t v :
  length (ht_pos t) ≤ v_levels v →
  i_am_inside t v = true ↔ ∀ j p, ht_pos t !! j = Some p → v_my_pos v (v_levels v - length (ht_pos t) + j) = p.
Proof.
  intros Hl. rewrite i_am_inside_suffix. set (d := v_levels v - length (ht_pos t)). split.
  - intros [pre Hpre] j p Hj. pose proof (lookup_lt_Some _ _ _ Hj).
    assert (length pre = d) as Hd by (pose proof (f_equal length Hpre) as E; rewrite length_my_positions, length_app in E; unfold d; lia).
    destruct (proj1 (my_positions_lookup v (d + j) p)) as [_ ?]; [|done]. rewrite Hpre, lookup_app_r by lia.
    by replace (d + j - length pre) with j by lia.
  - intros H. exists (take d (my_positions v)). rewrite <-(take_drop d (my_positions v)) at 1. f_equal. apply list_eq. intros j.
    rewrite lookup_drop. destruct (ht_pos t !! j) as [p|] eqn:Hj.
    + apply my_positions_lookup. split; [|symmetry; by apply H]. apply lookup_lt_Some in Hj. unfold d. lia.
    + apply lookup_ge_None in Hj. apply lookup_ge_None. rewrite length_my_positions. unfold d. lia.
Qed.

Lemma tuple_to_hc_loop_spec a v i j :
  j ≤ length (ht_pos a) → j ≤ i →
  match tuple_to_hc_loop a v i j with
  | Some h => ∃ k, k < j ∧ hc_level h = i - j + k ∧ ht_pos a !! k = Some (hc_pos h) ∧ v_my_pos v (i - j + k) ≠ hc_pos h ∧
      ∀ k' p, k < k' < j → ht_pos a !! k' = Some p → v_my_pos v (i - j + k') = p
  | None => ∀ k p, k < j → ht_pos a !! k = Some p → v_my_pos v (i - j + k) = p
  end.
Proof.
  revert j. induction i as [|i IH]; intros [|j] Hj Hji; cbn; try lia; [intros; lia..|].
  destruct (lookup_lt_is_Some_2 (ht_pos a) j) as [p Hp]; [lia|]. rewrite Hp.
  destruct (Z.eqb_spec (v_my_pos v i) p) as [He|Hne]; cbn.
  - specialize (IH j ltac:(lia) ltac:(lia)). destruct (tuple_to_hc_loop a v i j) as [h|].
    + destruct IH as (k & Hk & Hl & Hpos & Hd & Hab). exists k. split; [lia|]. split; [done|]. split; [done|]. split; [done|].
      intros k' q [H1 H2] Hq. destruct (decide (k' = j)) as [->|]; [|apply Hab; [lia|done]]. simplify_eq. by replace (i - j + j) with i by lia.
    + intros k q Hk Hq. destruct (decide (k = j)) as [->|]; [|apply IH; [lia|done]]. simplify_eq. by replace (i - j + j) with i by lia.
  - exists j. cbn. split; [lia|]. split; [lia|]. split; [done|]. split; [by replace (i - j + j) with i by lia|]. intros; lia.
Qed.

Lemma truncate_to_level_Some t target levels t' :
  truncate_to_level t target levels = Some t' ↔
  target ≤ levels ∧ length (ht_eldership t) = length (ht_pos t) ∧ levels - target ≤ length (ht_pos t) ∧
  t' = mkTuple (drop (length (ht_pos t) - (levels - target)) (ht_pos t)) (drop (length (ht_pos t) - (levels - target)) (ht_eldership t)).
Proof.
  unfold truncate_to_level. destruct (Nat.ltb_spec levels target); cbn; [split; [done|intros (? & _); lia]|].
  destruct (Nat.eqb_spec (length (ht_eldership t)) (length (ht_pos t))); cbn; [|split; [done|intros (_ & ? & _); lia]].
  destruct (Nat.ltb_spec (length (ht_pos t)) (levels - target)); [split; [done|intros (_ & _ & ? & _); lia]|].
  split; [intros [= <-]; done|intros (_ & _ & _ & ->); done].
Qed.

Lemma length_make_tuple l v : length (ht_pos (make_tuple_from_level l v)) = v_levels v - l ∧
  length (ht_eldership (make_tuple_from_level l v)) = v_levels v - l.
Proof. cbn. by rewrite !length_fmap, length_seq. Qed.

Lemma tuple_real_spec t v :
  tuple_has_virtual_pos t v = false ↔
  length (ht_pos t) ≤ v_levels v ∧
  ∀ j p, ht_pos t !! j = Some p → ∃ g, topology_gsize (v_topology v) (v_levels v - length (ht_pos t) + j) = Some g ∧ (p < g)%Z.
Proof.
  unfold tuple_has_virtual_pos. destruct (Nat.ltb_spec (v_levels v) (length (ht_pos t))) as [|Hl]; [split; [done|intros [? _]; lia]|].
  unfold any. rewrite <-not_true_iff_false, existsb_exists. set (d := v_levels v - length (ht_pos t)). split.
  - intros H. split; [done|]. intros j p Hj. pose proof (lookup_lt_Some _ _ _ Hj).
    destruct (lookup_lt_is_Some_2 (gsizes (v_topology v)) (d + j)) as [g Hg]; [unfold d, v_levels, topology_levels in *; lia|].
    exists g. split; [done|]. apply Z.nle_gt. intros Hle. apply H. exists (d + j). split.
    + apply in_seq. unfold d in *. lia.
    + replace (d + j - d) with j by lia. rewrite Hj. unfold topology_gsize. rewrite Hg. by apply Z.leb_le.
  - intros [_ H] (i & Hi%in_seq & Hx). destruct (ht_pos t !! (i - d)) as [p|] eqn:Hp; [|done].
    destruct (H _ _ Hp) as (g & Hg & Hlt). fold d in Hg. replace (d + (i - d)) with i in Hg by lia. rewrite Hg in Hx. apply Z.leb_le in Hx. cbn in Hx. lia.
Qed.

(** ** Lemmas on the generator *)
Lemma xorb_cancel_r a b c : xorb a c = xorb b c → a = b.
Proof. by destruct a, b, c. Qed.

Lemma u64_shl_testbit x n i : (0 ≤ n)%Z → (0 ≤ i)%Z →
  Z.testbit (u64_shl x n) i = bool_decide (i < 64)%Z && bool_decide (n ≤ i)%Z && Z.testbit x (i - n).
Proof.
  intros Hn Hi. unfold u64_shl. destruct (bool_decide_reflect (i < 64)%Z) as [Hlt|Hge]; cbn.
  - rewrite Z.mod_pow2_bits_low by lia. rewrite Z.shiftl_spec by done.
    destruct (bool_decide_reflect (n ≤ i)%Z); cbn; [done|]. apply Z.testbit_neg_r. lia.
  - apply Z.mod_pow2_bits_high. lia.
Qed.

Lemma testbit_u64_high x i : (0 ≤ x < 2 ^ 64)%Z → (64 ≤ i)%Z → Z.testbit x i = false.
Proof.
  intros Hx Hi. destruct (decide (x = 0)%Z) as [->|]; [apply Z.bits_0|].
  apply Z.bits_above_log2; [lia|]. apply Z.log2_lt_pow2; [lia|]. eapply Z.lt_le_trans; [apply Hx|]. apply Z.pow_le_mono_r; lia.
Qed.

Lemma u64_of_bits x : (0 ≤ x)%Z → (∀ i, (64 ≤ i)%Z → Z.testbit x i = false) → (x < 2 ^ 64)%Z.
Proof.
  intros Hx H. destruct (decide (x = 0)%Z) as [->|]; [done|]. apply Z.log2_lt_pow2; [lia|].
  apply Z.nle_gt. intros Hge. pose proof (Z.bit_log2 x ltac:(lia)) as Hb. by rewrite (H _ Hge) in Hb.
Qed.

Lemma u64_shl_range x n : (0 ≤ u64_shl x n < 2 ^ 64)%Z.
Proof. apply Z.mod_pos_bound. lia. Qed.

Lemma lxor_u64 x y : (0 ≤ x < 2 ^ 64)%Z → (0 ≤ y < 2 ^ 64)%Z → (0 ≤ Z.lxor x y < 2 ^ 64)%Z.
Proof.
  intros Hx Hy. assert (0 ≤ Z.lxor x y)%Z as Hp by (apply Z.lxor_nonneg; lia). split; [done|]. apply u64_of_bits; [done|].
  intros i Hi. rewrite Z.lxor_spec, !testbit_u64_high by done. done.
Qed.

(** A left or right xorshift of a word is injective: the bits of the word are
    recovered one after the other from the side nothing is shifted into. *)
Lemma xorshift_left_inj n x y :
  (0 < n)%Z → (0 ≤ x < 2 ^ 64)%Z → (0 ≤ y < 2 ^ 64)%Z → Z.lxor x (u64_shl x n) = Z.lxor y (u64_shl y n) → x = y.
Proof.
  intros Hn Hx Hy Heq. apply Z.bits_inj'. intros i Hi. revert i Hi.
  apply (Zlt_0_ind (λ i, Z.testbit x i = Z.testbit y i)). intros i IH Hi.
  pose proof (f_equal (λ z, Z.testbit z i) Heq) as Hb. cbn in Hb. rewrite !Z.lxor_spec, !u64_shl_testbit in Hb by lia.
  destruct (bool_decide_reflect (n ≤ i)%Z) as [Hle|]; [|rewrite !andb_false_r, !xorb_false_r in Hb; done].
  rewrite (IH (i - n)%Z) in Hb by lia. by apply xorb_cancel_r in Hb.
Qed.

Lemma xorshift_right_inj n x y :
  (0 < n)%Z → (0 ≤ x < 2 ^ 64)%Z → (0 ≤ y < 2 ^ 64)%Z → Z.lxor x (Z.shiftr x n) = Z.lxor y (Z.shiftr y n) → x = y.
Proof.
  intros Hn Hx Hy Heq. apply Z.bits_inj'. intros i Hi.
  assert (∀ k, (0 ≤ k)%Z → ∀ i, (64 - k ≤ i)%Z → (0 ≤ i)%Z → Z.testbit x i = Z.testbit y i) as H; [|apply (H 64%Z); lia].
  clear i Hi. apply (Zlt_0_ind (λ k, ∀ i, (64 - k ≤ i)%Z → (0 ≤ i)%Z → Z.testbit x i = Z.testbit y i)). intros k IH Hk i Hki Hi.
  destruct (decide (64 ≤ i)%Z); [by rewrite !testbit_u64_high|].
  pose proof (f_equal (λ z, Z.testbit z i) Heq) as Hb. cbn in Hb. rewrite !Z.lxor_spec, !Z.shiftr_spec in Hb by lia.
  rewrite (IH (k - 1)%Z ltac:(lia) (i + n)%Z) in Hb by lia. by apply xorb_cancel_r in Hb.
Qed.

Lemma xorshift_left_u64 n x : (0 ≤ x < 2 ^ 64)%Z → (0 ≤ Z.lxor x (u64_shl x n) < 2 ^ 64)%Z.
Proof. intros. apply lxor_u64; [done|apply u64_shl_range]. Qed.

Lemma xorshift_right_u64 n x : (0 ≤ n)%Z → (0 ≤ x < 2 ^ 64)%Z → (0 ≤ Z.lxor x (Z.shiftr x n) < 2 ^ 64)%Z.
Proof.
  intros Hn Hx. apply lxor_u64; [done|]. rewrite Z.shiftr_div_pow2 by done. split; [apply Z.div_pos; lia|].
  eapply Z.le_lt_trans; [|apply Hx]. apply Z.div_le_upper_bound; [lia|]. assert (0 < 2 ^ n)%Z by lia. nia.
Qed.

Lemma xorshift_step_u64 x : (0 ≤ x < 2 ^ 64)%Z → (0 ≤ xorshift_step x < 2 ^ 64)%Z.
Proof. intros. by apply xorshift_left_u64, xorshift_right_u64, xorshift_left_u64. Qed.

Lemma xorshift_step_inj x y :
  (0 ≤ x < 2 ^ 64)%Z → (0 ≤ y < 2 ^ 64)%Z → xorshift_step x = xorshift_step y → x = y.
Proof.
  intros Hx Hy Heq. unfold xorshift_step in Heq.
  apply xorshift_left_inj in Heq; [|lia|by apply xorshift_right_u64, xorshift_left_u64..].
  apply xorshift_right_inj in Heq; [|lia|by apply xorshift_left_u64..]. by apply xorshift_left_inj in Heq.
Qed.

Lemma xorshift_step_nonzero x : (0 < x < 2 ^ 64)%Z → (0 < xorshift_step x < 2 ^ 64)%Z.
Proof.
  intros Hx. pose proof (xorshift_step_u64 x ltac:(lia)) as Hr. enough (xorshift_step x ≠ 0)%Z by lia. intros H0.
  assert (x = 0)%Z by (apply (xorshift_step_inj x 0); [lia..|exact H0]). lia.
Qed.

Lemma gen_run_iter g l g' :
  gen_run g l g' →
  g_state g' = Nat.iter (length l) xorshift_step (g_state g) ∧
  ∀ k r, l !! k = Some r → r = Nat.iter (S k) xorshift_step (g_state g).
Proof.
  intros H. induction H as [g|g o g' l g'' Hs Hr IH]; [done|]. destruct IH as [IHs IHl].
  assert (g_state g' = Nat.iter (length (option_list o)) xorshift_step (g_state g) ∧
    ∀ r, o = Some r → r = xorshift_step (g_state g)) as [Hst Ho] by (inversion Hs; subst; cbn; split; congruence).
  destruct o as [r|]; cbn in *.
  - specialize (Ho r eq_refl). subst r. split.
    + by rewrite IHs, Hst, Nat.iter_swap.
    + intros [|k] r Hk; cbn in Hk; [by simplify_eq|]. rewrite (IHl k r Hk), Hst. exact (Nat.iter_swap (S k) _ xorshift_step (g_state g)).
  - rewrite <-Hst. done.
Qed.

Lemma iter_xorshift_u64 n x : (0 < x < 2 ^ 64)%Z → (0 < Nat.iter n xorshift_step x < 2 ^ 64)%Z.
Proof. intros Hx. induction n as [|n IH]; [done|]. cbn. by apply xorshift_step_nonzero. Qed.

Lemma iter_xorshift_inj n m x :
  (0 < x < 2 ^ 64)%Z → Nat.iter (n + m) xorshift_step x = Nat.iter n xorshift_step x → Nat.iter m xorshift_step x = x.
Proof.
  intros Hx. induction n as [|n IH]; [done|]. change (S n + m) with (S (n + m)). rewrite !Nat.iter_succ. intros Heq. apply IH.
  apply xorshift_step_inj in Heq; [done|..]; pose proof (iter_xorshift_u64 (n + m) x Hx); pose proof (iter_xorshift_u64 n x Hx); lia.
Qed.

(** The verdict of one side of a merge: the heuristic, and the tiebreak where it
    asks for one ([run_arc_handler] with the default [decide_merge]). *)
Definition merges (my_n neighbor_n my_id neighbor_id : Z) : bool :=
  match merge_direction my_n neighbor_n with
  | Proceed => true
  | Wait => false
  | AskCoordinator => merge_tiebreak my_n neighbor_n my_id neighbor_id
  end.

(** What [tuple_to_hc] found: the outermost entry that differs. *)
Lemma tuple_to_hc_Some t v h :
  tuple_to_hc t v = Some h →
  length (ht_pos t) ≤ v_levels v ∧ ∃ k, ht_pos t !! k = Some (hc_pos h) ∧ hc_level h = v_levels v - length (ht_pos t) + k ∧
    v_my_pos v (hc_level h) ≠ hc_pos h ∧
    ∀ k' p, k < k' → ht_pos t !! k' = Some p → v_my_pos v (v_levels v - length (ht_pos t) + k') = p.
Proof.
  unfold tuple_to_hc. destruct (Nat.eqb_spec (length (ht_pos t)) 0); [done|]. destruct (Nat.ltb_spec (v_levels v) (length (ht_pos t))); [done|].
  cbn. intros Hh. pose proof (tuple_to_hc_loop_spec t v (v_levels v) (length (ht_pos t)) ltac:(lia) ltac:(lia)) as Hs. rewrite Hh in Hs.
  destruct Hs as (k & Hk & Hl & Hp & Hne & Hab). split; [done|]. exists k. rewrite Hl. split; [done|]. split; [done|]. split; [done|].
  intros k' p Hk' Hp'. apply Hab; [|done]. apply lookup_lt_Some in Hp'. lia.
Qed.

Lemma tuple_to_hc_None t v :
  tuple_to_hc t v = None ↔ ht_pos t = [] ∨ v_levels v < length (ht_pos t) ∨ i_am_inside t v = true.
Proof.
  destruct (decide (ht_pos t = [])) as [He|Hne]; [unfold tuple_to_hc; rewrite He; cbn; naive_solver|].
  destruct (decide (v_levels v < length (ht_pos t))) as [Hlt|Hge].
  { unfold tuple_to_hc. rewrite (proj2 (Nat.ltb_lt _ _) Hlt), orb_true_r. naive_solver. }
  rewrite inside_pointwise by lia. destruct (tuple_to_hc t v) as [h|] eqn:Hh.
  - split; [done|]. intros [?|[?|Hin]]; [done|lia|]. apply tuple_to_hc_Some in Hh as (_ & k & Hk & Hl & Hd & _). rewrite Hl in Hd.
    destruct Hd. by apply Hin.
  - split; [|done]. intros _. right; right. unfold tuple_to_hc in Hh. destruct (Nat.eqb_spec (length (ht_pos t)) 0) as [H0|].
    { apply length_zero_iff_nil in H0. done. }
    rewrite (proj2 (Nat.ltb_ge _ _)) in Hh by lia. cbn in Hh.
    pose proof (tuple_to_hc_loop_spec t v (v_levels v) (length (ht_pos t)) ltac:(lia) ltac:(lia)) as Hs. rewrite Hh in Hs.
    intros j p Hj. apply Hs; [by apply lookup_lt_Some in Hj|done].
Qed.

Lemma drop_agreeing t v k p :
  length (ht_pos t) ≤ v_levels v → ht_pos t !! k = Some p →
  (∀ k' q, k < k' → ht_pos t !! k' = Some q → v_my_pos v (v_levels v - length (ht_pos t) + k') = q) →
  drop k (ht_pos t) = ht_pos (make_tuple_from_hc (mkHCoord (v_levels v - length (ht_pos t) + k) p) v).
Proof.
  intros Hl Hk Hab. cbn. rewrite (drop_S _ p) by done. f_equal. pose proof (lookup_lt_Some _ _ _ Hk). apply list_eq. intros i.
  rewrite lookup_drop, list_lookup_fmap. destruct (ht_pos t !! (S k + i)) as [q|] eqn:Hq.
  - pose proof (lookup_lt_Some _ _ _ Hq). rewrite (proj2 (lookup_seq _ _ _ (S (v_levels v - length (ht_pos t) + k) + i))) by lia. cbn.
    rewrite <-(Hab (S k + i) q) by (done || lia). do 2 f_equal. lia.
  - apply lookup_ge_None in Hq. rewrite (proj2 (lookup_ge_None (seq _ _) _)); [done|]. rewrite length_seq. lia.
Qed.

(** ** Properties *)

(** Two networks that meet and agree on their sizes never both give way and
    never both wait: whatever the sizes, exactly one of the two sides enters the
    other. *)
Theorem merge_exactly_one_side (n m id id' : Z) :
  is_u64 n → is_u64 m → id ≠ id' → merges n m id id' = negb (merges m n id' id).
Proof.
  unfold is_u64, merges, merge_direction, merge_tiebreak, usize_saturating_mul. intros Hn Hm Hid.
  destruct (Z.eqb_spec m n), (Z.eqb_spec n m); try lia.
  all: repeat match goal with |- context [(?a <? ?b)%Z] => destruct (Z.ltb_spec a b) end; cbn; first [done|lia].
Qed.

Lemma merge_exactly_one_side_witness : merges 5 7 1 2 = negb (merges 7 5 2 1) ∧ merges 5 5 1 2 = true ∧ merges 1 11 3 2 = true.
Proof. split; [apply (merge_exactly_one_side 5 7 1 2); unfold is_u64, U64_MAX; lia|done]. Defined.

(** Callers that race for an id never share one.  However the loads, the
    exchanges and the failed exchanges of any number of threads interleave, the
    values handed out are the successive states of the generator, all of them
    non-zero words, and two of them are equal only if the generator has gone
    through its whole cycle in between. *)
Theorem racing_callers_never_share (seed : Z) (handed : list Z) (g : Generator) :
  (0 < seed < 2 ^ 64)%Z → gen_run (mkGenerator seed ∅) handed g →
  Forall (λ r, (0 < r < 2 ^ 64)%Z) handed ∧
  ∀ i j r, i < j → handed !! i = Some r → handed !! j = Some r → Nat.iter (j - i) xorshift_step seed = seed.
Proof.
  intros Hs Hr. apply gen_run_iter in Hr as [_ Hl]. cbn [g_state] in Hl. split.
  - apply Forall_lookup. intros k r Hk. rewrite (Hl k r Hk). by apply iter_xorshift_u64.
  - intros i j r Hij Hi Hj. apply (iter_xorshift_inj (S i)); [done|]. replace (S i + (j - i)) with (S j) by lia.
    by rewrite <-(Hl _ _ Hi), <-(Hl _ _ Hj).
Qed.

(** Two threads that load the same state: the second one's exchange fails and is
    tried again. *)
Lemma racing_callers_never_share_witness :
  let r1 := xorshift_step 1 in let r2 := xorshift_step r1 in
  Forall (λ r, (0 < r < 2 ^ 64)%Z) [r1; r2] ∧ r1 ≠ r2.
Proof.
  cbv zeta. split; [|vm_compute; discriminate].
  apply (racing_callers_never_share 1 [xorshift_step 1; xorshift_step (xorshift_step 1)] (mkGenerator (xorshift_step (xorshift_step 1)) ∅)); [lia|].
  eapply (gen_run_step _ None); [apply (gen_load _ 0); reflexivity|]. eapply (gen_run_step _ None); [apply (gen_load _ 1); reflexivity|].
  eapply (gen_run_step _ (Some _)); [apply (gen_exchange _ 0 1); reflexivity|].
  eapply (gen_run_step _ None); [apply (gen_retry _ 1 1); reflexivity|].
  eapply (gen_run_step _ (Some _)); [apply (gen_exchange _ 1 (xorshift_step 1)); reflexivity|].
  apply gen_run_nil.
Defined.

(** The coordinate a message for [t] is routed to.  A node inside [t], or one
    that got a malformed tuple, routes nowhere; every other node routes to the
    largest g-node that holds [t] and not the node itself, and any node inside
    that g-node is either inside [t] or routes to a strictly lower level, so that
    a message crosses fewer g-nodes than there are levels. *)
Theorem routing_target_exact (t : HookTuple) (v : QspnView) :
  (tuple_to_hc t v = None ↔ ht_pos t = [] ∨ v_levels v < length (ht_pos t) ∨ i_am_inside t v = true) ∧
  ∀ h, tuple_to_hc t v = Some h →
    hc_level h < v_levels v ∧ v_my_pos v (hc_level h) ≠ hc_pos h ∧ tuple_contains t (make_tuple_from_hc h v) = true ∧
    ∀ v', v_topology v' = v_topology v → i_am_inside (make_tuple_from_hc h v) v' = true →
      i_am_inside t v' = true ∨ ∃ h', tuple_to_hc t v' = Some h' ∧ hc_level h' < hc_level h.
Proof.
  split; [apply tuple_to_hc_None|]. intros h Hh. pose proof Hh as (Hl & k & Hk & Hlv & Hne & Hab)%tuple_to_hc_Some.
  pose proof (lookup_lt_Some _ _ _ Hk). pose proof (drop_agreeing t v k (hc_pos h) Hl Hk Hab) as Hd.
  rewrite <-Hlv in Hd. replace (mkHCoord (hc_level h) (hc_pos h)) with h in Hd by (by destruct h).
  split; [lia|]. split; [done|]. split.
  { apply tuple_contains_suffix. rewrite <-Hd. exists (take k (ht_pos t)). by rewrite take_drop. }
  intros v' Ht' Hin. assert (v_levels v' = v_levels v) as Hlv' by (unfold v_levels; by rewrite Ht').
  destruct (i_am_inside t v') eqn:Hi; [by left|]. right.
  destruct (tuple_to_hc t v') as [h'|] eqn:Hh'.
  2:{ apply tuple_to_hc_None in Hh' as [He|[?|?]]; [by rewrite He in Hk|lia|congruence]. }
  exists h'. split; [done|]. apply tuple_to_hc_Some in Hh' as (_ & k' & Hk' & Hl' & Hne' & _). rewrite Hlv' in Hl'.
  destruct (decide (k' < k)); [lia|]. exfalso. apply Hne'. rewrite inside_pointwise in Hin by (rewrite <-Hd, length_drop; lia).
  rewrite <-Hd, length_drop, Hlv' in Hin. rewrite Hl'. rewrite <-(Hin (k' - k) (hc_pos h')); [f_equal; lia|].
  rewrite lookup_drop. by replace (k + (k' - k)) with k' by lia.
Qed.

(** The tuple [2; 1] of a topology of three levels, seen from [0; 1; 1]. *)
Definition view_example (pos : list Z) : QspnView :=
  mkView (mkTopology [4; 4; 4]%Z) 7 1 (λ l, default 0%Z (pos !! l)) (λ _, 0%Z) 0 (λ _, 0) (λ _ _, 0%Z) (λ _ _, []) true.

Example routing_target_example :
  tuple_to_hc (mkTuple [2; 1]%Z [0; 0]%Z) (view_example [0; 1; 1]%Z) = Some (mkHCoord 1 2) ∧
  tuple_to_hc (mkTuple [2; 1]%Z [0; 0]%Z) (view_example [0; 1; 3]%Z) = Some (mkHCoord 2 1) ∧
  i_am_inside (mkTuple [2; 1]%Z [0; 0]%Z) (view_example [3; 2; 1]%Z) = true.
Proof. done. Qed.
