(* ===== verification/HookSearch.v ===== *)
(** * Hooking: the search for a position and the migration path

    Models [crates/ntk-hooking/src/search.rs]: the reservation a visited g-node
    makes ([execute_search]), the breadth-first search over g-nodes
    ([find_shortest_mig]), the migration chain of a solution ([get_migs],
    [execute_shortest_mig], [resolve_entry_data]) and what a g-node does with a
    migration packet ([execute_mig]); and [search_migration_path] of [rpc.rs],
    which composes them.

    The coordinator's answers to [reserve] are a function of the host level: one
    call of [execute_search] asks about each level at most once.  The answers of
    the [SearchRouter] are functions of the number of the visit, so that a g-node
    asked twice may answer differently.  Ids drawn from [idgen] are a stream. *)
From S2P Require Import Prelude Float64 Addressing HookDomain.

(** ** Reserving inside a visited g-node *)
Record Reservation := mkReservation { rv_pos : Z; rv_eldership : Z }.

Record SearchStepResult := mkStepResult {
  ss_min_host_lvl : nat;
  ss_final_host_lvl : nat;
  ss_real_new_pos : option Z;
  ss_real_new_eldership : option Z;
  ss_set_adjacent : list PairTupleGNodeInt;
  ss_new_conn_vir_pos : option Z;
  ss_new_eldership : option Z
}.

Definition adjacency_set (v : QspnView) (min_host_lvl : nat) : list PairTupleGNodeInt :=
  (λ adj, mkPair (make_tuple_from_hc (ag_hc adj) v) (ag_border_real_pos adj)) <$>
    (seq min_host_lvl (v_levels v - min_host_lvl) ≫= λ i, v_adjacent_to_my_gnode v i min_host_lvl).

(** The size of the g-node that hosts at [lvl]. *)
Definition host_gsize (v : QspnView) (lvl : nat) : Z := default 0%Z (topology_gsize (v_topology v) (lvl - 1)).

(** The first loop: the lowest level with a reachable coordinator; [n] levels
    are left up to [max_host_lvl]. *)
Fixpoint first_reservation (reserve : nat → option Reservation) (lvl n : nat) : option (nat * Reservation) :=
  match n with
  | 0 => None
  | S n' =>
      match reserve lvl with
      | Some r => Some (lvl, r)
      | None => first_reservation reserve (S lvl) n'
      end
  end.

(** The second loop: the lowest level with a real position.  [None] is the early
    return on a failed call. *)
Fixpoint climb (v : QspnView) (reserve : nat → option Reservation) (lvl n : nat) : option (nat * option Reservation) :=
  match n with
  | 0 => Some (lvl, None)
  | S n' =>
      r ← reserve lvl;
      if (rv_pos r <? host_gsize v lvl)%Z then Some (lvl, Some r) else climb v reserve (S lvl) n'
  end.

Definition execute_search (v : QspnView) (reserve : nat → option Reservation) (visiting_gnode : HookTuple) (max_host_lvl : nat)
    : option SearchStepResult :=
  if negb (i_am_inside visiting_gnode v) then None
  else if tuple_has_virtual_pos (make_tuple_from_level 0 v) v then None
  else
    let max_host_lvl := max_host_lvl `min` v_levels v in
    let start := tuple_level visiting_gnode (v_levels v) in
    '(min_host_lvl, r) ← first_reservation reserve start (S max_host_lvl - start);
    if (rv_pos r <? host_gsize v min_host_lvl)%Z then
      Some (mkStepResult min_host_lvl min_host_lvl (Some (rv_pos r)) (Some (rv_eldership r)) (adjacency_set v min_host_lvl) None None)
    else
      '(final_host_lvl, real) ← climb v reserve (S min_host_lvl) (max_host_lvl - min_host_lvl);
      Some (mkStepResult min_host_lvl final_host_lvl (rv_pos <$> real) (rv_eldership <$> real) (adjacency_set v min_host_lvl)
        (Some (rv_pos r)) (Some (rv_eldership r))).

Definition execute_explore (requested_lvl : nat) (v : QspnView) : HookTuple := make_tuple_from_level requested_lvl v.

(** ** What a g-node asks its coordinator *)
Inductive CoordCall :=
  | CallDeleteReserve (lvl : nat) (reserve_request_id : Z)
  | CallPrepareMigration (lvl : nat) (migration_id : Z)
  | CallFinishMigration (lvl : nat) (data : FinishMigrationData).

Definition execute_delete_reserve (v : QspnView) (dest_gnode : HookTuple) (reserve_request_id : Z) : CoordCall :=
  CallDeleteReserve (tuple_level dest_gnode (v_levels v)) reserve_request_id.

(** [u32::try_from] of an [i32]. *)
Definition u32_try_from (z : Z) : option Z := if (z <? 0)%Z then None else Some z.

Definition execute_mig (v : QspnView) (packet : RequestPacket) : option CoordCall :=
  let lvl := tuple_level (rp_dest packet) (v_levels v) in
  match rp_operation packet with
  | PrepareMigration => Some (CallPrepareMigration lvl (rp_migration_id packet))
  | FinishMigration =>
      real_new_pos ← u32_try_from (rp_real_new_pos packet);
      conn_gnode_pos ← u32_try_from (rp_conn_gnode_pos packet);
      Some (CallFinishMigration lvl (mkFinishMigration (rp_migration_id packet)
        (mkEntryData 0 (real_new_pos :: ht_pos (rp_host_gnode packet)) (rp_real_new_eldership packet :: ht_eldership (rp_host_gnode packet)))
        conn_gnode_pos))
  end.

(** ** Steps of the search tree *)
#[local] Set Warnings "-register-all".
Inductive SolutionStep := mkSolutionStep {
  st_visiting_gnode : HookTuple;
  st_previous_migrating_gnode : option HookTuple;
  st_previous_gnode_new_conn_vir_pos : option Z;
  st_previous_gnode_new_eldership : option Z;
  st_parent : option SolutionStep
}.

(** [SolutionStep::distance] *)
Fixpoint step_distance (s : SolutionStep) : nat :=
  match s with
  | mkSolutionStep _ _ _ _ None => 0
  | mkSolutionStep _ _ _ _ (Some p) => S (step_distance p)
  end.

(** [get_path_hops]: from the root to the step. *)
Fixpoint get_path_hops (s : SolutionStep) : list PathHop :=
  match s with
  | mkSolutionStep g prev _ _ par =>
      match par with Some p => get_path_hops p | None => [] end ++ [mkPathHop g prev]
  end.

(** Whether a step or one of its ancestors is [n], at level [lvl]. *)
Fixpoint in_prev_step (s : SolutionStep) (n : HookTuple) (lvl levels : nat) : bool :=
  match s with
  | mkSolutionStep g _ _ _ par =>
      match truncate_to_level g lvl levels with Some b => positions_equal b n | None => false end ||
      match par with Some p => in_prev_step p n lvl levels | None => false end
  end.

Record MigrationSolution := mkSolution {
  ms_leaf : SolutionStep;
  ms_final_host_lvl : nat;
  ms_real_new_pos : Z;
  ms_real_new_eldership : Z
}.

Definition ms_distance (sol : MigrationSolution) : nat := step_distance (ms_leaf sol).

Definition cleanup_target (sol : MigrationSolution) (levels : nat) : option HookTuple :=
  truncate_to_level (st_visiting_gnode (ms_leaf sol)) (ms_final_host_lvl sol) levels.

(** ** The breadth-first search *)

(** The answers of the network, by the number of the visit (and of the adjacent
    g-node). *)
Record SearchRouter := mkRouter {
  rt_search : nat → list PathHop → nat → option SearchStepResult;
  rt_explore : nat → nat → list PathHop → nat → option HookTuple
}.

Record Bfs := mkBfs {
  bf_max_host_lvl : nat;
  bf_solutions : list MigrationSolution;
  bf_prev_sol_distance : option nat;
  bf_visited : list HookTuple;
  bf_queue : list SolutionStep
}.

(** The search has gone far enough beyond the last solution. *)
Definition too_far (prev_sol_distance : option nat) (distance : nat) : bool :=
  match prev_sol_distance with
  | Some prev =>
      (prev + 5 <=? distance) &&
      f64_leb (f64_mul (f64_of_Z (Z.of_nat prev)) (f64_lit 13 10)) (f64_of_Z (Z.of_nat distance))
  | None => false
  end.

(** A position and an eldership, both resolved. *)
Definition resolved (current : SolutionStep) (step : SearchStepResult) : option MigrationSolution :=
  match ss_real_new_pos step, ss_real_new_eldership step with
  | Some pos, Some eldership => Some (mkSolution current (ss_final_host_lvl step) pos eldership)
  | _, _ => None
  end.

Section Search.
Context (v : QspnView) (router : SearchRouter).

(** An adjacent g-node: its tuple at the level of the visit, and whether it is
    new. *)
Definition adjacent_gnode (i k : nat) (current : SolutionStep) (step : SearchStepResult) (adj : PairTupleGNodeInt) : option HookTuple :=
  if ss_min_host_lvl step <? tuple_level (pt_gnode adj) (v_levels v)
  then rt_explore router i k (get_path_hops current ++ [mkPathHop (pt_gnode adj) None]) (ss_min_host_lvl step)
  else Some (pt_gnode adj).

Definition queue_adjacent (i : nat) (current : SolutionStep) (step : SearchStepResult) (vq : list HookTuple * list SolutionStep)
    (kadj : nat * PairTupleGNodeInt) : list HookTuple * list SolutionStep :=
  match adjacent_gnode i kadj.1 current step kadj.2 with
  | None => vq
  | Some n =>
      if negb (tuple_level n (v_levels v) =? ss_min_host_lvl step) || tuple_has_virtual_pos n v ||
         any (λ t, positions_equal t n) vq.1 || in_prev_step current n (ss_min_host_lvl step) (v_levels v)
      then vq
      else
        let g := st_visiting_gnode current in
        (vq.1 ++ [n],
         vq.2 ++ [mkSolutionStep n
           (Some (mkTuple (pt_border_real_pos kadj.2 :: ht_pos g) ((-1)%Z :: ht_eldership g)))
           (ss_new_conn_vir_pos step) (ss_new_eldership step) (Some current)])
  end.

(** The rest of a visit: every adjacent g-node. *)
Definition explore_adjacent (i : nat) (current : SolutionStep) (step : SearchStepResult) (b : Bfs) : Bfs :=
  let vq := foldl (queue_adjacent i current step) (bf_visited b, bf_queue b) (enumerate (ss_set_adjacent step)) in
  mkBfs (bf_max_host_lvl b) (bf_solutions b) (bf_prev_sol_distance b) vq.1 vq.2.

(** [solutions.push]; the next solution must host at a lower level. *)
Definition push_solution (b : Bfs) (sol : MigrationSolution) : Bfs :=
  mkBfs (ms_final_host_lvl sol - 1) (bf_solutions b ++ [sol]) (Some (ms_distance sol)) (bf_visited b) (bf_queue b).

(** One round of the loop, on the step just popped: the result, or the state for
    the next round. *)
Definition visit (ok_host_lvl i : nat) (current : SolutionStep) (b : Bfs) : list MigrationSolution + Bfs :=
  let levels := v_levels v in
  if too_far (bf_prev_sol_distance b) (step_distance current) then inl (bf_solutions b)
  else
    match rt_search router i (get_path_hops current) (bf_max_host_lvl b) with
    | None =>
        inr (mkBfs (bf_max_host_lvl b) (bf_solutions b) (bf_prev_sol_distance b)
          (retain (λ t, negb (positions_equal t (st_visiting_gnode current))) (bf_visited b)) (bf_queue b))
    | Some step =>
        if (levels <? ss_min_host_lvl step) || (bf_max_host_lvl b <? ss_min_host_lvl step) ||
           (levels <? ss_final_host_lvl step) || (ss_final_host_lvl step <? ss_min_host_lvl step)
        then inr b
        else
          match truncate_to_level (st_visiting_gnode current) (ss_min_host_lvl step) levels with
          | None => inr b
          | Some truncated =>
              let current := mkSolutionStep truncated (st_previous_migrating_gnode current)
                (st_previous_gnode_new_conn_vir_pos current) (st_previous_gnode_new_eldership current) (st_parent current) in
              if ss_final_host_lvl step <=? ok_host_lvl then
                match resolved current step with
                | Some sol => inl (bf_solutions b ++ [sol])
                | None => inr (explore_adjacent i current step b)
                end
              else if ss_min_host_lvl step =? ss_final_host_lvl step then
                inr (match resolved current step with Some sol => push_solution b sol | None => b end)
              else if ss_final_host_lvl step <=? bf_max_host_lvl b then
                inr (explore_adjacent i current step
                  (match resolved current step with Some sol => push_solution b sol | None => b end))
              else inr (explore_adjacent i current step b)
          end
    end.

(** The loop; [None] when the fuel ends first. *)
Fixpoint bfs_loop (ok_host_lvl fuel i : nat) (b : Bfs) : option (list MigrationSolution) :=
  match bf_queue b with
  | [] => Some (bf_solutions b)
  | current :: queue =>
      match fuel with
      | 0 => None
      | S fuel' =>
          match visit ok_host_lvl i current
                  (mkBfs (bf_max_host_lvl b) (bf_solutions b) (bf_prev_sol_distance b) (bf_visited b) queue) with
          | inl sols => Some sols
          | inr b' => bfs_loop ok_host_lvl fuel' (S i) b'
          end
      end
  end.

Definition start_bfs (first_host_lvl : nat) : Bfs :=
  let root_gnode := make_tuple_from_level first_host_lvl v in
  mkBfs (v_levels v) [] None [root_gnode] [mkSolutionStep root_gnode None None None None].

Definition find_shortest_mig (first_host_lvl ok_host_lvl fuel : nat) : option (list MigrationSolution) :=
  let first_host_lvl := first_host_lvl `max` S (v_subnetlevel v) in
  bfs_loop (ok_host_lvl `max` first_host_lvl) fuel 0 (start_bfs first_host_lvl).
End Search.

(** ** The migration chain of a solution *)
Record MigData := mkMigData {
  mg_migration_id : Z;
  mg_mig_gnode : HookTuple;
  mg_conn_gnode_pos : Z;
  mg_prev_mig_gnode_new_eldership : Z;
  mg_host_gnode : HookTuple;
  mg_mig_gnode_new_pos : option Z;
  mg_final_mig_gnode_new_pos : option Z;
  mg_final_mig_gnode_new_eldership : option Z
}.

(** [u32 as i32]. *)
Definition as_i32 (z : Z) : Z := ((z + 2 ^ 31) mod 2 ^ 32 - 2 ^ 31)%Z.

(** [Vec::drain(0..n)], which panics past the end. *)
Definition drain_front {E A} (n : nat) (l : list A) : res E (list A) := if length l <? n then Panic else Ok (drop n l).

(** The g-node that hosts at the farthest hop, cut to the level of the position
    found; the subtractions are on [usize]. *)
Definition final_host_gnode {E} (host : HookTuple) (levels final_host_lvl : nat) : res E HookTuple :=
  if (levels <? final_host_lvl) || (length (ht_pos host) <? levels - final_host_lvl) then Panic
  else
    let toremove := length (ht_pos host) - (levels - final_host_lvl) in
    pos ← drain_front toremove (ht_pos host);
    eldership ← drain_front toremove (ht_eldership host);
    Ok (mkTuple pos eldership).

(** The loop of [get_migs], from the leaf to the root; [ids i] is the [i]-th id
    drawn. *)
Fixpoint get_migs_loop {E} (sol : MigrationSolution) (levels : nat) (ids : nat → Z) (i : nat) (last : bool) (ss_prev : option SolutionStep)
    (ss : SolutionStep) (migs : list MigData) : res E (list MigData) :=
  match ss with
  | mkSolutionStep _ _ _ _ None => Ok migs
  | mkSolutionStep visiting previous conn_vir_pos new_eldership (Some parent) =>
      host_gnode ← (if last then final_host_gnode visiting levels (ms_final_host_lvl sol) else Ok visiting);
      mig_gnode ← expect previous;
      let mig_gnode_new_pos :=
        p ← ss_prev; t ← st_previous_migrating_gnode p; head (ht_pos t) in
      get_migs_loop sol levels ids (S i) false (Some ss) parent
        (mkMigData (ids i) mig_gnode
           (match conn_vir_pos with Some p => as_i32 p | None => (-1)%Z end)
           (default (-1)%Z new_eldership) host_gnode mig_gnode_new_pos
           (if last then Some (ms_real_new_pos sol) else None)
           (if last then Some (ms_real_new_eldership sol) else None) :: migs)
  end.

Definition get_migs {E} (sol : MigrationSolution) (levels : nat) (ids : nat → Z) : res E (list MigData) :=
  _ ← assert (bool_decide (is_Some (st_parent (ms_leaf sol))));
  get_migs_loop sol levels ids 0 true None (ms_leaf sol) [].

Definition build_request_packet_prepare (mig : MigData) : RequestPacket :=
  mkRequestPacket 0 (mg_mig_gnode mig) tuple_default PrepareMigration (mg_migration_id mig) (-1) tuple_default (-1) (-1).

(** [i32::try_from(u32).unwrap_or(-1)] *)
Definition i32_or_minus_one (z : Z) : Z := if (z <? 2 ^ 31)%Z then z else (-1)%Z.

Definition build_request_packet_finish {E} (mig : MigData) (mig_next : option MigData) : res E RequestPacket :=
  new ← match mig_next with
        | None =>
            p ← expect (mg_final_mig_gnode_new_pos mig);
            e ← expect (mg_final_mig_gnode_new_eldership mig);
            Ok (i32_or_minus_one p, e)
        | Some next =>
            Ok (match mg_mig_gnode_new_pos mig with Some p => as_i32 p | None => (-1)%Z end, mg_prev_mig_gnode_new_eldership next)
        end;
  Ok (mkRequestPacket 0 (mg_mig_gnode mig) tuple_default FinishMigration (mg_migration_id mig) (mg_conn_gnode_pos mig)
    (mg_host_gnode mig) new.1 new.2).

(** The finishing packets, the farthest hop first; [next] is the hop beyond. *)
Fixpoint finish_packets {E} (farthest_first : list MigData) (next : option MigData) : res E (list RequestPacket) :=
  match farthest_first with
  | [] => Ok []
  | mig :: rest =>
      p ← build_request_packet_finish mig next;
      ps ← finish_packets rest (Some mig);
      Ok (p :: ps)
  end.

(** The packets [execute_shortest_mig] sends, in order, when every hop answers. *)
Definition mig_packets {E} (migs : list MigData) : res E (list RequestPacket) :=
  _ ← expect (last migs);
  finish ← finish_packets (rev migs) None;
  Ok ((build_request_packet_prepare <$> rev migs) ++ finish).

(** Sends until a hop fails; [answers i] tells whether the [i]-th packet is
    acknowledged. *)
Fixpoint send_until (answers : nat → bool) (i : nat) (packets : list RequestPacket) : list RequestPacket * bool :=
  match packets with
  | [] => ([], true)
  | p :: rest =>
      if answers i then let r := send_until answers (S i) rest in (p :: r.1, r.2) else ([p], false)
  end.

Definition execute_shortest_mig {E} (v : QspnView) (sol : MigrationSolution) (ids : nat → Z) (answers : nat → bool)
    : res E (list RequestPacket * bool) :=
  migs ← get_migs sol (v_levels v) ids;
  packets ← mig_packets migs;
  Ok (send_until answers 0 packets).

(** The root of the search tree and the step below it. *)
Fixpoint root_and_second (s : SolutionStep) : option (SolutionStep * SolutionStep) :=
  match s with
  | mkSolutionStep _ _ _ _ None => None
  | mkSolutionStep _ _ _ _ (Some p) =>
      match st_parent p with None => Some (p, s) | Some _ => root_and_second p end
  end.

Definition resolve_entry_data {E} (sol : MigrationSolution) (v : QspnView) : res E EntryData :=
  if ms_distance sol =? 0 then
    let host := make_tuple_from_level (ms_final_host_lvl sol) v in
    Ok (mkEntryData (v_network_id v) (ms_real_new_pos sol :: ht_pos host) (ms_real_new_eldership sol :: ht_eldership host))
  else
    rs ← expect (root_and_second (ms_leaf sol));
    prev ← expect (st_previous_migrating_gnode rs.2);
    p ← expect (ht_pos prev !! 0);
    Ok (mkEntryData (v_network_id v) (p :: ht_pos (st_visiting_gnode rs.1))
      (default (-1)%Z (st_previous_gnode_new_eldership rs.2) :: ht_eldership (st_visiting_gnode rs.1))).

(** ** The server's side of a search (rpc.rs) *)
Inductive HookingServerError :=
  | NotBootstrapped | HookingNotPrincipal | NoMigrationPathFound | MigrationPathExecuteFailure | HookLevelOutOfRange.

(** What a search sends besides its requests. *)
Inductive SearchAction :=
  | DeleteReserve (dest_gnode : HookTuple) (reserve_request_id : Z)
  | SendMig (packet : RequestPacket).

Definition retrieve_network_data (v : QspnView) (ask_coord : bool) (coord_n_nodes : Z) : res HookingServerError NetworkData :=
  if negb (v_is_bootstrapped v) then Err NotBootstrapped
  else if tuple_has_virtual_pos (make_tuple_from_level 0 v) v then Err HookingNotPrincipal
  else
    let range := seq 0 (v_levels v) in
    Ok (mkNetworkData (v_network_id v) (if ask_coord then coord_n_nodes else v_n_nodes v) (v_subnetlevel v)
      ((λ i, default 0%Z (topology_gsize (v_topology v) i)) <$> range) (v_my_pos v <$> range)).

(** The search once it has its solutions: the best is the last, the others are
    released. *)
Definition conclude_search (v : QspnView) (reserve_request_id : Z) (ids : nat → Z) (answers : nat → bool) (solutions : list MigrationSolution)
    : list SearchAction * res HookingServerError EntryData :=
  match last solutions with
  | None => ([], Err NoMigrationPathFound)
  | Some sol =>
      let release s := option_list ((λ t, DeleteReserve t reserve_request_id) <$> cleanup_target s (v_levels v)) in
      let rejected := removelast solutions ≫= release in
      if 0 <? ms_distance sol then
        match (execute_shortest_mig v sol ids answers : res HookingServerError _) with
        | Ok (sent, true) => (rejected ++ (SendMig <$> sent), resolve_entry_data sol v)
        | Ok (sent, false) => (rejected ++ (SendMig <$> sent) ++ release sol, Err MigrationPathExecuteFailure)
        | Err e => (rejected, Err e)
        | Panic => (rejected, Panic)
        end
      else (rejected, resolve_entry_data sol v)
  end.

(** [search_migration_path]; [None] when the fuel of the search ends first.  The
    time budget, when it passes ([elapsed] actions done), cuts the actions short. *)
Definition search_migration_path (v : QspnView) (router : SearchRouter) (lvl : nat) (reserve_request_id : Z) (ids : nat → Z)
    (answers : nat → bool) (elapsed : option nat) (fuel : nat) : option (list SearchAction * res HookingServerError EntryData) :=
  if negb (v_is_bootstrapped v) then Some ([], Err NotBootstrapped)
  else if v_levels v <=? lvl then Some ([], Err HookLevelOutOfRange)
  else
    solutions ← find_shortest_mig v router (S lvl) (lvl + v_epsilon v lvl) fuel;
    let r := conclude_search v reserve_request_id ids answers solutions in
    Some (match elapsed with Some n => (take n r.1, Err MigrationPathExecuteFailure) | None => r end).
