(* ===== verification/HookSearchProps.v ===== *)
(** * Hooking: correctness of the search and of the migration chain

    The search always ends, whatever the network answers; its solutions improve
    one after the other; the chain of migrations it leads to moves every g-node
    to the address the next one leaves; and the server's handler neither panics
    nor keeps a reservation it does not use. *)
From S2P Require Import Prelude Float64 Addressing HookDomain HookSearch.

(** ** Reservations *)
Lemma first_reservation_spec reserve lvl n :
  match first_reservation reserve lvl n with
  | Some (l, r) => lvl ≤ l < lvl + n ∧ reserve l = Some r ∧ ∀ k, lvl ≤ k < l → reserve k = None
  | None => ∀ k, lvl ≤ k < lvl + n → reserve k = None
  end.
Proof.
  revert lvl. induction n as [|n IH]; intros lvl; cbn; [intros; lia|]. destruct (reserve lvl) as [r|] eqn:Hr.
  { split; [lia|]. split; [done|]. intros; lia. }
  specialize (IH (S lvl)). destruct (first_reservation reserve (S lvl) n) as [[l r]|].
  - destruct IH as (H1 & H2 & H3). split; [lia|]. split; [done|]. intros k Hk. destruct (decide (k = lvl)) as [->|]; [done|]. apply H3. lia.
  - intros k Hk. destruct (decide (k = lvl)) as [->|]; [done|]. apply IH. lia.
Qed.

Lemma climb_spec v reserve lvl n :
  match climb v reserve lvl n with
  | Some (l, o) =>
      (∀ k, lvl ≤ k < l → ∃ r, reserve k = Some r ∧ (host_gsize v k ≤ rv_pos r)%Z) ∧
      match o with
      | Some r => lvl ≤ l < lvl + n ∧ reserve l = Some r ∧ (rv_pos r < host_gsize v l)%Z
      | None => l = lvl + n
      end
  | None => ∃ k, lvl ≤ k < lvl + n ∧ reserve k = None
  end.
Proof.
  revert lvl. induction n as [|n IH]; intros lvl; cbn; [split; [intros; lia|lia]|]. destruct (reserve lvl) as [r|] eqn:Hr; cbn.
  2:{ exists lvl. split; [lia|done]. }
  destruct (Z.ltb_spec (rv_pos r) (host_gsize v lvl)) as [Hlt|Hge]; [split; [intros; lia|]; split; [lia|done]|].
  specialize (IH (S lvl)). destruct (climb v reserve (S lvl) n) as [[l o]|].
  - destruct IH as [H1 H2]. split.
    + intros k Hk. destruct (decide (k = lvl)) as [->|]; [by exists r|]. apply H1. lia.
    + destruct o; [|lia]. destruct H2 as (? & ? & ?). split; [lia|done].
  - destruct IH as (k & ? & ?). exists k. split; [lia|done].
Qed.

(** What a node tells of the g-node it was asked about. *)
Definition search_result_ok (v : QspnView) (reserve : nat → option Reservation) (start max : nat) (r : SearchStepResult) : Prop :=
  start ≤ ss_min_host_lvl r ≤ max ∧ (∀ k, start ≤ k < ss_min_host_lvl r → reserve k = None) ∧
  ss_min_host_lvl r ≤ ss_final_host_lvl r ≤ S max ∧
  (∀ k, ss_min_host_lvl r ≤ k < ss_final_host_lvl r → ∃ x, reserve k = Some x ∧ (host_gsize v k ≤ rv_pos x)%Z) ∧
  match ss_real_new_pos r, ss_real_new_eldership r with
  | Some p, Some e => reserve (ss_final_host_lvl r) = Some (mkReservation p e) ∧ (p < host_gsize v (ss_final_host_lvl r))%Z
  | None, None => ss_final_host_lvl r = S max
  | _, _ => False
  end ∧
  match ss_new_conn_vir_pos r, ss_new_eldership r with
  | Some p, Some e => ss_min_host_lvl r < ss_final_host_lvl r ∧ reserve (ss_min_host_lvl r) = Some (mkReservation p e)
  | None, None => ss_min_host_lvl r = ss_final_host_lvl r
  | _, _ => False
  end.

Lemma execute_search_ok v reserve g max r :
  execute_search v reserve g max = Some r →
  i_am_inside g v = true ∧ search_result_ok v reserve (tuple_level g (v_levels v)) (max `min` v_levels v) r ∧
  ss_set_adjacent r = adjacency_set v (ss_min_host_lvl r).
Proof.
  unfold execute_search. destruct (i_am_inside g v); [|done]. destruct (tuple_has_virtual_pos _ v); [done|]. cbn [negb].
  set (m := max `min` v_levels v). set (s := tuple_level g (v_levels v)). pose proof (first_reservation_spec reserve s (S m - s)) as Hf.
  destruct (first_reservation reserve s (S m - s)) as [[l x]|]; [|done]. cbn [mbind option_bind]. destruct Hf as (Hl & Hx & Hbelow).
  destruct (Z.ltb_spec (rv_pos x) (host_gsize v l)) as [Hlt|Hge].
  - intros [= <-]. split; [done|]. split; [|done]. unfold search_result_ok. cbn. split; [lia|]. split; [done|]. split; [lia|].
    split; [intros; lia|]. split; [|done]. destruct x. done.
  - pose proof (climb_spec v reserve (S l) (m - l)) as Hc. destruct (climb v reserve (S l) (m - l)) as [[f o]|]; [|done]. cbn [mbind option_bind].
    destruct Hc as [Hbetween Ho]. intros [= <-]. split; [done|]. split; [|done]. unfold search_result_ok. cbn. split; [lia|]. split; [done|].
    assert (S l ≤ f ≤ S m) as Hf by (destruct o; lia). split; [lia|]. split.
    { intros k Hk. destruct (decide (k = l)) as [->|]; [by exists x|]. apply Hbetween. lia. }
    split; [|destruct x; split; [lia|done]]. destruct o as [y|]; cbn; [|lia]. destruct Ho as (_ & Hy & Hlt). by destruct y.
Qed.

(** ** One visit *)
Section Visit.
Context (v : QspnView) (router : SearchRouter).

(** The step of the visit, cut to the level its g-node answered for. *)
Definition cut_step (cur : SolutionStep) (step : SearchStepResult) (cur' : SolutionStep) : Prop :=
  truncate_to_level (st_visiting_gnode cur) (ss_min_host_lvl step) (v_levels v) = Some (st_visiting_gnode cur') ∧
  st_previous_migrating_gnode cur' = st_previous_migrating_gnode cur ∧ st_parent cur' = st_parent cur ∧
  ss_min_host_lvl step ≤ ss_final_host_lvl step ≤ v_levels v.

(** A g-node that did not answer is forgotten. *)
Definition forget (b : Bfs) (cur : SolutionStep) : Bfs :=
  mkBfs (bf_max_host_lvl b) (bf_solutions b) (bf_prev_sol_distance b)
    (retain (λ t, negb (positions_equal t (st_visiting_gnode cur))) (bf_visited b)) (bf_queue b).

(** The outcomes of a visit. *)
Inductive visited (ok i : nat) (cur : SolutionStep) (b : Bfs) : list MigrationSolution + Bfs → Prop :=
  | visited_far : visited ok i cur b (inl (bf_solutions b))
  | visited_lost : visited ok i cur b (inr (forget b cur))
  | visited_refused : visited ok i cur b (inr b)
  | visited_accept cur' step sol :
      cut_step cur step cur' → resolved cur' step = Some sol → ss_final_host_lvl step ≤ ok →
      visited ok i cur b (inl (bf_solutions b ++ [sol]))
  | visited_push cur' step sol (explore : bool) h m :
      rt_search router i h m = Some step →
      cut_step cur step cur' → resolved cur' step = Some sol → ok < ss_final_host_lvl step ≤ bf_max_host_lvl b →
      visited ok i cur b (inr (if explore then explore_adjacent v router i cur' step (push_solution b sol) else push_solution b sol))
  | visited_explore cur' step (explore : bool) h m :
      rt_search router i h m = Some step →
      cut_step cur step cur' →
      visited ok i cur b (inr (if explore then explore_adjacent v router i cur' step b else b)).

Lemma visit_visited ok i cur b : visited ok i cur b (visit v router ok i cur b).
Proof.
  unfold visit. destruct (too_far _ _); [apply visited_far|]. destruct (rt_search router i _ _) as [step|] eqn:Hr; [|apply visited_lost].
  destruct (_ || _) eqn:Hb; [apply visited_refused|]. rewrite !orb_false_iff, !Nat.ltb_ge in Hb. destruct Hb as [[[H1 H2] H3] H4].
  destruct (truncate_to_level _ _ _) as [g|] eqn:Ht; [|apply visited_refused].
  match goal with |- context [resolved ?c step] => set (cur' := c) end.
  assert (cut_step cur step cur') as Hcut by (unfold cut_step; cbn; done).
  destruct (Nat.leb_spec (ss_final_host_lvl step) ok) as [Hok|Hok].
  { destruct (resolved cur' step) eqn:Hs; [by eapply visited_accept|by eapply (visited_explore _ _ _ _ cur' step true)]. }
  destruct (Nat.eqb_spec (ss_min_host_lvl step) (ss_final_host_lvl step)) as [He|Hne].
  { destruct (resolved cur' step) eqn:Hs; [eapply (visited_push _ _ _ _ cur' step _ false); [done..|lia]|by eapply (visited_explore _ _ _ _ cur' step false)]. }
  destruct (Nat.leb_spec (ss_final_host_lvl step) (bf_max_host_lvl b)).
  - destruct (resolved cur' step) eqn:Hs; [eapply (visited_push _ _ _ _ cur' step _ true); [done..|lia]|by eapply (visited_explore _ _ _ _ cur' step true)].
  - by eapply (visited_explore _ _ _ _ cur' step true).
Qed.

(** The children a visit queues. *)
Definition child_of (cur : SolutionStep) (step : SearchStepResult) (s : SolutionStep) : Prop :=
  st_parent s = Some cur ∧ tuple_level (st_visiting_gnode s) (v_levels v) = ss_min_host_lvl step ∧
  tuple_has_virtual_pos (st_visiting_gnode s) v = false ∧
  ∃ border, st_previous_migrating_gnode s =
    Some (mkTuple (border :: ht_pos (st_visiting_gnode cur)) ((-1)%Z :: ht_eldership (st_visiting_gnode cur))).

(** The g-nodes named by the answers have unsigned positions. *)
Definition unsigned_gnode (g : HookTuple) : Prop := Forall (λ p, (0 ≤ p)%Z) (ht_pos g).
Definition router_typed : Prop :=
  (∀ i h m r, rt_search router i h m = Some r → Forall (λ adj, unsigned_gnode (pt_gnode adj)) (ss_set_adjacent r)) ∧
  (∀ i k h l g, rt_explore router i k h l = Some g → unsigned_gnode g).

Lemma queue_adjacent_cases i cur step vq k adj :
  queue_adjacent v router i cur step vq (k, adj) = vq ∨
  ∃ s, queue_adjacent v router i cur step vq (k, adj) = (vq.1 ++ [st_visiting_gnode s], vq.2 ++ [s]) ∧ child_of cur step s ∧
    (∀ t, t ∈ vq.1 → ht_pos t ≠ ht_pos (st_visiting_gnode s)) ∧
    (router_typed → unsigned_gnode (pt_gnode adj) → unsigned_gnode (st_visiting_gnode s)).
Proof.
  unfold queue_adjacent. cbn [fst snd]. destruct (adjacent_gnode v router i k cur step adj) as [n|] eqn:Hn; [|by left].
  destruct (_ || in_prev_step _ _ _ _) eqn:Hb; [by left|]. right. rewrite !orb_false_iff in Hb. destruct Hb as [[[Hlv Hreal] Hany] _].
  apply negb_false_iff, Nat.eqb_eq in Hlv.
  match goal with |- context [_ ++ [mkSolutionStep ?a ?b ?c ?d ?e]] => exists (mkSolutionStep a b c d e) end. split; [done|]. split; [split; [done|]; split; [done|]; split; [done|]; by eexists|].
  cbn [st_visiting_gnode]. split.
  - intros t Ht He. assert (any (λ t0, positions_equal t0 n) vq.1 = true); [|congruence]. apply existsb_exists. exists t.
    split; [by apply list_elem_of_In|]. by apply bool_decide_eq_true.
  - intros Hty Hadj. unfold adjacent_gnode in Hn. destruct (_ <? _); [by eapply Hty|by injection Hn as <-].
Qed.

Lemma queue_adjacent_grows i cur step l vq :
  let vq' := foldl (queue_adjacent v router i cur step) vq l in
  ∃ news, vq'.1 = vq.1 ++ (st_visiting_gnode <$> news) ∧ vq'.2 = vq.2 ++ news ∧ Forall (child_of cur step) news ∧
    (NoDup (ht_pos <$> vq.1) → NoDup (ht_pos <$> vq'.1)) ∧
    (router_typed → Forall (λ ka, unsigned_gnode (pt_gnode ka.2)) l → Forall (λ s, unsigned_gnode (st_visiting_gnode s)) news).
Proof.
  revert vq. induction l as [|[k adj] l IH]; intros vq; cbv zeta.
  { exists []. cbn. rewrite !app_nil_r. by repeat split. }
  cbn [foldl]. destruct (queue_adjacent_cases i cur step vq k adj) as [->|(s & -> & Hc & Hfresh & Hu)].
  { destruct (IH vq) as (news & H1 & H2 & H3 & H4 & H5). exists news. split; [done|]. split; [done|]. split; [done|]. split; [done|].
    intros Hty Hl. apply Forall_cons in Hl as [_ Hl]. by apply H5. }
  destruct (IH (vq.1 ++ [st_visiting_gnode s], vq.2 ++ [s])) as (news & H1 & H2 & H3 & H4 & H5). cbn [fst snd] in *. exists (s :: news).
  split; [by rewrite H1, <-app_assoc|]. split; [by rewrite H2, <-app_assoc|]. split; [by constructor|]. split.
  - intros Hnd. apply H4. rewrite fmap_app. apply NoDup_app. split; [done|]. split; [|apply NoDup_singleton].
    intros p Hp Hp'. apply list_elem_of_fmap in Hp as (t & -> & Ht). apply list_elem_of_singleton in Hp'. by eapply Hfresh.
  - intros Hty Hl. apply Forall_cons in Hl as [? Hl]. constructor; [by apply Hu|by apply H5].
Qed.

Lemma explore_adjacent_grows i cur step b :
  ∃ news, bf_visited (explore_adjacent v router i cur step b) = bf_visited b ++ (st_visiting_gnode <$> news) ∧
    bf_queue (explore_adjacent v router i cur step b) = bf_queue b ++ news ∧
    Forall (child_of cur step) news ∧
    (NoDup (ht_pos <$> bf_visited b) → NoDup (ht_pos <$> bf_visited (explore_adjacent v router i cur step b))) ∧
    (router_typed → Forall (λ adj, unsigned_gnode (pt_gnode adj)) (ss_set_adjacent step) → Forall (λ s, unsigned_gnode (st_visiting_gnode s)) news).
Proof.
  unfold explore_adjacent. cbn [bf_visited bf_queue].
  destruct (queue_adjacent_grows i cur step (enumerate (ss_set_adjacent step)) (bf_visited b, bf_queue b)) as (news & H1 & H2 & H3 & H4 & H5).
  exists news. split; [done|]. split; [done|]. split; [done|]. split; [done|]. intros Hty Hadj. apply H5; [done|]. apply Forall_forall.
  intros [k a] Hka%elem_of_enumerate. rewrite Forall_forall in Hadj. apply Hadj. by eapply list_elem_of_lookup_2.
Qed.
End Visit.

(** ** The search ends

    Every visit either answers, and then its g-node stays visited for ever, or
    does not, and then the queue is one shorter; and there are finitely many real
    g-nodes. *)

(** The lists of at most [n] numbers below [g]. *)
Fixpoint tuples_upto (g : nat) (n : nat) : list (list Z) :=
  match n with
  | 0 => [[]]
  | S n' => [] :: ((Z.of_nat <$> seq 0 g) ≫= λ x, cons x <$> tuples_upto g n')
  end.

Lemma elem_of_tuples_upto g n l : length l ≤ n → Forall (λ p, (0 ≤ p < Z.of_nat g)%Z) l → l ∈ tuples_upto g n.
Proof.
  revert l. induction n as [|n IH]; intros [|x l] Hl Hx; cbn in *; try lia; [by left..|]. apply Forall_cons in Hx as [Hx Hxs].
  right. apply list_elem_of_bind. exists x. split.
  - apply list_elem_of_fmap. exists l. split; [done|]. apply IH; [lia|done].
  - apply list_elem_of_fmap. exists (Z.to_nat x). split; [lia|]. apply elem_of_seq. lia.
Qed.

(** A bound of the g-node sizes. *)
Definition gsize_bound (t : Topology) : nat := foldr (λ g acc, Z.to_nat g `max` acc) 0 (gsizes t).

Lemma gsize_bound_spec t l g : topology_gsize t l = Some g → (g ≤ Z.of_nat (gsize_bound t))%Z.
Proof.
  unfold topology_gsize, gsize_bound. revert l. induction (gsizes t) as [|x gs IH]; intros [|l] H; cbn in *; [done|done| |].
  - injection H as ->. lia.
  - pose proof (IH l H). lia.
Qed.

Section Ends.
Context (v : QspnView) (router : SearchRouter).

(** The g-nodes a search can visit. *)
Definition reachable_gnodes (root : HookTuple) : list (list Z) :=
  ht_pos root :: tuples_upto (gsize_bound (v_topology v)) (v_levels v).

Lemma real_gnode_listed root g : unsigned_gnode g → tuple_has_virtual_pos g v = false → ht_pos g ∈ reachable_gnodes root.
Proof.
  intros Hu [Hl Hr]%tuple_real_spec. right. apply elem_of_tuples_upto; [done|]. apply Forall_lookup. intros j p Hj.
  unfold unsigned_gnode in Hu. rewrite Forall_lookup in Hu. split; [by eapply Hu|]. destruct (Hr j p Hj) as (gs & Hg & Hlt).
  apply gsize_bound_spec in Hg. lia.
Qed.

Definition visited_inv (root : HookTuple) (b : Bfs) : Prop :=
  NoDup (ht_pos <$> bf_visited b) ∧ (ht_pos <$> bf_visited b) ⊆ reachable_gnodes root.

Lemma visited_inv_length root b : visited_inv root b → length (bf_visited b) ≤ length (reachable_gnodes root).
Proof.
  intros [Hnd Hsub]. rewrite <-(length_fmap ht_pos). apply submseteq_length, NoDup_submseteq; [done|]. intros x. apply Hsub.
Qed.

Lemma explore_inv root i cur step b h m :
  router_typed router → rt_search router i h m = Some step → visited_inv root b → visited_inv root (explore_adjacent v router i cur step b).
Proof.
  intros Hty Hr [Hnd Hsub]. destruct (explore_adjacent_grows v router i cur step b) as (news & Hv & _ & Hc & Hnd' & Hu). split; [by apply Hnd'|].
  rewrite Hv, fmap_app. intros p [Hp|Hp]%elem_of_app; [by apply Hsub|]. apply list_elem_of_fmap in Hp as (t & -> & Ht).
  apply list_elem_of_fmap in Ht as (s & -> & Hs). specialize (Hu Hty (proj1 Hty _ _ _ _ Hr)). rewrite Forall_forall in Hu, Hc.
  apply real_gnode_listed; [by apply Hu|]. by destruct (Hc s Hs) as (_ & _ & ? & _).
Qed.

Lemma forget_fmap b cur : ht_pos <$> bf_visited (forget b cur) = filter (λ p, p ≠ ht_pos (st_visiting_gnode cur)) (ht_pos <$> bf_visited b).
Proof.
  cbn. unfold retain. induction (bf_visited b) as [|t l IH]; [done|]. cbn [List.filter]. unfold positions_equal. rewrite fmap_cons, filter_cons.
  destruct (decide (ht_pos t = ht_pos (st_visiting_gnode cur))) as [He|Hne].
  - rewrite bool_decide_eq_true_2, decide_False by tauto. cbn. apply IH.
  - rewrite bool_decide_eq_false_2, decide_True by done. cbn. f_equal. apply IH.
Qed.

Lemma filter_absent (l : list (list Z)) x : x ∉ l → filter (λ p, p ≠ x) l = l.
Proof.
  induction l as [|y l IH]; [done|]. intros [Hy Hl]%not_elem_of_cons. rewrite filter_cons_True by congruence. f_equal. by apply IH.
Qed.

Lemma filter_one_length (l : list (list Z)) x : NoDup l → length l ≤ S (length (filter (λ p, p ≠ x) l)).
Proof.
  induction 1 as [|y l Hy Hnd IH]; [cbn; lia|]. destruct (decide (y = x)) as [->|Hne].
  - rewrite filter_cons_False by tauto. by rewrite filter_absent.
  - rewrite filter_cons_True by done. cbn. lia.
Qed.

(** The measure of the loop. *)
Definition left_to_visit (root : HookTuple) (b : Bfs) : nat := length (reachable_gnodes root) + length (bf_queue b) - length (bf_visited b).

Lemma visit_decreases root ok i cur queue b b' :
  router_typed router → bf_queue b = cur :: queue → visited_inv root b →
  visit v router ok i cur (mkBfs (bf_max_host_lvl b) (bf_solutions b) (bf_prev_sol_distance b) (bf_visited b) queue) = inr b' →
  visited_inv root b' ∧
  (left_to_visit root b' < left_to_visit root b ∨
   left_to_visit root b' = left_to_visit root b ∧ length (bf_queue b') < length (bf_queue b)).
Proof.
  intros Hty Hq Hinv Hv. set (b0 := mkBfs (bf_max_host_lvl b) (bf_solutions b) (bf_prev_sol_distance b) (bf_visited b) queue) in *.
  assert (visited_inv root b0) as Hinv0 by done. pose proof (visited_inv_length _ _ Hinv) as Hlen. unfold left_to_visit. rewrite Hq. cbn [length].
  pose proof (visit_visited v router ok i cur b0) as Hc. rewrite Hv in Hc.
  assert (∀ b1 step cur', bf_visited b1 = bf_visited b0 → bf_queue b1 = bf_queue b0 → visited_inv root (explore_adjacent v router i cur' step b1) →
    visited_inv root (explore_adjacent v router i cur' step b1) ∧
    (length (reachable_gnodes root) + length (bf_queue (explore_adjacent v router i cur' step b1)) - length (bf_visited (explore_adjacent v router i cur' step b1)) <
       length (reachable_gnodes root) + S (length queue) - length (bf_visited b))) as Hexp.
  { intros b1 step cur' H1 H2 Hi. split; [done|]. destruct (explore_adjacent_grows v router i cur' step b1) as (news & Hvis & Hque & _).
    pose proof (visited_inv_length _ _ Hi) as Hl1. rewrite Hvis, Hque, H1, H2 in *. cbn [b0 bf_visited bf_queue] in *.
    rewrite !length_app, length_fmap in *. lia. }
  inversion Hc as [|Hb|Hb|cur' step sol Hcut Hres Hle Hb|cur' step sol explore h m Hr Hcut Hres Hle Hb|cur' step explore h m Hr Hcut Hb]; subst b'.
  - split.
    + split; rewrite forget_fmap; [apply NoDup_filter, Hinv|]. intros p [_ Hp]%list_elem_of_filter. by apply Hinv.
    + pose proof (filter_one_length _ (ht_pos (st_visiting_gnode cur)) (proj1 Hinv)) as Hf. rewrite <-(forget_fmap b cur) in Hf.
      rewrite !length_fmap in Hf. cbn [bf_queue bf_visited forget b0] in *. lia.
  - cbn [b0 bf_queue bf_visited]. split; [done|]. left. lia.
  - destruct explore; [|cbn [b0 push_solution bf_queue bf_visited]; split; [done|]; left; lia]. edestruct (Hexp (push_solution b0 sol) step cur') as [? ?]; [done|done| |by split; [|left]].
    by eapply (explore_inv root i cur' step (push_solution b0 sol)).
  - destruct explore; [|cbn [b0 push_solution bf_queue bf_visited]; split; [done|]; left; lia]. edestruct (Hexp b0 step cur') as [? ?]; [done|done| |by split; [|left]].
    by eapply (explore_inv root i cur' step b0).
Qed.

Lemma bfs_loop_ends root ok i b : router_typed router → visited_inv root b → ∃ fuel sols, bfs_loop v router ok fuel i b = Some sols.
Proof.
  intros Hty. remember (left_to_visit root b) as m eqn:Hm. remember (length (bf_queue b)) as q eqn:Hq. revert q i b Hm Hq.
  induction m as [m IHm] using lt_wf_ind. induction q as [q IHq] using lt_wf_ind. intros i b Hm Hq Hinv.
  destruct (bf_queue b) as [|cur queue] eqn:Hb; [exists 0; cbn; rewrite Hb; by eexists|].
  destruct (visit v router ok i cur (mkBfs (bf_max_host_lvl b) (bf_solutions b) (bf_prev_sol_distance b) (bf_visited b) queue)) as [sols|b'] eqn:Hv.
  { exists 1, sols. cbn. by rewrite Hb, Hv. }
  destruct (visit_decreases root ok i cur queue b b' Hty Hb Hinv Hv) as [Hinv' Hdec].
  assert (∃ fuel sols, bfs_loop v router ok fuel (S i) b' = Some sols) as (fuel & sols & Hs).
  { destruct Hdec as [Hlt|[Heq Hlt]].
    - eapply IHm; [|done|done|done]. by rewrite Hm.
    - eapply (IHq (length (bf_queue b'))); [|by rewrite Hm|done|done]. rewrite Hq. by rewrite Hb in Hlt. }
  exists (S fuel), sols. cbn. by rewrite Hb, Hv.
Qed.

Lemma bfs_loop_more ok fuel fuel' i b sols : fuel ≤ fuel' → bfs_loop v router ok fuel i b = Some sols → bfs_loop v router ok fuel' i b = Some sols.
Proof.
  revert fuel' i b. induction fuel as [|fuel IH]; intros fuel' i b Hle; cbn; [destruct fuel'; cbn; by destruct (bf_queue b)|].
  destruct fuel' as [|fuel']; [lia|]. cbn. destruct (bf_queue b); [done|]. destruct (visit _ _ _ _ _ _); [done|]. apply IH. lia.
Qed.
End Ends.

(** ** The solutions *)
Section Solutions.
Context (v : QspnView) (router : SearchRouter) (cap : nat).

(** How a step hangs below its parent: the g-node that migrates out of the
    parent's. *)
Definition link_wf (prev : option HookTuple) (g : HookTuple) : Prop :=
  ∃ border, prev = Some (mkTuple (border :: ht_pos g) ((-1)%Z :: ht_eldership g)).

(** A step that was visited, up to the root. *)
Fixpoint chain_wf (s : SolutionStep) : Prop :=
  match s with
  | mkSolutionStep g prev _ _ par =>
      length (ht_eldership g) = length (ht_pos g) ∧ length (ht_pos g) ≤ cap ∧
      match par with None => prev = None | Some p => chain_wf p ∧ link_wf prev (st_visiting_gnode p) end
  end.

(** A step still in the queue: its tuple is as its neighbours told it. *)
Definition queued_wf (s : SolutionStep) : Prop :=
  length (ht_pos (st_visiting_gnode s)) ≤ cap ∧
  match st_parent s with
  | None => st_previous_migrating_gnode s = None
  | Some p => chain_wf p ∧ link_wf (st_previous_migrating_gnode s) (st_visiting_gnode p)
  end.

Lemma cut_step_wf cur step cur' :
  queued_wf cur → cut_step v cur step cur' →
  chain_wf cur' ∧ length (ht_pos (st_visiting_gnode cur')) = v_levels v - ss_min_host_lvl step ∧ step_distance cur' = step_distance cur.
Proof.
  intros [Hcap Hlink] (Ht & Hp & Hpar & Hlv). apply truncate_to_level_Some in Ht as (H1 & H2 & H3 & Hg).
  assert (length (ht_pos (st_visiting_gnode cur')) = v_levels v - ss_min_host_lvl step) as Hlen by (rewrite Hg; cbn; rewrite length_drop; lia).
  split; [|split; [done|]].
  - destruct cur' as [g' prev' c' e' par'], cur as [g prev c e par]. cbn in *. subst prev' par'.
    split; [rewrite Hg; cbn; rewrite !length_drop; lia|]. split; [lia|done].
  - destruct cur' as [g' prev' c' e' par'], cur as [g prev c e par]. cbn in *. by subst par'.
Qed.

Lemma child_wf cur' step s :
  chain_wf cur' → length (ht_pos (st_visiting_gnode cur')) = v_levels v - ss_min_host_lvl step → ss_min_host_lvl step ≤ v_levels v →
  child_of v cur' step s → queued_wf s ∧ step_distance s = S (step_distance cur').
Proof.
  intros Hwf Hlen Hmin (Hpar & Hlv & Hreal & Hprev). apply tuple_real_spec in Hreal as [Hl _]. unfold tuple_level in Hlv. split.
  - split; [destruct cur' as [g ? ? ? ?]; cbn in *; lia|]. by rewrite Hpar.
  - destruct s as [g prev c e par]. cbn in *. by subst par.
Qed.

Definition sol_wf (sol : MigrationSolution) : Prop :=
  chain_wf (ms_leaf sol) ∧ v_levels v - ms_final_host_lvl sol ≤ length (ht_pos (st_visiting_gnode (ms_leaf sol))) ∧
  ms_final_host_lvl sol ≤ v_levels v.

Lemma resolved_wf cur step cur' sol :
  queued_wf cur → cut_step v cur step cur' → resolved cur' step = Some sol →
  sol_wf sol ∧ ms_final_host_lvl sol = ss_final_host_lvl step ∧ ms_distance sol = step_distance cur.
Proof.
  intros Hq Hcut Hr. destruct (cut_step_wf _ _ _ Hq Hcut) as (Hc & Hlen & Hd). unfold resolved in Hr.
  destruct (ss_real_new_pos step), (ss_real_new_eldership step); simplify_eq. destruct Hcut as (_ & _ & _ & ? & ?).
  split; [|done]. split; [done|]. cbn. rewrite Hlen. lia.
Qed.

(** Later solutions host at a lower level, and are at least as far. *)
Definition improves (a b : MigrationSolution) : Prop :=
  ms_final_host_lvl b < ms_final_host_lvl a ∧ ms_distance a ≤ ms_distance b.

Definition solutions_ok (sols : list MigrationSolution) : Prop := Forall sol_wf sols ∧ StronglySorted improves sols.

(** The queue holds the steps of one distance, then those one farther. *)
Definition queue_layers (queue : list SolutionStep) (d : nat) : Prop :=
  ∃ near far, queue = near ++ far ∧ Forall (λ s, step_distance s = d) near ∧ Forall (λ s, step_distance s = S d) far.

Record search_inv (ok : nat) (b : Bfs) : Prop := {
  si_queue : Forall queued_wf (bf_queue b);
  si_solutions : solutions_ok (bf_solutions b);
  si_levels : Forall (λ s, bf_max_host_lvl b < ms_final_host_lvl s) (bf_solutions b);
  si_ok : bf_solutions b = [] ∨ ok ≤ bf_max_host_lvl b;
  si_layers : ∃ d, queue_layers (bf_queue b) d ∧ Forall (λ s, ms_distance s ≤ d) (bf_solutions b)
}.

Lemma StronglySorted_snoc {A} (R : A → A → Prop) l x : StronglySorted R l → Forall (λ a, R a x) l → StronglySorted R (l ++ [x]).
Proof.
  induction 1 as [|y l Hs IH Hy]; intros Hf; cbn; [by repeat constructor|]. apply Forall_cons in Hf as [Hyx Hf].
  constructor; [by apply IH|]. apply Forall_app. split; [done|]. by constructor.
Qed.

Lemma solutions_ok_snoc sols sol d :
  solutions_ok sols → sol_wf sol → Forall (λ s, ms_final_host_lvl sol < ms_final_host_lvl s) sols → Forall (λ s, ms_distance s ≤ d) sols →
  ms_distance sol = d → solutions_ok (sols ++ [sol]).
Proof.
  intros [Hw Hs] Hsol Hl Hd Hdist. split; [apply Forall_app; split; [done|by constructor]|]. apply StronglySorted_snoc; [done|].
  rewrite Forall_forall in Hl, Hd. apply Forall_forall. intros s Hin. split; [by apply Hl|]. rewrite Hdist. by apply Hd.
Qed.

(** The head of the queue is nearest, and its children go to the far layer. *)
Lemma layers_pop queue cur d :
  queue_layers (cur :: queue) d → ∃ d', d ≤ d' ∧ step_distance cur = d' ∧ queue_layers queue d' ∧
    ∀ news, Forall (λ s, step_distance s = S d') news → queue_layers (queue ++ news) d'.
Proof.
  intros (near & far & Hq & Hn & Hf). destruct near as [|c near]; cbn in Hq.
  - subst far. apply Forall_cons in Hf as [Hc Hf]. exists (S d). split; [lia|]. split; [done|]. split.
    + exists queue, []. by rewrite app_nil_r.
    + intros news Hnews. by exists queue, news.
  - injection Hq as -> ->. apply Forall_cons in Hn as [Hc Hn]. exists d. split; [done|]. split; [done|]. split; [by exists near, far|].
    intros news Hnews. exists near, (far ++ news). rewrite app_assoc. split; [done|]. split; [done|]. apply Forall_app. done.
Qed.

(** Queueing the children of a visited step. *)
Lemma explore_search_inv ok i cur step cur' b d :
  queued_wf cur → cut_step v cur step cur' → step_distance cur = d →
  (∀ news, Forall (λ s, step_distance s = S d) news → queue_layers (bf_queue b ++ news) d) →
  Forall (λ s, ms_distance s ≤ d) (bf_solutions b) → search_inv ok b → search_inv ok (explore_adjacent v router i cur' step b).
Proof.
  intros Hq Hcut Hd Hlay Hsd [H1 H2 H3 H4 _]. destruct (cut_step_wf _ _ _ Hq Hcut) as (Hc & Hlen & Hdist).
  destruct (explore_adjacent_grows v router i cur' step b) as (news & _ & Hque & Hch & _). destruct Hcut as (_ & _ & _ & ? & ?).
  assert (Forall (λ s, queued_wf s ∧ step_distance s = S d) news) as Hn.
  { eapply Forall_impl; [exact Hch|]. intros s Hs. cbn. rewrite <-Hd, <-Hdist. eapply child_wf; [done|done|lia|done]. }
  split; [|done|done|done|].
  - rewrite Hque. apply Forall_app. split; [done|]. eapply Forall_impl; [exact Hn|]. by intros s [? _].
  - exists d. rewrite Hque. split; [|done]. apply Hlay. eapply Forall_impl; [exact Hn|]. by intros s [_ ?].
Qed.

Lemma push_search_inv ok cur step cur' sol b d :
  queued_wf cur → cut_step v cur step cur' → resolved cur' step = Some sol → ok < ss_final_host_lvl step ≤ bf_max_host_lvl b →
  step_distance cur = d → queue_layers (bf_queue b) d → Forall (λ s, ms_distance s ≤ d) (bf_solutions b) → search_inv ok b →
  search_inv ok (push_solution b sol) ∧ Forall (λ s, ms_distance s ≤ d) (bf_solutions (push_solution b sol)).
Proof.
  intros Hq Hcut Hr Hlv Hd Hlay Hsd [H1 H2 H3 H4 _]. destruct (resolved_wf _ _ _ _ Hq Hcut Hr) as (Hw & Hf & Hdist).
  assert (Forall (λ s, ms_final_host_lvl sol < ms_final_host_lvl s) (bf_solutions b)) as Hbelow.
  { eapply Forall_impl; [exact H3|]. cbn. intros s. lia. }
  assert (Forall (λ s, ms_distance s ≤ d) (bf_solutions b ++ [sol])) as Hds.
  { apply Forall_app. split; [done|]. constructor; [lia|constructor]. }
  split; [|done]. split; cbn [push_solution bf_queue bf_solutions bf_max_host_lvl].
  - done.
  - eapply solutions_ok_snoc; [done|done|done|done|lia].
  - apply Forall_app. split; [eapply Forall_impl; [exact Hbelow|]; cbn; intros; lia|]. constructor; [lia|constructor].
  - right. lia.
  - by exists d.
Qed.

Lemma visit_search_inv ok i cur queue b :
  bf_queue b = cur :: queue → search_inv ok b →
  match visit v router ok i cur (mkBfs (bf_max_host_lvl b) (bf_solutions b) (bf_prev_sol_distance b) (bf_visited b) queue) with
  | inl sols => solutions_ok sols
  | inr b' => search_inv ok b'
  end.
Proof.
  intros Hq [H1 H2 H3 H4 (d0 & Hl & Hsd0)]. set (b0 := mkBfs _ _ _ _ queue). rewrite Hq in H1, Hl. apply Forall_cons in H1 as [Hcur H1].
  destruct (layers_pop queue cur d0 Hl) as (d & Hle & Hd & Hlay & Hnews).
  assert (Forall (λ s, ms_distance s ≤ d) (bf_solutions b)) as Hsd by (eapply Forall_impl; [exact Hsd0|]; cbn; intros; lia).
  assert (search_inv ok b0) as Hinv0 by (split; [done..|by exists d]).
  destruct (visit_visited v router ok i cur b0) as [| | |cur' step sol Hcut Hres Hok|cur' step sol explore h m Hr Hcut Hres Hlv|cur' step explore h m Hr Hcut].
  - done.
  - destruct Hinv0. by split.
  - done.
  - destruct (resolved_wf _ _ _ _ Hcur Hcut Hres) as (Hw & Hf & Hdist). eapply solutions_ok_snoc; [done|done| |exact Hsd|lia].
    change (bf_solutions b0) with (bf_solutions b). destruct H4 as [->|H4]; [constructor|]. eapply Forall_impl; [exact H3|]. cbn. intros s. lia.
  - destruct (push_search_inv ok cur step cur' sol b0 d Hcur Hcut Hres Hlv Hd Hlay Hsd Hinv0) as [Hp Hpd]. destruct explore; [|done].
    by eapply explore_search_inv.
  - destruct explore; [|done]. by eapply explore_search_inv.
Qed.

Lemma bfs_loop_solutions ok fuel i b sols : search_inv ok b → bfs_loop v router ok fuel i b = Some sols → solutions_ok sols.
Proof.
  revert i b. induction fuel as [|fuel IH]; intros i b Hinv Hr; cbn in Hr; destruct (bf_queue b) as [|cur queue] eqn:Hq; try done;
    [injection Hr as <-; apply Hinv..|].
  pose proof (visit_search_inv ok i cur queue b Hq Hinv) as Hv. destruct (visit _ _ _ _ _ _); [injection Hr as <-; done|by eapply IH].
Qed.
End Solutions.

Lemma start_search_inv v ok first : search_inv v (v_levels v - first) ok (start_bfs v first).
Proof.
  destruct (length_make_tuple first v) as [Hl _]. split; cbn [start_bfs bf_queue bf_solutions bf_max_host_lvl].
  - constructor; [|constructor]. split; [cbn [st_visiting_gnode]; rewrite Hl; lia|done].
  - split; constructor.
  - constructor.
  - by left.
  - exists 0. split; [|constructor]. exists [mkSolutionStep (make_tuple_from_level first v) None None None None], [].
    split; [done|]. split; [by repeat constructor|constructor].
Qed.

Lemma find_shortest_mig_ends v router first ok : router_typed router → ∃ fuel sols, find_shortest_mig v router first ok fuel = Some sols.
Proof.
  intros Hty. unfold find_shortest_mig. set (f := first `max` _). apply (bfs_loop_ends v router (make_tuple_from_level f v)); [done|].
  split; cbn [start_bfs bf_visited fmap list_fmap]; [apply NoDup_singleton|]. intros p Hp%list_elem_of_singleton. subst p. by left.
Qed.

Lemma find_shortest_mig_solutions v router first ok fuel sols :
  find_shortest_mig v router first ok fuel = Some sols → solutions_ok v (v_levels v - first `max` S (v_subnetlevel v)) sols.
Proof. unfold find_shortest_mig. intros H. eapply bfs_loop_solutions; [|exact H]. apply start_search_inv. Qed.

(** ** The migration chain *)
Lemma SolutionStep_chain_ind (P : SolutionStep → Prop) :
  (∀ g prev c e, P (mkSolutionStep g prev c e None)) →
  (∀ g prev c e par, P par → P (mkSolutionStep g prev c e (Some par))) → ∀ s, P s.
Proof. intros H0 H1. fix IH 1. intros [g prev c e [par|]]; [apply H1, IH|apply H0]. Qed.

(** The address a packet moves its g-node to. *)
Definition moves_to (p : RequestPacket) : list Z := rp_real_new_pos p :: ht_pos (rp_host_gnode p).

(** Packets, the farthest first, each of which moves its g-node to the address
    the one before left: the first one takes [free], the last one leaves
    [vacated]. *)
Fixpoint shifts (free : list Z) (packets : list RequestPacket) (vacated : list Z) : Prop :=
  match packets with
  | [] => free = vacated
  | p :: rest => moves_to p = free ∧ shifts (ht_pos (rp_dest p)) rest vacated
  end.

(** Positions that fit the signed fields of a packet. *)
Definition fits_i32 (p : Z) : Prop := (0 ≤ p < 2 ^ 31)%Z.

Fixpoint borders_fit (s : SolutionStep) : Prop :=
  match s with
  | mkSolutionStep _ prev _ _ par =>
      match prev with Some t => ∀ p, head (ht_pos t) = Some p → fits_i32 p | None => True end ∧
      match par with Some p => borders_fit p | None => True end
  end.

Lemma as_i32_fits p : fits_i32 p → as_i32 p = p.
Proof. unfold fits_i32, as_i32. intros. rewrite Z.mod_small; lia. Qed.

(** The finishing packet of a hop: to whom, and for which migration. *)
Definition packet_for (m : MigData) (p : RequestPacket) : Prop :=
  rp_dest p = mg_mig_gnode m ∧ rp_migration_id p = mg_migration_id m ∧ rp_operation p = FinishMigration.

Section Chain.
Context (v : QspnView) (cap : nat) (ids : nat → Z).

(** The hops nearer than the farthest. *)
Lemma near_hops_shift {E} sol (ss ss' : SolutionStep) t i migs next :
  chain_wf cap ss → st_parent ss' = Some ss → st_previous_migrating_gnode ss' = Some t → link_wf (Some t) (st_visiting_gnode ss) →
  ∃ L F root second pv,
    get_migs_loop (E := E) sol (v_levels v) ids i false (Some ss') ss migs = Ok (rev L ++ migs) ∧ length L = step_distance ss ∧
    finish_packets (E := E) L (Some next) = Ok F ∧ Forall2 packet_for L F ∧
    (borders_fit ss → (∀ p, head (ht_pos t) = Some p → fits_i32 p) → shifts (ht_pos t) F (ht_pos pv)) ∧
    root_and_second ss' = Some (root, second) ∧ st_previous_migrating_gnode second = Some pv ∧
    link_wf (Some pv) (st_visiting_gnode root).
Proof.
  revert ss' t i migs next. induction ss as [g prev c e|g prev c e par IH] using SolutionStep_chain_ind; intros ss' t i migs next Hwf Hpar Hprev Hlink.
  - exists [], [], (mkSolutionStep g prev c e None), ss', t. cbn. split; [done|]. split; [done|]. split; [done|]. split; [constructor|]. split; [done|].
    split; [|done]. destruct ss' as [g' prev' c' e' par']. cbn in *. by subst par'.
  - cbn in Hwf. destruct Hwf as (_ & _ & Hwf & Hl). pose proof Hl as [border Hb]. subst prev.
    destruct (IH (mkSolutionStep g (Some (mkTuple (border :: ht_pos (st_visiting_gnode par)) ((-1)%Z :: ht_eldership (st_visiting_gnode par)))) c e (Some par)) _ (S i)
      (mkMigData (ids i) (mkTuple (border :: ht_pos (st_visiting_gnode par)) ((-1)%Z :: ht_eldership (st_visiting_gnode par)))
         (match c with Some p => as_i32 p | None => (-1)%Z end) (default (-1)%Z e) g (head (ht_pos t)) None None :: migs)
      (mkMigData (ids i) (mkTuple (border :: ht_pos (st_visiting_gnode par)) ((-1)%Z :: ht_eldership (st_visiting_gnode par)))
         (match c with Some p => as_i32 p | None => (-1)%Z end) (default (-1)%Z e) g (head (ht_pos t)) None None)
      Hwf eq_refl eq_refl Hl) as (L & F & root & second & pv & H1 & H2 & H3 & H4 & H5 & H6 & H7 & H8).
    destruct Hlink as [b Hbt]. injection Hbt as ->. cbn [ht_pos head] in *.
    eexists (_ :: L), (_ :: F), root, second, pv. cbn [get_migs_loop expect mbind res_bind option_bind]. rewrite Hprev. cbn [mbind option_bind ht_pos head].
    split; [rewrite H1; cbn [rev]; by rewrite <-app_assoc|]. split; [cbn; by rewrite H2|].
    cbn [finish_packets build_request_packet_finish mg_mig_gnode_new_pos mbind res_bind]. rewrite H3. cbn [mbind res_bind]. split; [done|].
    split; [by constructor|]. split.
    { intros [Hs Hfit] Hsmall. cbn. split; [|by apply H5]. unfold moves_to. cbn. by rewrite as_i32_fits by (by apply Hsmall). }
    split; [|done]. destruct ss' as [g' prev' c' e' par']. cbn in Hpar. subst par'. cbn. done.
Qed.

Lemma final_host_gnode_truncates {E} g levels f :
  length (ht_eldership g) = length (ht_pos g) → f ≤ levels → levels - f ≤ length (ht_pos g) →
  ∃ h, final_host_gnode (E := E) g levels f = Ok h ∧ truncate_to_level g f levels = Some h ∧ length (ht_pos h) = levels - f.
Proof.
  intros Hl Hf Hn. eexists. split; [|split; [apply truncate_to_level_Some; repeat split; [done..|by cbn]|cbn; rewrite length_drop; lia]].
  unfold final_host_gnode, drain_front. rewrite !(proj2 (Nat.ltb_ge _ _)) by lia. done.
Qed.

(** All the hops, the farthest first. *)
Lemma hops_shift {E} sol :
  sol_wf v cap sol → 0 < ms_distance sol →
  ∃ L F host root second pv,
    get_migs (E := E) sol (v_levels v) ids = Ok (rev L) ∧ length L = ms_distance sol ∧
    finish_packets (E := E) L None = Ok F ∧ Forall2 packet_for L F ∧ cleanup_target sol (v_levels v) = Some host ∧
    (borders_fit (ms_leaf sol) → fits_i32 (ms_real_new_pos sol) → shifts (ms_real_new_pos sol :: ht_pos host) F (ht_pos pv)) ∧
    root_and_second (ms_leaf sol) = Some (root, second) ∧ st_previous_migrating_gnode second = Some pv ∧
    link_wf (Some pv) (st_visiting_gnode root).
Proof.
  unfold get_migs, cleanup_target, ms_distance, sol_wf. destruct sol as [[g prev c e [par|]] final pos eld];
    cbn [ms_leaf ms_final_host_lvl ms_real_new_pos st_visiting_gnode st_parent]; [|cbn; lia].
  intros (Hwf & Hlen & Hfin) _. cbn in Hwf. destruct Hwf as (Hel & Hcap & Hpar & Hlink).
  pose proof Hlink as [b ->].
  destruct (final_host_gnode_truncates (E := E) g (v_levels v) final Hel Hfin Hlen) as (host & Hhost & Htrunc & _).
  set (t := mkTuple (b :: ht_pos (st_visiting_gnode par)) ((-1)%Z :: ht_eldership (st_visiting_gnode par))) in *.
  set (leaf := mkSolutionStep g (Some t) c e (Some par)).
  set (m0 := mkMigData (ids 0) t (match c with Some p => as_i32 p | None => (-1)%Z end) (default (-1)%Z e) host None (Some pos) (Some eld)).
  destruct (near_hops_shift (E := E) (mkSolution leaf final pos eld) par leaf t 1 [m0] m0 Hpar eq_refl eq_refl Hlink)
    as (L & F & root & second & pv & H1 & H2 & H3 & H4 & H5 & H6 & H7 & H8).
  eexists (m0 :: L), (_ :: F), host, root, second, pv. rewrite bool_decide_eq_true_2 by (by eexists). cbn [assert mbind res_bind].
  split.
  { unfold leaf at 2. cbn [get_migs_loop ms_final_host_lvl ms_real_new_pos ms_real_new_eldership]. rewrite Hhost.
    cbn [mbind res_bind expect option_bind]. fold leaf m0. by rewrite H1. }
  split; [cbn; by rewrite H2|]. cbn [finish_packets build_request_packet_finish mg_final_mig_gnode_new_pos mg_final_mig_gnode_new_eldership m0 expect mbind res_bind].
  fold m0. rewrite H3. cbn [mbind res_bind fst snd]. split; [done|]. split; [by constructor|]. split; [done|]. split; [|done].
  intros [Hsm Hfit] Hpos. cbn [shifts]. split; [|by apply H5]. unfold moves_to, i32_or_minus_one. cbn. by rewrite (proj2 (Z.ltb_lt _ _)) by apply Hpos.
Qed.

Lemma root_chain_wf s root second : chain_wf cap s → root_and_second s = Some (root, second) → length (ht_pos (st_visiting_gnode root)) ≤ cap.
Proof.
  induction s as [|g prev c e par IH] using SolutionStep_chain_ind; [done|]. cbn. intros (_ & _ & Hp & _).
  destruct (st_parent par) eqn:He; [by apply IH|]. intros [= <- <-]. destruct par. cbn in Hp. apply Hp.
Qed.

(** The packets of a solution. *)
Lemma migration_packets {E} sol :
  sol_wf v cap sol → 0 < ms_distance sol →
  ∃ prepares finishes entry host,
    (migs ← get_migs (E := E) sol (v_levels v) ids; mig_packets migs) = Ok (prepares ++ finishes) ∧
    Forall (λ p, rp_operation p = PrepareMigration) prepares ∧ Forall (λ p, rp_operation p = FinishMigration) finishes ∧
    ((λ p, (rp_dest p, rp_migration_id p)) <$> prepares) = ((λ p, (rp_dest p, rp_migration_id p)) <$> finishes) ∧
    length finishes = ms_distance sol ∧ cleanup_target sol (v_levels v) = Some host ∧
    resolve_entry_data (E := E) sol v = Ok entry ∧ length (ed_pos entry) ≤ S cap ∧ ed_network_id entry = v_network_id v ∧
    (borders_fit (ms_leaf sol) → fits_i32 (ms_real_new_pos sol) → shifts (ms_real_new_pos sol :: ht_pos host) finishes (ed_pos entry)).
Proof.
  intros Hwf Hd. destruct (hops_shift (E := E) sol Hwf Hd) as (L & F & host & root & second & pv & H1 & H2 & H3 & H4 & H5 & H6 & H7 & H8 & H9).
  destruct H9 as [b Hpv]. injection Hpv as ->.
  eexists (build_request_packet_prepare <$> L), F, _, host. rewrite H1. cbn [mbind res_bind]. unfold mig_packets.
  assert (is_Some (last (rev L))) as [x Hx] by (apply last_is_Some; intros Hn; apply (f_equal length) in Hn; rewrite length_rev in Hn; cbn in Hn; lia).
  rewrite Hx. cbn [expect mbind res_bind]. rewrite rev_involutive, H3. cbn [mbind res_bind]. split; [done|]. split; [|split; [|split; [|split; [|split; [done|]]]]].
  - apply Forall_fmap, Forall_true. done.
  - eapply Forall2_Forall_r; [exact H4|]. apply Forall_true. by intros m p (_ & _ & ?).
  - rewrite <-list_fmap_compose. clear -H4. induction H4 as [|m p L F (H1 & H2 & _) _ IH]; [done|]. cbn. rewrite H1, H2. f_equal. apply IH.
  - rewrite <-H2. symmetry. by apply Forall2_length in H4.
  - unfold resolve_entry_data. rewrite (proj2 (Nat.eqb_neq _ _)) by lia. rewrite H7. cbn [expect mbind res_bind fst snd]. rewrite H8.
    cbn [expect mbind res_bind ht_pos lookup list_lookup]. split; [done|]. cbn [ed_pos ed_network_id length]. split; [|done].
    apply root_chain_wf in H7; [lia|apply Hwf].
Qed.
End Chain.

(** ** The server's handler *)

(** The reservations the actions release. *)
Definition released (actions : list SearchAction) : list HookTuple :=
  omap (λ a, match a with DeleteReserve g _ => Some g | SendMig _ => None end) actions.

Lemma cleanup_target_wf v cap sol : sol_wf v cap sol → is_Some (cleanup_target sol (v_levels v)).
Proof.
  destruct sol as [[g ? ? ? ?] final p e]. unfold sol_wf, cleanup_target. cbn. intros ((He & _) & Hl & Hf). eexists.
  apply truncate_to_level_Some. repeat split; [done..|by cbn].
Qed.

Lemma resolve_direct v cap sol :
  sol_wf v cap sol → ms_distance sol = 0 →
  ∃ entry, resolve_entry_data (E := HookingServerError) sol v = Ok entry ∧ length (ed_pos entry) ≤ S cap ∧ ed_network_id entry = v_network_id v.
Proof.
  intros (Hwf & Hl & Hf) Hd. unfold resolve_entry_data. rewrite Hd. eexists. split; [done|]. cbn. rewrite length_fmap, length_seq. split; [|done].
  destruct (ms_leaf sol). cbn in Hwf, Hl. lia.
Qed.

Section Conclude.
Context (v : QspnView) (rid : Z) (ids : nat → Z) (answers : nat → bool).

Definition release_of (s : MigrationSolution) : list SearchAction :=
  option_list ((λ t, DeleteReserve t rid) <$> cleanup_target s (v_levels v)).

Lemma released_app l1 l2 : released (l1 ++ l2) = released l1 ++ released l2.
Proof. apply omap_app. Qed.

Lemma released_sends l : released (SendMig <$> l) = [].
Proof. induction l; [done|]. cbn. done. Qed.

Lemma released_rejected cap sols :
  Forall (sol_wf v cap) sols → Some <$> released (sols ≫= release_of) = (λ s, cleanup_target s (v_levels v)) <$> sols.
Proof.
  induction 1 as [|s sols Hs _ IH]; [done|]. cbn [mbind list_bind]. rewrite released_app, fmap_app, fmap_cons. rewrite <-IH.
  unfold release_of. destruct (cleanup_target_wf v cap s Hs) as [t ->]. done.
Qed.

(** The conclusion of a search: an entry into this network below the level asked
    for, or one of the two errors; and every solution that is not used is
    released. *)
Definition concluded (cap : nat) (sols : list MigrationSolution) (r : list SearchAction * res HookingServerError EntryData) : Prop :=
  match r.2 with
  | Ok entry => sols ≠ [] ∧ 0 < length (ed_pos entry) ≤ S cap ∧ ed_network_id entry = v_network_id v ∧
      Some <$> released r.1 = (λ s, cleanup_target s (v_levels v)) <$> removelast sols
  | Err e => (e = NoMigrationPathFound ∧ sols = [] ∨ e = MigrationPathExecuteFailure ∧ sols ≠ []) ∧
      Some <$> released r.1 = (λ s, cleanup_target s (v_levels v)) <$> sols
  | Panic => False
  end.

Lemma entry_nonempty sol entry : resolve_entry_data (E := HookingServerError) sol v = Ok entry → 0 < length (ed_pos entry).
Proof. unfold resolve_entry_data. destruct (_ =? 0); intros H; [injection H as <-|res_inv]; cbn; lia. Qed.

Lemma conclude_search_ok cap sols :
  Forall (sol_wf v cap) sols → concluded cap sols (conclude_search v rid ids answers sols).
Proof.
  intros Hwf. unfold conclude_search. destruct (last sols) as [sol|] eqn:Hl; [|apply last_None in Hl; subst sols; cbn; tauto].
  apply last_Some in Hl as [init ->]. rewrite removelast_last. apply Forall_app in Hwf as [Hi Hs]. apply (proj1 (Forall_singleton _ _)) in Hs.
  fold release_of. assert (init ++ [sol] ≠ []) as Hne by (by destruct init).
  assert (Some <$> released (init ≫= release_of) = (λ s, cleanup_target s (v_levels v)) <$> init) as Hrej by (by eapply released_rejected).
  destruct (Nat.ltb_spec 0 (ms_distance sol)) as [Hd|Hd].
  - destruct (migration_packets v cap ids (E := HookingServerError) sol Hs Hd) as (ps & fs & entry & host & Hp & _ & _ & _ & _ & Hh & He & Hlen & Hnet & _).
    unfold execute_shortest_mig. apply bind_Ok in Hp as (migs & -> & Hp). cbn [mbind res_bind]. rewrite Hp. cbn [mbind res_bind].
    destruct (send_until answers 0 (ps ++ fs)) as [sent []]; unfold concluded; cbn [fst snd].
    + rewrite He. cbn [snd]. split; [done|]. split; [split; [by eapply entry_nonempty|done]|]. split; [done|].
      by rewrite removelast_last, released_app, released_sends, app_nil_r.
    + split; [by right|]. rewrite !released_app, released_sends, !fmap_app, Hrej. f_equal. unfold release_of. cbn. by rewrite Hh.
  - destruct (resolve_direct v cap sol Hs ltac:(lia)) as (entry & He & Hlen & Hnet). unfold concluded. cbn [fst snd]. rewrite He.
    split; [done|]. split; [split; [by eapply entry_nonempty|done]|]. split; [done|]. by rewrite removelast_last.
Qed.
End Conclude.

(** ** Properties *)

(** C19: the search for a migration path always ends, whatever the g-nodes answer
    and however often they change their answers, and its solutions improve: each
    one hosts at a strictly lower level than the one before and is at least as
    far, so that the best of them is the last. *)
Theorem migration_search_ends (v : QspnView) (router : SearchRouter) (first_host_lvl ok_host_lvl : nat) :
  router_typed router →
  ∃ fuel sols, (∀ fuel', fuel ≤ fuel' → find_shortest_mig v router first_host_lvl ok_host_lvl fuel' = Some sols) ∧
    StronglySorted improves sols ∧ Forall (λ s, ms_final_host_lvl s ≤ v_levels v) sols.
Proof.
  intros Hty. destruct (find_shortest_mig_ends v router first_host_lvl ok_host_lvl Hty) as (fuel & sols & Hf). exists fuel, sols. split.
  - intros fuel' Hle. unfold find_shortest_mig in *. by eapply bfs_loop_more.
  - destruct (find_shortest_mig_solutions _ _ _ _ _ _ Hf) as [Hw Hs]. split; [done|]. eapply Forall_impl; [exact Hw|]. by intros s (_ & _ & ?).
Qed.

(** A migration path is a chain of moves into vacated addresses.  For every
    solution with a path, the packets first prepare and then finish the same
    migrations, the farthest first; the farthest g-node moves to the free address
    that was reserved, every other one to the address the next one leaves, and
    the address the nearest one leaves is the one the guest is given. *)
Theorem migration_chain_shifts (v : QspnView) (router : SearchRouter) (first_host_lvl ok_host_lvl fuel : nat) (ids : nat → Z)
    (sols : list MigrationSolution) (sol : MigrationSolution) :
  find_shortest_mig v router first_host_lvl ok_host_lvl fuel = Some sols → sol ∈ sols → 0 < ms_distance sol →
  borders_fit (ms_leaf sol) → fits_i32 (ms_real_new_pos sol) →
  ∃ prepares finishes entry host,
    (migs ← get_migs (E := HookingServerError) sol (v_levels v) ids; mig_packets migs) = Ok (prepares ++ finishes) ∧
    Forall (λ p, rp_operation p = PrepareMigration) prepares ∧ Forall (λ p, rp_operation p = FinishMigration) finishes ∧
    ((λ p, (rp_dest p, rp_migration_id p)) <$> prepares) = ((λ p, (rp_dest p, rp_migration_id p)) <$> finishes) ∧
    length finishes = ms_distance sol ∧ cleanup_target sol (v_levels v) = Some host ∧
    resolve_entry_data (E := HookingServerError) sol v = Ok entry ∧
    shifts (ms_real_new_pos sol :: ht_pos host) finishes (ed_pos entry).
Proof.
  intros Hf Hin Hd Hfit Hpos. destruct (find_shortest_mig_solutions _ _ _ _ _ _ Hf) as [Hw _]. rewrite Forall_forall in Hw.
  destruct (migration_packets v _ ids (E := HookingServerError) sol (Hw _ Hin) Hd) as (ps & fs & entry & host & H1 & H2 & H3 & H4 & H5 & H6 & H7 & _ & _ & H8).
  exists ps, fs, entry, host. by repeat (split; [done|]); apply H8.
Qed.

(** The handler of a search request neither panics nor hangs nor keeps what
    it does not use: it ends, answers with an entry into this network at the
    level asked for or with one of its two errors, and releases the reservation
    of every solution but the one it hands out (all of them, when it fails). *)
Theorem search_migration_path_total (v : QspnView) (router : SearchRouter) (lvl : nat) (rid : Z) (ids : nat → Z) (answers : nat → bool) :
  router_typed router → v_is_bootstrapped v = true → lvl < v_levels v →
  ∃ fuel sols r, (∀ fuel', fuel ≤ fuel' → search_migration_path v router lvl rid ids answers None fuel' = Some r) ∧
    concluded v (v_levels v - S lvl) sols r.
Proof.
  intros Hty Hb Hlvl. destruct (find_shortest_mig_ends v router (S lvl) (lvl + v_epsilon v lvl) Hty) as (fuel & sols & Hf).
  exists fuel, sols, (conclude_search v rid ids answers sols). split.
  - intros fuel' Hle. unfold search_migration_path. rewrite Hb. rewrite (proj2 (Nat.leb_gt _ _)) by done. cbn [negb].
    unfold find_shortest_mig in *. rewrite (bfs_loop_more _ _ _ _ _ _ _ _ Hle Hf). done.
  - apply conclude_search_ok. destruct (find_shortest_mig_solutions _ _ _ _ _ _ Hf) as [Hw _]. eapply Forall_impl; [exact Hw|].
    intros s (Hc & Hl & Hfin). split; [|done]. clear -Hc. induction (ms_leaf s) as [g prev c e|g prev c e par IH] using SolutionStep_chain_ind; cbn in *;
      destruct Hc as (? & ? & Hp); (split; [done|]); (split; [lia|]); [done|]. destruct Hp as [Hp ?]. split; [by apply IH|done].
Qed.

(** A saturated network hides its free places.  When the root g-node is full
    and no level above it has a real position either, which is when a migration
    path is needed, [execute_search] reports a host level above the hierarchy;
    the search discards that answer together with the adjacent g-nodes it lists,
    and finds nothing, whatever free position they have. *)
Theorem saturated_root_hides_neighbours (v : QspnView) (router : SearchRouter) (reserve : nat → option Reservation)
    (first_host_lvl ok_host_lvl fuel : nat) (r : SearchStepResult) :
  let root := make_tuple_from_level (first_host_lvl `max` S (v_subnetlevel v)) v in
  execute_search v reserve root (v_levels v) = Some r → ss_real_new_pos r = None →
  (∀ hops, rt_search router 0 hops (v_levels v) = Some r) →
  find_shortest_mig v router first_host_lvl ok_host_lvl (S fuel) = Some [].
Proof.
  intros root Hs Hnone Hr. apply execute_search_ok in Hs as (_ & (H1 & _ & H3 & _ & H5 & _) & _). rewrite Hnone in H5.
  assert (ss_final_host_lvl r = S (v_levels v)) as Hfin by (destruct (ss_real_new_eldership r); [done|lia]).
  unfold find_shortest_mig, start_bfs. fold root. cbn [bfs_loop bf_queue bf_max_host_lvl bf_solutions bf_prev_sol_distance bf_visited].
  unfold visit. cbn [too_far bf_prev_sol_distance bf_max_host_lvl]. rewrite Hr. rewrite Hfin.
  rewrite (proj2 (Nat.ltb_lt (v_levels v) (S (v_levels v)))), orb_true_r by lia. cbn. by destruct fuel.
Qed.

(** ** Examples

    A topology of two levels with two places each.  The node is [0; 0]; its
    g-node is full, a new g-node could be made above it, and the adjacent g-node
    has a free place 0. *)
Definition view_two : QspnView :=
  mkView (mkTopology [2; 2]%Z) 7 4 (λ _, 0%Z) (λ _, 0%Z) 0 (λ _, 1) (λ _ _, 0%Z) (λ _ _, []) true.

Definition router_two : SearchRouter :=
  mkRouter (λ _ hops _,
      match (λ h, ht_pos (ph_visiting_gnode h)) <$> last hops with
      | Some [0%Z] => Some (mkStepResult 1 2 (Some 1%Z) (Some 9%Z) [mkPair (mkTuple [1]%Z [0]%Z) 1] (Some 2%Z) (Some 5%Z))
      | Some [1%Z] => Some (mkStepResult 1 1 (Some 0%Z) (Some 3%Z) [] None None)
      | _ => None
      end)
    (λ _ _ _ _, None).

Lemma router_two_typed : router_typed router_two.
Proof.
  split; [|done]. intros i h m r. cbn. destruct (last h) as [[[pos ?] ?]|]; cbn; [|done]. destruct pos as [|[|[| |]|] [|]]; try done; intros [= <-]; cbn.
  - constructor; [|constructor]. unfold unsigned_gnode. cbn. constructor; [lia|constructor].
  - constructor.
Qed.

Definition solutions_two : list MigrationSolution := default [] (find_shortest_mig view_two router_two 1 1 10).

Lemma migration_search_ends_witness :
  (ms_final_host_lvl <$> solutions_two) = [2; 1] ∧ (ms_distance <$> solutions_two) = [0; 1] ∧
  ∃ fuel sols, find_shortest_mig view_two router_two 1 1 fuel = Some sols ∧ StronglySorted improves sols.
Proof.
  split; [vm_compute; reflexivity|]. split; [vm_compute; reflexivity|].
  destruct (migration_search_ends view_two router_two 1 1 router_two_typed) as (fuel & sols & Hf & Hs & _).
  exists fuel, sols. split; [by apply Hf|done].
Defined.

Definition best_two : MigrationSolution :=
  default (mkSolution (mkSolutionStep tuple_default None None None None) 0 0 0) (last solutions_two).

Lemma migration_chain_shifts_witness :
  ∃ prepares finishes entry host,
    (migs ← get_migs (E := HookingServerError) best_two 2 (λ i, Z.of_nat i); mig_packets migs) = Ok (prepares ++ finishes) ∧
    cleanup_target best_two 2 = Some host ∧ resolve_entry_data (E := HookingServerError) best_two view_two = Ok entry ∧
    shifts (0%Z :: ht_pos host) finishes (ed_pos entry) ∧ ed_pos entry = [1; 0]%Z ∧ length finishes = 1.
Proof.
  destruct (migration_chain_shifts view_two router_two 1 1 10 (λ i, Z.of_nat i) solutions_two best_two) as (ps & fs & e & h & H1 & _ & _ & _ & H5 & H6 & H7 & H8).
  - vm_compute. reflexivity.
  - vm_compute. right. left.
  - vm_compute. lia.
  - assert (ms_leaf best_two = mkSolutionStep (mkTuple [1]%Z [0]%Z) (Some (mkTuple [1; 0]%Z [-1; 0]%Z)) (Some 2%Z) (Some 5%Z)
      (Some (mkSolutionStep (mkTuple [0]%Z [0]%Z) None None None None))) as -> by (vm_compute; reflexivity).
    cbn. split; [|done]. intros p [= <-]. unfold fits_i32. lia.
  - assert (ms_real_new_pos best_two = 0%Z) as -> by (vm_compute; reflexivity). unfold fits_i32. lia.
  - exists ps, fs, e, h. split; [exact H1|]. split; [exact H6|]. split; [exact H7|]. split; [exact H8|]. split; [|exact H5].
    vm_compute in H7. by injection H7 as <-.
Defined.

Lemma search_migration_path_total_witness :
  (search_migration_path view_two router_two 0 42 (λ i, Z.of_nat i) (λ _, true) None 10 ≫= λ r, Some (released r.1, r.2)) =
    Some ([mkTuple [] []], Ok (mkEntryData 7 [1; 0]%Z [5; 0]%Z)) ∧
  ∃ fuel sols r, search_migration_path view_two router_two 0 42 (λ i, Z.of_nat i) (λ _, true) None fuel = Some r ∧ concluded view_two 1 sols r.
Proof.
  split; [vm_compute; reflexivity|].
  destruct (search_migration_path_total view_two router_two 0 42 (λ i, Z.of_nat i) (λ _, true)) as (fuel & sols & r & Hr & Hc).
  - apply router_two_typed.
  - reflexivity.
  - vm_compute. lia.
  - exists fuel, sols, r. split; [by apply Hr|exact Hc].
Defined.

(** The same network without the place above: the adjacent g-node still has a
    free place, and is never asked. *)
Definition reserve_full (lvl : nat) : option Reservation := Some (mkReservation 2 0).
Definition view_full : QspnView :=
  mkView (mkTopology [2; 2]%Z) 7 4 (λ _, 0%Z) (λ _, 0%Z) 0 (λ _, 1) (λ _ _, 0%Z)
    (λ l _, if l =? 1 then [mkAdjacent (mkHCoord 1 1) 1] else []) true.
Definition router_full : SearchRouter :=
  mkRouter (λ i hops max,
      match i with
      | 0 => execute_search view_full reserve_full (mkTuple [0]%Z [0]%Z) max
      | _ => Some (mkStepResult 1 1 (Some 0%Z) (Some 3%Z) [] None None)
      end)
    (λ _ _ _ _, None).

Lemma saturated_root_hides_neighbours_witness :
  find_shortest_mig view_full router_full 1 1 10 = Some [] ∧
  (ss_set_adjacent <$> rt_search router_full 0 [] 2) = Some [mkPair (mkTuple [1]%Z [0]%Z) 1].
Proof.
  split; [|vm_compute; reflexivity].
  apply (saturated_root_hides_neighbours view_full router_full reserve_full 1 1 9
    (mkStepResult 1 3 None None [mkPair (mkTuple [1]%Z [0]%Z) 1] (Some 2%Z) (Some 0%Z))); vm_compute; reflexivity.
Defined.
