(* ===== verification/HookArc.v ===== *)
(** * Hooking: the arc handler and the actor

    Models [crates/ntk-hooking/src]: [arc.rs] (the per-arc protocol), [manager.rs]
    (the actor's state and commands), [snapshot.rs], [events.rs] and the errors of
    [coordinator.rs].

    The handler of an arc is a state machine.  A control point is an [await]: it
    holds the local variables that are live there, the guards included, and
    [arc_step] takes it, with the answer that arrives, to the next one, together
    with the actions in between, in order.  The view is read anew at every step,
    as it may change while the handler waits.  A task may be aborted at any control
    point; its guards are then dropped. *)
From S2P Require Import Prelude Addressing HookDomain.

(** ** Phases and events (snapshot.rs, events.rs) *)
Inductive ArcPhase :=
  | Discovering | SameNetworkPhase | IncompatibleTopology | Connectivity | Waiting | Evaluating
  | Entering (ask_lvl : nat) | Entered (ask_lvl : nat) | FailedPhase.

Inductive HookingEvent :=
  | FailingArc (arc : Z)
  | SameNetwork (arc : Z)
  | AnotherNetwork (arc : Z) (network_id : Z)
  | DoPrepareEnter (enter_id : Z)
  | DoFinishEnter (guest_gnode_level : nat) (data : FinishEnterData)
  | DoPrepareMigration (migration_id : Z)
  | DoFinishMigration (guest_gnode_level : nat) (data : FinishMigrationData).

(** ** Errors (coordinator.rs; the domains of a remote error the handler tells
    apart) *)
Inductive CoordinatorError := Unreachable | AskAgain | IgnoreNetwork | AlreadyEntering | NoCoordinatorForLevel.
Inductive RpcFailure :=
  | RemoteNotBootstrapped | RemoteNotPrincipal | RemoteNoMigrationPath | RemoteExecuteFailure | RpcTimeout | OtherFailure.

Record MergeArbitrationRequest := mkMergeRequest { mr_my_network_id : Z; mr_neighbor_network_id : Z; mr_neighbor_n_nodes : Z }.

Definition EVALUATE_ENTER_UNREACHABLE_RETRIES : nat := 5.
Definition MAX_EXEC_FAILURES : nat := 4.
Definition ASK_AGAIN_MAX_DOUBLINGS : nat := 4.

(** [Duration::saturating_mul] saturates far above [cap]. *)
Definition ask_again_backoff (base cap : Z) (streak : nat) : Z := Z.min (base * 2 ^ Z.of_nat (streak `min` ASK_AGAIN_MAX_DOUBLINGS)) cap.

Definition i_am_real (v : QspnView) : bool :=
  all (λ i, (v_my_pos v i <? default 0 (topology_gsize (v_topology v) i))%Z) (seq 0 (v_levels v)).

(** ** Actions *)
Inductive ArcAction :=
  | SetPhase (p : ArcPhase)
  | Emit (e : HookingEvent)
  | NoteSameNetwork (level : nat) (pos : Z)
  | NoteForeign (level : nat) (pos : Z)
  | RetrieveNetworkData (ask_coord : bool)
  | DecideMerge (req : MergeArbitrationRequest)
  | TryBeginCommit
  | EndCommit
  | EvaluateEnter (req : EvaluateEnterRequest)
  | BeginEnter (lvl : nat)
  | SearchMigrationPath (lvl : nat)
  | AbortEnter (lvl : nat)
  | CompletedEnter (lvl : nat)
  | DetachedAbort (lvl : nat)
  | PrepareEnter (lvl : nat) (enter_id : Z)
  | FinishEnter (lvl : nat) (data : FinishEnterData)
  | SleepFor (d : Z)
  | MarkEntered (ask_lvl : nat) (entry : EntryData).

(** ** Control points *)

(** [EnterGuard]: the level it holds, and whether that was released. *)
Record EnterGuard := mkGuard { eg_level : nat; eg_resolved : bool }.

(** What is live inside the loop ['begin]. *)
Record EnterCtx := mkEnterCtx {
  ec_data : NetworkData;
  ec_guard : EnterGuard;
  ec_ask_lvl : nat;
  ec_exec_failures : nat
}.

(** Why [abort_enter] was called. *)
Inductive AbortReason := NoPath | ExecFailure | TargetChanged | AlreadyThere.

Inductive Pc :=
  | PcStart
  | PcDiscover
  | PcDiscoverSleep
  | PcAskCoord (nd : NetworkData)
  | PcDecideMerge (nd : NetworkData)
  | PcRejectSleep
  | PcBeginCommit (nd : NetworkData)
  | PcEvaluate (nd : NetworkData) (req : EvaluateEnterRequest) (retries streak : nat)
  | PcEvaluateSleep (nd : NetworkData) (req : EvaluateEnterRequest) (retries streak : nat)
  | PcRestartSleep (guard : option EnterGuard)
  | PcBeginEnter (c : EnterCtx)
  | PcSearch (c : EnterCtx)
  | PcAbort (c : EnterCtx) (why : AbortReason)
  | PcExecSleep (c : EnterCtx)
  | PcComplete (c : EnterCtx) (entry : EntryData)
  | PcPrepare (c : EnterCtx) (entry : EntryData) (enter_id : Z)
  | PcFinish (c : EnterCtx) (entry : EntryData)
  | PcDone.

(** What arrives at a control point. *)
Inductive Answer :=
  | AnsStarted
  | AnsNetworkData (r : NetworkData + RpcFailure)
  | AnsMerge (proceed : bool)
  | AnsCommit (granted : bool)
  | AnsEvaluate (r : nat + CoordinatorError)
  | AnsCoord (r : option CoordinatorError)
  | AnsSearch (r : EntryData + RpcFailure)
  | AnsSlept (cancelled : bool)
  | AnsSent
  | AnsAborted.

(** ** Guards *)
Definition drop_guard (g : EnterGuard) : list ArcAction := if eg_resolved g then [] else [DetachedAbort (eg_level g)].

(** [EnterGuard::note_released] *)
Definition note_released (g : EnterGuard) (level : nat) (ok : bool) : EnterGuard :=
  if ok && (level =? eg_level g) then mkGuard (eg_level g) true else g.

(** The locals dropped on leaving the commit phase, the last declared first. *)
Definition drop_commit (guard : option EnterGuard) : list ArcAction :=
  match guard with Some g => drop_guard g | None => [] end ++ [EndCommit].

Definition drop_ctx (c : EnterCtx) : list ArcAction := drop_commit (Some (ec_guard c)).

(** What is dropped when the task ends at a control point. *)
Definition drop_at (pc : Pc) : list ArcAction :=
  match pc with
  | PcEvaluate _ _ _ _ | PcEvaluateSleep _ _ _ _ => drop_commit None
  | PcRestartSleep g => drop_commit g
  | PcBeginEnter c | PcSearch c | PcAbort c _ | PcExecSleep c | PcComplete c _ | PcPrepare c _ _ | PcFinish c _ => drop_ctx c
  | _ => []
  end.

Section Handler.
Context (cfg : HookingConfig) (arc : Z).

(** The head of ['outer]. *)
Definition outer (v : QspnView) (cancelled : bool) : list ArcAction * Pc :=
  if cancelled then ([], PcDone)
  else if negb (i_am_real v) then ([SetPhase Connectivity], PcDone)
  else ([SetPhase Discovering; RetrieveNetworkData false], PcDiscover).

Definition fail_arc : list ArcAction := [Emit (FailingArc arc); SetPhase FailedPhase].

(** A sleep, then ['outer]; the guards are dropped after it. *)
Definition restart_after (d : Z) (guard : option EnterGuard) : list ArcAction * Pc := ([SleepFor d], PcRestartSleep guard).
Definition reject : list ArcAction * Pc := ([SetPhase Waiting; SleepFor (hk_merge_reject_wait cfg)], PcRejectSleep).

(** The positions a peer told, by level. *)
Definition neighbor_positions (v : QspnView) (nd : NetworkData) : list (nat * Z) := take (v_levels v) (enumerate (nd_neighbor_pos nd)).

Definition proceed_or_reject (nd : NetworkData) (proceed : bool) : list ArcAction * Pc :=
  if proceed then ([TryBeginCommit], PcBeginCommit nd) else reject.

(** The network data of the first exchange: steps (3) and (4). *)
Definition discovered (v : QspnView) (nd : NetworkData) : list ArcAction * Pc :=
  if (nd_network_id nd =? v_network_id v)%Z then
    (((λ lp, NoteSameNetwork lp.1 lp.2) <$> neighbor_positions v nd) ++ [Emit (SameNetwork arc); SetPhase SameNetworkPhase], PcDone)
  else if negb (bool_decide (nd_gsizes nd = (λ i, default 0%Z (topology_gsize (v_topology v) i)) <$> seq 0 (v_levels v))) then
    ([SetPhase IncompatibleTopology], PcDone)
  else
    let r := match merge_direction (v_n_nodes v) (nd_neighbor_n_nodes nd) with
             | Proceed => proceed_or_reject nd true
             | Wait => proceed_or_reject nd false
             | AskCoordinator => ([RetrieveNetworkData true], PcAskCoord nd)
             end in
    (((λ lp, NoteForeign lp.1 lp.2) <$> neighbor_positions v nd) ++ [Emit (AnotherNetwork arc (nd_network_id nd))] ++ r.1, r.2).

(** ['begin]: the right to enter at a level is claimed anew. *)
Definition begin (c : EnterCtx) : list ArcAction * Pc := ([SetPhase (Entering (ec_ask_lvl c)); BeginEnter (ec_ask_lvl c)], PcBeginEnter c).

(** The entry was found. *)
Definition entry_found (v : QspnView) (c : EnterCtx) (entry : EntryData) : list ArcAction * Pc :=
  if negb (ed_network_id entry =? nd_network_id (ec_data c))%Z then ([AbortEnter (ec_ask_lvl c)], PcAbort c TargetChanged)
  else if (1 <=? ec_ask_lvl c) && (v_network_id v =? ed_network_id entry)%Z then ([AbortEnter (ec_ask_lvl c)], PcAbort c AlreadyThere)
  else ([CompletedEnter (ec_ask_lvl c)], PcComplete c entry).

(** [abort_enter] was acknowledged. *)
Definition aborted (v : QspnView) (c : EnterCtx) (why : AbortReason) : list ArcAction * Pc :=
  let wait := restart_wait cfg (v_n_nodes v) in
  match why with
  | NoPath =>
      if ec_ask_lvl c =? 0 then restart_after wait (Some (ec_guard c))
      else begin (mkEnterCtx (ec_data c) (ec_guard c) (ec_ask_lvl c - 1) (ec_exec_failures c))
  | ExecFailure =>
      let failures := S (ec_exec_failures c) in
      let c' := mkEnterCtx (ec_data c) (ec_guard c) (ec_ask_lvl c) failures in
      if MAX_EXEC_FAILURES <=? failures then restart_after wait (Some (ec_guard c))
      else ([SleepFor (wait / 8 * 2 ^ Z.of_nat (failures `min` 3))], PcExecSleep c')
  | TargetChanged | AlreadyThere => restart_after wait (Some (ec_guard c))
  end.

(** A step on the view [v]; [draw i] is the [i]-th word drawn from the generator
    during it.  [None]: the answer does not belong to the control point. *)
Definition arc_step (v : QspnView) (draw : nat → Z) (cancelled : bool) (pc : Pc) (a : Answer) : option (list ArcAction * Pc) :=
  match pc, a with
  | PcDone, _ => None
  | _, AnsAborted => Some (drop_at pc, PcDone)
  | PcStart, AnsStarted => Some (outer v cancelled)
  | PcDiscover, AnsNetworkData (inl nd) => Some (discovered v nd)
  | PcDiscover, AnsNetworkData (inr RemoteNotBootstrapped) => Some ([SleepFor (hk_not_bootstrapped_retry cfg)], PcDiscoverSleep)
  | PcDiscover, AnsNetworkData (inr RemoteNotPrincipal) => Some ([SetPhase Connectivity], PcDone)
  | PcDiscover, AnsNetworkData (inr _) => Some (fail_arc, PcDone)
  | PcDiscoverSleep, AnsSlept c => Some (if c then ([], PcDone) else ([RetrieveNetworkData false], PcDiscover))
  | PcAskCoord _, AnsNetworkData (inl nd) =>
      Some ([DecideMerge (mkMergeRequest (v_network_id v) (nd_network_id nd) (nd_neighbor_n_nodes nd))], PcDecideMerge nd)
  | PcAskCoord _, AnsNetworkData (inr RemoteNotPrincipal) => Some ([SetPhase Connectivity], PcDone)
  | PcAskCoord _, AnsNetworkData (inr _) => Some (fail_arc, PcDone)
  | PcDecideMerge nd, AnsMerge proceed => Some (proceed_or_reject nd proceed)
  | PcRejectSleep, AnsSlept c => Some (if c then ([], PcDone) else outer v cancelled)
  | PcBeginCommit nd, AnsCommit false => Some reject
  | PcBeginCommit nd, AnsCommit true =>
      let req := mkEvaluate (nd_network_id nd) (nd_neighbor_pos nd) (nd_neighbor_min_level nd) (v_subnetlevel v) (next_i32 (draw 0)) in
      Some ([SetPhase Evaluating; EvaluateEnter req], PcEvaluate nd req 0 0)
  | PcEvaluate nd req retries streak, AnsEvaluate (inl lvl) => Some (begin (mkEnterCtx nd (mkGuard lvl false) lvl 0))
  | PcEvaluate nd req retries streak, AnsEvaluate (inr AskAgain) =>
      Some ([SleepFor (ask_again_backoff (ask_again_wait cfg (v_n_nodes v)) (restart_wait cfg (v_n_nodes v)) streak)],
        PcEvaluateSleep nd req retries (S streak))
  | PcEvaluate nd req retries streak, AnsEvaluate (inr IgnoreNetwork) => Some (restart_after (restart_wait cfg (v_n_nodes v)) None)
  | PcEvaluate nd req retries streak, AnsEvaluate (inr Unreachable) =>
      Some (if retries <? EVALUATE_ENTER_UNREACHABLE_RETRIES
            then ([SleepFor (hk_not_bootstrapped_retry cfg)], PcEvaluateSleep nd req (S retries) streak)
            else (drop_commit None, PcDone))
  | PcEvaluate nd req retries streak, AnsEvaluate (inr _) => Some (drop_commit None, PcDone)
  | PcEvaluateSleep nd req retries streak, AnsSlept c =>
      Some (if c then (drop_commit None, PcDone) else ([EvaluateEnter req], PcEvaluate nd req retries streak))
  | PcRestartSleep g, AnsSlept c =>
      Some (let r := if c then ([], PcDone) else outer v cancelled in (drop_commit g ++ r.1, r.2))
  | PcBeginEnter c, AnsCoord None => Some ([SearchMigrationPath (ec_ask_lvl c)], PcSearch c)
  | PcBeginEnter c, AnsCoord (Some AlreadyEntering) => Some (restart_after (restart_wait cfg (v_n_nodes v)) (Some (ec_guard c)))
  | PcBeginEnter c, AnsCoord (Some _) => Some (drop_ctx c, PcDone)
  | PcSearch c, AnsSearch (inl entry) => Some (entry_found v c entry)
  | PcSearch c, AnsSearch (inr RemoteNoMigrationPath) => Some ([AbortEnter (ec_ask_lvl c)], PcAbort c NoPath)
  | PcSearch c, AnsSearch (inr RemoteExecuteFailure) | PcSearch c, AnsSearch (inr RpcTimeout) =>
      Some ([AbortEnter (ec_ask_lvl c)], PcAbort c ExecFailure)
  | PcSearch c, AnsSearch (inr _) => Some (fail_arc ++ drop_ctx c, PcDone)
  | PcAbort c why, AnsCoord (Some _) => Some (drop_ctx c, PcDone)
  | PcAbort c why, AnsCoord None =>
      Some (aborted v (mkEnterCtx (ec_data c) (note_released (ec_guard c) (ec_ask_lvl c) true) (ec_ask_lvl c) (ec_exec_failures c)) why)
  | PcExecSleep c, AnsSlept b => Some (if b then (drop_ctx c, PcDone) else begin c)
  | PcComplete c entry, AnsCoord (Some _) => Some (drop_ctx c, PcDone)
  | PcComplete c entry, AnsCoord None =>
      let id := next_i32_at_least 1 (draw 0) in
      Some ([PrepareEnter (ec_ask_lvl c) id],
        PcPrepare (mkEnterCtx (ec_data c) (note_released (ec_guard c) (ec_ask_lvl c) true) (ec_ask_lvl c) (ec_exec_failures c)) entry id)
  | PcPrepare c entry id, AnsSent =>
      let pos := next_u32_at_least (default 0%Z (topology_gsize (v_topology v) (ec_ask_lvl c))) (draw 0) in
      Some ([FinishEnter (ec_ask_lvl c) (mkFinishEnter id entry pos)], PcFinish c entry)
  | PcFinish c entry, AnsSent => Some (MarkEntered (ec_ask_lvl c) entry :: drop_ctx c, PcDone)
  | _, _ => None
  end.
End Handler.

(** ** The actor (manager.rs) *)
Record ChosenAddress := mkChosen { ca_entry_data : EntryData; ca_naddr : option Naddr }.

Record HookingSnapshot := mkHookingSnapshot {
  hs_arcs : gmap Z ArcPhase;
  hs_hooked : bool;
  hs_chosen : option ChosenAddress
}.

Inductive HookingError := ActorGone | ArcAlreadyRegistered | UnknownArc.

Record HookActor := mkHookActor {
  ha_topology : Topology;
  ha_snapshot : HookingSnapshot;
  ha_arc_cancels : gset Z;
  ha_committing : bool
}.

Inductive HookCommand :=
  | CmdAddArc (arc : Z)
  | CmdRemoveArc (arc : Z)
  | CmdSetArcPhase (arc : Z) (phase : ArcPhase)
  | CmdMarkEntered (arc : Z) (ask_lvl : nat) (entry : EntryData)
  | CmdTryBeginCommit (reply : nat)
  | CmdEndCommit.

(** What a command answers, and the handler it starts or cancels.  Of the reply
    channels only the one of a handler is kept: the number of the handler. *)
Inductive HookReply := RepUnit | RepResult (r : res HookingError unit) | RepGranted (reply : nat) (b : bool).
Inductive TaskChange := Spawned (arc : Z) | Cancelled (arc : Z).

Definition build_naddr (t : Topology) (entry : EntryData) : option Naddr :=
  if negb (length (ed_pos entry) =? topology_levels t) then None
  else match naddr_new t (ed_pos entry) with Ok n => Some n | _ => None end.

Inductive HookingOrigin := CreateNet | Joining.

Definition spawn_actor (origin : HookingOrigin) (v : QspnView) : HookActor :=
  mkHookActor (v_topology v)
    (match origin with
     | CreateNet =>
         let entry := mkEntryData (v_network_id v) (replicate (v_levels v) 0%Z) (replicate (v_levels v) 0%Z) in
         mkHookingSnapshot ∅ true (Some (mkChosen entry (build_naddr (v_topology v) entry)))
     | Joining => mkHookingSnapshot ∅ false None
     end) ∅ false.

Definition with_arcs (a : HookActor) (arcs : gmap Z ArcPhase) (cancels : gset Z) : HookActor :=
  mkHookActor (ha_topology a) (mkHookingSnapshot arcs (hs_hooked (ha_snapshot a)) (hs_chosen (ha_snapshot a))) cancels (ha_committing a).

Definition handle_add_arc (a : HookActor) (arc : Z) : HookActor * res HookingError unit * list TaskChange :=
  if bool_decide (arc ∈ ha_arc_cancels a) then (a, Err ArcAlreadyRegistered, [])
  else (with_arcs a (<[arc := Discovering]> (hs_arcs (ha_snapshot a))) ({[arc]} ∪ ha_arc_cancels a), Ok tt, [Spawned arc]).

Definition handle_remove_arc (a : HookActor) (arc : Z) : HookActor * res HookingError unit * list TaskChange :=
  if bool_decide (arc ∈ ha_arc_cancels a)
  then (with_arcs a (delete arc (hs_arcs (ha_snapshot a))) (ha_arc_cancels a ∖ {[arc]}), Ok tt, [Cancelled arc])
  else if bool_decide (is_Some (hs_arcs (ha_snapshot a) !! arc))
  then (with_arcs a (delete arc (hs_arcs (ha_snapshot a))) (ha_arc_cancels a), Ok tt, [])
  else (a, Err UnknownArc, []).

Definition mark_entered (a : HookActor) (arc : Z) (ask_lvl : nat) (entry : EntryData) : HookActor :=
  let s := ha_snapshot a in
  let arcs := <[arc := Entered ask_lvl]> (hs_arcs s) in
  mkHookActor (ha_topology a)
    (if hs_hooked s then mkHookingSnapshot arcs true (hs_chosen s)
     else mkHookingSnapshot arcs true (Some (mkChosen entry (build_naddr (ha_topology a) entry))))
    (ha_arc_cancels a) (ha_committing a).

(** [Actor::handle] *)
Definition actor_handle (a : HookActor) (cmd : HookCommand) : HookActor * HookReply * list TaskChange :=
  match cmd with
  | CmdAddArc arc => let '(a', r, t) := handle_add_arc a arc in (a', RepResult r, t)
  | CmdRemoveArc arc => let '(a', r, t) := handle_remove_arc a arc in (a', RepResult r, t)
  | CmdSetArcPhase arc phase => (with_arcs a (<[arc := phase]> (hs_arcs (ha_snapshot a))) (ha_arc_cancels a), RepUnit, [])
  | CmdMarkEntered arc ask_lvl entry => (mark_entered a arc ask_lvl entry, RepUnit, [])
  | CmdTryBeginCommit reply =>
      (mkHookActor (ha_topology a) (ha_snapshot a) (ha_arc_cancels a) true, RepGranted reply (negb (ha_committing a)), [])
  | CmdEndCommit => (mkHookActor (ha_topology a) (ha_snapshot a) (ha_arc_cancels a) false, RepUnit, [])
  end.

(** An arc handler that ended: its token is forgotten, its phase stays. *)
Definition arc_joined (a : HookActor) (arc : Z) : HookActor :=
  mkHookActor (ha_topology a) (ha_snapshot a) (ha_arc_cancels a ∖ {[arc]}) (ha_committing a).
