(* ===== verification/HookArcProps.v ===== *)
(** * Hooking: safety of the arc handlers

    What a single handler guarantees, whatever its peer and its coordinator
    answer: a slot it was granted is given back, an entry it announces is the one
    it evaluated, its retries are bounded.  And what the handlers of one identity
    guarantee together: only one of them commits at a time. *)
From S2P Require Import Prelude Addressing HookDomain HookArc.

(** ** Cases of a step *)

(** The handler is past [try_begin_commit]: it holds the commit slot. *)
Definition committing_at (pc : Pc) : bool :=
  match pc with
  | PcStart | PcDiscover | PcDiscoverSleep | PcAskCoord _ | PcDecideMerge _ | PcRejectSleep | PcBeginCommit _ | PcDone => false
  | _ => true
  end.

(** The slot of [evaluate_enter] a control point still holds. *)
Definition guard_holds (g : EnterGuard) : option nat := if eg_resolved g then None else Some (eg_level g).
Definition holds_at (pc : Pc) : option nat :=
  match pc with
  | PcRestartSleep (Some g) => guard_holds g
  | PcBeginEnter c | PcSearch c | PcAbort c _ | PcExecSleep c | PcComplete c _ | PcPrepare c _ _ | PcFinish c _ => guard_holds (ec_guard c)
  | _ => None
  end.

(** ** The slot of [evaluate_enter] *)

(** The level [evaluate_enter] grants, and the level a release is acknowledged
    for. *)
Definition granted (pc : Pc) (a : Answer) : option nat :=
  match pc, a with PcEvaluate _ _ _ _, AnsEvaluate (inl lvl) => Some lvl | _, _ => None end.
Definition acknowledged (pc : Pc) (a : Answer) : option nat :=
  match pc, a with PcAbort c _, AnsCoord None | PcComplete c _, AnsCoord None => Some (ec_ask_lvl c) | _, _ => None end.

(** A slot that is held until a release at its level is acknowledged or handed
    to a detached task. *)
Definition slot_after (held : option nat) (pc : Pc) (a : Answer) (out : list ArcAction) : option nat :=
  let held := match granted pc a with Some lvl => Some lvl | None => held end in
  let held := if bool_decide (held = acknowledged pc a) then None else held in
  match held with
  | Some lvl => if any (λ act, match act with DetachedAbort l => l =? lvl | _ => false end) out then None else Some lvl
  | None => None
  end.

Lemma slot_dropped pc a g pre post :
  granted pc a = None → acknowledged pc a = None →
  slot_after (guard_holds g) pc a (pre ++ drop_guard g ++ post) = None.
Proof.
  intros Hg Ha. unfold slot_after. rewrite Hg, Ha. destruct g as [l []]; cbn [guard_holds eg_resolved eg_level drop_guard]; [done|].
  rewrite bool_decide_eq_false_2 by done. unfold any. rewrite existsb_app. cbn.
  rewrite Nat.eqb_refl. by destruct (existsb _ pre).
Qed.

Lemma no_abort_any lvl out :
  Forall (λ act, match act with DetachedAbort _ => False | _ => True end) out →
  any (λ act, match act with DetachedAbort l => l =? lvl | _ => false end) out = false.
Proof.
  intros Hf. destruct (any _ out) eqn:He; [|done]. unfold any in He. apply existsb_exists in He as (x & Hx & Hl). rewrite Forall_forall in Hf.
  apply list_elem_of_In in Hx. specialize (Hf x Hx). by destruct x.
Qed.

Lemma slot_kept pc a held out :
  granted pc a = None → acknowledged pc a = None → Forall (λ act, match act with DetachedAbort _ => False | _ => True end) out →
  slot_after held pc a out = held.
Proof.
  intros Hg Ha Hf. unfold slot_after. rewrite Hg, Ha. destruct held as [l|]; [|done]. rewrite bool_decide_eq_false_2 by done. by rewrite no_abort_any.
Qed.

Lemma slot_none pc a out : granted pc a = None → slot_after None pc a out = None.
Proof. intros Hg. unfold slot_after. rewrite Hg. by destruct (bool_decide _). Qed.

(** An acknowledged release, noted in the guard. *)
Lemma slot_noted pc a g lvl out :
  granted pc a = None → acknowledged pc a = Some lvl → Forall (λ act, match act with DetachedAbort _ => False | _ => True end) out →
  slot_after (guard_holds g) pc a out = guard_holds (note_released g lvl true).
Proof.
  intros Hg Ha Hf. destruct g as [l r]. unfold note_released, guard_holds. cbn [andb eg_level eg_resolved]. destruct r.
  { destruct (_ =? _); by apply slot_none. }
  destruct (Nat.eqb_spec lvl l) as [->|Hne]; cbn [eg_resolved].
  - unfold slot_after. rewrite Hg, Ha. by rewrite bool_decide_eq_true_2.
  - unfold slot_after. rewrite Hg, Ha, bool_decide_eq_false_2 by congruence. by rewrite no_abort_any.
Qed.

(** No release on the way. *)
Definition quiet (out : list ArcAction) : Prop := Forall (λ act, match act with DetachedAbort _ | EndCommit => False | _ => True end) out.

Lemma quiet_no_abort out : quiet out → Forall (λ act, match act with DetachedAbort _ => False | _ => True end) out.
Proof. intros H. eapply Forall_impl; [exact H|]. by intros []. Qed.

Section Steps.
Context (cfg : HookingConfig) (arc : Z).

Lemma outer_free v cancelled : quiet (outer v cancelled).1 ∧ holds_at (outer v cancelled).2 = None ∧ committing_at (outer v cancelled).2 = false.
Proof. unfold outer, quiet. destruct cancelled, (i_am_real v); cbn; by repeat constructor. Qed.

Lemma decide_free nd proceed :
  quiet (proceed_or_reject cfg nd proceed).1 ∧ holds_at (proceed_or_reject cfg nd proceed).2 = None ∧ committing_at (proceed_or_reject cfg nd proceed).2 = false.
Proof. unfold proceed_or_reject, reject, quiet. destruct proceed; cbn; by repeat constructor. Qed.

Lemma discovered_free v nd : quiet (discovered cfg arc v nd).1 ∧ holds_at (discovered cfg arc v nd).2 = None ∧ committing_at (discovered cfg arc v nd).2 = false.
Proof.
  unfold discovered, quiet. destruct (_ =? _)%Z; cbn; [|destruct (negb _); cbn].
  - split; [|done]. apply Forall_app. split; [apply Forall_fmap, Forall_true; done|by repeat constructor].
  - by repeat constructor.
  - destruct (merge_direction _ _); cbn; (split; [|done]);
      (apply Forall_app; split; [apply Forall_fmap, Forall_true; done|unfold reject; cbn; by repeat constructor]).
Qed.

Lemma entry_found_keeps v c entry :
  quiet (entry_found v c entry).1 ∧ holds_at (entry_found v c entry).2 = guard_holds (ec_guard c) ∧ committing_at (entry_found v c entry).2 = true.
Proof. unfold entry_found, quiet. destruct (negb _); [|destruct (_ && _)]; cbn; by repeat constructor. Qed.

Lemma aborted_keeps v c why :
  quiet (aborted cfg v c why).1 ∧ holds_at (aborted cfg v c why).2 = guard_holds (ec_guard c) ∧ committing_at (aborted cfg v c why).2 = true.
Proof.
  unfold aborted, quiet. destruct why; [destruct (_ =? 0)|destruct (MAX_EXEC_FAILURES <=? _)|..]; cbn; by repeat constructor.
Qed.

(** The kinds of steps, as far as the two slots are concerned. *)
Inductive step_kind (pc : Pc) (a : Answer) : list ArcAction → Pc → Prop :=
  | kind_free out pc' :
      granted pc a = None → holds_at pc = None → holds_at pc' = None → committing_at pc = false → committing_at pc' = false →
      (∀ nd, pc = PcBeginCommit nd → a = AnsCommit false ∨ a = AnsAborted) → quiet out → step_kind pc a out pc'
  | kind_commit nd out pc' :
      pc = PcBeginCommit nd → a = AnsCommit true → holds_at pc' = None → committing_at pc' = true → quiet out → step_kind pc a out pc'
  | kind_grant lvl out pc' :
      granted pc a = Some lvl → acknowledged pc a = None → holds_at pc = None → holds_at pc' = Some lvl → committing_at pc = true → committing_at pc' = true →
      quiet out → step_kind pc a out pc'
  | kind_keep out pc' :
      granted pc a = None → acknowledged pc a = None → holds_at pc' = holds_at pc → committing_at pc = true → committing_at pc' = true →
      quiet out → step_kind pc a out pc'
  | kind_release g lvl out pc' :
      granted pc a = None → acknowledged pc a = Some lvl → holds_at pc = guard_holds g → holds_at pc' = guard_holds (note_released g lvl true) →
      committing_at pc = true → committing_at pc' = true → quiet out → step_kind pc a out pc'
  | kind_leave g pre rest pc' :
      granted pc a = None → acknowledged pc a = None → holds_at pc = match g with Some g => guard_holds g | None => None end →
      holds_at pc' = None → committing_at pc = true → committing_at pc' = false → quiet pre → quiet rest →
      step_kind pc a (pre ++ drop_commit g ++ rest) pc'.

Lemma quiet_nil : quiet [].
Proof. constructor. Qed.

(** Leaving with nothing before or after. *)
Lemma kind_drop pc a g :
  granted pc a = None → acknowledged pc a = None → holds_at pc = match g with Some g => guard_holds g | None => None end →
  committing_at pc = true → step_kind pc a (drop_commit g) PcDone.
Proof. intros. rewrite <-(app_nil_r (drop_commit g)). by apply (kind_leave pc a g [] [] PcDone); try apply quiet_nil. Qed.

Ltac quiet_step := unfold quiet; by repeat constructor.

Lemma abort_kind pc : pc ≠ PcDone → step_kind pc AnsAborted (drop_at pc) PcDone.
Proof.
  intros Hne. destruct pc; try done; unfold drop_at, drop_ctx; try (apply kind_drop; done); apply kind_free; try done; try apply quiet_nil.
  intros; by right.
Qed.

(** Before the commit phase. *)
Lemma discover_kind v draw cancelled pc a out pc' :
  committing_at pc = false → arc_step cfg arc v draw cancelled pc a = Some (out, pc') → step_kind pc a out pc'.
Proof.
  intros Hc Hs. destruct pc; try done; destruct a; cbn [arc_step] in Hs; try discriminate;
    try (injection Hs as <- <-; by apply abort_kind).
  - injection Hs as Hs. destruct (outer_free v cancelled) as (H1 & H2 & H3). rewrite Hs in *. by apply kind_free.
  - destruct r as [nd|[]]; simplify_eq; try (apply kind_free; [done..|quiet_step]).
    destruct (discovered_free v nd) as (H1 & H2 & H3). rewrite Hs in *. by apply kind_free.
  - destruct cancelled0; simplify_eq; apply kind_free; (done || quiet_step).
  - destruct r as [nd'|[]]; simplify_eq; apply kind_free; (done || quiet_step).
  - injection Hs as Hs. destruct (decide_free nd proceed) as (H1 & H2 & H3). rewrite Hs in *. by apply kind_free.
  - destruct cancelled0; simplify_eq; [apply kind_free; (done || quiet_step)|]. destruct (outer_free v cancelled) as (H1 & H2 & H3).
    rewrite Hs in *. by apply kind_free.
  - destruct granted0; simplify_eq.
    + eapply kind_commit; [done..|quiet_step].
    + unfold reject in Hs. simplify_eq. apply kind_free; try done; [|quiet_step]. intros; by left.
Qed.

(** While evaluating, and in the sleep before starting over. *)
Lemma evaluate_kind v draw cancelled pc a out pc' :
  match pc with PcEvaluate _ _ _ _ | PcEvaluateSleep _ _ _ _ | PcRestartSleep _ => True | _ => False end →
  arc_step cfg arc v draw cancelled pc a = Some (out, pc') → step_kind pc a out pc'.
Proof.
  intros Hc Hs. destruct pc; try done; destruct a; cbn [arc_step] in Hs; try discriminate;
    try (injection Hs as <- <-; by apply abort_kind).
  - destruct r as [lvl|[]]; unfold restart_after, begin in Hs; simplify_eq; try (by apply kind_drop); try (apply kind_keep; [done..|quiet_step]).
    + eapply kind_grant; [done..|quiet_step].
    + destruct (_ <? _) in Hs; simplify_eq; [apply kind_keep; [done..|quiet_step]|by apply kind_drop].
  - destruct cancelled0; simplify_eq; [by apply kind_drop|apply kind_keep; [done..|quiet_step]].
  - destruct cancelled0; cbn in Hs; simplify_eq.
    + rewrite app_nil_r. by apply kind_drop.
    + destruct (outer_free v cancelled) as (H1 & H2 & H3). by apply (kind_leave _ _ guard []); try apply quiet_nil.
Qed.

(** While entering. *)
Lemma enter_kind v draw cancelled pc a out pc' :
  match pc with PcBeginEnter _ | PcSearch _ | PcAbort _ _ | PcExecSleep _ | PcComplete _ _ | PcPrepare _ _ _ | PcFinish _ _ => True | _ => False end →
  arc_step cfg arc v draw cancelled pc a = Some (out, pc') → step_kind pc a out pc'.
Proof.
  intros Hc Hs. destruct pc; try done; destruct a; cbn [arc_step] in Hs; try discriminate;
    try (injection Hs as <- <-; by apply abort_kind).
  - destruct r as [[]|]; unfold restart_after in Hs; simplify_eq; try (by apply kind_drop); apply kind_keep; (done || quiet_step).
  - destruct r as [e|[]]; simplify_eq;
      try (rewrite <-(app_nil_r (drop_ctx c)); apply (kind_leave _ _ (Some (ec_guard c)) (fail_arc arc)); (done || quiet_step));
      try (apply kind_keep; (done || quiet_step)).
    destruct (entry_found_keeps v c e) as (H1 & H2 & H3). rewrite Hs in *. by apply kind_keep.
  - destruct r as [e|]; simplify_eq; [by apply kind_drop|].
    destruct (aborted_keeps v (mkEnterCtx (ec_data c) (note_released (ec_guard c) (ec_ask_lvl c) true) (ec_ask_lvl c) (ec_exec_failures c)) why)
      as (H1 & H2 & H3). rewrite Hs in *. by apply (kind_release _ _ (ec_guard c) (ec_ask_lvl c)).
  - destruct cancelled0; unfold begin in Hs; simplify_eq; [by apply kind_drop|apply kind_keep; (done || quiet_step)].
  - destruct r as [e|]; simplify_eq; [by apply kind_drop|].
    apply (kind_release _ _ (ec_guard c) (ec_ask_lvl c)); (done || quiet_step).
  - simplify_eq. apply kind_keep; (done || quiet_step).
  - simplify_eq. rewrite <-(app_nil_r (drop_ctx c)).
    apply (kind_leave _ _ (Some (ec_guard c)) [MarkEntered (ec_ask_lvl c) entry]); (done || quiet_step).
Qed.

Lemma arc_step_kind v draw cancelled pc a out pc' :
  arc_step cfg arc v draw cancelled pc a = Some (out, pc') → step_kind pc a out pc'.
Proof.
  intros Hs. destruct (committing_at pc) eqn:Hc; [|by eapply discover_kind].
  destruct pc; try done; (eapply evaluate_kind + eapply enter_kind); done.
Qed.
End Steps.

(** ** Runs of a handler *)
Record ArcInput := mkArcInput { in_view : QspnView; in_draw : nat → Z; in_cancelled : bool; in_answer : Answer }.

Section Runs.
Context (cfg : HookingConfig) (arc : Z).

(** A run: all the actions since the handler started, the slot its coordinator
    still holds for it, and where it is. *)
Inductive arc_run : list ArcAction → option nat → Pc → Prop :=
  | run_start : arc_run [] None PcStart
  | run_step acts held pc i out pc' :
      arc_run acts held pc → arc_step cfg arc (in_view i) (in_draw i) (in_cancelled i) pc (in_answer i) = Some (out, pc') →
      arc_run (acts ++ out) (slot_after held pc (in_answer i) out) pc'.

(** The same, computed from the inputs. *)
Fixpoint run_from (acts : list ArcAction) (held : option nat) (pc : Pc) (l : list ArcInput) : option (list ArcAction * option nat * Pc) :=
  match l with
  | [] => Some (acts, held, pc)
  | i :: l' =>
      '(out, pc') ← arc_step cfg arc (in_view i) (in_draw i) (in_cancelled i) pc (in_answer i);
      run_from (acts ++ out) (slot_after held pc (in_answer i) out) pc' l'
  end.

Lemma run_from_run acts held pc l acts' held' pc' :
  arc_run acts held pc → run_from acts held pc l = Some (acts', held', pc') → arc_run acts' held' pc'.
Proof.
  revert acts held pc. induction l as [|i l IH]; intros acts held pc Hr; cbn; [by intros [= <- <- <-]|].
  destruct (arc_step _ _ _ _ _ _ _) as [[out pc1]|] eqn:Hs; [|done]. cbn. apply IH. by eapply run_step.
Qed.

(** *** A granted slot is released *)
Lemma kind_slot pc a out pc' : step_kind pc a out pc' → slot_after (holds_at pc) pc a out = holds_at pc'.
Proof.
  intros [out1 pc1 Hg Hh Hh' _ _ _ _|nd out1 pc1 -> -> Hh' _ _|lvl out1 pc1 Hg Ha Hh Hh' _ _ Hq|out1 pc1 Hg Ha Hh _ _ Hq
         |g lvl out1 pc1 Hg Ha Hh Hh' _ _ Hq|g pre rest pc1 Hg Ha Hh Hh' _ _ Hp Hq].
  - rewrite Hh, Hh'. by apply slot_none.
  - rewrite Hh'. by apply slot_none.
  - rewrite Hh, Hh'. unfold slot_after. rewrite Hg, Ha, bool_decide_eq_false_2 by done. by rewrite no_abort_any by by apply quiet_no_abort.
  - rewrite Hh. by apply slot_kept; [..|apply quiet_no_abort].
  - rewrite Hh, Hh'. by apply slot_noted; [..|apply quiet_no_abort].
  - rewrite Hh, Hh'. destruct g as [g|]; [|by apply slot_none]. unfold drop_commit. rewrite <-app_assoc. by apply slot_dropped.
Qed.

Lemma run_holds acts held pc : arc_run acts held pc → held = holds_at pc.
Proof.
  induction 1 as [|acts held pc i out pc' _ -> Hs]; [done|].
  by eapply kind_slot, arc_step_kind.
Qed.
End Runs.

(** ** What a handler announces *)

(** The last request evaluated, and the searches made since. *)
Definition last_evaluated (acts : list ArcAction) : option EvaluateEnterRequest :=
  fold_left (λ o a, match a with EvaluateEnter r => Some r | _ => o end) acts None.
Definition searches (acts : list ArcAction) : nat :=
  fold_left (λ n a, match a with EvaluateEnter _ => 0 | SearchMigrationPath _ => S n | _ => n end) acts 0.

Definition no_finish (acts : list ArcAction) : Prop := Forall (λ a, match a with FinishEnter _ _ => False | _ => True end) acts.

(** An entry is announced at the end of a completed two-phase exchange, for the
    network that was evaluated last, and it is the first one. *)
Definition finish_ok (acts : list ArcAction) : Prop :=
  ∀ pre lvl d post, acts = pre ++ FinishEnter lvl d :: post →
    no_finish pre ∧ ∃ pre0 req, pre = pre0 ++ [CompletedEnter lvl; PrepareEnter lvl (fe_enter_id d)] ∧
      last_evaluated pre0 = Some req ∧ ed_network_id (fe_entry_data d) = ee_network_id req.

(** What holds while entering, [k] searches into the current attempt. *)
Definition ctx_inv (k : nat) (acts : list ArcAction) (c : EnterCtx) : Prop :=
  (∃ req, last_evaluated acts = Some req ∧ ee_network_id req = nd_network_id (ec_data c)) ∧
  ec_exec_failures c ≤ 3 ∧ ec_ask_lvl c ≤ eg_level (ec_guard c) ∧
  searches acts + ec_ask_lvl c ≤ eg_level (ec_guard c) + ec_exec_failures c + k.

Definition run_inv (acts : list ArcAction) (pc : Pc) : Prop :=
  match pc with
  | PcDone => finish_ok acts
  | PcFinish c _ => finish_ok acts ∧ ctx_inv 1 acts c
  | PcEvaluate nd req retries _ | PcEvaluateSleep nd req retries _ =>
      no_finish acts ∧ last_evaluated acts = Some req ∧ ee_network_id req = nd_network_id nd ∧
      retries ≤ EVALUATE_ENTER_UNREACHABLE_RETRIES ∧ searches acts = 0
  | PcBeginEnter c | PcExecSleep c => no_finish acts ∧ ctx_inv 0 acts c
  | PcSearch c | PcAbort c _ => no_finish acts ∧ ctx_inv 1 acts c
  | PcComplete c e =>
      no_finish acts ∧ ctx_inv 1 acts c ∧ ed_network_id e = nd_network_id (ec_data c) ∧ ∃ acts0, acts = acts0 ++ [CompletedEnter (ec_ask_lvl c)]
  | PcPrepare c e id =>
      no_finish acts ∧ ctx_inv 1 acts c ∧ ed_network_id e = nd_network_id (ec_data c) ∧
      ∃ acts0, acts = acts0 ++ [CompletedEnter (ec_ask_lvl c); PrepareEnter (ec_ask_lvl c) id]
  | _ => no_finish acts
  end.

(** Actions that neither evaluate, nor search, nor announce. *)
Definition calm (out : list ArcAction) : Prop :=
  Forall (λ a, match a with EvaluateEnter _ | SearchMigrationPath _ | FinishEnter _ _ => False | _ => True end) out.

(** Control points at which nothing is claimed of the actions but their calm. *)
Definition loose (pc : Pc) : bool := negb (committing_at pc) || match pc with PcRestartSleep _ => true | _ => false end.

Lemma calm_app out1 out2 : calm out1 → calm out2 → calm (out1 ++ out2).
Proof. apply Forall_app_2. Qed.

Lemma calm_drop_commit g : calm (drop_commit g).
Proof. unfold calm, drop_commit, drop_guard. destruct g as [[l []]|]; by repeat constructor. Qed.

Lemma calm_no_finish acts out : no_finish acts → calm out → no_finish (acts ++ out).
Proof. intros H Hc. apply Forall_app_2; [done|]. eapply Forall_impl; [exact Hc|]. by intros []. Qed.

Lemma calm_last acts out : calm out → last_evaluated (acts ++ out) = last_evaluated acts.
Proof.
  intros Hc. unfold last_evaluated. rewrite fold_left_app. generalize (fold_left (λ o a, match a with EvaluateEnter r => Some r | _ => o end) acts None).
  induction Hc as [|a l Ha _ IH]; intros o; cbn; [done|]. rewrite IH. by destruct a.
Qed.

Lemma calm_searches acts out : calm out → searches (acts ++ out) = searches acts.
Proof.
  intros Hc. unfold searches. rewrite fold_left_app.
  generalize (fold_left (λ n a, match a with EvaluateEnter _ => 0 | SearchMigrationPath _ => S n | _ => n end) acts 0).
  induction Hc as [|a l Ha _ IH]; intros n; cbn; [done|]. rewrite IH. by destruct a.
Qed.

Lemma calm_ctx k acts out c : ctx_inv k acts c → calm out → ctx_inv k (acts ++ out) c.
Proof. intros H Hc. unfold ctx_inv. by rewrite calm_last, calm_searches. Qed.

Lemma no_finish_ok acts : no_finish acts → finish_ok acts.
Proof. intros H pre lvl d post ->. apply Forall_app in H as [_ H]. by inversion H. Qed.

Lemma finish_ok_app acts out : finish_ok acts → calm out → finish_ok (acts ++ out).
Proof.
  intros H Hc pre lvl d post Heq. apply app_eq_inv in Heq as [(k & -> & Hk)|(k & -> & ->)].
  - destruct k as [|x k]; cbn in *; simplify_eq; [by inversion Hc|by apply (H pre lvl d k)].
  - exfalso. apply Forall_app in Hc as [_ Hc]. by inversion Hc.
Qed.

Lemma loose_inv acts out pc : no_finish acts → calm out → loose pc = true → run_inv (acts ++ out) pc.
Proof. intros H Hc Hl. pose proof (calm_no_finish _ _ H Hc) as Hn. destruct pc; try done. by apply no_finish_ok. Qed.

Lemma done_inv acts out : finish_ok acts → calm out → run_inv (acts ++ out) PcDone.
Proof. apply finish_ok_app. Qed.

Ltac calm_step := unfold calm; repeat first [apply calm_drop_commit | apply Forall_app_2 | constructor]; try done.

Section Announce.
Context (cfg : HookingConfig) (arc : Z).

Lemma outer_calm v cancelled : calm (outer v cancelled).1 ∧ loose (outer v cancelled).2 = true.
Proof. unfold outer. destruct cancelled, (i_am_real v); cbn; (split; [calm_step|done]). Qed.

Lemma decide_calm nd proceed : calm (proceed_or_reject cfg nd proceed).1 ∧ loose (proceed_or_reject cfg nd proceed).2 = true.
Proof. destruct proceed; cbn; (split; [calm_step|done]). Qed.

Lemma discovered_calm v nd : calm (discovered cfg arc v nd).1 ∧ loose (discovered cfg arc v nd).2 = true.
Proof.
  unfold discovered. destruct (_ =? _)%Z; cbn; [|destruct (negb _); cbn].
  - split; [|done]. apply Forall_app_2; [apply Forall_fmap, Forall_true; done|calm_step].
  - split; [calm_step|done].
  - destruct (merge_direction _ _); cbn; (split; [|done]); (apply Forall_app_2; [apply Forall_fmap, Forall_true; done|calm_step]).
Qed.

Lemma abort_inv acts pc : run_inv acts pc → run_inv (acts ++ drop_at pc) PcDone.
Proof.
  intros H. apply done_inv; [|destruct pc; calm_step].
  destruct pc; cbn in H; try (by apply no_finish_ok); try (by apply no_finish_ok; apply H); apply H.
Qed.

Lemma discover_inv v draw cancelled acts pc a out pc' :
  committing_at pc = false → run_inv acts pc → arc_step cfg arc v draw cancelled pc a = Some (out, pc') → run_inv (acts ++ out) pc'.
Proof.
  intros Hc Hi Hs. destruct pc; try done; destruct a; cbn [arc_step] in Hs; try discriminate;
    try (injection Hs as <- <-; exact (abort_inv acts _ Hi)).
  - injection Hs as Hs. destruct (outer_calm v cancelled) as (H1 & H2). rewrite Hs in *. by apply loose_inv.
  - destruct r as [nd|[]]; unfold fail_arc in Hs; simplify_eq; try (apply loose_inv; [done|calm_step|done]).
    destruct (discovered_calm v nd) as (H1 & H2). rewrite Hs in *. by apply loose_inv.
  - destruct cancelled0; simplify_eq; (apply loose_inv; [done|calm_step|done]).
  - destruct r as [nd'|[]]; unfold fail_arc in Hs; simplify_eq; (apply loose_inv; [done|calm_step|done]).
  - injection Hs as Hs. destruct (decide_calm nd proceed) as (H1 & H2). rewrite Hs in *. by apply loose_inv.
  - destruct cancelled0; simplify_eq; [apply loose_inv; [done|calm_step|done]|]. destruct (outer_calm v cancelled) as (H1 & H2).
    rewrite Hs in *. by apply loose_inv.
  - destruct granted0; unfold reject in Hs; simplify_eq; [|apply loose_inv; [done|calm_step|done]].
    cbn. unfold last_evaluated, searches. rewrite !fold_left_app. cbn.
    split; [apply Forall_app_2; [done|by repeat constructor]|]. split; [done|]. split; [done|]. split; [unfold EVALUATE_ENTER_UNREACHABLE_RETRIES; lia|done].
Qed.

Lemma evaluate_inv v draw cancelled acts pc a out pc' :
  match pc with PcEvaluate _ _ _ _ | PcEvaluateSleep _ _ _ _ | PcRestartSleep _ => True | _ => False end →
  run_inv acts pc → arc_step cfg arc v draw cancelled pc a = Some (out, pc') → run_inv (acts ++ out) pc'.
Proof.
  intros Hc Hi Hs. destruct pc; try done; destruct a; cbn [arc_step] in Hs; try discriminate;
    try (injection Hs as <- <-; exact (abort_inv acts _ Hi)).
  - destruct Hi as (Hn & Hl & He & Hr & Hz).
    assert (∀ g, calm g → run_inv (acts ++ g) PcDone) as Hd by (intros; by apply loose_inv).
    destruct r as [lvl|[]]; unfold restart_after, begin in Hs; simplify_eq;
      try (by apply Hd, calm_drop_commit); try (apply loose_inv; [done|calm_step|done]).
    + cbn. split; [apply calm_no_finish; [done|calm_step]|]. apply calm_ctx; [|calm_step]. split; [by exists req|]. cbn. lia.
    + destruct (Nat.ltb_spec retries EVALUATE_ENTER_UNREACHABLE_RETRIES); simplify_eq; [|by apply Hd, calm_drop_commit].
      cbn. rewrite calm_last, calm_searches by calm_step. split; [apply calm_no_finish; [done|calm_step]|]. repeat (split; [done|]). done || lia.
    + cbn. rewrite calm_last, calm_searches by calm_step. split; [apply calm_no_finish; [done|calm_step]|]. by repeat (split; [done|]).
  - destruct Hi as (Hn & Hl & He & Hr & Hz). destruct cancelled0; simplify_eq; [apply loose_inv; [done|calm_step|done]|].
    cbn. unfold last_evaluated, searches. rewrite !fold_left_app. cbn. split; [apply Forall_app_2; [done|by repeat constructor]|]. done.
  - injection Hs as <- <-. apply loose_inv; [done| |].
    + apply calm_app; [apply calm_drop_commit|]. destruct cancelled0; [by constructor|apply outer_calm].
    + destruct cancelled0; [done|apply outer_calm].
Qed.

(** A [ctx_inv] that holds of a context with other counters. *)
Lemma aborted_inv v acts c why : no_finish acts → ctx_inv 1 acts c → run_inv (acts ++ (aborted cfg v c why).1) (aborted cfg v c why).2.
Proof.
  intros Hn (He & Hf & Hl & Hs). unfold aborted.
  assert (calm [SleepFor (restart_wait cfg (v_n_nodes v))]) as Hq by calm_step.
  destruct why; [destruct (Nat.eqb_spec (ec_ask_lvl c) 0)|destruct (Nat.leb_spec MAX_EXEC_FAILURES (S (ec_exec_failures c)))|..];
    try (by apply loose_inv); cbn [fst snd begin run_inv]; (split; [apply calm_no_finish; [done|calm_step]|]);
    (apply calm_ctx; [|calm_step]); (split; [done|]); cbn; unfold MAX_EXEC_FAILURES in *; lia.
Qed.

Lemma entry_found_inv v acts c e : no_finish acts → ctx_inv 1 acts c → run_inv (acts ++ (entry_found v c e).1) (entry_found v c e).2.
Proof.
  intros Hn Hi. unfold entry_found. destruct (Z.eqb_spec (ed_network_id e) (nd_network_id (ec_data c))) as [He|He]; cbn [negb].
  - destruct (_ && _); cbn [fst snd run_inv]; (split; [apply calm_no_finish; [done|calm_step]|]).
    + apply calm_ctx; [done|calm_step].
    + split; [apply calm_ctx; [done|calm_step]|]. split; [done|]. by eexists.
  - split; [apply calm_no_finish; [done|calm_step]|]. apply calm_ctx; [done|calm_step].
Qed.

(** The announcement itself. *)
Lemma announce_ok acts c e id pos :
  run_inv acts (PcPrepare c e id) → finish_ok (acts ++ [FinishEnter (ec_ask_lvl c) (mkFinishEnter id e pos)]).
Proof.
  intros (Hn & ((req & Hl & Hr) & _) & He & acts0 & ->) pre lvl d post Heq.
  assert (post = [] ∧ pre = acts0 ++ [CompletedEnter (ec_ask_lvl c); PrepareEnter (ec_ask_lvl c) id] ∧
          FinishEnter lvl d = FinishEnter (ec_ask_lvl c) (mkFinishEnter id e pos)) as (-> & -> & [= -> ->]).
  { destruct post as [|x post] using rev_ind.
    - by apply app_inj_tail in Heq as [-> <-].
    - rewrite app_comm_cons, app_assoc in Heq. apply app_inj_tail in Heq as [Heq _]. rewrite Heq in Hn.
      apply Forall_app in Hn as [_ Hn]. by inversion Hn. }
  split; [done|]. exists acts0, req. split; [done|]. rewrite calm_last in Hl by calm_step. split; [done|]. cbn. congruence.
Qed.

Lemma enter_inv v draw cancelled acts pc a out pc' :
  match pc with PcBeginEnter _ | PcSearch _ | PcAbort _ _ | PcExecSleep _ | PcComplete _ _ | PcPrepare _ _ _ | PcFinish _ _ => True | _ => False end →
  run_inv acts pc → arc_step cfg arc v draw cancelled pc a = Some (out, pc') → run_inv (acts ++ out) pc'.
Proof.
  intros Hc Hi Hs. destruct pc; try done; destruct a; cbn [arc_step] in Hs; try discriminate;
    try (injection Hs as <- <-; exact (abort_inv acts _ Hi)).
  - destruct Hi as [Hn Hi]. destruct r as [[]|]; unfold restart_after in Hs; simplify_eq;
      try (apply loose_inv; [done|calm_step|done]).
    split; [apply Forall_app_2; [done|by repeat constructor]|]. destruct Hi as (Hl & Hf & Ha & Hse).
    unfold ctx_inv, last_evaluated, searches in *. rewrite !fold_left_app. cbn. split; [done|]. lia.
  - destruct Hi as [Hn Hi]. destruct r as [e|[]]; simplify_eq; try (apply loose_inv; [done|unfold fail_arc, drop_ctx; calm_step|done]);
      try (split; [apply calm_no_finish; [done|calm_step]|apply calm_ctx; [done|calm_step]]).
    pose proof (entry_found_inv v acts c e Hn Hi) as H. by rewrite Hs in H.
  - destruct Hi as [Hn Hi]. destruct r as [e|]; simplify_eq; [apply loose_inv; [done|calm_step|done]|].
    pose proof (aborted_inv v acts (mkEnterCtx (ec_data c) (note_released (ec_guard c) (ec_ask_lvl c) true) (ec_ask_lvl c) (ec_exec_failures c)) why Hn)
      as H. rewrite Hs in H. apply H. unfold note_released. destruct (_ && _); exact Hi.
  - destruct Hi as [Hn Hi]. destruct cancelled0; unfold begin in Hs; simplify_eq; [apply loose_inv; [done|calm_step|done]|].
    split; [apply calm_no_finish; [done|calm_step]|apply calm_ctx; [done|calm_step]].
  - destruct Hi as (Hn & Hi & He & acts0 & Heq). destruct r as [x|]; simplify_eq; [apply loose_inv; [done|calm_step|done]|].
    split; [apply calm_no_finish; [done|calm_step]|]. split; [|split; [done|exists acts0; by rewrite <-app_assoc]].
    apply calm_ctx; [|calm_step]. unfold note_released. destruct (_ && _); exact Hi.
  - simplify_eq. split; [by apply announce_ok|]. destruct Hi as (_ & (Hl & Hf & Ha & Hse) & _).
    unfold ctx_inv, last_evaluated, searches in *. rewrite !fold_left_app. cbn. done.
  - simplify_eq. destruct Hi as [Hf _]. apply (done_inv acts); [done|]. unfold drop_ctx. calm_step.
Qed.

Lemma run_keeps_inv acts held pc : arc_run cfg arc acts held pc → run_inv acts pc.
Proof.
  induction 1 as [|acts held pc i out pc' _ IH Hs].
  - by constructor.
  - destruct (committing_at pc) eqn:Hc; [|by eapply discover_inv].
    destruct pc; try done; first [by eapply evaluate_inv; [|exact IH|exact Hs]|by eapply enter_inv; [|exact IH|exact Hs]].
Qed.
End Announce.

(** ** Properties *)

(** C18: the slot that [evaluate_enter] granted never leaks.  Whatever the peer and
    the coordinator answer, and also when the task is aborted at an [await], a
    handler that has ended, or that starts over with a new round, has had a release
    of that very level acknowledged, or has handed one to a detached task. *)
Theorem granted_slot_released cfg arc acts held pc : arc_run cfg arc acts held pc → committing_at pc = false → held = None.
Proof.
  intros Hr Hc. rewrite (run_holds cfg arc acts held pc Hr). by destruct pc.
Qed.

(** A handler announces at most one entry in its life, and only as the third
    step of [completed_enter], [prepare_enter], [finish_enter], with the id of that
    [prepare_enter], at one and the same level; the entry lies in the network of the
    last request that [evaluate_enter] was asked about, even if the neighbour has
    moved to another network meanwhile. *)
Theorem announces_evaluated_entry cfg arc acts held pc pre lvl d post :
  arc_run cfg arc acts held pc → acts = pre ++ FinishEnter lvl d :: post →
  no_finish pre ∧ no_finish post ∧
  ∃ pre0 req, pre = pre0 ++ [CompletedEnter lvl; PrepareEnter lvl (fe_enter_id d)] ∧
    last_evaluated pre0 = Some req ∧ ed_network_id (fe_entry_data d) = ee_network_id req.
Proof.
  intros Hr ->. assert (finish_ok (pre ++ FinishEnter lvl d :: post)) as Hf.
  { apply run_keeps_inv in Hr. destruct pc; cbn in Hr; try (by apply no_finish_ok); try (by apply no_finish_ok; apply Hr); apply Hr. }
  destruct (Hf pre lvl d post eq_refl) as [Hn Hex]. split; [done|]. split; [|done].
  apply Forall_forall. intros x Hx. destruct x as [| | | | | | | | | | | | | | |lvl' d'| |]; try done.
  apply list_elem_of_split in Hx as (p1 & p2 & ->).
  destruct (Hf (pre ++ FinishEnter lvl d :: p1) lvl' d' p2) as [Hn' _]; [by rewrite <-app_assoc|].
  apply Forall_app in Hn' as [_ Hn']. by inversion Hn'.
Qed.

(** The work a handler asks of others for one granted slot is bounded: it
    retries an unreachable [evaluate_enter] at most five times, tolerates at most
    three failed executions, never asks above the level it was granted, and sends at
    most [level + 4] searches. *)
Theorem handler_retries_bounded cfg arc acts held pc :
  arc_run cfg arc acts held pc →
  match pc with
  | PcEvaluate _ _ retries _ | PcEvaluateSleep _ _ retries _ => retries ≤ 5 ∧ searches acts = 0
  | PcBeginEnter c | PcSearch c | PcAbort c _ | PcExecSleep c | PcComplete c _ | PcPrepare c _ _ | PcFinish c _ =>
      ec_exec_failures c ≤ 3 ∧ ec_ask_lvl c ≤ eg_level (ec_guard c) ∧ searches acts ≤ eg_level (ec_guard c) + 4
  | _ => True
  end.
Proof.
  intros Hr. apply run_keeps_inv in Hr.
  destruct pc; try done; cbn in Hr; unfold ctx_inv, EVALUATE_ENTER_UNREACHABLE_RETRIES in Hr; destruct_and?; split_and?; lia.
Qed.

(** *** A run that joins *)
Definition sample_view : QspnView :=
  mkView (mkTopology [4%Z; 4%Z]) 100 5 (λ _, 1%Z) (λ _, 0%Z) 0 (λ _, 1) (λ _ _, 0%Z) (λ _ _, []) true.
Definition sample_data : NetworkData := mkNetworkData 200 90 0 [4%Z; 4%Z] [2%Z; 3%Z].
Definition sample_entry : EntryData := mkEntryData 200 [3%Z; 3%Z] [1%Z; 0%Z].
Definition answers (l : list Answer) : list ArcInput := mkArcInput sample_view (λ _, 77%Z) false <$> l.
Definition joining_answers : list Answer :=
  [AnsStarted; AnsNetworkData (inl sample_data); AnsCommit true; AnsEvaluate (inr AskAgain); AnsSlept false; AnsEvaluate (inl 1); AnsCoord None;
   AnsSearch (inr RemoteNoMigrationPath); AnsCoord None; AnsCoord None; AnsSearch (inl sample_entry); AnsCoord None; AnsSent; AnsSent].

Definition sample_run (l : list Answer) : list ArcAction * option nat * Pc :=
  default ([], None, PcDone)
    (run_from hooking_config_default 7 [] None PcStart (answers l)).

Lemma sample_run_run l :
  run_from hooking_config_default 7 [] None PcStart (answers l) = Some (sample_run l) →
  arc_run hooking_config_default 7 (sample_run l).1.1 (sample_run l).1.2 (sample_run l).2.
Proof.
  intros H. eapply run_from_run; [apply run_start|]. rewrite H. by destruct (sample_run l) as [[? ?] ?].
Qed.

(** The handler falls back from level 1 to level 0, enters there and ends. *)
Lemma granted_slot_released_witness :
  ∃ acts held, arc_run hooking_config_default 7 acts held PcDone ∧ In (BeginEnter 1) acts ∧ In (MarkEntered 0 sample_entry) acts ∧ held = None.
Proof.
  exists (sample_run joining_answers).1.1, (sample_run joining_answers).1.2.
  assert (arc_run hooking_config_default 7 (sample_run joining_answers).1.1 (sample_run joining_answers).1.2 PcDone) as Hr
    by (apply (sample_run_run joining_answers); vm_compute; reflexivity).
  split; [exact Hr|]. split; [vm_compute; intuition|]. split; [vm_compute; intuition|].
  exact (granted_slot_released hooking_config_default 7 _ _ PcDone Hr eq_refl).
Defined.

Lemma announces_evaluated_entry_witness :
  ∃ pre d post, (sample_run joining_answers).1.1 = pre ++ FinishEnter 0 d :: post ∧ no_finish pre ∧ no_finish post ∧
    ∃ pre0 req, pre = pre0 ++ [CompletedEnter 0; PrepareEnter 0 (fe_enter_id d)] ∧ last_evaluated pre0 = Some req ∧
      ed_network_id (fe_entry_data d) = ee_network_id req.
Proof.
  assert (arc_run hooking_config_default 7 (sample_run joining_answers).1.1 (sample_run joining_answers).1.2 PcDone) as Hr
    by (apply (sample_run_run joining_answers); vm_compute; reflexivity).
  eexists (take 19 (sample_run joining_answers).1.1), _, (drop 20 (sample_run joining_answers).1.1).
  split; [vm_compute; reflexivity|].
  eapply (announces_evaluated_entry hooking_config_default 7 _ _ _ _ _ _ _ Hr). vm_compute. reflexivity.
Defined.

Lemma handler_retries_bounded_witness : searches (sample_run (take 11 joining_answers)).1.1 ≤ 1 + 4.
Proof.
  assert (arc_run hooking_config_default 7 (sample_run (take 11 joining_answers)).1.1 (sample_run (take 11 joining_answers)).1.2
    (sample_run (take 11 joining_answers)).2) as Hr by (apply (sample_run_run (take 11 joining_answers)); vm_compute; reflexivity).
  exact (proj2 (proj2 (handler_retries_bounded hooking_config_default 7 _ _ _ Hr))).
Defined.
