(* ===== verification/HookSystem.v ===== *)
(** * Hooking: the handlers of one identity and their actor

    The actor of [manager.rs] with its mailbox, and the handlers it has spawned,
    interleaved: a handler sends its commands to the end of the mailbox, the actor
    takes them from the front, one at a time, and answers [TryBeginCommit] through
    the reply channel of the handler that asked.  Shows that only one handler is in
    the commit phase at a time and that the right to it is never lost. *)
From S2P Require Import Prelude Addressing HookDomain HookArc HookArcProps.

(** What the actor's [JoinSet] knows of a handler: still running, ended with its arc
    or by a panic but not joined yet, or joined. *)
Inductive TaskStatus := TaskRunning | TaskReturned | TaskPanicked | TaskJoined.

(** A spawned handler, the answer that waits in its reply channel, its cancellation
    token and how it ended. *)
Record HandlerTask := mkTask { tk_arc : Z; tk_pc : Pc; tk_reply : option bool; tk_cancelled : bool; tk_status : TaskStatus }.

Definition status_after (pc : Pc) (a : Answer) : TaskStatus :=
  match pc, a with PcDone, AnsAborted => TaskPanicked | PcDone, _ => TaskReturned | _, _ => TaskRunning end.

Record HookSystem := mkHookSystem { hy_actor : HookActor; hy_mail : list HookCommand; hy_tasks : list HandlerTask }.

(** What a handler sends to the actor (manager.rs, the crate-internal methods of the
    handle). *)
Definition handler_mail (t : nat) (arc : Z) (act : ArcAction) : list HookCommand :=
  match act with
  | SetPhase p => [CmdSetArcPhase arc p]
  | TryBeginCommit => [CmdTryBeginCommit t]
  | EndCommit => [CmdEndCommit]
  | MarkEntered ask_lvl entry => [CmdMarkEntered arc ask_lvl entry]
  | _ => []
  end.

Inductive HookLabel :=
  | LClientAdd (arc : Z)
  | LClientRemove (arc : Z)
  | LActor
  | LHandler (t : nat) (v : QspnView) (draw : nat → Z) (a : Answer)
  | LJoin (t : nat).

(** An answer a handler may get: the one in its reply channel where it waits for
    that; a sleep is cut short only by its token; it ends at an [await] when it
    panics, but not at the one on the reply channel. *)
Definition answer_allowed (k : HandlerTask) (a : Answer) : bool :=
  match tk_pc k, a with
  | PcBeginCommit _, AnsAborted => false
  | _, AnsCommit b => bool_decide (tk_reply k = Some b)
  | _, AnsSlept c => implb c (tk_cancelled k)
  | _, _ => true
  end.

(** The token held for an arc is the one of its last handler. *)
Fixpoint cancel_last (arc : Z) (l : list HandlerTask) : list HandlerTask :=
  match l with
  | [] => []
  | k :: l' =>
      if (tk_arc k =? arc)%Z && negb (any (λ k', tk_arc k' =? arc)%Z l') then mkTask (tk_arc k) (tk_pc k) (tk_reply k) true (tk_status k) :: l'
      else k :: cancel_last arc l'
  end.

Definition apply_change (s : HookSystem) (c : TaskChange) : HookSystem :=
  match c with
  | Spawned arc => mkHookSystem (hy_actor s) (hy_mail s) (hy_tasks s ++ [mkTask arc PcStart None false TaskRunning])
  | Cancelled arc => mkHookSystem (hy_actor s) (hy_mail s) (cancel_last arc (hy_tasks s))
  end.

Definition deliver (r : HookReply) (l : list HandlerTask) : list HandlerTask :=
  match r with
  | RepGranted t b =>
      match l !! t with Some k => <[t := mkTask (tk_arc k) (tk_pc k) (Some b) (tk_cancelled k) (tk_status k)]> l | None => l end
  | _ => l
  end.

Section System.
Context (cfg : HookingConfig).

(** A step of the system.  Each ended handler is joined once; the actor forgets the
    token of the arc of one that returned, and keeps that of one that panicked. *)
Definition hooking_step (s : HookSystem) (l : HookLabel) : option HookSystem :=
  match l with
  | LClientAdd arc => Some (mkHookSystem (hy_actor s) (hy_mail s ++ [CmdAddArc arc]) (hy_tasks s))
  | LClientRemove arc => Some (mkHookSystem (hy_actor s) (hy_mail s ++ [CmdRemoveArc arc]) (hy_tasks s))
  | LActor =>
      match hy_mail s with
      | [] => None
      | cmd :: rest =>
          let '(a, r, changes) := actor_handle (hy_actor s) cmd in
          Some (foldl apply_change (mkHookSystem a rest (deliver r (hy_tasks s))) changes)
      end
  | LHandler t v draw a =>
      k ← hy_tasks s !! t;
      if negb (answer_allowed k a) then None
      else
        '(out, pc) ← arc_step cfg (tk_arc k) v draw (tk_cancelled k) (tk_pc k) a;
        Some (mkHookSystem (hy_actor s) (hy_mail s ++ (out ≫= handler_mail t (tk_arc k)))
          (<[t := mkTask (tk_arc k) pc None (tk_cancelled k) (status_after pc a)]> (hy_tasks s)))
  | LJoin t =>
      k ← hy_tasks s !! t;
      let joined := <[t := mkTask (tk_arc k) (tk_pc k) (tk_reply k) (tk_cancelled k) TaskJoined]> (hy_tasks s) in
      match tk_status k with
      | TaskReturned => Some (mkHookSystem (arc_joined (hy_actor s) (tk_arc k)) (hy_mail s) joined)
      | TaskPanicked => Some (mkHookSystem (hy_actor s) (hy_mail s) joined)
      | TaskRunning | TaskJoined => None
      end
  end.

Fixpoint hooking_run (s : HookSystem) (ls : list HookLabel) : option HookSystem :=
  match ls with [] => Some s | l :: ls' => s' ← hooking_step s l; hooking_run s' ls' end.
End System.

Definition hooking_start (origin : HookingOrigin) (v : QspnView) : HookSystem := mkHookSystem (spawn_actor origin v) [] [].

(** ** Who has the right to commit *)
Definition b2n (b : bool) : nat := if b then 1 else 0.

Definition task_weight (k : HandlerTask) : nat := b2n (committing_at (tk_pc k)) + b2n (bool_decide (tk_reply k = Some true)).
Definition end_weight (c : HookCommand) : nat := match c with CmdEndCommit => 1 | _ => 0 end.
Definition try_weight (t : nat) (c : HookCommand) : nat := match c with CmdTryBeginCommit t' => b2n (t' =? t) | _ => 0 end.
Definition awaits_reply (pc : Pc) : bool := match pc with PcBeginCommit _ => true | _ => false end.

(** The right is with exactly one of: a handler past [try_begin_commit], a reply on
    its way, a release in the mailbox; or with nobody, and the actor may grant it.
    And a handler that awaits a reply has either one request in the mailbox or one
    reply. *)
Record slot_inv (s : HookSystem) : Prop := mkSlotInv {
  si_slot : sum_list_with task_weight (hy_tasks s) + sum_list_with end_weight (hy_mail s) = b2n (ha_committing (hy_actor s));
  si_wait t k : hy_tasks s !! t = Some k →
    sum_list_with (try_weight t) (hy_mail s) + b2n (bool_decide (is_Some (tk_reply k))) = b2n (awaits_reply (tk_pc k));
  si_fresh t : length (hy_tasks s) ≤ t → sum_list_with (try_weight t) (hy_mail s) = 0
}.

Lemma sum_insert {A} (f : A → nat) l t k k' : l !! t = Some k → sum_list_with f (<[t := k']> l) + f k = sum_list_with f l + f k'.
Proof. revert t. induction l as [|x l IH]; intros [|t] H; simplify_eq/=; [lia|]. specialize (IH t H). lia. Qed.

Lemma sum_mail_bind (f : HookCommand → nat) t arc out :
  sum_list_with f (out ≫= handler_mail t arc) = sum_list_with (λ a, sum_list_with f (handler_mail t arc a)) out.
Proof. induction out as [|a out IH]; [done|]. rewrite bind_cons, sum_list_with_app, IH. done. Qed.

(** *** Releases and requests in the actions of a step *)
Definition try_action (a : ArcAction) : nat := match a with TryBeginCommit => 1 | _ => 0 end.
Definition end_action (a : ArcAction) : nat := match a with EndCommit => 1 | _ => 0 end.
Definition commit_granted (pc : Pc) (a : Answer) : bool := match pc, a with PcBeginCommit _, AnsCommit true => true | _, _ => false end.

Lemma sum_with_ext {A} (f g : A → nat) l : (∀ x, f x = g x) → sum_list_with f l = sum_list_with g l.
Proof. intros H. induction l as [|x l IH]; [done|]. cbn. by rewrite H, IH. Qed.

Lemma mail_ends t arc out : sum_list_with end_weight (out ≫= handler_mail t arc) = sum_list_with end_action out.
Proof. rewrite sum_mail_bind. apply sum_with_ext. by intros []. Qed.

Lemma mail_tries t t' arc out : sum_list_with (try_weight t') (out ≫= handler_mail t arc) = if t =? t' then sum_list_with try_action out else 0.
Proof.
  rewrite sum_mail_bind. induction out as [|a out IH]; [by destruct (t =? t')|]. cbn. rewrite IH.
  destruct a; cbn; destruct (t =? t'); cbn; lia.
Qed.

Lemma quiet_ends out : quiet out → sum_list_with end_action out = 0.
Proof. induction 1 as [|a out Ha _ IH]; [done|]. cbn. rewrite IH. by destruct a. Qed.

Lemma drop_commit_ends g : sum_list_with end_action (drop_commit g) = 1.
Proof. by destruct g as [[l []]|]. Qed.

Lemma kind_ends pc a out pc' :
  step_kind pc a out pc' → b2n (committing_at pc) + b2n (commit_granted pc a) = b2n (committing_at pc') + sum_list_with end_action out.
Proof.
  intros [out1 pc1 _ _ _ Hc Hc' Hn Hq|nd out1 pc1 -> -> _ Hc' Hq|lvl out1 pc1 _ _ _ _ Hc Hc' Hq|out1 pc1 _ _ _ Hc Hc' Hq
         |g lvl out1 pc1 _ _ _ _ Hc Hc' Hq|g pre rest pc1 _ _ _ _ Hc Hc' Hp Hq];
    rewrite ?Hc, Hc', ?sum_list_with_app, ?drop_commit_ends, ?(quiet_ends _ Hq), ?(quiet_ends _ Hp); try (by destruct pc); try done.
  destruct pc; try done. by destruct (Hn _ eq_refl) as [->| ->].
Qed.

Section Tries.
Context (cfg : HookingConfig) (arc : Z).

Lemma notes_tries {A} (f : A → ArcAction) l : (∀ x, try_action (f x) = 0) → sum_list_with try_action (f <$> l) = 0.
Proof. intros H. induction l as [|x l IH]; [done|]. cbn. by rewrite H, IH. Qed.

Lemma discovered_tries v nd : sum_list_with try_action (discovered cfg arc v nd).1 = b2n (awaits_reply (discovered cfg arc v nd).2).
Proof.
  unfold discovered. destruct (_ =? _)%Z; cbn [fst snd]; [|destruct (negb _); cbn [fst snd]; [done|]].
  - rewrite sum_list_with_app, notes_tries by done. done.
  - rewrite !sum_list_with_app, notes_tries by done. by destruct (merge_direction _ _).
Qed.

Lemma outer_tries v cancelled : sum_list_with try_action (outer v cancelled).1 = 0 ∧ awaits_reply (outer v cancelled).2 = false.
Proof. unfold outer. by destruct cancelled, (i_am_real v). Qed.

Lemma drop_commit_tries g : sum_list_with try_action (drop_commit g) = 0.
Proof. by destruct g as [[l []]|]. Qed.

Lemma drop_at_tries pc : sum_list_with try_action (drop_at pc) = 0.
Proof. destruct pc; try done; apply drop_commit_tries. Qed.

Lemma step_tries v draw cancelled pc a out pc' :
  arc_step cfg arc v draw cancelled pc a = Some (out, pc') → sum_list_with try_action out = b2n (awaits_reply pc').
Proof.
  intros Hs. destruct pc, a; cbn [arc_step] in Hs; try discriminate; try (injection Hs as <- <-; (done || apply drop_commit_tries));
    repeat match type of Hs with
    | context [match ?x with inl _ => _ | inr _ => _ end] => destruct x
    | context [match ?x with Some _ => _ | None => _ end] => is_var x; destruct x
    | context [match ?x with Unreachable => _ | _ => _ end] => is_var x; destruct x
    | context [match ?x with RemoteNotBootstrapped => _ | _ => _ end] => is_var x; destruct x
    | Some (if ?b then _ else _) = _ => destruct b
    | context [if ?b then _ else _] => is_var b; destruct b
    end; unfold restart_after, reject, begin, fail_arc, drop_ctx in Hs; simplify_eq; try done; try apply drop_commit_tries.
  - destruct (outer_tries v cancelled) as [H1 H2]. rewrite Hs in H1, H2. cbn in H1, H2. by rewrite H1, H2.
  - pose proof (discovered_tries v n) as H. by rewrite Hs in H.
  - by destruct proceed; unfold proceed_or_reject, reject in Hs; simplify_eq.
  - destruct (outer_tries v cancelled) as [H1 H2]. rewrite Hs in H1, H2. cbn in H1, H2. by rewrite H1, H2.
  - rewrite sum_list_with_app, drop_commit_tries. done.
  - destruct (outer_tries v cancelled) as [H1 H2]. by rewrite sum_list_with_app, drop_commit_tries, H1, H2.
  - unfold entry_found in Hs. destruct (negb _) in Hs; [|destruct (_ && _) in Hs]; by simplify_eq.
  - unfold aborted, restart_after, begin in Hs. destruct why; [destruct (_ =? _) in Hs|destruct (_ <=? _) in Hs|..]; by simplify_eq.
Qed.
End Tries.

(** *** Preservation *)
Lemma cancel_last_weights arc l : sum_list_with task_weight (cancel_last arc l) = sum_list_with task_weight l.
Proof. induction l as [|k l IH]; [done|]. cbn. destruct (_ && _); cbn; [done|]. by rewrite IH. Qed.

Lemma cancel_last_length arc l : length (cancel_last arc l) = length l.
Proof. induction l as [|k l IH]; [done|]. cbn. destruct (_ && _); cbn; [done|]. by rewrite IH. Qed.

Lemma cancel_last_lookup arc l t k' :
  cancel_last arc l !! t = Some k' → ∃ k, l !! t = Some k ∧ tk_pc k' = tk_pc k ∧ tk_reply k' = tk_reply k.
Proof.
  revert t. induction l as [|k l IH]; intros t; cbn; [done|]. destruct (_ && _).
  - destruct t as [|t]; cbn; [intros [= <-]; by exists k|intros H; by exists k'].
  - destruct t as [|t]; cbn; [intros [= <-]; by exists k|apply IH].
Qed.

Lemma apply_change_inv s c : slot_inv s → slot_inv (apply_change s c).
Proof.
  intros [Hs Hw Hf]. destruct c as [arc|arc]; unfold apply_change.
  - assert (task_weight (mkTask arc PcStart None false TaskRunning) = 0) as Hz by done.
    split; cbn [hy_actor hy_mail hy_tasks]; [rewrite sum_list_with_app; cbn [sum_list_with]; lia| |].
    + intros t k [Hk|(Hl & Hk)]%lookup_app_Some; [by apply Hw|].
      apply list_lookup_singleton_Some in Hk as [Hl' <-]. cbn. rewrite Hf by lia. done.
    + intros t. rewrite length_app. cbn. intros Hl. apply Hf. lia.
  - split; cbn; rewrite ?cancel_last_weights, ?cancel_last_length; [done| |done].
    intros t k' (k & Hk & Hp & Hr)%cancel_last_lookup. rewrite Hp, Hr. by apply Hw.
Qed.

Lemma changes_inv cs s : slot_inv s → slot_inv (foldl apply_change s cs).
Proof. revert s. induction cs as [|c cs IH]; intros s H; [done|]. by apply IH, apply_change_inv. Qed.


Lemma deliver_lookup t b l t' k' :
  deliver (RepGranted t b) l !! t' = Some k' →
  (t' ≠ t ∧ l !! t' = Some k') ∨ (t' = t ∧ ∃ k, l !! t = Some k ∧ k' = mkTask (tk_arc k) (tk_pc k) (Some b) (tk_cancelled k) (tk_status k)).
Proof.
  cbn. destruct (l !! t) as [k|] eqn:Hk.
  - destruct (decide (t' = t)) as [->|Hne].
    + rewrite list_lookup_insert_eq by by eapply lookup_lt_Some. intros [= <-]. right. split; [done|]. by exists k.
    + rewrite list_lookup_insert_ne by done. by left.
  - intros H. left. split; [|done]. intros ->. congruence.
Qed.

Lemma deliver_length r l : length (deliver r l) = length l.
Proof. destruct r; try done. cbn. destruct (l !! reply); [|done]. apply length_insert. Qed.

(** A request is answered: the right passes into the reply, if it was free. *)
Lemma granted_inv a rest tasks t :
  slot_inv (mkHookSystem a (CmdTryBeginCommit t :: rest) tasks) →
  slot_inv (mkHookSystem (mkHookActor (ha_topology a) (ha_snapshot a) (ha_arc_cancels a) true) rest
    (deliver (RepGranted t (negb (ha_committing a))) tasks)).
Proof.
  intros [Hs Hw Hf]. cbn [hy_actor hy_mail hy_tasks ha_committing] in *.
  destruct (tasks !! t) as [k|] eqn:Hk; [|apply lookup_ge_None in Hk; specialize (Hf t Hk); cbn in Hf; rewrite Nat.eqb_refl in Hf; cbn in Hf; lia].
  pose proof (Hw t k Hk) as Hwk. cbn in Hwk. rewrite Nat.eqb_refl in Hwk. cbn in Hwk.
  destruct (awaits_reply (tk_pc k)) eqn:Ha; cbn in Hwk; [|lia]. destruct (tk_reply k) eqn:Hr; cbn in Hwk; [lia|].
  split; cbn [hy_actor hy_mail hy_tasks ha_committing].
  - cbn [deliver]. rewrite Hk.
    pose proof (sum_insert task_weight tasks t k (mkTask (tk_arc k) (tk_pc k) (Some (negb (ha_committing a))) (tk_cancelled k) (tk_status k)) Hk) as Hi.
    assert (task_weight k = 0 ∧ ∀ b, task_weight (mkTask (tk_arc k) (tk_pc k) (Some b) (tk_cancelled k) (tk_status k)) = b2n b) as [Hz Hz'].
    { unfold task_weight. cbn. rewrite Hr. destruct (tk_pc k); try done. by split; [|intros []]. }
    rewrite Hz, Hz' in Hi. cbn [sum_list_with end_weight] in Hs. destruct (ha_committing a); cbn [b2n negb] in *; lia.
  - intros t' k' [[Hne Hk']|[-> (k0 & Hk0 & ->)]]%deliver_lookup.
    + specialize (Hw t' k' Hk'). cbn in Hw. by destruct (Nat.eqb_spec t t').
    + simplify_eq. cbn. rewrite Ha. cbn. lia.
  - intros t'. rewrite deliver_length. intros Hl. specialize (Hf t' Hl). cbn in Hf. lia.
Qed.

(** Any other command leaves the right where it is, or takes it back. *)
Lemma other_inv a a' cmd rest tasks :
  slot_inv (mkHookSystem a (cmd :: rest) tasks) → (∀ t, cmd ≠ CmdTryBeginCommit t) →
  (end_weight cmd = 1 ∧ ha_committing a' = false ∨ end_weight cmd = 0 ∧ ha_committing a' = ha_committing a) →
  slot_inv (mkHookSystem a' rest tasks).
Proof.
  intros [Hs Hw Hf] Hn Hc. assert (∀ t, try_weight t cmd = 0) as Hz by (intros t; destruct cmd; try done; by destruct (Hn reply)).
  split; cbn [hy_actor hy_mail hy_tasks] in *; cbn [sum_list_with] in *.
  - destruct Hc as [[He ->]|[He ->]], (ha_committing a); cbn [b2n] in *; lia.
  - intros t k Hk. specialize (Hw t k Hk). by rewrite Hz in Hw.
  - intros t Hl. specialize (Hf t Hl). by rewrite Hz in Hf.
Qed.

Lemma actor_inv s cmd rest :
  slot_inv s → hy_mail s = cmd :: rest →
  slot_inv (let '(a, r, changes) := actor_handle (hy_actor s) cmd in
            foldl apply_change (mkHookSystem a rest (deliver r (hy_tasks s))) changes).
Proof.
  destruct s as [a mail tasks]. cbn [hy_mail hy_actor hy_tasks]. intros Hi ->. destruct cmd; cbn [actor_handle].
  - unfold handle_add_arc. case_bool_decide; apply changes_inv; eapply other_inv; try done; by right.
  - unfold handle_remove_arc. repeat case_bool_decide; apply changes_inv; eapply other_inv; try done; by right.
  - apply changes_inv. eapply other_inv; try done; by right.
  - apply changes_inv. eapply other_inv; try done. right. unfold mark_entered. by destruct (hs_hooked _).
  - apply changes_inv. by apply granted_inv.
  - apply changes_inv. eapply other_inv; try done; by left.
Qed.

(** A handler's step: the right moves from its reply to the handler, or from the
    handler to a release. *)
Lemma handler_inv cfg s t k v draw a out pc :
  slot_inv s → hy_tasks s !! t = Some k → answer_allowed k a = true →
  arc_step cfg (tk_arc k) v draw (tk_cancelled k) (tk_pc k) a = Some (out, pc) →
  slot_inv (mkHookSystem (hy_actor s) (hy_mail s ++ (out ≫= handler_mail t (tk_arc k))) (<[t := mkTask (tk_arc k) pc None (tk_cancelled k) (status_after pc a)]> (hy_tasks s))).
Proof.
  intros [Hs Hw Hf] Hk Ha Hst. pose proof (kind_ends _ _ _ _ (arc_step_kind _ _ _ _ _ _ _ _ _ Hst)) as He.
  pose proof (step_tries _ _ _ _ _ _ _ _ _ Hst) as Ht. pose proof (Hw t k Hk) as Hwk.
  assert (sum_list_with (try_weight t) (hy_mail s) = 0 ∧ bool_decide (tk_reply k = Some true) = commit_granted (tk_pc k) a) as [Hz Hr].
  { destruct (tk_pc k) eqn:Hp; try (destruct (tk_reply k); cbn in Hwk; [lia|split; [lia|done]]).
    unfold answer_allowed in Ha. rewrite Hp in Ha. destruct a; try discriminate. apply bool_decide_eq_true in Ha. rewrite Ha in *. cbn in Hwk. split; [lia|]. by destruct granted. }
  split; cbn [hy_actor hy_mail hy_tasks].
  - pose proof (sum_insert task_weight (hy_tasks s) t k (mkTask (tk_arc k) pc None (tk_cancelled k) (status_after pc a)) Hk) as Hi.
    assert (task_weight (mkTask (tk_arc k) pc None (tk_cancelled k) (status_after pc a)) = b2n (committing_at pc)) as Hn
      by (unfold task_weight; cbn [tk_pc tk_reply]; rewrite bool_decide_eq_false_2 by done; cbn [b2n]; lia).
    assert (task_weight k = b2n (committing_at (tk_pc k)) + b2n (commit_granted (tk_pc k) a)) as Hn'
      by (unfold task_weight; by rewrite Hr). rewrite Hn, Hn' in Hi. rewrite sum_list_with_app, mail_ends. lia.
  - intros t' k' Hk'. rewrite sum_list_with_app, mail_tries. destruct (Nat.eqb_spec t t') as [<-|Hne].
    + rewrite list_lookup_insert_eq in Hk' by by eapply lookup_lt_Some. simplify_eq. cbn. rewrite Hz, Ht. lia.
    + rewrite list_lookup_insert_ne in Hk' by done. rewrite <-(Hw t' k' Hk'). lia.
  - intros t'. rewrite length_insert, sum_list_with_app, mail_tries. intros Hl. rewrite Hf by done.
    apply lookup_lt_Some in Hk. destruct (Nat.eqb_spec t t'); [lia|done].
Qed.

Lemma joined_inv s t k a' :
  slot_inv s → hy_tasks s !! t = Some k → ha_committing a' = ha_committing (hy_actor s) →
  slot_inv (mkHookSystem a' (hy_mail s) (<[t := mkTask (tk_arc k) (tk_pc k) (tk_reply k) (tk_cancelled k) TaskJoined]> (hy_tasks s))).
Proof.
  intros [Hs Hw Hf] Hk Hc. split; cbn [hy_actor hy_mail hy_tasks].
  - pose proof (sum_insert task_weight (hy_tasks s) t k (mkTask (tk_arc k) (tk_pc k) (tk_reply k) (tk_cancelled k) TaskJoined) Hk) as Hi.
    change (task_weight (mkTask (tk_arc k) _ _ _ _)) with (task_weight k) in Hi. rewrite Hc. lia.
  - intros t' k' [(<- & <- & _)|[_ Hk']]%list_lookup_insert_Some; [exact (Hw t k Hk)|by apply Hw].
  - intros t'. rewrite length_insert. apply Hf.
Qed.

Lemma hooking_step_inv cfg s l s' : slot_inv s → hooking_step cfg s l = Some s' → slot_inv s'.
Proof.
  intros Hi. destruct l; cbn.
  - intros [= <-]. destruct Hi as [Hs Hw Hf].
    split; cbn [hy_actor hy_mail hy_tasks]; setoid_rewrite sum_list_with_app; cbn; [lia|intros t k Hk; rewrite <-(Hw t k Hk); lia|intros t Hl; rewrite Hf by done; done].
  - intros [= <-]. destruct Hi as [Hs Hw Hf].
    split; cbn [hy_actor hy_mail hy_tasks]; setoid_rewrite sum_list_with_app; cbn; [lia|intros t k Hk; rewrite <-(Hw t k Hk); lia|intros t Hl; rewrite Hf by done; done].
  - destruct (hy_mail s) as [|cmd rest] eqn:Hm; [done|]. pose proof (actor_inv s cmd rest Hi Hm) as H.
    destruct (actor_handle _ _) as [[a r] cs]. by intros [= <-].
  - destruct (hy_tasks s !! t) as [k|] eqn:Hk; [|done]. cbn. destruct (answer_allowed k a) eqn:Ha; [|done]. cbn.
    destruct (arc_step _ _ _ _ _ _ _) as [[out pc]|] eqn:Hst; [|done]. cbn. intros [= <-]. by eapply handler_inv.
  - destruct (hy_tasks s !! t) as [k|] eqn:Hk; [|done]. cbn. destruct (tk_status k); try done; intros [= <-]; by eapply joined_inv.
Qed.

Lemma hooking_run_inv cfg s ls s' : slot_inv s → hooking_run cfg s ls = Some s' → slot_inv s'.
Proof.
  revert s. induction ls as [|l ls IH]; intros s Hi; cbn; [by intros [= <-]|].
  destruct (hooking_step cfg s l) as [s1|] eqn:Hs; [|done]. cbn. apply IH. by eapply hooking_step_inv.
Qed.

Lemma hooking_start_inv origin v : slot_inv (hooking_start origin v).
Proof. by split. Qed.

(** ** Properties *)
Lemma sum_two {A} (f : A → nat) l i j x y : i < j → l !! i = Some x → l !! j = Some y → f x + f y ≤ sum_list_with f l.
Proof.
  revert i j. induction l as [|z l IH]; intros [|i] [|j] Hij Hx Hy; simplify_eq/=; try lia.
  - apply list_elem_of_lookup_2 in Hy. apply list_elem_of_split in Hy as (l1 & l2 & ->). rewrite sum_list_with_app. cbn. lia.
  - specialize (IH i j ltac:(lia) Hx Hy). lia.
Qed.

Lemma sum_pos {A} (f : A → nat) l : 0 < sum_list_with f l → ∃ i x, l !! i = Some x ∧ 0 < f x.
Proof.
  induction l as [|z l IH]; cbn; [lia|]. intros H. destruct (f z) eqn:Hz.
  - destruct (IH H) as (i & x & Hx & Hp). by exists (S i), x.
  - exists 0, z. split; [done|]. lia.
Qed.

(** C4: of the handlers of one identity at most one is in the commit phase, from a
    granted [try_begin_commit] to its guard's drop, in every interleaving of the
    handlers, the actor and its clients, with handlers that panic included; and the
    right is never lost: while the actor holds it as given, a handler is in the
    phase, a grant is on its way to one, or a release is in the mailbox. *)
Theorem one_commit_at_a_time cfg origin v ls s :
  hooking_run cfg (hooking_start origin v) ls = Some s →
  (∀ i j k k', hy_tasks s !! i = Some k → hy_tasks s !! j = Some k' →
     committing_at (tk_pc k) = true → committing_at (tk_pc k') = true → i = j) ∧
  (ha_committing (hy_actor s) = true →
     CmdEndCommit ∈ hy_mail s ∨ ∃ t k, hy_tasks s !! t = Some k ∧ (committing_at (tk_pc k) = true ∨ tk_reply k = Some true)).
Proof.
  intros Hr. pose proof (si_slot _ (hooking_run_inv _ _ _ _ (hooking_start_inv origin v) Hr)) as Hs.
  assert (∀ k, committing_at (tk_pc k) = true → 1 ≤ task_weight k) as Hw by (intros k Hk; unfold task_weight; rewrite Hk; cbn; lia).
  assert (b2n (ha_committing (hy_actor s)) ≤ 1) as Hb by (destruct (ha_committing _); cbn; lia). split.
  - intros i j k k' Hi Hj Hc Hc'. specialize (Hw k Hc) as H1. specialize (Hw k' Hc') as H2.
    destruct (Nat.lt_trichotomy i j) as [Hlt|[He|Hlt]]; [|done|].
    + pose proof (sum_two task_weight _ _ _ _ _ Hlt Hi Hj). lia.
    + pose proof (sum_two task_weight _ _ _ _ _ Hlt Hj Hi). lia.
  - intros Hc. rewrite Hc in Hs. cbn in Hs. destruct (sum_list_with end_weight (hy_mail s)) eqn:He.
    + right. destruct (sum_pos task_weight (hy_tasks s)) as (t & k & Hk & Hp); [lia|]. exists t, k. split; [done|].
      unfold task_weight in Hp. destruct (committing_at (tk_pc k)); [by left|]. right.
      destruct (bool_decide_reflect (tk_reply k = Some true)); [done|cbn in Hp; lia].
    + left. destruct (sum_pos end_weight (hy_mail s)) as (i & c & Hc' & Hp); [lia|]. apply list_elem_of_lookup. exists i. destruct c; cbn in Hp; try lia. done.
Qed.

Definition at_sample (t : nat) (a : Answer) : HookLabel := LHandler t sample_view (λ _, 77%Z) a.
Definition actor_turns (n : nat) : list HookLabel := replicate n LActor.

(** Two arcs find the same foreign network at once; the first is let in, the second
    waits. *)
Definition two_arcs : list HookLabel :=
  [LClientAdd 7; LClientAdd 8] ++ actor_turns 2 ++ [at_sample 0 AnsStarted; at_sample 1 AnsStarted] ++ actor_turns 2 ++
  [at_sample 0 (AnsNetworkData (inl sample_data)); at_sample 1 (AnsNetworkData (inl sample_data))] ++ actor_turns 2 ++
  [at_sample 0 (AnsCommit true); at_sample 1 (AnsCommit false)].

Lemma one_commit_at_a_time_witness :
  ∃ s k0 k1, hooking_run hooking_config_default (hooking_start CreateNet sample_view) two_arcs = Some s ∧
    hy_tasks s !! 0 = Some k0 ∧ hy_tasks s !! 1 = Some k1 ∧ committing_at (tk_pc k0) = true ∧ committing_at (tk_pc k1) = false.
Proof.
  eexists _, _, _. split; [vm_compute; reflexivity|]. split; [vm_compute; reflexivity|]. split; [vm_compute; reflexivity|]. split; [reflexivity|].
  match goal with |- ?b = false => destruct b eqn:H; [exfalso|reflexivity] end.
  pose proof (proj1 (one_commit_at_a_time hooking_config_default CreateNet sample_view two_arcs _ ltac:(vm_compute; reflexivity))
    0 1 _ _ ltac:(vm_compute; reflexivity) ltac:(vm_compute; reflexivity) eq_refl H) as Hf. discriminate Hf.
Defined.

(** ** Where the actor loses track of its handlers *)
Definition same_network_data : NetworkData := mkNetworkData 100 5 0 [4%Z; 4%Z] [2%Z; 3%Z].
Definition client_label (l : HookLabel) : bool := match l with LClientAdd _ | LClientRemove _ => true | _ => false end.

(** [remove_arc] does not stay done.  A handler cancelled while it waits for its
    peer still reports its phase when the answer arrives, and the actor inserts the
    arc into the snapshot again; the handler ends, nobody asks for the arc any more,
    and the snapshot keeps showing it. *)
Theorem removed_arc_reappears :
  ∃ ls1 s1 ls2 s2,
    hooking_run hooking_config_default (hooking_start CreateNet sample_view) ls1 = Some s1 ∧
    hy_mail s1 = [] ∧ hs_arcs (ha_snapshot (hy_actor s1)) !! 7%Z = None ∧
    hooking_run hooking_config_default s1 ls2 = Some s2 ∧ existsb client_label ls2 = false ∧
    hy_mail s2 = [] ∧ Forall (λ k, tk_pc k = PcDone ∧ tk_cancelled k = true) (hy_tasks s2) ∧ ha_arc_cancels (hy_actor s2) = ∅ ∧
    hs_arcs (ha_snapshot (hy_actor s2)) !! 7%Z = Some SameNetworkPhase.
Proof.
  exists ([LClientAdd 7] ++ actor_turns 1 ++ [at_sample 0 AnsStarted] ++ actor_turns 1 ++ [LClientRemove 7] ++ actor_turns 1). eexists.
  exists ([at_sample 0 (AnsNetworkData (inl same_network_data))] ++ actor_turns 1 ++ [LJoin 0]). eexists.
  split; [vm_compute; reflexivity|]. repeat (split; [vm_compute; reflexivity|]).
  split; [by repeat constructor|]. split; [vm_compute; reflexivity|vm_compute; reflexivity].
Qed.

(** The end of a cancelled handler unregisters the handler that has replaced it.
    An arc is added, removed and added again while its first handler still waits;
    when that one ends, the actor forgets the token of the second, so the arc can be
    added once more, and two live handlers serve one arc, the first of them out of
    the reach of [remove_arc]. *)
Theorem stale_handler_orphans_its_successor :
  ∃ ls s k1 k2, hooking_run hooking_config_default (hooking_start CreateNet sample_view) ls = Some s ∧
    hy_tasks s !! 1 = Some k1 ∧ hy_tasks s !! 2 = Some k2 ∧ tk_arc k1 = 7%Z ∧ tk_arc k2 = 7%Z ∧
    tk_pc k1 = PcDiscover ∧ tk_pc k2 = PcDiscover ∧ tk_cancelled k1 = false ∧
    ha_arc_cancels (hy_actor s) = ∅ ∧ tk_cancelled k2 = true.
Proof.
  exists ([LClientAdd 7] ++ actor_turns 1 ++ [at_sample 0 AnsStarted; LClientRemove 7; LClientAdd 7] ++ actor_turns 3 ++
          [at_sample 0 (AnsNetworkData (inl same_network_data))] ++ actor_turns 1 ++ [LJoin 0; at_sample 1 AnsStarted; LClientAdd 7] ++
          actor_turns 2 ++ [at_sample 2 AnsStarted; LClientRemove 7] ++ actor_turns 2).
  eexists _, _, _. split; [vm_compute; reflexivity|]. repeat (split; [vm_compute; reflexivity|]). vm_compute. reflexivity.
Qed.

(** A handler that panics leaves its token behind: it is joined, no handler serves the
    arc, and [add_arc] for it does nothing until somebody removes the arc. *)
Theorem panicked_arc_stays_registered :
  ∃ ls s, hooking_run hooking_config_default (hooking_start CreateNet sample_view) ls = Some s ∧
    hy_mail s = [] ∧ Forall (λ k, tk_status k = TaskJoined) (hy_tasks s) ∧ 7%Z ∈ ha_arc_cancels (hy_actor s) ∧
    (∃ s', hooking_run hooking_config_default s [LClientAdd 7; LActor] = Some s' ∧ hy_tasks s' = hy_tasks s) ∧
    ∃ s', hooking_run hooking_config_default s ([LClientRemove 7; LClientAdd 7] ++ actor_turns 2) = Some s' ∧ length (hy_tasks s') = S (length (hy_tasks s)).
Proof.
  exists ([LClientAdd 7] ++ actor_turns 1 ++ [at_sample 0 AnsStarted] ++ actor_turns 1 ++ [at_sample 0 AnsAborted; LJoin 0]).
  eexists. split; [vm_compute; reflexivity|]. split; [reflexivity|]. split; [by repeat constructor|].
  split; [by vm_compute|]. split; eexists; (split; [vm_compute; reflexivity|reflexivity]).
Qed.
