(* ===== verification/Coordinator.v ===== *)
(** * Coordinator: the database of one node and the propagations

    Models [crates/ntk-coordinator/src]: [domain.rs], [config.rs], [traits.rs]
    (what the daemon provides), and [actor.rs] (the state, every command, the
    propagations).  An [Instant] and a [Duration] are numbers of nanoseconds; every
    command is handled at an instant [now], with the map of the node as it is then. *)
From S2P Require Import Prelude Addressing Domain.

(** ** Domain (domain.rs) *)
Record Booking := mkBooking { bk_reserve_request_id : Z; bk_new_pos : Z; bk_new_eldership : Z; bk_expires_at : Z }.

Record GnodeMemory := mkGnodeMemory {
  gm_reserve_list : list Booking;
  gm_max_virtual_pos : Z;
  gm_max_eldership : Z;
  gm_n_nodes : option (Z * Z);
  gm_hooking_memory : option TypedValue
}.

Definition gnode_memory_fresh (gsize : Z) : GnodeMemory := mkGnodeMemory [] gsize 0 None None.

Record CoordReservation := mkCoordReservation { cr_new_pos : Z; cr_new_eldership : Z }.

Inductive ReserveError := TopOutOfRange (top : nat) | CannotReserve (top : nat).

Record PropagationArgs := mkPropagationArgs {
  pa_positions : list Z;
  pa_fp_id : Z;
  pa_propagation_id : Z;
  pa_level : nat;
  pa_data : TypedValue
}.

Inductive CoordEvent :=
  | Reserved (top : nat) (reservation : CoordReservation)
  | ReserveDeleted (top : nat) (reserve_request_id : Z)
  | HookingMemoryChanged (top : nat).

(** ** Configuration (config.rs) *)
Record CoordConfig := mkCoordConfig {
  cc_booking_ttl : Z;
  cc_n_nodes_cache_ttl : Z;
  cc_propagation_retention : Z;
  cc_replica_fanout : Z;
  cc_write_timeout : Z;
  cc_hooking_timeout : Z;
  cc_read_timeout : Z;
  cc_replica_timeout : Z
}.

(** [Duration::from_millis] *)
Definition from_millis (n : Z) : Z := (n * 1000000)%Z.

Definition coord_config_default : CoordConfig :=
  mkCoordConfig (from_millis 60000) (from_millis 20000) (from_millis 200000) 15 (from_millis 8000) (from_millis 8000) (from_millis 1000) (from_millis 1000).

(** ** The node's own g-nodes (traits.rs, [CoordinatorMap]) *)
Record CoordinatorMap := mkCoordinatorMap {
  cm_n_nodes : Z;
  cm_free_positions : nat → list Z;
  cm_can_reserve : nat → bool;
  cm_my_pos : nat → Z;
  cm_fp_id : nat → Z
}.

(** ** The state *)
Record CoordState := mkCoordState {
  cs_topology : Topology;
  cs_config : CoordConfig;
  cs_memory : gmap nat GnodeMemory;
  cs_recent_propagations : gset Z;
  cs_next_propagation_id : Z
}.

Inductive CoordEffect := PublishedMemory (m : gmap nat GnodeMemory) | EmittedEvent (e : CoordEvent).

Definition set_memory (s : CoordState) (m : gmap nat GnodeMemory) : CoordState :=
  mkCoordState (cs_topology s) (cs_config s) m (cs_recent_propagations s) (cs_next_propagation_id s).
Definition set_propagations (s : CoordState) (recent : gset Z) (next : Z) : CoordState :=
  mkCoordState (cs_topology s) (cs_config s) (cs_memory s) recent next.

Definition set_reserve_list (mem : GnodeMemory) (l : list Booking) : GnodeMemory :=
  mkGnodeMemory l (gm_max_virtual_pos mem) (gm_max_eldership mem) (gm_n_nodes mem) (gm_hooking_memory mem).
Definition set_n_nodes (mem : GnodeMemory) (n : option (Z * Z)) : GnodeMemory :=
  mkGnodeMemory (gm_reserve_list mem) (gm_max_virtual_pos mem) (gm_max_eldership mem) n (gm_hooking_memory mem).
Definition put_hooking_memory (mem : GnodeMemory) (data : option TypedValue) : GnodeMemory :=
  mkGnodeMemory (gm_reserve_list mem) (gm_max_virtual_pos mem) (gm_max_eldership mem) (gm_n_nodes mem) data.

(** ** Reservations *)

(** The bookings that have not expired. *)
Definition purge (now : Z) (l : list Booking) : list Booking := retain (λ b, (now <? bk_expires_at b)%Z) l.

Definition booked_by (request_id : Z) (b : Booking) : bool := (bk_reserve_request_id b =? request_id)%Z.

(** [iter_mut().find(..)], with the deadline of the booking found moved. *)
Fixpoint renew (request_id deadline : Z) (l : list Booking) : list Booking :=
  match l with
  | [] => []
  | b :: l' =>
      if booked_by request_id b then mkBooking (bk_reserve_request_id b) (bk_new_pos b) (bk_new_eldership b) deadline :: l'
      else b :: renew request_id deadline l'
  end.

(** A free real position that is not taken, or else the next virtual one; with the
    greatest virtual position handed out so far. *)
Definition choose_position {E} (free taken : list Z) (max_virtual_pos : Z) : res E (Z * Z) :=
  match find (λ p, negb (contains p taken)) free with
  | Some p => Ok (p, max_virtual_pos)
  | None => v ← u32_add max_virtual_pos 1; Ok (v, v)
  end.

(** A booking for a request that has none. *)
Definition book (m : CoordinatorMap) (level : nat) (request_id deadline : Z) (mem : GnodeMemory) : res ReserveError (GnodeMemory * CoordReservation) :=
  pv ← choose_position (cm_free_positions m level) (bk_new_pos <$> gm_reserve_list mem) (gm_max_virtual_pos mem);
  eldership ← u64_add (gm_max_eldership mem) 1;
  Ok (mkGnodeMemory (gm_reserve_list mem ++ [mkBooking request_id pv.1 eldership deadline]) pv.2 eldership (gm_n_nodes mem) (gm_hooking_memory mem),
      mkCoordReservation pv.1 eldership).

Definition reserve_enter (s : CoordState) (m : CoordinatorMap) (now : Z) (top : nat) (request_id : Z)
    : CoordState * list CoordEffect * res ReserveError CoordReservation :=
  if (top <? 1) || (topology_levels (cs_topology s) <? top) then (s, [], Err (TopOutOfRange top))
  else if negb (cm_can_reserve m (top - 1)) then (s, [], Err (CannotReserve top))
  else
    match cs_memory s !! top with
    | None => (s, [], Panic)
    | Some mem =>
        let deadline := (now + cc_booking_ttl (cs_config s))%Z in
        let mem := set_reserve_list mem (purge now (gm_reserve_list mem)) in
        let granted mem' r :=
          let memory := <[top := mem']> (cs_memory s) in
          (set_memory s memory, [PublishedMemory memory; EmittedEvent (Reserved top r)], Ok r) in
        match find (booked_by request_id) (gm_reserve_list mem) with
        | Some b => granted (set_reserve_list mem (renew request_id deadline (gm_reserve_list mem))) (mkCoordReservation (bk_new_pos b) (bk_new_eldership b))
        | None =>
            match book m (top - 1) request_id deadline mem with
            | Ok (mem', r) => granted mem' r
            | Err e => (set_memory s (<[top := mem]> (cs_memory s)), [], Err e)
            | Panic => (set_memory s (<[top := mem]> (cs_memory s)), [], Panic)
            end
        end
    end.

(** A change of one level's record, if there is one. *)
Definition alter_memory (f : GnodeMemory → GnodeMemory) (top : nat) (s : CoordState) : CoordState := set_memory s (alter f top (cs_memory s)).

Definition delete_reserve_enter (s : CoordState) (top : nat) (request_id : Z) : CoordState * list CoordEffect :=
  let s' := alter_memory (λ mem, set_reserve_list mem (retain (λ b, negb (booked_by request_id b)) (gm_reserve_list mem))) top s in
  (s', [PublishedMemory (cs_memory s'); EmittedEvent (ReserveDeleted top request_id)]).

(** ** Node count, scratch memory, replicas *)
Definition number_of_nodes {E} (s : CoordState) (m : CoordinatorMap) (now : Z) : CoordState * list CoordEffect * res E Z :=
  let top := topology_levels (cs_topology s) in
  match cs_memory s !! top with
  | None => (s, [], Panic)
  | Some mem =>
      let sample :=
        let s' := set_memory s (<[top := set_n_nodes mem (Some (cm_n_nodes m, now + cc_n_nodes_cache_ttl (cs_config s))%Z)]> (cs_memory s)) in
        (s', [PublishedMemory (cs_memory s')], Ok (cm_n_nodes m)) in
      match gm_n_nodes mem with
      | Some (n, expiry) => if (now <? expiry)%Z then (s, [], Ok n) else sample
      | None => sample
      end
  end.

Definition invalidate_n_nodes (s : CoordState) : CoordState * list CoordEffect :=
  let s' := alter_memory (λ mem, set_n_nodes mem None) (topology_levels (cs_topology s)) s in
  (s', [PublishedMemory (cs_memory s')]).

Definition get_hooking_memory (s : CoordState) (top : nat) : option TypedValue := mem ← cs_memory s !! top; gm_hooking_memory mem.

Definition set_hooking_memory (s : CoordState) (top : nat) (data : option TypedValue) : CoordState * list CoordEffect :=
  let s' := alter_memory (λ mem, put_hooking_memory mem data) top s in
  (s', [PublishedMemory (cs_memory s'); EmittedEvent (HookingMemoryChanged top)]).

(** Every field but the local cache of the node count. *)
Definition apply_replica (s : CoordState) (top : nat) (memory : GnodeMemory) : CoordState * list CoordEffect :=
  let s' := set_memory s (<[top := set_n_nodes memory (mem ← cs_memory s !! top; gm_n_nodes mem)]> (cs_memory s)) in
  (s', [PublishedMemory (cs_memory s')]).

(** ** Propagations *)

(** [u64] arithmetic of the id mixer; [rotate_left]. *)
Definition u64_wrapping_mul (a b : Z) : Z := ((a * b) mod 2 ^ 64)%Z.
Definition rotate_left (x n : Z) : Z := Z.lor (Z.shiftl x n mod 2 ^ 64) (Z.shiftr x (64 - n)).
Definition fnv_step (h v : Z) : Z := rotate_left (u64_wrapping_mul (Z.lxor h v) 0x00000100000001b3) 29.

(** [i32 as u32], [u32 as i32]. *)
Definition i32_bits (z : Z) : Z := (z mod 2 ^ 32)%Z.
Definition i32_of_bits (z : Z) : Z := if (z <? 2 ^ 31)%Z then z else (z - 2 ^ 32)%Z.

Definition mix_propagation_id (node_key counter : Z) : Z :=
  let x := Z.lxor node_key (u64_wrapping_mul (i32_bits counter) 0x9e3779b97f4a7c15) in
  let x := Z.lxor x (Z.shiftr x 30) in
  let x := u64_wrapping_mul x 0xbf58476d1ce4e5b9 in
  let x := Z.lxor x (Z.shiftr x 27) in
  let x := u64_wrapping_mul x 0x94d049bb133111eb in
  let x := Z.lxor x (Z.shiftr x 31) in
  i32_of_bits (Z.shiftr x 32).

(** [wrapping_add(1)] on [i32]. *)
Definition i32_wrapping_inc (z : Z) : Z := i32_of_bits ((z + 1) mod 2 ^ 32).

Definition node_key (t : Topology) (m : CoordinatorMap) : Z :=
  foldl (λ h l, fnv_step (fnv_step h (cm_my_pos m l)) (cm_fp_id m l mod 2 ^ 64)%Z) 0xcbf29ce484222325%Z (seq 0 (topology_levels t)).

(** The tuple names my own g-node at [level]. *)
Definition names_my_gnode (t : Topology) (m : CoordinatorMap) (positions : list Z) (fp_id : Z) (level : nat) : bool :=
  negb ((topology_levels t <=? level) || negb (length positions =? topology_levels t - level)) &&
  all (λ ip, (ip.2 =? cm_my_pos m (level + ip.1))%Z) (enumerate positions) && (fp_id =? cm_fp_id m level)%Z.

Definition check_propagation (s : CoordState) (m : CoordinatorMap) (positions : list Z) (fp_id propagation_id : Z) (level : nat) : CoordState * bool :=
  if bool_decide (propagation_id ∈ cs_recent_propagations s) then (s, false)
  else if names_my_gnode (cs_topology s) m positions fp_id level
  then (set_propagations s ({[propagation_id]} ∪ cs_recent_propagations s) (cs_next_propagation_id s), true)
  else (s, false).

Definition next_propagation_id (s : CoordState) (node_key : Z) : CoordState * Z :=
  let id := mix_propagation_id node_key (cs_next_propagation_id s) in
  (set_propagations s ({[id]} ∪ cs_recent_propagations s) (i32_wrapping_inc (cs_next_propagation_id s)), id).

(** ** Commands *)
Inductive CoordCmd :=
  | NumberOfNodes
  | ReserveEnter (top : nat) (request_id : Z)
  | DeleteReserveEnter (top : nat) (request_id : Z)
  | GetHookingMemory (top : nat)
  | SetHookingMemory (top : nat) (data : option TypedValue)
  | ApplyReplica (top : nat) (memory : GnodeMemory)
  | CheckPropagation (positions : list Z) (fp_id propagation_id : Z) (level : nat)
  | ExpirePropagation (propagation_id : Z)
  | NextPropagationId (node_key : Z)
  | CmdHandOff
  | InvalidateNNodes.

Inductive CoordReply :=
  | RepNone
  | RepNodes (n : Z)
  | RepReservation (r : res ReserveError CoordReservation)
  | RepMemory (data : option TypedValue)
  | RepAccepted (b : bool)
  | RepId (id : Z)
  | RepHandOff (m : gmap nat GnodeMemory)
  | RepPanic.

(** [State::handle] *)
Definition coord_handle (s : CoordState) (m : CoordinatorMap) (now : Z) (cmd : CoordCmd) : CoordState * list CoordEffect * CoordReply :=
  match cmd with
  | NumberOfNodes =>
      let '(s', e, r) := number_of_nodes (E:=ReserveError) s m now in (s', e, match r with Ok n => RepNodes n | _ => RepPanic end)
  | ReserveEnter top request_id =>
      let '(s', e, r) := reserve_enter s m now top request_id in (s', e, match r with Panic => RepPanic | _ => RepReservation r end)
  | DeleteReserveEnter top request_id => let '(s', e) := delete_reserve_enter s top request_id in (s', e, RepNone)
  | GetHookingMemory top => (s, [], RepMemory (get_hooking_memory s top))
  | SetHookingMemory top data => let '(s', e) := set_hooking_memory s top data in (s', e, RepNone)
  | ApplyReplica top memory => let '(s', e) := apply_replica s top memory in (s', e, RepNone)
  | CheckPropagation positions fp_id propagation_id level =>
      let '(s', b) := check_propagation s m positions fp_id propagation_id level in (s', [], RepAccepted b)
  | ExpirePropagation propagation_id =>
      (set_propagations s (cs_recent_propagations s ∖ {[propagation_id]}) (cs_next_propagation_id s), [], RepNone)
  | NextPropagationId node_key => let '(s', id) := next_propagation_id s node_key in (s', [], RepId id)
  | CmdHandOff => (s, [], RepHandOff (cs_memory s))
  | InvalidateNNodes => let '(s', e) := invalidate_n_nodes s in (s', e, RepNone)
  end.

(** [Manager::new] *)
Definition coord_new (t : Topology) (config : CoordConfig) (handoff : option (gmap nat GnodeMemory)) : CoordState :=
  mkCoordState t config
    (list_to_map ((λ top,
       (top, default (gnode_memory_fresh (default 0%Z (topology_gsize t (top - 1)))) (h ← handoff; h !! top))) <$> seq 1 (topology_levels t)))
    ∅ 1.

(** ** The propagations of a handle *)
Inductive PropKind := PrepareMigrationP | FinishMigrationP | PrepareEnterP | FinishEnterP | WeHaveSplittedP.

(** What a propagation does outside the actor, in order. *)
Inductive PropAction :=
  | SendToEach (kind : PropKind) (args : PropagationArgs)
  | SendToAll (kind : PropKind) (args : PropagationArgs)
  | ApplyLocally (kind : PropKind) (level : nat) (data : TypedValue)
  | ScheduleCleanup (propagation_id : Z).

(** Only a committed change of the membership makes the node count stale. *)
Definition commits (kind : PropKind) : bool := match kind with PrepareMigrationP | PrepareEnterP => false | _ => true end.

Definition fan_out (kind : PropKind) (args : PropagationArgs) (s : CoordState) : CoordState * list PropAction :=
  if commits kind then
    ((invalidate_n_nodes s).1, [SendToAll kind args; ApplyLocally kind (pa_level args) (pa_data args); ScheduleCleanup (pa_propagation_id args)])
  else (s, [SendToEach kind args; ApplyLocally kind (pa_level args) (pa_data args); ScheduleCleanup (pa_propagation_id args)]).

Definition prepare_propagation (s : CoordState) (m : CoordinatorMap) (level : nat) (data : TypedValue) : CoordState * PropagationArgs :=
  let '(s', id) := next_propagation_id s (node_key (cs_topology s) m) in
  (s', mkPropagationArgs (cm_my_pos m <$> seq level (topology_levels (cs_topology s) - level)) (cm_fp_id m level) id level data).

(** [prepare_migration] .. [we_have_splitted] *)
Definition propagate (kind : PropKind) (s : CoordState) (m : CoordinatorMap) (level : nat) (data : TypedValue)
    : CoordState * PropagationArgs * list PropAction :=
  let '(s1, args) := prepare_propagation s m level data in
  let '(s2, out) := fan_out kind args s1 in (s2, args, out).

(** [handle_execute_prepare_migration] .. [handle_execute_we_have_splitted] *)
Definition handle_execute (kind : PropKind) (s : CoordState) (m : CoordinatorMap) (args : PropagationArgs) : CoordState * list PropAction :=
  let '(s1, ok) := check_propagation s m (pa_positions args) (pa_fp_id args) (pa_propagation_id args) (pa_level args) in
  if ok then fan_out kind args s1 else (s1, []).
