(* ===== verification/CoordProps.v ===== *)
(** * Coordinator: reservations

    What a node hands out to those who enter its g-nodes, over any sequence of
    commands: the positions booked at one level are pairwise different for as long
    as their bookings last, elderships are never repeated, and virtual positions
    are never confused with real ones.  And what a replica that arrives late does
    to that. *)
From S2P Require Import Prelude Addressing Domain Coordinator.

(** ** The record of one level *)
Record memory_wf (gsize : Z) (mem : GnodeMemory) : Prop := mkMemoryWf {
  mw_ids : NoDup (bk_reserve_request_id <$> gm_reserve_list mem);
  mw_pos : NoDup (bk_new_pos <$> gm_reserve_list mem);
  mw_eldership : NoDup (bk_new_eldership <$> gm_reserve_list mem);
  mw_eldership_bound : Forall (λ b, 0 < bk_new_eldership b ≤ gm_max_eldership mem)%Z (gm_reserve_list mem);
  mw_place : Forall (λ b, 0 ≤ bk_new_pos b < gsize ∨ gsize < bk_new_pos b ≤ gm_max_virtual_pos mem)%Z (gm_reserve_list mem);
  mw_max : (gsize ≤ gm_max_virtual_pos mem ≤ U32_MAX ∧ 0 ≤ gm_max_eldership mem ≤ U64_MAX)%Z
}.

(** The free positions a map tells are real ones. *)
Definition map_ok (t : Topology) (m : CoordinatorMap) : Prop :=
  ∀ level gsize, topology_gsize t level = Some gsize → Forall (λ p, 0 ≤ p < gsize)%Z (cm_free_positions m level).

Definition coord_wf (s : CoordState) : Prop :=
  ∀ top, 1 ≤ top ≤ topology_levels (cs_topology s) →
    ∃ gsize mem, topology_gsize (cs_topology s) (top - 1) = Some gsize ∧ cs_memory s !! top = Some mem ∧ memory_wf gsize mem.

Lemma retain_fmap_sublist {A B} (f : A → B) (p : A → bool) l : f <$> retain p l `sublist_of` f <$> l.
Proof. induction l as [|x l IH]; [done|]. unfold retain in *. cbn. destruct (p x); [by constructor|by apply sublist_cons]. Qed.

Lemma retain_Forall {A} (P : A → Prop) (p : A → bool) l : Forall P l → Forall P (retain p l).
Proof. intros H. apply Forall_forall. intros x [Hx _]%list_elem_of_In%List.filter_In. rewrite Forall_forall in H. by apply H, list_elem_of_In. Qed.

Lemma retain_elem {A} (p : A → bool) l x : x ∈ l → p x = true → x ∈ retain p l.
Proof. intros Hx Hp. apply list_elem_of_In, List.filter_In. split; [by apply list_elem_of_In|done]. Qed.

Lemma retain_wf gsize mem p : memory_wf gsize mem → memory_wf gsize (set_reserve_list mem (retain p (gm_reserve_list mem))).
Proof.
  intros [H1 H2 H3 H4 H5 H6]. split; cbn; try done.
  1-3: by eapply sublist_NoDup; [|apply retain_fmap_sublist].
  1-2: by apply retain_Forall.
Qed.

(** A renewed list differs in one deadline only. *)
Lemma renew_fmap {B} (f : Booking → B) rid d l :
  (∀ b, f (mkBooking (bk_reserve_request_id b) (bk_new_pos b) (bk_new_eldership b) d) = f b) → f <$> renew rid d l = f <$> l.
Proof. intros Hf. induction l as [|b l IH]; [done|]. cbn. destruct (booked_by rid b); cbn; [by rewrite Hf|by rewrite IH]. Qed.

Lemma renew_Forall (P : Booking → Prop) rid d l :
  (∀ b, P b → P (mkBooking (bk_reserve_request_id b) (bk_new_pos b) (bk_new_eldership b) d)) → Forall P l → Forall P (renew rid d l).
Proof. intros HP. induction 1 as [|b l Hb Hl IH]; [done|]. cbn. destruct (booked_by rid b); constructor; auto. Qed.

Lemma renew_wf gsize mem rid d : memory_wf gsize mem → memory_wf gsize (set_reserve_list mem (renew rid d (gm_reserve_list mem))).
Proof.
  intros [H1 H2 H3 H4 H5 H6]. split; cbn; try done.
  1-3: rewrite renew_fmap; done.
  1-2: by apply renew_Forall.
Qed.

Lemma renew_other rid d l b : b ∈ l → bk_reserve_request_id b ≠ rid → b ∈ renew rid d l.
Proof.
  induction l as [|x l IH]; [by intros ?%elem_of_nil|]. cbn. intros Hb Hne. unfold booked_by. destruct (Z.eqb_spec (bk_reserve_request_id x) rid).
  - apply elem_of_cons in Hb as [->|Hb]; [done|]. by apply list_elem_of_further.
  - apply elem_of_cons in Hb as [->|Hb]; [apply list_elem_of_here|]. by apply list_elem_of_further, IH.
Qed.

Lemma renew_found rid d l b : find (booked_by rid) l = Some b → mkBooking rid (bk_new_pos b) (bk_new_eldership b) d ∈ renew rid d l.
Proof.
  unfold find. induction l as [|x l IH]; cbn; [done|]. destruct (booked_by rid x) eqn:Hx.
  - intros [= ->]. unfold booked_by in Hx. apply Z.eqb_eq in Hx. rewrite Hx. apply list_elem_of_here.
  - intros H. by apply list_elem_of_further, IH.
Qed.

Lemma find_none {A} (p : A → bool) l x : find p l = None → x ∈ l → p x = false.
Proof. unfold find. intros H Hx%list_elem_of_In. by apply (List.find_none _ _ H). Qed.

(** Where a new position comes from. *)
Lemma choose_position_spec {E} free taken v p v' :
  (choose_position free taken v : res E _) = Ok (p, v') →
  (p ∈ free ∧ (p ∉ taken) ∧ v' = v) ∨ ((∀ q, q ∈ free → q ∈ taken) ∧ p = (v + 1)%Z ∧ v' = (v + 1)%Z ∧ (v + 1 ≤ U32_MAX)%Z).
Proof.
  unfold choose_position. destruct (find _ free) as [q|] eqn:Hf.
  - intros [= <- <-]. left. unfold find in Hf. apply List.find_some in Hf as [Hq Hn]. unfold contains in Hn.
    apply negb_true_iff, bool_decide_eq_false in Hn. split; [by apply list_elem_of_In|done].
  - unfold u32_add. destruct (Z.leb_spec (v + 1) U32_MAX); [|done]. cbn. intros [= <- <-]. right. split; [|done].
    intros q Hq. pose proof (find_none _ _ _ Hf Hq) as Hn. unfold contains in Hn. by apply negb_false_iff, bool_decide_eq_true in Hn.
Qed.

(** A new booking is apart from all others. *)
Lemma book_spec gsize m level rid d mem mem' r :
  memory_wf gsize mem → Forall (λ p, 0 ≤ p < gsize)%Z (cm_free_positions m level) → Forall (λ b, booked_by rid b = false) (gm_reserve_list mem) →
  book m level rid d mem = Ok (mem', r) →
  memory_wf gsize mem' ∧ gm_reserve_list mem' = gm_reserve_list mem ++ [mkBooking rid (cr_new_pos r) (cr_new_eldership r) d] ∧
  cr_new_eldership r = (gm_max_eldership mem + 1)%Z ∧ gm_max_eldership mem' = cr_new_eldership r ∧
  (cr_new_pos r ∈ cm_free_positions m level ∧ gm_max_virtual_pos mem' = gm_max_virtual_pos mem ∨
   cr_new_pos r = (gm_max_virtual_pos mem + 1)%Z ∧ gm_max_virtual_pos mem' = cr_new_pos r).
Proof.
  intros [H1 H2 H3 H4 H5 [H6 H7]] Hfree Hid Hb. unfold book in Hb.
  destruct (choose_position _ _ _) as [[p v']| |] eqn:Hc; try done. cbn in Hb. unfold u64_add in Hb.
  destruct (Z.leb_spec (gm_max_eldership mem + 1) U64_MAX); [|done]. cbn in Hb. simplify_eq. cbn.
  assert ((p ∉ bk_new_pos <$> gm_reserve_list mem) ∧ (gm_max_virtual_pos mem ≤ v' ≤ U32_MAX)%Z ∧ ((0 ≤ p < gsize) ∨ (gsize < p ≤ v'))%Z ∧
     (p ∈ cm_free_positions m level ∧ v' = gm_max_virtual_pos mem ∨ p = (gm_max_virtual_pos mem + 1)%Z ∧ v' = p)) as (Hp & Hv & Hplace & Hfrom).
  { apply choose_position_spec in Hc as [(Hin & Hn & ->)|(_ & -> & -> & Hle)].
    - rewrite Forall_forall in Hfree. specialize (Hfree p Hin). split; [done|]. split; [lia|]. split; [by left|by left].
    - split; [|split; [lia|split; [right; lia|by right]]]. intros (b & Hbp & Hin)%list_elem_of_fmap.
      rewrite Forall_forall in H5. specialize (H5 b Hin). lia. }
  split; [|by split_and!]. split; cbn; rewrite ?fmap_app; cbn.
  - apply NoDup_app. split; [done|]. split; [|apply NoDup_singleton]. intros x (b & -> & Hin)%list_elem_of_fmap Hx%list_elem_of_singleton.
    rewrite Forall_forall in Hid. specialize (Hid b Hin). unfold booked_by in Hid. lia.
  - apply NoDup_app. split; [done|]. split; [|apply NoDup_singleton]. by intros x Hx ->%list_elem_of_singleton.
  - apply NoDup_app. split; [done|]. split; [|apply NoDup_singleton]. intros x (b & -> & Hin)%list_elem_of_fmap Hx%list_elem_of_singleton.
    rewrite Forall_forall in H4. specialize (H4 b Hin). lia.
  - apply Forall_app_2; [|apply Forall_singleton; cbn; lia]. eapply Forall_impl; [exact H4|]. cbn. lia.
  - apply Forall_app_2; [|by apply Forall_singleton]. eapply Forall_impl; [exact H5|]. cbn. lia.
  - lia.
Qed.

(** ** The state *)
Lemma gsize_top t top : 1 ≤ top ≤ topology_levels t → ∃ g, topology_gsize t (top - 1) = Some g.
Proof. intros H. apply lookup_lt_is_Some_2. unfold topology_levels in H. lia. Qed.

(** One level's record changes to another well-formed one. *)
Lemma insert_wf s top mem gsize :
  coord_wf s → topology_gsize (cs_topology s) (top - 1) = Some gsize → 1 ≤ top → memory_wf gsize mem → coord_wf (set_memory s (<[top := mem]> (cs_memory s))).
Proof.
  intros Hw Hg Ht Hm top' Htop'. cbn in *. destruct (Hw top' Htop') as (g & mem0 & Hg0 & Hm0 & Hw0).
  destruct (decide (top' = top)) as [->|Hne].
  - exists g, mem. rewrite lookup_insert_eq. by simplify_eq.
  - exists g, mem0. by rewrite lookup_insert_ne.
Qed.

Lemma alter_wf s top f : coord_wf s → (∀ gsize mem, memory_wf gsize mem → memory_wf gsize (f mem)) → coord_wf (alter_memory f top s).
Proof.
  intros Hw Hf top' Htop'. cbn in *. destruct (Hw top' Htop') as (g & mem0 & Hg0 & Hm0 & Hw0). destruct (decide (top' = top)) as [->|Hne].
  - exists g, (f mem0). rewrite lookup_alter_eq, Hm0. by auto.
  - exists g, mem0. by rewrite lookup_alter_ne.
Qed.

(** The outcomes of a request. *)
Inductive reserve_outcome (s : CoordState) (m : CoordinatorMap) (now : Z) (top : nat) (rid : Z) : CoordState → res ReserveError CoordReservation → Prop :=
  | outcome_refused e : (1 ≤ top ≤ topology_levels (cs_topology s) → cm_can_reserve m (top - 1) = false) → reserve_outcome s m now top rid s (Err e)
  | outcome_granted gsize mem mem' r :
      1 ≤ top ≤ topology_levels (cs_topology s) → cm_can_reserve m (top - 1) = true →
      topology_gsize (cs_topology s) (top - 1) = Some gsize → cs_memory s !! top = Some mem → memory_wf gsize mem' →
      mkBooking rid (cr_new_pos r) (cr_new_eldership r) (now + cc_booking_ttl (cs_config s)) ∈ gm_reserve_list mem' →
      (∀ b, b ∈ gm_reserve_list mem → (now < bk_expires_at b)%Z → bk_reserve_request_id b ≠ rid → b ∈ gm_reserve_list mem') →
      ((∃ b, b ∈ gm_reserve_list mem ∧ (now < bk_expires_at b)%Z ∧ bk_reserve_request_id b = rid ∧ bk_new_pos b = cr_new_pos r ∧ bk_new_eldership b = cr_new_eldership r ∧
         gm_max_virtual_pos mem' = gm_max_virtual_pos mem ∧ gm_max_eldership mem' = gm_max_eldership mem)
       ∨ (cr_new_eldership r = (gm_max_eldership mem + 1)%Z ∧ gm_max_eldership mem' = cr_new_eldership r ∧
          (cr_new_pos r ∈ cm_free_positions m (top - 1) ∧ gm_max_virtual_pos mem' = gm_max_virtual_pos mem ∨
           cr_new_pos r = (gm_max_virtual_pos mem + 1)%Z ∧ gm_max_virtual_pos mem' = cr_new_pos r))) →
      reserve_outcome s m now top rid (set_memory s (<[top := mem']> (cs_memory s))) (Ok r)
  | outcome_exhausted gsize mem s' :
      topology_gsize (cs_topology s) (top - 1) = Some gsize → cs_memory s !! top = Some mem →
      gm_max_virtual_pos mem = U32_MAX ∨ gm_max_eldership mem = U64_MAX → reserve_outcome s m now top rid s' Panic.

Lemma find_elem {A} (p : A → bool) l x : find p l = Some x → x ∈ l ∧ p x = true.
Proof. unfold find. intros [H1 H2]%List.find_some. split; [by apply list_elem_of_In|done]. Qed.

Lemma purge_elem now l b : b ∈ purge now l ↔ b ∈ l ∧ (now < bk_expires_at b)%Z.
Proof.
  split; [|intros [H1 H2]; apply retain_elem; [done|lia]].
  intros [Hx Hl]%list_elem_of_In%List.filter_In. split; [by apply list_elem_of_In|lia].
Qed.

(** [book] fails only when a counter is exhausted. *)
Lemma book_total m level rid d mem :
  (gm_max_virtual_pos mem ≤ U32_MAX)%Z → (gm_max_eldership mem ≤ U64_MAX)%Z →
  (∃ mem' r, book m level rid d mem = Ok (mem', r)) ∨ book m level rid d mem = Panic ∧ (gm_max_virtual_pos mem = U32_MAX ∨ gm_max_eldership mem = U64_MAX).
Proof.
  intros Hv He. unfold book, choose_position. destruct (find _ _) as [p|]; cbn; unfold u32_add, u64_add.
  - destruct (Z.leb_spec (gm_max_eldership mem + 1) U64_MAX); cbn; [left; by eexists _, _|right; split; [done|lia]].
  - destruct (Z.leb_spec (gm_max_virtual_pos mem + 1) U32_MAX); cbn; [|right; split; [done|lia]].
    destruct (Z.leb_spec (gm_max_eldership mem + 1) U64_MAX); cbn; [left; by eexists _, _|right; split; [done|lia]].
Qed.

Lemma reserve_enter_outcome s m now top rid s' e r :
  coord_wf s → map_ok (cs_topology s) m → reserve_enter s m now top rid = (s', e, r) → reserve_outcome s m now top rid s' r.
Proof.
  intros Hw Hm Hr. unfold reserve_enter in Hr. 
  destruct (Nat.ltb_spec top 1), (Nat.ltb_spec (topology_levels (cs_topology s)) top); cbn in Hr; try (simplify_eq; apply outcome_refused; lia).
  assert (1 ≤ top ≤ topology_levels (cs_topology s)) as Htop by done. destruct (cm_can_reserve m (top - 1)) eqn:Hcan; cbn in Hr; [|simplify_eq; by apply outcome_refused].
  destruct (Hw top Htop) as (g & mem & Hg & Hmem & Hwf). rewrite Hmem in Hr.
  assert (memory_wf g (set_reserve_list mem (purge now (gm_reserve_list mem)))) as Hwp by by apply retain_wf.
  cbn [gm_reserve_list set_reserve_list] in Hr. destruct (find (booked_by rid) (purge now (gm_reserve_list mem))) as [b|] eqn:Hf.
  - injection Hr as <- <- <-. apply find_elem in Hf as Hb. destruct Hb as [[Hb Hlive]%purge_elem Hrid]. unfold booked_by in Hrid.
    eapply outcome_granted; try done.
    + by apply (renew_wf g (set_reserve_list mem (purge now (gm_reserve_list mem)))).
    + cbn. by apply renew_found.
    + cbn. intros b' Hb' Hl' Hne. apply renew_other; [|done]. by apply purge_elem.
    + left. exists b. cbn. split_and!; try done. lia.
  - destruct (book_total m (top - 1) rid (now + cc_booking_ttl (cs_config s)) (set_reserve_list mem (purge now (gm_reserve_list mem))))
      as [(mem' & r' & Hb)|[Hb Hex]]; [apply Hwf..| |]; rewrite Hb in Hr; injection Hr as <- <- <-; [|by eapply outcome_exhausted].
    eapply book_spec in Hb as (Hwf' & Hl & He & He' & Hp); [|done|by apply (Hm (top - 1))|].
    2:{ apply Forall_forall. intros b Hb'. by apply (find_none _ _ _ Hf). }
    eapply outcome_granted; try done.
    + rewrite Hl. apply elem_of_app. right. by apply list_elem_of_singleton.
    + intros b Hb' Hlive _. rewrite Hl. apply elem_of_app. left. by apply purge_elem.
    + right. by split_and!.
Qed.

(** ** Histories *)
Record CoordInput := mkCoordInput { ci_map : CoordinatorMap; ci_now : Z; ci_cmd : CoordCmd }.

(** Who holds what, and until when, by the answers given: the last grant of each
    request, unless it was deleted. *)
Abbreviation Ledger := (gmap (nat * Z) (CoordReservation * Z)).

Definition ledger_after (ttl : Z) (g : Ledger) (i : CoordInput) (reply : CoordReply) : Ledger :=
  match ci_cmd i, reply with
  | ReserveEnter top rid, RepReservation (Ok r) => <[(top, rid) := (r, ci_now i + ttl)%Z]> g
  | DeleteReserveEnter top rid, _ => delete (top, rid) g
  | _, _ => g
  end.

Definition no_replica (cmd : CoordCmd) : bool := match cmd with ApplyReplica _ _ => false | _ => true end.

(** Runs in which time does not go back and no replica arrives. *)
Inductive coord_run (s0 : CoordState) : CoordState → Z → Ledger → Prop :=
  | coord_run_start now : coord_run s0 s0 now ∅
  | coord_run_step s now g i s' e reply :
      coord_run s0 s now g → (now ≤ ci_now i)%Z → map_ok (cs_topology s) (ci_map i) → no_replica (ci_cmd i) = true →
      coord_handle s (ci_map i) (ci_now i) (ci_cmd i) = (s', e, reply) → reply ≠ RepPanic →
      coord_run s0 s' (ci_now i) (ledger_after (cc_booking_ttl (cs_config s)) g i reply).

(** What the ledger says is booked. *)
Definition ledger_kept (s : CoordState) (now : Z) (g : Ledger) : Prop :=
  ∀ top rid r d, g !! (top, rid) = Some (r, d) → (now < d)%Z →
    ∃ mem, cs_memory s !! top = Some mem ∧ 1 ≤ top ≤ topology_levels (cs_topology s) ∧
      mkBooking rid (cr_new_pos r) (cr_new_eldership r) d ∈ gm_reserve_list mem.

(** The records of a state keep their bookings. *)
Lemma ledger_kept_mono s s' now now' g :
  cs_topology s' = cs_topology s → (now ≤ now')%Z →
  (∀ top mem, cs_memory s !! top = Some mem → ∃ mem', cs_memory s' !! top = Some mem' ∧ gm_reserve_list mem' = gm_reserve_list mem) →
  ledger_kept s now g → ledger_kept s' now' g.
Proof.
  intros Ht Hn Hs Hk top rid r d Hg Hd. destruct (Hk top rid r d Hg) as (mem & Hm & Hl & Hb); [lia|].
  destruct (Hs top mem Hm) as (mem' & Hm' & Hl'). exists mem'. rewrite Ht, Hl'. done.
Qed.

Lemma granted_ledger s m now now' g top rid s' r :
  (now ≤ now')%Z → ledger_kept s now g → reserve_outcome s m now' top rid s' (Ok r) →
  ledger_kept s' now' (<[(top, rid) := (r, now' + cc_booking_ttl (cs_config s))%Z]> g).
Proof.
  intros Hn Hk Ho. inversion Ho as [|gsize mem mem' r' Htop _ Hg Hm Hwf Hin Hkeep _|]; subst. clear Ho. intros top1 rid1 r1 d1 Hl Hd.
  destruct (decide ((top1, rid1) = (top, rid))) as [[= -> ->]|Hne].
  - rewrite lookup_insert_eq in Hl. simplify_eq. exists mem'. cbn. by rewrite lookup_insert_eq.
  - rewrite lookup_insert_ne in Hl by done. destruct (Hk top1 rid1 r1 d1 Hl) as (mem1 & Hm1 & Hl1 & Hb1); [lia|]. cbn.
    destruct (decide (top1 = top)) as [->|Htne].
    + simplify_eq. exists mem'. rewrite lookup_insert_eq. split; [done|]. split; [done|]. apply Hkeep; cbn; [done..|congruence].
    + exists mem1. by rewrite lookup_insert_ne.
Qed.

Lemma deleted_ledger s now now' g top rid :
  (now ≤ now')%Z → ledger_kept s now g → ledger_kept (delete_reserve_enter s top rid).1 now' (delete (top, rid) g).
Proof.
  intros Hn Hk top1 rid1 r1 d1 Hl Hd. rewrite lookup_delete_Some in Hl. destruct Hl as [Hne Hl].
  destruct (Hk top1 rid1 r1 d1 Hl) as (mem1 & Hm1 & Hl1 & Hb1); [lia|]. cbn. destruct (decide (top1 = top)) as [->|Htne].
  - rewrite lookup_alter_eq, Hm1. eexists. split; [done|]. split; [done|]. cbn. apply retain_elem; [done|]. unfold booked_by. cbn.
    destruct (Z.eqb_spec rid1 rid); [congruence|done].
  - exists mem1. by rewrite lookup_alter_ne.
Qed.

(** A command that touches no booking. *)
Lemma untouched_inv s s' :
  cs_topology s' = cs_topology s → (cs_memory s' = cs_memory s ∨ ∃ f top, cs_memory s' = alter f top (cs_memory s) ∧
     ∀ mem, gm_reserve_list (f mem) = gm_reserve_list mem ∧ gm_max_virtual_pos (f mem) = gm_max_virtual_pos mem ∧ gm_max_eldership (f mem) = gm_max_eldership mem) →
  coord_wf s → coord_wf s' ∧ ∀ top mem, cs_memory s !! top = Some mem → ∃ mem', cs_memory s' !! top = Some mem' ∧ gm_reserve_list mem' = gm_reserve_list mem.
Proof.
  intros Ht [Hm|(f & top0 & Hm & Hf)] Hw.
  - split; [intros top Htop; rewrite Ht, Hm in *; by apply Hw|]. intros top mem Hl. exists mem. by rewrite Hm.
  - split.
    + intros top Htop. rewrite Ht, Hm in *. destruct (Hw top Htop) as (g & mem & Hg & Hl & Hwf). destruct (decide (top = top0)) as [->|Hne].
      * exists g, (f mem). rewrite lookup_alter_eq, Hl. split; [done|]. split; [done|]. destruct (Hf mem) as (H1 & H2 & H3).
        destruct Hwf. split; rewrite ?H1, ?H2, ?H3; done.
      * exists g, mem. by rewrite lookup_alter_ne.
    + intros top mem Hl. rewrite Hm. destruct (decide (top = top0)) as [->|Hne]; [|exists mem; by rewrite lookup_alter_ne].
      exists (f mem). rewrite lookup_alter_eq, Hl. split; [done|]. apply Hf.
Qed.

Lemma insert_is_alter (f : GnodeMemory → GnodeMemory) top mem (m : gmap nat GnodeMemory) : m !! top = Some mem → <[top := f mem]> m = alter f top m.
Proof.
  intros H. apply map_eq. intros i. destruct (decide (i = top)) as [->|Hne].
  - by rewrite lookup_insert_eq, lookup_alter_eq, H.
  - by rewrite lookup_insert_ne, lookup_alter_ne.
Qed.

Lemma number_of_nodes_untouched {E} s m now s' e (r : res E Z) :
  number_of_nodes s m now = (s', e, r) →
  cs_topology s' = cs_topology s ∧ (cs_memory s' = cs_memory s ∨ ∃ f top, cs_memory s' = alter f top (cs_memory s) ∧
     ∀ mem, gm_reserve_list (f mem) = gm_reserve_list mem ∧ gm_max_virtual_pos (f mem) = gm_max_virtual_pos mem ∧ gm_max_eldership (f mem) = gm_max_eldership mem).
Proof.
  unfold number_of_nodes. destruct (cs_memory s !! _) as [mem|] eqn:Hm; [|intros [= <- <- <-]; by split; [|left]].
  assert (∀ x, ∃ f top, <[topology_levels (cs_topology s) := set_n_nodes mem x]> (cs_memory s) = alter f top (cs_memory s) ∧
     ∀ mem, gm_reserve_list (f mem) = gm_reserve_list mem ∧ gm_max_virtual_pos (f mem) = gm_max_virtual_pos mem ∧ gm_max_eldership (f mem) = gm_max_eldership mem) as Ha.
  { intros x. exists (λ mem, set_n_nodes mem x), (topology_levels (cs_topology s)). split; [by apply (insert_is_alter (λ mem, set_n_nodes mem x))|done]. }
  destruct (gm_n_nodes mem) as [[n x]|]; [destruct (_ <? _)%Z|]; intros [= <- <- <-]; (split; [done|]); [by left|right; apply Ha..].
Qed.

(** Every command keeps the records well formed and the ledger. *)
Lemma coord_step_inv s now g i s' e reply :
  coord_wf s → ledger_kept s now g → (now ≤ ci_now i)%Z → map_ok (cs_topology s) (ci_map i) → no_replica (ci_cmd i) = true →
  coord_handle s (ci_map i) (ci_now i) (ci_cmd i) = (s', e, reply) → reply ≠ RepPanic →
  coord_wf s' ∧ ledger_kept s' (ci_now i) (ledger_after (cc_booking_ttl (cs_config s)) g i reply).
Proof.
  intros Hw Hk Hn Hm Hnr Hh Hp.
  assert (∀ s1, cs_topology s1 = cs_topology s → (cs_memory s1 = cs_memory s ∨ ∃ f top, cs_memory s1 = alter f top (cs_memory s) ∧
     ∀ mem, gm_reserve_list (f mem) = gm_reserve_list mem ∧ gm_max_virtual_pos (f mem) = gm_max_virtual_pos mem ∧ gm_max_eldership (f mem) = gm_max_eldership mem) →
     coord_wf s1 ∧ ledger_kept s1 (ci_now i) g) as Hu.
  { intros s1 Ht Hs. destruct (untouched_inv s s1 Ht Hs Hw) as [Hw1 Hl]. split; [done|]. by eapply ledger_kept_mono. }
  unfold ledger_after. destruct (ci_cmd i) eqn:Hc; cbn [coord_handle] in Hh.
  - destruct (number_of_nodes _ _ _) as [[s1 e1] r1] eqn:Hnn. simplify_eq. by eapply Hu; eapply number_of_nodes_untouched.
  - destruct (reserve_enter _ _ _ _ _) as [[s1 e1] r1] eqn:Hr. simplify_eq. apply reserve_enter_outcome in Hr; [|done..].
    destruct r1 as [r|er|]; [|inversion Hr; subst; by apply Hu; [|left]|done].
    split; [|by eapply granted_ledger]. inversion Hr as [|gsize mem mem' r' Htop _ Hg Hmem Hwf _ _ _|]; subst. by eapply insert_wf; [..|lia|].
  - cbn in Hh. simplify_eq. split; [apply alter_wf; [done|]; intros; by apply retain_wf|].
    by apply (deleted_ledger s now).
  - simplify_eq. apply Hu; [done|by left].
  - cbn in Hh. simplify_eq. apply Hu; [done|right]. by eexists _, _.
  - done.
  - destruct (check_propagation _ _ _ _ _ _) as [s1 b] eqn:Hcp. simplify_eq. unfold check_propagation in Hcp.
    apply Hu; repeat case_bool_decide; repeat destruct (names_my_gnode _ _ _ _ _); simplify_eq; (done || by left).
  - simplify_eq. apply Hu; [done|by left].
  - cbn in Hh. simplify_eq. apply Hu; [done|by left].
  - simplify_eq. apply Hu; [done|by left].
  - cbn in Hh. simplify_eq. apply Hu; [done|right]. by eexists _, _.
Qed.

Lemma coord_run_inv s0 s now g : coord_wf s0 → coord_run s0 s now g → coord_wf s ∧ ledger_kept s now g.
Proof.
  intros Hw0. induction 1 as [now|s now g i s' e reply _ [Hw Hk] Hn Hm Hnr Hh Hp]; [by split|]. by eapply coord_step_inv.
Qed.


(** A new node, with or without a hand-off, starts well formed. *)
Lemma coord_new_wf t config handoff :
  topology_wf t → (∀ h top mem gsize, handoff = Some h → h !! top = Some mem → topology_gsize t (top - 1) = Some gsize → memory_wf gsize mem) →
  coord_wf (coord_new t config handoff).
Proof.
  intros Ht Hh top Htop. cbn in *. destruct (gsize_top t top Htop) as [g Hg]. exists g. eexists. split; [done|].
  assert (NoDup (seq 1 (topology_levels t))) as Hnd by apply NoDup_seq.
  split.
  { apply elem_of_list_to_map_1; [rewrite <-list_fmap_compose; by rewrite list_fmap_id|].
    apply list_elem_of_fmap. exists top. split; [done|]. apply elem_of_seq. lia. }
  rewrite Hg. cbn. destruct (h ← handoff; h !! top) as [mem|] eqn:Hm.
  - cbn. destruct handoff as [h|]; [|done]. cbn in Hm. by eapply Hh.
  - cbn. assert (is_u32 g ∧ (0 < g)%Z) as [Hu Hp].
    { destruct Ht as [_ Ht]. apply list_elem_of_lookup_2 in Hg. rewrite Forall_forall in Ht. specialize (Ht g Hg). unfold is_u32 in *. lia. }
    split; cbn; try (by constructor). unfold is_u32, U64_MAX in *. lia.
Qed.

(** ** Properties *)

(** C5: no position is promised twice.  The node starts well formed, as it does with
    no hand-off or with a hand-off whose records hold distinct positions and elderships
    under their counters; at every command the map offers as free only real positions
    of each level; and no replica replaces the record.  Then over every sequence of
    commands handled at non-decreasing times, any two requests that hold a reservation
    of the same level, granted and neither deleted nor expired, hold different
    positions and different elderships, even when the map still lists a promised
    position as free. *)
Theorem no_double_booking s0 s now g top rid1 rid2 r1 d1 r2 d2 :
  coord_wf s0 → coord_run s0 s now g →
  g !! (top, rid1) = Some (r1, d1) → g !! (top, rid2) = Some (r2, d2) → rid1 ≠ rid2 → (now < d1)%Z → (now < d2)%Z →
  cr_new_pos r1 ≠ cr_new_pos r2 ∧ cr_new_eldership r1 ≠ cr_new_eldership r2.
Proof.
  intros Hw Hr H1 H2 Hne Hd1 Hd2. destruct (coord_run_inv s0 s now g Hw Hr) as [Hws Hk].
  destruct (Hk _ _ _ _ H1 Hd1) as (mem & Hm & Htop & Hb1), (Hk _ _ _ _ H2 Hd2) as (mem' & Hm' & _ & Hb2). simplify_eq.
  destruct (Hws top Htop) as (gsize & mem' & _ & Hm'' & [_ Hpos Held _ _ _]). simplify_eq.
  apply list_elem_of_lookup in Hb1 as [i Hi], Hb2 as [j Hj]. assert (i ≠ j) as Hij by congruence.
  split; intros Heq; apply Hij.
  - eapply (NoDup_lookup _ i j (cr_new_pos r1) Hpos); rewrite list_lookup_fmap; [by rewrite Hi|rewrite Hj; cbn; congruence].
  - eapply (NoDup_lookup _ i j (cr_new_eldership r1) Held); rewrite list_lookup_fmap; [by rewrite Hi|rewrite Hj; cbn; congruence].
Qed.

(** What a request is granted, on every branch.  A request outside the levels or
    one the map forbids changes nothing.  A request that already holds a live booking
    gets the same position and eldership again, with a new deadline.  Any other gets the
    next eldership, never used before at its level, and a position that is either free
    in the map now or a virtual one above every position of the level and every
    virtual one handed out before.  Bookings of others stay, and the node fails only
    when a counter has reached the end of its type. *)
Theorem reservation_exact s m now top rid s' e r :
  coord_wf s → map_ok (cs_topology s) m → reserve_enter s m now top rid = (s', e, r) → reserve_outcome s m now top rid s' r ∧ (r ≠ Panic → coord_wf s').
Proof.
  intros Hw Hm Hr. pose proof (reserve_enter_outcome s m now top rid s' e r Hw Hm Hr) as Ho. split; [done|]. intros Hnp.
  inversion Ho as [|gsize mem mem' r' Htop _ Hg Hmem Hwf _ _ _|]; subst; [done| |done]. by eapply insert_wf; [..|lia|].
Qed.

(** *** A node of two levels *)
Definition coord_topology : Topology := mkTopology [4%Z; 4%Z].
Definition coord_map (free : list Z) : CoordinatorMap := mkCoordinatorMap 7 (λ _, free) (λ _, true) (λ _, 1%Z) (λ _, 9%Z).
Definition coord_start : CoordState := coord_new coord_topology coord_config_default None.
Definition reserve_at (now : Z) (rid : Z) (free : list Z) : CoordInput := mkCoordInput (coord_map free) now (ReserveEnter 1 rid).

Lemma coord_start_wf : coord_wf coord_start.
Proof. apply coord_new_wf; [|done]. split; [done|]. repeat (apply Forall_cons_2; [unfold U32_MAX; lia|]). apply Forall_nil_2. Qed.

Lemma coord_map_ok free : Forall (λ p, 0 ≤ p < 4)%Z free → map_ok coord_topology (coord_map free).
Proof. intros Hf [|[|l]] g Hg; try discriminate; cbn in Hg; by simplify_eq. Qed.

Lemma no_double_booking_witness :
  ∃ s g r1 r2 d1 d2, coord_run coord_start s 5 g ∧ g !! (1, 10%Z) = Some (r1, d1) ∧ g !! (1, 11%Z) = Some (r2, d2) ∧
    cr_new_pos r1 ≠ cr_new_pos r2 ∧ cr_new_eldership r1 ≠ cr_new_eldership r2.
Proof.
  eexists _, _, (mkCoordReservation 2 1), (mkCoordReservation 5 2), 60000000000%Z, 60000000005%Z.
  assert (map_ok coord_topology (coord_map [2%Z])) as Hm by (apply coord_map_ok, Forall_singleton; lia).
  match goal with |- ?P ∧ _ => assert P as Hr end.
  { eapply (coord_run_step _ _ _ _ (reserve_at 5 11 [2%Z]));
      [eapply (coord_run_step _ _ _ _ (reserve_at 0 10 [2%Z])); [apply (coord_run_start _ 0)|cbn; lia|exact Hm|reflexivity|vm_compute; reflexivity|done]
      |cbn; lia|exact Hm|reflexivity|vm_compute; reflexivity|done]. }
  split; [exact Hr|]. split; [vm_compute; reflexivity|]. split; [vm_compute; reflexivity|].
  eapply (no_double_booking coord_start _ _ _ 1 10 11 _ 60000000000 _ 60000000005 coord_start_wf Hr); done.
Defined.

Lemma reservation_exact_witness :
  ∃ s' e r, reserve_enter coord_start (coord_map [2%Z]) 0 1 10 = (s', e, Ok r) ∧ cr_new_pos r = 2%Z ∧
    reserve_outcome coord_start (coord_map [2%Z]) 0 1 10 s' (Ok r) ∧ (Ok (E:=ReserveError) r ≠ Panic → coord_wf s').
Proof.
  eexists _, _, _. split; [vm_compute; reflexivity|]. split; [reflexivity|].
  eapply (reservation_exact coord_start (coord_map [2%Z]) 0 1 10); [exact coord_start_wf|apply coord_map_ok, Forall_singleton; lia|vm_compute; reflexivity].
Defined.

(** ** What a late replica does *)

(** A replica overwrites newer bookings.  A node grants a request and publishes its
    record, which is what it replicates; it grants a second request; the first record
    comes back to it, and the second booking is gone: a third request is promised the
    position and the eldership that the second one holds, and neither was deleted nor
    has expired. *)
Theorem late_replica_double_books :
  ∃ s1 m1 ev1 ra s2 e2 rb s3 e3 s4 e4 rc,
    coord_handle coord_start (coord_map [2%Z; 3%Z]) 0 (ReserveEnter 1 10) = (s1, [PublishedMemory m1; ev1], ra) ∧
    coord_handle s1 (coord_map [2%Z; 3%Z]) 1 (ReserveEnter 1 11) = (s2, e2, RepReservation (Ok rb)) ∧
    coord_handle s2 (coord_map [2%Z; 3%Z]) 2 (ApplyReplica 1 (default (gnode_memory_fresh 4) (m1 !! 1))) = (s3, e3, RepNone) ∧
    coord_handle s3 (coord_map [2%Z; 3%Z]) 3 (ReserveEnter 1 12) = (s4, e4, RepReservation (Ok rc)) ∧ rb = rc.
Proof. eexists _, _, _, _, _, _, _, _, _, _, _, _. repeat (split; [vm_compute; reflexivity|]). reflexivity. Qed.

(** The first virtual position of a level of size 4 is 5, not 4. *)
Example first_virtual_position :
  ∃ s' e, reserve_enter coord_start (coord_map []) 0 1 10 = (s', e, Ok (mkCoordReservation 5 1)).
Proof. eexists _, _. vm_compute. reflexivity. Qed.
