(* ===== verification/CoordFlood.v ===== *)
(** * Coordinator: a propagation through the network

    The nodes of a network, each with its coordinator, and the messages under way;
    a message may be delivered at any time, in any order.  A node that accepts a
    propagation applies it and sends it to all its neighbours ([handle_execute] of
    [Coordinator]).  Shows that the flood ends and that it has then reached exactly
    the members of the g-node that can be reached through members, each once. *)
From S2P Require Import Prelude Addressing Domain Coordinator CoordProps.

Record Flood := mkFlood { fl_nodes : list CoordState; fl_mail : list nat; fl_applied : list nat }.

Definition sends (out : list PropAction) : bool := any (λ a, match a with SendToEach _ _ | SendToAll _ _ => true | _ => false end) out.
Definition applies (out : list PropAction) : bool := any (λ a, match a with ApplyLocally _ _ _ => true | _ => false end) out.

Section Flood.
Context (maps : nat → CoordinatorMap) (neighbors : nat → list nat) (kind : PropKind) (level : nat) (data : TypedValue).

(** The message at index [k] is delivered. *)
Definition flood_step (args : PropagationArgs) (f : Flood) (k : nat) : option Flood :=
  dest ← fl_mail f !! k;
  s ← fl_nodes f !! dest;
  let '(s', out) := handle_execute kind s (maps dest) args in
  Some (mkFlood (<[dest := s']> (fl_nodes f))
    (delete k (fl_mail f) ++ (if sends out then neighbors dest else []))
    (fl_applied f ++ (if applies out then [dest] else []))).

(** The node [o] starts a propagation. *)
Definition flood_start (nodes : list CoordState) (o : nat) : option (PropagationArgs * Flood) :=
  s ← nodes !! o;
  let '(s', args, out) := propagate kind s (maps o) level data in
  Some (args, mkFlood (<[o := s']> nodes) (if sends out then neighbors o else []) (if applies out then [o] else [])).

(** Deliveries, in an order the scheduler chooses, until no message is left. *)
Fixpoint flood_run (args : PropagationArgs) (sched : nat → nat) (fuel : nat) (f : Flood) : Flood :=
  match fuel with
  | 0 => f
  | S fuel' =>
      match flood_step args f (sched fuel' mod length (fl_mail f)) with
      | Some f' => flood_run args sched fuel' f'
      | None => f
      end
  end.

(** The g-node a propagation is for, and the nodes the flood can reach. *)
Definition member (t : Topology) (args : PropagationArgs) (n : nat) : bool :=
  names_my_gnode t (maps n) (pa_positions args) (pa_fp_id args) (pa_level args).

Inductive reaches (t : Topology) (args : PropagationArgs) (o : nat) : nat → Prop :=
  | reaches_origin : reaches t args o o
  | reaches_step n n' : reaches t args o n → n' ∈ neighbors n → member t args n' = true → reaches t args o n'.

(** A node is about to accept the propagation, or refuses it. *)
Lemma handle_execute_cases s m args s' out :
  handle_execute kind s m args = (s', out) →
  ((pa_propagation_id args ∉ cs_recent_propagations s) ∧ names_my_gnode (cs_topology s) m (pa_positions args) (pa_fp_id args) (pa_level args) = true ∧
   cs_recent_propagations s' = {[pa_propagation_id args]} ∪ cs_recent_propagations s ∧ cs_topology s' = cs_topology s ∧ sends out = true ∧ applies out = true)
  ∨ ((pa_propagation_id args ∈ cs_recent_propagations s ∨ names_my_gnode (cs_topology s) m (pa_positions args) (pa_fp_id args) (pa_level args) = false) ∧
     s' = s ∧ sends out = false ∧ applies out = false).
Proof.
  unfold handle_execute, check_propagation. case_bool_decide as Hr; [intros [= <- <-]; right; split_and!; by try left|].
  destruct (names_my_gnode _ _ _ _ _) eqn:Hm; [|intros [= <- <-]; right; split_and!; by try right].
  intros Hf. left. unfold fan_out in Hf. destruct (commits kind); simplify_eq; by split_and!.
Qed.

Context (t : Topology) (nodes : list CoordState) (o : nat).

Record flood_inv (args : PropagationArgs) (f : Flood) : Prop := mkFloodInv {
  fi_length : length (fl_nodes f) = length nodes;
  fi_topology n s : fl_nodes f !! n = Some s → cs_topology s = t;
  fi_seen n s : fl_nodes f !! n = Some s → pa_propagation_id args ∈ cs_recent_propagations s ↔ n ∈ fl_applied f;
  fi_once : NoDup (fl_applied f);
  fi_reach n : n ∈ fl_applied f → reaches t args o n ∧ n < length nodes;
  fi_mail n : n ∈ fl_mail f → n < length nodes ∧ ∃ n0, reaches t args o n0 ∧ n ∈ neighbors n0;
  fi_origin : o ∈ fl_applied f;
  fi_closed n n' : n ∈ fl_applied f → n' ∈ neighbors n → n' ∈ fl_applied f ∨ member t args n' = false ∨ n' ∈ fl_mail f
}.

(** What a message costs at most: itself, and all that the nodes still to be reached
    will send. *)
Definition cost (f : Flood) : nat :=
  length (fl_mail f) + sum_list_with (λ n, if bool_decide (n ∈ fl_applied f) then 0 else length (neighbors n)) (seq 0 (length nodes)).

Hypothesis neighbors_known : ∀ n n', n < length nodes → n' ∈ neighbors n → n' < length nodes.

Lemma elem_of_delete_list {A} (l : list A) k x y : l !! k = Some x → y ∈ l → y = x ∨ y ∈ delete k l.
Proof.
  intros Hk Hy. rewrite <-(take_drop_middle l k x Hk) in Hy. rewrite delete_take_drop.
  apply elem_of_app in Hy as [Hy|Hy]; [right; apply elem_of_app; by left|].
  apply elem_of_cons in Hy as [->|Hy]; [by left|right; apply elem_of_app; by right].
Qed.

Lemma elem_of_delete_sub {A} (l : list A) k y : y ∈ delete k l → y ∈ l.
Proof. intros H. eapply elem_of_sublist; [exact H|apply sublist_delete]. Qed.

(** A delivery to a node that refuses. *)
Lemma refused_inv args f k n s :
  flood_inv args f → fl_mail f !! k = Some n → fl_nodes f !! n = Some s →
  pa_propagation_id args ∈ cs_recent_propagations s ∨ member t args n = false →
  flood_inv args (mkFlood (<[n := s]> (fl_nodes f)) (delete k (fl_mail f) ++ []) (fl_applied f ++ [])).
Proof.
  intros [H1 H2 H3 H4 H5 H6 H7 H8] Hk Hn Hr. rewrite list_insert_id, !app_nil_r by done. split; cbn; try done.
  - intros n' Hn'. by apply H6, (elem_of_delete_sub _ k).
  - intros n1 n2 Hn1 Hn2. destruct (H8 n1 n2 Hn1 Hn2) as [Ha|[Hm|Hl]]; [by left|by right; left|].
    destruct (elem_of_delete_list _ _ _ n2 Hk Hl) as [->|Hd]; [|by right; right].
    destruct Hr as [Hr|Hr]; [left; by apply (H3 n s)|by right; left].
Qed.

(** A delivery to a node that accepts. *)
Lemma accepted_inv args f k n s s' :
  flood_inv args f → fl_mail f !! k = Some n → fl_nodes f !! n = Some s →
  pa_propagation_id args ∉ cs_recent_propagations s → member t args n = true →
  cs_recent_propagations s' = {[pa_propagation_id args]} ∪ cs_recent_propagations s → cs_topology s' = cs_topology s →
  flood_inv args (mkFlood (<[n := s']> (fl_nodes f)) (delete k (fl_mail f) ++ neighbors n) (fl_applied f ++ [n])).
Proof.
  intros [H1 H2 H3 H4 H5 H6 H7 H8] Hk Hn Hr Hm Hs Ht. assert (n ∉ fl_applied f) as Hna by (rewrite <-(H3 n s Hn); done).
  destruct (H6 n) as (Hlt & n0 & Hn0 & Hadj); [by eapply list_elem_of_lookup_2|]. pose proof (reaches_step t args o n0 n Hn0 Hadj Hm) as Hreach.
  split; cbn.
  - by rewrite length_insert.
  - intros n1 s1. rewrite list_lookup_insert_Some. intros [(-> & <- & _)|[_ Hl]]; [rewrite Ht; by eapply H2|by eapply H2].
  - intros n1 s1. rewrite list_lookup_insert_Some. intros [(-> & <- & _)|[Hne Hl]]; rewrite elem_of_app, list_elem_of_singleton.
    + rewrite Hs. set_solver.
    + rewrite (H3 n1 s1 Hl). intuition congruence.
  - apply NoDup_app. split; [done|]. split; [|apply NoDup_singleton]. by intros x Hx ->%list_elem_of_singleton.
  - intros n1 [Hn1|Hn1]%elem_of_app; [by apply H5|apply list_elem_of_singleton in Hn1 as ->; done].
  - intros n1 [Hn1|Hn1]%elem_of_app; [by apply H6, (elem_of_delete_sub _ k)|]. split; [by eapply neighbors_known|by exists n].
  - apply elem_of_app. by left.
  - intros n1 n2 [Hn1|Hn1]%elem_of_app Hn2; rewrite !elem_of_app.
    + destruct (H8 n1 n2 Hn1 Hn2) as [Ha|[Hm2|Hl]]; [by left; left|by right; left|].
      destruct (elem_of_delete_list _ _ _ n2 Hk Hl) as [->|Hd]; [left; right; by apply list_elem_of_singleton|by right; right; left].
    + apply list_elem_of_singleton in Hn1 as ->. by right; right; right.
Qed.

(** Every delivery is possible, keeps the invariant, and costs. *)
Lemma accepted_cost f k n nodes' : n < length nodes → fl_mail f !! k = Some n → n ∉ fl_applied f →
  S (cost (mkFlood nodes' (delete k (fl_mail f) ++ neighbors n) (fl_applied f ++ [n]))) = cost f.
Proof.
  intros Hlt Hk Hna. unfold cost. cbn. rewrite length_app, length_delete by (by eexists). apply lookup_lt_Some in Hk.
  replace (seq 0 (length nodes)) with (seq 0 n ++ n :: seq (S n) (length nodes - S n)).
  2:{ replace (length nodes) with (n + S (length nodes - S n)) at 2 by lia. by rewrite seq_app. }
  rewrite !sum_list_with_app. cbn. rewrite bool_decide_eq_true_2 by (apply elem_of_app; right; by apply list_elem_of_singleton).
  rewrite bool_decide_eq_false_2 by done.
  assert (∀ l, n ∉ l → sum_list_with (λ i, if bool_decide (i ∈ fl_applied f ++ [n]) then 0 else length (neighbors i)) l =
               sum_list_with (λ i, if bool_decide (i ∈ fl_applied f) then 0 else length (neighbors i)) l) as He.
  { induction l as [|x l IH]; [done|]. intros [Hx Hl]%not_elem_of_cons. cbn. rewrite IH by done. f_equal.
    erewrite bool_decide_ext; [done|]. rewrite elem_of_app, list_elem_of_singleton. intuition congruence. }
  rewrite !He by (rewrite elem_of_seq; lia). lia.
Qed.

Lemma flood_step_inv args f k : flood_inv args f → k < length (fl_mail f) → ∃ f', flood_step args f k = Some f' ∧ flood_inv args f' ∧ S (cost f') = cost f.
Proof.
  intros Hi Hk. apply lookup_lt_is_Some_2 in Hk as [n Hk]. unfold flood_step. rewrite Hk. cbn.
  destruct (fi_mail _ _ Hi n) as [Hlt _]; [by eapply list_elem_of_lookup_2|]. rewrite <-(fi_length _ _ Hi) in Hlt.
  apply lookup_lt_is_Some_2 in Hlt as Hs. destruct Hs as [s Hs]. rewrite Hs. cbn. destruct (handle_execute _ _ _ _) as [s' out] eqn:Hh.
  rewrite (fi_length _ _ Hi) in Hlt. pose proof (fi_topology _ _ Hi n s Hs) as Ht.
  apply handle_execute_cases in Hh as [(Hr & Hm & Hs' & Ht' & -> & ->)|(Hr & -> & -> & ->)]; rewrite Ht in *; eexists; (split; [done|]); split.
  - by eapply accepted_inv; [..|rewrite Ht].
  - apply accepted_cost; [done..|]. by rewrite <-(fi_seen _ _ Hi n s Hs).
  - by eapply refused_inv.
  - unfold cost. cbn. rewrite !app_nil_r, length_delete by (by eexists). apply lookup_lt_Some in Hk. lia.
Qed.

Lemma flood_run_ends args sched fuel f : flood_inv args f → cost f ≤ fuel → flood_inv args (flood_run args sched fuel f) ∧ fl_mail (flood_run args sched fuel f) = [].
Proof.
  revert f. induction fuel as [|fuel IH]; intros f Hi Hc.
  - cbn. split; [done|]. apply nil_length_inv. unfold cost in Hc. lia.
  - cbn. destruct (fl_mail f) as [|n l] eqn:Hm.
    + unfold flood_step. rewrite Hm. cbn. done.
    + rewrite <-Hm. destruct (flood_step_inv args f (sched fuel mod length (fl_mail f)) Hi) as (f' & -> & Hi' & Hc').
      { apply Nat.mod_upper_bound. by rewrite Hm. }
      apply IH; [done|lia].
Qed.

(** With no message left, the flood has reached all it can. *)
Lemma ended_exact args f n : flood_inv args f → fl_mail f = [] → n ∈ fl_applied f ↔ reaches t args o n.
Proof.
  intros Hi Hm. split; [apply (fi_reach _ _ Hi)|]. induction 1 as [|n n' _ IH Hadj Hmem]; [apply (fi_origin _ _ Hi)|].
  destruct (fi_closed _ _ Hi n n' IH Hadj) as [H|[H|H]]; [done|congruence|]. rewrite Hm in H. by apply elem_of_nil in H.
Qed.
End Flood.

(** ** Properties *)
Lemma propagate_cases kind s m level data s' args out :
  propagate kind s m level data = (s', args, out) →
  cs_topology s' = cs_topology s ∧ pa_propagation_id args ∈ cs_recent_propagations s' ∧ sends out = true ∧ applies out = true.
Proof.
  unfold propagate, prepare_propagation, next_propagation_id, fan_out. cbn. destruct (commits kind); intros [= <- <- <-]; cbn; split_and!; try done; set_solver.
Qed.

Lemma flood_start_inv maps neighbors kind level data t nodes o args f :
  (∀ n n', n < length nodes → n' ∈ neighbors n → n' < length nodes) → (∀ n s, nodes !! n = Some s → cs_topology s = t) →
  flood_start maps neighbors kind level data nodes o = Some (args, f) →
  (∀ n s, n ≠ o → nodes !! n = Some s → pa_propagation_id args ∉ cs_recent_propagations s) →
  flood_inv maps neighbors t nodes o args f ∧ cost neighbors nodes f = sum_list_with (λ n, length (neighbors n)) (seq 0 (length nodes)).
Proof.
  intros Hn Ht Hf Hfresh. unfold flood_start in Hf. destruct (nodes !! o) as [s|] eqn:Ho; [|done]. cbn [mbind option_bind] in Hf.
  destruct (propagate _ _ _ _ _) as [[s' args'] out] eqn:Hp. simplify_eq. apply propagate_cases in Hp as (Ht' & Hid & -> & ->).
  pose proof (lookup_lt_Some _ _ _ Ho) as Hlt. split.
  - split; cbn.
    + by rewrite length_insert.
    + intros n s1. rewrite list_lookup_insert_Some. intros [(-> & <- & _)|[_ Hl]]; [rewrite Ht'; by eapply Ht|by eapply Ht].
    + intros n s1. rewrite list_lookup_insert_Some, list_elem_of_singleton. intros [(-> & <- & _)|[Hne Hl]]; [done|].
      split; [|congruence]. intros Hin. by destruct (Hfresh n s1).
    + apply NoDup_singleton.
    + intros n ->%list_elem_of_singleton. split; [apply reaches_origin|done].
    + intros n Hn'. split; [by eapply Hn|]. exists o. split; [apply reaches_origin|done].
    + by apply list_elem_of_singleton.
    + intros n n' ->%list_elem_of_singleton Hn'. by right; right.
  - set (g := mkFlood nodes [o] []). assert (cost neighbors nodes g = S (sum_list_with (λ n, length (neighbors n)) (seq 0 (length nodes)))) as Hg.
    { unfold cost. cbn. f_equal. }
    pose proof (accepted_cost maps neighbors o nodes g 0 o (<[o := s']> nodes) Hlt eq_refl) as Hc. rewrite Hg in Hc.
    apply eq_add_S, Hc. by intros ?%elem_of_nil.
Qed.

(** C6: a propagation floods its g-node and stops.  In whatever order the messages are
    delivered, at most as many deliveries as there are links (counted from both ends)
    leave no message under way; and then exactly the nodes that can be reached from the
    originator through members of the g-node have applied the propagation, each of them
    once, the originator included.  The id must be one no other node remembers. *)
Theorem propagation_reaches_gnode maps neighbors kind level data t nodes o args f sched :
  (∀ n n', n < length nodes → n' ∈ neighbors n → n' < length nodes) → (∀ n s, nodes !! n = Some s → cs_topology s = t) →
  flood_start maps neighbors kind level data nodes o = Some (args, f) →
  (∀ n s, n ≠ o → nodes !! n = Some s → pa_propagation_id args ∉ cs_recent_propagations s) →
  let f' := flood_run maps neighbors kind args sched (sum_list_with (λ n, length (neighbors n)) (seq 0 (length nodes))) f in
  fl_mail f' = [] ∧ NoDup (fl_applied f') ∧ ∀ n, n ∈ fl_applied f' ↔ reaches maps neighbors t args o n.
Proof.
  intros Hn Ht Hf Hfresh f'. destruct (flood_start_inv _ _ _ _ _ _ _ _ _ _ Hn Ht Hf Hfresh) as [Hi Hc].
  assert (flood_inv maps neighbors t nodes o args f' ∧ fl_mail f' = []) as [Hi' Hm] by (apply flood_run_ends; [done..|by rewrite Hc]).
  split; [exact Hm|]. split; [apply (fi_once _ _ _ _ _ _ _ Hi')|]. intros n. by eapply ended_exact.
Qed.

(** A line of three members and, beyond the second, a node of another g-node. *)
Definition line_neighbors (n : nat) : list nat := match n with 0 => [1] | 1 => [0; 2; 3] | 2 => [1] | 3 => [1] | _ => [] end.
Definition line_maps (n : nat) : CoordinatorMap :=
  mkCoordinatorMap 3 (λ _, []) (λ _, true) (λ l, if l =? 0 then Z.of_nat n else if n =? 3 then 2%Z else 1%Z) (λ _, 9%Z).
Definition line_nodes : list CoordState := replicate 4 coord_start.

Lemma propagation_reaches_gnode_witness :
  ∃ args f, flood_start line_maps line_neighbors FinishEnterP 1 (mkTypedValue UNICAST_ID_TAG []) line_nodes 0 = Some (args, f) ∧
    let f' := flood_run line_maps line_neighbors FinishEnterP args (λ n, n) 6 f in
    fl_applied f' = [0; 1; 2] ∧ fl_mail f' = [] ∧ NoDup (fl_applied f') ∧
    ∀ n, n ∈ fl_applied f' ↔ reaches line_maps line_neighbors coord_topology args 0 n.
Proof.
  destruct (flood_start line_maps line_neighbors FinishEnterP 1 (mkTypedValue UNICAST_ID_TAG []) line_nodes 0) as [[args f]|] eqn:Hf; [|vm_compute in Hf; discriminate].
  exists args, f. split; [reflexivity|].
  split; [assert (Some (args, f) = flood_start line_maps line_neighbors FinishEnterP 1 (mkTypedValue UNICAST_ID_TAG []) line_nodes 0) as H by (symmetry; exact Hf);
          vm_compute in H; injection H as -> ->; vm_compute; reflexivity|].
  apply (propagation_reaches_gnode line_maps line_neighbors FinishEnterP 1 (mkTypedValue UNICAST_ID_TAG []) coord_topology line_nodes 0 args f (λ n, n)).
  - cbn. intros [|[|[|[|n]]]] n' Hlt Hin; cbn in Hin; rewrite ?elem_of_cons, ?elem_of_nil in Hin; lia.
  - intros n s. unfold line_nodes. intros [-> _]%lookup_replicate. reflexivity.
  - exact Hf.
  - intros n s _. unfold line_nodes. intros [-> _]%lookup_replicate. apply not_elem_of_empty.
Defined.
