(* ===== verification/CoordWire.v ===== *)
(** * Coordinator: requests, responses, the servant and its client

    Models [crates/ntk-coordinator/src]: [wire.rs] (requests, responses, replicated
    records, propagations), [service.rs] (what a servant does with a request),
    [client.rs] (what a client makes of the response) and [error.rs].  The messages
    are those of [proto/coordinator.proto]; their byte encoding is the class
    [ProstMessage].  The handlers of the enter protocol are the hooking module's,
    parameters here; a response is produced by an actor that is running. *)
From stdpp Require Import strings.
From S2P Require Import Prelude Addressing Domain PeerTuple PeerState Coordinator.

(** ** Errors (error.rs, client.rs) *)
Inductive CoordWireError :=
  | WireDomain (e : DomainDecodeError)
  | MissingField (field : string)
  | CoordLevelOutOfRange (v : Z)
  | InvalidTop (top levels : nat).

Inductive ProxyError :=
  | ProxyInvalidTop (top levels : nat)
  | ProxyRouting
  | MalformedResponse (e : CoordWireError)
  | UnexpectedResponseKind.

(** ** Messages *)
Record WireBooking := mkWireBooking { wb_reserve_request_id : Z; wb_new_pos : Z; wb_new_eldership : Z; wb_timeout_remaining_ms : Z }.
Record WireGnodeMemory := mkWireGnodeMemory {
  wg_reserve_list : list WireBooking;
  wg_max_virtual_pos : Z;
  wg_max_eldership : Z;
  wg_n_nodes : option Z;
  wg_n_nodes_timeout_remaining_ms : option Z;
  wg_hooking_memory : option TypedValue
}.
Inductive WireCoordRequest :=
  | WNumberOfNodes
  | WEvaluateEnter (top : Z) (data : option TypedValue)
  | WBeginEnter (top : Z) (data : option TypedValue)
  | WCompletedEnter (top : Z) (data : option TypedValue)
  | WAbortEnter (top : Z) (data : option TypedValue)
  | WGetHookingMemory (top : Z)
  | WSetHookingMemory (top : Z) (data : option TypedValue)
  | WReserveEnter (top : Z) (reserve_request_id : Z)
  | WDeleteReserveEnter (top : Z) (reserve_request_id : Z)
  | WReplica (top : Z) (memory : option WireGnodeMemory).
Inductive WireCoordResponse :=
  | WRNumberOfNodes (n : Z)
  | WREvaluateEnter (data : option TypedValue)
  | WRBeginEnter (data : option TypedValue)
  | WRCompletedEnter (data : option TypedValue)
  | WRAbortEnter (data : option TypedValue)
  | WRGetHookingMemory (data : option TypedValue)
  | WRSetHookingMemory
  | WRReserveEnter (reservation : option (Z * Z))
  | WRDeleteReserveEnter
  | WRReplica.

(** A message with its [oneof], which may be missing. *)
Record WireRequestMsg := mkWireRequestMsg { wr_body : option WireCoordRequest }.
Record WireResponseMsg := mkWireResponseMsg { ws_body : option WireCoordResponse }.
Record WirePropagationTuple := mkWirePropagationTuple { wp_positions : list Z }.
Record WireExecuteArgs := mkWireExecuteArgs {
  we_tuple : option TypedValue;
  we_fp_id : Z;
  we_propagation_id : Z;
  we_lvl : Z;
  we_data : option TypedValue
}.

Definition TAG_TUPLE : string := "coordinator.PropagationTuple".
Definition TAG_REQUEST : string := "coordinator.CoordinatorRequest".
Definition TAG_RESPONSE : string := "coordinator.CoordinatorResponse".

(** ** Levels *)
Definition level_from_wire (v : Z) : res CoordWireError nat := if (v <? 0)%Z then Err (CoordLevelOutOfRange v) else Ok (Z.to_nat v).

Definition validate_top (top levels : nat) : res CoordWireError nat := if (top <? 1) || (levels <? top) then Err (InvalidTop top levels) else Ok top.

(** ** Replicated records *)
Definition I64_MAX : Z := 2 ^ 63 - 1.
Definition I32_MAX : Z := 2 ^ 31 - 1.

Definition duration_remaining_ms (deadline now : Z) : Z := Z.min (Z.max 0 (deadline - now) / 1000000) I64_MAX.

Definition booking_to_wire (b : Booking) (now : Z) : WireBooking :=
  mkWireBooking (bk_reserve_request_id b) (bk_new_pos b) (bk_new_eldership b) (duration_remaining_ms (bk_expires_at b) now).

Definition MAX_REPLICA_TTL_MS : Z := 60 * 60 * 1000.
Definition MAX_REPLICA_BOOKINGS : nat := Z.to_nat 4096.
Definition MAX_REPLICA_VIRTUAL_POS : Z := U32_MAX / 2.

(** A relative deadline of a peer, clamped. *)
Definition replica_deadline (now ms : Z) : Z := (now + from_millis (Z.min (Z.max 0 ms) MAX_REPLICA_TTL_MS))%Z.

Definition booking_from_wire (w : WireBooking) (now : Z) : Booking :=
  mkBooking (wb_reserve_request_id w) (wb_new_pos w) (wb_new_eldership w) (replica_deadline now (wb_timeout_remaining_ms w)).

Definition gnode_memory_to_wire (now : Z) (m : GnodeMemory) : WireGnodeMemory :=
  mkWireGnodeMemory ((λ b, booking_to_wire b now) <$> gm_reserve_list m) (gm_max_virtual_pos m) (gm_max_eldership m) (fst <$> gm_n_nodes m)
    ((λ ne, duration_remaining_ms ne.2 now) <$> gm_n_nodes m) (gm_hooking_memory m).

Definition gnode_memory_from_wire (now : Z) (w : WireGnodeMemory) : GnodeMemory :=
  mkGnodeMemory ((λ b, booking_from_wire b now) <$> take MAX_REPLICA_BOOKINGS (wg_reserve_list w))
    (Z.min (wg_max_virtual_pos w) MAX_REPLICA_VIRTUAL_POS) (wg_max_eldership w)
    ((λ n, (n, replica_deadline now (default 0%Z (wg_n_nodes_timeout_remaining_ms w)))) <$> wg_n_nodes w) (wg_hooking_memory w).

(** ** Requests and responses *)
Inductive RequestBody :=
  | ReqNumberOfNodes
  | ReqEvaluateEnter (top : nat) (data : TypedValue)
  | ReqBeginEnter (top : nat) (data : TypedValue)
  | ReqCompletedEnter (top : nat) (data : TypedValue)
  | ReqAbortEnter (top : nat) (data : TypedValue)
  | ReqGetHookingMemory (top : nat)
  | ReqSetHookingMemory (top : nat) (data : option TypedValue)
  | ReqReserveEnter (top : nat) (reserve_request_id : Z)
  | ReqDeleteReserveEnter (top : nat) (reserve_request_id : Z)
  | ReqReplica (top : nat) (memory : GnodeMemory).

Inductive ResponseBody :=
  | RespNumberOfNodes (n : Z)
  | RespEvaluateEnter (data : TypedValue)
  | RespBeginEnter (data : TypedValue)
  | RespCompletedEnter (data : TypedValue)
  | RespAbortEnter (data : TypedValue)
  | RespGetHookingMemory (data : option TypedValue)
  | RespSetHookingMemory
  | RespReserveEnter (r : option CoordReservation)
  | RespDeleteReserveEnter
  | RespReplica.

(** [usize as u32], [u32 as usize]. *)
Definition usize_as_u32 (n : nat) : Z := (Z.of_nat n mod 2 ^ 32)%Z.
Definition u32_as_usize (z : Z) : nat := Z.to_nat z.

Definition request_to_wire (now : Z) (body : RequestBody) : WireCoordRequest :=
  match body with
  | ReqNumberOfNodes => WNumberOfNodes
  | ReqEvaluateEnter top data => WEvaluateEnter (usize_as_u32 top) (Some data)
  | ReqBeginEnter top data => WBeginEnter (usize_as_u32 top) (Some data)
  | ReqCompletedEnter top data => WCompletedEnter (usize_as_u32 top) (Some data)
  | ReqAbortEnter top data => WAbortEnter (usize_as_u32 top) (Some data)
  | ReqGetHookingMemory top => WGetHookingMemory (usize_as_u32 top)
  | ReqSetHookingMemory top data => WSetHookingMemory (usize_as_u32 top) data
  | ReqReserveEnter top rid => WReserveEnter (usize_as_u32 top) rid
  | ReqDeleteReserveEnter top rid => WDeleteReserveEnter (usize_as_u32 top) rid
  | ReqReplica top memory => WReplica (usize_as_u32 top) (Some (gnode_memory_to_wire now memory))
  end.

Definition request_from_wire (now : Z) (levels : nat) (w : WireCoordRequest) : res CoordWireError RequestBody :=
  let top_of z := validate_top (u32_as_usize z) levels in
  match w with
  | WNumberOfNodes => Ok ReqNumberOfNodes
  | WEvaluateEnter t d => top ← top_of t; data ← ok_or d (MissingField "EvaluateEnterRequest.data"); Ok (ReqEvaluateEnter top data)
  | WBeginEnter t d => top ← top_of t; data ← ok_or d (MissingField "BeginEnterRequest.data"); Ok (ReqBeginEnter top data)
  | WCompletedEnter t d => top ← top_of t; data ← ok_or d (MissingField "CompletedEnterRequest.data"); Ok (ReqCompletedEnter top data)
  | WAbortEnter t d => top ← top_of t; data ← ok_or d (MissingField "AbortEnterRequest.data"); Ok (ReqAbortEnter top data)
  | WGetHookingMemory t => top ← top_of t; Ok (ReqGetHookingMemory top)
  | WSetHookingMemory t d => top ← top_of t; Ok (ReqSetHookingMemory top d)
  | WReserveEnter t rid => top ← top_of t; Ok (ReqReserveEnter top rid)
  | WDeleteReserveEnter t rid => top ← top_of t; Ok (ReqDeleteReserveEnter top rid)
  | WReplica t m =>
      top ← top_of t; memory ← ok_or m (MissingField "ReplicaRequest.memory"); Ok (ReqReplica top (gnode_memory_from_wire now memory))
  end.

Definition response_to_wire (body : ResponseBody) : WireCoordResponse :=
  match body with
  | RespNumberOfNodes n => WRNumberOfNodes n
  | RespEvaluateEnter data => WREvaluateEnter (Some data)
  | RespBeginEnter data => WRBeginEnter (Some data)
  | RespCompletedEnter data => WRCompletedEnter (Some data)
  | RespAbortEnter data => WRAbortEnter (Some data)
  | RespGetHookingMemory data => WRGetHookingMemory data
  | RespSetHookingMemory => WRSetHookingMemory
  | RespReserveEnter r => WRReserveEnter ((λ r, (cr_new_pos r, cr_new_eldership r)) <$> r)
  | RespDeleteReserveEnter => WRDeleteReserveEnter
  | RespReplica => WRReplica
  end.

Definition response_from_wire (w : WireCoordResponse) : res CoordWireError ResponseBody :=
  match w with
  | WRNumberOfNodes n => Ok (RespNumberOfNodes n)
  | WREvaluateEnter d => RespEvaluateEnter <$> ok_or d (MissingField "EvaluateEnterResponse.data")
  | WRBeginEnter d => RespBeginEnter <$> ok_or d (MissingField "BeginEnterResponse.data")
  | WRCompletedEnter d => RespCompletedEnter <$> ok_or d (MissingField "CompletedEnterResponse.data")
  | WRAbortEnter d => RespAbortEnter <$> ok_or d (MissingField "AbortEnterResponse.data")
  | WRGetHookingMemory d => Ok (RespGetHookingMemory d)
  | WRSetHookingMemory => Ok RespSetHookingMemory
  | WRReserveEnter r => Ok (RespReserveEnter ((λ p, mkCoordReservation p.1 p.2) <$> r))
  | WRDeleteReserveEnter => Ok RespDeleteReserveEnter
  | WRReplica => Ok RespReplica
  end.

Section Wire.
Context `{ProstMessage WireRequestMsg, ProstMessage WireResponseMsg, ProstMessage WirePropagationTuple}.

Definition pack_request (now : Z) (body : RequestBody) : TypedValue := typed_value TAG_REQUEST (mkWireRequestMsg (Some (request_to_wire now body))).
Definition unpack_request (now : Z) (tv : TypedValue) (levels : nat) : res CoordWireError RequestBody :=
  w ← map_err WireDomain (from_typed_value tv TAG_REQUEST);
  body ← ok_or (wr_body w) (MissingField "CoordinatorRequest.body");
  request_from_wire now levels body.

Definition pack_response (body : ResponseBody) : TypedValue := typed_value TAG_RESPONSE (mkWireResponseMsg (Some (response_to_wire body))).
Definition unpack_response (tv : TypedValue) : res CoordWireError ResponseBody :=
  w ← map_err WireDomain (from_typed_value tv TAG_RESPONSE);
  body ← ok_or (ws_body w) (MissingField "CoordinatorResponse.body");
  response_from_wire body.

Definition pack_propagation_args (args : PropagationArgs) : WireExecuteArgs :=
  mkWireExecuteArgs (Some (typed_value TAG_TUPLE (mkWirePropagationTuple (pa_positions args)))) (pa_fp_id args) (pa_propagation_id args)
    (Z.min (Z.of_nat (pa_level args)) I32_MAX) (Some (pa_data args)).
Definition unpack_propagation_args (w : WireExecuteArgs) : res CoordWireError PropagationArgs :=
  tv ← ok_or (we_tuple w) (MissingField "CoordinatorExecuteArgs.tuple");
  tuple ← map_err WireDomain (from_typed_value tv TAG_TUPLE);
  data ← ok_or (we_data w) (MissingField "CoordinatorExecuteArgs.data");
  level ← level_from_wire (we_lvl w);
  Ok (mkPropagationArgs (wp_positions tuple) (we_fp_id w) (we_propagation_id w) level data).

(** ** Incoming propagations (handler.rs) *)
Inductive CoordRpcCall := ExecuteCall (kind : PropKind) (args : WireExecuteArgs) | NotCoordinatorCall | UnsetCall.
Inductive CoordRpcError := CallUnset | NotCoordinatorMethod | BadArgs (e : CoordWireError).

(** The call's arguments, handed to a task that runs [handle_execute]. *)
Definition coord_dispatch (call : CoordRpcCall) : res CoordRpcError (PropKind * PropagationArgs) :=
  match call with
  | ExecuteCall kind w => args ← map_err BadArgs (unpack_propagation_args w); Ok (kind, args)
  | NotCoordinatorCall => Err NotCoordinatorMethod
  | UnsetCall => Err CallUnset
  end.

(** [RpcCoordinatorStub]: the call of each of its five methods. *)
Definition stub_call (kind : PropKind) (args : PropagationArgs) : CoordRpcCall := ExecuteCall kind (pack_propagation_args args).

(** ** The servant (service.rs) *)
Definition COORD_SERVICE_ID : Z := 1.

(** The four handlers of the enter protocol. *)
Record EnterHandlers := mkEnterHandlers {
  eh_evaluate_enter : nat → TypedValue → list Z → TypedValue;
  eh_begin_enter : nat → TypedValue → list Z → TypedValue;
  eh_completed_enter : nat → TypedValue → list Z → TypedValue;
  eh_abort_enter : nat → TypedValue → list Z → TypedValue
}.

(** A replication handed to peer services: the key's tuple and the request. *)
Record Replication := mkReplication { rl_target : TupleNode; rl_request : TypedValue }.

Definition spawn_replicate (s : CoordState) (now : Z) (top : nat) : list Replication :=
  match cs_memory s !! top with
  | None => []
  | Some memory =>
      if (top <? 1) || (topology_levels (cs_topology s) <? top) then []
      else match tuple_node_new (cs_topology s) (replicate top 0%Z) with
           | Ok target => [mkReplication target (pack_request now (ReqReplica top memory))]
           | _ => []
           end
  end.

(** What the servant answers, the state it leaves and what it replicates. *)
Definition exec_body (h : EnterHandlers) (s : CoordState) (m : CoordinatorMap) (now : Z) (client_tuple : list Z) (body : RequestBody)
    : CoordState * list Replication * res ExecError ResponseBody :=
  match body with
  | ReqNumberOfNodes =>
      let '(s', _, r) := number_of_nodes s m now in
      match r with
      | Ok n => (s', spawn_replicate s' now (topology_levels (cs_topology s)), Ok (RespNumberOfNodes n))
      | Err e => (s', [], Err e)
      | Panic => (s', [], Panic)
      end
  | ReqEvaluateEnter top data => (s, [], Ok (RespEvaluateEnter (eh_evaluate_enter h top data client_tuple)))
  | ReqBeginEnter top data => (s, [], Ok (RespBeginEnter (eh_begin_enter h top data client_tuple)))
  | ReqCompletedEnter top data => (s, [], Ok (RespCompletedEnter (eh_completed_enter h top data client_tuple)))
  | ReqAbortEnter top data => (s, [], Ok (RespAbortEnter (eh_abort_enter h top data client_tuple)))
  | ReqGetHookingMemory top => (s, [], Ok (RespGetHookingMemory (get_hooking_memory s top)))
  | ReqSetHookingMemory top data =>
      let s' := (set_hooking_memory s top data).1 in (s', spawn_replicate s' now top, Ok RespSetHookingMemory)
  | ReqReserveEnter top rid =>
      let '(s', _, r) := reserve_enter s m now top rid in
      match r with
      | Ok r => (s', spawn_replicate s' now top, Ok (RespReserveEnter (Some r)))
      | Err _ => (s', [], Ok (RespReserveEnter None))
      | Panic => (s', [], Panic)
      end
  | ReqDeleteReserveEnter top rid =>
      let s' := (delete_reserve_enter s top rid).1 in (s', spawn_replicate s' now top, Ok RespDeleteReserveEnter)
  | ReqReplica top memory => ((apply_replica s top memory).1, [], Ok RespReplica)
  end.

(** [PeerService::exec]; the text of a refusal is a parameter. *)
Definition exec (h : EnterHandlers) (text : CoordWireError → string) (s : CoordState) (m : CoordinatorMap) (now : Z) (request : TypedValue)
    (client_tuple : list Z) : CoordState * list Replication * res ExecError TypedValue :=
  match unpack_request now request (topology_levels (cs_topology s)) with
  | Ok body => let '(s', reps, r) := exec_body h s m now client_tuple body in (s', reps, pack_response <$> r)
  | Err e => (s, [], Err (Refuse (mkRefusal 0 (text e))))
  | Panic => (s, [], Panic)
  end.

(** ** The client (client.rs) *)

(** The key of a level: as many zeros. *)
Definition target_for (t : Topology) (top : nat) : res ProxyError TupleNode :=
  if (top <? 1) || (topology_levels t <? top) then Err (ProxyInvalidTop top (topology_levels t))
  else unwrap (tuple_node_new t (replicate top 0%Z)).

(** The arguments of [contact_peer]. *)
Record ContactArgs := mkContactArgs {
  ct_service : Z; ct_target : TupleNode; ct_request : TypedValue; ct_timeout : Z;
  ct_exclude_my_gnode : option nat; ct_exclude : list TupleGNode
}.

Section Client.
(** [contact] is what peer services bring back; [exclude] the g-nodes the caller knows
    to be foreign to its network. *)
Context (t : Topology) (config : CoordConfig) (now : Z) (contact : ContactArgs → option TypedValue) (exclude : list TupleGNode).

Definition round_trip (top : nat) (body : RequestBody) (timeout : Z) (exclude_my_gnode : option nat) (seeds : list TupleGNode)
    : res ProxyError ResponseBody :=
  target ← target_for t top;
  response ← ok_or (contact (mkContactArgs COORD_SERVICE_ID target (pack_request now body) timeout exclude_my_gnode seeds)) ProxyRouting;
  map_err MalformedResponse (unpack_response response).

(** The own network: foreign g-nodes are excluded. *)
Definition client_call (top : nat) (body : RequestBody) (timeout : Z) : res ProxyError ResponseBody := round_trip top body timeout None exclude.
(** A host network: only this node itself is excluded. *)
Definition call_entering (top : nat) (body : RequestBody) (timeout : Z) : res ProxyError ResponseBody := round_trip top body timeout (Some 0) [].

Definition client_get_n_nodes : res ProxyError Z :=
  r ← client_call (topology_levels t) ReqNumberOfNodes (cc_write_timeout config);
  match r with RespNumberOfNodes n => Ok n | _ => Err UnexpectedResponseKind end.
Definition client_evaluate_enter (top : nat) (data : TypedValue) : res ProxyError TypedValue :=
  r ← call_entering top (ReqEvaluateEnter top data) (cc_hooking_timeout config);
  match r with RespEvaluateEnter d => Ok d | _ => Err UnexpectedResponseKind end.
Definition client_begin_enter (top : nat) (data : TypedValue) : res ProxyError TypedValue :=
  r ← call_entering top (ReqBeginEnter top data) (cc_hooking_timeout config);
  match r with RespBeginEnter d => Ok d | _ => Err UnexpectedResponseKind end.
Definition client_completed_enter (top : nat) (data : TypedValue) : res ProxyError TypedValue :=
  r ← call_entering top (ReqCompletedEnter top data) (cc_hooking_timeout config);
  match r with RespCompletedEnter d => Ok d | _ => Err UnexpectedResponseKind end.
Definition client_abort_enter (top : nat) (data : TypedValue) : res ProxyError TypedValue :=
  r ← call_entering top (ReqAbortEnter top data) (cc_hooking_timeout config);
  match r with RespAbortEnter d => Ok d | _ => Err UnexpectedResponseKind end.
Definition client_reserve (top : nat) (rid : Z) : res ProxyError (option CoordReservation) :=
  r ← client_call top (ReqReserveEnter top rid) (cc_write_timeout config);
  match r with RespReserveEnter x => Ok x | _ => Err UnexpectedResponseKind end.
Definition client_delete_reserve (top : nat) (rid : Z) : res ProxyError unit :=
  _ ← client_call top (ReqDeleteReserveEnter top rid) (cc_write_timeout config); Ok tt.
Definition client_hooking_memory (top : nat) : res ProxyError (option TypedValue) :=
  r ← client_call top (ReqGetHookingMemory top) (cc_read_timeout config);
  match r with RespGetHookingMemory d => Ok d | _ => Err UnexpectedResponseKind end.
Definition client_set_hooking_memory (top : nat) (data : option TypedValue) : res ProxyError unit :=
  _ ← client_call top (ReqSetHookingMemory top data) (cc_write_timeout config); Ok tt.
End Client.
End Wire.
