(* ===== verification/CoordWireProps.v ===== *)
(** * Coordinator: the wire, the servant and the client together

    The requests, responses and propagations survive the wire; a servant answers every
    request, however malformed; and what a client is told is what the servant's actor
    decided. *)
From stdpp Require Import strings.
From S2P Require Import Prelude Addressing Domain PeerTuple PeerState PeerWireProps Coordinator CoordProps CoordWire.

(** ** Round trips *)
Lemma top_roundtrip top levels : 1 ≤ top ≤ levels → (Z.of_nat levels ≤ U32_MAX)%Z → validate_top (u32_as_usize (usize_as_u32 top)) levels = Ok top.
Proof.
  intros Ht Hl. unfold validate_top, u32_as_usize, usize_as_u32, U32_MAX in *. rewrite Z.mod_small by lia. rewrite Nat2Z.id.
  destruct (Nat.ltb_spec top 1), (Nat.ltb_spec levels top); try lia. done.
Qed.

(** The level a request is about, if it has one. *)
Definition request_top (b : RequestBody) : option nat :=
  match b with
  | ReqNumberOfNodes => None
  | ReqEvaluateEnter top _ | ReqBeginEnter top _ | ReqCompletedEnter top _ | ReqAbortEnter top _ | ReqGetHookingMemory top
  | ReqSetHookingMemory top _ | ReqReserveEnter top _ | ReqDeleteReserveEnter top _ | ReqReplica top _ => Some top
  end.

(** What arrives of a request: the deadlines of a replica are relative. *)
Definition received (sent arrived : Z) (b : RequestBody) : RequestBody :=
  match b with ReqReplica top memory => ReqReplica top (gnode_memory_from_wire arrived (gnode_memory_to_wire sent memory)) | _ => b end.

Lemma request_roundtrip sent arrived levels b :
  (∀ top, request_top b = Some top → 1 ≤ top ≤ levels) → (Z.of_nat levels ≤ U32_MAX)%Z →
  request_from_wire arrived levels (request_to_wire sent b) = Ok (received sent arrived b).
Proof. intros Ht Hl. destruct b; cbn; try done; rewrite top_roundtrip by (by try apply Ht); done. Qed.

Lemma response_roundtrip r : response_from_wire (response_to_wire r) = Ok r.
Proof. destruct r as [| | | | | | |[[]|]| |]; done. Qed.

(** A deadline on its way: it is cut to whole milliseconds, never moved later. *)
Lemma deadline_roundtrip d sent arrived :
  (0 ≤ d - sent ≤ from_millis MAX_REPLICA_TTL_MS)%Z →
  (d - sent - 1000000 < replica_deadline arrived (duration_remaining_ms d sent) - arrived ≤ d - sent)%Z.
Proof.
  intros Hd. unfold replica_deadline, duration_remaining_ms, from_millis, MAX_REPLICA_TTL_MS, I64_MAX in *. rewrite (Z.max_r 0 (d - sent)) by lia.
  pose proof (Z.div_mod (d - sent) 1000000 ltac:(lia)) as Hq. pose proof (Z.mod_pos_bound (d - sent) 1000000 ltac:(lia)) as Hm.
  rewrite Z.min_l by lia. rewrite Z.max_r by lia. rewrite Z.min_l by lia. lia.
Qed.

Section Wire.
Context `{ProstMessage WireRequestMsg, ProstMessage WireResponseMsg, ProstMessage WirePropagationTuple}.

Lemma pack_unpack_request sent arrived levels b :
  (∀ top, request_top b = Some top → 1 ≤ top ≤ levels) → (Z.of_nat levels ≤ U32_MAX)%Z →
  unpack_request arrived (pack_request sent b) levels = Ok (received sent arrived b).
Proof.
  intros Ht Hl. unfold unpack_request, pack_request. rewrite from_typed_value_typed_value. cbn. by apply request_roundtrip.
Qed.

Lemma pack_unpack_response r : unpack_response (pack_response r) = Ok r.
Proof. unfold unpack_response, pack_response. rewrite from_typed_value_typed_value. cbn. apply response_roundtrip. Qed.

Lemma pack_unpack_propagation args : (Z.of_nat (pa_level args) ≤ I32_MAX)%Z → unpack_propagation_args (pack_propagation_args args) = Ok args.
Proof.
  intros Hl. unfold unpack_propagation_args, pack_propagation_args. cbn. rewrite from_typed_value_typed_value. cbn.
  unfold level_from_wire. rewrite Z.min_l by done. destruct (Z.ltb_spec (Z.of_nat (pa_level args)) 0); [lia|]. cbn. rewrite Nat2Z.id. by destruct args.
Qed.

(** ** The servant *)

(** Every level has a record, with counters of their types. *)
Definition coord_complete (s : CoordState) : Prop :=
  ∀ top, 1 ≤ top ≤ topology_levels (cs_topology s) →
    ∃ mem, cs_memory s !! top = Some mem ∧ (gm_max_virtual_pos mem ≤ U32_MAX)%Z ∧ (gm_max_eldership mem ≤ U64_MAX)%Z.

Lemma insert_complete s top mem : coord_complete s → (gm_max_virtual_pos mem ≤ U32_MAX)%Z → (gm_max_eldership mem ≤ U64_MAX)%Z →
  coord_complete (set_memory s (<[top := mem]> (cs_memory s))).
Proof.
  intros Hc Hv He top' Htop'. cbn in *. destruct (decide (top' = top)) as [->|Hne]; [rewrite lookup_insert_eq; by exists mem|].
  rewrite lookup_insert_ne by done. by apply Hc.
Qed.

Lemma alter_complete s top f : coord_complete s → (∀ mem, gm_max_virtual_pos (f mem) = gm_max_virtual_pos mem ∧ gm_max_eldership (f mem) = gm_max_eldership mem) →
  coord_complete (alter_memory f top s).
Proof.
  intros Hc Hf top' Htop'. cbn in *. destruct (Hc top' Htop') as (mem & Hm & Hv & He). destruct (decide (top' = top)) as [->|Hne].
  - rewrite lookup_alter_eq, Hm. exists (f mem). destruct (Hf mem) as [-> ->]. done.
  - rewrite lookup_alter_ne by done. by exists mem.
Qed.

Lemma book_bounds m level rid d mem mem' r :
  book m level rid d mem = Ok (mem', r) → (gm_max_virtual_pos mem ≤ U32_MAX)%Z → (gm_max_virtual_pos mem' ≤ U32_MAX)%Z ∧ (gm_max_eldership mem' ≤ U64_MAX)%Z.
Proof.
  intros Hb Hv. unfold book in Hb. destruct (choose_position _ _ _) as [[p v']| |] eqn:Hc; try done. cbn in Hb. unfold u64_add in Hb.
  destruct (Z.leb_spec (gm_max_eldership mem + 1) U64_MAX); [|done]. cbn in Hb. simplify_eq. cbn.
  apply choose_position_spec in Hc as [(_ & _ & ->)|(_ & _ & -> & Hle)]; done.
Qed.

(** A request to reserve: it fails only with a counter at its end. *)
Lemma reserve_complete s m now top rid s' e r :
  coord_complete s → reserve_enter s m now top rid = (s', e, r) →
  coord_complete s' ∧ cs_topology s' = cs_topology s ∧
  (r = Panic → ∃ mem, cs_memory s !! top = Some mem ∧ (gm_max_virtual_pos mem = U32_MAX ∨ gm_max_eldership mem = U64_MAX)).
Proof.
  intros Hc Hr. unfold reserve_enter in Hr.
  destruct (Nat.ltb_spec top 1), (Nat.ltb_spec (topology_levels (cs_topology s)) top); cbn in Hr; try (by simplify_eq).
  destruct (cm_can_reserve m (top - 1)); cbn in Hr; [|by simplify_eq]. destruct (Hc top) as (mem & Hm & Hv & He); [lia|]. rewrite Hm in Hr.
  destruct (find _ _) as [b|]; [injection Hr as <- <- <-; split_and!; [by apply insert_complete|done|done]|].
  destruct (book_total m (top - 1) rid (now + cc_booking_ttl (cs_config s)) (set_reserve_list mem (purge now (gm_reserve_list mem))))
    as [(mem' & r' & Hb)|[Hb Hex]]; [done..| |]; rewrite Hb in Hr; injection Hr as <- <- <-.
  - apply book_bounds in Hb as [Hv' He']; [|done]. split_and!; [by apply insert_complete|done|done].
  - split_and!; [by apply insert_complete|done|]. intros _. by exists mem.
Qed.

Lemma number_complete {E} s m now s' e (r : res E Z) :
  coord_complete s → 1 ≤ topology_levels (cs_topology s) → number_of_nodes s m now = (s', e, r) →
  coord_complete s' ∧ cs_topology s' = cs_topology s ∧ ∃ n, r = Ok n.
Proof.
  intros Hc Hl Hr. unfold number_of_nodes in Hr. destruct (Hc (topology_levels (cs_topology s))) as (mem & Hm & Hv & He); [lia|]. rewrite Hm in Hr.
  destruct (gm_n_nodes mem) as [[n x]|]; [destruct (_ <? _)%Z|]; injection Hr as <- <- <-; (split_and!; [|done|by eexists]); try done; by apply insert_complete.
Qed.
End Wire.

(** What a peer's message decodes to is within the types of its fields. *)
Definition request_typed `{ProstMessage WireRequestMsg} (tv : TypedValue) : Prop :=
  prost_decode (tv_payload tv) ≠ Panic ∧
  ∀ w top memory, prost_decode (tv_payload tv) = Ok w → wr_body w = Some (WReplica top (Some memory)) → (wg_max_eldership memory ≤ U64_MAX)%Z.

Section Servant.
Context `{ProstMessage WireRequestMsg, ProstMessage WireResponseMsg, ProstMessage WirePropagationTuple}.

Lemma exec_body_total h s m now ct body s' reps r :
  coord_complete s → 1 ≤ topology_levels (cs_topology s) →
  (∀ top memory, body = ReqReplica top memory → (gm_max_virtual_pos memory ≤ U32_MAX)%Z ∧ (gm_max_eldership memory ≤ U64_MAX)%Z) →
  exec_body h s m now ct body = (s', reps, r) →
  coord_complete s' ∧ cs_topology s' = cs_topology s ∧
  (r = Panic → ∃ top rid mem, body = ReqReserveEnter top rid ∧ cs_memory s !! top = Some mem ∧ (gm_max_virtual_pos mem = U32_MAX ∨ gm_max_eldership mem = U64_MAX)).
Proof.
  intros Hc Hl Hrep He. destruct body; cbn [exec_body] in He; try (by simplify_eq).
  - destruct (number_of_nodes _ _ _) as [[s1 e1] r1] eqn:Hn. destruct (number_complete (E := ExecError) _ _ _ _ _ _ Hc Hl Hn) as (H1' & H2' & n & ->). by simplify_eq.
  - injection He as <- <- <-. split_and!; [by apply alter_complete|done|done].
  - destruct (reserve_enter _ _ _ _ _) as [[s1 e1] r1] eqn:Hn. apply reserve_complete in Hn as (H1' & H2' & Hp); [|done].
    destruct r1; injection He as <- <- <-; split_and!; try done. intros _. destruct (Hp eq_refl) as (mem & Hm & Hex). by eexists _, _, mem.
  - injection He as <- <- <-. split_and!; [by apply alter_complete|done|done].
  - injection He as <- <- <-. destruct (Hrep top memory eq_refl). split_and!; [by apply insert_complete|done|done].
Qed.

Lemma unpack_replica_typed now tv levels top memory :
  request_typed tv → unpack_request now tv levels = Ok (ReqReplica top memory) →
  (gm_max_virtual_pos memory ≤ U32_MAX)%Z ∧ (gm_max_eldership memory ≤ U64_MAX)%Z.
Proof.
  intros Ht Hu. unfold unpack_request, from_typed_value in Hu. destruct (bool_decide _); [|done].
  destruct (prost_decode (tv_payload tv)) as [w| |] eqn:Hd; try done. cbn in Hu. destruct (wr_body w) as [b|] eqn:Hb; [|done]. cbn in Hu.
  destruct b; cbn in Hu; try done; destruct (validate_top _ _); try done; cbn in Hu;
    try (match type of Hu with context [ok_or ?d _] => destruct d; cbn in Hu; try done end).
  simplify_eq. cbn. split; [etransitivity; [apply Z.le_min_r|done]|]. destruct Ht as [_ Ht]. by eapply Ht.
Qed.

Lemma request_from_wire_total now levels w : request_from_wire now levels w ≠ Panic.
Proof.
  destruct w; cbn; try done; unfold validate_top; destruct (_ || _); cbn; try done; by match goal with |- context [ok_or ?d _] => destruct d end.
Qed.

Lemma unpack_request_total now tv levels : request_typed tv → unpack_request now tv levels ≠ Panic.
Proof.
  intros [Hp _] Hu. unfold unpack_request, from_typed_value in Hu. destruct (bool_decide _); [|done].
  destruct (prost_decode (tv_payload tv)) as [w|x|] eqn:Hd; cbn in Hu; try done. destruct (wr_body w) as [b|]; cbn in Hu; [|done].
  by apply request_from_wire_total in Hu.
Qed.
End Servant.

(** Every message of a peer is answered.  Whatever bytes a request carries, the
    servant replies or refuses; it neither stops nor loses the record of any level,
    except when a reservation is asked at a level whose virtual positions or
    elderships have reached the end of their type. *)
Theorem servant_answers_every_request `{ProstMessage WireRequestMsg, ProstMessage WireResponseMsg} h text s m now tv ct s' reps r :
  coord_complete s → 1 ≤ topology_levels (cs_topology s) → request_typed tv → exec h text s m now tv ct = (s', reps, r) →
  coord_complete s' ∧ cs_topology s' = cs_topology s ∧
  (r = Panic → ∃ top rid mem, unpack_request now tv (topology_levels (cs_topology s)) = Ok (ReqReserveEnter top rid) ∧
     cs_memory s !! top = Some mem ∧ (gm_max_virtual_pos mem = U32_MAX ∨ gm_max_eldership mem = U64_MAX)).
Proof.
  intros Hc Hl Ht He. unfold exec in He. destruct (unpack_request now tv _) as [body|e|] eqn:Hu.
  - destruct (exec_body h s m now ct body) as [[s1 reps1] r1] eqn:Hb. injection He as <- <- <-.
    apply exec_body_total in Hb as (H1' & H2' & Hp); [|done..|].
    + split_and!; [done..|]. intros Hpan. destruct r1; try done. destruct (Hp eq_refl) as (top & rid & mem & -> & Hm & Hex). by exists top, rid, mem.
    + intros top memory ->. by eapply unpack_replica_typed.
  - by simplify_eq.
  - by apply unpack_request_total in Hu.
Qed.

(** A request that was packed. *)
Lemma exec_packed `{ProstMessage WireRequestMsg, ProstMessage WireResponseMsg} h text s m sent now ct b :
  (∀ top, request_top b = Some top → 1 ≤ top ≤ topology_levels (cs_topology s)) → (Z.of_nat (topology_levels (cs_topology s)) ≤ U32_MAX)%Z →
  exec h text s m now (pack_request sent b) ct =
  (let '(s', reps, r) := exec_body h s m now ct (received sent now b) in (s', reps, pack_response <$> r)).
Proof. intros Ht Hl. unfold exec. by rewrite pack_unpack_request. Qed.

(** ** The client and the servant *)
Section Agree.
Context `{ProstMessage WireRequestMsg, ProstMessage WireResponseMsg, ProstMessage WirePropagationTuple}.
Context (h : EnterHandlers) (text : CoordWireError → string) (s : CoordState) (m : CoordinatorMap) (arrived : Z) (ct : list Z).

(** Peer services that reach this servant and bring its response back. *)
Definition reach_servant (a : ContactArgs) : option TypedValue :=
  match (exec h text s m arrived (ct_request a) ct).2 with Ok v => Some v | _ => None end.

Lemma target_for_ok top : topology_wf (cs_topology s) → 1 ≤ top ≤ topology_levels (cs_topology s) → ∃ x, target_for (cs_topology s) top = Ok x.
Proof.
  intros [_ Hg] Ht. unfold target_for. destruct (Nat.ltb_spec top 1), (Nat.ltb_spec (topology_levels (cs_topology s)) top); try lia. cbn.
  unfold tuple_node_new. rewrite length_replicate. destruct (Nat.ltb_spec (topology_levels (cs_topology s)) top); [lia|].
  assert (∀ n i, i + n ≤ topology_levels (cs_topology s) → check_tuple (cs_topology s) i (replicate n 0%Z) = Ok tt) as Hck.
  { induction n as [|n IH]; intros i Hi; [done|]. cbn. destruct (topology_gsize (cs_topology s) i) as [g|] eqn:Hgi.
    - cbn. pose proof (list_elem_of_lookup_2 _ _ _ Hgi) as Hin. rewrite Forall_forall in Hg. specialize (Hg g Hin).
      destruct (Z.leb_spec g 0); [lia|]. apply IH. lia.
    - exfalso. apply lookup_ge_None in Hgi. unfold topology_levels in Hi. lia. }
  rewrite Hck by lia. cbn. by eexists.
Qed.

Lemma call_reaches sent top b :
  topology_wf (cs_topology s) → (Z.of_nat (topology_levels (cs_topology s)) ≤ U32_MAX)%Z → 1 ≤ top ≤ topology_levels (cs_topology s) →
  (∀ top, request_top b = Some top → 1 ≤ top ≤ topology_levels (cs_topology s)) →
  ∀ s' reps r, exec_body h s m arrived ct (received sent arrived b) = (s', reps, Ok r) →
  ∀ timeout mine seeds, round_trip (cs_topology s) sent reach_servant top b timeout mine seeds = Ok r.
Proof.
  intros Ht Hl Htop Hb s' reps r He timeout mine seeds. destruct (target_for_ok top Ht Htop) as [x Hx]. unfold round_trip. rewrite Hx. cbn.
  unfold reach_servant, exec. cbn [ct_request]. rewrite pack_unpack_request by done. rewrite He. cbn. by rewrite pack_unpack_response.
Qed.
End Agree.

(** The peer that was contacted answered the request [b] with the response [r]. *)
Definition answered `{ProstMessage WireRequestMsg, ProstMessage WireResponseMsg}
    (contact : ContactArgs → option TypedValue) (sent : Z) (b : RequestBody) (r : ResponseBody) : Prop :=
  ∃ a v, ct_request a = pack_request sent b ∧ contact a = Some v ∧ unpack_response v = Ok r.

Lemma round_trip_answered `{ProstMessage WireRequestMsg, ProstMessage WireResponseMsg} t sent contact top b timeout mine seeds r :
  round_trip t sent contact top b timeout mine seeds = Ok r → answered contact sent b r.
Proof.
  unfold round_trip. destruct (target_for t top) as [x| |]; cbn; [|done..]. destruct (contact _) as [v|] eqn:Hc; cbn; [|done].
  destruct (unpack_response v) as [r'| |] eqn:Hu; cbn; [|done..]. intros [= <-].
  eexists _, v. split_and!; [|exact Hc|exact Hu]. done.
Qed.

(** Every call that returns something takes it from a response of its own kind to
    its own request. *)
Ltac own_kind :=
  let E := fresh "E" in let r := fresh "r" in
  match goal with
  | |- context [round_trip ?t ?n ?ct ?top ?b ?to ?mi ?se] =>
      destruct (round_trip t n ct top b to mi se) as [r| |] eqn:E; cbn; [|discriminate..];
      apply round_trip_answered in E; destruct r; try done; by intros [= <-]
  end.

(** C20: a client learns exactly what the servant decided.  When the peer services
    bring the packed request to the servant and its packed response back, a reservation
    is the one the servant's actor granted, and [None] is its refusal; the node count,
    the scratch memory and the answers of the enter protocol arrive unchanged.  And
    whoever answers, these seven calls return only what a response of their own kind to
    their own request carries: an answer of another kind is an error.  (Deleting a
    reservation and writing the scratch memory return nothing, and take any response as
    their acknowledgement.) *)
Theorem client_servant_agree `{ProstMessage WireRequestMsg, ProstMessage WireResponseMsg} h text s m config exclude sent arrived ct top rid data :
  topology_wf (cs_topology s) → (Z.of_nat (topology_levels (cs_topology s)) ≤ U32_MAX)%Z → 1 ≤ top ≤ topology_levels (cs_topology s) →
  let contact := reach_servant h text s m arrived ct in
  let t := cs_topology s in
  client_reserve t config sent contact exclude top rid =
    match (reserve_enter s m arrived top rid).2 with Ok r => Ok (Some r) | Err _ => Ok None | Panic => Err ProxyRouting end ∧
  client_get_n_nodes t config sent contact exclude =
    match (number_of_nodes (E:=ExecError) s m arrived).2 with Ok n => Ok n | _ => Err ProxyRouting end ∧
  client_hooking_memory t config sent contact exclude top = Ok (get_hooking_memory s top) ∧
  client_evaluate_enter t config sent contact top data = Ok (eh_evaluate_enter h top data ct) ∧
  client_begin_enter t config sent contact top data = Ok (eh_begin_enter h top data ct) ∧
  client_completed_enter t config sent contact top data = Ok (eh_completed_enter h top data ct) ∧
  client_abort_enter t config sent contact top data = Ok (eh_abort_enter h top data ct) ∧
  ∀ peer,
    (∀ v, client_reserve t config sent peer exclude top rid = Ok v → answered peer sent (ReqReserveEnter top rid) (RespReserveEnter v)) ∧
    (∀ n, client_get_n_nodes t config sent peer exclude = Ok n → answered peer sent ReqNumberOfNodes (RespNumberOfNodes n)) ∧
    (∀ d, client_hooking_memory t config sent peer exclude top = Ok d → answered peer sent (ReqGetHookingMemory top) (RespGetHookingMemory d)) ∧
    (∀ d, client_evaluate_enter t config sent peer top data = Ok d → answered peer sent (ReqEvaluateEnter top data) (RespEvaluateEnter d)) ∧
    (∀ d, client_begin_enter t config sent peer top data = Ok d → answered peer sent (ReqBeginEnter top data) (RespBeginEnter d)) ∧
    (∀ d, client_completed_enter t config sent peer top data = Ok d → answered peer sent (ReqCompletedEnter top data) (RespCompletedEnter d)) ∧
    (∀ d, client_abort_enter t config sent peer top data = Ok d → answered peer sent (ReqAbortEnter top data) (RespAbortEnter d)).
Proof.
  intros Ht Hl Htop contact t.
  assert (∀ b s' reps r, request_top b = Some top → exec_body h s m arrived ct (received sent arrived b) = (s', reps, Ok r) →
            ∀ timeout mine seeds, round_trip t sent contact top b timeout mine seeds = Ok r) as Hcall.
  { intros b s' reps r Hb He. eapply call_reaches; try done. intros top' Htop'. rewrite Hb in Htop'. by simplify_eq. }
  assert (∀ top' b s' reps, 1 ≤ top' ≤ topology_levels t → (∀ x, request_top b = Some x → 1 ≤ x ≤ topology_levels t) →
            exec_body h s m arrived ct (received sent arrived b) = (s', reps, Panic) →
            ∀ timeout mine seeds, round_trip t sent contact top' b timeout mine seeds = Err ProxyRouting) as Hpanic.
  { intros top' b s' reps Htop' Hb He timeout mine seeds. destruct (target_for_ok s top' Ht Htop') as [x Hx]. unfold round_trip. fold t in Hx. rewrite Hx. cbn.
    unfold contact, reach_servant, exec. cbn [ct_request]. rewrite pack_unpack_request by done. by rewrite He. }
  split_and!.
  - unfold client_reserve, client_call. destruct (reserve_enter s m arrived top rid) as [[s1 e1] [r|e|]] eqn:Hr; cbn [snd];
      [erewrite (Hcall _ s1 _ (RespReserveEnter (Some r))); [done|done|cbn; by rewrite Hr]
      |erewrite (Hcall _ s1 _ (RespReserveEnter None)); [done|done|cbn; by rewrite Hr]|].
    erewrite (Hpanic top); [done|done|intros x [= <-]; done|cbn; by rewrite Hr].
  - unfold client_get_n_nodes. destruct (number_of_nodes (E := ExecError) s m arrived) as [[s1 e1] r1] eqn:Hr. cbn [snd].
    destruct r1 as [n|e|].
    + assert (client_call t sent contact exclude (topology_levels t) ReqNumberOfNodes (cc_write_timeout config) = Ok (RespNumberOfNodes n)) as ->; [|done].
      eapply call_reaches; [done|done|unfold t; lia|done|cbn; by rewrite Hr].
    + exfalso. unfold number_of_nodes in Hr. destruct (cs_memory s !! _); [|done]. destruct (gm_n_nodes _) as [[]|]; [destruct (_ <? _)%Z|]; done.
    + unfold client_call. erewrite (Hpanic (topology_levels t)); [done|unfold t; lia|done|cbn; by rewrite Hr].
  - unfold client_hooking_memory, client_call. by erewrite (Hcall _ s _ (RespGetHookingMemory (get_hooking_memory s top))).
  - unfold client_evaluate_enter, call_entering. by erewrite (Hcall _ s _ (RespEvaluateEnter _)).
  - unfold client_begin_enter, call_entering. by erewrite (Hcall _ s _ (RespBeginEnter _)).
  - unfold client_completed_enter, call_entering. by erewrite (Hcall _ s _ (RespCompletedEnter _)).
  - unfold client_abort_enter, call_entering. by erewrite (Hcall _ s _ (RespAbortEnter _)).
  - intros peer. unfold client_reserve, client_get_n_nodes, client_hooking_memory, client_evaluate_enter, client_begin_enter,
      client_completed_enter, client_abort_enter, client_call, call_entering. split_and!; intros v; own_kind.
Qed.

(** Requests, responses and propagations survive the wire.  A request with a level
    of the topology is read back as it was sent, every response and every propagation
    is; a replicated record arrives with its bookings and counters, the virtual counter
    below its ceiling, and every deadline that lies within the next hour is the same
    time ahead, cut to whole milliseconds. *)
Theorem coordinator_wire_roundtrip `{ProstMessage WireRequestMsg, ProstMessage WireResponseMsg, ProstMessage WirePropagationTuple}
    sent arrived levels b r args d :
  (∀ top, request_top b = Some top → 1 ≤ top ≤ levels) → (Z.of_nat levels ≤ U32_MAX)%Z → (Z.of_nat (pa_level args) ≤ I32_MAX)%Z →
  (0 ≤ d - sent ≤ from_millis MAX_REPLICA_TTL_MS)%Z →
  unpack_request arrived (pack_request sent b) levels = Ok (received sent arrived b) ∧
  unpack_response (pack_response r) = Ok r ∧ unpack_propagation_args (pack_propagation_args args) = Ok args ∧
  (d - sent - 1000000 < replica_deadline arrived (duration_remaining_ms d sent) - arrived ≤ d - sent)%Z ∧
  (∀ mem, length (gm_reserve_list mem) ≤ MAX_REPLICA_BOOKINGS →
     let mem' := gnode_memory_from_wire arrived (gnode_memory_to_wire sent mem) in
     (λ b, (bk_reserve_request_id b, bk_new_pos b, bk_new_eldership b)) <$> gm_reserve_list mem' =
     (λ b, (bk_reserve_request_id b, bk_new_pos b, bk_new_eldership b)) <$> gm_reserve_list mem ∧
     gm_max_eldership mem' = gm_max_eldership mem ∧ gm_max_virtual_pos mem' = Z.min (gm_max_virtual_pos mem) MAX_REPLICA_VIRTUAL_POS ∧
     gm_hooking_memory mem' = gm_hooking_memory mem).
Proof.
  intros Ht Hl Hp Hd. split; [by apply pack_unpack_request|]. split; [apply pack_unpack_response|]. split; [by apply pack_unpack_propagation|].
  split; [by apply deadline_roundtrip|]. intros mem Hlen. cbv zeta. unfold gnode_memory_from_wire, gnode_memory_to_wire. cbn [gm_reserve_list wg_reserve_list].
  split; [|done]. rewrite take_ge by (by rewrite length_fmap). by rewrite <-!list_fmap_compose.
Qed.

(** ** An encoding, for the examples *)
Definition tv_pair (d : TypedValue) : string * list Z := (tv_type_tag d, tv_payload d).
Definition pair_tv (p : string * list Z) : TypedValue := mkTypedValue p.1 p.2.

#[export] Instance TypedValue_countable : Countable TypedValue.
Proof. apply (inj_countable' tv_pair pair_tv). by intros []. Defined.

Definition wb_tuple (b : WireBooking) : Z * Z * Z * Z := (wb_reserve_request_id b, wb_new_pos b, wb_new_eldership b, wb_timeout_remaining_ms b).
Definition tuple_wb (p : Z * Z * Z * Z) : WireBooking := let '(a, b, c, d) := p in mkWireBooking a b c d.

#[export] Instance WireBooking_eq_dec : EqDecision WireBooking.
Proof. solve_decision. Defined.
#[export] Instance WireBooking_countable : Countable WireBooking.
Proof. apply (inj_countable' wb_tuple tuple_wb). by intros []. Defined.

#[export] Instance WireGnodeMemory_eq_dec : EqDecision WireGnodeMemory.
Proof. solve_decision. Defined.
#[export] Instance WireGnodeMemory_countable : Countable WireGnodeMemory.
Proof.
  apply (inj_countable' (λ m, (wg_reserve_list m, wg_max_virtual_pos m, wg_max_eldership m, wg_n_nodes m, wg_n_nodes_timeout_remaining_ms m, wg_hooking_memory m))
    (λ p, let '(a, b, c, d, e, f) := p in mkWireGnodeMemory a b c d e f)). by intros [].
Defined.

(** A tag, and every field a message of that tag may have. *)
Definition request_fields (b : WireCoordRequest) : Z * Z * option TypedValue * Z * option WireGnodeMemory :=
  match b with
  | WNumberOfNodes => (0, 0, None, 0, None)
  | WEvaluateEnter t d => (1, t, d, 0, None)
  | WBeginEnter t d => (2, t, d, 0, None)
  | WCompletedEnter t d => (3, t, d, 0, None)
  | WAbortEnter t d => (4, t, d, 0, None)
  | WGetHookingMemory t => (5, t, None, 0, None)
  | WSetHookingMemory t d => (6, t, d, 0, None)
  | WReserveEnter t r => (7, t, None, r, None)
  | WDeleteReserveEnter t r => (8, t, None, r, None)
  | WReplica t m => (9, t, None, 0, m)
  end%Z.
Definition fields_request (p : Z * Z * option TypedValue * Z * option WireGnodeMemory) : WireCoordRequest :=
  let '(tag, t, d, r, m) := p in
  match Z.to_nat tag with
  | 0 => WNumberOfNodes
  | 1 => WEvaluateEnter t d
  | 2 => WBeginEnter t d
  | 3 => WCompletedEnter t d
  | 4 => WAbortEnter t d
  | 5 => WGetHookingMemory t
  | 6 => WSetHookingMemory t d
  | 7 => WReserveEnter t r
  | 8 => WDeleteReserveEnter t r
  | _ => WReplica t m
  end.

#[export] Instance WireRequestMsg_eq_dec : EqDecision WireRequestMsg.
Proof. assert (EqDecision WireCoordRequest) by solve_decision. solve_decision. Defined.
#[export] Instance WireRequestMsg_countable : Countable WireRequestMsg.
Proof.
  apply (inj_countable' (λ w, request_fields <$> wr_body w) (λ p, mkWireRequestMsg (fields_request <$> p))). by intros [[[]|]].
Defined.

Definition response_fields (b : WireCoordResponse) : Z * Z * option TypedValue * option (Z * Z) :=
  match b with
  | WRNumberOfNodes n => (0, n, None, None)
  | WREvaluateEnter d => (1, 0, d, None)
  | WRBeginEnter d => (2, 0, d, None)
  | WRCompletedEnter d => (3, 0, d, None)
  | WRAbortEnter d => (4, 0, d, None)
  | WRGetHookingMemory d => (5, 0, d, None)
  | WRSetHookingMemory => (6, 0, None, None)
  | WRReserveEnter r => (7, 0, None, r)
  | WRDeleteReserveEnter => (8, 0, None, None)
  | WRReplica => (9, 0, None, None)
  end%Z.
Definition fields_response (p : Z * Z * option TypedValue * option (Z * Z)) : WireCoordResponse :=
  let '(tag, n, d, r) := p in
  match Z.to_nat tag with
  | 0 => WRNumberOfNodes n
  | 1 => WREvaluateEnter d
  | 2 => WRBeginEnter d
  | 3 => WRCompletedEnter d
  | 4 => WRAbortEnter d
  | 5 => WRGetHookingMemory d
  | 6 => WRSetHookingMemory
  | 7 => WRReserveEnter r
  | 8 => WRDeleteReserveEnter
  | _ => WRReplica
  end.

#[export] Instance WireResponseMsg_eq_dec : EqDecision WireResponseMsg.
Proof. assert (EqDecision WireCoordResponse) by solve_decision. solve_decision. Defined.
#[export] Instance WireResponseMsg_countable : Countable WireResponseMsg.
Proof.
  apply (inj_countable' (λ w, response_fields <$> ws_body w) (λ p, mkWireResponseMsg (fields_response <$> p))). by intros [[[]|]].
Defined.

#[export] Instance WirePropagationTuple_eq_dec : EqDecision WirePropagationTuple.
Proof. solve_decision. Defined.
#[export] Instance WirePropagationTuple_countable : Countable WirePropagationTuple.
Proof. apply (inj_countable' wp_positions mkWirePropagationTuple). by intros []. Defined.

#[local] Instance request_prost : ProstMessage WireRequestMsg := toy_prost 1.
#[local] Instance response_prost : ProstMessage WireResponseMsg := toy_prost 2.
#[local] Instance tuple_prost : ProstMessage WirePropagationTuple := toy_prost 3.

Definition echo_handlers : EnterHandlers := mkEnterHandlers (λ _ d _, d) (λ _ d _, d) (λ _ d _, d) (λ _ d _, d).
Definition some_text (_ : CoordWireError) : string := "refused".

Lemma coord_wf_complete s : coord_wf s → coord_complete s.
Proof. intros Hw top Htop. destruct (Hw top Htop) as (g & mem & _ & Hm & [_ _ _ _ _ [H1 H2]]). exists mem. split; [done|]. lia. Qed.

Lemma servant_answers_every_request_witness :
  ∃ s' reps r, exec echo_handlers some_text coord_start (coord_map []) 0 (pack_request 0 (ReqReserveEnter 1 10)) [] = (s', reps, r) ∧
    length reps = 1 ∧ unpack_response (match r with Ok v => v | _ => mkTypedValue "" [] end) = Ok (RespReserveEnter (Some (mkCoordReservation 5 1))) ∧
    coord_complete s' ∧ cs_topology s' = cs_topology coord_start ∧
    (r = Panic → ∃ top rid mem, unpack_request 0 (pack_request 0 (ReqReserveEnter 1 10)) (topology_levels (cs_topology coord_start)) = Ok (ReqReserveEnter top rid) ∧
       cs_memory coord_start !! top = Some mem ∧ (gm_max_virtual_pos mem = U32_MAX ∨ gm_max_eldership mem = U64_MAX)).
Proof.
  eexists _, _, _. split; [vm_compute; reflexivity|]. split; [reflexivity|]. split; [vm_compute; reflexivity|].
  eapply (servant_answers_every_request echo_handlers some_text coord_start (coord_map []) 0 (pack_request 0 (ReqReserveEnter 1 10)) []).
  - apply coord_wf_complete, coord_start_wf.
  - vm_compute. lia.
  - split; [vm_compute; discriminate|]. intros w top memory Hd. vm_compute in Hd. injection Hd as <-. discriminate.
  - vm_compute. reflexivity.
Defined.

Lemma client_servant_agree_witness :
  client_reserve coord_topology coord_config_default 0 (reach_servant echo_handlers some_text coord_start (coord_map []) 5 []) [] 1 10 = Ok (Some (mkCoordReservation 5 1)).
Proof.
  refine (eq_trans (proj1 (client_servant_agree echo_handlers some_text coord_start (coord_map []) coord_config_default [] 0 5 [] 1 10 (mkTypedValue "" []) _ _ _)) _).
  - split; [done|]. repeat (apply Forall_cons_2; [unfold U32_MAX; lia|]). apply Forall_nil_2.
  - vm_compute. discriminate.
  - vm_compute. lia.
  - vm_compute. reflexivity.
Defined.

Lemma coordinator_wire_roundtrip_witness :
  unpack_request 9 (pack_request 0 (ReqSetHookingMemory 2 None)) 2 = Ok (ReqSetHookingMemory 2 None).
Proof.
  apply (coordinator_wire_roundtrip 0 9 2 (ReqSetHookingMemory 2 None) RespReplica (mkPropagationArgs [1%Z] 9 1 1 (mkTypedValue "" [])) 5).
  - intros top [= <-]. lia.
  - vm_compute. discriminate.
  - vm_compute. discriminate.
  - split; vm_compute; discriminate.
Defined.

(** One message of a peer makes the next reservation overflow.  A replica may carry
    any eldership counter: unlike the virtual positions, which are held below half their
    type, it is taken as it is.  A servant that has applied a replica with the greatest
    counter cannot grant another reservation: the addition overflows, which stops a
    build with overflow checks and hands out eldership 0, the eldest, without. *)
Theorem replicated_eldership_overflows `{ProstMessage WireRequestMsg, ProstMessage WireResponseMsg} :
  ∃ s1 v s2,
    exec echo_handlers some_text coord_start (coord_map [2%Z]) 0 (pack_request 0 (ReqReplica 1 (mkGnodeMemory [] 4 U64_MAX None None))) [] = (s1, [], Ok v) ∧
    exec echo_handlers some_text s1 (coord_map [2%Z]) 1 (pack_request 1 (ReqReserveEnter 1 10)) [] = (s2, [], Panic).
Proof.
  eexists _, _, _. split.
  - rewrite exec_packed; [|intros top [= <-]; cbn; lia|vm_compute; discriminate]. cbn [received exec_body]. reflexivity.
  - rewrite exec_packed; [|intros top [= <-]; cbn; lia|vm_compute; discriminate]. vm_compute. reflexivity.
Qed.
