(* ===== verification/Andna.v ===== *)
(** * The name service: hostnames, SNSD records, registrations, quotas

    Models [hostname.rs], [snsd.rs], [record.rs], [counter.rs], [route.rs],
    [config.rs] and [error.rs] of [crates/ntk-andna/src]: what a node does as the
    hash node of a name ([Cache]) and as the counter of a registrant
    ([CounterCache]).  Durations are in nanoseconds and times in seconds, as in the
    code; BLAKE3 and Ed25519 are the class [Crypto], the random generator the class
    [Rng] with the documented range of [random_range]. *)
From stdpp Require Import strings.
From S2P Require Import Prelude Addressing Domain Auth.

(** ** Errors (error.rs) *)
Inductive AndnaErr :=
  | EmptyHostname
  | HostnameTooLong (len max : nat)
  | InvalidHostnameChar
  | WeightTooLarge (w : Z)
  | ReservedServiceZero
  | TooManySnsdRecords (max : nat)
  | TooManyRecordsForService (service : Z) (max : nat)
  | AndnaInvalidSignature
  | MissingField (field : string)
  | FieldOutOfRange (field : string)
  | AndnaDomain (e : DomainDecodeError)
  | MalformedKeyMaterial (what : string) (expected actual : nat).

(** ** Configuration (config.rs) *)
Record AndnaConfig := mkAndnaConfig {
  an_name_ttl : Z;
  an_min_renewal_interval : Z;
  an_max_hostnames_per_registrant : nat;
  an_max_snsd_records_per_service : nat;
  an_max_snsd_records_total : nat;
  an_replication_factor : Z;
  an_call_timeout : Z;
  an_max_hosted_records : nat;
  an_max_counter_registrants : nat;
  an_expiry_purge_interval : Z
}.

(** [Duration::from_secs], [Duration::as_secs] *)
Definition from_secs (n : Z) : Z := (n * 1000000000)%Z.
Definition as_secs (d : Z) : Z := (d / 1000000000)%Z.

Definition andna_config_default : AndnaConfig :=
  mkAndnaConfig (from_secs (30 * 24 * 3600)) (from_secs 3600) 256 16 256 7 (from_secs 5) (Z.to_nat 65536) (Z.to_nat 4096) (from_secs (5 * 60)).

(** ** Hostnames (hostname.rs) *)
Definition MAX_LEN : nat := 511.

Record Hostname := mkHostname { hn_str : string }.

#[export] Instance Hostname_eq_dec : EqDecision Hostname.
Proof. solve_decision. Defined.
#[export] Instance Hostname_countable : Countable Hostname.
Proof. by apply (inj_countable' hn_str mkHostname); intros []. Defined.

(** The bytes of an ASCII letter or digit; the bytes of any other character of a
    string in UTF-8 are above them. *)
Definition is_digit (n : N) : bool := (48 <=? n)%N && (n <=? 57)%N.
Definition is_upper (n : N) : bool := (65 <=? n)%N && (n <=? 90)%N.
Definition is_lower (n : N) : bool := (97 <=? n)%N && (n <=? 122)%N.
Definition is_ascii_alphanumeric (c : Ascii.ascii) : bool :=
  let n := Ascii.N_of_ascii c in is_digit n || is_upper n || is_lower n.

Definition lower_byte (c : Ascii.ascii) : Ascii.ascii :=
  let n := Ascii.N_of_ascii c in if is_upper n then Ascii.ascii_of_N (n + 32) else c.
Definition to_ascii_lowercase (s : string) : string :=
  String.string_of_list_ascii (lower_byte <$> String.list_ascii_of_string s).

Definition hostname_new (raw : string) : res AndnaErr Hostname :=
  match raw with
  | EmptyString => Err EmptyHostname
  | _ =>
      if MAX_LEN <? String.length raw then Err (HostnameTooLong (String.length raw) MAX_LEN)
      else if negb (all is_ascii_alphanumeric (String.list_ascii_of_string raw)) then Err InvalidHostnameChar
      else Ok (mkHostname (to_ascii_lowercase raw))
  end.

(** [u128::from_le_bytes] *)
Fixpoint from_le_bytes (l : list Z) : Z :=
  match l with
  | [] => 0
  | b :: l' => (b + 256 * from_le_bytes l')%Z
  end.

Definition hostname_hash `{Crypto} (h : Hostname) : list Z := blake3 (as_bytes (hn_str h)).
(** The low 16 bytes of a hash. *)
Definition hash_route_key (hash : list Z) : Z := from_le_bytes (take 16 hash).
(** route.rs *)
Definition counter_route_key `{Crypto} (registrant : Naddr) : Z :=
  hash_route_key (blake3 (concat (to_le_bytes 4 <$> na_pos registrant))).

(** ** SNSD records (snsd.rs) *)
Definition MAX_WEIGHT : Z := 127.
Definition ZERO_SERVICE : Z := 0.
Definition ZERO_DEFAULT_PRIORITY : Z := 16.
Definition ZERO_DEFAULT_WEIGHT : Z := 1.

Inductive SnsdTarget := Address (a : Naddr) | Alias (h : Hostname).

#[export] Instance SnsdTarget_eq_dec : EqDecision SnsdTarget.
Proof. solve_decision. Defined.

Record SnsdRecord := mkSnsdRecord { sr_service : Z; sr_priority : Z; sr_weight : Z; sr_target : SnsdTarget }.

#[export] Instance SnsdRecord_eq_dec : EqDecision SnsdRecord.
Proof. solve_decision. Defined.

Definition snsd_record_new (service priority weight : Z) (target : SnsdTarget) : res AndnaErr SnsdRecord :=
  if (MAX_WEIGHT <? weight)%Z then Err (WeightTooLarge weight) else Ok (mkSnsdRecord service priority weight target).

Record SnsdTable := mkSnsdTable { st_by_service : gmap Z (list SnsdRecord); st_total : nat }.

#[export] Instance SnsdTable_eq_dec : EqDecision SnsdTable.
Proof. solve_decision. Defined.

Definition snsd_new : SnsdTable := mkSnsdTable ∅ 0.
(** [keys] of a [BTreeMap] are in ascending order. *)
Definition services (t : SnsdTable) : list Z := (bt_iter (st_by_service t)).*1.

(** A refusal of the second cap leaves the (empty) bucket that [or_default] made. *)
Definition snsd_insert (t : SnsdTable) (r : SnsdRecord) (max_per_service max_total : nat) : SnsdTable * res AndnaErr unit :=
  if max_total <=? st_total t then (t, Err (TooManySnsdRecords max_total))
  else
    let service := sr_service r in
    let bucket := default [] (st_by_service t !! service) in
    if max_per_service <=? length bucket
    then (mkSnsdTable (<[service := bucket]> (st_by_service t)) (st_total t), Err (TooManyRecordsForService service max_per_service))
    else (mkSnsdTable (<[service := bucket ++ [r]]> (st_by_service t)) (S (st_total t)), Ok tt).

(** The subtraction of the removed records' count panics below zero. *)
Definition set_zero_record {E} (t : SnsdTable) (owner_naddr : Naddr) (priority weight : Z) : res E SnsdTable :=
  total ← match st_by_service t !! ZERO_SERVICE with
          | Some old => if st_total t <? length old then Panic else Ok (st_total t - length old)
          | None => Ok (st_total t)
          end;
  Ok (mkSnsdTable (<[ZERO_SERVICE := [mkSnsdRecord ZERO_SERVICE priority weight (Address owner_naddr)]]> (st_by_service t)) (S total)).

(** *** Selection *)
Class Rng (R : Type) := {
  random_range : R → Z → Z → Z * R;
  random_range_bounds : ∀ r lo hi, (lo ≤ hi → lo ≤ (random_range r lo hi).1 ≤ hi)%Z
}.

(** The sum of the weights, as [u32]. *)
Definition total_weight {E} (l : list SnsdRecord) : res E Z := foldM (λ s r, u32_add s (sr_weight r)) 0%Z l.

(** The index whose cumulated weight reaches the draw, 0 when none does. *)
Fixpoint chosen_index (i : nat) (pick : Z) (l : list SnsdRecord) : nat :=
  match l with
  | [] => 0
  | r :: l' => if (pick <=? sr_weight r)%Z then i else chosen_index (S i) (pick - sr_weight r) l'
  end.

Section Selection.
Context {R : Type} `{Rng R} {E : Type}.

(** One round draws one record out of the pool; [n] is the length of the pool. *)
Fixpoint shuffle_loop (n : nat) (pool : list SnsdRecord) (rng : R) : res E (list SnsdRecord * R) :=
  match n with
  | 0 => Ok ([], rng)
  | S n' =>
      total ← total_weight pool;
      if (total <? 1)%Z then Panic
      else
        let (pick, rng') := random_range rng 1 total in
        let chosen := chosen_index 0 pick pool in
        r ← expect (pool !! chosen);
        rest ← shuffle_loop n' (delete chosen pool) rng';
        Ok (r :: rest.1, rest.2)
  end.

Definition weighted_shuffle (pool : list SnsdRecord) (rng : R) : res E (list SnsdRecord * R) := shuffle_loop (length pool) pool rng.

(** The enabled records by priority, then the tiers in descending order. *)
Definition by_priority (records : list SnsdRecord) : gmap Z (list SnsdRecord) :=
  foldl (λ m r, <[sr_priority r := default [] (m !! sr_priority r) ++ [r]]> m) ∅ (retain (λ r, (0 <? sr_weight r)%Z) records).
Definition tiers (records : list SnsdRecord) : list (list SnsdRecord) := (reverse (bt_iter (by_priority records))).*2.

Definition snsd_lookup (t : SnsdTable) (service : Z) : option (list SnsdRecord) :=
  match st_by_service t !! service with
  | Some (r :: l) => Some (r :: l)
  | _ => st_by_service t !! ZERO_SERVICE
  end.

Definition snsd_resolve (t : SnsdTable) (service : Z) (rng : R) : res E (list SnsdRecord * R) :=
  match snsd_lookup t service with
  | None => Ok ([], rng)
  | Some records => foldM (λ acc tier, x ← weighted_shuffle tier acc.2; Ok (acc.1 ++ x.1, x.2)) ([], rng) (tiers records)
  end.
End Selection.

(** ** Registrations (record.rs) *)
Definition MAX_TIMESTAMP_SKEW_SECS : Z := 3600.

(** The bytes of a target under a signature. *)
Definition encode_target (t : SnsdTarget) : list Z :=
  match t with
  | Address a =>
      [0%Z] ++ len_prefix (length (na_pos a)) ++ concat (to_le_bytes 4 <$> gsizes (na_topology a)) ++ concat (to_le_bytes 4 <$> na_pos a)
  | Alias h => [1%Z] ++ len_prefix (length (as_bytes (hn_str h))) ++ as_bytes (hn_str h)
  end.

Definition encode_record (r : SnsdRecord) : list Z :=
  to_le_bytes 2 (sr_service r) ++ [sr_priority r; sr_weight r] ++ encode_target (sr_target r).

Inductive RegisterOutcome := Registered (expires_at : Z) | Renewed (expires_at : Z).

Inductive SnsdCapError := CapTotal (max : nat) | CapPerService (service : Z) (max : nat).

Inductive RegisterRejected :=
  | RejInvalidSignature
  | RejReservedServiceZero
  | OwnedByOther
  | StaleSequence (given stored : Z)
  | RenewalTooSoon (retry_after : Z)
  | SnsdCap (e : SnsdCapError)
  | HostCapacityExceeded (cap : nat)
  | StaleTimestamp (timestamp now : Z)
  | RejWeightTooLarge (w : Z).

(** Any other error is unreachable: [SnsdTable::insert] returns no other. *)
Definition snsd_error {E} (e : AndnaErr) : res E SnsdCapError :=
  match e with
  | TooManySnsdRecords max => Ok (CapTotal max)
  | TooManyRecordsForService service max => Ok (CapPerService service max)
  | _ => Panic
  end.

Section Records.
Context `{Crypto}.

Record RegisterRequest := mkRegisterRequest {
  rq_hostname : Hostname;
  rq_owner_key : VerifyingKey;
  rq_owner_naddr : Naddr;
  rq_sequence : Z;
  rq_timestamp_unix : Z;
  rq_zero_priority : Z;
  rq_zero_weight : Z;
  rq_snsd_records : list SnsdRecord;
  rq_signature : list Z
}.

Definition register_signing_bytes (q : RegisterRequest) : list Z :=
  let name := as_bytes (hn_str (rq_hostname q)) in
  len_prefix (length name) ++ name ++ vk_to_bytes (rq_owner_key q) ++ encode_target (Address (rq_owner_naddr q)) ++
  to_le_bytes 8 (rq_sequence q) ++ to_le_bytes 8 (rq_timestamp_unix q) ++ [rq_zero_priority q; rq_zero_weight q] ++
  len_prefix (length (rq_snsd_records q)) ++ concat (encode_record <$> rq_snsd_records q).

Definition with_signature (q : RegisterRequest) (signature : list Z) : RegisterRequest :=
  mkRegisterRequest (rq_hostname q) (rq_owner_key q) (rq_owner_naddr q) (rq_sequence q) (rq_timestamp_unix q) (rq_zero_priority q)
    (rq_zero_weight q) (rq_snsd_records q) signature.

Definition names_zero_service (l : list SnsdRecord) : bool := any (λ r, (sr_service r =? ZERO_SERVICE)%Z) l.

Definition register_sign (signing_key : SigningKey) (hostname : Hostname) (owner_naddr : Naddr)
    (sequence timestamp_unix zero_priority zero_weight : Z) (snsd_records : list SnsdRecord) : res AndnaErr RegisterRequest :=
  if names_zero_service snsd_records then Err ReservedServiceZero
  else if (MAX_WEIGHT <? zero_weight)%Z then Err (WeightTooLarge zero_weight)
  else
    let unsigned := mkRegisterRequest hostname (verifying_key signing_key) owner_naddr sequence timestamp_unix zero_priority zero_weight
                      snsd_records (replicate 64 0%Z) in
    Ok (with_signature unsigned (ed_sign signing_key (register_signing_bytes unsigned))).

Definition register_verify (q : RegisterRequest) : res AndnaErr unit :=
  if ed_verify (rq_owner_key q) (register_signing_bytes q) (rq_signature q) then Ok tt else Err AndnaInvalidSignature.

Record HostedRecord := mkHostedRecord {
  hr_owner_key : VerifyingKey;
  hr_sequence : Z;
  hr_registered_at : Z;
  hr_renewed_at : Z;
  hr_expires_at : Z;
  hr_snsd : SnsdTable
}.

Definition is_expired (r : HostedRecord) (now : Z) : bool := (hr_expires_at r <=? now)%Z.

(** [Cache]: the records a node holds, by name. *)
Abbreviation Cache := (gmap Hostname HostedRecord).

(** The zero record, then the signed records one after the other under the caps. *)
Definition build_snsd (q : RegisterRequest) (max_per_service max_total : nat) : res RegisterRejected SnsdTable :=
  t ← set_zero_record snsd_new (rq_owner_naddr q) (rq_zero_priority q) (rq_zero_weight q);
  foldM (λ t r,
    match snsd_insert t r max_per_service max_total with
    | (t', Ok _) => Ok t'
    | (_, Err e) => e' ← snsd_error e; Err (SnsdCap e')
    | (_, Panic) => Panic
    end) t (rq_snsd_records q).

(** What the stored record of the name says to the request. *)
Definition is_fresh_slot (c : Cache) (q : RegisterRequest) (now : Z) : bool :=
  match c !! rq_hostname q with
  | None => true
  | Some e => is_expired e now || negb (bool_decide (hr_owner_key e = rq_owner_key q))
  end.

Definition check_slot (c : Cache) (q : RegisterRequest) (now min_renewal_interval : Z) : res RegisterRejected unit :=
  if is_fresh_slot c q now then
    match c !! rq_hostname q with
    | Some e => if negb (is_expired e now) && negb (bool_decide (hr_owner_key e = rq_owner_key q)) then Err OwnedByOther else Ok tt
    | None => Ok tt
    end
  else
    e ← expect (c !! rq_hostname q);
    if (rq_sequence q <=? hr_sequence e)%Z then Err (StaleSequence (rq_sequence q) (hr_sequence e))
    else
      let min_next := u64_saturating_add (hr_renewed_at e) (as_secs min_renewal_interval) in
      if (now <? min_next)%Z then Err (RenewalTooSoon (from_secs (min_next - now))) else Ok tt.

(** The checks that do not look at the name's own record. *)
Definition check_request (c : Cache) (q : RegisterRequest) (now : Z) (max_hosted_records : nat) : res RegisterRejected unit :=
  _ ← map_err (λ _, RejInvalidSignature) (register_verify q);
  if names_zero_service (rq_snsd_records q) then Err RejReservedServiceZero
  else if (MAX_WEIGHT <? rq_zero_weight q)%Z then Err (RejWeightTooLarge (rq_zero_weight q))
  else if (MAX_TIMESTAMP_SKEW_SECS <? Z.abs (rq_timestamp_unix q - now))%Z then Err (StaleTimestamp (rq_timestamp_unix q) now)
  else if bool_decide (c !! rq_hostname q = None) && (max_hosted_records <=? size c) then Err (HostCapacityExceeded max_hosted_records)
  else Ok tt.

Definition cache_register (c : Cache) (q : RegisterRequest) (now ttl min_renewal_interval : Z)
    (max_snsd_per_service max_snsd_total max_hosted_records : nat) : Cache * res RegisterRejected RegisterOutcome :=
  match
    _ ← check_request c q now max_hosted_records;
    _ ← check_slot c q now min_renewal_interval;
    snsd ← build_snsd q max_snsd_per_service max_snsd_total;
    expires_at ← u64_add now (as_secs ttl);
    if is_fresh_slot c q now
    then Ok (mkHostedRecord (rq_owner_key q) (rq_sequence q) now now expires_at snsd, Registered expires_at)
    else
      e ← expect (c !! rq_hostname q);
      Ok (mkHostedRecord (hr_owner_key e) (rq_sequence q) (hr_registered_at e) now expires_at snsd, Renewed expires_at)
  with
  | Ok (record, outcome) => (<[rq_hostname q := record]> c, Ok outcome)
  | Err e => (c, Err e)
  | Panic => (c, Panic)
  end.

Definition cache_resolve {R} `{Rng R} {E} (c : Cache) (hostname : Hostname) (service now : Z) (rng : R) : res E (list SnsdRecord * R) :=
  match c !! hostname with
  | Some r => if negb (is_expired r now) then snsd_resolve (hr_snsd r) service rng else Ok ([], rng)
  | None => Ok ([], rng)
  end.

(** The expired names in the order of the [BTreeMap], and what is left. *)
Definition cache_purge_expired (c : Cache) (now : Z) : Cache * list Hostname :=
  (filter (λ kv, is_expired kv.2 now = false) c,
   sort_by (λ a b, String.leb (hn_str a) (hn_str b)) (map_to_list (filter (λ kv, is_expired kv.2 now = true) c)).*1).
End Records.
Arguments RegisterRequest {_}. Arguments HostedRecord {_}.

(** ** The counter of a registrant (counter.rs) *)
Inductive CounterRejected := CapExceeded (cap : nat) | TooManyRegistrants (cap : nat).

(** By registrant (its positions), the reserved hashes with their expiry. *)
Abbreviation Reservations := (gmap (list Z) Z).
Abbreviation CounterCache := (gmap (list Z) (gmap (list Z) Z)).

Definition live_count (r : Reservations) (now : Z) : nat := size (filter (λ kv, (now < kv.2)%Z) r).

Definition try_reserve (c : CounterCache) (registrant hash : list Z) (now ttl : Z) (cap max_registrants : nat)
    : CounterCache * res CounterRejected nat :=
  if bool_decide (c !! registrant = None) && (max_registrants <=? size c) then (c, Err (TooManyRegistrants max_registrants))
  else
    let entry := default ∅ (c !! registrant) in
    let c1 := <[registrant := entry]> c in
    let is_live_renewal := match entry !! hash with Some expiry => (now <? expiry)%Z | None => false end in
    if negb is_live_renewal && (cap <=? live_count entry now) then (c1, Err (CapExceeded cap))
    else
      match (u64_add now (as_secs ttl) : res CounterRejected Z) with
      | Ok expiry => let entry' := <[hash := expiry]> entry in (<[registrant := entry']> c, Ok (live_count entry' now))
      | _ => (c1, Panic)
      end.

Definition counter_purge_expired (c : CounterCache) (now : Z) : CounterCache :=
  filter (λ kr, kr.2 ≠ ∅) ((λ r, filter (λ kv, (now < kv.2)%Z) r) <$> c).

Definition counter_snapshot (c : CounterCache) (now : Z) : gmap (list Z) nat :=
  filter (λ kn, 0 < kn.2) ((λ r, live_count r now) <$> c).
