(* ===== verification/AndnaActor.v ===== *)
(** * The name service: actor, wire messages, services, client

    Models [actor.rs], [wire.rs], [service.rs] and [substrate.rs] of
    [crates/ntk-andna/src] over Andna.v.  A step of the actor takes a command and
    yields its events and its reply; the random generator of a resolve, the clock and
    the texts of the errors are arguments, and the peer services a handle calls are
    the class [Substrate], with [FakeSubstrate] of the code as its instance. *)
From stdpp Require Import strings.
From S2P Require Import Prelude Addressing Domain Auth PeerTuple PeerState PeerRouting Andna.

(** ** The actor (actor.rs) *)
Section Actor.
Context `{Crypto} {R : Type} `{Rng R}.

Record AndnaSnapshot := mkAndnaSnapshot { sn_hosted : gmap Hostname HostedRecord; sn_counters : gmap (list Z) nat }.

Inductive AndnaEvent :=
  | EvRegistered (hostname : Hostname) (expires_at : Z)
  | EvRenewed (hostname : Hostname) (expires_at : Z)
  | EvExpired (hostname : Hostname).

Inductive AndnaCmd :=
  | CmdRegister (q : RegisterRequest) (now : Z)
  | CmdResolve (hostname : Hostname) (service now : Z)
  | CmdCounterReserve (registrant hash : list Z) (now : Z)
  | CmdPurgeExpired (now : Z).

Inductive AndnaReply :=
  | ReplyRegister (r : res RegisterRejected RegisterOutcome)
  | ReplyResolve (r : res ExecError (list SnsdRecord))
  | ReplyCounter (r : res CounterRejected nat)
  | ReplyNothing.

Record AndnaState := mkAndnaState {
  as_cache : gmap Hostname HostedRecord;
  as_counters : gmap (list Z) (gmap (list Z) Z);
  as_config : AndnaConfig;
  as_snapshot : AndnaSnapshot
}.

(** [Manager::new] *)
Definition andna_new (config : AndnaConfig) : AndnaState := mkAndnaState ∅ ∅ config (mkAndnaSnapshot ∅ ∅).

Definition outcome_event (h : Hostname) (o : RegisterOutcome) : AndnaEvent :=
  match o with Registered e => EvRegistered h e | Renewed e => EvRenewed h e end.

Definition andna_publish (s : AndnaState) (now : Z) : AndnaState :=
  mkAndnaState (as_cache s) (as_counters s) (as_config s) (mkAndnaSnapshot (as_cache s) (counter_snapshot (as_counters s) now)).

(** [send_modify] with one name or one registrant changed. *)
Definition patch_hosted (s : AndnaState) (h : Hostname) : AndnaState :=
  match as_cache s !! h with
  | Some r => mkAndnaState (as_cache s) (as_counters s) (as_config s)
                (mkAndnaSnapshot (<[h := r]> (sn_hosted (as_snapshot s))) (sn_counters (as_snapshot s)))
  | None => s
  end.
Definition patch_counter (s : AndnaState) (registrant : list Z) (count : nat) : AndnaState :=
  mkAndnaState (as_cache s) (as_counters s) (as_config s)
    (mkAndnaSnapshot (sn_hosted (as_snapshot s)) (<[registrant := count]> (sn_counters (as_snapshot s)))).

(** [State::handle] *)
Definition andna_handle (s : AndnaState) (rng : R) (cmd : AndnaCmd) : AndnaState * list AndnaEvent * AndnaReply :=
  let cfg := as_config s in
  match cmd with
  | CmdRegister q now =>
      let '(c, r) := cache_register (as_cache s) q now (an_name_ttl cfg) (an_min_renewal_interval cfg)
                       (an_max_snsd_records_per_service cfg) (an_max_snsd_records_total cfg) (an_max_hosted_records cfg) in
      let s' := mkAndnaState c (as_counters s) cfg (as_snapshot s) in
      match r with
      | Ok o => (patch_hosted s' (rq_hostname q), [outcome_event (rq_hostname q) o], ReplyRegister r)
      | _ => (s', [], ReplyRegister r)
      end
  | CmdResolve hostname service now => (s, [], ReplyResolve (x ← cache_resolve (as_cache s) hostname service now rng; Ok x.1))
  | CmdCounterReserve registrant hash now =>
      let '(c, r) := try_reserve (as_counters s) registrant hash now (an_name_ttl cfg) (an_max_hostnames_per_registrant cfg)
                       (an_max_counter_registrants cfg) in
      let s' := mkAndnaState (as_cache s) c cfg (as_snapshot s) in
      match r with Ok n => (patch_counter s' registrant n, [], ReplyCounter r) | _ => (s', [], ReplyCounter r) end
  | CmdPurgeExpired now =>
      let '(c, expired) := cache_purge_expired (as_cache s) now in
      let s' := mkAndnaState c (counter_purge_expired (as_counters s) now) cfg (as_snapshot s) in
      (andna_publish s' now, EvExpired <$> expired, ReplyNothing)
  end.
End Actor.
Arguments AndnaSnapshot {_}. Arguments AndnaState {_}. Arguments AndnaCmd {_}.

(** ** Wire messages (wire.rs) *)
Inductive WireSnsdTarget := WTAddress (value : list WireNaddr) | WTHostname (name : string).
Record WireSnsdRecord := mkWireSnsdRecord { ws_service : Z; ws_priority : Z; ws_weight : Z; ws_target : option WireSnsdTarget }.
Record WireRegisterRequest := mkWireRegisterRequest {
  wr_hostname : string; wr_owner_key : list Z; wr_owner_naddr : list WireNaddr; wr_sequence : Z; wr_timestamp_unix : Z;
  wr_zero_priority : Z; wr_zero_weight : Z; wr_snsd_records : list WireSnsdRecord; wr_signature : list Z
}.
Inductive WireRegisterOutcome := WAccepted (expires_at_unix : Z) (renewed : bool) | WRejected (reason : string).
Record WireRegisterReply := mkWireRegisterReply { wy_outcome : option WireRegisterOutcome }.
Record WireResolveRequest := mkWireResolveRequest { wq_hostname : string; wq_service : Z }.
Record WireResolveReply := mkWireResolveReply { wl_records : list WireSnsdRecord }.
Record WireCounterRequest := mkWireCounterRequest { wc_hostname_hash : list Z }.
Inductive WireCounterOutcome := WReservedCount (n : Z) | WDeniedReason (reason : string).
Record WireCounterReply := mkWireCounterReply { wk_outcome : option WireCounterOutcome }.

Definition TAG_REGISTER_REQUEST : string := "andna.RegisterRequest".
Definition TAG_REGISTER_REPLY : string := "andna.RegisterReply".
Definition TAG_RESOLVE_REQUEST : string := "andna.ResolveRequest".
Definition TAG_RESOLVE_REPLY : string := "andna.ResolveReply".
Definition TAG_COUNTER_REQUEST : string := "andna.CounterRequest".
Definition TAG_COUNTER_REPLY : string := "andna.CounterReply".

(** [u8::try_from], [u16::try_from] of a [u32] *)
Definition narrow (bound : Z) (field : string) (v : Z) : res AndnaErr Z := if (v <? bound)%Z then Ok v else Err (FieldOutOfRange field).

Definition snsd_record_to_wire (r : SnsdRecord) : WireSnsdRecord :=
  mkWireSnsdRecord (sr_service r) (sr_priority r) (sr_weight r)
    (Some match sr_target r with Address a => WTAddress [naddr_to_wire a] | Alias h => WTHostname (hn_str h) end).

Definition weight_from_wire (raw : Z) (field : string) : res AndnaErr Z :=
  weight ← narrow 256 field raw;
  if (MAX_WEIGHT <? weight)%Z then Err (WeightTooLarge weight) else Ok weight.

Definition target_from_wire (t : WireSnsdTarget) : res AndnaErr SnsdTarget :=
  match t with
  | WTAddress value => n ← ok_or (head value) (MissingField "address.value"); a ← map_err AndnaDomain (naddr_from_wire n); Ok (Address a)
  | WTHostname name => h ← hostname_new name; Ok (Alias h)
  end.

Definition snsd_record_from_wire (w : WireSnsdRecord) : res AndnaErr SnsdRecord :=
  t ← ok_or (ws_target w) (MissingField "target");
  target ← target_from_wire t;
  service ← narrow 65536 "snsd_record.service" (ws_service w);
  priority ← narrow 256 "snsd_record.priority" (ws_priority w);
  weight ← weight_from_wire (ws_weight w) "snsd_record.weight";
  Ok (mkSnsdRecord service priority weight target).

Definition sized (what : string) (n : nat) (bytes : list Z) : res AndnaErr (list Z) :=
  if length bytes =? n then Ok bytes else Err (MalformedKeyMaterial what n (length bytes)).
Definition key_from_wire `{Crypto} (bytes : list Z) : res AndnaErr VerifyingKey :=
  b ← sized "owner_key" 32 bytes; ok_or (vk_from_bytes b) AndnaInvalidSignature.
Definition signature_from_wire (bytes : list Z) : res AndnaErr (list Z) := sized "signature" 64 bytes.

Definition register_request_to_wire `{Crypto} (q : RegisterRequest) : WireRegisterRequest :=
  mkWireRegisterRequest (hn_str (rq_hostname q)) (vk_to_bytes (rq_owner_key q)) [naddr_to_wire (rq_owner_naddr q)] (rq_sequence q)
    (rq_timestamp_unix q) (rq_zero_priority q) (rq_zero_weight q) (snsd_record_to_wire <$> rq_snsd_records q) (rq_signature q).

Definition register_request_from_wire `{Crypto} (w : WireRegisterRequest) : res AndnaErr RegisterRequest :=
  n ← ok_or (head (wr_owner_naddr w)) (MissingField "owner_naddr");
  owner_naddr ← map_err AndnaDomain (naddr_from_wire n);
  hostname ← hostname_new (wr_hostname w);
  owner_key ← key_from_wire (wr_owner_key w);
  zero_priority ← narrow 256 "zero_priority" (wr_zero_priority w);
  zero_weight ← weight_from_wire (wr_zero_weight w) "zero_weight";
  snsd_records ← mapM snsd_record_from_wire (wr_snsd_records w);
  signature ← signature_from_wire (wr_signature w);
  Ok (mkRegisterRequest hostname owner_key owner_naddr (wr_sequence w) (wr_timestamp_unix w) zero_priority zero_weight snsd_records signature).

Section Packing.
Context `{Crypto}
  `{ProstMessage WireRegisterRequest, ProstMessage WireRegisterReply, ProstMessage WireResolveRequest, ProstMessage WireResolveReply,
    ProstMessage WireCounterRequest, ProstMessage WireCounterReply}.
(** [to_string] of the rejections. *)
Context (reg_text : RegisterRejected → string) (ctr_text : CounterRejected → string).

Definition pack_register_request (q : RegisterRequest) : TypedValue := typed_value TAG_REGISTER_REQUEST (register_request_to_wire q).
Definition unpack_register_request (tv : TypedValue) : res AndnaErr RegisterRequest :=
  w ← map_err AndnaDomain (from_typed_value tv TAG_REGISTER_REQUEST); register_request_from_wire w.

Definition pack_register_reply (r : RegisterOutcome + RegisterRejected) : TypedValue :=
  typed_value TAG_REGISTER_REPLY (mkWireRegisterReply (Some
    match r with
    | inl (Registered e) => WAccepted e false
    | inl (Renewed e) => WAccepted e true
    | inr e => WRejected (reg_text e)
    end)).
Definition unpack_register_reply (tv : TypedValue) : res AndnaErr (RegisterOutcome + string) :=
  w ← map_err AndnaDomain (from_typed_value tv TAG_REGISTER_REPLY);
  o ← ok_or (wy_outcome w) (MissingField "outcome");
  Ok match o with
     | WAccepted e true => inl (Renewed e)
     | WAccepted e false => inl (Registered e)
     | WRejected reason => inr reason
     end.

Definition pack_resolve_request (h : Hostname) (service : Z) : TypedValue :=
  typed_value TAG_RESOLVE_REQUEST (mkWireResolveRequest (hn_str h) service).
Definition unpack_resolve_request (tv : TypedValue) : res AndnaErr (Hostname * Z) :=
  w ← map_err AndnaDomain (from_typed_value tv TAG_RESOLVE_REQUEST);
  h ← hostname_new (wq_hostname w);
  service ← narrow 65536 "service" (wq_service w);
  Ok (h, service).

Definition pack_resolve_reply (records : list SnsdRecord) : TypedValue :=
  typed_value TAG_RESOLVE_REPLY (mkWireResolveReply (snsd_record_to_wire <$> records)).
Definition unpack_resolve_reply (tv : TypedValue) : res AndnaErr (list SnsdRecord) :=
  w ← map_err AndnaDomain (from_typed_value tv TAG_RESOLVE_REPLY); mapM snsd_record_from_wire (wl_records w).

Definition pack_counter_request (hash : list Z) : TypedValue := typed_value TAG_COUNTER_REQUEST (mkWireCounterRequest hash).
Definition unpack_counter_request (tv : TypedValue) : res AndnaErr (list Z) :=
  w ← map_err AndnaDomain (from_typed_value tv TAG_COUNTER_REQUEST); sized "hostname_hash" 32 (wc_hostname_hash w).

Definition pack_counter_reply (r : nat + CounterRejected) : TypedValue :=
  typed_value TAG_COUNTER_REPLY (mkWireCounterReply (Some
    match r with inl n => WReservedCount (Z.of_nat n mod 2 ^ 32) | inr e => WDeniedReason (ctr_text e) end)).
Definition unpack_counter_reply (tv : TypedValue) : res AndnaErr (nat + string) :=
  w ← map_err AndnaDomain (from_typed_value tv TAG_COUNTER_REPLY);
  o ← ok_or (wk_outcome w) (MissingField "outcome");
  Ok match o with WReservedCount n => inl (Z.to_nat n) | WDeniedReason reason => inr reason end.
End Packing.

(** ** The two peer services (service.rs) *)
Definition andna_service_id : Z := 900.
Definition counter_service_id : Z := 901.

Definition requires_verified_origin (type_tag : string) : bool :=
  bool_decide (type_tag = "andna.RegisterRequest") || bool_decide (type_tag = "andna.CounterRequest").

Inductive AndnaSvc := AndnaService | CounterService.

#[export] Instance andna_peer_service : PeerService AndnaSvc := {|
  service_id := λ svc, match svc with AndnaService => andna_service_id | CounterService => counter_service_id end;
  is_optional := λ _, true;
  requires_origin_auth := λ _ request, requires_verified_origin (tv_type_tag request)
|}.

Definition malformed (message : string) : ExecError := Refuse (mkRefusal 0 message).
Definition stopped : ExecError := malformed "andna: service is shutting down".

(** The texts of the errors that travel as text. *)
Record AndnaTexts := mkAndnaTexts {
  tx_error : AndnaErr → string;
  tx_rejected : RegisterRejected → string;
  tx_counter : CounterRejected → string;
  tx_unknown_tag : string → string
}.

Section Service.
Context `{Crypto} {R : Type} `{Rng R}
  `{ProstMessage WireRegisterRequest, ProstMessage WireRegisterReply, ProstMessage WireResolveRequest, ProstMessage WireResolveReply,
    ProstMessage WireCounterRequest, ProstMessage WireCounterReply}.
Context (texts : AndnaTexts).

(** [Handle::call]: [running] tells whether the actor is still there. *)
Definition andna_call (running : bool) (s : AndnaState) (rng : R) (cmd : AndnaCmd) : AndnaState * option AndnaReply :=
  if running then let '(s', _, r) := andna_handle s rng cmd in (s', Some r) else (s, None).

(** [exec] of the two services: the state the call leaves and the answer.  A panic of
    the actor reaches the caller as a dropped reply. *)
Definition andna_exec (running : bool) (s : AndnaState) (rng : R) (now : Z) (request : TypedValue) : AndnaState * res ExecError TypedValue :=
  if bool_decide (tv_type_tag request = "andna.RegisterRequest") then
    match unpack_register_request request with
    | Err e => (s, Err (malformed (tx_error texts e)))
    | Panic => (s, Panic)
    | Ok q =>
        match andna_call running s rng (CmdRegister q now) with
        | (s', Some (ReplyRegister (Ok o))) => (s', Ok (pack_register_reply (tx_rejected texts) (inl o)))
        | (s', Some (ReplyRegister (Err e))) => (s', Ok (pack_register_reply (tx_rejected texts) (inr e)))
        | (s', _) => (s', Err stopped)
        end
    end
  else if bool_decide (tv_type_tag request = "andna.ResolveRequest") then
    match unpack_resolve_request request with
    | Err e => (s, Err (malformed (tx_error texts e)))
    | Panic => (s, Panic)
    | Ok (hostname, service) =>
        match andna_call running s rng (CmdResolve hostname service now) with
        | (s', Some (ReplyResolve (Ok records))) => (s', Ok (pack_resolve_reply records))
        | (s', _) => (s', Err stopped)
        end
    end
  else (s, Err (malformed (tx_unknown_tag texts (tv_type_tag request)))).

Definition counter_exec (running : bool) (s : AndnaState) (rng : R) (now : Z) (request : TypedValue) (client_tuple : list Z)
    : AndnaState * res ExecError TypedValue :=
  if bool_decide (tv_type_tag request = "andna.CounterRequest") then
    match unpack_counter_request request with
    | Err e => (s, Err (malformed (tx_error texts e)))
    | Panic => (s, Panic)
    | Ok hash =>
        match andna_call running s rng (CmdCounterReserve client_tuple hash now) with
        | (s', Some (ReplyCounter (Ok n))) => (s', Ok (pack_counter_reply (tx_counter texts) (inl n)))
        | (s', Some (ReplyCounter (Err e))) => (s', Ok (pack_counter_reply (tx_counter texts) (inr e)))
        | (s', _) => (s', Err stopped)
        end
    end
  else (s, Err (malformed (tx_unknown_tag texts (tv_type_tag request)))).
End Service.

(** ** The client (substrate.rs, [Handle::register], [Handle::resolve]) *)
Inductive AndnaError :=
  | AeInvalidSignature
  | AeRouting (e : ContactPeerError)
  | AeDecode (e : AndnaErr)
  | AeCounterDenied (reason : string)
  | AeRejected (reason : string).

(** [AndnaSubstrate]; [W] is the state of the network a call may change. *)
Class Substrate (W : Type) := {
  sub_topology : W → Topology;
  sub_my_pos : W → Naddr;
  sub_contact_peer : W → Z → TupleNode → TypedValue → Z → W * res ContactPeerError TypedValue;
  sub_replicate : W → Z → TupleNode → TypedValue → Z → Z → W * list TypedValue
}.

(** The first reply that carries records. *)
Fixpoint first_records `{ProstMessage WireResolveReply} (replies : list TypedValue) : option (list SnsdRecord) :=
  match replies with
  | [] => None
  | r :: replies' =>
      match unpack_resolve_reply r with
      | Ok (x :: l) => Some (x :: l)
      | _ => first_records replies'
      end
  end.

Section Client.
Context `{Crypto} {W : Type} `{Substrate W}
  `{ProstMessage WireRegisterRequest, ProstMessage WireRegisterReply, ProstMessage WireResolveRequest, ProstMessage WireResolveReply,
    ProstMessage WireCounterRequest, ProstMessage WireCounterReply}.
Context (config : AndnaConfig).

(** Capacity at the counter of this node's own position. *)
Definition reserve_capacity (w : W) (q : RegisterRequest) : W * res AndnaError unit :=
  match hash_to_tuple (sub_topology w) (counter_route_key (sub_my_pos w)) with
  | Ok target =>
      let '(w', reply) := sub_contact_peer w counter_service_id target (pack_counter_request (hostname_hash (rq_hostname q))) (an_call_timeout config) in
      (w', tv ← map_err AeRouting reply;
           r ← map_err AeDecode (unpack_counter_reply tv);
           match r with inl _ => Ok tt | inr reason => Err (AeCounterDenied reason) end)
  | Err e => (w, Err e)
  | Panic => (w, Panic)
  end.

(** The registration at the nodes closest to the name's hash; the first reply decides. *)
Definition replicate_registration (w : W) (q : RegisterRequest) : W * res AndnaError RegisterOutcome :=
  match hash_to_tuple (sub_topology w) (hash_route_key (hostname_hash (rq_hostname q))) with
  | Ok target =>
      let '(w', replies) := sub_replicate w andna_service_id target (pack_register_request q) (an_call_timeout config) (an_replication_factor config) in
      (w', first ← ok_or (head replies) (AeRouting NoParticipants);
           outcome ← map_err AeDecode (unpack_register_reply first);
           match outcome with inl o => Ok o | inr reason => Err (AeRejected reason) end)
  | Err e => (w, Err e)
  | Panic => (w, Panic)
  end.

Definition handle_register (w : W) (q : RegisterRequest) : W * res AndnaError RegisterOutcome :=
  match register_verify q with
  | Ok _ =>
      let '(w1, r) := reserve_capacity w q in
      match r with
      | Ok _ => replicate_registration w1 q
      | Err e => (w1, Err e)
      | Panic => (w1, Panic)
      end
  | _ => (w, Err AeInvalidSignature)
  end.

Definition handle_renew (w : W) (q : RegisterRequest) : W * res AndnaError RegisterOutcome := handle_register w q.

Definition handle_resolve (w : W) (hostname : Hostname) (service : Z) : W * res AndnaError (list SnsdRecord) :=
  match hash_to_tuple (sub_topology w) (hash_route_key (hostname_hash hostname)) with
  | Ok target =>
      let request := pack_resolve_request hostname service in
      let '(w1, reply) := sub_contact_peer w andna_service_id target request (an_call_timeout config) in
      let primary := tv ← map_err AeRouting reply; map_err AeDecode (unpack_resolve_reply tv) in
      match primary with
      | Ok (x :: l) => (w1, Ok (x :: l))
      | _ =>
          let '(w2, replies) := sub_replicate w1 andna_service_id target request (an_call_timeout config) (an_replication_factor config) in
          (w2, match first_records replies with Some l => Ok l | None => primary end)
      end
  | Err e => (w, Err e)
  | Panic => (w, Panic)
  end.
End Client.

(** *** [FakeSubstrate]: one node that serves its own calls *)
Record Loopback `{Crypto} (R : Type) := mkLoopback {
  lb_topology : Topology; lb_my_pos : Naddr; lb_state : AndnaState; lb_rng : R; lb_now : Z
}.
Arguments mkLoopback {_} {_}. Arguments lb_topology {_} {_}. Arguments lb_my_pos {_} {_}. Arguments lb_state {_} {_}.
Arguments lb_rng {_} {_}. Arguments lb_now {_} {_}.

Section Loopback.
Context `{Crypto} {R : Type} `{Rng R}
  `{ProstMessage WireRegisterRequest, ProstMessage WireRegisterReply, ProstMessage WireResolveRequest, ProstMessage WireResolveReply,
    ProstMessage WireCounterRequest, ProstMessage WireCounterReply}.
Context (texts : AndnaTexts).

Definition loopback_contact (w : Loopback R) (p_id : Z) (request : TypedValue) : Loopback R * res ContactPeerError TypedValue :=
  let '(s', r) := if (p_id =? andna_service_id)%Z then andna_exec texts true (lb_state w) (lb_rng w) (lb_now w) request
                  else counter_exec texts true (lb_state w) (lb_rng w) (lb_now w) request [] in
  (mkLoopback (lb_topology w) (lb_my_pos w) s' (lb_rng w) (lb_now w), map_err (λ _, NoParticipants) r).

Definition loopback_substrate : Substrate (Loopback R) := {|
  sub_topology := lb_topology;
  sub_my_pos := lb_my_pos;
  sub_contact_peer w p_id _ request _ := loopback_contact w p_id request;
  sub_replicate w p_id _ request _ _ :=
    let '(w', r) := loopback_contact w p_id request in (w', match r with Ok v => [v] | _ => [] end)
|}.
End Loopback.
