(* ===== verification/AndnaProps.v ===== *)
(** * Properties of the name service

    Names and signed registrations are unambiguous; a name belongs to the key that
    registered it until its record expires and no registration is accepted twice; the
    stores stay within their caps; a resolve returns exactly the enabled records,
    higher priorities first, each tier drawn with the weights as probabilities. *)
From stdpp Require Import strings.
From S2P Require Import Prelude Addressing Domain Auth Andna AndnaActor.

(** ** Registrations at one hash node *)
Section Registry.
Context `{Crypto}.
Implicit Types (c : gmap Hostname HostedRecord) (q : RegisterRequest).

Lemma is_expired_true r now : is_expired r now = true ↔ (hr_expires_at r ≤ now)%Z.
Proof. unfold is_expired. apply Z.leb_le. Qed.
Lemma is_expired_false r now : is_expired r now = false ↔ (now < hr_expires_at r)%Z.
Proof. unfold is_expired. apply Z.leb_gt. Qed.

(** What the stored record lets through. *)
Definition slot_open c q (now min : Z) : Prop :=
  match c !! rq_hostname q with
  | None => True
  | Some e =>
      (hr_expires_at e ≤ now)%Z ∨
      (hr_owner_key e = rq_owner_key q ∧ (hr_sequence e < rq_sequence q)%Z ∧ (Z.min (hr_renewed_at e + as_secs min) U64_MAX ≤ now)%Z)
  end.

Lemma check_slot_Ok c q now min : check_slot c q now min = Ok tt ↔ slot_open c q now min.
Proof.
  unfold check_slot, slot_open, is_fresh_slot, u64_saturating_add. destruct (c !! rq_hostname q) as [e|]; [|done].
  destruct (is_expired e now) eqn:Hx; cbn.
  - apply is_expired_true in Hx. naive_solver.
  - apply is_expired_false in Hx. destruct (bool_decide_reflect (hr_owner_key e = rq_owner_key q)) as [Hk|Hk]; cbn; [|naive_solver lia].
    destruct (Z.leb_spec (rq_sequence q) (hr_sequence e)); [naive_solver lia|]. destruct (Z.ltb_spec now (Z.min (hr_renewed_at e + as_secs min) U64_MAX)); naive_solver lia.
Qed.

(** Everything an accepted request went through, and the record it leaves. *)
Lemma cache_register_Ok c q now ttl min ps tot host c' o :
  cache_register c q now ttl min ps tot host = (c', Ok o) →
  check_request c q now host = Ok tt ∧ slot_open c q now min ∧
  ∃ r, c' = <[rq_hostname q := r]> c ∧ hr_owner_key r = rq_owner_key q ∧ hr_sequence r = rq_sequence q ∧ hr_renewed_at r = now ∧
       hr_expires_at r = (now + as_secs ttl)%Z ∧ build_snsd q ps tot = Ok (hr_snsd r) ∧
       o = if is_fresh_slot c q now then Registered (now + as_secs ttl) else Renewed (now + as_secs ttl).
Proof.
  unfold cache_register. intros Hr.
  destruct (check_request c q now host) as [[]|?|] eqn:H1; cbn in Hr; [|done..].
  destruct (check_slot c q now min) as [[]|?|] eqn:H2; cbn in Hr; [|done..].
  destruct (build_snsd q ps tot) as [t|?|] eqn:H3; cbn in Hr; [|done..].
  unfold u64_add in Hr. destruct (_ <=? U64_MAX)%Z; cbn in Hr; [|done].
  split_and!; [done|by apply check_slot_Ok|].
  destruct (is_fresh_slot c q now) eqn:Hf; cbn in Hr; [simplify_eq; by eexists|].
  unfold is_fresh_slot in Hf. destruct (c !! rq_hostname q) as [e|]; cbn in Hr; [|done]. simplify_eq.
  apply orb_false_iff in Hf as [_ Hk%negb_false_iff%bool_decide_eq_true]. by eexists.
Qed.

Lemma cache_register_not_Ok c q now ttl min ps tot host c' r :
  cache_register c q now ttl min ps tot host = (c', r) → (∀ o, r ≠ Ok o) → c' = c.
Proof. unfold cache_register. intros Hr Hn. case_match eqn:Hm; [destruct a|..]; simplify_eq; naive_solver. Qed.

Lemma check_request_Ok c q now host :
  check_request c q now host = Ok tt →
  register_verify q = Ok tt ∧ names_zero_service (rq_snsd_records q) = false ∧ (rq_zero_weight q ≤ MAX_WEIGHT)%Z ∧
  (Z.abs (rq_timestamp_unix q - now) ≤ MAX_TIMESTAMP_SKEW_SECS)%Z ∧ (c !! rq_hostname q = None → size c < host).
Proof.
  unfold check_request. destruct (register_verify q) as [[]|?|]; cbn; [|done..]. destruct (names_zero_service _); [done|].
  destruct (Z.ltb_spec MAX_WEIGHT (rq_zero_weight q)); [done|]. destruct (Z.ltb_spec MAX_TIMESTAMP_SKEW_SECS (Z.abs (rq_timestamp_unix q - now))); [done|].
  destruct (bool_decide_reflect (c !! rq_hostname q = None)) as [Hn|Hn]; cbn.
  - destruct (Nat.leb_spec host (size c)); [done|]. done.
  - done.
Qed.
End Registry.

(** ** Runs of the actor *)
Section Runs.
Context `{Crypto} {R : Type} `{Rng R}.

Definition cmd_now (cmd : AndnaCmd) : Z :=
  match cmd with CmdRegister _ now | CmdResolve _ _ now | CmdCounterReserve _ _ now | CmdPurgeExpired now => now end.

(** The commands one after the other, each with its random generator; the log pairs
    each command with its reply. *)
Fixpoint andna_run (s : AndnaState) (l : list (R * AndnaCmd)) : AndnaState * list (AndnaCmd * AndnaReply) :=
  match l with
  | [] => (s, [])
  | (rng, cmd) :: l' =>
      let '(s', _, r) := andna_handle s rng cmd in
      let '(s'', log) := andna_run s' l' in (s'', (cmd, r) :: log)
  end.

Definition accepted (log : list (AndnaCmd * AndnaReply)) (i : nat) (q : RegisterRequest) (now : Z) : Prop :=
  ∃ o, log !! i = Some (CmdRegister q now, ReplyRegister (Ok o)).

(** The name is held by the key since [t], at least until [e]. *)
Definition holds (s : AndnaState) (h : Hostname) (k : VerifyingKey) (sequence t e : Z) : Prop :=
  ∃ r, as_cache s !! h = Some r ∧ hr_owner_key r = k ∧ (sequence ≤ hr_sequence r)%Z ∧ (t ≤ hr_renewed_at r)%Z ∧ (e ≤ hr_expires_at r)%Z.

Lemma andna_handle_config s rng cmd : as_config (andna_handle s rng cmd).1.1 = as_config s.
Proof.
  destruct cmd; cbn; [destruct (cache_register _ _ _ _ _ _ _ _) as [c []]; cbn; [unfold patch_hosted; by case_match|done..]|done
    |destruct (try_reserve _ _ _ _ _ _ _) as [c []]; done|done].
Qed.

(** The record an accepted registration leaves in the store. *)
Record accepts_as (s : AndnaState) (q : RegisterRequest) (now : Z) (o : RegisterOutcome) (r : HostedRecord) : Prop := mkAcceptsAs {
  aa_checked : check_request (as_cache s) q now (an_max_hosted_records (as_config s)) = Ok tt;
  aa_open : slot_open (as_cache s) q now (an_min_renewal_interval (as_config s));
  aa_owner : hr_owner_key r = rq_owner_key q;
  aa_sequence : hr_sequence r = rq_sequence q;
  aa_renewed : hr_renewed_at r = now;
  aa_expires : hr_expires_at r = (now + as_secs (an_name_ttl (as_config s)))%Z;
  aa_snsd : build_snsd q (an_max_snsd_records_per_service (as_config s)) (an_max_snsd_records_total (as_config s)) = Ok (hr_snsd r);
  aa_outcome : o = (if is_fresh_slot (as_cache s) q now then Registered else Renewed) (now + as_secs (an_name_ttl (as_config s)))%Z
}.

(** A step changes the store in two ways: an accepted registration puts its record,
    a purge removes what has expired. *)
Lemma cache_step s rng cmd :
  let '(s', _, reply) := andna_handle s rng cmd in
  match cmd with
  | CmdRegister q now =>
      (∃ o r, reply = ReplyRegister (Ok o) ∧ accepts_as s q now o r ∧ as_cache s' = <[rq_hostname q := r]> (as_cache s)) ∨
      (∃ x, reply = ReplyRegister x ∧ (∀ o, x ≠ Ok o) ∧ as_cache s' = as_cache s)
  | CmdPurgeExpired now => reply = ReplyNothing ∧ as_cache s' = filter (λ kv, is_expired kv.2 now = false) (as_cache s)
  | CmdResolve _ _ _ => (∃ x, reply = ReplyResolve x) ∧ as_cache s' = as_cache s
  | CmdCounterReserve _ _ _ => (∃ x, reply = ReplyCounter x) ∧ as_cache s' = as_cache s
  end.
Proof.
  destruct cmd as [q now|h service now|reg hash now|now]; cbn; [|split; [by eexists|done]| |done];
    [|destruct (try_reserve _ _ _ _ _ _ _) as [c []]; cbn; split; [by eexists|done|by eexists|done|by eexists|done]].
  destruct (cache_register _ _ _ _ _ _ _ _) as [c [o|e|]] eqn:Hc;
    [|right; eexists; split_and!; [done|done|]; by apply cache_register_not_Ok in Hc..].
  apply cache_register_Ok in Hc as (H1 & H2 & r & -> & H3 & H4 & H5 & H6 & H7 & H8). left. exists o, r.
  split_and!; [done| |unfold patch_hosted; cbn; by rewrite lookup_insert_eq]. split; try done. subst o. by destruct (is_fresh_slot _ _ _).
Qed.

Lemma holds_step s rng cmd h k sequence t e :
  e = (t + as_secs (an_name_ttl (as_config s)))%Z → holds s h k sequence t e → (t ≤ cmd_now cmd < e)%Z →
  holds (andna_handle s rng cmd).1.1 h k sequence t e ∧
  ∀ q now o, cmd = CmdRegister q now → rq_hostname q = h → (andna_handle s rng cmd).2 = ReplyRegister (Ok o) →
    rq_owner_key q = k ∧ (sequence < rq_sequence q)%Z ∧ (Z.min (t + as_secs (an_min_renewal_interval (as_config s))) U64_MAX ≤ now)%Z ∧
    o = Renewed (now + as_secs (an_name_ttl (as_config s))).
Proof.
  intros He (r & Hr & Hk & Hs & Ht & Hx) Hnow. pose proof (cache_step s rng cmd) as Hst.
  destruct (andna_handle s rng cmd) as [[s' evs] reply]. cbn [fst snd]. unfold holds.
  destruct cmd as [q now|h' service now|reg hash now|now]; cbn in Hnow.
  - destruct Hst as [(o & r' & -> & Hacc & Hs')|(x & -> & Hn & Hs')]; rewrite Hs'; [|split; [by exists r|naive_solver]].
    destruct (decide (rq_hostname q = h)) as [<-|Hne]; [|rewrite lookup_insert_ne by done; split; [by exists r|naive_solver]].
    rewrite lookup_insert_eq. pose proof (aa_open _ _ _ _ _ Hacc) as Hopen. unfold slot_open in Hopen. rewrite Hr in Hopen.
    destruct Hopen as [?|(Ho & Hlt & Hmin)]; [lia|]. split.
    + exists r'. rewrite (aa_owner _ _ _ _ _ Hacc), (aa_sequence _ _ _ _ _ Hacc), (aa_renewed _ _ _ _ _ Hacc), (aa_expires _ _ _ _ _ Hacc).
      split_and!; [done|congruence|lia..].
    + intros q' now' o' [= <- <-] _ [= <-]. rewrite (aa_outcome _ _ _ _ _ Hacc). unfold is_fresh_slot. rewrite Hr.
      rewrite (proj2 (is_expired_false r now)) by lia. rewrite bool_decide_true by done. cbn. split_and!; [congruence|lia| |done]. lia.
  - destruct Hst as [[x ->] ->]. split; [by exists r|done].
  - destruct Hst as [[x ->] ->]. split; [by exists r|done].
  - destruct Hst as [-> ->]. split; [|done]. exists r. rewrite map_lookup_filter_Some. split_and!; try done. apply is_expired_false. cbn. lia.
Qed.

Lemma andna_run_cons s rng cmd l :
  andna_run s ((rng, cmd) :: l) =
  let s' := (andna_handle s rng cmd).1.1 in
  ((andna_run s' l).1, (cmd, (andna_handle s rng cmd).2) :: (andna_run s' l).2).
Proof. cbn. destruct (andna_handle s rng cmd) as [[s' e] r]. cbn. by destruct (andna_run s' l). Qed.

Lemma andna_run_app s l1 l2 :
  andna_run s (l1 ++ l2) = ((andna_run (andna_run s l1).1 l2).1, (andna_run s l1).2 ++ (andna_run (andna_run s l1).1 l2).2).
Proof.
  revert s. induction l1 as [|[rng cmd] l1 IH]; intros s; [by rewrite <-surjective_pairing|].
  rewrite <-app_comm_cons, !andna_run_cons. cbn [fst snd]. by rewrite IH.
Qed.

Lemma andna_run_length s l : length (andna_run s l).2 = length l.
Proof. revert s. induction l as [|[rng cmd] l IH]; intros s; [done|]. rewrite andna_run_cons. cbn. by rewrite IH. Qed.

Lemma andna_run_config s l : as_config (andna_run s l).1 = as_config s.
Proof. revert s. induction l as [|[rng cmd] l IH]; intros s; [done|]. rewrite andna_run_cons. cbn [fst]. by rewrite IH, andna_handle_config. Qed.

(** The run around one entry of its log. *)
Lemma log_split s l i cmd r :
  (andna_run s l).2 !! i = Some (cmd, r) →
  ∃ l1 rng l2, l = l1 ++ (rng, cmd) :: l2 ∧ length l1 = i ∧ (andna_handle (andna_run s l1).1 rng cmd).2 = r ∧
    ∀ j x, i < j → (andna_run s l).2 !! j = Some x → (andna_run (andna_handle (andna_run s l1).1 rng cmd).1.1 l2).2 !! (j - S i) = Some x.
Proof.
  revert s i. induction l as [|[rng cmd'] l IH]; intros s i Hi; [done|]. rewrite andna_run_cons in *. cbn [snd] in *.
  destruct i as [|i]; cbn in Hi.
  - injection Hi as -> Hr. exists [], rng, l. split_and!; [done|done|done|]. intros [|j] x Hj Hx; [lia|]. by rewrite Nat.sub_succ, Nat.sub_0_r.
  - destruct (IH _ _ Hi) as (l1 & rng' & l2 & -> & Hlen & Hr & Hlater). exists ((rng, cmd') :: l1), rng', l2. rewrite andna_run_cons.
    split_and!; [done|cbn; lia|done|]. intros [|j] x Hj Hx; [lia|]. apply Hlater; [lia|done].
Qed.

Lemma holds_run s l h k sequence t e :
  e = (t + as_secs (an_name_ttl (as_config s)))%Z → holds s h k sequence t e → Forall (λ c, (t ≤ cmd_now c.2 < e)%Z) l →
  holds (andna_run s l).1 h k sequence t e ∧
  ∀ i q now o, (andna_run s l).2 !! i = Some (CmdRegister q now, ReplyRegister (Ok o)) → rq_hostname q = h →
    rq_owner_key q = k ∧ (sequence < rq_sequence q)%Z ∧ (Z.min (t + as_secs (an_min_renewal_interval (as_config s))) U64_MAX ≤ now)%Z ∧
    o = Renewed (now + as_secs (an_name_ttl (as_config s))).
Proof.
  intros He Hh Hl. revert s He Hh. induction Hl as [|[rng cmd] l Hc Hl IH]; intros s He Hh; [done|].
  rewrite andna_run_cons. cbn [fst snd]. cbn in Hc.
  destruct (holds_step s rng cmd h k sequence t e He Hh Hc) as [Hh' Hacc]. pose proof (andna_handle_config s rng cmd) as Hcfg.
  destruct (IH (andna_handle s rng cmd).1.1) as [Hend Hlog]; [by rewrite Hcfg|done|]. split; [done|].
  intros [|i] q now o Hi Hq; cbn in Hi; [injection Hi as Hcmd Hrep; by eapply Hacc|]. rewrite Hcfg in Hlog. by eapply Hlog.
Qed.

Lemma register_holds s rng q t s' evs o :
  andna_handle s rng (CmdRegister q t) = (s', evs, ReplyRegister (Ok o)) →
  holds s' (rq_hostname q) (rq_owner_key q) (rq_sequence q) t (t + as_secs (an_name_ttl (as_config s))) ∧
  (Z.abs (rq_timestamp_unix q - t) ≤ MAX_TIMESTAMP_SKEW_SECS)%Z ∧ as_config s' = as_config s.
Proof.
  intros Hr. pose proof (cache_step s rng (CmdRegister q t)) as Hst. pose proof (andna_handle_config s rng (CmdRegister q t)) as Hcfg.
  rewrite Hr in Hst, Hcfg. destruct Hst as [(o' & r & [= <-] & Hacc & Hc)|(x & [= <-] & Hn & _)]; [|naive_solver].
  split_and!; [|by destruct (check_request_Ok _ _ _ _ (aa_checked _ _ _ _ _ Hacc)) as (_ & _ & _ & ? & _)|done].
  exists r. rewrite Hc, lookup_insert_eq, (aa_owner _ _ _ _ _ Hacc), (aa_sequence _ _ _ _ _ Hacc), (aa_renewed _ _ _ _ _ Hacc), (aa_expires _ _ _ _ _ Hacc).
  split_and!; (done || lia).
Qed.

(** The clock of a run does not go back. *)
Definition clocked (l : list (R * AndnaCmd)) : Prop := StronglySorted (λ a b, (cmd_now a.2 ≤ cmd_now b.2)%Z) l.

Lemma clocked_between l1 x l2 y l3 :
  clocked (l1 ++ x :: l2 ++ y :: l3) → (cmd_now x.2 ≤ cmd_now y.2)%Z ∧ Forall (λ c, (cmd_now x.2 ≤ cmd_now c.2 ≤ cmd_now y.2)%Z) l2.
Proof.
  intros Hc. induction l1 as [|z l1 IH]; cbn in Hc; apply StronglySorted_inv in Hc as [Hs Hf]; [|by apply IH].
  apply Forall_app in Hf as [Hf2 [Hy _]%Forall_cons]. split; [done|].
  induction l2 as [|z l2 IH]; [constructor|]. cbn in Hs. apply StronglySorted_inv in Hs as [Hs Hz].
  apply Forall_cons in Hf2 as [Hxz Hf2]. constructor; [|by apply IH]. apply Forall_app in Hz as [_ [Hzy _]%Forall_cons]. lia.
Qed.
End Runs.

(** Only verified requests enter the cache. *)
Lemma accepted_signed `{Crypto} {R} `{Rng R} s rng q t s' evs o :
  andna_handle s rng (CmdRegister q t) = (s', evs, ReplyRegister (Ok o)) →
  ed_verify (rq_owner_key q) (register_signing_bytes q) (rq_signature q) = true.
Proof.
  intros Hr. pose proof (cache_step s rng (CmdRegister q t)) as Hst. rewrite Hr in Hst.
  destruct Hst as [(o' & r & [= <-] & Hacc & _)|(x & [= <-] & Hn & _)]; [|naive_solver].
  destruct (check_request_Ok _ _ _ _ (aa_checked _ _ _ _ _ Hacc)) as (Hv & _). unfold register_verify in Hv.
  by destruct (ed_verify _ _ _).
Qed.

Lemma accepted_signed_run `{Crypto} {R} `{Rng R} s (l : list (R * AndnaCmd)) i q now o :
  (andna_run s l).2 !! i = Some (CmdRegister q now, ReplyRegister (Ok o)) →
  ed_verify (rq_owner_key q) (register_signing_bytes q) (rq_signature q) = true.
Proof.
  intros (l1 & rng & l2 & _ & _ & Hr & _)%log_split.
  destruct (andna_handle (andna_run s l1).1 rng (CmdRegister q now)) as [[s' evs] rep] eqn:Hh. cbn in Hr. subst rep.
  by eapply accepted_signed.
Qed.

(** C21: a name belongs to the key that registered it until the registration expires.
    A request accepted at time [t] carries a signature of all its fields that verifies
    under its owner key.  Whatever commands the node handles before [t + ttl], purges and
    other registrations included, it then holds the name for that key with no smaller
    sequence; and every request for the name it accepts meanwhile names the same owner
    key and carries a signature that verifies under it, has a greater sequence, comes no
    sooner than the minimum renewal interval and counts as a renewal. *)
Theorem name_owned_until_expiry `{Crypto} {R} `{Rng R} s rng q t s1 evs o (l : list (R * AndnaCmd)) :
  let ttl := as_secs (an_name_ttl (as_config s)) in
  andna_handle s rng (CmdRegister q t) = (s1, evs, ReplyRegister (Ok o)) →
  Forall (λ c, (t ≤ cmd_now c.2 < t + ttl)%Z) l →
  ed_verify (rq_owner_key q) (register_signing_bytes q) (rq_signature q) = true ∧
  holds (andna_run s1 l).1 (rq_hostname q) (rq_owner_key q) (rq_sequence q) t (t + ttl) ∧
  ∀ i q' now o', (andna_run s1 l).2 !! i = Some (CmdRegister q' now, ReplyRegister (Ok o')) → rq_hostname q' = rq_hostname q →
    rq_owner_key q' = rq_owner_key q ∧ ed_verify (rq_owner_key q) (register_signing_bytes q') (rq_signature q') = true ∧
    (rq_sequence q < rq_sequence q')%Z ∧
    (Z.min (t + as_secs (an_min_renewal_interval (as_config s))) U64_MAX ≤ now)%Z ∧ o' = Renewed (now + ttl).
Proof.
  intros ttl Hr Hl. destruct (register_holds s rng q t s1 evs o Hr) as (Hh & _ & Hcfg).
  pose proof (holds_run s1 l (rq_hostname q) (rq_owner_key q) (rq_sequence q) t (t + ttl)) as Hrun. rewrite Hcfg in Hrun.
  destruct Hrun as [Hheld Hlog]; [done..|]. split_and!; [by eapply accepted_signed|done|].
  intros i q' now o' Hi Hq. destruct (Hlog i q' now o' Hi Hq) as (Hk & ? & ? & ?). split_and!; [done| |done..].
  rewrite <-Hk. by eapply accepted_signed_run.
Qed.

(** No signed registration is accepted twice by a node.  On any run whose clock does
    not go back, with names that live longer than twice the tolerated clock skew (thirty
    days against two hours by default), two accepted requests never agree on every signed
    field: while the name is held the sequence refuses the second, and once it has
    expired, or was purged, the timestamp does. *)
Theorem registration_accepted_once `{Crypto} {R} `{Rng R} s (l : list (R * AndnaCmd)) i j q now now' signature :
  (2 * MAX_TIMESTAMP_SKEW_SECS < as_secs (an_name_ttl (as_config s)))%Z → clocked l → i < j →
  accepted (andna_run s l).2 i q now → ¬ accepted (andna_run s l).2 j (with_signature q signature) now'.
Proof.
  intros Httl Hclk Hij [o Hi] [o' Hj].
  destruct (log_split _ _ _ _ _ Hi) as (l1 & r1 & l2 & Hl & _ & Hrep & Hlater). apply Hlater in Hj; [|done]. clear Hlater Hi.
  set (s1 := (andna_run s l1).1) in *. pose proof (andna_run_config s l1 : as_config s1 = _) as Hcfg1.
  destruct (andna_handle s1 r1 (CmdRegister q now)) as [[s2 evs] rep] eqn:Hh. cbn [fst snd] in *. subst rep.
  destruct (register_holds s1 r1 q now s2 evs o Hh) as (Hhold & Hts & Hcfg2).
  destruct (log_split _ _ _ _ _ Hj) as (m1 & r2 & m2 & Hm & _ & Hrep2 & _). subst l2 l.
  destruct (clocked_between _ _ _ _ _ Hclk) as [Hle Hbetween]. cbn in Hle, Hbetween. set (s3 := (andna_run s2 m1).1) in *.
  pose proof (andna_run_config s2 m1 : as_config s3 = _) as Hcfg3.
  destruct (Z.lt_ge_cases now' (now + as_secs (an_name_ttl (as_config s2)))) as [Hlt|Hge].
  - rewrite <-Hcfg2 in Hhold. destruct (holds_run s2 m1 _ _ _ _ _ eq_refl Hhold) as [Hhold3 _].
    { eapply Forall_impl; [exact Hbetween|]. intros c Hc. cbn in Hc. lia. }
    destruct (holds_step s3 r2 (CmdRegister (with_signature q signature) now') _ _ _ _ _ (f_equal _ (f_equal _ (f_equal _ (eq_sym Hcfg3)))) Hhold3) as [_ Hacc];
      [cbn; lia|]. destruct (Hacc _ _ _ eq_refl eq_refl Hrep2) as (_ & Hs & _). cbn in Hs. lia.
  - destruct (andna_handle s3 r2 (CmdRegister (with_signature q signature) now')) as [[s4 e4] rep4] eqn:Hh4. cbn in Hrep2. subst rep4.
    destruct (register_holds _ _ _ _ _ _ _ Hh4) as (_ & Hts' & _). cbn in Hts'. rewrite Hcfg2, Hcfg1 in Hge. lia.
Qed.

(** ** Witnesses *)

(** A generator that always draws the least value. *)
#[refine] Definition least_rng : Rng unit := {| random_range r lo _ := (lo, r) |}.
Proof. intros r lo hi Hle. cbn. lia. Defined.

Definition alice : Hostname := mkHostname "alice".
Definition some_naddr : Naddr := mkNaddr (mkTopology [4; 4]%Z) [1; 2]%Z.
(** A registration of the key [k], signed with the toy signatures of Auth.v. *)
Definition alice_request (k sequence timestamp : Z) (records : list SnsdRecord) : @RegisterRequest toy_crypto :=
  mkRegisterRequest (H := toy_crypto) alice k some_naddr sequence timestamp 16 1 records (replicate 64 k).
(** The default durations with small caps. *)
Definition small_config : AndnaConfig :=
  mkAndnaConfig (from_secs (30 * 24 * 3600)) (from_secs 3600) 3 2 4 7 (from_secs 5) 3 3 (from_secs (5 * 60)).
Definition andna_start : @AndnaState toy_crypto := andna_new (H := toy_crypto) small_config.

Definition alice_commands : list (unit * @AndnaCmd toy_crypto) :=
  [(tt, CmdResolve (H := toy_crypto) alice 0 1500); (tt, CmdRegister (H := toy_crypto) (alice_request 8 9 2000 []) 2000);
   (tt, CmdPurgeExpired (H := toy_crypto) 3000); (tt, CmdRegister (H := toy_crypto) (alice_request 7 2 5000 []) 5000)].

Lemma name_owned_until_expiry_witness :
  let s1 := (andna_handle (H := toy_crypto) (H0 := least_rng) andna_start tt (CmdRegister (alice_request 7 1 1000 []) 1000)).1.1 in
  (andna_run (H := toy_crypto) (H0 := least_rng) s1 alice_commands).2 !! 3 =
    Some (CmdRegister (H := toy_crypto) (alice_request 7 2 5000 []) 5000, ReplyRegister (Ok (Renewed 2597000))) ∧
  holds (H := toy_crypto) (andna_run (H := toy_crypto) (H0 := least_rng) s1 alice_commands).1 alice 7%Z 1 1000 2593000.
Proof.
  cbv zeta. split; [vm_compute; reflexivity|].
  refine (proj1 (proj2 (name_owned_until_expiry (H := toy_crypto) (H0 := least_rng) andna_start tt (alice_request 7 1 1000 []) 1000 _
    [EvRegistered alice 2593000] (Registered 2593000) alice_commands _ _))).
  - vm_compute. reflexivity.
  - repeat (apply Forall_cons_2; [vm_compute; split; congruence|]). apply Forall_nil_2.
Defined.

(** The same request once more while the name is held, and once more after it expired. *)
Definition replayed_commands : list (unit * @AndnaCmd toy_crypto) :=
  [(tt, CmdRegister (H := toy_crypto) (alice_request 7 1 1000 []) 1000); (tt, CmdRegister (H := toy_crypto) (alice_request 7 1 1000 []) 1001);
   (tt, CmdPurgeExpired (H := toy_crypto) 2593000); (tt, CmdRegister (H := toy_crypto) (alice_request 7 1 1000 []) 2593001)].

Lemma registration_accepted_once_witness :
  ¬ accepted (H := toy_crypto) (andna_run (H := toy_crypto) (H0 := least_rng) andna_start replayed_commands).2 3 (alice_request 7 1 1000 []) 2593001.
Proof.
  refine (registration_accepted_once (H := toy_crypto) (H0 := least_rng) andna_start replayed_commands 0 3 (alice_request 7 1 1000 []) 1000 2593001
    (replicate 64 7%Z) _ _ _ _).
  - vm_compute. reflexivity.
  - repeat (apply SSorted_cons; [|repeat (apply Forall_cons_2; [vm_compute; congruence|]); apply Forall_nil_2]). apply SSorted_nil.
  - lia.
  - exists (Registered 2593000). vm_compute. reflexivity.
Defined.
