(* ===== verification/AndnaCaps.v ===== *)
(** * The stores of the name service stay within their caps

    An invariant of every reachable state of the actor of AndnaActor.v: the number of
    hosted names, the SNSD records of each name, the registrants and the live
    reservations of each are within the configured limits, and the published snapshot
    is the store. *)
From stdpp Require Import strings.
From S2P Require Import Prelude Addressing Domain Auth Andna AndnaActor AndnaProps.

(** ** SNSD tables *)
Definition records_in (m : gmap Z (list SnsdRecord)) : nat := sum_list_with (λ kv, length kv.2) (map_to_list m).

Lemma records_in_delete m k : records_in m = length (default [] (m !! k)) + records_in (delete k m).
Proof.
  unfold records_in. destruct (m !! k) as [b|] eqn:Hk; cbn; [|by rewrite delete_id].
  rewrite <-(insert_id m k b Hk) at 1. rewrite <-insert_delete_eq.
  rewrite (sum_list_with_Permutation_proper _ _ _ (map_to_list_insert _ _ b (lookup_delete_eq m k))). done.
Qed.

Lemma records_in_insert m k b : records_in (<[k := b]> m) + length (default [] (m !! k)) = records_in m + length b.
Proof. rewrite (records_in_delete m k), (records_in_delete (<[k := b]> m) k), lookup_insert_eq, delete_insert_eq. cbn. lia. Qed.

Lemma bucket_le_total m k b : m !! k = Some b → length b ≤ records_in m.
Proof. intros Hk. rewrite (records_in_delete m k), Hk. cbn. lia. Qed.

(** The table of a name: the count is exact, every bucket holds the records of its
    service within the cap, and service 0 is one record with the owner's address. *)
Record snsd_ok (ps tot : nat) (owner : Naddr) (t : SnsdTable) : Prop := mkSnsdOk {
  so_total : st_total t = records_in (st_by_service t);
  so_max : st_total t ≤ 1 `max` tot;
  so_bucket : ∀ svc b, st_by_service t !! svc = Some b → Forall (λ r, sr_service r = svc) b ∧ (svc ≠ ZERO_SERVICE → length b ≤ ps);
  so_zero : ∃ p w, st_by_service t !! ZERO_SERVICE = Some [mkSnsdRecord ZERO_SERVICE p w (Address owner)]
}.

Lemma set_zero_new {E} a p w :
  (set_zero_record snsd_new a p w : res E _) = Ok (mkSnsdTable {[ZERO_SERVICE := [mkSnsdRecord ZERO_SERVICE p w (Address a)]]} 1).
Proof. reflexivity. Qed.

Lemma snsd_insert_ok ps tot owner t r :
  snsd_ok ps tot owner t → sr_service r ≠ ZERO_SERVICE →
  match snsd_insert t r ps tot with
  | (t', Ok _) => snsd_ok ps tot owner t'
  | (_, Err e) => e = TooManySnsdRecords tot ∨ e = TooManyRecordsForService (sr_service r) ps
  | (_, Panic) => False
  end.
Proof.
  intros [Ht Hm Hb Hz] Hr. unfold snsd_insert. destruct (Nat.leb_spec tot (st_total t)); [by left|].
  set (b := default [] (st_by_service t !! sr_service r)). destruct (Nat.leb_spec ps (length b)); [by right|]. split; cbn.
  - pose proof (records_in_insert (st_by_service t) (sr_service r) (b ++ [r])) as Hi. fold b in Hi. rewrite length_app in Hi. cbn in Hi. lia.
  - lia.
  - intros svc b'. destruct (decide (svc = sr_service r)) as [->|Hne]; [|rewrite lookup_insert_ne by done; apply Hb].
    rewrite lookup_insert_eq. intros [= <-]. rewrite Forall_app, length_app, Forall_singleton. split_and!; [|done|cbn; lia].
    unfold b. destruct (st_by_service t !! sr_service r) as [b0|] eqn:Hk; cbn; [by apply Hb|constructor].
  - by rewrite lookup_insert_ne.
Qed.

Lemma build_snsd_ok `{Crypto} q ps tot t :
  names_zero_service (rq_snsd_records q) = false → build_snsd q ps tot = Ok t → snsd_ok ps tot (rq_owner_naddr q) t.
Proof.
  intros Hz. unfold build_snsd. rewrite set_zero_new. cbn -[foldM]. intros Hf. unfold names_zero_service in Hz. rewrite any_false in Hz.
  eapply (foldM_inv _ (λ done t, snsd_ok ps tot (rq_owner_naddr q) t)); [| |exact Hf].
  - split; cbn [st_total st_by_service]; [done|lia| |by eexists _, _].
    intros svc b [<- <-]%lookup_singleton_Some. split; [by repeat constructor|done].
  - intros pre r t1 t2 [rest Hl] Ht1 Hr.
    assert (sr_service r ≠ ZERO_SERVICE) as Hne.
    { apply Z.eqb_neq, Hz. rewrite Hl. rewrite !elem_of_app. left. right. by apply list_elem_of_singleton. }
    pose proof (snsd_insert_ok ps tot (rq_owner_naddr q) t1 r Ht1 Hne) as Hok.
    destruct (snsd_insert t1 r ps tot) as [t' [[]|e|]]; [by simplify_eq|by destruct Hok as [->| ->]|done].
Qed.

(** ** Live reservations *)
Lemma live_count_mono r now now' : (now ≤ now')%Z → live_count r now' ≤ live_count r now.
Proof.
  intros Hle. unfold live_count. rewrite <-!size_dom. apply subseteq_size. intros h.
  rewrite !elem_of_dom. intros [e [He Hp]%map_lookup_filter_Some]. exists e. apply map_lookup_filter_Some. cbn in *. split; [done|lia].
Qed.

Lemma live_count_insert r hash e now :
  live_count (<[hash := e]> r) now ≤ S (live_count r now) ∧
  ((∃ e0, r !! hash = Some e0 ∧ (now < e0)%Z) → live_count (<[hash := e]> r) now ≤ live_count r now).
Proof.
  unfold live_count. destruct (Z.lt_ge_cases now e) as [Hlt|Hge].
  - rewrite map_filter_insert_True by done. rewrite map_size_insert. split.
    + destruct (filter _ r !! hash); cbn; lia.
    + intros (e0 & He0 & Hl). rewrite (proj2 (map_lookup_filter_Some _ r hash e0)) by done. done.
  - assert (size (filter (λ kv, now < kv.2)%Z (<[hash := e]> r)) ≤ size (filter (λ kv, now < kv.2)%Z r)) as Hle.
    { rewrite <-!size_dom. apply subseteq_size. intros h. rewrite !elem_of_dom. intros [x [Hx Hp]%map_lookup_filter_Some]. cbn in Hp.
      apply lookup_insert_Some in Hx as [[-> ->]|[_ Hx]]; [lia|]. exists x. by apply map_lookup_filter_Some. }
    split; [lia|done].
Qed.

(** A reservation keeps the number of registrants and of live names within the caps. *)
Lemma try_reserve_spec c registrant hash now ttl cap maxr c' x :
  try_reserve c registrant hash now ttl cap maxr = (c', x) →
  size c ≤ maxr → (∀ k r, c !! k = Some r → live_count r now ≤ cap) →
  size c' ≤ maxr ∧
  (∀ k r, k ≠ registrant → c' !! k = Some r → c !! k = Some r) ∧
  (∀ r, c' !! registrant = Some r → live_count r now ≤ cap ∧
     match x with Ok n => n = live_count r now | _ => r = default ∅ (c !! registrant) end).
Proof.
  unfold try_reserve. intros Hr Hs Hl. set (entry := default ∅ (c !! registrant)) in *.
  assert (live_count entry now ≤ cap) as He.
  { unfold entry. destruct (c !! registrant) as [r|] eqn:Hc; cbn; [by eapply Hl|]. unfold live_count. rewrite map_filter_empty, map_size_empty. lia. }
  destruct (bool_decide_reflect (c !! registrant = None)) as [Hn|Hn]; cbn [andb] in Hr;
    [destruct (Nat.leb_spec maxr (size c)); [simplify_eq; split_and!; [done|done|by rewrite Hn]|]|].
  all: assert (∀ e, size (<[registrant := e]> c) ≤ maxr) as Hsize by
    (intros e; rewrite map_size_insert; destruct (c !! registrant); cbn; (done || lia)).
  all: match type of Hr with (if negb ?b && _ then _ else _) = _ => destruct b eqn:Hlive end; cbn [negb andb] in Hr;
    [|destruct (Nat.leb_spec cap (live_count entry now)) as [Hcap|Hcap]];
    [destruct (u64_add _ _) as [e|?|]|simplify_eq|destruct (u64_add _ _) as [e|?|]]; simplify_eq;
    (split; [by apply Hsize|split; [intros k r Hk; by rewrite lookup_insert_ne|intros r; rewrite lookup_insert_eq; intros [= <-]; split; [|done]]]); try done.
  all: destruct (live_count_insert entry hash e now) as [H1 H2]; try lia.
  all: destruct (entry !! hash) as [e0|] eqn:He0; [|done]; apply Z.ltb_lt in Hlive; specialize (H2 (ex_intro _ e0 (conj eq_refl Hlive))); lia.
Qed.

(** ** The invariant of the actor *)
Section Invariant.
Context `{Crypto} {R : Type} `{Rng R}.

Record andna_inv (now : Z) (s : AndnaState) : Prop := mkAndnaInv {
  ai_size : size (as_cache s) ≤ an_max_hosted_records (as_config s);
  ai_hosted : sn_hosted (as_snapshot s) = as_cache s;
  ai_snsd : ∀ h r, as_cache s !! h = Some r →
    ∃ owner, snsd_ok (an_max_snsd_records_per_service (as_config s)) (an_max_snsd_records_total (as_config s)) owner (hr_snsd r);
  ai_registrants : size (as_counters s) ≤ an_max_counter_registrants (as_config s);
  ai_live : ∀ k r, as_counters s !! k = Some r → live_count r now ≤ an_max_hostnames_per_registrant (as_config s);
  ai_counters : ∀ k r, as_counters s !! k = Some r → live_count r now ≤ default 0 (sn_counters (as_snapshot s) !! k)
}.

Lemma andna_inv_later now now' s : (now ≤ now')%Z → andna_inv now s → andna_inv now' s.
Proof.
  intros Hle [H1 H2 H3 H4 H5 H6]. split; try done.
  all: intros k r Hk; specialize (H5 k r Hk); specialize (H6 k r Hk); pose proof (live_count_mono r now now' Hle); lia.
Qed.

Lemma andna_new_inv config now : andna_inv now (andna_new config).
Proof. split; cbn; try done; rewrite map_size_empty; lia. Qed.

Lemma cache_part now s rng cmd :
  andna_inv now s → let s' := (andna_handle s rng cmd).1.1 in
  size (as_cache s') ≤ an_max_hosted_records (as_config s) ∧ sn_hosted (as_snapshot s') = as_cache s' ∧
  ∀ h r, as_cache s' !! h = Some r →
    ∃ owner, snsd_ok (an_max_snsd_records_per_service (as_config s)) (an_max_snsd_records_total (as_config s)) owner (hr_snsd r).
Proof.
  intros [H1 H2 H3 _ _ _]. destruct cmd as [q t|h svc t|k hash t|t].
  - cbn. destruct (cache_register _ _ _ _ _ _ _ _) as [c [o|e|]] eqn:Hc; cbn; [|apply cache_register_not_Ok in Hc as ->; done..].
    apply cache_register_Ok in Hc as (Hchk & _ & r & -> & _ & _ & _ & _ & Hb & _). destruct (check_request_Ok _ _ _ _ Hchk) as (_ & Hz & _ & _ & Hnew).
    unfold patch_hosted. cbn. rewrite lookup_insert_eq. cbn. split_and!; [|by rewrite H2|].
    + rewrite map_size_insert. destruct (as_cache s !! rq_hostname q) eqn:Hq; cbn; [done|]. by apply Hnew.
    + intros h r' [[<- <-]|[_ Hr]]%lookup_insert_Some; [|by eapply H3]. eexists. by eapply build_snsd_ok.
  - done.
  - cbn. destruct (try_reserve _ _ _ _ _ _ _) as [c []]; done.
  - cbn. split_and!; [|done|].
    + etrans; [apply map_size_filter|done].
    + intros h r [Hr _]%map_lookup_filter_Some. by eapply H3.
Qed.

Lemma purge_size (c : gmap (list Z) (gmap (list Z) Z)) now : size (counter_purge_expired c now) ≤ size c.
Proof. unfold counter_purge_expired. etrans; [apply map_size_filter|]. by rewrite map_size_fmap. Qed.

Lemma purge_lookup (c : gmap (list Z) (gmap (list Z) Z)) now k r :
  counter_purge_expired c now !! k = Some r → ∃ r0, c !! k = Some r0 ∧ r = filter (λ kv, (now < kv.2)%Z) r0 ∧ r ≠ ∅.
Proof.
  unfold counter_purge_expired. intros [Hk Hne]%map_lookup_filter_Some. rewrite lookup_fmap in Hk.
  destruct (c !! k) as [r0|]; cbn in Hk; [|done]. simplify_eq. by exists r0.
Qed.

Lemma live_count_purged r now : live_count (filter (λ kv, (now < kv.2)%Z) r) now = live_count r now.
Proof. unfold live_count. by rewrite map_filter_id by (intros ?? [??]%map_lookup_filter_Some; done). Qed.

Lemma counter_part now s rng cmd :
  andna_inv now s → (now ≤ cmd_now cmd)%Z → let s' := (andna_handle s rng cmd).1.1 in
  size (as_counters s') ≤ an_max_counter_registrants (as_config s) ∧
  ∀ k r, as_counters s' !! k = Some r →
    live_count r (cmd_now cmd) ≤ an_max_hostnames_per_registrant (as_config s) ∧
    live_count r (cmd_now cmd) ≤ default 0 (sn_counters (as_snapshot s') !! k).
Proof.
  intros Hinv Hnow. apply (andna_inv_later _ _ _ Hnow) in Hinv as [_ _ _ H4 H5 H6]. destruct cmd as [q t|h svc t|k0 hash t|t].
  - cbn. destruct (cache_register _ _ _ _ _ _ _ _) as [c [o|e|]]; cbn; [unfold patch_hosted; cbn; case_match; cbn|..]; eauto.
  - cbn. eauto.
  - cbn in *. destruct (try_reserve _ _ _ _ _ _ _) as [c x] eqn:Hx. destruct (try_reserve_spec _ _ _ _ _ _ _ _ _ Hx H4 H5) as (Hs & Hother & Hmine).
    assert (∀ r, c !! k0 = Some r → (∀ n, x ≠ Ok n) → live_count r t ≤ default 0 (sn_counters (as_snapshot s) !! k0)) as Hsame.
    { intros r Hr Hn. destruct (Hmine r Hr) as [_ Hd]. destruct x; [naive_solver| |]; subst r.
      all: destruct (as_counters s !! k0) as [r0|] eqn:Hr0; [by apply H6|]; cbn; unfold live_count; rewrite map_filter_empty, map_size_empty; lia. }
    destruct x as [n|e|]; cbn; (split; [done|]); intros k r Hk; (destruct (decide (k = k0)) as [->|Hne];
      [split; [by apply Hmine|]|apply Hother in Hk; [|done]; rewrite ?lookup_insert_ne by done; eauto]); try (by apply Hsame).
    destruct (Hmine r Hk) as [_ ->]. by rewrite lookup_insert_eq.
  - cbn in *. split; [etrans; [apply purge_size|done]|]. intros k r Hk. destruct (purge_lookup _ _ _ _ Hk) as (r0 & Hr0 & -> & Hne).
    rewrite live_count_purged. split; [by eapply H5|]. unfold counter_snapshot.
    destruct (filter _ _ !! k) eqn:Hf; cbn.
    + apply map_lookup_filter_Some in Hf as [Hf _]. rewrite lookup_fmap, Hk in Hf. cbn in Hf. simplify_eq. by rewrite live_count_purged.
    + exfalso. apply map_lookup_filter_None in Hf as [Hf|Hf]; rewrite lookup_fmap, Hk in Hf; cbn in Hf; [done|].
      specialize (Hf _ eq_refl). cbn in Hf. rewrite live_count_purged in Hf. apply Hf. unfold live_count.
      apply Nat.neq_0_lt_0. intros Hz%map_size_empty_inv. done.
Qed.

Lemma andna_step_inv now s rng cmd :
  andna_inv now s → (now ≤ cmd_now cmd)%Z → andna_inv (cmd_now cmd) (andna_handle s rng cmd).1.1.
Proof.
  intros Hinv Hnow. destruct (cache_part now s rng cmd Hinv) as (H1 & H2 & H3). destruct (counter_part now s rng cmd Hinv Hnow) as (H4 & H5).
  split; rewrite ?andna_handle_config; try done; intros k r Hk; by destruct (H5 k r Hk).
Qed.
End Invariant.

(** A node of the name service never stores more than it is configured to.  After
    any run from start whose clock does not go back, the hosted names, the SNSD records
    of each name (its address record first, the others per service and in all) and the
    tracked registrants are within their caps, and at no later time does a registrant
    hold more live reservations than its quota; the published snapshot shows exactly
    the hosted names and, for each registrant, no fewer reservations than are live. *)
Theorem stores_within_caps `{Crypto} {R} `{Rng R} config (l : list (R * AndnaCmd)) now :
  clocked l → Forall (λ c, (cmd_now c.2 ≤ now)%Z) l → andna_inv now (andna_run (andna_new config) l).1.
Proof.
  intros Hc Hl. assert (∀ t s, andna_inv t s → Forall (λ c, (t ≤ cmd_now c.2)%Z) l → (t ≤ now)%Z → andna_inv now (andna_run s l).1) as Hgen.
  { clear config. induction l as [|[rng cmd] l IH]; intros t s Hs Ht Hle; [by eapply andna_inv_later|].
    apply StronglySorted_inv in Hc as [Hc Hf]. apply Forall_cons in Hl as [Hc0 Hl], Ht as [Ht0 _]. cbn in *.
    pose proof (andna_run_cons s rng cmd l) as Hrun. cbn in Hrun. rewrite Hrun. cbn [fst].
    apply (IH Hc Hl (cmd_now cmd)); [by eapply andna_step_inv|done|done]. }
  apply (Hgen (foldr Z.min now ((λ c, cmd_now c.2) <$> l))); [apply andna_new_inv| |].
  - clear. induction l as [|c l IH]; [constructor|]. cbn. constructor; [lia|]. eapply Forall_impl; [exact IH|]. cbn. lia.
  - clear. induction l as [|c l IH]; cbn; lia.
Qed.

Lemma stores_within_caps_witness :
  let s := (andna_run (H := toy_crypto) (H0 := least_rng) andna_start replayed_commands).1 in
  size (as_cache s) = 0 ∧ andna_inv (H := toy_crypto) 2593001 s.
Proof.
  cbv zeta. split; [vm_compute; reflexivity|].
  apply (stores_within_caps (H := toy_crypto) (H0 := least_rng) small_config replayed_commands 2593001).
  - repeat (apply SSorted_cons; [|repeat (apply Forall_cons_2; [vm_compute; congruence|]); apply Forall_nil_2]). apply SSorted_nil.
  - repeat (apply Forall_cons_2; [vm_compute; congruence|]). apply Forall_nil_2.
Defined.
