(* ===== verification/AndnaSelect.v ===== *)
(** * Selection of SNSD records

    What [SnsdTable::resolve] of Andna.v returns: all the enabled records of a service
    and nothing else, by descending priority, the order within a priority drawn with
    the weights as probabilities. *)
From stdpp Require Import strings.
From S2P Require Import Prelude Addressing Andna.

(** ** Lists *)
Lemma concat_Permutation {A} (l l' : list (list A)) : l ≡ₚ l' → concat l ≡ₚ concat l'.
Proof. induction 1 as [|x l l' _ IH|x y l|l1 l2 l3 _ IH1 _ IH2]; cbn; [done|by rewrite IH|by rewrite !app_assoc, (Permutation_app_comm x y)|by etrans]. Qed.

Lemma StronglySorted_reverse {A} (P : A → A → Prop) l : StronglySorted P l → StronglySorted (flip P) (reverse l).
Proof.
  induction 1 as [|x l Hs IH Hx]; [constructor|]. rewrite reverse_cons. apply StronglySorted_app_2; [|done|by repeat constructor].
  intros y z Hy Hz. apply list_elem_of_singleton in Hz as ->. rewrite Forall_forall in Hx. apply Hx. by apply elem_of_reverse.
Qed.

(** ** One draw *)
Definition sumw (l : list SnsdRecord) : Z := foldr (λ r s, sr_weight r + s)%Z 0%Z l.
#[local] Arguments sumw : simpl never.
Lemma sumw_cons r l : sumw (r :: l) = (sr_weight r + sumw l)%Z.
Proof. done. Qed.
Definition enabled (l : list SnsdRecord) : Prop := Forall (λ r, 0 < sr_weight r)%Z l.

Lemma sumw_nonneg l : enabled l → (0 ≤ sumw l)%Z.
Proof. induction 1; [done|]. rewrite sumw_cons. lia. Qed.
Lemma sumw_app l1 l2 : sumw (l1 ++ l2) = (sumw l1 + sumw l2)%Z.
Proof. induction l1 as [|r l1 IH]; [done|]. cbn. rewrite !sumw_cons, IH. lia. Qed.
Lemma sumw_Permutation l l' : l ≡ₚ l' → sumw l = sumw l'.
Proof. induction 1; rewrite ?sumw_cons; lia. Qed.

Lemma total_weight_Ok {E} l : enabled l → (sumw l ≤ U32_MAX)%Z → (total_weight l : res E Z) = Ok (sumw l).
Proof.
  unfold total_weight. intros Hp Hs. enough (∀ s, 0 ≤ s → s + sumw l ≤ U32_MAX → foldM (λ s r, u32_add s (sr_weight r)) s l = (Ok (s + sumw l)%Z : res E Z))%Z as H
    by (rewrite H by lia; by rewrite Z.add_0_l).
  clear Hs. induction Hp as [|r l Hr Hp IH]; intros s H0 Hs; [unfold sumw; cbn; f_equal; lia|]. cbn [foldM]. rewrite sumw_cons in *.
  pose proof (sumw_nonneg l Hp). assert (u32_add s (sr_weight r) = (Ok (s + sr_weight r)%Z : res E Z)) as ->.
  { unfold u32_add. by destruct (Z.leb_spec (s + sr_weight r) U32_MAX); [|lia]. }
  cbn. rewrite IH by lia. f_equal. lia.
Qed.

Lemma chosen_in_range k pick l : enabled l → (1 ≤ pick ≤ sumw l)%Z → ∃ j, j < length l ∧ chosen_index k pick l = k + j.
Proof.
  intros Hp. revert k pick. induction Hp as [|r l Hr Hp IH]; intros k pick Hpick; [unfold sumw in Hpick; cbn in Hpick; lia|]. rewrite sumw_cons in Hpick. cbn.
  destruct (Z.leb_spec pick (sr_weight r)); [exists 0; lia|].
  destruct (IH (S k) (pick - sr_weight r)%Z) as (j & Hj & ->); [lia|]. exists (S j). lia.
Qed.

(** The draws that elect a record are the interval of its weight. *)
Lemma chosen_interval k pick l i :
  enabled l → (1 ≤ pick ≤ sumw l)%Z → i < length l →
  chosen_index k pick l = k + i ↔ (sumw (take i l) < pick ≤ sumw (take (S i) l))%Z.
Proof.
  intros Hp. revert k pick i. induction Hp as [|r l Hr Hp IH]; intros k pick i Hpick Hi; cbn in Hi; [lia|].
  cbn [chosen_index]. rewrite sumw_cons in Hpick. destruct (Z.leb_spec pick (sr_weight r)) as [Hle|Hgt].
  - destruct i as [|i]; cbn [take]; rewrite !sumw_cons; [rewrite take_0; unfold sumw; cbn; lia|]. pose proof (sumw_nonneg (take i l)) as Ht. split; [lia|]. intros [Hlt _].
    assert (enabled (take i l)) as Hpt by by apply Forall_take. specialize (Ht Hpt). lia.
  - destruct i as [|i].
    + destruct (chosen_in_range (S k) (pick - sr_weight r)%Z l Hp) as (j & Hj & ->); [lia|]. cbn [take]. rewrite sumw_cons, take_0. unfold sumw. cbn. lia.
    + replace (k + S i) with (S k + i) by lia. rewrite IH by lia.
      change (take (S (S i)) (r :: l)) with (r :: take (S i) l). change (take (S i) (r :: l)) with (r :: take i l). rewrite !sumw_cons. lia.
Qed.

(** The first record drawn is each record with the probability of its weight.  Of the
    [total] values the generator may draw from a pool, exactly as many elect a record as
    its weight says; and when the generator is uniform over the range so is the election
    in proportion to the weights. *)
Theorem draw_proportional_to_weight (pool : list SnsdRecord) i r :
  enabled pool → pool !! i = Some r →
  length (retain (λ pick, bool_decide (chosen_index 0 pick pool = i)) (seqZ 1 (sumw pool))) = Z.to_nat (sr_weight r).
Proof.
  intros Hp Hi. rewrite <-(length_seqZ (sumw (take i pool) + 1) (sr_weight r)). apply Permutation_length.
  pose proof (lookup_lt_Some _ _ _ Hi) as Hlt. pose proof (take_S_r _ _ _ Hi) as Ht.
  assert (sumw pool = sumw (take i pool) + sr_weight r + sumw (drop (S i) pool))%Z as Hsum.
  { rewrite <-(take_drop_middle _ _ _ Hi) at 1. rewrite sumw_app, sumw_cons. lia. }
  pose proof (sumw_nonneg (take i pool) (Forall_take _ _ _ Hp)). pose proof (sumw_nonneg (drop (S i) pool) (Forall_drop _ _ _ Hp)).
  apply NoDup_Permutation; [|apply NoDup_seqZ|].
  - unfold retain. apply NoDup_ListNoDup, List.NoDup_filter, NoDup_ListNoDup, NoDup_seqZ.
  - intros pick. rewrite elem_of_retain, bool_decide_eq_true, !elem_of_seqZ. split.
    + intros [Hr Hc]. apply (chosen_interval 0) in Hc; [|done|lia|done]. rewrite Ht, sumw_app in Hc. unfold sumw in Hc at 3. cbn in Hc. lia.
    + intros Hr. split; [lia|]. apply (chosen_interval 0); [done|lia|done|]. rewrite Ht, sumw_app. unfold sumw at 3. cbn. lia.
Qed.

(** ** The order of a tier *)
Section Shuffle.
Context {R : Type} `{Rng R} {E : Type}.

Lemma shuffle_perm n pool (rng : R) :
  length pool = n → enabled pool → (sumw pool ≤ U32_MAX)%Z →
  ∃ l rng', (shuffle_loop n pool rng : res E _) = Ok (l, rng') ∧ l ≡ₚ pool.
Proof.
  revert pool rng. induction n as [|n IH]; intros pool rng Hn Hp Hs; [by destruct pool; [eexists _, _|]|].
  cbn [shuffle_loop]. rewrite total_weight_Ok by done. cbn.
  assert (1 ≤ sumw pool)%Z as Hpos.
  { destruct Hp as [|r l Hr Hl]; [done|]. rewrite sumw_cons. pose proof (sumw_nonneg l Hl). lia. }
  destruct (Z.ltb_spec (sumw pool) 1) as [?|_]; [lia|].
  pose proof (random_range_bounds rng 1 (sumw pool) Hpos) as Hr. destruct (random_range rng 1 (sumw pool)) as [pick rng']. cbn in Hr.
  destruct (chosen_in_range 0 pick pool Hp Hr) as (j & Hj & ->). cbn. destruct (lookup_lt_is_Some_2 _ _ Hj) as [r Hjr]. rewrite Hjr. cbn.
  pose proof (delete_Permutation _ _ _ Hjr) as Hperm.
  destruct (IH (delete j pool) rng') as (l & rng2 & Hl & Hlp).
  - apply Permutation_length in Hperm. cbn in Hperm. lia.
  - unfold enabled in *. rewrite Hperm in Hp. by apply Forall_cons in Hp as [_ ?].
  - rewrite (sumw_Permutation _ _ Hperm), sumw_cons in Hs. unfold enabled in Hp. rewrite Hperm in Hp. apply Forall_cons in Hp as [? _]. lia.
  - rewrite Hl. cbn. eexists _, _. split; [done|]. by rewrite Hlp, <-Hperm.
Qed.

(** ** The tiers *)
Definition is_enabled (r : SnsdRecord) : bool := (0 <? sr_weight r)%Z.

Definition values (m : gmap Z (list SnsdRecord)) : list SnsdRecord := concat (map_to_list m).*2.

Lemma values_insert m k b : values (<[k := b]> m) ≡ₚ b ++ values (delete k m).
Proof.
  unfold values. rewrite <-insert_delete_eq. etrans; [apply concat_Permutation, fmap_Permutation, map_to_list_insert, lookup_delete_eq|]. done.
Qed.
Lemma values_delete m k : values m ≡ₚ default [] (m !! k) ++ values (delete k m).
Proof. destruct (m !! k) as [b|] eqn:Hk; cbn; [|by rewrite delete_id]. rewrite <-(insert_id m k b Hk) at 1. apply values_insert. Qed.

Definition add_to_tier (m : gmap Z (list SnsdRecord)) (r : SnsdRecord) := <[sr_priority r := default [] (m !! sr_priority r) ++ [r]]> m.
Definition tiers_ok (m : gmap Z (list SnsdRecord)) : Prop := ∀ p b, m !! p = Some b → Forall (λ r, sr_priority r = p) b.

Lemma add_to_tier_spec m r : tiers_ok m → tiers_ok (add_to_tier m r) ∧ values (add_to_tier m r) ≡ₚ values m ++ [r].
Proof.
  intros Hm. split.
  - unfold add_to_tier. intros p b [[<- <-]|[_ Hb]]%lookup_insert_Some; [|by eapply Hm]. apply Forall_app. split; [|by repeat constructor].
    destruct (m !! sr_priority r) as [b|] eqn:Hb; [by eapply Hm|constructor].
  - unfold add_to_tier. rewrite values_insert, (values_delete m (sr_priority r)). rewrite <-!app_assoc. f_equiv. apply Permutation_app_comm.
Qed.

Lemma by_priority_spec l : tiers_ok (by_priority l) ∧ values (by_priority l) ≡ₚ retain is_enabled l.
Proof.
  unfold by_priority. fold is_enabled. change (λ r, (0 <? sr_weight r)%Z) with is_enabled.
  change (λ (m : gmap Z (list SnsdRecord)) (r : SnsdRecord), <[sr_priority r := default [] (m !! sr_priority r) ++ [r]]> m) with add_to_tier.
  apply (foldl_inv add_to_tier (λ seen m, tiers_ok m ∧ values m ≡ₚ seen)); [split; [by intros p b|done]|].
  intros pre m r _ [Hm Hv]. destruct (add_to_tier_spec m r Hm) as [Hm' Hv']. split; [done|]. by rewrite Hv', Hv.
Qed.

(** Tiers in order: each of one priority, every later one of a smaller. *)
Lemma tiers_spec l :
  concat (tiers l) ≡ₚ retain is_enabled l ∧
  ∃ ps, Forall2 (λ p tier, Forall (λ r, sr_priority r = p) tier) ps (tiers l) ∧ StronglySorted (flip Z.le) ps.
Proof.
  destruct (by_priority_spec l) as [Hm Hv]. unfold tiers. set (m := by_priority l) in *. split.
  - rewrite <-Hv. unfold values. apply concat_Permutation, fmap_Permutation. rewrite reverse_Permutation. apply sort_by_perm.
  - exists (reverse (bt_iter m)).*1. split.
    + apply Forall2_fmap, Forall_Forall2_diag, Forall_forall. intros [p b] Hp. cbn. apply Hm. rewrite elem_of_reverse in Hp. by apply elem_of_bt_iter in Hp.
    + rewrite fmap_reverse. apply StronglySorted_reverse. unfold bt_iter.
      assert (StronglySorted (λ a b, (a.1 <=? b.1)%Z = true) (sort_by (λ a b, (a.1 <=? b.1)%Z) (map_to_list m))) as Hs.
      { apply sort_by_sorted; intros; rewrite ?Z.leb_le, ?Z.leb_gt in *; lia. }
      induction Hs as [|x rest Hs IH Hx]; cbn; constructor; [done|]. apply Forall_fmap. eapply Forall_impl; [exact Hx|]. cbn. intros a Ha. by apply Z.leb_le.
Qed.

Lemma shuffle_tiers ps ts acc (rng : R) :
  Forall2 (λ p tier, Forall (λ r, sr_priority r = p) tier) ps ts → StronglySorted (flip Z.le) ps →
  enabled (concat ts) → (sumw (concat ts) ≤ U32_MAX)%Z →
  ∃ l rng', foldM (λ acc tier, x ← weighted_shuffle tier acc.2; Ok (acc.1 ++ x.1, x.2)) (acc, rng) ts = (Ok (acc ++ l, rng') : res E _) ∧
    l ≡ₚ concat ts ∧ StronglySorted (λ a b, sr_priority b ≤ sr_priority a)%Z l.
Proof.
  intros Hps. revert acc rng. induction Hps as [|p tier ps ts Hp Hps IH]; intros acc rng Hs He Hw.
  { exists [], rng. rewrite app_nil_r. split_and!; [done|done|constructor]. }
  apply StronglySorted_inv in Hs as [Hs Hlt]. cbn in He, Hw. apply Forall_app in He as [He1 He2]. rewrite sumw_app in Hw.
  pose proof (sumw_nonneg _ He1) as Hn1. pose proof (sumw_nonneg _ He2) as Hn2.
  destruct (shuffle_perm (length tier) tier rng eq_refl He1) as (l1 & rng1 & H1 & Hl1); [lia|].
  destruct (IH (acc ++ l1) rng1) as (l2 & rng2 & H2 & Hl2 & Hs2); [done|done|lia|].
  exists (l1 ++ l2), rng2. cbn [foldM]. cbn [snd fst]. rewrite (H1 : weighted_shuffle tier rng = _). cbn [mbind res_bind fst snd]. rewrite H2, app_assoc.
  split_and!; [done|by rewrite Hl1, Hl2|]. apply StronglySorted_app_2; [| |done].
  - intros a b Ha Hb. rewrite Hl1 in Ha. rewrite Hl2 in Hb. rewrite Forall_forall in Hp. rewrite (Hp a Ha).
    apply list_elem_of_In, in_concat in Hb as (tb & Htb & Hb). rewrite <-list_elem_of_In in Htb. rewrite <-list_elem_of_In in Hb.
    apply list_elem_of_lookup in Htb as [i Hi]. destruct (Forall2_lookup_r _ _ _ _ _ Hps Hi) as (pb & Hpb & Hfb).
    rewrite Forall_forall in Hfb. rewrite (Hfb b Hb). rewrite Forall_lookup in Hlt. apply Hlt in Hpb. done.
  - clear -Hl1 Hp. assert (Forall (λ r, sr_priority r = p) l1) as Hp1 by by rewrite Hl1.
    induction Hp1 as [|r l Hr Hl' IH']; constructor; [|subst p; eapply Forall_impl; [exact Hl'|]; cbn; lia].
    clear -Hl'. induction Hl' as [|a l Ha Hl IH]; constructor; [done|]. subst p. eapply Forall_impl; [exact Hl|]. cbn. lia.
Qed.
End Shuffle.

(** What a service of a table names: its own records, or the zero record when it has
    none. *)
Definition service_records (t : SnsdTable) (service : Z) : list SnsdRecord := default [] (snsd_lookup t service).

Lemma resolve_spec {R} `{Rng R} {E} (t : SnsdTable) (service : Z) (rng : R) :
  let records := service_records t service in
  Forall (λ r, 0 ≤ sr_weight r < 256)%Z records → (Z.of_nat (length records) * 255 ≤ U32_MAX)%Z →
  ∃ l rng', (snsd_resolve t service rng : res E _) = Ok (l, rng') ∧ l ≡ₚ retain is_enabled records ∧
    StronglySorted (λ a b, sr_priority b ≤ sr_priority a)%Z l.
Proof.
  unfold service_records, snsd_resolve. destruct (snsd_lookup t service) as [records|]; cbn [from_option id];
    [|intros _ _; exists [], rng; split_and!; [done|done|constructor]]. intros Hw Hlen.
  destruct (tiers_spec records) as (Hperm & ps & Hps & Hs).
  assert (enabled (retain is_enabled records)) as He by (apply Forall_forall; intros r [_ Hr%Z.ltb_lt]%elem_of_retain; done).
  assert (sumw (retain is_enabled records) ≤ Z.of_nat (length records) * 255)%Z as Hsum.
  { clear -Hw. induction Hw as [|r l Hr Hl IH]; [unfold sumw, retain; cbn; lia|]. unfold retain in *. cbn [List.filter]. destruct (is_enabled r); rewrite ?sumw_cons; cbn [length]; lia. }
  destruct (shuffle_tiers (E:=E) ps (tiers records) [] rng Hps Hs) as (l & rng' & Hl & Hlp & Hls).
  - unfold enabled. by rewrite Hperm.
  - rewrite (sumw_Permutation _ _ Hperm). lia.
  - exists l, rng'. split_and!; [done|by rewrite Hlp|done].
Qed.

(** Resolving never fails and returns every enabled record of the service, or of the
    zero service when the service has no records, exactly once and nothing else, those
    of a higher priority first, whatever the generator draws. *)
Theorem resolve_exact {R} `{Rng R} {E} (t : SnsdTable) (service : Z) (rng : R) :
  let records := service_records t service in
  Forall (λ r, 0 ≤ sr_weight r < 256)%Z records → (Z.of_nat (length records) * 255 ≤ U32_MAX)%Z →
  ∃ l rng', (snsd_resolve t service rng : res E _) = Ok (l, rng') ∧ l ≡ₚ retain is_enabled records ∧
    StronglySorted (λ a b, sr_priority b ≤ sr_priority a)%Z l.
Proof. apply resolve_spec. Qed.

(** ** Witnesses *)
Definition web_pool : list SnsdRecord :=
  [mkSnsdRecord 80 1 1 (Alias (mkHostname "a")); mkSnsdRecord 80 1 3 (Alias (mkHostname "b")); mkSnsdRecord 80 9 0 (Alias (mkHostname "c"));
   mkSnsdRecord 80 2 1 (Alias (mkHostname "d"))].

Lemma draw_proportional_to_weight_witness :
  length (retain (λ pick, bool_decide (chosen_index 0 pick (take 2 web_pool) = 1)) (seqZ 1 4)) = 3.
Proof.
  refine (draw_proportional_to_weight (take 2 web_pool) 1 (mkSnsdRecord 80 1 3 (Alias (mkHostname "b"))) _ _).
  - repeat (apply Forall_cons_2; [reflexivity|]). apply Forall_nil_2.
  - reflexivity.
Defined.

(** A generator that always draws the greatest value. *)
#[refine] Definition greatest_rng : Rng unit := {| random_range r _ hi := (hi, r) |}.
Proof. intros r lo hi Hle. cbn. lia. Defined.

Lemma resolve_exact_witness :
  let t := mkSnsdTable {[80%Z := web_pool]} 4 in
  (snsd_resolve (H := greatest_rng) (E := unit) t 80 tt =
    Ok ([mkSnsdRecord 80 2 1 (Alias (mkHostname "d")); mkSnsdRecord 80 1 3 (Alias (mkHostname "b")); mkSnsdRecord 80 1 1 (Alias (mkHostname "a"))], tt)) ∧
  ∃ l rng', (snsd_resolve (H := greatest_rng) t 80 tt : res unit _) = Ok (l, rng') ∧ l ≡ₚ retain is_enabled web_pool ∧
    StronglySorted (λ a b, sr_priority b ≤ sr_priority a)%Z l.
Proof.
  cbv zeta. split; [vm_compute; reflexivity|].
  refine (resolve_exact (H := greatest_rng) (mkSnsdTable {[80%Z := web_pool]} 4) 80 tt _ _).
  - repeat (apply Forall_cons_2; [vm_compute; split; congruence|]). apply Forall_nil_2.
  - vm_compute. congruence.
Defined.
