(* ===== verification/AndnaWire.v ===== *)
(** * Names, signatures and messages of the name service

    A name has one spelling; the bytes a registration is signed over determine every
    field of it; requests and replies survive the wire; and, over the whole client path
    of AndnaActor.v, a registered name resolves to the records it was registered with. *)
From stdpp Require Import strings.
From S2P Require Import Prelude Addressing Domain Auth PeerTuple PeerState PeerRouting PeerWireProps Andna AndnaActor AndnaProps AndnaCaps AndnaSelect.

(** ** Hostnames *)
Definition canonical_byte (c : Ascii.ascii) : bool := let n := Ascii.N_of_ascii c in is_digit n || is_lower n.

Definition hostname_wf (h : Hostname) : Prop :=
  hn_str h ≠ EmptyString ∧ String.length (hn_str h) ≤ MAX_LEN ∧ all canonical_byte (String.list_ascii_of_string (hn_str h)) = true.

Lemma lower_byte_canonical c : is_ascii_alphanumeric c = true → canonical_byte (lower_byte c) = true.
Proof. destruct c as [[] [] [] [] [] [] [] []]; vm_compute; congruence. Qed.
Lemma canonical_byte_fixed c : canonical_byte c = true → lower_byte c = c ∧ is_ascii_alphanumeric c = true.
Proof. destruct c as [[] [] [] [] [] [] [] []]; vm_compute; intuition congruence. Qed.

Lemma length_list_ascii s : length (String.list_ascii_of_string s) = String.length s.
Proof. induction s as [|c s IH]; cbn; congruence. Qed.
Lemma length_string_of_list l : String.length (String.string_of_list_ascii l) = length l.
Proof. induction l as [|c l IH]; cbn; congruence. Qed.

Lemma hostname_new_Ok raw h :
  hostname_new raw = Ok h ↔
  raw ≠ EmptyString ∧ String.length raw ≤ MAX_LEN ∧ all is_ascii_alphanumeric (String.list_ascii_of_string raw) = true ∧
  h = mkHostname (to_ascii_lowercase raw).
Proof.
  unfold hostname_new. destruct raw as [|c raw]; [naive_solver|]. destruct (Nat.ltb_spec MAX_LEN (String.length (String c raw))); [naive_solver lia|].
  destruct (all _ _); cbn; naive_solver.
Qed.

Lemma hostname_new_wf raw h : hostname_new raw = Ok h → hostname_wf h.
Proof.
  intros (Hne & Hlen & Hall & ->)%hostname_new_Ok. unfold hostname_wf, to_ascii_lowercase. cbn [hn_str]. rewrite all_true in *.
  rewrite String.list_ascii_of_string_of_list_ascii, length_string_of_list, length_fmap, length_list_ascii. split_and!; [|done|].
  - by destruct raw.
  - intros c (c0 & -> & Hc0)%list_elem_of_fmap. by apply lower_byte_canonical, Hall.
Qed.

(** A name read back from its own spelling is the same name. *)
Lemma hostname_new_canonical h : hostname_wf h → hostname_new (hn_str h) = Ok h.
Proof.
  destruct h as [s]. intros (Hne & Hlen & Hall). cbn [hn_str] in *. rewrite all_true in Hall. apply hostname_new_Ok. split_and!; [done|done| |].
  - apply all_true. intros c Hc. by apply canonical_byte_fixed, Hall.
  - unfold to_ascii_lowercase. rewrite <-(String.string_of_list_ascii_of_string s) at 1. f_equal. f_equal.
    symmetry. rewrite <-(list_fmap_id (String.list_ascii_of_string s)) at 2. apply list_fmap_ext. intros i c Hc. apply canonical_byte_fixed, Hall.
    by eapply list_elem_of_lookup_2.
Qed.

(** ** The signed bytes *)
Definition naddr_typed (a : Naddr) : Prop := naddr_wf a ∧ (Z.of_nat (length (na_pos a)) < 2 ^ 32)%Z.

Definition target_typed (t : SnsdTarget) : Prop := match t with Address a => naddr_typed a | Alias h => hostname_wf h end.

Record record_typed (r : SnsdRecord) : Prop := mkRecordTyped {
  tr_service : (0 ≤ sr_service r < 65536)%Z;
  tr_priority : is_u8 (sr_priority r);
  tr_weight : (0 ≤ sr_weight r ≤ MAX_WEIGHT)%Z;
  tr_target : target_typed (sr_target r)
}.

Record request_typed `{Crypto} (q : RegisterRequest) : Prop := mkRequestTyped {
  tq_hostname : hostname_wf (rq_hostname q);
  tq_naddr : naddr_typed (rq_owner_naddr q);
  tq_sequence : is_u64 (rq_sequence q);
  tq_timestamp : is_u64 (rq_timestamp_unix q);
  tq_priority : is_u8 (rq_zero_priority q);
  tq_weight : (0 ≤ rq_zero_weight q ≤ MAX_WEIGHT)%Z;
  tq_records : Forall record_typed (rq_snsd_records q);
  tq_count : (Z.of_nat (length (rq_snsd_records q)) < 2 ^ 32)%Z;
  tq_signature : length (rq_signature q) = 64
}.

Lemma length_words n (l : list Z) : length (concat (to_le_bytes n <$> l)) = n * length l.
Proof. induction l as [|x l IH]; cbn; [lia|]. rewrite length_app, to_le_bytes_length, IH. lia. Qed.

Lemma words_inj n (l l' rest rest' : list Z) :
  Forall (λ v, 0 ≤ v < 256 ^ Z.of_nat n)%Z l → Forall (λ v, 0 ≤ v < 256 ^ Z.of_nat n)%Z l' → length l = length l' →
  concat (to_le_bytes n <$> l) ++ rest = concat (to_le_bytes n <$> l') ++ rest' → l = l' ∧ rest = rest'.
Proof.
  intros Hl Hl' Hlen Heq. apply app_inj_1 in Heq as [Hw ->]; [|by rewrite !length_words, Hlen]. split; [|done]. by eapply le_words_inj.
Qed.

Lemma word_inj n v v' (rest rest' : list Z) :
  (0 ≤ v < 256 ^ Z.of_nat n)%Z → (0 ≤ v' < 256 ^ Z.of_nat n)%Z → to_le_bytes n v ++ rest = to_le_bytes n v' ++ rest' → v = v' ∧ rest = rest'.
Proof. intros Hv Hv' Heq. apply app_inj_1 in Heq as [Hw ->]; [|by rewrite !to_le_bytes_length]. split; [|done]. by eapply to_le_bytes_inj. Qed.

Lemma name_bytes_short h : hostname_wf h → (Z.of_nat (length (as_bytes (hn_str h))) < 2 ^ 32)%Z.
Proof. intros (_ & Hlen & _). unfold as_bytes. rewrite length_fmap, length_list_ascii. unfold MAX_LEN in Hlen. lia. Qed.

Lemma is_u32_word v : is_u32 v → (0 ≤ v < 256 ^ Z.of_nat 4)%Z.
Proof. unfold is_u32, U32_MAX. cbn. lia. Qed.
Lemma is_u64_word v : is_u64 v → (0 ≤ v < 256 ^ Z.of_nat 8)%Z.
Proof. unfold is_u64, U64_MAX. cbn. lia. Qed.

(** A target delimits itself. *)
Lemma encode_target_inj t t' rest rest' :
  target_typed t → target_typed t' → encode_target t ++ rest = encode_target t' ++ rest' → t = t' ∧ rest = rest'.
Proof.
  intros Ht Ht'. destruct t as [[tp ps]|h], t' as [[tp' ps']|h']; cbn [encode_target]; intros Heq; rewrite <-!app_assoc in Heq;
    (apply app_inj_1 in Heq as [Htag Heq]; [|done]); try discriminate Htag.
  - destruct Ht as [(Htop & Hlen & Hp) Hs], Ht' as [(Htop' & Hlen' & Hp') Hs']. cbn [na_pos na_topology] in *.
    apply app_inj_1 in Heq as [Hn Heq]; [|unfold len_prefix; by rewrite !to_le_bytes_length]. apply len_prefix_inj in Hn; [|done..].
    destruct tp as [gs], tp' as [gs']. destruct Htop as [_ Hg], Htop' as [_ Hg']. unfold topology_levels in *. cbn [gsizes] in *.
    apply words_inj in Heq as [<- Heq]; [|eapply Forall_impl; [eassumption|]; cbn; intros g Hgg; apply is_u32_word; unfold is_u32; lia..|congruence].
    apply words_inj in Heq as [<- <-]; [done|eapply Forall_impl; [eassumption|]; apply is_u32_word..|done].
  - apply framed_inj in Heq as [Hb <-]; [|by apply name_bytes_short..]. apply as_bytes_inj in Hb. destruct h, h'. cbn in Hb. by subst.
Qed.

Lemma encode_record_inj r r' rest rest' :
  record_typed r → record_typed r' → encode_record r ++ rest = encode_record r' ++ rest' → r = r' ∧ rest = rest'.
Proof.
  intros [Hs _ _ Ht] [Hs' _ _ Ht'] Heq. unfold encode_record in Heq. rewrite <-!app_assoc in Heq.
  apply word_inj in Heq as [H1 Heq]; [|cbn; lia..]. cbn [app] in Heq. injection Heq as H2 H3 Heq.
  apply encode_target_inj in Heq as [H4 <-]; [|done..]. destruct r, r'; cbn in *; by subst.
Qed.

Lemma encode_records_inj l l' :
  Forall record_typed l → Forall record_typed l' → length l = length l' → concat (encode_record <$> l) = concat (encode_record <$> l') → l = l'.
Proof.
  intros Hl. revert l'. induction Hl as [|r l Hr Hl IH]; intros [|r' l'] Hl' Hlen Heq; [done..|].
  apply Forall_cons in Hl' as [Hr' Hl']. rewrite !fmap_cons in Heq. cbn [concat] in Heq. injection Hlen as Hlen. apply encode_record_inj in Heq as [-> Heq]; [|done..]. f_equal. by apply IH.
Qed.

Lemma signing_bytes_inj `{Crypto} q q' :
  request_typed q → request_typed q' → register_signing_bytes q = register_signing_bytes q' → q' = with_signature q (rq_signature q').
Proof.
  intros Hq Hq' Heq. unfold register_signing_bytes in Heq. cbv zeta in Heq.
  apply framed_inj in Heq as [Hname Heq]; [|by apply name_bytes_short, tq_hostname..]. apply as_bytes_inj in Hname.
  apply app_inj_1 in Heq as [Hkey Heq]; [|by rewrite !vk_to_bytes_length]. apply (f_equal vk_from_bytes) in Hkey. rewrite !vk_from_to_bytes in Hkey.
  apply encode_target_inj in Heq as [Haddr Heq]; [|apply tq_naddr; assumption..].
  apply word_inj in Heq as [Hseq Heq]; [|apply is_u64_word, tq_sequence; assumption..].
  apply word_inj in Heq as [Hts Heq]; [|apply is_u64_word, tq_timestamp; assumption..].
  apply app_inj_1 in Heq as [Hpw Heq]; [|done]. injection Hpw as Hpr Hw.
  apply app_inj_1 in Heq as [Hn Heq]; [|unfold len_prefix; by rewrite !to_le_bytes_length]. apply len_prefix_inj in Hn; [|apply tq_count; assumption..].
  apply encode_records_inj in Heq; [|apply tq_records; assumption..|done].
  destruct q as [[] ? ? ? ? ? ? ? ?], q' as [[] ? ? ? ? ? ? ? ?]. unfold with_signature. cbn in *. congruence.
Qed.

(** A signature covers a registration entirely.  What [sign] makes verifies, and two
    registrations signed over the same bytes agree on the name, the key, the address,
    the sequence, the timestamp, the zero record and every SNSD record: no field can be
    moved into another, altered or added under a signature that stays valid. *)
Theorem signature_covers_registration `{Crypto} q q' :
  request_typed q → request_typed q' →
  (∀ sk, rq_owner_key q = verifying_key sk → rq_signature q = ed_sign sk (register_signing_bytes q) → register_verify q = Ok tt) ∧
  (register_signing_bytes q' = register_signing_bytes q → q' = with_signature q (rq_signature q')).
Proof.
  intros Hq Hq'. split; [|intros Heq; by apply signing_bytes_inj].
  intros sk Hk Hs. unfold register_verify. by rewrite Hk, Hs, ed_verify_sign.
Qed.

(** ** Messages *)
#[local] Arguments naddr_from_wire : simpl never.
#[local] Arguments naddr_to_wire : simpl never.
#[local] Arguments hostname_new : simpl never.
#[local] Arguments narrow : simpl never.
#[local] Arguments weight_from_wire : simpl never.

Lemma narrow_Ok bound field v : (v < bound)%Z → narrow bound field v = Ok v.
Proof. intros Hv. unfold narrow. by destruct (Z.ltb_spec v bound); [|lia]. Qed.

Lemma weight_wire v field : (0 ≤ v ≤ MAX_WEIGHT)%Z → weight_from_wire v field = Ok v.
Proof. unfold weight_from_wire, MAX_WEIGHT. intros Hv. rewrite narrow_Ok by lia. cbn. by destruct (Z.ltb_spec 127 v); [lia|]. Qed.

Lemma sized_Ok what n l : length l = n → sized what n l = Ok l.
Proof. intros <-. unfold sized. by rewrite Nat.eqb_refl. Qed.

Lemma key_wire `{Crypto} k : key_from_wire (vk_to_bytes k) = Ok k.
Proof. unfold key_from_wire. rewrite sized_Ok by apply vk_to_bytes_length. cbn. by rewrite vk_from_to_bytes. Qed.

Lemma snsd_record_wire r : record_typed r → snsd_record_from_wire (snsd_record_to_wire r) = Ok r.
Proof.
  intros [Hs Hp Hw Ht]. unfold snsd_record_from_wire, snsd_record_to_wire, is_u8 in *. cbn.
  assert (target_from_wire match sr_target r with Address a => WTAddress [naddr_to_wire a] | Alias h => WTHostname (hn_str h) end = Ok (sr_target r)) as ->.
  { destruct (sr_target r) as [a|h]; cbn; [destruct Ht as [Ha _]; by rewrite naddr_wire_roundtrip|by rewrite hostname_new_canonical]. }
  cbn. rewrite !narrow_Ok by lia. cbn. rewrite weight_wire by done. cbn. by destruct r.
Qed.

Lemma snsd_records_wire l : Forall record_typed l → mapM snsd_record_from_wire (snsd_record_to_wire <$> l) = Ok l.
Proof. induction 1 as [|r l Hr _ IH]; [done|]. rewrite fmap_cons. cbn [mapM]. rewrite snsd_record_wire by done. cbn. by rewrite IH. Qed.

Lemma register_request_wire `{Crypto} q : request_typed q → register_request_from_wire (register_request_to_wire q) = Ok q.
Proof.
  intros [Hh [Ha _] _ _ Hp Hw Hr _ Hs]. unfold register_request_from_wire, register_request_to_wire, is_u8 in *. cbn.
  rewrite naddr_wire_roundtrip by done. cbn. rewrite hostname_new_canonical by done. cbn.
  rewrite key_wire. cbn [mbind res_bind]. rewrite narrow_Ok by lia.
  cbn [mbind res_bind]. rewrite weight_wire by done. cbn [mbind res_bind]. rewrite snsd_records_wire by done. cbn. unfold signature_from_wire. rewrite sized_Ok by done. cbn. by destruct q.
Qed.

Section RoundTrip.
Context `{Crypto}
  `{ProstMessage WireRegisterRequest, ProstMessage WireRegisterReply, ProstMessage WireResolveRequest, ProstMessage WireResolveReply,
    ProstMessage WireCounterRequest, ProstMessage WireCounterReply}.

Lemma unpack_register q : request_typed q → unpack_register_request (pack_register_request q) = Ok q.
Proof. intros Hq. unfold unpack_register_request, pack_register_request. rewrite from_typed_value_typed_value. cbn. by apply register_request_wire. Qed.

Lemma unpack_resolve h service : hostname_wf h → (0 ≤ service < 65536)%Z → unpack_resolve_request (pack_resolve_request h service) = Ok (h, service).
Proof.
  intros Hh Hs. unfold unpack_resolve_request, pack_resolve_request. rewrite from_typed_value_typed_value. cbn.
  rewrite hostname_new_canonical by done. cbn. by rewrite narrow_Ok by lia.
Qed.

Lemma unpack_records l : Forall record_typed l → unpack_resolve_reply (pack_resolve_reply l) = Ok l.
Proof. intros Hl. unfold unpack_resolve_reply, pack_resolve_reply. rewrite from_typed_value_typed_value. cbn. by apply snsd_records_wire. Qed.

Lemma unpack_outcome text r : unpack_register_reply (pack_register_reply text r) = Ok match r with inl o => inl o | inr e => inr (text e) end.
Proof. unfold unpack_register_reply, pack_register_reply. rewrite from_typed_value_typed_value. by destruct r as [[]|]. Qed.

Lemma unpack_count text r :
  (∀ n, r = inl n → (Z.of_nat n < 2 ^ 32)%Z) →
  unpack_counter_reply (pack_counter_reply text r) = Ok match r with inl n => inl n | inr e => inr (text e) end.
Proof.
  intros Hn. unfold unpack_counter_reply, pack_counter_reply. rewrite from_typed_value_typed_value. destruct r as [n|]; cbn; [|done].
  rewrite Z.mod_small by (specialize (Hn n eq_refl); lia). by rewrite Nat2Z.id.
Qed.
End RoundTrip.

(** ** From registration to resolution *)
Section EndToEnd.
Context `{Crypto} {R : Type} `{Rng R}
  `{ProstMessage WireRegisterRequest, ProstMessage WireRegisterReply, ProstMessage WireResolveRequest, ProstMessage WireResolveReply,
    ProstMessage WireCounterRequest, ProstMessage WireCounterReply}.
Context (texts : AndnaTexts).
#[local] Instance loop_sub : Substrate (Loopback R) := loopback_substrate texts.

(** The same node at another time. *)
Definition later (w : Loopback R) (l : list (R * AndnaCmd)) (now : Z) (rng : R) : Loopback R :=
  mkLoopback (lb_topology w) (lb_my_pos w) (andna_run (lb_state w) l).1 rng now.

Lemma andna_call_config running s (rng : R) cmd : as_config (andna_call running s rng cmd).1 = as_config s.
Proof.
  unfold andna_call. destruct running; [|done]. pose proof (andna_handle_config s rng cmd) as Hc. destruct (andna_handle s rng cmd) as [[s' e] r]. done.
Qed.

Lemma exec_config running s (rng : R) now request client :
  as_config (andna_exec texts running s rng now request).1 = as_config s ∧
  as_config (counter_exec texts running s rng now request client).1 = as_config s.
Proof.
  unfold andna_exec, counter_exec. split.
  - destruct (bool_decide _); [|destruct (bool_decide _); [|done]].
    + destruct (unpack_register_request request) as [q|?|]; [|done..]. rewrite <-(andna_call_config running s rng (CmdRegister q now)).
      destruct (andna_call _ _ _ _) as [s' [[[]| | |]|]]; done.
    + destruct (unpack_resolve_request request) as [[h service]|?|]; [|done..]. rewrite <-(andna_call_config running s rng (CmdResolve h service now)).
      destruct (andna_call _ _ _ _) as [s' [[|[]| |]|]]; done.
  - destruct (bool_decide _); [|done]. destruct (unpack_counter_request request) as [hash|?|]; [|done..].
    rewrite <-(andna_call_config running s rng (CmdCounterReserve client hash now)). destruct (andna_call _ _ _ _) as [s' [[| |[]|]|]]; done.
Qed.

Lemma loopback_frame w p request :
  let w' := (loopback_contact texts w p request).1 in
  lb_topology w' = lb_topology w ∧ lb_now w' = lb_now w ∧ lb_rng w' = lb_rng w ∧ as_config (lb_state w') = as_config (lb_state w).
Proof.
  unfold loopback_contact. destruct (exec_config true (lb_state w) (lb_rng w) (lb_now w) request []) as [Ha Hc].
  destruct (p =? andna_service_id)%Z; [destruct (andna_exec _ _ _ _ _ _)|destruct (counter_exec _ _ _ _ _ _ _)]; done.
Qed.

Lemma loopback_register w q :
  request_typed q →
  let '(s', _, reply) := andna_handle (lb_state w) (lb_rng w) (CmdRegister q (lb_now w)) in
  lb_state (loopback_contact texts w andna_service_id (pack_register_request q)).1 = s' ∧
  (loopback_contact texts w andna_service_id (pack_register_request q)).2 =
    match reply with
    | ReplyRegister (Ok o) => Ok (pack_register_reply (tx_rejected texts) (inl o))
    | ReplyRegister (Err e) => Ok (pack_register_reply (tx_rejected texts) (inr e))
    | _ => Err NoParticipants
    end.
Proof.
  intros Hq. unfold loopback_contact. rewrite Z.eqb_refl. unfold andna_exec. rewrite bool_decide_true by done. rewrite unpack_register by done.
  unfold andna_call. destruct (andna_handle _ _ _) as [[s' e] reply]. by destruct reply as [[]| | |].
Qed.

Lemma loopback_resolve w h service l rng' :
  hostname_wf h → (0 ≤ service < 65536)%Z → cache_resolve (as_cache (lb_state w)) h service (lb_now w) (lb_rng w) = (Ok (l, rng') : res ExecError _) →
  loopback_contact texts w andna_service_id (pack_resolve_request h service) =
    (mkLoopback (lb_topology w) (lb_my_pos w) (lb_state w) (lb_rng w) (lb_now w), Ok (pack_resolve_reply l)).
Proof.
  intros Hh Hs Hl. unfold loopback_contact. rewrite Z.eqb_refl. unfold andna_exec. rewrite bool_decide_false by done. rewrite bool_decide_true by done.
  rewrite unpack_resolve by done. unfold andna_call. cbn. by rewrite Hl.
Qed.

Lemma handle_resolve_loopback config (w : Loopback R) h service l rng' target :
  hostname_wf h → (0 ≤ service < 65536)%Z → Forall record_typed l →
  (hash_to_tuple (lb_topology w) (hash_route_key (hostname_hash h)) : res AndnaError _) = Ok target →
  cache_resolve (as_cache (lb_state w)) h service (lb_now w) (lb_rng w) = (Ok (l, rng') : res ExecError _) →
  ∃ w', handle_resolve config w h service = (w', Ok l).
Proof.
  intros Hh Hs Hl Ht Hc. unfold handle_resolve. cbn [sub_topology loopback_substrate loop_sub]. rewrite Ht.
  cbn [sub_contact_peer loopback_substrate loop_sub]. rewrite (loopback_resolve w h service l rng') by done. cbn [map_err mbind res_bind].
  rewrite unpack_records by done. destruct l as [|x l]; cbn; [|by eexists].
  rewrite (loopback_resolve (mkLoopback _ _ _ _ _) h service [] rng') by done. cbn. rewrite unpack_records by done. by eexists.
Qed.

Lemma register_loopback config (w w' : Loopback R) q o :
  request_typed q → handle_register config w q = (w', Ok o) →
  ∃ s target, as_config s = as_config (lb_state w) ∧
    (hash_to_tuple (lb_topology w') (hash_route_key (hostname_hash (rq_hostname q))) : res AndnaError _) = Ok target ∧
    ∃ evs, andna_handle s (lb_rng w) (CmdRegister q (lb_now w)) = (lb_state w', evs, ReplyRegister (Ok o)).
Proof.
  intros Hq Hr. unfold handle_register in Hr. destruct (register_verify q) as [[]|?|]; [|done..].
  assert (∀ w1 r, reserve_capacity config w q = (w1, r) →
    lb_topology w1 = lb_topology w ∧ lb_now w1 = lb_now w ∧ lb_rng w1 = lb_rng w ∧ as_config (lb_state w1) = as_config (lb_state w)) as Hframe.
  { intros w1 r Hw. unfold reserve_capacity in Hw. destruct (hash_to_tuple _ _); simplify_eq; [|done..].
    cbn [sub_contact_peer loopback_substrate loop_sub] in Hw. pose proof (loopback_frame w counter_service_id (pack_counter_request (hostname_hash (rq_hostname q)))) as Hf.
    destruct (loopback_contact _ _ _ _). by simplify_eq/=. }
  destruct (reserve_capacity config w q) as [w1 [[]|?|]]; [|done..]. destruct (Hframe _ _ eq_refl) as (Ht & Hn & Hg & Hc). clear Hframe.
  unfold replicate_registration in Hr. cbn [sub_topology loopback_substrate loop_sub] in Hr. destruct (hash_to_tuple (lb_topology w1) _) as [target|?|] eqn:Htarget; [|done..].
  cbn [sub_replicate loopback_substrate loop_sub] in Hr. pose proof (loopback_register w1 q Hq) as Hreg. pose proof (loopback_frame w1 andna_service_id (pack_register_request q)) as Hf.
  destruct (loopback_contact _ _ _ _) as [w2 reply]. cbn [fst snd] in *. destruct (andna_handle _ _ _) as [[s' evs] rep] eqn:Hh.
  destruct Hreg as [Hs' ->]. rewrite Hn, Hg in Hh. exists (lb_state w1), target. destruct rep as [[o'|e|]| | |]; cbn in Hr; try done.
  all: rewrite unpack_outcome in Hr; cbn in Hr; simplify_eq. split_and!; [done|by rewrite (proj1 Hf)|by eexists].
Qed.

(** The converse: what the two services accept one after the other, the client gets. *)
Lemma register_loopback_intro config (w : Loopback R) q s1 e1 n s2 e2 o ct target :
  request_typed q → register_verify q = Ok tt → (Z.of_nat n < 2 ^ 32)%Z →
  (hash_to_tuple (lb_topology w) (counter_route_key (lb_my_pos w)) : res AndnaError _) = Ok ct →
  (hash_to_tuple (lb_topology w) (hash_route_key (hostname_hash (rq_hostname q))) : res AndnaError _) = Ok target →
  andna_handle (lb_state w) (lb_rng w) (CmdCounterReserve [] (hostname_hash (rq_hostname q)) (lb_now w)) = (s1, e1, ReplyCounter (Ok n)) →
  andna_handle s1 (lb_rng w) (CmdRegister q (lb_now w)) = (s2, e2, ReplyRegister (Ok o)) →
  handle_register config w q = (mkLoopback (lb_topology w) (lb_my_pos w) s2 (lb_rng w) (lb_now w), Ok o).
Proof.
  intros Hq Hv Hn Hct Htarget H1' H2'. unfold handle_register. rewrite Hv. unfold reserve_capacity. cbn [sub_topology sub_my_pos loopback_substrate loop_sub].
  rewrite Hct. cbn [sub_contact_peer loopback_substrate loop_sub].
  assert (loopback_contact texts w counter_service_id (pack_counter_request (hostname_hash (rq_hostname q))) =
    (mkLoopback (lb_topology w) (lb_my_pos w) s1 (lb_rng w) (lb_now w), Ok (pack_counter_reply (tx_counter texts) (inl n)))) as ->.
  { unfold loopback_contact. change (counter_service_id =? andna_service_id)%Z with false. cbv iota. unfold counter_exec. rewrite bool_decide_true by done.
    unfold unpack_counter_request, pack_counter_request. rewrite from_typed_value_typed_value. cbn [map_err mbind res_bind wc_hostname_hash].
    rewrite sized_Ok by apply blake3_length. unfold andna_call. by rewrite H1'. }
  cbn [map_err mbind res_bind]. rewrite unpack_count by (intros n' [= <-]; done). cbn [map_err mbind res_bind].
  unfold replicate_registration. cbn [sub_topology loopback_substrate loop_sub lb_topology]. rewrite Htarget. cbn [sub_replicate loopback_substrate loop_sub].
  pose proof (loopback_register (mkLoopback (lb_topology w) (lb_my_pos w) s1 (lb_rng w) (lb_now w)) q Hq) as Hreg. cbn [lb_state lb_rng lb_now] in Hreg. rewrite H2' in Hreg.
  pose proof (loopback_frame (mkLoopback (lb_topology w) (lb_my_pos w) s1 (lb_rng w) (lb_now w)) andna_service_id (pack_register_request q)) as Hf.
  assert (lb_my_pos (loopback_contact texts (mkLoopback (lb_topology w) (lb_my_pos w) s1 (lb_rng w) (lb_now w)) andna_service_id (pack_register_request q)).1 = lb_my_pos w) as Hpos.
  { unfold loopback_contact. rewrite Z.eqb_refl. by destruct (andna_exec _ _ _ _ _ _). }
  destruct (loopback_contact _ _ _ _) as [[t p s3 g3 n3] reply]. cbn in Hreg, Hf, Hpos. destruct Hreg as [-> ->], Hf as (-> & -> & -> & _). subst p. cbn.
  rewrite unpack_outcome. done.
Qed.

Lemma build_snsd_records q ps tot t (P : SnsdRecord → Prop) :
  build_snsd q ps tot = Ok t → P (mkSnsdRecord ZERO_SERVICE (rq_zero_priority q) (rq_zero_weight q) (Address (rq_owner_naddr q))) →
  Forall P (rq_snsd_records q) → ∀ svc b, st_by_service t !! svc = Some b → Forall P b.
Proof.
  unfold build_snsd. rewrite set_zero_new. cbn -[foldM]. intros Hf Hz Hr.
  refine (foldM_inv _ (λ pre t, ∀ svc b, st_by_service t !! svc = Some b → Forall P b) _ _ _ _ _ Hf).
  - cbn [st_by_service]. intros svc b [<- <-]%lookup_singleton_Some. by repeat constructor.
  - intros pre r t1 t2 [rest Hl] Ht1 Hi svc b Hb. rewrite Hl in Hr. apply Forall_app in Hr as [[_ [Hr _]%Forall_cons]%Forall_app _].
    unfold snsd_insert in Hi. destruct (tot <=? st_total t1); cbn in Hi; [done|]. destruct (ps <=? _); cbn in Hi; [done|]. simplify_eq. cbn in Hb.
    apply lookup_insert_Some in Hb as [[<- <-]|[_ Hb]]; [|by eapply Ht1]. apply Forall_app. split; [|by repeat constructor].
    destruct (st_by_service t1 !! sr_service r) eqn:He; [by eapply Ht1|constructor].
Qed.

Lemma retain_none {A} (f : A → bool) l : (∀ x, x ∈ l → f x = false) → retain f l = [].
Proof.
  induction l as [|x l IH]; intros Hf; [done|]. unfold retain in *. cbn. rewrite (Hf x) by (by left). apply IH. intros y Hy. apply Hf. by right.
Qed.

(** The records a request carries for a service; its address record when it
    carries none. *)
Definition request_records q (service : Z) : list SnsdRecord :=
  match retain (λ r, sr_service r =? service)%Z (rq_snsd_records q) with
  | [] => [mkSnsdRecord ZERO_SERVICE (rq_zero_priority q) (rq_zero_weight q) (Address (rq_owner_naddr q))]
  | l => l
  end.

Lemma build_snsd_buckets q ps tot t :
  names_zero_service (rq_snsd_records q) = false → build_snsd q ps tot = Ok t →
  ∀ service, default [] (st_by_service t !! service) =
    if (service =? ZERO_SERVICE)%Z then [mkSnsdRecord ZERO_SERVICE (rq_zero_priority q) (rq_zero_weight q) (Address (rq_owner_naddr q))]
    else retain (λ r, sr_service r =? service)%Z (rq_snsd_records q).
Proof.
  unfold build_snsd, names_zero_service. rewrite set_zero_new, any_false. cbn -[foldM]. intros Hz Hf.
  refine (foldM_inv _ (λ pre t, ∀ service, default [] (st_by_service t !! service) =
    if (service =? ZERO_SERVICE)%Z then [mkSnsdRecord ZERO_SERVICE (rq_zero_priority q) (rq_zero_weight q) (Address (rq_owner_naddr q))]
    else retain (λ r, sr_service r =? service)%Z pre) _ _ _ _ _ Hf).
  - intros service. cbn [st_by_service]. destruct (Z.eqb_spec service ZERO_SERVICE) as [->|Hne]; [done|].
    match goal with |- default [] ?o = _ => destruct o as [b|] eqn:E; [by apply lookup_singleton_Some in E as [<- _]|done] end.
  - intros pre r t1 t2 [rest Hl] Ht1 Hi service. unfold snsd_insert in Hi. destruct (tot <=? st_total t1); cbn in Hi; [done|].
    destruct (ps <=? _); cbn in Hi; [done|]. injection Hi as <-. cbn [st_by_service].
    assert (sr_service r ≠ ZERO_SERVICE) as Hr.
    { apply Z.eqb_neq, Hz. rewrite Hl. rewrite !elem_of_app, elem_of_cons. tauto. }
    unfold retain in *. rewrite List.filter_app. cbn [List.filter]. specialize (Ht1 service).
    destruct (Z.eqb_spec (sr_service r) service) as [<-|Hs].
    + rewrite lookup_insert_eq. cbn [default]. rewrite (proj2 (Z.eqb_neq _ _) Hr) in *. by rewrite Ht1.
    + rewrite lookup_insert_ne by done. by rewrite app_nil_r, Ht1.
Qed.

Lemma build_snsd_exact q ps tot t service :
  names_zero_service (rq_snsd_records q) = false → build_snsd q ps tot = Ok t → service_records t service = request_records q service.
Proof.
  intros Hz Hb. pose proof (build_snsd_buckets q ps tot t Hz Hb) as Hall. pose proof (Hall service) as Hs. pose proof (Hall ZERO_SERVICE) as Hz0.
  rewrite Z.eqb_refl in Hz0. unfold service_records, snsd_lookup, request_records.
  destruct (Z.eqb_spec service ZERO_SERVICE) as [->|Hne].
  - rewrite (retain_none (λ r, sr_service r =? ZERO_SERVICE)%Z); [|unfold names_zero_service in Hz; by apply any_false].
    destruct (st_by_service t !! ZERO_SERVICE) as [[|x b]|]; exact Hz0.
  - rewrite <-Hs. destruct (st_by_service t !! service) as [[|x b]|]; cbn [default]; done.
Qed.

(** A record stays as it is while it has not expired and its name is not registered
    again. *)
Lemma record_kept (s : AndnaState) (l : list (R * AndnaCmd)) h r :
  as_cache s !! h = Some r →
  Forall (λ c, (cmd_now c.2 < hr_expires_at r)%Z ∧ ∀ q now, c.2 = CmdRegister q now → rq_hostname q ≠ h) l →
  as_cache (andna_run s l).1 !! h = Some r.
Proof.
  intros Hr Hl. revert s Hr. induction Hl as [|[rng cmd] l [Hn Hq] Hl IH]; intros s Hr; [done|]. rewrite andna_run_cons. cbn [fst snd] in *.
  apply IH. pose proof (cache_step s rng cmd) as Hst. destruct (andna_handle s rng cmd) as [[s' evs] reply]. cbn [fst].
  destruct cmd as [q now|h' service now|reg hash now|now].
  - destruct Hst as [(o & r' & _ & _ & ->)|(x & _ & _ & ->)]; [|done]. rewrite lookup_insert_ne; [done|]. by eapply Hq.
  - by destruct Hst as [_ ->].
  - by destruct Hst as [_ ->].
  - destruct Hst as [_ ->]. apply map_lookup_filter_Some. split; [done|]. by apply is_expired_false.
Qed.

Lemma resolve_registered (s s1 : AndnaState) rng0 t0 q evs o (cmds : list (R * AndnaCmd)) service :
  request_typed q → (Z.of_nat (1 `max` an_max_snsd_records_total (as_config s)) * 255 ≤ U32_MAX)%Z →
  andna_handle s rng0 (CmdRegister q t0) = (s1, evs, ReplyRegister (Ok o)) →
  Forall (λ c, (cmd_now c.2 < t0 + as_secs (an_name_ttl (as_config s)))%Z ∧
    ∀ q' now, c.2 = CmdRegister q' now → rq_hostname q' ≠ rq_hostname q) cmds →
  ∀ now rng, (now < t0 + as_secs (an_name_ttl (as_config s)))%Z →
  ∃ l rng', Forall record_typed l ∧
    cache_resolve (as_cache (andna_run s1 cmds).1) (rq_hostname q) service now (rng : R) = (Ok (l, rng') : res ExecError _) ∧
    l ≡ₚ retain is_enabled (request_records q service) ∧ StronglySorted (λ a b, sr_priority b ≤ sr_priority a)%Z l.
Proof.
  intros Hq Htot Hh Hcmds now rng Hnow. pose proof (cache_step s rng0 (CmdRegister q t0)) as Hst. rewrite Hh in Hst.
  destruct Hst as [(o' & r & [= <-] & Hacc & Hc)|(x & [= <-] & Hn & _)]; [|naive_solver]. pose proof (aa_snsd _ _ _ _ _ Hacc) as Hb.
  destruct (check_request_Ok _ _ _ _ (aa_checked _ _ _ _ _ Hacc)) as (_ & Hzero & _).
  pose proof (build_snsd_ok q _ _ _ Hzero Hb) as Hok. pose proof (build_snsd_exact q _ _ _ service Hzero Hb) as Hex.
  assert (Forall record_typed (service_records (hr_snsd r) service) ∧ (Z.of_nat (length (service_records (hr_snsd r) service)) * 255 ≤ U32_MAX)%Z) as [Hty Hlen].
  { assert (∀ svc b, st_by_service (hr_snsd r) !! svc = Some b → Forall record_typed b ∧ (Z.of_nat (length b) * 255 ≤ U32_MAX)%Z) as Hall.
    { intros svc b Hsb. split.
      - eapply (build_snsd_records q _ _ _ record_typed Hb); [|apply tq_records; done|done]. destruct Hq. by split.
      - destruct Hok as [Htt Hm _ _]. pose proof (bucket_le_total _ _ _ Hsb). lia. }
    unfold service_records, snsd_lookup. destruct (st_by_service (hr_snsd r) !! service) as [[|x b]|] eqn:Hsv; cbn; [|by eapply Hall|].
    all: destruct (st_by_service (hr_snsd r) !! ZERO_SERVICE) eqn:Hz0; cbn; [by eapply Hall|split; [constructor|unfold U32_MAX; lia]]. }
  destruct (resolve_spec (E:=ExecError) (hr_snsd r) service rng) as (l & rng' & Hl & Hp & Hs); [|done|].
  { eapply Forall_impl; [exact Hty|]. intros x [_ _ Hw _]. unfold MAX_WEIGHT in Hw. lia. }
  exists l, rng'. rewrite <-Hex. split_and!; [| |done|done].
  - apply Forall_forall. intros x Hx. rewrite Hp in Hx. apply elem_of_retain in Hx as [Hx _]. rewrite Forall_forall in Hty. by apply Hty.
  - unfold cache_resolve. rewrite (record_kept s1 cmds (rq_hostname q) r); [|by rewrite Hc, lookup_insert_eq|by rewrite (aa_expires _ _ _ _ _ Hacc)].
    rewrite (proj2 (is_expired_false r now)); [done|]. by rewrite (aa_expires _ _ _ _ _ Hacc).
Qed.
End EndToEnd.

(** C22: a registered name resolves to what it was registered with.  On the loopback
    substrate, a network of one node that is the hash node of every name: when a client's
    registration succeeds, through the counter, the packing of the request, the hash node
    and the reply, then until the name expires, whatever the node handles in between that
    does not register the name again, a resolve of any service through the same path
    succeeds too.  It returns exactly the records of the request for the service whose
    weight is not zero, or its address record when the request has none for the service,
    higher priorities first. *)
Theorem registered_name_resolves `{Crypto} {R} `{Rng R}
  `{ProstMessage WireRegisterRequest, ProstMessage WireRegisterReply, ProstMessage WireResolveRequest, ProstMessage WireResolveReply,
    ProstMessage WireCounterRequest, ProstMessage WireCounterReply} texts config (w w' : Loopback R) q o
    (cmds : list (R * AndnaCmd)) service now rng :
  let node := as_config (lb_state w) in
  let expiry := (lb_now w + as_secs (an_name_ttl node))%Z in
  request_typed q → (0 ≤ service < 65536)%Z → (Z.of_nat (1 `max` an_max_snsd_records_total node) * 255 ≤ U32_MAX)%Z →
  handle_register (H0 := loopback_substrate texts) config w q = (w', Ok o) →
  Forall (λ c, (cmd_now c.2 < expiry)%Z ∧ ∀ q' now', c.2 = CmdRegister q' now' → rq_hostname q' ≠ rq_hostname q) cmds →
  (now < expiry)%Z →
  ∃ l w'', handle_resolve (H0 := loopback_substrate texts) config (later w' cmds now rng) (rq_hostname q) service = (w'', Ok l) ∧
    l ≡ₚ retain (λ r, 0 <? sr_weight r)%Z
           (match retain (λ r, sr_service r =? service)%Z (rq_snsd_records q) with
            | [] => [mkSnsdRecord ZERO_SERVICE (rq_zero_priority q) (rq_zero_weight q) (Address (rq_owner_naddr q))]
            | records => records
            end) ∧
    StronglySorted (λ a b, sr_priority b ≤ sr_priority a)%Z l.
Proof.
  intros node expiry Hq Hs Htot Hr Hcmds Hnow. destruct (register_loopback texts config w w' q o Hq Hr) as (s & target & Hcfg & Htarget & evs & Hh).
  destruct (resolve_registered s (lb_state w') (lb_rng w) (lb_now w) q evs o cmds service Hq) with (now := now) (rng := rng)
    as (l & rng' & Hty & Hl & Hp & Hsort); [by rewrite Hcfg|done|by rewrite Hcfg|by rewrite Hcfg|].
  destruct (handle_resolve_loopback texts config (later w' cmds now rng) (rq_hostname q) service l rng' target) as [w'' Hres];
    [by apply tq_hostname|done|done|done|done|]. by exists l, w''.
Qed.

(** ** Witnesses *)
Definition web_record : SnsdRecord := mkSnsdRecord 80 3 5 (Alias (mkHostname "bob")).

Lemma some_naddr_typed : naddr_typed some_naddr.
Proof.
  split; [|reflexivity]. split_and!; [split; [done|]|reflexivity|]; repeat (apply Forall_cons_2; [unfold is_u32, U32_MAX; cbn; lia|]); apply Forall_nil_2.
Qed.

Lemma alice_request_typed k sequence timestamp :
  is_u64 sequence → is_u64 timestamp → request_typed (H := toy_crypto) (alice_request k sequence timestamp [web_record]).
Proof.
  intros Hs Ht. split; cbn; [| |done|done|unfold is_u8; lia|unfold MAX_WEIGHT; lia| |done|done].
  - split_and!; [done|unfold MAX_LEN; cbn; lia|reflexivity].
  - apply some_naddr_typed.
  - repeat constructor; cbn; try lia; try done.
Qed.

Lemma signature_covers_registration_witness :
  register_verify (H := toy_crypto) (alice_request 7 1 1000 [web_record]) = Ok tt.
Proof.
  refine (proj1 (signature_covers_registration (H := toy_crypto) (alice_request 7 1 1000 [web_record]) (alice_request 7 1 1000 [web_record]) _ _) 7%Z _ _).
  - apply alice_request_typed; unfold is_u64, U64_MAX; lia.
  - apply alice_request_typed; unfold is_u64, U64_MAX; lia.
  - reflexivity.
  - reflexivity.
Defined.

(** The messages are countable, so that the toy encoding of PeerWireProps.v applies. *)
#[local] Instance WireTopology_eq_dec : EqDecision WireTopology.
Proof. solve_decision. Defined.
#[local] Instance WireTopology_countable : Countable WireTopology.
Proof. by apply (inj_countable' wt_gsizes mkWireTopology); intros []. Defined.
#[local] Instance WireNaddr_eq_dec : EqDecision WireNaddr.
Proof. solve_decision. Defined.
#[local] Instance WireNaddr_countable : Countable WireNaddr.
Proof. by apply (inj_countable' (λ w, (wn_topology w, wn_pos w)) (λ p, mkWireNaddr p.1 p.2)); intros []. Defined.
#[local] Instance WireSnsdTarget_eq_dec : EqDecision WireSnsdTarget.
Proof. solve_decision. Defined.
#[local] Instance WireSnsdTarget_countable : Countable WireSnsdTarget.
Proof.
  by apply (inj_countable' (λ w, match w with WTAddress v => inl v | WTHostname n => inr n end)
    (λ s, match s with inl v => WTAddress v | inr n => WTHostname n end)); intros [].
Defined.
#[local] Instance WireSnsdRecord_eq_dec : EqDecision WireSnsdRecord.
Proof. solve_decision. Defined.
#[local] Instance WireSnsdRecord_countable : Countable WireSnsdRecord.
Proof.
  by apply (inj_countable' (λ w, (ws_service w, ws_priority w, ws_weight w, ws_target w)) (λ p, mkWireSnsdRecord p.1.1.1 p.1.1.2 p.1.2 p.2)); intros [].
Defined.
#[local] Instance WireRegisterRequest_eq_dec : EqDecision WireRegisterRequest.
Proof. solve_decision. Defined.
#[local] Instance WireRegisterRequest_countable : Countable WireRegisterRequest.
Proof.
  by apply (inj_countable'
    (λ w, (wr_hostname w, wr_owner_key w, wr_owner_naddr w, (wr_sequence w, wr_timestamp_unix w, wr_zero_priority w), (wr_zero_weight w, wr_snsd_records w, wr_signature w)))
    (λ '(h, k, n, (s, t, p), (z, r, g)), mkWireRegisterRequest h k n s t p z r g)); intros [].
Defined.
#[local] Instance WireRegisterOutcome_eq_dec : EqDecision WireRegisterOutcome.
Proof. solve_decision. Defined.
#[local] Instance WireRegisterReply_eq_dec : EqDecision WireRegisterReply.
Proof. solve_decision. Defined.
#[local] Instance WireRegisterReply_countable : Countable WireRegisterReply.
Proof.
  by apply (inj_countable' (λ w, (λ o, match o with WAccepted e r => inl (e, r) | WRejected s => inr s end) <$> wy_outcome w)
    (λ o, mkWireRegisterReply ((λ s, match s with inl p => WAccepted p.1 p.2 | inr s => WRejected s end) <$> o))); intros [[[]|]].
Defined.
#[local] Instance WireResolveRequest_eq_dec : EqDecision WireResolveRequest.
Proof. solve_decision. Defined.
#[local] Instance WireResolveRequest_countable : Countable WireResolveRequest.
Proof. by apply (inj_countable' (λ w, (wq_hostname w, wq_service w)) (λ p, mkWireResolveRequest p.1 p.2)); intros []. Defined.
#[local] Instance WireResolveReply_eq_dec : EqDecision WireResolveReply.
Proof. solve_decision. Defined.
#[local] Instance WireResolveReply_countable : Countable WireResolveReply.
Proof. by apply (inj_countable' wl_records mkWireResolveReply); intros []. Defined.
#[local] Instance WireCounterRequest_eq_dec : EqDecision WireCounterRequest.
Proof. solve_decision. Defined.
#[local] Instance WireCounterRequest_countable : Countable WireCounterRequest.
Proof. by apply (inj_countable' wc_hostname_hash mkWireCounterRequest); intros []. Defined.
#[local] Instance WireCounterOutcome_eq_dec : EqDecision WireCounterOutcome.
Proof. solve_decision. Defined.
#[local] Instance WireCounterReply_eq_dec : EqDecision WireCounterReply.
Proof. solve_decision. Defined.
#[local] Instance WireCounterReply_countable : Countable WireCounterReply.
Proof.
  by apply (inj_countable' (λ w, (λ o, match o with WReservedCount n => inl n | WDeniedReason s => inr s end) <$> wk_outcome w)
    (λ o, mkWireCounterReply ((λ s, match s with inl n => WReservedCount n | inr s => WDeniedReason s end) <$> o))); intros [[[]|]].
Defined.
#[local] Instance toy_register : ProstMessage WireRegisterRequest := toy_prost 1.
#[local] Instance toy_register_reply : ProstMessage WireRegisterReply := toy_prost 2.
#[local] Instance toy_resolve : ProstMessage WireResolveRequest := toy_prost 3.
#[local] Instance toy_resolve_reply : ProstMessage WireResolveReply := toy_prost 4.
#[local] Instance toy_counter : ProstMessage WireCounterRequest := toy_prost 5.
#[local] Instance toy_counter_reply : ProstMessage WireCounterReply := toy_prost 6.

Definition some_texts : AndnaTexts := mkAndnaTexts (λ _, "error") (λ _, "rejected") (λ _, "denied") (λ t, t).
Definition alice_node : @Loopback toy_crypto unit :=
  mkLoopback (H := toy_crypto) (mkTopology [4; 4]%Z) some_naddr andna_start tt 1000.

(** Alice registers with one record for service 80; a resolve of service 22 an hour later
    gives her address. *)
Lemma registered_name_resolves_witness :
  ∃ w' l w'',
    handle_register (H := toy_crypto) (H0 := loopback_substrate (H := toy_crypto) (H0 := least_rng) some_texts) small_config alice_node
      (alice_request 7 1 1000 [web_record]) = (w', Ok (Registered 2593000)) ∧
    handle_resolve (H := toy_crypto) (H0 := loopback_substrate (H := toy_crypto) (H0 := least_rng) some_texts) small_config
      (later (H := toy_crypto) (H0 := least_rng) w' [(tt, CmdPurgeExpired (H := toy_crypto) 3000)] 4600 tt) alice 22 = (w'', Ok l) ∧
    l ≡ₚ [mkSnsdRecord 0 16 1 (Address some_naddr)].
Proof.
  assert (request_typed (H := toy_crypto) (alice_request 7 1 1000 [web_record])) as Hq by (apply alice_request_typed; unfold is_u64, U64_MAX; lia).
  set (s1 := (andna_handle (H := toy_crypto) (H0 := least_rng) andna_start tt (CmdCounterReserve [] (replicate 32 0%Z) 1000)).1.1).
  set (s2 := (andna_handle (H := toy_crypto) (H0 := least_rng) s1 tt (CmdRegister (alice_request 7 1 1000 [web_record]) 1000)).1.1).
  assert (handle_register (H := toy_crypto) (H0 := loopback_substrate (H := toy_crypto) (H0 := least_rng) some_texts) small_config alice_node
    (alice_request 7 1 1000 [web_record]) = (mkLoopback (H := toy_crypto) (mkTopology [4; 4]%Z) some_naddr s2 tt 1000, Ok (Registered 2593000))) as Hreg.
  { refine (register_loopback_intro (H := toy_crypto) (H0 := least_rng) some_texts small_config alice_node (alice_request 7 1 1000 [web_record])
      s1 [] 1 s2 [EvRegistered alice 2593000] (Registered 2593000) (mkTupleNode (mkTopology [4; 4]%Z) [0; 0]%Z) (mkTupleNode (mkTopology [4; 4]%Z) [0; 0]%Z)
      Hq _ _ _ _ _ _); vm_compute; reflexivity. }
  eexists. destruct (registered_name_resolves (H := toy_crypto) (H0 := least_rng) some_texts small_config alice_node _ _ (Registered 2593000)
    [(tt, CmdPurgeExpired (H := toy_crypto) 3000)] 22 4600 tt Hq ltac:(lia) ltac:(vm_compute; congruence) Hreg) as (l & w'' & H1 & H2 & _).
  - apply Forall_cons_2; [|apply Forall_nil_2]. split; [vm_compute; reflexivity|]. discriminate.
  - vm_compute. reflexivity.
  - exists l, w''. split_and!; [exact Hreg|exact H1|exact H2].
Defined.
