(* ===== verification/Identities.v ===== *)
(** * The identity manager

    Models [crates/ntk-identities/src]: the registry of a node's identities
    ([registry.rs], [identity.rs]), the actor that keeps the identity-arcs and runs
    migrations ([actor.rs], [arc.rs], [migration.rs], [events.rs], [snapshot.rs],
    [pseudo.rs]).  The tasks the actor spawns, its wire values and inbound dispatch are
    in [IdentWire.v].

    A step of the actor takes a command and yields, in order, the events and snapshots
    it publishes and the tasks it spawns, with its reply.  The iteration order of hash
    maps is the class [HashOrder]; the ids the generator draws, the clock and what peers
    answer are arguments. *)
From stdpp Require Import strings pretty.
From S2P Require Import Prelude Addressing Domain.

(** ** Identities (identity.rs) *)

(** A hash as an id: never zero. *)
Definition identity_generate (hash : Z) : Z := if (hash =? 0)%Z then U64_MAX else hash.

Inductive IdentityStatus := Main | Connectivity | Dismissed.

#[export] Instance IdentityStatus_eq_dec : EqDecision IdentityStatus.
Proof. solve_decision. Defined.

Record IdentityRecord := mkIdentityRecord { ir_id : Z; ir_naddr : option Naddr; ir_status : IdentityStatus }.

#[export] Instance IdentityRecord_eq_dec : EqDecision IdentityRecord.
Proof. solve_decision. Defined.

Definition is_hooked (r : IdentityRecord) : bool :=
  match ir_naddr r with Some a => negb (is_virtual a) | None => false end.

(** ** Arcs and migrations (arc.rs, migration.rs, events.rs, error.rs) *)
Record ArcInfo := mkArcInfo { ai_dev : string; ai_peer_mac : string; ai_peer_linklocal : string }.
Record IdentityArc := mkIdentityArc { ia_peer_id : Z; ia_peer_mac : string; ia_peer_linklocal : string }.

Inductive IdentityArcChange :=
  | ArcAdded (peer_id : Z) (peer_mac peer_linklocal : string)
  | ArcChanged (peer_id : Z) (peer_mac peer_linklocal : string) (only_neighbour_migrated : bool)
  | ArcRemoving (peer_id : Z)
  | ArcRemoved (peer_id : Z).

Record MigrationDeviceInfo := mkMigrationDeviceInfo { md_old_id_new_mac : string; md_old_id_new_linklocal : string }.
Record DuplicationData := mkDuplicationData { dd_peer_new_id : Z; dd_peer_old_id_new_mac : string; dd_peer_old_id_new_linklocal : string }.

Inductive IdError :=
  | UnknownIdentity (id : Z)
  | DuplicateIdentity (id : Z)
  | CannotRemoveMainIdentity
  | UnknownArc (arc : Z)
  | DuplicateArc (arc : Z)
  | DuplicateMigration (migration_id old_id : Z)
  | UnknownMigration (migration_id old_id : Z)
  | IdMissingField (field : string)
  | UnexpectedResponse (what : string)
  | IdDecode (e : DomainDecodeError)
  | IdRpc.

Inductive IdentityEvent :=
  | IdentityAdded (id : Z) (migration_id : option Z)
  | IdentityDuplicated (migration_id old_id new_id : Z)
  | IdentityDismissed (id : Z)
  | MigrationAborted (old_id new_id : Z)
  | IdentityArcEvent (arc identity : Z) (change : IdentityArcChange)
  | ArcGone (arc : Z).

(** ** Names of namespaces and pseudo-devices (pseudo.rs) *)
Definition migration_namespace (migration_id : Z) : string := "ntkv" +:+ pretty migration_id.
Definition pseudo_device_name (namespace real_dev : string) : string := namespace +:+ "_" +:+ real_dev.

(** ** The registry (registry.rs, snapshot.rs) *)
Record Registry := mkRegistry { rg_main_id : Z; rg_identities : gmap Z IdentityRecord }.

Definition registry_new (main_id : Z) (naddr : option Naddr) : Registry :=
  mkRegistry main_id {[main_id := mkIdentityRecord main_id naddr Main]}.
Definition registry_get (r : Registry) (id : Z) : option IdentityRecord := rg_identities r !! id.
Definition registry_ids `{HashOrder} (r : Registry) : list Z := (hm_iter (rg_identities r)).*1.

(** The first drawn id that is not taken; [None] when the draws run out. *)
Fixpoint fresh_id (known : gmap Z IdentityRecord) (hashes : list Z) : option Z :=
  match hashes with
  | [] => None
  | h :: hashes' =>
      let candidate := identity_generate h in
      match known !! candidate with Some _ => fresh_id known hashes' | None => Some candidate end
  end.

Definition registry_insert (r : Registry) (record : IdentityRecord) : Registry * res IdError unit :=
  match rg_identities r !! ir_id record with
  | Some _ => (r, Err (DuplicateIdentity (ir_id record)))
  | None => (mkRegistry (rg_main_id r) (<[ir_id record := record]> (rg_identities r)), Ok tt)
  end.
Definition set_status (r : Registry) (id : Z) (status : IdentityStatus) : Registry * res IdError unit :=
  match rg_identities r !! id with
  | Some rec => (mkRegistry (rg_main_id r) (<[id := mkIdentityRecord (ir_id rec) (ir_naddr rec) status]> (rg_identities r)), Ok tt)
  | None => (r, Err (UnknownIdentity id))
  end.
Definition set_naddr (r : Registry) (id : Z) (naddr : option Naddr) : Registry * res IdError unit :=
  match rg_identities r !! id with
  | Some rec => (mkRegistry (rg_main_id r) (<[id := mkIdentityRecord (ir_id rec) naddr (ir_status rec)]> (rg_identities r)), Ok tt)
  | None => (r, Err (UnknownIdentity id))
  end.
Definition reassign_main (r : Registry) (new_main : Z) : Registry := mkRegistry new_main (rg_identities r).
Definition dismiss (r : Registry) (id : Z) : Registry * res IdError IdentityRecord :=
  if (id =? rg_main_id r)%Z then (r, Err CannotRemoveMainIdentity)
  else match rg_identities r !! id with
       | Some rec => (mkRegistry (rg_main_id r) (delete id (rg_identities r)), Ok rec)
       | None => (r, Err (UnknownIdentity id))
       end.

Record IdentitySnapshot := mkIdentitySnapshot { sn_main_id : Z; sn_identities : gmap Z IdentityRecord }.
Definition registry_snapshot (r : Registry) : IdentitySnapshot := mkIdentitySnapshot (rg_main_id r) (rg_identities r).

(** ** The actor's state (actor.rs); times in nanoseconds *)
Definition MIGRATION_CLEANUP_TIMEOUT : Z := 600 * 1000000000.
Definition MIGRATION_MIN_BUDGET : Z := 10 * 1000000000.
Definition MIGRATION_CALL_FLOOR : Z := 3 * 1000000000.
Definition NOTIFY_TIMEOUT : Z := 500 * 1000000.
Definition MAX_PEER_STRING_LEN : nat := 64.

Record PendingMigration := mkPendingMigration {
  pm_ready : bool;
  pm_deadline : Z;
  pm_new_id : option Z;
  pm_devices : gmap string MigrationDeviceInfo
}.

Record IdentityArcDuplication := mkIdentityArcDuplication { id_peer_id : Z; id_dup_data : option DuplicationData }.
Record ArcDuplicationOutcome := mkArcDuplicationOutcome { ao_arc : Z; ao_broken : bool; ao_identity_arcs : list IdentityArcDuplication }.

Record IdState := mkIdState {
  is_registry : Registry;
  is_arcs : gmap Z ArcInfo;
  is_identity_arcs : gmap (Z * Z) (list IdentityArc);
  is_pending : gmap (Z * Z) PendingMigration
}.

(** The tasks a command spawns; what they send back is a command. *)
Inductive IdTask :=
  | ResolvePeerMainId (arc main_id : Z)
  | CleanupAt (deadline migration_id old_id : Z)
  | RunDuplication (migration_id old_id new_id : Z) (per_arc : list (Z * ArcInfo * list IdentityArc)) (devices : gmap string MigrationDeviceInfo)
  | NotifyPeersArcRemoved (my_id : Z) (targets : list (Z * Z)).

Inductive IdEffect := IdEmit (e : IdentityEvent) | IdPublish (s : IdentitySnapshot) | IdSpawn (t : IdTask).

Inductive IdCmd :=
  | AddArc (arc : Z) (info : ArcInfo)
  | ApplyArcAdd (arc : Z) (peer_main_id : res IdError Z)
  | RemoveArc (arc : Z)
  | PrepareMigration (migration_id old_id : Z)
  | Migrate (migration_id old_id : Z) (devices : gmap string MigrationDeviceInfo)
  | ApplyMigrationDuplication (migration_id old_id new_id : Z) (outcomes : list ArcDuplicationOutcome)
  | CleanupMigration (migration_id old_id : Z)
  | RemoveIdentity (id : Z)
  | AbortMigration (old_id new_id : Z)
  | ArcOwnership
  | SetNaddr (id : Z) (naddr : option Naddr)
  | LookupPendingMigration (migration_id old_id : Z)
  | FetchDuplicationData (migration_id old_id arc : Z)
  | NeighbourMigrated (my_id my_peer_old_id my_peer_new_id : Z) (my_peer_old_id_new_mac my_peer_old_id_new_linklocal : string) (arc : Z)
  | NotifyIdentityArcRemoved (my_id peer_id arc : Z).

(** A reply; [IdDeferred] when a spawned task answers instead, [IdStuck] when the draws
    of [fresh_id] run out. *)
Inductive IdReply :=
  | IdUnit (r : res IdError unit)
  | IdId (r : res IdError Z)
  | IdOwnership (m : gmap Z (list Z))
  | IdLookup (l : option (bool * Z))
  | IdData (r : res IdError DuplicationData)
  | IdNothing
  | IdDeferred
  | IdStuck.

Definition with_registry (s : IdState) (r : Registry) : IdState := mkIdState r (is_arcs s) (is_identity_arcs s) (is_pending s).
Definition with_arcs_map (s : IdState) (m : gmap Z ArcInfo) : IdState := mkIdState (is_registry s) m (is_identity_arcs s) (is_pending s).
Definition with_identity_arcs (s : IdState) (m : gmap (Z * Z) (list IdentityArc)) : IdState := mkIdState (is_registry s) (is_arcs s) m (is_pending s).
Definition with_pending (s : IdState) (m : gmap (Z * Z) PendingMigration) : IdState := mkIdState (is_registry s) (is_arcs s) (is_identity_arcs s) m.

Definition id_publish (s : IdState) : IdEffect := IdPublish (registry_snapshot (is_registry s)).

(** [entry(key).or_default()], and the same with a push. *)
Definition entry_or_default (m : gmap (Z * Z) (list IdentityArc)) (k : Z * Z) : gmap (Z * Z) (list IdentityArc) := <[k := default [] (m !! k)]> m.
Definition entry_push (m : gmap (Z * Z) (list IdentityArc)) (k : Z * Z) (ia : IdentityArc) : gmap (Z * Z) (list IdentityArc) :=
  <[k := default [] (m !! k) ++ [ia]]> m.

Definition is_peer (peer_id : Z) (w : IdentityArc) : bool := (ia_peer_id w =? peer_id)%Z.

(** The first identity-arc of a peer, moved to another address. *)
Fixpoint move_peer (peer_id : Z) (mac linklocal : string) (l : list IdentityArc) : list IdentityArc :=
  match l with
  | [] => []
  | w :: l' => if is_peer peer_id w then mkIdentityArc (ia_peer_id w) mac linklocal :: l' else w :: move_peer peer_id mac linklocal l'
  end.

(** The first identity-arc of a peer, removed. *)
Fixpoint remove_peer (peer_id : Z) (l : list IdentityArc) : list IdentityArc :=
  match l with
  | [] => []
  | w :: l' => if is_peer peer_id w then l' else w :: remove_peer peer_id l'
  end.

Section Actor.
Context `{HashOrder}.

Definition removal_events (arc identity : Z) (peer_id : Z) : list IdEffect :=
  [IdEmit (IdentityArcEvent arc identity (ArcRemoving peer_id)); IdEmit (IdentityArcEvent arc identity (ArcRemoved peer_id))].

(** One identity in the loop of [remove_arc]. *)
Definition remove_identity_arc (arc : Z) (acc : gmap (Z * Z) (list IdentityArc) * list IdEffect) (id : Z)
    : gmap (Z * Z) (list IdentityArc) * list IdEffect :=
  match acc.1 !! (id, arc) with
  | Some l => (delete (id, arc) acc.1, acc.2 ++ concat ((λ w, removal_events arc id (ia_peer_id w)) <$> l))
  | None => acc
  end.

Definition id_remove_arc (s : IdState) (arc : Z) : IdState * list IdEffect * bool :=
  match is_arcs s !! arc with
  | None => (s, [], false)
  | Some _ =>
      let '(m, evs) := foldl (remove_identity_arc arc) (is_identity_arcs s, []) (registry_ids (is_registry s)) in
      (with_identity_arcs (with_arcs_map s (delete arc (is_arcs s))) m, evs ++ [IdEmit (ArcGone arc)], true)
  end.

Definition on_add_arc (s : IdState) (arc : Z) (info : ArcInfo) : IdState * list IdEffect * IdReply :=
  match is_arcs s !! arc with
  | Some _ => (s, [], IdUnit (Err (DuplicateArc arc)))
  | None =>
      let m := foldl (λ m id, entry_or_default m (id, arc)) (is_identity_arcs s) (registry_ids (is_registry s)) in
      (with_identity_arcs (with_arcs_map s (<[arc := info]> (is_arcs s))) m, [IdSpawn (ResolvePeerMainId arc (rg_main_id (is_registry s)))], IdDeferred)
  end.

Definition on_apply_arc_add (s : IdState) (arc : Z) (peer_main_id : res IdError Z) : IdState * list IdEffect * IdReply :=
  match peer_main_id with
  | Ok peer_id =>
      match is_arcs s !! arc with
      | None => (s, [], IdUnit (Err (UnknownArc arc)))
      | Some info =>
          let main_id := rg_main_id (is_registry s) in
          (with_identity_arcs s (entry_push (is_identity_arcs s) (main_id, arc) (mkIdentityArc peer_id (ai_peer_mac info) (ai_peer_linklocal info))),
           [IdEmit (IdentityArcEvent arc main_id (ArcAdded peer_id (ai_peer_mac info) (ai_peer_linklocal info)))], IdUnit (Ok tt))
      end
  | Err e => let '(s', evs, _) := id_remove_arc s arc in (s', evs, IdUnit (Err e))
  | Panic => (s, [], IdNothing)
  end.

Definition on_prepare_migration (s : IdState) (now migration_id old_id : Z) : IdState * list IdEffect * IdReply :=
  match registry_get (is_registry s) old_id with
  | None => (s, [], IdUnit (Err (UnknownIdentity old_id)))
  | Some _ =>
      match is_pending s !! (migration_id, old_id) with
      | Some _ => (s, [], IdUnit (Err (DuplicateMigration migration_id old_id)))
      | None =>
          let deadline := (now + MIGRATION_CLEANUP_TIMEOUT)%Z in
          (with_pending s (<[(migration_id, old_id) := mkPendingMigration false deadline None ∅]> (is_pending s)),
           [IdSpawn (CleanupAt deadline migration_id old_id)], IdUnit (Ok tt))
      end
  end.

(** The registry after the fork of [old_id]. *)
Definition fork_registry (r : Registry) (old_id new_id : Z) (old_record : IdentityRecord) : Registry :=
  let r1 := (registry_insert r (mkIdentityRecord new_id None (ir_status old_record))).1 in
  let r2 := (set_status r1 old_id Connectivity).1 in
  if (rg_main_id r2 =? old_id)%Z then reassign_main r2 new_id else r2.

(** The identity-arcs to duplicate, arc by arc, where there are any. *)
Definition per_arc_lists (s : IdState) (old_id : Z) : list (Z * ArcInfo * list IdentityArc) :=
  concat ((λ ai, match is_identity_arcs s !! (old_id, ai.1) with Some (w :: l) => [(ai.1, ai.2, w :: l)] | _ => [] end) <$> hm_iter (is_arcs s)).

Definition on_migrate (s : IdState) (hashes : list Z) (migration_id old_id : Z) (devices : gmap string MigrationDeviceInfo)
    : IdState * list IdEffect * IdReply :=
  match is_pending s !! (migration_id, old_id) with
  | None => (s, [], IdId (Err (UnknownMigration migration_id old_id)))
  | Some p =>
      match registry_get (is_registry s) old_id with
      | None => (s, [], IdId (Err (UnknownIdentity old_id)))
      | Some old_record =>
          match fresh_id (rg_identities (is_registry s)) hashes with
          | None => (s, [], IdStuck)
          | Some new_id =>
              let s1 := with_registry s (fork_registry (is_registry s) old_id new_id old_record) in
              let s2 := with_pending s1 (<[(migration_id, old_id) := mkPendingMigration true (pm_deadline p) (Some new_id) devices]> (is_pending s1)) in
              let m := foldl (λ m ai, entry_or_default m (new_id, ai.1)) (is_identity_arcs s) (hm_iter (is_arcs s)) in
              (with_identity_arcs s2 m,
               [IdEmit (IdentityAdded new_id (Some migration_id)); id_publish s1;
                IdSpawn (RunDuplication migration_id old_id new_id (per_arc_lists s old_id) devices)], IdDeferred)
          end
      end
  end.

(** One identity-arc of an outcome. *)
Definition apply_one_duplication (old_id new_id arc : Z) (acc : gmap (Z * Z) (list IdentityArc) * list IdEffect) (ia : IdentityArcDuplication)
    : gmap (Z * Z) (list IdentityArc) * list IdEffect :=
  let m1 := match acc.1 !! (old_id, arc), id_dup_data ia with
            | Some l, Some dup => <[(old_id, arc) := move_peer (id_peer_id ia) (dd_peer_old_id_new_mac dup) (dd_peer_old_id_new_linklocal dup) l]> acc.1
            | _, _ => acc.1
            end in
  let w0_now := l ← m1 !! (old_id, arc); find (is_peer (id_peer_id ia)) l in
  let w1_peer_id := match id_dup_data ia with Some d => dd_peer_new_id d | None => id_peer_id ia end in
  let mac := match w0_now with Some w => ia_peer_mac w | None => "" end in
  let linklocal := match w0_now with Some w => ia_peer_linklocal w | None => "" end in
  (entry_push m1 (new_id, arc) (mkIdentityArc w1_peer_id mac linklocal),
   acc.2 ++ [IdEmit (IdentityArcEvent arc new_id (ArcAdded w1_peer_id mac linklocal))] ++
   match id_dup_data ia with
   | Some dup => [IdEmit (IdentityArcEvent arc old_id (ArcChanged (id_peer_id ia) (dd_peer_old_id_new_mac dup) (dd_peer_old_id_new_linklocal dup) false))]
   | None => []
   end).

Definition apply_outcome (old_id new_id : Z) (acc : gmap (Z * Z) (list IdentityArc) * list IdEffect) (o : ArcDuplicationOutcome)
    : gmap (Z * Z) (list IdentityArc) * list IdEffect :=
  foldl (apply_one_duplication old_id new_id (ao_arc o)) acc (ao_identity_arcs o).

Definition remove_broken_arc (acc : IdState * list IdEffect) (arc : Z) : IdState * list IdEffect :=
  let '(s', evs, _) := id_remove_arc acc.1 arc in (s', acc.2 ++ evs).

Definition on_apply_migration_duplication (s : IdState) (migration_id old_id new_id : Z) (outcomes : list ArcDuplicationOutcome)
    : IdState * list IdEffect * IdReply :=
  match registry_get (is_registry s) new_id with
  | None => (s, [], IdId (Err (UnknownIdentity new_id)))
  | Some _ =>
      let live := retain (λ o, bool_decide (is_Some (is_arcs s !! ao_arc o))) outcomes in
      let '(m, evs) := foldl (apply_outcome old_id new_id) (is_identity_arcs s, []) live in
      let broken := ao_arc <$> retain ao_broken live in
      let '(s', evs') := foldl remove_broken_arc (with_identity_arcs s m, evs) broken in
      (s', evs' ++ [IdEmit (IdentityDuplicated migration_id old_id new_id); id_publish s'], IdId (Ok new_id))
  end.

Definition fetch_duplication_data (s : IdState) (migration_id old_id arc : Z) : res IdError DuplicationData :=
  pending ← ok_or (is_pending s !! (migration_id, old_id)) (UnknownMigration migration_id old_id);
  new_id ← ok_or (pm_new_id pending) (UnknownMigration migration_id old_id);
  info ← ok_or (is_arcs s !! arc) (UnknownArc arc);
  devdata ← ok_or (pm_devices pending !! ai_dev info) (IdMissingField "MigrationDeviceInfo for arc's device");
  Ok (mkDuplicationData new_id (md_old_id_new_mac devdata) (md_old_id_new_linklocal devdata)).

Definition on_neighbour_migrated (s : IdState) (my_id old new : Z) (mac linklocal : string) (arc : Z) : IdState * list IdEffect :=
  match is_identity_arcs s !! (my_id, arc) with
  | None => (s, [])
  | Some l =>
      if any (is_peer new) l then (s, [])
      else if (MAX_PEER_STRING_LEN <? String.length mac) || (MAX_PEER_STRING_LEN <? String.length linklocal) then (s, [])
      else match find (is_peer old) l with
           | None => (s, [])
           | Some w0 =>
               (with_identity_arcs s (<[(my_id, arc) := move_peer old mac linklocal l ++ [mkIdentityArc new (ia_peer_mac w0) (ia_peer_linklocal w0)]]> (is_identity_arcs s)),
                [IdEmit (IdentityArcEvent arc my_id (ArcChanged old mac linklocal true));
                 IdEmit (IdentityArcEvent arc my_id (ArcAdded new (ia_peer_mac w0) (ia_peer_linklocal w0)))])
           end
  end.

Definition on_notify_identity_arc_removed (s : IdState) (my_id peer_id arc : Z) : IdState * list IdEffect :=
  match is_identity_arcs s !! (my_id, arc) with
  | None => (s, [])
  | Some l =>
      if any (is_peer peer_id) l
      then (with_identity_arcs s (<[(my_id, arc) := remove_peer peer_id l]> (is_identity_arcs s)), removal_events arc my_id peer_id)
      else (s, [])
  end.

(** One arc in the loop of [dismiss_identity]. *)
Definition take_arc_of (id : Z) (acc : gmap (Z * Z) (list IdentityArc) * list (Z * Z)) (ai : Z * ArcInfo)
    : gmap (Z * Z) (list IdentityArc) * list (Z * Z) :=
  match acc.1 !! (id, ai.1) with
  | Some l => (delete (id, ai.1) acc.1, acc.2 ++ ((λ w, (ai.1, ia_peer_id w)) <$> l))
  | None => acc
  end.

Definition dismiss_identity (s : IdState) (id : Z) : IdState * list IdEffect :=
  let '(m, targets) := foldl (take_arc_of id) (is_identity_arcs s, []) (hm_iter (is_arcs s)) in
  (with_identity_arcs (with_registry s (dismiss (is_registry s) id).1) m, [IdEmit (IdentityDismissed id); IdSpawn (NotifyPeersArcRemoved id targets)]).

Definition on_remove_identity (s : IdState) (id : Z) : IdState * list IdEffect * IdReply :=
  if (id =? rg_main_id (is_registry s))%Z then (s, [], IdUnit (Err CannotRemoveMainIdentity))
  else match registry_get (is_registry s) id with
       | None => (s, [], IdUnit (Err (UnknownIdentity id)))
       | Some _ => let '(s', evs) := dismiss_identity s id in (s', evs ++ [id_publish s'], IdUnit (Ok tt))
       end.

Definition on_abort_migration (s : IdState) (old_id new_id : Z) : IdState * list IdEffect * IdReply :=
  match registry_get (is_registry s) new_id with
  | None => (s, [], IdUnit (Err (UnknownIdentity new_id)))
  | Some new_record =>
      match registry_get (is_registry s) old_id with
      | None => (s, [], IdUnit (Err (UnknownIdentity old_id)))
      | Some _ =>
          let s1 := with_pending s (filter (λ kp, ¬ (kp.1.2 = old_id ∧ pm_new_id kp.2 = Some new_id)) (is_pending s)) in
          let r := is_registry s in
          let r1 := if (rg_main_id r =? new_id)%Z then reassign_main r old_id else r in
          let r2 := (set_status r1 old_id (ir_status new_record)).1 in
          let '(s', evs) := dismiss_identity (with_registry s1 r2) new_id in
          (s', evs ++ [IdEmit (MigrationAborted old_id new_id); id_publish s'], IdUnit (Ok tt))
      end
  end.

Definition own_arc (m : gmap Z (list Z)) (kl : Z * Z * list IdentityArc) : gmap Z (list Z) :=
  match kl.2 with
  | [] => m
  | _ :: _ => <[kl.1.1 := default [] (m !! kl.1.1) ++ [kl.1.2]]> m
  end.
Definition arc_ownership (s : IdState) : gmap Z (list Z) := sort_by Z.leb <$> foldl own_arc ∅ (hm_iter (is_identity_arcs s)).

(** [State::handle]; [now] is the clock and [hashes] what the id generator draws. *)
Definition id_handle (s : IdState) (now : Z) (hashes : list Z) (cmd : IdCmd) : IdState * list IdEffect * IdReply :=
  match cmd with
  | AddArc arc info => on_add_arc s arc info
  | ApplyArcAdd arc peer_main_id => on_apply_arc_add s arc peer_main_id
  | RemoveArc arc => let '(s', evs, found) := id_remove_arc s arc in (s', evs, IdUnit (if found then Ok tt else Err (UnknownArc arc)))
  | PrepareMigration migration_id old_id => on_prepare_migration s now migration_id old_id
  | Migrate migration_id old_id devices => on_migrate s hashes migration_id old_id devices
  | ApplyMigrationDuplication migration_id old_id new_id outcomes => on_apply_migration_duplication s migration_id old_id new_id outcomes
  | CleanupMigration migration_id old_id => (with_pending s (delete (migration_id, old_id) (is_pending s)), [], IdNothing)
  | RemoveIdentity id => on_remove_identity s id
  | AbortMigration old_id new_id => on_abort_migration s old_id new_id
  | ArcOwnership => (s, [], IdOwnership (arc_ownership s))
  | SetNaddr id naddr =>
      let '(r, x) := set_naddr (is_registry s) id naddr in
      let s' := with_registry s r in (s', match x with Ok _ => [id_publish s'] | _ => [] end, IdUnit x)
  | LookupPendingMigration migration_id old_id => (s, [], IdLookup ((λ p, (pm_ready p, pm_deadline p)) <$> is_pending s !! (migration_id, old_id)))
  | FetchDuplicationData migration_id old_id arc => (s, [], IdData (fetch_duplication_data s migration_id old_id arc))
  | NeighbourMigrated my_id old new mac linklocal arc => let '(s', evs) := on_neighbour_migrated s my_id old new mac linklocal arc in (s', evs, IdNothing)
  | NotifyIdentityArcRemoved my_id peer_id arc => let '(s', evs) := on_notify_identity_arc_removed s my_id peer_id arc in (s', evs, IdNothing)
  end.

(** [Handle::spawn] *)
Definition id_spawn (hash : Z) (naddr : option Naddr) : IdState := mkIdState (registry_new (identity_generate hash) naddr) ∅ ∅ ∅.
End Actor.
