(* ===== verification/IdentWire.v ===== *)
(** * The identity manager's calls

    Models the rest of [crates/ntk-identities/src]: the wire values ([wire.rs]), the
    tasks the actor spawns ([actor.rs]: the resolution of a peer's main id, the
    duplication pass of a migration, the notice of a dismissal) and the inbound dispatch
    ([rpc_handler.rs]).

    An inbound call is a tree of requests to the actor ([IdHandler]), so that commands
    of others can run between two of them; an outbound call is answered by a
    [CallRun]: when it starts, how long it takes, what comes back.  The arc an inbound
    call arrives on is told by [arc_for_caller], a parameter. *)
From stdpp Require Import strings.
From S2P Require Import Prelude Addressing Domain Identities.

(** ** Wire values (wire.rs) *)
Record WireIdentityId := mkWireIdentityId { wi_value : Z }.
Record WireDuplicationData := mkWireDuplicationData {
  wd_peer_new_id : option WireIdentityId; wd_peer_old_id_new_mac : string; wd_peer_old_id_new_linklocal : string }.

Definition IDENTITY_ID_TAG : string := "identities.IdentityId".
Definition DUPLICATION_DATA_TAG : string := "identities.DuplicationData".

Record IdCaller := mkIdCaller { cc_source_id : option TypedValue; cc_src_nic : option TypedValue }.
Record MatchDuplicationArgs := mkMatchDuplicationArgs {
  ma_migration_id : Z; ma_peer_id : option TypedValue; ma_old_id : option TypedValue; ma_new_id : option TypedValue;
  ma_old_id_new_mac : string; ma_old_id_new_linklocal : string }.
Record NotifyArcRemovedArgs := mkNotifyArcRemovedArgs { na_peer_id : option TypedValue; na_my_id : option TypedValue }.

(** The arms of [MethodCall] that concern identities; every other arm. *)
Inductive IdCall :=
  | GetPeerMainId
  | MatchDuplication (args : MatchDuplicationArgs)
  | NotifyArcRemoved (args : NotifyArcRemovedArgs)
  | OtherCall.

(** [ResponsePayload]; a value it does not have is [None]. *)
Inductive IdPayload := PayloadEmpty | PayloadBoolean (b : bool) | PayloadTyped (tv : TypedValue).

(** An outbound call: its start, its duration and its answer; an error is the
    transport's or the peer's. *)
Record CallRun := mkCallRun { cr_start : Z; cr_takes : Z; cr_answer : res unit (option IdPayload) }.

(** What a [RemoteError] answered here tells (its domain is always [Deserialize]). *)
Inductive IdRemote := UnresolvedArc | MissingId (field : string) | BadId (e : IdError) | NotIdentityMethod.

Inductive IdHandler :=
  | HDone (out : res IdRemote IdPayload)
  | HSend (cmd : IdCmd) (k : IdReply → IdHandler)
  | HWaitReady (migration_id old_id deadline : Z) (k : bool → IdHandler).

Section Wire.
Context `{ProstMessage WireIdentityId, ProstMessage WireDuplicationData}.

Definition identity_id_to_typed_value (id : Z) : TypedValue := typed_value IDENTITY_ID_TAG (mkWireIdentityId id).
Definition identity_id_from_typed_value (tv : TypedValue) : res IdError Z :=
  msg ← map_err IdDecode (from_typed_value (M := WireIdentityId) tv IDENTITY_ID_TAG);
  Ok (wi_value msg).
Definition duplication_data_to_typed_value (d : DuplicationData) : TypedValue :=
  typed_value DUPLICATION_DATA_TAG
    (mkWireDuplicationData (Some (mkWireIdentityId (dd_peer_new_id d))) (dd_peer_old_id_new_mac d) (dd_peer_old_id_new_linklocal d)).
Definition duplication_data_from_typed_value (tv : TypedValue) : res IdError DuplicationData :=
  msg ← map_err IdDecode (from_typed_value (M := WireDuplicationData) tv DUPLICATION_DATA_TAG);
  peer_new_id ← ok_or (wd_peer_new_id msg) (IdMissingField "DuplicationData.peer_new_id");
  Ok (mkDuplicationData (wi_value peer_new_id) (wd_peer_old_id_new_mac msg) (wd_peer_old_id_new_linklocal msg)).

(** ** Outbound calls (actor.rs) *)
Definition caller_context (local_id : Z) : IdCaller := mkIdCaller (Some (identity_id_to_typed_value local_id)) None.

Definition resolve_peer_main_id (answer : res unit (option IdPayload)) : res IdError Z :=
  payload ← map_err (λ _, IdRpc) answer;
  match payload with
  | Some (PayloadTyped tv) => identity_id_from_typed_value tv
  | _ => Err (UnexpectedResponse "get_peer_main_id: expected TypedValue")
  end.

Definition call_budget (mintime_deadline now : Z) : Z :=
  let remaining := Z.max 0 (mintime_deadline - now) in
  if (MIGRATION_CALL_FLOOR <? remaining)%Z then remaining else MIGRATION_CALL_FLOOR.

Definition build_match_duplication_call (migration_id peer_id old_id new_id : Z) (devdata : MigrationDeviceInfo) : IdCall :=
  MatchDuplication (mkMatchDuplicationArgs migration_id (Some (identity_id_to_typed_value peer_id))
    (Some (identity_id_to_typed_value old_id)) (Some (identity_id_to_typed_value new_id))
    (md_old_id_new_mac devdata) (md_old_id_new_linklocal devdata)).

Definition decode_duplication_response (payload : option IdPayload) : res IdError (option DuplicationData) :=
  match payload with
  | Some PayloadEmpty | None => Ok None
  | Some (PayloadTyped tv) => d ← duplication_data_from_typed_value tv; Ok (Some d)
  | Some (PayloadBoolean _) => Err (UnexpectedResponse "match_duplication: unexpected bool response")
  end.

(** One call of the pass: what it duplicates, and whether it breaks the arc. *)
Definition match_outcome (deadline : Z) (run : CallRun) : option DuplicationData * bool :=
  if (cr_takes run <=? call_budget deadline (cr_start run))%Z then
    match cr_answer run with
    | Ok payload => match decode_duplication_response payload with Ok value => (value, false) | _ => (None, true) end
    | _ => (None, true)
    end
  else (None, true).

(** The pass as far as it has come: the calls made, in order, and the rest of the world's answers. *)
Record Pass := mkPass { ps_calls : list (Z * IdCaller * IdCall); ps_world : list CallRun }.

(** What a call finds when the world is used up: nothing, for ever. *)
Definition no_answer : CallRun := mkCallRun 0 (MIGRATION_MIN_BUDGET + MIGRATION_CALL_FLOOR) (Err tt).

Fixpoint duplicate_on_arc (migration_id old_id new_id deadline arc : Z) (devdata : option MigrationDeviceInfo) (broken : bool)
    (p : Pass) (l : list IdentityArc) : Pass * bool * list IdentityArcDuplication :=
  match l with
  | [] => (p, broken, [])
  | w0 :: l' =>
      let '(p', broken', dup_data) :=
        match broken, devdata with
        | false, Some devdata =>
            let run := hd no_answer (ps_world p) in
            let '(dup_data, failed) := match_outcome deadline run in
            (mkPass (ps_calls p ++ [(arc, caller_context old_id, build_match_duplication_call migration_id (ia_peer_id w0) old_id new_id devdata)])
               (tl (ps_world p)), failed, dup_data)
        | _, _ => (p, broken, None)
        end in
      let '(p'', broken'', outcomes) := duplicate_on_arc migration_id old_id new_id deadline arc devdata broken' p' l' in
      (p'', broken'', mkIdentityArcDuplication (ia_peer_id w0) dup_data :: outcomes)
  end.

Fixpoint duplicate_on_arcs (migration_id old_id new_id deadline : Z) (devices : gmap string MigrationDeviceInfo)
    (p : Pass) (arcs : list (Z * ArcInfo * list IdentityArc)) : Pass * list ArcDuplicationOutcome :=
  match arcs with
  | [] => (p, [])
  | (arc, info, identity_arcs) :: arcs' =>
      let devdata := devices !! ai_dev info in
      let broken := match devdata with None => true | Some _ => false end in
      let '(p', broken', outcomes) := duplicate_on_arc migration_id old_id new_id deadline arc devdata broken p identity_arcs in
      let '(p'', results) := duplicate_on_arcs migration_id old_id new_id deadline devices p' arcs' in
      (p'', mkArcDuplicationOutcome arc broken' outcomes :: results)
  end.

Definition run_migration_duplication (now old_id new_id migration_id : Z) (arcs : list (Z * ArcInfo * list IdentityArc))
    (devices : gmap string MigrationDeviceInfo) (world : list CallRun) : Pass * list ArcDuplicationOutcome :=
  duplicate_on_arcs migration_id old_id new_id (now + MIGRATION_MIN_BUDGET) devices (mkPass [] world) arcs.

Definition notify_call (my_id peer_id : Z) : IdCall :=
  NotifyArcRemoved (mkNotifyArcRemovedArgs (Some (identity_id_to_typed_value peer_id)) (Some (identity_id_to_typed_value my_id))).

(** The notices sent; an arc whose call fails or takes too long gets no more of them. *)
Fixpoint notify_peers_arc_removed (my_id : Z) (broken_arcs : gset Z) (world : list CallRun) (targets : list (Z * Z))
    : list (Z * IdCaller * IdCall) :=
  match targets with
  | [] => []
  | (arc, peer_id) :: targets' =>
      if decide (arc ∈ broken_arcs) then notify_peers_arc_removed my_id broken_arcs world targets'
      else
        let run := hd no_answer world in
        let ok := (cr_takes run <=? NOTIFY_TIMEOUT)%Z && match cr_answer run with Ok _ => true | _ => false end in
        (arc, caller_context my_id, notify_call my_id peer_id)
          :: notify_peers_arc_removed my_id (if ok then broken_arcs else {[arc]} ∪ broken_arcs) (tl world) targets'
  end.

(** ** Inbound calls (rpc_handler.rs) *)
Section Handler.
Variable arc_for_caller : IdCaller → option Z.

Definition decode_id (tv : option TypedValue) (field : string) : res IdRemote Z :=
  tv ← ok_or tv (MissingId field);
  map_err BadId (identity_id_from_typed_value tv).

Definition present (tv : TypedValue) : IdPayload := PayloadTyped tv.
Definition absent : IdPayload := PayloadEmpty.

(** A fallible step of a handler; its error is answered. *)
Definition handler_try {A} (m : res IdRemote A) (k : A → IdHandler) : IdHandler :=
  match m with Ok a => k a | Err e => HDone (Err e) | Panic => HDone Panic end.

Definition unmatched (my_old_id peer_old_id peer_new_id : Z) (args : MatchDuplicationArgs) (arc : Z) : IdHandler :=
  HSend (NeighbourMigrated my_old_id peer_old_id peer_new_id (ma_old_id_new_mac args) (ma_old_id_new_linklocal args) arc)
    (λ _, HDone (Ok absent)).

Definition match_duplication (caller : IdCaller) (args : MatchDuplicationArgs) : IdHandler :=
  match arc_for_caller caller with
  | None => HDone (Err UnresolvedArc)
  | Some arc =>
      handler_try (decode_id (ma_peer_id args) "peer_id") (λ my_old_id,
      handler_try (decode_id (ma_old_id args) "old_id") (λ peer_old_id,
      handler_try (decode_id (ma_new_id args) "new_id") (λ peer_new_id,
        let no_match := unmatched my_old_id peer_old_id peer_new_id args arc in
        HSend (LookupPendingMigration (ma_migration_id args) my_old_id) (λ lookup,
          match lookup with
          | IdLookup (Some (_, deadline)) =>
              HWaitReady (ma_migration_id args) my_old_id deadline (λ ready_in_time,
                if ready_in_time : bool then
                  HSend (FetchDuplicationData (ma_migration_id args) my_old_id arc) (λ r,
                    match r with
                    | IdData (Ok data) => HDone (Ok (present (duplication_data_to_typed_value data)))
                    | _ => no_match
                    end)
                else no_match)
          | _ => no_match
          end))))
  end.

Definition notify_identity_arc_removed (caller : IdCaller) (args : NotifyArcRemovedArgs) : IdHandler :=
  match arc_for_caller caller with
  | None => HDone (Err UnresolvedArc)
  | Some arc =>
      handler_try (decode_id (na_my_id args) "my_id") (λ my_id,
      handler_try (decode_id (na_peer_id args) "peer_id") (λ peer_id,
        HSend (NotifyIdentityArcRemoved my_id peer_id arc) (λ _, HDone (Ok absent))))
  end.

(** [IdentityRpcHandler::handle]; [snapshot] is the last published one. *)
Definition id_rpc_handle (snapshot : IdentitySnapshot) (caller : IdCaller) (call : IdCall) : IdHandler :=
  match call with
  | GetPeerMainId => HDone (Ok (present (identity_id_to_typed_value (sn_main_id snapshot))))
  | MatchDuplication args => match_duplication caller args
  | NotifyArcRemoved args => notify_identity_arc_removed caller args
  | OtherCall => HDone (Err NotIdentityMethod)
  end.
End Handler.
End Wire.

(** ** A handler's run beside the actor

    The script has an entry for every request and every wait of the handler: the
    commands the actor runs before it, and, for a wait, whether the flag was seen before
    the deadline. *)
Record HandlerRun := mkHandlerRun { hr_state : IdState; hr_effects : list IdEffect; hr_out : res IdRemote IdPayload }.

Section Run.
Context `{HashOrder}.

(** A command with the clock and the hashes its step reads. *)
Record Timed := mkTimed { tc_now : Z; tc_hashes : list Z; tc_cmd : IdCmd }.

Definition id_steps (s : IdState) (cmds : list Timed) : IdState * list IdEffect :=
  foldl (λ acc c, let '(s', effs, _) := id_handle acc.1 (tc_now c) (tc_hashes c) (tc_cmd c) in (s', acc.2 ++ effs)) (s, []) cmds.

Fixpoint run_handler (h : IdHandler) (s : IdState) (script : list (list Timed * bool)) : HandlerRun :=
  match h with
  | HDone out => mkHandlerRun s [] out
  | HSend cmd k =>
      let '(s1, e1) := id_steps s (hd ([], false) script).1 in
      let '(s2, e2, reply) := id_handle s1 0 [] cmd in
      let r := run_handler (k reply) s2 (tl script) in
      mkHandlerRun (hr_state r) (e1 ++ e2 ++ hr_effects r) (hr_out r)
  | HWaitReady _ _ _ k =>
      let '(s1, e1) := id_steps s (hd ([], false) script).1 in
      let r := run_handler (k (hd ([], false) script).2) s1 (tl script) in
      mkHandlerRun (hr_state r) (e1 ++ hr_effects r) (hr_out r)
  end.
End Run.
