(* ===== verification/IdentProps.v ===== *)
(** * What the identity manager keeps

    The invariant of the actor's state over every sequence of commands, and the meaning
    of its event stream: who folds the events knows every identity-arc. *)
From stdpp Require Import strings.
From S2P Require Import Prelude Addressing Domain Identities.

Abbreviation ArcMap := (gmap (Z * Z) (list IdentityArc)).

(** ** A system: the actor, its watch channel and the events it broadcast *)
Record IdSystem := mkIdSystem { sy_state : IdState; sy_watch : IdentitySnapshot; sy_log : list IdentityEvent }.

Definition events_of (effs : list IdEffect) : list IdentityEvent :=
  omap (λ e, match e with IdEmit ev => Some ev | _ => None end) effs.
Definition watched (w : IdentitySnapshot) (effs : list IdEffect) : IdentitySnapshot :=
  foldl (λ w e, match e with IdPublish sn => sn | _ => w end) w effs.

Section System.
Context `{HashOrder}.

Definition system_step (y : IdSystem) (now : Z) (hashes : list Z) (cmd : IdCmd) : IdSystem :=
  let '(s', effs, _) := id_handle (sy_state y) now hashes cmd in
  mkIdSystem s' (watched (sy_watch y) effs) (sy_log y ++ events_of effs).

Definition system_spawn (hash : Z) (naddr : option Naddr) : IdSystem :=
  let s := id_spawn hash naddr in mkIdSystem s (registry_snapshot (is_registry s)) [].

(** The systems that commands allowed by [ok] lead to. *)
Inductive id_reachable (ok : IdState → IdCmd → Prop) : IdSystem → Prop :=
  | id_reach_spawn hash naddr : id_reachable ok (system_spawn hash naddr)
  | id_reach_step y now hashes cmd :
      id_reachable ok y → ok (sy_state y) cmd → id_reachable ok (system_step y now hashes cmd).
End System.

(** An abort that names a migration: two identities, of which the older is not the
    main one unless the newer succeeded it. *)
Definition abort_names_migration (s : IdState) (cmd : IdCmd) : Prop :=
  match cmd with
  | AbortMigration old_id new_id => old_id ≠ new_id ∧ old_id ≠ rg_main_id (is_registry s)
  | _ => True
  end.

(** ** The invariant *)

(** What holds whatever the commands are. *)
Record id_wf (s : IdState) : Prop := {
  wf_main : is_Some (rg_identities (is_registry s) !! rg_main_id (is_registry s));
  wf_keyed : ∀ k r, rg_identities (is_registry s) !! k = Some r → ir_id r = k;
  wf_keys : ∀ id arc, is_Some (is_identity_arcs s !! (id, arc)) →
    is_Some (rg_identities (is_registry s) !! id) ∧ is_Some (is_arcs s !! arc)
}.

(** What holds when aborts name migrations: every identity has its list on every arc,
    one identity is the main one, and a migration is ready exactly when it was run. *)
Record id_inv (s : IdState) : Prop := {
  inv_wf : id_wf s;
  inv_full : ∀ id arc, is_Some (rg_identities (is_registry s) !! id) → is_Some (is_arcs s !! arc) →
    is_Some (is_identity_arcs s !! (id, arc));
  inv_status : ∀ k r, rg_identities (is_registry s) !! k = Some r →
    ir_status r = Main ↔ k = rg_main_id (is_registry s);
  inv_pending : ∀ k p, is_pending s !! k = Some p → pm_ready p = true ↔ is_Some (pm_new_id p)
}.

(** ** Lemmas on the maps *)
Lemma lookup_entry_or_default_fold {A} (f : A → Z * Z) (l : list A) (m : ArcMap) k :
  foldl (λ m x, entry_or_default m (f x)) m l !! k =
    if decide (k ∈ f <$> l) then Some (default [] (m !! k)) else m !! k.
Proof.
  revert m. induction l as [|x l IH]; intros m; cbn [foldl]; [by rewrite decide_False by set_solver|].
  rewrite IH. unfold entry_or_default. destruct (decide (k = f x)) as [->|Hne].
  - rewrite (decide_True (P := f x ∈ f <$> x :: l)) by (apply list_elem_of_here). rewrite lookup_insert_eq. by case_decide.
  - rewrite lookup_insert_ne by done. by repeat case_decide; set_solver.
Qed.

Lemma lookup_remove_identity_arc arc acc id k :
  (remove_identity_arc arc acc id).1 !! k = if decide (k = (id, arc)) then None else acc.1 !! k.
Proof.
  unfold remove_identity_arc. case_match eqn:E; cbn.
  - case_decide; simplify_eq; [apply lookup_delete_eq | by apply lookup_delete_ne].
  - by case_decide; simplify_eq.
Qed.

Lemma lookup_remove_identity_arcs arc ids acc k :
  (foldl (remove_identity_arc arc) acc ids).1 !! k = if decide (k.2 = arc ∧ k.1 ∈ ids) then None else acc.1 !! k.
Proof.
  revert acc. induction ids as [|id ids IH]; intros acc; cbn [foldl]; [by rewrite decide_False by set_solver|].
  rewrite IH, lookup_remove_identity_arc. destruct k as [i a]; cbn.
  repeat case_decide; simplify_eq; set_solver.
Qed.

Lemma lookup_take_arc_of id acc ai k :
  (take_arc_of id acc ai).1 !! k = if decide (k = (id, ai.1)) then None else acc.1 !! k.
Proof.
  unfold take_arc_of. case_match eqn:E; cbn.
  - case_decide; simplify_eq; [apply lookup_delete_eq | by apply lookup_delete_ne].
  - by case_decide; simplify_eq.
Qed.

Lemma lookup_take_arcs_of id l acc k :
  (foldl (take_arc_of id) acc l).1 !! k = if decide (k.1 = id ∧ k.2 ∈ l.*1) then None else acc.1 !! k.
Proof.
  revert acc. induction l as [|ai l IH]; intros acc; cbn [foldl]; [by rewrite decide_False by set_solver|].
  rewrite IH, lookup_take_arc_of. destruct k as [i a]; cbn.
  repeat case_decide; simplify_eq; set_solver.
Qed.

Lemma apply_one_keys old_id new_id arc acc ia k :
  is_Some ((apply_one_duplication old_id new_id arc acc ia).1 !! k) ↔ is_Some (acc.1 !! k) ∨ k = (new_id, arc).
Proof.
  unfold apply_one_duplication, entry_push. cbn.
  destruct (decide (k = (new_id, arc))) as [->|Hne]; [rewrite lookup_insert_eq; naive_solver|].
  rewrite lookup_insert_ne by done.
  case_match eqn:E; [case_match|]; [|naive_solver..].
  destruct (decide (k = (old_id, arc))) as [->|]; [rewrite lookup_insert_eq, E; naive_solver|].
  rewrite lookup_insert_ne by done. naive_solver.
Qed.

Lemma apply_outcome_keys old_id new_id acc o k :
  is_Some ((apply_outcome old_id new_id acc o).1 !! k) →
  is_Some (acc.1 !! k) ∨ k = (new_id, ao_arc o).
Proof.
  unfold apply_outcome. generalize (ao_identity_arcs o) as l. intros l. revert acc.
  induction l as [|ia l IH]; intros acc; cbn [foldl]; [by left|].
  intros [Hs| ->]%IH; [|by right]. by apply apply_one_keys in Hs.
Qed.

Lemma apply_outcome_keeps old_id new_id acc o k :
  is_Some (acc.1 !! k) → is_Some ((apply_outcome old_id new_id acc o).1 !! k).
Proof.
  unfold apply_outcome. generalize (ao_identity_arcs o) as l. intros l. revert acc.
  induction l as [|ia l IH]; intros acc Hs; cbn [foldl]; [done|].
  apply IH, apply_one_keys. by left.
Qed.

Lemma elem_of_registry_ids `{HashOrder} r id : id ∈ registry_ids r ↔ is_Some (rg_identities r !! id).
Proof.
  unfold registry_ids. rewrite list_elem_of_fmap. split.
  - intros ([k v] & -> & Hin). apply elem_of_hm_iter in Hin. by exists v.
  - intros [v Hv]. exists (id, v). split; [done|]. by apply elem_of_hm_iter.
Qed.

Lemma elem_of_hm_keys `{HashOrder} {V} (m : gmap Z V) k : k ∈ (hm_iter m).*1 ↔ is_Some (m !! k).
Proof.
  rewrite list_elem_of_fmap. split.
  - intros ([k' v] & -> & Hin). apply elem_of_hm_iter in Hin. by exists v.
  - intros [v Hv]. exists (k, v). split; [done|]. by apply elem_of_hm_iter.
Qed.

(** ** The invariant is kept *)

(** A step that leaves the registry alone. *)
Lemma wf_same_registry s s' :
  is_registry s' = is_registry s →
  (∀ id arc, is_Some (is_identity_arcs s' !! (id, arc)) → is_Some (rg_identities (is_registry s) !! id) ∧ is_Some (is_arcs s' !! arc)) →
  id_wf s → id_wf s'.
Proof. intros Hr Hk [Hm Hid _]. by constructor; rewrite Hr. Qed.

Lemma inv_same_registry s s' :
  is_registry s' = is_registry s → id_wf s' →
  (∀ id arc, is_Some (rg_identities (is_registry s) !! id) → is_Some (is_arcs s' !! arc) → is_Some (is_identity_arcs s' !! (id, arc))) →
  (∀ k p, is_pending s' !! k = Some p → pm_ready p = true ↔ is_Some (pm_new_id p)) →
  id_inv s → id_inv s'.
Proof. intros Hr Hw Hf Hp [_ _ Hs _]. by constructor; rewrite ?Hr. Qed.

(** A step that leaves identity-arcs to be the same keys, and arcs and the registry alone. *)
Lemma same_keys s s' :
  is_registry s' = is_registry s → is_arcs s' = is_arcs s → is_pending s' = is_pending s →
  (∀ k, is_Some (is_identity_arcs s' !! k) ↔ is_Some (is_identity_arcs s !! k)) →
  (id_wf s → id_wf s') ∧ (id_inv s → id_inv s').
Proof.
  intros Hr Ha Hp Hk.
  assert (id_wf s → id_wf s') as Hw.
  { intros [Hm Hid Hwk]. constructor; rewrite ?Hr, ?Ha; [done..|]. intros id arc Hs. by apply Hwk, Hk. }
  split; [done|]. intros [Hi Hf Hs Hpd].
  constructor; rewrite ?Hr, ?Ha, ?Hp; [by apply Hw|..|done|done].
  intros id arc Hid Ha'. apply Hk. by apply Hf.
Qed.

Lemma is_Some_insert_same {K A} `{Countable K} (m : gmap K A) i x k :
  is_Some (m !! i) → is_Some (<[i := x]> m !! k) ↔ is_Some (m !! k).
Proof.
  intros Hi. destruct (decide (k = i)) as [->|]; [rewrite lookup_insert_eq; naive_solver | by rewrite lookup_insert_ne].
Qed.

Section Steps.
Context `{HashOrder}.

(** What removing an arc does to the maps. *)
Lemma id_remove_arc_spec s arc s' effs b :
  id_remove_arc s arc = (s', effs, b) →
  is_registry s' = is_registry s ∧ is_pending s' = is_pending s ∧
  (∀ a, is_arcs s' !! a = if decide (a = arc) then None else is_arcs s !! a) ∧
  (id_wf s → ∀ id a, is_identity_arcs s' !! (id, a) = if decide (a = arc) then None else is_identity_arcs s !! (id, a)).
Proof.
  unfold id_remove_arc. case_match eqn:E; [|intros [= <- <- <-]].
  - pose proof (lookup_remove_identity_arcs arc (registry_ids (is_registry s)) (is_identity_arcs s, [])) as Hl.
    destruct (foldl _ _ _) as [m evs] eqn:Ef. intros [= <- <- <-]. cbn in *. split_and!; [done..| |].
    + intros a'. case_decide; simplify_eq; [apply lookup_delete_eq | by apply lookup_delete_ne].
    + intros Hw id a'. rewrite Hl. cbn. case_decide as Hd; [by rewrite decide_True by apply Hd|].
      case_decide as Ha; [|done]. subst a'.
      destruct (is_identity_arcs s !! (id, arc)) eqn:Ei; [|done]. exfalso. apply Hd. split; [done|].
      apply elem_of_registry_ids, (wf_keys s Hw id arc). by eexists.
  - split_and!; [done..| |].
    + intros a. by case_decide; simplify_eq.
    + intros Hw id a. case_decide; simplify_eq; [|done].
      destruct (is_identity_arcs s !! (id, arc)) eqn:Ei; [|done].
      destruct (wf_keys s Hw id arc) as [_ [? ?]]; [by eexists | congruence].
Qed.

Lemma id_remove_arc_keeps s arc s' effs b :
  id_remove_arc s arc = (s', effs, b) → (id_wf s → id_wf s') ∧ (id_inv s → id_inv s').
Proof.
  intros (Hr & Hp & Ha & Hi)%id_remove_arc_spec.
  assert (id_wf s → id_wf s') as Hw.
  { intros Hw. apply (wf_same_registry s); [done| |done].
    intros id a. rewrite (Hi Hw), Ha. case_decide; [by intros []|]. apply (wf_keys s Hw). }
  split; [done|]. intros Hinv. apply (inv_same_registry s); [done|apply Hw, Hinv| |rewrite Hp; apply Hinv|done].
  intros id a Hid. rewrite (Hi (inv_wf s Hinv)), Ha. case_decide; [by intros []|]. by apply (inv_full s Hinv).
Qed.

Lemma on_add_arc_keeps s arc info s' effs rep :
  on_add_arc s arc info = (s', effs, rep) → (id_wf s → id_wf s') ∧ (id_inv s → id_inv s').
Proof.
  unfold on_add_arc. case_match eqn:E; intros [= <- <- <-]; [done|].
  pose proof (lookup_entry_or_default_fold (λ id, (id, arc)) (registry_ids (is_registry s)) (is_identity_arcs s)) as Hl.
  assert (∀ id a, (id, a) ∈ (λ i, (i, arc)) <$> registry_ids (is_registry s) ↔ a = arc ∧ is_Some (rg_identities (is_registry s) !! id)) as Hin.
  { intros id a. rewrite list_elem_of_fmap. setoid_rewrite elem_of_registry_ids. naive_solver. }
  match goal with |- (_ → id_wf ?s') ∧ _ => assert (id_wf s → id_wf s') as Hw end.
  { intros Hw. apply (wf_same_registry s); [done| |done]. cbn. intros id a. rewrite Hl. case_decide as Hd.
    - apply Hin in Hd as [-> Hid]. intros _. by rewrite lookup_insert_eq.
    - intros [Hid Ha]%(wf_keys s Hw). split; [done|]. rewrite lookup_insert_ne; [done|]. naive_solver. }
  split; [done|]. intros Hinv. apply (inv_same_registry s); [done|apply Hw, Hinv| |apply Hinv|done].
  cbn. intros id a Hid Ha. rewrite Hl. case_decide as Hd; [done|].
  rewrite lookup_insert_ne in Ha; [by apply (inv_full s Hinv)|]. intros <-. apply Hd, Hin. done.
Qed.

Lemma on_apply_arc_add_keeps s arc r s' effs rep :
  on_apply_arc_add s arc r = (s', effs, rep) → (id_wf s → id_wf s') ∧ (id_inv s → id_inv s').
Proof.
  unfold on_apply_arc_add. destruct r as [peer_id|e|]; [|destruct (id_remove_arc s arc) as [[s1 evs] b] eqn:E; intros [= <- <- <-]; by eapply id_remove_arc_keeps|by intros [= <- <- <-]].
  destruct (is_arcs s !! arc) as [info|] eqn:E; intros [= <- <- <-]; [|done].
  match goal with |- (_ → id_wf ?s') ∧ _ => assert (id_wf s → id_wf s') as Hw end.
  { intros Hw. apply (wf_same_registry s); [done| |done]. cbn. unfold entry_push. intros id a.
    destruct (decide ((id, a) = (rg_main_id (is_registry s), arc))) as [Heq|Hne].
    - simplify_eq. intros _. split; [apply Hw | by eexists].
    - rewrite lookup_insert_ne by done. apply (wf_keys s Hw). }
  split; [done|]. intros Hinv. apply (inv_same_registry s); [done|apply Hw, Hinv| |apply Hinv|done].
  cbn. intros id a Hid Ha. unfold entry_push. apply is_Some_insert_same; [|by apply (inv_full s Hinv)].
  apply (inv_full s Hinv); [apply Hinv | by eexists].
Qed.

Lemma fresh_id_fresh known hashes n : fresh_id known hashes = Some n → known !! n = None.
Proof. induction hashes as [|h hashes IH]; cbn; [done|]. case_match eqn:E; [done|]. by intros [= <-]. Qed.

Lemma fork_registry_eq r old_id new_id rec :
  rg_identities r !! old_id = Some rec → rg_identities r !! new_id = None →
  fork_registry r old_id new_id rec =
    mkRegistry (if (rg_main_id r =? old_id)%Z then new_id else rg_main_id r)
      (<[old_id := mkIdentityRecord (ir_id rec) (ir_naddr rec) Connectivity]> (<[new_id := mkIdentityRecord new_id None (ir_status rec)]> (rg_identities r))).
Proof.
  intros Hold Hnew. unfold fork_registry, registry_insert. cbn. rewrite Hnew. cbn. unfold set_status. cbn.
  rewrite lookup_insert_ne by congruence. rewrite Hold. cbn. by case_match.
Qed.

Lemma on_prepare_migration_keeps s now mid old_id s' effs rep :
  on_prepare_migration s now mid old_id = (s', effs, rep) → (id_wf s → id_wf s') ∧ (id_inv s → id_inv s').
Proof.
  unfold on_prepare_migration. repeat case_match; intros [= <- <- <-]; try done.
  split; [intros Hw; by apply (wf_same_registry s); [|apply (wf_keys s Hw)|]|].
  intros Hi. pose proof (inv_wf s Hi) as Hw.
  apply (inv_same_registry s); [done|by apply (wf_same_registry s); [|apply (wf_keys s Hw)|]|apply Hi| |done]. cbn.
  intros k p [[<- <-]|[Hne Hk]]%lookup_insert_Some; [cbn; split; [done | by intros []]|]. by apply (inv_pending s Hi k).
Qed.

Lemma on_migrate_keeps s hashes mid old_id devices s' effs rep :
  on_migrate s hashes mid old_id devices = (s', effs, rep) → (id_wf s → id_wf s') ∧ (id_inv s → id_inv s').
Proof.
  unfold on_migrate, registry_get. destruct (is_pending s !! _) as [p|] eqn:Ep; [|by intros [= <- <- <-]].
  destruct (rg_identities (is_registry s) !! old_id) as [rec|] eqn:Eo; [|by intros [= <- <- <-]].
  destruct (fresh_id _ hashes) as [new_id|] eqn:En; [|by intros [= <- <- <-]].
  apply fresh_id_fresh in En. rewrite (fork_registry_eq _ _ _ _ Eo En). intros [= <- _ _].
  pose proof (lookup_entry_or_default_fold (λ ai : Z * ArcInfo, (new_id, ai.1)) (hm_iter (is_arcs s)) (is_identity_arcs s)) as Hl.
  assert (∀ id a, (id, a) ∈ (λ ai : Z * ArcInfo, (new_id, ai.1)) <$> hm_iter (is_arcs s) ↔ id = new_id ∧ is_Some (is_arcs s !! a)) as Hin.
  { intros id a. rewrite <- elem_of_hm_keys, !list_elem_of_fmap. naive_solver. }
  assert (old_id ≠ new_id) as Hne by congruence.
  match goal with |- (_ → id_wf ?s') ∧ _ => assert (id_wf s → id_wf s') as Hw end.
  { intros [Hm Hid Hk]. constructor; cbn.
    - rewrite !lookup_insert_is_Some'. destruct (Z.eqb_spec (rg_main_id (is_registry s)) old_id); auto.
    - intros k r [[<- <-]|[? [[<- <-]|[? Hr]]%lookup_insert_Some]]%lookup_insert_Some; cbn; [by apply Hid|done|by apply Hid].
    - intros id a. rewrite Hl, !lookup_insert_is_Some'. case_decide as Hd; [apply Hin in Hd as [-> ?]; auto|].
      intros [? ?]%Hk. auto. }
  split; [done|]. intros [Hwf Hf Hs Hp]. constructor; [by apply Hw|..]; cbn.
  - intros id a Hid Ha. rewrite Hl. case_decide as Hd; [done|]. rewrite Hin in Hd.
    rewrite !lookup_insert_is_Some' in Hid. apply Hf; [|done]. destruct Hid as [<-|[<-|?]]; [by eexists| |done]. by destruct Hd.
  - intros k r [[<- <-]|[Hk [[<- <-]|[Hk' Hr]]%lookup_insert_Some]]%lookup_insert_Some; cbn.
    + split; [done|]. intros Heq. exfalso. destruct (Z.eqb_spec (rg_main_id (is_registry s)) old_id); congruence.
    + rewrite (Hs _ _ Eo). destruct (Z.eqb_spec (rg_main_id (is_registry s)) old_id); split; try congruence.
      intros Heq. exfalso. destruct (wf_main s Hwf) as [? ?]. congruence.
    + rewrite (Hs _ _ Hr). destruct (Z.eqb_spec (rg_main_id (is_registry s)) old_id); split; congruence.
  - intros k q [[<- <-]|[Hk Hq]]%lookup_insert_Some; cbn; [split; by eauto|]. by apply Hp in Hq.
Qed.

Lemma apply_outcomes_keys old_id new_id l acc k :
  (is_Some ((foldl (apply_outcome old_id new_id) acc l).1 !! k) →
     is_Some (acc.1 !! k) ∨ ∃ o, o ∈ l ∧ k = (new_id, ao_arc o)) ∧
  (is_Some (acc.1 !! k) → is_Some ((foldl (apply_outcome old_id new_id) acc l).1 !! k)).
Proof.
  revert acc. induction l as [|o l IH]; intros acc; cbn [foldl]; [by split; [left|]|].
  destruct (IH (apply_outcome old_id new_id acc o)) as [IH1 IH2]. split.
  - intros [[Hs| ->]%apply_outcome_keys|(o' & Hin & ->)]%IH1; [by left|..]; right; eexists; (split; [|done]); set_solver.
  - intros Hs. by apply IH2, apply_outcome_keeps.
Qed.

Lemma remove_broken_arcs_keep l acc :
  (id_wf acc.1 → id_wf (foldl remove_broken_arc acc l).1) ∧ (id_inv acc.1 → id_inv (foldl remove_broken_arc acc l).1).
Proof.
  revert acc. induction l as [|a l IH]; intros acc; cbn [foldl]; [done|].
  destruct (IH (remove_broken_arc acc a)) as [IH1 IH2].
  unfold remove_broken_arc in *. destruct (id_remove_arc acc.1 a) as [[s1 evs] b] eqn:E.
  apply id_remove_arc_keeps in E as [E1 E2]. cbn in *. split; auto.
Qed.

Lemma on_apply_migration_duplication_keeps s mid old_id new_id outcomes s' effs rep :
  on_apply_migration_duplication s mid old_id new_id outcomes = (s', effs, rep) →
  (id_wf s → id_wf s') ∧ (id_inv s → id_inv s').
Proof.
  unfold on_apply_migration_duplication, registry_get.
  destruct (rg_identities (is_registry s) !! new_id) as [rec|] eqn:En; [|by intros [= <- <- <-]].
  set (live := retain _ outcomes).
  pose proof (λ k, apply_outcomes_keys old_id new_id live (is_identity_arcs s, []) k) as Hk.
  destruct (foldl (apply_outcome _ _) _ live) as [m evs] eqn:Em. cbn in Hk.
  pose proof (remove_broken_arcs_keep (ao_arc <$> retain ao_broken live) (with_identity_arcs s m, evs)) as [Hb1 Hb2].
  destruct (foldl remove_broken_arc _ _) as [s2 evs'] eqn:Eb. cbn in *. intros [= <- _ _].
  assert (id_wf s → id_wf (with_identity_arcs s m)) as Hw.
  { intros Hw. apply (wf_same_registry s); [done| |done]. cbn.
    intros id a [Hs|(o & Ho & [= -> ->])]%Hk; [by apply (wf_keys s Hw)|].
    apply elem_of_retain in Ho as [_ Ho%bool_decide_eq_true]. by split; [eexists|]. }
  split; [auto|]. intros Hinv. apply Hb2.
  apply (inv_same_registry s); [done|by apply Hw, Hinv| |apply (inv_pending s Hinv)|done].
  cbn. intros id a Hid Ha. by apply Hk, (inv_full s Hinv).
Qed.

Lemma on_neighbour_migrated_keeps s my_id old new mac ll arc s' effs :
  on_neighbour_migrated s my_id old new mac ll arc = (s', effs) → (id_wf s → id_wf s') ∧ (id_inv s → id_inv s').
Proof.
  unfold on_neighbour_migrated. repeat case_match; intros [= <- <-]; try done.
  apply same_keys; [done..|]. cbn. intros k. apply is_Some_insert_same. by eexists.
Qed.

Lemma on_notify_keeps s my_id peer_id arc s' effs :
  on_notify_identity_arc_removed s my_id peer_id arc = (s', effs) → (id_wf s → id_wf s') ∧ (id_inv s → id_inv s').
Proof.
  unfold on_notify_identity_arc_removed. repeat case_match; intros [= <- <-]; try done.
  apply same_keys; [done..|]. cbn. intros k. apply is_Some_insert_same. by eexists.
Qed.

(** What dismissing an identity that is not the main one does. *)
Lemma dismiss_identity_spec s id s' effs :
  dismiss_identity s id = (s', effs) → id ≠ rg_main_id (is_registry s) →
  is_registry s' = mkRegistry (rg_main_id (is_registry s)) (delete id (rg_identities (is_registry s))) ∧
  is_arcs s' = is_arcs s ∧ is_pending s' = is_pending s ∧
  (id_wf s → ∀ k, is_identity_arcs s' !! k = if decide (k.1 = id) then None else is_identity_arcs s !! k).
Proof.
  unfold dismiss_identity. pose proof (λ k, lookup_take_arcs_of id (hm_iter (is_arcs s)) (is_identity_arcs s, []) k) as Hl.
  destruct (foldl _ _ _) as [m targets]. intros [= <- <-] Hne. cbn in *. split_and!; [|done..|].
  - unfold dismiss. destruct (Z.eqb_spec id (rg_main_id (is_registry s))); [done|].
    destruct (rg_identities (is_registry s) !! id) eqn:E; [done|]. rewrite delete_id by done. by destruct (is_registry s).
  - intros Hw k. rewrite Hl. destruct k as [i a]. cbn. case_decide as Hd; [by rewrite decide_True by apply Hd|].
    case_decide; [subst|done]. destruct (is_identity_arcs s !! (id, a)) eqn:Ei; [|done].
    exfalso. apply Hd. split; [done|]. apply elem_of_hm_keys, (wf_keys s Hw id a). by eexists.
Qed.

Lemma dismiss_identity_keeps s id s' effs :
  dismiss_identity s id = (s', effs) → id ≠ rg_main_id (is_registry s) →
  (id_wf s → id_wf s') ∧ (id_inv s → id_inv s').
Proof.
  intros Hd Hne. destruct (dismiss_identity_spec _ _ _ _ Hd Hne) as (Hr & Ha & Hp & Hi).
  assert (id_wf s → id_wf s') as Hw.
  { intros Hw. constructor; rewrite Hr; cbn.
    - rewrite lookup_delete_ne by done. apply Hw.
    - intros k r [_ Hk]%lookup_delete_Some. by apply (wf_keyed s Hw).
    - intros id' a. rewrite (Hi Hw). cbn. case_decide; [by intros []|]. intros [? ?]%(wf_keys s Hw).
      by rewrite Ha, lookup_delete_ne. }
  split; [done|]. intros Hinv. constructor; [by apply Hw, Hinv|rewrite Hr; cbn..|rewrite Hp; apply Hinv].
  - intros id' a [Hne' Hid]%lookup_delete_is_Some. rewrite Ha, (Hi (inv_wf s Hinv)). cbn.
    rewrite decide_False by done. by apply (inv_full s Hinv).
  - intros k r [_ Hk]%lookup_delete_Some. by apply (inv_status s Hinv).
Qed.

Lemma dismiss_identity_wf s id s' effs : dismiss_identity s id = (s', effs) → id_wf s → id_wf s'.
Proof.
  intros Hd. destruct (decide (id = rg_main_id (is_registry s))) as [Heq|Hne]; [|by apply (dismiss_identity_keeps _ _ _ _ Hd)].
  revert Hd. unfold dismiss_identity.
  pose proof (λ k, lookup_take_arcs_of id (hm_iter (is_arcs s)) (is_identity_arcs s, []) k) as Hl.
  destruct (foldl _ _ _) as [m targets]. intros [= <- <-] Hw. cbn in *.
  unfold dismiss. rewrite <- Heq, Z.eqb_refl. cbn. apply (wf_same_registry s); [done| |done]. cbn.
  intros i a. rewrite Hl. case_decide; [by intros []|]. apply (wf_keys s Hw).
Qed.

(** The state an abort dismisses the newer identity in. *)
Definition abort_base (s : IdState) (old_id new_id : Z) (new_record : IdentityRecord) : IdState :=
  with_registry (with_pending s (filter (λ kp, ¬ (kp.1.2 = old_id ∧ pm_new_id kp.2 = Some new_id)) (is_pending s)))
    (set_status (if (rg_main_id (is_registry s) =? new_id)%Z then reassign_main (is_registry s) old_id else is_registry s) old_id (ir_status new_record)).1.

Lemma abort_base_registry s old_id new_id old_record new_record :
  rg_identities (is_registry s) !! old_id = Some old_record →
  is_registry (abort_base s old_id new_id new_record) =
    mkRegistry (if (rg_main_id (is_registry s) =? new_id)%Z then old_id else rg_main_id (is_registry s))
      (<[old_id := mkIdentityRecord (ir_id old_record) (ir_naddr old_record) (ir_status new_record)]> (rg_identities (is_registry s))).
Proof. intros Ho. cbn. unfold set_status. destruct (rg_main_id (is_registry s) =? new_id)%Z; cbn; by rewrite Ho. Qed.

Lemma abort_base_wf s old_id new_id old_record new_record :
  rg_identities (is_registry s) !! old_id = Some old_record → id_wf s → id_wf (abort_base s old_id new_id new_record).
Proof.
  intros Ho [Hm Hid Hk]. constructor; rewrite (abort_base_registry _ _ _ _ _ Ho); cbn.
  - rewrite lookup_insert_is_Some'. case_match; auto.
  - intros k r [[<- <-]|[_ Hr]]%lookup_insert_Some; cbn; by apply Hid.
  - intros id a [Hs Ha]%Hk. by rewrite lookup_insert_is_Some'; auto.
Qed.

Lemma on_abort_migration_wf s old_id new_id s' effs rep :
  on_abort_migration s old_id new_id = (s', effs, rep) → id_wf s → id_wf s'.
Proof.
  unfold on_abort_migration, registry_get. destruct (_ !! new_id) as [nr|] eqn:En; [|by intros [= <- <- <-]].
  destruct (_ !! old_id) as [orec|] eqn:Eo; [|by intros [= <- <- <-]].
  fold (abort_base s old_id new_id nr). destruct (dismiss_identity _ _) as [s1 e1] eqn:Ed. intros [= <- <- <-] Hw.
  eapply dismiss_identity_wf; [done|]. by eapply abort_base_wf.
Qed.

(** What an abort that names a migration leaves. *)
Lemma on_abort_migration_spec s old_id new_id old_record new_record :
  rg_identities (is_registry s) !! old_id = Some old_record → rg_identities (is_registry s) !! new_id = Some new_record →
  old_id ≠ new_id → id_wf s →
  ∃ s' effs, on_abort_migration s old_id new_id = (s', effs, IdUnit (Ok tt)) ∧
    is_registry s' = mkRegistry (if (rg_main_id (is_registry s) =? new_id)%Z then old_id else rg_main_id (is_registry s))
      (delete new_id (<[old_id := mkIdentityRecord (ir_id old_record) (ir_naddr old_record) (ir_status new_record)]> (rg_identities (is_registry s)))) ∧
    is_arcs s' = is_arcs s ∧
    is_pending s' = filter (λ kp, ¬ (kp.1.2 = old_id ∧ pm_new_id kp.2 = Some new_id)) (is_pending s) ∧
    ∀ k, is_identity_arcs s' !! k = if decide (k.1 = new_id) then None else is_identity_arcs s !! k.
Proof.
  intros Ho Hn Hne Hw. unfold on_abort_migration, registry_get. rewrite Hn, Ho.
  fold (abort_base s old_id new_id new_record). destruct (dismiss_identity _ _) as [s1 e1] eqn:Ed.
  eexists s1, _. split; [done|].
  apply dismiss_identity_spec in Ed as (Hr & Ha & Hp & Hi); [|rewrite (abort_base_registry _ _ _ _ _ Ho); cbn; destruct (Z.eqb_spec (rg_main_id (is_registry s)) new_id); congruence].
  rewrite (abort_base_registry _ _ _ _ _ Ho) in Hr. split_and!; [done..|]. apply Hi. by eapply abort_base_wf.
Qed.

Lemma on_abort_migration_inv s old_id new_id s' effs rep :
  on_abort_migration s old_id new_id = (s', effs, rep) → old_id ≠ new_id → old_id ≠ rg_main_id (is_registry s) →
  id_inv s → id_inv s'.
Proof.
  intros Hab Hne Hmain Hinv. pose proof (on_abort_migration_wf _ _ _ _ _ _ Hab (inv_wf s Hinv)) as Hw'. revert Hab.
  destruct (rg_identities (is_registry s) !! new_id) as [nr|] eqn:En; [|by unfold on_abort_migration, registry_get; rewrite En; intros [= <- <- <-]].
  destruct (rg_identities (is_registry s) !! old_id) as [orec|] eqn:Eo; [|by unfold on_abort_migration, registry_get; rewrite En, Eo; intros [= <- <- <-]].
  destruct (on_abort_migration_spec s old_id new_id orec nr Eo En Hne (inv_wf s Hinv)) as (s2 & effs2 & -> & Hr & Ha & Hp & Hi).
  intros [= -> _ _]. constructor; [done|rewrite ?Hr, ?Ha, ?Hp; cbn..].
  - intros id a [Hne' Hid]%lookup_delete_is_Some Harc. rewrite Hi. cbn. rewrite decide_False by done.
    apply (inv_full s Hinv); [|done]. rewrite lookup_insert_is_Some' in Hid. destruct Hid as [<-|?]; [by eexists|done].
  - intros k r [Hk [[<- <-]|[Hk' Hr']]%lookup_insert_Some]%lookup_delete_Some; cbn.
    + rewrite (inv_status s Hinv _ _ En). destruct (Z.eqb_spec (rg_main_id (is_registry s)) new_id); split; congruence.
    + rewrite (inv_status s Hinv _ _ Hr'). destruct (Z.eqb_spec (rg_main_id (is_registry s)) new_id); split; congruence.
  - intros k p [Hk _]%map_lookup_filter_Some. by apply (inv_pending s Hinv k).
Qed.

Lemma set_naddr_keeps s id naddr s' effs rep :
  id_handle s 0 [] (SetNaddr id naddr) = (s', effs, rep) → (id_wf s → id_wf s') ∧ (id_inv s → id_inv s').
Proof.
  cbn. unfold set_naddr. destruct (rg_identities (is_registry s) !! id) as [rec|] eqn:E; intros [= <- <- <-]; [|by destruct s].
  match goal with |- (_ → id_wf ?s') ∧ _ => assert (id_wf s → id_wf s') as Hw end.
  { intros [Hm Hid Hk]. constructor; cbn; [by apply is_Some_insert_same|..].
    - intros k r [[<- <-]|[_ Hr]]%lookup_insert_Some; cbn; by apply Hid.
    - intros i a [Hs Ha]%Hk. split; [|done]. by apply is_Some_insert_same. }
  split; [done|]. intros Hinv. constructor; [by apply Hw, Hinv|cbn..|apply (inv_pending s Hinv)].
  - intros i a Hi. apply (inv_full s Hinv). revert Hi. by apply is_Some_insert_same.
  - intros k r [[<- <-]|[_ Hr]]%lookup_insert_Some; cbn; by apply (inv_status s Hinv).
Qed.

Lemma id_handle_wf s now hashes cmd s' effs rep : id_handle s now hashes cmd = (s', effs, rep) → id_wf s → id_wf s'.
Proof.
  destruct cmd; cbn [id_handle].
  - apply on_add_arc_keeps.
  - apply on_apply_arc_add_keeps.
  - destruct (id_remove_arc s arc) as [[s1 e1] b] eqn:E. intros [= <- <- <-]. by apply (id_remove_arc_keeps _ _ _ _ _ E).
  - apply on_prepare_migration_keeps.
  - apply on_migrate_keeps.
  - apply on_apply_migration_duplication_keeps.
  - intros [= <- <- <-] Hw. apply (wf_same_registry s); [done|apply (wf_keys s Hw)|done].
  - unfold on_remove_identity. destruct (Z.eqb_spec id (rg_main_id (is_registry s))); [by intros [= <- <- <-]|].
    case_match; [|by intros [= <- <- <-]]. destruct (dismiss_identity s id) as [s1 e1] eqn:E. intros [= <- <- <-].
    by apply (dismiss_identity_wf _ _ _ _ E).
  - apply on_abort_migration_wf.
  - by intros [= <- <- <-].
  - intros Hs. by eapply (set_naddr_keeps s).
  - by intros [= <- <- <-].
  - by intros [= <- <- <-].
  - destruct (on_neighbour_migrated _ _ _ _ _ _ _) as [s1 e1] eqn:E. intros [= <- <- <-]. by apply (on_neighbour_migrated_keeps _ _ _ _ _ _ _ _ _ E).
  - destruct (on_notify_identity_arc_removed _ _ _ _) as [s1 e1] eqn:E. intros [= <- <- <-]. by apply (on_notify_keeps _ _ _ _ _ _ E).
Qed.

Lemma id_handle_inv s now hashes cmd s' effs rep :
  id_handle s now hashes cmd = (s', effs, rep) → abort_names_migration s cmd → id_inv s → id_inv s'.
Proof.
  intros Hh Hok. pose proof (id_handle_wf _ _ _ _ _ _ _ Hh) as Hw. revert Hh. destruct cmd; cbn [id_handle] in *.
  - apply on_add_arc_keeps.
  - apply on_apply_arc_add_keeps.
  - destruct (id_remove_arc s arc) as [[s1 e1] b] eqn:E. intros [= <- <- <-]. by apply (id_remove_arc_keeps _ _ _ _ _ E).
  - apply on_prepare_migration_keeps.
  - apply on_migrate_keeps.
  - apply on_apply_migration_duplication_keeps.
  - intros [= <- <- <-] Hi. apply (inv_same_registry s); [done|by apply Hw, Hi|apply (inv_full s Hi)| |done].
    cbn. intros k p [_ Hk]%lookup_delete_Some. by apply (inv_pending s Hi k).
  - unfold on_remove_identity. destruct (Z.eqb_spec id (rg_main_id (is_registry s))); [by intros [= <- <- <-]|].
    case_match; [|by intros [= <- <- <-]]. destruct (dismiss_identity s id) as [s1 e1] eqn:E. intros [= <- <- <-].
    by apply (dismiss_identity_keeps _ _ _ _ E).
  - intros Hh. destruct Hok as [Hne Hm]. by eapply on_abort_migration_inv.
  - by intros [= <- <- <-].
  - intros Hs. by eapply (set_naddr_keeps s).
  - by intros [= <- <- <-].
  - by intros [= <- <- <-].
  - destruct (on_neighbour_migrated _ _ _ _ _ _ _) as [s1 e1] eqn:E. intros [= <- <- <-]. by apply (on_neighbour_migrated_keeps _ _ _ _ _ _ _ _ _ E).
  - destruct (on_notify_identity_arc_removed _ _ _ _) as [s1 e1] eqn:E. intros [= <- <- <-]. by apply (on_notify_keeps _ _ _ _ _ _ E).
Qed.
End Steps.

Lemma id_spawn_inv hash naddr : id_inv (id_spawn hash naddr).
Proof.
  split; [split|..]; cbn.
  - rewrite lookup_singleton_eq. by eexists.
  - by intros k r [<- <-]%lookup_singleton_Some.
  - intros id arc. rewrite lookup_empty. by intros [].
  - intros id arc _. rewrite lookup_empty. by intros [].
  - intros k r [<- <-]%lookup_singleton_Some. done.
  - intros k p. by rewrite lookup_empty.
Qed.

(** ** What the watch channel shows *)
Definition publishes (e : IdEffect) : bool := match e with IdPublish _ => true | _ => false end.

Lemma watched_app w l1 l2 : watched w (l1 ++ l2) = watched (watched w l1) l2.
Proof. unfold watched. by rewrite foldl_app. Qed.

Lemma watched_quiet w l : any publishes l = false → watched w l = w.
Proof.
  rewrite any_false. revert w. induction l as [|e l IH]; intros w Hq; [done|].
  cbn. rewrite IH by set_solver. specialize (Hq e). destruct e; [done| |done]. by discriminate Hq; set_solver.
Qed.

Section Watch.
Context `{HashOrder}.

Lemma remove_identity_arcs_quiet arc ids acc :
  any publishes acc.2 = false → any publishes (foldl (remove_identity_arc arc) acc ids).2 = false.
Proof.
  intros H0. apply (foldl_preserves (remove_identity_arc arc) (λ a, any publishes a.2 = false)); [done|].
  intros acc' id _ Hq. unfold remove_identity_arc. case_match; [|done]. cbn. rewrite any_app, Hq. cbn.
  apply any_false. intros e. rewrite elem_of_concat_fmap. intros (w & _ & He). unfold removal_events in He.
  apply list_elem_of_In in He. cbn in He. by destruct He as [<-|[<-|[]]].
Qed.

Lemma id_remove_arc_quiet s arc s' effs b : id_remove_arc s arc = (s', effs, b) → any publishes effs = false.
Proof.
  unfold id_remove_arc. case_match; [|by intros [= <- <- <-]].
  pose proof (remove_identity_arcs_quiet arc (registry_ids (is_registry s)) (is_identity_arcs s, []) eq_refl) as Hq.
  destruct (foldl _ _ _) as [m evs]. cbn in Hq. intros [= <- <- <-]. by rewrite any_app, Hq.
Qed.

(** A step that publishes shows the registry it leaves; one that does not leaves the registry. *)
Lemma id_handle_watched s now hashes cmd s' effs rep :
  id_handle s now hashes cmd = (s', effs, rep) →
  watched (registry_snapshot (is_registry s)) effs = registry_snapshot (is_registry s').
Proof.
  destruct cmd; cbn [id_handle].
  - unfold on_add_arc. case_match; by intros [= <- <- <-].
  - unfold on_apply_arc_add. repeat case_match; intros [= <- <- <-]; try done.
    match goal with He : id_remove_arc _ _ = _ |- _ => rewrite (watched_quiet _ _ (id_remove_arc_quiet _ _ _ _ _ He)); by destruct (id_remove_arc_spec _ _ _ _ _ He) as [-> _] end.
  - destruct (id_remove_arc s arc) as [[s1 e1] b] eqn:E. intros [= <- <- <-].
    rewrite (watched_quiet _ _ (id_remove_arc_quiet _ _ _ _ _ E)). by destruct (id_remove_arc_spec _ _ _ _ _ E) as [-> _].
  - unfold on_prepare_migration. repeat case_match; by intros [= <- <- <-].
  - unfold on_migrate. repeat case_match; by intros [= <- <- <-].
  - unfold on_apply_migration_duplication. case_match; [|by intros [= <- <- <-]].
    destruct (foldl (apply_outcome _ _) _ _) as [m evs]. destruct (foldl remove_broken_arc _ _) as [s2 evs'].
    intros [= <- <- <-]. by rewrite watched_app.
  - by intros [= <- <- <-].
  - unfold on_remove_identity. case_match; [by intros [= <- <- <-]|]. case_match; [|by intros [= <- <- <-]].
    destruct (dismiss_identity s id) as [s1 e1]. intros [= <- <- <-]. by rewrite watched_app.
  - unfold on_abort_migration. do 2 (case_match; [|by intros [= <- <- <-]]).
    destruct (dismiss_identity _ _) as [s1 e1]. intros [= <- <- <-]. by rewrite watched_app.
  - by intros [= <- <- <-].
  - unfold set_naddr. destruct (rg_identities (is_registry s) !! id); by intros [= <- <- <-].
  - by intros [= <- <- <-].
  - by intros [= <- <- <-].
  - unfold on_neighbour_migrated. repeat case_match; simplify_eq; by intros [= <- <- <-].
  - unfold on_notify_identity_arc_removed. repeat case_match; simplify_eq; by intros [= <- <- <-].
Qed.
End Watch.

(** C23: In every state that commands lead to, as long as an abort names a migration, exactly
    the main identity has the status of one and it is registered; every identity has a
    list of identity-arcs on every arc and there are no other lists; a migration is
    ready exactly when its identity has been forked; and what the watch channel shows is
    the registry. *)
Theorem identities_invariant `{HashOrder} y :
  id_reachable abort_names_migration y →
  let r := is_registry (sy_state y) in
  (∃ rec, rg_identities r !! rg_main_id r = Some rec ∧ ir_status rec = Main) ∧
  (∀ id rec, rg_identities r !! id = Some rec → ir_id rec = id ∧ (ir_status rec = Main → id = rg_main_id r)) ∧
  (∀ id arc, is_Some (is_identity_arcs (sy_state y) !! (id, arc)) ↔
     is_Some (rg_identities r !! id) ∧ is_Some (is_arcs (sy_state y) !! arc)) ∧
  (∀ k p, is_pending (sy_state y) !! k = Some p → pm_ready p = true ↔ is_Some (pm_new_id p)) ∧
  sy_watch y = registry_snapshot r.
Proof.
  intros Hr. assert (id_inv (sy_state y) ∧ sy_watch y = registry_snapshot (is_registry (sy_state y))) as [Hi Hw].
  { induction Hr as [hash naddr|y now hashes cmd Hr [Hi Hw] Hok]; [by split; [apply id_spawn_inv|]|].
    unfold system_step. destruct (id_handle _ _ _ _) as [[s' effs] rep] eqn:E. cbn. split.
    - by eapply id_handle_inv.
    - rewrite Hw. by eapply id_handle_watched. }
  destruct Hi as [[[rec Hm] Hid Hk] Hf Hs Hp]. cbn. split_and!; [| | |done..].
  - exists rec. split; [done|]. by apply (Hs _ _ Hm).
  - intros id r Hl. split; [by apply Hid | by apply Hs].
  - intros id arc. split; [apply Hk | intros []; auto].
Qed.

(** A node whose main identity 5 migrates to 7 over one arc, and aborts. *)
Definition ex_arc_info : ArcInfo := mkArcInfo "eth0" "aa" "fe80::a".
Definition ex_system : IdSystem :=
  let step y cmd := system_step (H := map_order) y 0 [7%Z] cmd in
  foldl step (system_spawn 5 None)
    [AddArc 1 ex_arc_info; ApplyArcAdd 1 (Ok 9%Z); PrepareMigration 3 5; Migrate 3 5 ∅].

Lemma identities_invariant_witness :
  rg_main_id (is_registry (sy_state ex_system)) = 7%Z ∧ sy_watch ex_system = registry_snapshot (is_registry (sy_state ex_system)).
Proof.
  split; [by vm_compute|].
  apply (identities_invariant (H := map_order) ex_system).
  unfold ex_system, foldl. repeat (apply id_reach_step; [|exact I]). apply id_reach_spawn.
Defined.
