(* ===== verification/IdentEvents.v ===== *)
(** * The events of the identity manager

    The event stream is complete: who folds it from the start holds, for every identity
    and arc, the actor's own list of identity-arcs. *)
From stdpp Require Import strings.
From S2P Require Import Prelude Addressing Domain Identities IdentProps.

(** ** What a subscriber knows *)

(** The identity-arcs of an identity on an arc. *)
Definition Seen : Type := Z * Z → list IdentityArc.

Definition seen_set (v : Seen) (k : Z * Z) (l : list IdentityArc) : Seen := λ k', if decide (k' = k) then l else v k'.

Definition see (v : Seen) (e : IdentityEvent) : Seen :=
  match e with
  | IdentityArcEvent arc id (ArcAdded peer_id mac linklocal) => seen_set v (id, arc) (v (id, arc) ++ [mkIdentityArc peer_id mac linklocal])
  | IdentityArcEvent arc id (ArcChanged peer_id mac linklocal _) => seen_set v (id, arc) (move_peer peer_id mac linklocal (v (id, arc)))
  | IdentityArcEvent arc id (ArcRemoved peer_id) => seen_set v (id, arc) (remove_peer peer_id (v (id, arc)))
  | IdentityDismissed id => λ k, if decide (k.1 = id) then [] else v k
  | _ => v
  end.

Definition arcs_in (m : ArcMap) : Seen := λ k, default [] (m !! k).

Abbreviation seen_eq := (pointwise_relation (Z * Z) (@eq (list IdentityArc))).

#[export] Instance seen_set_proper : Proper (seen_eq ==> eq ==> eq ==> seen_eq) seen_set.
Proof. intros v v' Hv k _ <- l _ <- k'. unfold seen_set. by case_decide. Qed.

#[export] Instance see_proper : Proper (seen_eq ==> eq ==> seen_eq) see.
Proof.
  intros v v' Hv e _ <-. destruct e as [| |id| |arc id []|]; cbn; try done;
    try (rewrite (Hv (id, arc)); by apply seen_set_proper).
  intros k. by case_decide.
Qed.

#[export] Instance foldl_see_proper : Proper (seen_eq ==> eq ==> seen_eq) (foldl see).
Proof.
  intros v v' Hv l _ <-. revert v v' Hv. induction l as [|e l IH]; intros v v' Hv; [done|]. cbn. apply IH. by apply see_proper.
Qed.

Lemma events_of_app l1 l2 : events_of (l1 ++ l2) = events_of l1 ++ events_of l2.
Proof. apply omap_app. Qed.

(** An effect list accounts for a change of the map. *)
Definition accounts (m : ArcMap) (effs : list IdEffect) (m' : ArcMap) : Prop :=
  seen_eq (foldl see (arcs_in m) (events_of effs)) (arcs_in m').

Lemma accounts_nil m : accounts m [] m.
Proof. done. Qed.

Lemma accounts_app m1 m2 m3 e1 e2 : accounts m1 e1 m2 → accounts m2 e2 m3 → accounts m1 (e1 ++ e2) m3.
Proof. unfold accounts. intros H1 H2. rewrite events_of_app, foldl_app, H1. done. Qed.

Lemma accounts_same m m' effs :
  events_of effs = [] → (∀ k, arcs_in m k = arcs_in m' k) → accounts m effs m'.
Proof. unfold accounts. intros -> Heq. exact Heq. Qed.

Lemma arcs_in_insert m k l : seen_eq (arcs_in (<[k := l]> m)) (seen_set (arcs_in m) k l).
Proof.
  intros k'. unfold arcs_in, seen_set. case_decide; simplify_eq; [by rewrite lookup_insert_eq | by rewrite lookup_insert_ne].
Qed.

(** ** The operations account for what they change *)
Lemma removal_events_seen arc id l v :
  v (id, arc) = l →
  seen_eq (foldl see v (events_of (concat ((λ w, removal_events arc id (ia_peer_id w)) <$> l)))) (seen_set v (id, arc) []).
Proof.
  revert v. induction l as [|w l IH]; intros v Hv; cbn.
  - intros k. unfold seen_set. by case_decide; simplify_eq.
  - rewrite IH.
    + intros k. unfold seen_set. by repeat case_decide.
    + unfold seen_set. rewrite decide_True by done. rewrite Hv. cbn. unfold is_peer. by rewrite Z.eqb_refl.
Qed.

Lemma remove_identity_arc_accounts m arc acc id :
  accounts m acc.2 acc.1 → accounts m (remove_identity_arc arc acc id).2 (remove_identity_arc arc acc id).1.
Proof.
  intros Ha. unfold remove_identity_arc. case_match eqn:E; [|done]. cbn.
  eapply accounts_app; [done|]. unfold accounts. rewrite removal_events_seen by (unfold arcs_in; by rewrite E).
  intros k. unfold seen_set, arcs_in. case_decide; simplify_eq; [by rewrite lookup_delete_eq | by rewrite lookup_delete_ne].
Qed.

Lemma apply_one_accounts m old_id new_id arc acc ia :
  old_id ≠ new_id → accounts m acc.2 acc.1 →
  accounts m (apply_one_duplication old_id new_id arc acc ia).2 (apply_one_duplication old_id new_id arc acc ia).1.
Proof.
  intros Hne Ha. unfold apply_one_duplication. cbn. eapply accounts_app; [done|].
  unfold accounts, entry_push. rewrite arcs_in_insert.
  destruct (id_dup_data ia) as [dup|]; cbn.
  - intros k. destruct (acc.1 !! (old_id, arc)) as [l|] eqn:E.
    + unfold seen_set, arcs_in. repeat case_decide; simplify_eq; rewrite ?E, ?lookup_insert_eq, ?lookup_insert_ne by congruence; try done.
    + unfold seen_set, arcs_in. repeat case_decide; simplify_eq; by rewrite ?E.
  - intros k. destruct (acc.1 !! (old_id, arc)) as [l|] eqn:E; unfold seen_set, arcs_in; case_decide; try done.
Qed.

Section Accounts.
Context `{HashOrder}.

Lemma id_remove_arc_accounts s arc s' effs b :
  id_remove_arc s arc = (s', effs, b) → accounts (is_identity_arcs s) effs (is_identity_arcs s').
Proof.
  unfold id_remove_arc. case_match; [|by intros [= <- <- <-]].
  pose proof (foldl_preserves (remove_identity_arc arc) (λ a, accounts (is_identity_arcs s) a.2 a.1)
    (is_identity_arcs s, []) (registry_ids (is_registry s)) (accounts_nil _)) as Hf.
  destruct (foldl _ _ _) as [m evs]. intros [= <- <- <-]. cbn in *.
  eapply accounts_app; [apply Hf; intros; by apply remove_identity_arc_accounts | by intros k].
Qed.

Lemma remove_broken_arcs_account m l acc :
  accounts m acc.2 (is_identity_arcs acc.1) →
  accounts m (foldl remove_broken_arc acc l).2 (is_identity_arcs (foldl remove_broken_arc acc l).1).
Proof.
  intros H0. apply (foldl_preserves remove_broken_arc (λ a, accounts m a.2 (is_identity_arcs a.1))); [done|].
  intros acc' a _ Ha. unfold remove_broken_arc. destruct (id_remove_arc _ _) as [[s1 evs] b] eqn:E. cbn.
  eapply accounts_app; [done | by eapply id_remove_arc_accounts].
Qed.

Lemma dismiss_identity_accounts s id s' effs :
  dismiss_identity s id = (s', effs) → id_wf s → accounts (is_identity_arcs s) effs (is_identity_arcs s').
Proof.
  unfold dismiss_identity. pose proof (λ k, lookup_take_arcs_of id (hm_iter (is_arcs s)) (is_identity_arcs s, []) k) as Hl.
  destruct (foldl _ _ _) as [m targets]. intros [= <- <-] Hw. cbn in *.
  intros k. unfold arcs_in. cbn. rewrite Hl. destruct k as [i a]. cbn.
  case_decide as Hi; [subst|].
  - case_decide as Hd; [done|]. destruct (is_identity_arcs s !! (id, a)) eqn:E; [|done].
    exfalso. apply Hd. split; [done|]. apply elem_of_hm_keys, (wf_keys s Hw id a). by eexists.
  - rewrite decide_False; [done|]. by intros [? _].
Qed.

(** The duplication is applied for two identities; the task that asks for it has a
    fresh one. *)
Definition forks (s : IdState) (cmd : IdCmd) : Prop :=
  match cmd with ApplyMigrationDuplication _ old_id new_id _ => old_id ≠ new_id | _ => True end.

Lemma apply_outcomes_account m old_id new_id l acc :
  old_id ≠ new_id → accounts m acc.2 acc.1 →
  accounts m (foldl (apply_outcome old_id new_id) acc l).2 (foldl (apply_outcome old_id new_id) acc l).1.
Proof.
  intros Hne H0. apply (foldl_preserves (apply_outcome old_id new_id) (λ a, accounts m a.2 a.1)); [done|].
  intros acc' o _ Ha. apply (foldl_preserves _ (λ a, accounts m a.2 a.1)); [done|].
  intros acc'' ia _ Ha'. by apply apply_one_accounts.
Qed.

Lemma entry_or_default_accounts {A} (f : A → Z * Z) l m effs :
  events_of effs = [] → accounts m effs (foldl (λ m x, entry_or_default m (f x)) m l).
Proof.
  intros He. apply accounts_same; [done|]. intros k. unfold arcs_in. rewrite lookup_entry_or_default_fold.
  case_decide; [|done]. cbn. done.
Qed.

Lemma on_neighbour_migrated_accounts s my_id old new mac ll arc s' effs :
  on_neighbour_migrated s my_id old new mac ll arc = (s', effs) → accounts (is_identity_arcs s) effs (is_identity_arcs s').
Proof.
  unfold on_neighbour_migrated. destruct (is_identity_arcs s !! (my_id, arc)) as [l|] eqn:El; [|by intros [= <- <-]].
  repeat case_match; intros [= <- <-]; try done. unfold accounts. cbn. rewrite arcs_in_insert.
  intros k. unfold seen_set, arcs_in. rewrite El. cbn. repeat case_decide; simplify_eq; done.
Qed.

Lemma on_notify_accounts s my_id peer_id arc s' effs :
  on_notify_identity_arc_removed s my_id peer_id arc = (s', effs) → accounts (is_identity_arcs s) effs (is_identity_arcs s').
Proof.
  unfold on_notify_identity_arc_removed. destruct (is_identity_arcs s !! (my_id, arc)) as [l|] eqn:El; [|by intros [= <- <-]].
  case_match; intros [= <- <-]; [|done]. unfold accounts. cbn. rewrite arcs_in_insert.
  intros k. unfold seen_set, arcs_in. rewrite El. cbn. by case_decide.
Qed.

Lemma on_apply_arc_add_accounts s arc r s' effs rep :
  on_apply_arc_add s arc r = (s', effs, rep) → accounts (is_identity_arcs s) effs (is_identity_arcs s').
Proof.
  unfold on_apply_arc_add. destruct r as [peer_id|e|]; [| |by intros [= <- <- <-]].
  - case_match; intros [= <- <- <-]; [|done]. unfold accounts, entry_push. cbn. by rewrite arcs_in_insert.
  - destruct (id_remove_arc s arc) as [[s1 evs] b] eqn:E. intros [= <- <- <-]. by eapply id_remove_arc_accounts.
Qed.

Lemma on_apply_migration_accounts s mid old_id new_id outcomes s' effs rep :
  on_apply_migration_duplication s mid old_id new_id outcomes = (s', effs, rep) → old_id ≠ new_id →
  accounts (is_identity_arcs s) effs (is_identity_arcs s').
Proof.
  unfold on_apply_migration_duplication. case_match; [|by intros [= <- <- <-]]. intros Heq Hne. revert Heq.
  set (live := retain _ outcomes).
  pose proof (apply_outcomes_account (is_identity_arcs s) old_id new_id live (is_identity_arcs s, []) Hne (accounts_nil _)) as Ha.
  destruct (foldl (apply_outcome _ _) _ live) as [m evs]. cbn in Ha.
  pose proof (remove_broken_arcs_account (is_identity_arcs s) (ao_arc <$> retain ao_broken live) (with_identity_arcs s m, evs) Ha) as Hb.
  destruct (foldl remove_broken_arc _ _) as [s2 evs']. cbn in Hb. intros [= <- <- <-].
  eapply accounts_app; [done | by intros k].
Qed.

Lemma dismissal_accounts s s0 id s' effs rest :
  is_identity_arcs s0 = is_identity_arcs s → id_wf s0 → dismiss_identity s0 id = (s', effs) →
  (∀ m, accounts m rest m) → accounts (is_identity_arcs s) (effs ++ rest) (is_identity_arcs s').
Proof.
  intros <- Hw Hd Hr. eapply accounts_app; [by eapply dismiss_identity_accounts | apply Hr].
Qed.

Lemma id_handle_accounts s now hashes cmd s' effs rep :
  id_handle s now hashes cmd = (s', effs, rep) → forks s cmd → id_wf s →
  accounts (is_identity_arcs s) effs (is_identity_arcs s').
Proof.
  intros Hh Hok Hw. revert Hh. destruct cmd; cbn [id_handle]; try (by intros [= <- <- <-]).
  - unfold on_add_arc. case_match; intros [= <- <- <-]; [done|]. by apply entry_or_default_accounts.
  - apply on_apply_arc_add_accounts.
  - destruct (id_remove_arc s arc) as [[s1 e1] b] eqn:E. intros [= <- <- <-]. by eapply id_remove_arc_accounts.
  - unfold on_prepare_migration. repeat case_match; by intros [= <- <- <-].
  - unfold on_migrate. repeat case_match; intros [= <- <- <-]; try done.
    apply (accounts_app _ (is_identity_arcs s) _ [_] [_; _]); [done|]. by apply entry_or_default_accounts.
  - intros Hh. by eapply on_apply_migration_accounts.
  - unfold on_remove_identity. case_match; [by intros [= <- <- <-]|]. case_match; [|by intros [= <- <- <-]].
    destruct (dismiss_identity s id) as [s1 e1] eqn:E. intros [= <- <- <-]. by eapply dismissal_accounts.
  - unfold on_abort_migration, registry_get. do 2 (case_match; [|by intros [= <- <- <-]]).
    fold (abort_base s old_id new_id i). destruct (dismiss_identity _ _) as [s1 e1] eqn:E. intros [= <- <- <-].
    eapply dismissal_accounts; [..|done|done]; [done|by eapply abort_base_wf].
  - destruct (set_naddr _ _ _) as [r x]. intros [= <- <- <-]. by destruct x.
  - destruct (on_neighbour_migrated _ _ _ _ _ _ _) as [s1 e1] eqn:E. intros [= <- <- <-]. by eapply on_neighbour_migrated_accounts.
  - destruct (on_notify_identity_arc_removed _ _ _ _) as [s1 e1] eqn:E. intros [= <- <- <-]. by eapply on_notify_accounts.
Qed.
End Accounts.

(** The events are complete: after every sequence of commands, whoever has folded the
    broadcast events knows for every identity and arc exactly the identity-arcs the actor
    keeps, with their peers' addresses and in their order; dismissals, broken arcs,
    aborted and matched migrations included. *)
Theorem event_stream_complete `{HashOrder} y :
  id_reachable forks y → ∀ id arc, foldl see (λ _, []) (sy_log y) (id, arc) = default [] (is_identity_arcs (sy_state y) !! (id, arc)).
Proof.
  intros Hr. cut (id_wf (sy_state y) ∧ seen_eq (foldl see (λ _, []) (sy_log y)) (arcs_in (is_identity_arcs (sy_state y)))).
  { intros [_ Hs] id arc. apply Hs. }
  induction Hr as [hash naddr|y now hashes cmd Hr [Hw Hs] Hok].
  - split; [apply id_spawn_inv|]. intros k. unfold arcs_in. cbn. by rewrite lookup_empty.
  - unfold system_step. destruct (id_handle _ _ _ _) as [[s' effs] rep] eqn:E. cbn. split; [by eapply id_handle_wf|].
    rewrite foldl_app, Hs. by eapply id_handle_accounts.
Qed.

Lemma event_stream_complete_witness :
  foldl see (λ _, []) (sy_log ex_system) (5%Z, 1%Z) = [mkIdentityArc 9 "aa" "fe80::a"] ∧
  is_identity_arcs (sy_state ex_system) !! (5%Z, 1%Z) = Some [mkIdentityArc 9 "aa" "fe80::a"].
Proof.
  assert (is_identity_arcs (sy_state ex_system) !! (5%Z, 1%Z) = Some [mkIdentityArc 9 "aa" "fe80::a"]) as Hi by (by vm_compute).
  split; [|done]. rewrite (event_stream_complete (H := map_order) ex_system); [by rewrite Hi|].
  unfold ex_system, foldl. repeat (apply id_reach_step; [|exact I]). apply id_reach_spawn.
Defined.
