(* ===== verification/IdentMigration.v ===== *)
(** * Migrations of identities

    What a migration and its abort do to a node, and what the two ends of an arc know of
    each other after one end or both have migrated. *)
From stdpp Require Import strings.
From S2P Require Import Prelude Addressing Domain Identities IdentWire IdentProps.

(** ** The wire values come back as they were sent *)
Section WireValues.
Context `{ProstMessage WireIdentityId, ProstMessage WireDuplicationData}.

Lemma identity_id_roundtrip id : identity_id_from_typed_value (identity_id_to_typed_value id) = Ok id.
Proof. unfold identity_id_from_typed_value, identity_id_to_typed_value. by rewrite from_typed_value_typed_value. Qed.

Lemma duplication_data_roundtrip d : duplication_data_from_typed_value (duplication_data_to_typed_value d) = Ok d.
Proof.
  unfold duplication_data_from_typed_value, duplication_data_to_typed_value. rewrite from_typed_value_typed_value. by destruct d.
Qed.

Lemma decode_id_roundtrip id field : decode_id (Some (identity_id_to_typed_value id)) field = Ok id.
Proof. unfold decode_id. cbn. by rewrite identity_id_roundtrip. Qed.
End WireValues.

(** A system's step back, for the invariant of a concrete system. *)
Ltac step_inv :=
  unfold system_step at 1;
  match goal with |- context [id_handle ?s ?n ?h ?c] =>
    let E := fresh in destruct (id_handle s n h c) as [[? ?] ?] eqn:E; eapply id_handle_inv; [exact E|done|]; clear E
  end.

(** ** An abort undoes a migration *)
Section Abort.
Context `{HashOrder}.

Lemma on_migrate_spec s hashes mid old_id devices p rec new_id :
  is_pending s !! (mid, old_id) = Some p → rg_identities (is_registry s) !! old_id = Some rec →
  fresh_id (rg_identities (is_registry s)) hashes = Some new_id →
  ∃ s' effs, on_migrate s hashes mid old_id devices = (s', effs, IdDeferred) ∧
    is_registry s' = fork_registry (is_registry s) old_id new_id rec ∧
    is_arcs s' = is_arcs s ∧
    is_pending s' = <[(mid, old_id) := mkPendingMigration true (pm_deadline p) (Some new_id) devices]> (is_pending s) ∧
    ∀ k, is_identity_arcs s' !! k =
      if decide (k ∈ (λ ai : Z * ArcInfo, (new_id, ai.1)) <$> hm_iter (is_arcs s)) then Some (default [] (is_identity_arcs s !! k)) else is_identity_arcs s !! k.
Proof.
  intros Hp Hr Hn. unfold on_migrate, registry_get. rewrite Hp, Hr, Hn. do 2 eexists. split; [done|]. cbn.
  split_and!; [done..|]. intros k. apply lookup_entry_or_default_fold.
Qed.

Lemma fork_then_abort_identities (ids : gmap Z IdentityRecord) old_id new_id rec :
  ids !! old_id = Some rec → ids !! new_id = None →
  delete new_id (<[old_id := mkIdentityRecord (ir_id rec) (ir_naddr rec) (ir_status rec)]>
    (<[old_id := mkIdentityRecord (ir_id rec) (ir_naddr rec) Connectivity]> (<[new_id := mkIdentityRecord new_id None (ir_status rec)]> ids))) = ids.
Proof.
  intros Ho Hn. assert (old_id ≠ new_id) by congruence. apply map_eq. intros k.
  destruct (decide (k = new_id)) as [->|]; [by rewrite lookup_delete_eq|]. rewrite lookup_delete_ne by done.
  destruct (decide (k = old_id)) as [->|]; [rewrite lookup_insert_eq, Ho; by destruct rec|].
  by rewrite !lookup_insert_ne by done.
Qed.

(** C24: Aborting a migration right after it forked the identity gives back the state before
    it: the same identities with the same statuses, addresses and main one, the same
    arcs, the same identity-arcs, no pending migration of that pair left; and when the
    duplication task of the aborted migration reports later, its report is refused and
    changes nothing. *)
Theorem abort_reverts_migration s hashes mid old_id devices p rec new_id :
  id_inv s → is_pending s !! (mid, old_id) = Some p → rg_identities (is_registry s) !! old_id = Some rec →
  fresh_id (rg_identities (is_registry s)) hashes = Some new_id →
  ∃ s1 e1 s2 e2,
    on_migrate s hashes mid old_id devices = (s1, e1, IdDeferred) ∧
    on_abort_migration s1 old_id new_id = (s2, e2, IdUnit (Ok tt)) ∧
    is_registry s2 = is_registry s ∧ is_arcs s2 = is_arcs s ∧ is_identity_arcs s2 = is_identity_arcs s ∧
    is_pending s2 !! (mid, old_id) = None ∧
    ∀ outcomes, on_apply_migration_duplication s2 mid old_id new_id outcomes = (s2, [], IdId (Err (UnknownIdentity new_id))).
Proof.
  intros Hinv Hp Hr Hn. pose proof (fresh_id_fresh _ _ _ Hn) as Hf.
  destruct (on_migrate_spec s hashes mid old_id devices p rec new_id Hp Hr Hn) as (s1 & e1 & Hm & Hr1 & Ha1 & Hp1 & Hi1).
  rewrite (fork_registry_eq _ _ _ _ Hr Hf) in Hr1. assert (old_id ≠ new_id) as Hne by congruence.
  destruct (on_abort_migration_spec s1 old_id new_id (mkIdentityRecord (ir_id rec) (ir_naddr rec) Connectivity) (mkIdentityRecord new_id None (ir_status rec)))
    as (s2 & e2 & Hab & Hr2 & Ha2 & Hp2 & Hi2).
  { rewrite Hr1. apply lookup_insert_eq. }
  { rewrite Hr1. cbn. rewrite lookup_insert_ne by done. apply lookup_insert_eq. }
  { done. }
  { by apply (on_migrate_keeps _ _ _ _ _ _ _ _ Hm), Hinv. }
  exists s1, e1, s2, e2. rewrite Hr1 in Hr2. cbn in Hr2. rewrite fork_then_abort_identities in Hr2 by done.
  assert (is_registry s2 = is_registry s) as HR.
  { rewrite Hr2. destruct (wf_main s (inv_wf s Hinv)) as [mrec Hmrec]. destruct (is_registry s) as [main ids]. cbn in *.
    destruct (Z.eqb_spec main old_id); [by rewrite Z.eqb_refl; subst|]. destruct (Z.eqb_spec main new_id); [congruence|done]. }
  split_and!; [done|done|done|congruence|..].
  - apply map_eq. intros [i a]. rewrite Hi2, Hi1. cbn. case_decide as Hd; [subst i|].
    + destruct (is_identity_arcs s !! (new_id, a)) eqn:E; [|done].
      destruct (wf_keys s (inv_wf s Hinv) new_id a) as [[? ?] _]; [by eexists | congruence].
    + rewrite decide_False; [done|]. intros (? & [= -> _] & _)%list_elem_of_fmap. done.
  - rewrite Hp2, Hp1. apply map_lookup_filter_None. right. rewrite lookup_insert_eq. intros q [= <-] Hno. by apply Hno.
  - intros outcomes. unfold on_apply_migration_duplication, registry_get. by rewrite HR, Hf.
Qed.
End Abort.

(** The main identity 5 of [ex_system]'s node, ready to migrate. *)
Definition ex_prepared : IdState :=
  sy_state (foldl (λ y cmd, system_step (H := map_order) y 0 [] cmd) (system_spawn 5 None)
    [AddArc 1 ex_arc_info; ApplyArcAdd 1 (Ok 9%Z); PrepareMigration 3 5]).

Lemma ex_prepared_inv : id_inv ex_prepared.
Proof.
  unfold ex_prepared, foldl. do 3 step_inv.
  apply id_spawn_inv.
Qed.

Lemma abort_reverts_migration_witness :
  ∃ s1 e1 s2 e2, on_migrate (H := map_order) ex_prepared [7%Z] 3 5 ∅ = (s1, e1, IdDeferred) ∧
    on_abort_migration (H := map_order) s1 5 7 = (s2, e2, IdUnit (Ok tt)) ∧ is_registry s2 = is_registry ex_prepared.
Proof.
  destruct (abort_reverts_migration (H := map_order) ex_prepared [7%Z] 3 5 ∅ (mkPendingMigration false MIGRATION_CLEANUP_TIMEOUT None ∅)
    (mkIdentityRecord 5 None Main) 7) as (s1 & e1 & s2 & e2 & ? & ? & ? & _);
    [apply ex_prepared_inv|by vm_compute..|by exists s1, e1, s2, e2].
Defined.

(** ** The two ends of an arc *)

(** An identity has an identity-arc to a peer's identity. *)
Definition reaches (s : IdState) (id arc peer : Z) : Prop :=
  peer ∈ ia_peer_id <$> default [] (is_identity_arcs s !! (id, arc)).

#[export] Instance reaches_dec s id arc peer : Decision (reaches s id arc peer).
Proof. unfold reaches. apply _. Defined.

Lemma move_peer_ids peer_id mac ll l : ia_peer_id <$> move_peer peer_id mac ll l = ia_peer_id <$> l.
Proof. induction l as [|w l IH]; [done|]. cbn. case_match; cbn; [done | by rewrite IH]. Qed.

Lemma reaches_any s id arc peer l :
  is_identity_arcs s !! (id, arc) = Some l → reaches s id arc peer ↔ any (is_peer peer) l = true.
Proof.
  intros Hl. unfold reaches. rewrite Hl. cbn. rewrite list_elem_of_fmap, any_true. unfold is_peer.
  setoid_rewrite Z.eqb_eq. naive_solver.
Qed.

Lemma reaches_list s id arc peer : reaches s id arc peer → ∃ l, is_identity_arcs s !! (id, arc) = Some l.
Proof. unfold reaches. destruct (_ !! _) as [l|]; [by eexists|]. cbn. by intros ?%elem_of_nil. Qed.

(** What the report of one call does. *)
Lemma apply_single `{HashOrder} s mid a a' arc b dd :
  is_Some (rg_identities (is_registry s) !! a') → is_Some (is_arcs s !! arc) → a ≠ a' → reaches s a arc b →
  ∃ s' effs, on_apply_migration_duplication s mid a a' [mkArcDuplicationOutcome arc false [mkIdentityArcDuplication b dd]]
    = (s', effs, IdId (Ok a')) ∧
    reaches s' a arc b ∧ reaches s' a' arc (match dd with Some d => dd_peer_new_id d | None => b end).
Proof.
  intros [rec Hrec] Harc Hne Hb. destruct (reaches_list _ _ _ _ Hb) as [l Hl].
  unfold on_apply_migration_duplication, registry_get. rewrite Hrec.
  unfold retain. cbn [List.filter ao_arc]. rewrite bool_decide_true by done. cbn [foldl List.filter ao_broken fmap list_fmap].
  do 2 eexists. split; [done|].
  unfold apply_outcome, reaches. cbn [foldl ao_identity_arcs ao_arc is_identity_arcs with_identity_arcs]. unfold apply_one_duplication, entry_push. cbn -[move_peer].
  rewrite Hl. unfold reaches in Hb. rewrite Hl in Hb. cbn in Hb. split.
  - destruct dd as [d|]; rewrite lookup_insert_ne by congruence; [rewrite lookup_insert_eq; cbn; by rewrite move_peer_ids | by rewrite Hl].
  - rewrite lookup_insert_eq. destruct dd as [d|]; cbn; rewrite fmap_app, elem_of_app; right; cbn; set_solver.
Qed.

Section Ends.
Context `{HashOrder, ProstMessage WireIdentityId, ProstMessage WireDuplicationData}.

(** The run of an inbound [match_duplication] call with nothing in between; [seen] tells
    whether a pending migration was seen to be ready. *)
Definition answer (arc_for_caller : IdCaller → option Z) (s : IdState) (mid b a a' : Z) (dev : MigrationDeviceInfo) (seen : bool) : HandlerRun :=
  run_handler (id_rpc_handle arc_for_caller (registry_snapshot (is_registry s)) (caller_context a)
    (build_match_duplication_call mid b a a' dev)) s [([], false); ([], seen)].

Definition unmatched_run (s : IdState) (arc b a a' : Z) (dev : MigrationDeviceInfo) : HandlerRun :=
  let '(s', effs) := on_neighbour_migrated s b a a' (md_old_id_new_mac dev) (md_old_id_new_linklocal dev) arc in
  mkHandlerRun s' effs (Ok absent).

Lemma answer_exact arc_for_caller s mid b a a' dev seen arc :
  arc_for_caller (caller_context a) = Some arc →
  answer arc_for_caller s mid b a a' dev seen =
    match is_pending s !! (mid, b) with
    | Some _ =>
        if seen then
          match fetch_duplication_data s mid b arc with
          | Ok data => mkHandlerRun s [] (Ok (present (duplication_data_to_typed_value data)))
          | _ => unmatched_run s arc b a a' dev
          end
        else unmatched_run s arc b a a' dev
    | None => unmatched_run s arc b a a' dev
    end.
Proof.
  intros Harc. unfold answer, unmatched_run, build_match_duplication_call, id_rpc_handle, match_duplication. rewrite Harc.
  cbn [ma_peer_id ma_old_id ma_new_id]. rewrite !decode_id_roundtrip. cbn [handler_try ma_migration_id].
  cbn -[on_neighbour_migrated fetch_duplication_data]. destruct (is_pending s !! (mid, b)) as [p|]; cbn -[on_neighbour_migrated fetch_duplication_data].
  - destruct seen; cbn -[on_neighbour_migrated fetch_duplication_data].
    + destruct (fetch_duplication_data s mid b arc); cbn -[on_neighbour_migrated]; try done;
        destruct (on_neighbour_migrated _ _ _ _ _ _ _); cbn; by rewrite app_nil_r.
    + destruct (on_neighbour_migrated _ _ _ _ _ _ _); cbn; by rewrite app_nil_r.
  - destruct (on_neighbour_migrated _ _ _ _ _ _ _); cbn; by rewrite app_nil_r.
Qed.

Lemma neighbour_migrated_reaches s arc b a a' mac ll :
  reaches s b arc a → ¬ reaches s b arc a' → String.length mac ≤ MAX_PEER_STRING_LEN → String.length ll ≤ MAX_PEER_STRING_LEN →
  let s' := (on_neighbour_migrated s b a a' mac ll arc).1 in reaches s' b arc a ∧ reaches s' b arc a'.
Proof.
  intros Ha Hna Hm Hll. destruct (reaches_list _ _ _ _ Ha) as [l Hl]. unfold on_neighbour_migrated. rewrite Hl.
  rewrite (reaches_any _ _ _ _ _ Hl) in Ha. rewrite (reaches_any _ _ _ _ _ Hl) in Hna. apply not_true_is_false in Hna. rewrite Hna.
  assert ((MAX_PEER_STRING_LEN <? String.length mac) = false) as -> by (apply Nat.ltb_ge; done).
  assert ((MAX_PEER_STRING_LEN <? String.length ll) = false) as -> by (apply Nat.ltb_ge; done). cbn [orb].
  destruct (find (is_peer a) l) as [w0|] eqn:Ef.
  - unfold reaches. cbn. rewrite lookup_insert_eq. cbn. rewrite fmap_app, move_peer_ids. split; apply elem_of_app; [left|right; cbn; set_solver].
    apply any_true in Ha as (w & Hw & Hpeer). apply list_elem_of_fmap. exists w. unfold is_peer in Hpeer. split; [lia|done].
  - apply any_true in Ha as (w & Hw & Hpeer). rewrite find_None_iff in Ef. by rewrite Ef in Hpeer.
Qed.

(** One end of an arc migrates, the other does not: the other end answers that it has
    nothing to match, and gets an identity-arc to the new identity besides the old one,
    which it keeps; when the report is applied, the new identity has an identity-arc to
    the other end, and the old one keeps its own.  So every identity-arc is still known
    at both ends. *)
Theorem one_sided_migration_mutual arc_for_caller sA sB mid a a' b arcA arcB dev seen :
  arc_for_caller (caller_context a) = Some arcB →
  is_Some (rg_identities (is_registry sA) !! a') → is_Some (is_arcs sA !! arcA) → a ≠ a' →
  reaches sA a arcA b → reaches sB b arcB a → ¬ reaches sB b arcB a' →
  String.length (md_old_id_new_mac dev) ≤ MAX_PEER_STRING_LEN → String.length (md_old_id_new_linklocal dev) ≤ MAX_PEER_STRING_LEN →
  is_pending sB !! (mid, b) = None →
  ∃ payload sA' effs, let r := answer arc_for_caller sB mid b a a' dev seen in
    hr_out r = Ok payload ∧ decode_duplication_response (Some payload) = Ok None ∧
    on_apply_migration_duplication sA mid a a' [mkArcDuplicationOutcome arcA false [mkIdentityArcDuplication b None]] = (sA', effs, IdId (Ok a')) ∧
    reaches sA' a' arcA b ∧ reaches (hr_state r) b arcB a' ∧ reaches sA' a arcA b ∧ reaches (hr_state r) b arcB a.
Proof.
  intros Harc Hreg HarcA Hne HA HB HnB Hm Hll Hp. rewrite (answer_exact _ _ _ _ _ _ _ _ _ Harc), Hp.
  destruct (apply_single sA mid a a' arcA b None Hreg HarcA Hne HA) as (sA' & effs & Happ & G1 & G2).
  destruct (neighbour_migrated_reaches sB arcB b a a' _ _ HB HnB Hm Hll) as [G3 G4].
  exists absent, sA', effs. unfold unmatched_run. destruct (on_neighbour_migrated _ _ _ _ _ _ _) as [s' e]. cbn in *. by split_and!.
Qed.

(** Both ends migrate: each answers the other's call with its own new identity and
    changes nothing; when both reports are applied, the two new identities have an
    identity-arc to each other and the two old ones keep theirs. *)
Theorem matched_migration_mutual arc_for_A arc_for_B sA sB mid a a' b b' arcA arcB devA devB dA dB :
  arc_for_B (caller_context a) = Some arcB → arc_for_A (caller_context b) = Some arcA →
  is_Some (rg_identities (is_registry sA) !! a') → is_Some (rg_identities (is_registry sB) !! b') → a ≠ a' → b ≠ b' →
  is_Some (is_arcs sA !! arcA) → is_Some (is_arcs sB !! arcB) → reaches sA a arcA b → reaches sB b arcB a →
  fetch_duplication_data sA mid a arcA = Ok dA → dd_peer_new_id dA = a' →
  fetch_duplication_data sB mid b arcB = Ok dB → dd_peer_new_id dB = b' →
  let rB := answer arc_for_B sB mid b a a' devA true in let rA := answer arc_for_A sA mid a b b' devB true in
  hr_state rA = sA ∧ hr_state rB = sB ∧
  ∃ payA payB sA' sB' effsA effsB,
    hr_out rB = Ok payB ∧ decode_duplication_response (Some payB) = Ok (Some dB) ∧
    hr_out rA = Ok payA ∧ decode_duplication_response (Some payA) = Ok (Some dA) ∧
    on_apply_migration_duplication sA mid a a' [mkArcDuplicationOutcome arcA false [mkIdentityArcDuplication b (Some dB)]] = (sA', effsA, IdId (Ok a')) ∧
    on_apply_migration_duplication sB mid b b' [mkArcDuplicationOutcome arcB false [mkIdentityArcDuplication a (Some dA)]] = (sB', effsB, IdId (Ok b')) ∧
    reaches sA' a' arcA b' ∧ reaches sB' b' arcB a' ∧ reaches sA' a arcA b ∧ reaches sB' b arcB a.
Proof.
  intros HcA HcB HrA HrB Hna Hnb HarcA HarcB HA HB HfA HdA HfB HdB rB rA. subst rA rB.
  rewrite (answer_exact _ _ _ _ _ _ _ _ _ HcA), (answer_exact _ _ _ _ _ _ _ _ _ HcB), HfA, HfB.
  assert (is_Some (is_pending sA !! (mid, a))) as [pA ->].
  { unfold fetch_duplication_data in HfA. destruct (is_pending sA !! (mid, a)); [by eexists|done]. }
  assert (is_Some (is_pending sB !! (mid, b))) as [pB ->].
  { unfold fetch_duplication_data in HfB. destruct (is_pending sB !! (mid, b)); [by eexists|done]. }
  destruct (apply_single sA mid a a' arcA b (Some dB) HrA HarcA Hna HA) as (sA' & effsA & G1 & G2 & G3).
  destruct (apply_single sB mid b b' arcB a (Some dA) HrB HarcB Hnb HB) as (sB' & effsB & G4 & G5 & G6).
  split_and!; [done..|]. eexists _, _, sA', sB', effsA, effsB. cbn [hr_out].
  split_and!; [done| |done| |done|done|by subst b'|by subst a'|done|done];
    cbn [decode_duplication_response present]; by rewrite duplication_data_roundtrip.
Qed.

Lemma notices_shape my_id broken world targets arc caller call :
  (arc, caller, call) ∈ notify_peers_arc_removed my_id broken world targets →
  caller = caller_context my_id ∧ ∃ peer_id, call = notify_call my_id peer_id.
Proof.
  revert broken world. induction targets as [|[a p] targets IH]; intros broken world; cbn; [by intros ?%elem_of_nil|].
  case_decide; [apply IH|]. intros [[= -> -> ->]|Hin]%elem_of_cons; [|by eapply IH]. split; [done | by eexists].
Qed.

(** The notice of a dismissal is lost: it names the dismissed identity as the receiver's
    own and the receiver's as the peer, and the receiver looks it up that way; it has no
    identity of that name, so that it answers that all is well and keeps its
    identity-arc to the dismissed identity. *)
Theorem dismissal_notice_lost arc_for_caller s my_id world targets arc caller call :
  (arc, caller, call) ∈ notify_peers_arc_removed my_id ∅ world targets →
  id_wf s → rg_identities (is_registry s) !! my_id = None → is_Some (arc_for_caller caller) →
  run_handler (id_rpc_handle arc_for_caller (registry_snapshot (is_registry s)) caller call) s [] = mkHandlerRun s [] (Ok absent).
Proof.
  intros [-> [peer_id ->]]%notices_shape Hw Hn [arc' Harc].
  unfold notify_call, id_rpc_handle, notify_identity_arc_removed. rewrite Harc. cbn [na_my_id na_peer_id].
  rewrite !decode_id_roundtrip. cbn. unfold on_notify_identity_arc_removed.
  destruct (is_identity_arcs s !! (my_id, arc')) as [l|] eqn:E; [|done].
  destruct (wf_keys s Hw my_id arc') as [[? ?] _]; [by eexists | congruence].
Qed.
End Ends.

(** ** The hypotheses can hold *)
#[refine] Definition ex_prost_id : ProstMessage WireIdentityId := {|
  encode_to_vec m := [wi_value m];
  prost_decode l := match l with [v] => Ok (mkWireIdentityId v) | _ => Err "invalid" end
|}.
Proof. by intros []. Defined.

Definition duplication_code (m : WireDuplicationData) : option Z * string * string :=
  (wi_value <$> wd_peer_new_id m, wd_peer_old_id_new_mac m, wd_peer_old_id_new_linklocal m).
Definition duplication_of_code (c : option Z * string * string) : WireDuplicationData :=
  mkWireDuplicationData (mkWireIdentityId <$> c.1.1) c.1.2 c.2.

#[refine] Definition ex_prost_dup : ProstMessage WireDuplicationData := {|
  encode_to_vec m := [Zpos (encode (duplication_code m))];
  prost_decode l :=
    match l with
    | [Zpos p] => match decode p with Some c => Ok (duplication_of_code c) | None => Err "invalid" end
    | _ => Err "invalid"
    end
|}.
Proof. intros [[[]|] ? ?]; cbn; by rewrite decode_encode. Defined.

(** The node of identity 9 at the other end of the arc, arc 2 there, as it is and after
    it has forked 9 into 11 for the same migration. *)
Definition ex_run (y : IdSystem) (hashes : list Z) (cmds : list IdCmd) : IdState :=
  sy_state (foldl (λ y cmd, system_step (H := map_order) y 0 hashes cmd) y cmds).
Definition ex_device (mac : string) : gmap string MigrationDeviceInfo := {["eth0" := mkMigrationDeviceInfo mac "fe80::f"]}.
Definition ex_migrated : IdState :=
  ex_run (system_spawn 5 None) [7%Z] [AddArc 1 ex_arc_info; ApplyArcAdd 1 (Ok 9%Z); PrepareMigration 3 5; Migrate 3 5 (ex_device "a1")].
Definition ex_peer : IdState := ex_run (system_spawn 9 None) [] [AddArc 2 ex_arc_info; ApplyArcAdd 2 (Ok 5%Z)].
Definition ex_peer_migrated : IdState :=
  ex_run (system_spawn 9 None) [11%Z] [AddArc 2 ex_arc_info; ApplyArcAdd 2 (Ok 5%Z); PrepareMigration 3 9; Migrate 3 9 (ex_device "b1")].

Lemma one_sided_migration_mutual_witness :
  ∃ payload sA' effs, on_apply_migration_duplication (H := map_order) ex_migrated 3 5 7
      [mkArcDuplicationOutcome 1 false [mkIdentityArcDuplication 9 None]] = (sA', effs, IdId (Ok 7%Z)) ∧
    hr_out (answer (H := map_order) (H0 := ex_prost_id) (H1 := ex_prost_dup) (λ _, Some 2%Z) ex_peer 3 9 5 7 (mkMigrationDeviceInfo "a1" "fe80::f") false) = Ok payload ∧
    reaches sA' 7 1 9.
Proof.
  destruct (one_sided_migration_mutual (H := map_order) (H0 := ex_prost_id) (H1 := ex_prost_dup) (λ _, Some 2%Z) ex_migrated ex_peer 3 5 7 9 1 2
    (mkMigrationDeviceInfo "a1" "fe80::f") false) as (payload & sA' & effs & ? & _ & ? & ? & _);
    [done|by eexists; vm_compute|by eexists; vm_compute|done|apply (bool_decide_unpack _); by vm_compute..|cbn; unfold MAX_PEER_STRING_LEN; lia|cbn; unfold MAX_PEER_STRING_LEN; lia|by vm_compute|].
  by exists payload, sA', effs.
Defined.

Lemma matched_migration_mutual_witness :
  ∃ sA' sB' effsA effsB, 
    on_apply_migration_duplication (H := map_order) ex_migrated 3 5 7
      [mkArcDuplicationOutcome 1 false [mkIdentityArcDuplication 9 (Some (mkDuplicationData 11 "b1" "fe80::f"))]] = (sA', effsA, IdId (Ok 7%Z)) ∧
    on_apply_migration_duplication (H := map_order) ex_peer_migrated 3 9 11
      [mkArcDuplicationOutcome 2 false [mkIdentityArcDuplication 5 (Some (mkDuplicationData 7 "a1" "fe80::f"))]] = (sB', effsB, IdId (Ok 11%Z)) ∧
    reaches sA' 7 1 11 ∧ reaches sB' 11 2 7.
Proof.
  destruct (matched_migration_mutual (H := map_order) (H0 := ex_prost_id) (H1 := ex_prost_dup) (λ _, Some 1%Z) (λ _, Some 2%Z) ex_migrated ex_peer_migrated
    3 5 7 9 11 1 2 (mkMigrationDeviceInfo "a1" "fe80::f") (mkMigrationDeviceInfo "b1" "fe80::f")
    (mkDuplicationData 7 "a1" "fe80::f") (mkDuplicationData 11 "b1" "fe80::f"))
    as (_ & _ & payA & payB & sA' & sB' & effsA & effsB & _ & _ & _ & _ & ? & ? & ? & ? & _);
    [done|done|by eexists; vm_compute|by eexists; vm_compute|done|done|by eexists; vm_compute|by eexists; vm_compute
    |apply (bool_decide_unpack _); by vm_compute|apply (bool_decide_unpack _); by vm_compute|by vm_compute|done|by vm_compute|done|].
  by exists sA', sB', effsA, effsB.
Defined.

Lemma ex_peer_inv : id_inv ex_peer.
Proof.
  unfold ex_peer, ex_run, foldl. do 2 step_inv.
  apply id_spawn_inv.
Qed.

Lemma dismissal_notice_lost_witness :
  hr_state (run_handler (H := map_order) (id_rpc_handle (H := ex_prost_id) (H0 := ex_prost_dup) (λ _, Some 2%Z) (registry_snapshot (is_registry ex_peer))
    (caller_context (H := ex_prost_id) 5) (notify_call (H := ex_prost_id) 5 9)) ex_peer []) = ex_peer ∧ reaches ex_peer 9 2 5.
Proof.
  split; [|apply (bool_decide_unpack _); by vm_compute].
  erewrite (dismissal_notice_lost (H := map_order) (H0 := ex_prost_id) (H1 := ex_prost_dup) _ ex_peer 5 [] [(1%Z, 9%Z)] 1);
    [done|cbn; apply list_elem_of_here|apply ex_peer_inv|by vm_compute|by eexists].
Defined.

(** After a matched migration the identity-arc to the peer's new identity has the address
    the peer's old identity was moved to; one kept from before, or got when only the peer
    migrates, has the address the link has. *)
Example matched_address_is_the_old_one :
  let sA' := (on_apply_migration_duplication (H := map_order) ex_migrated 3 5 7
    [mkArcDuplicationOutcome 1 false [mkIdentityArcDuplication 9 (Some (mkDuplicationData 11 "b1" "fe80::f"))]]).1.1 in
  is_identity_arcs sA' !! (7%Z, 1%Z) = Some [mkIdentityArc 11 "b1" "fe80::f"] ∧
  is_identity_arcs sA' !! (5%Z, 1%Z) = Some [mkIdentityArc 9 "b1" "fe80::f"].
Proof. by vm_compute. Qed.
