(* ===== verification/Netlink.v ===== *)
(** * The kernel's routing state

    Models [ntk-netlink]: [types.rs], [error.rs], [traits.rs] (the four traits of the
    kernel surface, as the class [Netlink]), [table.rs] (the allocator of routing tables
    and rule priorities), [fake.rs] (the kernel in memory, an instance of the class),
    [cleanup.rs] and [capability.rs].

    An IPv4 address is its 32-bit number.  An operation takes the kernel and yields the
    kernel it leaves with its result; the texts of errors are left out. *)
From stdpp Require Import strings.
From S2P Require Import Prelude.

(** ** Addresses and networks (types.rs) *)

(** [Ipv4Addr::new]; [as u8] and [as u32]. *)
Definition as_u8 (z : Z) : Z := (z mod 2 ^ 8)%Z.
Definition u32_wrap (z : Z) : Z := (z mod 2 ^ 32)%Z.
Definition ipv4_new (a b c d : Z) : Z := (a * 2 ^ 24 + b * 2 ^ 16 + c * 2 ^ 8 + d)%Z.

Inductive Interface := IfName (name : string) | IfIndex (index : Z).

#[export] Instance Interface_eq_dec : EqDecision Interface.
Proof. solve_decision. Defined.

Record Ipv4Net := mkIpv4Net { in_address : Z; in_prefix_len : Z }.

#[export] Instance Ipv4Net_eq_dec : EqDecision Ipv4Net.
Proof. solve_decision. Defined.
#[export] Instance Ipv4Net_countable : Countable Ipv4Net.
Proof. by apply (inj_countable' (λ n, (in_address n, in_prefix_len n)) (λ p, mkIpv4Net p.1 p.2)); intros []. Defined.

(** ** Errors (error.rs) *)
Inductive NetlinkError :=
  | NlConnect
  | NlOther
  | NlPermissionDenied
  | NlInterfaceNotFound (i : Interface)
  | NlInvalidPrefixLength (n : Z)
  | NlReservedTable (table : Z)
  | NlInvalidArgument
  | NlNotFound
  | NlAlreadyExists.

Definition EPERM : Z := 1.
Definition ENOENT : Z := 2.
Definition ESRCH : Z := 3.
Definition EACCES : Z := 13.
Definition EEXIST : Z := 17.

(** [From<rtnetlink::Error>]: [code] is the raw code of a kernel error message. *)
Definition from_rtnetlink (code : option Z) : NetlinkError :=
  match (c ← code; let c := Z.abs c in if (c =? 0)%Z then None else Some c) with
  | Some errno =>
      if (errno =? EEXIST)%Z then NlAlreadyExists
      else if (errno =? ENOENT)%Z || (errno =? ESRCH)%Z then NlNotFound
      else if (errno =? EPERM)%Z || (errno =? EACCES)%Z then NlPermissionDenied
      else NlOther
  | None => NlOther
  end.
Definition is_already_exists (e : NetlinkError) : bool := match e with NlAlreadyExists => true | _ => false end.
Definition is_not_found (e : NetlinkError) : bool := match e with NlNotFound => true | _ => false end.
Definition is_permission_denied (e : NetlinkError) : bool := match e with NlPermissionDenied => true | _ => false end.

Definition ipv4_net_new (address prefix_len : Z) : res NetlinkError Ipv4Net :=
  if (32 <? prefix_len)%Z then Err (NlInvalidPrefixLength prefix_len) else Ok (mkIpv4Net address prefix_len).
Definition ipv4_net_host (address : Z) : Ipv4Net := mkIpv4Net address 32.
Definition net_mask (n : Ipv4Net) : Z := if (in_prefix_len n =? 0)%Z then 0%Z else u32_wrap (Z.shiftl U32_MAX (32 - in_prefix_len n)).
Definition net_contains (n : Ipv4Net) (addr : Z) : bool :=
  (Z.land (in_address n) (net_mask n) =? Z.land addr (net_mask n))%Z.
Definition NETSUKUKU_ADDRESS_SPACE : Ipv4Net := mkIpv4Net (ipv4_new 10 0 0 0) 8.

(** ** Routes, rules, links *)
Record Nexthop := mkNexthop { nh_via : Z; nh_dev : Interface; nh_weight : Z }.
Inductive RouteTarget :=
  | Unreachable
  | Gateway (via : Z) (dev : Interface) (src : option Z)
  | OnLink (dev : Interface)
  | Multipath (hops : list Nexthop).
Record RouteSpec := mkRouteSpec { rs_destination : Ipv4Net; rs_table : Z; rs_target : RouteTarget }.
Record RouteKey := mkRouteKey { rk_destination : Ipv4Net; rk_table : Z }.
Inductive RuleSelector := AnyPacket | FwMark (mark : Z).
Record RuleSpec := mkRuleSpec { ru_table : Z; ru_priority : Z; ru_selector : RuleSelector }.
Record AddressEntry := mkAddressEntry { ad_interface_index : Z; ad_network : Ipv4Net }.
Record LinkInfo := mkLinkInfo { li_index : Z; li_name : string; li_is_up : bool }.

#[export] Instance Nexthop_eq_dec : EqDecision Nexthop.
Proof. solve_decision. Defined.
#[export] Instance RouteTarget_eq_dec : EqDecision RouteTarget.
Proof. solve_decision. Defined.
#[export] Instance RouteSpec_eq_dec : EqDecision RouteSpec.
Proof. solve_decision. Defined.
#[export] Instance RuleSelector_eq_dec : EqDecision RuleSelector.
Proof. solve_decision. Defined.
#[export] Instance RuleSpec_eq_dec : EqDecision RuleSpec.
Proof. solve_decision. Defined.

Inductive Operation :=
  | OpAddAddress (i : Interface) (n : Ipv4Net)
  | OpRemoveAddress (i : Interface) (n : Ipv4Net)
  | OpAddRoute (r : RouteSpec)
  | OpChangeRoute (r : RouteSpec)
  | OpRemoveRoute (k : RouteKey)
  | OpAddRule (r : RuleSpec)
  | OpRemoveRule (r : RuleSpec).

(** ** The kernel surface (traits.rs) *)
Class Netlink (K : Type) := {
  add_address : K → Interface → Ipv4Net → K * res NetlinkError unit;
  remove_address : K → Interface → Ipv4Net → K * res NetlinkError unit;
  list_addresses : K → option Interface → res NetlinkError (list AddressEntry);
  add_route : K → RouteSpec → K * res NetlinkError unit;
  change_route : K → RouteSpec → K * res NetlinkError unit;
  remove_route : K → RouteKey → K * res NetlinkError unit;
  list_routes : K → option Z → res NetlinkError (list RouteSpec);
  add_rule : K → RuleSpec → K * res NetlinkError unit;
  remove_rule : K → RuleSpec → K * res NetlinkError unit;
  list_rules : K → res NetlinkError (list RuleSpec);
  list_links : K → res NetlinkError (list LinkInfo)
}.

Definition link_matches (i : Interface) (l : LinkInfo) : bool :=
  match i with IfIndex index => (li_index l =? index)%Z | IfName name => bool_decide (li_name l = name) end.
Definition resolve_in (links : list LinkInfo) (i : Interface) : res NetlinkError LinkInfo :=
  ok_or (find (link_matches i) links) (NlInterfaceNotFound i).
Definition resolve_interface `{Netlink K} (k : K) (i : Interface) : res NetlinkError LinkInfo :=
  links ← list_links k; resolve_in links i.

(** ** Tables and priorities (table.rs) *)
Definition RT_TABLE_UNSPEC : Z := 0.
Definition RT_TABLE_DEFAULT : Z := 253.
Definition RT_TABLE_MAIN : Z := 254.
Definition RT_TABLE_LOCAL : Z := 255.
Definition is_kernel_reserved_table (table : Z) : bool :=
  (table =? RT_TABLE_UNSPEC)%Z || (table =? RT_TABLE_DEFAULT)%Z || (table =? RT_TABLE_MAIN)%Z || (table =? RT_TABLE_LOCAL)%Z.
Definition guard_table (table : Z) : res NetlinkError unit :=
  if is_kernel_reserved_table table then Err (NlReservedTable table) else Ok tt.
Definition DEFAULT_PEER_TABLE_RANGE : Z * Z := (200, 250)%Z.
Definition DEFAULT_MAIN_TABLE_ID : Z := 251.
Definition DEFAULT_MAIN_RULE_PRIORITY : Z := 10000.

Inductive TableAllocatorError :=
  | TaReservedTable (table : Z)
  | TaInvalidRange (main : Z)
  | TaExhausted
  | TaUnknownOwner
  | TaStillReferenced (n : Z).

Record Allocation := mkAllocation { al_table : Z; al_priority : Z; al_refcount : Z }.

(** The ids of an inclusive range. *)
Definition range_inclusive (r : Z * Z) : list Z := seqZ r.1 (r.2 - r.1 + 1).

Section Allocator.
Context {K : Type} `{Countable K}.

Record TableAllocator := mkTableAllocator {
  ta_peer_range : Z * Z;
  ta_main_table : Z;
  ta_main_rule_priority : Z;
  ta_free_tables : list Z;
  ta_free_priorities : list Z;
  ta_allocated : gmap K Allocation
}.
Implicit Types t : TableAllocator.

Definition owns_table t (table : Z) : bool :=
  (table =? ta_main_table t)%Z || ((ta_peer_range t).1 <=? table)%Z && (table <=? (ta_peer_range t).2)%Z.
Definition owned_tables t : list Z := ta_main_table t :: range_inclusive (ta_peer_range t).

(** [with_range]; [slots] is the length as a [u32]. *)
Definition with_range (peer_range : Z * Z) (main_table main_rule_priority : Z) : res TableAllocatorError TableAllocator :=
  if (peer_range.2 <? peer_range.1)%Z then Err (TaInvalidRange main_table)
  else if is_kernel_reserved_table main_table then Err (TaReservedTable main_table)
  else match find is_kernel_reserved_table (range_inclusive peer_range) with
  | Some reserved => Err (TaReservedTable reserved)
  | None =>
      if (peer_range.1 <=? main_table)%Z && (main_table <=? peer_range.2)%Z then Err (TaInvalidRange main_table)
      else
        let free_tables := range_inclusive peer_range in
        let slots := u32_wrap (Z.of_nat (length free_tables)) in
        let priority_floor := Z.max 0 (main_rule_priority - slots) in
        Ok (mkTableAllocator peer_range main_table main_rule_priority free_tables
              (seqZ priority_floor (main_rule_priority - priority_floor)) ∅)
  end.
Definition table_allocator_new : res TableAllocatorError TableAllocator :=
  unwrap (with_range DEFAULT_PEER_TABLE_RANGE DEFAULT_MAIN_TABLE_ID DEFAULT_MAIN_RULE_PRIORITY).

Definition with_pools t (tables priorities : list Z) (m : gmap K Allocation) : TableAllocator :=
  mkTableAllocator (ta_peer_range t) (ta_main_table t) (ta_main_rule_priority t) tables priorities m.

Definition acquire t (owner : K) : TableAllocator * res TableAllocatorError (Z * Z) :=
  match ta_allocated t !! owner with
  | Some a => (t, Ok (al_table a, al_priority a))
  | None =>
      match ta_free_tables t with
      | [] => (t, Err TaExhausted)
      | table :: tables =>
          match ta_free_priorities t with
          | [] => (with_pools t (table :: tables) [] (ta_allocated t), Err TaExhausted)
          | priority :: priorities =>
              (with_pools t tables priorities (<[owner := mkAllocation table priority 0]> (ta_allocated t)), Ok (table, priority))
          end
      end
  end.
Definition table_of t (owner : K) : option (Z * Z) := (λ a, (al_table a, al_priority a)) <$> ta_allocated t !! owner.

(** [incref] and [decref]: [i64] arithmetic. *)
Definition add_ref t (owner : K) (d : Z) : TableAllocator * res TableAllocatorError Z :=
  match ta_allocated t !! owner with
  | None => (t, Err TaUnknownOwner)
  | Some a =>
      let n := (al_refcount a + d)%Z in
      if (- 2 ^ 63 <=? n)%Z && (n <? 2 ^ 63)%Z
      then (with_pools t (ta_free_tables t) (ta_free_priorities t) (<[owner := mkAllocation (al_table a) (al_priority a) n]> (ta_allocated t)), Ok n)
      else (t, Panic)
  end.
Definition incref t (owner : K) := add_ref t owner 1.
Definition decref t (owner : K) := add_ref t owner (-1).

Definition release t (owner : K) : TableAllocator * res TableAllocatorError Z :=
  match ta_allocated t !! owner with
  | None => (t, Err TaUnknownOwner)
  | Some a =>
      if (0 <? al_refcount a)%Z then (t, Err (TaStillReferenced (al_refcount a)))
      else (with_pools t (al_table a :: ta_free_tables t) (al_priority a :: ta_free_priorities t) (delete owner (ta_allocated t)), Ok (al_table a))
  end.
End Allocator.
Arguments TableAllocator K {_ _}.

(** ** The kernel in memory (fake.rs) *)
Record FakeState := mkFakeState {
  fk_operations : list Operation;
  fk_links : list LinkInfo;
  fk_addresses : list AddressEntry;
  fk_routes : gmap (Z * Z * Z) RouteSpec;
  fk_rules : list RuleSpec;
  fk_route_failures : gmap Ipv4Net NetlinkError
}.
Implicit Types fk : FakeState.

Definition fake_new : FakeState := mkFakeState [] [] [] ∅ [] ∅.
Definition fake_with_links (links : list LinkInfo) : FakeState := mkFakeState [] links [] ∅ [] ∅.
Definition arm_route_failure fk (destination : Ipv4Net) (e : NetlinkError) : FakeState :=
  mkFakeState (fk_operations fk) (fk_links fk) (fk_addresses fk) (fk_routes fk) (fk_rules fk) (<[destination := e]> (fk_route_failures fk)).
Definition fk_with_addresses fk (l : list AddressEntry) (op : Operation) : FakeState :=
  mkFakeState (fk_operations fk ++ [op]) (fk_links fk) l (fk_routes fk) (fk_rules fk) (fk_route_failures fk).
Definition fk_with_routes fk (m : gmap (Z * Z * Z) RouteSpec) (op : Operation) : FakeState :=
  mkFakeState (fk_operations fk ++ [op]) (fk_links fk) (fk_addresses fk) m (fk_rules fk) (fk_route_failures fk).
Definition fk_with_rules fk (l : list RuleSpec) (op : Operation) : FakeState :=
  mkFakeState (fk_operations fk ++ [op]) (fk_links fk) (fk_addresses fk) (fk_routes fk) l (fk_route_failures fk).

Definition route_key (table : Z) (destination : Ipv4Net) : Z * Z * Z := (table, in_address destination, in_prefix_len destination).
Definition check_canonical (destination : Ipv4Net) : res NetlinkError unit :=
  if (Z.land (in_address destination) (net_mask destination) =? in_address destination)%Z then Ok tt else Err NlInvalidArgument.

(** The loop over the next hops of a multipath route. *)
Fixpoint normalise_hops (links : list LinkInfo) (seen : list (Z * Z)) (hops : list Nexthop) : res NetlinkError (list Nexthop) :=
  match hops with
  | [] => Ok []
  | h :: hops' =>
      link ← resolve_in links (nh_dev h);
      if contains (nh_via h, li_index link) seen then Err NlAlreadyExists
      else
        rest ← normalise_hops links (seen ++ [(nh_via h, li_index link)]) hops';
        Ok (mkNexthop (nh_via h) (IfIndex (li_index link)) (nh_weight h) :: rest)
  end.
Definition normalise_target (links : list LinkInfo) (t : RouteTarget) : res NetlinkError RouteTarget :=
  match t with
  | Unreachable => Ok Unreachable
  | Gateway via dev src => link ← resolve_in links dev; Ok (Gateway via (IfIndex (li_index link)) src)
  | OnLink dev => link ← resolve_in links dev; Ok (OnLink (IfIndex (li_index link)))
  | Multipath hops => hops ← normalise_hops links [] hops; Ok (Multipath hops)
  end.
Definition validate_route fk (r : RouteSpec) : res NetlinkError RouteSpec :=
  _ ← check_canonical (rs_destination r);
  target ← normalise_target (fk_links fk) (rs_target r);
  Ok (mkRouteSpec (rs_destination r) (rs_table r) target).

(** [route_failures.remove]: an armed failure fires once. *)
Definition take_failure fk (destination : Ipv4Net) : FakeState * res NetlinkError unit :=
  match fk_route_failures fk !! destination with
  | Some e => (mkFakeState (fk_operations fk) (fk_links fk) (fk_addresses fk) (fk_routes fk) (fk_rules fk) (delete destination (fk_route_failures fk)), Err e)
  | None => (fk, Ok tt)
  end.

Definition fake_add_address fk (i : Interface) (n : Ipv4Net) : FakeState * res NetlinkError unit :=
  do (fk, link) ← (fk, resolve_in (fk_links fk) i);
  if any (λ a, (ad_interface_index a =? li_index link)%Z && bool_decide (ad_network a = n)) (fk_addresses fk) then (fk, Err NlAlreadyExists)
  else (fk_with_addresses fk (fk_addresses fk ++ [mkAddressEntry (li_index link) n]) (OpAddAddress i n), Ok tt).
Definition fake_remove_address fk (i : Interface) (n : Ipv4Net) : FakeState * res NetlinkError unit :=
  do (fk, link) ← (fk, resolve_in (fk_links fk) i);
  match position (λ a, (ad_interface_index a =? li_index link)%Z && bool_decide (ad_network a = n)) (fk_addresses fk) with
  | None => (fk, Err NlNotFound)
  | Some p => (fk_with_addresses fk (delete p (fk_addresses fk)) (OpRemoveAddress i n), Ok tt)
  end.
Definition fake_list_addresses fk (i : option Interface) : res NetlinkError (list AddressEntry) :=
  match i with
  | None => Ok (fk_addresses fk)
  | Some i => link ← resolve_in (fk_links fk) i; Ok (retain (λ a, (ad_interface_index a =? li_index link)%Z) (fk_addresses fk))
  end.

Definition fake_add_route fk (r : RouteSpec) : FakeState * res NetlinkError unit :=
  do (fk, _g) ← (fk, guard_table (rs_table r));
  do (fk, stored) ← (fk, validate_route fk r);
  do (fk, _f) ← take_failure fk (rs_destination r);
  let key := route_key (rs_table r) (rs_destination r) in
  match fk_routes fk !! key with
  | Some _ => (fk, Err NlAlreadyExists)
  | None => (fk_with_routes fk (<[key := stored]> (fk_routes fk)) (OpAddRoute r), Ok tt)
  end.
Definition fake_change_route fk (r : RouteSpec) : FakeState * res NetlinkError unit :=
  do (fk, _g) ← (fk, guard_table (rs_table r));
  do (fk, stored) ← (fk, validate_route fk r);
  do (fk, _f) ← take_failure fk (rs_destination r);
  (fk_with_routes fk (<[route_key (rs_table r) (rs_destination r) := stored]> (fk_routes fk)) (OpChangeRoute r), Ok tt).
Definition fake_remove_route fk (k : RouteKey) : FakeState * res NetlinkError unit :=
  do (fk, _g) ← (fk, guard_table (rk_table k));
  do (fk, _c) ← (fk, check_canonical (rk_destination k));
  do (fk, _f) ← take_failure fk (rk_destination k);
  let key := route_key (rk_table k) (rk_destination k) in
  match fk_routes fk !! key with
  | None => (fk, Err NlNotFound)
  | Some _ => (fk_with_routes fk (delete key (fk_routes fk)) (OpRemoveRoute k), Ok tt)
  end.

(** [BTreeMap] values: ascending keys, which are compared as tuples. *)
Definition key_leb (a b : Z * Z * Z) : bool :=
  let '(t, n, p) := a in let '(t', n', p') := b in
  (t <? t')%Z || (t =? t')%Z && ((n <? n')%Z || (n =? n')%Z && (p <=? p')%Z).
Definition fake_list_routes fk (table : option Z) : res NetlinkError (list RouteSpec) :=
  Ok (retain (λ r, match table with None => true | Some t => (rs_table r =? t)%Z end)
        (sort_by (λ a b, key_leb a.1 b.1) (map_to_list (fk_routes fk))).*2).

Definition fake_add_rule fk (r : RuleSpec) : FakeState * res NetlinkError unit :=
  do (fk, _g) ← (fk, guard_table (ru_table r));
  if contains r (fk_rules fk) then (fk, Err NlAlreadyExists)
  else (fk_with_rules fk (fk_rules fk ++ [r]) (OpAddRule r), Ok tt).
Definition fake_remove_rule fk (r : RuleSpec) : FakeState * res NetlinkError unit :=
  do (fk, _g) ← (fk, guard_table (ru_table r));
  match position (λ x, bool_decide (x = r)) (fk_rules fk) with
  | None => (fk, Err NlNotFound)
  | Some p => (fk_with_rules fk (delete p (fk_rules fk)) (OpRemoveRule r), Ok tt)
  end.

#[export] Instance FakeNetlink : Netlink FakeState := {|
  add_address := fake_add_address; remove_address := fake_remove_address; list_addresses := fake_list_addresses;
  add_route := fake_add_route; change_route := fake_change_route; remove_route := fake_remove_route; list_routes := fake_list_routes;
  add_rule := fake_add_rule; remove_rule := fake_remove_rule; list_rules fk := Ok (fk_rules fk);
  list_links fk := Ok (fk_links fk)
|}.

(** ** Crash recovery (cleanup.rs) *)
Record CleanupReport := mkCleanupReport {
  cr_addresses : list AddressEntry; cr_routes : list RouteKey; cr_rules : list RuleSpec }.
Definition is_empty_report (r : CleanupReport) : bool :=
  match r with mkCleanupReport [] [] [] => true | _ => false end.

Section Sweep.
Context {O : Type} `{Countable O, Netlink K}.

(** One removal of a loop: what is already gone is no error, and not reported. *)
Definition sweep_one {R X} (remove : K → X → K * res NetlinkError unit) (note : R → X → R) (k : K) (r : R) (x : X) : K * res NetlinkError R :=
  match remove k x with
  | (k, Ok _) => (k, Ok (note r x))
  | (k, Err e) => if is_not_found e then (k, Ok r) else (k, Err e)
  | (k, Panic) => (k, Panic)
  end.
Definition is_identity_address (a : AddressEntry) : bool :=
  (in_prefix_len (ad_network a) =? 32)%Z && net_contains NETSUKUKU_ADDRESS_SPACE (in_address (ad_network a)).
Definition key_of (r : RouteSpec) : RouteKey := mkRouteKey (rs_destination r) (rs_table r).

Definition cleanup (k : K) (t : TableAllocator O) : K * res NetlinkError CleanupReport :=
  do (k, addresses) ← (k, list_addresses k (Some (IfName "lo")));
  do (k, swept) ← foldS (sweep_one (λ k a, remove_address k (IfName "lo") (ad_network a)) (λ l a, l ++ [a])) k []
    (retain is_identity_address addresses);
  do (k, routes) ← (k, list_routes k None);
  do (k, swept_routes) ← foldS (sweep_one remove_route (λ l key, l ++ [key])) k []
    (key_of <$> retain (λ r, owns_table t (rs_table r)) routes);
  do (k, rules) ← (k, list_rules k);
  do (k, swept_rules) ← foldS (sweep_one remove_rule (λ l r, l ++ [r])) k [] (retain (λ r, owns_table t (ru_table r)) rules);
  (k, Ok (mkCleanupReport swept swept_routes swept_rules)).

(** ** What the kernel can do (capability.rs) *)
Definition CAPABILITY_PROBE_TABLE : Z := 4294967280.
Record KernelCapabilities := mkKernelCapabilities { kc_multiple_routing_tables : bool; kc_multipath_routes : bool }.
Record UnsupportedKernel := mkUnsupportedKernel { uk_missing_tables : bool; uk_missing_multipath : bool }.
Definition ensure_supported (c : KernelCapabilities) : res UnsupportedKernel unit :=
  if kc_multiple_routing_tables c && kc_multipath_routes c then Ok tt
  else Err (mkUnsupportedKernel (negb (kc_multiple_routing_tables c)) (negb (kc_multipath_routes c))).

Definition probe_destination : Ipv4Net := mkIpv4Net (ipv4_new 127 255 255 0) 24.
Definition probe_route (loopback : LinkInfo) : RouteSpec :=
  mkRouteSpec probe_destination CAPABILITY_PROBE_TABLE
    (Multipath [mkNexthop (ipv4_new 127 0 0 2) (IfIndex (li_index loopback)) 1; mkNexthop (ipv4_new 127 0 0 3) (IfIndex (li_index loopback)) 1]).
Definition probe_key : RouteKey := mkRouteKey probe_destination CAPABILITY_PROBE_TABLE.

(** The probe route goes in, after a stale one of a crashed run was cleared. *)
Definition attempt_probe (k : K) (loopback : LinkInfo) : K * res NetlinkError unit :=
  match add_route k (probe_route loopback) with
  | (k, Err e) => if is_already_exists e then add_route (remove_route k probe_key).1 (probe_route loopback) else (k, Err e)
  | r => r
  end.
Definition probe_multipath (k : K) : K * res NetlinkError bool :=
  match list_links k with
  | Ok links =>
      match find (λ l, bool_decide (li_name l = "lo")) links with
      | None => (k, Ok false)
      | Some loopback =>
          match attempt_probe k loopback with
          | (k, Ok _) => ((remove_route k probe_key).1, Ok true)
          | (k, Err e) => if is_permission_denied e then (k, Err e) else (k, Ok false)
          | (k, Panic) => (k, Panic)
          end
      end
  | Err _ => (k, Ok false)
  | Panic => (k, Panic)
  end.
Definition rules_listed (k : K) : bool := match list_rules k with Ok _ => true | _ => false end.
Definition detect (k : K) : K * res NetlinkError KernelCapabilities :=
  let tables := rules_listed k in
  let '(k, multipath) := probe_multipath k in
  (k, match multipath with Ok b => Ok (mkKernelCapabilities tables b) | Err _ => Ok (mkKernelCapabilities tables false) | Panic => Panic end).
Definition probe (k : K) : K * res NetlinkError KernelCapabilities :=
  let tables := rules_listed k in
  do (k, b) ← probe_multipath k; (k, Ok (mkKernelCapabilities tables b)).
End Sweep.
