(* ===== verification/Neighbor.v ===== *)
(** * Neighbours: link costs, timing, ids, ICMP probes

    Models the pure parts of [crates/ntk-neighborhood/src]: the smoothing and the
    publication gate of a link's cost ([cost_model.rs]), the monitor's wait
    ([timing.rs]), discovery ids ([node_id.rs]) and the packets of the ICMP probe
    ([rtt.rs]).  Random draws are arguments; the probe's socket is not modelled. *)
From stdpp Require Import strings.
From S2P Require Import Prelude Addressing Domain.

(** ** Link costs (cost_model.rs) *)

(** [as i64], and the [i64] operators, which panic on overflow. *)
Definition as_i64 (z : Z) : Z := if (z <? 2 ^ 63)%Z then z else (z - 2 ^ 64)%Z.
Definition i64 (z : Z) : res unit Z := if (- 2 ^ 63 <=? z)%Z && (z <? 2 ^ 63)%Z then Ok z else Panic.

(** The damped step: a tenth of a rise, a third of a fall, and at least one. *)
Definition damped (delta : Z) : Z :=
  if (delta =? 0)%Z then 0%Z
  else if (0 <? delta)%Z then Z.max (Z.quot delta 10) 1
  else Z.min (Z.quot delta 3) (-1).

Definition ema_step (last sample : Z) : res unit Z :=
  delta ← i64 (as_i64 sample - as_i64 last);
  next ← i64 (as_i64 last + damped delta);
  Ok (Z.max next 0).

Definition u64_saturating_mul (a b : Z) : Z := Z.min (a * b) U64_MAX.

Definition exceeds_hysteresis (published smoothed : Z) : bool :=
  negb (smoothed =? published)%Z
  && ((u64_saturating_mul smoothed 2 <? published)%Z || (u64_saturating_mul published 2 <=? smoothed)%Z).

(** ** Waits (timing.rs); durations in nanoseconds *)
Definition DURATION_MAX : Z := 2 ^ 64 * 1000000000 - 1.
Record NeighborhoodTiming := mkNeighborhoodTiming { nt_radar_interval : Z; nt_arc_monitor_interval : Z * Z }.
Definition neighborhood_timing_default : NeighborhoodTiming :=
  mkNeighborhoodTiming (60000 * 1000000) (28000 * 1000000, 30000 * 1000000)%Z.

Definition next_arc_monitor_wait (t : NeighborhoodTiming) (raw : Z) : res unit Z :=
  let '(min, max) := nt_arc_monitor_interval t in
  if (max <=? min)%Z then Ok min
  else
    let span_ms := ((max - min) / 1000000 mod 2 ^ 64)%Z in
    modulus ← u64_add span_ms 1;
    let wait := (min + raw mod modulus * 1000000)%Z in
    if (wait <=? DURATION_MAX)%Z then Ok wait else Panic.

(** ** Discovery ids (node_id.rs) *)
Record WireNodeId := mkWireNodeId { wn_id : Z }.
Definition NODE_ID_TAG : string := "neighborhood.NodeId".

(** Errors of the crate; what [ntk-netlink] and the decoder tell is kept. *)
Inductive NeighborhoodError (E : Type) :=
  | UnknownInterface (dev : string)
  | InterfaceDown (dev : string)
  | AlreadyMonitored (dev : string)
  | NbNetlink (e : E)
  | NbWire (e : DomainDecodeError)
  | MalformedId (id : Z)
  | MalformedNic
  | ActorGone.
Arguments UnknownInterface {_}. Arguments InterfaceDown {_}. Arguments AlreadyMonitored {_}.
Arguments NbNetlink {_}. Arguments NbWire {_}. Arguments MalformedId {_}. Arguments MalformedNic {_}. Arguments ActorGone {_}.

(** The first draw whose low 31 bits are not all zero; [None] when the draws run out. *)
Fixpoint node_id_generate (raws : list Z) : option Z :=
  match raws with
  | [] => None
  | raw :: raws' =>
      let candidate := Z.land (raw mod 2 ^ 32) 0x7FFFFFFF in
      if (candidate =? 0)%Z then node_id_generate raws' else Some candidate
  end.

Definition node_id_from_raw {E} (id : Z) : res (NeighborhoodError E) Z :=
  if (id <=? 0)%Z then Err (MalformedId id) else Ok id.

(** ** ICMP (rtt.rs) *)
Definition ICMP_ECHO_REQUEST : Z := 8.
Definition ICMP_ECHO_REPLY : Z := 0.
Definition to_be_bytes16 (v : Z) : list Z := [(v / 256 mod 256)%Z; (v mod 256)%Z].
Definition from_be_bytes16 (hi lo : Z) : Z := (hi * 256 + lo)%Z.

(** The sum of the 16-bit words, the last byte alone padded; [u32] addition. *)
Fixpoint checksum_words (sum : Z) (data : list Z) : res unit Z :=
  match data with
  | hi :: lo :: data' => sum' ← u32_add sum (from_be_bytes16 hi lo); checksum_words sum' data'
  | [last] => u32_add sum (last * 256)
  | [] => Ok sum
  end.

(** The loop that folds the carries back; [fuel] bounds its turns. *)
Fixpoint fold_carries (fuel : nat) (sum : Z) : res unit Z :=
  if (Z.shiftr sum 16 =? 0)%Z then Ok sum
  else match fuel with
       | 0 => Panic
       | S fuel' => sum' ← u32_add (Z.land sum 0xffff) (Z.shiftr sum 16); fold_carries fuel' sum'
       end.

Definition internet_checksum (data : list Z) : res unit Z :=
  sum ← checksum_words 0 data;
  sum ← fold_carries 2 sum;
  Ok (0xffff - sum mod 2 ^ 16)%Z.

Definition build_echo_request (ident sequence : Z) : res unit (list Z) :=
  let packet c := [ICMP_ECHO_REQUEST; 0%Z] ++ c ++ to_be_bytes16 ident ++ to_be_bytes16 sequence in
  checksum ← internet_checksum (packet [0; 0]%Z);
  Ok (packet (to_be_bytes16 checksum)).

Record IcmpReply := mkIcmpReply { ir_kind : Z; ir_ident : Z; ir_sequence : Z }.

Definition parse_icmp (buf : list Z) (is_raw : bool) : option IcmpReply :=
  icmp ← (if is_raw then
            first ← head buf;
            let ihl := Z.to_nat (Z.land first 0x0f * 4) in
            if ihl <=? length buf then Some (drop ihl buf) else None
          else Some buf);
  match icmp with
  | kind :: _ :: _ :: _ :: id0 :: id1 :: seq0 :: seq1 :: _ =>
      Some (mkIcmpReply kind (from_be_bytes16 id0 id1) (from_be_bytes16 seq0 seq1))
  | _ => None
  end.

(** Whether a datagram ends the probe's wait. *)
Definition reply_matches (peer_ip from_ip : Z) (buf : list Z) (is_raw : bool) (ident sequence : Z) : bool :=
  (from_ip =? peer_ip)%Z
  && match parse_icmp buf is_raw with
     | Some reply => (ir_kind reply =? ICMP_ECHO_REPLY)%Z && (ir_ident reply =? ident)%Z && (ir_sequence reply =? sequence)%Z
     | None => false
     end.
