(* ===== verification/NeighborActor.v ===== *)
(** * The neighbourhood manager

    Models [crates/ntk-neighborhood/src/manager.rs] with [arc.rs], [interface_state.rs],
    [nic.rs] (the kernel operations it asks for), [wire.rs] and [handler.rs].

    A step takes a command with what it reads of its surroundings ([NbEnv]: the clock,
    the links, the outcome of assigning an address, the next link-local address) and
    yields in order the kernel operations, broadcasts, events, snapshots and tasks, with
    its reply.  A cancellation token is a number; the state has the set of those that
    were cancelled.  Keys and signatures are the class [Crypto], the encoding of a call
    the class [ProstMessage]; the reasons of remote errors are kept in place of their
    texts. *)
From stdpp Require Import strings.
From S2P Require Import Prelude Addressing Domain Auth Netlink Neighbor.

(** ** Arcs (arc.rs) and network interfaces *)
Inductive ArcState := Discovered | Requested | Established | Removed.

#[export] Instance ArcState_eq_dec : EqDecision ArcState.
Proof. solve_decision. Defined.

Record NeighborArc := mkNeighborArc {
  nb_id : Z; nb_mac : string; nb_addr : string; nb_dev : string; nb_state : ArcState; nb_cost : option Cost }.

#[export] Instance NeighborArc_eq_dec : EqDecision NeighborArc.
Proof. solve_decision. Defined.

Definition neighbor_arc_new (id : Z) (mac addr dev : string) : NeighborArc := mkNeighborArc id mac addr dev Discovered None.

Record LocalNic := mkLocalNic { ln_dev : string; ln_mac : string }.
Record NicRef := mkNicRef { nr_mac : string; nr_addr : string }.

(** [str::parse::<Ipv4Addr>]: four decimal octets without leading zeros. *)
Fixpoint split_dots (s : list Ascii.ascii) (part : list Ascii.ascii) : list (list Ascii.ascii) :=
  match s with
  | [] => [rev part]
  | c :: s' => if Ascii.eqb c (Ascii.ascii_of_N 46) then rev part :: split_dots s' [] else split_dots s' (c :: part)
  end.
Definition octet_digit (c : Ascii.ascii) : option Z :=
  let n := Z.of_N (Ascii.N_of_ascii c) in if (48 <=? n)%Z && (n <=? 57)%Z then Some (n - 48)%Z else None.
Definition octet (part : list Ascii.ascii) : option Z :=
  if (length part =? 0) || (3 <? length part) then None
  else
    digits ← mapM octet_digit part;
    let v := foldl (λ acc d, acc * 10 + d)%Z 0%Z digits in
    if ((1 <? length part) && bool_decide (head digits = Some 0%Z)) || (255 <? v)%Z then None else Some v.
Definition parse_ipv4 (s : string) : option (list Z) :=
  let parts := split_dots (String.list_ascii_of_string s) [] in
  if length parts =? 4 then mapM octet parts else None.

(** ** Wire values (wire.rs) *)
Record WireNicRef := mkWireNicRef { wr_mac : string; wr_addr : string }.
Definition NIC_REF_TAG : string := "neighborhood.NicRef".

Record NbCaller := mkNbCaller { nc_source_id : option TypedValue; nc_src_nic : option TypedValue }.
Record HereIAmArgs := mkHereIAmArgs { ha_my_id : option TypedValue; ha_my_mac : string; ha_my_nic_addr : string }.
Record ArcArgs := mkArcArgs {
  aa_your_id : option TypedValue; aa_your_mac : string; aa_your_nic_addr : string;
  aa_my_id : option TypedValue; aa_my_mac : string; aa_my_nic_addr : string }.

(** The arms of [MethodCall] that concern the neighbourhood; every other arm. *)
Inductive NbCall :=
  | CallHereIAm (args : HereIAmArgs)
  | CallRequestArc (args : ArcArgs)
  | CallCanYouExport (can : bool)
  | CallRemoveArc (args : ArcArgs)
  | CallNop
  | CallOther.

Definition METHOD_HERE_I_AM : string := "ntk-neighborhood/here_i_am".
Definition METHOD_REQUEST_ARC : string := "ntk-neighborhood/request_arc".
Definition METHOD_CAN_YOU_EXPORT : string := "ntk-neighborhood/can_you_export".
Definition METHOD_REMOVE_ARC : string := "ntk-neighborhood/remove_arc".
Definition METHOD_NOP : string := "ntk-neighborhood/nop".

Inductive NbPayload := NbEmpty | NbBoolean (b : bool).

(** What a remote error tells (its domain is always [Deserialize]). *)
Inductive NbRemote :=
  | NoBroadcastScope
  | FieldUnset (field : string)
  | BadField (e : NeighborhoodError unit)
  | AuthInvalid (e : AuthError)
  | AuthRequired
  | PinnedNoAuth
  | AuthReplayed (e : AuthError)
  | PinMismatch
  | NoKnownArc
  | CallerMismatch
  | NotEstablishedHere
  | NotNeighborhood
  | CallUnset.

(** ** The actor's commands, state and effects *)
Inductive IpRouteOperation :=
  | AddAddress (dev addr : string)
  | RemoveAddress (dev addr : string)
  | AddNeighbor (dev my_addr neighbor_addr : string)
  | RemoveNeighbor (dev my_addr neighbor_addr : string).

Inductive NbEvent := ArcAddedEv (a : NeighborArc) | ArcRemovedEv (a : NeighborArc) | ArcCostChangedEv (a : NeighborArc).

Inductive MonitorOutcome := NopFailed | NoRtt | FirstSample (rtt : Z) | Sample (smoothed : Z).

Definition PENDING_ARC_MULTIPLIER : Z := 4.
Definition PENDING_ARC_TTL : Z := 180 * 1000000000.
Definition NO_RTT_FALLBACK_THRESHOLD : Z := 3.
Definition NO_RTT_FALLBACK_COST_US : Z := 1000000.

Section Manager.
Context `{Crypto, HashOrder, ProstMessage WireNodeId, ProstMessage WireNicRef, ProstMessage NbCall}.
(** The errors of [ntk-netlink]. *)
Context {NetlinkError : Type}.

Definition node_id_to_typed_value (id : Z) : TypedValue := typed_value NODE_ID_TAG (mkWireNodeId id).
Definition node_id_from_typed_value (tv : TypedValue) : res (NeighborhoodError unit) Z :=
  wire ← map_err NbWire (from_typed_value (M := WireNodeId) tv NODE_ID_TAG);
  node_id_from_raw (wn_id wire).
Definition nic_ref_to_typed_value (n : NicRef) : TypedValue := typed_value NIC_REF_TAG (mkWireNicRef (nr_mac n) (nr_addr n)).
Definition nic_ref_from_typed_value (tv : TypedValue) : res (NeighborhoodError unit) NicRef :=
  wire ← map_err NbWire (from_typed_value (M := WireNicRef) tv NIC_REF_TAG);
  if bool_decide (wr_mac wire = "") || bool_decide (wr_addr wire = "") then Err MalformedNic
  else Ok (mkNicRef (wr_mac wire) (wr_addr wire)).
Definition nb_caller_context (my_id : Z) (my_nic : NicRef) : NbCaller :=
  mkNbCaller (Some (node_id_to_typed_value my_id)) (Some (nic_ref_to_typed_value my_nic)).

(** The sequence counter and what is signed with it; [fetch_add] wraps. *)
Definition sign_call (key : option SigningKey) (sequence : Z) (method : string) (call : NbCall) : option Auth * Z :=
  match key with
  | None => (None, sequence)
  | Some key =>
      let next := ((sequence + 1) mod 2 ^ 64)%Z in
      (Some (sign key next method (encode_to_vec call)), next)
  end.
Definition verify_auth (auth : option Auth) (method : string) (payload : list Z) : res NbRemote (option (VerifyingKey * Z)) :=
  match auth with
  | None => Ok None
  | Some auth => key ← map_err AuthInvalid (verify auth method payload); Ok (Some (key, au_sequence auth))
  end.

Record NicState := mkNicState { ns_mac : string; ns_local_address : string; ns_radar_cancel : Z }.
Record ArcEntry := mkArcEntry {
  ae_arc : NeighborArc; ae_monitor_cancel : Z; ae_created_at : Z; ae_consecutive_no_rtt : Z; ae_verified_key : option VerifyingKey }.

Record NbState := mkNbState {
  nm_my_id : Z;
  nm_max_arcs : Z;
  nm_require_auth : bool;
  nm_signing_key : option SigningKey;
  nm_nics : gmap string NicState;
  nm_disabling : gset string;
  nm_arcs : gmap string ArcEntry;
  nm_sequence : Z;
  nm_guard : SequenceGuard;
  nm_next_token : Z;
  nm_cancelled : gset Z
}.

Record NbEnv := mkNbEnv {
  ev_now : Z;
  ev_links : res NetlinkError (list LinkInfo);
  ev_linklocal : string;
  ev_add_address : res (NeighborhoodError NetlinkError) unit
}.

(** The identity a message claims, and its verified signer. *)
Abbreviation Verified := (option (VerifyingKey * Z)).
Record Claim := mkClaim { cl_id : Z; cl_mac : string; cl_addr : string }.

Inductive NbCmd :=
  | StartMonitor (nic : LocalNic)
  | StopMonitor (dev : string)
  | SyncInterfaces
  | HereIAm (dev : string) (sender : Claim) (verified : Verified)
  | RequestArc (dev : string) (dest sender : Claim) (verified : Verified)
  | CanYouExport (caller : Claim) (peer_can_export : bool) (verified : Verified)
  | RemoveArcCmd (dev : string) (dest sender : Claim) (verified : Verified)
  | Nop (caller : Claim) (verified : Verified)
  | MonitorResult (key : string) (outcome : MonitorOutcome)
  | RequestArcNegotiated (mac : string) (can_i can_you : bool).

Record MonitorContext := mkMonitorContext { mc_key : string; mc_arc : NeighborArc; mc_caller_nic : NicRef; mc_token : Z }.

Inductive NbEffect :=
  | NbIp (op : IpRouteOperation)
  | NbEmit (e : NbEvent)
  | NbPublish (arcs : list NeighborArc)
  | NbBroadcast (dev : string) (caller : NbCaller) (call : NbCall) (auth : option Auth)
  | NbSpawnRadar (dev : string) (nic : NicRef) (token : Z)
  | NbSpawnExportCall (arc : NeighborArc) (nic : NicRef) (can_i : bool)
  | NbSpawnMonitor (ctx : MonitorContext)
  | NbSpawnConfirmation (ctx : MonitorContext).

Inductive NbReply :=
  | NbMonitor (r : res (NeighborhoodError NetlinkError) unit)
  | NbDone
  | NbStopped (devs : list string)
  | NbRemoteReply (r : res NbRemote NbPayload)
  | NbPanicked.

(** Updates of the state. *)
Definition with_nics (s : NbState) (m : gmap string NicState) : NbState :=
  mkNbState (nm_my_id s) (nm_max_arcs s) (nm_require_auth s) (nm_signing_key s) m (nm_disabling s) (nm_arcs s) (nm_sequence s) (nm_guard s) (nm_next_token s) (nm_cancelled s).
Definition with_disabling (s : NbState) (d : gset string) : NbState :=
  mkNbState (nm_my_id s) (nm_max_arcs s) (nm_require_auth s) (nm_signing_key s) (nm_nics s) d (nm_arcs s) (nm_sequence s) (nm_guard s) (nm_next_token s) (nm_cancelled s).
Definition set_arcs (s : NbState) (m : gmap string ArcEntry) : NbState :=
  mkNbState (nm_my_id s) (nm_max_arcs s) (nm_require_auth s) (nm_signing_key s) (nm_nics s) (nm_disabling s) m (nm_sequence s) (nm_guard s) (nm_next_token s) (nm_cancelled s).
Definition with_sequence (s : NbState) (q : Z) : NbState :=
  mkNbState (nm_my_id s) (nm_max_arcs s) (nm_require_auth s) (nm_signing_key s) (nm_nics s) (nm_disabling s) (nm_arcs s) q (nm_guard s) (nm_next_token s) (nm_cancelled s).
Definition with_guard (s : NbState) (g : SequenceGuard) : NbState :=
  mkNbState (nm_my_id s) (nm_max_arcs s) (nm_require_auth s) (nm_signing_key s) (nm_nics s) (nm_disabling s) (nm_arcs s) (nm_sequence s) g (nm_next_token s) (nm_cancelled s).
(** [CancellationToken::new], and [cancel]. *)
Definition new_token (s : NbState) : NbState * Z :=
  (mkNbState (nm_my_id s) (nm_max_arcs s) (nm_require_auth s) (nm_signing_key s) (nm_nics s) (nm_disabling s) (nm_arcs s) (nm_sequence s) (nm_guard s) (nm_next_token s + 1) (nm_cancelled s), nm_next_token s).
Definition cancel_token (s : NbState) (token : Z) : NbState :=
  mkNbState (nm_my_id s) (nm_max_arcs s) (nm_require_auth s) (nm_signing_key s) (nm_nics s) (nm_disabling s) (nm_arcs s) (nm_sequence s) (nm_guard s) (nm_next_token s) ({[token]} ∪ nm_cancelled s).

Definition with_arc (e : ArcEntry) (a : NeighborArc) : ArcEntry := mkArcEntry a (ae_monitor_cancel e) (ae_created_at e) (ae_consecutive_no_rtt e) (ae_verified_key e).
Definition with_key (e : ArcEntry) (k : VerifyingKey) : ArcEntry := mkArcEntry (ae_arc e) (ae_monitor_cancel e) (ae_created_at e) (ae_consecutive_no_rtt e) (Some k).
Definition with_state (a : NeighborArc) (st : ArcState) : NeighborArc := mkNeighborArc (nb_id a) (nb_mac a) (nb_addr a) (nb_dev a) st (nb_cost a).
Definition with_cost (a : NeighborArc) (c : Z) : NeighborArc := mkNeighborArc (nb_id a) (nb_mac a) (nb_addr a) (nb_dev a) (nb_state a) (Some (Finite c)).

Definition arc_values (s : NbState) : list NeighborArc := (λ kv, ae_arc kv.2) <$> hm_iter (nm_arcs s).
Definition nb_publish (s : NbState) : NbEffect := NbPublish (arc_values s).
Definition nic_ref_of (n : NicState) : NicRef := mkNicRef (ns_mac n) (ns_local_address n).

(** ** Guards *)
Definition authenticate (s : NbState) (mac : string) (verified : Verified) : NbState * res NbRemote unit :=
  match verified with
  | None =>
      if nm_require_auth s then (s, Err AuthRequired)
      else match nm_arcs s !! mac with
           | Some e => match ae_verified_key e with Some _ => (s, Err PinnedNoAuth) | None => (s, Ok tt) end
           | None => (s, Ok tt)
           end
  | Some (key, sequence) =>
      let '(g, r) := observe (nm_guard s) key sequence in
      let s1 := with_guard s g in
      match r with
      | Err e => (s1, Err (AuthReplayed e))
      | Panic => (s1, Panic)
      | Ok _ =>
          match nm_arcs s1 !! mac with
          | Some e =>
              match ae_verified_key e with
              | Some pinned => if bool_decide (pinned = key) then (s1, Ok tt) else (s1, Err PinMismatch)
              | None => (set_arcs s1 (<[mac := with_key e key]> (nm_arcs s1)), Ok tt)
              end
          | None => (s1, Ok tt)
          end
      end
  end.

Definition peer_nic_addr_acceptable (s : NbState) (its_mac its_nic_addr : string) : bool :=
  match parse_ipv4 its_nic_addr with
  | Some (o0 :: o1 :: _) =>
      (o0 =? 169)%Z && (o1 =? 254)%Z
      && negb (any (λ kn, bool_decide (ns_local_address kn.2 = its_nic_addr)) (hm_iter (nm_nics s)))
      && negb (any (λ a, bool_decide (nb_addr a = its_nic_addr) && negb (bool_decide (nb_mac a = its_mac))) (arc_values s))
  | _ => false
  end.

Definition collides (its_mac its_nic_addr : string) (its_id : Z) (my_dev : string) (a : NeighborArc) : bool :=
  (bool_decide (nb_mac a = its_mac) && negb (nb_id a =? its_id)%Z)
  || (bool_decide (nb_mac a = its_mac) && negb (bool_decide (nb_addr a = its_nic_addr)))
  || (bool_decide (nb_mac a = its_mac) && negb (bool_decide (nb_dev a = my_dev)))
  || ((nb_id a =? its_id)%Z && bool_decide (nb_dev a = my_dev) && negb (bool_decide (nb_mac a = its_mac))).
Definition find_collision (s : NbState) (its_mac its_nic_addr : string) (its_id : Z) (my_dev : string) : bool :=
  any (collides its_mac its_nic_addr its_id my_dev) (arc_values s).

Definition is_established (a : NeighborArc) : bool := bool_decide (nb_state a = Established).
Definition exported_count (s : NbState) : Z := Z.of_nat (length (retain is_established (arc_values s))).
Definition pending_count (s : NbState) : Z := Z.of_nat (length (retain (λ a, negb (is_established a)) (arc_values s))).
Definition pending_arc_cap (s : NbState) : Z := usize_saturating_mul (nm_max_arcs s) PENDING_ARC_MULTIPLIER.

(** ** Removing and exporting an arc *)
Definition remove_my_arc (s : NbState) (mac : string) (is_still_usable : bool) : NbState * list NbEffect :=
  match nm_arcs s !! mac with
  | None => (s, [])
  | Some e =>
      let arc := ae_arc e in
      let s1 := cancel_token (set_arcs s (delete mac (nm_arcs s))) (ae_monitor_cancel e) in
      let nic := nm_nics s1 !! nb_dev arc in
      let ops := match nic with Some n => [NbIp (RemoveNeighbor (nb_dev arc) (ns_local_address n) (nb_addr arc))] | None => [] end in
      let '(s2, calls) :=
        match is_still_usable, nic with
        | true, Some n =>
            let call := CallRemoveArc (mkArcArgs (Some (node_id_to_typed_value (nb_id arc))) (nb_mac arc) (nb_addr arc)
              (Some (node_id_to_typed_value (nm_my_id s1))) (ns_mac n) (ns_local_address n)) in
            let '(auth, q) := sign_call (nm_signing_key s1) (nm_sequence s1) METHOD_REMOVE_ARC call in
            (with_sequence s1 q, [NbBroadcast (nb_dev arc) (nb_caller_context (nm_my_id s1) (nic_ref_of n)) call auth])
        | _, _ => (s1, [])
        end in
      (s2, ops ++ calls ++ [nb_publish s2] ++
        match nb_cost arc with Some _ => [NbEmit (ArcRemovedEv (with_state arc Removed))] | None => [] end)
  end.

(** One arc in a loop of removals. *)
Definition remove_next (is_still_usable : bool) (acc : NbState * list NbEffect) (mac : string) : NbState * list NbEffect :=
  let '(s', effs) := remove_my_arc acc.1 mac is_still_usable in (s', acc.2 ++ effs).

Definition reap_stale_pending (s : NbState) (now : Z) : NbState * list NbEffect :=
  let stale := (retain (λ kv, bool_decide (nb_state (ae_arc kv.2) = Discovered)
                         && (PENDING_ARC_TTL <=? Z.max 0 (now - ae_created_at kv.2))%Z) (hm_iter (nm_arcs s))).*1 in
  foldl (remove_next false) (s, []) stale.

Definition export_arc (s : NbState) (mac : string) : NbState * list NbEffect :=
  match nm_arcs s !! mac with
  | None => (s, [])
  | Some e =>
      if is_established (ae_arc e) then (s, [])
      else match nm_nics s !! nb_dev (ae_arc e) with
           | None => (s, [])
           | Some nic =>
               let '(s1, token) := new_token (cancel_token s (ae_monitor_cancel e)) in
               let arc := with_state (ae_arc e) Established in
               let s2 := set_arcs s1 (<[mac := mkArcEntry arc token (ae_created_at e) (ae_consecutive_no_rtt e) (ae_verified_key e)]> (nm_arcs s1)) in
               let ctx := mkMonitorContext mac arc (nic_ref_of nic) token in
               (s2, [NbSpawnMonitor ctx; NbSpawnConfirmation ctx; nb_publish s2])
           end
  end.

(** ** Interfaces (start, stop, sync) *)

(** [resolve_by_name] of interface_state.rs; [None] is [InterfaceNotFound]. *)
Definition resolve_by_name (links : res NetlinkError (list LinkInfo)) (name : string) : res (NeighborhoodError NetlinkError) LinkInfo :=
  links ← map_err NbNetlink links;
  ok_or (find (λ l, bool_decide (li_name l = name)) links) (UnknownInterface name).

Definition start_monitor (env : NbEnv) (s : NbState) (nic : LocalNic) : NbState * list NbEffect * res (NeighborhoodError NetlinkError) unit :=
  match nm_nics s !! ln_dev nic with
  | Some _ => (s, [], Err (AlreadyMonitored (ln_dev nic)))
  | None =>
      match resolve_by_name (ev_links env) (ln_dev nic) with
      | Err e => (s, [], Err e)
      | Panic => (s, [], Panic)
      | Ok link =>
          if negb (li_is_up link) then (s, [], Err (InterfaceDown (ln_dev nic)))
          else
            let local_address := ev_linklocal env in
            let ops := [NbIp (AddAddress (ln_dev nic) local_address)] in
            match ev_add_address env with
            | Ok _ =>
                let '(s1, token) := new_token s in
                (with_nics s1 (<[ln_dev nic := mkNicState (ln_mac nic) local_address token]> (nm_nics s1)),
                 ops ++ [NbSpawnRadar (ln_dev nic) (mkNicRef (ln_mac nic) local_address) token], Ok tt)
            | r => (s, ops, r)
            end
      end
  end.

Definition teardown_nic (s : NbState) (dev : string) (notify_peers : bool) : NbState * list NbEffect :=
  match nm_nics s !! dev with
  | None => (s, [])
  | Some nic =>
      let s1 := with_disabling s ({[dev]} ∪ nm_disabling s) in
      let macs := (retain (λ kv, bool_decide (nb_dev (ae_arc kv.2) = dev)) (hm_iter (nm_arcs s1))).*1 in
      let '(s2, effs) := foldl (remove_next notify_peers) (s1, []) macs in
      let s3 := cancel_token (with_nics s2 (delete dev (nm_nics s2))) (ns_radar_cancel nic) in
      (with_disabling s3 (nm_disabling s3 ∖ {[dev]}), effs ++ [NbIp (RemoveAddress dev (ns_local_address nic))])
  end.

Definition stop_monitor (s : NbState) (dev : string) : NbState * list NbEffect := teardown_nic s dev true.

Definition stop_next (notify_peers : bool) (acc : NbState * list NbEffect) (dev : string) : NbState * list NbEffect :=
  let '(s', effs) := teardown_nic acc.1 dev notify_peers in (s', acc.2 ++ effs).

Definition sync_interfaces (env : NbEnv) (s : NbState) : NbState * list NbEffect * list string :=
  match ev_links env with
  | Ok links =>
      let up := li_name <$> retain li_is_up links in
      let stale := retain (λ dev, negb (contains dev up)) (hm_iter (nm_nics s)).*1 in
      let '(s', effs) := foldl (stop_next true) (s, []) stale in (s', effs, stale)
  | _ => (s, [], [])
  end.

(** The epilogue of [run]: every interface is given back; an arc whose interface is
    gone has its monitor cancelled. *)
Definition nb_shutdown (s : NbState) : NbState * list NbEffect :=
  let '(s', effs) := foldl (stop_next false) (s, []) (hm_iter (nm_nics s)).*1 in
  (foldl (λ s kv, cancel_token s (ae_monitor_cancel kv.2)) s' (hm_iter (nm_arcs s')), effs).

(** ** Messages *)
Definition insert_discovered (s : NbState) (now : Z) (dev : string) (sender : Claim) (verified : Verified) : NbState :=
  let '(s1, token) := new_token s in
  set_arcs s1 (<[cl_mac sender := mkArcEntry (neighbor_arc_new (cl_id sender) (cl_mac sender) (cl_addr sender) dev) token now 0 (fst <$> verified)]> (nm_arcs s1)).

Definition handle_here_i_am (s : NbState) (now : Z) (dev : string) (sender : Claim) (verified : Verified) : NbState * list NbEffect * NbReply :=
  let ok := NbRemoteReply (Ok NbEmpty) in
  if (cl_id sender =? nm_my_id s)%Z then (s, [], ok)
  else match nm_nics s !! dev with
  | None => (s, [], ok)
  | Some nic =>
      if decide (dev ∈ nm_disabling s) then (s, [], ok)
      else
        let '(s1, reaped) := reap_stale_pending s now in
        if find_collision s1 (cl_mac sender) (cl_addr sender) (cl_id sender) dev then (s1, reaped, ok)
        else if negb (peer_nic_addr_acceptable s1 (cl_mac sender) (cl_addr sender)) then (s1, reaped, ok)
        else match nm_arcs s1 !! cl_mac sender with
        | Some _ => (s1, reaped, ok)
        | None =>
            if (pending_arc_cap s1 <=? pending_count s1)%Z then (s1, reaped, ok)
            else match authenticate s1 (cl_mac sender) verified with
            | (s2, Err _) => (s2, reaped, ok)
            | (s2, Panic) => (s2, reaped, NbPanicked)
            | (s2, Ok _) =>
                let s3 := insert_discovered s2 now dev sender verified in
                let call := CallRequestArc (mkArcArgs (Some (node_id_to_typed_value (cl_id sender))) (cl_mac sender) (cl_addr sender)
                  (Some (node_id_to_typed_value (nm_my_id s3))) (ns_mac nic) (ns_local_address nic)) in
                let '(auth, q) := sign_call (nm_signing_key s3) (nm_sequence s3) METHOD_REQUEST_ARC call in
                (with_sequence s3 q,
                 reaped ++ [nb_publish s3; NbIp (AddNeighbor dev (ns_local_address nic) (cl_addr sender));
                            NbBroadcast dev (nb_caller_context (nm_my_id s3) (nic_ref_of nic)) call auth], ok)
            end
        end
  end.

(** Whether a message names this node on the interface it came in on. *)
Definition addressed_to (s : NbState) (nic : NicState) (dest : Claim) : bool :=
  (cl_id dest =? nm_my_id s)%Z && bool_decide (cl_mac dest = ns_mac nic) && bool_decide (cl_addr dest = ns_local_address nic).

(** The rest of [request_arc] once the arc is known: it is being negotiated. *)
Definition negotiate (s : NbState) (nic : NicState) (mac : string) : NbState * list NbEffect :=
  let s1 := match nm_arcs s !! mac with
            | Some e => set_arcs s (<[mac := with_arc e (with_state (ae_arc e) Requested)]> (nm_arcs s))
            | None => s
            end in
  let can_i := (exported_count s1 <? nm_max_arcs s1)%Z in
  (s1, [nb_publish s1] ++ match nm_arcs s1 !! mac with Some e => [NbSpawnExportCall (ae_arc e) (nic_ref_of nic) can_i] | None => [] end).

Definition handle_request_arc (s : NbState) (now : Z) (dev : string) (dest sender : Claim) (verified : Verified) : NbState * list NbEffect * NbReply :=
  let ok := NbRemoteReply (Ok NbEmpty) in
  if (cl_id sender =? nm_my_id s)%Z then (s, [], ok)
  else match nm_nics s !! dev with
  | None => (s, [], ok)
  | Some nic =>
      if decide (dev ∈ nm_disabling s) then (s, [], ok)
      else if negb (addressed_to s nic dest) then (s, [], ok)
      else
        let '(s1, reaped) := reap_stale_pending s now in
        if find_collision s1 (cl_mac sender) (cl_addr sender) (cl_id sender) dev then (s1, reaped, ok)
        else if negb (peer_nic_addr_acceptable s1 (cl_mac sender) (cl_addr sender)) then (s1, reaped, ok)
        else match authenticate s1 (cl_mac sender) verified with
        | (s2, Err _) => (s2, reaped, ok)
        | (s2, Panic) => (s2, reaped, NbPanicked)
        | (s2, Ok _) =>
            match nm_arcs s2 !! cl_mac sender with
            | Some e =>
                if is_established (ae_arc e) then (s2, reaped, ok)
                else let '(s3, effs) := negotiate s2 nic (cl_mac sender) in (s3, reaped ++ effs, ok)
            | None =>
                if (pending_arc_cap s2 <=? pending_count s2)%Z then (s2, reaped, ok)
                else
                  let '(s3, effs) := negotiate (insert_discovered s2 now dev sender verified) nic (cl_mac sender) in
                  (s3, reaped ++ [NbIp (AddNeighbor dev (ns_local_address nic) (cl_addr sender))] ++ effs, ok)
            end
        end
  end.

Definition handle_request_arc_negotiated (s : NbState) (mac : string) (can_i can_you : bool) : NbState * list NbEffect :=
  if can_i && can_you then export_arc s mac
  else match nm_arcs s !! mac with
       | Some e =>
           if is_established (ae_arc e) then (s, [])
           else let s1 := set_arcs s (<[mac := with_arc e (with_state (ae_arc e) Discovered)]> (nm_arcs s)) in (s1, [nb_publish s1])
       | None => (s, [])
       end.

Definition caller_matches (caller : Claim) (a : NeighborArc) : bool :=
  (nb_id a =? cl_id caller)%Z && bool_decide (nb_addr a = cl_addr caller).

Definition handle_can_you_export (s : NbState) (caller : Claim) (peer_can_export : bool) (verified : Verified) : NbState * list NbEffect * NbReply :=
  match nm_arcs s !! cl_mac caller with
  | None => (s, [], NbRemoteReply (Err NoKnownArc))
  | Some e =>
      if negb (caller_matches caller (ae_arc e)) then (s, [], NbRemoteReply (Err CallerMismatch))
      else match authenticate s (cl_mac caller) verified with
      | (s1, Err e) => (s1, [], NbRemoteReply (Err e))
      | (s1, Panic) => (s1, [], NbPanicked)
      | (s1, Ok _) =>
          match nm_arcs s1 !! cl_mac caller with
          | None => (s1, [], NbRemoteReply (Err NoKnownArc))
          | Some e =>
              if is_established (ae_arc e) then (s1, [], NbRemoteReply (Ok (NbBoolean true)))
              else
                let can_i := (exported_count s1 <? nm_max_arcs s1)%Z in
                let '(s2, effs) := if can_i && peer_can_export then export_arc s1 (cl_mac caller) else (s1, []) in
                (s2, effs, NbRemoteReply (Ok (NbBoolean can_i)))
          end
      end
  end.

Definition handle_nop (s : NbState) (caller : Claim) (verified : Verified) : NbState * list NbEffect * NbReply :=
  match nm_arcs s !! cl_mac caller with
  | None => (s, [], NbRemoteReply (Err NoKnownArc))
  | Some e =>
      if negb (caller_matches caller (ae_arc e)) then (s, [], NbRemoteReply (Err CallerMismatch))
      else if negb (is_established (ae_arc e)) then (s, [], NbRemoteReply (Err NotEstablishedHere))
      else match authenticate s (cl_mac caller) verified with
      | (s1, Err e) => (s1, [], NbRemoteReply (Err e))
      | (s1, Panic) => (s1, [], NbPanicked)
      | (s1, Ok _) => (s1, [], NbRemoteReply (Ok NbEmpty))
      end
  end.

Definition nb_handle_remove_arc (s : NbState) (dev : string) (dest sender : Claim) (verified : Verified) : NbState * list NbEffect * NbReply :=
  let ok := NbRemoteReply (Ok NbEmpty) in
  if (cl_id sender =? nm_my_id s)%Z then (s, [], ok)
  else match nm_nics s !! dev with
  | None => (s, [], ok)
  | Some nic =>
      if negb (addressed_to s nic dest) then (s, [], ok)
      else if find_collision s (cl_mac sender) (cl_addr sender) (cl_id sender) dev then (s, [], ok)
      else match nm_arcs s !! cl_mac sender with
      | None => (s, [], ok)
      | Some e =>
          if negb (bool_decide (nb_dev (ae_arc e) = dev)) then (s, [], ok)
          else match authenticate s (cl_mac sender) verified with
          | (s1, Err _) => (s1, [], ok)
          | (s1, Panic) => (s1, [], NbPanicked)
          | (s1, Ok _) => let '(s2, effs) := remove_my_arc s1 (cl_mac sender) false in (s2, effs, ok)
          end
      end
  end.

(** ** Monitors *)
Definition set_cost (s : NbState) (key : string) (e : ArcEntry) (c : Z) (ev : NeighborArc → NbEvent) : NbState * list NbEffect :=
  let arc := with_cost (ae_arc e) c in
  let s1 := set_arcs s (<[key := with_arc e arc]> (nm_arcs s)) in (s1, [nb_publish s1; NbEmit (ev arc)]).

Definition update_cost (s : NbState) (key : string) (e : ArcEntry) (sample : Z) : NbState * list NbEffect :=
  match nb_cost (ae_arc e) with
  | Some (Finite published) => if exceeds_hysteresis published sample then set_cost s key e sample ArcCostChangedEv else (s, [])
  | _ => (s, [])
  end.

Definition handle_monitor_result (s : NbState) (key : string) (outcome : MonitorOutcome) : NbState * list NbEffect :=
  match outcome with
  | NopFailed => remove_my_arc s key false
  | NoRtt =>
      match nm_arcs s !! key with
      | Some e =>
          match nb_cost (ae_arc e) with
          | Some _ => (s, [])
          | None =>
              let e1 := mkArcEntry (ae_arc e) (ae_monitor_cancel e) (ae_created_at e) (ae_consecutive_no_rtt e + 1) (ae_verified_key e) in
              if (NO_RTT_FALLBACK_THRESHOLD <=? ae_consecutive_no_rtt e1)%Z then set_cost s key e1 NO_RTT_FALLBACK_COST_US ArcAddedEv
              else (set_arcs s (<[key := e1]> (nm_arcs s)), [])
          end
      | None => (s, [])
      end
  | FirstSample rtt =>
      match nm_arcs s !! key with
      | Some e =>
          match nb_cost (ae_arc e) with
          | Some _ => update_cost s key e rtt
          | None => set_cost s key e rtt ArcAddedEv
          end
      | None => (s, [])
      end
  | Sample smoothed =>
      match nm_arcs s !! key with
      | Some e => update_cost s key e smoothed
      | None => (s, [])
      end
  end.

(** [handle_command] *)
Definition nb_handle (env : NbEnv) (s : NbState) (cmd : NbCmd) : NbState * list NbEffect * NbReply :=
  match cmd with
  | StartMonitor nic => let '(s', effs, r) := start_monitor env s nic in (s', effs, NbMonitor r)
  | StopMonitor dev => let '(s', effs) := stop_monitor s dev in (s', effs, NbDone)
  | SyncInterfaces => let '(s', effs, stopped) := sync_interfaces env s in (s', effs, NbStopped stopped)
  | HereIAm dev sender verified => handle_here_i_am s (ev_now env) dev sender verified
  | RequestArc dev dest sender verified => handle_request_arc s (ev_now env) dev dest sender verified
  | CanYouExport caller peer_can_export verified => handle_can_you_export s caller peer_can_export verified
  | RemoveArcCmd dev dest sender verified => nb_handle_remove_arc s dev dest sender verified
  | Nop caller verified => handle_nop s caller verified
  | MonitorResult key outcome => let '(s', effs) := handle_monitor_result s key outcome in (s', effs, NbDone)
  | RequestArcNegotiated mac can_i can_you => let '(s', effs) := handle_request_arc_negotiated s mac can_i can_you in (s', effs, NbDone)
  end.

(** [Manager::spawn]; [sequence] is what [initial_sequence] reads off the clock. *)
Definition nb_spawn (my_id max_arcs : Z) (signing_key : option SigningKey) (require_auth : bool) (sequence : Z) : NbState :=
  mkNbState my_id max_arcs require_auth signing_key ∅ ∅ ∅ sequence sequence_guard_new 0 ∅.

(** Microseconds since the epoch; the clock may be before it. *)
Definition initial_sequence (since_epoch_us : option Z) : Z :=
  match since_epoch_us with Some us => if (us <=? U64_MAX)%Z then us else (U64_MAX / 2)%Z | None => 1%Z end.

(** ** Inbound calls (handler.rs) *)
Definition received_on_dev (bound_dev : option string) : res NbRemote string := ok_or bound_dev NoBroadcastScope.
Definition nb_decode_id (tv : option TypedValue) (field : string) : res NbRemote Z :=
  tv ← ok_or tv (FieldUnset field); map_err BadField (node_id_from_typed_value tv).
Definition caller_identity (caller : NbCaller) : res NbRemote Claim :=
  source_id ← ok_or (nc_source_id caller) (FieldUnset "CallerContext.source_id");
  src_nic ← ok_or (nc_src_nic caller) (FieldUnset "CallerContext.src_nic");
  id ← map_err BadField (node_id_from_typed_value source_id);
  nic ← map_err BadField (nic_ref_from_typed_value src_nic);
  Ok (mkClaim id (nr_mac nic) (nr_addr nic)).

(** The command a call becomes. *)
Definition nb_dispatch (bound_dev : option string) (caller : NbCaller) (call : NbCall) (auth : option Auth) : res NbRemote NbCmd :=
  let payload := encode_to_vec call in
  match call with
  | CallHereIAm args =>
      dev ← received_on_dev bound_dev;
      sender_id ← nb_decode_id (ha_my_id args) "here_i_am: my_id";
      verified ← verify_auth auth METHOD_HERE_I_AM payload;
      Ok (HereIAm dev (mkClaim sender_id (ha_my_mac args) (ha_my_nic_addr args)) verified)
  | CallRequestArc args =>
      dev ← received_on_dev bound_dev;
      dest_id ← nb_decode_id (aa_your_id args) "request_arc: your_id";
      sender_id ← nb_decode_id (aa_my_id args) "request_arc: my_id";
      verified ← verify_auth auth METHOD_REQUEST_ARC payload;
      Ok (RequestArc dev (mkClaim dest_id (aa_your_mac args) (aa_your_nic_addr args))
        (mkClaim sender_id (aa_my_mac args) (aa_my_nic_addr args)) verified)
  | CallCanYouExport can =>
      who ← caller_identity caller;
      verified ← verify_auth auth METHOD_CAN_YOU_EXPORT payload;
      Ok (CanYouExport who can verified)
  | CallRemoveArc args =>
      dev ← received_on_dev bound_dev;
      dest_id ← nb_decode_id (aa_your_id args) "remove_arc: your_id";
      sender_id ← nb_decode_id (aa_my_id args) "remove_arc: my_id";
      verified ← verify_auth auth METHOD_REMOVE_ARC payload;
      Ok (RemoveArcCmd dev (mkClaim dest_id (aa_your_mac args) (aa_your_nic_addr args))
        (mkClaim sender_id (aa_my_mac args) (aa_my_nic_addr args)) verified)
  | CallNop =>
      who ← caller_identity caller;
      verified ← verify_auth auth METHOD_NOP payload;
      Ok (Nop who verified)
  | CallOther => Err NotNeighborhood
  end.

(** ** The tasks *)

(** A turn of [run_radar]: the broadcast it makes. *)
Definition radar_call (my_id : Z) (nic : NicRef) : NbCall :=
  CallHereIAm (mkHereIAmArgs (Some (node_id_to_typed_value my_id)) (nr_mac nic) (nr_addr nic)).
Definition radar_turn (my_id : Z) (key : option SigningKey) (sequence : Z) (dev : string) (nic : NicRef) : NbEffect * Z :=
  let call := radar_call my_id nic in
  let '(auth, q) := sign_call key sequence METHOD_HERE_I_AM call in
  (NbBroadcast dev (nb_caller_context my_id nic) call auth, q).

(** A turn of [run_arc_monitor] after its wait: what was measured, whether the [nop]
    went out, whether the monitor was cancelled meanwhile; it yields the report and the
    smoothed cost to go on with, [None] when the task ends. *)
Definition monitor_turn (cancelled nop_ok : bool) (measured : option Z) (smoothed : option Z) : res unit (option MonitorOutcome * option (option Z)) :=
  if cancelled then Ok (None, None)
  else if negb nop_ok then Ok (Some NopFailed, None)
  else match measured with
       | None => Ok (Some NoRtt, Some smoothed)
       | Some rtt =>
           match smoothed with
           | None => Ok (Some (FirstSample rtt), Some (Some rtt))
           | Some prev => next ← ema_step prev rtt; Ok (Some (Sample next), Some (Some next))
           end
       end.

(** A turn of [run_arc_confirmation]: its report, and whether it goes on. *)
Definition confirmation_turn (cancelled accepted : bool) : option MonitorOutcome * bool :=
  if cancelled then (None, false) else if accepted then (None, true) else (Some NopFailed, false).

(** The keep-alive of a monitor or a confirmation. *)
Definition nop_call (my_id : Z) (key : option SigningKey) (sequence : Z) (nic : NicRef) : NbCaller * NbCall * option Auth * Z :=
  let '(auth, q) := sign_call key sequence METHOD_NOP CallNop in (nb_caller_context my_id nic, CallNop, auth, q).

(** The call the task of [handle_request_arc] makes, and what it sends back. *)
Definition export_call (my_id : Z) (key : option SigningKey) (sequence : Z) (nic : NicRef) (can_i : bool) : NbCaller * NbCall * option Auth * Z :=
  let call := CallCanYouExport can_i in
  let '(auth, q) := sign_call key sequence METHOD_CAN_YOU_EXPORT call in (nb_caller_context my_id nic, call, auth, q).
Definition export_report (arc : NeighborArc) (can_i : bool) (reply : res unit (option NbPayload)) : NbCmd :=
  RequestArcNegotiated (nb_mac arc) can_i (match reply with Ok (Some (NbBoolean true)) => true | _ => false end).
End Manager.
