(* ===== verification/NeighborCost.v ===== *)
(** * What the cost model and the probe guarantee

    The smoothed cost of a link reaches what is measured and a lasting change of the
    link is published; the probe's packets carry a right checksum and are read back. *)
From S2P Require Import Prelude Addressing Domain Neighbor.

(** ** Smoothing *)

(** [n] ticks that all measure [sample]. *)
Fixpoint ema_ticks (n : nat) (last sample : Z) : res unit Z :=
  match n with
  | 0 => Ok last
  | S n' => next ← ema_step last sample; ema_ticks n' next sample
  end.

Definition measurable (z : Z) : Prop := (0 ≤ z < 2 ^ 63)%Z.

Lemma damped_bounds d :
  (0 < d → 1 ≤ damped d ≤ d)%Z ∧ (d < 0 → d ≤ damped d ≤ -1)%Z ∧ damped 0 = 0%Z.
Proof.
  unfold damped. split_and!; [intros Hd|intros Hd|done].
  - destruct (Z.eqb_spec d 0); [lia|]. destruct (Z.ltb_spec 0 d); [|lia].
    pose proof (Z.quot_le_upper_bound d 10 d ltac:(lia) ltac:(lia)). pose proof (Z.quot_pos d 10 ltac:(lia) ltac:(lia)). lia.
  - destruct (Z.eqb_spec d 0); [lia|]. destruct (Z.ltb_spec 0 d); [lia|].
    pose proof (Z.quot_opp_l d 3 ltac:(lia)) as Hq.
    pose proof (Z.quot_le_upper_bound (- d) 3 (- d) ltac:(lia) ltac:(lia)). pose proof (Z.quot_pos (- d) 3 ltac:(lia) ltac:(lia)). lia.
Qed.

Lemma ema_step_exact last sample :
  measurable last → measurable sample → ema_step last sample = Ok (last + damped (sample - last))%Z.
Proof.
  intros Hl Hs. unfold ema_step, as_i64, measurable in *.
  destruct (Z.ltb_spec sample (2 ^ 63)); [|lia]. destruct (Z.ltb_spec last (2 ^ 63)); [|lia].
  destruct (damped_bounds (sample - last)) as (Hp & Hn & Hzero).
  assert (0 ≤ last + damped (sample - last) < 2 ^ 63)%Z as Hb.
  { destruct (Z.lt_trichotomy (sample - last) 0) as [?|[Heq|?]]; [lia| |lia]. rewrite Heq, Hzero. lia. }
  unfold i64. replace (- 2 ^ 63 <=? sample - last)%Z with true by (symmetry; apply Z.leb_le; lia).
  replace (sample - last <? 2 ^ 63)%Z with true by (symmetry; apply Z.ltb_lt; lia). cbn -[Z.add Z.sub Z.pow damped].
  replace (- 2 ^ 63 <=? last + damped (sample - last))%Z with true by (symmetry; apply Z.leb_le; lia).
  replace (last + damped (sample - last) <? 2 ^ 63)%Z with true by (symmetry; apply Z.ltb_lt; lia). cbn.
  by rewrite Z.max_l by lia.
Qed.

(** A tick stays between and comes strictly closer. *)
Lemma ema_step_closer last sample :
  measurable last → measurable sample →
  ∃ next, ema_step last sample = Ok next ∧
    (Z.min last sample ≤ next ≤ Z.max last sample)%Z ∧ (Z.abs (sample - next) ≤ Z.max 0 (Z.abs (sample - last) - 1))%Z.
Proof.
  intros Hl Hs. eexists. split; [by apply ema_step_exact|].
  destruct (damped_bounds (sample - last)) as (Hp & Hn & Hzero).
  destruct (Z.lt_trichotomy (sample - last) 0) as [?|[Heq|?]]; [lia| |lia]. rewrite Heq, Hzero. lia.
Qed.

Lemma ema_ticks_between n last sample :
  measurable last → measurable sample →
  ∃ v, ema_ticks n last sample = Ok v ∧ (Z.min last sample ≤ v ≤ Z.max last sample)%Z ∧
    (Z.abs (sample - v) ≤ Z.max 0 (Z.abs (sample - last) - Z.of_nat n))%Z.
Proof.
  revert last. induction n as [|n IH]; intros last Hl Hs; cbn [ema_ticks].
  - exists last. split; [done|]. lia.
  - destruct (ema_step_closer last sample Hl Hs) as (next & -> & Hb & Hc). cbn.
    destruct (IH next) as (v & -> & Hb' & Hc'); [unfold measurable in *; lia|done|].
    exists v. split; [done|]. lia.
Qed.

Lemma exceeds_hysteresis_spec published smoothed :
  (0 ≤ published ≤ U64_MAX)%Z → (0 ≤ smoothed < U64_MAX)%Z →
  exceeds_hysteresis published smoothed = true ↔
    smoothed ≠ published ∧ (2 * smoothed < published ∨ 2 * published ≤ smoothed)%Z.
Proof.
  intros Hp Hs. unfold exceeds_hysteresis, u64_saturating_mul. rewrite andb_true_iff, orb_true_iff, negb_true_iff, Z.eqb_neq, Z.ltb_lt, Z.leb_le.
  unfold U64_MAX in *. lia.
Qed.

(** Whatever the last smoothed cost, ticks that measure the same round trip never panic
    and stay between the two; after at most as many ticks as their distance the
    smoothed cost is what is measured; so a link whose round trip has at least doubled,
    or fallen below half, is published within that many ticks, and a link that stays in
    the band around what was published is never published again. *)
Theorem cost_follows_link published last sample :
  measurable published → measurable last → measurable sample →
  (∀ n, ∃ v, ema_ticks n last sample = Ok v ∧ (Z.min last sample ≤ v ≤ Z.max last sample)%Z) ∧
  ema_ticks (Z.to_nat (Z.abs (sample - last))) last sample = Ok sample ∧
  (sample ≠ published → (2 * sample < published ∨ 2 * published ≤ sample)%Z →
     ∃ n v, (Z.of_nat n ≤ Z.abs (sample - last))%Z ∧ ema_ticks n last sample = Ok v ∧ exceeds_hysteresis published v = true) ∧
  (exceeds_hysteresis published last = false → exceeds_hysteresis published sample = false →
     ∀ n v, ema_ticks n last sample = Ok v → exceeds_hysteresis published v = false).
Proof.
  intros Hp Hl Hs.
  assert (∀ v, measurable v → exceeds_hysteresis published v = true ↔ v ≠ published ∧ (2 * v < published ∨ 2 * published ≤ v)%Z) as Hx.
  { intros v Hv. apply exceeds_hysteresis_spec; unfold measurable, U64_MAX in *; lia. }
  assert (ema_ticks (Z.to_nat (Z.abs (sample - last))) last sample = Ok sample) as Hend.
  { destruct (ema_ticks_between (Z.to_nat (Z.abs (sample - last))) last sample Hl Hs) as (v & -> & _ & Hc). f_equal. lia. }
  split_and!; [|done| |].
  - intros n. destruct (ema_ticks_between n last sample Hl Hs) as (v & Hv & Hb & _). eauto.
  - intros Hne Hout. exists (Z.to_nat (Z.abs (sample - last))), sample. split_and!; [lia|done|]. by apply Hx.
  - intros Hlast Hsample n v Hv. destruct (ema_ticks_between n last sample Hl Hs) as (v' & Hv' & Hb & _). rewrite Hv in Hv'. injection Hv' as <-.
    assert (measurable v) as Hm by (unfold measurable in *; lia). apply not_true_is_false. rewrite (Hx v Hm).
    apply not_true_iff_false in Hlast, Hsample. rewrite (Hx last Hl) in Hlast. rewrite (Hx sample Hs) in Hsample.
    unfold measurable in *. lia.
Qed.

Lemma cost_follows_link_witness :
  ema_ticks 10 10 20 = Ok 20%Z ∧ ∃ n v, ema_ticks n 10 20 = Ok v ∧ exceeds_hysteresis 10 v = true.
Proof.
  destruct (cost_follows_link 10 10 20) as (_ & Hend & Hx & _); [unfold measurable; lia..|].
  split; [exact Hend|]. destruct Hx as (n & v & _ & Hn & Hv); [lia|right; lia|]. exists n, v. exact (conj Hn Hv).
Defined.

(** ** The probe *)
Definition is_u16 (v : Z) : Prop := (0 ≤ v < 2 ^ 16)%Z.

Lemma be_bytes16 v : is_u16 v → from_be_bytes16 (v / 256 mod 256) (v mod 256) = v.
Proof.
  unfold is_u16, from_be_bytes16. intros Hv. rewrite (Z.mod_small (v / 256)) by (split; [apply Z.div_pos; lia | apply Z.div_lt_upper_bound; lia]).
  rewrite (Z.div_mod v 256) at 3 by lia. lia.
Qed.

Lemma u32_add_small {E} a b : (a + b ≤ U32_MAX)%Z → u32_add (E := E) a b = Ok (a + b)%Z.
Proof. unfold u32_add. intros Hb. by rewrite (proj2 (Z.leb_le _ _) Hb). Qed.

Lemma fold_carries_exact sum :
  (0 ≤ sum < 2 ^ 32)%Z → ∃ s, fold_carries 2 sum = Ok s ∧ (0 ≤ s < 2 ^ 16)%Z ∧ (s mod (2 ^ 16 - 1) = sum mod (2 ^ 16 - 1))%Z ∧ (0 < sum → 0 < s)%Z.
Proof.
  assert (∀ fuel n, (0 ≤ n < 2 ^ 16)%Z → fold_carries fuel n = Ok n) as Hdone.
  { intros fuel n Hn. assert ((Z.shiftr n 16 =? 0)%Z = true) as E by (rewrite Z.shiftr_div_pow2 by lia; apply Z.eqb_eq, Z.div_small; lia).
    destruct fuel; cbn; by rewrite E. }
  assert (∀ fuel n, (2 ^ 16 ≤ n < 2 ^ 32)%Z → fold_carries (S fuel) n = fold_carries fuel (n mod 2 ^ 16 + n / 2 ^ 16)) as Hturn.
  { intros fuel n Hn. cbn [fold_carries]. rewrite Z.shiftr_div_pow2 by lia.
    assert (1 ≤ n / 2 ^ 16 < 2 ^ 16)%Z by (split; [apply Z.div_le_lower_bound; lia | apply Z.div_lt_upper_bound; lia]).
    destruct (Z.eqb_spec (n / 2 ^ 16) 0); [lia|]. change 0xffff%Z with (Z.ones 16). rewrite Z.land_ones by lia.
    pose proof (Z.mod_pos_bound n (2 ^ 16)). rewrite u32_add_small by (unfold U32_MAX; lia). done. }
  assert (∀ n, ((n mod 2 ^ 16 + n / 2 ^ 16) mod (2 ^ 16 - 1) = n mod (2 ^ 16 - 1))%Z) as Hmod.
  { intros n. transitivity (((n mod 2 ^ 16 + n / 2 ^ 16) + (n / 2 ^ 16) * (2 ^ 16 - 1)) mod (2 ^ 16 - 1))%Z; [by rewrite Z.mod_add by lia|].
    pose proof (Z.div_mod n (2 ^ 16) ltac:(lia)). f_equal. lia. }
  intros Hs. destruct (Z.lt_ge_cases sum (2 ^ 16)) as [Hlt|Hge]; [exists sum; rewrite Hdone by lia; split_and!; [done|lia|lia|done|lia]|].
  rewrite Hturn by lia. set (s1 := (sum mod 2 ^ 16 + sum / 2 ^ 16)%Z).
  assert (1 ≤ sum / 2 ^ 16 < 2 ^ 16)%Z as Hd by (split; [apply Z.div_le_lower_bound; lia | apply Z.div_lt_upper_bound; lia]).
  pose proof (Z.mod_pos_bound sum (2 ^ 16) ltac:(lia)) as Hm.
  destruct (Z.lt_ge_cases s1 (2 ^ 16)) as [Hlt1|Hge1]; [exists s1; rewrite Hdone by lia; split_and!; [done|lia|lia|apply Hmod|lia]|].
  rewrite Hturn by lia. assert (s1 / 2 ^ 16 = 1)%Z as Hone by (symmetry; apply Z.div_unique with (s1 - 2 ^ 16)%Z; lia).
  assert (s1 mod 2 ^ 16 = s1 - 2 ^ 16)%Z as Hsm by (symmetry; apply Z.mod_unique with 1%Z; lia).
  eexists. rewrite Hdone by lia. split_and!; [done|lia|lia| |lia]. rewrite Hmod. apply Hmod.
Qed.

Lemma checksum_four a b c d :
  is_u16 a → is_u16 b → is_u16 c → is_u16 d →
  ∃ s, internet_checksum (to_be_bytes16 a ++ to_be_bytes16 b ++ to_be_bytes16 c ++ to_be_bytes16 d) = Ok (2 ^ 16 - 1 - s)%Z ∧
    is_u16 s ∧ (s mod (2 ^ 16 - 1) = (a + b + c + d) mod (2 ^ 16 - 1))%Z ∧ (0 < a + b + c + d → 0 < s)%Z.
Proof.
  intros Ha Hb Hc Hd. unfold internet_checksum. cbn [app to_be_bytes16 checksum_words].
  rewrite !be_bytes16 by done. unfold is_u16 in *.
  rewrite u32_add_small by (unfold U32_MAX; lia). cbn [mbind res_bind]. rewrite u32_add_small by (unfold U32_MAX; lia). cbn [mbind res_bind].
  rewrite u32_add_small by (unfold U32_MAX; lia). cbn [mbind res_bind]. rewrite u32_add_small by (unfold U32_MAX; lia). cbn [mbind res_bind].
  destruct (fold_carries_exact (0 + a + b + c + d)) as (s & -> & Hs & Hm & Hp); [lia|]. cbn [mbind res_bind].
  exists s. split_and!; [|lia|lia|by rewrite Hm|lia]. f_equal. rewrite Z.mod_small by lia. lia.
Qed.

(** The echo request of every identifier and sequence number is built without an
    overflow, sums to zero with its checksum included, is read back as it was meant by
    both kinds of socket, whatever the options of the IP header a raw one delivers, and
    a datagram from another host never ends the wait. *)
Theorem echo_request_sound ident sequence :
  is_u16 ident → is_u16 sequence →
  ∃ packet, build_echo_request ident sequence = Ok packet ∧ length packet = 8 ∧
    internet_checksum packet = Ok 0%Z ∧
    parse_icmp packet false = Some (mkIcmpReply ICMP_ECHO_REQUEST ident sequence) ∧
    (∀ first header, length (first :: header) = Z.to_nat (Z.land first 0x0f * 4) →
       parse_icmp (first :: header ++ packet) true = Some (mkIcmpReply ICMP_ECHO_REQUEST ident sequence)) ∧
    (∀ peer other buf raw, other ≠ peer → reply_matches peer other buf raw ident sequence = false).
Proof.
  intros Hi Hs. unfold build_echo_request.
  change ([ICMP_ECHO_REQUEST; 0%Z] ++ [0%Z; 0%Z] ++ to_be_bytes16 ident ++ to_be_bytes16 sequence)
    with (to_be_bytes16 2048 ++ to_be_bytes16 0 ++ to_be_bytes16 ident ++ to_be_bytes16 sequence).
  destruct (checksum_four 2048 0 ident sequence) as (s & -> & Hs1 & Hm & Hpos); [unfold is_u16 in *; lia..|].
  unfold is_u16 in *. assert (0 < s)%Z as Hp by lia. cbn [mbind res_bind]. eexists. split; [done|].
  change [ICMP_ECHO_REQUEST; 0%Z] with (to_be_bytes16 2048). split_and!; [done| | | |].
  - destruct (checksum_four 2048 (2 ^ 16 - 1 - s) ident sequence) as (t & -> & Ht & Hm' & Hpos'); [unfold is_u16 in *; lia..|].
    unfold is_u16 in Ht. f_equal. enough (t = 2 ^ 16 - 1)%Z by lia.
    assert (t mod (2 ^ 16 - 1) = 0)%Z as Hz.
    { rewrite Hm'. replace (2048 + (2 ^ 16 - 1 - s) + ident + sequence)%Z with ((2048 + 0 + ident + sequence - s) + 1 * (2 ^ 16 - 1))%Z by lia.
      rewrite Z.mod_add by lia. rewrite Zminus_mod, <- Hm, Z.sub_diag. done. }
    apply Z.mod_divide in Hz; [|lia]. destruct Hz as [q Hq]. assert (q = 1)%Z; [|lia]. assert (0 < t)%Z by lia. nia.
  - cbn. by rewrite !be_bytes16 by (unfold is_u16; lia).
  - intros first header Hlen. unfold parse_icmp. cbn [head mbind option_bind].
    rewrite <- Hlen, (app_comm_cons header), (proj2 (Nat.leb_le _ _)) by (rewrite length_app; lia).
    rewrite drop_app_length. cbn. by rewrite !be_bytes16 by (unfold is_u16; lia).
  - intros peer other buf raw Hne. unfold reply_matches. by rewrite (proj2 (Z.eqb_neq _ _) Hne).
Qed.

Lemma echo_request_sound_witness : ∃ packet, build_echo_request 4660 7 = Ok packet ∧ internet_checksum packet = Ok 0%Z.
Proof. destruct (echo_request_sound 4660 7) as (p & ? & _ & ? & _); [unfold is_u16; lia..|]. by exists p. Defined.
