(* ===== verification/NeighborProps.v ===== *)
(** * What the neighbourhood manager keeps

    Over every sequence of commands: the arcs are on monitored interfaces, one per
    hardware address, per link-local address and per interface and neighbour; the
    neighbours installed in the kernel, the arcs announced to subscribers and the live
    monitor tasks are exactly those of the arcs; unconfirmed arcs are bounded. *)
From stdpp Require Import strings.
From S2P Require Import Prelude Netlink Addressing Domain Auth PeerWireProps Neighbor NeighborActor.

Arguments NbState {_}. Arguments ArcEntry {_}. Arguments NbCmd {_}.

(** ** What the effects of a run amount to *)

(** The neighbours the kernel has, by interface and address. *)
Definition kernel_op (ks : gset (string * string)) (op : IpRouteOperation) : gset (string * string) :=
  match op with
  | AddNeighbor dev _ addr => {[(dev, addr)]} ∪ ks
  | RemoveNeighbor dev _ addr => ks ∖ {[(dev, addr)]}
  | _ => ks
  end.
Definition kernel_neighbours (log : list NbEffect) : gset (string * string) :=
  foldl (λ ks e, match e with NbIp op => kernel_op ks op | _ => ks end) ∅ log.

(** The costs a subscriber knows; [None] when an arc is announced twice, or an arc that
    is not announced changes or goes. *)
Definition hear (m : option (gmap string Cost)) (e : NbEvent) : option (gmap string Cost) :=
  m ← m;
  match e with
  | ArcAddedEv a => match m !! nb_mac a, nb_cost a with None, Some c => Some (<[nb_mac a := c]> m) | _, _ => None end
  | ArcCostChangedEv a => match m !! nb_mac a, nb_cost a with Some _, Some c => Some (<[nb_mac a := c]> m) | _, _ => None end
  | ArcRemovedEv a => match m !! nb_mac a with Some _ => Some (delete (nb_mac a) m) | None => None end
  end.
Definition announced (log : list NbEffect) : option (gmap string Cost) :=
  foldl (λ m e, match e with NbEmit ev => hear m ev | _ => m end) (Some ∅) log.

(** The monitors spawned, and the confirmations. *)
Definition monitors (log : list NbEffect) : list MonitorContext := omap (λ e, match e with NbSpawnMonitor c => Some c | _ => None end) log.
Definition confirmations (log : list NbEffect) : list MonitorContext := omap (λ e, match e with NbSpawnConfirmation c => Some c | _ => None end) log.

Lemma kernel_neighbours_app l1 l2 :
  kernel_neighbours (l1 ++ l2) = foldl (λ ks e, match e with NbIp op => kernel_op ks op | _ => ks end) (kernel_neighbours l1) l2.
Proof. apply foldl_app. Qed.
Lemma announced_app l1 l2 :
  announced (l1 ++ l2) = foldl (λ m e, match e with NbEmit ev => hear m ev | _ => m end) (announced l1) l2.
Proof. apply foldl_app. Qed.

Lemma hm_iter_empty `{HashOrder, Countable K} {V} : hm_iter (∅ : gmap K V) = [].
Proof. apply Permutation_nil. by rewrite hm_iter_perm, map_to_list_empty. Qed.
Lemma hm_iter_singleton `{HashOrder, Countable K} {V} (k : K) (v : V) : hm_iter ({[k := v]} : gmap K V) = [(k, v)].
Proof. apply Permutation_singleton_r. by rewrite hm_iter_perm, map_to_list_singleton. Qed.

(** ** Counting *)
Section Counting.
Context `{Crypto, HashOrder}.
Implicit Types (m : gmap string ArcEntry) (e : ArcEntry).

Definition pending_keys m : gset string := dom (filter (λ kv, is_established (ae_arc kv.2) = false) m).

Lemma elem_of_pending_keys m k : k ∈ pending_keys m ↔ ∃ e, m !! k = Some e ∧ is_established (ae_arc e) = false.
Proof. unfold pending_keys. rewrite elem_of_dom. unfold is_Some. setoid_rewrite map_lookup_filter_Some. done. Qed.

Lemma pending_count_keys (s : NbState) : pending_count s = Z.of_nat (size (pending_keys (nm_arcs s))).
Proof.
  unfold pending_count, arc_values, pending_keys. f_equal. rewrite size_dom. unfold retain.
  transitivity (length (filter (λ kv : string * ArcEntry, is_established (ae_arc kv.2) = false) (hm_iter (nm_arcs s)))).
  - induction (hm_iter (nm_arcs s)) as [|kv l IH]; [done|]. cbn [fmap list_fmap List.filter]. rewrite filter_cons.
    destruct (is_established (ae_arc kv.2)); cbn; [by rewrite decide_False | by rewrite decide_True, IH].
  - rewrite <- length_map_to_list. apply Permutation_length, NoDup_Permutation.
    + apply NoDup_filter. rewrite hm_iter_perm. apply NoDup_map_to_list.
    + apply NoDup_map_to_list.
    + intros [k e]. by rewrite list_elem_of_filter, elem_of_hm_iter, elem_of_map_to_list, map_lookup_filter_Some, (comm and).
Qed.

Lemma exported_count_le (s : NbState) : (0 ≤ exported_count s)%Z.
Proof. unfold exported_count. lia. Qed.

Lemma pending_keys_mono m m' : pending_keys m' ⊆ pending_keys m → (size (pending_keys m') ≤ size (pending_keys m))%nat.
Proof. apply subseteq_size. Qed.

Lemma pending_keys_delete m k : pending_keys (delete k m) ⊆ pending_keys m.
Proof. intros k'. rewrite !elem_of_pending_keys. intros (e & [_ Hl]%lookup_delete_Some & He). eauto. Qed.

Lemma pending_keys_update m k e e' :
  m !! k = Some e → (is_established (ae_arc e') = false → is_established (ae_arc e) = false) →
  pending_keys (<[k := e']> m) ⊆ pending_keys m.
Proof.
  intros Hk Himp k'. rewrite !elem_of_pending_keys. intros (e0 & [[<- <-]|[_ Hl]]%lookup_insert_Some & He); eauto.
Qed.

Lemma pending_keys_insert m k e : pending_keys (<[k := e]> m) ⊆ {[k]} ∪ pending_keys m.
Proof. intros k'. rewrite elem_of_union, !elem_of_pending_keys. intros (e0 & [[<- <-]|[_ Hl]]%lookup_insert_Some & He); [set_solver|eauto]. Qed.
End Counting.

(** ** The invariant *)
Section Invariant.
Context `{Crypto, HashOrder, ProstMessage WireNodeId, ProstMessage WireNicRef, ProstMessage NbCall}.
Context {NetlinkError : Type}.
Implicit Types (s : NbState) (e : ArcEntry) (rep : NbReply (NetlinkError := NetlinkError)).

Record nb_ok (s : NbState) (log : list NbEffect) : Prop := {
  ok_keyed : ∀ m e, nm_arcs s !! m = Some e → nb_mac (ae_arc e) = m;
  ok_nic : ∀ m e, nm_arcs s !! m = Some e → is_Some (nm_nics s !! nb_dev (ae_arc e));
  ok_state : ∀ m e, nm_arcs s !! m = Some e → nb_state (ae_arc e) ≠ Removed;
  ok_linklocal : ∀ m e, nm_arcs s !! m = Some e → ∃ rest, parse_ipv4 (nb_addr (ae_arc e)) = Some (169 :: 254 :: rest)%Z;
  ok_stranger : ∀ m e, nm_arcs s !! m = Some e → nb_id (ae_arc e) ≠ nm_my_id s;
  ok_addr : ∀ m m' e e', nm_arcs s !! m = Some e → nm_arcs s !! m' = Some e' → nb_addr (ae_arc e) = nb_addr (ae_arc e') → m = m';
  ok_id : ∀ m m' e e', nm_arcs s !! m = Some e → nm_arcs s !! m' = Some e' →
    nb_id (ae_arc e) = nb_id (ae_arc e') → nb_dev (ae_arc e) = nb_dev (ae_arc e') → m = m';
  ok_cost : ∀ m e c, nm_arcs s !! m = Some e → nb_cost (ae_arc e) = Some c → ∃ v, c = Finite v;
  ok_pending : (pending_count s ≤ pending_arc_cap s)%Z;
  ok_fresh_arc : ∀ m e, nm_arcs s !! m = Some e → (ae_monitor_cancel e < nm_next_token s)%Z;
  ok_fresh_nic : ∀ d n, nm_nics s !! d = Some n → (ns_radar_cancel n < nm_next_token s)%Z;
  ok_fresh_monitor : ∀ c, c ∈ monitors log → (mc_token c < nm_next_token s)%Z;
  ok_fresh_cancelled : ∀ t, t ∈ nm_cancelled s → (t < nm_next_token s)%Z;
  ok_token_inj : ∀ m m' e e', nm_arcs s !! m = Some e → nm_arcs s !! m' = Some e' → ae_monitor_cancel e = ae_monitor_cancel e' → m = m';
  ok_token_nic : ∀ m e d n, nm_arcs s !! m = Some e → nm_nics s !! d = Some n → ae_monitor_cancel e ≠ ns_radar_cancel n;
  ok_token_live : ∀ m e, nm_arcs s !! m = Some e → ae_monitor_cancel e ∉ nm_cancelled s;
  ok_monitor_live : ∀ c, c ∈ monitors log → mc_token c ∉ nm_cancelled s →
    ∃ e, nm_arcs s !! mc_key c = Some e ∧ is_established (ae_arc e) = true ∧ ae_monitor_cancel e = mc_token c;
  ok_monitored : ∀ m e, nm_arcs s !! m = Some e → is_established (ae_arc e) = true →
    ∃ c, c ∈ monitors log ∧ mc_key c = m ∧ mc_token c = ae_monitor_cancel e;
  ok_monitor_once : NoDup (mc_token <$> monitors log);
  ok_confirmations : confirmations log = monitors log;
  ok_kernel : ∀ dev addr, (dev, addr) ∈ kernel_neighbours log ↔
    ∃ m e, nm_arcs s !! m = Some e ∧ nb_dev (ae_arc e) = dev ∧ nb_addr (ae_arc e) = addr;
  ok_announced : ∃ cm, announced log = Some cm ∧ ∀ m, cm !! m = (e ← nm_arcs s !! m; nb_cost (ae_arc e))
}.

(** Effects no one counts. *)
Definition silent (x : NbEffect) : bool :=
  match x with
  | NbIp (AddNeighbor _ _ _) | NbIp (RemoveNeighbor _ _ _) | NbEmit _ | NbSpawnMonitor _ | NbSpawnConfirmation _ => false
  | _ => true
  end.

Lemma silent_views log effs :
  all silent effs = true →
  kernel_neighbours (log ++ effs) = kernel_neighbours log ∧ announced (log ++ effs) = announced log ∧
  monitors (log ++ effs) = monitors log ∧ confirmations (log ++ effs) = confirmations log.
Proof.
  rewrite all_true. unfold kernel_neighbours, announced, monitors, confirmations. rewrite !foldl_app, !omap_app.
  intros Hs. generalize (foldl (λ ks x, match x with NbIp op => kernel_op ks op | _ => ks end) ∅ log) as ks.
  generalize (foldl (λ m x, match x with NbEmit ev => hear m ev | _ => m end) (Some ∅) log) as cm.
  induction effs as [|x effs IH]; intros cm ks; [by rewrite !app_nil_r|].
  pose proof (Hs x (list_elem_of_here _ _)) as He.
  assert (∀ y, y ∈ effs → silent y = true) as Hs' by (intros y Hy; apply Hs; by apply list_elem_of_further).
  destruct x as [[]| | | | | | |]; try discriminate He; cbn; by apply IH.
Qed.

(** Entries that count the same. *)
Definition like (e e' : ArcEntry) : Prop :=
  nb_id (ae_arc e') = nb_id (ae_arc e) ∧ nb_mac (ae_arc e') = nb_mac (ae_arc e) ∧ nb_addr (ae_arc e') = nb_addr (ae_arc e) ∧
  nb_dev (ae_arc e') = nb_dev (ae_arc e) ∧ nb_cost (ae_arc e') = nb_cost (ae_arc e) ∧
  ae_monitor_cancel e' = ae_monitor_cancel e ∧ is_established (ae_arc e') = is_established (ae_arc e) ∧ nb_state (ae_arc e') ≠ Removed.

(** A step whose arcs count the same and whose effects no one counts. *)
Lemma ok_like s s' log effs :
  nm_my_id s' = nm_my_id s → nm_max_arcs s' = nm_max_arcs s → nm_nics s' = nm_nics s →
  nm_next_token s' = nm_next_token s → nm_cancelled s' = nm_cancelled s →
  (∀ m, nm_arcs s' !! m = nm_arcs s !! m ∨ ∃ e e', nm_arcs s !! m = Some e ∧ nm_arcs s' !! m = Some e' ∧ like e e') →
  all silent effs = true → nb_ok s log → nb_ok s' (log ++ effs).
Proof.
  intros Hmy Hmax Hnics Hnext Hcan Harcs (Hk & Ha & Hm & Hc)%(silent_views log) Hok.
  assert (∀ m e', nm_arcs s' !! m = Some e' → ∃ e, nm_arcs s !! m = Some e ∧ like e e') as Hback.
  { intros m e' He'. destruct (Harcs m) as [Heq|(e & e'' & He & He'' & Hl)]; [|simplify_eq; eauto].
    rewrite Heq in He'. exists e'. split; [done|]. unfold like. split_and!; try done. by apply (ok_state s log Hok m). }
  assert (∀ m e, nm_arcs s !! m = Some e → ∃ e', nm_arcs s' !! m = Some e' ∧ like e e') as Hforth.
  { intros m e He. destruct (Harcs m) as [Heq|(e1 & e' & He1 & He' & Hl)]; [|simplify_eq; eauto].
    rewrite <- Heq in He. exists e. split; [done|]. unfold like. split_and!; try done. apply (ok_state s log Hok m). by rewrite <- Heq. }
  unfold like in Hback, Hforth.
  constructor; rewrite ?Hmy, ?Hnics, ?Hnext, ?Hcan, ?Hm, ?Hc, ?Hk, ?Ha; try apply Hok.
  - intros m e' (e & He & ? & -> & _)%Hback. by apply (ok_keyed s log Hok).
  - intros m e' (e & He & ? & ? & ? & -> & _)%Hback. by apply (ok_nic s log Hok m).
  - intros m e' (e & He & Hl)%Hback. apply Hl.
  - intros m e' (e & He & ? & ? & -> & _)%Hback. by apply (ok_linklocal s log Hok m).
  - intros m e' (e & He & -> & _)%Hback. by apply (ok_stranger s log Hok m).
  - intros m m' e1' e2' (e1 & He1 & ? & ? & -> & _)%Hback (e2 & He2 & ? & ? & -> & _)%Hback. by apply (ok_addr s log Hok).
  - intros m m' e1' e2' (e1 & He1 & -> & ? & ? & -> & _)%Hback (e2 & He2 & -> & ? & ? & -> & _)%Hback. by apply (ok_id s log Hok).
  - intros m e' c (e & He & ? & ? & ? & ? & -> & _)%Hback. by apply (ok_cost s log Hok m).
  - unfold pending_arc_cap. rewrite Hmax. etransitivity; [|apply (ok_pending s log Hok)]. rewrite !pending_count_keys.
    apply inj_le, pending_keys_mono. intros m. rewrite !elem_of_pending_keys.
    intros (e' & (e & He & ? & ? & ? & ? & ? & ? & Hest & _)%Hback & Hn). exists e. by rewrite <- Hest.
  - intros m e' (e & He & ? & ? & ? & ? & ? & -> & _)%Hback. by apply (ok_fresh_arc s log Hok m).
  - intros m m' e1' e2' (e1 & He1 & ? & ? & ? & ? & ? & -> & _)%Hback (e2 & He2 & ? & ? & ? & ? & ? & -> & _)%Hback. by apply (ok_token_inj s log Hok).
  - intros m e' d n (e & He & ? & ? & ? & ? & ? & -> & _)%Hback Hn. by apply (ok_token_nic s log Hok m e d n).
  - intros m e' (e & He & ? & ? & ? & ? & ? & -> & _)%Hback. by apply (ok_token_live s log Hok m).
  - intros c Hc1 Hc2. destruct (ok_monitor_live s log Hok c Hc1 Hc2) as (e & (e' & He' & ? & ? & ? & ? & ? & Ht & Hest & _)%Hforth & Hes & <-).
    exists e'. by rewrite Hest, Ht.
  - intros m e' (e & He & ? & ? & ? & ? & ? & -> & -> & _)%Hback. by apply (ok_monitored s log Hok m).
  - intros dev addr. rewrite (ok_kernel s log Hok). split.
    + intros (m & e & (e' & He' & ? & ? & Had & Hde & _)%Hforth & <- & <-). exists m, e'. by rewrite Had, Hde.
    + intros (m & e' & (e & He & ? & ? & -> & -> & _)%Hback & <- & <-). by exists m, e.
  - destruct (ok_announced s log Hok) as (cm & Hcm & Hl). exists cm. split; [done|]. intros m. rewrite Hl.
    destruct (Harcs m) as [->|(e & e' & -> & -> & Hlk)]; [done|]. cbn. symmetry. apply Hlk.
Qed.

(** An arc leaves. *)
Lemma ok_delete s s' log log' mac e :
  nm_arcs s !! mac = Some e → nb_ok s log →
  nm_my_id s' = nm_my_id s → nm_max_arcs s' = nm_max_arcs s → nm_nics s' = nm_nics s → nm_next_token s' = nm_next_token s →
  nm_arcs s' = delete mac (nm_arcs s) → nm_cancelled s' = {[ae_monitor_cancel e]} ∪ nm_cancelled s →
  kernel_neighbours log' = kernel_neighbours log ∖ {[(nb_dev (ae_arc e), nb_addr (ae_arc e))]} →
  announced log' = match nb_cost (ae_arc e) with Some _ => hear (announced log) (ArcRemovedEv (with_state (ae_arc e) Removed)) | None => announced log end →
  monitors log' = monitors log → confirmations log' = confirmations log →
  nb_ok s' log'.
Proof.
  intros He Hok Hmy Hmax Hnics Hnext Harcs Hcan Hk Ha Hm Hc.
  assert (∀ m e', nm_arcs s' !! m = Some e' → m ≠ mac ∧ nm_arcs s !! m = Some e') as Hback.
  { intros m e'. rewrite Harcs. by intros [? ?]%lookup_delete_Some. }
  constructor; rewrite ?Hmy, ?Hnics, ?Hnext, ?Hm, ?Hc; try apply Hok.
  - intros m e' [_ He']%Hback. by apply (ok_keyed s log Hok).
  - intros m e' [_ He']%Hback. by apply (ok_nic s log Hok m).
  - intros m e' [_ He']%Hback. by apply (ok_state s log Hok m).
  - intros m e' [_ He']%Hback. by apply (ok_linklocal s log Hok m).
  - intros m e' [_ He']%Hback. by apply (ok_stranger s log Hok m).
  - intros m m' e1 e2 [_ He1]%Hback [_ He2]%Hback. by apply (ok_addr s log Hok).
  - intros m m' e1 e2 [_ He1]%Hback [_ He2]%Hback. by apply (ok_id s log Hok).
  - intros m e' c [_ He']%Hback. by apply (ok_cost s log Hok m).
  - unfold pending_arc_cap. rewrite Hmax. etransitivity; [|apply (ok_pending s log Hok)]. rewrite !pending_count_keys, Harcs.
    apply inj_le, pending_keys_mono, pending_keys_delete.
  - intros m e' [_ He']%Hback. by apply (ok_fresh_arc s log Hok m).
  - intros t. rewrite Hcan, elem_of_union, elem_of_singleton. intros [->|Ht]; [by apply (ok_fresh_arc s log Hok mac)|by apply (ok_fresh_cancelled s log Hok)].
  - intros m m' e1 e2 [_ He1]%Hback [_ He2]%Hback. by apply (ok_token_inj s log Hok).
  - intros m e' d n [_ He']%Hback. by apply (ok_token_nic s log Hok m).
  - intros m e' [Hne He']%Hback. rewrite Hcan, elem_of_union, elem_of_singleton. intros [Heq|Hin]; [|by apply (ok_token_live s log Hok m e')].
    apply Hne. by apply (ok_token_inj s log Hok m mac e' e).
  - intros c Hin Hno. rewrite Hcan, elem_of_union, elem_of_singleton in Hno.
    destruct (ok_monitor_live s log Hok c Hin) as (e' & He' & Hest & Ht); [tauto|]. exists e'. split; [|done].
    rewrite Harcs. rewrite lookup_delete_ne; [done|]. intros Heq. apply Hno. left. rewrite <- Heq, He in He'. by injection He' as <-.
  - intros m e' [_ He']%Hback. by apply (ok_monitored s log Hok m).
  - intros dev addr. rewrite Hk, elem_of_difference, elem_of_singleton, (ok_kernel s log Hok). split.
    + intros [(m & e' & He' & <- & <-) Hne]. exists m, e'. split; [|done]. rewrite Harcs. rewrite lookup_delete_ne; [done|].
      intros <-. rewrite He in He'. injection He' as <-. by apply Hne.
    + intros (m & e' & [Hne He']%Hback & <- & <-). split; [by exists m, e'|]. intros [= _ Heq]. apply Hne. by apply (ok_addr s log Hok m mac e' e).
  - destruct (ok_announced s log Hok) as (cm & Hcm & Hl). pose proof (Hl mac) as Hmac. rewrite He in Hmac. cbn in Hmac.
    rewrite Ha, Hcm, Harcs. destruct (nb_cost (ae_arc e)) as [c|] eqn:Ec; cbn.
    + rewrite (ok_keyed s log Hok mac e He), Hmac. eexists. split; [done|]. intros m.
      destruct (decide (m = mac)) as [->|Hne]; [by rewrite !lookup_delete_eq | by rewrite !lookup_delete_ne].
    + eexists. split; [done|]. intros m.
      destruct (decide (m = mac)) as [->|Hne]; [by rewrite lookup_delete_eq | by rewrite lookup_delete_ne].
Qed.

(** What [remove_my_arc] does to the rest of the state. *)
Lemma remove_my_arc_frame s mac usable s' effs :
  remove_my_arc s mac usable = (s', effs) →
  nm_my_id s' = nm_my_id s ∧ nm_max_arcs s' = nm_max_arcs s ∧ nm_nics s' = nm_nics s ∧ nm_next_token s' = nm_next_token s ∧
  nm_disabling s' = nm_disabling s ∧ nm_require_auth s' = nm_require_auth s ∧ nm_guard s' = nm_guard s ∧
  nm_arcs s' = delete mac (nm_arcs s) ∧
  nm_cancelled s' = match nm_arcs s !! mac with Some e => {[ae_monitor_cancel e]} ∪ nm_cancelled s | None => nm_cancelled s end.
Proof.
  unfold remove_my_arc. destruct (nm_arcs s !! mac) as [e|] eqn:E; [|intros [= <- <-]; by rewrite delete_id by done].
  destruct usable, (nm_nics _ !! nb_dev (ae_arc e)) as [n|]; cbn; [destruct (sign_call _ _ _ _) as [auth q]|..]; by intros [= <- <-].
Qed.

Lemma remove_my_arc_ok s mac usable s' effs log :
  remove_my_arc s mac usable = (s', effs) → nb_ok s log → nb_ok s' (log ++ effs).
Proof.
  intros Hr Hok. destruct (nm_arcs s !! mac) as [e|] eqn:He; [|unfold remove_my_arc in Hr; rewrite He in Hr; injection Hr as <- <-; by rewrite app_nil_r].
  destruct (remove_my_arc_frame _ _ _ _ _ Hr) as (? & ? & ? & ? & _ & _ & _ & ? & Hc). rewrite He in Hc.
  destruct (ok_nic s log Hok mac e He) as [n Hn].
  assert (∃ calls, effs = [NbIp (RemoveNeighbor (nb_dev (ae_arc e)) (ns_local_address n) (nb_addr (ae_arc e)))] ++ calls ++ [nb_publish s'] ++
    match nb_cost (ae_arc e) with Some _ => [NbEmit (ArcRemovedEv (with_state (ae_arc e) Removed))] | None => [] end ∧ all silent calls = true)
    as (calls & -> & Hcalls).
  { unfold remove_my_arc in Hr. rewrite He in Hr. cbn in Hr. rewrite Hn in Hr.
    destruct usable; [destruct (sign_call _ _ _ _) as [auth q]|]; injection Hr as <- <-; [eexists [_]|exists []]; by split. }
  destruct (silent_views (log ++ [NbIp (RemoveNeighbor (nb_dev (ae_arc e)) (ns_local_address n) (nb_addr (ae_arc e)))]) (calls ++ [nb_publish s'])) as (Vk & Va & Vm & Vc).
  { apply all_true. intros x. rewrite elem_of_app, list_elem_of_singleton. intros [Hx| ->]; [|done]. by apply (proj1 (all_true silent calls) Hcalls). }
  set (ev := match nb_cost (ae_arc e) with Some _ => _ | None => [] end).
  assert (∀ rm, log ++ [rm] ++ calls ++ [nb_publish s'] ++ ev = ((log ++ [rm]) ++ (calls ++ [nb_publish s'])) ++ ev) as -> by (intros rm; by rewrite <- !app_assoc).
  unfold monitors, confirmations in *.
  eapply (ok_delete s s' log); [exact He|done|done..| | | |]; unfold monitors, confirmations.
  - rewrite kernel_neighbours_app, Vk, kernel_neighbours_app. by destruct (nb_cost (ae_arc e)).
  - rewrite announced_app, Va, announced_app. by destruct (nb_cost (ae_arc e)).
  - rewrite omap_app, Vm, omap_app. destruct (nb_cost (ae_arc e)); cbn; by rewrite !app_nil_r.
  - rewrite omap_app, Vc, omap_app. destruct (nb_cost (ae_arc e)); cbn; by rewrite !app_nil_r.
Qed.

(** Same identity: what no operation on an arc changes. *)
Definition same_arc (e e' : ArcEntry) : Prop :=
  nb_id (ae_arc e') = nb_id (ae_arc e) ∧ nb_mac (ae_arc e') = nb_mac (ae_arc e) ∧ nb_addr (ae_arc e') = nb_addr (ae_arc e) ∧ nb_dev (ae_arc e') = nb_dev (ae_arc e).

(** The part of the invariant that speaks of the arcs alone. *)
Lemma ok_update_static s m0 e0 e' log :
  nm_arcs s !! m0 = Some e0 → same_arc e0 e' → nb_state (ae_arc e') ≠ Removed → nb_ok s log →
  ∀ m e, <[m0 := e']> (nm_arcs s) !! m = Some e →
    ∃ e1, nm_arcs s !! m = Some e1 ∧ same_arc e1 e ∧ nb_state (ae_arc e) ≠ Removed ∧ (m ≠ m0 → e1 = e) ∧ (m = m0 → e1 = e0 ∧ e = e').
Proof.
  intros He0 Hsame Hst Hok m e [[<- <-]|[Hne He]]%lookup_insert_Some.
  - exists e0. split_and!; try done; apply Hsame.
  - exists e. split_and!; try done. by apply (ok_state s log Hok m).
Qed.

Lemma kernel_update s m0 e0 e' log :
  nm_arcs s !! m0 = Some e0 → same_arc e0 e' → nb_ok s log →
  ∀ dev addr, (dev, addr) ∈ kernel_neighbours log ↔
    ∃ m e, <[m0 := e']> (nm_arcs s) !! m = Some e ∧ nb_dev (ae_arc e) = dev ∧ nb_addr (ae_arc e) = addr.
Proof.
  intros He0 (_ & _ & Ha & Hd) Hok dev addr. rewrite (ok_kernel s log Hok). split; intros (m & e & Hl & Hdev & Haddr).
  - destruct (decide (m = m0)) as [->|Hne].
    + rewrite He0 in Hl. injection Hl as <-. exists m0, e'. rewrite lookup_insert_eq, Ha, Hd. done.
    + exists m, e. by rewrite lookup_insert_ne.
  - apply lookup_insert_Some in Hl as [[<- <-]|[Hne Hl]]; [|by exists m, e]. exists m0, e0. by rewrite <- Ha, <- Hd.
Qed.

Lemma export_arc_ok s mac s' effs log :
  export_arc s mac = (s', effs) → nb_ok s log → nb_ok s' (log ++ effs).
Proof.
  unfold export_arc. destruct (nm_arcs s !! mac) as [e0|] eqn:He0; [|intros [= <- <-]; by rewrite app_nil_r].
  destruct (is_established (ae_arc e0)) eqn:Hest; [intros [= <- <-]; by rewrite app_nil_r|].
  destruct (nm_nics s !! nb_dev (ae_arc e0)) as [nic|] eqn:Hnic; [|intros [= <- <-]; by rewrite app_nil_r].
  cbn. set (e' := mkArcEntry _ _ _ _ _). set (ctx := mkMonitorContext _ _ _ _). intros [= <- <-] Hok. set (s' := set_arcs _ _).
  assert (same_arc e0 e') as Hsame by done.
  pose proof (ok_update_static s mac e0 e' log He0 Hsame ltac:(done) Hok) as Hst.
  assert (kernel_neighbours (log ++ [NbSpawnMonitor ctx; NbSpawnConfirmation ctx; nb_publish s']) = kernel_neighbours log) as Vk by apply kernel_neighbours_app.
  assert (announced (log ++ [NbSpawnMonitor ctx; NbSpawnConfirmation ctx; nb_publish s']) = announced log) as Va by apply announced_app.
  assert (monitors (log ++ [NbSpawnMonitor ctx; NbSpawnConfirmation ctx; nb_publish s']) = monitors log ++ [ctx]) as Vm by (unfold monitors; by rewrite omap_app).
  assert (confirmations (log ++ [NbSpawnMonitor ctx; NbSpawnConfirmation ctx; nb_publish s']) = confirmations log ++ [ctx]) as Vc by (unfold confirmations; by rewrite omap_app).
  pose proof (ok_fresh_arc s log Hok) as Hfa.
  constructor; rewrite ?Vk, ?Va, ?Vm, ?Vc; cbn -[pending_count pending_arc_cap]; try apply Hok.
  - intros m e (e1 & He1 & (_ & -> & _) & _)%Hst. by apply (ok_keyed s log Hok).
  - intros m e (e1 & He1 & (_ & _ & _ & ->) & _)%Hst. by apply (ok_nic s log Hok m).
  - intros m e (e1 & He1 & _ & ? & _)%Hst. done.
  - intros m e (e1 & He1 & (_ & _ & -> & _) & _)%Hst. by apply (ok_linklocal s log Hok m).
  - intros m e (e1 & He1 & (-> & _) & _)%Hst. by apply (ok_stranger s log Hok m).
  - intros m m' e1' e2' (e1 & He1 & (_ & _ & -> & _) & _)%Hst (e2 & He2 & (_ & _ & -> & _) & _)%Hst. by apply (ok_addr s log Hok).
  - intros m m' e1' e2' (e1 & He1 & (-> & _ & _ & ->) & _)%Hst (e2 & He2 & (-> & _ & _ & ->) & _)%Hst. by apply (ok_id s log Hok).
  - intros m e c [[<- <-]|[_ He]]%lookup_insert_Some Hc; [by apply (ok_cost s log Hok mac e0 c He0)|by apply (ok_cost s log Hok m e c)].
  - etransitivity; [|apply (ok_pending s log Hok)]. rewrite !pending_count_keys.
    apply inj_le, pending_keys_mono. apply (pending_keys_update _ _ e0); [done|]. done.
  - intros m e [[<- <-]|[_ He]]%lookup_insert_Some; [cbn; lia|]. specialize (Hfa m e He). lia.
  - intros d n Hn. pose proof (ok_fresh_nic s log Hok d n Hn). lia.
  - intros c. rewrite elem_of_app, list_elem_of_singleton. intros [Hin| ->]; [pose proof (ok_fresh_monitor s log Hok c Hin); lia|cbn; lia].
  - intros t. rewrite elem_of_union, elem_of_singleton. intros [->|Hin]; [specialize (Hfa mac e0 He0); lia|pose proof (ok_fresh_cancelled s log Hok t Hin); lia].
  - intros m m' e1 e2 [[<- <-]|[Hn1 He1]]%lookup_insert_Some [[<- <-]|[Hn2 He2]]%lookup_insert_Some Ht; [done| | |by apply (ok_token_inj s log Hok m m' e1 e2)].
    + specialize (Hfa m' e2 He2). cbn in Ht. lia.
    + specialize (Hfa m e1 He1). cbn in Ht. lia.
  - intros m e d n [[<- <-]|[_ He]]%lookup_insert_Some Hn; [pose proof (ok_fresh_nic s log Hok d n Hn); cbn; lia|by apply (ok_token_nic s log Hok m e d n)].
  - intros m e [[<- <-]|[Hne He]]%lookup_insert_Some; rewrite elem_of_union, elem_of_singleton; cbn.
    + intros [Heq|Hin]; [specialize (Hfa mac e0 He0); lia|]. pose proof (ok_fresh_cancelled s log Hok _ Hin). lia.
    + intros [Heq|Hin]; [|by apply (ok_token_live s log Hok m e)]. apply Hne. by apply (ok_token_inj s log Hok mac m e0 e).
  - intros c. rewrite elem_of_app, list_elem_of_singleton. intros [Hin| ->] Hno; [|exists e'; by rewrite lookup_insert_eq].
    destruct (ok_monitor_live s log Hok c Hin) as (e & He & Hes & Ht); [set_solver|]. exists e. split; [|done].
    rewrite lookup_insert_ne; [done|]. intros Heq. rewrite <- Heq, He0 in He. injection He as <-. congruence.
  - intros m e [[<- <-]|[Hne He]]%lookup_insert_Some; [intros _; exists ctx; split_and!; [set_solver|done|done]|].
    intros Hes. destruct (ok_monitored s log Hok m e He Hes) as (c & Hin & ? & ?). exists c. set_solver.
  - rewrite fmap_app. apply NoDup_app. split_and!; [apply Hok| |apply NoDup_singleton].
    intros t (c & -> & Hin)%list_elem_of_fmap Heq%list_elem_of_singleton. pose proof (ok_fresh_monitor s log Hok c Hin). cbn in Heq. lia.
  - f_equal. apply Hok.
  - by apply (kernel_update s mac e0 e' log).
  - destruct (ok_announced s log Hok) as (cm & Hcm & Hl). exists cm. split; [done|]. intros m. rewrite Hl.
    destruct (decide (m = mac)) as [->|Hne]; [by rewrite lookup_insert_eq, He0|by rewrite lookup_insert_ne].
Qed.

(** A cost is published: first, or anew. *)
Lemma set_cost_ok s mac e0 e1 v (ev : NeighborArc → NbEvent) log :
  nm_arcs s !! mac = Some e0 → like e0 e1 →
  (ev = ArcAddedEv ∧ nb_cost (ae_arc e0) = None ∨ ev = ArcCostChangedEv ∧ is_Some (nb_cost (ae_arc e0))) →
  nb_ok s log → let '(s', effs) := set_cost s mac e1 v ev in nb_ok s' (log ++ effs).
Proof.
  intros He0 Hlike Hev Hok. unfold set_cost. set (e' := with_arc e1 _). set (s' := set_arcs s _).
  destruct Hlike as (Hid & Hmac & Haddr & Hdev & Hcost & Htok & Hest & Hrem).
  assert (same_arc e0 e') as Hsame by done.
  pose proof (ok_update_static s mac e0 e' log He0 Hsame Hrem Hok) as Hst.
  set (effs := [nb_publish s'; NbEmit (ev (with_cost (ae_arc e1) v))]).
  assert (kernel_neighbours (log ++ effs) = kernel_neighbours log) as Vk by apply kernel_neighbours_app.
  assert (monitors (log ++ effs) = monitors log) as Vm by (unfold monitors; rewrite omap_app; apply app_nil_r).
  assert (confirmations (log ++ effs) = confirmations log) as Vc by (unfold confirmations; rewrite omap_app; apply app_nil_r).
  assert (∀ m e, <[mac := e']> (nm_arcs s) !! m = Some e → ∃ e1, nm_arcs s !! m = Some e1 ∧ ae_monitor_cancel e = ae_monitor_cancel e1 ∧ is_established (ae_arc e) = is_established (ae_arc e1)) as Htoken.
  { intros m e [[<- <-]|[Hne He]]%lookup_insert_Some; [exists e0|exists e]; by split_and!. }
  constructor; rewrite ?Vk, ?Vm, ?Vc; cbn -[pending_count pending_arc_cap]; try apply Hok.
  - intros m e (e2 & He2 & (_ & -> & _) & _)%Hst. by apply (ok_keyed s log Hok).
  - intros m e (e2 & He2 & (_ & _ & _ & ->) & _)%Hst. by apply (ok_nic s log Hok m).
  - intros m e (e2 & He2 & _ & ? & _)%Hst. done.
  - intros m e (e2 & He2 & (_ & _ & -> & _) & _)%Hst. by apply (ok_linklocal s log Hok m).
  - intros m e (e2 & He2 & (-> & _) & _)%Hst. by apply (ok_stranger s log Hok m).
  - intros m m' e1' e2' (e2 & He2 & (_ & _ & -> & _) & _)%Hst (e3 & He3 & (_ & _ & -> & _) & _)%Hst. by apply (ok_addr s log Hok).
  - intros m m' e1' e2' (e2 & He2 & (-> & _ & _ & ->) & _)%Hst (e3 & He3 & (-> & _ & _ & ->) & _)%Hst. by apply (ok_id s log Hok).
  - intros m e c [[<- <-]|[_ He]]%lookup_insert_Some Hc; [cbn in Hc; injection Hc as <-; by eexists|by apply (ok_cost s log Hok m e c)].
  - etransitivity; [|apply (ok_pending s log Hok)]. rewrite !pending_count_keys.
    apply inj_le, pending_keys_mono. apply (pending_keys_update _ _ e0); [done|]. intros Hn. by rewrite <- Hest.
  - intros m e (e2 & He2 & -> & _)%Htoken. by apply (ok_fresh_arc s log Hok m).
  - intros m m' e1' e2' (e2 & He2 & -> & _)%Htoken (e3 & He3 & -> & _)%Htoken. by apply (ok_token_inj s log Hok).
  - intros m e d n (e2 & He2 & -> & _)%Htoken. by apply (ok_token_nic s log Hok m).
  - intros m e (e2 & He2 & -> & _)%Htoken. by apply (ok_token_live s log Hok m).
  - intros c Hin Hno. destruct (ok_monitor_live s log Hok c Hin Hno) as (e & He & Hes & Ht).
    destruct (decide (mc_key c = mac)) as [Heq|Hne]; [|exists e; by rewrite lookup_insert_ne].
    rewrite Heq, He0 in He. injection He as <-. exists e'. rewrite Heq, lookup_insert_eq. split_and!; [done| |].
    + transitivity (is_established (ae_arc e1)); [done|congruence].
    + transitivity (ae_monitor_cancel e1); [done|congruence].
  - intros m e (e2 & He2 & -> & ->)%Htoken. by apply (ok_monitored s log Hok m).
  - by apply (kernel_update s mac e0 e' log).
  - destruct (ok_announced s log Hok) as (cm & Hcm & Hl). pose proof (Hl mac) as Hlm. rewrite He0 in Hlm. cbn in Hlm.
    rewrite announced_app, Hcm. cbn. exists (<[mac := Finite v]> cm). split.
    + destruct Hev as [[-> Hn]|[-> [c Hc]]]; cbn; rewrite Hmac, (ok_keyed s log Hok mac e0 He0), Hlm; [by rewrite Hn|by rewrite Hc].
    + intros m. destruct (decide (m = mac)) as [->|Hne]; [by rewrite !lookup_insert_eq|by rewrite !lookup_insert_ne].
Qed.

(** The guards of a new arc. *)
Lemma find_collision_false s mac addr id dev :
  find_collision s mac addr id dev = false → ∀ m e, nm_arcs s !! m = Some e → collides mac addr id dev (ae_arc e) = false.
Proof.
  unfold find_collision. rewrite any_false. intros Hf m e He. apply Hf. unfold arc_values. apply list_elem_of_fmap. exists (m, e). by rewrite elem_of_hm_iter.
Qed.

Lemma peer_nic_addr_acceptable_true s mac addr :
  peer_nic_addr_acceptable s mac addr = true →
  (∃ rest, parse_ipv4 addr = Some (169 :: 254 :: rest)%Z) ∧
  (∀ d n, nm_nics s !! d = Some n → ns_local_address n ≠ addr) ∧
  (∀ m e, nm_arcs s !! m = Some e → nb_addr (ae_arc e) = addr → nb_mac (ae_arc e) = mac).
Proof.
  unfold peer_nic_addr_acceptable. destruct (parse_ipv4 addr) as [[|o0 [|o1 rest]]|]; try done.
  rewrite !andb_true_iff, !negb_true_iff, !any_false, !Z.eqb_eq. intros [[[-> ->] Hn] Ha]. split_and!; [by eexists|..].
  - intros d n Hd Heq. specialize (Hn (d, n)). cbn in Hn. rewrite elem_of_hm_iter, bool_decide_eq_false in Hn. by apply Hn.
  - intros m e He Heq. specialize (Ha (ae_arc e)). unfold arc_values in Ha. rewrite list_elem_of_fmap in Ha.
    rewrite bool_decide_true in Ha by done. cbn in Ha. destruct (bool_decide (nb_mac (ae_arc e) = mac)) eqn:Eb; [by apply bool_decide_eq_true in Eb|].
    discriminate Ha. exists (m, e). by rewrite elem_of_hm_iter.
Qed.

Lemma insert_discovered_ok s now dev sender verified nic log :
  nb_ok s log → nm_arcs s !! cl_mac sender = None → nm_nics s !! dev = Some nic → cl_id sender ≠ nm_my_id s →
  find_collision s (cl_mac sender) (cl_addr sender) (cl_id sender) dev = false →
  peer_nic_addr_acceptable s (cl_mac sender) (cl_addr sender) = true →
  (pending_count s < pending_arc_cap s)%Z →
  nb_ok (insert_discovered s now dev sender verified) (log ++ [NbIp (AddNeighbor dev (ns_local_address nic) (cl_addr sender))]).
Proof.
  intros Hok Hnew Hnic Hself Hcoll Hacc Hcap. pose proof (find_collision_false _ _ _ _ _ Hcoll) as Hc.
  apply peer_nic_addr_acceptable_true in Hacc as (Hll & Hown & Hother).
  unfold insert_discovered. cbn. set (e' := mkArcEntry _ _ _ _ _). set (effs := [NbIp _]).
  assert (announced (log ++ effs) = announced log) as Va by apply announced_app.
  assert (monitors (log ++ effs) = monitors log) as Vm by (unfold monitors; rewrite omap_app; apply app_nil_r).
  assert (confirmations (log ++ effs) = confirmations log) as Vc by (unfold confirmations; rewrite omap_app; apply app_nil_r).
  pose proof (ok_fresh_arc s log Hok) as Hfa.
  constructor; rewrite ?Va, ?Vm, ?Vc; cbn -[pending_count pending_arc_cap]; try apply Hok.
  - intros m e [[<- <-]|[_ He]]%lookup_insert_Some; [done|by apply (ok_keyed s log Hok)].
  - intros m e [[<- <-]|[_ He]]%lookup_insert_Some; [by eexists|by apply (ok_nic s log Hok m)].
  - intros m e [[<- <-]|[_ He]]%lookup_insert_Some; [done|by apply (ok_state s log Hok m)].
  - intros m e [[<- <-]|[_ He]]%lookup_insert_Some; [done|by apply (ok_linklocal s log Hok m)].
  - intros m e [[<- <-]|[_ He]]%lookup_insert_Some; [done|by apply (ok_stranger s log Hok m)].
  - intros m m' e1 e2 [[<- <-]|[Hn1 He1]]%lookup_insert_Some [[<- <-]|[Hn2 He2]]%lookup_insert_Some Heq; [done| | |by apply (ok_addr s log Hok m m' e1 e2)].
    + rewrite <- (ok_keyed s log Hok m' e2 He2). symmetry. by apply (Hother m' e2).
    + rewrite <- (ok_keyed s log Hok m e1 He1). by apply (Hother m e1).
  - intros m m' e1 e2 [[<- <-]|[Hn1 He1]]%lookup_insert_Some [[<- <-]|[Hn2 He2]]%lookup_insert_Some Hid Hdev; [done| | |by apply (ok_id s log Hok m m' e1 e2)];
      exfalso; cbn in Hid, Hdev; [pose proof (Hc m' e2 He2) as Hx; pose proof (ok_keyed s log Hok m' e2 He2)|pose proof (Hc m e1 He1) as Hx; pose proof (ok_keyed s log Hok m e1 He1)];
      unfold collides in Hx; rewrite !orb_false_iff, !andb_false_iff, !negb_false_iff, Z.eqb_neq, !bool_decide_eq_false, !bool_decide_eq_true in Hx; naive_solver.
  - intros m e c [[<- <-]|[_ He]]%lookup_insert_Some Hco; [done|by apply (ok_cost s log Hok m e c)].
  - rewrite pending_count_keys in Hcap |- *. cbn.
    pose proof (subseteq_size _ _ (pending_keys_insert (nm_arcs s) (cl_mac sender) e')) as Hle.
    pose proof (size_union_alt ({[cl_mac sender]} : gset string) (pending_keys (nm_arcs s))) as Hu. rewrite size_singleton in Hu.
    pose proof (subseteq_size (pending_keys (nm_arcs s) ∖ {[cl_mac sender]}) (pending_keys (nm_arcs s)) ltac:(set_solver)).
    change (pending_arc_cap _) with (pending_arc_cap s). lia.
  - intros m e [[<- <-]|[_ He]]%lookup_insert_Some; [cbn; lia|]. specialize (Hfa m e He). lia.
  - intros d n Hn. pose proof (ok_fresh_nic s log Hok d n Hn). lia.
  - intros c Hin. pose proof (ok_fresh_monitor s log Hok c Hin). lia.
  - intros t Hin. pose proof (ok_fresh_cancelled s log Hok t Hin). lia.
  - intros m m' e1 e2 [[<- <-]|[Hn1 He1]]%lookup_insert_Some [[<- <-]|[Hn2 He2]]%lookup_insert_Some Ht; [done| | |by apply (ok_token_inj s log Hok m m' e1 e2)].
    + specialize (Hfa m' e2 He2). cbn in Ht. lia.
    + specialize (Hfa m e1 He1). cbn in Ht. lia.
  - intros m e d n [[<- <-]|[_ He]]%lookup_insert_Some Hn; [pose proof (ok_fresh_nic s log Hok d n Hn); cbn; lia|by apply (ok_token_nic s log Hok m e d n)].
  - intros m e [[<- <-]|[_ He]]%lookup_insert_Some; [|by apply (ok_token_live s log Hok m e)].
    intros Hin. pose proof (ok_fresh_cancelled s log Hok _ Hin) as Hx. cbn in Hx. lia.
  - intros c Hin Hno. destruct (ok_monitor_live s log Hok c Hin Hno) as (e & He & Hes). exists e. split; [|done].
    rewrite lookup_insert_ne; [done|]. intros Heq. congruence.
  - intros m e [[<- <-]|[_ He]]%lookup_insert_Some Hes; [done|by apply (ok_monitored s log Hok m e)].
  - intros d a. rewrite kernel_neighbours_app. cbn. rewrite elem_of_union, elem_of_singleton, (ok_kernel s log Hok). split.
    + intros [[= -> ->]|(m & e & He & ? & ?)]; [exists (cl_mac sender), e'; by rewrite lookup_insert_eq|].
      exists m, e. rewrite lookup_insert_ne; [done|]. congruence.
    + intros (m & e & [[<- <-]|[_ He]]%lookup_insert_Some & <- & <-); [by left|]. right. by exists m, e.
  - destruct (ok_announced s log Hok) as (cm & Hcm & Hl). exists cm. split; [done|]. intros m. rewrite Hl.
    destruct (decide (m = cl_mac sender)) as [->|Hne]; [by rewrite lookup_insert_eq, Hnew|by rewrite lookup_insert_ne].
Qed.

(** ** Loops of removals *)
Lemma remove_all_ok usable macs acc log :
  nb_ok acc.1 (log ++ acc.2) →
  let '(s', effs) := foldl (remove_next usable) acc macs in
  nb_ok s' (log ++ effs) ∧ nm_nics s' = nm_nics acc.1 ∧ nm_disabling s' = nm_disabling acc.1 ∧ nm_my_id s' = nm_my_id acc.1 ∧
  nm_guard s' = nm_guard acc.1 ∧ nm_require_auth s' = nm_require_auth acc.1 ∧ nm_max_arcs s' = nm_max_arcs acc.1 ∧
  nm_next_token s' = nm_next_token acc.1 ∧
  ∀ m, nm_arcs s' !! m = if decide (m ∈ macs) then None else nm_arcs acc.1 !! m.
Proof.
  revert acc. induction macs as [|mac macs IH]; intros acc Hok; cbn [foldl].
  { destruct acc as [s effs]. cbn in *. split_and!; try done. }
  destruct (remove_my_arc acc.1 mac usable) as [s1 e1] eqn:E.
  assert (remove_next usable acc mac = (s1, acc.2 ++ e1)) as -> by (unfold remove_next; by rewrite E).
  specialize (IH (s1, acc.2 ++ e1)). destruct (foldl (remove_next usable) _ macs) as [s' effs].
  destruct IH as (Hok' & Hn & Hd & Hi & Hg & Hr & Hmx & Hnt & Harcs).
  { cbn. rewrite app_assoc. by eapply remove_my_arc_ok. }
  destruct (remove_my_arc_frame _ _ _ _ _ E) as (F1 & F2 & F3 & F4 & F5 & F6 & F7 & F8 & _).
  cbn in *. rewrite Hn, Hd, Hi, Hg, Hr, Hmx, Hnt. split_and!; try done.
  intros m. rewrite Harcs, F8. destruct (decide (m = mac)) as [->|Hne].
  - rewrite lookup_delete_eq, (decide_True (P := mac ∈ mac :: macs)) by apply list_elem_of_here. by case_decide.
  - rewrite lookup_delete_ne by done. repeat case_decide; set_solver.
Qed.

Lemma reap_ok s now log s' effs :
  reap_stale_pending s now = (s', effs) → nb_ok s log →
  nb_ok s' (log ++ effs) ∧ nm_nics s' = nm_nics s ∧ nm_disabling s' = nm_disabling s ∧ nm_my_id s' = nm_my_id s ∧
  nm_guard s' = nm_guard s ∧ nm_require_auth s' = nm_require_auth s ∧ nm_max_arcs s' = nm_max_arcs s ∧
  ∀ m e, nm_arcs s !! m = Some e → nm_arcs s' !! m = Some e ∨ nm_arcs s' !! m = None ∧ nb_state (ae_arc e) = Discovered ∧ (PENDING_ARC_TTL ≤ now - ae_created_at e)%Z.
Proof.
  unfold reap_stale_pending. set (stale := (retain _ _).*1). intros Hf Hok.
  pose proof (remove_all_ok false stale (s, []) log) as Hr. cbn in Hr. rewrite app_nil_r in Hr. specialize (Hr Hok). rewrite Hf in Hr.
  destruct Hr as (Hok' & Hn & Hd & Hi & Hg & Hra & Hmx & _ & Harcs). split_and!; try done.
  intros m e He. rewrite Harcs. case_decide as Hin; [right|by left]. split; [done|].
  unfold stale in Hin. apply list_elem_of_fmap in Hin as ([m' e'] & -> & Hin). apply elem_of_retain in Hin as [Hin Hc].
  apply elem_of_hm_iter in Hin. cbn in *. rewrite He in Hin. injection Hin as <-.
  apply andb_true_iff in Hc as [Hs%bool_decide_eq_true Ht%Z.leb_le]. unfold PENDING_ARC_TTL in *. split; [done|lia].
Qed.

Lemma ok_nic_deleted s s' log effs dev nic :
  nb_ok s log → nm_nics s !! dev = Some nic → (∀ m e, nm_arcs s !! m = Some e → nb_dev (ae_arc e) ≠ dev) →
  nm_my_id s' = nm_my_id s → nm_max_arcs s' = nm_max_arcs s → nm_next_token s' = nm_next_token s → nm_arcs s' = nm_arcs s →
  nm_nics s' = delete dev (nm_nics s) → nm_cancelled s' = {[ns_radar_cancel nic]} ∪ nm_cancelled s → all silent effs = true →
  nb_ok s' (log ++ effs).
Proof.
  intros Hok Hnic Hfree Hmy Hmax Hnext Harcs Hnics Hcan (Vk & Va & Vm & Vc)%(silent_views log).
  constructor; rewrite ?Hmy, ?Hnext, ?Harcs, ?Vk, ?Va, ?Vm, ?Vc; try apply Hok.
  - intros m e He. rewrite Hnics, lookup_delete_ne; [by apply (ok_nic s log Hok m)|]. intros Heq. by apply (Hfree m e He).
  - unfold pending_arc_cap. rewrite Hmax, pending_count_keys, Harcs, <- pending_count_keys. apply (ok_pending s log Hok).
  - intros d n. rewrite Hnics. intros [_ Hn]%lookup_delete_Some. by apply (ok_fresh_nic s log Hok d).
  - intros t. rewrite Hcan, elem_of_union, elem_of_singleton. intros [->|Ht]; [by apply (ok_fresh_nic s log Hok dev)|by apply (ok_fresh_cancelled s log Hok)].
  - intros m e d n He. rewrite Hnics. intros [_ Hn]%lookup_delete_Some. by apply (ok_token_nic s log Hok m e d n).
  - intros m e He. rewrite Hcan, elem_of_union, elem_of_singleton. intros [Heq|Hin]; [by apply (ok_token_nic s log Hok m e dev nic)|by apply (ok_token_live s log Hok m e)].
  - intros c Hin Hno. apply (ok_monitor_live s log Hok c Hin). rewrite Hcan in Hno. set_solver.
Qed.

Lemma ok_disabling s d log : nb_ok s log → nb_ok (with_disabling s d) log.
Proof. intros Hok. rewrite <- (app_nil_r log). apply (ok_like s); try done. intros m. by left. Qed.

Lemma teardown_nic_ok s dev notify s' effs log :
  teardown_nic s dev notify = (s', effs) → nb_ok s log → nm_disabling s = ∅ →
  nb_ok s' (log ++ effs) ∧ nm_disabling s' = ∅ ∧ nm_nics s' = delete dev (nm_nics s) ∧
  ∀ m e, nm_arcs s' !! m = Some e → nm_arcs s !! m = Some e ∧ nb_dev (ae_arc e) ≠ dev.
Proof.
  unfold teardown_nic. destruct (nm_nics s !! dev) as [nic|] eqn:En.
  2: { intros [= <- <-] Hok Hd. rewrite app_nil_r, delete_id by done. split_and!; try done. intros m e He. split; [done|].
    intros <-. destruct (ok_nic s log Hok m e He). congruence. }
  set (s1 := with_disabling s _). set (macs := (retain _ _).*1).
  intros Ht Hok Hdis. pose proof (remove_all_ok notify macs (s1, []) log) as Hr. cbn [fst snd] in Hr. rewrite app_nil_r in Hr.
  destruct (foldl (remove_next notify) (s1, []) macs) as [s2 e2]. injection Ht as <- <-.
  destruct Hr as (Hok2 & Hn2 & Hd2 & Hi2 & _ & _ & Hmx2 & Hnt2 & Harcs2); [by apply ok_disabling|].
  assert (∀ m e, nm_arcs s2 !! m = Some e → nm_arcs s !! m = Some e ∧ nb_dev (ae_arc e) ≠ dev) as Hfree.
  { intros m e. rewrite Harcs2. case_decide as Hin; [done|]. intros He. split; [done|]. intros <-. apply Hin.
    apply list_elem_of_fmap. exists (m, e). split; [done|]. apply elem_of_retain. by rewrite elem_of_hm_iter, bool_decide_eq_true. }
  split_and!; [| | |done].
  - rewrite app_assoc. apply ok_disabling. eapply (ok_nic_deleted s2 _ (log ++ e2) _ dev nic); try done; [by rewrite Hn2|]. intros m e He. by apply (Hfree m e).
  - cbn. rewrite Hd2. cbn. rewrite Hdis. set_solver.
  - cbn. by rewrite Hn2.
Qed.

(** ** Authentication *)
Lemma authenticate_frame s mac verified s' r :
  authenticate s mac verified = (s', r) →
  nm_my_id s' = nm_my_id s ∧ nm_max_arcs s' = nm_max_arcs s ∧ nm_nics s' = nm_nics s ∧ nm_next_token s' = nm_next_token s ∧
  nm_cancelled s' = nm_cancelled s ∧ nm_disabling s' = nm_disabling s ∧
  (nm_arcs s' = nm_arcs s ∨
   ∃ e k q, verified = Some (k, q) ∧ nm_arcs s !! mac = Some e ∧ ae_verified_key e = None ∧ r = Ok tt ∧ nm_arcs s' = <[mac := with_key e k]> (nm_arcs s)).
Proof.
  unfold authenticate. destruct verified as [[k q]|].
  - destruct (observe _ _ _) as [g [[]|x|]]; [|intros [= <- <-]; split_and!; try done; by left..]. cbn.
    destruct (nm_arcs s !! mac) as [e|] eqn:E; [|intros [= <- <-]; split_and!; try done; by left].
    destruct (ae_verified_key e) as [pinned|] eqn:Ek; [case_match; intros [= <- <-]; split_and!; try done; by left|].
    intros [= <- <-]. cbn. split_and!; try done. right. by exists e, k, q.
  - repeat case_match; intros [= <- <-]; split_and!; try done; by left.
Qed.

Lemma authenticate_ok s mac verified s' r log :
  authenticate s mac verified = (s', r) → nb_ok s log → nb_ok s' log.
Proof.
  intros (F1 & F2 & F3 & F4 & F5 & F6 & Ha)%authenticate_frame Hok. rewrite <- (app_nil_r log). apply (ok_like s); try done.
  intros m. destruct Ha as [->|(e & k & q & _ & He & _ & _ & ->)]; [by left|].
  destruct (decide (m = mac)) as [->|Hne]; [|left; by rewrite lookup_insert_ne]. right. exists e, (with_key e k).
  rewrite lookup_insert_eq. split_and!; try done. unfold like. split_and!; try done. exact (ok_state s log Hok mac e He).
Qed.

Lemma guards_same s s' : nm_arcs s' = nm_arcs s → nm_nics s' = nm_nics s → nm_max_arcs s' = nm_max_arcs s →
  (∀ mac addr id dev, find_collision s' mac addr id dev = find_collision s mac addr id dev) ∧
  (∀ mac addr, peer_nic_addr_acceptable s' mac addr = peer_nic_addr_acceptable s mac addr) ∧
  pending_count s' = pending_count s ∧ pending_arc_cap s' = pending_arc_cap s.
Proof.
  intros Ha Hn Hm. unfold find_collision, peer_nic_addr_acceptable, pending_count, pending_arc_cap, arc_values.
  by rewrite Ha, Hn, Hm.
Qed.

(** Only the views of the log count. *)
Lemma ok_log s log log' :
  kernel_neighbours log' = kernel_neighbours log → announced log' = announced log → monitors log' = monitors log → confirmations log' = confirmations log →
  nb_ok s log → nb_ok s log'.
Proof. intros Vk Va Vm Vc Hok. constructor; rewrite ?Vk, ?Va, ?Vm, ?Vc; apply Hok. Qed.

Lemma ok_silent_mid s l1 p l2 : all silent p = true → nb_ok s (l1 ++ l2) → nb_ok s (l1 ++ p ++ l2).
Proof.
  intros Hp. destruct (silent_views l1 p Hp) as (Vk & Va & Vm & Vc). unfold monitors, confirmations in *. apply ok_log.
  - rewrite app_assoc, kernel_neighbours_app, Vk. symmetry. apply kernel_neighbours_app.
  - rewrite app_assoc, announced_app, Va. symmetry. apply announced_app.
  - unfold monitors. rewrite app_assoc, omap_app, Vm. by rewrite omap_app.
  - unfold confirmations. rewrite app_assoc, omap_app, Vc. by rewrite omap_app.
Qed.

Lemma ok_silent s s' log effs :
  nm_my_id s' = nm_my_id s → nm_max_arcs s' = nm_max_arcs s → nm_nics s' = nm_nics s →
  nm_next_token s' = nm_next_token s → nm_cancelled s' = nm_cancelled s → nm_arcs s' = nm_arcs s →
  all silent effs = true → nb_ok s log → nb_ok s' (log ++ effs).
Proof. intros ? ? ? ? ? Ha. apply ok_like; try done. intros m. left. by rewrite Ha. Qed.

(** ** Messages *)
Definition settled (s : NbState) : Prop := nm_disabling s = ∅.

Lemma handle_here_i_am_ok s now dev sender verified s' effs rep log :
  handle_here_i_am s now dev sender verified = (s', effs, rep) → nb_ok s log → settled s → nb_ok s' (log ++ effs) ∧ settled s'.
Proof.
  unfold handle_here_i_am, settled. intros Hh Hok Hd. revert Hh.
  destruct (Z.eqb_spec (cl_id sender) (nm_my_id s)); [intros [= <- <- <-]; by rewrite app_nil_r|].
  destruct (nm_nics s !! dev) as [nic|] eqn:En; [|intros [= <- <- <-]; by rewrite app_nil_r].
  case_decide; [intros [= <- <- <-]; by rewrite app_nil_r|].
  destruct (reap_stale_pending s now) as [s1 reaped] eqn:Er. destruct (reap_ok _ _ _ _ _ Er Hok) as (Hok1 & R1 & R2 & R3 & _ & _ & _ & _).
  destruct (find_collision s1 _ _ _ _) eqn:Ec; [intros [= <- <- <-]; split; [done|congruence]|].
  destruct (peer_nic_addr_acceptable s1 _ _) eqn:Ea; cbn [negb]; [|intros [= <- <- <-]; split; [done|congruence]].
  destruct (nm_arcs s1 !! cl_mac sender) as [e|] eqn:Em; [intros [= <- <- <-]; split; [done|congruence]|].
  destruct (Z.leb_spec (pending_arc_cap s1) (pending_count s1)); [intros [= <- <- <-]; split; [done|congruence]|].
  destruct (authenticate s1 _ _) as [s2 r2] eqn:Eau. pose proof (authenticate_ok _ _ _ _ _ _ Eau Hok1) as Hok2.
  apply authenticate_frame in Eau as (F1 & F2 & F3 & F4 & F5 & F6 & Ha). destruct r2 as [[]|x|]; [|intros [= <- <- <-]; split; [done|congruence]..].
  destruct Ha as [Ha|(? & ? & ? & _ & He & _)]; [|congruence]. destruct (guards_same s1 s2 Ha F3 F2) as (G1 & G2 & G3 & G4).
  set (s3 := insert_discovered s2 now dev sender verified). set (call := CallRequestArc _).
  destruct (sign_call _ _ _ call) as [auth q]. intros [= <- <- <-]. split; [|cbn; congruence].
  assert (nb_ok s3 ((log ++ reaped) ++ [NbIp (AddNeighbor dev (ns_local_address nic) (cl_addr sender))])) as Hok3.
  { apply insert_discovered_ok; rewrite ?Ha, ?F3, ?R1, ?F1, ?R3, ?G1, ?G2, ?G3, ?G4; try done. }
  rewrite app_assoc. apply (ok_silent_mid _ (log ++ reaped) [nb_publish s3] [_; _]); [done|].
  change [?x; ?y] with ([x] ++ [y]). rewrite app_assoc. by apply (ok_silent s3).
Qed.

(** A pending arc moves between its two states. *)
Lemma ok_restate s mac e st log effs :
  nm_arcs s !! mac = Some e → is_established (ae_arc e) = false → st = Discovered ∨ st = Requested → all silent effs = true →
  nb_ok s log → nb_ok (set_arcs s (<[mac := with_arc e (with_state (ae_arc e) st)]> (nm_arcs s))) (log ++ effs).
Proof.
  intros He Hest Hst Hs Hok. apply (ok_like s); try done. cbn. intros m.
  destruct (decide (m = mac)) as [->|Hne]; [|left; by rewrite lookup_insert_ne]. right. exists e. eexists. rewrite lookup_insert_eq.
  split; [done|]. split; [done|]. unfold like. cbn. rewrite Hest. by destruct Hst as [-> | ->].
Qed.

Lemma negotiate_ok s nic mac e s' effs log :
  negotiate s nic mac = (s', effs) → nm_arcs s !! mac = Some e → is_established (ae_arc e) = false → nb_ok s log →
  nb_ok s' (log ++ effs) ∧ nm_disabling s' = nm_disabling s.
Proof.
  unfold negotiate. intros Hn He Hest Hok. rewrite He in Hn. cbn in Hn. rewrite lookup_insert_eq in Hn. injection Hn as <- <-.
  split; [|done]. apply ok_restate; auto.
Qed.

Lemma handle_request_arc_ok s now dev dest sender verified s' effs rep log :
  handle_request_arc s now dev dest sender verified = (s', effs, rep) → nb_ok s log → settled s → nb_ok s' (log ++ effs) ∧ settled s'.
Proof.
  unfold handle_request_arc, settled. intros Hh Hok Hd. revert Hh.
  destruct (Z.eqb_spec (cl_id sender) (nm_my_id s)); [intros [= <- <- <-]; by rewrite app_nil_r|].
  destruct (nm_nics s !! dev) as [nic|] eqn:En; [|intros [= <- <- <-]; by rewrite app_nil_r].
  case_decide; [intros [= <- <- <-]; by rewrite app_nil_r|]. case_match; [intros [= <- <- <-]; by rewrite app_nil_r|].
  destruct (reap_stale_pending s now) as [s1 reaped] eqn:Er. destruct (reap_ok _ _ _ _ _ Er Hok) as (Hok1 & R1 & R2 & R3 & _ & _ & _ & _).
  destruct (find_collision s1 _ _ _ _) eqn:Ec; [intros [= <- <- <-]; split; [done|congruence]|].
  destruct (peer_nic_addr_acceptable s1 _ _) eqn:Ea; cbn [negb]; [|intros [= <- <- <-]; split; [done|congruence]].
  destruct (authenticate s1 _ _) as [s2 r2] eqn:Eau. pose proof (authenticate_ok _ _ _ _ _ _ Eau Hok1) as Hok2.
  apply authenticate_frame in Eau as (F1 & F2 & F3 & F4 & F5 & F6 & Ha). destruct r2 as [[]|x|]; [|intros [= <- <- <-]; split; [done|congruence]..].
  destruct (nm_arcs s2 !! cl_mac sender) as [e|] eqn:Em.
  - destruct (is_established (ae_arc e)) eqn:Est; [intros [= <- <- <-]; split; [done|congruence]|].
    destruct (negotiate s2 nic (cl_mac sender)) as [s3 e3] eqn:Eng. intros [= <- <- <-].
    destruct (negotiate_ok _ _ _ _ _ _ _ Eng Em Est Hok2) as [Hok3 Hd3]. rewrite app_assoc. split; [done|congruence].
  - destruct (Z.leb_spec (pending_arc_cap s2) (pending_count s2)); [intros [= <- <- <-]; split; [done|congruence]|].
    assert (nm_arcs s2 = nm_arcs s1) as Ha' by (destruct Ha as [?|(? & ? & ? & _ & _ & _ & _ & Heq)]; [done|by rewrite Heq, lookup_insert_eq in Em]).
    destruct (guards_same s1 s2 Ha' F3 F2) as (G1 & G2 & G3 & G4).
    set (s3 := insert_discovered s2 now dev sender verified).
    assert (nb_ok s3 ((log ++ reaped) ++ [NbIp (AddNeighbor dev (ns_local_address nic) (cl_addr sender))])) as Hok3.
    { apply insert_discovered_ok; rewrite ?F3, ?R1, ?F1, ?R3, ?G1, ?G2; try done. }
    destruct (negotiate s3 nic (cl_mac sender)) as [s4 e4] eqn:Eng. intros [= <- <- <-].
    eapply negotiate_ok in Eng as [Hok4 Hd4]; [|unfold s3, insert_discovered; cbn; apply lookup_insert_eq|done|exact Hok3].
    rewrite <- !app_assoc in Hok4. split; [exact Hok4|]. rewrite Hd4. cbn. congruence.
Qed.

Lemma export_arc_disabling s mac s' effs : export_arc s mac = (s', effs) → nm_disabling s' = nm_disabling s.
Proof.
  unfold export_arc. destruct (nm_arcs s !! mac) as [e|]; [|by intros [= <- <-]].
  destruct (is_established _); [by intros [= <- <-]|]. destruct (nm_nics s !! _); cbn; by intros [= <- <-].
Qed.

Lemma handle_negotiated_ok s mac can_i can_you s' effs log :
  handle_request_arc_negotiated s mac can_i can_you = (s', effs) → nb_ok s log → settled s → nb_ok s' (log ++ effs) ∧ settled s'.
Proof.
  unfold handle_request_arc_negotiated, settled. case_match; [intros Hx Hok Hd; split; [by eapply export_arc_ok|erewrite export_arc_disabling; done]|].
  destruct (nm_arcs s !! mac) as [e|] eqn:E; [|intros [= <- <-]; by rewrite app_nil_r].
  destruct (is_established (ae_arc e)) eqn:Hest; [intros [= <- <-]; by rewrite app_nil_r|].
  intros [= <- <-] Hok Hd. split; [|done]. apply ok_restate; auto.
Qed.

Lemma handle_can_you_export_ok s caller can verified s' effs rep log :
  handle_can_you_export s caller can verified = (s', effs, rep) → nb_ok s log → settled s → nb_ok s' (log ++ effs) ∧ settled s'.
Proof.
  unfold handle_can_you_export, settled. intros Hh Hok Hd. revert Hh.
  destruct (nm_arcs s !! cl_mac caller) as [e|]; [|intros [= <- <- <-]; by rewrite app_nil_r].
  case_match; [intros [= <- <- <-]; by rewrite app_nil_r|].
  destruct (authenticate s _ _) as [s1 r] eqn:Eau. pose proof (authenticate_ok _ _ _ _ _ _ Eau Hok) as Hok1.
  apply authenticate_frame in Eau as (_ & _ & _ & _ & _ & F6 & _). rewrite <- F6 in Hd.
  destruct r as [[]|x|]; [|intros [= <- <- <-]; by rewrite app_nil_r..].
  destruct (nm_arcs s1 !! cl_mac caller) as [e1|]; [|intros [= <- <- <-]; by rewrite app_nil_r].
  case_match; [intros [= <- <- <-]; by rewrite app_nil_r|].
  destruct (_ && can); [|intros [= <- <- <-]; by rewrite app_nil_r].
  destruct (export_arc s1 _) as [s2 e2] eqn:Ex. intros [= <- <- <-]. split; [by eapply export_arc_ok|by erewrite export_arc_disabling].
Qed.

Lemma handle_nop_ok s caller verified s' effs rep log :
  handle_nop s caller verified = (s', effs, rep) → nb_ok s log → settled s → nb_ok s' (log ++ effs) ∧ settled s'.
Proof.
  unfold handle_nop, settled. intros Hh Hok Hd. revert Hh.
  destruct (nm_arcs s !! cl_mac caller) as [e|]; [|intros [= <- <- <-]; by rewrite app_nil_r].
  do 2 (case_match; [intros [= <- <- <-]; by rewrite app_nil_r|]).
  destruct (authenticate s _ _) as [s1 r] eqn:Eau. pose proof (authenticate_ok _ _ _ _ _ _ Eau Hok) as Hok1.
  apply authenticate_frame in Eau as (_ & _ & _ & _ & _ & F6 & _). rewrite <- F6 in Hd.
  destruct r as [[]|x|]; intros [= <- <- <-]; by rewrite app_nil_r.
Qed.

Lemma handle_remove_arc_ok s dev dest sender verified s' effs rep log :
  nb_handle_remove_arc s dev dest sender verified = (s', effs, rep) → nb_ok s log → settled s → nb_ok s' (log ++ effs) ∧ settled s'.
Proof.
  unfold nb_handle_remove_arc, settled. intros Hh Hok Hd. revert Hh.
  case_match; [intros [= <- <- <-]; by rewrite app_nil_r|].
  destruct (nm_nics s !! dev) as [nic|]; [|intros [= <- <- <-]; by rewrite app_nil_r].
  do 2 (case_match; [intros [= <- <- <-]; by rewrite app_nil_r|]).
  destruct (nm_arcs s !! cl_mac sender) as [e|]; [|intros [= <- <- <-]; by rewrite app_nil_r].
  case_match; [intros [= <- <- <-]; by rewrite app_nil_r|].
  destruct (authenticate s _ _) as [s1 r] eqn:Eau. pose proof (authenticate_ok _ _ _ _ _ _ Eau Hok) as Hok1.
  apply authenticate_frame in Eau as (_ & _ & _ & _ & _ & F6 & _). rewrite <- F6 in Hd.
  destruct r as [[]|x|]; [|intros [= <- <- <-]; by rewrite app_nil_r..].
  destruct (remove_my_arc s1 _ _) as [s2 e2] eqn:Er. intros [= <- <- <-]. split; [by eapply remove_my_arc_ok|].
  apply remove_my_arc_frame in Er as (_ & _ & _ & _ & -> & _). done.
Qed.

Lemma update_cost_ok s key e v s' effs log :
  update_cost s key e v = (s', effs) → nm_arcs s !! key = Some e → nb_ok s log → settled s → nb_ok s' (log ++ effs) ∧ settled s'.
Proof.
  unfold update_cost, settled. destruct (nb_cost (ae_arc e)) as [[|p|]|] eqn:Ec; try (intros [= <- <-]; by rewrite app_nil_r).
  case_match; [|intros [= <- <-]; by rewrite app_nil_r]. intros Hs He Hok Hd.
  pose proof (set_cost_ok s key e e v ArcCostChangedEv log He) as Hc. rewrite Hs in Hc. split; [|by injection Hs as <- _].
  apply Hc; [|right; split; [done|by eexists]|done]. unfold like. split_and!; try done. by apply (ok_state s log Hok key).
Qed.

Lemma first_cost_ok s key e e1 v s' effs log :
  set_cost s key e1 v ArcAddedEv = (s', effs) → nm_arcs s !! key = Some e → ae_arc e1 = ae_arc e → ae_monitor_cancel e1 = ae_monitor_cancel e →
  nb_cost (ae_arc e) = None → nb_ok s log → settled s → nb_ok s' (log ++ effs) ∧ settled s'.
Proof.
  intros Hs He Ha Ht Hc Hok Hd. pose proof (set_cost_ok s key e e1 v ArcAddedEv log He) as Hx. rewrite Hs in Hx.
  split; [|by injection Hs as <- _]. apply Hx; [|by left|done].
  unfold like. rewrite Ha. split_and!; try done. by apply (ok_state s log Hok key).
Qed.

Lemma handle_monitor_result_ok s key outcome s' effs log :
  handle_monitor_result s key outcome = (s', effs) → nb_ok s log → settled s → nb_ok s' (log ++ effs) ∧ settled s'.
Proof.
  intros Hh Hok Hd. revert Hh. unfold handle_monitor_result. destruct outcome as [| |rtt|smoothed].
  - intros Hr. split; [by eapply remove_my_arc_ok|]. apply remove_my_arc_frame in Hr as (_ & _ & _ & _ & Heq & _). unfold settled. by rewrite Heq.
  - destruct (nm_arcs s !! key) as [e|] eqn:He; [|intros [= <- <-]; by rewrite app_nil_r].
    destruct (nb_cost (ae_arc e)) eqn:Ec; [intros [= <- <-]; by rewrite app_nil_r|].
    case_match; [intros Hs; by eapply first_cost_ok|].
    intros [= <- <-]. split; [|done]. apply (ok_like s); try done. cbn. intros m.
    destruct (decide (m = key)) as [->|Hne]; [|left; by rewrite lookup_insert_ne]. right. exists e. eexists. rewrite lookup_insert_eq.
    split; [done|]. split; [done|]. unfold like. cbn. split_and!; try done. by apply (ok_state s log Hok key).
  - destruct (nm_arcs s !! key) as [e|] eqn:He; [|intros [= <- <-]; by rewrite app_nil_r].
    destruct (nb_cost (ae_arc e)) eqn:Ec; intros Hs; [by eapply update_cost_ok|by eapply first_cost_ok].
  - destruct (nm_arcs s !! key) as [e|] eqn:He; [|intros [= <- <-]; by rewrite app_nil_r]. intros Hs. by eapply update_cost_ok.
Qed.

(** ** Interfaces *)
Lemma start_monitor_ok (env : NbEnv (NetlinkError := NetlinkError)) s nic s' effs r log :
  start_monitor env s nic = (s', effs, r) → nb_ok s log → settled s → nb_ok s' (log ++ effs) ∧ settled s'.
Proof.
  unfold start_monitor, settled. intros Hh Hok Hd. revert Hh.
  destruct (nm_nics s !! ln_dev nic) as [n|] eqn:En; [intros [= <- <- <-]; by rewrite app_nil_r|].
  destruct (resolve_by_name _ _) as [link|x|]; [|intros [= <- <- <-]; by rewrite app_nil_r..].
  case_match; [intros [= <- <- <-]; by rewrite app_nil_r|].
  destruct (ev_add_address env) as [[]|x|]; [|intros [= <- <- <-]; (split; [by apply (ok_silent s)|done])..].
  cbn. intros [= <- <- <-]. split; [|done].
  set (effs := [_; _]). assert (all silent effs = true) as (Vk & Va & Vm & Vc)%(silent_views log) by done.
  constructor; rewrite ?Vk, ?Va, ?Vm, ?Vc; cbn -[pending_count pending_arc_cap]; try apply Hok.
  - intros m e He. apply lookup_insert_is_Some'. right. by apply (ok_nic s log Hok m).
  - intros m e He. pose proof (ok_fresh_arc s log Hok m e He). lia.
  - intros d n [[<- <-]|[_ Hn]]%lookup_insert_Some; [cbn; lia|]. pose proof (ok_fresh_nic s log Hok d n Hn). lia.
  - intros c Hin. pose proof (ok_fresh_monitor s log Hok c Hin). lia.
  - intros t Hin. pose proof (ok_fresh_cancelled s log Hok t Hin). lia.
  - intros m e d n He [[<- <-]|[_ Hn]]%lookup_insert_Some; [pose proof (ok_fresh_arc s log Hok m e He); cbn; lia|by apply (ok_token_nic s log Hok m e d n)].
Qed.

Lemma stop_all_ok notify devs acc log :
  nb_ok acc.1 (log ++ acc.2) → settled acc.1 →
  let '(s', effs) := foldl (stop_next notify) acc devs in
  nb_ok s' (log ++ effs) ∧ settled s' ∧ ∀ d, nm_nics s' !! d = if decide (d ∈ devs) then None else nm_nics acc.1 !! d.
Proof.
  revert acc. induction devs as [|dev devs IH]; intros acc Hok Hd; cbn [foldl]; [by destruct acc|].
  destruct (teardown_nic acc.1 dev notify) as [s1 e1] eqn:E.
  assert (stop_next notify acc dev = (s1, acc.2 ++ e1)) as -> by (unfold stop_next; by rewrite E).
  destruct (teardown_nic_ok _ _ _ _ _ _ E Hok Hd) as (Hok1 & Hd1 & Hn1 & _).
  specialize (IH (s1, acc.2 ++ e1)). destruct (foldl (stop_next notify) _ devs) as [s' effs].
  destruct IH as (Hok' & Hd' & Hn'); [cbn; by rewrite app_assoc|done|]. split_and!; [done..|].
  intros d. rewrite Hn'. cbn. rewrite Hn1. destruct (decide (d = dev)) as [->|Hne].
  - rewrite lookup_delete_eq, (decide_True (P := dev ∈ dev :: devs)) by apply list_elem_of_here. by case_decide.
  - rewrite lookup_delete_ne by done. repeat case_decide; set_solver.
Qed.

Lemma sync_interfaces_ok (env : NbEnv (NetlinkError := NetlinkError)) s s' effs devs log :
  sync_interfaces env s = (s', effs, devs) → nb_ok s log → settled s → nb_ok s' (log ++ effs) ∧ settled s'.
Proof.
  unfold sync_interfaces. destruct (ev_links env) as [links|x|]; [|intros [= <- <- <-]; by rewrite app_nil_r..].
  set (stale := retain _ _). intros Hf Hok Hd. pose proof (stop_all_ok true stale (s, []) log) as Hs. cbn [fst snd] in Hs. rewrite app_nil_r in Hs.
  destruct (foldl (stop_next true) (s, []) stale) as [s1 e1]. injection Hf as <- <- <-. by destruct Hs as (? & ? & _).
Qed.

Lemma nb_handle_ok (env : NbEnv (NetlinkError := NetlinkError)) s cmd s' effs rep log :
  nb_handle env s cmd = (s', effs, rep) → nb_ok s log → settled s → nb_ok s' (log ++ effs) ∧ settled s'.
Proof.
  intros Hh Hok Hd. revert Hh. destruct cmd; cbn [nb_handle].
  - destruct (start_monitor env s nic) as [[s1 e1] r] eqn:E. intros [= <- <- <-]. by eapply start_monitor_ok.
  - unfold stop_monitor. destruct (teardown_nic s dev true) as [s1 e1] eqn:E. intros [= <- <- <-].
    by destruct (teardown_nic_ok _ _ _ _ _ _ E Hok Hd) as (? & ? & _).
  - destruct (sync_interfaces env s) as [[s1 e1] r] eqn:E. intros [= <- <- <-]. by eapply sync_interfaces_ok.
  - intros Hh. by eapply handle_here_i_am_ok.
  - intros Hh. by eapply handle_request_arc_ok.
  - intros Hh. by eapply handle_can_you_export_ok.
  - intros Hh. by eapply handle_remove_arc_ok.
  - intros Hh. by eapply handle_nop_ok.
  - destruct (handle_monitor_result s key outcome) as [s1 e1] eqn:E. intros [= <- <- <-]. by eapply handle_monitor_result_ok.
  - destruct (handle_request_arc_negotiated s mac can_i can_you) as [s1 e1] eqn:E. intros [= <- <- <-]. by eapply handle_negotiated_ok.
Qed.

Lemma nb_spawn_ok my_id max_arcs key require_auth sequence :
  (0 ≤ max_arcs)%Z → nb_ok (nb_spawn my_id max_arcs key require_auth sequence) [] ∧ settled (nb_spawn my_id max_arcs key require_auth sequence).
Proof.
  intros Hm. split; [|done]. constructor; cbn -[pending_count]; try (intros *; rewrite lookup_empty; done); try set_solver.
  - rewrite pending_count_keys. cbn. unfold pending_arc_cap, usize_saturating_mul, PENDING_ARC_MULTIPLIER, pending_keys. cbn.
    rewrite map_filter_empty, dom_empty_L, size_empty. unfold U64_MAX. lia.
  - constructor.
Qed.
End Invariant.

(** ** A concrete neighbourhood

    The instances the examples run on: the toy signatures, maps in their own order and
    encodings of the neighbourhood's messages; and a node with one interface. *)
#[export] Existing Instances toy_crypto map_order.

#[refine] Definition node_id_prost : ProstMessage WireNodeId := {|
  encode_to_vec m := [wn_id m];
  prost_decode l := match l with [z] => Ok (mkWireNodeId z) | _ => Err "length" end
|}.
Proof. by intros []. Defined.
#[export] Existing Instance node_id_prost.

#[local] Instance WireNicRef_eq_dec : EqDecision WireNicRef.
Proof. solve_decision. Defined.
#[local] Instance WireNicRef_countable : Countable WireNicRef.
Proof. by apply (inj_countable' (λ w, (wr_mac w, wr_addr w)) (λ p, mkWireNicRef p.1 p.2)); intros []. Defined.
#[export] Instance nic_ref_prost : ProstMessage WireNicRef := toy_prost 1.

(** A call as a tag, its identifiers, its texts and its flag. *)
Definition arc_args_code (w : ArcArgs) : list (option TypedValue) * list string :=
  ([aa_your_id w; aa_my_id w], [aa_your_mac w; aa_your_nic_addr w; aa_my_mac w; aa_my_nic_addr w]).
Definition nb_call_code (c : NbCall) : Z * (list (option TypedValue) * list string) * bool :=
  match c with
  | CallHereIAm w => (0%Z, ([ha_my_id w], [ha_my_mac w; ha_my_nic_addr w]), false)
  | CallRequestArc w => (1%Z, arc_args_code w, false)
  | CallCanYouExport can => (2%Z, ([], []), can)
  | CallRemoveArc w => (3%Z, arc_args_code w, false)
  | CallNop => (4%Z, ([], []), false)
  | CallOther => (5%Z, ([], []), false)
  end.
Definition nb_call_of_code (p : Z * (list (option TypedValue) * list string) * bool) : NbCall :=
  match p with
  | (0%Z, ([i], [m; a]), _) => CallHereIAm (mkHereIAmArgs i m a)
  | (1%Z, ([i; i'], [m; a; m'; a']), _) => CallRequestArc (mkArcArgs i m a i' m' a')
  | (2%Z, _, can) => CallCanYouExport can
  | (3%Z, ([i; i'], [m; a; m'; a']), _) => CallRemoveArc (mkArcArgs i m a i' m' a')
  | (4%Z, _, _) => CallNop
  | _ => CallOther
  end.
#[local] Instance NbCall_eq_dec : EqDecision NbCall.
Proof. unfold EqDecision, Decision. repeat decide equality; apply TypedValue_eq_dec. Defined.
#[local] Instance NbCall_countable : Countable NbCall.
Proof. by apply (inj_countable' nb_call_code nb_call_of_code); intros [[]|[]| |[]| |]. Defined.
#[export] Instance nb_call_prost : ProstMessage NbCall := toy_prost 2.

(** The node 1, on the interface [eth0], at a second of its clock. *)
Definition nb_at (now : Z) : NbEnv (NetlinkError := unit) := mkNbEnv now (Ok [mkLinkInfo 1 "eth0" true]) "169.254.0.1" (Ok tt).
Definition node_start (max_arcs : Z) (require_auth : bool) : NbState := nb_spawn 1 max_arcs (Some 11%Z) require_auth 0.
Definition me : Claim := mkClaim 1 "aa" "169.254.0.1".
Definition peer2 : Claim := mkClaim 2 "bb" "169.254.0.2".
Definition peer3 : Claim := mkClaim 3 "cc" "169.254.0.3".
