(* ===== verification/NeighborSystem.v ===== *)
(** * The neighbourhood over runs

    The theorems on every run of the neighbourhood manager: what the kernel, the
    subscribers and the monitors see, the bounds, the pinned identities, the shutdown
    and the two races the code leaves open. *)
From stdpp Require Import strings.
From S2P Require Import Prelude Addressing Domain Auth Neighbor NeighborActor NeighborProps.

Section Runs.
Context `{Crypto, HashOrder, ProstMessage WireNodeId, ProstMessage WireNicRef, ProstMessage NbCall}.
Context {NetlinkError : Type}.
Implicit Types (s : NbState) (e : ArcEntry) (rep : NbReply (NetlinkError := NetlinkError)) (env : NbEnv (NetlinkError := NetlinkError)).

(** The states a manager with room for [max_arcs] arcs reaches, with its effects so far. *)
Inductive nb_reachable : NbState → list NbEffect → Prop :=
  | nb_reach_spawn my_id max_arcs key require_auth sequence :
      (0 ≤ max_arcs)%Z → nb_reachable (nb_spawn my_id max_arcs key require_auth sequence) []
  | nb_reach_step s log env cmd s' effs rep :
      nb_reachable s log → nb_handle env s cmd = (s', effs, rep) → nb_reachable s' (log ++ effs).

Lemma nb_reachable_ok s log : nb_reachable s log → nb_ok s log ∧ settled s.
Proof.
  induction 1 as [my_id max_arcs key require_auth sequence Hm|s log env cmd s' effs rep _ [Hok Hd] Hh]; [by apply nb_spawn_ok|].
  by eapply nb_handle_ok.
Qed.

(** The commands one after another. *)
Definition nb_step env (acc : NbState * list NbEffect) (cmd : NbCmd) : NbState * list NbEffect :=
  let '(s', effs, _) := nb_handle env acc.1 cmd in (s', acc.2 ++ effs).
Lemma nb_run_reachable env cmds acc : nb_reachable acc.1 acc.2 → nb_reachable (foldl (nb_step env) acc cmds).1 (foldl (nb_step env) acc cmds).2.
Proof.
  revert acc. induction cmds as [|cmd cmds IH]; intros acc Hr; [done|]. cbn. apply IH. unfold nb_step.
  destruct (nb_handle env acc.1 cmd) as [[s' effs] rep] eqn:E. cbn. by eapply nb_reach_step.
Qed.

(** C26: Along every run the neighbour entries the kernel was asked for and not asked to give
    up are those of the arcs the manager holds, no more and no fewer: the teardown of
    one arc never takes another's entry; and who follows the events is told of every
    arc once before anything else about it, knows exactly the published cost of every
    arc that has one, and nothing of the others. *)
Theorem neighbourhood_views_exact s log :
  nb_reachable s log →
  (∀ dev addr, (dev, addr) ∈ kernel_neighbours log ↔
     ∃ mac e, nm_arcs s !! mac = Some e ∧ nb_dev (ae_arc e) = dev ∧ nb_addr (ae_arc e) = addr) ∧
  ∃ known, announced log = Some known ∧ ∀ mac, known !! mac = (e ← nm_arcs s !! mac; nb_cost (ae_arc e)).
Proof. intros [Hok _]%nb_reachable_ok. split; apply Hok. Qed.

(** The monitors of an address that were not cancelled. *)
Definition live_monitors s (log : list NbEffect) (mac : string) : list MonitorContext :=
  filter (λ c, mc_key c = mac ∧ mc_token c ∉ nm_cancelled s) (monitors log).

(** C27: Along every run an established arc has exactly one monitor that was not cancelled,
    with its confirmation, and an arc that is not established, or gone, has none. *)
Theorem one_monitor_per_arc s log mac :
  nb_reachable s log →
  confirmations log = monitors log ∧
  match nm_arcs s !! mac with
  | Some e => if is_established (ae_arc e) then ∃ c, live_monitors s log mac = [c] ∧ mc_token c = ae_monitor_cancel e else live_monitors s log mac = []
  | None => live_monitors s log mac = []
  end.
Proof.
  intros [Hok _]%nb_reachable_ok. split; [apply Hok|]. unfold live_monitors. set (live := filter _ _).
  assert (∀ c, c ∈ live → ∃ e, nm_arcs s !! mac = Some e ∧ is_established (ae_arc e) = true ∧ ae_monitor_cancel e = mc_token c) as Hlive.
  { intros c [[<- Hno] Hin]%list_elem_of_filter. by apply (ok_monitor_live s log Hok). }
  assert (∀ P : Prop, (live = [] → P) → (∀ c l, live = c :: l → P) → P) as Hcase by (intros P H1' H2'; destruct live; eauto).
  destruct (nm_arcs s !! mac) as [e|] eqn:He; [destruct (is_established (ae_arc e)) eqn:Hest|].
  - destruct (ok_monitored s log Hok mac e He Hest) as (c & Hin & Hkey & Htok). exists c. split; [|done].
    assert (c ∈ live) as Hc. { apply list_elem_of_filter. split; [split; [done|]|done]. rewrite Htok. by apply (ok_token_live s log Hok mac e). }
    assert (NoDup (mc_token <$> live)) as Hnd. { eapply sublist_NoDup; [apply (ok_monitor_once s log Hok)|]. apply fmap_sublist, sublist_filter. }
    assert (∀ c', c' ∈ live → mc_token c' = mc_token c) as Hsame. { intros c' (e' & He' & _ & Ht')%Hlive. congruence. }
    destruct live as [|c1 [|c2 l]]; [by apply elem_of_nil in Hc|apply list_elem_of_singleton in Hc; by subst|].
    exfalso. cbn in Hnd. apply NoDup_cons in Hnd as [Hnd _]. apply Hnd. rewrite (Hsame c1), <- (Hsame c2) by set_solver. set_solver.
  - apply Hcase; [done|]. intros c l Heq. destruct (Hlive c) as (e' & He' & Hest' & _); [rewrite Heq; set_solver|]. congruence.
  - apply Hcase; [done|]. intros c l Heq. destruct (Hlive c) as (e' & He' & _); [rewrite Heq; set_solver|]. congruence.
Qed.

(** C30: Along every run every arc is on a monitored interface, has the hardware address it
    is filed under and a link-local address of [169.254.0.0/16] no other arc has; no two
    arcs on an interface have the same neighbour, none is to the node itself; and the
    arcs not yet established are at most four times the arcs allowed. *)
Theorem arcs_distinct_and_bounded s log :
  nb_reachable s log →
  (∀ mac e, nm_arcs s !! mac = Some e →
     nb_mac (ae_arc e) = mac ∧ is_Some (nm_nics s !! nb_dev (ae_arc e)) ∧ nb_id (ae_arc e) ≠ nm_my_id s ∧
     ∃ rest, parse_ipv4 (nb_addr (ae_arc e)) = Some (169 :: 254 :: rest)%Z) ∧
  (∀ mac mac' e e', nm_arcs s !! mac = Some e → nm_arcs s !! mac' = Some e' →
     nb_addr (ae_arc e) = nb_addr (ae_arc e') ∨ (nb_id (ae_arc e) = nb_id (ae_arc e') ∧ nb_dev (ae_arc e) = nb_dev (ae_arc e')) →
     mac = mac') ∧
  (Z.of_nat (size (pending_keys (nm_arcs s))) ≤ 4 * nm_max_arcs s)%Z.
Proof.
  intros [Hok _]%nb_reachable_ok. split_and!.
  - intros mac e He. split_and!; [by apply (ok_keyed s log Hok)|by apply (ok_nic s log Hok mac)|by apply (ok_stranger s log Hok mac)|by apply (ok_linklocal s log Hok mac)].
  - intros mac mac' e e' He He' [Ha|[Hi Hd]]; [by apply (ok_addr s log Hok mac mac' e e')|by apply (ok_id s log Hok mac mac' e e')].
  - rewrite <- pending_count_keys. pose proof (ok_pending s log Hok) as Hp.
    unfold pending_arc_cap, usize_saturating_mul, PENDING_ARC_MULTIPLIER in Hp. lia.
Qed.

Lemma teardown_gives_back s dev notify n s' effs :
  teardown_nic s dev notify = (s', effs) → nm_nics s !! dev = Some n → NbIp (RemoveAddress dev (ns_local_address n)) ∈ effs.
Proof.
  unfold teardown_nic. intros Ht Hn. rewrite Hn in Ht. destruct (foldl (remove_next notify) _ _) as [s2 e2]. injection Ht as <- <-. set_solver.
Qed.

Lemma stop_all_gives_back notify devs acc log d n :
  nb_ok acc.1 (log ++ acc.2) → settled acc.1 → d ∈ devs → nm_nics acc.1 !! d = Some n →
  NbIp (RemoveAddress d (ns_local_address n)) ∈ (foldl (stop_next notify) acc devs).2.
Proof.
  assert (∀ devs acc x, x ∈ acc.2 → x ∈ (foldl (stop_next notify) acc devs).2) as Hkeep.
  { clear. induction devs as [|dev devs IH]; intros acc x Hx; [done|]. cbn. apply IH. unfold stop_next. destruct (teardown_nic _ _ _). cbn. set_solver. }
  revert acc. induction devs as [|dev devs IH]; intros acc Hok Hd Hin Hn; [by apply elem_of_nil in Hin|]. cbn [foldl].
  destruct (teardown_nic acc.1 dev notify) as [s1 e1] eqn:E.
  assert (stop_next notify acc dev = (s1, acc.2 ++ e1)) as -> by (unfold stop_next; by rewrite E).
  destruct (decide (d = dev)) as [->|Hne]; [apply Hkeep; cbn; apply elem_of_app; right; by eapply teardown_gives_back|].
  destruct (teardown_nic_ok _ _ _ _ _ _ E Hok Hd) as (Hok1 & Hd1 & Hn1 & _). apply IH; cbn; [by rewrite app_assoc|done|set_solver|].
  by rewrite Hn1, lookup_delete_ne.
Qed.

(** When the manager stops it gives back what it holds: no interface and no arc is left,
    the kernel has no neighbour of its own left, every interface's address is given up,
    and no monitor runs on. *)
Theorem shutdown_reclaims s log s' effs :
  nb_reachable s log → nb_shutdown s = (s', effs) →
  nm_nics s' = ∅ ∧ nm_arcs s' = ∅ ∧ kernel_neighbours (log ++ effs) = ∅ ∧ announced (log ++ effs) = Some ∅ ∧
  (∀ dev n, nm_nics s !! dev = Some n → NbIp (RemoveAddress dev (ns_local_address n)) ∈ effs) ∧
  (∀ c, c ∈ monitors (log ++ effs) → mc_token c ∈ nm_cancelled s').
Proof.
  intros [Hok Hd]%nb_reachable_ok. unfold nb_shutdown. set (devs := (hm_iter (nm_nics s)).*1).
  pose proof (λ d n, stop_all_gives_back false devs (s, []) log d n) as Hg. cbn [fst snd] in Hg. rewrite app_nil_r in Hg.
  pose proof (stop_all_ok false devs (s, []) log) as Hs. cbn [fst snd] in Hs. rewrite app_nil_r in Hs.
  destruct (foldl (stop_next false) (s, []) devs) as [s1 e1]. destruct Hs as (Hok1 & Hd1 & Hn1); [done..|].
  assert (nm_nics s1 = ∅) as Hn.
  { apply map_eq. intros d. rewrite Hn1, lookup_empty. case_decide as Hin; [done|].
    destruct (nm_nics s !! d) as [n|] eqn:En; [|done]. destruct Hin. apply list_elem_of_fmap. exists (d, n). by rewrite elem_of_hm_iter. }
  assert (nm_arcs s1 = ∅) as Ha.
  { apply map_eq. intros m. rewrite lookup_empty. destruct (nm_arcs s1 !! m) as [e|] eqn:Em; [|done].
    destruct (ok_nic _ _ Hok1 m e Em) as [n Hx]. by rewrite Hn, lookup_empty in Hx. }
  rewrite Ha, hm_iter_empty.
  cbn. intros [= <- <-]. split_and!; [done|done|..].
  - apply set_eq. intros [d a]. rewrite (ok_kernel _ _ Hok1), Ha. split; [|set_solver]. intros (m & e & He & _). by rewrite lookup_empty in He.
  - destruct (ok_announced _ _ Hok1) as (cm & -> & Hcm). f_equal. apply map_eq. intros m. rewrite Hcm, Ha. by rewrite !lookup_empty.
  - intros d n Hdn. apply (Hg d n Hok Hd); [|done]. apply list_elem_of_fmap. exists (d, n). by rewrite elem_of_hm_iter.
  - intros c Hin. destruct (decide (mc_token c ∈ nm_cancelled s1)) as [?|Hno]; [done|].
    destruct (ok_monitor_live _ _ Hok1 c Hin Hno) as (e & He & _). by rewrite Ha, lookup_empty in He.
Qed.

(** ** Pinned identities *)

(** Who a message claims to be from, and who signed it. *)
Definition message_of (cmd : NbCmd) : option (Claim * option (VerifyingKey * Z)) :=
  match cmd with
  | HereIAm _ sender verified => Some (sender, verified)
  | RequestArc _ _ sender verified => Some (sender, verified)
  | CanYouExport caller _ verified => Some (caller, verified)
  | RemoveArcCmd _ _ sender verified => Some (sender, verified)
  | Nop caller verified => Some (caller, verified)
  | _ => None
  end.

(** The arc was discovered and not negotiated in time. *)
Definition stale_pending (now : Z) (e : ArcEntry) : Prop :=
  nb_state (ae_arc e) = Discovered ∧ (PENDING_ARC_TTL ≤ now - ae_created_at e)%Z.

Lemma authenticate_pinned s mac verified e k s' r :
  authenticate s mac verified = (s', r) → nm_arcs s !! mac = Some e → ae_verified_key e = Some k → (∀ q, verified ≠ Some (k, q)) → r ≠ Ok tt.
Proof.
  unfold authenticate. intros Ha He Hk Hv -> . revert Ha. rewrite He, Hk. destruct verified as [[k' q]|]; [|by case_match].
  destruct (observe _ _ _) as [g [[]|x|]]; try done. cbn. rewrite He, Hk. case_bool_decide as Heq; [|done]. subst k'. by destruct (Hv q).
Qed.

Lemma authenticate_keeps s mac verified s' r mac' e k :
  authenticate s mac verified = (s', r) → nm_arcs s !! mac' = Some e → ae_verified_key e = Some k → nm_arcs s' !! mac' = Some e.
Proof.
  intros (_ & _ & _ & _ & _ & _ & [->|(e1 & k1 & q & _ & He1 & Hk1 & _ & ->)])%authenticate_frame He Hk; [done|].
  rewrite lookup_insert_ne; [done|]. intros <-. congruence.
Qed.

Lemma negotiate_other s nic mac mac' : mac' ≠ mac → nm_arcs (negotiate s nic mac).1 !! mac' = nm_arcs s !! mac'.
Proof. intros Hne. unfold negotiate. cbn. destruct (nm_arcs s !! mac); [|done]. cbn. by rewrite lookup_insert_ne. Qed.

Lemma export_arc_other s mac mac' : mac' ≠ mac → nm_arcs (export_arc s mac).1 !! mac' = nm_arcs s !! mac'.
Proof.
  intros Hne. unfold export_arc. destruct (nm_arcs s !! mac) as [e|]; [|done]. destruct (is_established _); [done|].
  destruct (nm_nics s !! _); [|done]. cbn. by rewrite lookup_insert_ne.
Qed.

Section Pinned.
Variables (s : NbState) (log : list NbEffect) (mac : string) (e : ArcEntry) (k : VerifyingKey).
Hypotheses (Hok : nb_ok s log) (He : nm_arcs s !! mac = Some e) (Hk : ae_verified_key e = Some k).

Lemma reap_keeps now s1 reaped : ¬ stale_pending now e → reap_stale_pending s now = (s1, reaped) → nm_arcs s1 !! mac = Some e.
Proof.
  intros Hs Hr. destruct (reap_ok _ _ _ _ _ Hr Hok) as (_ & _ & _ & _ & _ & _ & _ & Harcs).
  destruct (Harcs mac e He) as [?|(_ & Hd & Ht)]; [done|]. by destruct Hs.
Qed.

Section Message.
Variables (sender : Claim) (verified : option (VerifyingKey * Z)).
Hypothesis (Hv : cl_mac sender = mac → ∀ q, verified ≠ Some (k, q)).

(** Who is let through speaks for another arc. *)
Lemma admitted_other s1 s2 : authenticate s1 (cl_mac sender) verified = (s2, Ok tt) → nm_arcs s1 !! mac = Some e → mac ≠ cl_mac sender.
Proof. intros Ea He1 Heq. rewrite Heq in He1. exact (authenticate_pinned _ _ _ _ _ _ _ Ea He1 Hk (Hv (eq_sym Heq)) eq_refl). Qed.

Lemma here_i_am_keeps now dev s' effs rep :
  ¬ stale_pending now e → handle_here_i_am s now dev sender verified = (s', effs, rep) → nm_arcs s' !! mac = Some e.
Proof.
  intros Hs. unfold handle_here_i_am. case_match; [by intros [= <- <- <-]|]. case_match; [|by intros [= <- <- <-]].
  case_decide; [by intros [= <- <- <-]|]. destruct (reap_stale_pending s now) as [s1 reaped] eqn:Er.
  pose proof (reap_keeps _ _ _ Hs Er) as He1. do 2 (case_match; [by intros [= <- <- <-]|]).
  destruct (nm_arcs s1 !! cl_mac sender) as [e1|] eqn:E1; [by intros [= <- <- <-]|]. case_match; [by intros [= <- <- <-]|].
  destruct (authenticate s1 _ _) as [s2 r2] eqn:Ea. pose proof (authenticate_keeps _ _ _ _ _ _ _ _ Ea He1 Hk) as He2.
  destruct r2 as [[]|x|]; [|by intros [= <- <- <-]..]. destruct (sign_call _ _ _ _) as [auth q]. intros [= <- <- <-].
  cbn. rewrite lookup_insert_ne; [done|congruence].
Qed.

Lemma request_arc_keeps now dev dest s' effs rep :
  ¬ stale_pending now e → handle_request_arc s now dev dest sender verified = (s', effs, rep) → nm_arcs s' !! mac = Some e.
Proof.
  intros Hs. unfold handle_request_arc. case_match; [by intros [= <- <- <-]|]. case_match; [|by intros [= <- <- <-]].
  case_decide; [by intros [= <- <- <-]|]. case_match; [by intros [= <- <- <-]|]. destruct (reap_stale_pending s now) as [s1 reaped] eqn:Er.
  pose proof (reap_keeps _ _ _ Hs Er) as He1. do 2 (case_match; [by intros [= <- <- <-]|]).
  destruct (authenticate s1 _ _) as [s2 r2] eqn:Ea. pose proof (authenticate_keeps _ _ _ _ _ _ _ _ Ea He1 Hk) as He2.
  destruct r2 as [[]|x|]; [|by intros [= <- <- <-]..].
  pose proof (admitted_other _ _ Ea He1) as Hne.
  destruct (nm_arcs s2 !! cl_mac sender) as [e2|] eqn:E2.
  - case_match; [by intros [= <- <- <-]|]. pose proof (negotiate_other s2 n _ _ Hne) as Ho.
    destruct (negotiate s2 _ _) as [s3 effs3]. intros [= <- <- <-]. cbn in Ho. by rewrite Ho.
  - case_match; [by intros [= <- <- <-]|]. pose proof (negotiate_other (insert_discovered s2 now dev sender verified) n _ _ Hne) as Ho.
    destruct (negotiate _ _ _) as [s3 effs3]. intros [= <- <- <-]. cbn [fst] in Ho. rewrite Ho. cbn. by rewrite lookup_insert_ne.
Qed.

Lemma can_you_export_keeps can s' effs rep :
  handle_can_you_export s sender can verified = (s', effs, rep) →
  nm_arcs s' !! mac = Some e ∧ (cl_mac sender = mac → ∀ b, rep ≠ NbRemoteReply (Ok b)).
Proof.
  unfold handle_can_you_export. destruct (nm_arcs s !! cl_mac sender) as [e1|] eqn:E1; [|by intros [= <- <- <-]]. case_match; [by intros [= <- <- <-]|].
  destruct (authenticate s _ _) as [s2 r2] eqn:Ea. pose proof (authenticate_keeps _ _ _ _ _ _ _ _ Ea He Hk) as He2.
  destruct r2 as [[]|x|]; [|by intros [= <- <- <-]..].
  pose proof (admitted_other _ _ Ea He) as Hne.
  destruct (nm_arcs s2 !! cl_mac sender) as [e2|] eqn:E2; [|by intros [= <- <- <-]]. case_match; [by intros [= <- <- <-]|].
  pose proof (export_arc_other s2 _ _ Hne) as Ho. destruct (_ && can); [|by intros [= <- <- <-]].
  destruct (export_arc s2 _) as [s3 effs3]. intros [= <- <- <-]. cbn in Ho. by rewrite Ho.
Qed.

Lemma nop_keeps s' effs rep :
  handle_nop s sender verified = (s', effs, rep) →
  nm_arcs s' !! mac = Some e ∧ (cl_mac sender = mac → ∀ b, rep ≠ NbRemoteReply (Ok b)).
Proof.
  unfold handle_nop. destruct (nm_arcs s !! cl_mac sender) as [e1|] eqn:E1; [|by intros [= <- <- <-]]. do 2 (case_match; [by intros [= <- <- <-]|]).
  destruct (authenticate s _ _) as [s2 r2] eqn:Ea. pose proof (authenticate_keeps _ _ _ _ _ _ _ _ Ea He Hk) as He2.
  destruct r2 as [[]|x|]; [|by intros [= <- <- <-]..].
  pose proof (admitted_other _ _ Ea He) as Hne.
  by intros [= <- <- <-].
Qed.

Lemma remove_arc_keeps dev dest s' effs rep :
  nb_handle_remove_arc s dev dest sender verified = (s', effs, rep) → nm_arcs s' !! mac = Some e.
Proof.
  unfold nb_handle_remove_arc. case_match; [by intros [= <- <- <-]|]. case_match; [|by intros [= <- <- <-]].
  do 2 (case_match; [by intros [= <- <- <-]|]). destruct (nm_arcs s !! cl_mac sender) as [e1|] eqn:E1; [|by intros [= <- <- <-]].
  case_match; [by intros [= <- <- <-]|].
  destruct (authenticate s _ _) as [s2 r2] eqn:Ea. pose proof (authenticate_keeps _ _ _ _ _ _ _ _ Ea He Hk) as He2.
  destruct r2 as [[]|x|]; [|by intros [= <- <- <-]..].
  pose proof (admitted_other _ _ Ea He) as Hne.
  destruct (remove_my_arc s2 _ _) as [s3 effs3] eqn:Er. intros [= <- <- <-].
  destruct (remove_my_arc_frame _ _ _ _ _ Er) as (_ & _ & _ & _ & _ & _ & _ & -> & _). by rewrite lookup_delete_ne.
Qed.
End Message.
End Pinned.

(** C28: Along every run, once an arc is pinned to a key no message speaks for it but one that
    key signed: whatever address or identity it claims, and with whatever other key or
    none it is signed, an arc that was negotiated in time stays exactly as it is, and
    neither an export nor a keep-alive for it is answered. *)
Theorem pinned_identity_holds s log (env : NbEnv (NetlinkError := NetlinkError)) cmd sender verified mac e k s' effs rep :
  nb_reachable s log → nm_arcs s !! mac = Some e → ae_verified_key e = Some k → ¬ stale_pending (ev_now env) e →
  message_of cmd = Some (sender, verified) → (cl_mac sender = mac → ∀ q, verified ≠ Some (k, q)) →
  nb_handle env s cmd = (s', effs, rep) →
  nm_arcs s' !! mac = Some e ∧
  (cl_mac sender = mac → match cmd with CanYouExport _ _ _ | Nop _ _ => ∀ b, rep ≠ NbRemoteReply (Ok b) | _ => True end).
Proof.
  intros [Hok _]%nb_reachable_ok He Hk Hs Hm Hv Hh.
  destruct cmd; try discriminate Hm; injection Hm as -> ->; cbn in Hh.
  - split; [by eapply here_i_am_keeps|done].
  - split; [by eapply request_arc_keeps|done].
  - by eapply can_you_export_keeps.
  - split; [by eapply remove_arc_keeps|done].
  - by eapply nop_keeps.
Qed.
End Runs.

(** ** A node with two neighbours *)
Definition neighbourhood_run (max_arcs : Z) (cmds : list NbCmd) : NbState * list NbEffect :=
  foldl (nb_step (nb_at 5)) (node_start max_arcs false, []) (StartMonitor (mkLocalNic "eth0" "aa") :: cmds).
Definition busy : NbState * list NbEffect :=
  neighbourhood_run 8 [HereIAm "eth0" peer2 (Some (22%Z, 1%Z)); RequestArc "eth0" me peer3 None;
    CanYouExport peer2 true (Some (22%Z, 2%Z)); MonitorResult "bb" (FirstSample 700)].

Lemma neighbourhood_run_reachable max_arcs cmds :
  (0 ≤ max_arcs)%Z → nb_reachable (NetlinkError := unit) (neighbourhood_run max_arcs cmds).1 (neighbourhood_run max_arcs cmds).2.
Proof. intros Hm. unfold neighbourhood_run. apply nb_run_reachable. exact (nb_reach_spawn 1 max_arcs (Some 11%Z) false 0 Hm). Qed.
Lemma busy_reachable : nb_reachable (NetlinkError := unit) busy.1 busy.2.
Proof. apply neighbourhood_run_reachable. lia. Qed.

Lemma neighbourhood_views_exact_witness :
  kernel_neighbours busy.2 = {[("eth0", "169.254.0.2"); ("eth0", "169.254.0.3")]} ∧ announced busy.2 = Some {["bb" := Finite 700]} ∧
  ∀ dev addr, (dev, addr) ∈ kernel_neighbours busy.2 → ∃ mac e, nm_arcs busy.1 !! mac = Some e ∧ nb_dev (ae_arc e) = dev ∧ nb_addr (ae_arc e) = addr.
Proof.
  split_and!; [vm_compute; reflexivity..|]. intros dev addr. apply (neighbourhood_views_exact busy.1 busy.2 busy_reachable).
Defined.

Lemma one_monitor_per_arc_witness :
  confirmations busy.2 = monitors busy.2 ∧ mc_token <$> monitors busy.2 = [3]%Z.
Proof. destruct (one_monitor_per_arc busy.1 busy.2 "bb" busy_reachable) as [Hc _]. split; [exact Hc|]. vm_compute. reflexivity. Defined.

Lemma arcs_distinct_and_bounded_witness :
  (Z.of_nat (size (pending_keys (nm_arcs busy.1))) ≤ 4 * nm_max_arcs busy.1)%Z ∧ pending_count busy.1 = 1%Z.
Proof. split; [exact (proj2 (proj2 (arcs_distinct_and_bounded busy.1 busy.2 busy_reachable)))|vm_compute; reflexivity]. Defined.

Lemma shutdown_reclaims_witness :
  kernel_neighbours (busy.2 ++ (nb_shutdown busy.1).2) = ∅ ∧ nm_arcs busy.1 ≠ ∅.
Proof.
  split; [|intros Hx%(f_equal size); vm_compute in Hx; discriminate Hx].
  exact (proj1 (proj2 (proj2 (shutdown_reclaims busy.1 busy.2 (nb_shutdown busy.1).1 (nb_shutdown busy.1).2 busy_reachable (surjective_pairing _))))).
Defined.

(** The entry of the neighbour pinned to the key 22. *)
Definition pinned_entry : ArcEntry :=
  mkArcEntry (mkNeighborArc 2 "bb" "169.254.0.2" "eth0" Established (Some (Finite 700))) 3 5 0 (Some 22%Z).
Lemma busy_pinned : nm_arcs busy.1 !! "bb" = Some pinned_entry.
Proof. vm_compute. reflexivity. Qed.

Lemma pinned_identity_holds_witness :
  let forged := RemoveArcCmd "eth0" me peer2 (Some (33%Z, 9%Z)) in
  nm_arcs (nb_handle (nb_at 6) busy.1 forged).1.1 !! "bb" = Some pinned_entry.
Proof.
  cbv zeta. refine (proj1 (pinned_identity_holds busy.1 busy.2 (nb_at 6) (RemoveArcCmd "eth0" me peer2 (Some (33%Z, 9%Z))) peer2 (Some (33%Z, 9%Z)) "bb" pinned_entry 22%Z
    _ (nb_handle (nb_at 6) busy.1 (RemoveArcCmd "eth0" me peer2 (Some (33%Z, 9%Z)))).1.2 (nb_handle (nb_at 6) busy.1 (RemoveArcCmd "eth0" me peer2 (Some (33%Z, 9%Z)))).2
    busy_reachable busy_pinned eq_refl _ eq_refl _ _)).
  - intros [Hs _]. discriminate Hs.
  - intros _ q [= Hk _].
  - by destruct (nb_handle (nb_at 6) busy.1 _) as [[? ?] ?].
Defined.

(** ** What two negotiations at once, and a report already sent, can do *)

(** The limit on exported arcs is read when a negotiation starts and not again when it
    ends: a node allowed one arc, asked for an arc by two neighbours before either
    answers, exports both. *)
Theorem export_limit_exceeded :
  let '(s, log) := neighbourhood_run 1 [RequestArc "eth0" me peer2 None; RequestArc "eth0" me peer3 None;
    RequestArcNegotiated "bb" true true; RequestArcNegotiated "cc" true true] in
  (∀ arc nic can_i, NbSpawnExportCall arc nic can_i ∈ log → can_i = true) ∧ nm_max_arcs s = 1%Z ∧ exported_count s = 2%Z.
Proof.
  rewrite (surjective_pairing (neighbourhood_run _ _)). split; [|split; vm_compute; reflexivity]. intros arc nic can_i Hin.
  set (agreed := λ e, match e with NbSpawnExportCall _ _ c => c | _ => true end).
  assert (all agreed (neighbourhood_run 1 [RequestArc "eth0" me peer2 None; RequestArc "eth0" me peer3 None;
    RequestArcNegotiated "bb" true true; RequestArcNegotiated "cc" true true]).2 = true) as Hall by (vm_compute; reflexivity).
  exact (proj1 (all_true _ _) Hall _ Hin).
Qed.

(** A report is filed under the hardware address only: one that is already in the queue
    when its arc is removed and found again is taken for the new arc, which is announced
    with the old measurement before it was ever negotiated. *)
Theorem queued_report_hits_new_arc :
  let '(s, log) := neighbourhood_run 8 [RequestArc "eth0" me peer2 None; RequestArcNegotiated "bb" true true;
    RemoveArcCmd "eth0" me peer2 None; HereIAm "eth0" peer2 None; MonitorResult "bb" (FirstSample 700)] in
  (∃ c, monitors log = [c] ∧ mc_token c ∈ nm_cancelled s) ∧
  (∃ e, nm_arcs s !! "bb" = Some e ∧ nb_state (ae_arc e) = Discovered ∧ nb_cost (ae_arc e) = Some (Finite 700)) ∧
  announced log = Some {["bb" := Finite 700]}.
Proof.
  rewrite (surjective_pairing (neighbourhood_run _ _)). split; [|split; [|vm_compute; reflexivity]].
  - eexists. split; [vm_compute; reflexivity|]. apply (bool_decide_unpack _). vm_compute. exact I.
  - eexists. split_and!; vm_compute; reflexivity.
Qed.
