(* ===== verification/NeighborHandshake.v ===== *)
(** * Two neighbours meet

    The managers of two nodes on a link, the calls of one delivered to the other: from
    one beacon the arc is negotiated, established on both sides and pinned to the keys
    the nodes sign with, and each side's keep-alive is accepted by the other. *)
From stdpp Require Import strings.
From S2P Require Import Prelude Netlink Addressing Domain Auth Neighbor NeighborActor NeighborProps.

(** A node with one interface on the link. *)
Record Endpoint `{Crypto} := mkEndpoint {
  ep_id : Z; ep_max_arcs : Z; ep_key : option SigningKey; ep_require_auth : bool; ep_sequence : Z;
  ep_dev : string; ep_mac : string; ep_addr : string }.

(** A step that leaves the node's own fields as they are. *)
Ltac lives_on Hl := constructor; cbn; first [done | apply Hl].

Section Handshake.
Context `{Crypto, HashOrder, ProstMessage WireNodeId, ProstMessage WireNicRef, ProstMessage NbCall}.
Context {NetlinkError : Type}.
Implicit Types (s : NbState) (a b : Endpoint) (key : option SigningKey).

Definition ep_env (now : Z) a : NbEnv (NetlinkError := NetlinkError) :=
  mkNbEnv now (Ok [mkLinkInfo 1 (ep_dev a) true]) (ep_addr a) (Ok tt).
Definition ep_nic a : NicRef := mkNicRef (ep_mac a) (ep_addr a).
Definition ep_claim a : Claim := mkClaim (ep_id a) (ep_mac a) (ep_addr a).

(** The manager once it monitors the interface. *)
Definition online (now : Z) a : NbState :=
  (nb_handle (ep_env now a) (nb_spawn (ep_id a) (ep_max_arcs a) (ep_key a) (ep_require_auth a) (ep_sequence a))
    (StartMonitor (mkLocalNic (ep_dev a) (ep_mac a)))).1.1.

(** A call arrives on the node's interface; the calls of the unicast listener do not
    read which. *)
Definition nb_deliver (now : Z) b s (msg : NbCaller * NbCall * option Auth) : option (NbState * list NbEffect * NbReply) :=
  let '(caller, call, auth) := msg in
  match nb_dispatch (Some (ep_dev b)) caller call auth with Ok cmd => Some (nb_handle (ep_env now b) s cmd) | _ => None end.

Definition broadcast_of (effs : list NbEffect) : option (NbCaller * NbCall * option Auth) :=
  head (omap (λ x, match x with NbBroadcast _ caller call auth => Some (caller, call, auth) | _ => None end) effs).
Definition export_of (effs : list NbEffect) : option (NeighborArc * NicRef * bool) :=
  head (omap (λ x, match x with NbSpawnExportCall arc nic can_i => Some (arc, nic, can_i) | _ => None end) effs).
Definition answer_of (rep : NbReply (NetlinkError := NetlinkError)) : res unit (option NbPayload) :=
  match rep with NbRemoteReply (Ok p) => Ok (Some p) | _ => Err tt end.

(** [a]'s first beacon and all that follows from it. *)
Definition handshake (now : Z) a b : option (NbState * NbState * list NbEffect * list NbEffect) :=
  let '(beacon, q1) := radar_turn (ep_id a) (ep_key a) (nm_sequence (online now a)) (ep_dev a) (ep_nic a) in
  hello ← broadcast_of [beacon];
  '(sB1, effsB1, _) ← nb_deliver now b (online now b) hello;
  request ← broadcast_of effsB1;
  '(sA1, effsA1, _) ← nb_deliver now a (with_sequence (online now a) q1) request;
  '(arc, nic, can_i) ← export_of effsA1;
  let '(export, q2) := export_call (ep_id a) (ep_key a) (nm_sequence sA1) nic can_i in
  '(sB2, effsB2, rep) ← nb_deliver now b sB1 export;
  let '(sA2, effsA2, _) := nb_handle (ep_env now a) (with_sequence sA1 q2) (export_report arc can_i (answer_of rep)) in
  Some (sA2, sB2, effsA1 ++ effsA2, effsB1 ++ effsB2).

(** ** Signatures that are accepted *)
Definition signer key (q : Z) : option (VerifyingKey * Z) := (λ sk, (verifying_key sk, q)) <$> key.
Definition next_sequence key (q : Z) : Z := match key with Some _ => ((q + 1) mod 2 ^ 64)%Z | None => q end.

Lemma sign_call_verifies key q method call :
  sign_call key q method call = ((sign_call key q method call).1, next_sequence key q) ∧
  verify_auth (sign_call key q method call).1 method (encode_to_vec call) = Ok (signer key (next_sequence key q)).
Proof.
  destruct key as [sk|]; [|done]. cbn. split; [done|].
  assert (verify (sign sk ((q + 1) mod 2 ^ 64) method (encode_to_vec call)) method (encode_to_vec call) = Ok (verifying_key sk)) as ->; [|done].
  apply verify_Ok. cbn. by rewrite vk_to_bytes_length, ed_sign_length, vk_from_to_bytes, ed_verify_sign.
Qed.

(** The guard, used at most [n] times, would take this sequence number. *)
Definition takes (n : Z) (g : SequenceGuard) key (q : Z) : Prop :=
  (sg_clock g ≤ n)%Z ∧ ∀ sk, key = Some sk → match sg_seen g !! verifying_key sk with Some (last, _) => (last < q)%Z | None => True end.

Lemma authenticate_admits n s mac key q :
  (n < U64_MAX)%Z → takes n (nm_guard s) key q → (nm_require_auth s = true → is_Some key) →
  (∀ e, nm_arcs s !! mac = Some e → ae_verified_key e = verifying_key <$> key) →
  ∃ g, authenticate s mac (signer key q) = (with_guard s g, Ok tt) ∧ ∀ q', (is_Some key → q < q')%Z → takes (n + 1) g key q'.
Proof.
  intros Hn [Hc Hs] Hr Hp. destruct key as [sk|]; cbn.
  - assert (∃ g, observe (nm_guard s) (verifying_key sk) q = (g, Ok tt) ∧ sg_clock g = (sg_clock (nm_guard s) + 1)%Z ∧ ∃ t, sg_seen g !! verifying_key sk = Some (q, t))
      as (g & Ho & Hg & t & Ht).
    { unfold observe. rewrite (proj2 (Z.leb_gt _ _)) by lia. specialize (Hs sk eq_refl).
      destruct (sg_seen (nm_guard s) !! verifying_key sk) as [[l t]|]; [rewrite (proj2 (Z.leb_gt _ _)) by lia|];
        (eexists; split; [done|]; split; [done|]; eexists; apply lookup_insert_eq). }
    exists g. rewrite Ho. split.
    + cbn. destruct (nm_arcs s !! mac) as [e|] eqn:E; [|done]. rewrite (Hp e) by done. cbn. by rewrite bool_decide_true.
    + intros q' Hq. split; [lia|]. intros ? [= <-]. rewrite Ht. by apply Hq.
  - exists (nm_guard s). split; [|intros q' _; split; [lia|done]].
    destruct (nm_require_auth s) eqn:E; [by destruct Hr|]. assert (with_guard s (nm_guard s) = s) as -> by (by destruct s).
    destruct (nm_arcs s !! mac) as [e|] eqn:Ee; [|done]. by rewrite (Hp e).
Qed.

(** ** What a node is, and whom it may meet *)
Record lives a s : Prop := {
  lv_id : nm_my_id s = ep_id a;
  lv_max : nm_max_arcs s = ep_max_arcs a;
  lv_require : nm_require_auth s = ep_require_auth a;
  lv_key : nm_signing_key s = ep_key a;
  lv_nics : nm_nics s = {[ep_dev a := mkNicState (ep_mac a) (ep_addr a) 0]};
  lv_disabling : nm_disabling s = ∅
}.

Record may_meet a b : Prop := {
  mm_id : (0 < ep_id b)%Z;
  mm_other : ep_id b ≠ ep_id a;
  mm_mac : ep_mac b ≠ "";
  mm_linklocal : ∃ rest, parse_ipv4 (ep_addr b) = Some (169 :: 254 :: rest)%Z;
  mm_addr : ep_addr a ≠ ep_addr b;
  mm_max : (0 < ep_max_arcs a)%Z;
  mm_auth : ep_require_auth a = true → is_Some (ep_key b);
  mm_sequence : (0 ≤ ep_sequence b)%Z ∧ (ep_sequence b + 3 < 2 ^ 64)%Z
}.

(** The arc from [a] to [b]. *)
Definition peer_arc a b (st : ArcState) : NeighborArc := mkNeighborArc (ep_id b) (ep_mac b) (ep_addr b) (ep_dev a) st None.
Definition peer_entry (now : Z) a b (st : ArcState) (token : Z) : ArcEntry :=
  mkArcEntry (peer_arc a b st) token now 0 (verifying_key <$> ep_key b).

Lemma online_lives now a :
  lives a (online now a) ∧ nm_arcs (online now a) = ∅ ∧ nm_sequence (online now a) = ep_sequence a ∧
  (∀ key q, takes 0 (nm_guard (online now a)) key q) ∧ nm_next_token (online now a) = 1%Z.
Proof.
  unfold online, nb_handle, start_monitor, resolve_by_name, nb_spawn. cbn. rewrite lookup_empty. unfold find. cbn -[bool_decide]. rewrite bool_decide_true by done. cbn.
  split_and!; try done.
Qed.

(** ** Calls as the other side reads them *)
Lemma decode_id id field : (0 < id)%Z → nb_decode_id (Some (node_id_to_typed_value id)) field = Ok id.
Proof.
  intros Hid. unfold nb_decode_id, node_id_from_typed_value, node_id_to_typed_value. cbn [ok_or mbind res_bind].
  rewrite from_typed_value_typed_value. cbn. unfold node_id_from_raw. by rewrite (proj2 (Z.leb_gt _ _)) by lia.
Qed.

Lemma addr_not_empty (addr : string) rest : parse_ipv4 addr = Some rest → addr ≠ "".
Proof. intros Hp ->. vm_compute in Hp. done. Qed.

(** What [b] says to ask [a] for an arc. *)
Definition request_args a b : ArcArgs :=
  mkArcArgs (Some (node_id_to_typed_value (ep_id a))) (ep_mac a) (ep_addr a) (Some (node_id_to_typed_value (ep_id b))) (ep_mac b) (ep_addr b).

Section Meeting.
Variables (now : Z) (a b : Endpoint).
Hypotheses (Hab : may_meet a b) (Hba : may_meet b a).

Lemma decode_caller : caller_identity (nb_caller_context (ep_id a) (ep_nic a)) = Ok (ep_claim a).
Proof.
  destruct (mm_linklocal _ _ Hba) as [rest Hll%addr_not_empty].
  unfold caller_identity, nb_caller_context. cbn [nc_source_id nc_src_nic ok_or mbind res_bind].
  unfold node_id_from_typed_value, node_id_to_typed_value, nic_ref_from_typed_value, nic_ref_to_typed_value.
  rewrite !from_typed_value_typed_value. cbn. unfold node_id_from_raw. pose proof (mm_id _ _ Hba). rewrite (proj2 (Z.leb_gt _ _)) by lia. cbn.
  rewrite !bool_decide_false by (done || apply (mm_mac _ _ Hba)). done.
Qed.

Lemma dispatch_beacon q :
  let call := radar_call (ep_id a) (ep_nic a) in
  nb_dispatch (Some (ep_dev b)) (nb_caller_context (ep_id a) (ep_nic a)) call (sign_call (ep_key a) q METHOD_HERE_I_AM call).1 =
    Ok (HereIAm (ep_dev b) (ep_claim a) (signer (ep_key a) (next_sequence (ep_key a) q))).
Proof.
  intros call. destruct (sign_call_verifies (ep_key a) q METHOD_HERE_I_AM call) as [_ Hv].
  unfold nb_dispatch, call, radar_call. cbn [received_on_dev ok_or mbind res_bind ha_my_id]. rewrite decode_id by apply (mm_id _ _ Hba). cbn [mbind res_bind].
  change (CallHereIAm _) with call. by rewrite Hv.
Qed.

Lemma dispatch_request caller q :
  nb_dispatch (Some (ep_dev a)) caller (CallRequestArc (request_args a b)) (sign_call (ep_key b) q METHOD_REQUEST_ARC (CallRequestArc (request_args a b))).1 =
    Ok (RequestArc (ep_dev a) (ep_claim a) (ep_claim b) (signer (ep_key b) (next_sequence (ep_key b) q))).
Proof.
  destruct (sign_call_verifies (ep_key b) q METHOD_REQUEST_ARC (CallRequestArc (request_args a b))) as [_ Hv].
  unfold nb_dispatch. cbn [received_on_dev ok_or mbind res_bind]. change (aa_your_id (request_args a b)) with (Some (node_id_to_typed_value (ep_id a))).
  change (aa_my_id (request_args a b)) with (Some (node_id_to_typed_value (ep_id b))).
  rewrite !decode_id by (apply (mm_id _ _ Hba) || apply (mm_id _ _ Hab)). cbn [mbind res_bind]. by rewrite Hv.
Qed.

Lemma dispatch_export dev can q :
  nb_dispatch dev (nb_caller_context (ep_id a) (ep_nic a)) (CallCanYouExport can) (sign_call (ep_key a) q METHOD_CAN_YOU_EXPORT (CallCanYouExport can)).1 =
    Ok (CanYouExport (ep_claim a) can (signer (ep_key a) (next_sequence (ep_key a) q))).
Proof.
  cbn [nb_dispatch]. rewrite decode_caller. cbn [mbind res_bind].
  destruct (sign_call_verifies (ep_key a) q METHOD_CAN_YOU_EXPORT (CallCanYouExport can)) as [_ ->]. done.
Qed.

Lemma dispatch_nop dev q :
  nb_dispatch dev (nb_caller_context (ep_id a) (ep_nic a)) CallNop (sign_call (ep_key a) q METHOD_NOP CallNop).1 =
    Ok (Nop (ep_claim a) (signer (ep_key a) (next_sequence (ep_key a) q))).
Proof.
  cbn [nb_dispatch]. rewrite decode_caller. cbn [mbind res_bind].
  destruct (sign_call_verifies (ep_key a) q METHOD_NOP CallNop) as [_ ->]. done.
Qed.

(** ** The steps, as [a] takes them *)
Definition a_knows s (st : ArcState) : Prop := ∃ token, nm_arcs s = {[ep_mac b := peer_entry now a b st token]}.

Lemma strangers s :
  lives a s → nm_arcs s = ∅ →
  reap_stale_pending s now = (s, []) ∧ find_collision s (ep_mac b) (ep_addr b) (ep_id b) (ep_dev a) = false ∧
  peer_nic_addr_acceptable s (ep_mac b) (ep_addr b) = true ∧ (pending_arc_cap s <=? pending_count s)%Z = false.
Proof.
  intros Hl He. unfold reap_stale_pending, find_collision, peer_nic_addr_acceptable, pending_count, arc_values.
  rewrite He, hm_iter_empty, (lv_nics _ _ Hl), hm_iter_singleton. destruct (mm_linklocal _ _ Hab) as [rest ->]. split_and!; [done|done| |].
  - unfold any. cbn. rewrite bool_decide_false by apply (mm_addr _ _ Hab). done.
  - unfold pending_arc_cap, usize_saturating_mul, PENDING_ARC_MULTIPLIER, U64_MAX. rewrite (lv_max _ _ Hl). pose proof (mm_max _ _ Hab).
    apply Z.leb_gt. unfold retain. cbn. lia.
Qed.

Lemma no_exports s st token :
  nm_arcs s = ∅ ∨ nm_arcs s = {[ep_mac b := peer_entry now a b st token]} ∧ st ≠ Established → lives a s → (exported_count s <? nm_max_arcs s)%Z = true.
Proof.
  intros Hs Hl. pose proof (mm_max _ _ Hab). rewrite (lv_max _ _ Hl). apply Z.ltb_lt.
  assert (exported_count s = 0%Z) as ->; [|lia]. unfold exported_count, arc_values.
  destruct Hs as [->|[-> Hne]]; [by rewrite hm_iter_empty|]. rewrite hm_iter_singleton. unfold retain. cbn.
  unfold is_established. cbn. by rewrite bool_decide_false.
Qed.

(** [b]'s beacon reaches [a]. *)
Lemma step_beacon s q :
  lives a s → nm_arcs s = ∅ → takes 0 (nm_guard s) (ep_key b) q →
  ∃ s' caller effs, handle_here_i_am (NetlinkError := NetlinkError) s now (ep_dev a) (ep_claim b) (signer (ep_key b) q) = (s', effs, NbRemoteReply (Ok NbEmpty)) ∧
    lives a s' ∧ a_knows s' Discovered ∧ nm_sequence s' = next_sequence (ep_key a) (nm_sequence s) ∧ (∀ q', (is_Some (ep_key b) → q < q')%Z → takes 1 (nm_guard s') (ep_key b) q') ∧
    broadcast_of effs = Some (caller, CallRequestArc (request_args b a), (sign_call (ep_key a) (nm_sequence s) METHOD_REQUEST_ARC (CallRequestArc (request_args b a))).1) ∧ monitors effs = [].
Proof.
  intros Hl He Ht. destruct (strangers s Hl He) as (Hr & Hc & Hp & Hcap).
  destruct (authenticate_admits 0 s (ep_mac b) (ep_key b) q) as (g & Ha & Hg); [unfold U64_MAX; lia|done|rewrite (lv_require _ _ Hl); apply (mm_auth _ _ Hab)|by rewrite He|].
  unfold handle_here_i_am. cbn [ep_claim cl_id cl_mac cl_addr].
  rewrite (lv_id _ _ Hl), (proj2 (Z.eqb_neq _ _) (mm_other _ _ Hab)), (lv_nics _ _ Hl), lookup_singleton_eq, (lv_disabling _ _ Hl).
  rewrite decide_False by set_solver. rewrite Hr, Hc, Hp. cbn [negb]. rewrite He, lookup_empty, Hcap, Ha.
  unfold request_args. cbn. rewrite (lv_key _ _ Hl), (lv_id _ _ Hl).
  match goal with |- context [sign_call ?k ?q0 ?m ?c] => destruct (sign_call_verifies k q0 m c) as [Hs _] end. rewrite Hs.
  do 3 eexists. split; [done|]. split_and!; [lives_on Hl|..|done|done|done|done].
  eexists. cbn. rewrite He, insert_empty. unfold peer_entry, neighbor_arc_new, peer_arc. repeat f_equal. by destruct (ep_key b).
Qed.

Lemma negotiate_knows s nic :
  lives a s → a_knows s Discovered →
  ∃ s', negotiate s nic (ep_mac b) = (s', [nb_publish s'; NbSpawnExportCall (peer_arc a b Requested) (nic_ref_of nic) true]) ∧
    lives a s' ∧ a_knows s' Requested ∧ nm_sequence s' = nm_sequence s ∧ nm_guard s' = nm_guard s.
Proof.
  intros Hl [token He]. unfold negotiate. rewrite He, lookup_singleton_eq, insert_singleton_eq. set (s1 := set_arcs s _).
  change (nm_arcs s1) with ({[ep_mac b := peer_entry now a b Requested token]} : gmap string ArcEntry). rewrite lookup_singleton_eq.
  rewrite (no_exports s1 Requested token); [|by right|lives_on Hl]. exists s1. split_and!; [done|lives_on Hl|by exists token|done|done].
Qed.

(** [b]'s request reaches [a]. *)
Lemma step_request s q :
  lives a s → nm_arcs s = ∅ → takes 0 (nm_guard s) (ep_key b) q →
  ∃ s' effs, handle_request_arc (NetlinkError := NetlinkError) s now (ep_dev a) (ep_claim a) (ep_claim b) (signer (ep_key b) q) = (s', effs, NbRemoteReply (Ok NbEmpty)) ∧
    lives a s' ∧ a_knows s' Requested ∧ nm_sequence s' = nm_sequence s ∧ (∀ q', (is_Some (ep_key b) → q < q')%Z → takes 1 (nm_guard s') (ep_key b) q') ∧
    export_of effs = Some (peer_arc a b Requested, ep_nic a, true) ∧ monitors effs = [].
Proof.
  intros Hl He Ht. destruct (strangers s Hl He) as (Hr & Hc & Hp & Hcap).
  destruct (authenticate_admits 0 s (ep_mac b) (ep_key b) q) as (g & Ha & Hg); [unfold U64_MAX; lia|done|rewrite (lv_require _ _ Hl); apply (mm_auth _ _ Hab)|by rewrite He|].
  unfold handle_request_arc, addressed_to. cbn [ep_claim cl_id cl_mac cl_addr].
  rewrite (lv_id _ _ Hl), (proj2 (Z.eqb_neq _ _) (mm_other _ _ Hab)), (lv_nics _ _ Hl), lookup_singleton_eq, (lv_disabling _ _ Hl).
  rewrite decide_False by set_solver. cbn [ns_mac ns_local_address]. rewrite Z.eqb_refl, !bool_decide_true by done. cbn [negb andb]. rewrite Hr, Hc, Hp. cbn [negb]. rewrite Ha.
  change (nm_arcs (with_guard s g)) with (nm_arcs s). rewrite He, lookup_empty.
  change (pending_arc_cap (with_guard s g)) with (pending_arc_cap s). change (pending_count (with_guard s g)) with (pending_count s). rewrite Hcap.
  set (s2 := insert_discovered _ _ _ _ _).
  destruct (negotiate_knows s2 (mkNicState (ep_mac a) (ep_addr a) 0)) as (s' & Hn & Hl' & Hk & Hq & Hg'); [lives_on Hl| |].
  { eexists. cbn. rewrite He, insert_empty. unfold peer_entry, neighbor_arc_new, peer_arc. repeat f_equal. by destruct (ep_key b). }
  rewrite Hn. do 2 eexists. split; [done|]. rewrite Hg'. by split_and!.
Qed.

Lemma export_knows s st :
  lives a s → a_knows s st → st ≠ Established →
  ∃ s' token, export_arc s (ep_mac b) =
    (s', [NbSpawnMonitor (mkMonitorContext (ep_mac b) (peer_arc a b Established) (ep_nic a) token);
          NbSpawnConfirmation (mkMonitorContext (ep_mac b) (peer_arc a b Established) (ep_nic a) token); nb_publish s']) ∧
    lives a s' ∧ nm_arcs s' = {[ep_mac b := peer_entry now a b Established token]} ∧ nm_sequence s' = nm_sequence s ∧ nm_guard s' = nm_guard s.
Proof.
  intros Hl [token He] Hne. unfold export_arc. rewrite He, lookup_singleton_eq.
  unfold is_established. cbn [peer_entry ae_arc peer_arc nb_state nb_dev]. rewrite bool_decide_false by done. rewrite (lv_nics _ _ Hl), lookup_singleton_eq.
  do 2 eexists. split; [done|]. split_and!; [lives_on Hl| |done|done]. cbn. by rewrite He, insert_singleton_eq.
Qed.

(** [b] asks [a] to export the arc it has discovered. *)
Lemma step_export s q :
  lives a s → a_knows s Discovered → takes 1 (nm_guard s) (ep_key b) q →
  ∃ s' effs token, handle_can_you_export (NetlinkError := NetlinkError) s (ep_claim b) true (signer (ep_key b) q) = (s', effs, NbRemoteReply (Ok (NbBoolean true))) ∧
    lives a s' ∧ nm_arcs s' = {[ep_mac b := peer_entry now a b Established token]} ∧ nm_sequence s' = nm_sequence s ∧ (∀ q', (is_Some (ep_key b) → q < q')%Z → takes 2 (nm_guard s') (ep_key b) q') ∧
    monitors effs = [mkMonitorContext (ep_mac b) (peer_arc a b Established) (ep_nic a) token].
Proof.
  intros Hl [token He] Ht.
  destruct (authenticate_admits 1 s (ep_mac b) (ep_key b) q) as (g & Ha & Hg);
    [unfold U64_MAX; lia|done|rewrite (lv_require _ _ Hl); apply (mm_auth _ _ Hab)|rewrite He; by intros e [_ <-]%lookup_singleton_Some|].
  unfold handle_can_you_export, caller_matches. cbn [ep_claim cl_id cl_mac cl_addr]. rewrite He, lookup_singleton_eq. cbn [peer_entry ae_arc peer_arc nb_id nb_addr].
  rewrite Z.eqb_refl, bool_decide_true by done. cbn [negb andb]. rewrite Ha. change (nm_arcs (with_guard s g)) with (nm_arcs s). rewrite He, lookup_singleton_eq.
  unfold is_established at 1. cbn [peer_entry ae_arc peer_arc nb_state]. rewrite bool_decide_false by done.
  assert (lives a (with_guard s g)) as Hl1 by lives_on Hl.
  rewrite (no_exports _ Discovered token); [|by right|done]. cbn [andb].
  destruct (export_knows (with_guard s g) Discovered) as (s' & t' & -> & Hl' & He' & Hq' & Hg'); [done|by exists token|done|].
  exists s'. do 2 eexists. split; [done|]. rewrite Hg'. by split_and!.
Qed.

(** [a]'s call came back with [b]'s consent. *)
Lemma step_negotiated s :
  lives a s → a_knows s Requested →
  ∃ s' effs token, handle_request_arc_negotiated s (ep_mac b) true true = (s', effs) ∧
    lives a s' ∧ nm_arcs s' = {[ep_mac b := peer_entry now a b Established token]} ∧ nm_sequence s' = nm_sequence s ∧ nm_guard s' = nm_guard s ∧
    monitors effs = [mkMonitorContext (ep_mac b) (peer_arc a b Established) (ep_nic a) token].
Proof.
  intros Hl Hk. destruct (export_knows s Requested) as (s' & t & He & Hl' & Ha & Hq & Hg); [done..|].
  unfold handle_request_arc_negotiated. cbn [andb]. rewrite He. exists s'. do 2 eexists. split; [done|]. by split_and!.
Qed.

(** [b]'s keep-alive reaches [a]. *)
Lemma step_nop n s q token :
  (n < U64_MAX)%Z → lives a s → nm_arcs s = {[ep_mac b := peer_entry now a b Established token]} → takes n (nm_guard s) (ep_key b) q →
  ∃ g, handle_nop (NetlinkError := NetlinkError) s (ep_claim b) (signer (ep_key b) q) = (with_guard s g, [], NbRemoteReply (Ok NbEmpty)).
Proof.
  intros Hn Hl He Ht.
  destruct (authenticate_admits n s (ep_mac b) (ep_key b) q) as (g & Ha & Hg);
    [done|done|rewrite (lv_require _ _ Hl); apply (mm_auth _ _ Hab)|rewrite He; by intros e [_ <-]%lookup_singleton_Some|].
  exists g. unfold handle_nop, caller_matches. cbn [ep_claim cl_id cl_mac cl_addr]. rewrite He, lookup_singleton_eq. cbn [peer_entry ae_arc peer_arc nb_id nb_addr].
  rewrite Z.eqb_refl, bool_decide_true by done. cbn [negb andb]. by rewrite Ha.
Qed.
End Meeting.

Lemma next_sequence_spec key q :
  (0 ≤ q)%Z → (q + 1 < 2 ^ 64)%Z → (is_Some key → q < next_sequence key q)%Z ∧ (q ≤ next_sequence key q ≤ q + 1)%Z.
Proof. intros Hq Hb. destruct key as [sk|]; cbn; [rewrite Z.mod_small by lia; lia|]. split; [by intros [? ?]|lia]. Qed.

Lemma deliver_understood now b s caller call auth cmd :
  nb_dispatch (Some (ep_dev b)) caller call auth = Ok cmd → nb_deliver now b s (caller, call, auth) = Some (nb_handle (ep_env now b) s cmd).
Proof. unfold nb_deliver. by intros ->. Qed.

(** C29: Two nodes that can hear each other meet: of the calls the one's first beacon sets
    off every one is understood and accepted, and each node ends with exactly one arc, to
    the other, established, at the addresses the other announced, pinned to the key the
    other signs with and with one monitor; then the keep-alive of either is accepted by
    the other. *)
Theorem beacon_establishes_arc (now : Z) a b :
  may_meet a b → may_meet b a →
  ∃ sA sB effsA effsB tA tB, handshake now a b = Some (sA, sB, effsA, effsB) ∧
    nm_arcs sA = {[ep_mac b := peer_entry now a b Established tA]} ∧
    nm_arcs sB = {[ep_mac a := peer_entry now b a Established tB]} ∧
    monitors effsA = [mkMonitorContext (ep_mac b) (peer_arc a b Established) (ep_nic a) tA] ∧
    monitors effsB = [mkMonitorContext (ep_mac a) (peer_arc b a Established) (ep_nic b) tB] ∧
    (∃ s', nb_deliver now b sB (nop_call (ep_id a) (ep_key a) (nm_sequence sA) (ep_nic a)).1 = Some (s', [], NbRemoteReply (Ok NbEmpty))) ∧
    (∃ s', nb_deliver now a sA (nop_call (ep_id b) (ep_key b) (nm_sequence sB) (ep_nic b)).1 = Some (s', [], NbRemoteReply (Ok NbEmpty))).
Proof.
  intros Hab Hba. destruct (online_lives now a) as (LA & EA & QA & GA & _), (online_lives now b) as (LB & EB & QB & GB & _).
  destruct (mm_sequence _ _ Hba) as [Qa Qa'], (mm_sequence _ _ Hab) as [Qb Qb'].
  unfold handshake, radar_turn. rewrite QA.
  destruct (next_sequence_spec (ep_key a) (ep_sequence a)) as [N1 N1']; [lia..|]. set (q1 := next_sequence (ep_key a) (ep_sequence a)) in *.
  destruct (next_sequence_spec (ep_key a) q1) as [N2 N2']; [lia..|]. set (q2 := next_sequence (ep_key a) q1) in *.
  destruct (next_sequence_spec (ep_key a) q2) as [N3 N3']; [lia..|].
  destruct (next_sequence_spec (ep_key b) (ep_sequence b)) as [M1 M1']; [lia..|]. set (p1 := next_sequence (ep_key b) (ep_sequence b)) in *.
  destruct (next_sequence_spec (ep_key b) p1) as [M2 M2']; [lia..|].
  rewrite (proj1 (sign_call_verifies (ep_key a) (ep_sequence a) _ _)). cbn [broadcast_of omap list_omap head mbind option_bind]. fold q1.
  rewrite (deliver_understood _ _ _ _ _ _ _ (dispatch_beacon a b Hba _)). fold q1. cbn [nb_handle ev_now ep_env].
  destruct (step_beacon now b a Hba Hab (online now b) q1 LB EB (GB _ _)) as (sB1 & caller & effsB1 & -> & LB1 & KB1 & QB1 & GB1 & RB1 & MB1).
  cbn [mbind option_bind]. rewrite RB1, QB. cbn [mbind option_bind]. rewrite (deliver_understood _ _ _ _ _ _ _ (dispatch_request a b Hab Hba _ _)). fold p1. cbn [nb_handle ev_now ep_env].
  destruct (step_request now a b Hab Hba (with_sequence (online now a) q1) p1) as (sA1 & effsA1 & -> & LA1 & KA1 & QA1 & GA1 & RA1 & MA1); [lives_on LA|done|apply GA|].
  cbn [mbind option_bind]. rewrite RA1. cbn [mbind option_bind]. unfold export_call.
  change (nm_sequence sA1 = q1) in QA1. rewrite QA1, (proj1 (sign_call_verifies (ep_key a) q1 _ _)). fold q2.
  rewrite (deliver_understood _ _ _ _ _ _ _ (dispatch_export a b Hba _ _ _)). fold q2. cbn [nb_handle ev_now ep_env].
  destruct (step_export now b a Hba sB1 q2 LB1 KB1) as (sB2 & effsB2 & tB & -> & LB2 & KB2 & QB2 & GB2 & MB2); [by apply GB1|].
  cbn [mbind option_bind export_report answer_of peer_arc nb_mac nb_handle].
  destruct (step_negotiated now a b (with_sequence sA1 q2)) as (sA2 & effsA2 & tA & -> & LA2 & KA2 & QA2 & GA2 & MA2); [lives_on LA1|exact KA1|].
  exists sA2, sB2, (effsA1 ++ effsA2), (effsB1 ++ effsB2), tA, tB. split_and!; [done|done|done|..].
  all: unfold nop_call, monitors in *; rewrite ?omap_app.
  - by rewrite MA1, MA2.
  - by rewrite MB1, MB2.
  - change (nm_sequence sA2 = q2) in QA2. rewrite QA2, (proj1 (sign_call_verifies (ep_key a) q2 _ _)). cbn [fst].
    rewrite (deliver_understood _ _ _ _ _ _ _ (dispatch_nop a b Hba _ _)). cbn [nb_handle].
    destruct (step_nop now b a Hba 2 sB2 (next_sequence (ep_key a) q2) tB) as [g ->]; [unfold U64_MAX; lia|done|done|by apply GB2|by eexists].
  - rewrite QB2, QB1, QB. fold p1. rewrite (proj1 (sign_call_verifies (ep_key b) p1 _ _)). cbn [fst].
    rewrite (deliver_understood _ _ _ _ _ _ _ (dispatch_nop b a Hab _ _)). cbn [nb_handle].
    destruct (step_nop now a b Hab 1 sA2 (next_sequence (ep_key b) p1) tA) as [g ->]; [unfold U64_MAX; lia|done|done| |by eexists].
    rewrite GA2. by apply GA1.
Qed.
End Handshake.

Definition left_end : Endpoint := mkEndpoint _ 4 8 (Some 44%Z) true 100 "wlan0" "dd" "169.254.7.4".
Definition right_end : Endpoint := mkEndpoint _ 5 1 (Some 55%Z) true 7 "eth1" "ee" "169.254.0.5".
Lemma may_meet_ends : may_meet left_end right_end ∧ may_meet right_end left_end.
Proof. split; constructor; cbn; try first [lia | discriminate | eexists; vm_compute; reflexivity | by eexists]. Qed.

Lemma beacon_establishes_arc_witness :
  ∃ sA sB effsA effsB tA, handshake (NetlinkError := unit) 5 left_end right_end = Some (sA, sB, effsA, effsB) ∧
    nm_arcs sA = {["ee" := peer_entry 5 left_end right_end Established tA]}.
Proof.
  destruct (beacon_establishes_arc (NetlinkError := unit) 5 left_end right_end (proj1 may_meet_ends) (proj2 may_meet_ends))
    as (sA & sB & effsA & effsB & tA & tB & Hh & Ha & _).
  exists sA, sB, effsA, effsB, tA. exact (conj Hh Ha).
Defined.
