(* ===== verification/KernelLaws.v ===== *)
(** * What the kernel promises

    The contract the daemon relies on ([KernelLaws]), as the traits of [ntk-netlink]
    document it: what is there after a mutation that succeeded, that one which failed
    changed nothing, and that an object reported absent is absent; with the kernel in
    memory of [fake.rs] as an instance. *)
From stdpp Require Import strings.
From S2P Require Import Prelude Netlink.

Definition rkey (r : RouteSpec) : Z * Z * Z := route_key (rs_table r) (rs_destination r).

Class KernelLaws (K : Type) `{Netlink K} := {
  kn_routes : K → gmap (Z * Z * Z) RouteSpec;
  kn_rule : K → RuleSpec → Prop;
  kn_address : K → Interface → Ipv4Net → Prop;
  (** How the kernel reports a route. *)
  kn_stored : K → RouteSpec → RouteSpec;
  (** The kernels the laws speak of. *)
  kn_honest : K → Prop;
  add_route_law : ∀ k r k' o, kn_honest k → add_route k r = (k', o) →
    kn_honest k' ∧ kn_stored k' = kn_stored k ∧ (∀ u, kn_rule k' u ↔ kn_rule k u) ∧ (∀ i n, kn_address k' i n ↔ kn_address k i n) ∧
    match o with
    | Ok _ => kn_routes k !! rkey r = None ∧ kn_routes k' = <[rkey r := kn_stored k r]> (kn_routes k)
    | Err _ => kn_routes k' = kn_routes k
    | Panic => False
    end;
  change_route_law : ∀ k r k' o, kn_honest k → change_route k r = (k', o) →
    kn_honest k' ∧ kn_stored k' = kn_stored k ∧ (∀ u, kn_rule k' u ↔ kn_rule k u) ∧ (∀ i n, kn_address k' i n ↔ kn_address k i n) ∧
    match o with
    | Ok _ => kn_routes k' = <[rkey r := kn_stored k r]> (kn_routes k)
    | Err _ => kn_routes k' = kn_routes k
    | Panic => False
    end;
  remove_route_law : ∀ k key k' o, kn_honest k → remove_route k key = (k', o) →
    kn_honest k' ∧ kn_stored k' = kn_stored k ∧ (∀ u, kn_rule k' u ↔ kn_rule k u) ∧ (∀ i n, kn_address k' i n ↔ kn_address k i n) ∧
    match o with
    | Ok _ => kn_routes k' = delete (route_key (rk_table key) (rk_destination key)) (kn_routes k)
    | Err e => kn_routes k' = kn_routes k ∧ (is_not_found e = true → kn_routes k !! route_key (rk_table key) (rk_destination key) = None)
    | Panic => False
    end;
  add_rule_law : ∀ k u k' o, kn_honest k → add_rule k u = (k', o) →
    kn_honest k' ∧ kn_stored k' = kn_stored k ∧ kn_routes k' = kn_routes k ∧ (∀ i n, kn_address k' i n ↔ kn_address k i n) ∧
    match o with
    | Ok _ => ∀ v, kn_rule k' v ↔ v = u ∨ kn_rule k v
    | Err e => (∀ v, kn_rule k' v ↔ kn_rule k v) ∧ (is_already_exists e = true → kn_rule k u)
    | Panic => False
    end;
  remove_rule_law : ∀ k u k' o, kn_honest k → remove_rule k u = (k', o) →
    kn_honest k' ∧ kn_stored k' = kn_stored k ∧ kn_routes k' = kn_routes k ∧ (∀ i n, kn_address k' i n ↔ kn_address k i n) ∧
    match o with
    | Ok _ => ∀ v, kn_rule k' v ↔ v ≠ u ∧ kn_rule k v
    | Err e => (∀ v, kn_rule k' v ↔ kn_rule k v) ∧ (is_not_found e = true → ¬ kn_rule k u)
    | Panic => False
    end;
  add_address_law : ∀ k i n k' o, kn_honest k → add_address k i n = (k', o) →
    kn_honest k' ∧ kn_stored k' = kn_stored k ∧ kn_routes k' = kn_routes k ∧ (∀ u, kn_rule k' u ↔ kn_rule k u) ∧
    match o with
    | Ok _ => kn_address k' i n ∧ ∀ j m, m ≠ n → kn_address k' j m ↔ kn_address k j m
    | Err e => (∀ j m, kn_address k' j m ↔ kn_address k j m) ∧ (is_already_exists e = true → kn_address k i n)
    | Panic => False
    end;
  remove_address_law : ∀ k i n k' o, kn_honest k → remove_address k i n = (k', o) →
    kn_honest k' ∧ kn_stored k' = kn_stored k ∧ kn_routes k' = kn_routes k ∧ (∀ u, kn_rule k' u ↔ kn_rule k u) ∧
    match o with
    | Ok _ => ¬ kn_address k' i n ∧ ∀ j m, m ≠ n → kn_address k' j m ↔ kn_address k j m
    | Err e => (∀ j m, kn_address k' j m ↔ kn_address k j m) ∧ (is_not_found e = true → ¬ kn_address k i n)
    | Panic => False
    end;
  (** Listings are complete. *)
  list_routes_law : ∀ k l, kn_honest k → list_routes k None = Ok l →
    (∀ key r, kn_routes k !! key = Some r → ∃ r', r' ∈ l ∧ rkey r' = key) ∧ ∀ r, r ∈ l → is_Some (kn_routes k !! rkey r);
  list_rules_law : ∀ k l, kn_honest k → list_rules k = Ok l → ∀ u, u ∈ l ↔ kn_rule k u;
  list_addresses_law : ∀ k i l, kn_honest k → list_addresses k (Some i) = Ok l → ∀ n, kn_address k i n ↔ ∃ a, a ∈ l ∧ ad_network a = n;
  lists_no_panic : ∀ k i, kn_honest k → list_routes k None ≠ Panic ∧ list_rules k ≠ Panic ∧ list_addresses k (Some i) ≠ Panic
}.

(** ** The kernel in memory keeps them *)
Definition fake_stored fk (r : RouteSpec) : RouteSpec :=
  match normalise_target (fk_links fk) (rs_target r) with Ok t => mkRouteSpec (rs_destination r) (rs_table r) t | _ => r end.
Definition fake_address fk (i : Interface) (n : Ipv4Net) : Prop :=
  ∃ link, resolve_in (fk_links fk) i = Ok link ∧ mkAddressEntry (li_index link) n ∈ fk_addresses fk.
(** No failure that claims an absence is armed, nothing is there twice. *)
Definition fake_honest fk : Prop :=
  (∀ d e, fk_route_failures fk !! d = Some e → is_not_found e = false) ∧ NoDup (fk_rules fk) ∧ NoDup (fk_addresses fk) ∧
  ∀ key r, fk_routes fk !! key = Some r → rkey r = key.

Lemma normalise_hops_no_panic links seen hops : normalise_hops links seen hops ≠ Panic.
Proof.
  revert seen. induction hops as [|h hops IH]; intros seen; [done|]. cbn. unfold resolve_in.
  destruct (find _ _) as [l|]; cbn; [|done]. case_match; [done|]. specialize (IH (seen ++ [(nh_via h, li_index l)])). by destruct (normalise_hops _ _ _).
Qed.
Lemma normalise_no_panic links t : normalise_target links t ≠ Panic.
Proof.
  destruct t as [|via dev src|dev|hops]; cbn; unfold resolve_in; [done|by destruct (find _ _)..|].
  pose proof (normalise_hops_no_panic links [] hops). by destruct (normalise_hops _ _ _).
Qed.

(** Up to the change of the table a route operation only consumes a failure. *)
Lemma take_failure_spec fk d fk' o :
  take_failure fk d = (fk', o) → fake_honest fk →
  fake_honest fk' ∧ fk_links fk' = fk_links fk ∧ fk_addresses fk' = fk_addresses fk ∧ fk_routes fk' = fk_routes fk ∧ fk_rules fk' = fk_rules fk ∧
  match o with Ok _ => True | Err e => is_not_found e = false | Panic => False end.
Proof.
  unfold take_failure. intros Ht (Hf & Hr & Ha & Hk). destruct (fk_route_failures fk !! d) as [e|] eqn:E; injection Ht as <- <-; split_and!; try done; [|by eapply Hf].
  split_and!; try done. cbn. intros d' e' [_ Hd]%lookup_delete_Some. by eapply Hf.
Qed.

Lemma delete_once {A} (l : list A) (f : A → bool) p : position f l = Some p → ∃ x, l !! p = Some x ∧ f x = true.
Proof.
  revert p. induction l as [|y l IH]; intros p; [done|]. cbn. destruct (f y) eqn:E; [intros [= <-]; by exists y|].
  destruct (position f l) as [q|] eqn:Eq; [|done]. intros [= <-]. by apply IH.
Qed.
Lemma elem_of_delete_once {A} (l : list A) p x y : NoDup l → l !! p = Some x → y ∈ delete p l ↔ y ≠ x ∧ y ∈ l.
Proof.
  intros Hnd Hp. rewrite (delete_take_drop l p). pose proof (take_drop_middle l p x Hp) as Hl.
  assert (y ∈ l ↔ y ∈ take p l ∨ y = x ∨ y ∈ drop (S p) l) as Hy by (rewrite <- Hl at 1; by rewrite elem_of_app, elem_of_cons).
  rewrite <- Hl in Hnd. apply NoDup_app in Hnd as (_ & Hd & [Hx _]%NoDup_cons). rewrite elem_of_app, Hy. split.
  - intros Hin. split; [|tauto]. intros ->. destruct Hin as [Hin|Hin]; [by apply (Hd x Hin), list_elem_of_here|done].
  - tauto.
Qed.

Lemma NoDup_snoc {A} (l : list A) x : NoDup l → x ∉ l → NoDup (l ++ [x]).
Proof. intros Hl Hx. apply NoDup_app. split_and!; [done|set_solver|apply NoDup_singleton]. Qed.
Lemma NoDup_delete {A} (l : list A) p : NoDup l → NoDup (delete p l).
Proof. intros Hl. eapply sublist_NoDup; [done|]. apply sublist_delete. Qed.

Lemma fake_route_laws fk r fk' o :
  fake_honest fk → (fake_add_route fk r = (fk', o) ∨ fake_change_route fk r = (fk', o)) →
  fake_honest fk' ∧ fk_links fk' = fk_links fk ∧ fk_addresses fk' = fk_addresses fk ∧ fk_rules fk' = fk_rules fk ∧
  match o with
  | Ok _ => fk_routes fk' = <[rkey r := fake_stored fk r]> (fk_routes fk)
  | Err _ => fk_routes fk' = fk_routes fk
  | Panic => False
  end.
Proof.
  intros Hh Hop. unfold fake_add_route, fake_change_route, guard_table, validate_route, check_canonical in Hop.
  destruct (is_kernel_reserved_table _); [by destruct Hop as [[= <- <-]|[= <- <-]]|]. cbn in Hop. destruct (_ =? _)%Z; [|by destruct Hop as [[= <- <-]|[= <- <-]]]. cbn in Hop.
  pose proof (normalise_no_panic (fk_links fk) (rs_target r)) as Hnp. unfold fake_stored, rkey.
  destruct (normalise_target (fk_links fk) (rs_target r)) as [t|e|] eqn:Et; [|by destruct Hop as [[= <- <-]|[= <- <-]]|done]. cbn in Hop.
  destruct (take_failure fk (rs_destination r)) as [fk1 o1] eqn:Ef. destruct (take_failure_spec _ _ _ _ Ef Hh) as (Hh1 & Hl1 & Ha1 & Hr1 & Hu1 & Ho1).
  destruct o1 as [[]|e|]; [|by destruct Hop as [[= <- <-]|[= <- <-]]|done]. cbn in Hop.
  assert (∀ op, fake_honest (fk_with_routes fk1 (<[route_key (rs_table r) (rs_destination r) := mkRouteSpec (rs_destination r) (rs_table r) t]> (fk_routes fk1)) op)) as Hw.
  { intros op. destruct Hh1 as (? & ? & ? & Hk1). split_and!; try done. cbn. intros key r0 [[<- <-]|[_ Hx]]%lookup_insert_Some; [done|by apply Hk1]. }
  rewrite Hr1 in Hw. destruct Hop as [Hop|[= <- <-]].
  - destruct (fk_routes fk1 !! _) as [r0|] eqn:E0; injection Hop as <- <-; cbn; [by split_and!|]. rewrite Hr1. by split_and!.
  - cbn. rewrite Hr1. by split_and!.
Qed.

Lemma fake_add_absent fk r fk' : fake_add_route fk r = (fk', Ok tt) → fake_honest fk → fk_routes fk !! rkey r = None.
Proof.
  intros Hop Hh. unfold fake_add_route, guard_table, validate_route in Hop. case_match; [done|]. cbn in Hop. destruct (check_canonical _) as [[]|e|]; try done. cbn in Hop.
  destruct (normalise_target _ _) as [t|e|]; try done. cbn in Hop.
  destruct (take_failure fk (rs_destination r)) as [fk1 o1] eqn:Ef. destruct (take_failure_spec _ _ _ _ Ef Hh) as (_ & _ & _ & Hr1 & _).
  destruct o1 as [[]|e|]; try done. cbn in Hop. unfold rkey. rewrite <- Hr1. by destruct (fk_routes fk1 !! _).
Qed.

Lemma fake_remove_route_law fk key fk' o :
  fake_honest fk → fake_remove_route fk key = (fk', o) →
  fake_honest fk' ∧ fk_links fk' = fk_links fk ∧ fk_addresses fk' = fk_addresses fk ∧ fk_rules fk' = fk_rules fk ∧
  match o with
  | Ok _ => fk_routes fk' = delete (route_key (rk_table key) (rk_destination key)) (fk_routes fk)
  | Err e => fk_routes fk' = fk_routes fk ∧ (is_not_found e = true → fk_routes fk !! route_key (rk_table key) (rk_destination key) = None)
  | Panic => False
  end.
Proof.
  intros Hh Hop. unfold fake_remove_route, guard_table, check_canonical in Hop. destruct (is_kernel_reserved_table _); [by injection Hop as <- <-|]. cbn in Hop.
  destruct (_ =? _)%Z; [|by injection Hop as <- <-]. cbn in Hop.
  destruct (take_failure fk (rk_destination key)) as [fk1 o1] eqn:Ef. destruct (take_failure_spec _ _ _ _ Ef Hh) as (Hh1 & Hl1 & Ha1 & Hr1 & Hu1 & Ho1).
  destruct o1 as [[]|e|]; [|injection Hop as <- <-; split_and!; try done; congruence|done]. cbn in Hop.
  rewrite Hr1 in Hop. destruct (fk_routes fk !! _) as [r0|] eqn:E0; injection Hop as <- <-; cbn; split_and!; try done.
  destruct Hh1 as (? & ? & ? & Hk1). split_and!; try done. cbn. rewrite Hr1 in Hk1. intros key' r' [_ Hx]%lookup_delete_Some. by apply Hk1.
Qed.

Lemma fake_rule_laws fk u fk' o :
  fake_honest fk →
  (fake_add_rule fk u = (fk', o) →
    fake_honest fk' ∧ fk_links fk' = fk_links fk ∧ fk_addresses fk' = fk_addresses fk ∧ fk_routes fk' = fk_routes fk ∧
    match o with
    | Ok _ => ∀ v, v ∈ fk_rules fk' ↔ v = u ∨ v ∈ fk_rules fk
    | Err e => (∀ v, v ∈ fk_rules fk' ↔ v ∈ fk_rules fk) ∧ (is_already_exists e = true → u ∈ fk_rules fk)
    | Panic => False
    end) ∧
  (fake_remove_rule fk u = (fk', o) →
    fake_honest fk' ∧ fk_links fk' = fk_links fk ∧ fk_addresses fk' = fk_addresses fk ∧ fk_routes fk' = fk_routes fk ∧
    match o with
    | Ok _ => ∀ v, v ∈ fk_rules fk' ↔ v ≠ u ∧ v ∈ fk_rules fk
    | Err e => (∀ v, v ∈ fk_rules fk' ↔ v ∈ fk_rules fk) ∧ (is_not_found e = true → u ∉ fk_rules fk)
    | Panic => False
    end).
Proof.
  intros Hh. pose proof Hh as (Hf & Hr & Ha & Hk). unfold fake_honest, fake_add_rule, fake_remove_rule, guard_table.
  destruct (is_kernel_reserved_table (ru_table u)); cbn; [split; by intros [= <- <-]|]. split.
  - destruct (contains u (fk_rules fk)) eqn:E; unfold contains in E; intros [= <- <-].
    + apply bool_decide_eq_true in E. by split_and!.
    + apply bool_decide_eq_false in E. split_and!; try done; [by apply NoDup_snoc|]. intros v. cbn. rewrite elem_of_app, list_elem_of_singleton. tauto.
  - destruct (position _ _) as [p|] eqn:E; intros [= <- <-].
    + apply delete_once in E as (x & Hx & ->%bool_decide_eq_true). split_and!; try done; [by apply NoDup_delete|]. intros v. cbn. by apply elem_of_delete_once.
    + split_and!; try done. intros _ Hin. by apply (proj1 (position_None _ _) E), bool_decide_eq_false in Hin.
Qed.

Lemma fake_address_laws fk i n fk' o :
  fake_honest fk →
  (fake_add_address fk i n = (fk', o) →
    fake_honest fk' ∧ fk_links fk' = fk_links fk ∧ fk_rules fk' = fk_rules fk ∧ fk_routes fk' = fk_routes fk ∧
    match o with
    | Ok _ => fake_address fk' i n ∧ ∀ j m, m ≠ n → fake_address fk' j m ↔ fake_address fk j m
    | Err e => (∀ j m, fake_address fk' j m ↔ fake_address fk j m) ∧ (is_already_exists e = true → fake_address fk i n)
    | Panic => False
    end) ∧
  (fake_remove_address fk i n = (fk', o) →
    fake_honest fk' ∧ fk_links fk' = fk_links fk ∧ fk_rules fk' = fk_rules fk ∧ fk_routes fk' = fk_routes fk ∧
    match o with
    | Ok _ => ¬ fake_address fk' i n ∧ ∀ j m, m ≠ n → fake_address fk' j m ↔ fake_address fk j m
    | Err e => (∀ j m, fake_address fk' j m ↔ fake_address fk j m) ∧ (is_not_found e = true → ¬ fake_address fk i n)
    | Panic => False
    end).
Proof.
  intros Hh. pose proof Hh as (Hf & Hr & Ha & Hk). unfold fake_honest, fake_add_address, fake_remove_address, fake_address, resolve_in.
  destruct (find (link_matches i) (fk_links fk)) as [link|] eqn:El; cbn; [|split; by intros [= <- <-]]. split.
  - destruct (any _ _) eqn:E; intros [= <- <-].
    + apply any_true in E as ([ix nx] & Hin & [Hix%Z.eqb_eq Hnx%bool_decide_eq_true]%andb_true_iff). cbn in Hix, Hnx. subst ix nx. split_and!; try done. intros _. by exists link.
    + rewrite any_false in E. split_and!; try done; cbn; [apply NoDup_snoc; [done|]|rewrite El; exists link; split; [done|]; set_solver|].
      * intros Hin. specialize (E _ Hin). cbn in E. by rewrite Z.eqb_refl, bool_decide_true in E.
      * intros j m Hne. split; intros (l & Hl & Hin); (exists l; split; [done|]); [|set_solver].
        apply elem_of_app in Hin as [Hin|Hin%list_elem_of_singleton]; [done|]. injection Hin as _ ->. done.
  - destruct (position _ _) as [p|] eqn:E; intros [= <- <-].
    + apply delete_once in E as ([ix nx] & Hx & [Hix%Z.eqb_eq Hnx%bool_decide_eq_true]%andb_true_iff). cbn in Hix, Hnx. subst ix nx. split_and!; try done; cbn; [by apply NoDup_delete| |].
      * rewrite El. intros (l & [= <-] & Hin). by apply (elem_of_delete_once _ _ _ _ Ha Hx) in Hin as [[] _].
      * intros j m Hne. split; intros (l & Hl & Hin); (exists l; split; [done|]).
        -- by apply (elem_of_delete_once _ _ _ _ Ha Hx) in Hin as [_ Hin].
        -- apply (elem_of_delete_once _ _ _ _ Ha Hx). split; [|done]. intros [= _ ->]. done.
    + split_and!; try done. intros _ (l & [= <-] & Hin). apply (proj1 (position_None _ _) E) in Hin. cbn in Hin. by rewrite Z.eqb_refl, bool_decide_true in Hin.
Qed.

#[export, refine] Instance FakeLaws : KernelLaws FakeState := {|
  kn_routes := fk_routes; kn_rule fk u := u ∈ fk_rules fk; kn_address := fake_address; kn_stored := fake_stored; kn_honest := fake_honest
|}.
Proof.
  all: unfold fake_address; cbn.
  - intros fk r fk' o Hh Hop. destruct (fake_route_laws fk r fk' o Hh (or_introl Hop)) as (Hh' & Hl & Ha & Hu & Ho).
    unfold fake_stored at 1 2. rewrite Hl, Ha, Hu. split_and!; try done. destruct o as [[]|e|]; [|done..]. split; [by eapply fake_add_absent|done].
  - intros fk r fk' o Hh Hop. destruct (fake_route_laws fk r fk' o Hh (or_intror Hop)) as (Hh' & Hl & Ha & Hu & Ho).
    unfold fake_stored at 1 2. rewrite Hl, Ha, Hu. by split_and!.
  - intros fk key fk' o Hh Hop. destruct (fake_remove_route_law fk key fk' o Hh Hop) as (Hh' & Hl & Ha & Hu & Ho).
    unfold fake_stored at 1 2. rewrite Hl, Ha, Hu. by split_and!.
  - intros fk u fk' o Hh Hop. destruct (proj1 (fake_rule_laws fk u fk' o Hh) Hop) as (Hh' & Hl & Ha & Hu & Ho).
    unfold fake_stored at 1 2. rewrite Hl, Ha, Hu. by split_and!.
  - intros fk u fk' o Hh Hop. destruct (proj2 (fake_rule_laws fk u fk' o Hh) Hop) as (Hh' & Hl & Ha & Hu & Ho).
    unfold fake_stored at 1 2. rewrite Hl, Ha, Hu. by split_and!.
  - intros fk i n fk' o Hh Hop. destruct (proj1 (fake_address_laws fk i n fk' o Hh) Hop) as (Hh' & Hl & Hu & Hr & Ho). unfold fake_address in Ho.
    unfold fake_stored at 1 2. rewrite Hl, Hu, Hr in *. by split_and!.
  - intros fk i n fk' o Hh Hop. destruct (proj2 (fake_address_laws fk i n fk' o Hh) Hop) as (Hh' & Hl & Hu & Hr & Ho). unfold fake_address in Ho.
    unfold fake_stored at 1 2. rewrite Hl, Hu, Hr in *. by split_and!.
  - intros fk l (_ & _ & _ & Hk) [= <-]. setoid_rewrite elem_of_retain. setoid_rewrite list_elem_of_fmap. split.
    + intros key r Hr. exists r. split; [|by apply Hk]. split; [|done]. exists (key, r). split; [done|]. apply elem_of_sort_by. by apply elem_of_map_to_list.
    + intros r [([key r'] & -> & Hin%elem_of_sort_by%elem_of_map_to_list) _]. cbn. rewrite (Hk _ _ Hin). by eexists.
  - by intros fk l _ [= <-] u.
  - intros fk i l _ Hl n. unfold resolve_in in *. destruct (find _ _) as [link|]; [|done]. injection Hl as <-. split.
    + intros (l & [= <-] & Hin). exists (mkAddressEntry (li_index link) n). split; [|done]. apply elem_of_retain. split; [done|]. apply Z.eqb_refl.
    + intros ([ix n'] & [Hin Hix%Z.eqb_eq]%elem_of_retain & <-). cbn in *. subst ix. by exists link.
  - intros fk i _. split_and!; [done..|]. cbn. unfold resolve_in. by destruct (find _ _).
Defined.
