(* ===== verification/NetlinkProps.v ===== *)
(** * Tables and crash recovery

    Theorems on the [TableAllocator] of [table.rs] (a table and a priority have one owner
    at a time, and never one the kernel or the main identity uses) and on the sweep of
    [cleanup.rs] (after it the kernel holds exactly what is not Netsukuku's). *)
From stdpp Require Import strings.
From S2P Require Import Prelude Netlink KernelLaws.

(** ** The allocator *)
Section Allocator.
Context {O : Type} `{Countable O}.
Implicit Types t : TableAllocator O.

(** What can happen to an allocator. *)
Inductive allocator_from t0 : TableAllocator O → Prop :=
| af_start : allocator_from t0 t0
| af_acquire t owner : allocator_from t0 t → allocator_from t0 (acquire t owner).1
| af_incref t owner : allocator_from t0 t → allocator_from t0 (incref t owner).1
| af_decref t owner : allocator_from t0 t → allocator_from t0 (decref t owner).1
| af_release t owner : allocator_from t0 t → allocator_from t0 (release t owner).1.

Definition in_use {V} (f : Allocation → V) (m : gmap O Allocation) : list V := (f ∘ snd) <$> map_to_list m.

Lemma in_use_empty {V} (f : Allocation → V) : in_use f ∅ = [].
Proof. unfold in_use. by rewrite map_to_list_empty. Qed.
Lemma in_use_insert {V} (f : Allocation → V) m o a : m !! o = None → in_use f (<[o := a]> m) ≡ₚ f a :: in_use f m.
Proof. intros Hm. unfold in_use. by rewrite (map_to_list_insert _ _ _ Hm). Qed.
Lemma in_use_delete {V} (f : Allocation → V) m o a : m !! o = Some a → in_use f m ≡ₚ f a :: in_use f (delete o m).
Proof. intros Hm. unfold in_use. by rewrite <- (map_to_list_delete _ _ _ Hm). Qed.
Lemma in_use_update {V} (f : Allocation → V) m o a a' : m !! o = Some a → f a' = f a → in_use f (<[o := a']> m) ≡ₚ in_use f m.
Proof. intros Hm Hf. rewrite <- insert_delete_eq, in_use_insert by apply lookup_delete_eq. by rewrite (in_use_delete f m o a), Hf. Qed.
Lemma elem_of_in_use {V} (f : Allocation → V) m o a : m !! o = Some a → f a ∈ in_use f m.
Proof. intros Hm. rewrite (in_use_delete f m o a Hm). apply list_elem_of_here. Qed.
Lemma in_use_owner {V} (f : Allocation → V) m o o' a a' : NoDup (in_use f m) → m !! o = Some a → m !! o' = Some a' → f a = f a' → o = o'.
Proof.
  intros Hnd Ha Ha' Hf. destruct (decide (o = o')) as [|Hne]; [done|]. rewrite (in_use_delete f m o a Ha), NoDup_cons in Hnd. destruct Hnd as [Hno _].
  destruct Hno. rewrite Hf. apply (elem_of_in_use f (delete o m) o'). by rewrite lookup_delete_ne.
Qed.
Lemma length_in_use {V} (f : Allocation → V) (m : gmap O Allocation) : length (in_use f m) = size m.
Proof. unfold in_use. by rewrite length_fmap, length_map_to_list. Qed.

(** The free ids and the ids in use are those of the start. *)
Record conserved t0 t : Prop := {
  co_range : ta_peer_range t = ta_peer_range t0;
  co_main : ta_main_table t = ta_main_table t0;
  co_tables : ta_free_tables t ++ in_use al_table (ta_allocated t) ≡ₚ ta_free_tables t0 ++ in_use al_table (ta_allocated t0);
  co_priorities : ta_free_priorities t ++ in_use al_priority (ta_allocated t) ≡ₚ ta_free_priorities t0 ++ in_use al_priority (ta_allocated t0)
}.

Lemma add_ref_conserved t0 t owner d : conserved t0 t → conserved t0 (add_ref t owner d).1.
Proof.
  intros [Hr Hm Ht Hp]. unfold add_ref. destruct (ta_allocated t !! owner) as [a|] eqn:E; [|done]. destruct (_ && _); [|done].
  constructor; cbn; [done|done|by rewrite (in_use_update al_table _ _ a)|by rewrite (in_use_update al_priority _ _ a)].
Qed.

Lemma allocator_conserved t0 t : allocator_from t0 t → conserved t0 t.
Proof.
  induction 1 as [|t owner _ IH|t owner _ IH|t owner _ IH|t owner _ IH]; [done| |by apply add_ref_conserved..|].
  - unfold acquire. destruct (ta_allocated t !! owner) eqn:E; [done|]. pose proof IH as [Hr Hm Ht Hp].
    destruct (ta_free_tables t) as [|table tables] eqn:Et; [exact IH|]. destruct (ta_free_priorities t) as [|priority priorities] eqn:Ep; [by constructor; cbn; rewrite ?Et, ?Ep in *|].
    constructor; cbn; [done|done|..]; rewrite in_use_insert by done; cbn; rewrite <- Permutation_middle; done.
  - unfold release. destruct (ta_allocated t !! owner) as [a|] eqn:E; [|done]. destruct (0 <? _)%Z; [done|]. pose proof IH as [Hr Hm Ht Hp].
    constructor; cbn; [done|done|rewrite <- Ht, (in_use_delete al_table _ _ _ E)|rewrite <- Hp, (in_use_delete al_priority _ _ _ E)]; by rewrite Permutation_middle.
Qed.

Lemma with_range_Ok pr main prio t0 :
  (0 ≤ pr.1)%Z → (pr.2 ≤ U32_MAX)%Z → (0 ≤ prio ≤ U32_MAX)%Z → with_range pr main prio = Ok t0 →
  ta_peer_range t0 = pr ∧ ta_main_table t0 = main ∧ ta_allocated t0 = ∅ ∧ ta_free_tables t0 = range_inclusive pr ∧ (pr.1 ≤ pr.2)%Z ∧
  (∀ x, x ∈ main :: range_inclusive pr → is_kernel_reserved_table x = false) ∧ (main ∉ range_inclusive pr) ∧
  NoDup (ta_free_priorities t0) ∧ (∀ p, p ∈ ta_free_priorities t0 → (0 ≤ p < prio)%Z) ∧
  Z.of_nat (length (ta_free_priorities t0)) = Z.min prio (pr.2 - pr.1 + 1)%Z.
Proof.
  intros H0 H1 Hp. unfold with_range. destruct (Z.ltb_spec pr.2 pr.1) as [|Hle]; [done|]. destruct (is_kernel_reserved_table main) eqn:Em; [done|].
  destruct (find _ _) eqn:Ef; [done|]. destruct ((pr.1 <=? main)%Z && (main <=? pr.2)%Z) eqn:Ein; [done|]. intros [= <-]. cbn.
  assert (∀ x, x ∈ range_inclusive pr ↔ (pr.1 ≤ x ≤ pr.2)%Z) as Hin by (intros x; unfold range_inclusive; rewrite elem_of_seqZ; lia).
  assert (∀ x, x ∈ range_inclusive pr → is_kernel_reserved_table x = false) as Hres by (apply find_None_iff, Ef).
  assert (Z.of_nat (length (range_inclusive pr)) = (pr.2 - pr.1 + 1))%Z as Hlen by (unfold range_inclusive; rewrite length_seqZ; lia).
  assert (pr.1 ≠ 0)%Z as Hnz. { intros Hz. assert (is_kernel_reserved_table 0 = false) as Hx by (apply Hres, Hin; lia). done. }
  assert (u32_wrap (Z.of_nat (length (range_inclusive pr))) = pr.2 - pr.1 + 1)%Z as ->.
  { rewrite Hlen. unfold u32_wrap. apply Z.mod_small. unfold U32_MAX in *. lia. }
  split_and!; try done.
  - intros x [->|Hx]%elem_of_cons; [done|by apply Hres].
  - rewrite Hin. lia.
  - apply NoDup_seqZ.
  - intros p. rewrite elem_of_seqZ. lia.
  - rewrite length_seqZ. lia.
Qed.

Lemma table_of_Some t o tb p : table_of t o = Some (tb, p) → ∃ n, ta_allocated t !! o = Some (mkAllocation tb p n).
Proof. unfold table_of. destruct (ta_allocated t !! o) as [[tb' p' n]|]; [|done]. intros [= <- <-]. by exists n. Qed.

Section Started.
Variables (pr : Z * Z) (main prio : Z) (t0 t : TableAllocator O).
Hypotheses (H0 : (0 ≤ pr.1)%Z) (H1 : (pr.2 ≤ U32_MAX)%Z) (Hp : (0 ≤ prio ≤ U32_MAX)%Z) (Hw : with_range pr main prio = Ok t0) (Hfrom : allocator_from t0 t).

(** The ids of a fresh allocator are shared out. *)
Lemma pools_shared :
  ta_free_tables t ++ in_use al_table (ta_allocated t) ≡ₚ range_inclusive pr ∧
  ta_free_priorities t ++ in_use al_priority (ta_allocated t) ≡ₚ ta_free_priorities t0 ∧
  NoDup (in_use al_table (ta_allocated t)) ∧ NoDup (in_use al_priority (ta_allocated t)).
Proof.
  destruct (with_range_Ok pr main prio t0 H0 H1 Hp Hw) as (_ & _ & Hal & Hft & _ & _ & _ & Hnd & _).
  destruct (allocator_conserved t0 t Hfrom) as [_ _ Ct Cp]. rewrite Hal, in_use_empty, app_nil_r in Ct, Cp. rewrite Hft in Ct.
  assert (NoDup (range_inclusive pr)) as Hndr by apply NoDup_seqZ. rewrite <- Ct in Hndr. rewrite <- Cp in Hnd.
  apply NoDup_app in Hndr as (_ & _ & ?). apply NoDup_app in Hnd as (_ & _ & ?). done.
Qed.

Lemma table_of_inj o o' tb p tb' p' : table_of t o = Some (tb, p) → table_of t o' = Some (tb', p') → tb = tb' ∨ p = p' → o = o'.
Proof.
  destruct pools_shared as (_ & _ & Hndt & Hndp). intros (n & Ho)%table_of_Some (n' & Ho')%table_of_Some Heq.
  destruct Heq as [->| ->]; [by eapply (in_use_owner al_table (ta_allocated t))|by eapply (in_use_owner al_priority (ta_allocated t))].
Qed.
End Started.

(** One owner per table.  Whatever is acquired, referenced and released from a fresh
    allocator: two owners never share a table or a rule priority, a table in use is one of
    the peer range, never reserved by the kernel nor the main identity's, and its rule comes
    before the main identity's; an acquisition fails exactly when every table, or every
    priority, is in use by others; and a release succeeds exactly for an owner without
    references, whose table is the next one handed out. *)
Theorem tables_have_one_owner pr main prio t0 t :
  (0 ≤ pr.1)%Z → (pr.2 ≤ U32_MAX)%Z → (0 ≤ prio ≤ U32_MAX)%Z → with_range pr main prio = Ok t0 → allocator_from t0 t →
  (∀ o o' tb p tb' p', table_of t o = Some (tb, p) → table_of t o' = Some (tb', p') → tb = tb' ∨ p = p' → o = o') ∧
  (∀ o tb p, table_of t o = Some (tb, p) → owns_table t tb = true ∧ tb ≠ main ∧ is_kernel_reserved_table tb = false ∧ (0 ≤ p < prio)%Z) ∧
  (∀ o, (acquire t o).2 = Err TaExhausted ↔ table_of t o = None ∧ Z.of_nat (size (ta_allocated t)) = Z.min prio (pr.2 - pr.1 + 1)) ∧
  (∀ o, (acquire t o).2 ≠ Err TaExhausted → ∃ tb p, (acquire t o).2 = Ok (tb, p) ∧ table_of (acquire t o).1 o = Some (tb, p)) ∧
  (∀ o tb, (release t o).2 = Ok tb ↔ ∃ p n, ta_allocated t !! o = Some (mkAllocation tb p n) ∧ (n ≤ 0)%Z) ∧
  (∀ o o' tb, (release t o).2 = Ok tb → o' = o ∨ table_of t o' = None → ∃ p, (acquire (release t o).1 o').2 = Ok (tb, p)).
Proof.
  intros H0 H1 Hp Hw Hfrom. destruct (with_range_Ok pr main prio t0 H0 H1 Hp Hw) as (Hr & Hm & Hal & Hft & Hle & Hres & Hmain & Hnd & Hprio & Hlen).
  destruct (allocator_conserved t0 t Hfrom) as [Cr _ _ _]. destruct (pools_shared pr main prio t0 t H0 H1 Hp Hw Hfrom) as (Ct & Cp & _).
  assert (∀ tb, tb ∈ in_use al_table (ta_allocated t) → tb ∈ range_inclusive pr) as Hsub by (intros tb Htb; rewrite <- Ct, elem_of_app; by right).
  assert (∀ p, p ∈ in_use al_priority (ta_allocated t) → p ∈ ta_free_priorities t0) as Hsub' by (intros p Hx; rewrite <- Cp, elem_of_app; by right).
  pose proof (Permutation_length Ct) as Lt. pose proof (Permutation_length Cp) as Lp. rewrite !length_app, !length_in_use in Lt, Lp.
  assert (Z.of_nat (length (range_inclusive pr)) = (pr.2 - pr.1 + 1))%Z as Hlr by (unfold range_inclusive; rewrite length_seqZ; lia).
  split_and!.
  - intros o o' tb p tb' p'. by eapply table_of_inj.
  - intros o tb p (n & Ho)%table_of_Some. pose proof (Hsub tb (elem_of_in_use al_table _ o _ Ho)) as Hin. split_and!.
    + unfold owns_table. rewrite Cr, Hr. unfold range_inclusive in Hin. apply elem_of_seqZ in Hin. apply orb_true_iff. right. lia.
    + by intros ->.
    + apply Hres. by apply list_elem_of_further.
    + apply Hprio, Hsub', (elem_of_in_use al_priority _ o _ Ho).
    + apply Hprio, Hsub', (elem_of_in_use al_priority _ o _ Ho).
  - intros o. unfold acquire, table_of. destruct (ta_allocated t !! o); cbn; [naive_solver|]. destruct (ta_free_tables t) as [|tb l] eqn:Et; cbn in *; [split; [|done]; intros _; split; [done|lia]|].
    destruct (ta_free_priorities t) as [|q l'] eqn:Eq; cbn in *; (split; [|done || (intros [_ Hx]; lia)]); [intros _; split; [done|lia]|done].
  - intros o. unfold acquire, table_of. destruct (ta_allocated t !! o) as [a|] eqn:E; cbn; [intros _; exists (al_table a), (al_priority a); by rewrite E|].
    destruct (ta_free_tables t) as [|tb l]; cbn; [done|]. destruct (ta_free_priorities t) as [|q l']; cbn; [done|]. intros _. exists tb, q. by rewrite lookup_insert_eq.
  - intros o tb. unfold release. destruct (ta_allocated t !! o) as [[tb' p n]|]; cbn; [|naive_solver]. destruct (Z.ltb_spec 0 n); cbn; [naive_solver lia|]. split; [intros [= ->]; by exists p, n|naive_solver].
  - intros o o' tb. unfold release. destruct (ta_allocated t !! o) as [[tb' p n]|] eqn:E; cbn; [|done]. destruct (Z.ltb_spec 0 n); cbn; [done|]. intros [= ->] Ho. exists p.
    assert (delete o (ta_allocated t) !! o' = None) as Hno. { destruct Ho as [->|Ho]; [apply lookup_delete_eq|]. apply lookup_delete_None. right. unfold table_of in Ho. by destruct (ta_allocated t !! o'). }
    unfold acquire. cbn. by rewrite Hno.
Qed.
End Allocator.

(** ** Crash recovery *)
Section Cleanup.
Context {O : Type} `{Countable O, KernelLaws K}.
Implicit Types (k : K) (t : TableAllocator O).

(** What a kernel holds: routes, rules, and addresses on the loopback interface. *)
Inductive held := HeldRoute (key : Z * Z * Z) (r : RouteSpec) | HeldRule (u : RuleSpec) | HeldAddress (n : Ipv4Net).
Definition holds k (h : held) : Prop :=
  match h with HeldRoute key r => kn_routes k !! key = Some r | HeldRule u => kn_rule k u | HeldAddress n => kn_address k (IfName "lo") n end.

(** A removal of everything an entry names. *)
Section Sweep.
Context {X : Type} (remove : K → X → K * res NetlinkError unit) (hits : X → held → Prop).
Hypothesis remove_spec : ∀ k x k' o, kn_honest k → remove k x = (k', o) →
  kn_honest k' ∧ kn_stored k' = kn_stored k ∧
  match o with
  | Ok _ => ∀ h, holds k' h ↔ holds k h ∧ ¬ hits x h
  | Err e => (∀ h, holds k' h ↔ holds k h) ∧ (is_not_found e = true → ∀ h, hits x h → ¬ holds k h)
  | Panic => False
  end.

(** What a pass that ends (or stops at an error) has done to the kernel. *)
Definition swept k (l : list X) k' (all_gone : bool) : Prop :=
  kn_honest k' ∧ kn_stored k' = kn_stored k ∧ (∀ h, holds k' h → holds k h) ∧ (∀ h, holds k h → (∀ x, x ∈ l → ¬ hits x h) → holds k' h) ∧
  (all_gone = true → ∀ h x, x ∈ l → hits x h → ¬ holds k' h).

Lemma sweep_loop l acc k k' o :
  kn_honest k → foldS (sweep_one remove (λ l x, l ++ [x])) k acc l = (k', o) → o ≠ Panic ∧ swept k l k' (match o with Ok _ => true | _ => false end).
Proof.
  revert acc k. induction l as [|x l IH]; intros acc k Hh; cbn [foldS].
  { intros [= <- <-]. split; [done|]. split_and!; try done. intros _ h x Hin. by apply elem_of_nil in Hin. }
  unfold sweep_one at 1. destruct (remove k x) as [k1 o1] eqn:E. destruct (remove_spec _ _ _ _ Hh E) as (Hh1 & Hst1 & Hlaw).
  assert ((∀ h, holds k1 h ↔ holds k h ∧ ¬ hits x h) → ∀ acc1, foldS (sweep_one remove (λ l x, l ++ [x])) k1 acc1 l = (k', o) →
    o ≠ Panic ∧ swept k (x :: l) k' (match o with Ok _ => true | _ => false end)) as Hgo.
  { intros Hgone acc1 Hrest. destruct (IH acc1 k1 Hh1 Hrest) as (Hnp & A & B & C & D & F). split; [done|]. split_and!; [done|congruence|intros h Hx; by apply Hgone, C|..].
    - intros h Hk Hno. apply D; [apply Hgone; split; [done|]; apply Hno, list_elem_of_here|]. intros y Hy. apply Hno. by apply list_elem_of_further.
    - intros Hok h y [->|Hy]%elem_of_cons Hhit Hk; [by apply C, Hgone in Hk as [_ Hk]|by apply (F Hok h y)]. }
  destruct o1 as [[]|e|]; [by apply Hgo| |done]. destruct (is_not_found e) eqn:En.
  - apply Hgo. intros h. destruct Hlaw as [Hsame Habs]. rewrite Hsame. naive_solver.
  - intros [= <- <-]. destruct Hlaw as [Hsame _]. split; [done|]. split_and!; try done; intros h; [apply Hsame|]. intros Hk _. by apply Hsame.
Qed.
End Sweep.

Lemma remove_address_hits k (a : AddressEntry) k' o :
  kn_honest k → remove_address k (IfName "lo") (ad_network a) = (k', o) →
  kn_honest k' ∧ kn_stored k' = kn_stored k ∧
  match o with
  | Ok _ => ∀ h, holds k' h ↔ holds k h ∧ ¬ h = HeldAddress (ad_network a)
  | Err e => (∀ h, holds k' h ↔ holds k h) ∧ (is_not_found e = true → ∀ h, h = HeldAddress (ad_network a) → ¬ holds k h)
  | Panic => False
  end.
Proof.
  intros Hh E. destruct (remove_address_law _ _ _ _ _ Hh E) as (Hh' & Hst & Hr & Hu & Hlaw). split_and!; [done..|].
  destruct o as [[]|e|]; [| |done].
  - intros [key r|u|n]; cbn; [rewrite Hr; naive_solver|rewrite Hu; naive_solver|]. destruct (decide (n = ad_network a)) as [->|Hne]; [naive_solver|].
    rewrite (proj2 Hlaw) by done. naive_solver.
  - split; [intros [key r|u|n]; cbn; [by rewrite Hr|by rewrite Hu|apply Hlaw]|]. intros He h ->. by apply Hlaw.
Qed.
Lemma remove_route_hits k (key : RouteKey) k' o :
  kn_honest k → remove_route k key = (k', o) →
  kn_honest k' ∧ kn_stored k' = kn_stored k ∧
  match o with
  | Ok _ => ∀ h, holds k' h ↔ holds k h ∧ ¬ ∃ r, h = HeldRoute (route_key (rk_table key) (rk_destination key)) r
  | Err e => (∀ h, holds k' h ↔ holds k h) ∧ (is_not_found e = true → ∀ h, (∃ r, h = HeldRoute (route_key (rk_table key) (rk_destination key)) r) → ¬ holds k h)
  | Panic => False
  end.
Proof.
  intros Hh E. destruct (remove_route_law _ _ _ _ Hh E) as (Hh' & Hst & Hu & Ha & Hlaw). split_and!; [done..|].
  destruct o as [[]|e|]; [| |done].
  - intros [key' r|u|n]; cbn; [|rewrite Hu; naive_solver|rewrite Ha; naive_solver]. rewrite Hlaw, lookup_delete_Some. naive_solver.
  - destruct Hlaw as [Hr Habs]. split; [intros [key' r|u|n]; cbn; [by rewrite Hr|apply Hu|apply Ha]|]. intros He h [r ->]. cbn. by rewrite Habs.
Qed.
Lemma remove_rule_hits k (u : RuleSpec) k' o :
  kn_honest k → remove_rule k u = (k', o) →
  kn_honest k' ∧ kn_stored k' = kn_stored k ∧
  match o with
  | Ok _ => ∀ h, holds k' h ↔ holds k h ∧ ¬ h = HeldRule u
  | Err e => (∀ h, holds k' h ↔ holds k h) ∧ (is_not_found e = true → ∀ h, h = HeldRule u → ¬ holds k h)
  | Panic => False
  end.
Proof.
  intros Hh E. destruct (remove_rule_law _ _ _ _ Hh E) as (Hh' & Hst & Hr & Ha & Hlaw). split_and!; [done..|].
  destruct o as [[]|e|]; [| |done].
  - intros [key' r|v|n]; cbn; [rewrite Hr; naive_solver|rewrite Hlaw; naive_solver|rewrite Ha; naive_solver].
  - split; [intros [key' r|v|n]; cbn; [by rewrite Hr|apply Hlaw|apply Ha]|]. intros He h ->. by apply Hlaw.
Qed.

(** What is Netsukuku's. *)
Definition netsukuku t (h : held) : Prop :=
  match h with
  | HeldRoute key _ => owns_table t key.1.1 = true
  | HeldRule u => owns_table t (ru_table u) = true
  | HeldAddress n => (in_prefix_len n =? 32)%Z && net_contains NETSUKUKU_ADDRESS_SPACE (in_address n) = true
  end.

Lemma netsukuku_addresses k l t h :
  kn_honest k → list_addresses k (Some (IfName "lo")) = Ok l →
  (∀ a, a ∈ retain is_identity_address l → h = HeldAddress (ad_network a) → netsukuku t h) ∧
  (holds k h → netsukuku t h → (∃ n, h = HeldAddress n) → ∃ a, a ∈ retain is_identity_address l ∧ h = HeldAddress (ad_network a)).
Proof.
  intros Hh Hl. split.
  - intros a [_ Ha]%elem_of_retain ->. done.
  - intros Hk Hn [n ->]. apply (list_addresses_law _ _ _ Hh Hl) in Hk as (a & Ha & <-). exists a. split; [|done]. by apply elem_of_retain.
Qed.
Lemma netsukuku_routes k l t h :
  kn_honest k → list_routes k None = Ok l →
  (∀ key, key ∈ key_of <$> retain (λ r, owns_table t (rs_table r)) l → (∃ r, h = HeldRoute (route_key (rk_table key) (rk_destination key)) r) → netsukuku t h) ∧
  (holds k h → netsukuku t h → (∃ key r, h = HeldRoute key r) →
    ∃ key, key ∈ key_of <$> retain (λ r, owns_table t (rs_table r)) l ∧ ∃ r, h = HeldRoute (route_key (rk_table key) (rk_destination key)) r).
Proof.
  intros Hh Hl. split.
  - intros key (r & -> & [_ Hr]%elem_of_retain)%list_elem_of_fmap [r' ->]. done.
  - intros Hk Hn (key & r & ->). destruct (proj1 (list_routes_law _ _ Hh Hl) key r Hk) as (r' & Hin & <-). exists (key_of r'). split; [|by exists r].
    apply list_elem_of_fmap. exists r'. split; [done|]. by apply elem_of_retain.
Qed.

(** The sweep, over any kernel that keeps its promises. *)
Lemma cleanup_spec k t k' o :
  kn_honest k → cleanup k t = (k', o) →
  o ≠ Panic ∧ kn_honest k' ∧ kn_stored k' = kn_stored k ∧ (∀ h, holds k' h → holds k h) ∧ (∀ h, holds k h → ¬ netsukuku t h → holds k' h) ∧
  (∀ report, o = Ok report → ∀ h, holds k' h ↔ holds k h ∧ ¬ netsukuku t h).
Proof.
  intros Hh. unfold cleanup. cbn [sbind]. destruct (lists_no_panic k (IfName "lo") Hh) as (_ & _ & Np1).
  destruct (list_addresses k (Some (IfName "lo"))) as [l1|e|] eqn:E1; [|cbn [sbind]; intros [= <- <-]; by split_and!|done].
  cbn [sbind]. match goal with |- context [foldS ?f k [] ?l] => destruct (foldS f k [] l) as [k1 o1] eqn:F1 end. destruct (sweep_loop _ _ remove_address_hits _ _ _ _ _ Hh F1) as (P1 & A1 & B1 & C1 & D1 & G1).
  assert (∀ h, holds k h → ¬ netsukuku t h → holds k1 h) as Keep1.
  { intros h Hk Hn. apply D1; [done|]. intros a Ha ->. by apply Hn, (proj1 (netsukuku_addresses k l1 t _ Hh E1) a Ha). }
  destruct o1 as [s1|e|]; [|cbn [sbind]; intros [= <- <-]; by split_and!|done]. specialize (G1 eq_refl). destruct (lists_no_panic k1 (IfName "lo") A1) as (Np2 & _ & _).
  cbn [sbind]. destruct (list_routes k1 None) as [l2|e|] eqn:E2; [|cbn [sbind]; intros [= <- <-]; by split_and!|done].
  cbn [sbind]. match goal with |- context [foldS ?f k1 [] ?l] => destruct (foldS f k1 [] l) as [k2 o2] eqn:F2 end. destruct (sweep_loop _ _ remove_route_hits _ _ _ _ _ A1 F2) as (P2 & A2 & B2 & C2 & D2 & G2).
  assert (∀ h, holds k h → ¬ netsukuku t h → holds k2 h) as Keep2.
  { intros h Hk Hn. apply D2; [by apply Keep1|]. intros key Hkey Hhit. by apply Hn, (proj1 (netsukuku_routes k1 l2 t h A1 E2) key Hkey). }
  assert (kn_stored k2 = kn_stored k) as Bk2 by congruence. assert (∀ h, holds k2 h → holds k h) as Ck2 by auto.
  destruct o2 as [s2|e|]; [|cbn [sbind]; intros [= <- <-]; by split_and!|done]. specialize (G2 eq_refl). destruct (lists_no_panic k2 (IfName "lo") A2) as (_ & Np3 & _).
  cbn [sbind]. destruct (list_rules k2) as [l3|e|] eqn:E3; [|cbn [sbind]; intros [= <- <-]; by split_and!|done].
  cbn [sbind]. match goal with |- context [foldS ?f k2 [] ?l] => destruct (foldS f k2 [] l) as [k3 o3] eqn:F3 end. destruct (sweep_loop _ _ remove_rule_hits _ _ _ _ _ A2 F3) as (P3 & A3 & B3 & C3 & D3 & G3).
  assert (∀ h, holds k h → ¬ netsukuku t h → holds k3 h) as Keep3.
  { intros h Hk Hn. apply D3; [by apply Keep2|]. intros u [_ Hu]%elem_of_retain ->. by apply Hn. }
  assert (kn_stored k3 = kn_stored k) as Bk3 by congruence. assert (∀ h, holds k3 h → holds k h) as Ck3 by auto.
  destruct o3 as [s3|e|]; [|cbn [sbind]; intros [= <- <-]; by split_and!|done]. specialize (G3 eq_refl). cbn [sbind]. intros [= <- <-]. split_and!; try done.
  intros report _ h. split; [|intros [? ?]; by apply Keep3]. intros Hk. split; [by auto|]. intros Hn. destruct h as [key r|u|n].
  - destruct (proj2 (netsukuku_routes k1 l2 t (HeldRoute key r) A1 E2)) as (x & Hx & Hhit); [by apply C2, C3|done|by eexists _, _|]. by apply (G2 _ x Hx Hhit), C3.
  - apply (G3 (HeldRule u) u); [|done|done]. apply elem_of_retain. split; [|done]. apply (list_rules_law _ _ A2 E3). by apply C3 in Hk.
  - destruct (proj2 (netsukuku_addresses k l1 t (HeldAddress n) Hh E1)) as (x & Hx & Hhit); [by apply C1, C2, C3|done|by eexists|]. by apply (G1 _ x Hx Hhit), C2, C3.
Qed.
End Cleanup.

(** ** Witnesses, and the two pools of different length *)

(** The priorities are the slots below the main rule's, of which there may be fewer than
    tables: then an acquisition finds no priority while a table is free. *)
Theorem priorities_can_run_out :
  ∃ t0 : TableAllocator nat, with_range (200, 202)%Z 251 2 = Ok t0 ∧
    (acquire (acquire (acquire t0 1).1 2).1 3).2 = Err TaExhausted ∧ ta_free_tables (acquire (acquire (acquire t0 1).1 2).1 3).1 = [202]%Z.
Proof. eexists. split_and!; vm_compute; reflexivity. Qed.

Lemma tables_have_one_owner_witness :
  ∃ t0 : TableAllocator nat, with_range (200, 202)%Z 251 10000 = Ok t0 ∧
    ∃ p, (acquire (release (acquire (acquire t0 1).1 2).1 1).1 5).2 = Ok (200%Z, p).
Proof.
  eexists. split; [vm_compute; reflexivity|]. match goal with |- context [acquire (acquire ?t 1).1 2] => set (t0 := t) end.
  destruct (tables_have_one_owner (200, 202)%Z 251 10000 t0 (acquire (acquire t0 1).1 2).1) as (_ & _ & _ & _ & _ & Hnext).
  - vm_compute. discriminate.
  - vm_compute. discriminate.
  - vm_compute. split; discriminate.
  - vm_compute. reflexivity.
  - apply af_acquire, af_acquire, af_start.
  - apply (Hnext 1 5); [vm_compute; reflexivity|]. right. vm_compute. reflexivity.
Defined.
