(* ===== verification/KernelAddr.v ===== *)
(** * Addresses of nodes and g-nodes

    Models [crates/ntkd/src/kernel/addressing.rs]: how positions are packed into an
    address of [10.0.0.0/8] and a g-node into a network; and what the packing means: a
    node is in the network of a g-node exactly when it is in the g-node. *)
From S2P Require Import Prelude Addressing Netlink.

Definition KIND_GLOBAL : Z := 0.

Inductive AddressingError :=
  | AdLevelOutOfRange (level levels : nat)
  | AdTopologyTooWide (needed : Z)
  | AdPositionOutOfRange (level : nat) (pos gsize : Z).

(** [u32::leading_zeros], on a [u32]. *)
Definition leading_zeros (z : Z) : Z := if (z =? 0)%Z then 32%Z else (31 - Z.log2 z)%Z.
Definition level_bits (gsize : Z) : Z := (32 - leading_zeros (Z.max 0 (gsize - 1)))%Z.

(** [sum] adds as [u32]s. *)
Definition total_bits (t : Topology) : res AddressingError Z :=
  needed ← foldM (λ acc g, u32_add acc (level_bits g)) 0%Z (gsizes t);
  sum ← u32_add needed 2;
  if (24 <? sum)%Z then Err (AdTopologyTooWide needed) else Ok needed.
Definition check_topology_fits (t : Topology) : res AddressingError unit := _ ← total_bits t; Ok tt.

(** [<<] on [u32]: a shift by the width or more panics, bits shifted out are lost. *)
Definition u32_shl {E} (a n : Z) : res E Z := if (n <? 32)%Z then Ok (u32_wrap (Z.shiftl a n)) else Panic.

Definition pack_step (t : Topology) (zero_below : nat) (positions : nat → option Z) (st : Z * Z) (level : nat) : res AddressingError (Z * Z) :=
  let '(acc, zeroed) := st in
  gsize ← expect (topology_gsize t level);
  let bits := level_bits gsize in
  value ← (if level <? zero_below then Ok 0%Z
           else
             value ← expect (positions level);
             if (gsize <=? value)%Z then Err (AdPositionOutOfRange level value gsize) else Ok value);
  shifted ← u32_shl acc bits;
  zeroed' ← (if level <? zero_below then u32_add zeroed bits else Ok zeroed);
  Ok (Z.lor shifted value, zeroed').
Definition pack (t : Topology) (kind : Z) (zero_below : nat) (positions : nat → option Z) : res AddressingError (Z * Z) :=
  _ ← total_bits t;
  '(acc, zeroed) ← foldM (pack_step t zero_below positions) (kind, 0%Z) (rev (seq 0 (topology_levels t)));
  let address := ipv4_new 10 (as_u8 (Z.shiftr acc 16)) (as_u8 (Z.shiftr acc 8)) (as_u8 acc) in
  if (32 <? zeroed)%Z then Panic else Ok (address, (32 - zeroed)%Z).

Definition host_address (naddr : Naddr) : res AddressingError Ipv4Net :=
  '(address, _) ← pack (na_topology naddr) KIND_GLOBAL 0 (naddr_pos naddr);
  Ok (ipv4_net_host address).

Definition gnode_destination (my_naddr : Naddr) (hc : HCoord) : res AddressingError Ipv4Net :=
  let levels := topology_levels (na_topology my_naddr) in
  if levels <=? hc_level hc then Err (AdLevelOutOfRange (hc_level hc) levels)
  else
    '(address, prefix) ← pack (na_topology my_naddr) KIND_GLOBAL (hc_level hc)
      (λ level, if level =? hc_level hc then Some (hc_pos hc) else naddr_pos my_naddr level);
    unwrap (ipv4_net_new address prefix).

(** ** What [pack] computes *)

(** Positions, innermost level first, as one number. *)
Fixpoint enc (gs vs : list Z) : Z :=
  match gs, vs with
  | g :: gs, v :: vs => (v + 2 ^ level_bits g * enc gs vs)%Z
  | _, _ => 0%Z
  end.
Fixpoint width (gs : list Z) : Z := match gs with [] => 0%Z | g :: gs => (level_bits g + width gs)%Z end.

Lemma level_bits_spec g : (0 < g ≤ U32_MAX)%Z → (0 ≤ level_bits g ≤ 32 ∧ g ≤ 2 ^ level_bits g)%Z.
Proof.
  intros Hg. unfold level_bits, leading_zeros. rewrite Z.max_r by lia. destruct (Z.eqb_spec (g - 1) 0) as [Hz|Hne]; [split; [lia|]; cbn; lia|].
  assert (0 < g - 1 < 2 ^ 32)%Z as Hb by (unfold U32_MAX in *; lia).
  pose proof (Z.log2_nonneg (g - 1)). pose proof (proj1 (Z.log2_lt_pow2 (g - 1) 32 ltac:(lia)) (proj2 Hb)).
  pose proof (Z.log2_spec (g - 1) ltac:(lia)) as [_ Hl]. replace (32 - (31 - Z.log2 (g - 1)))%Z with (Z.succ (Z.log2 (g - 1))) by lia. lia.
Qed.

Lemma width_app gs gs' : width (gs ++ gs') = (width gs + width gs')%Z.
Proof. induction gs as [|g gs IH]; [done|]. cbn. rewrite IH. lia. Qed.
Lemma width_nonneg gs : Forall (λ g, 0 < g ≤ U32_MAX)%Z gs → (0 ≤ width gs)%Z.
Proof. induction 1 as [|g gs Hg _ IH]; [done|]. cbn. pose proof (level_bits_spec g Hg). lia. Qed.

Lemma enc_bounds gs vs :
  Forall (λ g, 0 < g ≤ U32_MAX)%Z gs → Forall2 (λ v g, 0 ≤ v < g)%Z vs gs → (0 ≤ enc gs vs < 2 ^ width gs)%Z.
Proof.
  intros Hgs Hv. revert Hgs. induction Hv as [|v g vs gs Hv _ IH]; intros Hgs; [done|]. apply Forall_cons in Hgs as [Hg Hgs].
  specialize (IH Hgs). destruct (level_bits_spec g Hg) as [Hb Hp]. pose proof (width_nonneg gs Hgs). cbn. rewrite Z.pow_add_r by lia. nia.
Qed.

Lemma enc_inj gs vs ws :
  Forall (λ g, 0 < g ≤ U32_MAX)%Z gs → Forall2 (λ v g, 0 ≤ v < g)%Z vs gs → Forall2 (λ v g, 0 ≤ v < g)%Z ws gs →
  enc gs vs = enc gs ws → vs = ws.
Proof.
  intros Hgs Hv. revert ws Hgs. induction Hv as [|v g vs gs Hv _ IH]; intros ws Hgs Hw He; [by inversion Hw|].
  apply Forall_cons in Hgs as [Hg Hgs]. inversion Hw as [|w g' ws' gs' Hwg Hws]; subst. cbn in He. destruct (level_bits_spec g Hg) as [Hb Hp].
  assert (v = w ∧ enc gs vs = enc gs ws') as [-> Heq]; [|f_equal; by apply IH].
  assert ((enc gs vs * 2 ^ level_bits g + v) mod 2 ^ level_bits g = (enc gs ws' * 2 ^ level_bits g + w) mod 2 ^ level_bits g)%Z as Hm by (f_equal; lia).
  rewrite !(Z.add_comm (_ * _)), !Z.mod_add, !Z.mod_small in Hm by lia. split; [done|]. nia.
Qed.

(** The positions from a level up are the high digits. *)
Lemma enc_drop gs vs n :
  Forall (λ g, 0 < g ≤ U32_MAX)%Z gs → Forall2 (λ v g, 0 ≤ v < g)%Z vs gs →
  (enc gs vs / 2 ^ width (take n gs) = enc (drop n gs) (drop n vs))%Z.
Proof.
  intros Hgs Hv. revert n Hgs. induction Hv as [|v g vs gs Hv _ IH]; intros n Hgs; [by destruct n|]. apply Forall_cons in Hgs as [Hg Hgs].
  destruct n as [|n]; [cbn -[enc]; by rewrite Z.div_1_r|]. cbn. destruct (level_bits_spec g Hg) as [Hb Hp].
  assert (0 ≤ width (take n gs))%Z by (apply width_nonneg; by apply Forall_take). rewrite Z.pow_add_r by lia.
  rewrite <- Z.div_div by lia. rewrite Z.mul_comm, Z.div_add, (Z.div_small v), Z.add_0_l by lia. by apply IH.
Qed.

(** ** The loop *)
Lemma lor_shifted a v n : (0 ≤ n)%Z → (0 ≤ v < 2 ^ n)%Z → Z.lor (Z.shiftl a n) v = (a * 2 ^ n + v)%Z.
Proof.
  intros Hn Hv. assert (Z.land (Z.shiftl a n) v = 0)%Z as Hd.
  { apply Z.bits_inj'. intros i Hi. rewrite Z.land_spec, Z.bits_0. destruct (Z.lt_ge_cases i n) as [Hlt|Hge].
    - by rewrite Z.shiftl_spec_low.
    - rewrite <- (Z.mod_small v (2 ^ n)) by done. by rewrite Z.mod_pow2_bits_high, andb_false_r by lia. }
  rewrite <- Z.lxor_lor, <- Z.add_nocarry_lxor, Z.shiftl_mul_pow2 by done. done.
Qed.

Lemma sum_bits gs a :
  Forall (λ g, 0 < g ≤ U32_MAX)%Z gs → (0 ≤ a)%Z → (a + width gs ≤ U32_MAX)%Z →
  foldM (E := AddressingError) (λ acc g, u32_add acc (level_bits g)) a gs = Ok (a + width gs)%Z.
Proof.
  intros Hgs. revert a. induction Hgs as [|g gs Hg Hgs IH]; intros a Ha Hs; cbn; [by rewrite Z.add_0_r|]. cbn in Hs.
  pose proof (level_bits_spec g Hg). pose proof (width_nonneg gs Hgs). unfold u32_add. rewrite (proj2 (Z.leb_le _ _)) by lia. cbn.
  rewrite IH by lia. f_equal. lia.
Qed.

(** The sizes a topology may have: the bits of its positions are counted in 32 bits. *)
Definition countable_bits (t : Topology) : Prop := (width (gsizes t) + 2 ≤ U32_MAX)%Z.
(** The positions fit beside the kind in the 24 bits of [10.0.0.0/8]. *)
Definition fits (t : Topology) : Prop := (width (gsizes t) ≤ 22)%Z.

Lemma total_bits_exact t :
  topology_wf t → countable_bits t →
  total_bits t = if (22 <? width (gsizes t))%Z then Err (AdTopologyTooWide (width (gsizes t))) else Ok (width (gsizes t)).
Proof.
  intros [_ Hgs] Hc. unfold total_bits, countable_bits in *. rewrite sum_bits, Z.add_0_l by (done || lia). cbn [mbind res_bind].
  unfold u32_add. rewrite (proj2 (Z.leb_le _ _)) by lia. cbn [mbind res_bind]. destruct (Z.ltb_spec 22 (width (gsizes t))), (Z.ltb_spec 24 (width (gsizes t) + 2)); (done || lia).
Qed.

Lemma fits_total_bits t : topology_wf t → fits t → total_bits t = Ok (width (gsizes t)).
Proof.
  intros Hw Hf. unfold fits in Hf. rewrite total_bits_exact; [|done|unfold countable_bits, U32_MAX; lia]. by rewrite (proj2 (Z.ltb_ge _ _)).
Qed.

Lemma width_part gs : Forall (λ g, 0 < g ≤ U32_MAX)%Z gs → ∀ n, (0 ≤ width (drop n gs) ≤ width gs)%Z ∧ (0 ≤ width (take n gs) ≤ width gs)%Z.
Proof.
  intros Hgs n. assert (width gs = width (take n gs) + width (drop n gs))%Z by (by rewrite <- width_app, take_drop).
  pose proof (width_nonneg (take n gs) (Forall_take _ _ _ Hgs)). pose proof (width_nonneg (drop n gs) (Forall_drop _ _ _ Hgs)). lia.
Qed.

Section Loop.
Variables (t : Topology) (zero_below : nat) (vals : list Z) (positions : nat → option Z).
Hypotheses (Hw : topology_wf t) (Hfit : fits t).
Hypotheses (Hz : zero_below ≤ topology_levels t) (Hlen : length vals = topology_levels t).

(** The values packed: wildcards below, positions from [zero_below] up. *)
Definition masked : list Z := replicate zero_below 0%Z ++ drop zero_below vals.

Lemma masked_lookup l : l < topology_levels t → masked !! l = if l <? zero_below then Some 0%Z else vals !! l.
Proof.
  intros Hl. unfold masked. destruct (Nat.ltb_spec l zero_below) as [Hlt|Hge].
  - rewrite lookup_app_l by (rewrite length_replicate; lia). by apply lookup_replicate_2.
  - rewrite lookup_app_r, length_replicate, lookup_drop by (rewrite length_replicate; lia). f_equal. lia.
Qed.

Hypothesis (Hpos : ∀ l, zero_below ≤ l → positions l = vals !! l).

Lemma pack_step_exact level :
  level < topology_levels t →
  (∀ v g, zero_below ≤ level → vals !! level = Some v → gsizes t !! level = Some g → (0 ≤ v < g)%Z) →
  (0 ≤ enc (drop (S level) (gsizes t)) (drop (S level) masked) < 2 ^ width (drop (S level) (gsizes t)))%Z →
  pack_step t zero_below positions (enc (drop (S level) (gsizes t)) (drop (S level) masked), width (drop (S level) (take zero_below (gsizes t)))) level =
    Ok (enc (drop level (gsizes t)) (drop level masked), width (drop level (take zero_below (gsizes t)))).
Proof.
  intros Hl Hv Hacc. destruct Hw as [_ Hgs]. destruct (gsize_is_Some t level Hl) as [g Hg]. unfold topology_gsize in Hg.
  assert (∃ v, masked !! level = Some v ∧ (0 ≤ v < g)%Z ∧ (if level <? zero_below then v = 0%Z else vals !! level = Some v)) as (v & Hm & Hb & Hcase).
  { destruct (lookup_lt_is_Some_2 vals level) as [v0 Hv0]; [lia|].
    pose proof (proj1 (Forall_lookup _ _) Hgs _ _ Hg) as Hpos'. cbn in Hpos'.
    rewrite masked_lookup by done. destruct (Nat.ltb_spec level zero_below) as [Hlt|Hge]; [exists 0%Z; split_and!; lia || done|].
    exists v0. split_and!; try done; by apply (Hv v0 g). }
  pose proof (proj1 (Forall_lookup _ _) Hgs _ _ Hg) as Hg'. cbn in Hg'. destruct (level_bits_spec g Hg') as [Hbits Hpow].
  assert (width (drop level (gsizes t)) = (level_bits g + width (drop (S level) (gsizes t)))%Z) as Hwd by (rewrite (drop_S _ _ _ Hg); done).
  destruct (width_part _ Hgs level) as [[_ Hle] _]. destruct (width_part _ Hgs (S level)) as [[Hge0 _] _]. unfold fits in Hfit.
  unfold pack_step, topology_gsize. rewrite Hg. cbn [expect mbind res_bind].
  assert ((if level <? zero_below then Ok 0%Z else value ← expect (positions level); (if (g <=? value)%Z then Err (AdPositionOutOfRange level value g) else Ok value)) = Ok v) as ->.
  { destruct (Nat.ltb_spec level zero_below) as [Hlt|Hge]; [by subst|]. rewrite Hpos by done. rewrite Hcase. cbn. by rewrite (proj2 (Z.leb_gt _ _)) by lia. }
  cbn [mbind res_bind]. unfold u32_shl. rewrite (proj2 (Z.ltb_lt _ _)) by lia. cbn [mbind res_bind].
  assert (2 ^ (level_bits g + width (drop (S level) (gsizes t))) ≤ 2 ^ 22)%Z as Hsmall by (apply Z.pow_le_mono_r; lia).
  rewrite Z.pow_add_r in Hsmall by lia.
  assert (u32_wrap (Z.shiftl (enc (drop (S level) (gsizes t)) (drop (S level) masked)) (level_bits g)) = Z.shiftl (enc (drop (S level) (gsizes t)) (drop (S level) masked)) (level_bits g)) as ->.
  { unfold u32_wrap. rewrite Z.shiftl_mul_pow2 by lia. apply Z.mod_small. nia. }
  rewrite lor_shifted by lia. rewrite (drop_S masked v level Hm), (drop_S (gsizes t) g level Hg). cbn [enc].
  assert ((if level <? zero_below then u32_add (width (drop (S level) (take zero_below (gsizes t)))) (level_bits g)
           else Ok (width (drop (S level) (take zero_below (gsizes t))))) = Ok (E := AddressingError) (width (drop level (take zero_below (gsizes t))))) as ->.
  { destruct (Nat.ltb_spec level zero_below) as [Hlt|Hge].
    - rewrite (drop_S (take zero_below (gsizes t)) g level) by (by rewrite lookup_take_lt). cbn [width].
      destruct (width_part _ (Forall_take _ zero_below _ Hgs) (S level)) as [Hq _]. destruct (width_part _ Hgs zero_below) as [_ Hq'].
      destruct (width_part _ (Forall_take _ zero_below _ Hgs) level) as [Hr _].
      rewrite (drop_S (take zero_below (gsizes t)) g level) in Hr by (by rewrite lookup_take_lt). cbn [width] in Hr.
      unfold u32_add, U32_MAX. rewrite (proj2 (Z.leb_le _ _)) by lia. f_equal. lia.
    - rewrite !drop_ge by (rewrite length_take; unfold topology_levels in *; lia). done. }
  cbn [mbind res_bind]. f_equal. f_equal. lia.
Qed.

(** The highest position out of range ends the loop. *)
Lemma pack_loop_error level v g n :
  zero_below ≤ level → vals !! level = Some v → gsizes t !! level = Some g → (g ≤ v)%Z →
  (∀ l v g, level < l → vals !! l = Some v → gsizes t !! l = Some g → (0 ≤ v < g)%Z) → level < n ≤ topology_levels t →
  foldM (pack_step t zero_below positions) (enc (drop n (gsizes t)) (drop n masked), width (drop n (take zero_below (gsizes t)))) (rev (seq 0 n)) =
    Err (AdPositionOutOfRange level v g).
Proof.
  intros Hzl Hv Hg Hbad Habove. pose proof Hw as [_ Hgs]. induction n as [|n IH]; intros Hn; [lia|]. rewrite seq_S, rev_app_distr. cbn [rev app foldM]. rewrite Nat.add_0_l.
  destruct (decide (n = level)) as [->|Hne].
  - assert (∀ st, pack_step t zero_below positions st level = Err (AdPositionOutOfRange level v g)) as ->; [|done].
    intros [acc zeroed]. unfold pack_step, topology_gsize. rewrite Hg. cbn [expect mbind res_bind]. rewrite (proj2 (Nat.ltb_ge _ _)) by done.
    rewrite Hpos, Hv by done. cbn [expect mbind res_bind]. by rewrite (proj2 (Z.leb_le _ _)).
  - rewrite pack_step_exact; [apply IH; lia|lia|intros v' g' _ Hv' Hg'; apply (Habove n v' g'); [lia|done..]|].
    apply enc_bounds; [by apply Forall_drop|]. apply Forall2_same_length_lookup. split.
    + unfold masked. rewrite !length_drop, length_app, length_replicate, length_drop. unfold topology_levels in *. lia.
    + intros i v' g'. rewrite !lookup_drop. intros Hm Hg'. assert (S n + i < topology_levels t) as Hl by (by apply lookup_lt_Some in Hg').
      rewrite masked_lookup in Hm by done. rewrite (proj2 (Nat.ltb_ge _ _)) in Hm by lia. by apply (Habove (S n + i)); [lia|..].
Qed.

Hypothesis (Hrange : ∀ l v g, zero_below ≤ l → vals !! l = Some v → gsizes t !! l = Some g → (0 ≤ v < g)%Z).

Lemma masked_range : Forall2 (λ v g, 0 ≤ v < g)%Z masked (gsizes t).
Proof.
  destruct Hw as [_ Hgs]. apply Forall2_same_length_lookup. split.
  - unfold masked. rewrite length_app, length_replicate, length_drop. unfold topology_levels in *. lia.
  - intros l v g Hm Hg. assert (l < topology_levels t) as Hl by (by apply lookup_lt_Some in Hg). rewrite masked_lookup in Hm by done.
    pose proof (proj1 (Forall_lookup _ _) Hgs _ _ Hg) as Hp. cbn in Hp. destruct (Nat.ltb_spec l zero_below); [injection Hm as <-; lia|]. by apply (Hrange l).
Qed.

Lemma pack_loop_exact n :
  n ≤ topology_levels t →
  foldM (pack_step t zero_below positions) (enc (drop n (gsizes t)) (drop n masked), width (drop n (take zero_below (gsizes t)))) (rev (seq 0 n)) =
    Ok (enc (gsizes t) masked, width (take zero_below (gsizes t))).
Proof.
  pose proof Hw as [_ Hgs]. induction n as [|n IH]; intros Hn; [done|]. rewrite seq_S, rev_app_distr. cbn [rev app foldM]. rewrite Nat.add_0_l.
  rewrite pack_step_exact; [apply IH; lia|lia|intros; by eapply Hrange|].
  apply enc_bounds; [by apply Forall_drop|]. apply Forall2_drop, masked_range.
Qed.

Lemma ipv4_low acc : (0 ≤ acc < 2 ^ 24)%Z → ipv4_new 10 (as_u8 (Z.shiftr acc 16)) (as_u8 (Z.shiftr acc 8)) (as_u8 acc) = (10 * 2 ^ 24 + acc)%Z.
Proof.
  intros Ha. unfold ipv4_new, as_u8. rewrite !Z.shiftr_div_pow2 by lia. rewrite (Z.mod_small (acc / 2 ^ 16)) by (split; [apply Z.div_pos|apply Z.div_lt_upper_bound]; lia).
  pose proof (Z.div_mod acc (2 ^ 8) ltac:(lia)). pose proof (Z.div_mod (acc / 2 ^ 8) (2 ^ 8) ltac:(lia)).
  replace (acc / 2 ^ 16)%Z with (acc / 2 ^ 8 / 2 ^ 8)%Z by (rewrite Z.div_div by lia; done). lia.
Qed.

Lemma pack_exact : pack t KIND_GLOBAL zero_below positions = Ok (10 * 2 ^ 24 + enc (gsizes t) masked, 32 - width (take zero_below (gsizes t)))%Z.
Proof.
  pose proof Hw as [_ Hgs]. unfold pack. rewrite fits_total_bits by done. cbn [mbind res_bind].
  pose proof (pack_loop_exact (topology_levels t) (le_n _)) as Hl. rewrite !drop_ge in Hl.
  2:{ rewrite length_take. unfold topology_levels. lia. } 2:{ unfold masked. rewrite length_app, length_replicate, length_drop. lia. } 2:{ done. }
  cbn [enc width] in Hl. unfold KIND_GLOBAL. rewrite Hl. cbn [mbind res_bind].
  pose proof (enc_bounds _ _ Hgs masked_range) as He. unfold fits in Hfit.
  assert (2 ^ width (gsizes t) ≤ 2 ^ 22)%Z by (apply Z.pow_le_mono_r; lia).
  destruct (width_part _ Hgs zero_below) as [_ Ht]. rewrite (proj2 (Z.ltb_ge _ _)) by lia. rewrite ipv4_low by lia. done.
Qed.
End Loop.

(** ** Networks *)
Lemma mask_spec w : (0 ≤ w < 32)%Z → net_mask (mkIpv4Net 0 (32 - w)) = (2 ^ 32 - 2 ^ w)%Z.
Proof.
  intros Hw. unfold net_mask. cbn [in_prefix_len]. rewrite (proj2 (Z.eqb_neq _ _)) by lia. replace (32 - (32 - w))%Z with w by lia.
  unfold u32_wrap, U32_MAX. rewrite Z.shiftl_mul_pow2 by lia. symmetry. apply (Z.mod_unique_pos _ _ (2 ^ w - 1)); [|lia].
  assert (0 < 2 ^ w)%Z by lia. assert (2 ^ w < 2 ^ 32)%Z by (apply Z.pow_lt_mono_r; lia). lia.
Qed.

Lemma land_mask a w : (0 ≤ a < 2 ^ 32)%Z → (0 ≤ w < 32)%Z → Z.land a (2 ^ 32 - 2 ^ w) = (a / 2 ^ w * 2 ^ w)%Z.
Proof.
  intros Ha Hw. replace (2 ^ 32 - 2 ^ w)%Z with (Z.shiftl (Z.ones (32 - w)) w).
  2:{ rewrite Z.shiftl_mul_pow2, Z.ones_equiv by lia. unfold Z.pred. rewrite Z.mul_add_distr_r, <- Z.pow_add_r by lia. replace (32 - w + w)%Z with 32%Z by lia. lia. }
  apply Z.bits_inj'. intros i Hi. rewrite Z.land_spec, Z.shiftl_spec by done. destruct (Z.lt_ge_cases i w) as [Hlt|Hge].
  - rewrite Z.mul_pow2_bits_low by done. rewrite (Z.testbit_neg_r (Z.ones _)) by lia. by rewrite andb_false_r.
  - rewrite Z.mul_pow2_bits, Z.div_pow2_bits by lia. replace (i - w + w)%Z with i by lia.
    destruct (Z.lt_ge_cases i 32) as [Hlt|Hge']; [rewrite Z.ones_spec_low by lia; by rewrite andb_true_r|].
    rewrite <- (Z.mod_small a (2 ^ 32)) by done. by rewrite Z.mod_pow2_bits_high by lia.
Qed.

Lemma contains_iff a b w :
  (0 ≤ a < 2 ^ 32)%Z → (0 ≤ b < 2 ^ 32)%Z → (0 ≤ w < 32)%Z →
  net_contains (mkIpv4Net a (32 - w)) b = true ↔ (a / 2 ^ w = b / 2 ^ w)%Z.
Proof.
  intros Ha Hb Hw. unfold net_contains. change (net_mask (mkIpv4Net a (32 - w))) with (net_mask (mkIpv4Net 0 (32 - w))).
  rewrite mask_spec by done. cbn [in_address]. rewrite !land_mask by done. rewrite Z.eqb_eq. assert (0 < 2 ^ w)%Z by lia. nia.
Qed.

(** ** Hosts and g-nodes *)

(** A node with a real position in a topology that can be addressed. *)
Definition addressable (n : Naddr) : Prop := naddr_wf n ∧ naddr_real n ∧ fits (na_topology n).
Definition host_number (n : Naddr) : Z := (10 * 2 ^ 24 + enc (gsizes (na_topology n)) (na_pos n))%Z.

Lemma addressable_range n : addressable n → Forall2 (λ v g, 0 ≤ v < g)%Z (na_pos n) (gsizes (na_topology n)).
Proof.
  intros ((_ & _ & Hu) & Hr & _). apply Forall2_same_length_lookup. split; [by apply Forall2_length in Hr|].
  intros l v g Hv Hg. pose proof (Forall2_lookup_lr _ _ _ _ _ _ Hr Hv Hg). pose proof (proj1 (Forall_lookup _ _) Hu _ _ Hv) as [? _]. cbn in *. lia.
Qed.

Lemma host_number_bounds n : addressable n → (10 * 2 ^ 24 ≤ host_number n < 11 * 2 ^ 24)%Z.
Proof.
  intros Ha. pose proof (addressable_range n Ha) as Hr. destruct Ha as (((_ & Hgs) & _) & _ & Hf). unfold host_number, fits in *.
  pose proof (enc_bounds _ _ Hgs Hr). assert (2 ^ width (gsizes (na_topology n)) ≤ 2 ^ 22)%Z by (apply Z.pow_le_mono_r; lia). lia.
Qed.

Lemma host_address_exact n : addressable n → host_address n = Ok (ipv4_net_host (host_number n)).
Proof.
  intros Ha. pose proof (addressable_range n Ha) as Hr. destruct Ha as ((Hw & Hlen & _) & _ & Hf). unfold host_address.
  rewrite (pack_exact (na_topology n) 0 (na_pos n)); [done|done|done|lia|done|done|].
  intros l v g _ Hv Hg. exact (Forall2_lookup_lr _ _ _ _ _ _ Hr Hv Hg).
Qed.

(** The network of a g-node seen from [my]. *)
Definition block (my : Naddr) (hc : HCoord) : Ipv4Net :=
  mkIpv4Net (10 * 2 ^ 24 + enc (gsizes (na_topology my)) (masked (hc_level hc) (<[hc_level hc := hc_pos hc]> (na_pos my))))
    (32 - width (take (hc_level hc) (gsizes (na_topology my)))).
Definition hc_valid (t : Topology) (hc : HCoord) : Prop := ∃ g, topology_gsize t (hc_level hc) = Some g ∧ (0 ≤ hc_pos hc < g)%Z.

Section Block.
Variables (my : Naddr) (hc : HCoord).
Hypotheses (Hmy : addressable my) (Hhc : hc_valid (na_topology my) hc).
Let vals := <[hc_level hc := hc_pos hc]> (na_pos my).

Lemma block_level : hc_level hc < topology_levels (na_topology my).
Proof. destruct Hhc as (g & Hg & _). by apply lookup_lt_Some in Hg. Qed.

Lemma block_vals_range l v g : hc_level hc ≤ l → vals !! l = Some v → gsizes (na_topology my) !! l = Some g → (0 ≤ v < g)%Z.
Proof.
  intros _ Hv Hg. pose proof (addressable_range my Hmy) as Hr. destruct Hhc as (g' & Hg' & Hp). unfold vals in Hv.
  destruct (decide (l = hc_level hc)) as [->|Hne].
  - rewrite list_lookup_insert_eq in Hv by (apply lookup_lt_Some in Hg; apply Forall2_length in Hr; lia). unfold topology_gsize in Hg'. congruence.
  - rewrite list_lookup_insert_ne in Hv by done. exact (Forall2_lookup_lr _ _ _ _ _ _ Hr Hv Hg).
Qed.

Lemma gnode_destination_exact : gnode_destination my hc = Ok (block my hc).
Proof.
  pose proof block_level as Hl. pose proof Hmy as ((Hw & Hlen & _) & _ & Hf). unfold gnode_destination. rewrite (proj2 (Nat.leb_gt _ _)) by done.
  rewrite (pack_exact (na_topology my) (hc_level hc) vals); [|done|done|lia|by unfold vals; rewrite length_insert| |apply block_vals_range].
  - cbn [mbind res_bind]. unfold ipv4_net_new, block. destruct Hw as [_ Hgs]. destruct (width_part _ Hgs (hc_level hc)) as [_ Ht].
    rewrite (proj2 (Z.ltb_ge _ _)) by lia. done.
  - intros l Hge. unfold vals. destruct (Nat.eqb_spec l (hc_level hc)) as [->|Hne]; [|by rewrite list_lookup_insert_ne].
    by rewrite list_lookup_insert_eq by lia.
Qed.

(** A node's address is in the network exactly when its position is the g-node's from
    its level up. *)
Lemma block_contains n :
  addressable n → na_topology n = na_topology my →
  net_contains (block my hc) (host_number n) = true ↔ drop (hc_level hc) (na_pos n) = drop (hc_level hc) vals.
Proof.
  intros Hn Ht. pose proof block_level as Hl. pose proof (addressable_range n Hn) as Hr. pose proof (host_number_bounds n Hn) as Hb.
  pose proof Hmy as (((Hne & Hgs) & Hlen & _) & _ & Hf). unfold fits in Hf.
  assert (Forall2 (λ v g, 0 ≤ v < g)%Z (masked (hc_level hc) vals) (gsizes (na_topology my))) as Hm.
  { apply masked_range; [by split|lia|by unfold vals; rewrite length_insert|apply block_vals_range]. }
  destruct (width_part _ Hgs (hc_level hc)) as [_ Hw]. pose proof (enc_bounds _ _ Hgs Hm) as He.
  assert (2 ^ width (gsizes (na_topology my)) ≤ 2 ^ 22)%Z by (apply Z.pow_le_mono_r; lia).
  unfold block. fold vals. rewrite contains_iff by lia. unfold host_number. rewrite Ht in *. set (w := width (take (hc_level hc) (gsizes (na_topology my)))) in *.
  assert (10 * 2 ^ 24 = 10 * 2 ^ (24 - w) * 2 ^ w)%Z as Hten. { rewrite <- Z.mul_assoc, <- Z.pow_add_r by lia. do 2 f_equal. lia. }
  rewrite Hten, !(Z.add_comm (_ * _)), !Z.div_add by lia. unfold w. rewrite !enc_drop by done. fold w.
  assert (drop (hc_level hc) (masked (hc_level hc) vals) = drop (hc_level hc) vals) as Hd by (unfold masked; by rewrite drop_app_length' by (by rewrite length_replicate)).
  rewrite Hd. split; [|intros ->; done]. intros Heq. symmetry. eapply (enc_inj (drop (hc_level hc) (gsizes (na_topology my)))).
  - by apply Forall_drop.
  - rewrite <- Hd. by apply Forall2_drop.
  - by apply Forall2_drop.
  - lia.
Qed.
End Block.

Lemma drop_eq_iff (xs ys : list Z) n : length xs = length ys → drop n xs = drop n ys ↔ ∀ l, n ≤ l → xs !! l = ys !! l.
Proof.
  intros Hlen. split.
  - intros Heq l Hl. replace l with (n + (l - n)) by lia. by rewrite <- !lookup_drop, Heq.
  - intros Heq. apply list_eq. intros i. rewrite !lookup_drop. apply Heq. lia.
Qed.

(** Coordinates of other g-nodes than one's own. *)
Definition foreign (my : Naddr) (hc : HCoord) : Prop := naddr_pos my (hc_level hc) ≠ Some (hc_pos hc).

Lemma block_contains_hcoord my hc n :
  addressable my → hc_valid (na_topology my) hc → foreign my hc → addressable n → na_topology n = na_topology my →
  net_contains (block my hc) (host_number n) = true ↔ hcoord my n = Ok (Some hc).
Proof.
  intros Hmy Hhc Hf Hn Ht. rewrite (block_contains my hc Hmy Hhc n Hn Ht).
  pose proof (block_level my hc Hhc) as Hl. pose proof Hmy as [Hwm _]. pose proof Hn as [Hwn _]. pose proof Hwm as (_ & Hlm & _). pose proof Hwn as (_ & Hln & _).
  rewrite drop_eq_iff by (rewrite length_insert, Hlm, Hln, Ht; done). unfold foreign, naddr_pos in Hf. split.
  - intros Heq. destruct (hcoord_cases my n Hwm Hwn (eq_sym Ht)) as [[<- _]|(h & Hh & Hhl & Hp & Hq & Hab)].
    + specialize (Heq (hc_level hc) (le_n _)). rewrite list_lookup_insert_eq in Heq by lia. congruence.
    + rewrite Hh. do 2 f_equal. unfold naddr_pos, naddr_levels in *. destruct (Nat.lt_trichotomy (hc_level h) (hc_level hc)) as [Hlt|[He|Hgt]].
      * specialize (Heq (hc_level hc) (le_n _)). rewrite list_lookup_insert_eq in Heq by lia. rewrite <- (Hab (hc_level hc)) in Heq by lia. congruence.
      * specialize (Heq (hc_level hc) (le_n _)). rewrite list_lookup_insert_eq in Heq by lia. destruct h, hc; cbn in *. subst. congruence.
      * specialize (Heq (hc_level h) ltac:(lia)). rewrite list_lookup_insert_ne in Heq by lia. congruence.
  - intros Hh. destruct (hcoord_Some my n hc Hwm Hwn Hh) as (_ & _ & Hp & _ & Hab). unfold naddr_pos in *. intros l Hge.
    destruct (decide (l = hc_level hc)) as [->|Hne]; [by rewrite list_lookup_insert_eq by lia|]. rewrite list_lookup_insert_ne by done. symmetry. apply Hab. lia.
Qed.

Lemma highest_out_of_range vs gs :
  length vs = length gs → Forall is_u32 vs →
  Forall2 (λ v g, 0 ≤ v < g)%Z vs gs ∨
  ∃ l v g, vs !! l = Some v ∧ gs !! l = Some g ∧ (g ≤ v)%Z ∧ ∀ l' v' g', l < l' → vs !! l' = Some v' → gs !! l' = Some g' → (0 ≤ v' < g')%Z.
Proof.
  revert gs. induction vs as [|v vs IH]; intros [|g gs] Hlen Hu; try done; [by left|]. apply Forall_cons in Hu as [Hv Hu].
  destruct (IH gs) as [Hok|(l & v' & g' & Hl & Hg & Hb & Ha)]; [by injection Hlen|done| |].
  - destruct (Z.lt_ge_cases v g) as [Hlt|Hge]; [left; constructor; [unfold is_u32 in Hv; lia|done]|].
    right. exists 0, v, g. split_and!; try done. intros [|l'] v' g' Hl; [lia|]. cbn. intros Hv' Hg'. exact (Forall2_lookup_lr _ _ _ _ _ _ Hok Hv' Hg').
  - right. exists (S l), v', g'. split_and!; try done. intros [|l'] v1 g1 Hl'; [lia|]. cbn. intros. eapply (Ha l'); [lia|done..].
Qed.

(** What [gnode_destination] answers. *)
Lemma gnode_destination_cases my hc :
  addressable my → (0 ≤ hc_pos hc)%Z →
  (hc_valid (na_topology my) hc ∧ gnode_destination my hc = Ok (block my hc)) ∨
  (¬ hc_valid (na_topology my) hc ∧ ∃ e, gnode_destination my hc = Err e).
Proof.
  intros Hmy Hp. pose proof (addressable_range my Hmy) as Hr. pose proof Hmy as ((Ht & Hlen & _) & _ & Hf).
  destruct (topology_gsize (na_topology my) (hc_level hc)) as [g|] eqn:Eg.
  - destruct (Z.lt_ge_cases (hc_pos hc) g) as [Hlt|Hge]; [left|right].
    { assert (hc_valid (na_topology my) hc) as Hv by (by exists g). split; [done|]. by apply gnode_destination_exact. }
    split; [intros (g' & Hg' & Hb); rewrite Eg in Hg'; injection Hg' as <-; lia|].
    assert (hc_level hc < topology_levels (na_topology my)) as Hl by (by apply lookup_lt_Some in Eg).
    unfold gnode_destination. rewrite (proj2 (Nat.leb_gt _ _)) by done. unfold pack. rewrite fits_total_bits by done. cbn [mbind res_bind].
    set (vals := <[hc_level hc := hc_pos hc]> (na_pos my)).
    assert (∀ l, hc_level hc ≤ l → (if l =? hc_level hc then Some (hc_pos hc) else naddr_pos my l) = vals !! l) as Hpos.
    { intros l Hle. unfold vals. destruct (Nat.eqb_spec l (hc_level hc)) as [->|Hne]; [by rewrite list_lookup_insert_eq by lia|by rewrite list_lookup_insert_ne]. }
    pose proof (pack_loop_error (na_topology my) (hc_level hc) vals _ Ht Hf ltac:(lia) ltac:(unfold vals; by rewrite length_insert) Hpos
      (hc_level hc) (hc_pos hc) g (topology_levels (na_topology my))) as Hloop.
    rewrite !drop_ge in Hloop by (rewrite ?length_take; unfold masked, vals; rewrite ?length_app, ?length_replicate, ?length_drop, ?length_insert; unfold topology_levels in *; lia).
    cbn [enc width] in Hloop. unfold KIND_GLOBAL. rewrite Hloop; [by eexists|lia|unfold vals; by rewrite list_lookup_insert_eq by lia|done|done| |lia].
    intros l v g' Hgt Hv Hg'. unfold vals in Hv. rewrite list_lookup_insert_ne in Hv by lia. exact (Forall2_lookup_lr _ _ _ _ _ _ Hr Hv Hg').
  - right. split; [intros (g & Hg & _); congruence|]. unfold gnode_destination. apply lookup_ge_None in Eg.
    rewrite (proj2 (Nat.leb_le _ _)) by (unfold topology_levels; lia). by eexists.
Qed.

(** Different g-nodes have different networks. *)
Lemma block_inj my hc hc' :
  addressable my → hc_valid (na_topology my) hc → hc_valid (na_topology my) hc' → foreign my hc → foreign my hc' → block my hc = block my hc' → hc = hc'.
Proof.
  intros Hmy Hv Hv' Hf Hf' Heq. set (n := mkNaddr (na_topology my) (<[hc_level hc := hc_pos hc]> (na_pos my))).
  pose proof (block_level my hc Hv) as Hl. pose proof (addressable_range my Hmy) as Hr. pose proof Hmy as ((Ht & Hlen & Hu) & _ & Hfit).
  assert (Forall2 (λ v g, 0 ≤ v < g)%Z (na_pos n) (gsizes (na_topology my))) as Hrn.
  { cbn. destruct Hv as (g & Hg & Hb). rewrite <- (list_insert_id (gsizes (na_topology my)) (hc_level hc) g) by done. apply Forall2_insert; done. }
  assert (addressable n) as Hn.
  { split_and!; [split_and!; [done|cbn; by rewrite length_insert|]|eapply Forall2_impl; [exact Hrn|]; cbn; lia|done].
    apply Forall_insert; [done|]. destruct Hv as (g & Hg & Hb). destruct Ht as [_ Hgs]. pose proof (proj1 (Forall_lookup _ _) Hgs _ _ Hg) as Hg'. cbn in Hg'. unfold is_u32. lia. }
  assert (net_contains (block my hc) (host_number n) = true) as Hc by (by apply block_contains).
  pose proof (proj1 (block_contains_hcoord my hc n Hmy Hv Hf Hn eq_refl) Hc) as H1.
  rewrite Heq in Hc. pose proof (proj1 (block_contains_hcoord my hc' n Hmy Hv' Hf' Hn eq_refl) Hc) as H2. congruence.
Qed.

Lemma host_in_space n : addressable n → net_contains NETSUKUKU_ADDRESS_SPACE (host_number n) = true.
Proof.
  intros Hn. pose proof (host_number_bounds n Hn) as Hb. change NETSUKUKU_ADDRESS_SPACE with (mkIpv4Net (ipv4_new 10 0 0 0) (32 - 24)).
  apply contains_iff; [change (ipv4_new 10 0 0 0) with (10 * 2 ^ 24)%Z; lia|lia..|].
  change (ipv4_new 10 0 0 0) with (10 * 2 ^ 24)%Z. rewrite Z.div_mul by lia. apply (Z.div_unique_pos _ _ _ (host_number n - 10 * 2 ^ 24)); lia.
Qed.

(** ** Properties *)

(** Addresses mirror the hierarchy.  In a topology that fits [10.0.0.0/8], nodes with
    different positions have different addresses, all inside it; and for every g-node
    other than a node's own, the network the node routes it by contains exactly the
    addresses of the nodes whose divergence from it is that g-node: no node of another
    g-node is ever caught, none of its own is missed. *)
Theorem addresses_mirror_hierarchy my hc :
  addressable my → hc_valid (na_topology my) hc → foreign my hc →
  ∃ net, gnode_destination my hc = Ok net ∧
    ∀ n, addressable n → na_topology n = na_topology my →
      ∃ a, host_address n = Ok (ipv4_net_host a) ∧ net_contains NETSUKUKU_ADDRESS_SPACE a = true ∧
        (host_address my = Ok (ipv4_net_host a) ↔ my = n) ∧
        (net_contains net a = true ↔ hcoord my n = Ok (Some hc)).
Proof.
  intros Hmy Hhc Hf. exists (block my hc). split; [by apply gnode_destination_exact|]. intros n Hn Ht. exists (host_number n).
  split_and!; [by apply host_address_exact| |rewrite host_address_exact by done|by apply block_contains_hcoord].
  - by apply host_in_space.
  - split; [|by intros ->]. intros [= Heq]. unfold host_number in Heq. rewrite Ht in Heq.
    pose proof (addressable_range n Hn) as Hrn. rewrite Ht in Hrn. pose proof Hmy as (((_ & Hgs) & _) & _).
    assert (na_pos my = na_pos n) by (apply (enc_inj (gsizes (na_topology my))); [done|by apply addressable_range|done|lia]).
    destruct my, n; cbn in *. congruence.
Qed.

(** The address of a node is computed for exactly the nodes with a real position in a
    topology that fits; one that does not fit is refused with its width, and a virtual
    position with the highest level where it is out of range: it never spills into the
    digits of another level. *)
Theorem host_address_total n :
  naddr_wf n → countable_bits (na_topology n) →
  (check_topology_fits (na_topology n) = Ok tt ↔ fits (na_topology n)) ∧
  (¬ fits (na_topology n) → host_address n = Err (AdTopologyTooWide (width (gsizes (na_topology n))))) ∧
  (fits (na_topology n) → naddr_real n → ∃ a, host_address n = Ok (ipv4_net_host a)) ∧
  (fits (na_topology n) → is_virtual n = true → ∃ l v g, host_address n = Err (AdPositionOutOfRange l v g) ∧
     naddr_pos n l = Some v ∧ topology_gsize (na_topology n) l = Some g ∧ (g ≤ v)%Z ∧ ∀ l', l < l' → is_virtual_at n l' ≠ Some true).
Proof.
  intros Hw Hc. pose proof Hw as (Ht & Hlen & Hu). unfold check_topology_fits. rewrite total_bits_exact by done. unfold fits. split_and!.
  - destruct (Z.ltb_spec 22 (width (gsizes (na_topology n)))) as [Hlt|Hge]; split; intros Hx; try done; lia.
  - intros Hno. unfold host_address, pack. rewrite total_bits_exact by done. by rewrite (proj2 (Z.ltb_lt _ _)) by lia.
  - intros Hf Hr. exists (host_number n). by apply host_address_exact.
  - intros Hf Hv. destruct (highest_out_of_range (na_pos n) (gsizes (na_topology n))) as [Hok|(l & v & g & Hl & Hg & Hb & Ha)]; [done|done| |].
    { assert (naddr_real n) as Hr by (eapply Forall2_impl; [exact Hok|]; cbn; lia). apply naddr_real_not_virtual in Hr; [congruence|done]. }
    exists l, v, g. split_and!; try done.
    + unfold host_address, pack. rewrite fits_total_bits by done. cbn [mbind res_bind].
      pose proof (pack_loop_error (na_topology n) 0 (na_pos n) (naddr_pos n) Ht Hf ltac:(lia) Hlen (λ _ _, eq_refl) l v g (topology_levels (na_topology n))) as Hloop.
      rewrite take_0, drop_nil, !drop_ge in Hloop by (unfold masked, topology_levels in *; cbn; lia). cbn [enc width] in Hloop. unfold KIND_GLOBAL.
      rewrite Hloop; [done|lia|done|done|done|done|]. split; [|done]. rewrite <- Hlen. by apply lookup_lt_Some in Hl.
    + intros l' Hlt. unfold is_virtual_at, topology_gsize. destruct (na_pos n !! l') as [v'|] eqn:Ev; [|done]. cbn. destruct (gsizes (na_topology n) !! l') as [g'|] eqn:Eg; [|done].
      cbn. specialize (Ha l' v' g' Hlt Ev Eg). rewrite (proj2 (Z.leb_gt _ _)) by lia. done.
Qed.

Lemma ex_addressable p q : (0 ≤ p < 4)%Z → (0 ≤ q < 4)%Z → addressable (mkNaddr ex_topology [p; q]).
Proof.
  intros Hp Hq. split_and!; [apply ex_naddr_wf; unfold is_u32, U32_MAX; lia|repeat constructor; cbn; lia|by vm_compute].
Qed.

Lemma addresses_mirror_hierarchy_witness :
  ∃ net, gnode_destination ex_my (mkHCoord 1 3) = Ok net ∧ net_contains net 167772174 = true.
Proof.
  destruct (addresses_mirror_hierarchy ex_my (mkHCoord 1 3)) as (net & Hnet & Hall).
  - apply ex_addressable; lia.
  - exists 4%Z. split; [reflexivity|cbn; lia].
  - discriminate.
  - exists net. split; [exact Hnet|]. destruct (Hall (mkNaddr ex_topology [2; 3]%Z)) as (a & Ha & _ & _ & Hc); [apply ex_addressable; lia|reflexivity|].
    vm_compute in Ha. injection Ha as <-. apply Hc. vm_compute. reflexivity.
Defined.

Lemma host_address_total_witness :
  ∃ l v g, host_address (mkNaddr ex_topology [1; 7]%Z) = Err (AdPositionOutOfRange l v g).
Proof.
  destruct (host_address_total (mkNaddr ex_topology [1; 7]%Z)) as (_ & _ & _ & Hv); [apply ex_naddr_wf; unfold is_u32, U32_MAX; lia|vm_compute; discriminate|].
  destruct Hv as (l & v & g & Hv & _); [vm_compute; discriminate|reflexivity|]. by exists l, v, g.
Defined.
