(* ===== verification/KernelRoutes.v ===== *)
(** * One identity's routes in the kernel

    Models [crates/ntkd/src/kernel/routes.rs]: the routes of a snapshot, their weights,
    and the [RouteInstaller] that keeps a kernel table equal to the last snapshot.  The
    kernel is any instance of [Netlink]; an operation yields the kernel and the installer
    it leaves with its result. *)
From stdpp Require Import strings.
From S2P Require Import Prelude Addressing Netlink KernelAddr QspnPath.

Definition IDENTITY_ADDRESS_INTERFACE : string := "lo".

Record AppliedDelta := mkAppliedDelta { ad_added : Z; ad_changed : Z; ad_removed : Z }.
Definition delta_default : AppliedDelta := mkAppliedDelta 0 0 0.

Inductive RouteError := ReNetlink (e : NetlinkError) | ReAddressing (e : AddressingError).

(** ** Targets and weights *)
Record Usable := mkUsable { us_via : Z; us_dev : Interface; us_cost : Cost }.
Abbreviation Endpoints := (gmap ArcId (Z * Interface)).

Definition resolve_usable (paths : list RoutePath) (endpoints : Endpoints) : list Usable :=
  omap (λ path, vd ← endpoints !! rp_arc path; Some (mkUsable vd.1 vd.2 (rp_cost path)))
    (retain (λ path, negb (bool_decide (rp_cost path = Dead))) paths).

(** The first of every gateway. *)
Fixpoint dedupe_loop (seen : list (Z * Interface)) (l : list Usable) : list Usable :=
  match l with
  | [] => []
  | u :: l' =>
      if contains (us_via u, us_dev u) seen then dedupe_loop seen l'
      else u :: dedupe_loop ((us_via u, us_dev u) :: seen) l'
  end.
Definition dedupe_by_gateway (l : list Usable) : list Usable := dedupe_loop [] l.

Definition effective_cost (c : Cost) : res unit Z :=
  match c with Null => Ok 1%Z | Finite m => Ok (Z.max m 1) | Dead => Panic end.
(** [u128] arithmetic; the products stay far below its maximum. *)
Definition nexthop_weight (c : Cost) (best : Z) : res unit Z :=
  effective ← effective_cost c;
  product ← u128_mul 256 best;
  Ok (as_u8 (Z.min (Z.max (product / effective) 1) 256 - 1)).

Definition min_loop (costs : list Z) : option Z :=
  match costs with [] => None | c :: cs => Some (foldl Z.min c cs) end.
Definition route_target (paths : list RoutePath) (endpoints : Endpoints) (src : option Z) : res unit RouteTarget :=
  match dedupe_by_gateway (resolve_usable paths endpoints) with
  | [] => Ok Unreachable
  | [only] => Ok (Gateway (us_via only) (us_dev only) src)
  | several =>
      costs ← foldM (λ l u, c ← effective_cost (us_cost u); Ok (l ++ [c])) [] several;
      best ← expect (min_loop costs);
      hops ← foldM (λ l u, w ← nexthop_weight (us_cost u) best; Ok (l ++ [mkNexthop (us_via u) (us_dev u) w])) [] several;
      Ok (Multipath hops)
  end.

(** ** The installer *)
Record RouteInstaller := mkRouteInstaller {
  ri_my_naddr : Naddr;
  ri_table : Z;
  ri_rule_priority : Z;
  ri_arc_endpoints : Endpoints;
  ri_applied : gmap HCoord RouteSpec;
  ri_identity_address : option Ipv4Net;
  ri_rule_installed : bool
}.
Implicit Types ri : RouteInstaller.

Definition is_installed ri : bool :=
  bool_decide (is_Some (ri_identity_address ri)) || ri_rule_installed ri || negb (bool_decide (ri_applied ri = ∅)).
Definition installer_new (my_naddr : Naddr) (table rule_priority : Z) : RouteInstaller :=
  mkRouteInstaller my_naddr table rule_priority ∅ ∅ None false.
Definition realize ri (real_naddr : Naddr) : RouteInstaller :=
  mkRouteInstaller real_naddr (ri_table ri) (ri_rule_priority ri) (ri_arc_endpoints ri) (ri_applied ri) (ri_identity_address ri) (ri_rule_installed ri).
Definition with_endpoints ri (m : Endpoints) : RouteInstaller :=
  mkRouteInstaller (ri_my_naddr ri) (ri_table ri) (ri_rule_priority ri) m (ri_applied ri) (ri_identity_address ri) (ri_rule_installed ri).
Definition set_arc_endpoint ri (arc : ArcId) (via : Z) (dev : Interface) : RouteInstaller := with_endpoints ri (<[arc := (via, dev)]> (ri_arc_endpoints ri)).
Definition clear_arc_endpoint ri (arc : ArcId) : RouteInstaller := with_endpoints ri (delete arc (ri_arc_endpoints ri)).
Definition with_applied ri (m : gmap HCoord RouteSpec) : RouteInstaller :=
  mkRouteInstaller (ri_my_naddr ri) (ri_table ri) (ri_rule_priority ri) (ri_arc_endpoints ri) m (ri_identity_address ri) (ri_rule_installed ri).
Definition with_identity ri (a : option Ipv4Net) (rule : bool) : RouteInstaller :=
  mkRouteInstaller (ri_my_naddr ri) (ri_table ri) (ri_rule_priority ri) (ri_arc_endpoints ri) (ri_applied ri) a rule.

Definition identity_rule ri : RuleSpec := mkRuleSpec (ri_table ri) (ri_rule_priority ri) AnyPacket.

(** [BTreeMap<HCoord, _>]: by level, then by position. *)
Definition hc_leb (a b : HCoord) : bool :=
  (hc_level a <? hc_level b) || (hc_level a =? hc_level b) && (hc_pos a <=? hc_pos b)%Z.
Definition hc_iter {V} (m : gmap HCoord V) : list (HCoord * V) := sort_by (λ a b, hc_leb a.1 b.1) (map_to_list m).

Section Installer.
Context `{Netlink K}.
Implicit Types k : K.

(** An addition that finds the object already there adopts it. *)
Definition adopt (r : K * res NetlinkError unit) : K * res RouteError unit :=
  match r with
  | (k, Ok _) => (k, Ok tt)
  | (k, Err e) => if is_already_exists e then (k, Ok tt) else (k, Err (ReNetlink e))
  | (k, Panic) => (k, Panic)
  end.

Definition install_identity k ri : K * RouteInstaller * res RouteError unit :=
  if is_virtual (ri_my_naddr ri) then (k, ri, Ok tt)
  else match host_address (ri_my_naddr ri) with
  | Err e => (k, ri, Err (ReAddressing e))
  | Panic => (k, ri, Panic)
  | Ok address =>
      match adopt (add_address k (IfName IDENTITY_ADDRESS_INTERFACE) address) with
      | (k, Ok _) =>
          let ri := with_identity ri (Some address) (ri_rule_installed ri) in
          match adopt (add_rule k (identity_rule ri)) with
          | (k, Ok _) => (k, with_identity ri (Some address) true, Ok tt)
          | (k, r) => (k, ri, r)
          end
      | (k, r) => (k, ri, r)
      end
  end.

(** The routes the snapshot asks for; a destination that cannot be encoded is left out. *)
Definition desired_step ri (next : gmap HCoord RouteSpec) (e : RouteEntry) : res RouteError (gmap HCoord RouteSpec) :=
  match gnode_destination (ri_my_naddr ri) (re_destination e) with
  | Err _ => Ok next
  | Panic => Panic
  | Ok destination =>
      target ← unwrap (route_target (re_paths e) (ri_arc_endpoints ri) (in_address <$> ri_identity_address ri));
      Ok (<[re_destination e := mkRouteSpec destination (ri_table ri) target]> next)
  end.
Definition desired ri (snapshot : RouteSnapshot) : res RouteError (gmap HCoord RouteSpec) :=
  foldM (desired_step ri) ∅ (concat (rs_levels snapshot)).

Record ApplyState := mkApplyState { as_kernel : K; as_applied : gmap HCoord RouteSpec; as_delta : AppliedDelta; as_error : option NetlinkError }.

(** One destination of the snapshot; [get_or_insert] keeps the first error. *)
Definition install_step (st : ApplyState) (entry : HCoord * RouteSpec) : res RouteError ApplyState :=
  let '(destination, spec) := entry in
  let known := as_applied st !! destination in
  if bool_decide (known = Some spec) then Ok st
  else
    let '(k, r) := match known with Some _ => change_route (as_kernel st) spec | None => add_route (as_kernel st) spec end in
    match r with
    | Ok _ =>
        let d := as_delta st in
        let d' := match known with
                  | Some _ => mkAppliedDelta (ad_added d) (ad_changed d + 1) (ad_removed d)
                  | None => mkAppliedDelta (ad_added d + 1) (ad_changed d) (ad_removed d)
                  end in
        Ok (mkApplyState k (<[destination := spec]> (as_applied st)) d' (as_error st))
    | Err e => Ok (mkApplyState k (as_applied st) (as_delta st) (Some (default e (as_error st))))
    | Panic => Panic
    end.

(** One stale destination. *)
Definition withdraw_step (st : ApplyState) (destination : HCoord) : res RouteError ApplyState :=
  previous ← expect (as_applied st !! destination);
  let '(k, r) := remove_route (as_kernel st) (key_of previous) in
  let forget := mkApplyState k (delete destination (as_applied st))
    (mkAppliedDelta (ad_added (as_delta st)) (ad_changed (as_delta st)) (ad_removed (as_delta st) + 1)) (as_error st) in
  match r with
  | Ok _ => Ok forget
  | Err e => if is_not_found e then Ok forget else Ok (mkApplyState k (as_applied st) (as_delta st) (Some (default e (as_error st))))
  | Panic => Panic
  end.

Definition apply k ri (snapshot : RouteSnapshot) : K * RouteInstaller * res RouteError AppliedDelta :=
  if is_virtual (ri_my_naddr ri) then (k, ri, Ok delta_default)
  else
    match
      (next ← desired ri snapshot;
       st ← foldM install_step (mkApplyState k (ri_applied ri) delta_default None) (hc_iter next);
       let stale := retain (λ hc, negb (bool_decide (is_Some (next !! hc)))) (hc_iter (as_applied st)).*1 in
       foldM withdraw_step st stale)
    with
    | Ok st => (as_kernel st, with_applied ri (as_applied st), match as_error st with Some e => Err (ReNetlink e) | None => Ok (as_delta st) end)
    | Err e => (k, ri, Err e)
    | Panic => (k, ri, Panic)
    end.

(** ** Taking everything down *)
Definition teardown_step (st : ApplyState) (entry : HCoord * RouteSpec) : res RouteError ApplyState :=
  let '(destination, spec) := entry in
  let '(k, r) := remove_route (as_kernel st) (key_of spec) in
  match r with
  | Ok _ => Ok (mkApplyState k (as_applied st) (as_delta st) (as_error st))
  | Err e =>
      if is_not_found e then Ok (mkApplyState k (as_applied st) (as_delta st) (as_error st))
      else Ok (mkApplyState k (<[destination := spec]> (as_applied st)) (as_delta st) (Some (default e (as_error st))))
  | Panic => Panic
  end.
(** A removal of the rule or of the address, if there is one. *)
Definition relinquish (err : option NetlinkError) (r : K * res NetlinkError unit) : res RouteError (K * option NetlinkError * bool) :=
  match r with
  | (k, Ok _) => Ok (k, err, true)
  | (k, Err e) => if is_not_found e then Ok (k, err, true) else Ok (k, Some (default e err), false)
  | (_, Panic) => Panic
  end.

Definition teardown_rule ri (st : ApplyState) : res RouteError (K * option NetlinkError * bool) :=
  if ri_rule_installed ri then relinquish (as_error st) (remove_rule (as_kernel st) (identity_rule ri))
  else Ok (as_kernel st, as_error st, true).
Definition teardown_address ri k (err : option NetlinkError) : res RouteError (K * option NetlinkError * bool) :=
  match ri_identity_address ri with
  | Some a => relinquish err (remove_address k (IfName IDENTITY_ADDRESS_INTERFACE) a)
  | None => Ok (k, err, true)
  end.
Definition teardown_all k ri : res RouteError (K * RouteInstaller * option NetlinkError) :=
  st ← foldM teardown_step (mkApplyState k ∅ delta_default None) (hc_iter (ri_applied ri));
  '(k1, err1, rule_gone) ← teardown_rule ri st;
  '(k2, err2, address_gone) ← teardown_address ri k1 err1;
  Ok (k2, with_identity (with_applied ri (as_applied st)) (if (address_gone : bool) then None else ri_identity_address ri) (negb rule_gone), err2).
Definition teardown k ri : K * RouteInstaller * res RouteError unit :=
  match teardown_all k ri with
  | Ok (k, ri, err) => (k, ri, match err with Some e => Err (ReNetlink e) | None => Ok tt end)
  | Err e => (k, ri, Err e)
  | Panic => (k, ri, Panic)
  end.
End Installer.

(** ** A retired generation's table *)
Inductive GenerationTableError := StillInstalled | GtAllocator (e : TableAllocatorError).
Definition release_generation_table {O} `{Countable O} ri (t : TableAllocator O) (owner : O) : TableAllocator O * res GenerationTableError Z :=
  if is_installed ri then (t, Err StillInstalled)
  else let '(t, r) := release t owner in (t, map_err GtAllocator r).
