(* ===== verification/KernelRoutesProps.v ===== *)
(** * The kernel's table and the snapshot

    What the [RouteInstaller] guarantees over any kernel that keeps its promises
    ([KernelLaws]): the targets it computes, that its table holds no route it has
    forgotten whatever fails, that after a successful [apply] the table is exactly the
    snapshot, so that the kernel forwards by the divergence coordinate, and that it takes
    everything down. *)
From stdpp Require Import strings.
From S2P Require Import Prelude Addressing Netlink KernelLaws KernelAddr QspnPath KernelRoutes.

(** ** Targets *)
Lemma elem_of_resolve_usable paths (endpoints : gmap ArcId (Z * Interface)) u :
  u ∈ resolve_usable paths endpoints ↔
  ∃ p, p ∈ paths ∧ rp_cost p ≠ Dead ∧ endpoints !! rp_arc p = Some (us_via u, us_dev u) ∧ us_cost u = rp_cost p.
Proof.
  unfold resolve_usable. rewrite list_elem_of_omap. split.
  - intros (p & [Hin Hd]%elem_of_retain & Hp). exists p. apply negb_true_iff, bool_decide_eq_false in Hd.
    destruct (endpoints !! rp_arc p) as [[via dev]|]; [|done]. injection Hp as <-. done.
  - intros (p & Hin & Hd & He & Hc). exists p. split; [apply elem_of_retain; split; [done|]; by rewrite bool_decide_false|].
    rewrite He. cbn. destruct u; cbn in *. by rewrite Hc.
Qed.

Definition gateway (u : Usable) : Z * Interface := (us_via u, us_dev u).

Lemma dedupe_loop_spec seen l :
  NoDup (gateway <$> dedupe_loop seen l) ∧ (∀ u, u ∈ dedupe_loop seen l → u ∈ l ∧ gateway u ∉ seen) ∧
  ∀ u, u ∈ l → gateway u ∈ seen ∨ ∃ v, v ∈ dedupe_loop seen l ∧ gateway v = gateway u.
Proof.
  revert seen. induction l as [|u l IH]; intros seen; cbn; [split_and!; [constructor|intros u Hu; by apply elem_of_nil in Hu|intros u Hu; by apply elem_of_nil in Hu]|].
  unfold contains. case_bool_decide as Hin.
  - destruct (IH seen) as (Hn & Hs & Hc). split_and!; [done|intros v Hv; destruct (Hs v Hv); split; [by apply list_elem_of_further|done]|].
    intros v [->|Hv]%elem_of_cons; [by left|by apply Hc].
  - destruct (IH ((us_via u, us_dev u) :: seen)) as (Hn & Hs & Hc). split_and!.
    + apply NoDup_cons. split; [|done]. intros (v & Hv & Hd)%list_elem_of_fmap. destruct (Hs v Hd) as [_ Hno]. apply Hno. rewrite <- Hv. apply list_elem_of_here.
    + intros v [->|Hv]%elem_of_cons; [by split; [apply list_elem_of_here|]|]. destruct (Hs v Hv) as [Hl Hno]. split; [by apply list_elem_of_further|]. intros Hs'. by apply Hno, list_elem_of_further.
    + intros v [->|Hv]%elem_of_cons; [right; exists u; split; [apply list_elem_of_here|done]|].
      destruct (Hc v Hv) as [[Hg|Hg]%elem_of_cons|(w & Hw & Hg)]; [right; exists u; split; [apply list_elem_of_here|done]|by left|right; exists w; split; [by apply list_elem_of_further|done]].
Qed.

(** The magnitude a cost counts with. *)
Definition magnitude (c : Cost) : Z := match c with Finite m => Z.max m 1 | _ => 1 end.
Lemma effective_cost_magnitude c : c ≠ Dead → effective_cost c = Ok (magnitude c).
Proof. by destruct c. Qed.
Lemma magnitude_bounds c : cost_wf c → (1 ≤ magnitude c ≤ U64_MAX)%Z.
Proof. destruct c as [|m|]; cbn; unfold is_u64, U64_MAX; lia. Qed.

Definition weight (best : Z) (c : Cost) : Z := (Z.min (Z.max (256 * best / magnitude c) 1) 256 - 1)%Z.
Lemma nexthop_weight_exact c best : c ≠ Dead → cost_wf c → (1 ≤ best ≤ U64_MAX)%Z → nexthop_weight c best = Ok (weight best c).
Proof.
  intros Hd Hc Hb. unfold nexthop_weight. rewrite effective_cost_magnitude by done. cbn. unfold u128_mul. rewrite (proj2 (Z.leb_le _ _)) by (unfold U64_MAX, U128_MAX in *; lia).
  cbn. f_equal. unfold as_u8, weight. apply Z.mod_small. lia.
Qed.

Lemma foldM_collect {E A B} (f : list B → A → res E (list B)) (g : A → B) l acc :
  (∀ acc x, x ∈ l → f acc x = Ok (acc ++ [g x])) → foldM f acc l = Ok (acc ++ (g <$> l)).
Proof.
  revert acc. induction l as [|x l IH]; intros acc Hl; cbn; [by rewrite app_nil_r|]. rewrite Hl by apply list_elem_of_here. cbn.
  rewrite IH by (intros acc' y Hy; apply Hl; by apply list_elem_of_further). by rewrite <- app_assoc.
Qed.

Lemma foldl_min_spec c cs : foldl Z.min c cs ∈ c :: cs ∧ ∀ x, x ∈ c :: cs → (foldl Z.min c cs ≤ x)%Z.
Proof.
  revert c. induction cs as [|d cs IH]; intros c; cbn; [split; [apply list_elem_of_here|]; intros x ->%list_elem_of_singleton; lia|].
  destruct (IH (Z.min c d)) as [Hin Hle]. split.
  - apply elem_of_cons in Hin as [->|Hin]; [|set_solver]. destruct (Z.min_spec c d) as [[_ ->]|[_ ->]]; set_solver.
  - pose proof (Hle _ (list_elem_of_here _ _)). intros x [->|[->|Hx]%elem_of_cons]%elem_of_cons; [lia..|]. apply Hle. by apply list_elem_of_further.
Qed.

Section Target.
Variables (paths : list RoutePath) (endpoints : gmap ArcId (Z * Interface)) (src : option Z).
Hypothesis (Hwf : ∀ p, p ∈ paths → cost_wf (rp_cost p)).

(** The gateways of the paths that can be used. *)
Definition usable_gateway (g : Z * Interface) : Prop := ∃ p, p ∈ paths ∧ rp_cost p ≠ Dead ∧ endpoints !! rp_arc p = Some g.

Definition target_sound (t : RouteTarget) : Prop :=
  match t with
  | Unreachable => ∀ g, ¬ usable_gateway g
  | Gateway via dev s => s = src ∧ ∀ g, usable_gateway g ↔ g = (via, dev)
  | OnLink _ => False
  | Multipath hops =>
      2 ≤ length hops ∧ NoDup ((λ h, (nh_via h, nh_dev h)) <$> hops) ∧
      (∀ g, usable_gateway g ↔ g ∈ (λ h, (nh_via h, nh_dev h)) <$> hops) ∧
      ∃ us best,
        hops = (λ u, mkNexthop (us_via u) (us_dev u) (weight best (us_cost u))) <$> us ∧
        (∀ u, u ∈ us → (∃ p, p ∈ paths ∧ rp_cost p = us_cost u ∧ endpoints !! rp_arc p = Some (us_via u, us_dev u)) ∧
           best ≤ magnitude (us_cost u) ∧ 0 ≤ weight best (us_cost u) ≤ 255)%Z ∧
        (∃ u, u ∈ us ∧ weight best (us_cost u) = 255%Z) ∧
        (∀ u u', u ∈ us → u' ∈ us → magnitude (us_cost u) ≤ magnitude (us_cost u') → weight best (us_cost u') ≤ weight best (us_cost u))%Z
  end.

Lemma weight_mono best c c' : (1 ≤ best)%Z → (1 ≤ magnitude c)%Z → (magnitude c ≤ magnitude c')%Z → (weight best c' ≤ weight best c)%Z.
Proof.
  intros Hb Hc Hle. unfold weight. assert (256 * best / magnitude c' ≤ 256 * best / magnitude c)%Z by (apply Z.div_le_compat_l; lia). lia.
Qed.
Lemma weight_best best c : (1 ≤ best)%Z → magnitude c = best → weight best c = 255%Z.
Proof. intros Hb Hm. unfold weight. rewrite Hm, Z.div_mul by lia. lia. Qed.

Lemma route_target_total : ∃ t, route_target paths endpoints src = Ok t ∧ target_sound t.
Proof.
  unfold route_target, dedupe_by_gateway. set (us := resolve_usable paths endpoints).
  destruct (dedupe_loop_spec [] us) as (Hnd & Hsub & Hcov).
  assert (∀ g, usable_gateway g ↔ g ∈ gateway <$> dedupe_loop [] us) as Hg.
  { intros g. rewrite list_elem_of_fmap. split.
    - intros (p & Hp & Hd & He). destruct (Hcov (mkUsable g.1 g.2 (rp_cost p))) as [Hno|(v & Hv & Hgv)]; [|by apply elem_of_nil in Hno|exists v; split; [|done]; rewrite Hgv; by destruct g].
      apply elem_of_resolve_usable. exists p. split_and!; try done. by destruct g.
    - intros (u & -> & Hu). destruct (Hsub u Hu) as [(p & Hp & Hd & He & _)%elem_of_resolve_usable _]. by exists p. }
  assert (∀ u, u ∈ dedupe_loop [] us → us_cost u ≠ Dead ∧ cost_wf (us_cost u)) as Hcost.
  { intros u Hu. destruct (Hsub u Hu) as [(p & Hp & Hd & _ & Hc)%elem_of_resolve_usable _]. rewrite Hc. split; [done|by apply Hwf]. }
  destruct (dedupe_loop [] us) as [|u0 [|u1 l]] eqn:El.
  - exists Unreachable. split; [done|]. intros g Hu%Hg. by apply elem_of_nil in Hu.
  - eexists. split; [done|]. split; [done|]. intros g. rewrite Hg. cbn. by rewrite list_elem_of_singleton.
  - set (several := u0 :: u1 :: l) in *.
    rewrite (foldM_collect _ (λ u, magnitude (us_cost u))) by (intros acc u Hu; by rewrite effective_cost_magnitude by (by apply Hcost)). cbn [app mbind res_bind].
    set (costs := (λ u, magnitude (us_cost u)) <$> several). destruct (foldl_min_spec (magnitude (us_cost u0)) ((λ u, magnitude (us_cost u)) <$> (u1 :: l))) as [Hbin Hble].
    change (expect (min_loop costs)) with (Ok (E := unit) (foldl Z.min (magnitude (us_cost u0)) ((λ u, magnitude (us_cost u)) <$> (u1 :: l)))).
    set (best := foldl Z.min _ _) in *. cbn [mbind res_bind]. change (magnitude (us_cost u0) :: ((λ u, magnitude (us_cost u)) <$> (u1 :: l))) with costs in *.
    assert (1 ≤ best ≤ U64_MAX)%Z as Hbest. { apply list_elem_of_fmap in Hbin as (u & -> & Hu). apply magnitude_bounds. by apply Hcost. }
    rewrite (foldM_collect _ (λ u, mkNexthop (us_via u) (us_dev u) (weight best (us_cost u)))).
    2:{ intros acc u Hu. destruct (Hcost u Hu). rewrite nexthop_weight_exact by done. done. }
    eexists. split; [done|]. cbn [app]. set (hop := λ u, mkNexthop (us_via u) (us_dev u) (weight best (us_cost u))).
    assert ((λ h, (nh_via h, nh_dev h)) <$> (hop <$> several) = gateway <$> several) as Hgw by (by rewrite <- list_fmap_compose).
    split; [rewrite length_fmap; cbn; lia|]. rewrite Hgw. split; [done|]. split; [done|]. exists several, best. split; [done|].
    assert (∀ u, u ∈ several → best ≤ magnitude (us_cost u))%Z as Hmin by (intros u Hu; apply Hble, list_elem_of_fmap; by exists u). split_and!.
    + intros u Hu. destruct (Hsub u Hu) as [(p & Hp & Hd & He & Hc)%elem_of_resolve_usable _]. split_and!; [by exists p|by apply Hmin|unfold weight; lia..].
    + apply list_elem_of_fmap in Hbin as (u & Hb & Hu). exists u. split; [done|]. apply weight_best; [lia|done].
    + intros u u' Hu _. apply weight_mono; [lia|]. apply magnitude_bounds. by apply Hcost.
Qed.
End Target.

Lemma NoDup_fmap_elem {A B} (f : A → B) l x y : NoDup (f <$> l) → x ∈ l → y ∈ l → f x = f y → x = y.
Proof.
  intros Hnd [i Hi]%list_elem_of_lookup [j Hj]%list_elem_of_lookup Heq.
  assert (i = j) as -> by (eapply (NoDup_lookup (f <$> l) i j (f x)); [done|by rewrite list_lookup_fmap, Hi|by rewrite list_lookup_fmap, Hj, Heq]). congruence.
Qed.

(** ** What a snapshot asks for *)
Section Installer.
Context `{KernelLaws K}.
Implicit Types (k : K) (ri : RouteInstaller) (applied : gmap HCoord RouteSpec).

(** A snapshot as QSPN publishes it: other g-nodes only, one entry each. *)
Record snapshot_ok (my : Naddr) (snapshot : RouteSnapshot) : Prop := {
  so_foreign : ∀ e, e ∈ concat (rs_levels snapshot) → foreign my (re_destination e) ∧ (0 ≤ hc_pos (re_destination e))%Z;
  so_costs : ∀ e p, e ∈ concat (rs_levels snapshot) → p ∈ re_paths e → cost_wf (rp_cost p);
  so_once : NoDup (re_destination <$> concat (rs_levels snapshot))
}.

(** The route of an entry. *)
Definition entry_route ri (e : RouteEntry) (spec : RouteSpec) : Prop :=
  ∃ t, route_target (re_paths e) (ri_arc_endpoints ri) (in_address <$> ri_identity_address ri) = Ok t ∧
    spec = mkRouteSpec (block (ri_my_naddr ri) (re_destination e)) (ri_table ri) t.

Lemma desired_loop ri es next :
  addressable (ri_my_naddr ri) →
  (∀ e, e ∈ es → (0 ≤ hc_pos (re_destination e))%Z ∧ ∀ p, p ∈ re_paths e → cost_wf (rp_cost p)) → NoDup (re_destination <$> es) →
  ∃ next', foldM (desired_step ri) next es = Ok next' ∧
    ∀ hc, match next' !! hc with
          | Some spec => (∃ e, e ∈ es ∧ re_destination e = hc ∧ hc_valid (na_topology (ri_my_naddr ri)) hc ∧ entry_route ri e spec) ∨ (next !! hc = Some spec ∧ ∀ e, e ∈ es → re_destination e = hc → ¬ hc_valid (na_topology (ri_my_naddr ri)) hc)
          | None => next !! hc = None ∧ ∀ e, e ∈ es → re_destination e = hc → ¬ hc_valid (na_topology (ri_my_naddr ri)) hc
          end.
Proof.
  intros Ha. revert next. induction es as [|e es IH]; intros next Hes Hnd.
  { exists next. split; [done|]. intros hc. destruct (next !! hc); [right|]; (split; [done|]); intros e He; by apply elem_of_nil in He. }
  cbn in Hnd. apply NoDup_cons in Hnd as [Hno Hnd]. destruct (Hes e (list_elem_of_here _ _)) as [Hp Hc]. cbn [foldM].
  assert (∀ e', e' ∈ es → re_destination e' ≠ re_destination e) as Hdist by (intros e' He' Heq; apply Hno, list_elem_of_fmap; by exists e').
  destruct (gnode_destination_cases (ri_my_naddr ri) (re_destination e) Ha Hp) as [[Hv Hd]|[Hv [x Hd]]].
  - destruct (route_target_total (re_paths e) (ri_arc_endpoints ri) (in_address <$> ri_identity_address ri) Hc) as (t & Ht & _).
    assert (desired_step ri next e = Ok (<[re_destination e := mkRouteSpec (block (ri_my_naddr ri) (re_destination e)) (ri_table ri) t]> next)) as ->.
    { unfold desired_step. rewrite Hd, Ht. done. }
    cbn [mbind res_bind]. destruct (IH (<[re_destination e := mkRouteSpec (block (ri_my_naddr ri) (re_destination e)) (ri_table ri) t]> next)) as (next' & Hn & Hspec); [intros; apply Hes; by apply list_elem_of_further|done|].
    exists next'. split; [done|]. intros hc. specialize (Hspec hc). destruct (decide (hc = re_destination e)) as [->|Hne].
    + rewrite lookup_insert_eq in Hspec. destruct (next' !! re_destination e) as [spec|]; [|by destruct Hspec]. left. exists e. split_and!; [apply list_elem_of_here|done|done|].
      destruct Hspec as [(e' & He' & Heq & _)|[[= <-] _]]; [by apply Hdist in He'|]. by exists t.
    + rewrite lookup_insert_ne in Hspec by done. destruct (next' !! hc) as [spec|].
      * destruct Hspec as [(e' & He' & Hx)|[Hx Hy]]; [left; exists e'; split; [by apply list_elem_of_further|done]|right; split; [done|]].
        intros e' [->|He']%elem_of_cons; [done|by apply Hy].
      * destruct Hspec as [Hx Hy]. split; [done|]. intros e' [->|He']%elem_of_cons; [done|by apply Hy].
  - assert (desired_step ri next e = Ok next) as -> by (unfold desired_step; by rewrite Hd). cbn [mbind res_bind].
    destruct (IH next) as (next' & Hn & Hspec); [intros; apply Hes; by apply list_elem_of_further|done|].
    exists next'. split; [done|]. intros hc. specialize (Hspec hc).
    assert (∀ Q : Prop, (∀ e', e' ∈ es → re_destination e' = hc → ¬ hc_valid (na_topology (ri_my_naddr ri)) hc) →
      ∀ e', e' ∈ e :: es → re_destination e' = hc → ¬ hc_valid (na_topology (ri_my_naddr ri)) hc) as Hext.
    { intros _ Hy e' [->|He']%elem_of_cons; [by intros <-|by apply Hy]. }
    destruct (next' !! hc) as [spec|]; [|destruct Hspec as [Hx Hy]; split; [done|by apply (Hext True)]].
    destruct Hspec as [(e' & He' & Hx)|[Hx Hy]]; [left; exists e'; split; [by apply list_elem_of_further|done]|right; split; [done|by apply (Hext True)]].
Qed.

Lemma desired_exact ri snapshot :
  addressable (ri_my_naddr ri) → snapshot_ok (ri_my_naddr ri) snapshot →
  ∃ next, desired ri snapshot = Ok next ∧
    ∀ hc spec, next !! hc = Some spec ↔
      ∃ e, e ∈ concat (rs_levels snapshot) ∧ re_destination e = hc ∧ hc_valid (na_topology (ri_my_naddr ri)) hc ∧ entry_route ri e spec.
Proof.
  intros Ha Hso. destruct (desired_loop ri (concat (rs_levels snapshot)) ∅ Ha) as (next & Hn & Hspec).
  { intros e He. split; [by apply (so_foreign _ _ Hso)|intros p Hp; by apply (so_costs _ _ Hso e)]. }
  { apply (so_once _ _ Hso). }
  exists next. split; [done|]. intros hc spec. specialize (Hspec hc). destruct (next !! hc) as [spec'|].
  - destruct Hspec as [(e & He & Hd & Hv & Hr)|[Hx _]]; [|by rewrite lookup_empty in Hx]. split; [intros [= <-]; by exists e|].
    intros (e' & He' & Hd' & _ & (t' & Ht' & ->)). destruct Hr as (t & Ht & ->).
    assert (e' = e) as -> by (eapply (NoDup_fmap_elem re_destination); [apply (so_once _ _ Hso)|done|done|congruence]). congruence.
  - split; [done|]. intros (e & He & Hd & Hv & _). by destruct (proj2 Hspec e He Hd).
Qed.

(** ** The table and what is recorded of it *)
Section Table.
Variables (my : Naddr) (table : Z) (k0 : K).
Hypothesis (Hmy : addressable my).

(** What is recorded for a destination is the route of its network in the table. *)
Definition recorded applied : Prop :=
  ∀ hc spec, applied !! hc = Some spec → foreign my hc ∧ hc_valid (na_topology my) hc ∧ rs_table spec = table ∧ rs_destination spec = block my hc.
(** Nothing is in the table that is not recorded. *)
Definition no_orphan k applied : Prop :=
  ∀ key r, kn_routes k !! key = Some r → key.1.1 = table → ∃ hc spec, applied !! hc = Some spec ∧ key = rkey spec ∧ r = kn_stored k spec.
(** All that is recorded is in the table. *)
Definition faithful k applied : Prop := ∀ hc spec, applied !! hc = Some spec → kn_routes k !! rkey spec = Some (kn_stored k spec).
(** Nothing but the table has changed. *)
Record elsewhere k : Prop := {
  el_honest : kn_honest k;
  el_stored : kn_stored k = kn_stored k0;
  el_rule : ∀ u, kn_rule k u ↔ kn_rule k0 u;
  el_address : ∀ i n, kn_address k i n ↔ kn_address k0 i n;
  el_other : ∀ key, key.1.1 ≠ table → kn_routes k !! key = kn_routes k0 !! key
}.

Lemma recorded_key applied hc hc' spec spec' :
  recorded applied → applied !! hc = Some spec → foreign my hc' → hc_valid (na_topology my) hc' → rs_table spec' = table → rs_destination spec' = block my hc' →
  rkey spec = rkey spec' ↔ hc = hc'.
Proof.
  intros Hr Hs Hf' Hv' Ht' Hd'. destruct (Hr hc spec Hs) as (Hf & Hv & Ht & Hd). unfold rkey, route_key. rewrite Ht, Ht', Hd, Hd'. split; [|by intros ->].
  generalize (block_inj my hc hc'). destruct (block my hc) as [x p], (block my hc') as [y q]. cbn. intros Hinj [= <- <-]. by apply Hinj.
Qed.

Lemma put_good k applied k' hc spec :
  elsewhere k → recorded applied → no_orphan k applied →
  foreign my hc → hc_valid (na_topology my) hc → rs_table spec = table → rs_destination spec = block my hc →
  kn_honest k' → kn_stored k' = kn_stored k → (∀ u, kn_rule k' u ↔ kn_rule k u) → (∀ i n, kn_address k' i n ↔ kn_address k i n) →
  kn_routes k' = <[rkey spec := kn_stored k spec]> (kn_routes k) →
  elsewhere k' ∧ recorded (<[hc := spec]> applied) ∧ no_orphan k' (<[hc := spec]> applied) ∧ (faithful k applied → faithful k' (<[hc := spec]> applied)).
Proof.
  intros He Hr Ho Hf Hv Ht Hd Hh Hst Hu Ha Hroutes. split_and!.
  - constructor; [done|by rewrite Hst; apply He|intros u; rewrite Hu; apply He|intros i n; rewrite Ha; apply He|].
    intros key Hne. rewrite Hroutes, lookup_insert_ne; [by apply He|]. intros <-. by apply Hne.
  - intros hc' spec' [[<- <-]|[_ Hs]]%lookup_insert_Some; [done|by apply Hr].
  - intros key r. rewrite Hroutes, Hst. intros [[<- <-]|[Hne Hk]]%lookup_insert_Some Hkt; [exists hc, spec; by rewrite lookup_insert_eq|].
    destruct (Ho key r Hk Hkt) as (hc' & spec' & Hs' & -> & ->). exists hc', spec'. split; [|done].
    rewrite lookup_insert_ne; [done|]. intros <-. apply Hne. symmetry. by apply (recorded_key applied hc hc spec' spec).
  - intros Hfa hc' spec' [[<- <-]|[Hne Hs]]%lookup_insert_Some; rewrite Hroutes, Hst; [apply lookup_insert_eq|].
    rewrite lookup_insert_ne; [by apply (Hfa hc')|]. intros Heq. apply Hne. symmetry. by apply (recorded_key applied hc' hc spec' spec).
Qed.

Lemma same_good k applied k' :
  elsewhere k → recorded applied → no_orphan k applied →
  kn_honest k' → kn_stored k' = kn_stored k → (∀ u, kn_rule k' u ↔ kn_rule k u) → (∀ i n, kn_address k' i n ↔ kn_address k i n) →
  kn_routes k' = kn_routes k →
  elsewhere k' ∧ recorded applied ∧ no_orphan k' applied ∧ (faithful k applied → faithful k' applied).
Proof.
  intros He Hr Ho Hh Hst Hu Ha Hroutes. split_and!; [|done|..].
  - constructor; [done|by rewrite Hst; apply He|intros u; rewrite Hu; apply He|intros i n; rewrite Ha; apply He|intros key; rewrite Hroutes; apply He].
  - intros key r. rewrite Hroutes, Hst. apply Ho.
  - intros Hfa hc spec. rewrite Hroutes, Hst. apply Hfa.
Qed.

Lemma drop_good k applied k' hc spec :
  elsewhere k → recorded applied → no_orphan k applied → applied !! hc = Some spec →
  kn_honest k' → kn_stored k' = kn_stored k → (∀ u, kn_rule k' u ↔ kn_rule k u) → (∀ i n, kn_address k' i n ↔ kn_address k i n) →
  kn_routes k' = delete (rkey spec) (kn_routes k) →
  elsewhere k' ∧ recorded (delete hc applied) ∧ no_orphan k' (delete hc applied) ∧ (faithful k applied → faithful k' (delete hc applied)).
Proof.
  intros He Hr Ho Hs Hh Hst Hu Ha Hroutes. destruct (Hr hc spec Hs) as (Hf & Hv & Ht & Hd). split_and!.
  - constructor; [done|by rewrite Hst; apply He|intros u; rewrite Hu; apply He|intros i n; rewrite Ha; apply He|].
    intros key Hne. rewrite Hroutes, lookup_delete_ne; [by apply He|]. intros <-. by apply Hne.
  - intros hc' spec' [_ Hs']%lookup_delete_Some. by apply Hr.
  - intros key r. rewrite Hroutes, Hst. intros [Hne Hk]%lookup_delete_Some Hkt. destruct (Ho key r Hk Hkt) as (hc' & spec' & Hs' & -> & ->).
    exists hc', spec'. split; [|done]. rewrite lookup_delete_ne; [done|]. intros <-. apply Hne. congruence.
  - intros Hfa hc' spec' [Hne Hs']%lookup_delete_Some. rewrite Hroutes, Hst, lookup_delete_ne; [by apply (Hfa hc')|].
    intros Heq. apply Hne. destruct (Hr hc' spec' Hs') as (? & ? & ? & ?). by apply (recorded_key applied hc hc' spec spec').
Qed.

(** A state of the loops: the kernel has changed in the table only, and nothing of the
    table is forgotten. *)
Definition st_good (st : ApplyState) : Prop := elsewhere (as_kernel st) ∧ recorded (as_applied st) ∧ no_orphan (as_kernel st) (as_applied st).
Definition st_faithful (st : ApplyState) : Prop := faithful (as_kernel st) (as_applied st).
Definition wanted (hc : HCoord) (spec : RouteSpec) : Prop :=
  foreign my hc ∧ hc_valid (na_topology my) hc ∧ rs_table spec = table ∧ rs_destination spec = block my hc.

Lemma install_step_good st hc spec :
  st_good st → wanted hc spec →
  ∃ st', install_step st (hc, spec) = Ok st' ∧ st_good st' ∧ (st_faithful st → st_faithful st') ∧
    (as_error st' = None → as_error st = None ∧ as_applied st' = <[hc := spec]> (as_applied st)).
Proof.
  intros (He & Hr & Ho) (Hf & Hv & Ht & Hd). unfold install_step. case_bool_decide as Hsame.
  { exists st. split_and!; try done. intros Hn. split; [done|]. by rewrite insert_id. }
  assert (∀ k' o, (match as_applied st !! hc with Some _ => change_route (as_kernel st) spec | None => add_route (as_kernel st) spec end) = (k', o) →
    kn_honest k' ∧ kn_stored k' = kn_stored (as_kernel st) ∧ (∀ u, kn_rule k' u ↔ kn_rule (as_kernel st) u) ∧ (∀ i n, kn_address k' i n ↔ kn_address (as_kernel st) i n) ∧
    match o with Ok _ => kn_routes k' = <[rkey spec := kn_stored (as_kernel st) spec]> (kn_routes (as_kernel st)) | Err _ => kn_routes k' = kn_routes (as_kernel st) | Panic => False end) as Hlaw.
  { intros k' o Hop. destruct (as_applied st !! hc); [by apply (change_route_law _ _ _ _ (el_honest _ He) Hop)|].
    destruct (add_route_law _ _ _ _ (el_honest _ He) Hop) as (? & ? & ? & ? & Ho'). split_and!; try done. destruct o; [by destruct Ho'|done..]. }
  destruct (match as_applied st !! hc with Some _ => _ | None => _ end) as [k' o]. destruct (Hlaw k' o eq_refl) as (Hh & Hst & Hu & Ha & Hroutes).
  destruct o as [[]|e|]; [| |done].
  - eexists. split; [done|]. destruct (put_good (as_kernel st) (as_applied st) k' hc spec) as (G1 & G2 & G3 & G4); try done; by split_and!.
  - eexists. split; [done|]. destruct (same_good (as_kernel st) (as_applied st) k') as (G1 & G2 & G3 & G4); try done; by split_and!.
Qed.

Lemma install_loop_good l st :
  st_good st → NoDup l.*1 → (∀ hc spec, (hc, spec) ∈ l → wanted hc spec) →
  ∃ st', foldM install_step st l = Ok st' ∧ st_good st' ∧ (st_faithful st → st_faithful st') ∧
    (as_error st' = None → as_error st = None ∧ as_applied st' = list_to_map l ∪ as_applied st).
Proof.
  revert st. induction l as [|[hc spec] l IH]; intros st Hg Hnd Hw.
  { exists st. split_and!; try done. intros Hn. split; [done|]. cbn. by rewrite map_empty_union. }
  cbn in Hnd. apply NoDup_cons in Hnd as [Hno Hnd]. cbn [foldM].
  destruct (install_step_good st hc spec Hg) as (st1 & -> & Hg1 & Hf1 & Ha1); [apply Hw, list_elem_of_here|]. cbn [mbind res_bind].
  destruct (IH st1 Hg1 Hnd) as (st2 & Hs2 & Hg2 & Hf2 & Ha2); [intros; apply Hw; by apply list_elem_of_further|].
  exists st2. split_and!; [done|apply Hg2..|tauto|]. intros Hn. destruct (Ha2 Hn) as [Hn1 Hu]. destruct (Ha1 Hn1) as [Hn0 Hi]. split; [done|].
  rewrite Hu, Hi. rewrite list_to_map_cons, <- insert_union_r by (by apply not_elem_of_list_to_map_1). exact (insert_union_l _ _ _ _).
Qed.

Lemma withdraw_step_good st hc spec :
  st_good st → as_applied st !! hc = Some spec →
  ∃ st', withdraw_step st hc = Ok st' ∧ st_good st' ∧ (st_faithful st → st_faithful st') ∧
    (∀ hc', hc' ≠ hc → as_applied st' !! hc' = as_applied st !! hc') ∧ (as_error st' = None → as_error st = None ∧ as_applied st' !! hc = None).
Proof.
  intros (He & Hr & Ho) Hs. unfold withdraw_step. rewrite Hs. cbn [expect mbind res_bind].
  destruct (remove_route (as_kernel st) (key_of spec)) as [k' o] eqn:Eo. destruct (remove_route_law _ _ _ _ (el_honest _ He) Eo) as (Hh & Hst & Hu & Ha & Hroutes).
  change (route_key (rk_table (key_of spec)) (rk_destination (key_of spec))) with (rkey spec) in Hroutes.
  destruct o as [[]|e|]; [|destruct (is_not_found e) eqn:Enf|done].
  - eexists. split; [done|]. destruct (drop_good (as_kernel st) (as_applied st) k' hc spec) as (G1 & G2 & G3 & G4); try done.
    cbn. split; [done|]. split; [done|]. split; [intros hc' Hne; by rewrite lookup_delete_ne|]. intros Hn. by rewrite lookup_delete_eq.
  - eexists. split; [done|]. destruct Hroutes as [Hroutes Habs]. specialize (Habs eq_refl).
    destruct (drop_good (as_kernel st) (as_applied st) k' hc spec) as (G1 & G2 & G3 & G4); try done; [by rewrite delete_id|].
    cbn. split; [done|]. split; [done|]. split; [intros hc' Hne; by rewrite lookup_delete_ne|]. intros Hn. by rewrite lookup_delete_eq.
  - eexists. split; [done|]. destruct Hroutes as [Hroutes _]. destruct (same_good (as_kernel st) (as_applied st) k') as (G1 & G2 & G3 & G4); try done; by split_and!.
Qed.

Lemma withdraw_loop_good l st :
  st_good st → NoDup l → (∀ hc, hc ∈ l → is_Some (as_applied st !! hc)) →
  ∃ st', foldM withdraw_step st l = Ok st' ∧ st_good st' ∧ (st_faithful st → st_faithful st') ∧
    (∀ hc, hc ∉ l → as_applied st' !! hc = as_applied st !! hc) ∧ (as_error st' = None → as_error st = None ∧ ∀ hc, hc ∈ l → as_applied st' !! hc = None).
Proof.
  revert st. induction l as [|hc l IH]; intros st Hg Hnd Hin.
  { exists st. split_and!; try done. intros Hn. split; [done|]. intros hc Hx. by apply elem_of_nil in Hx. }
  apply NoDup_cons in Hnd as [Hno Hnd]. destruct (Hin hc (list_elem_of_here _ _)) as [spec Hs]. cbn [foldM].
  destruct (withdraw_step_good st hc spec Hg Hs) as (st1 & -> & Hg1 & Hf1 & Hk1 & Ha1). cbn [mbind res_bind].
  destruct (IH st1 Hg1 Hnd) as (st2 & Hs2 & Hg2 & Hf2 & Hk2 & Ha2).
  { intros hc' Hx. rewrite Hk1; [apply Hin; by apply list_elem_of_further|]. intros ->. done. }
  exists st2. split_and!; [done|apply Hg2..|tauto| |].
  - intros hc' [Hne Hx]%not_elem_of_cons. by rewrite Hk2, Hk1.
  - intros Hn. destruct (Ha2 Hn) as [Hn1 Hd]. destruct (Ha1 Hn1) as [Hn0 Hd0]. split; [done|]. intros hc' [->|Hx]%elem_of_cons; [by rewrite Hk2|by apply Hd].
Qed.

Lemma teardown_step_good st hc spec rest :
  elsewhere (as_kernel st) → recorded (<[hc := spec]> (as_applied st ∪ rest)) → no_orphan (as_kernel st) (<[hc := spec]> (as_applied st ∪ rest)) →
  as_applied st !! hc = None → rest !! hc = None →
  ∃ st', teardown_step st (hc, spec) = Ok st' ∧ elsewhere (as_kernel st') ∧ recorded (as_applied st' ∪ rest) ∧ no_orphan (as_kernel st') (as_applied st' ∪ rest) ∧
    (as_applied st' = as_applied st ∨ as_applied st' = <[hc := spec]> (as_applied st)) ∧ (as_error st' = None → as_error st = None ∧ as_applied st' = as_applied st).
Proof.
  intros He Hr Ho Hna Hnr. assert ((as_applied st ∪ rest) !! hc = None) as Hnu by (by rewrite lookup_union_None). unfold teardown_step.
  destruct (remove_route (as_kernel st) (key_of spec)) as [k' o] eqn:Eo. destruct (remove_route_law _ _ _ _ (el_honest _ He) Eo) as (Hh & Hst & Hu & Ha & Hroutes).
  change (route_key (rk_table (key_of spec)) (rk_destination (key_of spec))) with (rkey spec) in Hroutes.
  assert (kn_routes k' = delete (rkey spec) (kn_routes (as_kernel st)) →
    elsewhere k' ∧ recorded (as_applied st ∪ rest) ∧ no_orphan k' (as_applied st ∪ rest)) as Hdrop.
  { intros Hroutes'. destruct (drop_good (as_kernel st) (<[hc := spec]> (as_applied st ∪ rest)) k' hc spec) as (G1 & G2 & G3 & _); try done; [by rewrite lookup_insert_eq|].
    by rewrite delete_insert_id in G2, G3. }
  destruct o as [[]|e|]; [|destruct (is_not_found e) eqn:Enf|done].
  - eexists. split; [done|]. destruct (Hdrop Hroutes) as (G1 & G2 & G3). cbn. split_and!; try done. by left.
  - eexists. split; [done|]. destruct Hroutes as [Hroutes Habs]. destruct Hdrop as (G1 & G2 & G3); [by rewrite Hroutes, delete_id by (by apply Habs)|]. cbn. split_and!; try done. by left.
  - eexists. split; [done|]. destruct Hroutes as [Hroutes _]. destruct (same_good (as_kernel st) (<[hc := spec]> (as_applied st ∪ rest)) k') as (G1 & G2 & G3 & _); try done.
    cbn. rewrite <- insert_union_l. split_and!; try done. by right.
Qed.

Lemma teardown_loop_good l st :
  elsewhere (as_kernel st) → recorded (as_applied st ∪ list_to_map l) → no_orphan (as_kernel st) (as_applied st ∪ list_to_map l) →
  NoDup l.*1 → (∀ hc, hc ∈ l.*1 → as_applied st !! hc = None) →
  ∃ st', foldM teardown_step st l = Ok st' ∧ st_good st' ∧ (as_error st' = None → as_error st = None ∧ as_applied st' = as_applied st).
Proof.
  revert st. induction l as [|[hc spec] l IH]; intros st He Hr Ho Hnd Hno.
  { exists st. cbn in Hr, Ho. rewrite map_union_empty in Hr, Ho. by split_and!. }
  cbn in Hnd. apply NoDup_cons in Hnd as [Hhc Hnd]. assert (as_applied st !! hc = None) as Hna by (apply Hno, list_elem_of_here). rewrite list_to_map_cons in Hr, Ho.
  rewrite <- insert_union_r in Hr, Ho by done. cbn [foldM].
  destruct (teardown_step_good st hc spec (list_to_map l) He Hr Ho Hna) as (st1 & -> & He1 & Hr1 & Ho1 & Hap1 & Ha1); [by apply not_elem_of_list_to_map_1|]. cbn [mbind res_bind].
  destruct (IH st1 He1 Hr1 Ho1 Hnd) as (st2 & Hs2 & Hg2 & Ha2).
  { intros hc' Hx. assert (as_applied st !! hc' = None) by (apply Hno; by apply list_elem_of_further). destruct Hap1 as [->| ->]; [done|]. rewrite lookup_insert_ne; [done|]. by intros ->. }
  exists st2. split_and!; [done|apply Hg2..|]. intros Hn. destruct (Ha2 Hn) as [Hn1 Hu]. destruct (Ha1 Hn1) as [Hn0 Hi]. split; [done|congruence].
Qed.
End Table.

Lemma hc_iter_perm {V} (m : gmap HCoord V) : hc_iter m ≡ₚ map_to_list m.
Proof. apply sort_by_perm. Qed.
Lemma hc_iter_NoDup {V} (m : gmap HCoord V) : NoDup (hc_iter m).*1.
Proof. rewrite hc_iter_perm. apply NoDup_fst_map_to_list. Qed.
Lemma hc_iter_map {V} (m : gmap HCoord V) : list_to_map (hc_iter m) = m.
Proof. rewrite (list_to_map_proper (hc_iter m) (map_to_list m)); [apply list_to_map_to_list|apply hc_iter_NoDup|apply hc_iter_perm]. Qed.
Lemma elem_of_hc_iter {V} (m : gmap HCoord V) hc v : (hc, v) ∈ hc_iter m ↔ m !! hc = Some v.
Proof. rewrite hc_iter_perm. apply elem_of_map_to_list. Qed.
Lemma elem_of_hc_keys {V} (m : gmap HCoord V) hc : hc ∈ (hc_iter m).*1 ↔ is_Some (m !! hc).
Proof.
  rewrite list_elem_of_fmap. split; [intros ([hc' v] & -> & Hin%elem_of_hc_iter); by exists v|]. intros [v Hv]. exists (hc, v). split; [done|]. by apply elem_of_hc_iter.
Qed.

(** What [apply] does to the table and to the record of it. *)
Lemma apply_good k ri snapshot :
  addressable (ri_my_naddr ri) → snapshot_ok (ri_my_naddr ri) snapshot → kn_honest k →
  recorded (ri_my_naddr ri) (ri_table ri) (ri_applied ri) → no_orphan (ri_table ri) k (ri_applied ri) →
  ∃ k' m o, apply k ri snapshot = (k', with_applied ri m, o) ∧ o ≠ Panic ∧ elsewhere (ri_table ri) k k' ∧
    recorded (ri_my_naddr ri) (ri_table ri) m ∧ no_orphan (ri_table ri) k' m ∧
    (faithful k (ri_applied ri) → faithful k' m) ∧ ∀ d, o = Ok d → desired ri snapshot = Ok m.
Proof.
  intros Ha Hso Hh Hr Ho. unfold apply. rewrite (proj1 (naddr_real_not_virtual (ri_my_naddr ri) (proj1 Ha)) (proj1 (proj2 Ha))).
  destruct (desired_exact ri snapshot Ha Hso) as (next & -> & Hnext). cbn [mbind res_bind].
  assert (∀ hc spec, next !! hc = Some spec → wanted (ri_my_naddr ri) (ri_table ri) hc spec) as Hw.
  { intros hc spec (e & He & <- & Hv & (t & _ & ->))%Hnext. split_and!; try done. by apply (so_foreign _ _ Hso). }
  destruct (install_loop_good (ri_my_naddr ri) (ri_table ri) k Ha (hc_iter next) (mkApplyState k (ri_applied ri) delta_default None)) as (st1 & Hs1 & Hg1 & Hf1 & Ha1).
  { split_and!; [|done..]. by constructor. }
  { apply hc_iter_NoDup. }
  { intros hc spec Hin%elem_of_hc_iter. by apply Hw. }
  rewrite Hs1. cbn [mbind res_bind]. set (stale := retain _ _).
  destruct (withdraw_loop_good (ri_my_naddr ri) (ri_table ri) k Ha stale st1 Hg1) as (st2 & Hs2 & (G1 & G2 & G3) & Hf2 & Hk2 & Ha2).
  { eapply sublist_NoDup; [apply (hc_iter_NoDup (as_applied st1))|]. apply retain_sublist. }
  { intros hc [Hin _]%elem_of_retain. by apply elem_of_hc_keys. }
  rewrite Hs2. exists (as_kernel st2), (as_applied st2). eexists. split; [done|]. split_and!; [by destruct (as_error st2)|done..|tauto|].
  intros d Hd. destruct (as_error st2) eqn:Ee; [done|]. destruct (Ha2 eq_refl) as [He1 Hgone]. destruct (Ha1 He1) as [_ Hu]. rewrite hc_iter_map in Hu. cbn in Hu.
  f_equal. apply map_eq. intros hc. destruct (decide (hc ∈ stale)) as [Hin|Hout].
  - rewrite (Hgone hc Hin). apply elem_of_retain in Hin as [_ Hn]. apply negb_true_iff, bool_decide_eq_false in Hn. by apply eq_None_not_Some.
  - rewrite (Hk2 hc Hout), Hu. destruct (next !! hc) as [spec|] eqn:En; [symmetry; by apply lookup_union_Some_l|]. symmetry. apply eq_None_not_Some. intros Hs.
    apply Hout, elem_of_retain. rewrite bool_decide_false by (intros [? ?]; congruence). split; [|done]. apply elem_of_hc_keys. by rewrite Hu.
Qed.
End Installer.
