(* ===== verification/KernelForward.v ===== *)
(** * From the map of paths to the forwarding of the kernel

    The contract of the [RouteInstaller] over any kernel that keeps its promises
    ([KernelLaws]): after a successful [apply] of the snapshot of a QSPN state the table
    forwards every address by the divergence coordinate of its node; and over a whole
    life of the installer, errors and losses of the kernel included, nothing of an
    identity is in the kernel that the installer does not record, so that a successful
    [teardown] leaves nothing behind. *)
From stdpp Require Import strings.
From S2P Require Import Prelude Addressing Netlink KernelLaws NetlinkProps KernelAddr QspnPath QspnRevise QspnState QspnExample QspnStateProps KernelRoutes KernelRoutesProps.

Lemma elem_of_list_concat {A} (x : A) ls : x ∈ concat ls ↔ ∃ l, l ∈ ls ∧ x ∈ l.
Proof. rewrite <- (list_fmap_id ls) at 1. apply (elem_of_concat_fmap id). Qed.

(** ** The snapshot of a QSPN state *)
Section Snapshot.
Context `{HashOrder}.
Implicit Types s : QspnState.

(** What the snapshot shows of a state: the known destinations below the guest level. *)
Definition shown s (d : HCoord) : Prop := hc_level d < guest_gnode_level s ∧ is_Some (destination s (hc_level d) (hc_pos d)).

Lemma shown_admitted s d np dest : state_wf s → destination s (hc_level d) (hc_pos d) = Some dest → np ∈ d_paths dest → admitted (st_my_naddr s) (st_arcs s) d np.
Proof.
  intros Hs Hd Hnp. pose proof (destination_wf s _ _ dest Hs Hd) as [_ _ _ [Hadm _ _]].
  destruct d as [l p]. exact (proj1 (Forall_forall _ _) Hadm np Hnp).
Qed.

Lemma shown_foreign s d : state_wf s → is_Some (destination s (hc_level d) (hc_pos d)) → foreign (st_my_naddr s) d ∧ (0 ≤ hc_pos d)%Z.
Proof.
  intros Hs [dest Hd]. pose proof (destination_wf s _ _ dest Hs Hd) as [_ Hp Hne _]. split; [|unfold is_u32 in Hp; lia].
  destruct (d_paths dest) as [|np ps] eqn:Eps; [done|]. destruct (shown_admitted s d np dest Hs Hd) as [[[Hlast _ _ _ Hfree _] _] _]; [rewrite Eps; apply list_elem_of_here|].
  apply Hfree. by apply last_Some_elem_of.
Qed.

Lemma entry_of_costs s d re p : state_wf s → is_Some (destination s (hc_level d) (hc_pos d)) → entry_of s d re → p ∈ re_paths re → cost_wf (rp_cost p).
Proof.
  intros Hs [dest Hd] (exposed & Hex & _ & Hperm & _) Hp. rewrite Hperm in Hp. apply list_elem_of_fmap in Hp as (np & -> & Hnp).
  destruct (exposed_paths_spec s _ _ dest Hs Hd) as (exposed' & Hex' & _ & Hsub). assert (exposed' = exposed) as -> by (destruct d; cbn in *; congruence).
  destruct (shown_admitted s d np dest Hs Hd (Hsub np Hnp)) as [[[_ _ _ _ _ (_ & Hc & _)] _] _]. cbn. apply saturating_add_wf; [by apply arc_cost_wf|done].
Qed.

Lemma NoDup_concat_levels l (ess : list (list RouteEntry)) :
  (∀ i es, ess !! i = Some es → NoDup (re_destination <$> es) ∧ ∀ e, e ∈ es → hc_level (re_destination e) = l + i) →
  NoDup (re_destination <$> concat ess) ∧ ∀ d, d ∈ re_destination <$> concat ess → l ≤ hc_level d.
Proof.
  revert l. induction ess as [|es ess IH]; intros l Hes; cbn [concat]; [split; [constructor|intros d Hd; by apply elem_of_nil in Hd]|].
  destruct (Hes 0 es eq_refl) as [Hnd Hlev]. destruct (IH (S l)) as [Hnd' Hlev'].
  { intros i es' Hi. destruct (Hes (S i) es' Hi) as [? Hx]. split; [done|]. intros e He. rewrite (Hx e He). lia. }
  assert (∀ d, d ∈ re_destination <$> es → hc_level d = l) as Hd by (intros d (e & -> & He)%list_elem_of_fmap; rewrite (Hlev e He); lia).
  rewrite fmap_app. split; [apply NoDup_app; split_and!; [done| |done]|].
  - intros d Hx Hy. specialize (Hd d Hx). specialize (Hlev' d Hy). lia.
  - intros d [Hx|Hx]%elem_of_app; [rewrite (Hd d Hx); lia|]. specialize (Hlev' d Hx). lia.
Qed.

Lemma snapshot_ok_state s snap :
  state_wf s → snapshot s = Ok snap →
  snapshot_ok (st_my_naddr s) snap ∧
  (∀ e, e ∈ concat (rs_levels snap) → shown s (re_destination e) ∧ entry_of s (re_destination e) e) ∧
  (∀ d, shown s d → ∃ e, e ∈ concat (rs_levels snap) ∧ re_destination e = d).
Proof.
  intros Hs Hsnap. destruct (snapshot_exact s Hs) as (snap' & Hsnap' & Hlen & Hl). assert (snap' = snap) as -> by congruence.
  assert (∀ l es e, rs_levels snap !! l = Some es → e ∈ es → hc_level (re_destination e) = l ∧ shown s (re_destination e) ∧ entry_of s (re_destination e) e) as Hin.
  { intros l es e Hes He. destruct (Hl l es Hes) as [Hempty Hfull]. destruct (Nat.lt_ge_cases l (guest_gnode_level s)) as [Hlt|Hge]; [|rewrite (Hempty Hge) in He; by apply elem_of_nil in He].
    destruct (Hfull Hlt) as (_ & Hall & Hd). destruct (proj1 (Hd (re_destination e))) as [<- Hdest]; [apply list_elem_of_fmap; by exists e|].
    split; [done|]. split; [by split|]. exact (proj1 (Forall_forall _ _) Hall e He). }
  assert (∀ e, e ∈ concat (rs_levels snap) → shown s (re_destination e) ∧ entry_of s (re_destination e) e) as Hall.
  { intros e (es & [l Hes]%list_elem_of_lookup & He)%elem_of_list_concat. by destruct (Hin l es e Hes He) as (_ & ? & ?). }
  split_and!; [|done|].
  - constructor.
    + intros e He. apply shown_foreign; [done|]. apply (Hall e He).
    + intros e p He. destruct (Hall e He) as [[_ Hd] Hentry]. by eapply entry_of_costs.
    + apply (NoDup_concat_levels 0). intros i es Hes. split; [|intros e He; by destruct (Hin i es e Hes He)].
      destruct (Hl i es Hes) as [Hempty Hfull]. destruct (Nat.lt_ge_cases i (guest_gnode_level s)) as [Hlt|Hge]; [by apply Hfull|]. rewrite (Hempty Hge). constructor.
  - intros d [Hlt Hd]. destruct (lookup_lt_is_Some_2 (rs_levels snap) (hc_level d)) as [es Hes].
    { rewrite Hlen. destruct Hd as [dest (m & Hm & _)%destination_Some]. apply lookup_lt_Some in Hm. by rewrite (sw_levels s Hs) in Hm. }
    destruct (Hl _ es Hes) as [_ Hfull]. destruct (Hfull Hlt) as (_ & _ & Hiff). pose proof (proj2 (Hiff d) (conj eq_refl Hd)) as Hx.
    apply list_elem_of_fmap in Hx as (e & -> & He). exists e. split; [|done]. apply elem_of_list_concat. exists es. split; [by eapply list_elem_of_lookup_2|done].
Qed.
End Snapshot.

(** ** The life of an installer *)
Section Life.
Context `{KernelLaws K}.
Implicit Types (k : K) (ri : RouteInstaller).

(** The network of a key of the table. *)
Definition key_net (key : Z * Z * Z) : Ipv4Net := mkIpv4Net key.1.2 key.2.

Lemma key_net_rkey spec : key_net (rkey spec) = rs_destination spec.
Proof. by destruct spec as [[] ? ?]. Qed.

Definition lo : Interface := IfName IDENTITY_ADDRESS_INTERFACE.

(** Nothing of the identity is in the kernel without a record: no route of its table, not
    its rule, not its address.  Before the address is real there is nothing at all. *)
Record owned k ri : Prop := {
  ow_honest : kn_honest k;
  ow_routes : no_orphan (ri_table ri) k (ri_applied ri);
  ow_rule : kn_rule k (identity_rule ri) → ri_rule_installed ri = true;
  ow_address : ∀ a, host_address (ri_my_naddr ri) = Ok a → kn_address k lo a → ri_identity_address ri = Some a;
  ow_own : ∀ a, ri_identity_address ri = Some a → host_address (ri_my_naddr ri) = Ok a;
  ow_record : addressable (ri_my_naddr ri) ∧ recorded (ri_my_naddr ri) (ri_table ri) (ri_applied ri) ∨
              is_virtual (ri_my_naddr ri) = true ∧ is_installed ri = false
}.

(** What can happen: the calls of the daemon, with whatever they answer, and the kernel
    losing routes of the table, the rule or the address (and changing anything else). *)
Inductive life : K → RouteInstaller → Prop :=
| life_new k my table priority :
    kn_honest k → (addressable my ∨ is_virtual my = true) →
    (∀ key r, kn_routes k !! key = Some r → key.1.1 ≠ table) →
    ¬ kn_rule k (mkRuleSpec table priority AnyPacket) →
    (∀ a, host_address my = Ok a → ¬ kn_address k lo a) →
    life k (installer_new my table priority)
| life_realize k ri real :
    life k ri → is_virtual (ri_my_naddr ri) = true → addressable real →
    (∀ a, host_address real = Ok a → ¬ kn_address k lo a) →
    life k (realize ri real)
| life_set k ri arc via dev : life k ri → life k (set_arc_endpoint ri arc via dev)
| life_clear k ri arc : life k ri → life k (clear_arc_endpoint ri arc)
| life_install k ri k' ri' o : life k ri → install_identity k ri = (k', ri', o) → life k' ri'
| life_apply k ri snap k' ri' o : life k ri → snapshot_ok (ri_my_naddr ri) snap → apply k ri snap = (k', ri', o) → life k' ri'
| life_teardown k ri k' ri' o : life k ri → teardown k ri = (k', ri', o) → life k' ri'
| life_kernel k ri k' :
    life k ri → kn_honest k' → kn_stored k' = kn_stored k →
    (∀ key r, kn_routes k' !! key = Some r → key.1.1 = ri_table ri → kn_routes k !! key = Some r) →
    (kn_rule k' (identity_rule ri) → kn_rule k (identity_rule ri)) →
    (∀ a, host_address (ri_my_naddr ri) = Ok a → kn_address k' lo a → kn_address k lo a) →
    life k' ri.

Lemma is_installed_false ri : is_installed ri = false ↔ ri_identity_address ri = None ∧ ri_rule_installed ri = false ∧ ri_applied ri = ∅.
Proof.
  unfold is_installed. destruct (ri_identity_address ri); cbn; [split; [done|naive_solver]|]. destruct (ri_rule_installed ri); cbn; [split; [done|naive_solver]|].
  rewrite negb_false_iff, bool_decide_eq_true. naive_solver.
Qed.

(** Whose record a step leaves alone. *)
Lemma owned_same k ri ri' :
  owned k ri → ri_my_naddr ri' = ri_my_naddr ri → ri_table ri' = ri_table ri → ri_rule_priority ri' = ri_rule_priority ri →
  ri_applied ri' = ri_applied ri → ri_identity_address ri' = ri_identity_address ri → ri_rule_installed ri' = ri_rule_installed ri → owned k ri'.
Proof.
  intros [Ho1 Ho2 Ho3 Ho4 Ho5 Ho6] H1 H2 H3 H4 H5 H6. assert (is_installed ri' = is_installed ri) as Hi by (unfold is_installed; by rewrite H4, H5, H6).
  unfold identity_rule in *. constructor; unfold identity_rule; rewrite ?H1, ?H2, ?H3, ?H4, ?H5, ?H6, ?Hi; done.
Qed.

(** The kernel may lose what it has. *)
Lemma owned_kernel k ri k' :
  owned k ri → kn_honest k' → kn_stored k' = kn_stored k →
  (∀ key r, kn_routes k' !! key = Some r → key.1.1 = ri_table ri → kn_routes k !! key = Some r) →
  (kn_rule k' (identity_rule ri) → kn_rule k (identity_rule ri)) →
  (∀ a, host_address (ri_my_naddr ri) = Ok a → kn_address k' lo a → kn_address k lo a) → owned k' ri.
Proof.
  intros [Ho1 Ho2 Ho3 Ho4 Ho5 Ho6] Hh Hst Hr Hu Ha. constructor; [done| |tauto| |done|done].
  - intros key r Hk Ht. rewrite Hst. apply (Ho2 key r); [by apply Hr|done].
  - intros a Ha1 Ha2. apply Ho4; [done|by apply Ha].
Qed.

Lemma adopt_cases (r : K * res NetlinkError unit) k' o :
  adopt r = (k', o) → r.1 = k' ∧
  match o with Ok _ => r.2 = Ok tt ∨ (∃ e, r.2 = Err e ∧ is_already_exists e = true) | Err _ => ∃ e, r.2 = Err e | Panic => r.2 = Panic end.
Proof.
  destruct r as [k [[]|e|]]; cbn; [intros [= <- <-]; split; [done|by left]| |by intros [= <- <-]].
  destruct (is_already_exists e) eqn:E; intros [= <- <-]; (split; [done|]); [right|]; by exists e.
Qed.

Lemma install_rule_owned k ri a k' o :
  owned k ri → addressable (ri_my_naddr ri) → recorded (ri_my_naddr ri) (ri_table ri) (ri_applied ri) → ri_identity_address ri = Some a →
  adopt (add_rule k (identity_rule ri)) = (k', o) → owned k' (match o with Ok _ => with_identity ri (Some a) true | _ => ri end).
Proof.
  intros Hown Ha Hr Hia Hop. destruct (add_rule k (identity_rule ri)) as [k1 o1] eqn:Eo. destruct (adopt_cases _ _ _ Hop) as [Hk Ho]. cbn in Hk, Ho. subst k1.
  destruct (add_rule_law _ _ _ _ (ow_honest _ _ Hown) Eo) as (Hh & Hst & Hroutes & Haddr & Hlaw).
  assert (∀ b, (kn_rule k' (identity_rule ri) → b = true) → owned k' (with_identity ri (Some a) b)) as Hid.
  { intros b Hb. constructor; cbn; try done.
    - intros key r Hk Ht. rewrite Hst. rewrite Hroutes in Hk. by apply (ow_routes _ _ Hown key r).
    - intros a' H1 H2%Haddr. rewrite <- Hia. by apply (ow_address _ _ Hown).
    - intros a' Ha'. apply (ow_own _ _ Hown). by rewrite Hia.
    - by left. }
  destruct o as [[]|e|]; [by apply Hid|..].
  - destruct Ho as [e' ->]. destruct Hlaw as [Hsame _]. eapply (owned_same _ (with_identity ri (Some a) (ri_rule_installed ri))); [|done..].
    apply Hid. rewrite Hsame. apply (ow_rule _ _ Hown).
  - by rewrite Ho in Hlaw.
Qed.

Lemma install_identity_owned k ri k' ri' o : owned k ri → install_identity k ri = (k', ri', o) → owned k' ri'.
Proof.
  intros Hown. unfold install_identity. destruct (ow_record _ _ Hown) as [[Ha Hr]|[-> _]]; [|by intros [= <- <- <-]].
  rewrite (proj1 (naddr_real_not_virtual _ (proj1 Ha)) (proj1 (proj2 Ha))). rewrite (host_address_exact _ Ha). set (a := ipv4_net_host _).
  destruct (adopt (add_address k _ a)) as [k1 o1] eqn:Eo. destruct (add_address k _ a) as [k1' o1'] eqn:Ea. destruct (adopt_cases _ _ _ Eo) as [Hk Ho]. cbn in Hk, Ho. subst k1'.
  destruct (add_address_law _ _ _ _ _ (ow_honest _ _ Hown) Ea) as (Hh & Hst & Hroutes & Hrule & Hlaw).
  destruct o1 as [[]|e|].
  - set (ri1 := with_identity ri (Some a) (ri_rule_installed ri)). assert (owned k1 ri1) as Hown1.
    { constructor; cbn; try done.
      - intros key r Hk Ht. rewrite Hst. rewrite Hroutes in Hk. by apply (ow_routes _ _ Hown key r).
      - intros Hu. apply (ow_rule _ _ Hown). by apply Hrule.
      - intros a' Ha'. rewrite (host_address_exact _ Ha) in Ha'. injection Ha' as <-. done.
      - intros a' [= <-]. by apply host_address_exact.
      - by left. }
    destruct (adopt (add_rule k1 (identity_rule ri1))) as [k2 o2] eqn:Er. pose proof (install_rule_owned k1 ri1 a k2 o2 Hown1 Ha Hr eq_refl Er) as Hown2.
    destruct o2; by intros [= <- <- <-].
  - intros [= <- <- <-]. destruct Ho as [e' ->]. destruct Hlaw as [Hsame _]. apply (owned_kernel k); try done; [by rewrite Hroutes|apply Hrule|]. intros a' _. apply Hsame.
  - by rewrite Ho in Hlaw.
Qed.

Lemma apply_owned k ri snap k' ri' o : owned k ri → snapshot_ok (ri_my_naddr ri) snap → apply k ri snap = (k', ri', o) → owned k' ri'.
Proof.
  intros Hown Hso Hap. destruct (ow_record _ _ Hown) as [[Ha Hr]|[Hv _]]; [|unfold apply in Hap; rewrite Hv in Hap; by injection Hap as <- <- <-].
  destruct (apply_good k ri snap Ha Hso (ow_honest _ _ Hown) Hr (ow_routes _ _ Hown)) as (k1 & m & o1 & Hap1 & _ & [He1 He2 He3 He4 _] & Hr' & Ho' & _).
  rewrite Hap1 in Hap. injection Hap as <- <- <-. constructor; cbn; try done.
  - intros Hu. apply (ow_rule _ _ Hown). by apply He3.
  - intros a H1 H2. apply (ow_address _ _ Hown); [done|]. by apply He4.
  - apply (ow_own _ _ Hown).
  - by left.
Qed.

Lemma teardown_rule_spec ri st k1 err1 gone :
  kn_honest (as_kernel st) → teardown_rule ri st = Ok (k1, err1, gone) →
  kn_honest k1 ∧ kn_stored k1 = kn_stored (as_kernel st) ∧ kn_routes k1 = kn_routes (as_kernel st) ∧ (∀ i n, kn_address k1 i n ↔ kn_address (as_kernel st) i n) ∧
  (∀ v, kn_rule k1 v → kn_rule (as_kernel st) v) ∧ (gone = true → ri_rule_installed ri = true → ¬ kn_rule k1 (identity_rule ri)) ∧
  (gone = false → ri_rule_installed ri = true) ∧ (err1 = None → as_error st = None ∧ gone = true).
Proof.
  intros Hh. unfold teardown_rule. destruct (ri_rule_installed ri); [|intros [= <- <- <-]; by split_and!].
  destruct (remove_rule (as_kernel st) (identity_rule ri)) as [k' o] eqn:Eo. destruct (remove_rule_law _ _ _ _ Hh Eo) as (Hh' & Hst & Hroutes & Ha & Hlaw).
  destruct o as [[]|e|]; [|destruct (is_not_found e) eqn:E|done]; cbn; rewrite ?E; intros [= <- <- <-]; (split_and!; try done).
  - intros v Hv. by apply Hlaw.
  - intros _ _ Hv. by apply Hlaw in Hv as [Hv _].
  - intros v Hv. by apply Hlaw.
  - intros _ _ Hv. apply Hlaw in Hv. by apply Hlaw.
  - intros v Hv. by apply Hlaw.
Qed.

Lemma teardown_rule_other ri st k1 err1 gone :
  kn_honest (as_kernel st) → teardown_rule ri st = Ok (k1, err1, gone) → ∀ u, u ≠ identity_rule ri → kn_rule k1 u ↔ kn_rule (as_kernel st) u.
Proof.
  intros Hh. unfold teardown_rule. destruct (ri_rule_installed ri); [|by intros [= <- <- <-]].
  destruct (remove_rule (as_kernel st) (identity_rule ri)) as [k' o] eqn:Eo. destruct (remove_rule_law _ _ _ _ Hh Eo) as (_ & _ & _ & _ & Hlaw).
  destruct o as [[]|e|]; [|destruct (is_not_found e) eqn:E|done]; cbn; rewrite ?E; intros [= <- <- <-] u Hu; [rewrite Hlaw; naive_solver|apply Hlaw..].
Qed.

Lemma teardown_address_spec ri k err k1 err1 gone :
  kn_honest k → teardown_address ri k err = Ok (k1, err1, gone) →
  kn_honest k1 ∧ kn_stored k1 = kn_stored k ∧ kn_routes k1 = kn_routes k ∧ (∀ u, kn_rule k1 u ↔ kn_rule k u) ∧
  (∀ a, ri_identity_address ri = Some a → kn_address k1 lo a → gone = false) ∧ (∀ j m, ri_identity_address ri ≠ Some m → kn_address k1 j m ↔ kn_address k j m) ∧
  (err1 = None → err = None ∧ gone = true).
Proof.
  intros Hh. unfold teardown_address. destruct (ri_identity_address ri) as [a|]; [|intros [= <- <- <-]; by split_and!].
  destruct (remove_address k _ a) as [k' o] eqn:Eo. destruct (remove_address_law _ _ _ _ _ Hh Eo) as (Hh' & Hst & Hroutes & Hu & Hlaw).
  destruct o as [[]|e|]; [|destruct (is_not_found e) eqn:E|done]; cbn; rewrite ?E; intros [= <- <- <-]; (split_and!; try done).
  - intros a' [= <-] Hx. by destruct (proj1 Hlaw).
  - intros j m Hne. apply Hlaw. congruence.
  - intros a' [= <-] Hx. apply Hlaw in Hx. by destruct (proj2 Hlaw eq_refl).
  - intros j m Hne. apply Hlaw.
  - intros j m Hne. apply Hlaw.
Qed.

(** A removal answers. *)
Lemma relinquish_Ok err (r : K * res NetlinkError unit) : r.2 ≠ Panic → ∃ x, relinquish err r = Ok x.
Proof. destruct r as [k [[]|e|]]; cbn; [by eexists| |done]. destruct (is_not_found e); by eexists. Qed.
Lemma teardown_rule_Ok ri st : kn_honest (as_kernel st) → ∃ x, teardown_rule ri st = Ok x.
Proof.
  intros Hh. unfold teardown_rule. destruct (ri_rule_installed ri); [|by eexists]. apply relinquish_Ok. destruct (remove_rule _ _) as [k' o] eqn:Eo. cbn. intros ->.
  by destruct (remove_rule_law _ _ _ _ Hh Eo) as (_ & _ & _ & _ & ?).
Qed.
Lemma teardown_address_Ok ri k err : kn_honest k → ∃ x, teardown_address ri k err = Ok x.
Proof.
  intros Hh. unfold teardown_address. destruct (ri_identity_address ri); [|by eexists]. apply relinquish_Ok. destruct (remove_address _ _ _) as [k' o] eqn:Eo. cbn. intros ->.
  by destruct (remove_address_law _ _ _ _ _ Hh Eo) as (_ & _ & _ & _ & ?).
Qed.

(** The routes of a teardown. *)
Lemma teardown_routes k ri :
  owned k ri →
  ∃ st, foldM teardown_step (mkApplyState k ∅ delta_default None) (hc_iter (ri_applied ri)) = Ok st ∧ elsewhere (ri_table ri) k (as_kernel st) ∧
    recorded (ri_my_naddr ri) (ri_table ri) (as_applied st) ∧ no_orphan (ri_table ri) (as_kernel st) (as_applied st) ∧
    (as_error st = None → as_applied st = ∅) ∧ (ri_applied ri = ∅ → as_applied st = ∅).
Proof.
  intros Hown. assert (elsewhere (ri_table ri) k k) as Hel by (by constructor; [apply Hown|..]).
  destruct (decide (ri_applied ri = ∅)) as [Hem|Hne].
  { pose proof (ow_routes _ _ Hown) as Hno. rewrite Hem in *. exists (mkApplyState k ∅ delta_default None). split_and!; done. }
  destruct (ow_record _ _ Hown) as [[Ha Hr]|[_ Hi]]; [|by apply is_installed_false in Hi as (_ & _ & Hi)].
  destruct (teardown_loop_good (ri_my_naddr ri) (ri_table ri) k Ha (hc_iter (ri_applied ri)) (mkApplyState k ∅ delta_default None)) as (st & Hst & (G1 & G2 & G3) & Herr); cbn.
  - done.
  - by rewrite map_empty_union, hc_iter_map.
  - rewrite map_empty_union, hc_iter_map. apply (ow_routes _ _ Hown).
  - apply hc_iter_NoDup.
  - intros hc _. apply lookup_empty.
  - exists st. split_and!; try done. intros Hn. by destruct (Herr Hn).
Qed.

Lemma teardown_owned k ri :
  owned k ri →
  ∃ k' ri' o, teardown k ri = (k', ri', o) ∧ o ≠ Panic ∧ owned k' ri' ∧ ri_my_naddr ri' = ri_my_naddr ri ∧ identity_rule ri' = identity_rule ri ∧
    (∀ key, key.1.1 ≠ ri_table ri → kn_routes k' !! key = kn_routes k !! key) ∧ (o = Ok tt → is_installed ri' = false).
Proof.
  intros Hown. destruct (teardown_routes k ri Hown) as (st & Hst & [He1 He2 He3 He4 He5] & Hr & Ho & Hn & Hem).
  destruct (teardown_rule_Ok ri st He1) as [[[k1 err1] g1] Eu]. destruct (teardown_rule_spec ri st k1 err1 g1 He1 Eu) as (Hh1 & Hst1 & Hro1 & Ha1 & Hle1 & Hg1 & Hf1 & Hn1).
  destruct (teardown_address_Ok ri k1 err1 Hh1) as [[[k2 err2] g2] Ea]. destruct (teardown_address_spec ri k1 err1 k2 err2 g2 Hh1 Ea) as (Hh2 & Hst2 & Hro2 & Hu2 & Hg2 & Hoth2 & Hn2).
  unfold teardown, teardown_all. rewrite Hst. cbn [mbind res_bind]. rewrite Eu. cbn [mbind res_bind]. rewrite Ea. cbn [mbind res_bind].
  eexists _, _, _. split; [done|]. split; [by destruct err2|]. split; [|split_and!; [done|done|intros key Hk; rewrite Hro2, Hro1; by apply He5|]].
  - constructor; cbn.
    + done.
    + intros key r Hk Ht. rewrite Hro2, Hro1 in Hk. rewrite Hst2, Hst1. by apply Ho.
    + intros Hu%Hu2. destruct g1; [|done]. change (kn_rule k1 (identity_rule ri)) in Hu. exfalso. destruct (ri_rule_installed ri) eqn:Er; [by apply Hg1|].
      apply Hle1, He3, (ow_rule _ _ Hown) in Hu. congruence.
    + intros a Ha Hx. destruct (ri_identity_address ri) as [a'|] eqn:Ei.
      * pose proof (ow_own _ _ Hown a' Ei) as Ha'. assert (a' = a) as -> by congruence. by rewrite (Hg2 a eq_refl Hx).
      * apply Hoth2, Ha1, He4 in Hx; [|done]. pose proof (ow_address _ _ Hown a Ha Hx). congruence.
    + intros a Hx. apply (ow_own _ _ Hown). by destruct g2.
    + destruct (ow_record _ _ Hown) as [[Ha _]|[Hv Hi]]; [by left|]. right. split; [done|]. apply is_installed_false in Hi as (Hi1 & Hi2 & Hi3).
      apply is_installed_false. cbn. rewrite Hi1, (Hem Hi3). destruct g1; [by destruct g2|]. by rewrite (Hf1 eq_refl) in Hi2.
  - intros Hok. destruct err2; [done|]. destruct (Hn2 eq_refl) as [-> ->]. destruct (Hn1 eq_refl) as [Hz ->]. apply is_installed_false. by rewrite (Hn Hz).
Qed.

Lemma life_owned k ri : life k ri → owned k ri.
Proof.
  induction 1 as [k my table priority Hh Hmy Ht Hu Ha|k ri real Hl IH Hv Hr Ha|k ri arc via dev Hl IH|k ri arc Hl IH|k ri k' ri' o Hl IH Hop|k ri snap k' ri' o Hl IH Hs Hop|k ri k' ri' o Hl IH Hop|k ri k' Hl IH Hh Hst Hr Hu Ha].
  - constructor; cbn; try done.
    + intros key r Hk Hkt. by destruct (Ht key r Hk).
    + intros a Ha1 Ha2. by destruct (Ha a).
    + destruct Hmy as [Hmy|Hmy]; [left; split; [done|]|by right]. intros hc spec Hx. by rewrite lookup_empty in Hx.
  - destruct (ow_record _ _ IH) as [[Hx _]|[_ Hi]]; [by rewrite (proj1 (naddr_real_not_virtual _ (proj1 Hx)) (proj1 (proj2 Hx))) in Hv|].
    apply is_installed_false in Hi as (Hi1 & Hi2 & Hi3). constructor; cbn.
    + apply IH.
    + apply IH.
    + intros Hu. by apply (ow_rule _ _ IH).
    + intros a Ha1 Ha2. by destruct (Ha a).
    + by rewrite Hi1.
    + left. split; [done|]. rewrite Hi3. intros hc spec Hx. by rewrite lookup_empty in Hx.
  - by eapply owned_same.
  - by eapply owned_same.
  - by eapply install_identity_owned.
  - by eapply apply_owned.
  - destruct (teardown_owned k ri IH) as (k1 & ri1 & o1 & Hop1 & _ & Hown & _). congruence.
  - by eapply owned_kernel.
Qed.
End Life.

(** ** Two identities over one kernel *)
Section Frame.
Context `{KernelLaws K}.
Implicit Types (k : K) (ri : RouteInstaller).

(** What an installer's calls leave alone. *)
Record framed ri k k' : Prop := {
  fr_honest : kn_honest k';
  fr_stored : kn_stored k' = kn_stored k;
  fr_routes : ∀ key, key.1.1 ≠ ri_table ri → kn_routes k' !! key = kn_routes k !! key;
  fr_rule : ∀ u, u ≠ identity_rule ri → kn_rule k' u ↔ kn_rule k u;
  fr_address : ∀ m, host_address (ri_my_naddr ri) ≠ Ok m → kn_address k' lo m ↔ kn_address k lo m
}.
Lemma framed_refl ri k : kn_honest k → framed ri k k.
Proof. by constructor. Qed.
Lemma framed_trans ri k1 k2 k3 : framed ri k1 k2 → framed ri k2 k3 → framed ri k1 k3.
Proof.
  intros [A1 A2 A3 A4 A5] [B1 B2 B3 B4 B5]. constructor; [done|congruence|intros key Hk; by rewrite B3, A3|intros u Hu; by rewrite B4, A4|intros m Hm; by rewrite B5, A5].
Qed.

Lemma add_rule_framed ri k k' o : kn_honest k → add_rule k (identity_rule ri) = (k', o) → framed ri k k'.
Proof.
  intros Hh E. destruct (add_rule_law _ _ _ _ Hh E) as (Hh' & Hst & Hr & Ha & Hlaw). constructor; [done|done|intros key _; by rewrite Hr| |intros m _; apply Ha].
  intros u Hu. destruct o as [[]|e|]; [rewrite Hlaw; naive_solver|apply Hlaw|done].
Qed.
Lemma add_address_framed ri a k k' o : kn_honest k → host_address (ri_my_naddr ri) = Ok a → add_address k lo a = (k', o) → framed ri k k'.
Proof.
  intros Hh Ha E. destruct (add_address_law _ _ _ _ _ Hh E) as (Hh' & Hst & Hr & Hu & Hlaw). constructor; [done|done|intros key _; by rewrite Hr|intros u _; apply Hu|].
  intros m Hm. destruct o as [[]|e|]; [apply Hlaw; congruence|apply Hlaw|done].
Qed.

Lemma install_identity_framed k ri k' ri' o : kn_honest k → install_identity k ri = (k', ri', o) → framed ri k k'.
Proof.
  intros Hh. unfold install_identity. destruct (is_virtual _); [intros [= <- <- <-]; by apply framed_refl|].
  destruct (host_address (ri_my_naddr ri)) as [a|e|] eqn:Ea; [|intros [= <- <- <-]; by apply framed_refl..].
  destruct (adopt (add_address k _ a)) as [k1 o1] eqn:E1. destruct (add_address k _ a) as [k1' o1'] eqn:A1. destruct (adopt_cases _ _ _ E1) as [Hk _]. cbn in Hk. subst k1'.
  pose proof (add_address_framed ri a k k1 o1' Hh Ea A1) as F1. destruct o1 as [[]|e|]; [|by intros [= <- <- <-]..].
  match goal with |- context [adopt (add_rule k1 ?u)] => destruct (adopt (add_rule k1 u)) as [k2 o2] eqn:E2; destruct (add_rule k1 u) as [k2' o2'] eqn:A2 end.
  destruct (adopt_cases _ _ _ E2) as [Hk _]. cbn in Hk. subst k2'. pose proof (add_rule_framed ri k1 k2 o2' (fr_honest _ _ _ F1) A2) as F2.
  destruct o2; intros [= <- <- <-]; by eapply framed_trans.
Qed.

Lemma apply_framed k ri snap k' ri' o : owned k ri → snapshot_ok (ri_my_naddr ri) snap → apply k ri snap = (k', ri', o) → framed ri k k'.
Proof.
  intros Hown Hso Hap. destruct (ow_record _ _ Hown) as [[Ha Hr]|[Hv _]]; [|unfold apply in Hap; rewrite Hv in Hap; injection Hap as <- <- <-; apply framed_refl, Hown].
  destruct (apply_good k ri snap Ha Hso (ow_honest _ _ Hown) Hr (ow_routes _ _ Hown)) as (k1 & m & o1 & Hap1 & _ & [He1 He2 He3 He4 He5] & _).
  rewrite Hap1 in Hap. injection Hap as <- <- <-. by constructor.
Qed.

Lemma teardown_framed k ri k' ri' o : owned k ri → teardown k ri = (k', ri', o) → framed ri k k'.
Proof.
  intros Hown Htd. destruct (teardown_routes k ri Hown) as (st & Hst & [He1 He2 He3 He4 He5] & _).
  destruct (teardown_rule_Ok ri st He1) as [[[k1 err1] g1] Eu]. destruct (teardown_rule_spec ri st k1 err1 g1 He1 Eu) as (Hh1 & Hst1 & Hro1 & Ha1 & _).
  destruct (teardown_address_Ok ri k1 err1 Hh1) as [[[k2 err2] g2] Ea]. destruct (teardown_address_spec ri k1 err1 k2 err2 g2 Hh1 Ea) as (Hh2 & Hst2 & Hro2 & Hu2 & _ & Hoth2 & _).
  unfold teardown, teardown_all in Htd. rewrite Hst in Htd. cbn [mbind res_bind] in Htd. rewrite Eu in Htd. cbn [mbind res_bind] in Htd. rewrite Ea in Htd. injection Htd as <- _ _.
  constructor; [done|congruence|intros key Hk; rewrite Hro2, Hro1; by apply He5| |].
  - intros u Hu. rewrite Hu2, (teardown_rule_other ri st k1 err1 g1 He1 Eu u Hu). apply He3.
  - intros m Hm. rewrite Hoth2, Ha1; [apply He4|]. intros Hi. by apply Hm, (ow_own _ _ Hown).
Qed.

(** An installer lives on beside another one's calls. *)
Lemma framed_life k k' ri ri' :
  life k ri' → framed ri k k' → ri_table ri' ≠ ri_table ri → (∀ a, host_address (ri_my_naddr ri') = Ok a → host_address (ri_my_naddr ri) ≠ Ok a) →
  life k' ri' ∧ (faithful k (ri_applied ri') → faithful k' (ri_applied ri')).
Proof.
  intros Hl [Fh Fs Fr Fu Fa] Ht Ha. split.
  - apply (life_kernel k); [done|done|done|..].
    + intros key r Hk Hkt. rewrite Fr in Hk; [done|congruence].
    + apply Fu. intros [= Heq _]. done.
    + intros a Hx. by apply Fa, Ha.
  - intros Hf hc spec Hs. pose proof (life_owned _ _ Hl) as Hown. destruct (ow_record _ _ Hown) as [[_ Hr]|[_ Hi]].
    + destruct (Hr hc spec Hs) as (_ & _ & Htab & _). rewrite Fr, Fs; [by apply (Hf hc)|]. cbn. congruence.
    + apply is_installed_false in Hi as (_ & _ & Hi). by rewrite Hi, lookup_empty in Hs.
Qed.
End Frame.

(** ** Properties *)
Section Theorems.
Context `{KernelLaws K}.
Implicit Types (k : K) (ri : RouteInstaller).

Lemma install_loop_idle l (st : ApplyState) : (∀ hc spec, (hc, spec) ∈ l → as_applied st !! hc = Some spec) → foldM install_step st l = Ok st.
Proof.
  induction l as [|[hc spec] l IH]; intros Hl; [done|]. cbn [foldM].
  assert (install_step st (hc, spec) = Ok st) as -> by (unfold install_step; by rewrite bool_decide_true by (apply Hl, list_elem_of_here)).
  cbn [mbind res_bind]. apply IH. intros. apply Hl. by apply list_elem_of_further.
Qed.
Lemma apply_idle k ri snap : is_virtual (ri_my_naddr ri) = false → desired ri snap = Ok (ri_applied ri) → apply k ri snap = (k, ri, Ok delta_default).
Proof.
  intros Hv Hd. unfold apply. rewrite Hv, Hd. cbn [mbind res_bind]. rewrite install_loop_idle by (intros hc spec Hin; by apply elem_of_hc_iter). cbn [mbind res_bind].
  assert (retain (λ hc, negb (bool_decide (is_Some (ri_applied ri !! hc)))) (hc_iter (ri_applied ri)).*1 = []) as Hnil.
  { apply elem_of_nil_inv. intros hc [Hin%elem_of_hc_keys Hno]%elem_of_retain. by rewrite bool_decide_true in Hno. }
  cbn [as_applied]. rewrite Hnil. cbn. by destruct ri.
Qed.

Lemma hcoord_hc_valid my n hc : addressable my → addressable n → hcoord my n = Ok (Some hc) → hc_valid (na_topology n) hc.
Proof.
  intros Hmy Hn Hh. destruct (hcoord_Some my n hc (proj1 Hmy) (proj1 Hn) Hh) as (Ht & Hl & Hp & _). rewrite Ht in Hl.
  destruct (lookup_lt_is_Some_2 (gsizes (na_topology n)) (hc_level hc) Hl) as [g Hg]. exists g. split; [done|].
  exact (Forall2_lookup_lr _ _ _ _ _ _ (addressable_range n Hn) Hp Hg).
Qed.

(** C3: The kernel forwards by the map of paths.  Let an installer with a real position, whose
    recorded routes the kernel still has, apply the snapshot of a well-formed QSPN state
    without error.  Then for every node of the topology the routes of the table that match
    its address are exactly the one of its divergence coordinate, when the state shows a
    path to it: through the gateways of the usable paths exposed for that destination,
    weighed by cost.  Applying the snapshot once more does nothing. *)
Theorem kernel_forwards_by_divergence `{HashOrder} s snap k ri k' ri' d :
  state_wf s → snapshot s = Ok snap → st_my_naddr s = ri_my_naddr ri → addressable (ri_my_naddr ri) →
  life k ri → faithful k (ri_applied ri) → apply k ri snap = (k', ri', Ok d) →
  (∀ n a, addressable n → na_topology n = na_topology (ri_my_naddr ri) → host_address n = Ok (ipv4_net_host a) →
   (∀ hc, hcoord (ri_my_naddr ri) n = Ok (Some hc) → shown s hc → ∃ key r, key.1.1 = ri_table ri ∧ kn_routes k' !! key = Some r ∧ net_contains (key_net key) a = true) ∧
   ∀ key r, key.1.1 = ri_table ri →
     kn_routes k' !! key = Some r ∧ net_contains (key_net key) a = true ↔
     ∃ hc e t, hcoord (ri_my_naddr ri) n = Ok (Some hc) ∧ shown s hc ∧ e ∈ concat (rs_levels snap) ∧ entry_of s hc e ∧
       route_target (re_paths e) (ri_arc_endpoints ri) (in_address <$> ri_identity_address ri) = Ok t ∧
       target_sound (re_paths e) (ri_arc_endpoints ri) (in_address <$> ri_identity_address ri) t ∧
       key = rkey (mkRouteSpec (block (ri_my_naddr ri) hc) (ri_table ri) t) ∧ r = kn_stored k' (mkRouteSpec (block (ri_my_naddr ri) hc) (ri_table ri) t)) ∧
  apply k' ri' snap = (k', ri', Ok delta_default).
Proof.
  intros Hs Hsnap Hmy Ha Hl Hf Hap. destruct (snapshot_ok_state s snap Hs Hsnap) as (Hso & Hshown & Hcov). rewrite Hmy in Hso.
  pose proof (life_owned _ _ Hl) as Hown. pose proof (proj1 (naddr_real_not_virtual _ (proj1 Ha)) (proj1 (proj2 Ha))) as Hnv.
  destruct (ow_record _ _ Hown) as [[_ Hr]|[Hv _]]; [|congruence].
  destruct (apply_good k ri snap Ha Hso (ow_honest _ _ Hown) Hr (ow_routes _ _ Hown)) as (k1 & m & o1 & Hap1 & _ & Hel & Hr' & Ho' & Hf' & Hd).
  rewrite Hap1 in Hap. injection Hap as -> <- ->. specialize (Hf' Hf). specialize (Hd d eq_refl).
  destruct (desired_exact ri snap Ha Hso) as (next & Hn & Hnext). assert (next = m) as -> by congruence. split; [|by apply apply_idle].
  intros n a Hna Ht Hhost. assert (a = host_number n) as ->.
  { rewrite (host_address_exact _ Hna) in Hhost. by injection Hhost. }
  assert (∀ e t, e ∈ concat (rs_levels snap) → hcoord (ri_my_naddr ri) n = Ok (Some (re_destination e)) →
    route_target (re_paths e) (ri_arc_endpoints ri) (in_address <$> ri_identity_address ri) = Ok t →
    let spec := mkRouteSpec (block (ri_my_naddr ri) (re_destination e)) (ri_table ri) t in
    kn_routes k' !! rkey spec = Some (kn_stored k' spec) ∧ net_contains (key_net (rkey spec)) (host_number n) = true) as Hroute.
  { intros e t He Hh Htt. pose proof (so_foreign _ _ Hso e He) as [Hfo _].
    assert (hc_valid (na_topology (ri_my_naddr ri)) (re_destination e)) as Hv by (rewrite <- Ht; by eapply (hcoord_hc_valid (ri_my_naddr ri))).
    split; [apply (Hf' (re_destination e)), Hnext; exists e; split_and!; try done; by exists t|].
    rewrite key_net_rkey. exact (proj2 (block_contains_hcoord (ri_my_naddr ri) (re_destination e) n Ha Hv Hfo Hna Ht) Hh). }
  assert (∀ e, e ∈ concat (rs_levels snap) → ∃ t, route_target (re_paths e) (ri_arc_endpoints ri) (in_address <$> ri_identity_address ri) = Ok t ∧
    target_sound (re_paths e) (ri_arc_endpoints ri) (in_address <$> ri_identity_address ri) t) as Htarget.
  { intros e He. apply route_target_total. intros p. by apply (so_costs _ _ Hso e). }
  split; [intros hc Hh (e & He & <-)%Hcov; destruct (Htarget e He) as (t & Htt & _); pose proof (Hroute e t He Hh Htt) as HR; eexists _, _; split; [|exact HR]; done|].
  intros key r Hkt. split.
  - intros [Hk Hc]. destruct (Ho' key r Hk Hkt) as (hc & spec & Hm & -> & ->). pose proof (proj1 (Hnext hc spec) Hm) as (e & He & <- & Hv & (t & Htt & ->)).
    destruct (Hshown e He) as [Hsh Hen]. destruct (Htarget e He) as (t' & Ht' & Hsound). assert (t' = t) as -> by congruence.
    exists (re_destination e), e, t. split; [|by repeat (split; [done|])].
    rewrite key_net_rkey in Hc. exact (proj1 (block_contains_hcoord (ri_my_naddr ri) (re_destination e) n Ha Hv (proj1 (so_foreign _ _ Hso e He)) Hna Ht) Hc).
  - intros (hc & e & t & Hh & Hsh & He & Hen & Htt & _ & -> & ->). assert (re_destination e = hc) as Hde by (by destruct Hen as (_ & _ & ? & _)). subst hc. by apply Hroute.
Qed.

(** C25: Nothing is left behind.  Over a whole life of an installer, whatever the kernel calls
    answer and whatever the kernel loses on its own: every route of the identity's table,
    its rule and its address are recorded while they are in the kernel; [teardown] always
    ends, leaves the other tables alone and, when it reports success, has removed all of
    them; and the table goes back to the allocator only when the kernel has no route in it
    and no rule for it. *)
Theorem installer_leaves_nothing {O} `{Countable O} k ri (t : TableAllocator O) (owner : O) :
  life k ri →
  (∀ key r, kn_routes k !! key = Some r → key.1.1 = ri_table ri → ∃ hc spec, ri_applied ri !! hc = Some spec ∧ key = rkey spec ∧ r = kn_stored k spec) ∧
  (kn_rule k (identity_rule ri) → ri_rule_installed ri = true) ∧
  (∀ a, host_address (ri_my_naddr ri) = Ok a → kn_address k lo a → ri_identity_address ri = Some a) ∧
  (∀ t' table, release_generation_table ri t owner = (t', Ok table) → (∀ key r, kn_routes k !! key = Some r → key.1.1 ≠ ri_table ri) ∧ ¬ kn_rule k (identity_rule ri)) ∧
  ∃ k' ri' o, teardown k ri = (k', ri', o) ∧ o ≠ Panic ∧ life k' ri' ∧
    (∀ key, key.1.1 ≠ ri_table ri → kn_routes k' !! key = kn_routes k !! key) ∧
    (o = Ok tt → is_installed ri' = false ∧ (∀ key r, kn_routes k' !! key = Some r → key.1.1 ≠ ri_table ri) ∧ ¬ kn_rule k' (identity_rule ri) ∧
      ∀ a, host_address (ri_my_naddr ri) = Ok a → ¬ kn_address k' lo a).
Proof.
  intros Hl. pose proof (life_owned _ _ Hl) as Hown.
  assert (∀ k1 ri1, owned k1 ri1 → is_installed ri1 = false → (∀ key r, kn_routes k1 !! key = Some r → key.1.1 ≠ ri_table ri1) ∧ ¬ kn_rule k1 (identity_rule ri1) ∧
    ∀ a, host_address (ri_my_naddr ri1) = Ok a → ¬ kn_address k1 lo a) as Hclean.
  { intros k1 ri1 [_ Ho1 Ho2 Ho3 _ _] (Hi1 & Hi2 & Hi3)%is_installed_false. split_and!.
    - intros key r Hk Ht. destruct (Ho1 key r Hk Ht) as (hc & spec & Hx & _). by rewrite Hi3, lookup_empty in Hx.
    - intros Hu%Ho2. congruence.
    - intros a Ha Hx. specialize (Ho3 a Ha Hx). congruence. }
  split_and!; [apply Hown..| |].
  - intros t' table Hrel. unfold release_generation_table in Hrel. destruct (is_installed ri) eqn:Ei; [done|]. destruct (Hclean k ri Hown Ei) as (? & ? & _). done.
  - destruct (teardown_owned k ri Hown) as (k' & ri' & o & Htd & Hnp & Hown' & Hmy & Hrule & Hoth & Hdone). exists k', ri', o. split_and!; try done; [by eapply life_teardown|].
    intros Ho. specialize (Hdone Ho). destruct (Hclean k' ri' Hown' Hdone) as (C1 & C2 & C3). injection Hrule as Htab Hprio. rewrite Htab in C1.
    unfold identity_rule in C2. rewrite Htab, Hprio in C2. rewrite Hmy in C3. done.
Qed.
(** Identities do not interfere.  Two installers over one kernel, with the tables and
    priorities of two owners of one allocator and different addresses: whatever one of
    them does, and however it ends, the other one's routes, rule and address are still
    exactly those it records. *)
Theorem identities_do_not_interfere {O} `{Countable O} pr main prio (t0 t : TableAllocator O) o1 o2 k ri1 ri2 k' ri1' :
  (0 ≤ pr.1)%Z → (pr.2 ≤ U32_MAX)%Z → (0 ≤ prio ≤ U32_MAX)%Z → with_range pr main prio = Ok t0 → allocator_from t0 t → o1 ≠ o2 →
  table_of t o1 = Some (ri_table ri1, ri_rule_priority ri1) → table_of t o2 = Some (ri_table ri2, ri_rule_priority ri2) →
  (∀ a, host_address (ri_my_naddr ri2) = Ok a → host_address (ri_my_naddr ri1) ≠ Ok a) →
  life k ri1 → life k ri2 →
  (∃ o, install_identity k ri1 = (k', ri1', o)) ∨ (∃ snap o, snapshot_ok (ri_my_naddr ri1) snap ∧ apply k ri1 snap = (k', ri1', o)) ∨ (∃ o, teardown k ri1 = (k', ri1', o)) →
  life k' ri1' ∧ life k' ri2 ∧ (faithful k (ri_applied ri2) → faithful k' (ri_applied ri2)).
Proof.
  intros H0' H1' Hp Hw Hfrom Hne Ho1 Ho2 Ha Hl1 Hl2 Hop. pose proof (life_owned _ _ Hl1) as Hown.
  assert (ri_table ri2 ≠ ri_table ri1) as Ht by (intros Heq; apply Hne; symmetry; eapply (table_of_inj pr main prio t0 t); eauto).
  assert (framed ri1 k k' ∧ life k' ri1') as [Hf Hl1'].
  { destruct Hop as [[o Hop]|[(snap & o & Hso & Hop)|[o Hop]]].
    - split; [eapply install_identity_framed; [apply Hown|done]|exact (life_install _ _ _ _ _ Hl1 Hop)].
    - split; [by eapply apply_framed|exact (life_apply _ _ _ _ _ _ Hl1 Hso Hop)].
    - split; [by eapply teardown_framed|exact (life_teardown _ _ _ _ _ Hl1 Hop)]. }
  split; [done|]. by apply (framed_life k k' ri1).
Qed.

End Theorems.

(** ** Witnesses *)
#[local] Existing Instance map_order.

Definition ex_kernel : FakeState := fake_with_links [mkLinkInfo 1 "lo" true; mkLinkInfo 2 "eth0" true].
Definition ex_installer : RouteInstaller := set_arc_endpoint (installer_new ex_my 500 500) 7 (ipv4_new 169 254 1 2) (IfName "eth0").

Lemma ex_life : life ex_kernel ex_installer.
Proof.
  apply life_set, life_new.
  - split_and!; [|constructor..|]; [|intros key r Hx; change (fk_routes ex_kernel) with (∅ : gmap (Z * Z * Z) RouteSpec) in Hx; by rewrite lookup_empty in Hx].
    intros d e Hx. change (fk_route_failures ex_kernel) with (∅ : gmap Ipv4Net NetlinkError) in Hx. by rewrite lookup_empty in Hx.
  - left. apply ex_addressable; lia.
  - intros key r Hx. change (kn_routes ex_kernel) with (∅ : gmap (Z * Z * Z) RouteSpec) in Hx. by rewrite lookup_empty in Hx.
  - intros Hx. by apply elem_of_nil in Hx.
  - intros a _ (l & _ & Hx). by apply elem_of_nil in Hx.
Qed.

Lemma kernel_forwards_by_divergence_witness :
  ∃ snap k' ri' d, snapshot ex_state = Ok snap ∧ apply ex_kernel ex_installer snap = (k', ri', Ok d) ∧
    ∃ key r, kn_routes k' !! key = Some r ∧ net_contains (key_net key) (ipv4_new 10 0 0 2) = true.
Proof.
  destruct (snapshot ex_state) as [snap|e|] eqn:Es; [|vm_compute in Es; discriminate..].
  destruct (apply ex_kernel ex_installer snap) as [[k' ri'] [d|e|]] eqn:Ea; [|exfalso; vm_compute in Es; injection Es as <-; vm_compute in Ea; discriminate..].
  exists snap, k', ri', d. split; [reflexivity|]. split; [exact Ea|].
  destruct (kernel_forwards_by_divergence ex_state snap ex_kernel ex_installer k' ri' d) as [Hall _].
  - apply ex_state_wf.
  - exact Es.
  - reflexivity.
  - apply ex_addressable; lia.
  - apply ex_life.
  - intros hc spec Hx. change (ri_applied ex_installer) with (∅ : gmap HCoord RouteSpec) in Hx. rewrite lookup_empty in Hx. discriminate.
  - exact Ea.
  - destruct (Hall (mkNaddr ex_topology [2; 0]%Z) (ipv4_new 10 0 0 2)) as [Hroute _]; [apply ex_addressable; lia|reflexivity|vm_compute; reflexivity|].
    destruct (Hroute ex_g) as (key & r & _ & Hk & Hc); [vm_compute; reflexivity| |exists key, r; split; [exact Hk|exact Hc]].
    split; [vm_compute; lia|]. eexists. vm_compute. reflexivity.
Defined.

Lemma installer_leaves_nothing_witness :
  let k := (install_identity ex_kernel ex_installer).1.1 in let ri := (install_identity ex_kernel ex_installer).1.2 in
  is_installed ri = true ∧ ∃ k' ri', teardown k ri = (k', ri', Ok tt) ∧ is_installed ri' = false ∧ ¬ kn_rule k' (identity_rule ri).
Proof.
  cbv zeta. split; [vm_compute; reflexivity|].
  destruct (table_allocator_new (K := nat)) as [t|e|] eqn:Et; [|vm_compute in Et; discriminate..].
  destruct (installer_leaves_nothing (install_identity ex_kernel ex_installer).1.1 (install_identity ex_kernel ex_installer).1.2 t 0) as (_ & _ & _ & _ & k' & ri' & o & Ht & _ & _ & _ & Hok).
  - eapply life_install; [apply ex_life|]. rewrite <- !surjective_pairing. reflexivity.
  - assert (o = Ok tt) as Ho.
    { change o with (k', ri', o).2. rewrite <- Ht. vm_compute. reflexivity. }
    destruct (Hok Ho) as (Hi & _ & Hu & _). exists k', ri'. split; [rewrite Ht, Ho; reflexivity|]. split; [exact Hi|exact Hu].
Defined.

(** A second identity of the node, on the next table. *)
Definition ex_second : RouteInstaller := installer_new (mkNaddr ex_topology [3; 3]%Z) 201 9950.
Definition ex_first : RouteInstaller := installer_new ex_my 200 9949.
Lemma ex_fresh_life my table priority : addressable my → life ex_kernel (installer_new my table priority).
Proof.
  intros Hmy. apply life_new; [|by left|..].
  - apply (ow_honest _ _ (life_owned _ _ ex_life)).
  - intros key r Hx. change (kn_routes ex_kernel) with (∅ : gmap (Z * Z * Z) RouteSpec) in Hx. by rewrite lookup_empty in Hx.
  - intros Hx. by apply elem_of_nil in Hx.
  - intros a _ (l & _ & Hx). by apply elem_of_nil in Hx.
Qed.

Lemma identities_do_not_interfere_witness :
  let k := (install_identity ex_kernel ex_first).1.1 in life k ex_second.
Proof.
  cbv zeta. destruct (table_allocator_new (K := nat)) as [t0|e|] eqn:Et; [|vm_compute in Et; discriminate..].
  assert (with_range DEFAULT_PEER_TABLE_RANGE DEFAULT_MAIN_TABLE_ID DEFAULT_MAIN_RULE_PRIORITY = Ok t0) as Hw.
  { unfold table_allocator_new in Et. destruct (with_range _ _ _) as [t1|e|]; [|vm_compute in Et; discriminate..]. injection Et as ->. reflexivity. }
  apply (identities_do_not_interfere DEFAULT_PEER_TABLE_RANGE DEFAULT_MAIN_TABLE_ID DEFAULT_MAIN_RULE_PRIORITY t0 (acquire (acquire t0 1).1 2).1 1 2 ex_kernel ex_first ex_second
    (install_identity ex_kernel ex_first).1.1 (install_identity ex_kernel ex_first).1.2).
  - vm_compute. discriminate.
  - vm_compute. discriminate.
  - vm_compute. split; discriminate.
  - exact Hw.
  - apply af_acquire, af_acquire, af_start.
  - discriminate.
  - vm_compute in Hw. injection Hw as <-. vm_compute. reflexivity.
  - vm_compute in Hw. injection Hw as <-. vm_compute. reflexivity.
  - intros a Ha. vm_compute in Ha. injection Ha as <-. vm_compute. discriminate.
  - apply ex_fresh_life, ex_addressable; lia.
  - apply ex_fresh_life, ex_addressable; lia.
  - left. eexists. rewrite <- !surjective_pairing. reflexivity.
Defined.

