(* ===== verification/NodeView.v ===== *)
(** * What a node tells its services of the network

    Models the views of [crates/ntkd/src/node/adapters.rs]: the network facts of an identity
    ([NetworkInfo]), the cache of elderships and its refresh, the estimate of the number of
    nodes, and the adapters that give hooking its [QspnView], the coordinator its
    [CoordinatorMap] and peer services its routing environment, all over a snapshot of
    QSPN.  A value behind a lock or a watch channel is the value read; [Live] and the tasks
    are the choice of which snapshot an operation reads. *)
From stdpp Require Import strings.
From S2P Require Import Prelude Addressing Domain QspnPath HookDomain Coordinator PeerTuple KernelAddr.

(** ** The network facts of an identity *)
Abbreviation Position := (nat * Z)%type.
Record NetworkInfo := mkNetworkInfo { ni_network_id : Z; ni_bootstrapped : bool; ni_foreign : gset Position; ni_same_network : gset Position }.
Implicit Types ni : NetworkInfo.

Definition network_info_new (initial_network_id : Z) : NetworkInfo := mkNetworkInfo initial_network_id false ∅ ∅.
Definition set_network_id ni (id : Z) : NetworkInfo := mkNetworkInfo id (ni_bootstrapped ni) (ni_foreign ni) (ni_same_network ni).
Definition note_foreign ni (level : nat) (pos : Z) : NetworkInfo :=
  mkNetworkInfo (ni_network_id ni) (ni_bootstrapped ni) ({[(level, pos)]} ∪ ni_foreign ni) (ni_same_network ni).
Definition note_same_network ni (level : nat) (pos : Z) : NetworkInfo :=
  mkNetworkInfo (ni_network_id ni) (ni_bootstrapped ni) (ni_foreign ni) ({[(level, pos)]} ∪ ni_same_network ni).
Definition is_foreign ni (level : nat) (pos : Z) : bool :=
  if bool_decide ((level, pos) ∈ ni_same_network ni) then false else bool_decide ((level, pos) ∈ ni_foreign ni).
Definition set_bootstrapped ni : NetworkInfo := mkNetworkInfo (ni_network_id ni) true (ni_foreign ni) (ni_same_network ni).
Definition reset_for_new_generation ni : NetworkInfo := mkNetworkInfo (ni_network_id ni) false ∅ ∅.

(** ** The cache of elderships *)
Definition i32_max : Z := 2147483647.
Definition map_eldership (v : option (option Z)) : Z :=
  match v with
  | Some (Some n) => if (n <=? i32_max)%Z then n else i32_max - 1
  | Some None => -1
  | None => i32_max
  end.
Record EldershipCache := mkEldershipCache { ec_my : gmap nat (option (option Z)); ec_foreign : gmap Position (option (option Z)) }.
Implicit Types c : EldershipCache.

Definition cache_my c (level : nat) : Z := map_eldership (mjoin (ec_my c !! level)).
Definition cache_foreign c (level : nat) (pos : Z) : Z := map_eldership (mjoin (ec_foreign c !! (level, pos))).
Definition set_my c (level : nat) (v : option (option Z)) : EldershipCache := mkEldershipCache (<[level := v]> (ec_my c)) (ec_foreign c).
Definition set_foreign c (level : nat) (pos : Z) (v : option (option Z)) : EldershipCache := mkEldershipCache (ec_my c) (<[(level, pos) := v]> (ec_foreign c)).
Definition forget_foreign c (level : nat) (pos : Z) : EldershipCache := mkEldershipCache (ec_my c) (delete (level, pos) (ec_foreign c)).
Definition retain_foreign c (keep : gset Position) : EldershipCache := mkEldershipCache (ec_my c) (filter (λ kv, kv.1 ∈ keep) (ec_foreign c)).

Record RefreshPlan := mkRefreshPlan { rp_full : bool; rp_destinations : gset HCoord }.
Implicit Types plan : RefreshPlan.
Definition plan_default : RefreshPlan := mkRefreshPlan false ∅.
Definition plan_everything : RefreshPlan := mkRefreshPlan true ∅.
Definition is_noop plan : bool := negb (rp_full plan) && bool_decide (rp_destinations plan = ∅).

Definition name_destination plan (d : HCoord) : RefreshPlan := mkRefreshPlan (rp_full plan) ({[d]} ∪ rp_destinations plan).
Definition absorb plan (e : QspnEvent) : RefreshPlan :=
  match e with
  | BootstrapComplete | PresenceNotified | ChangedFingerprint _ | ArcRemoved _ _ => mkRefreshPlan true (rp_destinations plan)
  | ChangedNodesInside _ => plan
  | DestinationAdded d | DestinationRemoved d | GnodeSplitted _ d _ => name_destination plan d
  | PathAdded p | PathChanged p | PathRemoved p =>
      match last (rp_hops p) with
      | Some h => name_destination plan (hop_coord h)
      | None => mkRefreshPlan true (rp_destinations plan)
      end
  end.

(** What [try_recv] yields until the queue is empty: an event, or the news that some were
    dropped. *)
Definition absorb_pending plan (queued : list (option QspnEvent)) : RefreshPlan :=
  foldl (λ plan o, match o with Some e => absorb plan e | None => mkRefreshPlan true (rp_destinations plan) end) plan queued.

(** What the refresher reads of QSPN: the answers of its actor, an error being [None]. *)
Record QspnReader := mkReader {
  qr_my_eldership : nat → option (option Z);
  qr_eldership : nat → Z → option (option Z);
  qr_snapshot : RouteSnapshot
}.
Definition exported (snap : RouteSnapshot) (d : HCoord) : bool :=
  match rs_levels snap !! hc_level d with Some entries => any (λ e, bool_decide (re_destination e = d)) entries | None => false end.

(** The entries of the snapshot with the index of their level. *)
Definition snapshot_entries (snap : RouteSnapshot) : list Position :=
  concat ((λ le : nat * list RouteEntry, (λ e, (le.1, hc_pos (re_destination e))) <$> le.2) <$> enumerate (rs_levels snap)).

Section Refresh.
Context `{HashOrder}.

Definition refresh_eldership (q : QspnReader) (levels : nat) c plan : EldershipCache :=
  let c := foldl (λ c l, set_my c l (qr_my_eldership q l)) c (seq 0 levels) in
  if rp_full plan then
    let entries := snapshot_entries (qr_snapshot q) in
    retain_foreign (foldl (λ c e, set_foreign c e.1 e.2 (qr_eldership q e.1 e.2)) c entries) (list_to_set entries)
  else
    foldl (λ c d,
        if exported (qr_snapshot q) d then set_foreign c (hc_level d) (hc_pos d) (qr_eldership q (hc_level d) (hc_pos d))
        else forget_foreign c (hc_level d) (hc_pos d)) c
      (hm_iter (gset_to_gmap () (rp_destinations plan))).*1.

(** One turn of [run_eldership_cache] after its events. *)
Definition refresh_turn (q : QspnReader) (levels : nat) c plan : EldershipCache := if is_noop plan then c else refresh_eldership q levels c plan.

Definition foreign_positions ni : list Position :=
  retain (λ p, negb (bool_decide (p ∈ ni_same_network ni))) (hm_iter (gset_to_gmap () (ni_foreign ni))).*1.
Definition foreign_exclusions (my : Naddr) ni : list TupleGNode :=
  omap (λ lp : Position, match tuple_gnode_new (na_topology my) (lp.1 + 1) [lp.2] with Ok g => Some g | _ => None end) (foreign_positions ni).
End Refresh.

(** ** The number of nodes *)
Definition entries_at (snap : RouteSnapshot) (level : nat) : list RouteEntry := default [] (rs_levels snap !! level).
Definition is_flagged (net : option NetworkInfo) (d : HCoord) : bool :=
  match net with Some ni => is_foreign ni (hc_level d) (hc_pos d) | None => false end.
Definition count_entry (net : option NetworkInfo) (level : nat) (counted : Z) (e : RouteEntry) : res unit Z :=
  if is_flagged net (re_destination e) then Ok counted
  else match re_paths e with
       | [] => Ok counted
       | path :: _ => u64_add counted (if level =? 0 then 1 else rp_nodes_inside path)
       end.
Fixpoint estimate_n_nodes (snap : RouteSnapshot) (net : option NetworkInfo) (level : nat) : res unit Z :=
  counted ← foldM (count_entry net level) 0%Z (entries_at snap level);
  mine ← match level with 0 => Ok 1%Z | S level' => estimate_n_nodes snap net level' end;
  u64_add counted mine.

(** ** The adapters *)
Fixpoint hooking_epsilon_loop (gsizes : list Z) (count : nat) (bits : Z) : option nat :=
  match gsizes with
  | [] => None
  | g :: gs =>
      let bits := (bits + (32 - leading_zeros (Z.max 0 (g - 1))))%Z in
      if (5 <=? bits)%Z then Some (count + 1) else hooking_epsilon_loop gs (count + 1) bits
  end.
Definition hooking_epsilon (t : Topology) : nat := default (topology_levels t) (hooking_epsilon_loop (gsizes t) 0 0).

Definition adjacent_to_my_gnode (my : Naddr) (snap : RouteSnapshot) (level_adjacent level_my : nat) : list AdjacentGNode :=
  omap (λ e,
      match is_inside my (re_destination e) with
      | Ok true => None
      | _ => pos ← naddr_pos my level_my; Some (mkAdjacent (re_destination e) pos)
      end) (entries_at snap level_adjacent).

Definition qspn_view (my : Naddr) (snap : RouteSnapshot) ni c : res unit QspnView :=
  n ← estimate_n_nodes snap (Some ni) (topology_levels (na_topology my) - 1);
  Ok (mkView (na_topology my) (ni_network_id ni) n (λ l, default 0%Z (naddr_pos my l)) (cache_my c) 0
        (λ _, hooking_epsilon (na_topology my)) (cache_foreign c) (adjacent_to_my_gnode my snap) (ni_bootstrapped ni)).

Definition occupied (my : Naddr) (snap : RouteSnapshot) ni (level : nat) : list Z :=
  default 0%Z (naddr_pos my level) ::
  ((λ e, hc_pos (re_destination e)) <$> retain (λ e, negb (is_foreign ni (hc_level (re_destination e)) (hc_pos (re_destination e)))) (entries_at snap level)).
Definition free_positions (my : Naddr) (snap : RouteSnapshot) ni (level : nat) : list Z :=
  match topology_gsize (na_topology my) level with
  | None => []
  | Some gsize => retain (λ p, negb (contains p (occupied my snap ni level))) (seqZ 0 gsize)
  end.
Definition coordinator_map (my : Naddr) (snap : RouteSnapshot) ni : res unit CoordinatorMap :=
  n ← estimate_n_nodes snap (Some ni) (topology_levels (na_topology my) - 1);
  Ok (mkCoordinatorMap n (free_positions my snap ni) (λ l, negb (bool_decide (free_positions my snap ni l = [])))
        (λ l, default 0%Z (naddr_pos my l)) (λ _, ni_network_id ni)).

Definition chosen_lvl_from_snapshot (snap : RouteSnapshot) ni (levels : nat) : nat :=
  foldl (λ max_lvl i,
      if any (λ e, negb (is_foreign ni (hc_level (re_destination e)) (hc_pos (re_destination e)))) (entries_at snap i) then i + 1 else max_lvl)
    0 (seq 0 (levels - 1)).

Definition gnode_exists (my : Naddr) (snap : RouteSnapshot) (hc : HCoord) : bool :=
  match is_inside my hc with Ok true => true | _ => exported snap hc end.
Definition dial_target (my : Naddr) (n : TupleNode) : option Naddr :=
  if (tn_top n =? 0) || (topology_levels (na_topology my) <? tn_top n) then None
  else match naddr_new (na_topology my) (tn_pos n ++ drop (tn_top n) (na_pos my)) with Ok a => Some a | _ => None end.
Definition dial_coordinate (my : Naddr) (n : TupleNode) : option HCoord :=
  target ← dial_target my n; match hcoord my target with Ok (Some hc) => Some hc | _ => None end.
