(* ===== verification/NodeViewProps.v ===== *)
(** * The views are right

    What the adapters of [NodeView] tell: the node count is the size of the network when the
    snapshot is truthful, foreign nodes are told apart whatever the order of the reports,
    the cache of elderships is coherent with QSPN whatever batch of events it saw, a
    position that is handed out belongs to nobody known, and dialing reaches the node that
    is named. *)
From stdpp Require Import strings.
From S2P Require Import Prelude Addressing Domain QspnPath HookDomain Coordinator CoordProps PeerTuple NodeView.

(** ** Counting by parts *)
Definition coord_of (my m : Naddr) : option HCoord := match hcoord my m with Ok o => o | _ => None end.
Definition in_gnode (my : Naddr) (d : HCoord) (m : Naddr) : bool := bool_decide (coord_of my m = Some d).
Definition size_of (my : Naddr) (members : list Naddr) (d : HCoord) : nat := length (retain (in_gnode my d) members).
(** Members no farther than a level. *)
Definition within (my : Naddr) (l : nat) (m : Naddr) : bool := match coord_of my m with None => true | Some d => hc_level d <=? l end.

Lemma retain_length_split {A} (p q r : A → bool) (l : list A) :
  (∀ x, x ∈ l → p x = q x || r x) → (∀ x, x ∈ l → q x && r x = false) → length (retain p l) = length (retain q l) + length (retain r l).
Proof.
  unfold retain. induction l as [|x l IH]; intros Hp Hd; [done|]. cbn [List.filter].
  assert (length (List.filter p l) = length (List.filter q l) + length (List.filter r l)) as Hl.
  { apply IH; intros y Hy; [apply Hp|apply Hd]; by apply list_elem_of_further. }
  specialize (Hp x (list_elem_of_here _ _)). specialize (Hd x (list_elem_of_here _ _)). rewrite Hp. destruct (q x), (r x); cbn in *; try done; lia.
Qed.

Lemma sizes_sum my (members : list Naddr) (ds : list HCoord) :
  NoDup ds →
  sum_list_with (size_of my members) ds = length (retain (λ m, match coord_of my m with Some d => bool_decide (d ∈ ds) | None => false end) members).
Proof.
  induction 1 as [|d ds Hno Hnd IH]; cbn.
  - unfold retain. induction members as [|m ms IHm]; [done|]. cbn. destruct (coord_of my m) as [d|]; [|done]. by rewrite bool_decide_false by (by intros ?%elem_of_nil).
  - rewrite IH. symmetry. apply retain_length_split; intros m _; unfold in_gnode; destruct (coord_of my m) as [d'|]; [| |..]; try done.
    + destruct (decide (d' = d)) as [->|Hne].
      * rewrite !bool_decide_true by set_solver. done.
      * rewrite (bool_decide_ext (d' ∈ d :: ds) (d' ∈ ds)) by set_solver. rewrite (bool_decide_false (Some d' = Some d)) by congruence. done.
    + destruct (decide (d' = d)) as [->|Hne]; [by rewrite (bool_decide_false (d ∈ ds)), andb_false_r|]. by rewrite (bool_decide_false (Some d' = Some d)) by congruence.
Qed.

(** ** A truthful snapshot *)
Section Count.
Variables (my : Naddr) (members : list Naddr) (snap : RouteSnapshot) (net : option NetworkInfo).

Definition counted_at (l : nat) : list RouteEntry := retain (λ e, negb (is_flagged net (re_destination e))) (entries_at snap l).

(** The members of a network are known to the snapshot, each g-node once, with the number
    of its members; what is flagged is not of the network. *)
Record truthful : Prop := {
  tr_wf : naddr_wf my;
  tr_me : my ∈ members;
  tr_distinct : NoDup members;
  tr_members : ∀ m, m ∈ members → naddr_wf m ∧ na_topology m = na_topology my;
  tr_once : ∀ l, NoDup (re_destination <$> counted_at l);
  tr_sound : ∀ l e, e ∈ counted_at l → hc_level (re_destination e) = l ∧ 1 ≤ size_of my members (re_destination e) ∧
    ∃ p ps, re_paths e = p :: ps ∧ rp_nodes_inside p = Z.of_nat (size_of my members (re_destination e));
  tr_complete : ∀ m d, m ∈ members → coord_of my m = Some d → ∃ e, e ∈ counted_at (hc_level d) ∧ re_destination e = d;
  tr_countable : (Z.of_nat (length members) ≤ U64_MAX)%Z
}.
Hypothesis Htrue : truthful.

Lemma coord_of_cases m : m ∈ members → (coord_of my m = None ∧ m = my) ∨ ∃ d, coord_of my m = Some d ∧ hcoord my m = Ok (Some d).
Proof.
  intros Hm. destruct (tr_members Htrue m Hm) as [Hw Ht]. unfold coord_of. destruct (hcoord_cases my m (tr_wf Htrue) Hw (eq_sym Ht)) as [[-> Hh]|(d & Hh & _)]; rewrite Hh; [by left|right; by exists d].
Qed.

Lemma in_gnode_true d m : m ∈ members → in_gnode my d m = true →
  naddr_pos m (hc_level d) = Some (hc_pos d) ∧ agree_above (na_pos my) (na_pos m) (S (hc_level d)).
Proof.
  intros Hm Hd%bool_decide_eq_true. destruct (coord_of_cases m Hm) as [[Hn _]|(x & Hx & Hh)]; [congruence|]. assert (x = d) as -> by congruence.
  destruct (tr_members Htrue m Hm) as [Hw _]. destruct (hcoord_Some my m d (tr_wf Htrue) Hw Hh) as (_ & _ & Hp & _ & Hab). done.
Qed.

(** At level 0 a g-node is a node. *)
Lemma size_of_node d : hc_level d = 0 → size_of my members d ≤ 1.
Proof.
  intros Hl. unfold size_of.
  assert (∀ m m', m ∈ retain (in_gnode my d) members → m' ∈ retain (in_gnode my d) members → m = m') as Huniq.
  { intros m m' [Hm Hc]%elem_of_retain [Hm' Hc']%elem_of_retain. destruct (in_gnode_true d m Hm Hc) as [Hp Hab]. destruct (in_gnode_true d m' Hm' Hc') as [Hp' Hab'].
    rewrite Hl in *. destruct (tr_members Htrue m Hm) as [_ Ht]. destruct (tr_members Htrue m' Hm') as [_ Ht']. destruct m as [t ps], m' as [t' ps']; cbn in *. subst t t'. f_equal.
    apply list_eq. intros [|i]; [unfold naddr_pos in *; cbn in *; congruence|]. rewrite <- (Hab (S i)), <- (Hab' (S i)) by lia. done. }
  pose proof (sublist_NoDup _ _ (tr_distinct Htrue) (retain_sublist (in_gnode my d) members)) as Hnd.
  destruct (retain (in_gnode my d) members) as [|m [|m' l]]; cbn; [lia|lia|]. exfalso. apply NoDup_cons in Hnd as [Hno _]. apply Hno.
  rewrite (Huniq m m') by set_solver. apply list_elem_of_here.
Qed.

Lemma count_step l e acc : e ∈ counted_at l → (0 ≤ acc)%Z → (acc + Z.of_nat (size_of my members (re_destination e)) ≤ U64_MAX)%Z →
  count_entry net l acc e = Ok (acc + Z.of_nat (size_of my members (re_destination e)))%Z.
Proof.
  intros Hc Ha Hb. destruct (tr_sound Htrue l e Hc) as (Hlev & Hpos & p & ps & Hps & Hn). apply elem_of_retain in Hc as [_ Hf%negb_true_iff].
  unfold count_entry. rewrite Hf, Hps.
  assert ((if l =? 0 then 1%Z else rp_nodes_inside p) = Z.of_nat (size_of my members (re_destination e))) as ->.
  { destruct (Nat.eqb_spec l 0) as [->|_]; [|done]. pose proof (size_of_node _ Hlev). lia. }
  unfold u64_add. by rewrite (proj2 (Z.leb_le _ _)) by lia.
Qed.

Lemma count_loop l es acc :
  (∀ e, e ∈ es → e ∈ entries_at snap l) →
  (acc + Z.of_nat (sum_list_with (size_of my members) (re_destination <$> retain (λ e, negb (is_flagged net (re_destination e))) es)) ≤ U64_MAX)%Z → (0 ≤ acc)%Z →
  foldM (count_entry net l) acc es = Ok (acc + Z.of_nat (sum_list_with (size_of my members) (re_destination <$> retain (λ e, negb (is_flagged net (re_destination e))) es)))%Z.
Proof.
  revert acc. induction es as [|e es IH]; intros acc Hin Hb Ha; [by rewrite Z.add_0_r|]. cbn [foldM].
  assert (e ∈ entries_at snap l) as He by (apply Hin, list_elem_of_here). unfold retain in *. cbn [List.filter] in *. destruct (is_flagged net (re_destination e)) eqn:Ef; cbn [negb] in *.
  { assert (count_entry net l acc e = Ok acc) as -> by (unfold count_entry; by rewrite Ef). cbn [mbind res_bind]. apply IH; [intros; apply Hin; by apply list_elem_of_further|done|done]. }
  assert (e ∈ counted_at l) as Hc by (apply elem_of_retain; by rewrite Ef). cbn [fmap list_fmap sum_list_with] in *.
  rewrite count_step by (done || lia). cbn [mbind res_bind]. rewrite IH; [f_equal; lia|intros; apply Hin; by apply list_elem_of_further|lia|lia].
Qed.

(** The members of the g-nodes of a level are those whose divergence is there. *)
Lemma counted_size l :
  sum_list_with (size_of my members) (re_destination <$> counted_at l) =
  length (retain (λ m, match coord_of my m with Some d => hc_level d =? l | None => false end) members).
Proof.
  rewrite (sizes_sum my members _ (tr_once Htrue l)). unfold retain. f_equal. apply filter_ext_in. intros m Hm%list_elem_of_In. destruct (coord_of my m) as [d|] eqn:Ed; [|done].
  destruct (Nat.eqb_spec (hc_level d) l) as [<-|Hne].
  - destruct (tr_complete Htrue m d Hm Ed) as (e & He & <-). apply bool_decide_true. apply list_elem_of_fmap. by exists e.
  - apply bool_decide_false. intros (e & -> & He)%list_elem_of_fmap. by destruct (tr_sound Htrue l e He).
Qed.

Lemma me_once : length (retain (λ m, bool_decide (m = my)) members) = 1.
Proof.
  pose proof (sublist_NoDup _ _ (tr_distinct Htrue) (retain_sublist (λ m, bool_decide (m = my)) members)) as Hnd.
  assert (∀ m, m ∈ retain (λ m, bool_decide (m = my)) members → m = my) as Hall by (intros m [_ Hm%bool_decide_eq_true]%elem_of_retain; done).
  assert (my ∈ retain (λ m, bool_decide (m = my)) members) as Hme by (apply elem_of_retain; split; [apply (tr_me Htrue)|by apply bool_decide_true]).
  destruct (retain _ members) as [|a [|b k]]; [by apply elem_of_nil in Hme|done|]. exfalso. apply NoDup_cons in Hnd as [Hno _]. apply Hno.
  rewrite (Hall a), (Hall b) by set_solver. apply list_elem_of_here.
Qed.

Lemma self_coord : coord_of my my = None.
Proof.
  destruct (coord_of_cases my (tr_me Htrue)) as [[Hn _]|(d & _ & Hh)]; [done|]. pose proof (tr_wf Htrue) as Hw.
  destruct (hcoord_cases my my Hw Hw eq_refl) as [[_ Hx]|(h & Hx & _ & Hp & Hq & _)]; [by rewrite Hx in Hh|done].
Qed.

Lemma within_split l :
  length (retain (within my l) members) =
  sum_list_with (size_of my members) (re_destination <$> counted_at l) + match l with 0 => 1 | S l' => length (retain (within my l') members) end.
Proof.
  rewrite counted_size. destruct l as [|l'].
  - rewrite <- me_once. apply retain_length_split; intros m Hm; destruct (coord_of_cases m Hm) as [[Hn ->]|(d & Hd & Hh)]; unfold within; rewrite ?Hn, ?Hd.
    + by rewrite bool_decide_true.
    + rewrite bool_decide_false; [rewrite orb_false_r; by destruct (hc_level d)|]. intros ->. by rewrite self_coord in Hd.
    + done.
    + rewrite bool_decide_false; [apply andb_false_r|]. intros ->. by rewrite self_coord in Hd.
  - apply retain_length_split; intros m Hm; unfold within; destruct (coord_of my m) as [d|]; try done;
      destruct (Nat.leb_spec (hc_level d) (S l')), (Nat.leb_spec (hc_level d) l'), (Nat.eqb_spec (hc_level d) (S l')); done || lia.
Qed.

Lemma estimate_exact l : estimate_n_nodes snap net l = Ok (Z.of_nat (length (retain (within my l) members))).
Proof.
  assert (∀ l, length (retain (within my l) members) ≤ length members) as Hle by (intros l'; apply sublist_length, retain_sublist). pose proof (tr_countable Htrue) as Hcap.
  induction l as [|l IH]; cbn [estimate_n_nodes].
  - specialize (Hle 0). pose proof (within_split 0) as Hs. cbn iota in Hs. unfold counted_at in Hs. rewrite (count_loop 0 _ 0%Z) by (done || lia). cbn [mbind res_bind].
    unfold u64_add. rewrite (proj2 (Z.leb_le _ _)) by lia. f_equal. lia.
  - specialize (Hle (S l)). pose proof (within_split (S l)) as Hs. cbn iota in Hs. unfold counted_at in Hs. rewrite (count_loop (S l) _ 0%Z) by (done || lia). rewrite IH. cbn [mbind res_bind].
    unfold u64_add. rewrite (proj2 (Z.leb_le _ _)) by lia. f_equal. lia.
Qed.
End Count.

Lemma node_count my members snap ni :
  truthful my members snap (Some ni) → estimate_n_nodes snap (Some ni) (topology_levels (na_topology my) - 1) = Ok (Z.of_nat (length members)).
Proof.
  intros Ht. rewrite (estimate_exact _ _ _ _ Ht). do 3 f_equal. unfold retain. apply forallb_filter_id, forallb_forall. intros m Hm%list_elem_of_In. unfold within.
  destruct (coord_of_cases _ _ _ _ Ht m Hm) as [[-> _]|(d & -> & Hh)]; [done|].
  destruct (tr_members _ _ _ _ Ht m Hm) as [Hw _]. destruct (hcoord_Some my m d (tr_wf _ _ _ _ Ht) Hw Hh) as (_ & Hl & _). apply Nat.leb_le. lia.
Qed.

(** The nodes of the network are counted exactly.  Where every member outside is in a g-node
    that the snapshot knows, once and with the number of its members, and what was
    flagged as foreign is not of the network, the number that hooking sees ([QspnView]) and the
    one that the coordinator sees ([CoordinatorMap]) are the number of members, this node
    included: nobody is counted twice through the levels, and the sums do not overflow. *)
Theorem node_count_exact my members snap ni c :
  truthful my members snap (Some ni) →
  (∃ v, qspn_view my snap ni c = Ok v ∧ v_n_nodes v = Z.of_nat (length members)) ∧
  ∃ m, coordinator_map my snap ni = Ok m ∧ cm_n_nodes m = Z.of_nat (length members).
Proof.
  intros He%node_count. split; [unfold qspn_view|unfold coordinator_map]; rewrite He; eexists; (split; [reflexivity|done]).
Qed.

(** ** Foreign nodes *)
Inductive Note := NoteForeign (level : nat) (pos : Z) | NoteSame (level : nat) (pos : Z).
Definition take_note ni (n : Note) : NetworkInfo :=
  match n with NoteForeign l p => note_foreign ni l p | NoteSame l p => note_same_network ni l p end.

Lemma notes_sets notes ni :
  (∀ l p, (l, p) ∈ ni_foreign (foldl take_note ni notes) ↔ (l, p) ∈ ni_foreign ni ∨ NoteForeign l p ∈ notes) ∧
  (∀ l p, (l, p) ∈ ni_same_network (foldl take_note ni notes) ↔ (l, p) ∈ ni_same_network ni ∨ NoteSame l p ∈ notes).
Proof.
  revert ni. induction notes as [|[l' p'|l' p'] notes IH]; intros ni; cbn [foldl].
  - split; intros l p; rewrite elem_of_nil; tauto.
  - destruct (IH (note_foreign ni l' p')) as [H1 H2]. split; intros l p; [rewrite H1|rewrite H2]; cbn; rewrite elem_of_cons, ?elem_of_union, ?elem_of_singleton; split; intros; repeat (destruct_or?; simplify_eq); tauto || congruence.
  - destruct (IH (note_same_network ni l' p')) as [H1 H2]. split; intros l p; [rewrite H1|rewrite H2]; cbn; rewrite elem_of_cons, ?elem_of_union, ?elem_of_singleton; split; intros; repeat (destruct_or?; simplify_eq); tauto || congruence.
Qed.

(** Foreign means reported and never confirmed, in whatever order the reports come: since
    the start of a generation, a position is foreign if and only if some arc reported it so and
    none confirmed it as of my own network, and the list that is excluded from the
    lookups of the coordinator holds exactly these positions, each once. *)
Theorem foreign_iff_never_confirmed `{HashOrder} old notes :
  let ni := foldl take_note (reset_for_new_generation old) notes in
  ni_network_id ni = ni_network_id old ∧
  (∀ l p, is_foreign ni l p = true ↔ NoteForeign l p ∈ notes ∧ NoteSame l p ∉ notes) ∧
  NoDup (foreign_positions ni) ∧ ∀ l p, (l, p) ∈ foreign_positions ni ↔ is_foreign ni l p = true.
Proof.
  intros ni. destruct (notes_sets notes (reset_for_new_generation old)) as [Hf Hs]. fold ni in Hf, Hs. cbn in Hf, Hs.
  assert (∀ l p, is_foreign ni l p = true ↔ (l, p) ∈ ni_foreign ni ∧ (l, p) ∉ ni_same_network ni) as Hi.
  { intros l p. unfold is_foreign. case_bool_decide; [|rewrite bool_decide_eq_true]; split; try done; tauto. }
  assert (∀ x : Position, x ∈ (hm_iter (gset_to_gmap () (ni_foreign ni))).*1 ↔ x ∈ ni_foreign ni) as Hk.
  { intros x. rewrite list_elem_of_fmap. setoid_rewrite hm_iter_perm. split.
    - intros ([y u] & -> & Hy%elem_of_map_to_list). by apply lookup_gset_to_gmap_Some in Hy as [? _].
    - intros Hx. exists (x, ()). split; [done|]. apply elem_of_map_to_list. by apply lookup_gset_to_gmap_Some. }
  split; [|split; [|split]].
  - unfold ni. clear. assert (∀ x, ni_network_id (foldl take_note x notes) = ni_network_id x) as Hn; [|by rewrite Hn].
    induction notes as [|[] notes IH]; intros x; cbn; [done|by rewrite IH..].
  - intros l p. rewrite Hi, Hf, Hs. set_solver.
  - eapply sublist_NoDup; [|apply retain_sublist]. rewrite hm_iter_perm. apply NoDup_fst_map_to_list.
  - intros l p. unfold foreign_positions. rewrite elem_of_retain, Hk, Hi, negb_true_iff, bool_decide_eq_false. done.
Qed.

(** ** Positions to hand out *)
Lemma free_positions_elem my snap ni level gsize p :
  topology_gsize (na_topology my) level = Some gsize →
  p ∈ free_positions my snap ni level ↔ (0 ≤ p < gsize)%Z ∧ p ∉ occupied my snap ni level.
Proof.
  intros Hg. unfold free_positions. rewrite Hg, elem_of_retain, elem_of_seqZ, negb_true_iff, contains_false. rewrite Z.add_0_l. done.
Qed.

Lemma occupied_member my members snap ni m level p :
  truthful my members snap (Some ni) → m ∈ members → naddr_pos m level = Some p → agree_above (na_pos my) (na_pos m) (S level) → p ∈ occupied my snap ni level.
Proof.
  intros Ht Hm Hp Hab. unfold occupied. destruct (decide (naddr_pos my level = Some p)) as [->|Hne]; [apply list_elem_of_here|]. apply list_elem_of_further.
  destruct (coord_of_cases _ _ _ _ Ht m Hm) as [[_ ->]|(d & Hd & Hh)]; [done|]. destruct (tr_members _ _ _ _ Ht m Hm) as [Hw _].
  destruct (hcoord_Some my m d (tr_wf _ _ _ _ Ht) Hw Hh) as (_ & _ & Hpd & Hnd & Habd). unfold naddr_pos in *.
  assert (hc_level d = level) as Hl.
  { destruct (Nat.lt_trichotomy (hc_level d) level) as [Hlt|[?|Hgt]]; [|done|].
    - exfalso. apply Hne. rewrite (Habd level) by lia. done.
    - exfalso. apply Hnd. rewrite (Hab (hc_level d)) by lia. done. }
  destruct (tr_complete _ _ _ _ Ht m d Hm Hd) as (e & [He Hf]%elem_of_retain & Hdest). apply list_elem_of_fmap. exists e. rewrite Hl in *. split; [congruence|].
  apply elem_of_retain. split; [done|]. unfold is_flagged in Hf. done.
Qed.

(** Two bookings of a well-formed record that share a position or an eldership are
    one. *)
Lemma booking_unique gsize mem b b' :
  memory_wf gsize mem → b ∈ gm_reserve_list mem → b' ∈ gm_reserve_list mem → bk_reserve_request_id b ≠ bk_reserve_request_id b' →
  bk_new_pos b ≠ bk_new_pos b' ∧ bk_new_eldership b ≠ bk_new_eldership b'.
Proof.
  intros Hw [i Hi]%list_elem_of_lookup [j Hj]%list_elem_of_lookup Hne. assert (i ≠ j) as Hij by congruence.
  split; intros Heq; apply Hij.
  - apply (NoDup_lookup _ i j (bk_new_pos b) (mw_pos _ _ Hw)); rewrite list_lookup_fmap; [by rewrite Hi|rewrite Hj; cbn; congruence].
  - apply (NoDup_lookup _ i j (bk_new_eldership b) (mw_eldership _ _ Hw)); rewrite list_lookup_fmap; [by rewrite Hi|rewrite Hj; cbn; congruence].
Qed.

(** C34: a granted place is vacant and not promised to another.  Take a node whose route
    snapshot tells exactly the members of its network ([truthful]) and whose coordinator's
    records are well formed.  When that coordinator, over the map that its adapter gives it,
    grants a place in the g-node of a level to a request that has none, the position belongs
    to no member of that g-node, or it is a virtual one, outside the real positions; no
    booking that has not expired has that position or that eldership; and the eldership is
    above every one the record has given.  The adapter's map also satisfies what the
    coordinator asks of a map. *)
Theorem reserved_position_is_vacant my members snap ni s now top rid :
  truthful my members snap (Some ni) → coord_wf s → cs_topology s = na_topology my →
  (∀ mem b, cs_memory s !! top = Some mem → b ∈ gm_reserve_list mem → bk_reserve_request_id b ≠ rid) →
  ∃ m, coordinator_map my snap ni = Ok m ∧ map_ok (cs_topology s) m ∧
    ∀ s' e r, reserve_enter s m now top rid = (s', e, Ok r) →
      ∃ gsize mem, topology_gsize (na_topology my) (top - 1) = Some gsize ∧ cs_memory s !! top = Some mem ∧ cr_new_eldership r = (gm_max_eldership mem + 1)%Z ∧
        (∀ b, b ∈ gm_reserve_list mem → (now < bk_expires_at b)%Z → bk_new_pos b ≠ cr_new_pos r ∧ bk_new_eldership b ≠ cr_new_eldership r) ∧
        ((gsize ≤ cr_new_pos r)%Z ∨
         (0 ≤ cr_new_pos r < gsize)%Z ∧
         ∀ other, other ∈ members → agree_above (na_pos my) (na_pos other) top → naddr_pos other (top - 1) ≠ Some (cr_new_pos r)).
Proof.
  intros Ht Hw Htop Hnew. unfold coordinator_map. rewrite (node_count my members snap ni Ht). cbn [mbind res_bind].
  eexists. split; [done|]. match goal with |- map_ok _ ?m ∧ _ => assert (map_ok (cs_topology s) m) as Hm end.
  { intros level gsize Hg. rewrite Htop in Hg. apply Forall_forall. intros p Hp. cbn in Hp. by apply (free_positions_elem my snap ni level gsize _ Hg) in Hp as [? _]. }
  split; [done|]. intros s' e r Hr. pose proof (reserve_enter_outcome _ _ _ _ _ _ _ _ Hw Hm Hr) as Ho. inversion Ho as [|gsize mem mem' r' Hrange Hcan Hg Hmem Hwf Hin Hkept Hcase|]; subst.
  destruct Hcase as [(b & Hb & _ & Hrid & _)|(He & _ & Hpos)]; [by destruct (Hnew mem b Hmem Hb)|].
  rewrite Htop in Hg. exists gsize, mem. split_and!; [done..| |].
  { intros b Hb Hlive. apply (booking_unique gsize mem' _ _ Hwf (Hkept b Hb Hlive (Hnew mem b Hmem Hb)) Hin). by apply Hnew with mem. }
  destruct Hpos as [[Hfree _]|[Hv _]].
  - cbn in Hfree. apply (free_positions_elem my snap ni (top - 1) gsize _ Hg) in Hfree as [Hb Hfree]. right. split; [done|]. intros other Ho' Hab Hp. apply Hfree.
    apply (occupied_member my members snap ni other); [done..|]. replace (S (top - 1)) with top by lia. done.
  - left. destruct (Hw top Hrange) as (g & mem0 & Hg' & Hmem' & Hwf'). rewrite Htop in Hg'. simplify_eq. pose proof (mw_max _ _ Hwf') as [? _]. lia.
Qed.

(** ** Dialing *)

Lemma naddr_new_real m : naddr_wf m → naddr_new (na_topology m) (na_pos m) = Ok m ↔ naddr_real m.
Proof.
  intros (_ & Hl & _). unfold naddr_new, naddr_real. rewrite Hl, Nat.eqb_refl. cbn [negb]. rewrite <- (check_positions_Ok 0) by done.
  destruct (check_positions 0 _ _) as [[]| |]; cbn; split; try done. by destruct m.
Qed.

Lemma naddr_new_self m a : naddr_new (na_topology m) (na_pos m) = Ok a → a = m.
Proof. unfold naddr_new. destruct (negb _); [done|]. destruct (check_positions 0 _ _) as [[]| |]; cbn; [|done..]. intros [= <-]. by destruct m. Qed.

(** A node that shares my g-node of a level is dialed by its tuple up to that level: the
    partial address that the lookups carry is widened to the whole one, and the coordinate
    that is followed is the one where the two nodes part.  A node at a virtual position,
    its own or of a g-node the two share, is refused. *)
Theorem dial_reaches my m top :
  naddr_wf my → naddr_wf m → na_topology m = na_topology my → 1 ≤ top ≤ naddr_levels my → agree_above (na_pos my) (na_pos m) top →
  (naddr_real m →
    dial_target my (mkTupleNode (na_topology my) (take top (na_pos m))) = Some m ∧
    ∃ r, hcoord my m = Ok r ∧ dial_coordinate my (mkTupleNode (na_topology my) (take top (na_pos m))) = r) ∧
  (¬ naddr_real m → dial_target my (mkTupleNode (na_topology my) (take top (na_pos m))) = None).
Proof.
  intros Hmy Hm Ht Htop Hab. assert (length (na_pos m) = topology_levels (na_topology my)) as Hlm by (rewrite <- Ht; apply Hm).
  assert (length (na_pos my) = topology_levels (na_topology my)) as Hlmy by apply Hmy. unfold naddr_levels in *.
  assert (dial_target my (mkTupleNode (na_topology my) (take top (na_pos m))) = match naddr_new (na_topology m) (na_pos m) with Ok a => Some a | _ => None end) as Hd.
  { unfold dial_target, tn_top. cbn [tn_pos]. rewrite length_take, Nat.min_l by lia.
    rewrite (proj2 (Nat.eqb_neq _ _)), (proj2 (Nat.ltb_ge _ _)) by lia. cbn [orb].
    assert (drop top (na_pos my) = drop top (na_pos m)) as ->. { apply list_eq. intros i. rewrite !lookup_drop. apply Hab. lia. }
    by rewrite take_drop, <- Ht. }
  pose proof (naddr_new_real m Hm) as Hnew. split; intros Hr.
  - apply Hnew in Hr. rewrite Hr in Hd. split; [done|]. destruct (hcoord_total my m) as [r Hh]; [done..|]. exists r. split; [done|]. unfold dial_coordinate. rewrite Hd. cbn. rewrite Hh. by destruct r.
  - rewrite Hd. destruct (naddr_new (na_topology m) (na_pos m)) as [a| |] eqn:Ea; [|done..]. exfalso. apply Hr, Hnew. by rewrite (naddr_new_self m a Ea).
Qed.

(** ** The level of a merge *)
Definition has_sibling (snap : RouteSnapshot) ni (i : nat) : bool :=
  any (λ e, negb (is_foreign ni (hc_level (re_destination e)) (hc_pos (re_destination e)))) (entries_at snap i).

Lemma chosen_loop snap ni n :
  let lvl := foldl (λ max_lvl i, if has_sibling snap ni i then i + 1 else max_lvl) 0 (seq 0 n) in
  lvl ≤ n ∧ (∀ i, lvl ≤ i < n → has_sibling snap ni i = false) ∧ (lvl ≠ 0 → has_sibling snap ni (lvl - 1) = true).
Proof.
  induction n as [|n IH]; [cbn; split_and!; [lia|lia|done]|]. rewrite seq_S, foldl_app. cbn [foldl Nat.add] in *. destruct IH as (H1 & H2 & H3).
  destruct (has_sibling snap ni n) eqn:Hn.
  - split_and!; [lia|lia|]. intros _. by replace (n + 1 - 1) with n by lia.
  - split_and!; [lia| |done]. intros i Hi. destruct (decide (i = n)) as [->|]; [done|]. apply H2. lia.
Qed.

(** A merge moves the smallest g-node of mine that is the whole network, as far as levels
    below the top go: every member of the network that parts from me below the top level
    parts below the chosen level, and unless the level is 0 some member parts just under
    it. *)
Theorem chosen_level_spans_network my members snap ni :
  truthful my members snap (Some ni) →
  let lvl := chosen_lvl_from_snapshot snap ni (naddr_levels my) in
  lvl ≤ naddr_levels my - 1 ∧
  (∀ m d, m ∈ members → hcoord my m = Ok (Some d) → hc_level d < naddr_levels my - 1 → hc_level d < lvl) ∧
  (lvl ≠ 0 → ∃ m d, m ∈ members ∧ hcoord my m = Ok (Some d) ∧ hc_level d = lvl - 1).
Proof.
  intros Ht lvl.
  assert (lvl ≤ naddr_levels my - 1 ∧ (∀ i, lvl ≤ i < naddr_levels my - 1 → has_sibling snap ni i = false) ∧ (lvl ≠ 0 → has_sibling snap ni (lvl - 1) = true)) as (H1 & H2 & H3)
    by exact (chosen_loop snap ni (naddr_levels my - 1)). clearbody lvl.
  assert (∀ i, has_sibling snap ni i = true ↔ ∃ e, e ∈ counted_at snap (Some ni) i) as Hs.
  { intros i. unfold has_sibling. rewrite any_true. unfold counted_at. setoid_rewrite elem_of_retain. done. }
  split_and!; [done| |].
  - intros m d Hm Hh Hl. destruct (decide (hc_level d < lvl)) as [|Hge]; [done|]. assert (coord_of my m = Some d) as Hc by (unfold coord_of; by rewrite Hh).
    destruct (tr_complete _ _ _ _ Ht m d Hm Hc) as (e & He & _). assert (has_sibling snap ni (hc_level d) = true) as Hx by (apply Hs; by exists e). rewrite (H2 (hc_level d)) in Hx by lia. done.
  - intros [e He]%H3%Hs. destruct (tr_sound _ _ _ _ Ht _ e He) as (Hl & Hsz & _). unfold size_of in Hsz.
    destruct (retain (in_gnode my (re_destination e)) members) as [|m k] eqn:Hr; [cbn in Hsz; lia|].
    assert (m ∈ retain (in_gnode my (re_destination e)) members) as [Hm Hg%bool_decide_eq_true]%elem_of_retain by (rewrite Hr; apply list_elem_of_here).
    exists m, (re_destination e). split_and!; [done| |done]. destruct (coord_of_cases _ _ _ _ Ht m Hm) as [[Hn _]|(d & Hd & Hh)]; congruence.
Qed.

(** ** The cache of elderships *)
Definition placed (snap : RouteSnapshot) : Prop := ∀ l e, e ∈ entries_at snap l → hc_level (re_destination e) = l.
Record coherent (q : QspnReader) (levels : nat) c : Prop := {
  co_my : ∀ l, l < levels → ec_my c !! l = Some (qr_my_eldership q l);
  co_foreign : ∀ l p, ec_foreign c !! (l, p) = if exported (qr_snapshot q) (mkHCoord l p) then Some (qr_eldership q l p) else None
}.

Lemma my_loop q n c :
  let c' := foldl (λ c l, set_my c l (qr_my_eldership q l)) c (seq 0 n) in
  ec_foreign c' = ec_foreign c ∧ ∀ l, l < n → ec_my c' !! l = Some (qr_my_eldership q l).
Proof.
  induction n as [|n IH]; [split; [done|lia]|]. rewrite seq_S, foldl_app. cbn [foldl Nat.add] in *. destruct IH as [Hf Hm]. split; [done|]. intros l Hl. cbn.
  destruct (decide (l = n)) as [->|]; [by rewrite lookup_insert_eq|]. rewrite lookup_insert_ne by done. apply Hm. lia.
Qed.

Lemma full_loop q (entries : list Position) c :
  let c' := foldl (λ c e, set_foreign c e.1 e.2 (qr_eldership q e.1 e.2)) c entries in
  ec_my c' = ec_my c ∧ ∀ l p, (l, p) ∈ entries → ec_foreign c' !! (l, p) = Some (qr_eldership q l p).
Proof.
  revert c. induction entries as [|e entries IH] using rev_ind; intros c; [by split; [|intros ? ? ?%elem_of_nil]|]. rewrite foldl_app. cbn. destruct (IH c) as [Hm Hf]. split; [done|].
  intros l p [Hin|Hin%list_elem_of_singleton]%elem_of_app.
  - destruct e as [l' p']; cbn. destruct (decide ((l', p') = (l, p))) as [Heq|Hne]; [simplify_eq; by rewrite lookup_insert_eq|]. rewrite lookup_insert_ne by done. by apply Hf.
  - subst e. cbn. by rewrite lookup_insert_eq.
Qed.

Lemma snapshot_entries_elem snap l p : placed snap → (l, p) ∈ snapshot_entries snap ↔ exported snap (mkHCoord l p) = true.
Proof.
  intros Hpl. unfold snapshot_entries. rewrite elem_of_concat_fmap. unfold exported. cbn [hc_level]. split.
  - intros ([i es] & He%elem_of_enumerate & (e & Heq & Hin)%list_elem_of_fmap). cbn in *. simplify_eq. rewrite He. apply any_true. exists e. split; [done|].
    apply bool_decide_true. assert (hc_level (re_destination e) = i) by (apply Hpl; unfold entries_at; by rewrite He). destruct (re_destination e); cbn in *; congruence.
  - destruct (rs_levels snap !! l) as [es|] eqn:El; [|done]. intros (e & He & Hd%bool_decide_eq_true)%any_true. exists (l, es). split; [by apply elem_of_enumerate|]. cbn. apply list_elem_of_fmap. exists e. by rewrite Hd.
Qed.

Lemma named_loop q (ds : list HCoord) c :
  NoDup ds →
  let c' := foldl (λ c d, if exported (qr_snapshot q) d then set_foreign c (hc_level d) (hc_pos d) (qr_eldership q (hc_level d) (hc_pos d)) else forget_foreign c (hc_level d) (hc_pos d)) c ds in
  ec_my c' = ec_my c ∧
  ∀ l p, ec_foreign c' !! (l, p) = if bool_decide (mkHCoord l p ∈ ds) then if exported (qr_snapshot q) (mkHCoord l p) then Some (qr_eldership q l p) else None else ec_foreign c !! (l, p).
Proof.
  revert c. induction ds as [|[l' p'] ds IH]; intros c Hnd; cbn [foldl]; [split; [done|]; intros; by rewrite bool_decide_false by (by intros ?%elem_of_nil)|].
  apply NoDup_cons in Hnd as [Hno Hnd]. cbn [hc_level hc_pos].
  match goal with |- context [foldl _ ?c1 ds] => destruct (IH c1 Hnd) as [Hm Hf] end.
  split; [rewrite Hm; by destruct (exported _ _)|]. intros l p. rewrite Hf. destruct (decide (mkHCoord l p = mkHCoord l' p')) as [[= -> ->]|Hne].
  - rewrite bool_decide_false, (bool_decide_true (_ ∈ _ :: _)) by set_solver. destruct (exported _ _); cbn; [by rewrite lookup_insert_eq|by rewrite lookup_delete_eq].
  - rewrite (bool_decide_ext (_ ∈ _ :: ds) (mkHCoord l p ∈ ds)) by set_solver. destruct (bool_decide _); [done|].
    destruct (exported _ _); cbn; [rewrite lookup_insert_ne|rewrite lookup_delete_ne]; congruence.
Qed.

(** What an event of QSPN, or the news that some were lost, says may have changed. *)
Definition touches (o : option QspnEvent) (d : HCoord) : Prop :=
  match o with
  | None | Some BootstrapComplete | Some PresenceNotified | Some (ChangedFingerprint _) | Some (ArcRemoved _ _) => True
  | Some (ChangedNodesInside _) => False
  | Some (DestinationAdded x) | Some (DestinationRemoved x) | Some (GnodeSplitted _ x _) => x = d
  | Some (PathAdded p) | Some (PathChanged p) | Some (PathRemoved p) => match last (rp_hops p) with Some h => hop_coord h = d | None => True end
  end.

Lemma absorb_covers plan queued d :
  rp_full (absorb_pending plan queued) = false → d ∉ rp_destinations (absorb_pending plan queued) →
  rp_full plan = false ∧ (d ∉ rp_destinations plan) ∧ ∀ o, o ∈ queued → ¬ touches o d.
Proof.
  revert plan. unfold absorb_pending. induction queued as [|o queued IH]; intros plan Hf Hd; cbn [foldl] in *; [split_and!; [done..|by intros ? ?%elem_of_nil]|].
  destruct (IH _ Hf Hd) as (Hf' & Hd' & Hrest). 
  assert (rp_full plan = false ∧ (d ∉ rp_destinations plan) ∧ ¬ touches o d) as (? & ? & Ho).
  { clear IH Hf Hd Hrest. destruct o as [[| | | | | | | | | |]|]; cbn in *; try (destruct (last _)); cbn in *; try done; split_and!; try done; set_solver. }
  split_and!; [done..|]. intros o' [->|Hin]%elem_of_cons; [done|by apply Hrest].
Qed.

(** The cache follows QSPN through every batch of events.  Where it agrees with what QSPN
    answered before, and each destination that entered or left the snapshot or changed its
    eldership since is one that some event of the batch touches (losing events touches all),
    after the turn it agrees with what QSPN answers now: a destination
    of the snapshot reads as its eldership, and one that left reads as unknown.  The
    first turn of a generation makes any cache agree. *)
Theorem eldership_cache_follows `{HashOrder} q q' levels c queued :
  placed (qr_snapshot q') →
  coherent q' levels (refresh_turn q' levels c plan_everything) ∧
  (coherent q levels c →
   (∀ d, (∀ o, o ∈ queued → ¬ touches o d) →
     exported (qr_snapshot q') d = exported (qr_snapshot q) d ∧
     qr_eldership q' (hc_level d) (hc_pos d) = qr_eldership q (hc_level d) (hc_pos d)) →
   (is_noop (absorb_pending plan_default queued) = true → ∀ l, l < levels → qr_my_eldership q' l = qr_my_eldership q l) →
   let c' := refresh_turn q' levels c (absorb_pending plan_default queued) in
   coherent q' levels c' ∧
   ∀ l p, cache_foreign c' l p = if exported (qr_snapshot q') (mkHCoord l p) then map_eldership (qr_eldership q' l p) else i32_max).
Proof.
  intros Hpl.
  assert (∀ c plan, rp_full plan = true → coherent q' levels (refresh_eldership q' levels c plan)) as Hfull.
  { intros c0 plan Hf. unfold refresh_eldership. rewrite Hf. destruct (my_loop q' levels c0) as [_ Hm].
    destruct (full_loop q' (snapshot_entries (qr_snapshot q')) (foldl (λ c l, set_my c l (qr_my_eldership q' l)) c0 (seq 0 levels))) as [Hm' Hfo].
    split; cbn [ec_my ec_foreign retain_foreign]; [intros l Hl; rewrite Hm'; by apply Hm|]. intros l p.
    destruct (exported (qr_snapshot q') (mkHCoord l p)) eqn:Ex.
    - apply snapshot_entries_elem in Ex; [|done]. apply map_lookup_filter_Some. split; [by apply Hfo|]. cbn. by apply elem_of_list_to_set.
    - apply map_lookup_filter_None. right. intros v _. cbn. rewrite elem_of_list_to_set, snapshot_entries_elem by done. by rewrite Ex. }
  split; [by apply Hfull|]. intros Hco Hch Hmy c'.
  assert (coherent q' levels c') as Hc'; [|split; [done|]; intros l p; unfold cache_foreign; rewrite (co_foreign _ _ _ Hc'); by destruct (exported _ _)].
  subst c'. unfold refresh_turn. set (plan := absorb_pending plan_default queued) in *.
  assert (∀ l p, rp_full plan = false → mkHCoord l p ∉ rp_destinations plan →
    (if exported (qr_snapshot q') (mkHCoord l p) then Some (qr_eldership q' l p) else None) = ec_foreign c !! (l, p)) as Hkeep.
  { intros l p Hf Hd. destruct (absorb_covers _ _ _ Hf Hd) as (_ & _ & Hno). destruct (Hch _ Hno) as [-> He]. cbn in He. by rewrite He, (co_foreign _ _ _ Hco). }
  destruct (is_noop plan) eqn:En.
  { unfold is_noop in En. apply andb_true_iff in En as [Hf%negb_true_iff He%bool_decide_eq_true]. split; [intros l Hl; rewrite Hmy by done; by apply (co_my _ _ _ Hco)|].
    intros l p. rewrite Hkeep; [done..|]. by rewrite He. }
  destruct (rp_full plan) eqn:Hf; [by apply Hfull|]. unfold refresh_eldership. rewrite Hf.
  destruct (my_loop q' levels c) as [Hfo Hm]. set (c1 := foldl _ c (seq 0 levels)) in *.
  destruct (named_loop q' (hm_iter (gset_to_gmap () (rp_destinations plan))).*1 c1) as [Hm' Hf']. { rewrite hm_iter_perm. apply NoDup_fst_map_to_list. }
  split; [intros l Hl; rewrite Hm'; by apply Hm|]. intros l p. rewrite Hf'. case_bool_decide as Hin; [done|]. rewrite Hfo, Hkeep; [done..|].
  intros Hd. apply Hin. apply list_elem_of_fmap. exists (mkHCoord l p, ()). split; [done|]. rewrite hm_iter_perm. apply elem_of_map_to_list. by apply lookup_gset_to_gmap_Some.
Qed.

(** *** A network of four, with a stranger in sight *)
Definition view_path (d : HCoord) (n : Z) : RoutePath := mkRoutePath 1 [mkHop 1 d] (Finite 100) n.
Definition view_entry (l : nat) (p n : Z) : RouteEntry := mkRouteEntry (mkHCoord l p) [view_path (mkHCoord l p) n].
Definition view_members : list Naddr := [ex_my; ex_peer; mkNaddr ex_topology [0; 1]%Z; mkNaddr ex_topology [2; 1]%Z].
Definition view_snapshot : RouteSnapshot := mkRouteSnapshot [[view_entry 0 3 1; view_entry 0 0 1]; [view_entry 1 1 2]].
Definition view_info : NetworkInfo := note_foreign (note_same_network (note_foreign (network_info_new 7) 0 0) 0 3) 0 3.

Lemma view_truthful : truthful ex_my view_members view_snapshot (Some view_info).
Proof.
  assert (∀ m, m ∈ view_members → naddr_wf m ∧ na_topology m = ex_topology) as Hm.
  { apply Forall_forall. repeat (apply Forall_cons_2; [split; [|done]; split; [split; [done|]; repeat (apply Forall_cons_2; [unfold U32_MAX; lia|]); apply Forall_nil_2|]; split; [done|]; repeat (apply Forall_cons_2; [unfold is_u32, U32_MAX; lia|]); apply Forall_nil_2|]).
    apply Forall_nil_2. }
  assert (∀ l, counted_at view_snapshot (Some view_info) l = match l with 0 => [view_entry 0 3 1] | 1 => [view_entry 1 1 2] | _ => [] end) as Hc.
  { intros [|[|l]]; [vm_compute; reflexivity..|]. unfold counted_at, entries_at. cbn [rs_levels view_snapshot]. by destruct l. }
  split.
  - by apply Hm, list_elem_of_here.
  - apply list_elem_of_here.
  - apply (bool_decide_unpack _). vm_compute. exact I.
  - done.
  - intros l. rewrite Hc. destruct l as [|[|l]]; cbn; [apply NoDup_singleton..|apply NoDup_nil_2].
  - intros l e. rewrite Hc. destruct l as [|[|l]]; [intros ->%list_elem_of_singleton..|by intros ?%elem_of_nil].
    all: split; [done|]; split; [vm_compute; lia|]; eexists _, []; split; [reflexivity|vm_compute; reflexivity].
  - intros m d Hin Hd. setoid_rewrite Hc. revert m Hin Hd. refine (proj1 (Forall_forall _ _) _). unfold view_members.
    repeat (apply Forall_cons_2; [intros Hd; vm_compute in Hd; first [discriminate|injection Hd as <-; eexists; split; [apply list_elem_of_here|reflexivity]]|]). apply Forall_nil_2.
  - vm_compute. discriminate.
Qed.

Lemma node_count_exact_witness :
  estimate_n_nodes view_snapshot None 1 = Ok 5%Z ∧
  ∃ v, qspn_view ex_my view_snapshot view_info (mkEldershipCache ∅ ∅) = Ok v ∧ v_n_nodes v = 4%Z.
Proof. split; [vm_compute; reflexivity|]. exact (proj1 (node_count_exact ex_my view_members view_snapshot view_info (mkEldershipCache ∅ ∅) view_truthful)). Defined.

Lemma chosen_level_spans_network_witness :
  chosen_lvl_from_snapshot view_snapshot view_info 2 = 1 ∧
  ∃ m d, m ∈ view_members ∧ hcoord ex_my m = Ok (Some d) ∧ hc_level d = 0.
Proof.
  split; [vm_compute; reflexivity|]. apply (proj2 (proj2 (chosen_level_spans_network ex_my view_members view_snapshot view_info view_truthful))). vm_compute. discriminate.
Defined.

Lemma dial_reaches_witness : dial_target ex_my (mkTupleNode ex_topology [3%Z]) = Some ex_peer.
Proof.
  assert (naddr_wf ex_my ∧ naddr_wf ex_peer) as [H1 H2] by (split; apply (tr_members _ _ _ _ view_truthful); set_solver).
  refine (proj1 (proj1 (dial_reaches ex_my ex_peer 1 H1 H2 eq_refl _ _) _)).
  - cbn. lia.
  - intros [|i] Hi; [lia|done].
  - repeat (apply Forall2_cons; split; [lia|]). apply Forall2_nil_2.
Defined.

Lemma reserved_position_is_vacant_witness :
  ∃ m s' e r, coordinator_map ex_my view_snapshot view_info = Ok m ∧
    reserve_enter coord_start m 0 1 10 = (s', e, Ok r) ∧ cr_new_pos r = 0%Z ∧
    ∀ other, other ∈ view_members → agree_above [1; 2]%Z (na_pos other) 1 → naddr_pos other 0 ≠ Some 0%Z.
Proof.
  destruct (reserved_position_is_vacant ex_my view_members view_snapshot view_info coord_start 0 1 10 view_truthful coord_start_wf eq_refl) as (m & Hm & _ & Hr).
  { intros mem b [= <-] Hb. by apply elem_of_nil in Hb. }
  exists m. vm_compute in Hm. injection Hm as <-. eexists _, _, _. split; [done|]. split; [vm_compute; reflexivity|]. split; [reflexivity|].
  match type of Hr with context [reserve_enter ?s ?m ?n ?t ?i] => destruct (Hr _ _ _ (ltac:(vm_compute; reflexivity) : reserve_enter s m n t i = (_, _, Ok (mkCoordReservation 0 1)))) as (g & mem & Hg & _ & _ & _ & Hcase) end.
  vm_compute in Hg. injection Hg as <-. destruct Hcase as [Hbad|[_ Hv]]; [cbn in Hbad; lia|exact Hv].
Defined.

Definition reader_with (levels : list (list RouteEntry)) : QspnReader :=
  mkReader (λ l, Some (Some (Z.of_nat l))) (λ _ p, Some (Some (p + 10)%Z)) (mkRouteSnapshot levels).

Lemma eldership_cache_follows_witness :
  let q := reader_with [[view_entry 0 3 1; view_entry 0 0 1]] in
  let q' := reader_with [[view_entry 0 3 1]] in
  let c := @refresh_turn map_order q 2 (mkEldershipCache ∅ ∅) plan_everything in
  let c' := @refresh_turn map_order q' 2 c (absorb_pending plan_default [Some (DestinationRemoved (mkHCoord 0 0))]) in
  cache_foreign c 0 0 = 10%Z ∧ coherent q' 2 c' ∧ cache_foreign c' 0 3 = 13%Z ∧ cache_foreign c' 0 0 = i32_max.
Proof.
  intros q q' c c'. split; [vm_compute; reflexivity|].
  assert (∀ es, Forall (λ e, hc_level (re_destination e) = 0) es → placed (mkRouteSnapshot [es])) as Hp.
  { intros es He [|l] e Hin; [by apply (proj1 (Forall_forall _ _) He)|]. unfold entries_at in Hin. cbn in Hin. by destruct l; apply elem_of_nil in Hin. }
  assert (placed (qr_snapshot q)) as Hq by (apply Hp; repeat constructor). assert (placed (qr_snapshot q')) as Hq' by (apply Hp; repeat constructor).
  assert (coherent q 2 c) as Hc by exact (proj1 (@eldership_cache_follows map_order q q 2 (mkEldershipCache ∅ ∅) [] Hq)).
  destruct (proj2 (@eldership_cache_follows map_order q q' 2 c [Some (DestinationRemoved (mkHCoord 0 0))] Hq') Hc) as [H1 H2].
  - intros d Hd. split; [|done]. specialize (Hd _ (list_elem_of_here _ _)). cbn in Hd. destruct d as [[|[|l]] p]; unfold exported; cbn; [|done..].
    unfold any. cbn. rewrite (bool_decide_false (mkHCoord 0 0 = _)) by done. done.
  - done.
  - split; [exact H1|]. split; rewrite H2; vm_compute; reflexivity.
Defined.
