(* ===== verification/NodeCodec.v ===== *)
(** * The payloads the daemon puts in the coordinator's envelopes

    Models [crates/ntkd/src/node/codec.rs]: the shapes that cross from hooking to the
    coordinator and back as a [TypedValue], and the record that the coordinators of a g-node
    replicate for hooking ([HookingMemory]).  The text is TOML, which is a parameter
    ([TomlDoc]): documents whose fields are within their types and within TOML's signed
    64-bit integers are written, and what was written is read back. *)
From stdpp Require Import strings.
From S2P Require Import Prelude Addressing Domain HookDomain.
#[local] Open Scope string_scope.

Definition I64_MAX : Z := 9223372036854775807.
Definition is_i64 (z : Z) : Prop := (- I64_MAX - 1 ≤ z ≤ I64_MAX)%Z.
(** A [u64] that TOML can write. *)
Definition is_u63 (z : Z) : Prop := (0 ≤ z ≤ I64_MAX)%Z.
Definition I32_RANGE (z : Z) : Prop := (-2147483648 ≤ z ≤ 2147483647)%Z.

(** ** TOML *)
Class DocShape (W : Type) := doc_wf : W → Prop.
Class TomlDoc (W : Type) `{DocShape W} := {
  toml_to_string : W → option (list Z);
  toml_from_str : list Z → option W;
  toml_total : ∀ w, doc_wf w → is_Some (toml_to_string w);
  toml_read_back : ∀ w text, toml_to_string w = Some text → toml_from_str text = Some w;
  toml_typed : ∀ text w, toml_from_str text = Some w → doc_wf w
}.

Inductive CodecError := TagMismatch (expected actual : string) | TomlError.

Definition wire {W} `{TomlDoc W} (tag : string) (value : W) : res CodecError TypedValue :=
  text ← expect (toml_to_string value); Ok (mkTypedValue tag text).
Definition unwire {W} `{TomlDoc W} (tv : TypedValue) (expected_tag : string) : res CodecError W :=
  if negb (bool_decide (tv_type_tag tv = expected_tag)) then Err (TagMismatch expected_tag (tv_type_tag tv))
  else ok_or (toml_from_str (tv_payload tv)) TomlError.

(** ** The shapes *)
Definition TAG_EVALUATE_ENTER_REQUEST : string := "ntkd.EvaluateEnterRequest".
Definition TAG_EVALUATE_ENTER_ANSWER : string := "ntkd.EvaluateEnterAnswer".
Definition TAG_MIGRATION_ID : string := "ntkd.MigrationId".
Definition TAG_ENTER_ID : string := "ntkd.EnterId".
Definition TAG_FINISH_MIGRATION_DATA : string := "ntkd.FinishMigrationData".
Definition TAG_FINISH_ENTER_DATA : string := "ntkd.FinishEnterData".
Definition TAG_HOOKING_MEMORY : string := "ntkd.HookingMemory".
Definition TAG_UNIT : string := "ntkd.Unit".

Record Scalar := mkScalar { sc_value : Z }.
Inductive EvaluateEnterAnswer := Accepted (chosen_lvl : nat) | AskedAgain | IgnoredNetwork.
Record WireEvaluateEnterRequest := mkWireEvaluate {
  we_network_id : Z; we_neighbor_pos : list Z; we_neighbor_min_lvl : nat; we_min_lvl : nat; we_evaluate_enter_id : Z
}.
Record WireEntryData := mkWireEntry { wn_network_id : Z; wn_pos : list Z; wn_elderships : list Z }.
Record WireFinishMigrationData := mkWireFinishMigration { wm_migration_id : Z; wm_migration_data : WireEntryData; wm_go_connectivity_position : Z }.
Record WireFinishEnterData := mkWireFinishEnter { wf_enter_id : Z; wf_entry_data : WireEntryData; wf_go_connectivity_position : Z }.
Record WireHookingMemory := mkWireMemory { wh_merge_decisions : list (Z * bool * Z); wh_elections : list (Z * Z * Z * Z * Z) }.

Definition is_level (n : nat) : Prop := (Z.of_nat n ≤ I64_MAX)%Z.
Definition entry_wf (e : WireEntryData) : Prop := is_i64 (wn_network_id e) ∧ Forall is_u32 (wn_pos e) ∧ Forall I32_RANGE (wn_elderships e).
#[export] Instance unit_shape : DocShape unit := λ _, True.
#[export] Instance scalar_shape : DocShape Scalar := λ s, I32_RANGE (sc_value s).
#[export] Instance answer_shape : DocShape EvaluateEnterAnswer := λ a, match a with Accepted l => is_level l | _ => True end.
#[export] Instance request_shape : DocShape WireEvaluateEnterRequest := λ w,
  is_i64 (we_network_id w) ∧ Forall is_u32 (we_neighbor_pos w) ∧ is_level (we_neighbor_min_lvl w) ∧ is_level (we_min_lvl w) ∧ I32_RANGE (we_evaluate_enter_id w).
#[export] Instance finish_migration_shape : DocShape WireFinishMigrationData := λ w,
  I32_RANGE (wm_migration_id w) ∧ entry_wf (wm_migration_data w) ∧ is_u32 (wm_go_connectivity_position w).
#[export] Instance finish_enter_shape : DocShape WireFinishEnterData := λ w,
  I32_RANGE (wf_enter_id w) ∧ entry_wf (wf_entry_data w) ∧ is_u32 (wf_go_connectivity_position w).
#[export] Instance memory_shape : DocShape WireHookingMemory := λ w,
  Forall (λ '(k, _, at_), is_i64 k ∧ is_u63 at_) (wh_merge_decisions w) ∧
  Forall (λ '(l, n, i, g, c), is_u32 l ∧ is_i64 n ∧ I32_RANGE i ∧ is_u63 g ∧ is_u63 c) (wh_elections w).

(** ** What crosses *)
Section Codec.
Context `{!TomlDoc unit} `{!TomlDoc Scalar} `{!TomlDoc EvaluateEnterAnswer} `{!TomlDoc WireEvaluateEnterRequest}.
Context `{!TomlDoc WireFinishMigrationData} `{!TomlDoc WireFinishEnterData}.

Definition encode_unit : res CodecError TypedValue := wire TAG_UNIT tt.
Definition encode_evaluate_enter_request (req : EvaluateEnterRequest) : res CodecError TypedValue :=
  wire TAG_EVALUATE_ENTER_REQUEST
    (mkWireEvaluate (ee_network_id req) (ee_neighbor_pos req) (ee_neighbor_min_lvl req) (ee_min_lvl req) (ee_evaluate_enter_id req)).
Definition decode_evaluate_enter_request (tv : TypedValue) : res CodecError EvaluateEnterRequest :=
  w ← unwire tv TAG_EVALUATE_ENTER_REQUEST;
  Ok (mkEvaluate (we_network_id w) (we_neighbor_pos w) (we_neighbor_min_lvl w) (we_min_lvl w) (we_evaluate_enter_id w)).
Definition encode_evaluate_enter_answer (a : EvaluateEnterAnswer) : res CodecError TypedValue := wire TAG_EVALUATE_ENTER_ANSWER a.
Definition decode_evaluate_enter_answer (tv : TypedValue) : res CodecError EvaluateEnterAnswer := unwire tv TAG_EVALUATE_ENTER_ANSWER.
Definition encode_migration_id (id : Z) : res CodecError TypedValue := wire TAG_MIGRATION_ID (mkScalar id).
Definition decode_migration_id (tv : TypedValue) : res CodecError Z := sc_value <$> unwire tv TAG_MIGRATION_ID.
Definition encode_enter_id (id : Z) : res CodecError TypedValue := wire TAG_ENTER_ID (mkScalar id).
Definition decode_enter_id (tv : TypedValue) : res CodecError Z := sc_value <$> unwire tv TAG_ENTER_ID.

Definition entry_to_wire (d : EntryData) : WireEntryData := mkWireEntry (ed_network_id d) (ed_pos d) (ed_elderships d).
Definition entry_of_wire (w : WireEntryData) : EntryData := mkEntryData (wn_network_id w) (wn_pos w) (wn_elderships w).
Definition encode_finish_migration_data (d : FinishMigrationData) : res CodecError TypedValue :=
  wire TAG_FINISH_MIGRATION_DATA (mkWireFinishMigration (fm_migration_id d) (entry_to_wire (fm_migration_data d)) (fm_go_connectivity_position d)).
Definition decode_finish_migration_data (tv : TypedValue) : res CodecError FinishMigrationData :=
  w ← unwire tv TAG_FINISH_MIGRATION_DATA; Ok (mkFinishMigration (wm_migration_id w) (entry_of_wire (wm_migration_data w)) (wm_go_connectivity_position w)).
Definition encode_finish_enter_data (d : FinishEnterData) : res CodecError TypedValue :=
  wire TAG_FINISH_ENTER_DATA (mkWireFinishEnter (fe_enter_id d) (entry_to_wire (fe_entry_data d)) (fe_go_connectivity_position d)).
Definition decode_finish_enter_data (tv : TypedValue) : res CodecError FinishEnterData :=
  w ← unwire tv TAG_FINISH_ENTER_DATA; Ok (mkFinishEnter (wf_enter_id w) (entry_of_wire (wf_entry_data w)) (wf_go_connectivity_position w)).
End Codec.

(** ** The shared record *)
Record ElectionRecord := mkElectionRecord { er_network_id : Z; er_evaluate_enter_id : Z; er_granted_at_millis : Z; er_completed_at_millis : option Z }.
Record HookingMemory := mkHookingMemory { hk_merge_decisions : gmap Z (bool * Z); hk_elections : gmap nat ElectionRecord }.
Definition hooking_memory_default : HookingMemory := mkHookingMemory ∅ ∅.

(** [collect] into a [HashMap]: the last entry of a key stays. *)
Definition collect_map {K V} `{Countable K} (l : list (K * V)) : gmap K V := foldl (λ m kv, <[kv.1 := kv.2]> m) ∅ l.

Definition election_to_wire (le : nat * ElectionRecord) : Z * Z * Z * Z * Z :=
  let e := le.2 in
  (Z.min (Z.of_nat le.1) U32_MAX, er_network_id e, er_evaluate_enter_id e, er_granted_at_millis e, default 0%Z (er_completed_at_millis e)).
Definition election_of_wire (w : Z * Z * Z * Z * Z) : nat * ElectionRecord :=
  let '(level, network_id, evaluate_enter_id, granted, completed) := w in
  (Z.to_nat level, mkElectionRecord network_id evaluate_enter_id granted (if negb (completed =? 0)%Z then Some completed else None)).

Section Memory.
Context `{HashOrder} `{!TomlDoc WireHookingMemory}.

Definition encode_hooking_memory (mem : HookingMemory) : res CodecError TypedValue :=
  wire TAG_HOOKING_MEMORY
    (mkWireMemory ((λ kv : Z * (bool * Z), (kv.1, kv.2.1, kv.2.2)) <$> hm_iter (hk_merge_decisions mem)) (election_to_wire <$> hm_iter (hk_elections mem))).
Definition decode_hooking_memory (tv : TypedValue) : res CodecError HookingMemory :=
  w ← unwire tv TAG_HOOKING_MEMORY;
  Ok (mkHookingMemory (collect_map ((λ '(k, d, at_), (k, (d, at_))) <$> wh_merge_decisions w)) (collect_map (election_of_wire <$> wh_elections w))).
End Memory.

(** ** Lemmas *)
Lemma wire_read {W} `{TomlDoc W} tag (w : W) : doc_wf w → ∃ tv, wire tag w = Ok tv ∧ unwire tv tag = Ok w.
Proof.
  intros [text Ht]%toml_total. exists (mkTypedValue tag text). unfold wire, unwire. rewrite Ht. split; [done|]. cbn. rewrite bool_decide_true by done. cbn. by rewrite (toml_read_back _ _ Ht).
Qed.

Lemma unwire_wf {W} `{TomlDoc W} tag tv (w : W) : unwire tv tag = Ok w → doc_wf w.
Proof. unfold unwire. destruct (negb _); [done|]. destruct (toml_from_str _) as [x|] eqn:Hx; cbn; [|done]. intros [= <-]. by eapply toml_typed. Qed.

Lemma wire_tag {W} `{TomlDoc W} tag (w : W) tv : wire tag w = Ok tv → tv_type_tag tv = tag.
Proof. unfold wire. destruct (toml_to_string w); cbn; [|done]. by intros [= <-]. Qed.

Lemma unwire_mismatch {W} `{TomlDoc W} tv tag : tv_type_tag tv ≠ tag → unwire tv tag = Err (TagMismatch tag (tv_type_tag tv)).
Proof. intros Ht. unfold unwire. by rewrite bool_decide_false. Qed.

Lemma collect_elem {K V} `{Countable K} (l : list (K * V)) k v : collect_map l !! k = Some v → (k, v) ∈ l.
Proof.
  unfold collect_map. induction l as [|[k' v'] l IH] using rev_ind; [done|]. rewrite foldl_app. cbn. intros [[-> ->]|[_ Hl]]%lookup_insert_Some; apply elem_of_app; [right; by apply list_elem_of_singleton|left; by apply IH].
Qed.

Lemma collect_lookup {K V} `{Countable K} (l : list (K * V)) k v : NoDup l.*1 → (k, v) ∈ l → collect_map l !! k = Some v.
Proof.
  unfold collect_map. induction l as [|[k' v'] l IH] using rev_ind; [by intros _ ?%elem_of_nil|]. rewrite foldl_app, fmap_app. cbn. intros (Hnd & Hno & _)%NoDup_app [Hin|Hin%list_elem_of_singleton]%elem_of_app.
  - rewrite lookup_insert_ne; [by apply IH|]. intros ->. apply (Hno k); [|by apply list_elem_of_singleton]. apply list_elem_of_fmap. by exists (k, v).
  - simplify_eq. apply lookup_insert_eq.
Qed.

Lemma collect_iter `{HashOrder} {K V} `{Countable K} (m : gmap K V) : collect_map (hm_iter m) = m.
Proof.
  apply map_eq. intros k. destruct (m !! k) as [v|] eqn:Hm.
  - apply collect_lookup; [rewrite hm_iter_perm; apply NoDup_fst_map_to_list|]. rewrite hm_iter_perm. by apply elem_of_map_to_list.
  - destruct (collect_map _ !! k) as [v|] eqn:Hc; [|done]. apply collect_elem in Hc. rewrite hm_iter_perm in Hc. apply elem_of_map_to_list in Hc. congruence.
Qed.

(** A record that can be written. *)
Record election_ok (level : nat) (e : ElectionRecord) : Prop := {
  eo_level : (Z.of_nat level ≤ U32_MAX)%Z;
  eo_network : is_i64 (er_network_id e);
  eo_id : I32_RANGE (er_evaluate_enter_id e);
  eo_granted : is_u63 (er_granted_at_millis e);
  eo_completed : ∀ at_, er_completed_at_millis e = Some at_ → is_u63 at_ ∧ at_ ≠ 0%Z
}.
Record memory_ok (mem : HookingMemory) : Prop := {
  mo_decisions : ∀ k d at_, hk_merge_decisions mem !! k = Some (d, at_) → is_i64 k ∧ is_u63 at_;
  mo_elections : ∀ l e, hk_elections mem !! l = Some e → election_ok l e
}.

Lemma election_back l e : election_ok l e → election_of_wire (election_to_wire (l, e)) = (l, e).
Proof.
  intros [Hl _ _ _ Hc]. destruct e as [n i g c]; cbn in *. rewrite Z.min_l, Nat2Z.id by done. do 2 f_equal. destruct c as [c|]; cbn; [|done].
  destruct (Hc c eq_refl) as [_ Hn]. by rewrite (proj2 (Z.eqb_neq _ _) Hn).
Qed.

Section MemoryLemmas.
Context `{HashOrder} `{!TomlDoc WireHookingMemory}.

Lemma hooking_memory_roundtrip mem : memory_ok mem → ∃ tv, encode_hooking_memory mem = Ok tv ∧ decode_hooking_memory tv = Ok mem.
Proof.
  intros [Hd He]. unfold encode_hooking_memory, decode_hooking_memory.
  match goal with |- context [wire TAG_HOOKING_MEMORY ?w] => destruct (wire_read TAG_HOOKING_MEMORY w) as (tv & Ht & Hu) end; [|rewrite Ht].
  - unfold doc_wf, memory_shape. split; apply Forall_forall; cbn; intros x Hx; apply list_elem_of_fmap in Hx as ([k v] & -> & Hx); rewrite hm_iter_perm in Hx; apply elem_of_map_to_list in Hx.
    + destruct v as [d at_]. by apply (Hd k d).
    + destruct (He _ _ Hx) as [Hl Hn Hi Hg Hc]. cbn. split_and!; try done; [split; unfold U32_MAX in *; lia|].
      destruct (er_completed_at_millis v) as [c|]; cbn; [by apply Hc|]. split; [done|]. unfold I64_MAX. lia.
  - exists tv. split; [done|]. rewrite Hu. cbn. f_equal. destruct mem as [ds es]; cbn in *. f_equal.
    + rewrite <- list_fmap_compose. etrans; [|apply collect_iter]. f_equal. etrans; [|apply list_fmap_id]. apply list_fmap_ext. intros _ [k [d at_]] _. done.
    + rewrite <- list_fmap_compose. etrans; [|apply collect_iter]. f_equal. etrans; [|apply list_fmap_id]. apply list_fmap_ext. intros i [l e] Hi. cbn [compose]. apply election_back, He.
      apply elem_of_map_to_list. rewrite <- hm_iter_perm. by eapply list_elem_of_lookup_2.
Qed.

Lemma decode_hooking_ok tv mem : decode_hooking_memory tv = Ok mem → memory_ok mem.
Proof.
  unfold decode_hooking_memory. destruct (unwire tv _) as [w| |] eqn:Hw; cbn; [|done..]. intros [= <-]. destruct (unwire_wf _ _ _ Hw) as [Hd He]. pose proof (proj1 (Forall_forall _ _) Hd) as Hd1. pose proof (proj1 (Forall_forall _ _) He) as He1. split; cbn.
  - intros k d at_ ([[k' d'] a'] & Heq & Hin)%collect_elem%list_elem_of_fmap. simplify_eq. by apply (Hd1 _ Hin).
  - intros l e ([[[[l' n] i] g] c] & Heq & Hin)%collect_elem%list_elem_of_fmap. cbn in Heq. simplify_eq. destruct (He1 _ Hin) as (Hl & Hn & Hi & Hg & Hc).
    split; cbn; try done; [destruct Hl; lia|]. intros at_. destruct (Z.eqb_spec c 0); cbn; [done|]. by intros [= <-].
Qed.
End MemoryLemmas.
