(* ===== verification/NodeArbiter.v ===== *)
(** * Who may enter: the elections of the daemon

    Models the server side and the client side of the enter protocol in
    [crates/ntkd/src/node/adapters.rs]: [EnterArbiter], which grants one candidate per level
    and keeps the grant both in this process and in the record that the coordinators
    replicate; [EnterHandlersAdapter], the handlers the coordinator calls; and
    [CoordinatorClientAdapter], the calls that hooking makes, with the collective
    decision of a merge.  Clocks are inputs: the monotonic one in nanoseconds, the wall clock in
    milliseconds. *)
From stdpp Require Import strings.
From S2P Require Import Prelude Addressing Domain QspnPath HookDomain HookArc PeerTuple Coordinator CoordWire NodeView NodeCodec.

(** ** The arbiter *)
Record Election := mkElection { el_network_id : Z; el_evaluate_enter_id : Z; el_granted_at : Z; el_completed_at : option Z }.
Record LevelState := mkLevelState { ls_elected : option Election }.
Abbreviation EnterArbiter := (gmap nat LevelState).
Definition level_state_default : LevelState := mkLevelState None.
Definition enter_arbiter_new : EnterArbiter := ∅.

Definition ELECTED_TTL_MS : Z := 60000.
Definition ELECTED_TTL : Z := ELECTED_TTL_MS * 1000000.

(** The clocks of one ask: the monotonic one at the start and at the end, the wall clock, and the
    coordinator's own. *)
Record AskClock := mkAskClock { ak_start : Z; ak_millis : Z; ak_end : Z; ak_coord : Z }.

(** How an election stands to an ask. *)
Definition answer_for (level : nat) (elected_network elected_id network_id evaluate_enter_id : Z) : EvaluateEnterAnswer :=
  if negb (elected_network =? network_id)%Z then AskedAgain
  else if (elected_id =? evaluate_enter_id)%Z then Accepted level
  else IgnoredNetwork.
Definition released_for_others {A} (completed : option A) (elected_network network_id : Z) : bool :=
  bool_decide (is_Some completed) && negb (elected_network =? network_id)%Z.

(** What this process still holds to. *)
Definition local_live (now network_id : Z) (e : Election) : bool :=
  negb ((ELECTED_TTL <=? Z.max 0 (now - el_granted_at e))%Z || released_for_others (el_completed_at e) (el_network_id e) network_id).
Definition shared_live (now_ms network_id : Z) (e : ElectionRecord) : bool :=
  negb (ELECTED_TTL_MS <=? Z.max 0 (now_ms - er_granted_at_millis e))%Z && negb (released_for_others (er_completed_at_millis e) (er_network_id e) network_id).

Section Arbiter.
Context `{HashOrder} `{!TomlDoc WireHookingMemory} `{!ProstMessage WireRequestMsg}.
Implicit Types (arb : EnterArbiter) (s : CoordState).

Definition hooking_memory_locally s (top : nat) : option TypedValue := get_hooking_memory s top.
Definition set_hooking_memory_locally s (now : Z) (top : nat) (data : option TypedValue) : CoordState * list Replication :=
  let s' := (set_hooking_memory s top data).1 in (s', spawn_replicate s' now top).

(** [decode_hooking_memory(..).unwrap_or_default()]. *)
Definition memory_or_default (tv : option TypedValue) : HookingMemory :=
  match tv with Some tv => match decode_hooking_memory tv with Ok mem => mem | _ => hooking_memory_default end | None => hooking_memory_default end.

(** The part of [decide] on the replicated record, with what this process has to remember. *)
Definition decide_shared s (ck : AskClock) (top level : nat) (network_id evaluate_enter_id : Z)
    : res CodecError (CoordState * list Replication * EvaluateEnterAnswer) :=
  let mem := memory_or_default (hooking_memory_locally s top) in
  match hk_elections mem !! level ≫= (λ e, if shared_live (ak_millis ck) network_id e then Some e else None) with
  | Some e => Ok (s, [], answer_for level (er_network_id e) (er_evaluate_enter_id e) network_id evaluate_enter_id)
  | None =>
      tv ← encode_hooking_memory (mkHookingMemory (hk_merge_decisions mem)
             (<[level := mkElectionRecord network_id evaluate_enter_id (ak_millis ck) None]> (hk_elections mem)));
      let '(s', reps) := set_hooking_memory_locally s (ak_coord ck) top (Some tv) in
      Ok (s', reps, Accepted level)
  end.

Definition arbiter_decide arb s (ck : AskClock) (top level : nat) (network_id evaluate_enter_id : Z)
    : res CodecError (EnterArbiter * CoordState * list Replication * EvaluateEnterAnswer) :=
  let st := default level_state_default (arb !! level) in
  let elected := ls_elected st ≫= (λ e, if local_live (ak_start ck) network_id e then Some e else None) in
  match elected with
  | Some e =>
      Ok (<[level := mkLevelState elected]> arb, s, [], answer_for level (el_network_id e) (el_evaluate_enter_id e) network_id evaluate_enter_id)
  | None =>
      r ← decide_shared s ck top level network_id evaluate_enter_id;
      let '(s', reps, answer) := r in
      let elected' := match answer with Accepted _ => Some (mkElection network_id evaluate_enter_id (ak_end ck) None) | _ => None end in
      Ok (<[level := mkLevelState elected']> arb, s', reps, answer)
  end.

Definition arbiter_release arb s (coord_now : Z) (top level : nat) : res CodecError (EnterArbiter * CoordState * list Replication) :=
  let arb' := <[level := mkLevelState None]> arb in
  match hooking_memory_locally s top with
  | Some tv =>
      match decode_hooking_memory tv with
      | Ok mem =>
          match hk_elections mem !! level with
          | Some _ =>
              tv' ← encode_hooking_memory (mkHookingMemory (hk_merge_decisions mem) (delete level (hk_elections mem)));
              let '(s', reps) := set_hooking_memory_locally s coord_now top (Some tv') in Ok (arb', s', reps)
          | None => Ok (arb', s, [])
          end
      | _ => Ok (arb', s, [])
      end
  | None => Ok (arb', s, [])
  end.

Definition mark_completed (now : Z) (st : LevelState) : LevelState :=
  mkLevelState ((λ e, mkElection (el_network_id e) (el_evaluate_enter_id e) (el_granted_at e) (Some (default now (el_completed_at e)))) <$> ls_elected st).

Definition arbiter_complete arb s (now now_ms coord_now : Z) (top level : nat) : res CodecError (EnterArbiter * CoordState * list Replication) :=
  let arb' := <[level := mark_completed now (default level_state_default (arb !! level))]> arb in
  match hooking_memory_locally s top with
  | Some tv =>
      match decode_hooking_memory tv with
      | Ok mem =>
          match hk_elections mem !! level with
          | Some e =>
              if bool_decide (er_completed_at_millis e = None) then
                tv' ← encode_hooking_memory (mkHookingMemory (hk_merge_decisions mem)
                        (<[level := mkElectionRecord (er_network_id e) (er_evaluate_enter_id e) (er_granted_at_millis e) (Some now_ms)]> (hk_elections mem)));
                let '(s', reps) := set_hooking_memory_locally s coord_now top (Some tv') in Ok (arb', s', reps)
              else Ok (arb', s, [])
          | None => Ok (arb', s, [])
          end
      | _ => Ok (arb', s, [])
      end
  | None => Ok (arb', s, [])
  end.
End Arbiter.

(** ** The handlers *)
Section Handlers.
Context `{HashOrder} `{!TomlDoc WireHookingMemory} `{!TomlDoc unit} `{!TomlDoc EvaluateEnterAnswer} `{!TomlDoc WireEvaluateEnterRequest} `{!ProstMessage WireRequestMsg}.
Implicit Types (arb : EnterArbiter) (s : CoordState).
Variables (my : Naddr) (snap : RouteSnapshot) (ni : NetworkInfo).

Definition handle_evaluate_enter arb s (ck : AskClock) (data : TypedValue) : res CodecError (EnterArbiter * CoordState * list Replication * TypedValue) :=
  match decode_evaluate_enter_request data with
  | Ok req =>
      let level := chosen_lvl_from_snapshot snap ni (topology_levels (na_topology my)) in
      r ← arbiter_decide arb s ck (topology_levels (na_topology my)) level (ee_network_id req) (ee_evaluate_enter_id req);
      tv ← encode_evaluate_enter_answer r.2; Ok (r.1, tv)
  | _ => tv ← encode_evaluate_enter_answer IgnoredNetwork; Ok (arb, s, [], tv)
  end.
Definition handle_begin_enter : res CodecError TypedValue := encode_unit.
Definition handle_completed_enter arb s (now now_ms coord_now : Z) (top : nat) : res CodecError (EnterArbiter * CoordState * list Replication * TypedValue) :=
  r ← arbiter_complete arb s now now_ms coord_now (topology_levels (na_topology my)) (top - 1);
  tv ← encode_unit; Ok (r, tv).
Definition handle_abort_enter arb s (coord_now : Z) (top : nat) : res CodecError (EnterArbiter * CoordState * list Replication * TypedValue) :=
  r ← arbiter_release arb s coord_now (topology_levels (na_topology my)) (top - 1);
  tv ← encode_unit; Ok (r, tv).
End Handlers.

(** ** The client *)

(** Where the three calls of an entry go: the coordinator of this very node, or the one of a
    key, found by peer services. *)
Inductive EnterRoute := OwnCoordinator (top : nat) | KeyCoordinator (top : nat).
Definition enter_route (lvl : nat) : EnterRoute := if lvl =? 0 then OwnCoordinator 1 else KeyCoordinator (lvl + 1).
Definition client_begin_route (lvl : nat) : EnterRoute := enter_route lvl.
Definition client_completed_route (lvl : nat) : EnterRoute := enter_route lvl.
Definition client_abort_route (lvl : nat) : EnterRoute := enter_route lvl.

Section Client.
Context `{HashOrder} `{!TomlDoc WireHookingMemory} `{!TomlDoc EvaluateEnterAnswer} `{!TomlDoc WireEvaluateEnterRequest}.

(** [proxied] is what the coordinator of the whole network answered. *)
Definition client_evaluate (proxied : TypedValue → res ProxyError TypedValue) (req : EvaluateEnterRequest) : res CoordinatorError nat :=
  match encode_evaluate_enter_request req with
  | Ok data =>
      match proxied data with
      | Ok reply =>
          match decode_evaluate_enter_answer reply with
          | Ok (Accepted lvl) => Ok lvl
          | Ok AskedAgain => Err AskAgain
          | Ok IgnoredNetwork => Err IgnoreNetwork
          | _ => Err Unreachable
          end
      | _ => Err Unreachable
      end
  | _ => Panic
  end.

(** A place as hooking takes it. *)
Definition hooking_reservation (outcome : res ProxyError (option CoordReservation)) : res CoordinatorError (Z * Z) :=
  match outcome with
  | Ok (Some r) => Ok (cr_new_pos r, if (cr_new_eldership r <=? i32_max)%Z then cr_new_eldership r else i32_max)
  | Ok None => Err NoCoordinatorForLevel
  | _ => Err Unreachable
  end.

Abbreviation MergeCache := (gmap Z (bool * Z)).
(** What [decide_merge] meets: the clocks, the shared record, and the number of nodes of this
    network as its coordinator tells. *)
Record MergeWorld := mkMergeWorld { mw_now : Z; mw_millis : Z; mw_memory : res ProxyError (option TypedValue); mw_n_nodes : res ProxyError Z }.
Definition fresh_decision (ttl_ms now_ms : Z) (d : bool * Z) : bool := (Z.max 0 (now_ms - d.2) <? ttl_ms)%Z.

(** The answer, the cache, and what is written to the shared record. *)
Definition decide_merge (ttl : Z) (cache : MergeCache) (w : MergeWorld) (req : MergeArbitrationRequest) : res CodecError (bool * MergeCache * option TypedValue) :=
  let key := mr_neighbor_network_id req in
  match cache !! key ≫= (λ d, if (Z.max 0 (mw_now w - d.2) <? ttl)%Z then Some d.1 else None) with
  | Some cached => Ok (cached, cache, None)
  | None =>
      let ttl_ms := Z.min (ttl / 1000000) U64_MAX in
      let mem := memory_or_default (match mw_memory w with Ok (Some tv) => Some tv | _ => None end) in
      let decisions := filter (λ kd : Z * (bool * Z), fresh_decision ttl_ms (mw_millis w) kd.2 = true) (hk_merge_decisions mem) in
      match decisions !! key with
      | Some d => Ok (d.1, <[key := (d.1, mw_now w)]> cache, None)
      | None =>
          let my_n_nodes := match mw_n_nodes w with Ok n => n | _ => 1%Z end in
          let decision := merge_tiebreak my_n_nodes (mr_neighbor_n_nodes req) (mr_my_network_id req) key in
          tv ← encode_hooking_memory (mkHookingMemory (<[key := (decision, mw_millis w)]> decisions) (hk_elections mem));
          Ok (decision, <[key := (decision, mw_now w)]> cache, Some tv)
      end
  end.
End Client.

(** ** What members tell each other *)
Inductive Notification :=
  | NotifyPrepareMigration (migration_id : Z)
  | NotifyFinishMigration (level : nat) (data : FinishMigrationData)
  | NotifyPrepareEnter (enter_id : Z)
  | NotifyFinishEnter (level : nat) (data : FinishEnterData).

Section Propagation.
Context `{!TomlDoc Scalar} `{!TomlDoc WireFinishMigrationData} `{!TomlDoc WireFinishEnterData}.

(** [CoordinatorClientAdapter]: what is handed to the coordinator to propagate. *)
Definition propagate_prepare_migration (migration_id : Z) : res CodecError TypedValue := encode_migration_id migration_id.
Definition propagate_finish_migration (data : FinishMigrationData) : res CodecError TypedValue := encode_finish_migration_data data.
Definition propagate_prepare_enter (enter_id : Z) : res CodecError TypedValue := encode_enter_id enter_id.
Definition propagate_finish_enter (data : FinishEnterData) : res CodecError TypedValue := encode_finish_enter_data data.

(** [PropagationHandlerAdapter]: what hooking is told; what cannot be read is dropped. *)
Definition notified {A} (f : A → Notification) (r : res CodecError A) : option Notification := match r with Ok a => Some (f a) | _ => None end.
Definition notify_prepare_migration (data : TypedValue) : option Notification := notified NotifyPrepareMigration (decode_migration_id data).
Definition notify_finish_migration (level : nat) (data : TypedValue) : option Notification := notified (NotifyFinishMigration level) (decode_finish_migration_data data).
Definition notify_prepare_enter (data : TypedValue) : option Notification := notified NotifyPrepareEnter (decode_enter_id data).
Definition notify_finish_enter (level : nat) (data : TypedValue) : option Notification := notified (NotifyFinishEnter level) (decode_finish_enter_data data).
Definition notify_we_have_splitted (level : nat) (data : TypedValue) : option Notification := None.
End Propagation.
