(* ===== verification/NodeArbiterProps.v ===== *)
(** * One candidate enters

    What the elections of [NodeArbiter] promise: a level that was granted stays with its
    candidate whatever is asked and whatever replicas arrive; another coordinator that holds the
    replicated record answers as the one that granted; giving up frees the level at
    the coordinator it reaches, which for level 0 is not the one that granted; and a merge is
    decided once for all the members that ask. *)
From stdpp Require Import strings.
From S2P Require Import Prelude Addressing Domain QspnPath HookDomain HookArc PeerTuple Coordinator CoordProps CoordWire CoordWireProps NodeView NodeCodec NodeArbiter.

Definition elected_at (arb : EnterArbiter) (level : nat) : option Election := ls_elected (default level_state_default (arb !! level)).

(** The answer that a grant owes to an ask. *)
Definition owed (level : nat) (elected_network elected_id n id : Z) : EvaluateEnterAnswer :=
  if decide (n = elected_network) then if decide (id = elected_id) then Accepted level else IgnoredNetwork else AskedAgain.
Lemma answer_for_owed level en ei n id : answer_for level en ei n id = owed level en ei n id.
Proof.
  unfold answer_for, owed. case_decide as Hn; [subst; rewrite Z.eqb_refl; cbn|by rewrite (proj2 (Z.eqb_neq _ _)) by congruence].
  case_decide as Hi; [subst; by rewrite Z.eqb_refl|by rewrite (proj2 (Z.eqb_neq _ _)) by congruence].
Qed.

Section Arbiter.
Context `{HashOrder} `{!TomlDoc WireHookingMemory} `{!ProstMessage WireRequestMsg}.
Implicit Types (arb : EnterArbiter) (s : CoordState).

Definition memory_at s (top : nat) : HookingMemory := memory_or_default (hooking_memory_locally s top).

Lemma memory_or_default_ok tv : memory_ok (memory_or_default tv).
Proof.
  assert (memory_ok hooking_memory_default) as Hd by (split; intros *; cbn; by rewrite lookup_empty).
  unfold memory_or_default. destruct tv as [tv|]; [|done]. destruct (decode_hooking_memory tv) as [mem| |] eqn:Hm; [by eapply decode_hooking_ok|done..].
Qed.

(** ** One process *)
Lemma local_live_within now n e :
  (now < el_granted_at e + ELECTED_TTL)%Z → el_completed_at e = None ∨ el_network_id e = n → local_live now n e = true.
Proof.
  intros Ht Hc. unfold local_live, released_for_others. apply negb_true_iff, orb_false_iff. split; [unfold ELECTED_TTL, ELECTED_TTL_MS in *; lia|].
  destruct Hc as [->| ->]; [done|]. rewrite Z.eqb_refl. apply andb_false_r.
Qed.

Lemma decide_local arb s ck top level n id e :
  elected_at arb level = Some e → local_live (ak_start ck) n e = true →
  arbiter_decide arb s ck top level n id = Ok (<[level := mkLevelState (Some e)]> arb, s, [], answer_for level (el_network_id e) (el_evaluate_enter_id e) n id).
Proof. unfold elected_at, arbiter_decide. intros -> Hl. cbn. by rewrite Hl. Qed.

(** What happens at a coordinator: asks, reports, and new replicas. *)
Inductive ArbOp :=
  | Ask (ck : AskClock) (level : nat) (network_id evaluate_enter_id : Z)
  | Complete (now now_ms coord_now : Z) (level : nat)
  | Release (coord_now : Z) (level : nat)
  | Replica (s' : CoordState).

Inductive arb_run (top : nat) : EnterArbiter → CoordState → list (ArbOp * option EvaluateEnterAnswer) → EnterArbiter → CoordState → Prop :=
  | arb_stop arb s : arb_run top arb s [] arb s
  | arb_ask arb s ck level n id arb1 s1 reps answer trace arb2 s2 :
      arbiter_decide arb s ck top level n id = Ok (arb1, s1, reps, answer) → arb_run top arb1 s1 trace arb2 s2 →
      arb_run top arb s ((Ask ck level n id, Some answer) :: trace) arb2 s2
  | arb_complete arb s now now_ms cn level arb1 s1 reps trace arb2 s2 :
      arbiter_complete arb s now now_ms cn top level = Ok (arb1, s1, reps) → arb_run top arb1 s1 trace arb2 s2 →
      arb_run top arb s ((Complete now now_ms cn level, None) :: trace) arb2 s2
  | arb_release arb s cn level arb1 s1 reps trace arb2 s2 :
      arbiter_release arb s cn top level = Ok (arb1, s1, reps) → arb_run top arb1 s1 trace arb2 s2 →
      arb_run top arb s ((Release cn level, None) :: trace) arb2 s2
  | arb_replica arb s s1 trace arb2 s2 : arb_run top arb s1 trace arb2 s2 → arb_run top arb s ((Replica s1, None) :: trace) arb2 s2.

Lemma decide_other arb s ck top level n id r level' :
  arbiter_decide arb s ck top level n id = Ok r → level' ≠ level → elected_at r.1.1.1 level' = elected_at arb level'.
Proof.
  unfold arbiter_decide, elected_at. intros Hd Hne. destruct (_ ≫= _) as [e|].
  - simplify_eq. cbn. by rewrite lookup_insert_ne by done.
  - destruct (decide_shared s ck top level n id) as [[[s' reps] answer]| |]; cbn in Hd; simplify_eq. cbn. by rewrite lookup_insert_ne by done.
Qed.

Lemma complete_elected arb s now now_ms cn top level r level' :
  arbiter_complete arb s now now_ms cn top level = Ok r →
  elected_at r.1.1 level' = if decide (level' = level) then ls_elected (mark_completed now (mkLevelState (elected_at arb level))) else elected_at arb level'.
Proof.
  intros Hc. assert (r.1.1 = <[level := mark_completed now (default level_state_default (arb !! level))]> arb) as ->.
  { unfold arbiter_complete in Hc. repeat case_match; simplify_eq/=; try done.
    all: destruct (encode_hooking_memory _) as [tv| |]; cbn in Hc; simplify_eq; done. }
  unfold elected_at. case_decide as Hl; [subst; rewrite lookup_insert_eq; cbn; by destruct (default _ _)|by rewrite lookup_insert_ne].
Qed.

Lemma release_elected arb s cn top level r level' :
  arbiter_release arb s cn top level = Ok r → elected_at r.1.1 level' = if decide (level' = level) then None else elected_at arb level'.
Proof.
  intros Hc. assert (r.1.1 = <[level := mkLevelState None]> arb) as ->.
  { unfold arbiter_release in Hc. repeat case_match; simplify_eq/=; try done. all: destruct (encode_hooking_memory _) as [tv| |]; cbn in Hc; simplify_eq; done. }
  unfold elected_at. case_decide as Hl; [subst; by rewrite lookup_insert_eq|by rewrite lookup_insert_ne].
Qed.

(** The election of a level, up to the mark of its completion. *)
Definition same_election (e e' : Election) : Prop :=
  el_network_id e = el_network_id e' ∧ el_evaluate_enter_id e = el_evaluate_enter_id e' ∧ el_granted_at e = el_granted_at e'.

(** A report on the level, or an ask too late for the grant. *)
Definition undisturbed (level : nat) (e : Election) (op : ArbOp) : Prop :=
  match op with Ask ck l _ _ => l = level → (ak_start ck < el_granted_at e + ELECTED_TTL)%Z | Release _ l => l ≠ level | _ => True end.
Definition no_completion (level : nat) (op : ArbOp) : Prop := match op with Complete _ _ _ l => l ≠ level | _ => True end.
Definition own_network (level : nat) (n : Z) (op : ArbOp) : Prop := match op with Ask _ l n' _ => l = level → n' = n | _ => True end.
Definition answered_by (level : nat) (e : Election) (oa : ArbOp * option EvaluateEnterAnswer) : Prop :=
  match oa.1 with Ask _ l n id => l = level → oa.2 = Some (owed level (el_network_id e) (el_evaluate_enter_id e) n id) | _ => True end.

(** Nothing that lets another network in: no report of success, or no ask of another network. *)
Definition quiet (level : nat) (e : Election) (ops : list ArbOp) : Prop :=
  (el_completed_at e = None ∧ Forall (no_completion level) ops) ∨ Forall (own_network level (el_network_id e)) ops.
Lemma quiet_tail level e op ops : quiet level e (op :: ops) → quiet level e ops.
Proof. intros [[? [_ ?]%Forall_cons]|[_ ?]%Forall_cons]; [left|right]; done. Qed.

(** C31: A granted level stays with its candidate.  Once this coordinator has granted a level, then
    whatever is asked at this or other levels and whatever replicas come in, every ask at
    the level within the lifetime of the grant is answered by it: the candidate is
    accepted again, another one of its network is told to ignore the network, and one of
    another network to ask again.  Only an abort at the level ends it, and the report of
    success ends it for other networks alone: among asks of its own network the
    answers are the same after it. *)
Theorem one_candidate_per_level top arb s trace arb' s' level e :
  arb_run top arb s trace arb' s' → elected_at arb level = Some e → Forall (undisturbed level e) trace.*1 →
  quiet level e trace.*1 →
  Forall (answered_by level e) trace ∧ ∃ e', elected_at arb' level = Some e' ∧ same_election e e'.
Proof.
  intros Hrun. revert e.
  induction Hrun as [arb s|arb s ck l n id arb1 s1 reps answer trace arb2 s2 Hd Hr IH|arb s now now_ms cn l arb1 s1 reps trace arb2 s2 Hd Hr IH
    |arb s cn l arb1 s1 reps trace arb2 s2 Hd Hr IH|arb s s1 trace arb2 s2 Hr IH]; intros e He Hu Hq; cbn in *.
  - split; [apply Forall_nil_2|]. by exists e.
  - apply Forall_cons in Hu as [Hu1 Hu]. cbn in Hu1. destruct (decide (l = level)) as [->|Hne].
    + assert (el_completed_at e = None ∨ el_network_id e = n) as Hc.
      { destruct Hq as [[Hn _]|[Ho _]%Forall_cons]; [by left|right]. symmetry. by apply Ho. }
      rewrite (decide_local _ _ _ _ _ _ _ e) in Hd; [|done|by apply local_live_within; [apply Hu1|]]. injection Hd as <- <- <- <-.
      destruct (IH e) as [Ha Hk]; [unfold elected_at; by rewrite lookup_insert_eq|done|by eapply quiet_tail|].
      split; [|done]. apply Forall_cons. split; [|done]. intros _. cbn. by rewrite answer_for_owed.
    + destruct (IH e) as [Ha Hk]; [pose proof (decide_other _ _ _ _ _ _ _ _ level Hd ltac:(done)) as Heq; cbn in Heq; by rewrite Heq|done|by eapply quiet_tail|].
      split; [|done]. apply Forall_cons. split; [by intros ?|done].
  - apply Forall_cons in Hu as [_ Hu]. pose proof (complete_elected _ _ _ _ _ _ _ _ level Hd) as Hc. cbn in Hc. case_decide as Hl.
    + subst l. rewrite He in Hc. cbn in Hc. destruct Hq as [[_ [Hno _]%Forall_cons]|[_ Ho]%Forall_cons]; [done|].
      destruct (IH _ Hc) as [Ha (e' & He' & Hs)]; [done|by right|]. split; [apply Forall_cons; split; [done|]; exact Ha|]. exists e'. done.
    + destruct (IH e) as [Ha Hk]; [congruence|done|by eapply quiet_tail|].
      split; [|done]. apply Forall_cons. by split.
  - apply Forall_cons in Hu as [Hl Hu]. cbn in Hl. pose proof (release_elected _ _ _ _ _ _ level Hd) as Hc. cbn in Hc. rewrite decide_False in Hc by done.
    destruct (IH e) as [Ha Hk]; [congruence|done|by eapply quiet_tail|].
    split; [|done]. apply Forall_cons. by split.
  - apply Forall_cons in Hu as [_ Hu]. destruct (IH e) as [Ha Hk]; [done|done|by eapply quiet_tail|].
    split; [|done]. apply Forall_cons. by split.
Qed.

(** ** Several processes *)
Definition standing arb (ck : AskClock) (level : nat) (n : Z) : option Election :=
  elected_at arb level ≫= (λ e, if local_live (ak_start ck) n e then Some e else None).
Definition shared_standing s (top : nat) (ck : AskClock) (level : nat) (n : Z) : option ElectionRecord :=
  hk_elections (memory_at s top) !! level ≫= (λ e, if shared_live (ak_millis ck) n e then Some e else None).

(** An ask as the wire types bound it. *)
Record ask_typed (ck : AskClock) (level : nat) (n id : Z) : Prop := {
  at_level : (Z.of_nat level ≤ U32_MAX)%Z; at_network : is_i64 n; at_id : I32_RANGE id; at_clock : is_u63 (ak_millis ck)
}.

Lemma memory_ok_insert mem level r : memory_ok mem → election_ok level r → memory_ok (mkHookingMemory (hk_merge_decisions mem) (<[level := r]> (hk_elections mem))).
Proof. intros [Hd He] Hr. split; cbn; [done|]. intros l e [[<- <-]|[_ Hl]]%lookup_insert_Some; [done|by apply He]. Qed.

Lemma memory_written s now top mem tv m :
  memory_ok mem → encode_hooking_memory mem = Ok tv → cs_memory s !! top = Some m → memory_at (set_hooking_memory_locally s now top (Some tv)).1 top = mem.
Proof.
  intros Hm He Ht. destruct (hooking_memory_roundtrip mem Hm) as (tv' & He' & Hdec). rewrite He in He'. simplify_eq.
  unfold memory_at, hooking_memory_locally, set_hooking_memory_locally, set_hooking_memory, get_hooking_memory, alter_memory. cbn. rewrite lookup_alter, decide_True, Ht by done. cbn. by rewrite Hdec.
Qed.

(** An ask where neither this process nor the replicated record has a say. *)
Lemma decide_vacant arb s ck top level n id :
  ask_typed ck level n id → standing arb ck level n = None → shared_standing s top ck level n = None →
  ∃ s' reps, arbiter_decide arb s ck top level n id = Ok (<[level := mkLevelState (Some (mkElection n id (ak_end ck) None))]> arb, s', reps, Accepted level) ∧
    (is_Some (cs_memory s !! top) →
     memory_at s' top = mkHookingMemory (hk_merge_decisions (memory_at s top)) (<[level := mkElectionRecord n id (ak_millis ck) None]> (hk_elections (memory_at s top)))).
Proof.
  intros [Hl Hn Hi Hc] Hst Hsh. unfold standing, elected_at in Hst. unfold shared_standing in Hsh. unfold arbiter_decide, decide_shared. rewrite Hst. fold (memory_at s top). rewrite Hsh.
  set (mem := mkHookingMemory _ _). assert (memory_ok mem) as Hm by (apply memory_ok_insert; [apply memory_or_default_ok|by split]).
  destruct (hooking_memory_roundtrip mem Hm) as (tv & He & _). rewrite He. cbn [mbind res_bind].
  destruct (set_hooking_memory_locally s (ak_coord ck) top (Some tv)) as [s' reps] eqn:Hs. cbn [mbind res_bind]. exists s', reps. split; [done|].
  intros [m Hmem]. pose proof (memory_written s (ak_coord ck) top mem tv m Hm He Hmem) as Hw. by rewrite Hs in Hw.
Qed.

Lemma decide_adopts arb s ck top level n id r :
  standing arb ck level n = None → shared_standing s top ck level n = Some r →
  ∃ arb', arbiter_decide arb s ck top level n id = Ok (arb', s, [], answer_for level (er_network_id r) (er_evaluate_enter_id r) n id).
Proof.
  intros Hst Hsh. unfold standing, elected_at in Hst. unfold shared_standing in Hsh. unfold arbiter_decide, decide_shared. rewrite Hst. fold (memory_at s top). rewrite Hsh. by eexists.
Qed.

(** A decision is always reached: an ask whose fields are within their types is answered,
    whatever text the replicated record holds, and nothing panics. *)
Lemma decide_total arb s ck top level n id : ask_typed ck level n id → is_Ok (arbiter_decide arb s ck top level n id).
Proof.
  intros Ht. destruct (standing arb ck level n) as [e|] eqn:Hst.
  - unfold standing in Hst. destruct (elected_at arb level) as [e'|] eqn:He; cbn in Hst; [|done]. destruct (local_live _ _ e') eqn:Hl; [|done]. simplify_eq. rewrite (decide_local _ _ _ _ _ _ _ e He Hl). by eexists.
  - destruct (shared_standing s top ck level n) as [r|] eqn:Hsh; [destruct (decide_adopts arb s ck top level n id r Hst Hsh) as [? ->]; by eexists|].
    destruct (decide_vacant arb s ck top level n id Ht Hst Hsh) as (? & ? & -> & _). by eexists.
Qed.

(** C32: Two coordinators do not elect two candidates.  When one grants a level that nobody held, the
    record it writes and replicates makes any other coordinator that has received it, and holds
    no election of its own there, answer every ask within the lifetime of the grant as the
    first would: only the same candidate is accepted.  Answering writes nothing. *)
Theorem servants_agree arb1 s1 ck top level n id arb2 s2 ck' n' id' :
  ask_typed ck level n id → standing arb1 ck level n = None → shared_standing s1 top ck level n = None → is_Some (cs_memory s1 !! top) →
  ∃ arb1' s1' reps, arbiter_decide arb1 s1 ck top level n id = Ok (arb1', s1', reps, Accepted level) ∧
    (hooking_memory_locally s2 top = hooking_memory_locally s1' top → standing arb2 ck' level n' = None → (ak_millis ck' < ak_millis ck + ELECTED_TTL_MS)%Z →
     ∃ arb2', arbiter_decide arb2 s2 ck' top level n' id' = Ok (arb2', s2, [], owed level n id n' id')).
Proof.
  intros Ht Hst Hsh Hm. destruct (decide_vacant arb1 s1 ck top level n id Ht Hst Hsh) as (s1' & reps & Hd & Hw). specialize (Hw Hm). eexists _, s1', reps. split; [done|].
  intros Heq Hst2 Htime. rewrite <- answer_for_owed. apply (decide_adopts arb2 s2 ck' top level n' id' (mkElectionRecord n id (ak_millis ck) None) Hst2).
  unfold shared_standing, memory_at. rewrite Heq. fold (memory_at s1' top). rewrite Hw. cbn [hk_elections]. rewrite lookup_insert_eq. cbn.
  unfold shared_live. cbn. rewrite (proj2 (Z.leb_gt _ _)) by (unfold ELECTED_TTL_MS in *; lia). done.
Qed.

Lemma memory_ok_delete mem level : memory_ok mem → memory_ok (mkHookingMemory (hk_merge_decisions mem) (delete level (hk_elections mem))).
Proof. intros [Hd He]. split; cbn; [done|]. intros l e [_ Hl]%lookup_delete_Some. by apply He. Qed.

Lemma release_exact arb s cn top level m :
  cs_memory s !! top = Some m →
  ∃ s' reps, arbiter_release arb s cn top level = Ok (<[level := mkLevelState None]> arb, s', reps) ∧
    memory_at s' top = mkHookingMemory (hk_merge_decisions (memory_at s top)) (delete level (hk_elections (memory_at s top))).
Proof.
  intros Hm. unfold arbiter_release. pose proof (eq_refl (memory_at s top)) as Hms. unfold memory_at at 1, memory_or_default in Hms.
    assert (hk_elections (memory_at s top) !! level = None → memory_at s top = mkHookingMemory (hk_merge_decisions (memory_at s top)) (delete level (hk_elections (memory_at s top)))) as Hid.
    { intros Hn. rewrite delete_id by done. by destruct (memory_at s top). }
    destruct (hooking_memory_locally s top) as [tv|] eqn:Htv; [destruct (decode_hooking_memory tv) as [mem| |] eqn:Hdec|]; try (eexists s, []; split; [done|]; apply Hid; by rewrite <- Hms).
    rewrite <- Hms in *. destruct (hk_elections mem !! level) as [e|] eqn:Hel; [|eexists s, []; split; [done|]; rewrite <- Hid by done; done].
    assert (memory_ok (mkHookingMemory (hk_merge_decisions mem) (delete level (hk_elections mem)))) as Hok by (apply memory_ok_delete; by eapply decode_hooking_ok).
    destruct (hooking_memory_roundtrip _ Hok) as (tv' & He & _). rewrite He. cbn [mbind res_bind].
    destruct (set_hooking_memory_locally s cn top (Some tv')) as [s' reps] eqn:Hs. exists s', reps. split; [done|].
    pose proof (memory_written s cn top _ tv' m Hok He Hm) as Hw. by rewrite Hs in Hw.
Qed.

(** Giving up frees the level where it arrives: after an abort, this coordinator has no election
    at the level, neither its own nor in the record, and the next ask is accepted whoever
    makes it; the merge decisions and the other levels are as they were. *)
Theorem abort_frees_level arb s cn top level :
  is_Some (cs_memory s !! top) →
  ∃ arb' s' reps, arbiter_release arb s cn top level = Ok (arb', s', reps) ∧
    hk_merge_decisions (memory_at s' top) = hk_merge_decisions (memory_at s top) ∧
    (∀ l, l ≠ level → elected_at arb' l = elected_at arb l ∧ hk_elections (memory_at s' top) !! l = hk_elections (memory_at s top) !! l) ∧
    ∀ ck n id, ask_typed ck level n id → ∃ arb2 s2 reps2, arbiter_decide arb' s' ck top level n id = Ok (arb2, s2, reps2, Accepted level).
Proof.
  intros [m Hm]. destruct (release_exact arb s cn top level m Hm) as (s' & reps & Hr & Hmem).
  exists (<[level := mkLevelState None]> arb), s', reps. split; [done|]. rewrite Hmem. cbn. split; [done|]. split.
  - intros l Hl. unfold elected_at. by rewrite lookup_insert_ne, lookup_delete_ne by done.
  - intros ck n id Ht. destruct (decide_vacant (<[level := mkLevelState None]> arb) s' ck top level n id Ht) as (s2 & reps2 & Hd & _); [| |by eexists _, _, _].
    + unfold standing, elected_at. by rewrite lookup_insert_eq.
    + unfold shared_standing. rewrite Hmem. cbn [hk_elections]. by rewrite lookup_delete_eq.
Qed.

(** ** Where reports go *)
Abbreviation Nodes := (gmap Z (EnterArbiter * CoordState)).
(** A candidate gives up at a level: the report goes where the client sends it, and
    the node that gets it hands the replications of its record to peer services. *)
Definition report_abort (w : Nodes) (asker : Z) (servant_of : nat → Z) (levels lvl : nat) (coord_now : Z)
    : res CodecError (Nodes * list Replication) :=
  let '(node, top) := match client_abort_route lvl with OwnCoordinator top => (asker, top) | KeyCoordinator top => (servant_of top, top) end in
  match w !! node with
  | Some (arb, s) => r ← arbiter_release arb s coord_now levels (top - 1); Ok (<[node := (r.1.1, r.1.2)]> w, r.2)
  | None => Ok (w, [])
  end.

(** A replicated record reaches the coordinator of a node. *)
Definition receive_replica (w : Nodes) (d : Z * nat * GnodeMemory) : Nodes :=
  alter (λ n : EnterArbiter * CoordState, (n.1, (apply_replica n.2 d.1.2 d.2).1)) d.1.1 w.

Lemma receive_replicas_arbiter w ds node arb s :
  w !! node = Some (arb, s) → ∃ s', foldl receive_replica w ds !! node = Some (arb, s').
Proof.
  revert w s. induction ds as [|d ds IH]; intros w s Hw; [by exists s|]. cbn. unfold receive_replica at 2.
  destruct (decide (d.1.1 = node)) as [Heq|Hne].
  - eapply (IH _ (apply_replica s d.1.2 d.2).1). rewrite Heq, lookup_alter_eq, Hw. done.
  - eapply IH. by rewrite lookup_alter_ne.
Qed.

(** C33: giving up at level 0 does not free the level where it was granted.  The
    coordinator that grants is never the asker itself (the lookup excludes it), but the
    report of an abort at level 0 goes to the asker's own coordinator.  That one forgets
    its own grant and replicates its record when it holds one; whatever replicas then
    reach the coordinator that granted, it still holds the grant in its own process and
    tells another network to ask again for the rest of the grant's lifetime.  At any other
    level the report goes to the coordinator of the key above, and where that is the one
    that granted, the level is free there. *)
Theorem level_zero_abort_is_lost w asker servant levels lvl cn arb s e w' reps replicas :
  asker ≠ servant → w !! servant = Some (arb, s) → elected_at arb lvl = Some e → el_completed_at e = None → is_Some (cs_memory s !! levels) →
  report_abort w asker (λ _, servant) levels lvl cn = Ok (w', reps) →
  (lvl = 0 → ∃ s', foldl receive_replica w' replicas !! servant = Some (arb, s') ∧
    ∀ ck n id, n ≠ el_network_id e → (ak_start ck < el_granted_at e + ELECTED_TTL)%Z →
      ∃ arb1, arbiter_decide arb s' ck levels lvl n id = Ok (arb1, s', [], AskedAgain)) ∧
  (lvl ≠ 0 → ∃ arb' s', w' !! servant = Some (arb', s') ∧ elected_at arb' lvl = None ∧ hk_elections (memory_at s' levels) !! lvl = None).
Proof.
  intros Hne Hs He Hc [m Hm] Hr. unfold report_abort, client_abort_route, enter_route in Hr. split; intros Hl.
  - subst lvl. rewrite Nat.eqb_refl in Hr. assert (w' !! servant = Some (arb, s)) as Hw'.
    { destruct (w !! asker) as [[arb0 s0]|]; [|by simplify_eq]. destruct (arbiter_release _ _ _ _ _); cbn in Hr; simplify_eq. by rewrite lookup_insert_ne. }
    destruct (receive_replicas_arbiter w' replicas servant arb s Hw') as [s' Hs']. exists s'. split; [done|].
    intros ck n id Hn Ht. rewrite (decide_local _ _ _ _ _ _ _ e He); [|apply local_live_within; [done|by left]]. eexists. unfold answer_for. by rewrite (proj2 (Z.eqb_neq _ _)) by done.
  - rewrite (proj2 (Nat.eqb_neq _ _)) in Hr by done. rewrite Hs in Hr. replace (lvl + 1 - 1) with lvl in Hr by lia.
    destruct (release_exact arb s cn levels lvl m Hm) as (s' & reps' & Hre & Hmem). rewrite Hre in Hr. cbn in Hr. injection Hr as <- <-. eexists _, s'. rewrite lookup_insert_eq. split; [done|].
    unfold elected_at. rewrite lookup_insert_eq, Hmem. cbn. by rewrite lookup_delete_eq.
Qed.

(** ** What the local record costs *)

(** A race is not settled.  Two coordinators that granted one level to two candidates of a
    network, each before the other's record arrived, keep accepting their own and refusing the
    other's for the lifetime of the grants, whatever record both end up holding. *)
Theorem race_is_not_settled arb1 arb2 s ck1 ck2 top level n id1 id2 g1 g2 :
  elected_at arb1 level = Some (mkElection n id1 g1 None) → elected_at arb2 level = Some (mkElection n id2 g2 None) → id1 ≠ id2 →
  (ak_start ck1 < g1 + ELECTED_TTL)%Z → (ak_start ck2 < g2 + ELECTED_TTL)%Z →
  ∃ arb1' arb2', arbiter_decide arb1 s ck1 top level n id1 = Ok (arb1', s, [], Accepted level) ∧ arbiter_decide arb1 s ck1 top level n id2 = Ok (arb1', s, [], IgnoredNetwork) ∧
    arbiter_decide arb2 s ck2 top level n id2 = Ok (arb2', s, [], Accepted level) ∧ arbiter_decide arb2 s ck2 top level n id1 = Ok (arb2', s, [], IgnoredNetwork).
Proof.
  intros H1 H2 Hne Ht1 Ht2. eexists _, _. rewrite !(decide_local arb1 _ _ _ _ _ _ _ H1), !(decide_local arb2 _ _ _ _ _ _ _ H2) by (apply local_live_within; [done|by left]).
  unfold answer_for. cbn. rewrite !Z.eqb_refl, !(proj2 (Z.eqb_neq _ _)) by congruence. done.
Qed.

(** A completed election is revived by a late ask.  The record says that the candidate has
    entered, which frees the level for other networks; but when the same candidate asks
    a coordinator without a record of its own, the grant it takes over has lost the mark and
    has a new lifetime, and other networks are told to ask again. *)
Theorem reask_revives_completed arb s ck top level n id g c ck' n' id' :
  elected_at arb level = None → hk_elections (memory_at s top) !! level = Some (mkElectionRecord n id g (Some c)) → (ak_millis ck < g + ELECTED_TTL_MS)%Z → n' ≠ n →
  (ak_start ck' < ak_end ck + ELECTED_TTL)%Z →
  shared_standing s top ck' level n' = None ∧
  ∃ arb', arbiter_decide arb s ck top level n id = Ok (arb', s, [], Accepted level) ∧ ∃ arb2, arbiter_decide arb' s ck' top level n' id' = Ok (arb2, s, [], AskedAgain).
Proof.
  intros Hl Hm Ht Hne Ht'. split.
  { unfold shared_standing. rewrite Hm. cbn. unfold shared_live, released_for_others. cbn. rewrite (proj2 (Z.eqb_neq _ _)) by congruence. cbn. by rewrite andb_false_r. }
  exists (<[level := mkLevelState (Some (mkElection n id (ak_end ck) None))]> arb). split.
  - unfold elected_at in Hl. unfold arbiter_decide, decide_shared. rewrite Hl. cbn. fold (memory_at s top). rewrite Hm. cbn. unfold shared_live, released_for_others, answer_for. cbn.
    rewrite !Z.eqb_refl, (proj2 (Z.leb_gt _ _)) by (unfold ELECTED_TTL_MS in *; lia). cbn. rewrite ?andb_false_r. cbn. by rewrite ?Z.eqb_refl.
  - rewrite (decide_local _ _ _ _ _ _ _ (mkElection n id (ak_end ck) None)); [|unfold elected_at; by rewrite lookup_insert_eq|apply local_live_within; [done|by left]].
    eexists. unfold answer_for. cbn. by rewrite (proj2 (Z.eqb_neq _ _)) by congruence.
Qed.
End Arbiter.

(** ** The merge *)
Section Merge.
Context `{HashOrder} `{!TomlDoc WireHookingMemory}.

Lemma fresh_within ttl_ms now_ms d at_ : (0 < ttl_ms)%Z → (now_ms < at_ + ttl_ms)%Z → fresh_decision ttl_ms now_ms (d, at_) = true.
Proof. intros H1 H2. unfold fresh_decision. cbn. lia. Qed.

Lemma merge_cached ttl cache w req d since : cache !! mr_neighbor_network_id req = Some (d, since) → (0 < ttl)%Z → (mw_now w < since + ttl)%Z → decide_merge ttl cache w req = Ok (d, cache, None).
Proof. intros Hc H1 H2. unfold decide_merge. rewrite Hc. cbn. by rewrite (proj2 (Z.ltb_lt _ _)) by lia. Qed.

(** A merge is decided once.  A member that finds no verdict computes one and writes it to the
    record of the coordinator, next to the elections that are there; any other
    member that reads the record within the lifetime of the verdict, with no fresh verdict of
    its own, gives the same answer whatever sizes it has seen, and repeats it for as long
    again. *)
Theorem merge_decided_once ttl cacheA wA reqA d cacheA' tv cacheB wB reqB :
  decide_merge ttl cacheA wA reqA = Ok (d, cacheA', Some tv) → (1000000 ≤ ttl)%Z → is_i64 (mr_neighbor_network_id reqA) → is_u63 (mw_millis wA) →
  mr_neighbor_network_id reqB = mr_neighbor_network_id reqA → cacheB !! mr_neighbor_network_id reqB = None → mw_memory wB = Ok (Some tv) →
  (mw_millis wB < mw_millis wA + Z.min (ttl / 1000000) U64_MAX)%Z →
  (∃ mem, decode_hooking_memory tv = Ok mem ∧
     hk_elections mem = hk_elections (memory_or_default (match mw_memory wA with Ok (Some tv0) => Some tv0 | _ => None end))) ∧
  ∃ cacheB', decide_merge ttl cacheB wB reqB = Ok (d, cacheB', None) ∧
    ∀ w req, mr_neighbor_network_id req = mr_neighbor_network_id reqA → (mw_now w < mw_now wB + ttl)%Z → decide_merge ttl cacheB' w req = Ok (d, cacheB', None).
Proof.
  intros HA Httl Hkey Hms HkB HcB HmB HtB.
  assert (0 < Z.min (ttl / 1000000) U64_MAX)%Z as Hpos. { unfold U64_MAX. assert (1 ≤ ttl / 1000000)%Z by (apply Z.div_le_lower_bound; lia). lia. }
  unfold decide_merge in HA at 1. destruct (cacheA !! _ ≫= _) as [c|]; [done|]. set (memA := memory_or_default _) in *.
  destruct (filter _ (hk_merge_decisions memA) !! _) as [x|] eqn:Hx; [done|]. set (d0 := merge_tiebreak _ _ _ _) in *.
  set (decisions := filter _ (hk_merge_decisions memA)) in *. set (mem := mkHookingMemory (<[_ := _]> decisions) (hk_elections memA)) in *.
  assert (memory_ok mem) as Hok.
  { pose proof (memory_or_default_ok (match mw_memory wA with Ok (Some tv0) => Some tv0 | _ => None end)) as [Hd He]. split; cbn; [|done].
    intros k b at_ [[<- [= <- <-]]|[_ [Hl _]%map_lookup_filter_Some]]%lookup_insert_Some; [done|by apply (Hd k b)]. }
  destruct (hooking_memory_roundtrip mem Hok) as (tv' & Henc & Hdec). rewrite Henc in HA. cbn in HA. injection HA as <- <- <-.
  split; [by exists mem|]. exists (<[mr_neighbor_network_id reqA := (d0, mw_now wB)]> cacheB). split.
  - unfold decide_merge. rewrite HcB, HmB. cbn [mbind option_bind]. unfold memory_or_default. rewrite Hdec.
    assert (filter (λ kd : Z * (bool * Z), fresh_decision (Z.min (ttl / 1000000) U64_MAX) (mw_millis wB) kd.2 = true) (hk_merge_decisions mem) !! mr_neighbor_network_id reqB = Some (d0, mw_millis wA)) as ->; [|by rewrite HkB].
    apply map_lookup_filter_Some. rewrite HkB. cbn. rewrite lookup_insert_eq. split; [done|]. by apply fresh_within.
  - intros w req Hk Hw. apply (merge_cached _ _ _ _ _ (mw_now wB)); [rewrite Hk; apply lookup_insert_eq|lia|done].
Qed.
End Merge.

(** ** Examples *)
#[refine] Definition toy_toml (tag : Z) {W} `{Countable W} `{DocShape W} `{∀ w : W, Decision (doc_wf w)} : TomlDoc W := {|
  toml_to_string w := if bool_decide (doc_wf w) then Some [tag; Zpos (encode w)] else None;
  toml_from_str text :=
    match text with
    | [t; Zpos p] => if (t =? tag)%Z then w ← countable.decode p; if bool_decide (doc_wf w) then Some w else None else None
    | _ => None
    end
|}.
Proof.
  - intros w Hw. rewrite bool_decide_true by done. by eexists.
  - intros w text. case_bool_decide; [|done]. intros [= <-]. rewrite Z.eqb_refl, decode_encode. cbn. by rewrite bool_decide_true.
  - intros text w. destruct text as [|t [|[|p|p] [|]]]; try done. destruct (t =? tag)%Z; [|done]. destruct (countable.decode p) as [w'|]; cbn; [|done]. case_bool_decide; [|done]. by intros [= <-].
Defined.

#[local] Instance memory_eq_dec : EqDecision WireHookingMemory.
Proof. solve_decision. Defined.
#[local] Instance memory_countable : Countable WireHookingMemory.
Proof. by apply (inj_countable' (λ w, (wh_merge_decisions w, wh_elections w)) (λ p, mkWireMemory p.1 p.2)); intros []. Defined.
#[local] Instance memory_wf_dec (w : WireHookingMemory) : Decision (doc_wf w).
Proof.
  unfold doc_wf, memory_shape. apply and_dec; apply Forall_dec; [intros [[k d] at_]|intros [[[[l n] i] g] c]]; unfold is_i64, is_u63, is_u32, I32_RANGE; apply _.
Defined.
#[local] Instance memory_toml : TomlDoc WireHookingMemory := toy_toml 1.
#[local] Existing Instance request_prost.
#[local] Existing Instance map_order.

Definition ask_clock (t : Z) : AskClock := mkAskClock t t t t.
Definition held (level : nat) (n id : Z) : EnterArbiter := {[level := mkLevelState (Some (mkElection n id 0 None))]}.

Lemma one_candidate_per_level_witness :
  ∃ trace arb' s', arb_run 2 (held 1 7 1) coord_start trace arb' s' ∧
    trace.*1 = [Replica coord_start; Ask (ask_clock 5) 1 7 2; Ask (ask_clock 6) 1 8 3; Ask (ask_clock 7) 1 7 1] ∧
    Forall (answered_by 1 (mkElection 7 1 0 None)) trace ∧ trace.*2 = [None; Some IgnoredNetwork; Some AskedAgain; Some (Accepted 1)].
Proof.
  eexists [(Replica coord_start, _); (Ask (ask_clock 5) 1 7 2, _); (Ask (ask_clock 6) 1 8 3, _); (Ask (ask_clock 7) 1 7 1, _)], _, _.
  assert (∀ trace arb' s', arb_run 2 (held 1 7 1) coord_start trace arb' s' →
    trace.*1 = [Replica coord_start; Ask (ask_clock 5) 1 7 2; Ask (ask_clock 6) 1 8 3; Ask (ask_clock 7) 1 7 1] → Forall (answered_by 1 (mkElection 7 1 0 None)) trace) as Hthm.
  { intros trace arb' s' Hrun Hops. refine (proj1 (one_candidate_per_level 2 _ _ trace arb' s' 1 (mkElection 7 1 0 None) Hrun eq_refl _ _)); rewrite Hops.
    - repeat (apply Forall_cons_2; [first [exact I|intros _; cbn; unfold ELECTED_TTL, ELECTED_TTL_MS; lia]|]). apply Forall_nil_2.
    - left. split; [done|]. repeat (apply Forall_cons_2; [exact I|]). apply Forall_nil_2. }
  match goal with |- ?P ∧ _ => assert P as Hrun end.
  { apply arb_replica. 
    do 3 (eapply arb_ask; [apply (decide_local _ _ _ _ _ _ _ (mkElection 7 1 0 None)); vm_compute; reflexivity|]). apply arb_stop. }
  split; [exact Hrun|]. split; [reflexivity|]. split; [exact (Hthm _ _ _ Hrun eq_refl)|reflexivity].
Defined.

Definition granted_state : CoordState := match arbiter_decide ∅ coord_start (ask_clock 5) 2 1 7 1 with Ok r => r.1.1.2 | _ => coord_start end.

Lemma servants_agree_witness :
  (∃ arb2', arbiter_decide ∅ granted_state (ask_clock 9) 2 1 7 2 = Ok (arb2', granted_state, [], IgnoredNetwork)) ∧
  hk_elections (memory_at granted_state 2) !! 1 = Some (mkElectionRecord 7 1 5 None).
Proof.
  destruct (servants_agree ∅ coord_start (ask_clock 5) 2 1 7 1 ∅ granted_state (ask_clock 9) 7 2) as (arb1' & s1' & reps & Hd & Hagree).
  - split; unfold is_i64, is_u63, I32_RANGE, I64_MAX, U32_MAX; cbn; lia.
  - vm_compute. reflexivity.
  - vm_compute. reflexivity.
  - vm_compute. by eexists.
  - assert (s1' = granted_state) as -> by (unfold granted_state; by rewrite Hd). split; [|vm_compute; reflexivity].
    apply Hagree; [done|vm_compute; reflexivity|cbn; unfold ELECTED_TTL_MS; lia].
Defined.

Lemma abort_frees_level_witness :
  ∃ arb' s' reps, arbiter_release (held 1 7 1) granted_state 6 2 1 = Ok (arb', s', reps) ∧ ∃ arb2 s2 reps2, arbiter_decide arb' s' (ask_clock 7) 2 1 8 3 = Ok (arb2, s2, reps2, Accepted 1).
Proof.
  destruct (abort_frees_level (held 1 7 1) granted_state 6 2 1) as (arb' & s' & reps & Hr & _ & _ & Hfree); [vm_compute; by eexists|].
  exists arb', s', reps. split; [exact Hr|]. apply Hfree. split; unfold is_i64, is_u63, I32_RANGE, I64_MAX, U32_MAX; cbn; lia.
Defined.

(** The asker, node 1, holds the replicated record; node 2 granted. *)
Definition granted_zero : EnterArbiter * CoordState :=
  match arbiter_decide ∅ coord_start (ask_clock 0) 2 0 7 1 with Ok r => (r.1.1.1, r.1.1.2) | _ => (∅, coord_start) end.

Lemma level_zero_abort_is_lost_witness :
  ∃ w' rep s' arb1, report_abort {[1%Z := (∅, granted_zero.2); 2%Z := granted_zero]} 1 (λ _, 2%Z) 2 0 6 = Ok (w', [rep]) ∧
    foldl receive_replica w' [(2%Z, 2, gnode_memory_fresh 4)] !! 2%Z = Some (granted_zero.1, s') ∧
    arbiter_decide granted_zero.1 s' (ask_clock 59999999999) 2 0 8 3 = Ok (arb1, s', [], AskedAgain).
Proof.
  assert (∃ w' rep, report_abort {[1%Z := (∅, granted_zero.2); 2%Z := granted_zero]} 1 (λ _, 2%Z) 2 0 6 = Ok (w', [rep])) as (w' & rep & Hw) by (eexists _, _; vm_compute; reflexivity).
  destruct (level_zero_abort_is_lost {[1%Z := (∅, granted_zero.2); 2%Z := granted_zero]} 1 2 2 0 6 granted_zero.1 granted_zero.2 (mkElection 7 1 0 None) w' [rep] [(2%Z, 2, gnode_memory_fresh 4)]
    ltac:(done) ltac:(vm_compute; reflexivity) ltac:(vm_compute; reflexivity) eq_refl ltac:(vm_compute; by eexists) Hw) as [H0 _].
  destruct (H0 eq_refl) as (s' & Hs & Hask). destruct (Hask (ask_clock 59999999999) 8%Z 3%Z ltac:(done) ltac:(vm_compute; reflexivity)) as [arb1 Ha].
  exists w', rep, s', arb1. split; [exact Hw|]. split; [exact Hs|exact Ha].
Defined.

Definition merge_world (t : Z) (mem : option TypedValue) (n : Z) : MergeWorld := mkMergeWorld (t * 1000000) t (Ok mem) (Ok n).
Definition verdict_text : option TypedValue := match decide_merge 5000000000 ∅ (merge_world 100 None 3) (mkMergeRequest 7 8 10) with Ok r => r.2 | _ => None end.

Lemma merge_decided_once_witness :
  merge_tiebreak 30 10 7 8 = false ∧
  ∃ cache, decide_merge 5000000000 ∅ (merge_world 5099 verdict_text 30) (mkMergeRequest 7 8 10) = Ok (true, cache, None) ∧
    decide_merge 5000000000 cache (merge_world 10098 None 30) (mkMergeRequest 7 8 10) = Ok (true, cache, None).
Proof.
  split; [vm_compute; reflexivity|].
  assert (∃ tv cacheA, verdict_text = Some tv ∧ decide_merge 5000000000 ∅ (merge_world 100 None 3) (mkMergeRequest 7 8 10) = Ok (true, cacheA, Some tv)) as (tv & cacheA & Ht & Hd).
  { eexists _, _. split; vm_compute; reflexivity. }
  destruct (merge_decided_once 5000000000 ∅ (merge_world 100 None 3) (mkMergeRequest 7 8 10) true cacheA tv ∅ (merge_world 5099 verdict_text 30) (mkMergeRequest 7 8 10) Hd) as [_ (cache & H1 & H2)].
  - lia.
  - unfold is_i64, I64_MAX; cbn; lia.
  - unfold is_u63, I64_MAX; cbn; lia.
  - done.
  - done.
  - cbn. by rewrite Ht.
  - vm_compute. reflexivity.
  - exists cache. split; [exact H1|]. apply H2; [done|vm_compute; reflexivity].
Defined.

(** ** Propagation *)

(** What a member propagates is what the hooking of every other member is told: the data of an
    entry or of a migration, and the ids that prepare them, come out of the envelope as they
    went in; nothing is told from an envelope of another kind. *)
Theorem propagation_notifies `{!TomlDoc Scalar} `{!TomlDoc WireFinishMigrationData} `{!TomlDoc WireFinishEnterData} level id fe fm :
  I32_RANGE id →
  I32_RANGE (fe_enter_id fe) ∧ entry_wf (entry_to_wire (fe_entry_data fe)) ∧ is_u32 (fe_go_connectivity_position fe) →
  I32_RANGE (fm_migration_id fm) ∧ entry_wf (entry_to_wire (fm_migration_data fm)) ∧ is_u32 (fm_go_connectivity_position fm) →
  ∃ a b c d, propagate_prepare_migration id = Ok a ∧ propagate_finish_migration fm = Ok b ∧ propagate_prepare_enter id = Ok c ∧ propagate_finish_enter fe = Ok d ∧
    notify_prepare_migration a = Some (NotifyPrepareMigration id) ∧ notify_finish_migration level b = Some (NotifyFinishMigration level fm) ∧
    notify_prepare_enter c = Some (NotifyPrepareEnter id) ∧ notify_finish_enter level d = Some (NotifyFinishEnter level fe) ∧
    notify_prepare_enter a = None ∧ notify_finish_enter level b = None ∧ notify_finish_migration level d = None.
Proof.
  intros Hid Hfe Hfm.
  destruct (wire_read TAG_MIGRATION_ID (mkScalar id) Hid) as (a & Ha & Ra). destruct (wire_read TAG_ENTER_ID (mkScalar id) Hid) as (c & Hc & Rc).
  destruct (wire_read TAG_FINISH_MIGRATION_DATA (mkWireFinishMigration (fm_migration_id fm) (entry_to_wire (fm_migration_data fm)) (fm_go_connectivity_position fm)) Hfm) as (b & Hb & Rb).
  destruct (wire_read TAG_FINISH_ENTER_DATA (mkWireFinishEnter (fe_enter_id fe) (entry_to_wire (fe_entry_data fe)) (fe_go_connectivity_position fe)) Hfe) as (d & Hd & Rd).
  exists a, b, c, d. split_and!; [done..| | | | | | |]; cbn; unfold notify_prepare_migration, notify_finish_migration, notify_prepare_enter, notify_finish_enter, decode_migration_id, decode_finish_migration_data, decode_enter_id, decode_finish_enter_data.
  - by rewrite Ra.
  - rewrite Rb. destruct fm as [? [] ?]. done.
  - by rewrite Rc.
  - rewrite Rd. destruct fe as [? [] ?]. done.
  - rewrite unwire_mismatch; [done|]. by rewrite (wire_tag _ _ _ Ha).
  - rewrite unwire_mismatch; [done|]. by rewrite (wire_tag _ _ _ Hb).
  - rewrite unwire_mismatch; [done|]. by rewrite (wire_tag _ _ _ Hd).
Qed.
