(* ===== verification/NodeRegistry.v ===== *)
(** * The links of the daemon

    Models [crates/ntkd/src/node/registry.rs] (the table that gives each discovered link one
    [LinkId] and remembers which arc of QSPN it is), [peers.rs] (the connections, by link) and the
    part of [adapters.rs] that picks the connection toward a g-node.  A connection is
    known by the identity of its client. *)
From stdpp Require Import strings.
From S2P Require Import Prelude Addressing Domain QspnPath Neighbor NodeView.

(** ** Caller ids *)
Definition NEIGHBOUR_ID_TAG : string := "ntkd.NeighbourId"%string.
Definition NTKD_IDENTITY_ID_TAG : string := "ntkd.IdentityId"%string.

(** Big-endian bytes. *)
Fixpoint to_be_bytes (n : nat) (v : Z) : list Z :=
  match n with 0 => [] | S n => (v / 256 ^ Z.of_nat n mod 256)%Z :: to_be_bytes n v end.
Definition from_be_bytes (bytes : list Z) : Z := foldl (λ acc b, (acc * 256 + b)%Z) 0%Z bytes.
Definition i32_from_bits (u : Z) : Z := if (u <? 2147483648)%Z then u else (u - 4294967296)%Z.

Definition encode_caller_id (id : Z) : TypedValue := mkTypedValue NEIGHBOUR_ID_TAG (to_be_bytes 4 (id mod 4294967296)).
Definition decode_caller_id (tv : TypedValue) : option Z :=
  if negb (bool_decide (tv_type_tag tv = NEIGHBOUR_ID_TAG)) then None
  else if negb (length (tv_payload tv) =? 4) then None
  else match node_id_from_raw (E := unit) (i32_from_bits (from_be_bytes (tv_payload tv))) with Ok id => Some id | _ => None end.
Definition decode_identity_id (tv : TypedValue) : option Z :=
  if negb (bool_decide (tv_type_tag tv = NTKD_IDENTITY_ID_TAG)) then None
  else if negb (length (tv_payload tv) =? 8) then None
  else Some (from_be_bytes (tv_payload tv)).

(** Only the tests of the repository send an identity by its id. *)
Definition encode_identity_id (id : Z) : TypedValue := mkTypedValue NTKD_IDENTITY_ID_TAG (to_be_bytes 8 id).

(** ** The registry *)
Record LinkEntry := mkLinkEntry { le_id : Z; le_mac : string; le_dev : string; le_neighbour_id : Z; le_qspn_arc : option ArcId }.
Record LinkRegistry := mkLinkRegistry {
  lr_next : Z;
  lr_by_mac : gmap string LinkEntry;
  lr_by_id : gmap Z string;
  lr_bad_link_last_retry : gmap Z Z
}.
Implicit Types lr : LinkRegistry.
Definition link_registry_new : LinkRegistry := mkLinkRegistry 0 ∅ ∅ ∅.

Definition link_for_neighbour lr (neighbour_id : Z) (mac dev : string) : LinkRegistry * Z :=
  match lr_by_mac lr !! mac with
  | Some entry => (lr, le_id entry)
  | None =>
      let id := lr_next lr in
      (mkLinkRegistry ((id + 1) mod 18446744073709551616)%Z (<[mac := mkLinkEntry id mac dev neighbour_id None]> (lr_by_mac lr))
         (<[id := mac]> (lr_by_id lr)) (lr_bad_link_last_retry lr), id)
  end.

Definition with_qspn_arc (arc : ArcId) (e : LinkEntry) : LinkEntry := mkLinkEntry (le_id e) (le_mac e) (le_dev e) (le_neighbour_id e) (Some arc).
Definition set_qspn_arc lr (link : Z) (arc : ArcId) : LinkRegistry :=
  match lr_by_id lr !! link with
  | Some mac => mkLinkRegistry (lr_next lr) (alter (with_qspn_arc arc) mac (lr_by_mac lr)) (lr_by_id lr) (lr_bad_link_last_retry lr)
  | None => lr
  end.
Definition link_entry lr (link : Z) : option LinkEntry := mac ← lr_by_id lr !! link; lr_by_mac lr !! mac.
Definition qspn_arc_of lr (link : Z) : option ArcId := mac ← lr_by_id lr !! link; e ← lr_by_mac lr !! mac; le_qspn_arc e.
Definition link_for_dev_and_mac lr (mac : string) : option Z := le_id <$> lr_by_mac lr !! mac.
Definition registry_remove lr (mac : string) : LinkRegistry * option LinkEntry :=
  match lr_by_mac lr !! mac with
  | Some entry => (mkLinkRegistry (lr_next lr) (delete mac (lr_by_mac lr)) (delete (le_id entry) (lr_by_id lr)) (lr_bad_link_last_retry lr), Some entry)
  | None => (lr, None)
  end.
Definition should_retry_bad_link lr (now link min_interval : Z) : LinkRegistry * bool :=
  let again := (mkLinkRegistry (lr_next lr) (lr_by_mac lr) (lr_by_id lr) (<[link := now]> (lr_bad_link_last_retry lr)), true) in
  match lr_bad_link_last_retry lr !! link with
  | Some prev => if (Z.max 0 (now - prev) <? min_interval)%Z then (lr, false) else again
  | None => again
  end.

(** ** Toward a g-node *)

(** The connections ([PeerLinks]): the client of a link. *)
Abbreviation PeerLinks := (gmap Z Z).
Section Iterated.
Context `{HashOrder}.

Definition registry_all lr : list LinkEntry := (hm_iter (lr_by_mac lr)).*2.
Definition link_for_caller lr (tv : TypedValue) : option Z :=
  id ← decode_caller_id tv; min_by Z.leb (le_id <$> retain (λ e, (le_neighbour_id e =? id)%Z) (registry_all lr)).
Definition link_of_qspn_arc lr (arc : ArcId) : option Z := le_id <$> find (λ e, bool_decide (le_qspn_arc e = Some arc)) (registry_all lr).

Definition first_hop_link (snapshot : RouteSnapshot) lr (hc : HCoord) (skip : option ArcId) : option Z :=
  entries ← rs_levels snapshot !! hc_level hc;
  entry ← find (λ e, bool_decide (re_destination e = hc)) entries;
  p ← find (λ p, negb (bool_decide (Some (rp_arc p) = skip))) (re_paths entry);
  link_of_qspn_arc lr (rp_arc p).

Definition links_all (links : PeerLinks) : list (Z * Z) := hm_iter links.

Definition stub_toward (snapshot : RouteSnapshot) lr (links : PeerLinks) (hc : HCoord) (skip : option ArcId) : option Z :=
  link ← first_hop_link snapshot lr hc skip; links !! link.
Definition link_of_stub (links : PeerLinks) (client : Z) : option Z := fst <$> find (λ lc : Z * Z, (lc.2 =? client)%Z) (links_all links).
Definition env_gateway (snapshot : RouteSnapshot) lr (links : PeerLinks) (hc : HCoord) (failed : option Z) : option Z :=
  let skip := f ← failed; link ← link_of_stub links f; qspn_arc_of lr link in
  stub_toward snapshot lr links hc skip.
Definition env_dial (my : Naddr) (snapshot : RouteSnapshot) lr (links : PeerLinks) (n : PeerTuple.TupleNode) : option Z :=
  hc ← dial_coordinate my n; stub_toward snapshot lr links hc None.

(** The stubs of hooking (stubs.rs): toward the other end of an arc, and toward a g-node. *)
Definition hooking_arc_stub (links : PeerLinks) (arc : Z) : option Z := links !! arc.
Definition hooking_gateway_stub (snapshot : RouteSnapshot) lr (links : PeerLinks) (hc : HCoord) : option Z :=
  entries ← rs_levels snapshot !! hc_level hc;
  entry ← find (λ e, bool_decide (re_destination e = hc)) entries;
  p ← head (re_paths entry);
  link ← link_of_qspn_arc lr (rp_arc p);
  links !! link.

(** Hooking and the peer services leave through the same gateway. *)
Lemma hooking_gateway_is_first (snapshot : RouteSnapshot) lr (links : PeerLinks) (hc : HCoord) :
  hooking_gateway_stub snapshot lr links hc = env_gateway snapshot lr links hc None.
Proof.
  unfold hooking_gateway_stub, env_gateway, stub_toward, first_hop_link. cbn. destruct (rs_levels snapshot !! hc_level hc) as [es|]; [|done]. cbn.
  destruct (find _ es) as [e|]; [|done]. cbn. destruct (re_paths e) as [|p ps]; [done|]. reflexivity.
Qed.
End Iterated.

(** ** The dispatcher of inbound calls (dispatch.rs) *)
Inductive CallArm :=
  | NeighborhoodHereIAm | NeighborhoodRequestArc | NeighborhoodCanYouExport | NeighborhoodRemoveArc | NeighborhoodNop
  | IdentityMatchDuplication | IdentityGetPeerMainId | IdentityNotifyIdentityArcRemoved
  | QspnGetFullEtp | QspnSendEtp | QspnGotPrepareDestroy | QspnGotDestroy
  | PeersForwardPeerMessage | PeersGetRequest | PeersSetResponse | PeersSetRefuseMessage | PeersSetRedoFromStart | PeersSetNextDestination | PeersSetFailure
  | PeersSetNonParticipant | PeersSetMissingOptionalMaps | PeersSetParticipant | PeersGiveParticipantMaps | PeersAskParticipantMaps
  | CoordinatorExecutePrepareMigration | CoordinatorExecuteFinishMigration | CoordinatorExecutePrepareEnter | CoordinatorExecuteFinishEnter | CoordinatorExecuteWeHaveSplitted
  | HookingRetrieveNetworkData | HookingSearchMigrationPath | HookingRouteSearchRequest | HookingRouteSearchError | HookingRouteSearchResponse | HookingRouteExploreRequest
  | HookingRouteExploreResponse | HookingRouteDeleteReserveRequest | HookingRouteMigRequest | HookingRouteMigResponse.
Inductive StackModule := ModQspn | ModPeers | ModCoordinator | ModHooking.
(** Which identity a call is for, and who handles it. *)
Inductive Selection := SelMain | SelSecondary (id : Z).
Inductive DispatchError := BadUnicastId (e : DomainDecodeError) | WholeNodeNotValid | BadIdentityId | NoSuchIdentity (id : Z) | NoArm.
Inductive HandledBy (S : Type) := ByNeighborhood | ByIdentity | ByStack (stack : S) (m : StackModule).
Arguments ByNeighborhood {_}.
Arguments ByIdentity {_}.
Arguments ByStack {_} _ _.

(** The main identity's stack of handlers, and those of the others. *)
Record Dispatcher (S : Type) := mkDispatcher { dp_identity_stack : S; dp_secondary : gmap Z S }.
Arguments mkDispatcher {_} _ _.
Arguments dp_identity_stack {_} _.
Arguments dp_secondary {_} _.

Section Dispatch.
Context {S : Type} `{ProstMessage WireUnicastId}.
Definition dispatcher_new (stack : S) : Dispatcher S := mkDispatcher stack ∅.
Definition replace_identity_stack (d : Dispatcher S) (stack : S) : Dispatcher S := mkDispatcher stack (dp_secondary d).
Definition register_identity (d : Dispatcher S) (id : Z) (stack : S) : Dispatcher S := mkDispatcher (dp_identity_stack d) (<[id := stack]> (dp_secondary d)).
Definition unregister_identity (d : Dispatcher S) (id : Z) : Dispatcher S := mkDispatcher (dp_identity_stack d) (delete id (dp_secondary d)).

Definition select_identity (unicast_id : TypedValue) (main_id : Z) : res DispatchError Selection :=
  u ← map_err BadUnicastId (unicast_id_from_typed_value unicast_id);
  match u with
  | MainIdentity => Ok SelMain
  | WholeNode _ => Err WholeNodeNotValid
  | IdentityAware id_tv =>
      id ← ok_or (decode_identity_id id_tv) BadIdentityId;
      Ok (if (id =? main_id)%Z then SelMain else SelSecondary id)
  end.
Definition resolve_stack (d : Dispatcher S) (main_id : Z) (unicast_id : TypedValue) : res DispatchError S :=
  sel ← select_identity unicast_id main_id;
  match sel with
  | SelMain => Ok (dp_identity_stack d)
  | SelSecondary id => ok_or (dp_secondary d !! id) (NoSuchIdentity id)
  end.
Definition dispatcher_handle (d : Dispatcher S) (main_id : Z) (unicast_id : TypedValue) (call : option CallArm) : res DispatchError (HandledBy S) :=
  match call with
  | None => Err NoArm
  | Some arm =>
      match arm with
      | NeighborhoodHereIAm | NeighborhoodRequestArc | NeighborhoodCanYouExport | NeighborhoodRemoveArc | NeighborhoodNop => Ok ByNeighborhood
      | IdentityMatchDuplication | IdentityGetPeerMainId | IdentityNotifyIdentityArcRemoved => Ok ByIdentity
      | QspnGetFullEtp | QspnSendEtp | QspnGotPrepareDestroy | QspnGotDestroy => stack ← resolve_stack d main_id unicast_id; Ok (ByStack stack ModQspn)
      | PeersForwardPeerMessage | PeersGetRequest | PeersSetResponse | PeersSetRefuseMessage | PeersSetRedoFromStart | PeersSetNextDestination | PeersSetFailure
      | PeersSetNonParticipant | PeersSetMissingOptionalMaps | PeersSetParticipant | PeersGiveParticipantMaps | PeersAskParticipantMaps =>
          stack ← resolve_stack d main_id unicast_id; Ok (ByStack stack ModPeers)
      | CoordinatorExecutePrepareMigration | CoordinatorExecuteFinishMigration | CoordinatorExecutePrepareEnter | CoordinatorExecuteFinishEnter
      | CoordinatorExecuteWeHaveSplitted => stack ← resolve_stack d main_id unicast_id; Ok (ByStack stack ModCoordinator)
      | HookingRetrieveNetworkData | HookingSearchMigrationPath | HookingRouteSearchRequest | HookingRouteSearchError | HookingRouteSearchResponse | HookingRouteExploreRequest
      | HookingRouteExploreResponse | HookingRouteDeleteReserveRequest | HookingRouteMigRequest | HookingRouteMigResponse =>
          stack ← resolve_stack d main_id unicast_id; Ok (ByStack stack ModHooking)
      end
  end.
End Dispatch.
