(* ===== verification/NodeRegistryProps.v ===== *)
(** * Links are not confused

    The registry keeps one id per link, never given twice, with the two tables inverse of each
    other through every sequence of operations; a caller is resolved to the oldest link with it;
    and a gateway that failed is not proposed again. *)
From stdpp Require Import strings.
From S2P Require Import Prelude Addressing Domain QspnPath Neighbor NodeView NodeRegistry.

(** ** The two tables *)
Record registry_wf (lr : LinkRegistry) : Prop := {
  rw_entry : ∀ mac e, lr_by_mac lr !! mac = Some e → le_mac e = mac ∧ lr_by_id lr !! le_id e = Some mac ∧ (0 ≤ le_id e < lr_next lr)%Z;
  rw_id : ∀ id mac, lr_by_id lr !! id = Some mac → ∃ e, lr_by_mac lr !! mac = Some e ∧ le_id e = id
}.

Inductive RegOp :=
  | Discover (neighbour_id : Z) (mac dev : string)
  | SetArc (link : Z) (arc : ArcId)
  | Remove (mac : string)
  | Retry (now link min_interval : Z).
(** The operation, and the id it minted. *)
Definition reg_exec (lr : LinkRegistry) (op : RegOp) : LinkRegistry * list Z :=
  match op with
  | Discover n mac dev => let '(lr', id) := link_for_neighbour lr n mac dev in (lr', match lr_by_mac lr !! mac with None => [id] | Some _ => [] end)
  | SetArc link arc => (set_qspn_arc lr link arc, [])
  | Remove mac => ((registry_remove lr mac).1, [])
  | Retry now link i => ((should_retry_bad_link lr now link i).1, [])
  end.
Fixpoint reg_run (lr : LinkRegistry) (ops : list RegOp) : LinkRegistry * list Z :=
  match ops with
  | [] => (lr, [])
  | op :: ops => let '(lr1, ids) := reg_exec lr op in let '(lr2, ids') := reg_run lr1 ops in (lr2, ids ++ ids')
  end.

Definition LINK_IDS : Z := 18446744073709551616.

Lemma discover_wf lr n mac dev :
  registry_wf lr → (0 ≤ lr_next lr)%Z → (lr_next lr + 1 < LINK_IDS)%Z → lr_by_mac lr !! mac = None →
  registry_wf (link_for_neighbour lr n mac dev).1 ∧ lr_next (link_for_neighbour lr n mac dev).1 = (lr_next lr + 1)%Z ∧ (link_for_neighbour lr n mac dev).2 = lr_next lr.
Proof.
  intros [He Hi] H0 Hn Hm. unfold link_for_neighbour. rewrite Hm. cbn. rewrite Z.mod_small by (unfold LINK_IDS in Hn; lia). split; [|done].
  assert (∀ mac' e, lr_by_mac lr !! mac' = Some e → le_id e ≠ lr_next lr) as Hfresh by (intros mac' e Hl; destruct (He _ _ Hl) as (_ & _ & ?); lia).
  split; cbn.
  - intros mac' e [[<- <-]|[Hne Hl]]%lookup_insert_Some; cbn.
    + split; [done|]. split; [apply lookup_insert_eq|lia].
    + destruct (He _ _ Hl) as (? & ? & ?). split; [done|]. split; [|lia]. rewrite lookup_insert_ne; [done|]. intros Heq. by apply (Hfresh _ _ Hl).
  - intros id mac' [[<- <-]|[Hne Hl]]%lookup_insert_Some.
    + eexists. split; [apply lookup_insert_eq|done].
    + destruct (Hi _ _ Hl) as (e & Hl' & <-). exists e. split; [|done]. rewrite lookup_insert_ne; [done|]. congruence.
Qed.

Lemma set_arc_wf lr link arc : registry_wf lr → registry_wf (set_qspn_arc lr link arc).
Proof.
  intros [He Hi]. unfold set_qspn_arc. destruct (lr_by_id lr !! link) as [mac|] eqn:Hm; [|by split]. split; cbn.
  - intros mac' e Hl. destruct (decide (mac = mac')) as [<-|Hne].
    + rewrite lookup_alter, decide_True in Hl by done. apply fmap_Some in Hl as (e0 & Hl & ->). by apply (He _ _ Hl).
    + rewrite lookup_alter_ne in Hl by done. by apply He.
  - intros id mac' Hl. destruct (Hi _ _ Hl) as (e & Hl' & <-). destruct (decide (mac = mac')) as [<-|Hne].
    + exists (with_qspn_arc arc e). split; [|done]. by rewrite lookup_alter, decide_True, Hl' by done.
    + exists e. split; [|done]. by rewrite lookup_alter_ne.
Qed.

Lemma remove_wf lr mac : registry_wf lr → registry_wf (registry_remove lr mac).1.
Proof.
  intros [He Hi]. unfold registry_remove. destruct (lr_by_mac lr !! mac) as [e0|] eqn:Hm; [|by split]. destruct (He _ _ Hm) as (_ & Hid0 & _). split; cbn.
  - intros mac' e [Hne Hl]%lookup_delete_Some. destruct (He _ _ Hl) as (? & Hid & ?). split; [done|]. split; [|done]. rewrite lookup_delete_ne; [done|]. intros Heq. rewrite Heq in Hid0. congruence.
  - intros id mac' [Hne Hl]%lookup_delete_Some. destruct (Hi _ _ Hl) as (e & Hl' & <-). exists e. split; [|done]. rewrite lookup_delete_ne; [done|]. intros ->. congruence.
Qed.

Lemma exec_wf lr op :
  registry_wf lr → (0 ≤ lr_next lr)%Z → (lr_next lr + 1 < LINK_IDS)%Z →
  registry_wf (reg_exec lr op).1 ∧ ∃ k, (k = 0 ∨ k = 1) ∧ lr_next (reg_exec lr op).1 = (lr_next lr + Z.of_nat k)%Z ∧ (reg_exec lr op).2 = seqZ (lr_next lr) (Z.of_nat k).
Proof.
  intros Hw H0 Hn. destruct op as [n mac dev|link arc|mac|now link i]; cbn.
  - destruct (lr_by_mac lr !! mac) as [e|] eqn:Hm.
    + unfold link_for_neighbour. rewrite Hm. cbn. split; [done|]. exists 0. split_and!; [by left|lia|done].
    + destruct (discover_wf lr n mac dev Hw H0 Hn Hm) as (Hw' & Hn' & Hid). destruct (link_for_neighbour lr n mac dev) as [lr' id] eqn:Hl. cbn in *. split; [done|]. exists 1. split_and!; [by right|done|]. subst id. done.
  - split; [by apply set_arc_wf|]. exists 0. split_and!; [by left| |done]. unfold set_qspn_arc. destruct (_ !! _); cbn; lia.
  - split; [by apply remove_wf|]. exists 0. split_and!; [by left| |done]. unfold registry_remove. destruct (_ !! _); cbn; lia.
  - assert (registry_wf (should_retry_bad_link lr now link i).1 ∧ lr_next (should_retry_bad_link lr now link i).1 = lr_next lr) as [Hw' Hn'].
    { unfold should_retry_bad_link. destruct (_ !! _); [destruct (_ <? _)%Z|]; cbn; (split; [|done]); try done; destruct Hw; by split. }
    split; [done|]. exists 0. split_and!; [by left|lia|done].
Qed.

Lemma run_wf ops lr :
  registry_wf lr → (0 ≤ lr_next lr)%Z → (lr_next lr + Z.of_nat (length ops) < LINK_IDS)%Z →
  let '(lr', ids) := reg_run lr ops in registry_wf lr' ∧ ids = seqZ (lr_next lr) (Z.of_nat (length ids)) ∧ lr_next lr' = (lr_next lr + Z.of_nat (length ids))%Z.
Proof.
  revert lr. induction ops as [|op ops IH]; intros lr Hw H0 Hn; cbn [reg_run length] in *; [split_and!; [done..|cbn; lia]|].
  destruct (exec_wf lr op Hw H0) as (Hw1 & k & Hk & Hn1 & Hids); [lia|]. destruct (reg_exec lr op) as [lr1 ids]. cbn in Hw1, Hn1, Hids.
  specialize (IH lr1 Hw1). destruct (reg_run lr1 ops) as [lr2 ids']. destruct IH as (Hw2 & Hids' & Hn2); [lia..|]. split; [done|].
  assert (length ids = k) as Hlen by (rewrite Hids, length_seqZ; lia). rewrite length_app. split; [|lia].
  rewrite Nat2Z.inj_add, seqZ_app by lia. rewrite Hlen, <- Hids, <- Hn1. by f_equal.
Qed.

(** One id per link, never given twice.  Whatever links come, go, get an arc or are
    retried, from the start: the ids that were given are 0, 1, 2, ... in order, so none is
    given again after its link went; each link that is known is found by its id, two links have
    two ids, and discovering it again gives the same one. *)
Theorem links_never_confused ops lr ids :
  reg_run link_registry_new ops = (lr, ids) → (Z.of_nat (length ops) < LINK_IDS)%Z →
  ids = seqZ 0 (Z.of_nat (length ids)) ∧
  (∀ mac e, lr_by_mac lr !! mac = Some e → le_id e ∈ ids ∧ link_entry lr (le_id e) = Some e ∧ ∀ n dev, link_for_neighbour lr n mac dev = (lr, le_id e)) ∧
  (∀ mac mac' e e', lr_by_mac lr !! mac = Some e → lr_by_mac lr !! mac' = Some e' → le_id e = le_id e' → mac = mac') ∧
  ∀ link e, link_entry lr link = Some e → le_id e = link.
Proof.
  intros Hrun Hlen. pose proof (run_wf ops link_registry_new) as Hw. rewrite Hrun in Hw. cbn in Hw. destruct Hw as ([He Hi] & Hids & Hn); [by split|lia|lia|].
  split_and!; [done| | |].
  - intros mac e Hl. destruct (He _ _ Hl) as (_ & Hid & Hr). split; [rewrite Hids; apply elem_of_seqZ; lia|]. split; [unfold link_entry; by rewrite Hid|].
    intros n dev. unfold link_for_neighbour. by rewrite Hl.
  - intros mac mac' e e' Hl Hl' Heq. destruct (He _ _ Hl) as (_ & Hid & _). destruct (He _ _ Hl') as (_ & Hid' & _). rewrite Heq in Hid. congruence.
  - intros link e. unfold link_entry. destruct (lr_by_id lr !! link) as [mac|] eqn:Hm; cbn; [|done]. intros Hl. destruct (Hi _ _ Hm) as (e' & Hl' & Hid). congruence.
Qed.

Lemma links_never_confused_witness :
  let ops := [Discover 5 "aa" "eth0"; Discover 6 "bb" "eth0"; Remove "aa"; Discover 5 "aa" "eth1"]%string in
  (reg_run link_registry_new ops).2 = [0; 1; 2]%Z ∧ link_entry (reg_run link_registry_new ops).1 2 = Some (mkLinkEntry 2 "aa" "eth1" 5 None).
Proof.
  intros ops. split; [vm_compute; reflexivity|].
  destruct (links_never_confused ops _ _ (surjective_pairing _) ltac:(vm_compute; reflexivity)) as (_ & Hl & _).
  destruct (Hl "aa"%string (mkLinkEntry 2 "aa" "eth1" 5 None) ltac:(vm_compute; reflexivity)) as (_ & H & _). exact H.
Defined.

(** ** Callers *)
Lemma caller_id_roundtrip id : (0 < id ≤ 2147483647)%Z → decode_caller_id (encode_caller_id id) = Some id.
Proof.
  intros Hid. unfold decode_caller_id, encode_caller_id. cbn [tv_type_tag tv_payload]. rewrite bool_decide_true by done. cbn [negb]. cbn [to_be_bytes length Nat.eqb negb].
  assert (i32_from_bits (from_be_bytes (to_be_bytes 4 (id mod 4294967296))) = id) as Hx.
  { rewrite Z.mod_small by lia. unfold i32_from_bits, from_be_bytes. cbn [to_be_bytes foldl].
    change (256 ^ Z.of_nat 3)%Z with 16777216%Z. change (256 ^ Z.of_nat 2)%Z with 65536%Z. change (256 ^ Z.of_nat 1)%Z with 256%Z. change (256 ^ Z.of_nat 0)%Z with 1%Z.
    assert ((((0 * 256 + id / 16777216 mod 256) * 256 + id / 65536 mod 256) * 256 + id / 256 mod 256) * 256 + id / 1 mod 256 = id)%Z as -> by (Z.to_euclidean_division_equations; lia).
    by rewrite (proj2 (Z.ltb_lt _ _)) by lia. }
  rewrite Nat.eqb_refl. cbn [negb]. change [_; _; _; _] with (to_be_bytes 4 (id mod 4294967296)). rewrite Hx. unfold node_id_from_raw. by rewrite (proj2 (Z.leb_gt _ _)) by lia.
Qed.

Section Iterated.
Context `{HashOrder}.

Lemma registry_all_elem lr e : e ∈ registry_all lr ↔ ∃ mac, lr_by_mac lr !! mac = Some e.
Proof.
  unfold registry_all. rewrite list_elem_of_fmap. split.
  - intros ([mac e'] & -> & Hl%elem_of_hm_iter). by exists mac.
  - intros [mac Hl]. exists (mac, e). split; [done|]. by apply elem_of_hm_iter.
Qed.

(** A caller is resolved to the oldest link it has here: what a node puts in its calls to name
    itself ([encode_caller_id]) is read back, and gives the least id among the links
    whose neighbour it is, whatever the order of the table; a node with no link gives
    none. *)
Theorem caller_is_oldest_link lr id :
  (0 < id ≤ 2147483647)%Z →
  match link_for_caller lr (encode_caller_id id) with
  | Some link => (∃ mac e, lr_by_mac lr !! mac = Some e ∧ le_neighbour_id e = id ∧ le_id e = link) ∧
      ∀ mac e, lr_by_mac lr !! mac = Some e → le_neighbour_id e = id → (link ≤ le_id e)%Z
  | None => ∀ mac e, lr_by_mac lr !! mac = Some e → le_neighbour_id e ≠ id
  end.
Proof.
  intros Hid. unfold link_for_caller. rewrite caller_id_roundtrip by done. cbn [mbind option_bind]. set (l := le_id <$> retain _ _).
  assert (∀ link, link ∈ l ↔ ∃ mac e, lr_by_mac lr !! mac = Some e ∧ le_neighbour_id e = id ∧ le_id e = link) as Hl.
  { intros link. unfold l. rewrite list_elem_of_fmap. setoid_rewrite elem_of_retain. setoid_rewrite registry_all_elem. setoid_rewrite Z.eqb_eq. naive_solver. }
  destruct (min_by Z.leb l) as [link|] eqn:Hmin.
  - split; [by apply Hl, (min_by_elem_of Z.leb)|]. intros mac e He Hn. apply Z.leb_le. apply (min_by_least Z.leb) with l; [intros; lia|intros; lia|done|apply Hl; naive_solver].
  - intros mac e He Hn. destruct (min_by_is_Some Z.leb l) as [x Hx]; [|congruence]. intros Hnil. assert (le_id e ∈ l) as Hin by (apply Hl; naive_solver). rewrite Hnil in Hin. by apply elem_of_nil in Hin.
Qed.

(** ** Gateways *)

Lemma link_of_arc_inv lr link arc : link_of_qspn_arc lr arc = Some link → ∃ mac e, lr_by_mac lr !! mac = Some e ∧ le_qspn_arc e = Some arc ∧ le_id e = link.
Proof.
  unfold link_of_qspn_arc. destruct (find _ _) as [e|] eqn:Hf; [|done]. intros [= <-]. apply find_Some_iff in Hf as [[mac Hl]%registry_all_elem Hb%bool_decide_eq_true]. by exists mac, e.
Qed.

Lemma link_of_stub_exact (links : PeerLinks) link client :
  links !! link = Some client → (∀ l l' c, links !! l = Some c → links !! l' = Some c → l = l') → link_of_stub links client = Some link.
Proof.
  intros Hl Hinj. unfold link_of_stub. destruct (find _ _) as [[l c]|] eqn:Hf.
  - apply find_Some_iff in Hf as [Hin Hc%Z.eqb_eq]. apply elem_of_hm_iter in Hin. cbn in *. subst c. by rewrite (Hinj l link client).
  - exfalso. eapply find_None_iff in Hf; [|by apply elem_of_hm_iter]. cbn in Hf. lia.
Qed.

(** A gateway that failed is not proposed again.  The gateway toward a g-node is the connection of
    the cheapest path that QSPN has to it; when a call through one failed, the next is
    the connection of the cheapest path over another arc, so another connection, or none when
    every path is over the arc that failed. *)
Theorem gateway_avoids_failed snapshot lr links hc entry mac e failed :
  registry_wf lr → (∀ l l' c, links !! l = Some c → links !! l' = Some c → l = l') →
  find (λ e, bool_decide (re_destination e = hc)) (entries_at snapshot (hc_level hc)) = Some entry →
  lr_by_mac lr !! mac = Some e → links !! le_id e = Some failed →
  let next := find (λ p, negb (bool_decide (Some (rp_arc p) = le_qspn_arc e))) (re_paths entry) in
  env_gateway snapshot lr links hc (Some failed) = (p ← next; link ← link_of_qspn_arc lr (rp_arc p); links !! link) ∧
  env_gateway snapshot lr links hc None = (p ← head (re_paths entry); link ← link_of_qspn_arc lr (rp_arc p); links !! link) ∧
  (is_Some (le_qspn_arc e) → env_gateway snapshot lr links hc (Some failed) ≠ Some failed).
Proof.
  intros Hw Hinj Hfind Hl Hc next. destruct (rw_entry _ Hw _ _ Hl) as (_ & Hid & _).
  assert (∀ skip, stub_toward snapshot lr links hc skip = (p ← find (λ p, negb (bool_decide (Some (rp_arc p) = skip))) (re_paths entry); link ← link_of_qspn_arc lr (rp_arc p); links !! link)) as Hst.
  { intros skip. unfold stub_toward, first_hop_link. unfold entries_at in Hfind. destruct (rs_levels snapshot !! hc_level hc) as [es|]; cbn in *; [|done]. rewrite Hfind. cbn. by destruct (find (λ p, negb (bool_decide (Some (rp_arc p) = skip))) (re_paths entry)). }
  assert (env_gateway snapshot lr links hc (Some failed) = (p ← next; link ← link_of_qspn_arc lr (rp_arc p); links !! link)) as Hg.
  { unfold env_gateway. cbn [mbind option_bind]. rewrite (link_of_stub_exact links (le_id e) failed) by done. cbn. unfold qspn_arc_of. rewrite Hid. cbn. rewrite Hl. cbn. by rewrite Hst. }
  split; [done|]. split; [unfold env_gateway; rewrite Hst; destruct (re_paths entry) as [|p ps]; [done|]; unfold find; cbn [List.find]; by rewrite bool_decide_false by done|]. intros [arc Ha]. rewrite Hg. unfold next. rewrite Ha.
  destruct (find (λ p, negb (bool_decide (Some (rp_arc p) = Some arc))) (re_paths entry)) as [p|] eqn:Hf; cbn; [|done]. apply find_Some_iff in Hf as [_ Hne%negb_true_iff%bool_decide_eq_false].
  destruct (link_of_qspn_arc lr (rp_arc p)) as [link|] eqn:Hlink; cbn; [|done]. intros Hlf. destruct (link_of_arc_inv _ _ _ Hlink) as (mac' & e' & Hl' & Ha' & Hid').
  assert (link = le_id e) as -> by by eapply Hinj. destruct (rw_entry _ Hw _ _ Hl') as (_ & Hid2 & _). rewrite Hid' in Hid2. assert (mac' = mac) as -> by congruence. congruence.
Qed.
End Iterated.

(** ** The stack a call reaches *)
Lemma be_bytes_fold n v acc : (0 ≤ v)%Z → foldl (λ acc b, (acc * 256 + b)%Z) acc (to_be_bytes n v) = (acc * 256 ^ Z.of_nat n + v mod 256 ^ Z.of_nat n)%Z.
Proof.
  intros Hv. revert acc. induction n as [|n IH]; intros acc; cbn [to_be_bytes foldl]; [change (256 ^ Z.of_nat 0)%Z with 1%Z; rewrite Z.mod_1_r; lia|].
  rewrite IH, Nat2Z.inj_succ, Z.pow_succ_r by lia. assert (0 < 256 ^ Z.of_nat n)%Z by (apply Z.pow_pos_nonneg; lia).
  rewrite (Z.mul_comm 256), (Z.rem_mul_r v (256 ^ Z.of_nat n) 256) by lia. lia.
Qed.
Lemma decode_encode_identity id : (0 ≤ id < 2 ^ 64)%Z → decode_identity_id (encode_identity_id id) = Some id.
Proof.
  intros Hid. unfold decode_identity_id, encode_identity_id. cbn [tv_type_tag tv_payload]. rewrite bool_decide_true by done. cbn [negb].
  change (length (to_be_bytes 8 id) =? 8) with true. cbn [negb]. unfold from_be_bytes. rewrite be_bytes_fold by lia. change (256 ^ Z.of_nat 8)%Z with (2 ^ 64)%Z. rewrite Z.mod_small by lia. f_equal.
Qed.

Inductive DispatcherOp (S : Type) := OpReplace (stack : S) | OpRegister (id : Z) (stack : S) | OpUnregister (id : Z).
Arguments OpReplace {_} _.
Arguments OpRegister {_} _ _.
Arguments OpUnregister {_} _.
Definition dispatcher_op {S} (d : Dispatcher S) (op : DispatcherOp S) : Dispatcher S :=
  match op with OpReplace stack => replace_identity_stack d stack | OpRegister id stack => register_identity d id stack | OpUnregister id => unregister_identity d id end.

(** What the operations, last first, say of the main identity and of another. *)
Fixpoint main_of {S} (first : S) (ops : list (DispatcherOp S)) : S :=
  match ops with [] => first | OpReplace stack :: _ => stack | _ :: ops' => main_of first ops' end.
Fixpoint hosted {S} (id : Z) (ops : list (DispatcherOp S)) : option S :=
  match ops with
  | [] => None
  | OpRegister id' stack :: ops' => if (id' =? id)%Z then Some stack else hosted id ops'
  | OpUnregister id' :: ops' => if (id' =? id)%Z then None else hosted id ops'
  | OpReplace _ :: ops' => hosted id ops'
  end.

Lemma dispatcher_run {S} (first : S) ops id :
  let d := foldr (λ op d, dispatcher_op d op) (dispatcher_new first) ops in dp_identity_stack d = main_of first ops ∧ dp_secondary d !! id = hosted id ops.
Proof.
  cbn. induction ops as [|op ops [IHm IHs]]; [done|]. destruct op as [stack|id' stack|id']; cbn; [done|..]; (split; [done|]); destruct (Z.eqb_spec id' id) as [->|];
    first [by rewrite lookup_insert_eq|by rewrite lookup_insert_ne|by rewrite lookup_delete_eq|by rewrite lookup_delete_ne].
Qed.

(** A call reaches the identity it names.  After any operations on the dispatcher, a call to an
    identity by its id is handled by the stack that was last put in place for that identity: the
    main one's when it is the main identity, the last one registered and not unregistered
    otherwise, and it is refused when there is none, never handed to the main identity.  A
    call that names nobody goes to the main identity. *)
Theorem calls_reach_named_identity {S} `{ProstMessage WireUnicastId} (first : S) ops main_id id arm stack m :
  (0 ≤ id < 2 ^ 64)%Z →
  let d := foldr (λ op d, dispatcher_op d op) (dispatcher_new first) ops in
  dispatcher_handle d main_id (mkTypedValue "" []) (Some arm) = Ok (ByStack stack m) →
  stack = main_of first ops ∧
  dispatcher_handle d main_id (unicast_id_to_typed_value (IdentityAware (encode_identity_id id))) (Some arm) =
    if (id =? main_id)%Z then Ok (ByStack (main_of first ops) m)
    else match hosted id ops with Some stack' => Ok (ByStack stack' m) | None => Err (NoSuchIdentity id) end.
Proof.
  intros Hid d Hmain. destruct (dispatcher_run first ops id) as [Hm Hs]. fold d in Hm, Hs. clearbody d.
  assert (resolve_stack d main_id (unicast_id_to_typed_value (IdentityAware (encode_identity_id id))) =
    if (id =? main_id)%Z then Ok (main_of first ops) else ok_or (hosted id ops) (NoSuchIdentity id)) as Hr.
  { unfold resolve_stack, select_identity. rewrite (proj1 unicast_id_exact). cbn. rewrite decode_encode_identity by done. cbn. destruct (id =? main_id)%Z; cbn; [by rewrite Hm|by rewrite Hs]. }
  assert (resolve_stack d main_id (mkTypedValue "" []) = Ok (main_of first ops)) as Hz by (unfold resolve_stack, select_identity; rewrite (proj2 (proj2 unicast_id_exact)); cbn; by rewrite Hm).
  unfold dispatcher_handle in *. destruct arm; rewrite ?Hz in Hmain; cbn in Hmain; try discriminate Hmain; injection Hmain as <- <-; (split; [done|]); rewrite Hr;
    destruct (id =? main_id)%Z; try done; by destruct (hosted id ops).
Qed.

Lemma calls_reach_named_identity_witness :
  dispatcher_handle (H := ex_prost) (foldr (λ op d, dispatcher_op d op) (dispatcher_new 1) [OpRegister 7 3; OpReplace 2]) 5
    (unicast_id_to_typed_value (H := ex_prost) (IdentityAware (encode_identity_id 7))) (Some QspnSendEtp) = Ok (ByStack 3 ModQspn).
Proof. refine (proj2 (calls_reach_named_identity (H := ex_prost) 1 [OpRegister 7 3; OpReplace 2] 5 7 QspnSendEtp 2 ModQspn _ _)); [lia|vm_compute; reflexivity]. Defined.

(** ** Examples *)
Definition two_links : LinkRegistry :=
  (reg_run link_registry_new [Discover 5 "aa" "eth0"; Discover 6 "bb" "eth0"; Discover 5 "cc" "eth1"; SetArc 0 10; SetArc 1 11; SetArc 2 12]%string).1.
Definition two_paths : RouteSnapshot :=
  mkRouteSnapshot [[mkRouteEntry (mkHCoord 0 3) [mkRoutePath 11 [] (Finite 5) 1; mkRoutePath 10 [] (Finite 9) 1]]].

Lemma two_links_wf : registry_wf two_links.
Proof. pose proof (run_wf [Discover 5 "aa" "eth0"; Discover 6 "bb" "eth0"; Discover 5 "cc" "eth1"; SetArc 0 10; SetArc 1 11; SetArc 2 12]%string link_registry_new) as Hw.
  fold two_links in Hw. unfold two_links. destruct (reg_run link_registry_new _) as [lr ids]. apply Hw; [by split|cbn; lia|cbn; unfold LINK_IDS; lia]. Qed.

Lemma caller_is_oldest_link_witness :
  @link_for_caller map_order two_links (encode_caller_id 5) = Some 0%Z ∧ ∀ mac e, lr_by_mac two_links !! mac = Some e → le_neighbour_id e = 5%Z → (0 ≤ le_id e)%Z.
Proof.
  assert (@link_for_caller map_order two_links (encode_caller_id 5) = Some 0%Z) as Hl by (vm_compute; reflexivity).
  split; [exact Hl|]. pose proof (@caller_is_oldest_link map_order two_links 5 ltac:(lia)) as Hc. rewrite Hl in Hc. exact (proj2 Hc).
Defined.

Lemma gateway_avoids_failed_witness :
  @env_gateway map_order two_paths two_links {[0%Z := 100%Z; 1%Z := 101%Z]} (mkHCoord 0 3) None = Some 101%Z ∧
  @env_gateway map_order two_paths two_links {[0%Z := 100%Z; 1%Z := 101%Z]} (mkHCoord 0 3) (Some 101%Z) = Some 100%Z.
Proof.
  destruct (@gateway_avoids_failed map_order two_paths two_links {[0%Z := 100%Z; 1%Z := 101%Z]} (mkHCoord 0 3)
    (mkRouteEntry (mkHCoord 0 3) [mkRoutePath 11 [] (Finite 5) 1; mkRoutePath 10 [] (Finite 9) 1]) "bb"%string (mkLinkEntry 1 "bb" "eth0" 6 (Some 11%Z)) 101%Z two_links_wf) as (H1 & H2 & _).
  - intros l l' c H1 H2. rewrite !lookup_insert_Some, !lookup_singleton_Some in *. lia.
  - vm_compute. reflexivity.
  - vm_compute. reflexivity.
  - reflexivity.
  - split; [rewrite H2|rewrite H1]; vm_compute; reflexivity.
Defined.
