(* ===== verification/QspnWire.v ===== *)
(** * QSPN on the wire

    Models [crates/ntk-qspn/src]: [wire.rs] (ETP messages and addresses as protobuf messages in
    a [TypedValue]) and [rpc.rs] (the dispatch of the four remote methods to the actor).  The
    messages are those of [proto/qspn.proto]; their byte encoding is the class
    [ProstMessage]. *)
From stdpp Require Import strings.
From S2P Require Import Prelude Addressing Fingerprint Domain QspnPath QspnConfig QspnValidate QspnRevise QspnState QspnFlood QspnActor QspnActorSafety QspnSystem QspnActorProps QspnSystemProps QspnExample PeerWireProps.

(** ** Messages (wire.rs) *)
Record WireEtpPath := mkWireEtpPath {
  wp_hops : list WireHCoord; wp_arcs : list Z; wp_cost : option WireCost; wp_fingerprint : option WireFingerprint; wp_nodes_inside : Z; wp_ignore_outside : list bool
}.
Record WireEtpMessage := mkWireEtpMessage {
  we_node_address : option WireNaddr; we_fingerprints : list WireFingerprint; we_nodes_inside : list Z; we_hops : list WireHCoord; we_paths : list WireEtpPath
}.

Definition ETP_MESSAGE_TAG : string := "qspn.EtpMessage".
Definition NADDR_TAG : string := "qspn.Naddr".

Definition etp_path_to_wire (p : EtpPath) : WireEtpPath :=
  mkWireEtpPath (hcoord_to_wire <$> ep_hops p) (ep_arcs p) (Some (cost_to_wire (ep_cost p))) (Some (fingerprint_to_wire (ep_fingerprint p)))
    (ep_nodes_inside p) (ep_ignore_outside p).
Definition etp_path_from_wire (w : WireEtpPath) : res QspnError EtpPath :=
  hops ← mapM (λ h, map_err QspnPath.Domain (hcoord_from_wire h)) (wp_hops w);
  cost ← ok_or (wp_cost w) (MalformedEtp "EtpPath.cost is missing");
  fingerprint ← ok_or (wp_fingerprint w) (MalformedEtp "EtpPath.fingerprint is missing");
  cost ← map_err QspnPath.Domain (cost_from_wire cost);
  fingerprint ← map_err QspnPath.Domain (fingerprint_from_wire fingerprint);
  Ok (mkEtpPath hops (wp_arcs w) cost fingerprint (wp_nodes_inside w) (wp_ignore_outside w)).

Definition etp_to_wire (m : EtpMessage) : WireEtpMessage :=
  mkWireEtpMessage (Some (naddr_to_wire (em_node_address m))) (fingerprint_to_wire <$> em_fingerprints m) (em_nodes_inside m)
    (hcoord_to_wire <$> em_hops m) (etp_path_to_wire <$> em_paths m).
Definition etp_from_wire (w : WireEtpMessage) : res QspnError EtpMessage :=
  node_address ← ok_or (we_node_address w) (MalformedEtp "EtpMessage.node_address is missing");
  fingerprints ← mapM (λ f, map_err QspnPath.Domain (fingerprint_from_wire f)) (we_fingerprints w);
  hops ← mapM (λ h, map_err QspnPath.Domain (hcoord_from_wire h)) (we_hops w);
  paths ← mapM etp_path_from_wire (we_paths w);
  node_address ← map_err QspnPath.Domain (naddr_from_wire node_address);
  Ok (mkEtpMessage node_address fingerprints (we_nodes_inside w) hops paths).

Section Wire.
Context `{ProstMessage WireEtpMessage, ProstMessage WireNaddr}.

Definition encode_etp_message (m : EtpMessage) : TypedValue := typed_value ETP_MESSAGE_TAG (etp_to_wire m).
Definition decode_etp_message (tv : TypedValue) : res QspnError EtpMessage :=
  wire ← map_err QspnPath.Domain (from_typed_value tv ETP_MESSAGE_TAG); etp_from_wire wire.
Definition encode_naddr (a : Naddr) : TypedValue := typed_value NADDR_TAG (naddr_to_wire a).
Definition decode_naddr (tv : TypedValue) : res QspnError Naddr :=
  wire ← map_err QspnPath.Domain (from_typed_value tv NADDR_TAG); map_err QspnPath.Domain (naddr_from_wire wire).

(** ** Inbound calls (rpc.rs) *)
Inductive QspnRemote := RemoteNotAccepted | RemoteBootstrapInProgress | RemoteDeserialize.
Definition qspn_error_to_remote (e : QspnError) : QspnRemote :=
  match e with NotAnArc => RemoteNotAccepted | BootstrapInProgress => RemoteBootstrapInProgress | _ => RemoteDeserialize end.

(** What the polls of [resolve_arc] read until the deadline, at least once: the arc the caller
    resolves to, and the arcs of the actor when it answers. *)
Abbreviation Poll := (option ArcId * option (list ArcId))%type.
Definition resolve_poll (p : Poll) : option ArcId :=
  match p with (Some arc, Some arcs) => if contains arc arcs then Some arc else None | _ => None end.
Fixpoint resolve_arc (polls : list Poll) : option ArcId :=
  match polls with [] => None | p :: polls' => match resolve_poll p with Some arc => Some arc | None => resolve_arc polls' end end.
Definition resolve_or_reject (polls : list Poll) : res QspnRemote ArcId := ok_or (resolve_arc polls) RemoteNotAccepted.

Inductive QspnCall :=
  | CallGetFullEtp (address : TypedValue)
  | CallSendEtp (etp : option TypedValue) (is_full : bool)
  | CallGotPrepareDestroy
  | CallGotDestroy
  | CallOther.

(** What a call asks of the actor. *)
Definition qspn_dispatch (polls : list Poll) (call : QspnCall) : res QspnRemote Command :=
  match call with
  | CallGetFullEtp tv => arc ← resolve_or_reject polls; requesting ← map_err qspn_error_to_remote (decode_naddr tv); Ok (GetFullEtp arc requesting)
  | CallSendEtp etp is_full =>
      arc ← resolve_or_reject polls; tv ← ok_or etp RemoteDeserialize; m ← map_err qspn_error_to_remote (decode_etp_message tv); Ok (SendEtp arc m is_full)
  | CallGotPrepareDestroy => Ok GotPrepareDestroy
  | CallGotDestroy => arc ← resolve_or_reject polls; Ok (GotDestroy arc)
  | CallOther => Err RemoteDeserialize
  end.
(** What the caller is answered: [None] is the empty payload. *)
Definition qspn_response (answer : Answer) : res QspnRemote (option TypedValue) :=
  match answer with
  | AEtp (inr m) => Ok (Some (encode_etp_message m))
  | AEtp (inl e) | ADone (inl e) => Err (qspn_error_to_remote e)
  | _ => Ok None
  end.
End Wire.





(** ** There and back *)
Definition level_fits (l : nat) : Prop := (Z.of_nat l ≤ U64_MAX)%Z.
Definition path_fits (p : EtpPath) : Prop := Forall (λ h, level_fits (hc_level h)) (ep_hops p) ∧ level_fits (fp_level (ep_fingerprint p)).
Definition etp_fits (m : EtpMessage) : Prop :=
  Forall (λ f, level_fits (fp_level f)) (em_fingerprints m) ∧ Forall (λ h, level_fits (hc_level h)) (em_hops m) ∧ Forall path_fits (em_paths m).

Lemma hops_back (l : list HCoord) : Forall (λ h, level_fits (hc_level h)) l → mapM (λ h, map_err QspnPath.Domain (hcoord_from_wire h)) (hcoord_to_wire <$> l) = Ok l.
Proof. intros Hl. apply mapM_back. eapply Forall_impl; [exact Hl|]. intros h Hh. cbn. by rewrite hcoord_wire_roundtrip. Qed.

Lemma etp_path_back p : path_typed p → path_fits p → etp_path_from_wire (etp_path_to_wire p) = Ok p.
Proof.
  intros (_ & Hc & Hf & _) [Hh Hl]. unfold etp_path_from_wire, etp_path_to_wire. cbn [wp_hops wp_cost wp_fingerprint wp_arcs wp_nodes_inside wp_ignore_outside]. rewrite hops_back by done. cbn [mbind res_bind ok_or].
  rewrite cost_wire_roundtrip. cbn [mbind res_bind ok_or map_err]. rewrite fingerprint_wire_roundtrip by done. by destruct p.
Qed.

Lemma etp_back m : message_typed m → etp_fits m → etp_from_wire (etp_to_wire m) = Ok m.
Proof.
  intros (Ha & Hf & _ & Hp) (Lf & Lh & Lp). unfold etp_from_wire, etp_to_wire. cbn [we_node_address we_fingerprints we_hops we_paths we_nodes_inside ok_or]. cbn [mbind res_bind].
  rewrite (mapM_back (λ f, map_err QspnPath.Domain (fingerprint_from_wire f)) fingerprint_to_wire).
  2:{ apply Forall_forall. intros f Hin. cbn beta. rewrite fingerprint_wire_roundtrip; [done|by apply (proj1 (Forall_forall _ _) Hf)|by apply (proj1 (Forall_forall _ _) Lf)]. }
  cbn [mbind res_bind]. rewrite hops_back by done. cbn [mbind res_bind].
  rewrite (mapM_back etp_path_from_wire etp_path_to_wire). 2:{ apply Forall_forall. intros p Hin. apply etp_path_back; [by apply (proj1 (Forall_forall _ _) Hp)|by apply (proj1 (Forall_forall _ _) Lp)]. }
  cbn [mbind res_bind]. rewrite naddr_wire_roundtrip by done. by destruct m.
Qed.

Lemma hops_valid_levels t lo hops : hops_valid_from t lo hops → Forall (λ h, hc_level h < topology_levels t) hops.
Proof. revert lo. induction hops as [|h hops IH]; intros lo; cbn; [intros; apply Forall_nil_2|]. intros (_ & Hl & _ & Hr). apply Forall_cons_2; [done|by eapply IH]. Qed.

Lemma valid_fits t m : message_valid t m → level_fits (topology_levels t) → etp_fits m.
Proof.
  intros (Hh & Hlen & Hlev & Hp) Ht. assert (∀ l, l ≤ topology_levels t → level_fits l) as Hle by (unfold level_fits in *; lia).
  assert (∀ hops, hops_valid t hops → Forall (λ h, level_fits (hc_level h)) hops) as Hhops.
  { intros hops Hv%hops_valid_levels. eapply Forall_impl; [exact Hv|]. intros h Hl. cbn in *. apply Hle. lia. }
  split_and!; [|by apply Hhops|].
  - apply Forall_lookup. intros i f Hf. rewrite (Hlev _ _ Hf). apply Hle. apply lookup_lt_Some in Hf. lia.
  - eapply Forall_impl; [exact Hp|]. intros p (h & _ & _ & Hl & _ & Hfl & _ & Hv). split; [by apply Hhops|]. rewrite Hfl. apply Hle. lia.
Qed.







Section Remote.
Context `{ProstMessage WireEtpMessage, ProstMessage WireNaddr}.
Variables (calculate_threshold : RoutePath → RoutePath → Z) (t : Topology).

Lemma etp_wire_back m : message_typed m → etp_fits m → decode_etp_message (encode_etp_message m) = Ok m.
Proof. intros Ht Hf. unfold decode_etp_message, encode_etp_message. rewrite from_typed_value_typed_value. cbn [map_err mbind res_bind]. by apply etp_back. Qed.

Lemma dispatch_send polls arc m full :
  resolve_arc polls = Some arc → message_typed m → etp_fits m → qspn_dispatch polls (CallSendEtp (Some (encode_etp_message m)) full) = Ok (SendEtp arc m full).
Proof. intros Ha Ht Hf. unfold qspn_dispatch, resolve_or_reject. rewrite Ha. cbn [ok_or mbind res_bind]. by rewrite etp_wire_back. Qed.






(** C36: A flooded message crosses the wire.  A message that waits to be sent by one node, with real
    positions in its hops, is decoded by a neighbour as it was encoded, dispatched on the arc
    its caller resolves to, passes the neighbour's check, and is handled without a panic. *)
Theorem etp_crosses_wire `{HashOrder} sender tk m receiver polls arc full :
  reachable calculate_threshold t sender → tk ∈ sy_tasks sender →
  (∃ arcs full, tk = TBroadcast arcs m full) ∨ (∃ arc full, tk = TUnicast arc m full ∨ tk = TResend arc m full) →
  hops_real t (em_hops m) → Forall (λ p, hops_real t (ep_hops p)) (em_paths m) → level_fits (topology_levels t) →
  reachable calculate_threshold t receiver → em_node_address m ≠ st_my_naddr (ac_state (sy_actor receiver)) → resolve_arc polls = Some arc →
  qspn_dispatch polls (CallSendEtp (Some (encode_etp_message m)) full) = Ok (SendEtp arc m full) ∧
  check_incoming_message m (st_my_naddr (ac_state (sy_actor receiver))) = Ok true ∧
  ∃ ac' es, handle calculate_threshold (SendEtp arc m full) (sy_actor receiver) = Ok (ac', es, tt).
Proof.
  intros Hs Hin Htk Hh Hp Hl Hr Hne Harc. pose proof (reachable_wf _ _ _ Hs) as [_ Hts _ _ _]. rewrite Forall_forall in Hts. specialize (Hts _ Hin).
  assert (msg_ok t m) as Hm by (destruct Htk as [(? & ? & ->)|(? & ? & [->| ->])]; exact Hts).
  assert (qspn_dispatch polls (CallSendEtp (Some (encode_etp_message m)) full) = Ok (SendEtp arc m full)) as Hd.
  { apply dispatch_send; [done|apply Hm|]. eapply valid_fits; [by apply (mo_valid _ _ Hm)|done]. }
  pose proof (reachable_wf _ _ _ Hr) as [Hi _ _ _ _]. split; [done|]. split.
  - apply (msg_ok_accepted t); [done|apply (sw_naddr _ (inv_wf _ _ Hi))|by apply inv_topology|congruence|done|done].
  - destruct (handle_safe calculate_threshold t (SendEtp arc m full) (sy_actor receiver) Hi (mo_typed _ _ Hm)) as (ac' & es & [] & Hh' & _). by exists ac', es.
Qed.
End Remote.

(** ** Examples *)
#[local] Existing Instances WireHCoord_eq_dec WireHCoord_countable map_order.
#[local] Instance WireTopology_eq_dec : EqDecision WireTopology.
Proof. solve_decision. Defined.
#[local] Instance WireTopology_countable : Countable WireTopology.
Proof. by apply (inj_countable' wt_gsizes mkWireTopology); intros []. Defined.
#[local] Instance WireNaddr_eq_dec : EqDecision WireNaddr.
Proof. solve_decision. Defined.
#[local] Instance WireNaddr_countable : Countable WireNaddr.
Proof. by apply (inj_countable' (λ w, (wn_topology w, wn_pos w)) (λ p, mkWireNaddr p.1 p.2)); intros []. Defined.
#[local] Instance WireCostValue_eq_dec : EqDecision WireCostValue.
Proof. solve_decision. Defined.
#[local] Instance WireCostValue_countable : Countable WireCostValue.
Proof.
  by apply (inj_countable' (λ w, match w with WNull b => (0, b, 0%Z) | WFinite v => (1, false, v) | WDead b => (2, b, 0%Z) end)
    (λ p, match p with (0, b, _) => WNull b | (1, _, v) => WFinite v | (_, b, _) => WDead b end)); intros [].
Defined.
#[local] Instance WireCost_eq_dec : EqDecision WireCost.
Proof. solve_decision. Defined.
#[local] Instance WireCost_countable : Countable WireCost.
Proof. by apply (inj_countable' wc_value mkWireCost); intros []. Defined.
#[local] Instance WireOptionalEldership_eq_dec : EqDecision WireOptionalEldership.
Proof. solve_decision. Defined.
#[local] Instance WireOptionalEldership_countable : Countable WireOptionalEldership.
Proof. by apply (inj_countable' wo_value mkWireOptionalEldership); intros []. Defined.
#[local] Instance WireFingerprint_eq_dec : EqDecision WireFingerprint.
Proof. solve_decision. Defined.
#[local] Instance WireFingerprint_countable : Countable WireFingerprint.
Proof.
  by apply (inj_countable' (λ w, (wf_id w, wf_level w, wf_eldership w, wf_pending_elderships w, wf_elderships_seed w))
    (λ '(i, l, e, p, s), mkWireFingerprint i l e p s)); intros [].
Defined.
#[local] Instance WireEtpPath_eq_dec : EqDecision WireEtpPath.
Proof. solve_decision. Defined.
#[local] Instance WireEtpPath_countable : Countable WireEtpPath.
Proof.
  by apply (inj_countable' (λ w, (wp_hops w, wp_arcs w, wp_cost w, wp_fingerprint w, wp_nodes_inside w, wp_ignore_outside w))
    (λ '(h, a, c, f, n, i), mkWireEtpPath h a c f n i)); intros [].
Defined.
#[local] Instance WireEtpMessage_eq_dec : EqDecision WireEtpMessage.
Proof. solve_decision. Defined.
#[local] Instance WireEtpMessage_countable : Countable WireEtpMessage.
Proof.
  by apply (inj_countable' (λ w, (we_node_address w, we_fingerprints w, we_nodes_inside w, we_hops w, we_paths w)) (λ '(a, f, n, h, p), mkWireEtpMessage a f n h p)); intros [].
Defined.
#[local] Instance etp_prost : ProstMessage WireEtpMessage := toy_prost 1.
#[local] Instance naddr_prost : ProstMessage WireNaddr := toy_prost 2.


(** Another node of the example's topology. *)
Definition ex_other : Sys :=
  match state_new ex_peer (ex_fp 2 0) qspn_config_default with
  | Ok s => match spawn_bootstrap_and_periodic (mkActor s None) with Ok (ac, es, _) => mkSys ac (spawned es) | _ => ex_sys0 end
  | _ => ex_sys0
  end.
Lemma ex_other_reachable : reachable ex_threshold ex_topology ex_other.
Proof.
  apply reach_init. assert (∃ s ac es, state_new ex_peer (ex_fp 2 0) qspn_config_default = Ok s ∧ spawn_bootstrap_and_periodic (mkActor s None) = Ok (ac, es, tt) ∧ ex_other = mkSys ac (spawned es))
    as (s & ac & es & Hs & Hb & ->) by (eexists _, _, _; split_and!; [vm_compute; reflexivity|vm_compute; reflexivity|vm_compute; reflexivity]).
  eapply (init_create ex_topology ex_peer (ex_fp 2 0) qspn_config_default s ac es); [apply ex_peer_wf|reflexivity|by apply ex_fp_wf, ex_u32|reflexivity|apply ex_config_u64|vm_compute; lia|exact Hs|exact Hb].
Qed.


Lemma etp_crosses_wire_witness :
  ∃ m, TBroadcast [7]%Z m true ∈ sy_tasks ex_sys3 ∧
    qspn_dispatch [(None, None); (Some 9%Z, Some [9%Z])] (CallSendEtp (Some (encode_etp_message m)) true) = Ok (SendEtp 9 m true).
Proof.
  assert (∃ m, sy_tasks ex_sys3 !! 2 = Some (TBroadcast [7]%Z m true) ∧ em_hops m = [] ∧ em_paths m = [] ∧ em_node_address m = ex_my)
    as (m & Hm & Hh & Hp & Ha) by (vm_compute; eexists; split_and!; reflexivity).
  exists m. apply list_elem_of_lookup_2 in Hm. split; [exact Hm|].
  assert (reachable ex_threshold ex_topology ex_other) as Hother by exact ex_other_reachable.
  refine (proj1 (etp_crosses_wire ex_threshold ex_topology ex_sys3 (TBroadcast [7]%Z m true) m ex_other [(None, None); (Some 9%Z, Some [9%Z])] 9 true ex_sys3_reachable Hm _ _ _ _ Hother _ eq_refl)).
  - left. by exists [7]%Z, true.
  - rewrite Hh. by intros ? ?%elem_of_nil.
  - rewrite Hp. apply Forall_nil_2.
  - vm_compute. discriminate.
  - rewrite Ha. discriminate.
Defined.
