(* ===== verification/HookRouting.v ===== *)
(** * Hooking: messages between g-nodes

    Models [crates/ntk-hooking/src/routing.rs]: the eight [route_*] handlers, which hand a
    message to this node when it is a member of the g-node the message is for and to the gateway
    toward that g-node otherwise, and the outgoing requests of [SearchRouter], which wait for the
    answer under a packet id.  A oneshot channel is a number; the stub that
    [HookingStubFactory::gateway_stub] gives is the node behind it. *)
From S2P Require Import Prelude Addressing HookDomain HookSearch.

Inductive RouteMsg :=
  | RouteSearchRequest (req : SearchMigrationPathRequest)
  | RouteSearchError (pkt : SearchMigrationPathErrorPkt)
  | RouteSearchResponse (resp : SearchMigrationPathResponse)
  | RouteExploreRequest (req : ExploreGNodeRequest)
  | RouteExploreResponse (resp : ExploreGNodeResponse)
  | RouteDeleteReserveRequest (req : DeleteReservationRequest)
  | RouteMigRequest (req : RequestPacket)
  | RouteMigResponse (resp : ResponsePacket).

(** The senders of the answers waited for, by packet id. *)
Record PendingReplies := mkPendingReplies { pd_search : gmap Z nat; pd_explore : gmap Z nat; pd_mig : gmap Z nat }.
Definition no_replies : PendingReplies := mkPendingReplies ∅ ∅ ∅.
Definition set_pd_search (p : PendingReplies) (m : gmap Z nat) : PendingReplies := mkPendingReplies m (pd_explore p) (pd_mig p).
Definition set_pd_explore (p : PendingReplies) (m : gmap Z nat) : PendingReplies := mkPendingReplies (pd_search p) m (pd_mig p).
Definition set_pd_mig (p : PendingReplies) (m : gmap Z nat) : PendingReplies := mkPendingReplies (pd_search p) (pd_explore p) m.

(** What a node's message routing reads of its surroundings: its view, its gateways, and what
    its coordinator answers to a reservation. *)
Record MessageRouting (N : Type) := mkRouting {
  mr_view : QspnView;
  mr_gateway_stub : HCoord → option N;
  mr_reserve : Z → nat → option Reservation
}.
Arguments mkRouting {_} _ _ _.
Arguments mr_view {_} _.
Arguments mr_gateway_stub {_} _ _.
Arguments mr_reserve {_} _ _ _.

Inductive RouteEffect :=
  | ReplySearch (tx : nat) (r : option SearchMigrationPathResponse)
  | ReplyExplore (tx : nat) (result : HookTuple)
  | ReplyMig (tx : nat)
  | CallCoordinator (c : CoordCall).

(** A handler leaves the senders, has effects, and ends with at most one call of a gateway. *)
Abbreviation Routed N := (PendingReplies * list RouteEffect * option (N * RouteMsg))%type.
(** A request is over, [None] with a [RoutingError], or was handed to a gateway. *)
Inductive Sent (N A : Type) :=
  | Finished (r : option A)
  | Awaiting (stub : N) (m : RouteMsg).
Arguments Finished {_ _} _.
Arguments Awaiting {_ _} _ _.

Section Node.
Context {N : Type} (r : MessageRouting N).

Definition gateway_for (tuple : HookTuple) : option N := hc ← tuple_to_hc tuple (mr_view r); mr_gateway_stub r hc.
Definition my_tuple : HookTuple := make_tuple_from_level 0 (mr_view r).
Definition forward (tuple : HookTuple) (m : RouteMsg) : option (N * RouteMsg) := (λ stub, (stub, m)) <$> gateway_for tuple.

(** ** Inbound *)
Definition route_search_error (p : PendingReplies) (pkt : SearchMigrationPathErrorPkt) : Routed N :=
  if i_am_inside (sx_origin pkt) (mr_view r) then
    match pd_search p !! sx_pkt_id pkt with
    | Some tx => (set_pd_search p (delete (sx_pkt_id pkt) (pd_search p)), [ReplySearch tx None], None)
    | None => (p, [], None)
    end
  else (p, [], forward (sx_origin pkt) (RouteSearchError pkt)).

Definition route_search_response (p : PendingReplies) (resp : SearchMigrationPathResponse) : Routed N :=
  if i_am_inside (sp_origin resp) (mr_view r) then
    match pd_search p !! sp_pkt_id resp with
    | Some tx => (set_pd_search p (delete (sp_pkt_id resp) (pd_search p)), [ReplySearch tx (Some resp)], None)
    | None => (p, [], None)
    end
  else (p, [], forward (sp_origin resp) (RouteSearchResponse resp)).

Definition deliver_search_response (p : PendingReplies) (origin : HookTuple) (pkt_id : Z) (result : SearchStepResult) : Routed N :=
  route_search_response p (mkSearchResponse pkt_id origin (ss_min_host_lvl result) (ss_set_adjacent result) (ss_final_host_lvl result)
    (ss_real_new_pos result) (ss_real_new_eldership result) (ss_new_conn_vir_pos result) (ss_new_eldership result)).

Definition route_search_request (p : PendingReplies) (req : SearchMigrationPathRequest) : Routed N :=
  match last (sq_path_hops req) with
  | None => (p, [], None)
  | Some hop =>
      let target := ph_visiting_gnode hop in
      if i_am_inside target (mr_view r) then
        match execute_search (mr_view r) (mr_reserve r (sq_reserve_request_id req)) target (sq_max_host_lvl req) with
        | Some result => deliver_search_response p (sq_origin req) (sq_pkt_id req) result
        | None => (p, [], None)
        end
      else (p, [], forward target (RouteSearchRequest req))
  end.

Definition route_explore_response (p : PendingReplies) (resp : ExploreGNodeResponse) : Routed N :=
  if i_am_inside (xp_origin resp) (mr_view r) then
    match pd_explore p !! xp_pkt_id resp with
    | Some tx => (set_pd_explore p (delete (xp_pkt_id resp) (pd_explore p)), [ReplyExplore tx (xp_result resp)], None)
    | None => (p, [], None)
    end
  else (p, [], forward (xp_origin resp) (RouteExploreResponse resp)).

Definition route_explore_request (p : PendingReplies) (req : ExploreGNodeRequest) : Routed N :=
  match last (xq_path_hops req) with
  | None => (p, [], None)
  | Some hop =>
      let target := ph_visiting_gnode hop in
      if i_am_inside target (mr_view r)
      then route_explore_response p (mkExploreResponse (xq_pkt_id req) (xq_origin req) (execute_explore (xq_requested_lvl req) (mr_view r)))
      else (p, [], forward target (RouteExploreRequest req))
  end.

Definition route_delete_reserve_request (p : PendingReplies) (req : DeleteReservationRequest) : Routed N :=
  if i_am_inside (dr_dest_gnode req) (mr_view r)
  then (p, [CallCoordinator (execute_delete_reserve (mr_view r) (dr_dest_gnode req) (dr_reserve_request_id req))], None)
  else (p, [], forward (dr_dest_gnode req) (RouteDeleteReserveRequest req)).

Definition route_mig_response (p : PendingReplies) (resp : ResponsePacket) : Routed N :=
  if i_am_inside (rs_dest resp) (mr_view r) then
    match pd_mig p !! rs_pkt_id resp with
    | Some tx => (set_pd_mig p (delete (rs_pkt_id resp) (pd_mig p)), [ReplyMig tx], None)
    | None => (p, [], None)
    end
  else (p, [], forward (rs_dest resp) (RouteMigResponse resp)).

Definition route_mig_request (p : PendingReplies) (req : RequestPacket) : Routed N :=
  if i_am_inside (rp_dest req) (mr_view r) then
    let '(p', es, next) := route_mig_response p (mkResponsePacket (rp_pkt_id req) (rp_src req)) in
    (p', option_list (CallCoordinator <$> execute_mig (mr_view r) req) ++ es, next)
  else (p, [], forward (rp_dest req) (RouteMigRequest req)).

(** ** Outbound (impl SearchRouter) *)
Definition send_search_request (p : PendingReplies) (pkt_id : Z) (tx : nat) (path_hops : list PathHop) (max_host_lvl : nat) (reserve_request_id : Z)
    : PendingReplies * Sent N SearchStepResult :=
  match last path_hops with
  | None => (p, Finished None)
  | Some hop =>
      let target := ph_visiting_gnode hop in
      if i_am_inside target (mr_view r) then (p, Finished (execute_search (mr_view r) (mr_reserve r reserve_request_id) target max_host_lvl))
      else
        let p1 := set_pd_search p (<[pkt_id := tx]> (pd_search p)) in
        match gateway_for target with
        | None => (set_pd_search p1 (delete pkt_id (pd_search p1)), Finished None)
        | Some stub => (p1, Awaiting stub (RouteSearchRequest (mkSearchRequest pkt_id my_tuple my_tuple path_hops max_host_lvl reserve_request_id)))
        end
  end.

Definition send_explore_request (p : PendingReplies) (pkt_id : Z) (tx : nat) (path_hops : list PathHop) (requested_lvl : nat)
    : PendingReplies * Sent N HookTuple :=
  match last path_hops with
  | None => (p, Finished None)
  | Some hop =>
      let target := ph_visiting_gnode hop in
      if i_am_inside target (mr_view r) then (p, Finished (Some (execute_explore requested_lvl (mr_view r))))
      else
        let p1 := set_pd_explore p (<[pkt_id := tx]> (pd_explore p)) in
        match gateway_for target with
        | None => (set_pd_explore p1 (delete pkt_id (pd_explore p1)), Finished None)
        | Some stub => (p1, Awaiting stub (RouteExploreRequest (mkExploreRequest pkt_id my_tuple path_hops requested_lvl)))
        end
  end.

(** The coordinator call or the forwarded request of the task it spawns. *)
Definition send_delete_reserve_request (dest_gnode : HookTuple) (reserve_request_id : Z) : list RouteEffect * option (N * RouteMsg) :=
  if i_am_inside dest_gnode (mr_view r) then ([CallCoordinator (execute_delete_reserve (mr_view r) dest_gnode reserve_request_id)], None)
  else ([], forward dest_gnode (RouteDeleteReserveRequest (mkDeleteReserve dest_gnode reserve_request_id))).

Definition stamped (packet : RequestPacket) (pkt_id : Z) : RequestPacket :=
  mkRequestPacket pkt_id (rp_dest packet) my_tuple (rp_operation packet) (rp_migration_id packet) (rp_conn_gnode_pos packet)
    (rp_host_gnode packet) (rp_real_new_pos packet) (rp_real_new_eldership packet).
Definition send_mig_request (p : PendingReplies) (pkt_id : Z) (tx : nat) (packet : RequestPacket)
    : PendingReplies * list RouteEffect * Sent N unit :=
  if i_am_inside (rp_dest packet) (mr_view r)
  then (p, option_list (CallCoordinator <$> execute_mig (mr_view r) packet), Finished (Some tt))
  else
    let p1 := set_pd_mig p (<[pkt_id := tx]> (pd_mig p)) in
    match gateway_for (rp_dest packet) with
    | None => (set_pd_mig p1 (delete pkt_id (pd_mig p1)), [], Finished None)
    | Some stub => (p1, [], Awaiting stub (RouteMigRequest (stamped packet pkt_id)))
    end.

(** The end of a request: whether the gateway took it, and what came through the channel before
    the time ran out. *)
Definition step_of_response (resp : SearchMigrationPathResponse) : SearchStepResult :=
  mkStepResult (sp_min_host_lvl resp) (sp_final_host_lvl resp) (sp_real_new_pos resp) (sp_real_new_eldership resp) (sp_set_adjacent resp)
    (sp_new_conn_vir_pos resp) (sp_new_eldership resp).
Definition finish_search (p : PendingReplies) (pkt_id : Z) (sent : bool) (reply : option (option SearchMigrationPathResponse))
    : PendingReplies * option SearchStepResult :=
  match sent, reply with
  | true, Some (Some resp) => (p, Some (step_of_response resp))
  | _, _ => (set_pd_search p (delete pkt_id (pd_search p)), None)
  end.
Definition finish_explore (p : PendingReplies) (pkt_id : Z) (sent : bool) (reply : option HookTuple) : PendingReplies * option HookTuple :=
  match sent, reply with
  | true, Some result => (p, Some result)
  | _, _ => (set_pd_explore p (delete pkt_id (pd_explore p)), None)
  end.
Definition finish_mig (p : PendingReplies) (pkt_id : Z) (sent : bool) (reply : option unit) : PendingReplies * option unit :=
  match sent, reply with
  | true, Some _ => (p, Some tt)
  | _, _ => (set_pd_mig p (delete pkt_id (pd_mig p)), None)
  end.

(** The inbound call of each message. *)
Definition route_msg (p : PendingReplies) (m : RouteMsg) : Routed N :=
  match m with
  | RouteSearchRequest req => route_search_request p req
  | RouteSearchError pkt => route_search_error p pkt
  | RouteSearchResponse resp => route_search_response p resp
  | RouteExploreRequest req => route_explore_request p req
  | RouteExploreResponse resp => route_explore_response p resp
  | RouteDeleteReserveRequest req => route_delete_reserve_request p req
  | RouteMigRequest req => route_mig_request p req
  | RouteMigResponse resp => route_mig_response p resp
  end.
End Node.
