(* ===== verification/HookRoutingProps.v ===== *)
(** * Hooking messages across a network

    [carry] runs a message through the nodes of a network, each hop the handler of
    [HookRouting] on the node the gateway of the last one names.  An exchange is a request of
    [SearchRouter] with the calls it leads to and the answer that comes back.  Theorems: an
    exchange is the local operation of a member of the g-node asked; answers never cross between
    requests. *)
From S2P Require Import Prelude Addressing HookDomain HookSearch HookRouting.

Section Network.
Context {Node : Type} `{Countable Node} (env : Node → MessageRouting Node).
Abbreviation Net := (gmap Node PendingReplies).
Abbreviation view n := (mr_view (env n)).

(** A call of a node that does not run fails; the handlers ignore it. *)
Fixpoint carry (fuel : nat) (net : Net) (n : Node) (m : RouteMsg) : option (Net * list (Node * RouteEffect)) :=
  match fuel with
  | 0 => None
  | S fuel' =>
      match net !! n with
      | None => Some (net, [])
      | Some p =>
          let '(p', es, next) := route_msg (env n) p m in
          let net' := <[n := p']> net in
          match next with
          | None => Some (net', (λ e, (n, e)) <$> es)
          | Some (n', m') => '(net'', es') ← carry fuel' net' n' m'; Some (net'', ((λ e, (n, e)) <$> es) ++ es')
          end
      end
  end.

(** The first value a channel of node [o] got. *)
Definition reply_of {A} (f : RouteEffect → option A) (o : Node) (es : list (Node * RouteEffect)) : option A :=
  foldr (λ ne acc, if bool_decide (ne.1 = o) then match f ne.2 with Some a => Some a | None => acc end else acc) None es.
Definition search_reply (tx : nat) (e : RouteEffect) : option (option SearchMigrationPathResponse) :=
  match e with ReplySearch tx' r => if tx' =? tx then Some r else None | _ => None end.
Definition explore_reply (tx : nat) (e : RouteEffect) : option HookTuple :=
  match e with ReplyExplore tx' g => if tx' =? tx then Some g else None | _ => None end.
Definition mig_reply (tx : nat) (e : RouteEffect) : option unit :=
  match e with ReplyMig tx' => if tx' =? tx then Some tt else None | _ => None end.

(** A whole request: sent, carried, answered, finished. *)
Section Exchange.
Context {A B : Type} (reply : RouteEffect → option B) (finish : PendingReplies → bool → option B → PendingReplies * option A).
Definition exchange (fuel : nat) (net : Net) (o : Node) (sent : PendingReplies * list RouteEffect * Sent Node A)
    : option (Net * list (Node * RouteEffect) * option A) :=
  let '(p, es, s) := sent in
  let here := (λ e, (o, e)) <$> es in
  match s with
  | Finished a => Some (<[o := p]> net, here, a)
  | Awaiting stub m =>
      '(net', es') ← carry fuel (<[o := p]> net) stub m;
      p' ← net' !! o;
      let '(p'', a) := finish p' (bool_decide (is_Some (net !! stub))) (reply_of reply o es') in
      Some (<[o := p'']> net', here ++ es', a)
  end.
End Exchange.

Definition search_exchange (fuel : nat) (net : Net) (o : Node) (pkt_id : Z) (tx : nat) (path_hops : list PathHop) (max_host_lvl : nat) (reserve_request_id : Z)
    : option (Net * list (Node * RouteEffect) * option SearchStepResult) :=
  p ← net !! o;
  let '(p', s) := send_search_request (env o) p pkt_id tx path_hops max_host_lvl reserve_request_id in
  exchange (search_reply tx) (λ p, finish_search p pkt_id) fuel net o (p', [], s).
Definition explore_exchange (fuel : nat) (net : Net) (o : Node) (pkt_id : Z) (tx : nat) (path_hops : list PathHop) (requested_lvl : nat)
    : option (Net * list (Node * RouteEffect) * option HookTuple) :=
  p ← net !! o;
  let '(p', s) := send_explore_request (env o) p pkt_id tx path_hops requested_lvl in
  exchange (explore_reply tx) (λ p, finish_explore p pkt_id) fuel net o (p', [], s).
Definition mig_exchange (fuel : nat) (net : Net) (o : Node) (pkt_id : Z) (tx : nat) (packet : RequestPacket)
    : option (Net * list (Node * RouteEffect) * option unit) :=
  p ← net !! o; exchange (mig_reply tx) (λ p, finish_mig p pkt_id) fuel net o (send_mig_request (env o) p pkt_id tx packet).

(** ** What QSPN promises of gateways

    Inside the g-node of a node and a destination g-node that has members, the gateway toward
    the destination runs, is in that g-node too, and is closer to the destination or in it. *)
Definition gnode_member (nodes : gset Node) (t : HookTuple) (k : Node) : Prop := k ∈ nodes ∧ i_am_inside t (view k) = true.
Class Gateways (nodes : gset Node) (topology : Topology) (dist : Node → list Z → nat) : Prop := {
  gw_topology n : n ∈ nodes → v_topology (view n) = topology;
  gw_address n n' : n ∈ nodes → gnode_member nodes (my_tuple (env n)) n' → n' = n;
  gw_progress n hc k :
    n ∈ nodes → hc_level hc < topology_levels topology → v_my_pos (view n) (hc_level hc) ≠ hc_pos hc →
    gnode_member nodes (make_tuple_from_hc hc (view n)) k →
    ∃ n', mr_gateway_stub (env n) hc = Some n' ∧ gnode_member nodes (make_tuple_from_level (S (hc_level hc)) (view n)) n' ∧
      (i_am_inside (make_tuple_from_hc hc (view n)) (view n') = true ∨
       dist n' (ht_pos (make_tuple_from_hc hc (view n))) < dist n (ht_pos (make_tuple_from_hc hc (view n))))
}.

(** ** Forwarding *)
Definition msg_destination (m : RouteMsg) : option HookTuple :=
  match m with
  | RouteSearchRequest req => ph_visiting_gnode <$> last (sq_path_hops req)
  | RouteSearchError pkt => Some (sx_origin pkt)
  | RouteSearchResponse resp => Some (sp_origin resp)
  | RouteExploreRequest req => ph_visiting_gnode <$> last (xq_path_hops req)
  | RouteExploreResponse resp => Some (xp_origin resp)
  | RouteDeleteReserveRequest req => Some (dr_dest_gnode req)
  | RouteMigRequest req => Some (rp_dest req)
  | RouteMigResponse resp => Some (rs_dest resp)
  end.

Lemma route_outside n p m t : msg_destination m = Some t → i_am_inside t (view n) = false → route_msg (env n) p m = (p, [], forward (env n) t m).
Proof.
  intros Hd Hi. destruct m; cbn in Hd |- *; unfold route_search_request, route_search_error, route_search_response, route_explore_request,
    route_explore_response, route_delete_reserve_request, route_mig_request, route_mig_response;
    try (destruct (last _) as [hop|]; [|done]); cbn in Hd; injection Hd as <-; cbn zeta; by rewrite Hi.
Qed.

Lemma share_above v v' l i :
  v_levels v' = v_levels v → i_am_inside (make_tuple_from_level (S l) v) v' = true → l < i < v_levels v → v_my_pos v' i = v_my_pos v i.
Proof.
  intros Hlv Hin Hi. rewrite inside_pointwise in Hin by (cbn; rewrite length_fmap, length_seq; lia).
  assert (ht_pos (make_tuple_from_level (S l) v) !! (i - S l) = Some (v_my_pos v i)) as Hp.
  { cbn. rewrite list_lookup_fmap. rewrite (proj2 (lookup_seq (S l) (v_levels v - S l) (i - S l) i)); [done|lia]. }
  apply Hin in Hp. rewrite <-Hp. f_equal. cbn. rewrite length_fmap, length_seq. lia.
Qed.

Lemma hc_positions_kept v v' h :
  v_levels v' = v_levels v → i_am_inside (make_tuple_from_level (S (hc_level h)) v) v' = true →
  ht_pos (make_tuple_from_hc h v') = ht_pos (make_tuple_from_hc h v).
Proof.
  intros Hlv Hin. cbn. rewrite Hlv. f_equal. apply list_fmap_ext. intros i j Hj%lookup_seq. eapply share_above; [done|done|lia].
Qed.

Lemma joins_gnode v v' h :
  v_levels v' = v_levels v → hc_level h < v_levels v → i_am_inside (make_tuple_from_level (S (hc_level h)) v) v' = true → v_my_pos v' (hc_level h) = hc_pos h →
  i_am_inside (make_tuple_from_hc h v) v' = true.
Proof.
  intros Hlv Hl Hin He. apply inside_pointwise; [cbn; rewrite length_fmap, length_seq; lia|]. cbn [ht_pos make_tuple_from_hc length]. rewrite length_fmap, length_seq, Hlv.
  intros [|j] p; rewrite lookup_cons; [intros [= <-]; rewrite <-He; f_equal; lia|]. rewrite list_lookup_fmap. intros (i & [-> Hi]%lookup_seq & ->)%fmap_Some.
  rewrite <-(share_above v v' (hc_level h) (S (hc_level h) + j)) by (done || lia). f_equal. lia.
Qed.

(** Two nodes of one g-node see the same divergence from a target outside of what they share. *)
Lemma divergence_kept t v v' h :
  v_topology v' = v_topology v → tuple_to_hc t v = Some h → i_am_inside (make_tuple_from_level (S (hc_level h)) v) v' = true →
  v_my_pos v' (hc_level h) ≠ hc_pos h → tuple_to_hc t v' = Some h.
Proof.
  intros Ht Hh Hin Hne. assert (v_levels v' = v_levels v) as Hlv by (unfold v_levels; by rewrite Ht).
  pose proof Hh as (Hl & k & Hk & Hlev & Hd & Hab)%tuple_to_hc_Some. pose proof (lookup_lt_Some _ _ _ Hk) as Hkl.
  pose proof (λ i, share_above _ _ _ i Hlv Hin) as Hshare.
  destruct (tuple_to_hc t v') as [h'|] eqn:Hh'.
  2:{ apply tuple_to_hc_None in Hh' as [He|[?|Hi]]; [by rewrite He in Hk|lia|]. destruct Hne. rewrite inside_pointwise in Hi by lia.
      rewrite <-(Hi _ _ Hk). f_equal. lia. }
  apply tuple_to_hc_Some in Hh' as (_ & k' & Hk' & Hlev' & Hd' & Hab'). rewrite Hlv in Hlev', Hab'. pose proof (lookup_lt_Some _ _ _ Hk') as Hkl'.
  destruct (lt_eq_lt_dec k' k) as [[Hlt|<-]|Hgt].
  - destruct Hne. rewrite Hlev. by apply Hab'.
  - f_equal. destruct h as [lv pos], h' as [lv' pos']. cbn in *. simplify_eq/=. done.
  - destruct Hd'. rewrite Hlev'. rewrite Hshare by lia. by apply Hab.
Qed.

Lemma deliver_hop f net n p m n' :
  net !! n = Some p → route_msg (env n) p m = (p, [], Some (n', m)) → carry (S f) net n m = carry f net n' m.
Proof.
  intros Hn Hr. cbn [carry]. rewrite Hn, Hr, insert_id by done. cbn [fmap list_fmap]. by destruct (carry f net n' m) as [[]|].
Qed.

(** Nothing ends a message between two nodes that each take the other for the gateway: it
    carries no hop count, and its path is not checked. *)
Theorem stale_gateways_loop t m n n' :
  msg_destination m = Some t → i_am_inside t (view n) = false → i_am_inside t (view n') = false →
  gateway_for (env n) t = Some n' → gateway_for (env n') t = Some n →
  ∀ fuel net, is_Some (net !! n) → is_Some (net !! n') → carry fuel net n m = None.
Proof.
  intros Hm Hi Hi' Hg Hg' fuel net Hn Hn'. enough (carry fuel net n m = None ∧ carry fuel net n' m = None) by tauto.
  destruct Hn as [p Hp], Hn' as [p' Hp']. induction fuel as [|fuel [IH IH']]; [done|]. split.
  - rewrite (deliver_hop _ _ _ p _ n'); [done|done|]. rewrite (route_outside _ _ _ _ Hm Hi). unfold forward. by rewrite Hg.
  - rewrite (deliver_hop _ _ _ p' _ n); [done|done|]. rewrite (route_outside _ _ _ _ Hm Hi'). unfold forward. by rewrite Hg'.
Qed.

Section Delivery.
Context {nodes : gset Node} {topology : Topology} {dist : Node → list Z → nat} `{!Gateways nodes topology dist}.

Lemma view_levels n : n ∈ nodes → v_levels (view n) = topology_levels topology.
Proof. intros Hn. unfold v_levels. by rewrite gw_topology. Qed.

(** The next hop toward a target with members: inside of it, below the divergence, or closer at
    the same divergence. *)
Lemma next_hop t k n h :
  gnode_member nodes t k → n ∈ nodes → tuple_to_hc t (view n) = Some h →
  ∃ n', n' ∈ nodes ∧ gateway_for (env n) t = Some n' ∧
    (i_am_inside t (view n') = true ∨
     ∃ h', tuple_to_hc t (view n') = Some h' ∧
       (hc_level h' < hc_level h ∨
        h' = h ∧ dist n' (ht_pos (make_tuple_from_hc h (view n'))) < dist n (ht_pos (make_tuple_from_hc h (view n))))).
Proof.
  intros [Hk Hin] Hn Hh. destruct (proj2 (routing_target_exact t (view n)) h Hh) as (Hl & Hne & Hc & Hdesc). rewrite view_levels in Hl by done.
  destruct (gw_progress n h k Hn Hl Hne) as (n' & Hg & [Hn' Hsh] & Hnear).
  { split; [done|]. apply tuple_contains_suffix in Hc. apply i_am_inside_suffix in Hin. apply i_am_inside_suffix. by etrans. }
  assert (v_topology (view n') = v_topology (view n)) as Ht by (by rewrite !gw_topology).
  assert (v_levels (view n') = v_levels (view n)) as Hlv by (unfold v_levels; by rewrite Ht).
  exists n'. split; [done|]. split; [unfold gateway_for; by rewrite Hh|].
  destruct (i_am_inside (make_tuple_from_hc h (view n)) (view n')) eqn:Hi.
  { destruct (Hdesc _ Ht Hi) as [?|(h' & ? & ?)]; [by left|right]. exists h'. by split; [|left]. }
  destruct Hnear as [?|Hd]; [congruence|]. right. exists h. split.
  - apply (divergence_kept _ (view n)); [done..|]. intros He. apply not_true_iff_false in Hi. apply Hi.
    eapply joins_gnode; [done|rewrite view_levels by done; lia|done|done].
  - right. split; [done|]. by rewrite (hc_positions_kept (view n) (view n')).
Qed.

(** A message for a g-node with members comes to one of them. *)
Lemma deliver_reaches t k0 n :
  gnode_member nodes t k0 → length (ht_pos t) ≤ topology_levels topology → n ∈ nodes →
  ∃ c k, gnode_member nodes t k ∧
    ∀ m, msg_destination m = Some t → ∀ f net, dom net = nodes → carry (c + f) net n m = carry f net k m.
Proof.
  intros Hk0 Hlen Hn. destruct (tuple_to_hc t (view n)) as [h|] eqn:Hh.
  2:{ exists 0, n. split; [|done]. split; [done|]. apply tuple_to_hc_None in Hh as [He|[?|?]]; [|rewrite view_levels in *; [lia|done]|done].
      apply i_am_inside_suffix. rewrite He. apply suffix_nil. }
  remember (hc_level h) as l eqn:El. remember (dist n (ht_pos (make_tuple_from_hc h (view n)))) as d eqn:Ed. revert d n h El Ed Hn Hh.
  induction (lt_wf l) as [l _ IHl]. intros d. induction (lt_wf d) as [d _ IHd]. intros n h -> -> Hn Hh.
  destruct (next_hop t k0 n h Hk0 Hn Hh) as (n' & Hn' & Hg & Hcase).
  assert (∃ c k, gnode_member nodes t k ∧ ∀ m, msg_destination m = Some t → ∀ f net, dom net = nodes → carry (c + f) net n' m = carry f net k m) as (c & k & Hk & Hd).
  { destruct Hcase as [Hi|(h' & Hh' & [Hlt|[-> Hlt]])]; [by exists 0, n'|by eapply IHl|by eapply IHd]. }
  assert (i_am_inside t (view n) = false) as Hout.
  { apply not_true_iff_false. intros Hi. assert (tuple_to_hc t (view n) = None) by (apply tuple_to_hc_None; auto). congruence. }
  exists (S c), k. split; [done|]. intros m Hm f net Hdom. assert (n ∈ dom net) as [p Hp]%elem_of_dom by (by rewrite Hdom).
  cbn [Nat.add]. rewrite (deliver_hop _ _ _ p _ n'); [by apply Hd|done|]. rewrite (route_outside _ _ _ _ Hm Hout). unfold forward. by rewrite Hg.
Qed.

(** ** There and back *)
Definition prefixed (es0 : list RouteEffect) (x : Routed Node) : Routed Node := let '(p, es, next) := x in (p, es0 ++ es, next).

Lemma deliver_prefixed es0 f net k req resp :
  is_Some (net !! k) → (∀ p, route_msg (env k) p req = prefixed es0 (route_msg (env k) p resp)) →
  carry (S f) net k req = '(net', es) ← carry (S f) net k resp; Some (net', ((λ e, (k, e)) <$> es0) ++ es).
Proof.
  intros [p Hp] Hr. cbn [carry]. rewrite Hp, Hr. destruct (route_msg (env k) p resp) as [[p' es] next]. cbn [prefixed].
  destruct next as [[n' m']|]; [|cbn; by rewrite fmap_app]. destruct (carry f _ n' m') as [[net' es']|]; [|done]. cbn. by rewrite fmap_app, app_assoc.
Qed.

Lemma inside_my_tuple n : i_am_inside (my_tuple (env n)) (view n) = true.
Proof. apply i_am_inside_suffix. unfold my_tuple, my_positions. cbn. by rewrite Nat.sub_0_r. Qed.
Lemma length_my_tuple n : n ∈ nodes → length (ht_pos (my_tuple (env n))) = topology_levels topology.
Proof. intros Hn. unfold my_tuple. rewrite (proj1 (length_make_tuple _ _)), Nat.sub_0_r. by apply view_levels. Qed.

Lemma answer_returns o k : o ∈ nodes → k ∈ nodes →
  ∃ c, ∀ resp, msg_destination resp = Some (my_tuple (env o)) → ∀ f net, dom net = nodes → carry (c + f) net k resp = carry f net o resp.
Proof.
  intros Ho Hk. assert (gnode_member nodes (my_tuple (env o)) o) as Hm by (split; [done|apply inside_my_tuple]).
  destruct (deliver_reaches _ _ k Hm) as (c & o' & Ho' & Hc); [by rewrite length_my_tuple|done|]. exists c. by rewrite (gw_address _ _ Ho Ho') in Hc.
Qed.

(** A request that a member turns into an answer brings the answer back to its asker, whatever
    else the member did. *)
Lemma request_carried t k0 o n :
  gnode_member nodes t k0 → length (ht_pos t) ≤ topology_levels topology → o ∈ nodes → n ∈ nodes →
  ∃ c k, gnode_member nodes t k ∧
    (∀ req resp es0 f net, msg_destination req = Some t → msg_destination resp = Some (my_tuple (env o)) → dom net = nodes →
      (∀ p, route_msg (env k) p req = prefixed es0 (route_msg (env k) p resp)) →
      carry (c + S f) net n req = '(net', es) ← carry (S f) net o resp; Some (net', ((λ e, (k, e)) <$> es0) ++ es)) ∧
    (∀ req f net, msg_destination req = Some t → dom net = nodes → (∀ p, route_msg (env k) p req = (p, [], None)) → carry (c + S f) net n req = Some (net, [])).
Proof.
  intros Hk0 Hlen Ho Hn. destruct (deliver_reaches t k0 n Hk0 Hlen Hn) as (c1 & k & Hk & H1). destruct (answer_returns o k Ho (proj1 Hk)) as (c2 & H2).
  assert (∀ net : Net, dom net = nodes → is_Some (net !! k)) as Hrun by (intros net Hd; apply elem_of_dom; rewrite Hd; apply Hk).
  exists (c1 + c2), k. split; [done|]. split; intros.
  - rewrite <-Nat.add_assoc, H1 by done. rewrite Nat.add_succ_r. rewrite (deliver_prefixed es0 _ net k req resp) by auto. by rewrite <-Nat.add_succ_r, H2.
  - rewrite <-Nat.add_assoc, H1 by done. rewrite Nat.add_succ_r. cbn [carry]. destruct (Hrun net) as [p Hp]; [done|]. rewrite Hp. match goal with Hr : ∀ p, route_msg _ p req = _ |- _ => rewrite Hr end. by rewrite insert_id.
Qed.

Lemma outside_gateway t k o : gnode_member nodes t k → o ∈ nodes → length (ht_pos t) ≤ topology_levels topology → i_am_inside t (view o) = false →
  ∃ stub, stub ∈ nodes ∧ gateway_for (env o) t = Some stub.
Proof.
  intros Hk Ho Hlen Hi. destruct (tuple_to_hc t (view o)) as [h|] eqn:Hh; [destruct (next_hop t k o h Hk Ho Hh) as (n' & ? & ? & _); eauto|].
  apply tuple_to_hc_None in Hh as [He|[?|?]]; [|rewrite view_levels in *; [lia|done]|congruence].
  exfalso. apply not_true_iff_false in Hi. apply Hi, i_am_inside_suffix. rewrite He. apply suffix_nil.
Qed.

Lemma dom_insert_node (net : Net) o (p p' : PendingReplies) : net !! o = Some p → dom net = nodes → dom (<[o := p']> net) = nodes.
Proof. intros Hp Hd. rewrite dom_insert_L, Hd. apply elem_of_dom_2 in Hp. set_solver. Qed.

Lemma deliver_reply f (net : Net) o p p' m es :
  net !! o = Some p → route_msg (env o) p m = (p', es, None) → carry (S f) net o m = Some (<[o := p']> net, (λ e, (o, e)) <$> es).
Proof. intros Hp Hr. cbn [carry]. by rewrite Hp, Hr. Qed.

(** An exchange for a g-node outside of the asker is over when the gateway's call is. *)
Lemma exchange_done {A B} (reply : RouteEffect → option B) finish fuel net o p p1 p2 p3 (a : option A) stub m es :
  net !! o = Some p → stub ∈ nodes → dom net = nodes → carry fuel (<[o := p1]> net) stub m = Some (<[o := p2]> (<[o := p1]> net), es) →
  finish p2 true (reply_of reply o es) = (p3, a) → p3 = p →
  exchange reply finish fuel net o (p1, [], Awaiting stub m) = Some (net, es, a).
Proof.
  intros Hp Hs Hd Hdel Hf ->. unfold exchange. rewrite Hdel. cbn [mbind option_bind]. rewrite lookup_insert_eq. cbn [mbind option_bind].
  rewrite bool_decide_true by (apply elem_of_dom; by rewrite Hd). rewrite Hf. cbn. by rewrite !insert_insert_eq, insert_id.
Qed.

(** C37: A routed search step is the local one of a member.  When gateways do what QSPN promises, a
    search request for a g-node of the hierarchy that has members ends, and its asker gets
    exactly what [execute_search] gives on one member of that g-node, with the coordinator of
    that member: its reservation when it answers, an error when it does not.  Afterwards no
    node waits for anything it did not wait for before. *)
Theorem routed_search_exact net o p pkt_id tx path_hops hop max_host_lvl reserve_request_id k0 :
  o ∈ nodes → dom net = nodes → net !! o = Some p → pd_search p !! pkt_id = None →
  last path_hops = Some hop → length (ht_pos (ph_visiting_gnode hop)) ≤ topology_levels topology → gnode_member nodes (ph_visiting_gnode hop) k0 →
  ∃ c k, gnode_member nodes (ph_visiting_gnode hop) k ∧ ∀ f, ∃ es,
    Forall (λ e, ∃ r, e = (o, ReplySearch tx r)) es ∧
    search_exchange (c + S f) net o pkt_id tx path_hops max_host_lvl reserve_request_id =
      Some (net, es, execute_search (view k) (mr_reserve (env k) reserve_request_id) (ph_visiting_gnode hop) max_host_lvl).
Proof.
  intros Ho Hd Hp Hfresh Hl Hlen Hk0. set (t := ph_visiting_gnode hop) in *. unfold search_exchange. rewrite Hp. cbn [mbind option_bind]. unfold send_search_request. rewrite Hl. fold t.
  destruct (i_am_inside t (view o)) eqn:Hi.
  { exists 0, o. split; [done|]. intros f. exists []. split; [apply Forall_nil_2|]. cbn. by rewrite insert_id. }
  destruct (outside_gateway t k0 o Hk0 Ho Hlen Hi) as (stub & Hs & ->). destruct (request_carried t k0 o stub Hk0 Hlen Ho Hs) as (c & k & Hk & Hcarry & Hsilent).
  exists c, k. split; [done|]. intros f. set (p1 := set_pd_search p _). set (req := mkSearchRequest _ _ _ _ _ _).
  assert (dom (<[o := p1]> net) = nodes) as Hd1 by (by eapply dom_insert_node).
  assert (msg_destination (RouteSearchRequest req) = Some t) as Hreq by (cbn; by rewrite Hl).
  assert (∀ q, route_msg (env k) q (RouteSearchRequest req) =
    match execute_search (view k) (mr_reserve (env k) reserve_request_id) t max_host_lvl with
    | Some x => deliver_search_response (env k) q (my_tuple (env o)) pkt_id x | None => (q, [], None) end) as Hexec.
  { intros q. cbn. unfold route_search_request. cbn. rewrite Hl. cbn. fold t. by rewrite (proj2 Hk). }
  assert (set_pd_search p1 (delete pkt_id (pd_search p1)) = p) as Hback by (unfold p1; cbn; rewrite delete_insert_id by done; by destruct p).
  destruct (execute_search _ _ t max_host_lvl) as [x|].
  - set (resp := mkSearchResponse pkt_id (my_tuple (env o)) (ss_min_host_lvl x) (ss_set_adjacent x) (ss_final_host_lvl x)
      (ss_real_new_pos x) (ss_real_new_eldership x) (ss_new_conn_vir_pos x) (ss_new_eldership x)).
    exists [(o, ReplySearch tx (Some resp))]. split; [apply Forall_singleton; by eexists|].
    eapply (exchange_done _ _ _ _ _ p p1 p); [done|done|done| |cbn; rewrite bool_decide_true, Nat.eqb_refl by done; cbn; unfold resp; by destruct x|done].
    rewrite (Hcarry _ (RouteSearchResponse resp) []); [|done..|intros q; rewrite Hexec; cbn; unfold deliver_search_response; fold resp; by destruct (route_search_response (env k) q resp) as [[]]].
    rewrite (deliver_reply _ _ _ p1 p _ [ReplySearch tx (Some resp)]); [done|by rewrite lookup_insert_eq|].
    cbn. unfold route_search_response. cbn. rewrite inside_my_tuple, lookup_insert_eq. by rewrite <-Hback at 2.
  - exists []. split; [apply Forall_nil_2|]. eapply (exchange_done _ _ _ _ _ p p1 p1); [done|done|done| |unfold finish_search; cbn [reply_of foldr]; by rewrite Hback|done].
    rewrite Hsilent by done. by rewrite insert_insert_eq.
Qed.

(** An exploration is the one of a member. *)
Theorem routed_explore_exact net o p pkt_id tx path_hops hop requested_lvl k0 :
  o ∈ nodes → dom net = nodes → net !! o = Some p → pd_explore p !! pkt_id = None →
  last path_hops = Some hop → length (ht_pos (ph_visiting_gnode hop)) ≤ topology_levels topology → gnode_member nodes (ph_visiting_gnode hop) k0 →
  ∃ c k, gnode_member nodes (ph_visiting_gnode hop) k ∧ ∀ f, ∃ es,
    explore_exchange (c + S f) net o pkt_id tx path_hops requested_lvl = Some (net, es, Some (make_tuple_from_level requested_lvl (view k))).
Proof.
  intros Ho Hd Hp Hfresh Hl Hlen Hk0. set (t := ph_visiting_gnode hop) in *. unfold explore_exchange. rewrite Hp. cbn [mbind option_bind]. unfold send_explore_request. rewrite Hl. fold t.
  destruct (i_am_inside t (view o)) eqn:Hi; [exists 0, o; split; [done|]; intros f; exists []; cbn; by rewrite insert_id|].
  destruct (outside_gateway t k0 o Hk0 Ho Hlen Hi) as (stub & Hs & ->). destruct (request_carried t k0 o stub Hk0 Hlen Ho Hs) as (c & k & Hk & Hcarry & _).
  exists c, k. split; [done|]. intros f. set (p1 := set_pd_explore p _). set (req := mkExploreRequest _ _ _ _).
  set (resp := mkExploreResponse pkt_id (my_tuple (env o)) (execute_explore requested_lvl (view k))).
  exists [(o, ReplyExplore tx (xp_result resp))]. eapply (exchange_done _ _ _ _ _ p p1 p); [done|done|done| |cbn; rewrite bool_decide_true, Nat.eqb_refl by done; done|done].
  rewrite (Hcarry _ (RouteExploreResponse resp) []); [|cbn; by rewrite Hl|done|by eapply dom_insert_node|].
  2:{ intros q. cbn. unfold route_explore_request. cbn. rewrite Hl. cbn. fold t. rewrite (proj2 Hk). fold resp. by destruct (route_explore_response (env k) q resp) as [[]]. }
  rewrite (deliver_reply _ _ _ p1 p _ [ReplyExplore tx (xp_result resp)]); [done|by rewrite lookup_insert_eq|].
  cbn. unfold route_explore_response. cbn. rewrite inside_my_tuple, lookup_insert_eq. unfold p1. cbn. rewrite delete_insert_id by done. by destruct p.
Qed.

(** The calls of coordinators among the effects. *)
Definition coordinator_calls (es : list (Node * RouteEffect)) : list (Node * CoordCall) :=
  es ≫= λ ne, match ne.2 with CallCoordinator c => [(ne.1, c)] | _ => [] end.

(** A migration packet is executed once.  A packet sent to a g-node of the hierarchy that has
    members is executed by the coordinator of exactly one of them, and once: the sender knows
    that it was, and no node waits for anything it did not wait for before. *)
Theorem routed_migration_once net o p pkt_id tx packet k0 :
  o ∈ nodes → dom net = nodes → net !! o = Some p → pd_mig p !! pkt_id = None →
  length (ht_pos (rp_dest packet)) ≤ topology_levels topology → gnode_member nodes (rp_dest packet) k0 →
  ∃ c k, gnode_member nodes (rp_dest packet) k ∧ ∀ f, ∃ es,
    mig_exchange (c + S f) net o pkt_id tx packet = Some (net, es, Some tt) ∧
    coordinator_calls es = option_list ((λ c, (k, c)) <$> execute_mig (view k) packet).
Proof.
  intros Ho Hd Hp Hfresh Hlen Hk0. set (t := rp_dest packet) in *. unfold mig_exchange. rewrite Hp. cbn [mbind option_bind]. unfold send_mig_request. fold t.
  destruct (i_am_inside t (view o)) eqn:Hi.
  { exists 0, o. split; [done|]. intros f. eexists. cbn. rewrite insert_id by done. split; [done|]. by destruct (execute_mig (view o) packet). }
  destruct (outside_gateway t k0 o Hk0 Ho Hlen Hi) as (stub & Hs & ->). destruct (request_carried t k0 o stub Hk0 Hlen Ho Hs) as (c & k & Hk & Hcarry & _).
  exists c, k. split; [done|]. intros f. set (p1 := set_pd_mig p _). set (req := stamped (env o) packet pkt_id). set (resp := mkResponsePacket pkt_id (my_tuple (env o))).
  assert (execute_mig (view k) req = execute_mig (view k) packet) as Hsame by done.
  set (es0 := option_list (CallCoordinator <$> execute_mig (view k) packet)).
  exists (((λ e, (k, e)) <$> es0) ++ [(o, ReplyMig tx)]). split.
  2:{ unfold coordinator_calls, es0. rewrite bind_app. cbn. rewrite app_nil_r. by destruct (execute_mig (view k) packet). }
  assert (reply_of (mig_reply tx) o (((λ e, (k, e)) <$> es0) ++ [(o, ReplyMig tx)]) = Some tt) as Hreply.
  { unfold reply_of. rewrite foldr_app. cbn. rewrite bool_decide_true, Nat.eqb_refl by done. unfold es0. destruct (execute_mig (view k) packet); cbn; [|done]. by case_bool_decide. }
  eapply (exchange_done _ _ _ _ _ p p1 p); [done|done|done| |by rewrite Hreply|done].
  rewrite (Hcarry _ (RouteMigResponse resp) es0); [|done|done|by eapply dom_insert_node|].
  2:{ intros q. cbn. unfold route_mig_request. change (rp_dest req) with t. rewrite (proj2 Hk), Hsame. change (mkResponsePacket (rp_pkt_id req) (rp_src req)) with resp. fold es0. by destruct (route_mig_response (env k) q resp) as [[]]. }
  rewrite (deliver_reply _ _ _ p1 p _ [ReplyMig tx]); [done|by rewrite lookup_insert_eq|].
  cbn. unfold route_mig_response. cbn. rewrite inside_my_tuple, lookup_insert_eq. unfold p1. cbn. rewrite delete_insert_id by done. by destruct p.
Qed.
End Delivery.
End Network.

(** * Interleaved messages

    The same nodes with any number of requests on their way at once: a step
    sends a request, runs a handler on one message, loses a message, or ends a wait.  The calls
    made and what their channels got are recorded beside the state. *)
Section System.
Context {Node : Type} `{Countable Node} (env : Node → MessageRouting Node) (nodes : gset Node).
Abbreviation Net := (gmap Node PendingReplies).
Abbreviation view n := (mr_view (env n)).

(** The three kinds of requests that wait for an answer, each under its own map. *)
Inductive RequestKind := SearchKind | ExploreKind | MigKind.
Definition pd_of (k : RequestKind) (p : PendingReplies) : gmap Z nat :=
  match k with SearchKind => pd_search p | ExploreKind => pd_explore p | MigKind => pd_mig p end.
Definition set_pd (k : RequestKind) (p : PendingReplies) (m : gmap Z nat) : PendingReplies :=
  match k with SearchKind => set_pd_search p m | ExploreKind => set_pd_explore p m | MigKind => set_pd_mig p m end.

Inductive Request :=
  | AskSearch (path_hops : list PathHop) (max_host_lvl : nat) (reserve_request_id : Z)
  | AskExplore (path_hops : list PathHop) (requested_lvl : nat)
  | AskMig (packet : RequestPacket).
Definition kind_of (req : Request) : RequestKind :=
  match req with AskSearch _ _ _ => SearchKind | AskExplore _ _ => ExploreKind | AskMig _ => MigKind end.
(** What the channel of a request gets. *)
Inductive Got := GotSearch (r : option SearchMigrationPathResponse) | GotExplore (g : HookTuple) | GotMig.

(** A request is made under a packet id; its channel is the key of [ry_calls]. *)
Record Call := mkCall { cl_node : Node; cl_pkt_id : Z; cl_request : Request }.
Record RoutingSys := mkRoutingSys {
  ry_net : Net; ry_flight : list (Node * RouteMsg); ry_calls : gmap nat Call; ry_replies : list (nat * Got); ry_coord : list (Node * CoordCall)
}.
Definition replies_of (es : list RouteEffect) : list (nat * Got) :=
  es ≫= λ e, match e with ReplySearch tx r => [(tx, GotSearch r)] | ReplyExplore tx g => [(tx, GotExplore g)] | ReplyMig tx => [(tx, GotMig)] | CallCoordinator _ => [] end.
Definition coord_calls (n : Node) (es : list RouteEffect) : list (Node * CoordCall) :=
  es ≫= λ e, match e with CallCoordinator c => [(n, c)] | _ => [] end.

(** The sending part of a request, and what is left of a waiting one when its wait ends. *)
Definition sent_message {A} (s : Sent Node A) : option (Node * RouteMsg) := match s with Finished _ => None | Awaiting stub m => Some (stub, m) end.
Definition send_request (o : Node) (p : PendingReplies) (pkt_id : Z) (tx : nat) (req : Request) : Routed Node :=
  match req with
  | AskSearch hops max rid => let '(p', s) := send_search_request (env o) p pkt_id tx hops max rid in (p', [], sent_message s)
  | AskExplore hops lvl => let '(p', s) := send_explore_request (env o) p pkt_id tx hops lvl in (p', [], sent_message s)
  | AskMig packet => let '(p', es, s) := send_mig_request (env o) p pkt_id tx packet in (p', es, sent_message s)
  end.
Definition finish_request (p : PendingReplies) (pkt_id : Z) (req : Request) (sent : bool) (got : option Got) : PendingReplies :=
  match req with
  | AskSearch _ _ _ => (finish_search p pkt_id sent (match got with Some (GotSearch r) => Some r | _ => None end)).1
  | AskExplore _ _ => (finish_explore p pkt_id sent (match got with Some (GotExplore g) => Some g | _ => None end)).1
  | AskMig _ => (finish_mig p pkt_id sent (match got with Some GotMig => Some tt | _ => None end)).1
  end.

(** Any id can be drawn, also one that is in use: the map entry is then overwritten. *)
Inductive routing_step : RoutingSys → RoutingSys → Prop :=
  | rstep_send s o p req pkt_id tx p' es next :
      ry_net s !! o = Some p → ry_calls s !! tx = None → send_request o p pkt_id tx req = (p', es, next) →
      routing_step s (mkRoutingSys (<[o := p']> (ry_net s)) (option_list next ++ ry_flight s) (<[tx := mkCall o pkt_id req]> (ry_calls s))
        (ry_replies s) (ry_coord s ++ coord_calls o es))
  | rstep_delete s o dest rid es next :
      o ∈ dom (ry_net s) → send_delete_reserve_request (env o) dest rid = (es, next) →
      routing_step s (mkRoutingSys (ry_net s) (option_list next ++ ry_flight s) (ry_calls s) (ry_replies s) (ry_coord s ++ coord_calls o es))
  | rstep_deliver s before n m after p p' es next :
      ry_flight s = before ++ (n, m) :: after → ry_net s !! n = Some p → route_msg (env n) p m = (p', es, next) →
      routing_step s (mkRoutingSys (<[n := p']> (ry_net s)) (option_list next ++ before ++ after) (ry_calls s)
        (ry_replies s ++ replies_of es) (ry_coord s ++ coord_calls n es))
  | rstep_lose s before nm after :
      ry_flight s = before ++ nm :: after → routing_step s (mkRoutingSys (ry_net s) (before ++ after) (ry_calls s) (ry_replies s) (ry_coord s))
  | rstep_finish s tx c p sent got :
      ry_calls s !! tx = Some c → ry_net s !! cl_node c = Some p →
      routing_step s (mkRoutingSys (<[cl_node c := finish_request p (cl_pkt_id c) (cl_request c) sent got]> (ry_net s)) (ry_flight s) (ry_calls s)
        (ry_replies s) (ry_coord s)).

Definition routing_start (s : RoutingSys) : Prop :=
  ry_flight s = [] ∧ ry_calls s = ∅ ∧ ry_replies s = [] ∧ dom (ry_net s) = nodes ∧ ∀ n p, ry_net s !! n = Some p → p = no_replies.

(** ** The invariant *)

(** What answers a request: the result of a member of the g-node it asks, or, for a
    migration, that a member has passed it to its coordinator. *)
Definition answers_request (coord : list (Node * CoordCall)) (req : Request) (got : Got) : Prop :=
  match req, got with
  | AskSearch hops max rid, GotSearch (Some resp) =>
      ∃ hop k, last hops = Some hop ∧ gnode_member env nodes (ph_visiting_gnode hop) k ∧
        execute_search (view k) (mr_reserve (env k) rid) (ph_visiting_gnode hop) max = Some (step_of_response resp)
  | AskExplore hops lvl, GotExplore g =>
      ∃ hop k, last hops = Some hop ∧ gnode_member env nodes (ph_visiting_gnode hop) k ∧ g = execute_explore lvl (view k)
  | AskMig packet, GotMig =>
      ∃ k, gnode_member env nodes (rp_dest packet) k ∧ ∀ call, execute_mig (view k) packet = Some call → (k, call) ∈ coord
  | _, _ => False
  end.

(** [m] is the request message of [c]. *)
Definition asks (c : Call) (m : RouteMsg) : Prop :=
  match cl_request c, m with
  | AskSearch hops max rid, RouteSearchRequest req =>
      sq_origin req = my_tuple (env (cl_node c)) ∧ sq_pkt_id req = cl_pkt_id c ∧ sq_path_hops req = hops ∧ sq_max_host_lvl req = max ∧ sq_reserve_request_id req = rid
  | AskExplore hops lvl, RouteExploreRequest req =>
      xq_origin req = my_tuple (env (cl_node c)) ∧ xq_pkt_id req = cl_pkt_id c ∧ xq_path_hops req = hops ∧ xq_requested_lvl req = lvl
  | AskMig packet, RouteMigRequest req => req = stamped (env (cl_node c)) packet (cl_pkt_id c)
  | _, _ => False
  end.

(** The kind, the destination, the packet id and the content of a response message. *)
Definition response_of (m : RouteMsg) : option (RequestKind * HookTuple * Z * Got) :=
  match m with
  | RouteSearchResponse resp => Some (SearchKind, sp_origin resp, sp_pkt_id resp, GotSearch (Some resp))
  | RouteExploreResponse resp => Some (ExploreKind, xp_origin resp, xp_pkt_id resp, GotExplore (xp_result resp))
  | RouteMigResponse resp => Some (MigKind, rs_dest resp, rs_pkt_id resp, GotMig)
  | _ => None
  end.
Definition reply_effect (tx : nat) (got : Got) : RouteEffect :=
  match got with GotSearch r => ReplySearch tx r | GotExplore g => ReplyExplore tx g | GotMig => ReplyMig tx end.

(** [m] is a response to [c]. *)
Definition answers (coord : list (Node * CoordCall)) (c : Call) (m : RouteMsg) : Prop :=
  ∃ got, response_of m = Some (kind_of (cl_request c), my_tuple (env (cl_node c)), cl_pkt_id c, got) ∧ answers_request coord (cl_request c) got.

Definition flight_ok (calls : gmap nat Call) (coord : list (Node * CoordCall)) (m : RouteMsg) : Prop :=
  (∃ tx c, calls !! tx = Some c ∧ (asks c m ∨ answers coord c m)) ∨ ∃ req, m = RouteDeleteReserveRequest req.
Definition pending_ok (calls : gmap nat Call) (n : Node) (p : PendingReplies) : Prop :=
  ∀ k pkt_id tx, pd_of k p !! pkt_id = Some tx → ∃ c, calls !! tx = Some c ∧ cl_node c = n ∧ cl_pkt_id c = pkt_id ∧ kind_of (cl_request c) = k.
(** The request of the channel, and the one that was answered on it: they have one packet
    id. *)
Definition reply_ok (calls : gmap nat Call) (coord : list (Node * CoordCall)) (tr : nat * Got) : Prop :=
  ∃ c tx' c', calls !! tr.1 = Some c ∧ calls !! tx' = Some c' ∧ cl_node c' = cl_node c ∧ cl_pkt_id c' = cl_pkt_id c ∧
    kind_of (cl_request c') = kind_of (cl_request c) ∧ answers_request coord (cl_request c') tr.2.

Record routing_inv (s : RoutingSys) : Prop := {
  ri_dom : dom (ry_net s) = nodes;
  ri_calls tx c : ry_calls s !! tx = Some c → cl_node c ∈ nodes;
  ri_pending n p : ry_net s !! n = Some p → pending_ok (ry_calls s) n p;
  ri_flight : Forall (λ nm, flight_ok (ry_calls s) (ry_coord s) nm.2) (ry_flight s);
  ri_replies : Forall (reply_ok (ry_calls s) (ry_coord s)) (ry_replies s);
  ri_once : NoDup (ry_replies s).*1;
  ri_gone n p k pkt_id tx : ry_net s !! n = Some p → pd_of k p !! pkt_id = Some tx → tx ∉ (ry_replies s).*1
}.

Context (distinct_addresses : ∀ n n', n ∈ nodes → gnode_member env nodes (my_tuple (env n)) n' → n' = n).

(** *** More calls and more coordinator calls keep what holds *)
Lemma answers_request_mono coord coord' req got : coord ⊆ coord' → answers_request coord req got → answers_request coord' req got.
Proof. intros Hs. destruct req, got as [[]| |]; cbn; try done. intros (k & Hk & Hc). exists k. split; [done|]. intros call Hcall. by apply Hs, Hc. Qed.

Lemma flight_ok_mono calls calls' coord coord' m : calls ⊆ calls' → coord ⊆ coord' → flight_ok calls coord m → flight_ok calls' coord' m.
Proof.
  intros Hs Hc [(tx & c & Hcall & [Ha|(got & Hr & Ha)])|?]; [left; exists tx, c..|by right]; (split; [by eapply lookup_weaken|]); [by left|right].
  exists got. split; [done|]. by eapply answers_request_mono.
Qed.

Lemma reply_ok_mono calls calls' coord coord' tr : calls ⊆ calls' → coord ⊆ coord' → reply_ok calls coord tr → reply_ok calls' coord' tr.
Proof.
  intros Hs Hc (c & tx' & c' & H1 & H2 & ? & ? & ? & Ha). exists c, tx', c'. split_and!; [by eapply lookup_weaken..|done|done|done|].
  by eapply answers_request_mono.
Qed.

Lemma pending_ok_mono calls calls' n p : calls ⊆ calls' → pending_ok calls n p → pending_ok calls' n p.
Proof. intros Hs Hp k pkt tx (c & Hc & ?)%Hp. exists c. split; [by eapply lookup_weaken|done]. Qed.

(** *** What a handler does *)

(** It leaves the waits of a node as they are and answers nothing, or answers one that it
    finds under the id of the response. *)
Definition handled (calls : gmap nat Call) (coord : list (Node * CoordCall)) (n : Node) (p p' : PendingReplies) (replies : list (nat * Got)) : Prop :=
  (p' = p ∧ replies = []) ∨
  ∃ k pkt_id tx got tx' c', pd_of k p !! pkt_id = Some tx ∧ p' = set_pd k p (delete pkt_id (pd_of k p)) ∧ replies = [(tx, got)] ∧
    calls !! tx' = Some c' ∧ cl_node c' = n ∧ cl_pkt_id c' = pkt_id ∧ kind_of (cl_request c') = k ∧ answers_request coord (cl_request c') got.

Lemma route_response n p m k dest pkt_id got :
  response_of m = Some (k, dest, pkt_id, got) →
  route_msg (env n) p m =
    if i_am_inside dest (view n) then
      match pd_of k p !! pkt_id with
      | Some tx => (set_pd k p (delete pkt_id (pd_of k p)), [reply_effect tx got], None)
      | None => (p, [], None)
      end
    else (p, [], forward (env n) dest m).
Proof. destruct m; cbn; try done; intros [= <- <- <- <-]; done. Qed.

Lemma response_handled s coord n p m tx c p' es next :
  routing_inv s → ry_net s !! n = Some p → ry_calls s !! tx = Some c → answers coord c m → route_msg (env n) p m = (p', es, next) →
  handled (ry_calls s) coord n p p' (replies_of es) ∧ coord_calls n es = [] ∧ Forall (λ nm, flight_ok (ry_calls s) coord nm.2) (option_list next).
Proof.
  intros Hi Hp Hc (got & Hr & Ha). rewrite (route_response _ _ _ _ _ _ _ Hr). destruct (i_am_inside _ _) eqn:Hin.
  - destruct (pd_of _ p !! cl_pkt_id c) as [tx'|] eqn:Ht; intros [= <- <- <-]; (split; [|split; [by destruct got|apply Forall_nil_2]]); [|by left].
    right. exists (kind_of (cl_request c)), (cl_pkt_id c), tx', got, tx, c. split_and!; [done|done|by destruct got|done| |done|done|done].
    symmetry. apply distinct_addresses; [by eapply ri_calls|]. split; [rewrite <-(ri_dom _ Hi); by eapply elem_of_dom_2|done].
  - intros [= <- <- <-]. split; [by left|]. split; [done|]. unfold forward. destruct (gateway_for _ _); cbn; [|apply Forall_nil_2]. apply Forall_singleton.
    left. exists tx, c. split; [done|]. right. by exists got.
Qed.

(** A request is passed on, gets no result, or is executed and its response routed. *)
Lemma request_handled n p c m :
  n ∈ nodes → asks c m →
  (∃ t, route_msg (env n) p m = (p, [], forward (env n) t m)) ∨ route_msg (env n) p m = (p, [], None) ∨
  ∃ es0 m', route_msg (env n) p m = prefixed es0 (route_msg (env n) p m') ∧ replies_of es0 = [] ∧
    ∀ coord, coord_calls n es0 ⊆ coord → answers coord c m'.
Proof.
  intros Hn. unfold asks. destruct (cl_request c) as [hops max rid|hops lvl|packet] eqn:Hreq, m as [req| | |req| | |req|]; try done; cbn [route_msg].
  - intros (Ho & Hp & <- & <- & <-). unfold route_search_request. destruct (last (sq_path_hops req)) as [hop|] eqn:Hl; [|by right; left].
    destruct (i_am_inside _ _) eqn:Hin; [|left; by eexists]. destruct (execute_search _ _ _ _) as [x|] eqn:He; [|by right; left].
    right; right. unfold deliver_search_response. match goal with |- context [route_search_response _ _ ?resp] => exists [], (RouteSearchResponse resp); set (r := resp) end.
    split; [cbn [route_msg]; by destruct (route_search_response (env n) p r) as [[]]|]. split; [done|]. intros coord _. exists (GotSearch (Some r)).
    rewrite Hreq. cbn. rewrite Ho, Hp. split; [done|]. exists hop, n. split_and!; [done|by split|]. rewrite He. by destruct x.
  - intros (Ho & Hp & <- & <-). unfold route_explore_request. destruct (last (xq_path_hops req)) as [hop|] eqn:Hl; [|by right; left].
    destruct (i_am_inside _ _) eqn:Hin; [|left; by eexists]. right; right. match goal with |- context [route_explore_response _ _ ?resp] => exists [], (RouteExploreResponse resp); set (r := resp) end.
    split; [cbn [route_msg]; by destruct (route_explore_response (env n) p r) as [[]]|]. split; [done|]. intros coord _. exists (GotExplore (xp_result r)).
    rewrite Hreq. cbn. rewrite Ho, Hp. split; [done|]. exists hop, n. by split_and!.
  - intros ->. unfold route_mig_request. destruct (i_am_inside _ _) eqn:Hin; [|left; by eexists]. right; right.
    match goal with |- context [route_mig_response _ _ ?resp] => exists (option_list (CallCoordinator <$> execute_mig (view n) packet)), (RouteMigResponse resp); set (r := resp) end.
    split; [|split]. { cbn [route_msg prefixed]. change (execute_mig (view n) (stamped (env (cl_node c)) packet (cl_pkt_id c))) with (execute_mig (view n) packet).
      by destruct (route_mig_response (env n) p r) as [[]]. }
    + by destruct (execute_mig (view n) packet).
    + intros coord Hsub. exists GotMig. rewrite Hreq. split; [done|]. exists n. split; [by split|]. intros call Hcall. apply Hsub. rewrite Hcall. by left.
Qed.

Lemma coord_calls_app n es es' : coord_calls n (es ++ es') = coord_calls n es ++ coord_calls n es'.
Proof. unfold coord_calls. by rewrite bind_app. Qed.
Lemma replies_of_app es es' : replies_of (es ++ es') = replies_of es ++ replies_of es'.
Proof. unfold replies_of. by rewrite bind_app. Qed.

Lemma route_handled s n p m p' es next :
  routing_inv s → ry_net s !! n = Some p → flight_ok (ry_calls s) (ry_coord s) m → route_msg (env n) p m = (p', es, next) →
  let coord' := ry_coord s ++ coord_calls n es in
  handled (ry_calls s) coord' n p p' (replies_of es) ∧ Forall (λ nm, flight_ok (ry_calls s) coord' nm.2) (option_list next).
Proof.
  intros Hi Hp Hm Hr coord'. assert (n ∈ nodes) as Hn by (rewrite <-(ri_dom _ Hi); by eapply elem_of_dom_2).
  assert (ry_coord s ⊆ coord') as Hsub by (unfold coord'; set_solver).
  assert (∀ t m', flight_ok (ry_calls s) coord' m' → Forall (λ nm, flight_ok (ry_calls s) coord' nm.2) (option_list (forward (env n) t m'))) as Hfwd.
  { intros t m' Hok. unfold forward. destruct (gateway_for _ _); cbn; [by apply Forall_singleton|apply Forall_nil_2]. }
  assert (flight_ok (ry_calls s) coord' m) as Hm' by (by eapply flight_ok_mono).
  destruct Hm as [(tx & c & Hc & [Ha|Ha])|[req ->]].
  - destruct (request_handled n p c m Hn Ha) as [(t & E)|[E|(es0 & m' & E & He0 & Hans)]]; rewrite E in Hr.
    + injection Hr as <- <- <-. split; [by left|by apply Hfwd].
    + injection Hr as <- <- <-. split; [by left|apply Forall_nil_2].
    + destruct (route_msg (env n) p m') as [[q es1] nx] eqn:Er. cbn [prefixed] in Hr. injection Hr as <- <- <-.
      destruct (response_handled s coord' n p m' tx c _ _ _ Hi Hp Hc ltac:(apply Hans; unfold coord'; rewrite coord_calls_app; set_solver) Er) as (Hh & _ & Hf).
      rewrite replies_of_app, He0. done.
  - assert (answers coord' c m) as Ha' by (destruct Ha as (got & ? & ?); exists got; split; [done|by eapply answers_request_mono]).
    destruct (response_handled s coord' n p m tx c _ _ _ Hi Hp Hc Ha' Hr) as (Hh & _ & Hf). done.
  - cbn in Hr. unfold route_delete_reserve_request in Hr. destruct (i_am_inside _ _); injection Hr as <- <- <-; (split; [by left|]); [apply Forall_nil_2|by apply Hfwd].
Qed.

(** ** Its preservation *)
Lemma pd_of_set_eq k p m : pd_of k (set_pd k p m) = m.
Proof. by destruct k. Qed.
Lemma pd_of_set_ne k k' p m : k ≠ k' → pd_of k' (set_pd k p m) = pd_of k' p.
Proof. by destruct k, k'. Qed.
#[local] Instance RequestKind_eq_dec : EqDecision RequestKind.
Proof. solve_decision. Defined.
Lemma pd_of_set_subseteq k k' p m : m ⊆ pd_of k p → pd_of k' (set_pd k p m) ⊆ pd_of k' p.
Proof. intros Hs. destruct (decide (k = k')) as [<-|]; [by rewrite pd_of_set_eq|by rewrite pd_of_set_ne]. Qed.

(** A step that makes no new wait. *)
Lemma shrink_inv s n p p' flight calls coord :
  routing_inv s → ry_net s !! n = Some p → (∀ k, pd_of k p' ⊆ pd_of k p) → ry_calls s ⊆ calls → (∀ tx c, calls !! tx = Some c → cl_node c ∈ nodes) →
  ry_coord s ⊆ coord → Forall (λ nm, flight_ok calls coord nm.2) flight →
  routing_inv (mkRoutingSys (<[n := p']> (ry_net s)) flight calls (ry_replies s) coord).
Proof.
  intros [Hdom Hcalls Hpend Hfl Hrep Honce Hgone] Hp Hsub Hc Hcn Hco Hflight.
  assert (∀ n' q, <[n := p']> (ry_net s) !! n' = Some q → ∃ q', ry_net s !! n' = Some q' ∧ ∀ k, pd_of k q ⊆ pd_of k q') as Hold.
  { intros n' q. destruct (decide (n' = n)) as [->|Hne]; [rewrite lookup_insert_eq; intros [= <-]; eauto|]. rewrite lookup_insert_ne by done. eauto. }
  split; cbn; try done.
  - rewrite dom_insert_L, Hdom. apply elem_of_dom_2 in Hp. set_solver.
  - intros n' q (q' & Hq' & Hs)%Hold k pkt tx Ht. eapply pending_ok_mono; [exact Hc|by apply Hpend|]. by eapply lookup_weaken.
  - eapply Forall_impl; [exact Hrep|]. intros tr. by apply reply_ok_mono.
  - intros n' q k pkt tx (q' & Hq' & Hs)%Hold Ht. eapply Hgone; [done|]. by eapply lookup_weaken.
Qed.

(** A wait that is answered. *)
Lemma reply_inv s n p k pkt_id tx got tx' c' flight coord :
  routing_inv s → ry_net s !! n = Some p → pd_of k p !! pkt_id = Some tx →
  ry_calls s !! tx' = Some c' → cl_node c' = n → cl_pkt_id c' = pkt_id → kind_of (cl_request c') = k → answers_request coord (cl_request c') got →
  ry_coord s ⊆ coord → Forall (λ nm, flight_ok (ry_calls s) coord nm.2) flight →
  routing_inv (mkRoutingSys (<[n := set_pd k p (delete pkt_id (pd_of k p))]> (ry_net s)) flight (ry_calls s) (ry_replies s ++ [(tx, got)]) coord).
Proof.
  intros Hi Hp Ht Hc' Hn' Hk' Hq' Ha Hco Hflight. set (p' := set_pd k p _). assert (∀ k', pd_of k' p' ⊆ pd_of k' p) as Hsub by (intros k'; apply pd_of_set_subseteq, delete_subseteq).
  destruct (ri_pending _ Hi _ _ Hp _ _ _ Ht) as (c & Hc & Hn & Hpk & Hkind).
  pose proof (shrink_inv s n p p' flight (ry_calls s) coord Hi Hp Hsub (reflexivity _) (ri_calls _ Hi) Hco Hflight) as [Hdom Hcalls Hpend Hfl Hrep Honce Hgone].
  split; cbn in *; try done.
  - apply Forall_app_2; [done|]. apply Forall_singleton. exists c, tx', c'. split_and!; (done || congruence).
  - rewrite fmap_app. apply NoDup_app. split; [done|]. split; [|apply NoDup_singleton]. intros x Hx ->%list_elem_of_singleton. by apply (ri_gone _ Hi _ _ _ _ _ Hp Ht).
  - intros n' q k' pk x Hq Hx. rewrite fmap_app, not_elem_of_app. split; [by eapply Hgone|]. cbn. intros ->%list_elem_of_singleton.
    destruct (Hpend _ _ Hq _ _ _ Hx) as (d & Hd & Hnd & Hpd & Hkd). assert (d = c) as -> by congruence. subst n' pk k'.
    rewrite Hn, lookup_insert_eq in Hq. injection Hq as <-. unfold p' in Hx. rewrite Hkind, pd_of_set_eq, Hpk, lookup_delete_eq in Hx. done.
Qed.

(** A request either ends at once, leaving no wait, or puts its wait and its message. *)
Lemma send_cases o p pkt_id tx req p' es next :
  send_request o p pkt_id tx req = (p', es, next) →
  (next = None ∧ ∀ k, pd_of k p' ⊆ pd_of k p) ∨
  ∃ stub m, next = Some (stub, m) ∧ p' = set_pd (kind_of req) p (<[pkt_id := tx]> (pd_of (kind_of req) p)) ∧ asks (mkCall o pkt_id req) m.
Proof.
  assert (∀ k, ∀ k', pd_of k' (set_pd k (set_pd k p (<[pkt_id := tx]> (pd_of k p))) (delete pkt_id (<[pkt_id := tx]> (pd_of k p)))) ⊆ pd_of k' p) as Hback.
  { intros k k'. rewrite delete_insert_eq. destruct (decide (k = k')) as [<-|]; [rewrite pd_of_set_eq; apply delete_subseteq|by rewrite !pd_of_set_ne]. }
  destruct req as [hops max rid|hops lvl|packet]; cbn [send_request].
  - unfold send_search_request. destruct (last hops) as [hop|]; [|intros [= <- <- <-]; by left]. destruct (i_am_inside _ _); [intros [= <- <- <-]; by left|].
    destruct (gateway_for _ _) as [gw|]; intros [= <- <- <-]; [right; by eexists _, _|left; split; [done|apply (Hback SearchKind)]].
  - unfold send_explore_request. destruct (last hops) as [hop|]; [|intros [= <- <- <-]; by left]. destruct (i_am_inside _ _); [intros [= <- <- <-]; by left|].
    destruct (gateway_for _ _) as [gw|]; intros [= <- <- <-]; [right; by eexists _, _|left; split; [done|apply (Hback ExploreKind)]].
  - unfold send_mig_request. destruct (i_am_inside _ _); [intros [= <- <- <-]; by left|].
    destruct (gateway_for _ _) as [gw|]; intros [= <- <- <-]; [right; by eexists _, _|left; split; [done|apply (Hback MigKind)]].
Qed.

Lemma send_inv s o p req pkt_id tx p' es next :
  routing_inv s → ry_net s !! o = Some p → ry_calls s !! tx = None → send_request o p pkt_id tx req = (p', es, next) →
  routing_inv (mkRoutingSys (<[o := p']> (ry_net s)) (option_list next ++ ry_flight s) (<[tx := mkCall o pkt_id req]> (ry_calls s))
    (ry_replies s) (ry_coord s ++ coord_calls o es)).
Proof.
  intros Hi Hp Htx Hsend. pose proof (elem_of_dom_2 _ _ _ Hp) as Ho. rewrite (ri_dom _ Hi) in Ho.
  set (call := mkCall o pkt_id req). set (calls' := <[tx := call]> (ry_calls s)). set (coord' := ry_coord s ++ _).
  assert (ry_calls s ⊆ calls') as Hsub by (by apply insert_subseteq). assert (ry_coord s ⊆ coord') as Hco by (unfold coord'; set_solver).
  assert (∀ x c, calls' !! x = Some c → cl_node c ∈ nodes) as Hcn.
  { intros x c. unfold calls'. destruct (decide (x = tx)) as [->|]; [rewrite lookup_insert_eq; by intros [= <-]|rewrite lookup_insert_ne by done; apply (ri_calls _ Hi)]. }
  assert (Forall (λ nm, flight_ok calls' coord' nm.2) (ry_flight s)) as Hold by (eapply Forall_impl; [apply (ri_flight _ Hi)|]; intros nm; by apply flight_ok_mono).
  destruct (send_cases _ _ _ _ _ _ _ _ Hsend) as [[-> Hle]|(stub & m & -> & -> & Hask)]; [by eapply shrink_inv|].
  assert (tx ∉ (ry_replies s).*1) as Hnew.
  { intros (tr & -> & Hin)%list_elem_of_fmap. destruct (proj1 (Forall_forall _ _) (ri_replies _ Hi) _ Hin) as (c & _ & _ & Hc & _). congruence. }
  pose proof (shrink_inv s o p p _ calls' coord' Hi Hp (λ k, reflexivity _) Hsub Hcn Hco Hold) as [Hdom Hcalls Hpend Hfl Hrep Honce Hgone]. cbn in *.
  assert (∀ n q k pk x, <[o := set_pd (kind_of req) p (<[pkt_id := tx]> (pd_of (kind_of req) p))]> (ry_net s) !! n = Some q → pd_of k q !! pk = Some x →
    (n = o ∧ pk = pkt_id ∧ k = kind_of req ∧ x = tx) ∨ ∃ q', <[o := p]> (ry_net s) !! n = Some q' ∧ pd_of k q' !! pk = Some x) as Hcase.
  { intros n q k pk x. destruct (decide (n = o)) as [->|]; [rewrite !lookup_insert_eq; intros [= <-]|rewrite !lookup_insert_ne by done; eauto].
    destruct (decide (kind_of req = k)) as [<-|]; [rewrite pd_of_set_eq|rewrite pd_of_set_ne by done; eauto].
    destruct (decide (pk = pkt_id)) as [->|]; [rewrite lookup_insert_eq; intros [= <-]; by left|rewrite lookup_insert_ne by done; eauto]. }
  split; cbn; try done.
  - rewrite dom_insert_L in *. done.
  - intros n q Hq k pk x Hx. destruct (Hcase _ _ _ _ _ Hq Hx) as [(-> & -> & -> & ->)|(q' & Hq' & Hx')]; [|by eapply Hpend].
    exists call. by unfold calls'; rewrite lookup_insert_eq.
  - apply Forall_cons_2; [|done]. left. exists tx, call. split; [by unfold calls'; rewrite lookup_insert_eq|by left].
  - intros n q k pk x Hq Hx. destruct (Hcase _ _ _ _ _ Hq Hx) as [(-> & -> & -> & ->)|(q' & Hq' & Hx')]; [done|by eapply Hgone].
Qed.

Lemma finish_shrinks p pkt_id req sent got k : pd_of k (finish_request p pkt_id req sent got) ⊆ pd_of k p.
Proof.
  destruct req; cbn; unfold finish_search, finish_explore, finish_mig.
  - destruct sent, got as [[[]| |]|]; cbn; first [done|apply (pd_of_set_subseteq SearchKind), delete_subseteq].
  - destruct sent, got as [[| |]|]; cbn; first [done|apply (pd_of_set_subseteq ExploreKind), delete_subseteq].
  - destruct sent, got as [[| |]|]; cbn; first [done|apply (pd_of_set_subseteq MigKind), delete_subseteq].
Qed.

Lemma routing_step_inv s s' : routing_inv s → routing_step s s' → routing_inv s'.
Proof.
  intros Hi Hs. pose proof (ri_flight _ Hi) as Hfl. destruct Hs as [| s o dest rid es next Ho Hsend | s before n m after p p' es next Hf Hp Hr | s before nm after Hf | s tx c p sent got Hc Hp];
    [by eapply send_inv|..].
  - assert (ry_coord s ⊆ ry_coord s ++ coord_calls o es) as Hco by set_solver. destruct Hi as [Hdom Hcalls Hpend Hflight Hrep Honce Hgone]. split; cbn; try done.
    + apply Forall_app_2; [|eapply Forall_impl; [exact Hflight|]; intros nm; by apply flight_ok_mono].
      unfold send_delete_reserve_request, forward in Hsend. destruct (i_am_inside _ _); [injection Hsend as <- <-; apply Forall_nil_2|].
      destruct (gateway_for _ _); injection Hsend as <- <-; [|apply Forall_nil_2]. apply Forall_singleton. right. by eexists.
    + eapply Forall_impl; [exact Hrep|]. intros tr. by apply reply_ok_mono.
  - rewrite Hf in Hfl. apply Forall_app in Hfl as [Hb [Hm Ha]%Forall_cons]. destruct (route_handled _ _ _ _ _ _ _ Hi Hp Hm Hr) as [Hh Hn].
    assert (ry_coord s ⊆ ry_coord s ++ coord_calls n es) as Hco by set_solver.
    assert (Forall (λ nm, flight_ok (ry_calls s) (ry_coord s ++ coord_calls n es) nm.2) (option_list next ++ before ++ after)) as Hnew.
    { repeat apply Forall_app_2; [done|eapply Forall_impl; [exact Hb|]|eapply Forall_impl; [exact Ha|]]; intros nm; by apply flight_ok_mono. }
    destruct Hh as [[-> ->]|(k & pkt_id & tx & got & tx' & c' & Ht & -> & -> & Hc' & Hn' & Hpk & Hk & Hans)].
    + rewrite app_nil_r. eapply shrink_inv; [done|done|done|done|apply (ri_calls _ Hi)|done|done].
    + by eapply reply_inv.
  - rewrite Hf in Hfl. apply Forall_app in Hfl as [Hb [_ Ha]%Forall_cons]. destruct Hi. split; cbn in *; try done. by apply Forall_app_2.
  - eapply shrink_inv; [done|done|intros k; apply finish_shrinks|done|apply (ri_calls _ Hi)|done|done].
Qed.

(** No two requests of one kind of one node were made under one packet id. *)
Definition ids_distinct (calls : gmap nat Call) : Prop :=
  ∀ tx tx' c c', calls !! tx = Some c → calls !! tx' = Some c' → cl_node c = cl_node c' → cl_pkt_id c = cl_pkt_id c' →
    kind_of (cl_request c) = kind_of (cl_request c') → tx = tx'.

(** C38: answers do not cross between requests.  In a network of nodes with distinct addresses and
    fixed maps, however searches, explorations, migration and deletion requests, their messages,
    losses and timeouts interleave, a channel gets at most one answer.  It answers a request
    of the same kind of the same node with the same packet id: what a member of the g-node asked
    about found for the level and the reservation id asked with, the g-node of a member at the
    level asked for, or that a member has passed the migration to its coordinator.  When
    no node has drawn a packet id twice for one kind, that request is the one whose channel it
    is; the ids are pseudo-random, and nothing checks that one is free. *)
Theorem answers_never_crossed s0 s tx got :
  routing_start s0 → rtc routing_step s0 s → (tx, got) ∈ ry_replies s →
  NoDup (ry_replies s).*1 ∧
  ∃ c, ry_calls s !! tx = Some c ∧
    (∃ tx' c', ry_calls s !! tx' = Some c' ∧ cl_node c' = cl_node c ∧ cl_pkt_id c' = cl_pkt_id c ∧
       kind_of (cl_request c') = kind_of (cl_request c) ∧ answers_request (ry_coord s) (cl_request c') got) ∧
    (ids_distinct (ry_calls s) → answers_request (ry_coord s) (cl_request c) got).
Proof.
  intros (Hf & Hc & Hr & Hd & Hp) Hs Hin. assert (routing_inv s) as Hi.
  { assert (routing_inv s0) as H0.
    - split; rewrite ?Hf, ?Hr, ?Hc; try done; [intros n p Hn k pk x; rewrite (Hp _ _ Hn); by destruct k|apply NoDup_nil_2|intros; set_solver].
    - clear -H0 Hs distinct_addresses. induction Hs; [done|]. eauto using routing_step_inv. }
  split; [apply Hi|]. destruct (proj1 (Forall_forall _ _) (ri_replies _ Hi) _ Hin) as (c & tx' & c' & Hcall & Hcall' & Hn & Hpk & Hk & Ha). cbn in *.
  exists c. split; [done|]. split; [by exists tx', c'|]. intros Hids. assert (tx' = tx) as -> by (by eapply Hids). congruence.
Qed.
End System.

(** ** Examples

    Three nodes in a line, of a topology of two levels with two places each: nodes 0 and 1 are
    [0; 0] and [1; 0], node 2 is [0; 1] and has a free place. *)
Definition line_view (pos : list Z) : QspnView :=
  mkView (mkTopology [2; 2]%Z) 7 3 (λ l, default 0%Z (pos !! l)) (λ _, 0%Z) 0 (λ _, 1) (λ _ _, 0%Z) (λ _ _, []) true.
Definition line_env (n : nat) : MessageRouting nat :=
  match n with
  | 0 => mkRouting (line_view [0; 0]%Z) (λ _, Some 1) (λ _ _, None)
  | 1 => mkRouting (line_view [1; 0]%Z) (λ hc, Some (if hc_level hc =? 0 then 0 else 2)) (λ _ _, None)
  | _ => mkRouting (line_view [0; 1]%Z) (λ _, Some 1) (λ _ lvl, if lvl =? 1 then Some (mkReservation 1 5) else None)
  end.
Definition line_of_three : gset nat := {[0; 1; 2]}.
Definition line_dist (n : nat) (pos : list Z) : nat :=
  match n, pos with 0, [_] => 2 | _, _ => 1 end.
Definition line_net : gmap nat PendingReplies := {[0 := no_replies; 1 := no_replies; 2 := no_replies]}.
Definition line_hops : list PathHop := [mkPathHop (mkTuple [1]%Z [0]%Z) None].

Lemma line_nodes_cases n : n ∈ line_of_three → n = 0 ∨ n = 1 ∨ n = 2.
Proof. unfold line_of_three. set_solver. Qed.

Lemma hc_member_pos {Node : Type} (env : Node → MessageRouting Node) v hc k :
  hc_level hc < v_levels v → v_levels (mr_view (env k)) = v_levels v → i_am_inside (make_tuple_from_hc hc v) (mr_view (env k)) = true →
  v_my_pos (mr_view (env k)) (hc_level hc) = hc_pos hc.
Proof.
  intros Hl Hlv Hin. rewrite inside_pointwise in Hin by (cbn; rewrite length_fmap, length_seq; lia).
  rewrite <-(Hin 0 (hc_pos hc)) by done. f_equal. cbn. rewrite length_fmap, length_seq. lia.
Qed.

#[local] Instance line_gateways : Gateways line_env line_of_three (mkTopology [2; 2]%Z) line_dist.
Proof.
  split.
  - intros n [->|[->| ->]]%line_nodes_cases; reflexivity.
  - intros n n' [->|[->| ->]]%line_nodes_cases [[->|[->| ->]]%line_nodes_cases Hin]; first [reflexivity|by vm_compute in Hin].
  - intros n [l pos] k Hn Hl Hne [Hk Hin]. cbn in Hl.
    assert (pos = v_my_pos (mr_view (line_env k)) l) as ->.
    { symmetry. apply (hc_member_pos line_env (mr_view (line_env n)) (mkHCoord l pos)); [|by apply line_nodes_cases in Hn as [->|[->| ->]], Hk as Hk; destruct k as [|[|]]|done].
      by apply line_nodes_cases in Hn as [->|[->| ->]]. }
    apply line_nodes_cases in Hn as [->|[->| ->]], Hk as [->|[->| ->]]; (destruct l as [|[|l]]; [..|lia]);
      try (by vm_compute in Hin); try (by vm_compute in Hne); eexists; (split; [reflexivity|]); (split; [split; [unfold line_of_three; set_solver|reflexivity]|]);
      first [by left; vm_compute|right; vm_compute; lia].
Qed.

Lemma routed_search_exact_witness :
  ∃ k c es, gnode_member line_env line_of_three (mkTuple [1]%Z [0]%Z) k ∧
    search_exchange line_env (c + 1) line_net 0 77 3 line_hops 2 9 =
      Some (line_net, es, execute_search (mr_view (line_env k)) (mr_reserve (line_env k) 9) (mkTuple [1]%Z [0]%Z) 2).
Proof.
  destruct (routed_search_exact line_env (nodes := line_of_three) (topology := mkTopology [2; 2]%Z) (dist := line_dist) line_net 0 no_replies 77 3 line_hops
    (mkPathHop (mkTuple [1]%Z [0]%Z) None) 2 9 2) as (c & k & Hk & Hf); [..|destruct (Hf 0) as (es & _ & He); by exists k, c, es].
  - unfold line_of_three. set_solver.
  - vm_compute. reflexivity.
  - reflexivity.
  - reflexivity.
  - reflexivity.
  - cbn. lia.
  - split; [unfold line_of_three; set_solver|reflexivity].
Defined.

(** The answer of node 2 to node 0. *)
Lemma line_answer : ∃ net es step, search_exchange line_env 9 line_net 0 77 3 line_hops 2 9 = Some (net, es, Some step) ∧ ss_real_new_pos step = Some 1%Z.
Proof. vm_compute. do 3 eexists. split; reflexivity. Qed.

Lemma routed_explore_exact_witness :
  ∃ k c es, explore_exchange line_env (c + 1) line_net 0 77 3 line_hops 1 = Some (line_net, es, Some (make_tuple_from_level 1 (mr_view (line_env k)))).
Proof.
  destruct (routed_explore_exact line_env (nodes := line_of_three) (topology := mkTopology [2; 2]%Z) (dist := line_dist) line_net 0 no_replies 77 3 line_hops
    (mkPathHop (mkTuple [1]%Z [0]%Z) None) 1 2) as (c & k & Hk & Hf); [..|destruct (Hf 0) as (es & He); by exists k, c, es].
  - unfold line_of_three. set_solver.
  - vm_compute. reflexivity.
  - reflexivity.
  - reflexivity.
  - reflexivity.
  - cbn. lia.
  - split; [unfold line_of_three; set_solver|reflexivity].
Defined.

Definition line_packet : RequestPacket :=
  mkRequestPacket 0 (mkTuple [1]%Z [0]%Z) tuple_default PrepareMigration 4 0 tuple_default 0 0.
Lemma routed_migration_once_witness :
  ∃ k c es, mig_exchange line_env (c + 1) line_net 0 77 3 line_packet = Some (line_net, es, Some tt) ∧ coordinator_calls es = [(k, CallPrepareMigration 1 4)].
Proof.
  destruct (routed_migration_once line_env (nodes := line_of_three) (topology := mkTopology [2; 2]%Z) (dist := line_dist) line_net 0 no_replies 77 3 line_packet 2)
    as (c & k & [Hk _] & Hf); [..|destruct (Hf 0) as (es & He & Hc); exists k, c, es; split; [exact He|rewrite Hc; by apply line_nodes_cases in Hk as [->|[->| ->]]]].
  - unfold line_of_three. set_solver.
  - vm_compute. reflexivity.
  - reflexivity.
  - reflexivity.
  - cbn. lia.
  - split; [unfold line_of_three; set_solver|reflexivity].
Defined.

(** A search and an exploration of node 0 under one packet id, one message at a time. *)
Definition line_start : RoutingSys (Node := nat) := mkRoutingSys line_net [] ∅ [] [].
Definition line_send (tx : nat) (req : Request) (s : RoutingSys (Node := nat)) : RoutingSys (Node := nat) :=
  match ry_net s !! 0, ry_calls s !! tx with
  | Some p, None =>
      let '(p', es, next) := send_request line_env 0 p 77 tx req in
      mkRoutingSys (<[0 := p']> (ry_net s)) (option_list next ++ ry_flight s) (<[tx := mkCall 0 77%Z req]> (ry_calls s)) (ry_replies s) (ry_coord s ++ coord_calls 0 es)
  | _, _ => s
  end.
Definition line_step (s : RoutingSys (Node := nat)) : RoutingSys (Node := nat) :=
  match ry_flight s with
  | [] => s
  | (n, m) :: after =>
      match ry_net s !! n with
      | None => s
      | Some p => let '(p', es, next) := route_msg (line_env n) p m in
          mkRoutingSys (<[n := p']> (ry_net s)) (option_list next ++ after) (ry_calls s) (ry_replies s ++ replies_of es) (ry_coord s ++ coord_calls n es)
      end
  end.
Lemma line_send_ok tx req (s : RoutingSys (Node := nat)) : rtc (routing_step line_env) s (line_send tx req s).
Proof.
  unfold line_send. destruct (ry_net s !! 0) as [p|] eqn:Hp; [|done]. destruct (ry_calls s !! tx) eqn:Hc; [done|].
  destruct (send_request line_env 0 p 77 tx req) as [[p' es] next] eqn:Hs. apply rtc_once. by eapply rstep_send.
Qed.
Lemma line_step_ok (s : RoutingSys (Node := nat)) : rtc (routing_step line_env) s (line_step s).
Proof.
  unfold line_step. destruct (ry_flight s) as [|[n m] after] eqn:Hf; [done|]. destruct (ry_net s !! n) as [p|] eqn:Hp; [|done].
  destruct (route_msg (line_env n) p m) as [[p' es] next] eqn:Hr. apply rtc_once. by apply (rstep_deliver _ s [] n m after p).
Qed.
Definition line_sent : RoutingSys (Node := nat) := line_send 4 (AskExplore line_hops 1) (line_send 3 (AskSearch line_hops 2 9) line_start).
Definition line_end : RoutingSys (Node := nat) := Nat.iter 8 line_step line_sent.
Lemma line_runs : rtc (routing_step line_env) line_start line_end.
Proof.
  transitivity line_sent; [transitivity (line_send 3 (AskSearch line_hops 2 9) line_start); apply line_send_ok|].
  unfold line_end. generalize 8. intros n. induction n as [|n IH]; [done|]. cbn [Nat.iter]. etrans; [exact IH|apply line_step_ok].
Qed.

Lemma answers_never_crossed_witness :
  ∃ r g, ry_replies line_end = [(4, GotExplore g); (3, GotSearch (Some r))] ∧
    ∃ c, ry_calls line_end !! 3 = Some c ∧ answers_request line_env line_of_three (ry_coord line_end) (cl_request c) (GotSearch (Some r)).
Proof.
  assert (∃ r g, ry_replies line_end = [(4, GotExplore g); (3, GotSearch (Some r))]) as (r & g & Hr) by (vm_compute; eexists _, _; reflexivity).
  assert ((3, GotSearch (Some r)) ∈ ry_replies line_end) as Hin by (rewrite Hr; apply list_elem_of_further, list_elem_of_here).
  exists r, g. split; [exact Hr|].
  destruct (answers_never_crossed line_env line_of_three (gw_address line_env) line_start line_end 3 (GotSearch (Some r))) as (_ & c & Hc & _ & Ha).
  - split; [reflexivity|]. split; [reflexivity|]. split; [reflexivity|]. split; [vm_compute; reflexivity|].
    intros n p Hp. unfold line_start, line_net in Hp. cbn [ry_net] in Hp. rewrite !lookup_insert_Some, lookup_singleton_Some in Hp.
    repeat (destruct Hp as [[_ <-]|[_ Hp]]; [reflexivity|]). by destruct Hp as [_ <-].
  - exact line_runs.
  - exact Hin.
  - exists c. split; [exact Hc|]. apply Ha. intros x y cx cy Hx Hy _ _ Hk.
    assert (ry_calls line_end = <[4 := mkCall 0 77%Z (AskExplore line_hops 1)]> (<[3 := mkCall 0 77%Z (AskSearch line_hops 2 9)]> ∅)) as E by (vm_compute; reflexivity).
    rewrite E in Hx, Hy. apply lookup_insert_Some in Hx as [[<- <-]|[_ Hx]], Hy as [[<- <-]|[_ Hy]]; try reflexivity;
      repeat match goal with X : <[3 := _]> ∅ !! _ = Some _ |- _ => apply lookup_insert_Some in X as [[<- <-]|[_ X]]; [|by rewrite lookup_empty in X] end; [discriminate Hk..|reflexivity].
Defined.
