(* ===== verification/HookWire.v ===== *)
(** * Hooking on the wire

    Models [crates/ntk-hooking/src]: [wire.rs] (the messages of [proto/hooking.proto] and their
    conversions) and the dispatch of [rpc.rs].  The byte encoding of a message is the class
    [ProstMessage]. *)
From stdpp Require Import strings.
From S2P Require Import Prelude Addressing Domain HookDomain HookSearch HookSearchProps HookRouting HookRoutingProps PeerWireProps.

(** ** Messages *)
Inductive HookWireError := HwDomain (e : DomainDecodeError) | HwMissingField (field : string) | HwBadEnum (field : string).

Record WireHookTuple := mkWireHookTuple { hwt_pos : list Z; hwt_eldership : list Z }.
Record WirePathHop := mkWirePathHop { hwh_visiting_gnode : option WireHookTuple; hwh_previous_migrating_gnode : option WireHookTuple }.
Record WirePairTuple := mkWirePairTuple { hwp_gnode : option WireHookTuple; hwp_border_real_pos : Z }.
Record WireNetworkData := mkWireNetworkData {
  hwn_network_id : Z; hwn_neighbor_n_nodes : Z; hwn_neighbor_min_level : Z; hwn_gsizes : list Z; hwn_neighbor_pos : list Z }.
Record WireHookEntryData := mkWireHookEntryData { hwe_network_id : Z; hwe_pos : list Z; hwe_elderships : list Z }.
Record WireSearchRequest := mkWireSearchRequest {
  hwq_pkt_id : Z; hwq_origin : option WireHookTuple; hwq_caller : option WireHookTuple; hwq_path_hops : list WirePathHop; hwq_max_host_lvl : Z; hwq_reserve_request_id : Z }.
Record WireSearchError := mkWireSearchError { hwx_pkt_id : Z; hwx_origin : option WireHookTuple }.
Record WireSearchResponse := mkWireSearchResponse {
  hws_pkt_id : Z; hws_origin : option WireHookTuple; hws_min_host_lvl : Z; hws_set_adjacent : list WirePairTuple; hws_final_host_lvl : Z;
  hws_real_new_pos : Z; hws_real_new_eldership : Z; hws_new_conn_vir_pos : Z; hws_new_eldership : Z }.
Record WireExploreRequest := mkWireExploreRequest { hwy_pkt_id : Z; hwy_origin : option WireHookTuple; hwy_path_hops : list WirePathHop; hwy_requested_lvl : Z }.
Record WireExploreResponse := mkWireExploreResponse { hwz_pkt_id : Z; hwz_origin : option WireHookTuple; hwz_result : option WireHookTuple }.
Record WireDeleteReserve := mkWireDeleteReserve { hwd_dest_gnode : option WireHookTuple; hwd_reserve_request_id : Z }.
Record WireRequestPacket := mkWireRequestPacket {
  hwr_pkt_id : Z; hwr_dest : option WireHookTuple; hwr_src : option WireHookTuple; hwr_operation : Z; hwr_migration_id : Z; hwr_conn_gnode_pos : Z;
  hwr_host_gnode : option WireHookTuple; hwr_real_new_pos : Z; hwr_real_new_eldership : Z }.
Record WireResponsePacket := mkWireResponsePacket { hwo_pkt_id : Z; hwo_dest : option WireHookTuple }.

Definition NETWORK_DATA_TAG : string := "hooking.NetworkData".
Definition ENTRY_DATA_TAG : string := "hooking.EntryData".
Definition SEARCH_REQUEST_TAG : string := "hooking.SearchMigrationPathRequest".
Definition SEARCH_ERROR_TAG : string := "hooking.SearchMigrationPathErrorPkt".
Definition SEARCH_RESPONSE_TAG : string := "hooking.SearchMigrationPathResponse".
Definition EXPLORE_REQUEST_TAG : string := "hooking.ExploreGNodeRequest".
Definition EXPLORE_RESPONSE_TAG : string := "hooking.ExploreGNodeResponse".
Definition DELETE_RESERVE_REQUEST_TAG : string := "hooking.DeleteReservationRequest".
Definition MIG_REQUEST_TAG : string := "hooking.RequestPacket".
Definition MIG_RESPONSE_TAG : string := "hooking.ResponsePacket".

(** ** Conversions *)

(** [u32::try_from(n).unwrap_or(u32::MAX)] and its [i32] twin, on a [usize]. *)
Definition u32_or_max (n : nat) : Z := Z.min (Z.of_nat n) U32_MAX.
Definition i32_or_max (n : nat) : Z := Z.min (Z.of_nat n) (2 ^ 31 - 1).
Definition opt_i32 (v : option Z) : Z := match v with Some x => if (x <? 2 ^ 31)%Z then x else (-1)%Z | None => (-1)%Z end.
Definition opt_i32_signed (v : option Z) : Z := default (-1)%Z v.
Definition i32_opt_u32 (v : Z) : option Z := u32_try_from v.
Definition i32_opt_i32 (v : Z) : option Z := if bool_decide (v = (-1)%Z) then None else Some v.

Definition hook_tuple_to_wire (t : HookTuple) : WireHookTuple := mkWireHookTuple (ht_pos t) (ht_eldership t).
(** The eldership is made as long as the positions. *)
Definition hook_tuple_from_wire (w : WireHookTuple) : HookTuple := mkTuple (hwt_pos w) (resize (length (hwt_pos w)) (-1)%Z (hwt_eldership w)).
Definition required (w : option WireHookTuple) (field : string) : res HookWireError HookTuple := ok_or (hook_tuple_from_wire <$> w) (HwMissingField field).

Definition path_hop_to_wire (h : PathHop) : WirePathHop :=
  mkWirePathHop (Some (hook_tuple_to_wire (ph_visiting_gnode h))) (hook_tuple_to_wire <$> ph_previous_migrating_gnode h).
Definition path_hop_from_wire (w : WirePathHop) : res HookWireError PathHop :=
  visiting_gnode ← required (hwh_visiting_gnode w) "PathHop.visiting_gnode"; Ok (mkPathHop visiting_gnode (hook_tuple_from_wire <$> hwh_previous_migrating_gnode w)).
Definition pair_to_wire (p : PairTupleGNodeInt) : WirePairTuple := mkWirePairTuple (Some (hook_tuple_to_wire (pt_gnode p))) (pt_border_real_pos p).
Definition pair_from_wire (w : WirePairTuple) : res HookWireError PairTupleGNodeInt :=
  gnode ← required (hwp_gnode w) "PairTupleGNodeInt.gnode"; Ok (mkPair gnode (hwp_border_real_pos w)).
Definition encode_hops (hops : list PathHop) : list WirePathHop := path_hop_to_wire <$> hops.
Definition decode_hops (hops : list WirePathHop) : res HookWireError (list PathHop) := mapM path_hop_from_wire hops.
Definition encode_adjacent (set : list PairTupleGNodeInt) : list WirePairTuple := pair_to_wire <$> set.
Definition decode_adjacent (set : list WirePairTuple) : res HookWireError (list PairTupleGNodeInt) := mapM pair_from_wire set.

Definition network_data_to_wire (n : NetworkData) : WireNetworkData :=
  mkWireNetworkData (nd_network_id n) (nd_neighbor_n_nodes n) (u32_or_max (nd_neighbor_min_level n)) (nd_gsizes n) (nd_neighbor_pos n).
Definition network_data_from_wire (w : WireNetworkData) : NetworkData :=
  mkNetworkData (hwn_network_id w) (hwn_neighbor_n_nodes w) (Z.to_nat (hwn_neighbor_min_level w)) (hwn_gsizes w) (hwn_neighbor_pos w).
Definition entry_data_to_wire (e : EntryData) : WireHookEntryData := mkWireHookEntryData (ed_network_id e) (ed_pos e) (ed_elderships e).
Definition entry_data_from_wire (w : WireHookEntryData) : EntryData := mkEntryData (hwe_network_id w) (hwe_pos w) (hwe_elderships w).

Definition search_request_to_wire (r : SearchMigrationPathRequest) : WireSearchRequest :=
  mkWireSearchRequest (sq_pkt_id r) (Some (hook_tuple_to_wire (sq_origin r))) (Some (hook_tuple_to_wire (sq_caller r))) (encode_hops (sq_path_hops r))
    (u32_or_max (sq_max_host_lvl r)) (sq_reserve_request_id r).
Definition search_request_from_wire (w : WireSearchRequest) : res HookWireError SearchMigrationPathRequest :=
  origin ← required (hwq_origin w) "SearchMigrationPathRequest.origin";
  caller ← required (hwq_caller w) "SearchMigrationPathRequest.caller";
  path_hops ← decode_hops (hwq_path_hops w);
  Ok (mkSearchRequest (hwq_pkt_id w) origin caller path_hops (Z.to_nat (hwq_max_host_lvl w)) (hwq_reserve_request_id w)).
Definition search_error_to_wire (p : SearchMigrationPathErrorPkt) : WireSearchError := mkWireSearchError (sx_pkt_id p) (Some (hook_tuple_to_wire (sx_origin p))).
Definition search_error_from_wire (w : WireSearchError) : res HookWireError SearchMigrationPathErrorPkt :=
  origin ← required (hwx_origin w) "SearchMigrationPathErrorPkt.origin"; Ok (mkSearchError (hwx_pkt_id w) origin).
Definition search_response_to_wire (r : SearchMigrationPathResponse) : WireSearchResponse :=
  mkWireSearchResponse (sp_pkt_id r) (Some (hook_tuple_to_wire (sp_origin r))) (u32_or_max (sp_min_host_lvl r)) (encode_adjacent (sp_set_adjacent r))
    (i32_or_max (sp_final_host_lvl r)) (opt_i32 (sp_real_new_pos r)) (opt_i32_signed (sp_real_new_eldership r)) (opt_i32 (sp_new_conn_vir_pos r))
    (opt_i32_signed (sp_new_eldership r)).
Definition search_response_from_wire (w : WireSearchResponse) : res HookWireError SearchMigrationPathResponse :=
  origin ← required (hws_origin w) "SearchMigrationPathResponse.origin";
  set_adjacent ← decode_adjacent (hws_set_adjacent w);
  Ok (mkSearchResponse (hws_pkt_id w) origin (Z.to_nat (hws_min_host_lvl w)) set_adjacent (Z.to_nat (Z.max (hws_final_host_lvl w) 0))
    (i32_opt_u32 (hws_real_new_pos w)) (i32_opt_i32 (hws_real_new_eldership w)) (i32_opt_u32 (hws_new_conn_vir_pos w)) (i32_opt_i32 (hws_new_eldership w))).
Definition explore_request_to_wire (r : ExploreGNodeRequest) : WireExploreRequest :=
  mkWireExploreRequest (xq_pkt_id r) (Some (hook_tuple_to_wire (xq_origin r))) (encode_hops (xq_path_hops r)) (u32_or_max (xq_requested_lvl r)).
Definition explore_request_from_wire (w : WireExploreRequest) : res HookWireError ExploreGNodeRequest :=
  origin ← required (hwy_origin w) "ExploreGNodeRequest.origin";
  path_hops ← decode_hops (hwy_path_hops w);
  Ok (mkExploreRequest (hwy_pkt_id w) origin path_hops (Z.to_nat (hwy_requested_lvl w))).
Definition explore_response_to_wire (r : ExploreGNodeResponse) : WireExploreResponse :=
  mkWireExploreResponse (xp_pkt_id r) (Some (hook_tuple_to_wire (xp_origin r))) (Some (hook_tuple_to_wire (xp_result r))).
Definition explore_response_from_wire (w : WireExploreResponse) : res HookWireError ExploreGNodeResponse :=
  origin ← required (hwz_origin w) "ExploreGNodeResponse.origin";
  result ← required (hwz_result w) "ExploreGNodeResponse.result";
  Ok (mkExploreResponse (hwz_pkt_id w) origin result).
Definition delete_reserve_to_wire (r : DeleteReservationRequest) : WireDeleteReserve :=
  mkWireDeleteReserve (Some (hook_tuple_to_wire (dr_dest_gnode r))) (dr_reserve_request_id r).
Definition delete_reserve_from_wire (w : WireDeleteReserve) : res HookWireError DeleteReservationRequest :=
  dest_gnode ← required (hwd_dest_gnode w) "DeleteReservationRequest.dest_gnode"; Ok (mkDeleteReserve dest_gnode (hwd_reserve_request_id w)).
(** The numbers are those of [hooking.proto]. *)
Definition mig_op_to_wire (op : MigOp) : Z := match op with PrepareMigration => 1 | FinishMigration => 2 end.
Definition mig_op_from_wire (v : Z) : res HookWireError MigOp :=
  match v with 1%Z => Ok PrepareMigration | 2%Z => Ok FinishMigration | _ => Err (HwBadEnum "RequestPacket.operation") end.
Definition request_packet_to_wire (p : RequestPacket) : WireRequestPacket :=
  mkWireRequestPacket (rp_pkt_id p) (Some (hook_tuple_to_wire (rp_dest p))) (Some (hook_tuple_to_wire (rp_src p))) (mig_op_to_wire (rp_operation p))
    (rp_migration_id p) (rp_conn_gnode_pos p) (Some (hook_tuple_to_wire (rp_host_gnode p))) (rp_real_new_pos p) (rp_real_new_eldership p).
Definition request_packet_from_wire (w : WireRequestPacket) : res HookWireError RequestPacket :=
  dest ← required (hwr_dest w) "RequestPacket.dest";
  src ← required (hwr_src w) "RequestPacket.src";
  operation ← mig_op_from_wire (hwr_operation w);
  host_gnode ← required (hwr_host_gnode w) "RequestPacket.host_gnode";
  Ok (mkRequestPacket (hwr_pkt_id w) dest src operation (hwr_migration_id w) (hwr_conn_gnode_pos w) host_gnode (hwr_real_new_pos w) (hwr_real_new_eldership w)).
Definition response_packet_to_wire (p : ResponsePacket) : WireResponsePacket := mkWireResponsePacket (rs_pkt_id p) (Some (hook_tuple_to_wire (rs_dest p))).
Definition response_packet_from_wire (w : WireResponsePacket) : res HookWireError ResponsePacket :=
  dest ← required (hwo_dest w) "ResponsePacket.dest"; Ok (mkResponsePacket (hwo_pkt_id w) dest).

(** ** Typed values and inbound calls *)

(** The macro [typed_codec!]. *)
Definition typed_encode {D M} `{ProstMessage M} (tag : string) (to_wire : D → M) (v : D) : TypedValue := typed_value tag (to_wire v).
Definition typed_decode {D M} `{ProstMessage M} (tag : string) (from_wire : M → res HookWireError D) (tv : TypedValue) : res HookWireError D :=
  wire ← map_err HwDomain (from_typed_value tv tag); from_wire wire.

(** The [hooking_*] arms of a method call. *)
Inductive HookCall :=
  | HookingRetrieveNetworkData (ask_coord : bool)
  | HookingSearchMigrationPath (lvl : Z)
  | HookingRouteSearchRequest (tv : TypedValue)
  | HookingRouteSearchError (tv : TypedValue)
  | HookingRouteSearchResponse (tv : TypedValue)
  | HookingRouteExploreRequest (tv : TypedValue)
  | HookingRouteExploreResponse (tv : TypedValue)
  | HookingRouteDeleteReserveRequest (tv : TypedValue)
  | HookingRouteMigRequest (tv : TypedValue)
  | HookingRouteMigResponse (tv : TypedValue)
  | HookingOther.
(** What a call asks of the node. *)
Inductive HookRequest := AskNetworkData (ask_coord : bool) | AskMigrationPath (lvl : nat) | AskRoute (m : RouteMsg).
(** The domains of a remote error. *)
Inductive HookRemote := HookNotBootstrapped | HookNotPrincipal | HookNoMigrationPath | HookMigrationPathFailure | HookDeserialize.
Definition hooking_error_to_remote (e : HookingServerError) : HookRemote :=
  match e with
  | NotBootstrapped => HookNotBootstrapped
  | HookingNotPrincipal => HookNotPrincipal
  | NoMigrationPathFound => HookNoMigrationPath
  | MigrationPathExecuteFailure => HookMigrationPathFailure
  | HookLevelOutOfRange => HookDeserialize
  end.
Definition wire_error_to_remote (e : HookWireError) : HookRemote := HookDeserialize.

Section Codec.
Context `{ProstMessage WireNetworkData, ProstMessage WireHookEntryData, ProstMessage WireSearchRequest, ProstMessage WireSearchError,
  ProstMessage WireSearchResponse, ProstMessage WireExploreRequest, ProstMessage WireExploreResponse, ProstMessage WireDeleteReserve,
  ProstMessage WireRequestPacket, ProstMessage WireResponsePacket}.

Definition encode_network_data (n : NetworkData) : TypedValue := typed_value NETWORK_DATA_TAG (network_data_to_wire n).
Definition decode_network_data (tv : TypedValue) : res HookWireError NetworkData :=
  n ← map_err HwDomain (from_typed_value tv NETWORK_DATA_TAG); Ok (network_data_from_wire n).
Definition encode_entry_data (e : EntryData) : TypedValue := typed_value ENTRY_DATA_TAG (entry_data_to_wire e).
Definition decode_entry_data (tv : TypedValue) : res HookWireError EntryData :=
  e ← map_err HwDomain (from_typed_value tv ENTRY_DATA_TAG); Ok (entry_data_from_wire e).
Definition encode_search_request : SearchMigrationPathRequest → TypedValue := typed_encode SEARCH_REQUEST_TAG search_request_to_wire.
Definition decode_search_request : TypedValue → res HookWireError SearchMigrationPathRequest := typed_decode SEARCH_REQUEST_TAG search_request_from_wire.
Definition encode_search_error : SearchMigrationPathErrorPkt → TypedValue := typed_encode SEARCH_ERROR_TAG search_error_to_wire.
Definition decode_search_error : TypedValue → res HookWireError SearchMigrationPathErrorPkt := typed_decode SEARCH_ERROR_TAG search_error_from_wire.
Definition encode_search_response : SearchMigrationPathResponse → TypedValue := typed_encode SEARCH_RESPONSE_TAG search_response_to_wire.
Definition decode_search_response : TypedValue → res HookWireError SearchMigrationPathResponse := typed_decode SEARCH_RESPONSE_TAG search_response_from_wire.
Definition encode_explore_request : ExploreGNodeRequest → TypedValue := typed_encode EXPLORE_REQUEST_TAG explore_request_to_wire.
Definition decode_explore_request : TypedValue → res HookWireError ExploreGNodeRequest := typed_decode EXPLORE_REQUEST_TAG explore_request_from_wire.
Definition encode_explore_response : ExploreGNodeResponse → TypedValue := typed_encode EXPLORE_RESPONSE_TAG explore_response_to_wire.
Definition decode_explore_response : TypedValue → res HookWireError ExploreGNodeResponse := typed_decode EXPLORE_RESPONSE_TAG explore_response_from_wire.
Definition encode_delete_reserve_request : DeleteReservationRequest → TypedValue := typed_encode DELETE_RESERVE_REQUEST_TAG delete_reserve_to_wire.
Definition decode_delete_reserve_request : TypedValue → res HookWireError DeleteReservationRequest := typed_decode DELETE_RESERVE_REQUEST_TAG delete_reserve_from_wire.
Definition encode_mig_request : RequestPacket → TypedValue := typed_encode MIG_REQUEST_TAG request_packet_to_wire.
Definition decode_mig_request : TypedValue → res HookWireError RequestPacket := typed_decode MIG_REQUEST_TAG request_packet_from_wire.
Definition encode_mig_response : ResponsePacket → TypedValue := typed_encode MIG_RESPONSE_TAG response_packet_to_wire.
Definition decode_mig_response : TypedValue → res HookWireError ResponsePacket := typed_decode MIG_RESPONSE_TAG response_packet_from_wire.

Definition hook_dispatch (call : HookCall) : res HookRemote HookRequest :=
  let routed {A} (f : A → RouteMsg) (r : res HookWireError A) := x ← map_err wire_error_to_remote r; Ok (AskRoute (f x)) in
  match call with
  | HookingRetrieveNetworkData ask_coord => Ok (AskNetworkData ask_coord)
  | HookingSearchMigrationPath lvl => if (lvl <? 0)%Z then Err HookDeserialize else Ok (AskMigrationPath (Z.to_nat lvl))
  | HookingRouteSearchRequest tv => routed RouteSearchRequest (decode_search_request tv)
  | HookingRouteSearchError tv => routed RouteSearchError (decode_search_error tv)
  | HookingRouteSearchResponse tv => routed RouteSearchResponse (decode_search_response tv)
  | HookingRouteExploreRequest tv => routed RouteExploreRequest (decode_explore_request tv)
  | HookingRouteExploreResponse tv => routed RouteExploreResponse (decode_explore_response tv)
  | HookingRouteDeleteReserveRequest tv => routed RouteDeleteReserveRequest (decode_delete_reserve_request tv)
  | HookingRouteMigRequest tv => routed RouteMigRequest (decode_mig_request tv)
  | HookingRouteMigResponse tv => routed RouteMigResponse (decode_mig_response tv)
  | HookingOther => Err HookDeserialize
  end.
(** The typed answers of the two calls that have one. *)
Definition network_data_answer (r : res HookingServerError NetworkData) : res HookRemote TypedValue :=
  nd ← map_err hooking_error_to_remote r; Ok (encode_network_data nd).
Definition entry_data_answer (r : res HookingServerError EntryData) : res HookRemote TypedValue :=
  entry ← map_err hooking_error_to_remote r; Ok (encode_entry_data entry).

(** The call a stub makes for a message. *)
Definition hook_call (m : RouteMsg) : HookCall :=
  match m with
  | RouteSearchRequest req => HookingRouteSearchRequest (encode_search_request req)
  | RouteSearchError pkt => HookingRouteSearchError (encode_search_error pkt)
  | RouteSearchResponse resp => HookingRouteSearchResponse (encode_search_response resp)
  | RouteExploreRequest req => HookingRouteExploreRequest (encode_explore_request req)
  | RouteExploreResponse resp => HookingRouteExploreResponse (encode_explore_response resp)
  | RouteDeleteReserveRequest req => HookingRouteDeleteReserveRequest (encode_delete_reserve_request req)
  | RouteMigRequest req => HookingRouteMigRequest (encode_mig_request req)
  | RouteMigResponse resp => HookingRouteMigResponse (encode_mig_response resp)
  end.
End Codec.

(** ** There and back *)
Definition tuple_aligned (t : HookTuple) : Prop := length (ht_eldership t) = length (ht_pos t).
Definition hop_aligned (h : PathHop) : Prop := tuple_aligned (ph_visiting_gnode h) ∧ Forall tuple_aligned (option_list (ph_previous_migrating_gnode h)).
Definition fits_u32 (n : nat) : Prop := (Z.of_nat n ≤ U32_MAX)%Z.
Definition position_fits (p : option Z) : Prop := Forall (λ x, 0 ≤ x < 2 ^ 31)%Z (option_list p).
Definition eldership_fits (e : option Z) : Prop := e ≠ Some (-1)%Z.

(** Every tuple of a message has as many elderships as positions. *)
Definition msg_aligned (m : RouteMsg) : Prop :=
  match m with
  | RouteSearchRequest r => tuple_aligned (sq_origin r) ∧ tuple_aligned (sq_caller r) ∧ Forall hop_aligned (sq_path_hops r)
  | RouteSearchError p => tuple_aligned (sx_origin p)
  | RouteSearchResponse r => tuple_aligned (sp_origin r) ∧ Forall (λ p, tuple_aligned (pt_gnode p)) (sp_set_adjacent r)
  | RouteExploreRequest r => tuple_aligned (xq_origin r) ∧ Forall hop_aligned (xq_path_hops r)
  | RouteExploreResponse r => tuple_aligned (xp_origin r) ∧ tuple_aligned (xp_result r)
  | RouteDeleteReserveRequest r => tuple_aligned (dr_dest_gnode r)
  | RouteMigRequest p => tuple_aligned (rp_dest p) ∧ tuple_aligned (rp_src p) ∧ tuple_aligned (rp_host_gnode p)
  | RouteMigResponse p => tuple_aligned (rs_dest p)
  end.
(** Its numbers have room on the wire. *)
Definition msg_in_range (m : RouteMsg) : Prop :=
  match m with
  | RouteSearchRequest r => fits_u32 (sq_max_host_lvl r)
  | RouteSearchResponse r =>
      fits_u32 (sp_min_host_lvl r) ∧ (Z.of_nat (sp_final_host_lvl r) < 2 ^ 31)%Z ∧ position_fits (sp_real_new_pos r) ∧ eldership_fits (sp_real_new_eldership r) ∧
      position_fits (sp_new_conn_vir_pos r) ∧ eldership_fits (sp_new_eldership r)
  | RouteExploreRequest r => fits_u32 (xq_requested_lvl r)
  | _ => True
  end.

Lemma hook_tuple_back t : tuple_aligned t → hook_tuple_from_wire (hook_tuple_to_wire t) = t.
Proof. intros Ht. unfold hook_tuple_from_wire, hook_tuple_to_wire. cbn. rewrite <-Ht, resize_all. by destruct t. Qed.
Lemma required_back t field : tuple_aligned t → required (Some (hook_tuple_to_wire t)) field = Ok t.
Proof. intros Ht. unfold required. cbn. by rewrite hook_tuple_back. Qed.
Lemma decoded_tuple_aligned w : tuple_aligned (hook_tuple_from_wire w).
Proof. apply length_resize. Qed.
Lemma required_aligned w field t : required w field = Ok t → tuple_aligned t.
Proof. unfold required. destruct w; cbn; [|done]. intros [= <-]. apply decoded_tuple_aligned. Qed.

Lemma hook_hops_back l : Forall hop_aligned l → decode_hops (encode_hops l) = Ok l.
Proof.
  intros Hl. apply mapM_back. eapply Forall_impl; [exact Hl|]. intros h [Hv Hp]. unfold path_hop_from_wire. cbn [path_hop_to_wire hwh_visiting_gnode].
  rewrite required_back by done. cbn. destruct h as [v [q|]]; cbn in *; [|done]. apply (proj1 (Forall_singleton _ _)) in Hp. by rewrite hook_tuple_back.
Qed.
Lemma adjacent_back l : Forall (λ p, tuple_aligned (pt_gnode p)) l → decode_adjacent (encode_adjacent l) = Ok l.
Proof. intros Hl. apply mapM_back. eapply Forall_impl; [exact Hl|]. intros p Hp. unfold pair_from_wire. cbn [pair_to_wire hwp_gnode]. rewrite required_back by done. by destruct p. Qed.

Lemma u32_level_back n : fits_u32 n → Z.to_nat (u32_or_max n) = n.
Proof. unfold fits_u32, u32_or_max. lia. Qed.
Lemma i32_level_back n : (Z.of_nat n < 2 ^ 31)%Z → Z.to_nat (Z.max (i32_or_max n) 0) = n.
Proof. unfold i32_or_max. lia. Qed.
Lemma position_back p : position_fits p → i32_opt_u32 (opt_i32 p) = p.
Proof.
  destruct p as [x|]; [|done]. unfold position_fits. cbn [option_list]. intros Hx. apply (proj1 (Forall_singleton _ _)) in Hx. unfold i32_opt_u32, opt_i32, u32_try_from. cbn beta in Hx. rewrite (proj2 (Z.ltb_lt x (2 ^ 31))) by lia.
  by rewrite (proj2 (Z.ltb_ge _ _)) by lia.
Qed.
Lemma eldership_back e : eldership_fits e → i32_opt_i32 (opt_i32_signed e) = e.
Proof. unfold eldership_fits, i32_opt_i32, opt_i32_signed. destruct e as [x|]; cbn; [|done]. intros Hx. rewrite bool_decide_false; [done|]. congruence. Qed.

Section WireProps.
Context `{ProstMessage WireNetworkData, ProstMessage WireHookEntryData, ProstMessage WireSearchRequest, ProstMessage WireSearchError,
  ProstMessage WireSearchResponse, ProstMessage WireExploreRequest, ProstMessage WireExploreResponse, ProstMessage WireDeleteReserve,
  ProstMessage WireRequestPacket, ProstMessage WireResponsePacket}.

Lemma typed_back {D M} `{ProstMessage M} tag (to_wire : D → M) (from_wire : M → res HookWireError D) v : typed_decode tag from_wire (typed_encode tag to_wire v) = from_wire (to_wire v).
Proof. unfold typed_decode, typed_encode. by rewrite from_typed_value_typed_value. Qed.

(** A message that fits is dispatched as it was sent. *)
Lemma dispatch_hook_call m : msg_aligned m → msg_in_range m → hook_dispatch (hook_call m) = Ok (AskRoute m).
Proof.
  intros Ha Hr. destruct m as [r|p|r|r|r|r|p|p]; cbn in Ha, Hr |- *;
    unfold decode_search_request, decode_search_error, decode_search_response, decode_explore_request, decode_explore_response, decode_delete_reserve_request,
      decode_mig_request, decode_mig_response, encode_search_request, encode_search_error, encode_search_response, encode_explore_request, encode_explore_response,
      encode_delete_reserve_request, encode_mig_request, encode_mig_response; rewrite typed_back.
  - destruct Ha as (Ho & Hc & Hh). unfold search_request_from_wire. cbn -[required decode_hops Z.to_nat]. rewrite !required_back by done. cbn -[decode_hops Z.to_nat].
    rewrite hook_hops_back by done. cbn -[Z.to_nat]. rewrite u32_level_back by done. by destruct r.
  - unfold search_error_from_wire. cbn -[required]. rewrite required_back by done. by destruct p.
  - destruct Ha as [Ho Hs], Hr as (Hm & Hf & Hp & He & Hv & Hn). unfold search_response_from_wire. cbn -[required decode_adjacent Z.to_nat i32_opt_u32 i32_opt_i32 Z.max].
    rewrite required_back by done. cbn -[decode_adjacent Z.to_nat i32_opt_u32 i32_opt_i32 Z.max]. rewrite adjacent_back by done.
    cbn -[Z.to_nat i32_opt_u32 i32_opt_i32 Z.max]. rewrite u32_level_back, i32_level_back, !position_back, !eldership_back by done. by destruct r.
  - destruct Ha as [Ho Hh]. unfold explore_request_from_wire. cbn -[required decode_hops Z.to_nat]. rewrite required_back by done. cbn -[decode_hops Z.to_nat].
    rewrite hook_hops_back by done. cbn -[Z.to_nat]. rewrite u32_level_back by done. by destruct r.
  - destruct Ha as [Ho Hh]. unfold explore_response_from_wire. cbn -[required]. rewrite !required_back by done. by destruct r.
  - unfold delete_reserve_from_wire. cbn -[required]. rewrite required_back by done. by destruct r.
  - destruct Ha as (Hd & Hs & Hh). unfold request_packet_from_wire. cbn -[required]. rewrite !required_back by done. by destruct p as [? ? ? []].
  - unfold response_packet_from_wire. cbn -[required]. rewrite required_back by done. by destruct p.
Qed.

(** ** Whatever arrives, its tuples are aligned *)
Lemma typed_decode_Ok {D M} `{ProstMessage M} tag (from_wire : M → res HookWireError D) tv v : typed_decode tag from_wire tv = Ok v → ∃ w, from_wire w = Ok v.
Proof. unfold typed_decode. destruct (map_err _ _) as [w| |]; cbn; [|done..]. eauto. Qed.

Lemma decoded_hops_aligned l l' : decode_hops l = Ok l' → Forall hop_aligned l'.
Proof.
  intros Hl. eapply (mapM_Forall _ (λ _, True)); [exact Hl|by apply Forall_true|]. intros w h _. unfold path_hop_from_wire.
  destruct (required _ _) as [v| |] eqn:Hv; cbn; [|done..]. intros [= <-]. split; [by eapply required_aligned|]. cbn.
  destruct (hwh_previous_migrating_gnode w); cbn; [|apply Forall_nil_2]. apply Forall_singleton, decoded_tuple_aligned.
Qed.
Lemma decoded_adjacent_aligned l l' : decode_adjacent l = Ok l' → Forall (λ p, tuple_aligned (pt_gnode p)) l'.
Proof.
  intros Hl. eapply (mapM_Forall _ (λ _, True)); [exact Hl|by apply Forall_true|]. intros w h _. unfold pair_from_wire.
  destruct (required _ _) as [v| |] eqn:Hv; cbn; [|done..]. intros [= <-]. by eapply required_aligned.
Qed.

(** Takes one decoding apart into the decodings of its fields. *)
Ltac decoded_fields :=
  repeat match goal with
  | Hd : context [required ?w ?f] |- _ =>
      let E := fresh "E" in destruct (required w f) as [?t| |] eqn:E; cbn in Hd; [apply required_aligned in E|discriminate Hd..]
  | Hd : context [decode_hops ?l] |- _ =>
      let E := fresh "E" in destruct (decode_hops l) as [?hops| |] eqn:E; cbn in Hd; [apply decoded_hops_aligned in E|discriminate Hd..]
  | Hd : context [decode_adjacent ?l] |- _ =>
      let E := fresh "E" in destruct (decode_adjacent l) as [?set| |] eqn:E; cbn in Hd; [apply decoded_adjacent_aligned in E|discriminate Hd..]
  | Hd : context [mig_op_from_wire ?v] |- _ => destruct (mig_op_from_wire v); cbn in Hd; [|discriminate Hd..]
  end.

Lemma dispatched_aligned call m : hook_dispatch call = Ok (AskRoute m) → msg_aligned m.
Proof.
  destruct call as [b|z|tv|tv|tv|tv|tv|tv|tv|tv|]; cbn; intros Hd; [done|by destruct (z <? 0)%Z|..|done];
    match type of Hd with context [map_err _ ?r] => destruct r as [x| |] eqn:Hx; cbn in Hd; [|done..] end;
    injection Hd as <-; apply typed_decode_Ok in Hx as [w Hx]; cbn [msg_aligned];
    unfold search_request_from_wire, search_error_from_wire, search_response_from_wire, explore_request_from_wire, explore_response_from_wire, delete_reserve_from_wire,
      request_packet_from_wire, response_packet_from_wire in Hx; decoded_fields; injection Hx as <-; done.
Qed.
End WireProps.

(** ** The network over the wire *)
Section OverTheWire.
Context {Node : Type} `{Countable Node} (env : Node → MessageRouting Node).
Context `{ProstMessage WireNetworkData, ProstMessage WireHookEntryData, ProstMessage WireSearchRequest, ProstMessage WireSearchError,
  ProstMessage WireSearchResponse, ProstMessage WireExploreRequest, ProstMessage WireExploreResponse, ProstMessage WireDeleteReserve,
  ProstMessage WireRequestPacket, ProstMessage WireResponsePacket}.
Abbreviation Net := (gmap Node PendingReplies).

(** [carry] with every message encoded by its sender and decoded by its receiver; a call that
    is refused ends there. *)
Fixpoint deliver_wire (fuel : nat) (net : Net) (n : Node) (call : HookCall) : option (Net * list (Node * RouteEffect)) :=
  match fuel with
  | 0 => None
  | S fuel' =>
      match net !! n, hook_dispatch call with
      | Some p, Ok (AskRoute m) =>
          let '(p', es, next) := route_msg (env n) p m in
          let net' := <[n := p']> net in
          match next with
          | None => Some (net', (λ e, (n, e)) <$> es)
          | Some (n', m') => '(net'', es') ← deliver_wire fuel' net' n' (hook_call m'); Some (net'', ((λ e, (n, e)) <$> es) ++ es')
          end
      | _, _ => Some (net, [])
      end
  end.

(** Levels leave room for one more, and a coordinator hands out positions and elderships that
    the messages can carry. *)
Definition routing_typed (r : MessageRouting Node) : Prop :=
  (Z.of_nat (S (v_levels (mr_view r))) < 2 ^ 31)%Z ∧
  ∀ rid lvl x, mr_reserve r rid lvl = Some x → (0 ≤ rv_pos x < 2 ^ 31)%Z ∧ rv_eldership x ≠ (-1)%Z.

Lemma level_tuple_aligned l v : tuple_aligned (make_tuple_from_level l v).
Proof. unfold tuple_aligned. by rewrite (proj1 (length_make_tuple l v)), (proj2 (length_make_tuple l v)). Qed.
Lemma adjacency_aligned v l : Forall (λ p, tuple_aligned (pt_gnode p)) (adjacency_set v l).
Proof. apply Forall_fmap, Forall_true. intros adj. unfold tuple_aligned. cbn. by rewrite !length_fmap. Qed.

Lemma reservation_fits r rid lvl p e : routing_typed r → mr_reserve r rid lvl = Some (mkReservation p e) → position_fits (Some p) ∧ eldership_fits (Some e).
Proof. intros [_ Hr] Hx. destruct (Hr _ _ _ Hx) as [Hp He]. cbn in *. split; [by apply Forall_singleton|]. unfold eldership_fits. congruence. Qed.

Lemma executed_fits r rid g max x :
  routing_typed r → execute_search (mr_view r) (mr_reserve r rid) g max = Some x →
  fits_u32 (ss_min_host_lvl x) ∧ (Z.of_nat (ss_final_host_lvl x) < 2 ^ 31)%Z ∧ position_fits (ss_real_new_pos x) ∧ eldership_fits (ss_real_new_eldership x) ∧
  position_fits (ss_new_conn_vir_pos x) ∧ eldership_fits (ss_new_eldership x).
Proof.
  intros Hr (_ & (Hmin & _ & Hfin & _ & Hreal & Hvir) & _)%execute_search_ok. pose proof (proj1 Hr) as Hl. unfold fits_u32, U32_MAX. split; [lia|]. split; [lia|].
  assert (position_fits None ∧ eldership_fits None) as [Hpn Hen] by (split; [apply Forall_nil_2|done]).
  assert (position_fits (ss_real_new_pos x) ∧ eldership_fits (ss_real_new_eldership x)) as [? ?].
  { destruct (ss_real_new_pos x), (ss_real_new_eldership x); try done. destruct Hreal as [Hv _]. by eapply reservation_fits. }
  assert (position_fits (ss_new_conn_vir_pos x) ∧ eldership_fits (ss_new_eldership x)) as [? ?].
  { destruct (ss_new_conn_vir_pos x), (ss_new_eldership x); try done. destruct Hvir as [_ Hv]. by eapply reservation_fits. }
  done.
Qed.

Definition msg_fits (m : RouteMsg) : Prop := msg_aligned m ∧ msg_in_range m.

Lemma forward_fits n t m n' m' : msg_fits m → forward (env n) t m = Some (n', m') → msg_fits m'.
Proof. unfold forward. intros Hm. destruct (gateway_for _ _); cbn; [|done]. by intros [= <- <-]. Qed.

(** What a handler passes on fits when what it got did. *)
Lemma route_fits n p m p' es n' m' : routing_typed (env n) → msg_fits m → route_msg (env n) p m = (p', es, Some (n', m')) → msg_fits m'.
Proof.
  intros Hr Hm. destruct m as [r|pk|r|r|r|r|pk|pk]; cbn.
  - unfold route_search_request, deliver_search_response, route_search_response. destruct (last _) as [hop|]; [|done]. cbn. destruct (i_am_inside _ _); [|intros [= _ _ Hf]; by eapply forward_fits].
    destruct (execute_search _ _ _ _) as [x|] eqn:He; [|done]. pose proof (executed_fits _ _ _ _ _ Hr He) as Hfit. apply execute_search_ok in He as (_ & _ & Hadj).
    cbn. destruct (i_am_inside _ _); [by case_match|]. intros [= _ _ Hf]. eapply forward_fits; [|exact Hf]. split; [|done]. split; [apply Hm|]. cbn. rewrite Hadj. apply adjacency_aligned.
  - unfold route_search_error. destruct (i_am_inside _ _); [by case_match|]. intros [= _ _ Hf]. by eapply forward_fits.
  - unfold route_search_response. destruct (i_am_inside _ _); [by case_match|]. intros [= _ _ Hf]. by eapply forward_fits.
  - unfold route_explore_request, route_explore_response. destruct (last _) as [hop|]; [|done]. cbn. destruct (i_am_inside _ _); [|intros [= _ _ Hf]; by eapply forward_fits].
    destruct (i_am_inside _ _); [by case_match|]. intros [= _ _ Hf]. eapply forward_fits; [|exact Hf]. split; [|done]. split; [apply Hm|apply level_tuple_aligned].
  - unfold route_explore_response. destruct (i_am_inside _ _); [by case_match|]. intros [= _ _ Hf]. by eapply forward_fits.
  - unfold route_delete_reserve_request. destruct (i_am_inside _ _); [done|]. intros [= _ _ Hf]. by eapply forward_fits.
  - unfold route_mig_request, route_mig_response. destruct (i_am_inside _ _); [|intros [= _ _ Hf]; by eapply forward_fits]. cbn.
    destruct (i_am_inside _ _); [by destruct (pd_mig p !! rp_pkt_id pk)|]. cbn. intros [= _ _ Hf]. eapply forward_fits; [|exact Hf]. split; [|done]. apply Hm.
  - unfold route_mig_response. destruct (i_am_inside _ _); [by case_match|]. intros [= _ _ Hf]. by eapply forward_fits.
Qed.

(** A virtual position of the upper half of its type does not cross the wire: the answer is
    decoded as one that has none. *)
Theorem high_position_lost r x :
  tuple_aligned (sp_origin r) → Forall (λ p, tuple_aligned (pt_gnode p)) (sp_set_adjacent r) →
  sp_new_conn_vir_pos r = Some x → (2 ^ 31 ≤ x)%Z →
  ∃ r', hook_dispatch (hook_call (RouteSearchResponse r)) = Ok (AskRoute (RouteSearchResponse r')) ∧ sp_new_conn_vir_pos r' = None.
Proof.
  intros Ho Hs Hv Hx. cbn. unfold decode_search_response, encode_search_response. rewrite typed_back. unfold search_response_from_wire.
  cbn -[required decode_adjacent Z.to_nat i32_opt_u32 i32_opt_i32 Z.max]. rewrite required_back by done. cbn -[decode_adjacent Z.to_nat i32_opt_u32 i32_opt_i32 Z.max].
  rewrite adjacent_back by done. cbn -[Z.to_nat i32_opt_u32 i32_opt_i32 Z.max]. eexists. split; [done|]. cbn [sp_new_conn_vir_pos]. rewrite Hv.
  unfold opt_i32. rewrite (proj2 (Z.ltb_ge _ _)) by done. reflexivity.
Qed.

(** C39: the wire is transparent to messages in range.  Let every node have fewer than 2^31 - 1
    levels and a coordinator that hands out positions below 2^31 and no eldership -1
    ([routing_typed]), and let the message have tuples with as many positions as elderships and
    levels, positions and elderships in those ranges ([msg_fits]).  Then, encoded at each hop
    and decoded at the next, it does exactly what it does when the nodes hand it over in
    memory: the same node acts on it, the same answers come back, to the same channels.
    Positions from 2^31 up are outside: they are lost on the wire ([high_position_lost]). *)
Theorem hooking_wire_transparent fuel net n m :
  (∀ n', routing_typed (env n')) → msg_fits m → deliver_wire fuel net n (hook_call m) = carry env fuel net n m.
Proof.
  intros Henv. revert net n m. induction fuel as [|fuel IH]; intros net n m Hm; [done|]. cbn [deliver_wire carry]. destruct (net !! n) as [p|]; [|done].
  rewrite dispatch_hook_call by apply Hm. destruct (route_msg (env n) p m) as [[p' es] [[n' m']|]] eqn:Hr; [|done]. by rewrite IH by by eapply route_fits.
Qed.
End OverTheWire.

(** ** Examples *)
#[local] Instance WireHookTuple_eq_dec : EqDecision WireHookTuple.
Proof. solve_decision. Defined.
#[local] Instance WireHookTuple_countable : Countable WireHookTuple.
Proof. by apply (inj_countable' (λ w, (hwt_pos w, hwt_eldership w)) (λ '(a, b), mkWireHookTuple a b)); intros []. Defined.
#[local] Instance WirePathHop_eq_dec : EqDecision WirePathHop.
Proof. solve_decision. Defined.
#[local] Instance WirePathHop_countable : Countable WirePathHop.
Proof. by apply (inj_countable' (λ w, (hwh_visiting_gnode w, hwh_previous_migrating_gnode w)) (λ '(a, b), mkWirePathHop a b)); intros []. Defined.
#[local] Instance WirePairTuple_eq_dec : EqDecision WirePairTuple.
Proof. solve_decision. Defined.
#[local] Instance WirePairTuple_countable : Countable WirePairTuple.
Proof. by apply (inj_countable' (λ w, (hwp_gnode w, hwp_border_real_pos w)) (λ '(a, b), mkWirePairTuple a b)); intros []. Defined.
#[local] Instance WireNetworkData_eq_dec : EqDecision WireNetworkData.
Proof. solve_decision. Defined.
#[local] Instance WireNetworkData_countable : Countable WireNetworkData.
Proof. by apply (inj_countable' (λ w, (hwn_network_id w, hwn_neighbor_n_nodes w, hwn_neighbor_min_level w, hwn_gsizes w, hwn_neighbor_pos w)) (λ '(a, b, c, d, e), mkWireNetworkData a b c d e)); intros []. Defined.
#[local] Instance WireHookEntryData_eq_dec : EqDecision WireHookEntryData.
Proof. solve_decision. Defined.
#[local] Instance WireHookEntryData_countable : Countable WireHookEntryData.
Proof. by apply (inj_countable' (λ w, (hwe_network_id w, hwe_pos w, hwe_elderships w)) (λ '(a, b, c), mkWireHookEntryData a b c)); intros []. Defined.
#[local] Instance WireSearchRequest_eq_dec : EqDecision WireSearchRequest.
Proof. solve_decision. Defined.
#[local] Instance WireSearchRequest_countable : Countable WireSearchRequest.
Proof. by apply (inj_countable' (λ w, (hwq_pkt_id w, hwq_origin w, hwq_caller w, hwq_path_hops w, hwq_max_host_lvl w, hwq_reserve_request_id w)) (λ '(a, b, c, d, e, f), mkWireSearchRequest a b c d e f)); intros []. Defined.
#[local] Instance WireSearchError_eq_dec : EqDecision WireSearchError.
Proof. solve_decision. Defined.
#[local] Instance WireSearchError_countable : Countable WireSearchError.
Proof. by apply (inj_countable' (λ w, (hwx_pkt_id w, hwx_origin w)) (λ '(a, b), mkWireSearchError a b)); intros []. Defined.
#[local] Instance WireSearchResponse_eq_dec : EqDecision WireSearchResponse.
Proof. solve_decision. Defined.
#[local] Instance WireSearchResponse_countable : Countable WireSearchResponse.
Proof. by apply (inj_countable' (λ w, (hws_pkt_id w, hws_origin w, hws_min_host_lvl w, hws_set_adjacent w, hws_final_host_lvl w, hws_real_new_pos w, hws_real_new_eldership w, hws_new_conn_vir_pos w, hws_new_eldership w)) (λ '(a, b, c, d, e, f, g, h, i), mkWireSearchResponse a b c d e f g h i)); intros []. Defined.
#[local] Instance WireExploreRequest_eq_dec : EqDecision WireExploreRequest.
Proof. solve_decision. Defined.
#[local] Instance WireExploreRequest_countable : Countable WireExploreRequest.
Proof. by apply (inj_countable' (λ w, (hwy_pkt_id w, hwy_origin w, hwy_path_hops w, hwy_requested_lvl w)) (λ '(a, b, c, d), mkWireExploreRequest a b c d)); intros []. Defined.
#[local] Instance WireExploreResponse_eq_dec : EqDecision WireExploreResponse.
Proof. solve_decision. Defined.
#[local] Instance WireExploreResponse_countable : Countable WireExploreResponse.
Proof. by apply (inj_countable' (λ w, (hwz_pkt_id w, hwz_origin w, hwz_result w)) (λ '(a, b, c), mkWireExploreResponse a b c)); intros []. Defined.
#[local] Instance WireDeleteReserve_eq_dec : EqDecision WireDeleteReserve.
Proof. solve_decision. Defined.
#[local] Instance WireDeleteReserve_countable : Countable WireDeleteReserve.
Proof. by apply (inj_countable' (λ w, (hwd_dest_gnode w, hwd_reserve_request_id w)) (λ '(a, b), mkWireDeleteReserve a b)); intros []. Defined.
#[local] Instance WireRequestPacket_eq_dec : EqDecision WireRequestPacket.
Proof. solve_decision. Defined.
#[local] Instance WireRequestPacket_countable : Countable WireRequestPacket.
Proof. by apply (inj_countable' (λ w, (hwr_pkt_id w, hwr_dest w, hwr_src w, hwr_operation w, hwr_migration_id w, hwr_conn_gnode_pos w, hwr_host_gnode w, hwr_real_new_pos w, hwr_real_new_eldership w)) (λ '(a, b, c, d, e, f, g, h, i), mkWireRequestPacket a b c d e f g h i)); intros []. Defined.
#[local] Instance WireResponsePacket_eq_dec : EqDecision WireResponsePacket.
Proof. solve_decision. Defined.
#[local] Instance WireResponsePacket_countable : Countable WireResponsePacket.
Proof. by apply (inj_countable' (λ w, (hwo_pkt_id w, hwo_dest w)) (λ '(a, b), mkWireResponsePacket a b)); intros []. Defined.
#[local] Instance WireNetworkData_prost : ProstMessage WireNetworkData := toy_prost 1.
#[local] Instance WireHookEntryData_prost : ProstMessage WireHookEntryData := toy_prost 2.
#[local] Instance WireSearchRequest_prost : ProstMessage WireSearchRequest := toy_prost 3.
#[local] Instance WireSearchError_prost : ProstMessage WireSearchError := toy_prost 4.
#[local] Instance WireSearchResponse_prost : ProstMessage WireSearchResponse := toy_prost 5.
#[local] Instance WireExploreRequest_prost : ProstMessage WireExploreRequest := toy_prost 6.
#[local] Instance WireExploreResponse_prost : ProstMessage WireExploreResponse := toy_prost 7.
#[local] Instance WireDeleteReserve_prost : ProstMessage WireDeleteReserve := toy_prost 8.
#[local] Instance WireRequestPacket_prost : ProstMessage WireRequestPacket := toy_prost 9.
#[local] Instance WireResponsePacket_prost : ProstMessage WireResponsePacket := toy_prost 10.

Definition line_request : RouteMsg := RouteSearchRequest (mkSearchRequest 77 (my_tuple (line_env 0)) (my_tuple (line_env 0)) line_hops 2 9).
Lemma hooking_wire_transparent_witness :
  deliver_wire line_env 9 line_net 1 (hook_call line_request) = carry line_env 9 line_net 1 line_request ∧ is_Some (carry line_env 9 line_net 1 line_request).
Proof.
  split; [|vm_compute; eexists; reflexivity].
  apply (hooking_wire_transparent line_env 9 line_net 1 line_request).
  - intros n. destruct n as [|[|n]]; (split; [vm_compute; reflexivity|]); intros rid lvl x Hx; cbn in Hx; [done|done|]. destruct (lvl =? 1); [|done]. injection Hx as <-. cbn. lia.
  - split; [split; [reflexivity|split; [reflexivity|]]|].
    + apply Forall_singleton. split; [reflexivity|apply Forall_nil_2].
    + vm_compute. discriminate.
Defined.
