(* ===== verification/RpcTransport.v ===== *)
(** * Calls over one connection

    Models [crates/ntk-rpc/src]: [client.rs] (the actor that owns a connection and matches
    responses to the calls that wait, by correlation id), [server.rs] (the loop that serves a
    connection: requests handled concurrently, their replies written by one task) and the errors
    of [error.rs].  A oneshot channel is a number; the messages of the generated code are
    arguments, as in [Auth]; the streams carry whole envelopes, in order. *)
From stdpp Require Import strings.
From S2P Require Import Prelude Domain Auth.

(** ** Errors (error.rs) *)
Inductive RpcError {RemoteError : Type} :=
  | RpcIo | RpcDecode | RpcEncode | RpcFrameTooLarge (size max : Z) | RpcVersionMismatch (m : VersionMismatch) | RpcMalformed | RpcTimeout | RpcConnectionClosed
  | RpcRemote (e : RemoteError).
Definition is_remote {RemoteError : Type} (e : @RpcError RemoteError) : bool := match e with RpcRemote _ => true | _ => false end.

(** [ServerLimits], in requests and replies. *)
Record ServerLimits := mkServerLimits { sl_max_connections : nat; sl_max_inflight : nat; sl_reply_queue : nat; sl_idle_timeout_secs : Z }.
Definition server_limits_default : ServerLimits := mkServerLimits 1024 64 64 300.

Section Rpc.
Context {CallerContext MethodCall ResponsePayload RemoteError : Type}.
(** A remote error of the domain [Deserialize], and the size of an encoded envelope. *)
Context (deserialize_error : string → RemoteError).
Abbreviation Env := (@Envelope CallerContext MethodCall ResponsePayload RemoteError).
Abbreviation Req := (@Request CallerContext MethodCall).
Abbreviation Resp := (@Response ResponsePayload RemoteError).
Abbreviation Out := (@Outcome ResponsePayload RemoteError).
Abbreviation RErr := (@RpcError RemoteError).
Context (encoded_len : Env → Z).

(** ** The client (client.rs) *)
Inductive ClientCmd :=
  | CmdCall (envelope : Env) (reply : nat)
  | CmdNotify (envelope : Env) (reply : nat)
  | CmdForget (correlation_id : Z).

(** What a channel gets. *)
Inductive RpcReply := ReplyResponse (r : Resp) | ReplySent | ReplyError (e : RErr).

(** The actor: the calls that wait for a response; [false] when it has ended. *)
Record ClientActor := mkClientActor { ca_pending : gmap Z nat; ca_running : bool }.
(** How a write ended. *)
Inductive WriteResult := WriteOk | WriteErr (e : RErr) | WriteElapsed.

Definition fail_pending (pending : gmap Z nat) : list (nat * RpcReply) := (λ kv, (kv.2, ReplyError RpcConnectionClosed)) <$> map_to_list pending.

(** A command: the actor after it, what went on the wire, what the channels got. *)
Definition client_command (a : ClientActor) (cmd : ClientCmd) (write : WriteResult) : ClientActor * list Env * list (nat * RpcReply) :=
  match cmd with
  | CmdForget correlation_id => (mkClientActor (delete correlation_id (ca_pending a)) (ca_running a), [], [])
  | CmdCall envelope reply =>
      let correlation_id := match as_request envelope with Some r => rq_correlation_id r | None => 0%Z end in
      match write with
      | WriteOk => (mkClientActor (<[correlation_id := reply]> (ca_pending a)) (ca_running a), [envelope], [])
      | WriteErr e => (a, [], [(reply, ReplyError e)])
      | WriteElapsed => (mkClientActor ∅ false, [], (reply, ReplyError RpcTimeout) :: fail_pending (ca_pending a))
      end
  | CmdNotify envelope reply =>
      match write with
      | WriteOk => (a, [envelope], [(reply, ReplySent)])
      | WriteErr e => (a, [], [(reply, ReplyError e)])
      | WriteElapsed => (mkClientActor ∅ false, [], (reply, ReplyError RpcTimeout) :: fail_pending (ca_pending a))
      end
  end.

(** A frame, or [None] at the end of the stream or on a read error. *)
Definition client_frame (a : ClientActor) (frame : option Env) : ClientActor * list (nat * RpcReply) :=
  match frame with
  | None => (mkClientActor ∅ false, fail_pending (ca_pending a))
  | Some envelope =>
      match check_version envelope with
      | Ok _ =>
          match ev_body envelope with
          | Some (BResponse response) =>
              match ca_pending a !! rs_correlation_id response with
              | Some reply => (mkClientActor (delete (rs_correlation_id response) (ca_pending a)) (ca_running a), [(reply, ReplyResponse response)])
              | None => (a, [])
              end
          | _ => (a, [])
          end
      | _ => (a, [])
      end
  end.

(** The envelope of a call or a notification ([call_authenticated], [notify_authenticated]). *)
Definition client_envelope (correlation_id : Z) (caller : CallerContext) (unicast_id : TypedValue) (wait_reply : bool) (call : MethodCall) (auth : option Auth) : Env :=
  let envelope := envelope_request CURRENT correlation_id caller unicast_id wait_reply call in
  match auth with Some auth => with_auth envelope auth | None => envelope end.
(** [fetch_add] on an [AtomicU64]. *)
Definition next_correlation_id (next_id : Z) : Z := ((next_id + 1) mod 2 ^ 64)%Z.

(** What a call returns: [None] when its time ran out, [Some None] when its channel was dropped. *)
Definition call_result (got : option (option RpcReply)) : res RErr ResponsePayload :=
  match got with
  | None => Err RpcTimeout
  | Some None => Err RpcConnectionClosed
  | Some (Some (ReplyError e)) => Err e
  | Some (Some (ReplyResponse response)) =>
      match rs_outcome response with
      | Some (OutcomePayload payload) => Ok payload
      | Some (OutcomeError error) => Err (RpcRemote error)
      | None => Err RpcMalformed
      end
  | Some (Some ReplySent) => Err RpcMalformed
  end.

(** ** The server (server.rs) *)
Abbreviation Handler := (CallerContext → TypedValue → MethodCall → option Auth → Out).
Definition rpc_malformed (message : string) : RemoteError := deserialize_error message.
Definition rpc_dispatch (handler : Handler) (request : Req) (auth : option Auth) : Out :=
  match rq_caller request with
  | None => OutcomeError (rpc_malformed "Request.caller unset")
  | Some caller =>
      let unicast_id := default (mkTypedValue "" []) (rq_unicast_id request) in
      match rq_call request with
      | None => OutcomeError (rpc_malformed "Request.call unset")
      | Some call => handler caller unicast_id call auth
      end
  end.

(** Correlation id of a request envelope that wants a reply. *)
Definition reply_wanted (envelope : Env) : option Z :=
  match ev_body envelope with
  | Some (BRequest request) => if rq_wait_reply request then Some (rq_correlation_id request) else None
  | _ => None
  end.

Definition fit_frame (envelope : Env) (max_frame_length : Z) : Env :=
  if (encoded_len envelope <=? max_frame_length)%Z then envelope
  else match ev_body envelope with
       | Some (BResponse response) =>
           envelope_response_err CURRENT (rs_correlation_id response) (deserialize_error "response exceeds the maximum frame size")
       | _ => envelope
       end.

(** A request being handled. *)
Record RpcTask := mkRpcTask { tk_version : ProtocolVersion; tk_request : Req; tk_auth : option Auth }.
(** A frame: replied to at once, handled, or ignored. *)
Inductive Served := ServedReply (response : Env) | ServedTask (t : RpcTask) | ServedNothing.
Definition serve_frame (envelope : Env) : Served :=
  match ev_version envelope, check_version envelope with
  | Some version, Ok _ =>
      match ev_body envelope with
      | Some (BRequest request) => ServedTask (mkRpcTask version request (ev_auth envelope))
      | _ => ServedNothing
      end
  | _, _ =>
      match reply_wanted envelope with
      | Some correlation_id => ServedReply (envelope_response_err CURRENT correlation_id (rpc_malformed "incompatible or missing protocol version"))
      | None => ServedNothing
      end
  end.
(** What a task writes when it ends. *)
Definition task_reply (t : RpcTask) (outcome : Out) : option Env :=
  if rq_wait_reply (tk_request t)
  then Some (match outcome with
             | OutcomePayload payload => envelope_response_ok (tk_version t) (rq_correlation_id (tk_request t)) payload
             | OutcomeError error => envelope_response_err (tk_version t) (rq_correlation_id (tk_request t)) error
             end)
  else None.
End Rpc.

(** ** A connection

    A client and a server with the streams between them.  The calls and notifications made are
    recorded by their channel, and so is what each channel got. *)
Section Connection.
Context {CallerContext MethodCall ResponsePayload RemoteError : Type}.
Context (deserialize_error : string → RemoteError) (encoded_len : @Envelope CallerContext MethodCall ResponsePayload RemoteError → Z).
Abbreviation Env := (@Envelope CallerContext MethodCall ResponsePayload RemoteError).
Abbreviation Req := (@Request CallerContext MethodCall).
Abbreviation Resp := (@Response ResponsePayload RemoteError).
Abbreviation Out := (@Outcome ResponsePayload RemoteError).
Abbreviation Reply := (@RpcReply ResponsePayload RemoteError).
Abbreviation Cmd := (@ClientCmd CallerContext MethodCall ResponsePayload RemoteError).
Abbreviation RTask := (@RpcTask CallerContext MethodCall).
Abbreviation Handler := (CallerContext → TypedValue → MethodCall → option Auth → Out).
(** What the server's handler may do, the bounds of a frame and of the server. *)
Context (behaves : Handler → Prop) (max_frame_length : Z) (limits : ServerLimits).

Record Conn := mkConn {
  cn_next_id : Z;
  cn_cmds : list Cmd;
  cn_client : ClientActor;
  cn_up : list Env;
  cn_reading : bool;
  cn_inflight : list RTask;
  cn_queue : list Env;
  cn_down : list Env;
  cn_calls : gmap nat (Req * option Auth);
  cn_got : list (nat * Reply)
}.

Definition inflight_cap : nat := sl_max_inflight limits `max` 1.
Definition queue_cap : nat := sl_reply_queue limits `max` 1.

(** What is queued for the actor is dropped when it ends. *)
Definition drained (a : ClientActor) (cmds : list Cmd) : list Cmd := if ca_running a then cmds else [].

Inductive conn_step : Conn → Conn → Prop :=
  | step_call c tx caller unicast_id wait call auth :
      cn_calls c !! tx = None → ca_running (cn_client c) = true → (cn_next_id c + 1 < 2 ^ 64)%Z →
      let envelope := client_envelope (cn_next_id c) caller unicast_id wait call auth in
      conn_step c (mkConn (next_correlation_id (cn_next_id c)) (cn_cmds c ++ [if (wait : bool) then CmdCall envelope tx else CmdNotify envelope tx]) (cn_client c) (cn_up c)
        (cn_reading c) (cn_inflight c) (cn_queue c) (cn_down c)
        (<[tx := (mkRequest (cn_next_id c) (Some caller) (Some unicast_id) wait (Some call), auth)]> (cn_calls c)) (cn_got c))
  | step_give_up c tx request auth :
      cn_calls c !! tx = Some (request, auth) →
      conn_step c (mkConn (cn_next_id c) (drained (cn_client c) (cn_cmds c ++ [CmdForget (rq_correlation_id request)])) (cn_client c) (cn_up c)
        (cn_reading c) (cn_inflight c) (cn_queue c) (cn_down c) (cn_calls c) (cn_got c))
  | step_command c cmd cmds write a out got :
      cn_cmds c = cmd :: cmds → client_command (cn_client c) cmd write = (a, out, got) →
      conn_step c (mkConn (cn_next_id c) (drained a cmds) a (cn_up c ++ out) (cn_reading c) (cn_inflight c) (cn_queue c) (cn_down c) (cn_calls c) (cn_got c ++ got))
  | step_serve c envelope up t :
      cn_up c = envelope :: up → cn_reading c = true → length (cn_inflight c) < inflight_cap → serve_frame deserialize_error envelope = ServedTask t →
      conn_step c (mkConn (cn_next_id c) (cn_cmds c) (cn_client c) up (cn_reading c) (t :: cn_inflight c) (cn_queue c) (cn_down c) (cn_calls c) (cn_got c))
  | step_refuse c envelope up response :
      cn_up c = envelope :: up → cn_reading c = true → length (cn_inflight c) < inflight_cap → length (cn_queue c) < queue_cap →
      serve_frame deserialize_error envelope = ServedReply response →
      conn_step c (mkConn (cn_next_id c) (cn_cmds c) (cn_client c) up (cn_reading c) (cn_inflight c) (cn_queue c ++ [response]) (cn_down c) (cn_calls c) (cn_got c))
  | step_ignore c envelope up :
      cn_up c = envelope :: up → cn_reading c = true → length (cn_inflight c) < inflight_cap → serve_frame deserialize_error envelope = ServedNothing →
      conn_step c (mkConn (cn_next_id c) (cn_cmds c) (cn_client c) up (cn_reading c) (cn_inflight c) (cn_queue c) (cn_down c) (cn_calls c) (cn_got c))
  | step_handled c before t after h :
      cn_inflight c = before ++ t :: after → behaves h → (rq_wait_reply (tk_request t) = true → length (cn_queue c) < queue_cap) →
      conn_step c (mkConn (cn_next_id c) (cn_cmds c) (cn_client c) (cn_up c) (cn_reading c) (before ++ after)
        (cn_queue c ++ option_list (task_reply t (rpc_dispatch deserialize_error h (tk_request t) (tk_auth t)))) (cn_down c) (cn_calls c) (cn_got c))
  | step_panicked c before t after :
      cn_inflight c = before ++ t :: after →
      conn_step c (mkConn (cn_next_id c) (cn_cmds c) (cn_client c) (cn_up c) (cn_reading c) (before ++ after) (cn_queue c) (cn_down c) (cn_calls c) (cn_got c))
  | step_write c envelope queue :
      cn_queue c = envelope :: queue →
      conn_step c (mkConn (cn_next_id c) (cn_cmds c) (cn_client c) (cn_up c) (cn_reading c) (cn_inflight c) queue
        (cn_down c ++ [fit_frame deserialize_error encoded_len envelope max_frame_length]) (cn_calls c) (cn_got c))
  | step_receive c envelope down a got :
      cn_down c = envelope :: down → ca_running (cn_client c) = true → client_frame (cn_client c) (Some envelope) = (a, got) →
      conn_step c (mkConn (cn_next_id c) (cn_cmds c) a (cn_up c) (cn_reading c) (cn_inflight c) (cn_queue c) down (cn_calls c) (cn_got c ++ got))
  | step_client_closed c a got :
      ca_running (cn_client c) = true → client_frame (cn_client c) (None : option Env) = (a, got) →
      conn_step c (mkConn (cn_next_id c) [] a (cn_up c) (cn_reading c) (cn_inflight c) (cn_queue c) (cn_down c) (cn_calls c) (cn_got c ++ got))
  | step_server_closed c inflight :
      inflight `sublist_of` cn_inflight c →
      conn_step c (mkConn (cn_next_id c) (cn_cmds c) (cn_client c) [] false inflight (cn_queue c) (cn_down c) (cn_calls c) (cn_got c))
  | step_cut c :
      conn_step c (mkConn (cn_next_id c) (cn_cmds c) (cn_client c) [] (cn_reading c) (cn_inflight c) [] [] (cn_calls c) (cn_got c)).

Definition conn_start : Conn := mkConn 1 [] (mkClientActor ∅ true) [] true [] [] [] ∅ [].

(** ** The invariant *)
Definition cmd_call (cmd : Cmd) : option (Env * nat) := match cmd with CmdCall e tx | CmdNotify e tx => Some (e, tx) | CmdForget _ => None end.
Definition cmd_txs (cmds : list Cmd) : list nat := omap (λ cmd, snd <$> cmd_call cmd) cmds.

(** The response of a call: what the handler did with its request, or the refusal of a response
    that is too large. *)
Definition answer_ok (request : Req) (auth : option Auth) (r : Resp) : Prop :=
  rq_wait_reply request = true ∧ rs_correlation_id r = rq_correlation_id request ∧
  ((∃ h, behaves h ∧ rs_outcome r = Some (rpc_dispatch deserialize_error h request auth)) ∨
   rs_outcome r = Some (OutcomeError (deserialize_error "response exceeds the maximum frame size"))).

Definition request_known (calls : gmap nat (Req * option Auth)) (e : Env) : Prop :=
  ∃ tx request, calls !! tx = Some (request, ev_auth e) ∧ ev_body e = Some (BRequest request) ∧ ev_version e = Some CURRENT.
Definition response_known (calls : gmap nat (Req * option Auth)) (e : Env) : Prop :=
  ∃ tx request auth r, calls !! tx = Some (request, auth) ∧ ev_body e = Some (BResponse r) ∧ answer_ok request auth r.
Definition task_known (calls : gmap nat (Req * option Auth)) (t : RTask) : Prop := ∃ tx, calls !! tx = Some (tk_request t, tk_auth t).
Definition cmd_known (calls : gmap nat (Req * option Auth)) (cmd : Cmd) : Prop :=
  ∀ e tx, cmd_call cmd = Some (e, tx) → ∃ request, calls !! tx = Some (request, ev_auth e) ∧ ev_body e = Some (BRequest request) ∧ ev_version e = Some CURRENT.
Definition got_ok (calls : gmap nat (Req * option Auth)) (tr : nat * Reply) : Prop :=
  ∃ request auth, calls !! tr.1 = Some (request, auth) ∧ match tr.2 with ReplyResponse r => answer_ok request auth r | _ => True end.

Record conn_inv (c : Conn) : Prop := {
  ci_ids tx request auth : cn_calls c !! tx = Some (request, auth) → (0 ≤ rq_correlation_id request < cn_next_id c)%Z;
  ci_next : (0 ≤ cn_next_id c < 2 ^ 64)%Z;
  ci_unique tx tx' p p' : cn_calls c !! tx = Some p → cn_calls c !! tx' = Some p' → rq_correlation_id p.1 = rq_correlation_id p'.1 → tx = tx';
  ci_cmds : Forall (cmd_known (cn_calls c)) (cn_cmds c);
  ci_pending id tx : ca_pending (cn_client c) !! id = Some tx → ∃ request auth, cn_calls c !! tx = Some (request, auth) ∧ rq_correlation_id request = id;
  ci_once : NoDup (cmd_txs (cn_cmds c) ++ (map_to_list (ca_pending (cn_client c))).*2 ++ (cn_got c).*1);
  ci_up : Forall (request_known (cn_calls c)) (cn_up c);
  ci_inflight : Forall (task_known (cn_calls c)) (cn_inflight c);
  ci_queue : Forall (response_known (cn_calls c)) (cn_queue c);
  ci_down : Forall (response_known (cn_calls c)) (cn_down c);
  ci_got : Forall (got_ok (cn_calls c)) (cn_got c);
  ci_bounds : length (cn_inflight c) ≤ inflight_cap ∧ length (cn_queue c) ≤ queue_cap
}.

(** ** Its preservation *)
Lemma calls_grow (calls : gmap nat (Req * option Auth)) tx p :
  calls !! tx = None →
  (∀ cmd, cmd_known calls cmd → cmd_known (<[tx := p]> calls) cmd) ∧ (∀ e, request_known calls e → request_known (<[tx := p]> calls) e) ∧
  (∀ e, response_known calls e → response_known (<[tx := p]> calls) e) ∧ (∀ t, task_known calls t → task_known (<[tx := p]> calls) t) ∧
  (∀ tr, got_ok calls tr → got_ok (<[tx := p]> calls) tr).
Proof.
  intros Hn. assert (∀ tx' q, calls !! tx' = Some q → <[tx := p]> calls !! tx' = Some q) as Hk by (intros; rewrite lookup_insert_ne; [done|congruence]).
  split_and!.
  - intros cmd H e tx' He. destruct (H _ _ He) as (r & Hr & ?). eauto.
  - intros e (tx' & r & Hr & ?). exists tx', r. eauto.
  - intros e (tx' & r & a & x & Hr & ?). exists tx', r, a, x. eauto.
  - intros t [tx' Ht]. exists tx'. eauto.
  - intros tr (r & a & Hr & ?). exists r, a. eauto.
Qed.

Lemma cmd_txs_app l l' : cmd_txs (l ++ l') = cmd_txs l ++ cmd_txs l'.
Proof. apply omap_app. Qed.
Lemma fail_pending_txs pending : (fail_pending (ResponsePayload := ResponsePayload) (RemoteError := RemoteError) pending).*1 = (map_to_list pending).*2.
Proof. unfold fail_pending. rewrite <-list_fmap_compose. done. Qed.
Lemma pending_insert (pending : gmap Z nat) id tx : pending !! id = None → (map_to_list (<[id := tx]> pending)).*2 ≡ₚ tx :: (map_to_list pending).*2.
Proof. intros Hn. by rewrite map_to_list_insert. Qed.
Lemma pending_delete (pending : gmap Z nat) id tx : pending !! id = Some tx → (map_to_list pending).*2 ≡ₚ tx :: (map_to_list (delete id pending)).*2.
Proof. intros Hn. rewrite <-(pending_insert _ id); [by rewrite insert_delete_id|by rewrite lookup_delete_eq]. Qed.
Lemma pending_delete_sub (pending : gmap Z nat) id : (map_to_list (delete id pending)).*2 ⊆+ (map_to_list pending).*2.
Proof.
  destruct (pending !! id) as [tx|] eqn:Hn; [rewrite (pending_delete _ _ _ Hn); by apply submseteq_cons|by rewrite delete_id].
Qed.

Lemma call_inv c tx caller unicast_id wait call auth :
  conn_inv c → cn_calls c !! tx = None → (cn_next_id c + 1 < 2 ^ 64)%Z →
  let envelope := client_envelope (cn_next_id c) caller unicast_id wait call auth in
  conn_inv (mkConn (next_correlation_id (cn_next_id c)) (cn_cmds c ++ [if (wait : bool) then CmdCall envelope tx else CmdNotify envelope tx]) (cn_client c) (cn_up c)
    (cn_reading c) (cn_inflight c) (cn_queue c) (cn_down c)
    (<[tx := (mkRequest (cn_next_id c) (Some caller) (Some unicast_id) wait (Some call), auth)]> (cn_calls c)) (cn_got c)).
Proof.
  intros [Hids Hnext Huniq Hcmds Hpend Honce Hup Hin Hq Hdown Hgot Hb] Htx Hroom envelope. set (request := mkRequest _ _ _ _ _).
  destruct (calls_grow _ tx (request, auth) Htx) as (Mc & Mu & Mr & Mt & Mg).
  assert (next_correlation_id (cn_next_id c) = cn_next_id c + 1)%Z as Hn by (unfold next_correlation_id; rewrite Z.mod_small; lia).
  assert (tx ∉ cmd_txs (cn_cmds c) ++ (map_to_list (ca_pending (cn_client c))).*2 ++ (cn_got c).*1) as Hnew.
  { rewrite !not_elem_of_app. split_and!; intros Hx.
    - apply list_elem_of_omap in Hx as (cmd & Hc & Hs). destruct (cmd_call cmd) as [[e x]|] eqn:He; [|done]. cbn in Hs. simplify_eq.
      destruct (proj1 (Forall_forall _ _) Hcmds _ Hc _ _ He) as (? & ? & _). congruence.
    - apply list_elem_of_fmap in Hx as ([id x] & -> & Hx%elem_of_map_to_list). destruct (Hpend _ _ Hx) as (? & ? & ? & _). cbn in Htx. congruence.
    - apply list_elem_of_fmap in Hx as ([x r] & -> & Hx). destruct (proj1 (Forall_forall _ _) Hgot _ Hx) as (? & ? & ? & _). cbn in *. congruence. }
  assert (cmd_txs [if wait then CmdCall envelope tx else CmdNotify envelope tx] = [tx]) as Hone by (by destruct wait).
  split; cbn; try by eapply Forall_impl.
  - intros x r a. destruct (decide (x = tx)) as [->|]; [rewrite lookup_insert_eq; intros [= <- <-]; cbn; lia|rewrite lookup_insert_ne by done]. intros Hx%Hids. lia.
  - lia.
  - intros x y p q. destruct (decide (x = tx)) as [->|], (decide (y = tx)) as [->|]; try done; rewrite ?lookup_insert_eq, ?lookup_insert_ne by done.
    + intros [= <-] Hy. destruct q as [r a]. apply Hids in Hy. cbn. lia.
    + intros Hx [= <-]. destruct p as [r a]. apply Hids in Hx. cbn. lia.
    + apply Huniq.
  - apply Forall_app_2; [by eapply Forall_impl|]. apply Forall_singleton. intros e x He. assert (e = envelope ∧ x = tx) as [-> ->] by (destruct wait; cbn in He; by simplify_eq).
    exists request. rewrite lookup_insert_eq. unfold envelope, client_envelope. by destruct auth.
  - intros id x Hx. destruct (Hpend _ _ Hx) as (r & a & Hr & ?). exists r, a. rewrite lookup_insert_ne; [done|congruence].
  - rewrite cmd_txs_app, Hone. rewrite <-app_assoc. rewrite (Permutation_app_swap_app (cmd_txs _)). cbn. by apply NoDup_cons_2.
  - done.
Qed.

Lemma NoDup_part {A} (l k : list A) : l ⊆+ k → NoDup k → NoDup l.
Proof. intros [k' Hk]%submseteq_Permutation. rewrite Hk. by intros [? _]%NoDup_app. Qed.
Lemma answered_part {A} (xs xs' ps gs ds : list A) : xs' ⊆+ xs → xs' ++ ps ++ gs ++ ds ⊆+ ds ++ xs ++ ps ++ gs.
Proof. intros Hx. rewrite (Permutation_app_comm ds), <-!app_assoc. by apply submseteq_app. Qed.

Lemma pending_got c : conn_inv c → Forall (got_ok (cn_calls c)) (fail_pending (ca_pending (cn_client c))).
Proof.
  intros Hi. unfold fail_pending. apply Forall_fmap, Forall_forall. intros [id tx] Hx%elem_of_map_to_list. destruct (ci_pending _ Hi _ _ Hx) as (r & au & Hr & _). by exists r, au.
Qed.

(** What a command leaves is part of what waited. *)
Lemma command_parts c cmd cmds write a out got :
  conn_inv c → cn_cmds c = cmd :: cmds → client_command (cn_client c) cmd write = (a, out, got) →
  (∀ id tx, ca_pending a !! id = Some tx → ∃ r au, cn_calls c !! tx = Some (r, au) ∧ rq_correlation_id r = id) ∧
  cmd_txs (drained a cmds) ++ (map_to_list (ca_pending a)).*2 ++ (cn_got c ++ got).*1 ⊆+ cmd_txs (cmd :: cmds) ++ (map_to_list (ca_pending (cn_client c))).*2 ++ (cn_got c).*1 ∧
  Forall (request_known (cn_calls c)) out ∧ Forall (got_ok (cn_calls c)) got.
Proof.
  intros Hi Hcs Hcmd. pose proof (ci_pending _ Hi) as Hpend. pose proof (ci_cmds _ Hi) as Hk. rewrite Hcs in Hk. apply Forall_cons in Hk as [Hk _].
  pose proof (pending_got _ Hi) as Hfail. pose proof (ci_once _ Hi) as Honce. rewrite Hcs in Honce. set (pending := ca_pending (cn_client c)) in *.
  assert (cmd_txs (drained a cmds) ⊆+ cmd_txs cmds) as Hdr by (unfold drained; destruct (ca_running a); [done|apply submseteq_nil_l]). rewrite fmap_app.
  destruct cmd as [e tx|e tx|id]; cbn in Hcmd.
  3:{ injection Hcmd as <- <- <-. cbn. rewrite app_nil_r. split_and!; [|by apply submseteq_app, submseteq_app; [|apply pending_delete_sub|]|apply Forall_nil_2|apply Forall_nil_2].
      intros id' tx [_ Hx]%lookup_delete_Some. by apply Hpend. }
  all: destruct (Hk e tx eq_refl) as (r & Hr & Hbody & Hv).
  all: assert (got_ok (cn_calls c) (tx, ReplySent) ∧ ∀ er, got_ok (cn_calls c) (tx, ReplyError er)) as [Hsent Herr] by (split; [|intros er]; by exists r, (ev_auth e)).
  all: assert (request_known (cn_calls c) e) as He by (by exists tx, r).
  all: destruct write as [|er|]; injection Hcmd as <- <- <-; cbn [ca_pending fmap list_fmap fst].
  - split_and!; [|rewrite app_nil_r|by apply Forall_singleton|apply Forall_nil_2].
    + unfold as_request. rewrite Hbody. intros id x. cbn. destruct (decide (id = rq_correlation_id r)) as [->|]; [rewrite lookup_insert_eq; intros [= <-]; by exists r, (ev_auth e)|].
      rewrite lookup_insert_ne by done. apply Hpend.
    + unfold as_request. rewrite Hbody. change (cmd_txs (CmdCall e tx :: cmds)) with (tx :: cmd_txs cmds). rewrite pending_insert.
      * cbn. rewrite <-Permutation_middle. by apply submseteq_skip, submseteq_app.
      * destruct (pending !! rq_correlation_id r) as [tx'|] eqn:Hx; [|done]. destruct (Hpend _ _ Hx) as (r' & au & Hr' & Hid). exfalso.
        assert (tx' = tx) as -> by (by eapply (ci_unique _ Hi)). change (cmd_txs (CmdCall e tx :: cmds)) with (tx :: cmd_txs cmds) in Honce. apply NoDup_cons in Honce as [Hn _].
        apply Hn. rewrite !elem_of_app. right; left. apply list_elem_of_fmap. exists (rq_correlation_id r, tx). split; [done|]. by apply elem_of_map_to_list.
  - split_and!; [done|by apply (answered_part (cmd_txs cmds) _ _ _ [tx])|apply Forall_nil_2|by apply Forall_singleton].
  - rewrite fail_pending_txs. split_and!; [by intros ? ? ?%lookup_empty_Some| |apply Forall_nil_2|by apply Forall_cons_2].
    unfold drained. cbn. rewrite map_to_list_empty. cbn. rewrite (Permutation_app_comm (cn_got c).*1). cbn. by apply submseteq_skip, submseteq_inserts_l.
  - split_and!; [done|by apply (answered_part (cmd_txs cmds) _ _ _ [tx])|by apply Forall_singleton|by apply Forall_singleton].
  - split_and!; [done|by apply (answered_part (cmd_txs cmds) _ _ _ [tx])|apply Forall_nil_2|by apply Forall_singleton].
  - rewrite fail_pending_txs. split_and!; [by intros ? ? ?%lookup_empty_Some| |apply Forall_nil_2|by apply Forall_cons_2].
    unfold drained. cbn. rewrite map_to_list_empty. cbn. rewrite (Permutation_app_comm (cn_got c).*1). cbn. by apply submseteq_skip, submseteq_inserts_l.
Qed.

Lemma receive_parts c e a got :
  conn_inv c → response_known (cn_calls c) e → client_frame (cn_client c) (Some e) = (a, got) →
  ca_pending a ⊆ ca_pending (cn_client c) ∧
  (map_to_list (ca_pending a)).*2 ++ (cn_got c ++ got).*1 ≡ₚ (map_to_list (ca_pending (cn_client c))).*2 ++ (cn_got c).*1 ∧
  Forall (got_ok (cn_calls c)) got.
Proof.
  intros Hi (tx & r & au & x & Hr & Hbody & Ha) Hf. cbn in Hf. assert (∀ a' g', (cn_client c, []) = (a', g') → ca_pending a' ⊆ ca_pending (cn_client c) ∧
    (map_to_list (ca_pending a')).*2 ++ (cn_got c ++ g').*1 ≡ₚ (map_to_list (ca_pending (cn_client c))).*2 ++ (cn_got c).*1 ∧ Forall (got_ok (cn_calls c)) g') as Hsame.
  { intros a' g' [= <- <-]. rewrite app_nil_r. split_and!; [done|done|apply Forall_nil_2]. }
  destruct (check_version e) as [u| |]; [|by apply Hsame..]. rewrite Hbody in Hf. destruct (ca_pending (cn_client c) !! rs_correlation_id x) as [tx'|] eqn:Hx; [|by apply Hsame].
  injection Hf as <- <-. cbn. split_and!; [apply delete_subseteq| |].
  - rewrite (pending_delete _ _ _ Hx), fmap_app. cbn. rewrite (Permutation_app_comm (cn_got c).*1). cbn. by rewrite <-Permutation_middle.
  - apply Forall_singleton. destruct (ci_pending _ Hi _ _ Hx) as (r' & au' & Hr' & Hid).
    assert (tx' = tx) as -> by (eapply (ci_unique _ Hi); [done|done|]; cbn; rewrite Hid; apply Ha). by exists r, au.
Qed.

Lemma serve_known calls e t : request_known calls e → serve_frame deserialize_error e = ServedTask t → task_known calls t.
Proof.
  intros (tx & r & Hr & Hb & Hv). unfold serve_frame. rewrite Hv, Hb. unfold check_version. rewrite Hv. cbn. intros [= <-]. by exists tx.
Qed.
Lemma known_not_refused calls e response : request_known calls e → serve_frame deserialize_error e = ServedReply response → False.
Proof. intros (tx & r & Hr & Hb & Hv). unfold serve_frame. rewrite Hv, Hb. unfold check_version. rewrite Hv. done. Qed.

Lemma reply_known calls t h e : task_known calls t → behaves h → task_reply t (rpc_dispatch deserialize_error h (tk_request t) (tk_auth t)) = Some e → response_known calls e.
Proof.
  intros [tx Ht] Hh. unfold task_reply. destruct (rq_wait_reply (tk_request t)) eqn:Hw; [|done]. intros [= <-].
  set (o := rpc_dispatch deserialize_error h (tk_request t) (tk_auth t)) in *. exists tx, (tk_request t), (tk_auth t), (mkResponse (rq_correlation_id (tk_request t)) (Some o)).
  split; [done|]. split; [by destruct o|]. split; [done|]. split; [done|]. left. by exists h.
Qed.
Lemma fit_known calls e : response_known calls e → response_known calls (fit_frame deserialize_error encoded_len e max_frame_length).
Proof.
  intros Hk. unfold fit_frame. destruct (_ <=? _)%Z; [done|]. destruct Hk as (tx & r & au & x & Hr & Hb & Hw & Hid & Ho). rewrite Hb.
  exists tx, r, au, (mkResponse (rs_correlation_id x) (Some (OutcomeError (deserialize_error "response exceeds the maximum frame size")))).
  split; [done|]. split; [done|]. split; [done|]. split; [done|]. by right.
Qed.

(** The rest of the state, when the client's side is untouched. *)
Lemma server_inv c up reading inflight queue down :
  conn_inv c → Forall (request_known (cn_calls c)) up → Forall (task_known (cn_calls c)) inflight → Forall (response_known (cn_calls c)) queue → Forall (response_known (cn_calls c)) down →
  length inflight ≤ inflight_cap ∧ length queue ≤ queue_cap →
  conn_inv (mkConn (cn_next_id c) (cn_cmds c) (cn_client c) up reading inflight queue down (cn_calls c) (cn_got c)).
Proof. intros [] ? ? ? ? ?. by split. Qed.

Lemma conn_step_inv c c' : conn_inv c → conn_step c c' → conn_inv c'.
Proof.
  intros Hi Hs. pose proof (ci_up _ Hi) as Hup. pose proof (ci_inflight _ Hi) as Hin. pose proof (ci_queue _ Hi) as Hq. pose proof (ci_down _ Hi) as Hd. pose proof (ci_bounds _ Hi) as Hb.
  destruct Hs as [c tx caller uid wait call auth Htx Hrun Hroom envelope | c tx r au Hr | c cmd cmds write a out got Hc Hcmd | c e up t Hu Hrd Hl Hse | c e up rsp Hu Hrd Hl Hl' Hse | c e up Hu Hrd Hl Hse
    | c before t after h Hf Hh Hl | c before t after Hf | c e queue He | c e down a got Hdn Hrun Hcf | c a got Hrun Hcf | c inflight Hsub | c]; try (rewrite Hu in Hup; apply Forall_cons in Hup as [Hue Hup]).
  - by apply call_inv.
  - destruct Hi. unfold drained. destruct (ca_running (cn_client c)); split; cbn; try done.
    + apply Forall_app_2; [done|]. apply Forall_singleton. intros ? ? [=].
    + by rewrite cmd_txs_app, app_nil_r.
    + eapply NoDup_part; [|done]. by apply submseteq_inserts_l.
  - destruct (command_parts _ _ _ _ _ _ _ Hi Hc Hcmd) as (Hp & Hsub & Hout & Hg). destruct Hi. split; cbn; try done; try by apply Forall_app_2.
    + unfold drained. destruct (ca_running a); [|apply Forall_nil_2]. rewrite Hc in ci_cmds0. by apply Forall_cons in ci_cmds0 as [_ ?].
    + eapply NoDup_part; [exact Hsub|]. by rewrite <-Hc.
  - apply server_inv; try done; [apply Forall_cons_2; [by eapply serve_known|done]|cbn; lia].
  - destruct (known_not_refused _ _ _ Hue Hse).
  - by apply server_inv.
  - rewrite Hf in Hin. apply Forall_app in Hin as [Hbf [Ht Haf]%Forall_cons]. apply server_inv; try done; [by apply Forall_app_2| |].
    + apply Forall_app_2; [done|]. destruct (task_reply _ _) as [e|] eqn:He; cbn; [apply Forall_singleton; by eapply reply_known|apply Forall_nil_2].
    + rewrite Hf, length_app in Hb. cbn in Hb. rewrite !length_app. unfold task_reply. destruct (rq_wait_reply (tk_request t)); cbn; [specialize (Hl eq_refl)|]; lia.
  - rewrite Hf in Hin, Hb. apply Forall_app in Hin as [Hbf [_ Haf]%Forall_cons]. apply server_inv; try done; [by apply Forall_app_2|]. rewrite length_app in *. cbn in Hb. lia.
  - rewrite He in Hq. apply Forall_cons in Hq as [Hk Hq]. apply server_inv; try done; [apply Forall_app_2; [done|]; by apply Forall_singleton, fit_known|].
    rewrite He in Hb. cbn in Hb. lia.
  - rewrite Hdn in Hd. apply Forall_cons in Hd as [Hk Hd]. destruct (receive_parts _ _ _ _ Hi Hk Hcf) as (Hp & Hperm & Hg). destruct Hi. split; cbn; try done; [|by rewrite Hperm|by apply Forall_app_2].
    intros id tx Hx. apply ci_pending0. by eapply lookup_weaken.
  - pose proof (pending_got _ Hi) as Hg. injection Hcf as <- <-. destruct Hi. split; cbn; try done; [|by apply Forall_app_2].
    rewrite map_to_list_empty. cbn. eapply NoDup_part; [|exact ci_once0]. rewrite fmap_app, fail_pending_txs, (Permutation_app_comm (cn_got c).*1). by apply submseteq_inserts_l.
  - apply server_inv; try done; [apply Forall_forall; intros t Ht; apply (proj1 (Forall_forall _ _) Hin); by eapply elem_of_sublist|]. apply sublist_length in Hsub. lia.
  - apply server_inv; try done. cbn. lia.
Qed.

Lemma conn_start_inv : conn_inv conn_start.
Proof. split; cbn; try done; try apply Forall_nil_2; [by rewrite map_to_list_empty; apply NoDup_nil_2|unfold inflight_cap, queue_cap; lia]. Qed.
Lemma conn_reachable_inv c : rtc conn_step conn_start c → conn_inv c.
Proof. intros Hr. pose proof conn_start_inv as Hi. induction Hr; [done|]. eauto using conn_step_inv. Qed.

Lemma call_runs c tx caller unicast_id call auth h :
  cn_calls c !! tx = None → ca_running (cn_client c) = true → cn_reading c = true →
  cn_cmds c = [] → cn_up c = [] → cn_queue c = [] → cn_down c = [] → length (cn_inflight c) < inflight_cap → (cn_next_id c + 1 < 2 ^ 64)%Z →
  behaves h → (∀ e, encoded_len e ≤ max_frame_length)%Z →
  ∃ c', rtc conn_step c c' ∧ cn_got c' = cn_got c ++ [(tx, ReplyResponse (mkResponse (cn_next_id c) (Some (h caller unicast_id call auth))))].
Proof.
  intros Htx Hrun Hread Hcmds Hup Hqueue Hdown Hin Hroom Hh Hlen.
  set (id := cn_next_id c) in *. set (request := mkRequest id (Some caller) (Some unicast_id) true (Some call)).
  set (o := h caller unicast_id call auth). set (e := client_envelope id caller unicast_id true call auth : Env).
  set (rsp := with_body CURRENT (BResponse (mkResponse id (Some o))) : Env).
  assert (ev_version e = Some CURRENT ∧ ev_body e = Some (BRequest request) ∧ ev_auth e = auth) as (Hv & Hbody & Hauth) by (unfold e, client_envelope; by destruct auth).
  eexists. split; [|shelve].
  eapply rtc_l; [apply (step_call c tx caller unicast_id true call auth); done|]. fold id. rewrite Hcmds. cbn [app].
  eapply rtc_l; [eapply (step_command _ (CmdCall e tx) [] WriteOk); [reflexivity|cbn; unfold as_request; rewrite Hbody; reflexivity]|]. cbn [cn_client ca_pending ca_running cn_up cn_reading cn_inflight cn_queue cn_down cn_calls cn_got cn_next_id]. rewrite Hup, app_nil_r. cbn [app].
  eapply rtc_l; [eapply (step_serve _ e [] (mkRpcTask CURRENT request auth)); [reflexivity|done|done|unfold serve_frame, check_version; rewrite Hv, Hbody, Hauth; reflexivity]|]. cbn [cn_client cn_cmds cn_reading cn_inflight cn_queue cn_down cn_calls cn_got cn_next_id].
  eapply rtc_l; [eapply (step_handled _ [] (mkRpcTask CURRENT request auth) (cn_inflight c) h); [reflexivity|done|intros _; cbn; rewrite Hqueue; unfold queue_cap; cbn; lia]|].
  assert (task_reply (mkRpcTask CURRENT request auth) (rpc_dispatch deserialize_error h request auth) = Some rsp) as Hreply by (cbn; fold o; unfold rsp; by destruct o).
  cbn [cn_client cn_cmds cn_up cn_reading cn_inflight cn_queue cn_down cn_calls cn_got cn_next_id tk_request tk_auth app]. rewrite Hreply, Hqueue. cbn [app option_list].
  eapply rtc_l; [eapply (step_write _ rsp []); reflexivity|]. cbn [cn_client cn_cmds cn_up cn_reading cn_inflight cn_queue cn_down cn_calls cn_got cn_next_id].
  unfold fit_frame. rewrite (proj2 (Z.leb_le _ _)) by apply Hlen. rewrite Hdown. cbn [app].
  apply rtc_once. eapply step_receive; [reflexivity|exact Hrun|cbn; rewrite lookup_insert_eq; reflexivity].
  Unshelve. reflexivity.
Qed.

(** ** Theorems *)

(** C40: A response belongs to its call.  However calls, notifications, timeouts, handlers, writes and
    failures of either end interleave on a connection, a channel gets at most one result, and a
    response it gets is what the peer's handler did with the very request of that call, or
    the error that stands for a response too large to send.  The requests in progress and the
    replies that wait stay within the limits of the server. *)
Theorem responses_match_calls c :
  rtc conn_step conn_start c →
  NoDup (cn_got c).*1 ∧ length (cn_inflight c) ≤ inflight_cap ∧ length (cn_queue c) ≤ queue_cap ∧
  ∀ tx reply, (tx, reply) ∈ cn_got c →
    ∃ request auth, cn_calls c !! tx = Some (request, auth) ∧
      match reply with
      | ReplyResponse r =>
          rs_outcome r = Some (OutcomeError (deserialize_error "response exceeds the maximum frame size")) ∨
          ∃ h, behaves h ∧ rs_outcome r = Some (rpc_dispatch deserialize_error h request auth)
      | _ => True
      end.
Proof.
  intros Hi%conn_reachable_inv. split; [|split; [apply Hi|split; [apply Hi|]]].
  - pose proof (ci_once _ Hi) as Ho. by apply NoDup_app in Ho as (_ & _ & (_ & _ & ?)%NoDup_app).
  - intros tx reply Hin. destruct (proj1 (Forall_forall _ _) (ci_got _ Hi) _ Hin) as (r & au & Hr & Ha). exists r, au. split; [done|]. cbn in Ha. destruct reply; [|done..]. destruct Ha as (_ & _ & [?|?]); auto.
Qed.

(** A call can always complete: on a connection that is up and has nothing queued, a call goes
    through, whatever waits from before, and returns what the handler answered. *)
Theorem call_can_complete c tx caller unicast_id call auth h :
  rtc conn_step conn_start c → cn_calls c !! tx = None → ca_running (cn_client c) = true → cn_reading c = true →
  cn_cmds c = [] → cn_up c = [] → cn_queue c = [] → cn_down c = [] → length (cn_inflight c) < inflight_cap → (cn_next_id c + 1 < 2 ^ 64)%Z →
  behaves h → (∀ e, encoded_len e ≤ max_frame_length)%Z →
  ∃ c' r, rtc conn_step conn_start c' ∧ cn_got c' = cn_got c ++ [(tx, ReplyResponse r)] ∧
    call_result (Some (Some (ReplyResponse r))) = match h caller unicast_id call auth with OutcomePayload p => Ok p | OutcomeError e => Err (RpcRemote e) end.
Proof.
  intros Hr Htx Hrun Hread Hcmds Hup Hqueue Hdown Hin Hroom Hh Hlen.
  destruct (call_runs c tx caller unicast_id call auth h) as (c' & Hs & Hg); [done..|]. exists c', (mkResponse (cn_next_id c) (Some (h caller unicast_id call auth))).
  split; [by etrans|]. split; [done|]. cbn. by destruct (h caller unicast_id call auth).
Qed.

(** The answer to a request of another protocol version carries a version that the asker drops. *)
Theorem version_refusal_unread (e response : Env) v :
  serve_frame deserialize_error e = ServedReply response → ev_version e = Some v →
  ∃ v', ev_version response = Some v' ∧ is_compatible_with v v' = false.
Proof.
  unfold serve_frame. intros Hs Hv. rewrite Hv in Hs. unfold check_version in Hs. rewrite Hv in Hs. destruct (is_compatible_with CURRENT v) eqn:Hc; cbn in Hs.
  { destruct (ev_body e) as [[]|]; done. }
  destruct (reply_wanted e) as [id|]; [|done]. injection Hs as <-. exists CURRENT. split; [done|]. unfold is_compatible_with in *. by rewrite Z.eqb_sym.
Qed.
End Connection.

(** ** Examples

    A server that adds one. *)
Definition succ_handler (caller : unit) (unicast_id : TypedValue) (call : nat) (auth : option Auth) : @Outcome nat string := OutcomePayload (S call).
Definition succ_step : @Conn unit nat nat string → Conn → Prop := conn_step (λ s, s) (λ _, 0%Z) (λ h, h = succ_handler) 100 server_limits_default.

Lemma succ_run : ∃ c : @Conn unit nat nat string, rtc succ_step conn_start c ∧ cn_got c = [(5, ReplyResponse (mkResponse 1 (Some (OutcomePayload 42))))].
Proof.
  apply (call_runs (λ s, s) (λ _, 0%Z) (λ h, h = succ_handler) 100 server_limits_default conn_start 5 tt (mkTypedValue "" []) 41 None succ_handler); try reflexivity; [vm_compute; lia|lia].
Qed.

Lemma responses_match_calls_witness :
  ∃ c : @Conn unit nat nat string, (5, ReplyResponse (mkResponse 1 (Some (OutcomePayload 42)))) ∈ cn_got c ∧ NoDup (cn_got c).*1 ∧
    ∃ request auth, cn_calls c !! 5 = Some (request, auth) ∧
      (Some (OutcomePayload 42) = Some (OutcomeError "response exceeds the maximum frame size"%string) ∨
       ∃ h : unit → TypedValue → nat → option Auth → Outcome, h = succ_handler ∧ Some (OutcomePayload 42) = Some (rpc_dispatch (λ s, s) h request auth)).
Proof.
  destruct succ_run as (c & Hr & Hg). assert ((5, ReplyResponse (mkResponse 1 (Some (OutcomePayload 42)))) ∈ cn_got c) as Hin by (rewrite Hg; by apply list_elem_of_here).
  exists c. split; [exact Hin|].
  destruct (responses_match_calls (λ s, s) (λ _, 0%Z) (λ h, h = succ_handler) 100 server_limits_default c Hr) as (Hn & _ & _ & Hx).
  split; [exact Hn|exact (Hx _ _ Hin)].
Defined.

Lemma call_can_complete_witness :
  ∃ (c' : @Conn unit nat nat string) r, rtc succ_step conn_start c' ∧ cn_got c' = [(5, ReplyResponse r)] ∧ call_result (Some (Some (ReplyResponse r))) = Ok 42.
Proof.
  apply (call_can_complete (λ s, s) (λ _, 0%Z) (λ h, h = succ_handler) 100 server_limits_default conn_start 5 tt (mkTypedValue "" []) 41 None succ_handler);
    try reflexivity; [vm_compute; lia|lia].
Defined.

Lemma version_refusal_unread_witness :
  ∃ response v', serve_frame (λ s, s) (mkEnvelope (Some (mkProtocolVersion 2 0)) (Some (BRequest (mkRequest 9 (Some tt) None true (Some 1)))) None : @Envelope unit nat nat string) = ServedReply response ∧
    ev_version response = Some v' ∧ is_compatible_with (mkProtocolVersion 2 0) v' = false.
Proof.
  destruct (serve_frame (λ s, s) (mkEnvelope (Some (mkProtocolVersion 2 0)) (Some (BRequest (mkRequest 9 (Some tt) None true (Some 1)))) None : @Envelope unit nat nat string)) as [r|t|] eqn:He; [|vm_compute in He; discriminate He..].
  destruct (version_refusal_unread (λ s, s) _ r (mkProtocolVersion 2 0) He eq_refl) as (v' & Hv & Hc). by exists r, v'.
Defined.
